(* ===== verification/_CoqProject ===== *)
-Q . S2P
Prelude.v
Text.v
Chrono.v
Calendar.v
Uri.v
Utf8.v
Tags.v
Audio.v
Songs.v
SongFilter.v
SongSave.v
SortList.v
StableSort.v
RangeArg.v
SongSort.v
Cue.v
Playlists.v
Directory.v
DbSave.v
TagScan.v
Storage.v
CompositeStorage.v
Config.v
SongUpdate.v
Sacd.v
CueValidator.v
Editor.v
Walk.v
WalkWf.v
WalkTexts.v
WalkTermination.v
WalkSound.v
WalkReports.v
RemoveService.v
Service.v
DbVisit.v
VisitLog.v
VisitOrder.v
VisitGetSong.v
SimpleDatabase.v
DbMain.v
Arrays.v
Queue.v
QueueWf.v
QueueOps.v
QueueRandom.v
QueueSpec.v
PlayControl.v
PlayRules.v
PlayWf.v
PlayOps.v
PlayPlayback.v
PlayEdits.v
PlayMoves.v
PlayTags.v
PlaySpec.v
SongPrint.v
Permission.v
Tokenizer.v
ArgParser.v
Client.v
ClientWf.v
Commands.v
CommandSafe.v
CommandTable.v
CommandSpec.v
ClientSpec.v
PlayFrame.v
PlayState.v
PlayStateSpec.v
PlayStateTrip.v
PcmSamples.v
PcmSpec.v
PcmBytes.v
PcmEffects.v
PcmExport.v
PcmExportSpec.v
PcmWords.v
PcmDevice.v
