(* ===== verification/Prelude.v ===== *)
(** * The database builder of MPD

    [mpd-dbcreate] ([src/DbMain.cxx]) walks a music directory, reads the tags
    of every song through decoder plugins and writes the database file which
    the server reads.  It is made of the database code of the Music Player
    Daemon.  This development is a shallow embedding of that code with the
    theorems that make it correct: C++ functions are Rocq functions of the
    same name, objects are records, an exception is the [Throw] of [Result],
    and what cannot be read here (the operating system, decoders, ICU, PCRE,
    gzip) are the operations of type classes whose laws, where a theorem
    needs them, are named hypotheses with a concrete instance.

    ** The parts and how they interact

    [DbMain.main] parses the arguments, opens the configured storage and the
    database, and enqueues one job with the update service; the update thread
    runs [Walk.Walk] over the storage, which edits the tree of [Directory]
    objects; [SimpleDatabase.Save] writes that tree as text.  A server opens
    the file with [SimpleDatabase.Open] and answers queries by
    [DbVisit.Visit].  The files, each with the sources it models under [src/]:

    - [Prelude]: bytes, machine integers, [Result], generic lemmas, tactics.
    - [Text], [Chrono], [Calendar], [Uri], [Utf8]: the utilities
      ([util/], [fs/Traits], [Chrono.hxx], [time/], [tag/FixString.cxx]);
      binary64 arithmetic is Stdlib's [SpecFloat].
    - [Tags], [Audio], [Songs]: tags and their builder ([tag/]), audio
      formats ([pcm/]), the song classes ([song/], [db/plugins/simple/Song]).
    - [SongFilter]: filter expressions ([song/Filter.cxx] and the classes of
      [ISongFilter]).
    - [SongSave], [Playlists], [DbSave]: the text of the database file
      ([SongSave.cxx], [TagSave.cxx], [PlaylistDatabase.cxx],
      [db/plugins/simple/DirectorySave.cxx], [DatabaseSave.cxx]).
    - [SortList], [SongSort]: [util/SortList.hxx], [SongSort.cxx].
    - [Cue]: the CUE sheet parser ([playlist/cue/]) and its song enumerator.
    - [Directory]: the tree ([db/plugins/simple/Directory]).
    - [TagScan], [SongUpdate], [Sacd]: reading songs ([tag/Handler.cxx],
      [TagFile.cxx], [decoder/DecoderPlugin], [SongUpdate.cxx],
      [FilteredSongUpdate.cxx], the tracks of SACD images).
    - [Storage], [CompositeStorage], [Config]: the storage interface as the
      update uses it, ignore lists, the tree of mounted storages, the storage
      of a local directory, configured paths.
    - [CueValidator], [Editor], [Walk]: the update ([db/update/]).
      [WalkWf] has the generic invariant of an update, for any predicate on
      directories that the elementary changes keep ([TreePred]); [WalkTexts],
      [WalkSound], [WalkReports] and [WalkTermination] are about its result.
    - [RemoveService], [Service]: the update thread's messages to the event
      loop and the queue of jobs ([db/update/Remove.cxx], [Service.cxx],
      [Queue.cxx], the inject queue of [event/Loop.cxx]).
    - [DbVisit], [VisitLog], [VisitOrder], [VisitGetSong]: queries
      ([SimpleDatabasePlugin.cxx], [Directory::Walk], [Mount.cxx],
      [VHelper.cxx], [Helpers.cxx], [UniqueTags.cxx]).
    - [SimpleDatabase], [DbMain]: the database object and the program.
    - [Arrays], [RangeArg], [StableSort]: arrays with undefined behaviour out
      of bounds, counted loops with their rule, [protocol/RangeArg.hxx],
      [std::stable_sort].
    - [Queue]: the play queue of the server ([queue/Queue.cxx],
      [queue/IdTable.hxx], [SingleMode.cxx], [ConsumeMode.cxx],
      [util/LazyRandomEngine.cxx]); [QueueWf], [QueueOps] and [QueueRandom]
      are its invariant and operations, [QueueSpec] the abstract queue.
    - [PlayControl]: the playlist, that is the queue with a current and a
      queued song and a player ([queue/Playlist.cxx], [PlaylistControl.cxx],
      [PlaylistEdit.cxx], [PlaylistTag.cxx], [PlaylistUpdate.cxx]), in a
      monad of state, exceptions and undefined behaviour.  The player thread
      is the class [PlayerControl], whose laws ([PlayerLaws]) say when it may
      hold a next song and that it does not start by itself.  Assertions of
      the source are part of the model: one that fails is undefined.  [PlayRules] has the weakest preconditions, [PlayWf]
      the invariant, [PlayOps], [PlayPlayback], [PlayEdits], [PlayMoves] and
      [PlayTags] show that the methods keep it, [PlaySpec] is about sequences
      of commands and events.
    - [Tokenizer], [ArgParser]: the words of a line and the values of arguments
      ([util/Tokenizer.cxx], [protocol/ArgParser.cxx]).
    - [Client]: the clients of a partition, what they wait for, their
      subscriptions and messages ([src/client]); a monad of the partition with
      exceptions; [ClientWf] has its invariant and rules.
    - [Commands]: the handlers of the commands ([src/command]); [CommandSafe]
      shows that they keep the invariant.  [CommandTable]: the table of
      commands, the look-up, permissions, lists of commands, lines and input
      ([command/AllCommands.cxx], [client/Process.cxx], [client/Read.cxx]);
      [CommandSpec] is about these, [ClientSpec] about a partition with all
      its clients and events.  The handlers that are not modelled are an
      argument of the table ([extern]) about which nothing is assumed.
    - [SongPrint]: songs and the queue as text for clients, with filter, window
      and sort order ([SongPrint.cxx], [TagPrint.cxx], [TimePrint.cxx],
      [queue/Print.cxx], [queue/Selection.cxx]).
    - [Permission]: passwords and permissions of the configuration
      ([Permission.cxx]).
    - [PlayState]: the state file of the playlist ([queue/Save.cxx],
      [queue/PlaylistState.cxx], [playlist/PlaylistSong.cxx]).
      [PlayStateSpec] is about any text, [PlayStateTrip] about a text that was
      saved; [PlayFrame] says what playing does not change.
    - [PcmSamples]: arithmetic on integer samples, dithers, volume and mixing of
      samples ([src/pcm]: [Traits.hxx], [Dither.cxx], [Volume.cxx],
      [Mix.cxx]), every signed operation checked for overflow; [PcmSpec] has
      its properties.  [PcmBytes]: samples as bytes in memory, in the byte
      order of the class [ByteOrder].  [PcmEffects]: software volume and
      mixing of buffers.
    - [PcmExport]: from samples to a device ([Order.cxx], [RestBuffer.hxx],
      [Dsd16.cxx], [Dsd32.cxx], [Dop.cxx], [Export.cxx]); [PcmExportSpec]
      works with the class [Blockwise] of functions that take a stream block
      by block, [PcmWords] with the bits of a word; [PcmDevice] has the
      reference and the exporter against it.

    ** State

    A [Directory] owns its children, so the tree is an inductive value; where
    the code follows a [parent] pointer, the model passes the chain of parents
    or the position of the directory (the indices that lead to it).  A
    [mounted_database] pointer is a number, and the databases that are open
    are a finite map.  The storage is a snapshot for the length of one walk.
    Concurrency is modelled where threads meet: [RemoveService.step] has one
    constructor per critical section of the update thread and the event loop,
    and the theorems hold for every interleaving.  Machine integers are [Z]
    with their wrap-around written out ([u32], [s64], ...).

    ** What the theorems show

    - The program: a run that succeeds leaves a file from which the songs of
      the walked tree are loaded ([main_scans]), its event loop is left
      ([event_loop_left]).
    - The update: terminates on cyclic links, keeps the tree well-formed and
      fit for the text form, leaves only what the storage has, and reports
      every song it removes ([WalkTermination] to [WalkReports]).
    - The database file: save and load are inverse up to the precision of the
      text, for a tree that fits the text format ([tree_ok]) and a file
      without a line of 512 KiB ([short_lines]), the limit of the reader;
      loading terminates on any file and rejects what it must ([SongSave],
      [DbSave], [SimpleDatabase]).
    - Queries: a visit and [GetSong] agree but for the hidden targets of
      playlists, sort and window are those of a stable sort, any visitor is the replay of a recorded log ([VisitLog],
      [VisitOrder], [VisitGetSong]).
    - The service: jobs follow a ledger and are started in order, nothing removed is lost, no
      wake-up is missed ([Service], [RemoveService]).
    - The parts: parsers terminate and invert printers (filters, audio
      formats, dates), the storage tree refines a finite map, sorting is
      stable, the UTF-8 validators agree, accepted URIs stay in their
      directory.
    - The play queue: every call refines the abstract queue, ids stay unique
      and findable, "plchanges" misses no change ([QueueSpec]).
    - The playlist: no sequence of [permitted] commands and player events is
      undefined or fails an assertion, edits keep the current song under
      stated conditions, the next song is the one that is queued,
      stale songs and ranges are removed exactly ([PlaySpec]).  Its last
      section has the states in which the code goes wrong.
    - The protocol: no input of clients makes the server undefined, as long as
      no line is a [hazard]: a command whose handler is not modelled, the id
      0, an empty range or one before the start of the queue in a move (of
      which the arguments do make it undefined); lines are read back
      as they were sent; the binary search finds every command; permissions
      are respected; "idle" loses no event; lists of commands stop at the
      first error ([ClientSpec]).  The window of "playlistfind" is the one of
      the sorted matches ([SongPrint]); the first entry of a password counts
      ([Permission]).
    - The state file: restoring any text is defined, and what was saved is
      restored ([PlayStateTrip]); its last section has the states that are
      not.
    - Samples: nothing overflows, results are in range and near the exact
      value, dithering does not drift, whatever calls are made with whatever
      buffers ([PcmSpec], [PcmEffects]).  A device gets the bytes of the
      reference in whatever buffers the stream comes ([PcmDevice]).

    ** Fuel and bounds

    Recursion that is not structural takes a fuel, and a theorem shows how
    much is enough: the number of lines for [directory_load], the length of
    the input for the parser of filters, the number of directories (pairs of
    inode and device) of the storage for [Walk], the number of databases for
    [Visit] and [GetSong], 64 lists for [SortList], the number of segments
    for paths.  Running out of fuel is [None] or an error of its own and
    never an ordinary result.
    The loop of [GenerateId] visits every id at most once, so the size of the
    table is enough ([GenerateId_spec]); the loops over the queue are counted.
    Where the C++ loop has no bound but the element it looks for, [None]
    stands for leaving the array, and the invariant excludes it.
    The binary search of [command_lookup] has the length of the table as fuel,
    enough since every round makes the interval smaller ([command_lookup_find]);
    [NextParams] has the length of the line plus one, since every argument
    takes a byte ([NextParams_enough]).  The loops over the state file take
    a line in every round and have the number of lines plus one as fuel
    ([restore_lines_safe], [wp_load_songs]).

    ** Not modelled

    The decoders, archive and input plugins, storages over the network and the
    neighbours of these: wrappers of libraries and of the system, which the
    model sees through [System], [Storage] and their like.  The player,
    decoder and output threads, mixers, resamplers, analysers and encoders:
    they move data between threads and devices; the playlist sees them as
    [PlayerControl].  Of the protocol: the
    handlers of the commands for the database, stored playlists, outputs,
    storages and partitions, commands that run in the background, and sending
    the output (a parameter says when the output buffer refuses bytes).
    Stickers, neighbours, Zeroconf.  Collation and character sets
    (ICU, iconv): parameters.  Inotify.  The parser of the configuration file;
    of its values, paths and tag settings are modelled. *)
From Stdlib Require Export ZArith NArith Lia Ascii String.
From stdpp Require Export base option list.

(** ** Byte strings *)

(** A C [char], and a [std::string] / [std::string_view] / C string
    without its terminator. *)
Notation byte := ascii (only parsing).
Notation bytes := (list ascii) (only parsing).

Notation length := Datatypes.length (only parsing).

Declare Scope mpd_scope.
Delimit Scope mpd_scope with mpd.

(** String literals of the source. *)
Definition lit (s : string) : bytes := String.list_ascii_of_string s.
Arguments lit _%_string.

#[export] Instance ascii_eq_decision : EqDecision ascii := ascii_dec.

(** The unsigned value of a byte. *)
Definition code (c : byte) : Z := Z.of_N (N_of_ascii c).
Definition chr (n : Z) : byte := ascii_of_N (Z.to_N n).

Definition LF : byte := chr 10.
Definition CR : byte := chr 13.
Definition NUL : byte := chr 0.
Definition DQUOTE : byte := chr 34.

(** Boolean equality of byte strings ([operator==] on strings). *)
Definition bytes_eqb (a b : bytes) : bool := bool_decide (a = b).
Infix "=b" := bytes_eqb (at level 70, no associativity) : mpd_scope.
Open Scope mpd_scope.

(** [starts_with], and the rest after the prefix. *)
Fixpoint after_prefix (s p : bytes) {struct p} : option bytes :=
  match p, s with
  | [], _ => Some s
  | _ :: _, [] => None
  | c :: p', d :: s' => if bool_decide (c = d) then after_prefix s' p' else None
  end.

Definition starts_with (s p : bytes) : bool :=
  match after_prefix s p with Some _ => true | None => false end.

Definition ends_with (s p : bytes) : bool := starts_with (reverse s) (reverse p).

(** ** Machine integers *)

Definition wrap_u (w : Z) (z : Z) : Z := z mod 2 ^ w.
Definition wrap_s (w : Z) (z : Z) : Z := (z + 2 ^ (w - 1)) mod 2 ^ w - 2 ^ (w - 1).
Definition u8 (z : Z) : Z := wrap_u 8 z.
Definition u16 (z : Z) : Z := wrap_u 16 z.
Definition u32 (z : Z) : Z := wrap_u 32 z.
Definition u64 (z : Z) : Z := wrap_u 64 z.
Definition s32 (z : Z) : Z := wrap_s 32 z.
Definition s64 (z : Z) : Z := wrap_s 64 z.

(** ** Exceptions *)

(** The exceptions the modelled code throws, by the place they come from. *)
Inductive result (A : Type) : Type :=
| Ok (a : A)
| Throw (what : bytes).
Arguments Ok {A} _.
Arguments Throw {A} _.

Definition rbind {A B} (r : result A) (f : A -> result B) : result B :=
  match r with Ok a => f a | Throw e => Throw e end.

Notation "'let*' p ':=' r 'in' k" := (rbind r (fun p => k))
  (at level 10, p pattern, r at level 100, k at level 200) : mpd_scope.

(** ** Lemmas and automation shared by the components *)

Create HintDb mpd.
Create Rewrite HintDb mpd_rw.

Lemma bytes_eqb_spec (a b : bytes) : reflect (a = b) (bytes_eqb a b).
Proof. apply bool_decide_reflect. Qed.

Lemma bytes_eqb_refl (a : bytes) : bytes_eqb a a = true.
Proof. unfold bytes_eqb. by apply bool_decide_eq_true. Qed.

Lemma bytes_eqb_eq (a b : bytes) : bytes_eqb a b = true <-> a = b.
Proof. unfold bytes_eqb. apply bool_decide_eq_true. Qed.

Lemma bytes_eqb_neq (a b : bytes) : bytes_eqb a b = false <-> a <> b.
Proof. unfold bytes_eqb. apply bool_decide_eq_false. Qed.

Lemma after_prefix_app (p s : bytes) : after_prefix (p ++ s) p = Some s.
Proof. induction p; simpl; [done|]. by rewrite bool_decide_true by done. Qed.

Lemma after_prefix_Some (s p r : bytes) : after_prefix s p = Some r <-> s = p ++ r.
Proof.
  split; [|intros ->; apply after_prefix_app].
  revert s; induction p as [|c p IH]; intros [|d s]; simpl; try naive_solver.
  case_bool_decide; naive_solver.
Qed.

Lemma starts_with_app (p s : bytes) : starts_with (p ++ s) p = true.
Proof. unfold starts_with. by rewrite after_prefix_app. Qed.

Lemma starts_with_true (s p : bytes) : starts_with s p = true <-> exists r, s = p ++ r.
Proof.
  unfold starts_with. destruct (after_prefix s p) eqn:E.
  - apply after_prefix_Some in E. naive_solver.
  - split; [done|]. intros [r ->]. by rewrite after_prefix_app in E.
Qed.

Lemma code_range c : (0 <= code c < 256)%Z.
Proof. unfold code. pose proof (N_ascii_bounded c). lia. Qed.

Lemma chr_code c : chr (code c) = c.
Proof. unfold chr, code. rewrite N2Z.id. apply ascii_N_embedding. Qed.

Lemma code_chr z : (0 <= z < 256)%Z -> code (chr z) = z.
Proof. intros H. unfold code, chr. rewrite N_ascii_embedding by lia. lia. Qed.

Lemma code_inj c d : code c = code d -> c = d.
Proof. intros H. by rewrite <- (chr_code c), H, chr_code. Qed.

Lemma wrap_u_range w z : (0 <= w)%Z -> (0 <= wrap_u w z < 2 ^ w)%Z.
Proof. intros. apply Z.mod_pos_bound. by apply Z.pow_pos_nonneg. Qed.

Lemma wrap_u_id w z : (0 <= z < 2 ^ w)%Z -> wrap_u w z = z.
Proof. apply Z.mod_small. Qed.

Lemma wrap_s_id w z : (0 < w)%Z -> (- 2 ^ (w - 1) <= z < 2 ^ (w - 1))%Z -> wrap_s w z = z.
Proof.
  intros Hw H. unfold wrap_s.
  assert (2 ^ w = 2 * 2 ^ (w - 1))%Z by (rewrite <- Z.pow_succ_r by lia; f_equal; lia).
  rewrite Z.mod_small; lia.
Qed.

Lemma u32_id z : (0 <= z < 4294967296)%Z -> u32 z = z.
Proof. intros. by apply wrap_u_id. Qed.

Lemma s32_id z : (-2147483648 <= z < 2147483648)%Z -> s32 z = z.
Proof. intros. by apply wrap_s_id. Qed.

Lemma wrap_s32_range z : (- 2 ^ 31 <= s32 z < 2 ^ 31)%Z.
Proof. unfold s32, wrap_s. pose proof (Z.mod_pos_bound (z + 2 ^ (32 - 1)) (2 ^ 32)). lia. Qed.

Lemma s64_id z : (-9223372036854775808 <= z < 9223372036854775808)%Z -> s64 z = z.
Proof. intros. by apply wrap_s_id. Qed.

Lemma u64_id z : (0 <= z < 18446744073709551616)%Z -> u64 z = z.
Proof. intros. by apply wrap_u_id. Qed.

Lemma rbind_Ok {A B} (r : result A) (f : A -> result B) b :
  rbind r f = Ok b <-> exists a, r = Ok a /\ f a = Ok b.
Proof.
  destruct r as [a|e]; simpl; split; try done.
  - intros H; by exists a.
  - intros (x & [= ->] & H); done.
  - intros (x & H & _); done.
Qed.

(** An assignment through an index that exists is an insertion; otherwise
    nothing happens. *)
Lemma alter_insert_eq {A} (f : A -> A) i (l : list A) x : l !! i = Some x -> alter f i l = <[i := f x]> l.
Proof.
  revert i. induction l as [|y l IH]; intros [|i] H; simpl in *; try done; [by injection H as ->|].
  f_equal. by apply IH.
Qed.

Lemma alter_none {A} (f : A -> A) i (l : list A) : l !! i = None -> alter f i l = l.
Proof.
  revert i. induction l as [|y l IH]; intros [|i] H; simpl in *; try done. f_equal. by apply IH.
Qed.

(** Case analysis on every byte: closes a decidable statement about one
    byte by evaluating its 256 instances. *)
Ltac all_bytes c := destruct c as [[] [] [] [] [] [] [] []]; vm_compute; try done.

(** Splits boolean conjunctions, disjunctions and equality tests met in
    the context into propositions. *)
Ltac reflect_bools :=
  repeat match goal with
  | H : _ && _ = true |- _ => apply andb_true_iff in H as [? ?]
  | H : _ || _ = false |- _ => apply orb_false_iff in H as [? ?]
  | H : negb _ = true |- _ => apply negb_true_iff in H
  | H : negb _ = false |- _ => apply negb_false_iff in H
  | H : bytes_eqb _ _ = true |- _ => apply bytes_eqb_eq in H
  | H : bytes_eqb _ _ = false |- _ => apply bytes_eqb_neq in H
  | H : (_ =? _)%Z = true |- _ => apply Z.eqb_eq in H
  | H : (_ =? _)%Z = false |- _ => apply Z.eqb_neq in H
  | H : (_ <? _)%Z = true |- _ => apply Z.ltb_lt in H
  | H : (_ <? _)%Z = false |- _ => apply Z.ltb_ge in H
  | H : (_ <=? _)%Z = true |- _ => apply Z.leb_le in H
  | H : (_ <=? _)%Z = false |- _ => apply Z.leb_gt in H
  end.

#[export] Hint Rewrite @bytes_eqb_refl @after_prefix_app @starts_with_app : mpd_rw.
#[export] Hint Resolve code_range : mpd.
