(* ===== verification/Text.v ===== *)
(** Text utilities of [src/util] and [src/fs]: character classes
    ([CharUtil.hxx]), stripping ([StringStrip.cxx]), splitting
    ([StringSplit.hxx], [IterableSplitString.hxx]), comparison
    ([StringCompare.hxx]), URI schemes ([UriExtract.cxx]), path
    composition ([fs/Traits]), the C library's number parsers as they are
    wrapped by [CNumberParser.hxx] and [NumberParser.hxx], decimal
    printing, and the line reader the database loader runs on.

    A [const char *] or [std::string_view] that may be [nullptr] is an
    [option bytes]; one that may not is [bytes].  C strings are taken
    without their terminator, so they contain no NUL byte. *)
From S2P Require Import Prelude.
Open Scope Z_scope.

(** ** CharUtil.hxx *)

Definition IsASCII (ch : byte) : bool := code ch <? 128.
Definition IsWhitespaceOrNull (ch : byte) : bool := code ch <=? 32.
(** [ch > 0 && ch <= 0x20] on a signed [char]. *)
Definition IsWhitespaceNotNull (ch : byte) : bool :=
  (0 <? wrap_s 8 (code ch)) && (wrap_s 8 (code ch) <=? 32).
Definition IsPrintableASCII (ch : byte) : bool := 32 <=? wrap_s 8 (code ch).
Definition IsNonPrintableASCII (ch : byte) : bool := code ch <? 32.
Definition in_range (ch lo hi : byte) : bool := (code lo <=? code ch) && (code ch <=? code hi).
Definition IsDigitASCII (ch : byte) : bool := in_range ch "0" "9".
Definition IsUpperAlphaASCII (ch : byte) : bool := in_range ch "A" "Z".
Definition IsLowerAlphaASCII (ch : byte) : bool := in_range ch "a" "z".
Definition IsAlphaASCII (ch : byte) : bool := IsUpperAlphaASCII ch || IsLowerAlphaASCII ch.
Definition IsAlphaNumericASCII (ch : byte) : bool := IsAlphaASCII ch || IsDigitASCII ch.
Definition ToLowerASCII (ch : byte) : byte :=
  if in_range ch "A" "Z" then chr (code ch + (code "a" - code "A")) else ch.

(** ** StringStrip.cxx *)

Fixpoint drop_while (f : byte -> bool) (s : bytes) : bytes :=
  match s with
  | [] => []
  | c :: s' => if f c then drop_while f s' else s
  end.

(** [StripLeft] on a C string. *)
Definition StripLeft_c (p : bytes) : bytes := drop_while IsWhitespaceNotNull p.
(** [StripLeft(std::string_view)]. *)
Definition StripLeft (s : bytes) : bytes := drop_while IsWhitespaceOrNull s.
Definition StripRight (s : bytes) : bytes := reverse (drop_while IsWhitespaceOrNull (reverse s)).
(** [Strip] on a C string. *)
Definition Strip_c (p : bytes) : bytes := StripRight (StripLeft_c p).
Definition Strip (s : bytes) : bytes := StripRight (StripLeft s).

(** ** StringSplit.hxx and IterableSplitString.hxx *)

Fixpoint Split (haystack : bytes) (ch : byte) : bytes * option bytes :=
  match haystack with
  | [] => ([], None)
  | c :: s =>
      if bool_decide (c = ch) then ([], Some s)
      else let '(a, b) := Split s ch in (c :: a, b)
  end.

(** [rfind] followed by [PartitionWithout]. *)
Definition SplitLast (haystack : bytes) (ch : byte) : bytes * option bytes :=
  match Split (reverse haystack) ch with
  | (_, None) => (haystack, None)
  | (b, Some a) => (reverse a, Some (reverse b))
  end.

(** The segments an [IterableSplitString] visits; an empty input yields
    one empty segment. *)
Fixpoint IterableSplitString (s : bytes) (separator : byte) : list bytes :=
  match s with
  | [] => [[]]
  | c :: s' =>
      if bool_decide (c = separator) then [] :: IterableSplitString s' separator
      else match IterableSplitString s' separator with
           | [] => [[c]]
           | seg :: segs => (c :: seg) :: segs
           end
  end.

(** ** StringCompare.hxx, StringAPI.hxx *)

(** [strcasecmp() == 0] / [strncasecmp() == 0] over equal lengths, in the
    C locale. *)
Definition StringIsEqualIgnoreCase (a b : bytes) : bool :=
  bytes_eqb (map ToLowerASCII a) (map ToLowerASCII b).
Definition StringStartsWith (haystack needle : bytes) : bool := starts_with haystack needle.
Definition StringAfterPrefix (haystack needle : bytes) : option bytes :=
  after_prefix haystack needle.
Definition StringEndsWithIgnoreCase (haystack needle : bytes) : bool :=
  (length needle <=? length haystack)%nat &&
  StringIsEqualIgnoreCase (drop (length haystack - length needle) haystack) needle.
Definition SkipPrefix (haystack needle : bytes) : bool * bytes :=
  match after_prefix haystack needle with
  | Some r => (true, r)
  | None => (false, haystack)
  end.

(** ** UriExtract.cxx *)

(** [uri.find("://")] *)
Fixpoint find_sub (s needle : bytes) : option nat :=
  if starts_with s needle then Some 0%nat
  else match s with
       | [] => None
       | _ :: s' => S <$> find_sub s' needle
       end.

Definition uri_get_scheme (uri : bytes) : bytes :=
  match find_sub uri (lit "://") with
  | None => []
  | Some n => take n uri
  end.

Definition uri_has_scheme (uri : bytes) : bool := negb (uri_get_scheme uri =b []).

(** ** fs/Traits.hxx, fs/Traits.cxx ([PathTraitsUTF8]) *)

Definition SEPARATOR : byte := "/"%char.
Definition IsSeparator (ch : byte) : bool := bool_decide (ch = SEPARATOR).

(** [GetFilenameSuffix] on a C string: a leading dot does not start a
    suffix and an empty suffix is none. *)
Definition GetFilenameSuffix (filename : bytes) : option bytes :=
  match SplitLast filename "." with
  | (_, None) => None
  | ([], Some _) => None
  | (_, Some []) => None
  | (_, Some suffix) => Some suffix
  end.

(** [GetFilenameSuffix(std::string_view)]: an empty view both when there
    is no dot and when nothing follows it. *)
Definition GetFilenameSuffix_view (filename : bytes) : bytes :=
  match SplitLast filename "." with
  | (_, None) => []
  | ([], Some _) => []
  | (_, Some suffix) => suffix
  end.

Definition GetBase (p : bytes) : bytes :=
  match SplitLast p SEPARATOR with
  | (_, None) => p
  | (_, Some base) => base
  end.

Definition GetPathSuffix (path : bytes) : option bytes := GetFilenameSuffix (GetBase path).

(** [BuildPathImpl]. *)
Definition Build (a b : bytes) : bytes :=
  match a, b with
  | [], _ => b
  | _, [] => a
  | _, b0 :: b' =>
      let result := if IsSeparator (List.last a NUL) then a else a ++ [SEPARATOR] in
      if IsSeparator b0 then result ++ b' else result ++ b
  end.

Definition IsAbsolute (p : bytes) : bool :=
  match p with [] => false | c :: _ => IsSeparator c end.

Definition IsAbsoluteOrHasScheme (p : bytes) : bool := IsAbsolute p || uri_has_scheme p.

(** db/Uri.hxx *)
Definition isRootDirectory (name : bytes) : bool := (name =b []) || (name =b [SEPARATOR]).

(** ** Decimal numbers: the C library and <charconv> *)

Definition digit_value (ch : byte) : Z := code ch - code "0".

(** The value of the leading digits, accumulated from [acc], and the rest. *)
Fixpoint scan_digits (acc : Z) (s : bytes) : Z * bytes :=
  match s with
  | c :: s' => if IsDigitASCII c then scan_digits (acc * 10 + digit_value c) s' else (acc, s)
  | [] => (acc, [])
  end.

Definition isspace (ch : byte) : bool :=
  bool_decide (code ch = 32) || ((9 <=? code ch) && (code ch <=? 13)).

Definition starts_digit (s : bytes) : bool :=
  match s with c :: _ => IsDigitASCII c | [] => false end.

(** White space, sign and digits of [strtol] and its relatives:
    (negative, magnitude, rest), or [None] when there are no digits. *)
Definition scan_integer (s : bytes) : option (bool * Z * bytes) :=
  let s1 := drop_while isspace s in
  let '(neg, s2) :=
    match s1 with
    | c :: s' => if bool_decide (c = "-"%char) then (true, s')
                 else if bool_decide (c = "+"%char) then (false, s') else (false, s1)
    | [] => (false, [])
    end in
  if starts_digit s2 then let '(v, r) := scan_digits 0 s2 in Some (neg, v, r) else None.

(** [strtol(s, &end, 10)] with a 64-bit [long]: saturating. *)
Definition strtol (s : bytes) : Z * bytes :=
  match scan_integer s with
  | None => (0, s)
  | Some (neg, v, r) => (Z.max (- 2 ^ 63) (Z.min (2 ^ 63 - 1) (if neg then - v else v)), r)
  end.

(** [strtoul]/[strtoull]: saturating, a minus sign negates modulo 2^64. *)
Definition strtoull (s : bytes) : Z * bytes :=
  match scan_integer s with
  | None => (0, s)
  | Some (neg, v, r) =>
      (if 2 ^ 64 <=? v then 2 ^ 64 - 1 else if neg then u64 (- v) else v, r)
  end.

(** [atoi]: [(int)strtol(s, nullptr, 10)]. *)
Definition atoi (s : bytes) : Z := s32 (fst (strtol s)).

Definition ParseUint64 (p : bytes) : Z := fst (strtoull p).

(** [ParseInteger<T>(std::string_view)] for an unsigned [T] whose largest
    value is [max]: [std::from_chars] takes neither white space nor a
    sign and the whole view has to be consumed. *)
Definition ParseInteger (max : Z) (src : bytes) : option Z :=
  if starts_digit src then
    let '(v, r) := scan_digits 0 src in
    match r with
    | [] => if v <=? max then Some v else None
    | _ :: _ => None
    end
  else None.

(** Decimal rendering ("{}" of an integer, "%u"). *)
Fixpoint print_aux (fuel : nat) (n : Z) (acc : bytes) : bytes :=
  match fuel with
  | O => acc
  | S fuel =>
      let acc := chr (code "0" + n mod 10) :: acc in
      if n <? 10 then acc else print_aux fuel (n / 10) acc
  end.

Definition print_nat (n : Z) : bytes := print_aux (S (Z.to_nat (Z.log2 n))) n [].

Definition print_int (n : Z) : bytes :=
  if n <? 0 then "-"%char :: print_nat (- n) else print_nat n.

(** "{:0w}" / "%0wu": at least [w] digits. *)
Definition print_pad (w : nat) (n : Z) : bytes :=
  let d := print_nat n in replicate (w - length d) "0"%char ++ d.

(** ** io/LineReader.hxx, util/TextFile.hxx *)

(** The lines that remain to be read.  Each is a C string. *)
Notation LineReader := (list bytes) (only parsing).

Definition ReadLine (file : LineReader) : option (bytes * LineReader) :=
  match file with [] => None | l :: f => Some (l, f) end.

(** What a [char *] consumer sees of a buffer line: up to the first NUL. *)
Fixpoint c_str (s : bytes) : bytes :=
  match s with
  | [] => []
  | c :: s' => if bool_decide (c = NUL) then [] else c :: c_str s'
  end.

(** [ReadBufferedLine] drops one carriage return before the newline. *)
Definition strip_cr (s : bytes) : bytes :=
  match reverse s with
  | c :: r => if bool_decide (c = CR) then reverse r else s
  | [] => s
  end.

(** All lines of a file, however long: complete ones by [ReadBufferedLine],
    the last unterminated one as it is, if it is not empty. *)
Fixpoint file_lines_aux (cur : bytes) (s : bytes) : LineReader :=
  match s with
  | [] => match cur with [] => [] | _ => [c_str (reverse cur)] end
  | c :: s' =>
      if bool_decide (c = LF) then c_str (strip_cr (reverse cur)) :: file_lines_aux [] s'
      else file_lines_aux (c :: cur) s'
  end.

Definition file_lines (s : bytes) : LineReader := file_lines_aux [] s.

(** [BufferedReader::MAX_SIZE]: what the buffer holds at most. *)
Definition MAX_SIZE : Z := 512 * 1024.

Definition fits_buffer (cur : bytes) : bool := Z.of_nat (length cur) <? MAX_SIZE.

(** [BufferedReader::ReadLine], until it returns null: where the buffer is
    full before the end of a line is seen, [Fill] fails, in this call and in
    all later ones. *)
Fixpoint read_lines_aux (cur : bytes) (s : bytes) : LineReader :=
  match s with
  | [] => match cur with [] => [] | _ => if fits_buffer cur then [c_str (reverse cur)] else [] end
  | c :: s' =>
      if bool_decide (c = LF) then
        if fits_buffer cur then c_str (strip_cr (reverse cur)) :: read_lines_aux [] s' else []
      else read_lines_aux (c :: cur) s'
  end.

Definition read_lines (s : bytes) : LineReader := read_lines_aux [] s.

(** No line of the text reaches 512 KiB. *)
Fixpoint short_lines_aux (cur : bytes) (s : bytes) : bool :=
  match s with
  | [] => fits_buffer cur
  | c :: s' => if bool_decide (c = LF) then fits_buffer cur && short_lines_aux [] s' else short_lines_aux (c :: cur) s'
  end.

Definition short_lines (s : bytes) : bool := short_lines_aux [] s.

(** [TextInputStream::ReadLine], until it returns null.  The buffer takes
    4095 bytes and a terminator; if there is no newline among them, they are
    a line.  [room]: how many more it takes. *)
Definition TEXT_BUFFER_SIZE : nat := 4096.

Fixpoint text_lines_aux (cur : bytes) (room : nat) (s : bytes) : LineReader :=
  match s with
  | [] => match cur with [] => [] | _ => [c_str (reverse cur)] end
  | c :: s' =>
      if bool_decide (c = LF) then c_str (strip_cr (reverse cur)) :: text_lines_aux [] (TEXT_BUFFER_SIZE - 1) s'
      else match room with
           | S (S _ as room) => text_lines_aux (c :: cur) room s'
           | _ => c_str (reverse (c :: cur)) :: text_lines_aux [] (TEXT_BUFFER_SIZE - 1) s'
           end
  end.

Definition text_lines (s : bytes) : LineReader := text_lines_aux [] (TEXT_BUFFER_SIZE - 1) s.

(** One line written by [BufferedOutputStream::Fmt("...\n")]. *)
Definition line (s : bytes) : bytes := s ++ [LF].

(** A text that survives one [line]/[ReadLine] round: no newline, no NUL,
    no carriage return at its end. *)
Definition plain (s : bytes) : Prop := (LF ∉ s) ∧ (NUL ∉ s) ∧ List.last s NUL ≠ CR.

#[export] Instance plain_dec s : Decision (plain s).
Proof. unfold plain. apply _. Defined.

(** ** Splitting *)

Lemma Split_cons_eq ch s : Split (ch :: s) ch = ([], Some s).
Proof. simpl. by rewrite bool_decide_true. Qed.

Lemma Split_app a ch s : ch ∉ a -> Split (a ++ ch :: s) ch = (a, Some s).
Proof.
  induction a as [|c a IH]; intros H; [apply Split_cons_eq|].
  apply not_elem_of_cons in H as [Hc Ha]. simpl.
  rewrite bool_decide_false by done. by rewrite IH.
Qed.

Lemma Split_none a ch : ch ∉ a -> Split a ch = (a, None).
Proof.
  induction a as [|c a IH]; intros H; [done|].
  apply not_elem_of_cons in H as [Hc Ha]. simpl.
  rewrite bool_decide_false by done. by rewrite IH.
Qed.

Lemma Split_spec s ch :
  match Split s ch with
  | (a, Some b) => s = a ++ ch :: b /\ ch ∉ a
  | (a, None) => a = s /\ ch ∉ s
  end.
Proof.
  induction s as [|c s IH]; simpl; [split; [done|apply not_elem_of_nil]|].
  case_bool_decide as Hc; [subst; split; [done|apply not_elem_of_nil]|].
  destruct (Split s ch) as [a [b|]]; destruct IH as [-> Hni];
    (split; [done|by apply not_elem_of_cons]).
Qed.

Lemma SplitLast_spec s ch :
  match SplitLast s ch with
  | (a, Some b) => s = a ++ ch :: b /\ ch ∉ b
  | (a, None) => a = s /\ ch ∉ s
  end.
Proof.
  unfold SplitLast. pose proof (Split_spec (reverse s) ch) as H.
  destruct (Split (reverse s) ch) as [b [a|]]; destruct H as [H Hni].
  - split; [|by rewrite elem_of_reverse].
    rewrite <- (reverse_involutive s), H, reverse_app, reverse_cons.
    by rewrite <- app_assoc.
  - split; [done|]. by rewrite elem_of_reverse in Hni.
Qed.

(** The place of the first, and of the last, separator is unique. *)
Lemma first_cut (ch : byte) n : forall b p a, ch ∉ n -> ch ∉ b -> n ++ ch :: p = b ++ ch :: a -> n = b /\ p = a.
Proof.
  induction n as [|c n IH]; intros [|d b] p a Hn Hb E; simpl in E.
  - by injection E as ->.
  - injection E as -> _. exfalso. apply Hb. by left.
  - injection E as -> _. exfalso. apply Hn. by left.
  - injection E as -> E. apply not_elem_of_cons in Hn as [_ Hn], Hb as [_ Hb].
    by destruct (IH b p a Hn Hb E) as [-> ->].
Qed.

Lemma last_cut (ch : byte) p n a b : ch ∉ n -> ch ∉ b -> p ++ ch :: n = a ++ ch :: b -> p = a /\ n = b.
Proof.
  intros Hn Hb E. apply (f_equal reverse) in E. rewrite !reverse_app, !reverse_cons, <- !app_assoc in E.
  apply (first_cut ch) in E as [E1 E2]; [|by rewrite elem_of_reverse..].
  by apply (inj reverse) in E1, E2.
Qed.

(** The segments are the source text, cut at the separators. *)
Fixpoint join (separator : byte) (segs : list bytes) : bytes :=
  match segs with
  | [] => []
  | [s] => s
  | s :: segs => s ++ separator :: join separator segs
  end.

Lemma IterableSplitString_ne s ch : IterableSplitString s ch <> [].
Proof.
  destruct s as [|c s]; simpl; [done|].
  case_bool_decide; [done|]. by destruct (IterableSplitString s ch).
Qed.

Lemma IterableSplitString_join s ch : join ch (IterableSplitString s ch) = s.
Proof.
  induction s as [|c s IH]; [done|]. simpl. pose proof (IterableSplitString_ne s ch).
  case_bool_decide as Hc; destruct (IterableSplitString s ch) as [|seg [|seg' segs]];
    try done; simpl in *; congruence.
Qed.

Lemma IterableSplitString_segments s ch : Forall (fun seg => ch ∉ seg) (IterableSplitString s ch).
Proof.
  induction s as [|c s IH]; simpl.
  - repeat constructor. apply not_elem_of_nil.
  - case_bool_decide as Hc; [constructor; [apply not_elem_of_nil|done]|].
    destruct (IterableSplitString s ch) as [|seg segs]; inversion_clear IH || idtac;
      repeat constructor; auto; apply not_elem_of_cons; split; auto using not_elem_of_nil.
Qed.

Lemma IterableSplitString_app seg s ch : ch ∉ seg ->
  IterableSplitString (seg ++ ch :: s) ch = seg :: IterableSplitString s ch.
Proof.
  induction seg as [|c seg IH]; intros H; simpl.
  - by rewrite bool_decide_true.
  - apply not_elem_of_cons in H as [Hc H]. rewrite bool_decide_false by done. by rewrite IH.
Qed.

Lemma IterableSplitString_single seg ch : ch ∉ seg -> IterableSplitString seg ch = [seg].
Proof.
  induction seg as [|c seg IH]; intros H; [done|].
  apply not_elem_of_cons in H as [Hc H]. simpl. rewrite bool_decide_false by done. by rewrite IH.
Qed.

Lemma join_IterableSplitString segs ch : segs <> [] -> Forall (fun seg => ch ∉ seg) segs ->
  IterableSplitString (join ch segs) ch = segs.
Proof.
  intros Hne H. induction H as [|seg segs Hseg Hsegs IH]; [done|].
  destruct segs as [|seg' segs]; [by apply IterableSplitString_single|].
  change (join ch (seg :: seg' :: segs)) with (seg ++ ch :: join ch (seg' :: segs)).
  rewrite IterableSplitString_app by done. by rewrite IH.
Qed.

(** ** Stripping *)

Definition head_ok (f : byte -> bool) (s : bytes) : Prop :=
  match s with [] => True | c :: _ => f c = false end.

Lemma drop_while_head f s : head_ok f (drop_while f s).
Proof. induction s as [|c s IH]; simpl; [done|]. destruct (f c) eqn:E; simpl; auto. Qed.

Lemma drop_while_id f s : head_ok f s -> drop_while f s = s.
Proof. destruct s as [|c s]; simpl; [done|]. by intros ->. Qed.

Lemma drop_while_idemp f s : drop_while f (drop_while f s) = drop_while f s.
Proof. apply drop_while_id, drop_while_head. Qed.

Lemma drop_while_suffix f s : exists p, s = p ++ drop_while f s /\ Forall (fun c => f c = true) p.
Proof.
  induction s as [|c s IH]; simpl; [by exists []|].
  destruct (f c) eqn:E; [|by exists []].
  destruct IH as (p & Hs & Hp). exists (c :: p). split; [|by constructor].
  simpl. by rewrite <- Hs.
Qed.

Lemma WhitespaceNotNull_iff c :
  IsWhitespaceNotNull c = true <-> IsWhitespaceOrNull c = true /\ c <> NUL.
Proof. all_bytes c; split; (intros [? ?] || intros ?); try split; try done; by intros ?. Qed.

(** ** Number parsing inverts printing *)

Lemma scan_digits_app acc d s :
  Forall (fun c => IsDigitASCII c = true) d ->
  scan_digits acc (d ++ s) = scan_digits (fst (scan_digits acc d)) s.
Proof.
  intros H. revert acc. induction H as [|c d Hc Hd IH]; intros acc; [done|].
  simpl. rewrite Hc. apply IH.
Qed.

Lemma digit_chr n : 0 <= n < 10 ->
  IsDigitASCII (chr (code "0" + n)) = true /\ digit_value (chr (code "0" + n)) = n.
Proof.
  intros H. unfold digit_value, IsDigitASCII, in_range.
  change (code "0") with 48. change (code "9") with 57.
  rewrite code_chr by lia. split; [|lia]. apply andb_true_iff; split; apply Z.leb_le; lia.
Qed.

Lemma log2_div10 n : 10 <= n -> (Z.to_nat (Z.log2 (n / 10)) < Z.to_nat (Z.log2 n))%nat.
Proof.
  intros H. assert (0 < n / 10) by (apply Z.div_str_pos; lia).
  pose proof (Z.log2_nonneg (n / 10)).
  enough (Z.log2 (n / 10) < Z.log2 n) by lia.
  apply Z.log2_lt_pow2; [done|]. 
  pose proof (Z.log2_spec n ltac:(lia)) as [Hlo Hhi].
  rewrite Z.pow_succ_r in Hhi by apply Z.log2_nonneg.
  apply Z.div_lt_upper_bound; lia.
Qed.

Lemma scan_print_aux fuel n tl : 0 <= n -> (Z.to_nat (Z.log2 n) < fuel)%nat ->
  scan_digits 0 (print_aux fuel n tl) = scan_digits n tl.
Proof.
  revert n tl. induction fuel as [|fuel IH]; intros n tl Hn Hf; [lia|].
  pose proof (Z.mod_pos_bound n 10 ltac:(lia)) as Hm.
  destruct (digit_chr (n mod 10) Hm) as [Hd Hv]. cbn [print_aux].
  destruct (n <? 10) eqn:E; [apply Z.ltb_lt in E|apply Z.ltb_ge in E].
  - simpl. rewrite Hd, Hv. f_equal. rewrite Z.mod_small; lia.
  - pose proof (log2_div10 n E). pose proof (Z.div_pos n 10).
    rewrite IH by lia. simpl. rewrite Hd, Hv. f_equal.
    pose proof (Z.div_mod n 10). lia.
Qed.

Lemma print_aux_digits fuel n tl : 0 <= n -> (0 < fuel)%nat ->
  exists d, print_aux fuel n tl = d ++ tl /\ d <> [] /\ Forall (fun c => IsDigitASCII c = true) d.
Proof.
  revert n tl. induction fuel as [|fuel IH]; intros n tl Hn Hf; [lia|].
  pose proof (Z.mod_pos_bound n 10 ltac:(lia)) as Hm.
  destruct (digit_chr (n mod 10) Hm) as [Hd _]. cbn [print_aux].
  set (c := chr (code "0" + n mod 10)) in *.
  destruct (n <? 10).
  - exists [c]. split; [done|]. split; [done|]. by repeat constructor.
  - destruct fuel as [|fuel]; [exists [c]; split; [done|]; split; [done|]; by repeat constructor|].
    pose proof (Z.div_pos n 10).
    destruct (IH (n / 10) (c :: tl)) as (d & -> & Hne & Hdig); [lia|lia|].
    exists (d ++ [c]). rewrite <- app_assoc. split; [done|]. split; [by destruct d|].
    apply Forall_app; split; [done|]. by repeat constructor.
Qed.

Lemma print_nat_digits n : 0 <= n ->
  print_nat n <> [] /\ Forall (fun c => IsDigitASCII c = true) (print_nat n).
Proof.
  intros H. unfold print_nat.
  destruct (print_aux_digits (S (Z.to_nat (Z.log2 n))) n [] H) as (d & -> & ? & ?); [lia|].
  by rewrite app_nil_r.
Qed.

Lemma scan_print_nat n : 0 <= n -> scan_digits 0 (print_nat n) = (n, []).
Proof. intros H. unfold print_nat. rewrite scan_print_aux by lia. done. Qed.

Lemma scan_print_nat_app n s : 0 <= n -> starts_digit s = false ->
  scan_digits 0 (print_nat n ++ s) = (n, s).
Proof.
  intros H Hs. rewrite scan_digits_app by (by apply print_nat_digits).
  rewrite scan_print_nat by done. destruct s as [|c s]; [done|]. simpl in *. by rewrite Hs.
Qed.

Lemma scan_zeros k s : scan_digits 0 (replicate k "0"%char ++ s) = scan_digits 0 s.
Proof. induction k as [|k IH]; [done|]. exact IH. Qed.

Lemma print_pad_inj w n m : 0 <= n -> 0 <= m -> print_pad w n = print_pad w m -> n = m.
Proof.
  intros Hn Hm E. unfold print_pad in E.
  assert (scan_digits 0 (print_nat n) = scan_digits 0 (print_nat m)) as E'.
  { rewrite <- (scan_zeros (w - length (print_nat n)) (print_nat n)).
    rewrite <- (scan_zeros (w - length (print_nat m)) (print_nat m)). by rewrite E. }
  rewrite !scan_print_nat in E' by done. by injection E'.
Qed.

Lemma print_nat_starts_digit n s : 0 <= n -> starts_digit (print_nat n ++ s) = true.
Proof.
  intros H. destruct (print_nat_digits n H) as [Hne Hd].
  destruct (print_nat n); [done|]. by inversion Hd.
Qed.

Lemma digit_not_space c : IsDigitASCII c = true -> isspace c = false.
Proof. all_bytes c. Qed.

Lemma digit_not_sign c : IsDigitASCII c = true -> c <> "-"%char /\ c <> "+"%char.
Proof. all_bytes c. Qed.

(** What every [strto*] reads from a text that starts with a printed number. *)
Lemma scan_integer_print n s : 0 <= n -> starts_digit s = false ->
  scan_integer (print_nat n ++ s) = Some (false, n, s).
Proof.
  intros H Hs. pose proof (print_nat_starts_digit n s H) as Hd. unfold scan_integer.
  assert (drop_while isspace (print_nat n ++ s) = print_nat n ++ s) as ->.
  { apply drop_while_id. destruct (print_nat n ++ s); [done|]. by apply digit_not_space. }
  pose proof (scan_print_nat_app n s H Hs) as Hscan.
  destruct (print_nat n ++ s) as [|c r]; [done|].
  destruct (digit_not_sign c Hd) as [Hm Hp].
  rewrite !bool_decide_false by done. by rewrite Hd, Hscan.
Qed.

Lemma strtol_print n s : 0 <= n < 2 ^ 63 -> starts_digit s = false ->
  strtol (print_nat n ++ s) = (n, s).
Proof.
  intros H Hs. unfold strtol. rewrite scan_integer_print by (done || lia). f_equal; lia.
Qed.

Lemma strtoull_print n s : 0 <= n < 2 ^ 64 -> starts_digit s = false ->
  strtoull (print_nat n ++ s) = (n, s).
Proof.
  intros H Hs. unfold strtoull. rewrite scan_integer_print by (done || lia).
  destruct (2 ^ 64 <=? n) eqn:E; [apply Z.leb_le in E; lia|done].
Qed.

Lemma ParseInteger_print max n : 0 <= n <= max -> ParseInteger max (print_nat n) = Some n.
Proof.
  intros H. unfold ParseInteger.
  pose proof (print_nat_starts_digit n [] ltac:(lia)) as Hd. rewrite app_nil_r in Hd.
  rewrite Hd, scan_print_nat by lia. by rewrite (proj2 (Z.leb_le _ _)) by lia.
Qed.

Lemma print_nat_inj n m : 0 <= n -> 0 <= m -> print_nat n = print_nat m -> n = m.
Proof.
  intros Hn Hm H. pose proof (scan_print_nat n Hn) as E. rewrite H in E.
  rewrite scan_print_nat in E by done. congruence.
Qed.

Lemma print_int_nonneg n : 0 <= n -> print_int n = print_nat n.
Proof. intros. unfold print_int. by rewrite (proj2 (Z.ltb_ge _ _)) by lia. Qed.

(** ** Lines *)

Lemma c_str_id s : NUL ∉ s -> c_str s = s.
Proof.
  induction s as [|c s IH]; intros H; [done|]. apply not_elem_of_cons in H as [Hc Hs].
  simpl. rewrite bool_decide_false by done. by rewrite IH.
Qed.

Lemma last_snoc_rev (s : bytes) c r : reverse s = c :: r -> List.last s NUL = c.
Proof.
  intros H. rewrite <- (reverse_involutive s), H, reverse_cons. apply List.last_last.
Qed.

Lemma strip_cr_id s : List.last s NUL <> CR -> strip_cr s = s.
Proof.
  intros H. unfold strip_cr. destruct (reverse s) as [|c r] eqn:E; [done|].
  apply last_snoc_rev in E. by rewrite bool_decide_false by congruence.
Qed.

Lemma file_lines_aux_line cur l s : LF ∉ l ->
  file_lines_aux cur (l ++ LF :: s) =
  c_str (strip_cr (reverse cur ++ l)) :: file_lines s.
Proof.
  revert cur. induction l as [|c l IH]; intros cur H.
  - cbn [file_lines_aux app]. rewrite bool_decide_true by done. by rewrite app_nil_r.
  - apply not_elem_of_cons in H as [Hc Hl]. change ((c :: l) ++ LF :: s) with (c :: (l ++ LF :: s)).
    cbn [file_lines_aux]. rewrite bool_decide_false by done.
    rewrite IH by done. by rewrite reverse_cons, <- app_assoc.
Qed.

(** A long line comes in pieces of 4095 bytes. *)
Example text_lines_split : map length (text_lines (replicate 5000 "a"%char ++ LF :: lit "bc")) = [4095; 905; 2]%nat.
Proof. vm_compute. done. Qed.

(** The limit is of no effect on short lines. *)
Lemma read_lines_short_aux s cur : short_lines_aux cur s = true -> read_lines_aux cur s = file_lines_aux cur s.
Proof.
  revert cur. induction s as [|c s IH]; intros cur; cbn [short_lines_aux read_lines_aux file_lines_aux].
  - intros ->. by destruct cur.
  - case_bool_decide; [|apply IH]. intros [-> Hs]%andb_true_iff. by rewrite IH.
Qed.

Lemma read_lines_short s : short_lines s = true -> read_lines s = file_lines s.
Proof. apply read_lines_short_aux. Qed.

(** A written line is read back, whatever follows it. *)
Lemma file_lines_line l s : plain l -> file_lines (line l ++ s) = l :: file_lines s.
Proof.
  intros (Hlf & Hnul & Hcr). unfold file_lines, line. rewrite <- app_assoc. simpl.
  rewrite file_lines_aux_line by done. simpl.
  by rewrite strip_cr_id, c_str_id.
Qed.

Lemma last_app_ne (p s : bytes) d : s <> [] -> List.last (p ++ s) d = List.last s d.
Proof.
  intros H. destruct (exists_last H) as (s' & c & ->).
  by rewrite app_assoc, !List.last_last.
Qed.

(** A plain value stays plain behind a label without control characters. *)
Lemma plain_app p s :
  plain p -> plain s -> plain (p ++ s).
Proof.
  intros (Hl & Hn & Hc) (Hl' & Hn' & Hc'). unfold plain.
  rewrite !elem_of_app. split; [tauto|]. split; [tauto|].
  destruct s as [|x s]; [by rewrite app_nil_r|]. by rewrite last_app_ne.
Qed.

Lemma plain_nil : plain [].
Proof. split; [apply not_elem_of_nil|]. split; [apply not_elem_of_nil|done]. Qed.

Lemma plain_forall s : Forall (fun c => 32 <= code c) s -> plain s.
Proof.
  intros H. rewrite Forall_forall in H. split; [|split].
  - intros Hin%H. by compute in Hin.
  - intros Hin%H. by compute in Hin.
  - destruct s as [|x s] using rev_ind; [done|]. rewrite List.last_last. intros ->.
    assert (32 <= code CR) by (apply H, elem_of_app; right; by left). by compute in H0.
Qed.

Lemma plain_digits s : Forall (fun c => IsDigitASCII c = true) s -> plain s.
Proof.
  intros H. apply plain_forall. eapply Forall_impl; [done|].
  intros c Hc. unfold IsDigitASCII, in_range in Hc. reflect_bools.
  change (code "0") with 48 in *. lia.
Qed.

Lemma plain_print_nat n : 0 <= n -> plain (print_nat n).
Proof. intros H. by apply plain_digits, print_nat_digits. Qed.

(** Closes [plain] of a closed text by evaluation, of a concatenation by
    its parts. *)
Ltac plain_tac :=
  repeat apply plain_app;
  first [ assumption | (apply plain_print_nat; lia)
        | (apply (bool_decide_unpack _); vm_compute; exact I) | idtac ].

#[export] Hint Resolve plain_app plain_nil plain_print_nat : mpd.

Lemma head_digit_StripLeft_c n s : 0 <= n -> StripLeft_c (print_nat n ++ s) = print_nat n ++ s.
Proof.
  intros H. apply drop_while_id. pose proof (print_nat_starts_digit n s H) as Hd.
  destruct (print_nat n ++ s) as [|c r]; [done|]. simpl in *. revert Hd. all_bytes c.
Qed.

(** Texts of printable non-blank bytes. *)
Definition visible (s : bytes) : Prop := Forall (fun c => 33 <= code c) s.

#[export] Instance visible_dec s : Decision (visible s).
Proof. unfold visible. apply _. Defined.

Lemma visible_app a b : visible a -> visible b -> visible (a ++ b).
Proof. intros. by apply Forall_app. Qed.

Lemma visible_plain s : visible s -> plain s.
Proof. intros H. apply plain_forall. eapply Forall_impl; [exact H|]. simpl. lia. Qed.

Lemma visible_StripLeft_c s : visible s -> StripLeft_c s = s.
Proof.
  intros H. apply drop_while_id. destruct s as [|c s]; [done|]. inversion_clear H as [|? ? Hc _].
  simpl. unfold IsWhitespaceNotNull. apply andb_false_iff.
  destruct (decide (code c < 128)) as [Hl|Hl].
  - right. rewrite wrap_s_id by (simpl; pose proof (code_range c); lia). apply Z.leb_gt. lia.
  - left. apply Z.ltb_ge. pose proof (code_range c). unfold wrap_s.
    change (2 ^ (8 - 1)) with 128. change (2 ^ 8) with 256.
    pose proof (Z.mod_pos_bound (code c + 128) 256 ltac:(lia)).
    replace (code c + 128) with (code c - 128 + 1 * 256) by lia.
    rewrite Z.mod_add by lia. rewrite Z.mod_small by lia. lia.
Qed.

Lemma visible_print_nat n : 0 <= n -> visible (print_nat n).
Proof.
  intros H. eapply Forall_impl; [by apply print_nat_digits|].
  intros c Hc. unfold IsDigitASCII, in_range in Hc. reflect_bools.
  change (code "0") with 48 in *. lia.
Qed.
