(* ===== verification/Chrono.v ===== *)
(** Times: [Chrono.hxx] ([SongTime], [SignedSongTime]), the
    [system_clock] time points of [time/ChronoUtil.hxx], and the [double]
    arithmetic their text form goes through ([ToDoubleS], [FromS] and the
    C library's [strtod] behind [ParseDouble]).

    A [double] is a [spec_float]; every operation rounds to binary64
    (53 bits, emax 1024), round to nearest even, as the hardware does. *)
From S2P Require Import Prelude Text.
From Stdlib Require Import SpecFloat.
Open Scope Z_scope.

(** ** double *)

Notation double := spec_float (only parsing).

Definition d_of_Z (n : Z) : double := binary_normalize 53 1024 n 0 false.
Definition d_div (a b : double) : double := SFdiv 53 1024 a b.
Definition d_mul (a b : double) : double := SFmul 53 1024 a b.

(** The integral part (towards zero) of a finite value. *)
Definition d_trunc (d : double) : option Z :=
  match d with
  | S754_zero _ => Some 0
  | S754_finite s m e =>
      let v := if 0 <=? e then Z.pos m * 2 ^ e else Z.pos m / 2 ^ (- e) in
      Some (if s then - v else v)
  | S754_infinity _ | S754_nan => None
  end.

(** [int32_t(d)].  Out of range the conversion is undefined in C++; the
    value is the one the x86-64 [cvttsd2si] instruction returns. *)
Definition d_to_s32 (d : double) : Z :=
  match d_trunc d with
  | Some v => if (- 2 ^ 31 <=? v) && (v <? 2 ^ 31) then v else - 2 ^ 31
  | None => - 2 ^ 31
  end.

(** *** strtod, decimal and hexadecimal forms *)

(** Digits of a base: value and number of digits read. *)
Fixpoint scan_base (dig : byte -> option Z) (base : Z) (acc : Z) (n : nat) (s : bytes)
  : Z * nat * bytes :=
  match s with
  | c :: s' =>
      match dig c with
      | Some v => scan_base dig base (acc * base + v) (S n) s'
      | None => (acc, n, s)
      end
  | [] => (acc, n, [])
  end.

Definition dec_digit (c : byte) : option Z :=
  if IsDigitASCII c then Some (digit_value c) else None.
Definition hex_digit (c : byte) : option Z :=
  if IsDigitASCII c then Some (digit_value c)
  else if in_range c "a" "f" then Some (code c - code "a" + 10)
  else if in_range c "A" "F" then Some (code c - code "A" + 10)
  else None.

(** Mantissa digits with an optional point: (digits, fraction digits, any
    digit seen, rest). *)
Definition scan_mantissa (dig : byte -> option Z) (base : Z) (s : bytes) : Z * nat * bool * bytes :=
  let '(m, n, r) := scan_base dig base 0 0 s in
  match r with
  | c :: r' =>
      if bool_decide (c = "."%char) then
        let '(m', k, r'') := scan_base dig base m 0 r' in
        if (0 <? n + k)%nat then (m', k, true, r'') else (m, 0%nat, false, r)
      else (m, 0%nat, (0 <? n)%nat, r)
  | [] => (m, 0%nat, (0 <? n)%nat, [])
  end.

(** The optional exponent after [mark]; a mark without digits is not read. *)
Definition scan_exponent (mark : byte) (s : bytes) : Z :=
  match s with
  | c :: s' =>
      if bool_decide (ToLowerASCII c = mark) then
        let '(neg, s2) :=
          match s' with
          | d :: s'' => if bool_decide (d = "-"%char) then (true, s'')
                        else if bool_decide (d = "+"%char) then (false, s'') else (false, s')
          | [] => (false, [])
          end in
        let v := fst (scan_digits 0 s2) in if neg then - v else v
      else 0
  | [] => 0
  end.

(** [(-1)^s * m * 10^e], correctly rounded. *)
Definition d_decimal (s : bool) (m : Z) (e : Z) : double :=
  match m with
  | Z.pos p =>
      if 0 <=? e then binary_normalize 53 1024 (if s then - (m * 10 ^ e) else m * 10 ^ e) 0 s
      else match 10 ^ (- e) with
           | Z.pos q => d_div (S754_finite s p 0) (S754_finite false q 0)
           | _ => S754_nan
           end
  | _ => S754_zero s
  end.

Definition strtod (s : bytes) : double :=
  let s1 := drop_while isspace s in
  let '(neg, s2) :=
    match s1 with
    | c :: s' => if bool_decide (c = "-"%char) then (true, s')
                 else if bool_decide (c = "+"%char) then (false, s') else (false, s1)
    | [] => (false, [])
    end in
  let low := map ToLowerASCII s2 in
  if starts_with low (lit "inf") then S754_infinity neg
  else if starts_with low (lit "nan") then S754_nan
  else
    let '(hm, hk, hany, hr) := scan_mantissa hex_digit 16 (drop 2 s2) in
    if starts_with low (lit "0x") && hany then
      binary_normalize 53 1024 (if neg then - hm else hm)
        (scan_exponent "p" hr - 4 * Z.of_nat hk) neg
    else
      let '(m, k, any, r) := scan_mantissa dec_digit 10 s2 in
      if any then d_decimal neg m (scan_exponent "e" r - Z.of_nat k) else S754_zero false.

Definition ParseDouble (p : bytes) : double := strtod p.

(** ** Chrono.hxx *)

(** [SongTime]: a [uint32_t] count of milliseconds. *)
Definition SongTime_FromMS (ms : Z) : Z := u32 ms.
(** [SignedSongTime]: an [int32_t] count of milliseconds; -1 is "unknown". *)
Definition SignedSongTime_Negative : Z := -1.
Definition IsNegative_ms (t : Z) : bool := t <? 0.
Definition ToDoubleS (t : Z) : double := d_div (d_of_Z t) (d_of_Z 1000).
Definition SignedSongTime_FromS (s : double) : Z := d_to_s32 (d_mul s (d_of_Z 1000)).

(** ** system_clock time points: an [int64_t] count of nanoseconds *)

Definition time_point_min : Z := - 2 ^ 63.
(** [time/ChronoUtil.hxx] *)
Definition IsNegative (p : Z) : bool := p <? 0.
Definition NS : Z := 1000000000.
Definition to_time_t (p : Z) : Z := Z.quot p NS.
(** The product wraps as the generated multiplication does. *)
Definition from_time_t (t : Z) : Z := s64 (t * NS).

(** ** Lemmas *)

(** The part of a time point that its text form keeps: whole seconds. *)
Definition whole_seconds (p : Z) : Z := p / NS * NS.

Lemma to_time_t_nonneg p : 0 <= p -> to_time_t p = p / NS.
Proof. intros H. unfold to_time_t. apply Z.quot_div_nonneg; [done|]. by compute. Qed.

Lemma to_time_t_neg p : p < 0 -> to_time_t p <= 0.
Proof.
  intros H. unfold to_time_t. rewrite <- (Z.quot_0_l NS) by done.
  apply Z.quot_le_mono; [by compute|lia].
Qed.

Lemma to_time_t_range p : 0 <= p < 2 ^ 63 -> 0 <= to_time_t p < 9223372037.
Proof.
  intros H. rewrite to_time_t_nonneg by lia. split; [apply Z.div_pos; [lia|done]|].
  apply Z.div_lt_upper_bound; [done|]. unfold NS. lia.
Qed.

Lemma from_to_time_t p : 0 <= p < 2 ^ 63 -> from_time_t (to_time_t p) = whole_seconds p.
Proof.
  intros H. unfold from_time_t, whole_seconds. rewrite to_time_t_nonneg by lia.
  pose proof (Z.mul_div_le p NS ltac:(done)). pose proof (Z.div_pos p NS ltac:(lia) ltac:(done)).
  apply s64_id. unfold NS in *. lia.
Qed.

Lemma whole_seconds_idemp p : whole_seconds (whole_seconds p) = whole_seconds p.
Proof. unfold whole_seconds. by rewrite Z.div_mul. Qed.

Example strtod_examples :
  strtod (lit "1.001") = ToDoubleS 1001 /\ strtod (lit " 0x1.8p1") = d_of_Z 3 /\
  strtod (lit "-12e-1x") = d_div (d_of_Z (-12)) (d_of_Z 10).
Proof. vm_compute. done. Qed.

Example duration_drift : SignedSongTime_FromS (ToDoubleS 1001) = 1000 /\
  SignedSongTime_FromS (ToDoubleS 180500) = 180500.
Proof. vm_compute. done. Qed.
