(* ===== verification/Calendar.v ===== *)
(** Dates: [src/time/Calendar.hxx], [Math.cxx], [Convert.cxx] and
    [ISO8601.cxx].

    Of the C library the code uses [gmtime_r], [timegm], [strftime] and
    [strptime]; they are written out here for the proleptic Gregorian
    calendar and the directives that occur, [strptime] as glibc scans
    numbers.  The local time zone ([LocalTime], [MakeTime]) is not modelled. *)
From S2P Require Import Prelude Text Chrono.
Open Scope Z_scope.

(** ** Calendar.hxx *)

Definition IsLeapYear (y : Z) : bool :=
  (y mod 4 =? 0) && (negb (y mod 100 =? 0) || (y mod 400 =? 0)).
Definition DaysInFebruary (year : Z) : Z := if IsLeapYear year then 29 else 28.
Definition DaysInMonth (month year : Z) : Z :=
  if (month =? 4) || (month =? 6) || (month =? 9) || (month =? 11) then 30
  else if negb (month =? 2) then 31 else DaysInFebruary year.
Definition DaysInYear (year : Z) : Z := if IsLeapYear year then 366 else 365.

(** ** struct tm *)

(** The fields of the C structure, [tm_yday] and [tm_isdst] excepted. *)
Record tm := mkTm
  { tm_year : Z; tm_mon : Z; tm_mday : Z; tm_wday : Z; tm_hour : Z; tm_min : Z; tm_sec : Z }.

Definition tm_zero : tm := mkTm 0 0 0 0 0 0 0.
Definition set_date (t : tm) (year mon mday : Z) : tm :=
  mkTm year mon mday (tm_wday t) (tm_hour t) (tm_min t) (tm_sec t).
Definition set_wday (t : tm) (wday : Z) : tm :=
  mkTm (tm_year t) (tm_mon t) (tm_mday t) wday (tm_hour t) (tm_min t) (tm_sec t).
Definition set_time (t : tm) (hour min sec : Z) : tm :=
  mkTm (tm_year t) (tm_mon t) (tm_mday t) (tm_wday t) hour min sec.

(** ** Math.cxx *)

Definition IncrementMonth (t : tm) : tm :=
  let mon := tm_mon t + 1 in
  if 12 <=? mon then set_date t (tm_year t + 1) 0 (tm_mday t) else set_date t (tm_year t) mon (tm_mday t).

Definition EndOfMonth (t : tm) : tm :=
  IncrementMonth (set_date (set_time t 0 0 0) (tm_year t) (tm_mon t) 1).

Definition IncrementDay (t : tm) : tm :=
  let max_day := DaysInMonth (tm_mon t + 1) (tm_year t + 1900) in
  let mday := tm_mday t + 1 in
  let t := if max_day <? mday then IncrementMonth (set_date t (tm_year t) (tm_mon t) 1)
           else set_date t (tm_year t) (tm_mon t) mday in
  let wday := tm_wday t + 1 in set_wday t (if 7 <=? wday then 0 else wday).

Definition DecrementDay (t : tm) : tm :=
  let mday := tm_mday t - 1 in
  let t :=
    if mday <? 1 then
      let mon := tm_mon t - 1 in
      let '(year, mon) := if mon <? 0 then (tm_year t - 1, 11) else (tm_year t, mon) in
      set_date t year mon (DaysInMonth (mon + 1) (year + 1900))
    else set_date t (tm_year t) (tm_mon t) mday in
  let wday := tm_wday t - 1 in set_wday t (if wday <? 0 then 6 else wday).

(** ** The C library: days of the Gregorian calendar *)

(** Days since 1970-01-01; years begin with March so that the leap day is
    the last one. *)
Definition days_from_civil (year month day : Z) : Z :=
  let y := if month <=? 2 then year - 1 else year in
  365 * y + y / 4 - y / 100 + y / 400 + (153 * ((month + 9) mod 12) + 2) / 5 + day - 1 - 719468.

Definition civil_from_days (days : Z) : Z * Z * Z :=
  let z := days + 719468 in
  let era := z / 146097 in
  let doe := z mod 146097 in
  let yoe := (doe - doe / 1460 + doe / 36524 - doe / 146096) / 365 in
  let doy := doe - (365 * yoe + yoe / 4 - yoe / 100) in
  let mp := (5 * doy + 2) / 153 in
  let day := doy - (153 * mp + 2) / 5 + 1 in
  let month := if mp <? 10 then mp + 3 else mp - 9 in
  (yoe + 400 * era + (if month <=? 2 then 1 else 0), month, day).

(** ** Convert.cxx *)

(** [timegm] of a month from 0 to 11, which is all that occurs. *)
Definition timegm (t : tm) : Z :=
  days_from_civil (tm_year t + 1900) (tm_mon t + 1) (tm_mday t) * 86400 +
  tm_hour t * 3600 + tm_min t * 60 + tm_sec t.
Definition TimeGm (t : tm) : Z := from_time_t (timegm t).

(** The exception for a year that overflows an [int] cannot occur. *)
Definition GmTime (tp : Z) : tm :=
  let t := to_time_t tp in
  let days := t / 86400 in
  let s := t mod 86400 in
  let '(y, m, d) := civil_from_days days in
  mkTm (y - 1900) (m - 1) d ((days + 4) mod 7) (s / 3600) (s mod 3600 / 60) (s mod 60).

(** ** ISO8601.cxx *)

(** [strftime] with "%FT%TZ". *)
Definition FormatISO8601_tm (t : tm) : bytes :=
  print_int (tm_year t + 1900) ++ lit "-" ++ print_pad 2 (tm_mon t + 1) ++ lit "-" ++
  print_pad 2 (tm_mday t) ++ lit "T" ++ print_pad 2 (tm_hour t) ++ lit ":" ++
  print_pad 2 (tm_min t) ++ lit ":" ++ print_pad 2 (tm_sec t) ++ lit "Z".
Definition FormatISO8601 (tp : Z) : bytes := FormatISO8601_tm (GmTime tp).

(** The numbers of [strptime]: blanks, then digits while the next one can
    still fit below [to], [n] at most; [from] to [to] are accepted. *)
Fixpoint get_digits (to val : Z) (n : nat) (s : bytes) : Z * bytes :=
  match n, s with
  | S n, c :: s' =>
      if (val * 10 <=? to) && IsDigitASCII c then get_digits to (val * 10 + digit_value c) n s' else (val, s)
  | _, _ => (val, s)
  end.
Definition is_blank (c : byte) : bool := bool_decide (c = " "%char).
Definition get_number (from to : Z) (n : nat) (s : bytes) : option (Z * bytes) :=
  match drop_while is_blank s with
  | c :: s' =>
      if IsDigitASCII c then
        let '(val, r) := get_digits to (digit_value c) (pred n) s' in
        if (val <? from) || (to <? val) then None else Some (val, r)
      else None
  | [] => None
  end.

(** The directives of the source, and a literal character. *)
Definition strptime_Y (s : bytes) : option (Z * bytes) := get_number 0 9999 4 s.
Definition strptime_m (s : bytes) : option (Z * bytes) := get_number 1 12 2 s.
Definition strptime_d (s : bytes) : option (Z * bytes) := get_number 1 31 2 s.
Definition strptime_H (s : bytes) : option (Z * bytes) := get_number 0 23 2 s.
Definition strptime_M (s : bytes) : option (Z * bytes) := get_number 0 59 2 s.
Definition strptime_S (s : bytes) : option (Z * bytes) := get_number 0 61 2 s.
Definition match_char (c : byte) (s : bytes) : option bytes :=
  match s with b :: s => if bool_decide (b = c) then Some s else None | [] => None end.

(** "%Y-%m", "%Y-%m-%d" and "%Y%m%d". *)
Definition strptime_Y_m (s : bytes) : option (Z * Z * bytes) :=
  '(y, s) ← strptime_Y s; s ← match_char "-" s; '(m, s) ← strptime_m s; Some (y, m, s).
Definition strptime_Y_m_d (s : bytes) : option (Z * Z * Z * bytes) :=
  '(y, m, s) ← strptime_Y_m s; s ← match_char "-" s; '(d, s) ← strptime_d s; Some (y, m, d, s).
Definition strptime_Ymd (s : bytes) : option (Z * Z * Z * bytes) :=
  '(y, s) ← strptime_Y s; '(m, s) ← strptime_m s; '(d, s) ← strptime_d s; Some (y, m, d, s).

Definition consumed (s rest : bytes) : nat := length s - length rest.

(** The hours and minutes are [unsigned]. *)
Definition ParseTimeZoneOffsetRaw (s : bytes) : result (Z * Z * bytes) :=
  let '(value, endptr) := strtoull s in
  if Nat.eqb (consumed s endptr) 4 then Ok (u32 (value / 100), u32 (value mod 100), endptr)
  else if Nat.eqb (consumed s endptr) 2 then
    match match_char ":" endptr with
    | Some s =>
        let '(minutes, endptr) := strtoull s in
        if negb (Nat.eqb (consumed s endptr) 2) then Throw (lit "Failed to parse time zone offset")
        else Ok (u32 value, u32 minutes, endptr)
    | None => Ok (u32 value, 0, endptr)
    end
  else Throw (lit "Failed to parse time zone offset").

(** At a plus or minus sign. *)
Definition ParseTimeZoneOffset (s : bytes) : result (Z * bytes) :=
  match s with
  | [] => Throw (lit "assertion failed")
  | c :: s =>
      let* r := ParseTimeZoneOffsetRaw s in
      let '(hours, minutes, s) := r in
      if 13 <? hours then Throw (lit "Time offset hours out of range")
      else if 60 <=? minutes then Throw (lit "Time offset minutes out of range")
      else
        let d := (hours * 3600 + minutes * 60) * NS in
        Ok (if bool_decide (c = "-"%char) then - d else d, s)
  end.

(** The rest, the fields and the precision; [None] for a null pointer. *)
Definition ParseTimeOfDay (s : bytes) (t : tm) : option (bytes * tm * Z) :=
  '(h, s) ← strptime_H s;
  let t := set_time t h (tm_min t) (tm_sec t) in
  match match_char ":" s with
  | Some s =>
      '(m, s) ← strptime_M s;
      let t := set_time t h m (tm_sec t) in
      match match_char ":" s with
      | None => Some (s, t, 60 * NS)
      | Some s => '(sec, s) ← strptime_S s; Some (s, set_time t h m sec, NS)
      end
  | None =>
      match strptime_M s with
      | None => Some (s, t, 3600 * NS)
      | Some (m, s) =>
          let t := set_time t h m (tm_sec t) in
          match strptime_S s with
          | None => Some (s, t, 60 * NS)
          | Some (sec, s) => Some (s, set_time t h m sec, NS)
          end
      end
  end.

(** The time point and the precision. *)
Definition ParseISO8601 (s : bytes) : result (Z * Z) :=
  match strptime_Y_m s with
  | Some (y, m, []) =>
      let t := set_date tm_zero (y - 1900) (m - 1) 1 in
      let start := TimeGm t in
      Ok (start, s64 (TimeGm (EndOfMonth t) - start))
  | _ =>
      match (match strptime_Y_m_d s with Some r => Some r | None => strptime_Ymd s end) with
      | None => Throw (lit "Failed to parse date")
      | Some (y, m, d, s) =>
          let t := set_date tm_zero (y - 1900) (m - 1) d in
          let* r :=
            match match_char "T" s with
            | None => Ok (s, t, 86400 * NS)
            | Some s =>
                match ParseTimeOfDay s t with
                | Some r => Ok r
                | None => Throw (lit "Failed to parse time of day")
                end
            end in
          let '(s, t, precision) := r in
          let tp := TimeGm t in
          let* r :=
            match s with
            | c :: s' =>
                if bool_decide (c = "Z"%char) then Ok (tp, s')
                else if bool_decide (c = "+"%char) || bool_decide (c = "-"%char)
                then let* o := ParseTimeZoneOffset s in Ok (s64 (tp - fst o), snd o)
                else Ok (tp, s)
            | [] => Ok (tp, s)
            end in
          let '(tp, s) := r in
          match s with
          | [] => Ok (tp, precision)
          | _ => Throw (lit "Garbage at end of time stamp")
          end
      end
  end.

Example iso_examples :
  FormatISO8601 0 = lit "1970-01-01T00:00:00Z" /\
  FormatISO8601 (1709208000 * NS + 5) = lit "2024-02-29T12:00:00Z" /\
  ParseISO8601 (lit "2024-02") = Ok (1706745600 * NS, 29 * 86400 * NS) /\
  ParseISO8601 (lit "20240229T1200+0130") = Ok ((1709208000 - 5400) * NS, 60 * NS).
Proof. vm_compute. done. Qed.

(** ** Lemmas: the calendar *)

Lemma doe_facts doe : 0 <= doe < 146097 ->
  let yoe := (doe - doe / 1460 + doe / 36524 - doe / 146096) / 365 in
  0 <= yoe <= 399 /\ 0 <= doe - (365 * yoe + yoe / 4 - yoe / 100) <= 365.
Proof. intros H. cbv zeta. Z.to_euclidean_division_equations. lia. Qed.

Lemma civil_from_days_spec z :
  let '(y, m, d) := civil_from_days z in
  days_from_civil y m d = z /\ 1 <= m <= 12 /\ 1 <= d <= 31 /\
  (z + 719468) / 146097 * 400 <= y <= (z + 719468) / 146097 * 400 + 400.
Proof.
  unfold civil_from_days. cbv zeta.
  set (era := (z + 719468) / 146097). set (doe := (z + 719468) mod 146097).
  assert (z + 719468 = 146097 * era + doe /\ 0 <= doe < 146097) as [Hz Hdoe]
    by (split; [apply Z.div_mod; lia|apply Z.mod_pos_bound; lia]).
  destruct (doe_facts doe Hdoe) as [Hy Hd].
  set (yoe := (doe - doe / 1460 + doe / 36524 - doe / 146096) / 365) in *.
  set (doy := doe - (365 * yoe + yoe / 4 - yoe / 100)) in *.
  set (mp := (5 * doy + 2) / 153).
  assert (0 <= mp <= 11) as Hmp by (unfold mp; Z.to_euclidean_division_equations; lia).
  assert (1 <= doy - (153 * mp + 2) / 5 + 1 <= 31) as Hday
    by (unfold mp; Z.to_euclidean_division_equations; lia).
  assert (forall m, m = (if mp <? 10 then mp + 3 else mp - 9) ->
    1 <= m <= 12 /\ (m + 9) mod 12 = mp) as Hm.
  { intros m ->. destruct (Z.ltb_spec mp 10); Z.to_euclidean_division_equations; lia. }
  destruct (Hm _ eq_refl) as [Hm1 Hm2]. split; [|split; [done|split; [done|]]].
  - unfold days_from_civil. rewrite Hm2.
    assert (forall m, (if m <=? 2 then yoe + 400 * era + (if m <=? 2 then 1 else 0) - 1
      else yoe + 400 * era + (if m <=? 2 then 1 else 0)) = yoe + 400 * era) as ->
      by (intros m; destruct (m <=? 2); lia).
    replace (yoe + 400 * era) with (yoe + era * 400) by lia.
    rewrite (Z.div_add yoe era 400), (Z.div_small yoe 400) by lia.
    replace (era * 400) with (era * 100 * 4) at 2 by lia. rewrite Z.div_add by lia.
    replace (era * 400) with (era * 4 * 100) at 2 by lia. rewrite Z.div_add by lia.
    unfold doy. lia.
  - destruct (_ <=? 2); lia.
Qed.

(** Dates that exist. *)
Definition valid_date (t : tm) : Prop :=
  0 <= tm_mon t <= 11 /\ 1 <= tm_mday t <= DaysInMonth (tm_mon t + 1) (tm_year t + 1900).
Definition tm_days (t : tm) : Z := days_from_civil (tm_year t + 1900) (tm_mon t + 1) (tm_mday t).

Ltac month_cases m :=
  let H := fresh in
  assert (m = 0 \/ m = 1 \/ m = 2 \/ m = 3 \/ m = 4 \/ m = 5 \/ m = 6 \/ m = 7 \/ m = 8 \/ m = 9 \/
    m = 10 \/ m = 11) as H by lia;
  repeat destruct H as [H|H]; subst m.

Lemma div_pred k y : 0 < k -> y / k - (y - 1) / k = if y mod k =? 0 then 1 else 0.
Proof.
  intros Hk. pose proof (Z.div_mod y k ltac:(lia)) as Hy. pose proof (Z.mod_pos_bound y k Hk) as Hm.
  destruct (Z.eqb_spec (y mod k) 0) as [E|E].
  - rewrite <- (Z.div_unique (y - 1) k (y / k - 1) (k - 1)) by lia. lia.
  - rewrite <- (Z.div_unique (y - 1) k (y / k) (y mod k - 1)) by lia. lia.
Qed.

(** A leap year has one more multiple of 4 that counts. *)
Lemma leap_days y :
  y / 4 - y / 100 + y / 400 - ((y - 1) / 4 - (y - 1) / 100 + (y - 1) / 400) =
  if IsLeapYear y then 1 else 0.
Proof.
  pose proof (div_pred 4 y) as H4. pose proof (div_pred 100 y) as H100. pose proof (div_pred 400 y) as H400.
  assert (y mod 100 = 0 -> y mod 4 = 0) as Ha
    by (intros H; apply Z.mod_divide in H; [|lia]; apply Z.mod_divide; [lia|];
        apply (Z.divide_trans _ 100); [by exists 25|done]).
  assert (y mod 400 = 0 -> y mod 100 = 0) as Hb
    by (intros H; apply Z.mod_divide in H; [|lia]; apply Z.mod_divide; [lia|];
        apply (Z.divide_trans _ 400); [by exists 4|done]).
  unfold IsLeapYear.
  destruct (Z.eqb_spec (y mod 4) 0), (Z.eqb_spec (y mod 100) 0), (Z.eqb_spec (y mod 400) 0);
    cbn [negb andb orb]; lia.
Qed.

(** The days before a year that begins in March, and before its months. *)
Definition years_days (y : Z) : Z := 365 * y + y / 4 - y / 100 + y / 400.
Definition months_days (m : Z) : Z := (153 * ((m + 9) mod 12) + 2) / 5.

Lemma days_from_civil_split y m d :
  days_from_civil y m d = years_days (if m <=? 2 then y - 1 else y) + months_days m + d - 719469.
Proof. unfold days_from_civil, years_days, months_days. lia. Qed.

Lemma years_days_leap y : years_days y = years_days (y - 1) + DaysInYear y.
Proof.
  pose proof (leap_days y). unfold years_days, DaysInYear. destruct (IsLeapYear y); lia.
Qed.

(** The first day of a month follows the last day of the previous one. *)
Lemma next_month y m : 0 <= m <= 11 ->
  days_from_civil (if 12 <=? m + 1 then y + 1 else y) (if 12 <=? m + 1 then 1 else m + 2) 1 =
  days_from_civil y (m + 1) (DaysInMonth (m + 1) y) + 1.
Proof.
  intros H. rewrite !days_from_civil_split. month_cases m;
    repeat match goal with
    | |- context [?a <=? ?b] => let v := eval vm_compute in (a <=? b) in change (a <=? b) with v; cbv iota
    | |- context [months_days ?c] => let v := eval vm_compute in (months_days c) in change (months_days c) with v
    | |- context [DaysInMonth ?c y] =>
        let v := eval cbv -[DaysInFebruary] in (DaysInMonth c y) in change (DaysInMonth c y) with v
    end; rewrite ?Z.add_simpl_r, ?(years_days_leap y);
    unfold DaysInYear, DaysInFebruary; destruct (IsLeapYear y); lia.
Qed.

Lemma days_from_civil_day y m d e : days_from_civil y m d = days_from_civil y m e + (d - e).
Proof. unfold days_from_civil. lia. Qed.

Lemma DaysInMonth_range m y : 28 <= DaysInMonth m y <= 31.
Proof.
  unfold DaysInMonth, DaysInFebruary. repeat match goal with |- context [if ?b then _ else _] => destruct b end; lia.
Qed.

Lemma IncrementMonth_fields t :
  IncrementMonth t = set_date t (if 12 <=? tm_mon t + 1 then tm_year t + 1 else tm_year t)
    (if 12 <=? tm_mon t + 1 then 0 else tm_mon t + 1) (tm_mday t).
Proof. unfold IncrementMonth. by destruct (12 <=? tm_mon t + 1). Qed.

Lemma IncrementDay_wday t : tm_wday (IncrementDay t) = if 7 <=? tm_wday t + 1 then 0 else tm_wday t + 1.
Proof.
  unfold IncrementDay. cbv zeta. destruct (_ <? _); rewrite ?IncrementMonth_fields; done.
Qed.

Lemma DecrementDay_wday t : tm_wday (DecrementDay t) = if tm_wday t - 1 <? 0 then 6 else tm_wday t - 1.
Proof.
  unfold DecrementDay. cbv zeta. destruct (tm_mday t - 1 <? 1); [destruct (tm_mon t - 1 <? 0)|]; done.
Qed.

Lemma weekday_after n : (if 7 <=? (n + 4) mod 7 + 1 then 0 else (n + 4) mod 7 + 1) = (n + 1 + 4) mod 7.
Proof. destruct (Z.leb_spec 7 ((n + 4) mod 7 + 1)); Z.to_euclidean_division_equations; lia. Qed.

Lemma weekday_before n : (if (n + 4) mod 7 - 1 <? 0 then 6 else (n + 4) mod 7 - 1) = (n - 1 + 4) mod 7.
Proof. destruct (Z.ltb_spec ((n + 4) mod 7 - 1) 0); Z.to_euclidean_division_equations; lia. Qed.

Lemma IncrementDay_days t : valid_date t ->
  valid_date (IncrementDay t) /\ tm_days (IncrementDay t) = tm_days t + 1.
Proof.
  intros [Hm Hd]. pose proof (next_month (tm_year t + 1900) (tm_mon t) Hm) as Hn.
  unfold IncrementDay, tm_days, valid_date in *. cbv zeta.
  destruct (Z.ltb_spec (DaysInMonth (tm_mon t + 1) (tm_year t + 1900)) (tm_mday t + 1)) as [Hl|Hl];
    rewrite ?IncrementMonth_fields; cbn [tm_year tm_mon tm_mday set_date set_wday].
  - assert (tm_mday t = DaysInMonth (tm_mon t + 1) (tm_year t + 1900)) as -> by lia.
    pose proof (DaysInMonth_range 1 (tm_year t + 1 + 1900)).
    pose proof (DaysInMonth_range (tm_mon t + 1 + 1) (tm_year t + 1900)).
    rewrite <- Hn. destruct (Z.leb_spec 12 (tm_mon t + 1)).
    + split; [change (0 + 1) with 1; lia|]. f_equal; lia.
    + split; [lia|]. f_equal; lia.
  - split; [lia|]. rewrite (days_from_civil_day _ _ _ (tm_mday t)). lia.
Qed.

Lemma DecrementDay_days t : valid_date t ->
  valid_date (DecrementDay t) /\ tm_days (DecrementDay t) = tm_days t - 1.
Proof.
  intros [Hm Hd]. unfold DecrementDay, tm_days, valid_date in *. cbv zeta.
  destruct (Z.ltb_spec (tm_mday t - 1) 1) as [Hl|Hl].
  - assert (tm_mday t = 1) as -> by lia.
    destruct (Z.ltb_spec (tm_mon t - 1) 0) as [Hj|Hj]; cbn [tm_year tm_mon tm_mday set_date set_wday].
    + assert (tm_mon t = 0) as -> by lia.
      pose proof (next_month (tm_year t - 1 + 1900) 11 ltac:(lia)) as Hn.
      pose proof (DaysInMonth_range 12 (tm_year t - 1 + 1900)).
      replace (tm_year t - 1 + 1900 + 1) with (tm_year t + 1900) in Hn by lia.
      change (11 + 1) with 12 in *. change (0 + 1) with 1. cbv [Z.leb Z.compare Pos.compare Pos.compare_cont] in Hn.
      split; lia.
    + pose proof (next_month (tm_year t + 1900) (tm_mon t - 1) ltac:(lia)) as Hn.
      pose proof (DaysInMonth_range (tm_mon t - 1 + 1) (tm_year t + 1900)).
      destruct (Z.leb_spec 12 (tm_mon t - 1 + 1)); [lia|]. split; [lia|].
      replace (tm_mon t - 1 + 2) with (tm_mon t + 1) in Hn by lia. lia.
  - split; [cbn [tm_year tm_mon tm_mday set_date set_wday]; lia|].
    cbn [tm_year tm_mon tm_mday set_date set_wday]. rewrite (days_from_civil_day _ _ _ (tm_mday t)). lia.
Qed.

(** ** Properties of the calendar *)

(** [IncrementDay] and [DecrementDay] move from each existing date to
    the date one day later or earlier in the Gregorian calendar, and keep
    the day of the week in step. *)
Theorem IncrementDay_DecrementDay (t : tm) (Hv : valid_date t) (Hw : tm_wday t = (tm_days t + 4) mod 7) :
  (valid_date (IncrementDay t) /\ tm_days (IncrementDay t) = tm_days t + 1 /\
   tm_wday (IncrementDay t) = (tm_days (IncrementDay t) + 4) mod 7) /\
  (valid_date (DecrementDay t) /\ tm_days (DecrementDay t) = tm_days t - 1 /\
   tm_wday (DecrementDay t) = (tm_days (DecrementDay t) + 4) mod 7).
Proof.
  destruct (IncrementDay_days t Hv) as [Hv1 Hd1]. destruct (DecrementDay_days t Hv) as [Hv2 Hd2].
  rewrite Hd1, Hd2, IncrementDay_wday, DecrementDay_wday, Hw, weekday_after, weekday_before. done.
Qed.

Lemma IncrementDay_DecrementDay_witness :
  let t := mkTm 124 1 29 4 0 0 0 in
  (valid_date (IncrementDay t) /\ tm_days (IncrementDay t) = tm_days t + 1 /\
   tm_wday (IncrementDay t) = (tm_days (IncrementDay t) + 4) mod 7) /\
  (valid_date (DecrementDay t) /\ tm_days (DecrementDay t) = tm_days t - 1 /\
   tm_wday (DecrementDay t) = (tm_days (DecrementDay t) + 4) mod 7).
Proof.
  apply (IncrementDay_DecrementDay (mkTm 124 1 29 4 0 0 0)); [|vm_compute; reflexivity].
  split; vm_compute; split; discriminate.
Defined.

(** ** Lemmas: the text form *)

Lemma print_pad_2 n : 0 <= n < 100 ->
  exists a b, print_pad 2 n = [a; b] /\ IsDigitASCII a = true /\ IsDigitASCII b = true /\
    digit_value a * 10 + digit_value b = n.
Proof.
  intros H. enough (existsb (fun a => existsb (fun b => bool_decide (print_pad 2 n = [a; b] /\
    IsDigitASCII a = true /\ IsDigitASCII b = true /\ digit_value a * 10 + digit_value b = n))
      (lit "0123456789")) (lit "0123456789") = true) as E.
  { apply existsb_exists in E as (a & _ & E). apply existsb_exists in E as (b & _ & E).
    exists a, b. by apply bool_decide_eq_true in E. }
  revert n H. enough (forallb (fun k => let n := Z.of_nat k in existsb (fun a => existsb (fun b =>
    bool_decide (print_pad 2 n = [a; b] /\ IsDigitASCII a = true /\ IsDigitASCII b = true /\
      digit_value a * 10 + digit_value b = n)) (lit "0123456789")) (lit "0123456789")) (seq 0 100) = true) as E.
  { intros n H. rewrite forallb_forall in E. specialize (E (Z.to_nat n)). cbv zeta in E.
    rewrite Z2Nat.id in E by lia. apply E. apply in_seq. lia. }
  vm_compute. reflexivity.
Qed.

(** Two digits are read as the number they show. *)
Lemma get_number_pad from to n s : 0 <= from <= n -> n <= to -> to < 100 ->
  get_number from to 2 (print_pad 2 n ++ s) = Some (n, s).
Proof.
  intros Hf Ht Hto. destruct (print_pad_2 n ltac:(lia)) as (a & b & -> & Ha & Hb & Hn).
  assert (0 <= digit_value a /\ 0 <= digit_value b) as [Ha0 Hb0].
  { unfold IsDigitASCII, in_range in Ha, Hb. unfold digit_value. reflect_bools. lia. }
  unfold get_number, is_blank. cbn [app drop_while]. rewrite bool_decide_false by (by intros ->).
  rewrite Ha. cbn [get_digits pred]. rewrite Hb, Hn.
  rewrite (proj2 (Z.leb_le _ _)) by lia. cbn [andb].
  replace (get_digits to n 0 s) with (n, s) by (by destruct s).
  rewrite (proj2 (Z.ltb_ge _ _)), (proj2 (Z.ltb_ge _ _)) by lia. done.
Qed.

Definition four_digits (y : Z) (s : bytes) : bool :=
  match s with
  | [a; b; c; d] =>
      forallb IsDigitASCII s &&
      (digit_value a * 1000 + digit_value b * 100 + digit_value c * 10 + digit_value d =? y)
  | _ => false
  end.

Lemma print_int_year y : 1600 <= y <= 2400 -> four_digits y (print_int y) = true.
Proof.
  intros H. enough (forallb (fun k => let y := Z.of_nat k in four_digits y (print_int y)) (seq 1600 801) = true) as E.
  { rewrite forallb_forall in E. specialize (E (Z.to_nat y)). cbv zeta in E.
    rewrite Z2Nat.id in E by lia. apply E. apply in_seq. lia. }
  vm_compute. reflexivity.
Qed.

Lemma strptime_Y_print y s : 1600 <= y <= 2400 -> strptime_Y (print_int y ++ s) = Some (y, s).
Proof.
  intros H. pose proof (print_int_year y H) as Hy. unfold four_digits in Hy.
  destruct (print_int y) as [|a [|b [|c [|d [|e r]]]]]; try done.
  cbn [forallb] in Hy. rewrite !andb_true_iff, Z.eqb_eq in Hy. destruct Hy as [(Ha & Hb & Hc & Hd & _) Hy].
  assert (forall x, IsDigitASCII x = true -> 0 <= digit_value x <= 9) as Hr.
  { intros x Hx. unfold IsDigitASCII, in_range in Hx. unfold digit_value. reflect_bools.
    change (code "9") with (code "0" + 9) in *. lia. }
  unfold strptime_Y, get_number, is_blank. cbn [app drop_while]. rewrite bool_decide_false by (by intros ->).
  pose proof (Hr a Ha). pose proof (Hr b Hb). pose proof (Hr c Hc). pose proof (Hr d Hd).
  rewrite Ha. cbn [get_digits pred]. rewrite Hb, (proj2 (Z.leb_le _ _)) by lia. cbn [andb].
  rewrite Hc, (proj2 (Z.leb_le _ _)) by lia. cbn [andb].
  rewrite Hd, (proj2 (Z.leb_le _ _)) by lia. cbn [andb].
  replace (get_digits 9999 _ 0 s) with ((((digit_value a * 10 + digit_value b) * 10 + digit_value c) * 10
    + digit_value d), s) by (by destruct s).
  rewrite (proj2 (Z.ltb_ge _ _)), (proj2 (Z.ltb_ge _ _)) by lia. cbn [orb]. do 2 f_equal. lia.
Qed.

(** The fields of a time that a time point can hold. *)
Definition fields_ok (t : tm) : Prop :=
  1600 <= tm_year t + 1900 <= 2400 /\ 1 <= tm_mon t + 1 <= 12 /\ 1 <= tm_mday t <= 31 /\
  0 <= tm_hour t <= 23 /\ 0 <= tm_min t <= 59 /\ 0 <= tm_sec t <= 59.

Lemma GmTime_timegm tp : timegm (GmTime tp) = to_time_t tp.
Proof.
  unfold GmTime. set (n := to_time_t tp). pose proof (civil_from_days_spec (n / 86400)) as H.
  destruct (civil_from_days (n / 86400)) as [[y m] d]. destruct H as (Hd & _).
  unfold timegm. cbn [tm_year tm_mon tm_mday tm_hour tm_min tm_sec].
  replace (y - 1900 + 1900) with y by lia. replace (m - 1 + 1) with m by lia. rewrite Hd.
  Z.to_euclidean_division_equations. lia.
Qed.

Lemma GmTime_fields tp : - 2 ^ 63 <= tp < 2 ^ 63 -> fields_ok (GmTime tp).
Proof.
  intros Htp. unfold GmTime. set (n := to_time_t tp).
  assert (- 9223372037 < n < 9223372037) as Hn
    by (unfold n, to_time_t, NS; Z.to_euclidean_division_equations; lia).
  pose proof (civil_from_days_spec (n / 86400)) as H.
  destruct (civil_from_days (n / 86400)) as [[y m] d]. destruct H as (_ & Hm & Hd & Hy).
  unfold fields_ok. cbn [tm_year tm_mon tm_mday tm_hour tm_min tm_sec].
  repeat split; try lia; Z.to_euclidean_division_equations; lia.
Qed.

Lemma from_time_t_id tp : - 2 ^ 63 <= tp < 2 ^ 63 -> from_time_t (to_time_t tp) = to_time_t tp * NS.
Proof.
  intros H. unfold from_time_t. apply s64_id. unfold to_time_t, NS. Z.to_euclidean_division_equations. lia.
Qed.

(** ** Properties of the text form *)

Lemma match_char_eq c s : match_char c (c :: s) = Some s.
Proof. simpl. by rewrite bool_decide_true. Qed.

Lemma ParseTimeOfDay_print t0 h m sec s : 0 <= h <= 23 -> 0 <= m <= 59 -> 0 <= sec <= 59 ->
  ParseTimeOfDay (print_pad 2 h ++ ":"%char :: print_pad 2 m ++ ":"%char :: print_pad 2 sec ++ s) t0 =
  Some (s, set_time t0 h m sec, NS).
Proof.
  intros Hh Hm Hs. unfold ParseTimeOfDay, strptime_H. rewrite (get_number_pad 0 23 h) by lia.
  cbn [mbind option_bind]. rewrite match_char_eq. unfold strptime_M. rewrite (get_number_pad 0 59 m) by lia.
  cbn [mbind option_bind]. rewrite match_char_eq. unfold strptime_S. by rewrite (get_number_pad 0 61 sec) by lia.
Qed.

Lemma strptime_Y_m_print y m s : 1600 <= y <= 2400 -> 1 <= m <= 12 ->
  strptime_Y_m (print_int y ++ "-"%char :: print_pad 2 m ++ s) = Some (y, m, s).
Proof.
  intros Hy Hm. unfold strptime_Y_m. rewrite strptime_Y_print by lia. cbn [mbind option_bind].
  rewrite match_char_eq. unfold strptime_m. cbn [mbind option_bind]. by rewrite (get_number_pad 1 12 m) by lia.
Qed.

Lemma strptime_Y_m_d_print y m d s : 1600 <= y <= 2400 -> 1 <= m <= 12 -> 1 <= d <= 31 ->
  strptime_Y_m_d (print_int y ++ "-"%char :: print_pad 2 m ++ "-"%char :: print_pad 2 d ++ s) = Some (y, m, d, s).
Proof.
  intros Hy Hm Hd. unfold strptime_Y_m_d. rewrite strptime_Y_m_print by lia. cbn [mbind option_bind].
  rewrite match_char_eq. unfold strptime_d. cbn [mbind option_bind]. by rewrite (get_number_pad 1 31 d) by lia.
Qed.

(** A full date and time in UTC. *)
Lemma ParseISO8601_full s y m d c r rest t p :
  strptime_Y_m s = Some (y, m, c :: r) -> strptime_Y_m_d s = Some (y, m, d, "T"%char :: rest) ->
  ParseTimeOfDay rest (set_date tm_zero (y - 1900) (m - 1) d) = Some (lit "Z", t, p) ->
  ParseISO8601 s = Ok (TimeGm t, p).
Proof.
  intros H1 H2 H3. unfold ParseISO8601. rewrite H1, H2, match_char_eq, H3. reflexivity.
Qed.

Lemma ParseISO8601_Format t : fields_ok t -> ParseISO8601 (FormatISO8601_tm t) =
  Ok (TimeGm t, NS).
Proof.
  intros (Hy & Hm & Hd & Hh & Hmi & Hs). unfold FormatISO8601_tm.
  etransitivity; [exact (ParseISO8601_full _ _ _ _ _ _ _ _ _
    (strptime_Y_m_print _ _ _ Hy Hm) (strptime_Y_m_d_print _ _ _ _ Hy Hm Hd)
    (ParseTimeOfDay_print _ _ _ _ _ Hh Hmi Hs))|].
  unfold set_time, set_date, tm_zero, TimeGm, timegm.
  cbn [tm_year tm_mon tm_mday tm_wday tm_hour tm_min tm_sec]. rewrite !Z.add_simpl_r. reflexivity.
Qed.

(** A time stamp printed in ISO 8601 form is parsed back as the same
    time point, cut to whole seconds, with a precision of one second, for
    every time point a [system_clock] can hold. *)
Theorem ParseISO8601_FormatISO8601 (tp : Z) (Htp : - 2 ^ 63 <= tp < 2 ^ 63) :
  ParseISO8601 (FormatISO8601 tp) = Ok (to_time_t tp * NS, NS).
Proof.
  unfold FormatISO8601. rewrite ParseISO8601_Format by (by apply GmTime_fields).
  unfold TimeGm. rewrite GmTime_timegm, from_time_t_id by exact Htp. reflexivity.
Qed.

Lemma ParseISO8601_FormatISO8601_witness :
  ParseISO8601 (FormatISO8601 (1709208000 * NS + 5)) = Ok (1709208000 * NS, NS) /\
  ParseISO8601 (FormatISO8601 (- 2 ^ 63)) = Ok (-9223372036 * NS, NS).
Proof.
  split.
  - apply (ParseISO8601_FormatISO8601 (1709208000 * NS + 5)). vm_compute. split; [discriminate|reflexivity].
  - apply (ParseISO8601_FormatISO8601 (- 2 ^ 63)). vm_compute. split; [discriminate|reflexivity].
Defined.
