(* ===== verification/Uri.v ===== *)
(** URIs: [src/util/UriUtil.cxx], [UriRelative.cxx] and the rest of
    [UriExtract.cxx].

    Some of these functions read behind the end of a string or call a
    [std::string_view] method on an empty view for certain arguments; such
    a result is [None] here. *)
From S2P Require Import Prelude Text.
Open Scope Z_scope.

(** ** UriUtil.cxx *)

Definition DOT : byte := "."%char.
Definition is_dot (c : byte) : bool := bool_decide (c = DOT).

(** The number of leading dots and what follows them. *)
Fixpoint count_dots (p : bytes) : nat * bytes :=
  match p with
  | c :: p' => if is_dot c then let '(n, r) := count_dots p' in (S n, r) else (0%nat, p)
  | [] => (0%nat, [])
  end.

(** [strchr] for the separator: the suffix it points to. *)
Definition not_separator (c : byte) : bool := negb (IsSeparator c).
Definition find_separator (p : bytes) : bytes := drop_while not_separator p.

Inductive segment_result := Unsafe | Next (q : bytes) | OutOfBounds.

(** The search starts one character after the dots, which is behind the
    terminator for three or more dots at the end. *)
Definition verify_uri_segment (p : bytes) : segment_result :=
  let '(dots, p) := count_dots p in
  if Nat.leb dots 2 && (match p with [] => true | c :: _ => IsSeparator c end) then Unsafe
  else match p with [] => OutOfBounds | _ :: p' => Next (find_separator p') end.

(** One round per slash. *)
Fixpoint uri_safe_local_loop (fuel : nat) (uri : bytes) : option bool :=
  match fuel with
  | O => None
  | S fuel =>
      match verify_uri_segment uri with
      | Unsafe => Some false
      | OutOfBounds => None
      | Next [] => Some true
      | Next (_ :: uri) => uri_safe_local_loop fuel uri
      end
  end.
Definition uri_safe_local (uri : bytes) : option bool := uri_safe_local_loop (S (length uri)) uri.

(** [StringAfterPrefixCaseASCII]: [strncasecmp]. *)
Fixpoint StringAfterPrefixCaseASCII (haystack needle : bytes) {struct needle} : option bytes :=
  match needle, haystack with
  | [], _ => Some haystack
  | _ :: _, [] => None
  | c :: needle, d :: haystack =>
      if bool_decide (ToLowerASCII c = ToLowerASCII d) then StringAfterPrefixCaseASCII haystack needle else None
  end.

Fixpoint SkipUriScheme_in (schemes : list bytes) (uri : bytes) : option bytes :=
  match schemes with
  | [] => None
  | scheme :: schemes =>
      match StringAfterPrefixCaseASCII uri scheme with
      | Some r => Some r
      | None => SkipUriScheme_in schemes uri
      end
  end.
Definition SkipUriScheme (uri : bytes) : option bytes :=
  SkipUriScheme_in [lit "http://"; lit "https://"; lit "ftp://"; lit "smb://"] uri.

Definition uri_remove_auth (uri : bytes) : bytes :=
  match SkipUriScheme uri with
  | None => []
  | Some auth =>
      let host := fst (Split auth SEPARATOR) in
      match Split host "@" with
      | (_, None) => []
      | (user, Some _) => take (length uri - length auth) uri ++ drop (S (length user)) auth
      end
  end.

(** The loop over the reversed segments; [first]: at the first of them. *)
Fixpoint squash_loop (path : list bytes) (first : bool) (segskips : nat) (result : bytes) : bytes :=
  match path with
  | [] => result
  | seg :: path =>
      if seg =b lit ".." then squash_loop path false (S segskips) result
      else match segskips with
           | S segskips => squash_loop path false segskips result
           | O => squash_loop path false 0 (seg ++ (if first then [] else [SEPARATOR]) ++ result)
           end
  end.

Definition uri_squash_dot_segments (uri : bytes) : bytes :=
  let path := match uri with [] => [] | _ => IterableSplitString uri SEPARATOR end in
  squash_loop (reverse (List.filter (fun seg => negb (seg =b lit ".")) path)) true 0 [].

(** ** UriExtract.cxx *)

Definition IsValidSchemeStart (ch : byte) : bool := IsLowerAlphaASCII ch.
Definition IsValidSchemeChar (ch : byte) : bool :=
  IsLowerAlphaASCII ch || IsDigitASCII ch || bool_decide (ch = "+"%char) || bool_decide (ch = "."%char) ||
  bool_decide (ch = "-"%char).
Definition IsValidScheme (p : bytes) : bool :=
  match p with [] => false | c :: p => IsValidSchemeStart c && forallb IsValidSchemeChar p end.

(** A suffix of the URI, with the part before it.  Behind a colon at the
    end the terminator is read. *)
Definition uri_after_scheme (uri : bytes) : option (bytes * bytes) :=
  match uri with
  | a :: b :: c :: _ =>
      if IsSeparator a && IsSeparator b && negb (IsSeparator c) then Some (take 2 uri, drop 2 uri)
      else
        match Split uri ":" with
        | (_, None) => None
        | (scheme, Some rest) =>
            if negb (IsValidScheme scheme) then None
            else if starts_with rest (lit "//") then Some (scheme ++ lit "://", drop 2 rest) else None
        end
  | _ => None
  end.

(** [None]: a null view. *)
Definition uri_get_path_query_fragment_parts (uri : bytes) : option (bytes * bytes) :=
  match uri_after_scheme uri with
  | Some (before, ap) =>
      match Split ap SEPARATOR with
      | (_, None) => None
      | (host, Some _) => Some (before ++ host, drop (length host) ap)
      end
  | None => Some ([], uri)
  end.
Definition uri_get_path_query_fragment (uri : bytes) : option bytes :=
  option_map snd (uri_get_path_query_fragment_parts uri).

(** The part before the path and the path. *)
Definition uri_get_path_parts (uri : bytes) : option (bytes * bytes) :=
  match uri_get_path_query_fragment_parts uri with
  | None => None
  | Some ([], path) => Some ([], path)
  | Some (before, path) =>
      Some (before, match Split path "?" with
                    | (p, Some _) => p
                    | (_, None) => fst (Split path "#")
                    end)
  end.
Definition uri_get_path (uri : bytes) : option bytes := option_map snd (uri_get_path_parts uri).

Definition uri_is_relative_path (uri : bytes) : bool :=
  negb (uri_has_scheme uri) && negb (match uri with c :: _ => IsSeparator c | [] => false end).
Definition uri_get_fragment (uri : bytes) : option bytes := snd (Split uri "#").

(** ** UriRelative.cxx *)

Definition uri_is_child (parent child : bytes) : bool :=
  match StringAfterPrefix child parent with
  | None | Some [] => false
  | Some (c :: _) => (parent =b []) || IsSeparator (List.last parent NUL) || IsSeparator c
  end.
Definition uri_is_child_or_same (parent child : bytes) : bool := (parent =b child) || uri_is_child parent child.

(** The base with the URI path replaced by an absolute one. *)
Definition replace_path (uri base : bytes) : bytes :=
  match find_sub base (lit "://") with
  | None => uri
  | Some i =>
      take (i + 3) base ++ fst (Split (drop (i + 3) base) SEPARATOR) ++ uri
  end.

Definition uri_apply_base (uri base : bytes) : option bytes :=
  match uri with
  | [] => None
  | c :: _ =>
      if IsSeparator c then Some (replace_path uri base)
      else match base with
           | [] => None
           | _ => Some ((if IsSeparator (List.last base NUL) then base else base ++ [SEPARATOR]) ++ uri)
           end
  end.

Definition ClearFilename (path : bytes) : bytes :=
  match SplitLast path SEPARATOR with (_, None) => [] | (p, Some _) => p ++ [SEPARATOR] end.
Definition StripLeadingSlashes (s : bytes) : bytes := drop_while IsSeparator s.

(** The return value and the path. *)
Definition ConsumeLastSegment (path : bytes) : option (bool * bytes) :=
  match path with
  | [] => None
  | _ =>
      match SplitLast (removelast path) SEPARATOR with
      | (_, None) => Some (false, removelast path)
      | (p, Some _) => Some (true, p ++ [SEPARATOR])
      end
  end.

(** The return value, the relative and the base path; each round removes
    part of the relative path. *)
Fixpoint ConsumeSpecial (fuel : nat) (relative_path base_path : bytes) : option (bool * bytes * bytes) :=
  match fuel with
  | O => None
  | S fuel =>
      match SkipPrefix relative_path (lit "./") with
      | (true, r) => ConsumeSpecial fuel (StripLeadingSlashes r) base_path
      | (false, _) =>
          match SkipPrefix relative_path (lit "../") with
          | (true, r) =>
              match ConsumeLastSegment base_path with
              | None => None
              | Some (false, b) => Some (false, StripLeadingSlashes r, b)
              | Some (true, b) => ConsumeSpecial fuel (StripLeadingSlashes r) b
              end
          | (false, _) =>
              if relative_path =b lit "." then Some (true, [], base_path)
              else Some (true, relative_path, base_path)
          end
      end
  end.

Fixpoint skip_dot_slash (fuel : nat) (s : bytes) : bytes :=
  match fuel with
  | O => s
  | S fuel => match SkipPrefix s (lit "./") with (true, r) => skip_dot_slash fuel r | (false, _) => s end
  end.

Definition uri_apply_relative (relative_uri base_uri : bytes) : option bytes :=
  match relative_uri with
  | [] => Some base_uri
  | c :: _ =>
      if uri_has_scheme relative_uri then Some relative_uri
      else if IsSeparator c then Some (replace_path relative_uri base_uri)
      else match uri_get_path_parts base_uri with
      | None =>
          let relative_path := skip_dot_slash (length relative_uri) relative_uri in
          if StringStartsWith relative_path (lit "../") then Some []
          else Some (base_uri ++ [SEPARATOR] ++ if relative_path =b lit "." then [] else relative_path)
      | Some (before, path) =>
          match ConsumeSpecial (S (length relative_uri)) relative_uri (ClearFilename path) with
          | None => None
          | Some (false, _, _) => Some []
          | Some (true, relative_path, base_path) => Some (before ++ base_path ++ relative_path)
          end
      end
  end.

Example uri_examples :
  uri_squash_dot_segments (lit "foo/bar/.././") = lit "foo/" /\
  uri_remove_auth (lit "http://user:pw@host/x") = lit "http://host/x" /\
  uri_apply_relative (lit "../c/./d") (lit "http://h/a/b") = Some (lit "http://h/c/./d") /\
  uri_safe_local (lit "a/..") = Some false /\ uri_safe_local (lit ".../../x") = Some true /\
  uri_safe_local (lit "a/...") = None /\ uri_apply_relative (lit "../x") (lit "base") = None.
Proof. vm_compute. done. Qed.

(** ** What a safe URI is *)

(** The depth a path leads to, [None] if it leaves the starting directory. *)
Fixpoint depth (n : nat) (segs : list bytes) : option nat :=
  match segs with
  | [] => Some n
  | seg :: segs =>
      if seg =b lit ".." then match n with O => None | S n => depth n segs end
      else if (seg =b lit ".") || (seg =b []) then depth n segs
      else depth (S n) segs
  end.

Definition plain_segment (seg : bytes) : bool := negb ((seg =b []) || (seg =b lit ".") || (seg =b lit "..")).
(** "...", "....", and so on. *)
Definition long_dots (seg : bytes) : bool := forallb is_dot seg && Nat.ltb 2 (length seg).

Notation segments uri := (IterableSplitString uri SEPARATOR) (only parsing).

Lemma count_dots_spec p : let '(n, r) := count_dots p in
  p = replicate n DOT ++ r /\ (match r with [] => True | c :: _ => c <> DOT end).
Proof.
  induction p as [|c p IH]; [done|]. simpl. unfold is_dot. case_bool_decide as Hc; [|done].
  destruct (count_dots p) as [n r]. destruct IH as [IH Hr]. split; [|done]. subst c. simpl. by rewrite <- IH.
Qed.

(** The first segment and what [strchr] leaves. *)
Lemma find_separator_segments p : exists seg, p = seg ++ find_separator p /\ (SEPARATOR ∉ seg) /\
  match find_separator p with
  | [] => segments p = [seg]
  | _ :: u => segments p = seg :: segments u
  end.
Proof.
  unfold find_separator. destruct (drop_while_suffix not_separator p) as (seg & Hp & Hs).
  exists seg. assert (SEPARATOR ∉ seg) as Hn.
  { intros Hin. rewrite Forall_forall in Hs. specialize (Hs _ Hin). by unfold not_separator, IsSeparator in Hs. }
  split; [done|]. split; [done|]. pose proof (drop_while_head not_separator p) as Hh.
  destruct (drop_while not_separator p) as [|c u]; rewrite Hp.
  - rewrite app_nil_r. by apply IterableSplitString_single.
  - simpl in Hh. unfold not_separator, IsSeparator in Hh. apply negb_false_iff, bool_decide_eq_true in Hh.
    subst c. by apply IterableSplitString_app.
Qed.

Lemma dots_segment n c s : c <> DOT -> (replicate n DOT ++ c :: s =b lit "..") = false /\
  (replicate n DOT ++ c :: s =b lit ".") = false /\ (replicate n DOT ++ c :: s =b []) = false.
Proof.
  intros Hc. destruct n as [|[|[|n]]]; simpl; repeat split; apply bytes_eqb_neq; intros [=]; try done; subst; done.
Qed.

Lemma replicate_dots n : (2 < n)%nat -> (replicate n DOT =b lit "..") = false /\
  (replicate n DOT =b lit ".") = false /\ (replicate n DOT =b []) = false.
Proof. intros H. destruct n as [|[|[|n]]]; try lia. repeat split; by apply bytes_eqb_neq. Qed.

Lemma replicate_no_separator n : SEPARATOR ∉ replicate n DOT.
Proof. intros [H _]%elem_of_replicate. done. Qed.

(** The segments of a string whose first segment was accepted. *)
Lemma verify_segments p q : verify_uri_segment p = Next q ->
  exists segs, segments p = segs ++ match q with [] => [] | _ :: u => segments u end /\
    (length q < length p)%nat /\
    ((exists seg, segs = [seg] /\ plain_segment seg = true /\ long_dots seg = false) \/
     (exists dots seg, segs = [dots; seg] /\ long_dots dots = true)).
Proof.
  unfold verify_uri_segment. pose proof (count_dots_spec p) as Hc.
  destruct (count_dots p) as [n r]. destruct Hc as [Hp Hr].
  destruct r as [|c r]; [rewrite andb_true_r; destruct (Nat.leb n 2); done|].
  destruct (Nat.leb n 2 && IsSeparator c) eqn:E; [done|]. intros [= <-].
  destruct (find_separator_segments r) as (seg & Hseg & Hnin & Hs).
  assert (length (find_separator r) < length p)%nat as Hlen.
  { rewrite Hp, length_app. simpl. rewrite Hseg at 2. rewrite length_app. lia. }
  unfold IsSeparator in E. destruct (decide (c = SEPARATOR)) as [-> | Hsep].
  - rewrite bool_decide_true, andb_true_r in E by done. apply Nat.leb_gt in E.
    exists [replicate n DOT; seg]. rewrite Hp, IterableSplitString_app by apply replicate_no_separator.
    split; [destruct (find_separator r); simpl; by rewrite Hs|]. split; [by rewrite <- Hp|]. right.
    exists (replicate n DOT), seg. split; [done|]. unfold long_dots. rewrite length_replicate.
    apply andb_true_iff. split; [|by apply Nat.ltb_lt]. apply forallb_forall. intros x Hx.
    apply list_elem_of_In, elem_of_replicate in Hx as [-> _]. done.
  - exists [replicate n DOT ++ c :: seg]. destruct (dots_segment n c seg Hr) as (H1 & H2 & H3).
    assert (SEPARATOR ∉ replicate n DOT ++ c :: seg) as Hnin'.
    { rewrite elem_of_app, elem_of_cons. intros [H|[H|H]]; [by apply replicate_no_separator in H|done|done]. }
    assert (p = (replicate n DOT ++ c :: seg) ++ find_separator r) as Hp'
      by (rewrite Hp, Hseg at 1; by rewrite <- app_assoc).
    split; [|split; [done|left; exists (replicate n DOT ++ c :: seg); split; [done|]]].
    + rewrite Hp' at 1. pose proof (drop_while_head not_separator r) as Hh. unfold find_separator in *.
      destruct (drop_while not_separator r) as [|b u].
      * rewrite app_nil_r. by rewrite IterableSplitString_single.
      * simpl in Hh. unfold not_separator, IsSeparator in Hh. apply negb_false_iff, bool_decide_eq_true in Hh.
        subst b. by rewrite IterableSplitString_app.
    + unfold plain_segment. rewrite H1, H2, H3. split; [done|]. unfold long_dots.
      rewrite forallb_app. simpl. unfold is_dot at 2. rewrite bool_decide_false by done.
      by rewrite andb_false_r.
Qed.

Lemma depth_mono segs n m k : depth n segs = Some k -> (n <= m)%nat -> exists k', depth m segs = Some k' /\ (k <= k')%nat.
Proof.
  revert n m k. induction segs as [|seg segs IH]; intros n m k H Hm; cbn [depth] in *.
  - injection H as <-. by exists m.
  - destruct (seg =b lit "..").
    + destruct n, m; try done; try lia. eapply IH; [exact H|lia].
    + destruct (_ || _); eapply IH; try exact H; lia.
Qed.

Lemma plain_segment_depth n seg segs : plain_segment seg = true -> depth n (seg :: segs) = depth (S n) segs.
Proof.
  unfold plain_segment. intros H. apply negb_true_iff in H. reflect_bools. simpl.
  rewrite !(proj2 (bytes_eqb_neq _ _)) by done. done.
Qed.

Lemma long_dots_depth n dots segs : long_dots dots = true -> depth n (dots :: segs) = depth (S n) segs.
Proof.
  unfold long_dots. intros [_ H%Nat.ltb_lt]%andb_true_iff. apply plain_segment_depth. unfold plain_segment.
  destruct dots as [|a [|b [|c dots]]]; simpl in H; try lia. rewrite !(proj2 (bytes_eqb_neq _ _)) by done. done.
Qed.

Lemma uri_safe_local_loop_depth fuel : forall uri n, uri_safe_local_loop fuel uri = Some true ->
  is_Some (depth n (segments uri)).
Proof.
  induction fuel as [|fuel IH]; intros uri n H; [done|]. cbn [uri_safe_local_loop] in H.
  destruct (verify_uri_segment uri) as [|q|] eqn:E; try done.
  apply verify_segments in E as (segs & Hs & _ & Hc). rewrite Hs.
  assert (forall m, is_Some (depth m (match q with [] => [] | _ :: u => segments u end))) as Hrest
    by (intros m; destruct q; [by exists m|by apply IH]).
  destruct Hc as [(seg & -> & Hp & _)|(dots & seg & -> & Hd)]; cbn [app].
  - by rewrite plain_segment_depth.
  - rewrite long_dots_depth by done. cbn [depth]. destruct (seg =b lit ".."); [apply Hrest|].
    destruct (_ || _); apply Hrest.
Qed.

Lemma verify_bad p : verify_uri_segment p = Unsafe ->
  exists seg segs, segments p = seg :: segs /\ plain_segment seg = false.
Proof.
  unfold verify_uri_segment. pose proof (count_dots_spec p) as Hc. destruct (count_dots p) as [n r].
  destruct Hc as [-> Hr]. destruct (Nat.leb n 2 && _) eqn:E; [|by destruct r]. intros _.
  apply andb_true_iff in E as [Hn%Nat.leb_le Hr'].
  exists (replicate n DOT), (match r with [] => [] | _ :: s => segments s end). split.
  - destruct r as [|c r]; [rewrite app_nil_r; apply IterableSplitString_single, replicate_no_separator|].
    unfold IsSeparator in Hr'. apply bool_decide_eq_true in Hr' as ->.
    apply IterableSplitString_app, replicate_no_separator.
  - destruct n as [|[|[|n]]]; try lia; done.
Qed.

Lemma verify_oob p : verify_uri_segment p = OutOfBounds -> exists n, (2 < n)%nat /\ p = replicate n DOT.
Proof.
  unfold verify_uri_segment. pose proof (count_dots_spec p) as Hc. destruct (count_dots p) as [n r].
  destruct Hc as [-> Hr]. destruct r; [|by destruct (_ && _)].
  destruct (Nat.leb_spec n 2); [done|]. intros _. exists n. by rewrite app_nil_r.
Qed.

Lemma uri_safe_local_loop_exact fuel : forall uri, (length uri < fuel)%nat ->
  Forall (fun seg => long_dots seg = false) (segments uri) ->
  uri_safe_local_loop fuel uri = Some (forallb plain_segment (segments uri)).
Proof.
  induction fuel as [|fuel IH]; intros uri Hf Hd; [lia|]. cbn [uri_safe_local_loop].
  destruct (verify_uri_segment uri) as [|q|] eqn:E.
  - apply verify_bad in E as (seg & segs & -> & Hp). simpl. by rewrite Hp.
  - apply verify_segments in E as (segs & Hs & Hlen & Hc). rewrite Hs in *.
    destruct Hc as [(seg & -> & Hp & _)|(dots & seg & -> & Hl)].
    + cbn [app forallb]. rewrite Hp. apply Forall_cons in Hd as [_ Hd]. destruct q as [|c u]; [done|].
      simpl in Hlen. apply IH; [lia|done].
    + apply Forall_cons in Hd as [Hd _]. congruence.
  - apply verify_oob in E as (n & Hn & ->).
    rewrite IterableSplitString_single in Hd by apply replicate_no_separator.
    apply Forall_cons in Hd as [Hd _]. unfold long_dots in Hd. rewrite length_replicate in Hd.
    rewrite (proj2 (Nat.ltb_lt _ _) Hn), andb_true_r in Hd.
    assert (forallb is_dot (replicate n DOT) = true) as Ht; [|congruence].
    apply forallb_forall. intros x Hx. by apply list_elem_of_In, elem_of_replicate in Hx as [-> _].
Qed.

(** ** Properties *)

(** What the comment on [uri_safe_local] promises of a segment: it is not
    empty (no double slashes, no slash at either end) and does not begin with
    a dot. *)
Definition documented_segment (seg : bytes) : bool :=
  match seg with [] => false | c :: _ => negb (is_dot c) end.

Lemma documented_segment_plain seg : documented_segment seg = true -> plain_segment seg = true /\ long_dots seg = false.
Proof.
  destruct seg as [|c seg]; [done|]. simpl. intros Hc%negb_true_iff. unfold long_dots. simpl. rewrite Hc. split; [|done].
  unfold is_dot in Hc. apply bool_decide_eq_false in Hc. unfold plain_segment. apply negb_true_iff.
  rewrite !(proj2 (bytes_eqb_neq _ _)); [done|..]; try done; by intros [= ->].
Qed.

(** C37: a URI that [uri_safe_local] accepts never climbs above the
    directory it starts in.  The URIs that its comment describes, with no
    empty segment and no segment that begins with a dot, are accepted; and an
    accepted URI without a segment of three or more dots has no empty segment
    and no segment "." or "..". *)
Theorem uri_safe_local_spec (uri : bytes) :
  (uri_safe_local uri = Some true -> is_Some (depth 0 (segments uri))) /\
  (Forall (fun seg => documented_segment seg = true) (segments uri) -> uri_safe_local uri = Some true) /\
  (uri_safe_local uri = Some true -> Forall (fun seg => long_dots seg = false) (segments uri) ->
   Forall (fun seg => seg <> [] /\ seg <> lit "." /\ seg <> lit "..") (segments uri)).
Proof.
  split; [apply uri_safe_local_loop_depth|]. split.
  - intros H. unfold uri_safe_local. rewrite uri_safe_local_loop_exact; [|lia|].
    + f_equal. apply forallb_forall. intros seg Hseg%list_elem_of_In. rewrite Forall_forall in H.
      by apply documented_segment_plain, H.
    + eapply Forall_impl; [exact H|]. intros seg Hseg. by apply documented_segment_plain.
  - intros Ha Hd. unfold uri_safe_local in Ha. rewrite uri_safe_local_loop_exact in Ha by (done || lia).
    injection Ha as Ha. rewrite forallb_forall in Ha. apply Forall_forall. intros seg Hseg%list_elem_of_In%Ha.
    unfold plain_segment in Hseg. apply negb_true_iff in Hseg. apply orb_false_iff in Hseg as [[H1 H2]%orb_false_iff H3].
    split; [|split]; intros ->; done.
Qed.

Lemma uri_safe_local_spec_witness :
  is_Some (depth 0 (segments (lit ".../../x"))) /\
  uri_safe_local (lit "a/b c/d.mp3") = Some true /\
  Forall (fun seg => seg <> [] /\ seg <> lit "." /\ seg <> lit "..") (segments (lit "a/b/c")).
Proof.
  split; [|split].
  - apply (proj1 (uri_safe_local_spec (lit ".../../x"))). vm_compute. reflexivity.
  - apply (proj1 (proj2 (uri_safe_local_spec (lit "a/b c/d.mp3")))). apply (bool_decide_unpack _). vm_compute. exact I.
  - apply (proj2 (proj2 (uri_safe_local_spec (lit "a/b/c")))); [vm_compute; reflexivity|].
    apply (bool_decide_unpack _). vm_compute. exact I.
Defined.
