(* ===== verification/Utf8.v ===== *)
(** UTF-8: [src/util/UTF8.cxx], and the repair of tag values in
    [src/tag/FixString.cxx] that every tag item passes before it reaches
    the database.

    A pointer into a buffer is an offset; "the rest of the buffer" is the
    list from there on.  A read at the end of a C string yields its NUL
    terminator. *)
From S2P Require Import Prelude Text.
Open Scope Z_scope.

(** ** util/UTF8.cxx *)

Definition IsLeading1 (ch : byte) : bool := Z.land (code ch) 224 =? 192.
Definition IsLeading2 (ch : byte) : bool := Z.land (code ch) 240 =? 224.
Definition IsLeading3 (ch : byte) : bool := Z.land (code ch) 248 =? 240.
Definition IsLeading4 (ch : byte) : bool := Z.land (code ch) 252 =? 248.
Definition IsLeading5 (ch : byte) : bool := Z.land (code ch) 254 =? 252.
Definition IsContinuation (ch : byte) : bool := Z.land (code ch) 192 =? 128.

Definition MakeLeading1 (value : Z) : byte := chr (Z.lor 192 (u8 value)).
Definition MakeLeading2 (value : Z) : byte := chr (Z.lor 224 (u8 value)).
Definition MakeLeading3 (value : Z) : byte := chr (Z.lor 240 (u8 value)).
Definition MakeLeading4 (value : Z) : byte := chr (Z.lor 248 (u8 value)).
Definition MakeLeading5 (value : Z) : byte := chr (Z.lor 252 (u8 value)).
Definition MakeContinuation (value : Z) : byte := chr (Z.lor 128 (Z.land (u8 value) 63)).

(** [n] times [IsContinuation( *++p)], stopping at the first that is not:
    the rest after them. *)
Fixpoint skip_continuations (n : nat) (p : bytes) : option bytes :=
  match n with
  | O => Some p
  | S n =>
      match p with
      | c :: p' => if IsContinuation c then skip_continuations n p' else None
      | [] => None
      end
  end.

Fixpoint ValidateUTF8_aux (fuel : nat) (p : bytes) : bool :=
  match fuel with
  | O => true
  | S fuel =>
      match p with
      | [] => true
      | ch :: p' =>
          if IsASCII ch then ValidateUTF8_aux fuel p'
          else if IsContinuation ch then false
          else
            let k :=
              if IsLeading1 ch then Some 1%nat
              else if IsLeading2 ch then Some 2%nat
              else if IsLeading3 ch then Some 3%nat
              else if IsLeading4 ch then Some 4%nat
              else if IsLeading5 ch then Some 5%nat
              else None in
            match k with
            | None => false
            | Some k =>
                match skip_continuations k p' with
                | None => false
                | Some p'' => ValidateUTF8_aux fuel p''
                end
            end
      end
  end.

Definition ValidateUTF8 (p : bytes) : bool := ValidateUTF8_aux (length p) p.

(** The overload that looks at the leading byte only. *)
Definition SequenceLengthUTF8_ch (ch : byte) : nat :=
  if IsASCII ch then 1%nat
  else if IsLeading1 ch then 2%nat
  else if IsLeading2 ch then 3%nat
  else if IsLeading3 ch then 4%nat
  else if IsLeading4 ch then 5%nat
  else if IsLeading5 ch then 6%nat
  else 0%nat.

Fixpoint CheckSequenceUTF8 (L : nat) (p : bytes) : bool :=
  match L with
  | O => true
  | S L => match p with c :: p' => IsContinuation c && CheckSequenceUTF8 L p' | [] => false end
  end.

Definition InnerSequenceLengthUTF8 (L : nat) (p : bytes) : nat :=
  if CheckSequenceUTF8 L p then S L else 0%nat.

(** The overload that also validates the continuations. *)
Definition SequenceLengthUTF8 (p : bytes) : nat :=
  match p with
  | [] => 1%nat (* the terminator is an ASCII byte *)
  | ch :: p =>
      if IsASCII ch then 1%nat
      else if IsLeading1 ch then InnerSequenceLengthUTF8 1 p
      else if IsLeading2 ch then InnerSequenceLengthUTF8 2 p
      else if IsLeading3 ch then InnerSequenceLengthUTF8 3 p
      else if IsLeading4 ch then InnerSequenceLengthUTF8 4 p
      else if IsLeading5 ch then InnerSequenceLengthUTF8 5 p
      else 0%nat
  end.

Definition UnicodeToUTF8 (ch : Z) : bytes :=
  if ch <? 128 then [chr (u8 ch)]
  else if ch <? 2048 then
    [MakeLeading1 (Z.shiftr ch 6); MakeContinuation ch]
  else if ch <? 65536 then
    [MakeLeading2 (Z.shiftr ch 12); MakeContinuation (Z.shiftr ch 6); MakeContinuation ch]
  else if ch <? 2097152 then
    [MakeLeading3 (Z.shiftr ch 18); MakeContinuation (Z.shiftr ch 12);
     MakeContinuation (Z.shiftr ch 6); MakeContinuation ch]
  else if ch <? 67108864 then
    [MakeLeading4 (Z.shiftr ch 24); MakeContinuation (Z.shiftr ch 18);
     MakeContinuation (Z.shiftr ch 12); MakeContinuation (Z.shiftr ch 6); MakeContinuation ch]
  else if ch <? 2147483648 then
    [MakeLeading5 (Z.shiftr ch 30); MakeContinuation (Z.shiftr ch 24);
     MakeContinuation (Z.shiftr ch 18); MakeContinuation (Z.shiftr ch 12);
     MakeContinuation (Z.shiftr ch 6); MakeContinuation ch]
  else [].

Fixpoint LengthUTF8 (p : bytes) : nat :=
  match p with
  | [] => 0%nat
  | c :: p' => if IsContinuation c then LengthUTF8 p' else S (LengthUTF8 p')
  end.

(** ** tag/FixString.cxx *)

(** Offset of the first invalid sequence; [None] is [nullptr]. *)
Fixpoint FindInvalidUTF8_aux (fuel : nat) (p : bytes) : option nat :=
  match fuel, p with
  | _, [] => None
  | O, _ => None
  | S fuel, ch :: _ =>
      let s := SequenceLengthUTF8_ch ch in
      if (length p <? s)%nat then Some 0%nat
      else
        let t := SequenceLengthUTF8 p in
        if (t =? 0)%nat then Some 0%nat
        else Nat.add s <$> FindInvalidUTF8_aux fuel (drop s p)
  end.

Definition FindInvalidUTF8 (p : bytes) : option nat := FindInvalidUTF8_aux (length p) p.

Fixpoint patch_utf8_loop (fuel : nat) (dest : bytes) (invalid : nat) : bytes :=
  match fuel with
  | O => dest
  | S fuel =>
      let dest := <[invalid := "?"%char]> dest in
      match FindInvalidUTF8 (drop (S invalid) dest) with
      | None => dest
      | Some j => patch_utf8_loop fuel dest (S invalid + j)
      end
  end.

Definition patch_utf8 (src : bytes) (invalid : nat) : bytes :=
  patch_utf8_loop (length src) src invalid.

Definition fix_utf8 (p : bytes) : option bytes :=
  match FindInvalidUTF8 p with
  | None => None
  | Some invalid => Some (patch_utf8 p invalid)
  end.

Definition find_non_printable (p : bytes) : bool := existsb IsNonPrintableASCII p.

Definition clear_non_printable (src : bytes) : option bytes :=
  if find_non_printable src
  then Some (map (fun ch => if IsNonPrintableASCII ch then " "%char else ch) src)
  else None.

Definition IsSafe (s : bytes) : bool := forallb (fun ch => IsASCII ch && IsPrintableASCII ch) s.

Definition FixTagString (p : bytes) : option bytes :=
  if IsSafe p then None
  else
    let utf8 := fix_utf8 p in
    let p := default p utf8 in
    match clear_non_printable p with
    | None => utf8
    | Some cleared => Some cleared
    end.

(** The value a tag item ends up with ([TagBuilder::AddItemInternal]). *)
Definition fixed_tag_string (p : bytes) : bytes := default p (FixTagString p).

(** ** Well-formed sequences *)

Lemma seq_len_cases ch :
  SequenceLengthUTF8_ch ch = 0%nat \/ (1 <= SequenceLengthUTF8_ch ch <= 6)%nat.
Proof. unfold SequenceLengthUTF8_ch. repeat case_match; lia. Qed.

(** Both overloads in one equation. *)
Lemma SequenceLengthUTF8_eq ch p :
  SequenceLengthUTF8 (ch :: p) =
  match SequenceLengthUTF8_ch ch with
  | O => 0%nat
  | S L => if CheckSequenceUTF8 L p then S L else 0%nat
  end.
Proof.
  unfold SequenceLengthUTF8, SequenceLengthUTF8_ch, InnerSequenceLengthUTF8.
  by repeat (case_match; try done).
Qed.

Lemma CheckSequenceUTF8_skip L p :
  CheckSequenceUTF8 L p = match skip_continuations L p with Some _ => true | None => false end.
Proof.
  revert p. induction L as [|L IH]; intros [|c p]; simpl; try done.
  destruct (IsContinuation c); simpl; auto.
Qed.

Lemma CheckSequenceUTF8_length L p : CheckSequenceUTF8 L p = true -> (L <= length p)%nat.
Proof.
  revert p. induction L as [|L IH]; intros [|c p]; simpl; try lia; try done.
  rewrite andb_true_iff. intros [_ H%IH]. lia.
Qed.

Lemma CheckSequenceUTF8_take L p :
  CheckSequenceUTF8 L p = (L <=? length p)%nat && CheckSequenceUTF8 L (take L p).
Proof.
  revert p. induction L as [|L IH]; intros [|c p]; simpl; try done.
  rewrite IH. by destruct (IsContinuation c), (L <=? length p)%nat.
Qed.

Lemma skip_continuations_drop L p q : skip_continuations L p = Some q -> q = drop L p.
Proof.
  revert p. induction L as [|L IH]; intros [|c p]; simpl; try (by intros [= <-]); try done.
  destruct (IsContinuation c); [apply IH|done].
Qed.

(** One encoded character, and a text made of encoded characters. *)
Definition is_seq (q : bytes) : Prop :=
  match q with
  | [] => False
  | ch :: r => SequenceLengthUTF8_ch ch = S (length r) /\ CheckSequenceUTF8 (length r) r = true
  end.

Inductive valid8 : bytes -> Prop :=
| valid8_nil : valid8 []
| valid8_app1 q p : is_seq q -> valid8 p -> valid8 (q ++ p).

Lemma valid8_app p q : valid8 p -> valid8 q -> valid8 (p ++ q).
Proof.
  induction 1 as [|r p Hr Hp IH]; intros Hq; [done|].
  rewrite <- app_assoc. constructor; auto.
Qed.

Lemma valid8_ascii c : IsASCII c = true -> valid8 [c].
Proof.
  intros H. rewrite <- (app_nil_r [c]). constructor; [|constructor].
  unfold is_seq, SequenceLengthUTF8_ch. by rewrite H.
Qed.

Lemma is_seq_split L ch p : SequenceLengthUTF8_ch ch = S L -> CheckSequenceUTF8 L p = true ->
  is_seq (ch :: take L p) /\ ch :: p = (ch :: take L p) ++ drop L p.
Proof.
  intros Hs Hc. rewrite CheckSequenceUTF8_take, andb_true_iff, Nat.leb_le in Hc.
  destruct Hc as [Hl Hc]. simpl. rewrite take_drop. split; [|done].
  by rewrite length_take_le by done.
Qed.

Lemma is_seq_drop q p : is_seq q -> drop (length q) (q ++ p) = p.
Proof. intros _. apply drop_app_length. Qed.

Lemma is_seq_length q p : is_seq q -> SequenceLengthUTF8 (q ++ p) = length q.
Proof.
  destruct q as [|ch r]; [done|]. intros [Hs Hc]. simpl app.
  rewrite SequenceLengthUTF8_eq, Hs, CheckSequenceUTF8_take, length_app, take_app_length, Hc.
  by rewrite (proj2 (Nat.leb_le _ _)) by lia.
Qed.

(** [FindInvalidUTF8] finds the end of the longest valid prefix. *)
Lemma FindInvalidUTF8_aux_spec fuel p : (length p <= fuel)%nat ->
  match FindInvalidUTF8_aux fuel p with
  | None => valid8 p
  | Some i => (i < length p)%nat /\ valid8 (take i p)
  end.
Proof.
  revert p. induction fuel as [|fuel IH]; intros [|ch p] Hf; simpl in Hf;
    try (simpl; constructor); [lia|].
  cbn [FindInvalidUTF8_aux].
  destruct (_ <? _)%nat eqn:Es; [split; [simpl; lia|constructor]|].
  apply Nat.ltb_ge in Es. rewrite SequenceLengthUTF8_eq.
  destruct (SequenceLengthUTF8_ch ch) as [|L] eqn:E; [split; [simpl; lia|constructor]|].
  destruct (CheckSequenceUTF8 L p) eqn:Ec; [|split; [simpl; lia|constructor]].
  destruct (is_seq_split L ch p E Ec) as [Hseq Heq]. simpl Nat.eqb. cbn iota.
  simpl drop. pose proof (IH (drop L p)) as H. rewrite length_drop in H.
  specialize (H ltac:(lia)). simpl in Es.
  destruct (FindInvalidUTF8_aux fuel (drop L p)) as [i|]; simpl fmap; cbn [option_fmap option_map].
  - destruct H as [Hi Hv]. split; [simpl; lia|].
    rewrite Heq. rewrite take_app_ge by (simpl; rewrite length_take; lia).
    apply valid8_app1; [done|]. replace (_ - _)%nat with i; [done|].
    simpl. rewrite length_take. lia.
  - rewrite Heq. by constructor.
Qed.

Lemma FindInvalidUTF8_aux_valid fuel p : valid8 p -> FindInvalidUTF8_aux fuel p = None.
Proof.
  intros H. revert fuel. induction H as [|q p Hq Hp IH]; intros [|fuel]; simpl; try done.
  { destruct (q ++ p); done. }
  destruct q as [|ch r]; [done|]. pose proof (is_seq_length _ p Hq) as Hlen.
  pose proof (is_seq_drop _ p Hq) as Hdrop. destruct Hq as [Hs _].
  change ((ch :: r) ++ p) with (ch :: (r ++ p)) in *. rewrite Hlen, Hs.
  simpl length in *. rewrite length_app.
  rewrite (proj2 (Nat.ltb_ge _ _)) by lia. simpl Nat.eqb. cbn iota.
  by rewrite Hdrop, IH.
Qed.

Lemma FindInvalidUTF8_None p : FindInvalidUTF8 p = None <-> valid8 p.
Proof.
  split; [|apply FindInvalidUTF8_aux_valid].
  intros H. pose proof (FindInvalidUTF8_aux_spec (length p) p ltac:(lia)) as Hs.
  unfold FindInvalidUTF8 in H. by rewrite H in Hs.
Qed.

Lemma FindInvalidUTF8_Some p i : FindInvalidUTF8 p = Some i ->
  (i < length p)%nat /\ valid8 (take i p).
Proof.
  intros H. pose proof (FindInvalidUTF8_aux_spec (length p) p ltac:(lia)) as Hs.
  unfold FindInvalidUTF8 in H. by rewrite H in Hs.
Qed.

Lemma patch_utf8_loop_valid fuel a b n : n = length a -> (length b <= fuel)%nat -> b <> [] ->
  valid8 a ->
  let r := patch_utf8_loop fuel (a ++ b) n in valid8 r /\ length r = length (a ++ b).
Proof.
  intros ->. revert a b.
  induction fuel as [|fuel IH]; intros a [|c b] Hf Hb Ha; simpl in Hf; try lia; try done.
  cbn zeta. cbn [patch_utf8_loop].
  assert (<[length a:="?"%char]> (a ++ c :: b) = (a ++ ["?"%char]) ++ b) as ->
    by (by rewrite insert_app_r_alt, Nat.sub_diag, <- app_assoc by lia).
  assert (length (a ++ ["?"%char]) = S (length a)) as Hl by (rewrite length_app; simpl; lia).
  assert (valid8 (a ++ ["?"%char])) as Ha' by (apply valid8_app; [done|by apply valid8_ascii]).
  rewrite <- Hl, drop_app_length.
  replace (length (a ++ c :: b)) with (length ((a ++ ["?"%char]) ++ b))
    by (rewrite !length_app; simpl; lia).
  destruct (FindInvalidUTF8 b) as [j|] eqn:E.
  - apply FindInvalidUTF8_Some in E as [Hj Hv].
    replace ((a ++ ["?"%char]) ++ b) with (((a ++ ["?"%char]) ++ take j b) ++ drop j b)
      by (by rewrite <- (app_assoc (a ++ ["?"%char])), take_drop).
    replace (length (a ++ ["?"%char]) + j)%nat with (length ((a ++ ["?"%char]) ++ take j b))
      by (rewrite (length_app (a ++ ["?"%char])), length_take_le by lia; done).
    apply IH; [rewrite length_drop; lia| |by apply valid8_app].
    intros Hnil%(f_equal length). rewrite length_drop in Hnil. simpl in Hnil. lia.
  - apply FindInvalidUTF8_None in E. split; [by apply valid8_app|done].
Qed.

Lemma fix_utf8_valid p : valid8 (default p (fix_utf8 p)) /\ length (default p (fix_utf8 p)) = length p.
Proof.
  unfold fix_utf8. destruct (FindInvalidUTF8 p) as [i|] eqn:E; simpl.
  - apply FindInvalidUTF8_Some in E as [Hi Hv]. unfold patch_utf8.
    pose proof (patch_utf8_loop_valid (length p) (take i p) (drop i p) i) as H. cbn zeta in H.
    rewrite take_drop, length_take_le in H by lia. apply H; [done|rewrite length_drop; lia| |done].
    intros Hnil%(f_equal length). rewrite length_drop in Hnil. simpl in Hnil. lia.
  - by apply FindInvalidUTF8_None in E.
Qed.

(** Replacing control characters by spaces keeps a text valid. *)
Definition clear_byte (ch : byte) : byte := if IsNonPrintableASCII ch then " "%char else ch.

Lemma clear_byte_class ch :
  SequenceLengthUTF8_ch (clear_byte ch) = SequenceLengthUTF8_ch ch /\
  IsContinuation (clear_byte ch) = IsContinuation ch.
Proof. all_bytes ch. Qed.

Lemma CheckSequenceUTF8_clear L p : CheckSequenceUTF8 L (map clear_byte p) = CheckSequenceUTF8 L p.
Proof.
  revert p. induction L as [|L IH]; intros [|c p]; simpl; try done.
  by rewrite IH, (proj2 (clear_byte_class c)).
Qed.

Lemma is_seq_clear q : is_seq q -> is_seq (map clear_byte q).
Proof.
  destruct q as [|ch r]; [done|]. simpl. rewrite length_map.
  by rewrite (proj1 (clear_byte_class ch)), CheckSequenceUTF8_clear.
Qed.

Lemma valid8_clear p : valid8 p -> valid8 (map clear_byte p).
Proof. induction 1; [constructor|]. rewrite map_app. constructor; auto using is_seq_clear. Qed.

Definition printable (p : bytes) : Prop := Forall (fun c => IsNonPrintableASCII c = false) p.

Lemma clear_printable p : printable (map clear_byte p).
Proof.
  apply Forall_forall. intros c. rewrite list_elem_of_fmap.
  intros (c' & -> & _). all_bytes c'.
Qed.

Lemma not_find_non_printable p : find_non_printable p = false -> printable p.
Proof.
  unfold find_non_printable, printable.
  induction p as [|c p IH]; simpl; [intros _; by apply Forall_nil|].
  rewrite orb_false_iff. intros [? ?]. apply Forall_cons; auto.
Qed.

Lemma printable_not_found p : printable p -> find_non_printable p = false.
Proof. induction 1 as [|c p Hc _ IH]; simpl; [done|]. by rewrite Hc. Qed.

Lemma clear_non_printable_spec p :
  default p (clear_non_printable p) = map clear_byte p /\ printable (default p (clear_non_printable p)).
Proof.
  unfold clear_non_printable. destruct (find_non_printable p) eqn:E; simpl.
  - split; [done|]. apply clear_printable.
  - apply not_find_non_printable in E. split; [|done].
    induction E as [|c p Hc _ IH]; simpl; [done|]. unfold clear_byte at 1. by rewrite Hc, <- IH.
Qed.

Lemma IsSafe_valid p : IsSafe p = true -> valid8 p /\ printable p.
Proof.
  induction p as [|c p IH]; simpl; [intros _; split; constructor|].
  rewrite !andb_true_iff. intros [[Ha Hp] [Hv Hs]%IH]. split.
  - apply (valid8_app [c]); [by apply valid8_ascii|done].
  - constructor; [|done]. revert Ha Hp. clear. all_bytes c.
Qed.

Lemma fixed_tag_string_eq p :
  fixed_tag_string p = if IsSafe p then p else map clear_byte (default p (fix_utf8 p)).
Proof.
  unfold fixed_tag_string, FixTagString. destruct (IsSafe p); [done|].
  destruct (clear_non_printable_spec (default p (fix_utf8 p))) as [H _].
  destruct (clear_non_printable (default p (fix_utf8 p))); simpl in H |- *; [done|].
  destruct (fix_utf8 p); done.
Qed.

Lemma fixed_tag_string_valid p :
  valid8 (fixed_tag_string p) /\ printable (fixed_tag_string p) /\
  length (fixed_tag_string p) = length p.
Proof.
  rewrite fixed_tag_string_eq. destruct (IsSafe p) eqn:E.
  - apply IsSafe_valid in E as [? ?]. done.
  - destruct (fix_utf8_valid p) as [Hv Hl].
    split; [by apply valid8_clear|]. split; [apply clear_printable|]. by rewrite length_map.
Qed.

Lemma map_clear_id p : printable p -> map clear_byte p = p.
Proof. induction 1 as [|c p Hc _ IH]; simpl; [done|]. unfold clear_byte at 1. by rewrite Hc, IH. Qed.

Lemma fixed_tag_string_id p : valid8 p -> printable p -> fixed_tag_string p = p.
Proof.
  intros Hv Hp. rewrite fixed_tag_string_eq. destruct (IsSafe p); [done|].
  unfold fix_utf8. rewrite (proj2 (FindInvalidUTF8_None p) Hv). simpl. by apply map_clear_id.
Qed.


Lemma ValidateUTF8_aux_spec fuel p : (length p <= fuel)%nat ->
  ValidateUTF8_aux fuel p = true <-> FindInvalidUTF8_aux fuel p = None.
Proof.
  revert p. induction fuel as [|fuel IH]; intros [|ch p] Hf; simpl in Hf; try (by split).
  cbn [FindInvalidUTF8_aux ValidateUTF8_aux]. rewrite SequenceLengthUTF8_eq.
  assert (forall L, SequenceLengthUTF8_ch ch = S L ->
    (match skip_continuations L p with
     | None => false | Some p'' => ValidateUTF8_aux fuel p'' end = true <->
      (if (length (ch :: p) <? S L)%nat then Some 0%nat
      else if ((if CheckSequenceUTF8 L p then S L else 0) =? 0)%nat then Some 0%nat
      else Nat.add (S L) <$> FindInvalidUTF8_aux fuel (drop L p)) = None)) as Hcase.
  { intros L _. rewrite CheckSequenceUTF8_skip.
    destruct (skip_continuations L p) as [q|] eqn:E; [|by case_match].
    assert (CheckSequenceUTF8 L p = true) as Hc%CheckSequenceUTF8_length
      by (by rewrite CheckSequenceUTF8_skip, E).
    apply skip_continuations_drop in E as ->.
    rewrite (proj2 (Nat.ltb_ge _ _)) by (simpl; lia). simpl Nat.eqb. cbn iota.
    rewrite IH by (rewrite length_drop; lia).
    by destruct (FindInvalidUTF8_aux fuel (drop L p)). }
  unfold SequenceLengthUTF8_ch in *. 
  destruct (IsASCII ch) eqn:Ea; [apply (Hcase 0%nat eq_refl)|].
  assert (IsContinuation ch = true -> IsLeading1 ch = false /\ IsLeading2 ch = false /\
    IsLeading3 ch = false /\ IsLeading4 ch = false /\ IsLeading5 ch = false) as Hcont
    by (clear; all_bytes ch).
  destruct (IsContinuation ch).
  { destruct Hcont as (-> & -> & -> & -> & ->); [done|]. by split. }
  clear Hcont.
  repeat lazymatch goal with
  | |- context [if ?b then Some _ else _] => destruct b; [by apply Hcase|]
  end. by split.
Qed.

(** *** Encoding one code point *)

Definition all_below (n : nat) (f : Z -> bool) : bool := forallb (fun k => f (Z.of_nat k)) (seq 0 n).

Lemma all_below_spec n f z : all_below n f = true -> 0 <= z < Z.of_nat n -> f z = true.
Proof.
  unfold all_below. rewrite forallb_forall. intros H Hz.
  rewrite <- (Z2Nat.id z) by lia. apply H. apply in_seq. lia.
Qed.

Lemma u8_small z : 0 <= z < 256 -> u8 z = z.
Proof. intros. by apply wrap_u_id. Qed.

Lemma MakeContinuation_ok v : IsContinuation (MakeContinuation v) = true.
Proof.
  unfold MakeContinuation.
  assert (0 <= Z.land (u8 v) 63 < 64) as H.
  { rewrite Z.land_ones with (n := 6) by lia. apply Z.mod_pos_bound. lia. }
  revert H. generalize (Z.land (u8 v) 63). intros z H.
  apply (all_below_spec 64 (fun z => IsContinuation (chr (Z.lor 128 z)))); [|lia].
  vm_compute. done.
Qed.

(** The leading byte made of a value below [n] announces [len] bytes. *)
Definition leading_ok (mk : Z -> byte) (n : nat) (len : nat) : bool :=
  all_below n (fun z => (SequenceLengthUTF8_ch (mk z) =? len)%nat && negb (IsContinuation (mk z))).

Lemma leading_ok_all :
  leading_ok MakeLeading1 32 2 = true /\ leading_ok MakeLeading2 16 3 = true /\
  leading_ok MakeLeading3 8 4 = true /\ leading_ok MakeLeading4 4 5 = true /\
  leading_ok MakeLeading5 2 6 = true /\ leading_ok (fun z => chr (u8 z)) 128 1 = true.
Proof. vm_compute. done. Qed.

Lemma leading_ok_spec mk n len z : leading_ok mk n len = true -> 0 <= z < Z.of_nat n ->
  SequenceLengthUTF8_ch (mk z) = len /\ IsContinuation (mk z) = false.
Proof.
  intros H Hz. apply (all_below_spec n _ z) in H; [|done].
  apply andb_true_iff in H as [H1 H2]. split; [by apply Nat.eqb_eq|by apply negb_true_iff].
Qed.

Lemma shiftr_small ch k n : 0 <= ch < n * 2 ^ k -> 0 <= k -> 0 <= Z.shiftr ch k < n.
Proof.
  intros H Hk. rewrite Z.shiftr_div_pow2 by done. split; [apply Z.div_pos; lia|].
  apply Z.div_lt_upper_bound; lia.
Qed.

Lemma encoded_ok mk n len z r : leading_ok mk n len = true -> 0 <= z < Z.of_nat n ->
  S (length r) = len -> Forall (fun c => IsContinuation c = true) r ->
  valid8 (mk z :: r) /\ LengthUTF8 (mk z :: r) = 1%nat.
Proof.
  intros Hmk Hz Hl Hr. destruct (leading_ok_spec mk n len z Hmk Hz) as [Hs Hc].
  assert (CheckSequenceUTF8 (length r) r = true /\ LengthUTF8 r = 0%nat) as [Hchk Hlen].
  { clear -Hr. induction Hr as [|c r Hc _ [IH1 IH2]]; [done|]. simpl. rewrite Hc. done. }
  split.
  - rewrite <- (app_nil_r (mk z :: r)). constructor; [|constructor].
    simpl. split; [congruence|done].
  - change (LengthUTF8 (mk z :: r)) with (if IsContinuation (mk z) then LengthUTF8 r else S (LengthUTF8 r)).
    by rewrite Hc, Hlen.
Qed.

Lemma UnicodeToUTF8_ok ch : 0 <= ch < 2147483648 ->
  valid8 (UnicodeToUTF8 ch) /\ LengthUTF8 (UnicodeToUTF8 ch) = 1%nat.
Proof.
  intros H. destruct leading_ok_all as (H1 & H2 & H3 & H4 & H5 & H0). unfold UnicodeToUTF8.
  repeat match goal with
  | |- context [if ?b then _ else _] => let E := fresh "E" in destruct b eqn:E
  end; reflect_bools; try lia.
  all: lazymatch goal with
  | |- context [MakeLeading1 _] => apply (encoded_ok _ _ _ _ _ H1)
  | |- context [MakeLeading2 _] => apply (encoded_ok _ _ _ _ _ H2)
  | |- context [MakeLeading3 _] => apply (encoded_ok _ _ _ _ _ H3)
  | |- context [MakeLeading4 _] => apply (encoded_ok _ _ _ _ _ H4)
  | |- context [MakeLeading5 _] => apply (encoded_ok _ _ _ _ _ H5)
  | |- _ => apply (encoded_ok _ _ _ _ _ H0)
  end; try (apply shiftr_small; simpl; lia); try done; try (simpl; lia);
  repeat constructor; apply MakeContinuation_ok.
Qed.

(** ** Properties *)

(** Whatever bytes a decoder hands over, the stored tag value
    ([FixTagString], or the value itself when it returns none) is valid
    UTF-8 without control characters, and as long as the original; a value
    that already is so is stored unchanged. *)
Theorem FixTagString_ok (p : bytes) :
  let v := default p (FixTagString p) in
  ValidateUTF8 v = true /\ printable v /\ length v = length p /\
  (ValidateUTF8 p = true -> printable p -> v = p).
Proof.
  destruct (fixed_tag_string_valid p) as (Hv & Hp & Hl). cbn zeta.
  unfold ValidateUTF8. repeat split; try done.
  - apply ValidateUTF8_aux_spec; [done|]. by apply FindInvalidUTF8_None.
  - intros H Hpr. apply fixed_tag_string_id; [|done]. apply FindInvalidUTF8_None.
    by apply ValidateUTF8_aux_spec in H.
Qed.

(** [ValidateUTF8] and the scanner [FindInvalidUTF8] of the tag repair
    agree, and both accept exactly the concatenations of well-formed
    sequences. *)
Theorem ValidateUTF8_FindInvalidUTF8 (p : bytes) :
  (ValidateUTF8 p = true <-> FindInvalidUTF8 p = None) /\ (ValidateUTF8 p = true <-> valid8 p).
Proof.
  pose proof (ValidateUTF8_aux_spec (length p) p ltac:(done)) as H.
  pose proof (FindInvalidUTF8_None p). unfold ValidateUTF8, FindInvalidUTF8 in *. tauto.
Qed.

(** Every code point below 2^31 is encoded as one valid character. *)
Theorem UnicodeToUTF8_one_char (ch : Z) (H : 0 <= ch < 2147483648) :
  ValidateUTF8 (UnicodeToUTF8 ch) = true /\ LengthUTF8 (UnicodeToUTF8 ch) = 1%nat.
Proof.
  destruct (UnicodeToUTF8_ok ch H) as [Hv Hl]. split; [|done].
  apply (proj2 (ValidateUTF8_aux_spec (length (UnicodeToUTF8 ch)) (UnicodeToUTF8 ch) ltac:(done))).
  by apply FindInvalidUTF8_None.
Qed.

Lemma UnicodeToUTF8_one_char_witness :
  ValidateUTF8 (UnicodeToUTF8 8364) = true /\ LengthUTF8 (UnicodeToUTF8 8364) = 1%nat.
Proof. apply (UnicodeToUTF8_one_char 8364). lia. Defined.
