(* ===== verification/Tags.v ===== *)
(** Tags: [src/tag/Type.hxx], [Names.cxx], [ParseName.cxx], [Mask.hxx],
    [Settings.cxx], [Config.cxx], [Tag.cxx], [Builder.cxx] and
    [src/TagSave.cxx].

    The reference-counted tag pool ([Pool.cxx]) shares equal items between
    tags; a tag item is modelled by its value, so taking, duplicating and
    returning pool references does not appear. *)
From S2P Require Import Prelude Text Utf8 Chrono.
Open Scope Z_scope.

(** ** Type.hxx *)

Inductive TagType :=
| TAG_ARTIST
| TAG_ARTIST_SORT
| TAG_ALBUM
| TAG_ALBUM_SORT
| TAG_ALBUM_ARTIST
| TAG_ALBUM_ARTIST_SORT
| TAG_TITLE
| TAG_TITLE_SORT
| TAG_TRACK
| TAG_NAME
| TAG_GENRE
| TAG_MOOD
| TAG_DATE
| TAG_ORIGINAL_DATE
| TAG_COMPOSER
| TAG_COMPOSERSORT
| TAG_PERFORMER
| TAG_CONDUCTOR
| TAG_WORK
| TAG_MOVEMENT
| TAG_MOVEMENTNUMBER
| TAG_SHOWMOVEMENT
| TAG_ENSEMBLE
| TAG_LOCATION
| TAG_GROUPING
| TAG_COMMENT
| TAG_DISC
| TAG_LABEL
| TAG_MUSICBRAINZ_ARTISTID
| TAG_MUSICBRAINZ_ALBUMID
| TAG_MUSICBRAINZ_ALBUMARTISTID
| TAG_MUSICBRAINZ_TRACKID
| TAG_MUSICBRAINZ_RELEASETRACKID
| TAG_MUSICBRAINZ_WORKID
| TAG_MUSICBRAINZ_RELEASEGROUPID.

#[export] Instance TagType_eq_dec : EqDecision TagType.
Proof. solve_decision. Defined.

(** The enumerators before [TAG_NUM_OF_ITEM_TYPES], in order. *)
Definition all_tag_types : list TagType :=
  [TAG_ARTIST;
   TAG_ARTIST_SORT;
   TAG_ALBUM;
   TAG_ALBUM_SORT;
   TAG_ALBUM_ARTIST;
   TAG_ALBUM_ARTIST_SORT;
   TAG_TITLE;
   TAG_TITLE_SORT;
   TAG_TRACK;
   TAG_NAME;
   TAG_GENRE;
   TAG_MOOD;
   TAG_DATE;
   TAG_ORIGINAL_DATE;
   TAG_COMPOSER;
   TAG_COMPOSERSORT;
   TAG_PERFORMER;
   TAG_CONDUCTOR;
   TAG_WORK;
   TAG_MOVEMENT;
   TAG_MOVEMENTNUMBER;
   TAG_SHOWMOVEMENT;
   TAG_ENSEMBLE;
   TAG_LOCATION;
   TAG_GROUPING;
   TAG_COMMENT;
   TAG_DISC;
   TAG_LABEL;
   TAG_MUSICBRAINZ_ARTISTID;
   TAG_MUSICBRAINZ_ALBUMID;
   TAG_MUSICBRAINZ_ALBUMARTISTID;
   TAG_MUSICBRAINZ_TRACKID;
   TAG_MUSICBRAINZ_RELEASETRACKID;
   TAG_MUSICBRAINZ_WORKID;
   TAG_MUSICBRAINZ_RELEASEGROUPID].

(** The enumerator's value. *)
Definition tag_index (type : TagType) : Z :=
  match type with
  | TAG_ARTIST => 0
  | TAG_ARTIST_SORT => 1
  | TAG_ALBUM => 2
  | TAG_ALBUM_SORT => 3
  | TAG_ALBUM_ARTIST => 4
  | TAG_ALBUM_ARTIST_SORT => 5
  | TAG_TITLE => 6
  | TAG_TITLE_SORT => 7
  | TAG_TRACK => 8
  | TAG_NAME => 9
  | TAG_GENRE => 10
  | TAG_MOOD => 11
  | TAG_DATE => 12
  | TAG_ORIGINAL_DATE => 13
  | TAG_COMPOSER => 14
  | TAG_COMPOSERSORT => 15
  | TAG_PERFORMER => 16
  | TAG_CONDUCTOR => 17
  | TAG_WORK => 18
  | TAG_MOVEMENT => 19
  | TAG_MOVEMENTNUMBER => 20
  | TAG_SHOWMOVEMENT => 21
  | TAG_ENSEMBLE => 22
  | TAG_LOCATION => 23
  | TAG_GROUPING => 24
  | TAG_COMMENT => 25
  | TAG_DISC => 26
  | TAG_LABEL => 27
  | TAG_MUSICBRAINZ_ARTISTID => 28
  | TAG_MUSICBRAINZ_ALBUMID => 29
  | TAG_MUSICBRAINZ_ALBUMARTISTID => 30
  | TAG_MUSICBRAINZ_TRACKID => 31
  | TAG_MUSICBRAINZ_RELEASETRACKID => 32
  | TAG_MUSICBRAINZ_WORKID => 33
  | TAG_MUSICBRAINZ_RELEASEGROUPID => 34
  end.

(** ** Names.cxx *)

Definition tag_item_names (type : TagType) : bytes :=
  match type with
  | TAG_ARTIST => lit "Artist"
  | TAG_ARTIST_SORT => lit "ArtistSort"
  | TAG_ALBUM => lit "Album"
  | TAG_ALBUM_SORT => lit "AlbumSort"
  | TAG_ALBUM_ARTIST => lit "AlbumArtist"
  | TAG_ALBUM_ARTIST_SORT => lit "AlbumArtistSort"
  | TAG_TITLE => lit "Title"
  | TAG_TITLE_SORT => lit "TitleSort"
  | TAG_TRACK => lit "Track"
  | TAG_NAME => lit "Name"
  | TAG_GENRE => lit "Genre"
  | TAG_MOOD => lit "Mood"
  | TAG_DATE => lit "Date"
  | TAG_ORIGINAL_DATE => lit "OriginalDate"
  | TAG_COMPOSER => lit "Composer"
  | TAG_COMPOSERSORT => lit "ComposerSort"
  | TAG_PERFORMER => lit "Performer"
  | TAG_CONDUCTOR => lit "Conductor"
  | TAG_WORK => lit "Work"
  | TAG_MOVEMENT => lit "Movement"
  | TAG_MOVEMENTNUMBER => lit "MovementNumber"
  | TAG_SHOWMOVEMENT => lit "ShowMovement"
  | TAG_ENSEMBLE => lit "Ensemble"
  | TAG_LOCATION => lit "Location"
  | TAG_GROUPING => lit "Grouping"
  | TAG_COMMENT => lit "Comment"
  | TAG_DISC => lit "Disc"
  | TAG_LABEL => lit "Label"
  | TAG_MUSICBRAINZ_ARTISTID => lit "MUSICBRAINZ_ARTISTID"
  | TAG_MUSICBRAINZ_ALBUMID => lit "MUSICBRAINZ_ALBUMID"
  | TAG_MUSICBRAINZ_ALBUMARTISTID => lit "MUSICBRAINZ_ALBUMARTISTID"
  | TAG_MUSICBRAINZ_TRACKID => lit "MUSICBRAINZ_TRACKID"
  | TAG_MUSICBRAINZ_RELEASETRACKID => lit "MUSICBRAINZ_RELEASETRACKID"
  | TAG_MUSICBRAINZ_WORKID => lit "MUSICBRAINZ_WORKID"
  | TAG_MUSICBRAINZ_RELEASEGROUPID => lit "MUSICBRAINZ_RELEASEGROUPID"
  end.

(** ** ParseName.cxx ([None] is [TAG_NUM_OF_ITEM_TYPES]) *)

Definition tag_name_parse (name : bytes) : option TagType :=
  List.find (fun i => name =b tag_item_names i) all_tag_types.

Definition tag_name_parse_i (name : bytes) : option TagType :=
  List.find (fun i => StringIsEqualIgnoreCase name (tag_item_names i)) all_tag_types.

(** ** Mask.hxx, Settings.cxx: a 64-bit mask *)

Definition TagMask_of (tag : TagType) : Z := Z.shiftl 1 (tag_index tag).
Definition TagMask_None : Z := 0.
Definition TagMask_not (m : Z) : Z := 2 ^ 64 - 1 - m.
Definition TagMask_All : Z := TagMask_not TagMask_None.
Definition TestAny (m : Z) : bool := negb (m =? 0).
Definition TagMask_Test (m : Z) (tag : TagType) : bool := TestAny (Z.land m (TagMask_of tag)).
Definition TagMask_Set (m : Z) (tag : TagType) : Z := Z.lor m (TagMask_of tag).
Definition TagMask_Unset (m : Z) (tag : TagType) : Z := Z.land m (TagMask_not (TagMask_of tag)).

(** The initial value of [global_tag_mask]; the functions that read the
    variable take its current value as an argument. *)
Definition global_tag_mask : Z := Z.land TagMask_All (TagMask_not (TagMask_of TAG_COMMENT)).
Definition IsTagEnabled (mask : Z) (tag : TagType) : bool := TagMask_Test mask tag.

(** ** Config.cxx *)

Fixpoint TagLoadConfig_items (names : list bytes) (plus : bool) (mask : Z) : result Z :=
  match names with
  | [] => Ok mask
  | name :: names =>
      let name := Strip name in
      let '(plus, name) :=
        match SkipPrefix name (lit "+") with
        | (true, r) => (true, r)
        | (false, _) =>
            match SkipPrefix name (lit "-") with
            | (true, r) => (false, r)
            | (false, _) => (plus, name)
            end
        end in
      match tag_name_parse_i name with
      | None => Throw (lit "error parsing metadata item")
      | Some type =>
          TagLoadConfig_items names plus
            (if plus then TagMask_Set mask type else TagMask_Unset mask type)
      end
  end.

(** [value] is the [metadata_to_use] setting. *)
Definition TagLoadConfig (value : option bytes) (mask : Z) : result Z :=
  match value with
  | None => Ok mask
  | Some value =>
      if StringIsEqualIgnoreCase value (lit "none") then Ok TagMask_None
      else
        let incremental :=
          match value with
          | c :: _ => bool_decide (c = "+"%char) || bool_decide (c = "-"%char)
          | [] => false
          end in
        TagLoadConfig_items (IterableSplitString value ",") true
          (if incremental then mask else TagMask_None)
  end.

(** ** Item.hxx, Tag.hxx *)

Record TagItem := mkTagItem { ti_type : TagType; ti_value : bytes }.

(** [items] holds the [num_items] items of the array. *)
Record Tag := mkTag { duration : Z; has_playlist : bool; items : list TagItem }.

Definition Tag_empty : Tag := mkTag SignedSongTime_Negative false [].
Definition Tag_IsEmpty (t : Tag) : bool := match items t with [] => true | _ => false end.
Definition Tag_IsDefined (t : Tag) : bool := negb (Tag_IsEmpty t) || negb (IsNegative_ms (duration t)).

Definition GetValue (t : Tag) (type : TagType) : option bytes :=
  ti_value <$> List.find (fun item => bool_decide (ti_type item = type)) (items t).

Definition Tag_HasType (t : Tag) (type : TagType) : bool :=
  match GetValue t type with Some _ => true | None => false end.

Definition DecaySort (type : TagType) : option TagType :=
  match type with
  | TAG_ARTIST_SORT => Some TAG_ARTIST
  | TAG_ALBUM_SORT => Some TAG_ALBUM
  | TAG_ALBUM_ARTIST_SORT => Some TAG_ALBUM_ARTIST
  | _ => None
  end.

Definition Fallback (type : TagType) : option TagType :=
  match type with
  | TAG_ALBUM_ARTIST => Some TAG_ARTIST
  | TAG_MUSICBRAINZ_ALBUMARTISTID => Some TAG_MUSICBRAINZ_ARTISTID
  | _ => None
  end.

(** [None]: the recursion did not end within [fuel] calls. *)
Fixpoint GetSortValue_aux (fuel : nat) (t : Tag) (type : TagType) : option bytes :=
  match fuel with
  | O => None
  | S fuel =>
      match GetValue t type with
      | Some value => Some value
      | None =>
          let no_sort_type := DecaySort type in
          match no_sort_type ≫= GetValue t with
          | Some value => Some value
          | None =>
              match Fallback type with
              | Some type' => GetSortValue_aux fuel t type'
              | None =>
                  match no_sort_type ≫= Fallback with
                  | Some type' => GetSortValue_aux fuel t type'
                  | None => Some []
                  end
              end
          end
      end
  end.

Definition GetSortValue (t : Tag) (type : TagType) : bytes := default [] (GetSortValue_aux 2 t type).

(** ** Builder.hxx, Builder.cxx *)

Record TagBuilder := mkTagBuilder
  { b_duration : Z; b_has_playlist : bool; b_items : list TagItem }.

Definition TagBuilder_new : TagBuilder := mkTagBuilder SignedSongTime_Negative false [].
(** [TagBuilder(const Tag &)] and [TagBuilder(Tag &&)]. *)
Definition TagBuilder_of (other : Tag) : TagBuilder :=
  mkTagBuilder (duration other) (has_playlist other) (items other).
Definition TagBuilder_Clear (_ : TagBuilder) : TagBuilder := TagBuilder_new.

(** The number of items is stored in an [unsigned short]: items beyond it
    are not part of the tag. *)
Definition Commit (b : TagBuilder) : Tag :=
  mkTag (b_duration b) (b_has_playlist b)
    (take (Z.to_nat (u16 (u32 (Z.of_nat (length (b_items b)))))) (b_items b)).

Definition TagBuilder_HasType (b : TagBuilder) (type : TagType) : bool :=
  existsb (fun i => bool_decide (ti_type i = type)) (b_items b).

Definition SetDuration (b : TagBuilder) (d : Z) : TagBuilder :=
  mkTagBuilder d (b_has_playlist b) (b_items b).
Definition SetHasPlaylist (b : TagBuilder) (h : bool) : TagBuilder :=
  mkTagBuilder (b_duration b) h (b_items b).

Definition Complement (b : TagBuilder) (other : Tag) : TagBuilder :=
  let present := TagBuilder_HasType b in
  mkTagBuilder
    (if IsNegative_ms (b_duration b) then duration other else b_duration b)
    (b_has_playlist b || has_playlist other)
    (b_items b ++ List.filter (fun item => negb (present (ti_type item))) (items other)).

Definition AddItemUnchecked (b : TagBuilder) (type : TagType) (value : bytes) : TagBuilder :=
  mkTagBuilder (b_duration b) (b_has_playlist b) (b_items b ++ [mkTagItem type value]).

Definition AddItemInternal (b : TagBuilder) (type : TagType) (value : bytes) : TagBuilder :=
  AddItemUnchecked b type (match FixTagString value with Some f => f | None => value end).

Definition AddItem (mask : Z) (b : TagBuilder) (type : TagType) (value : bytes) : TagBuilder :=
  if (value =b []) || negb (IsTagEnabled mask type) then b
  else AddItemInternal b type value.

Definition AddEmptyItem (b : TagBuilder) (type : TagType) : TagBuilder := AddItemUnchecked b type [].

Definition RemoveType (b : TagBuilder) (type : TagType) : TagBuilder :=
  mkTagBuilder (b_duration b) (b_has_playlist b)
    (List.filter (fun item => negb (bool_decide (ti_type item = type))) (b_items b)).

Definition Merge (base add : Tag) : Tag := Commit (Complement (TagBuilder_of add) base).

(** [Tag::Merge] on pointers that may be null. *)
Definition Merge_ptr (base add : option Tag) : option Tag :=
  match base, add with
  | None, None => None
  | None, Some add => Some add
  | Some base, None => Some base
  | Some base, Some add => Some (Merge base add)
  end.

(** ** Names *)

Lemma all_tag_types_complete t : t ∈ all_tag_types.
Proof. apply (bool_decide_unpack _). by destruct t; vm_compute. Qed.

Lemma tag_name_parse_names t : tag_name_parse (tag_item_names t) = Some t.
Proof. by destruct t; vm_compute. Qed.

Lemma tag_name_parse_i_names t : tag_name_parse_i (tag_item_names t) = Some t.
Proof. by destruct t; vm_compute. Qed.

Lemma tag_name_parse_Some name t : tag_name_parse name = Some t -> name = tag_item_names t.
Proof. intros H. apply List.find_some in H as [_ H]. by apply bytes_eqb_eq. Qed.

Lemma tag_item_names_plain t : plain (tag_item_names t).
Proof. apply (bool_decide_unpack _). by destruct t; vm_compute. Qed.

Lemma tag_item_names_chars t :
  Forall (fun c => IsAlphaASCII c || bool_decide (c = "_"%char) = true) (tag_item_names t).
Proof. apply (bool_decide_unpack _). by destruct t; vm_compute. Qed.

Lemma tag_item_names_no_char t c :
  IsAlphaASCII c || bool_decide (c = "_"%char) = false -> c ∉ tag_item_names t.
Proof.
  intros Hc Hin. pose proof (tag_item_names_chars t) as H.
  rewrite Forall_forall in H. rewrite (H c Hin) in Hc. done.
Qed.

(** ** The mask *)

Lemma tag_index_range t : 0 <= tag_index t < 35.
Proof. destruct t; vm_compute; split; congruence. Qed.

Lemma tag_index_inj t t' : tag_index t = tag_index t' -> t = t'.
Proof. by destruct t, t'. Qed.

Lemma TestAny_bit m k : 0 <= k -> TestAny (Z.land m (Z.shiftl 1 k)) = Z.testbit m k.
Proof.
  intros Hk. unfold TestAny. rewrite Z.shiftl_1_l.
  destruct (Z.testbit m k) eqn:E.
  - apply negb_true_iff, Z.eqb_neq. intros H0.
    assert (Z.testbit (Z.land m (2 ^ k)) k = true) as H
      by (rewrite Z.land_spec, E, Z.pow2_bits_true by done; done).
    by rewrite H0, Z.testbit_0_l in H.
  - apply negb_false_iff, Z.eqb_eq. apply Z.bits_inj. intros i. rewrite Z.land_spec, Z.testbit_0_l.
    destruct (Z.eq_dec i k) as [->|Hne]; [by rewrite E|].
    by rewrite Z.pow2_bits_false, andb_false_r by done.
Qed.

Lemma TagMask_Test_bit m t : TagMask_Test m t = Z.testbit m (tag_index t).
Proof. apply TestAny_bit. pose proof (tag_index_range t). lia. Qed.

Lemma TagMask_of_bit t k : Z.testbit (TagMask_of t) k = (k =? tag_index t).
Proof.
  unfold TagMask_of. rewrite Z.shiftl_1_l. pose proof (tag_index_range t).
  destruct (Z.eqb_spec k (tag_index t)) as [->|Hne]; [apply Z.pow2_bits_true; lia|].
  by apply Z.pow2_bits_false.
Qed.

Lemma TagMask_Test_Set m t t' :
  TagMask_Test (TagMask_Set m t) t' = bool_decide (t' = t) || TagMask_Test m t'.
Proof.
  rewrite !TagMask_Test_bit. unfold TagMask_Set. rewrite Z.lor_spec, TagMask_of_bit, orb_comm.
  f_equal. destruct (Z.eqb_spec (tag_index t') (tag_index t)) as [H|H].
  - apply tag_index_inj in H as ->. by rewrite bool_decide_true.
  - rewrite bool_decide_false; [done|]. by intros ->.
Qed.

Lemma TagMask_not_bit m k : 0 <= k < 64 -> Z.testbit (TagMask_not m) k = negb (Z.testbit m k).
Proof.
  intros Hk. unfold TagMask_not.
  replace (2 ^ 64 - 1 - m) with (Z.lnot m + 1 * 2 ^ 64) by (unfold Z.lnot; lia).
  rewrite <- (Z.mod_pow2_bits_low _ 64) by lia.
  rewrite Z.mod_add by lia. rewrite Z.mod_pow2_bits_low by lia. apply Z.lnot_spec. lia.
Qed.

Lemma TagMask_Test_Unset m t t' :
  TagMask_Test (TagMask_Unset m t) t' = negb (bool_decide (t' = t)) && TagMask_Test m t'.
Proof.
  rewrite !TagMask_Test_bit. unfold TagMask_Unset. pose proof (tag_index_range t').
  rewrite Z.land_spec, TagMask_not_bit, TagMask_of_bit, andb_comm by lia. f_equal. f_equal.
  destruct (Z.eqb_spec (tag_index t') (tag_index t)) as [E|E].
  - apply tag_index_inj in E as ->. by rewrite bool_decide_true.
  - rewrite bool_decide_false; [done|]. by intros ->.
Qed.

Lemma TagMask_Test_None t : TagMask_Test TagMask_None t = false.
Proof. by rewrite TagMask_Test_bit, Z.testbit_0_l. Qed.

(** ** Sort values: the fallback chain ends within two calls *)

Lemma GetSortValue_terminates t type : GetSortValue_aux 2 t type <> None.
Proof. destruct type; cbn; repeat (case_match; cbn in *; try done); congruence. Qed.

Lemma GetSortValue_fuel n t type : GetSortValue_aux (2 + n) t type = GetSortValue_aux 2 t type.
Proof. destruct type; cbn; repeat (case_match; cbn in *; try done); congruence. Qed.

(** ** Builders *)

(** The values a builder or tag holds for one type, in order. *)
Definition values (its : list TagItem) (type : TagType) : list bytes :=
  ti_value <$> List.filter (fun i => bool_decide (ti_type i = type)) its.

Lemma values_app a b type : values (a ++ b) type = values a type ++ values b type.
Proof. unfold values. by rewrite List.filter_app, fmap_app. Qed.

Lemma values_nil_iff its type : values its type = [] <-> existsb (fun i => bool_decide (ti_type i = type)) its = false.
Proof.
  unfold values. induction its as [|i its IH]; simpl; [done|].
  by destruct (bool_decide (ti_type i = type)).
Qed.

Lemma GetValue_head t type : GetValue t type = head (values (items t) type).
Proof.
  unfold GetValue, values. induction (items t) as [|i its IH]; simpl; [done|].
  by destruct (bool_decide (ti_type i = type)).
Qed.

Lemma values_filter_type (p : TagType -> bool) its type :
  values (List.filter (fun i => p (ti_type i)) its) type = if p type then values its type else [].
Proof.
  unfold values. induction its as [|i its IH]; [by destruct (p type)|].
  cbn [List.filter]. destruct (p (ti_type i)) eqn:Ep; cbn [List.filter];
    (case_bool_decide as Ht; [rewrite Ht in Ep|done]); rewrite Ep in *;
    rewrite ?fmap_cons, ?IH; done.
Qed.

Lemma values_Complement b other type :
  values (b_items (Complement b other)) type =
  if TagBuilder_HasType b type then values (b_items b) type else values (items other) type.
Proof.
  unfold Complement. cbn [b_items]. rewrite values_app.
  rewrite (values_filter_type (fun ty => negb (TagBuilder_HasType b ty))).
  destruct (TagBuilder_HasType b type) eqn:E; simpl; [by rewrite app_nil_r|].
  apply values_nil_iff in E. by rewrite E.
Qed.

Lemma values_RemoveType b type type' :
  values (b_items (RemoveType b type)) type' =
  if bool_decide (type' = type) then [] else values (b_items b) type'.
Proof.
  unfold RemoveType. cbn [b_items].
  pose proof (values_filter_type (fun ty => negb (bool_decide (ty = type))) (b_items b) type') as H.
  cbv beta in H. rewrite H. by destruct (bool_decide (type' = type)).
Qed.

(** Few enough items for the 16-bit count. *)
Definition fits (its : list TagItem) : Prop := Z.of_nat (length its) < 65536.

Lemma Commit_items b : fits (b_items b) -> items (Commit b) = b_items b.
Proof.
  intros H. unfold Commit, fits in *. simpl.
  rewrite u32_id, (wrap_u_id 16) by lia. rewrite Nat2Z.id. by rewrite take_ge.
Qed.

(** What [AddItem] guarantees of every item value. *)
Definition clean_value (v : bytes) : Prop := v <> [] /\ valid8 v /\ printable v.

Lemma AddItem_clean mask b type v :
  Forall (fun i => clean_value (ti_value i)) (b_items b) ->
  Forall (fun i => clean_value (ti_value i)) (b_items (AddItem mask b type v)).
Proof.
  intros H. unfold AddItem. destruct (v =b []) eqn:E; [done|].
  destruct (IsTagEnabled mask type); simpl; [|done].
  apply Forall_app. split; [done|]. constructor; [|constructor]. simpl.
  apply bytes_eqb_neq in E.
  change (clean_value (fixed_tag_string v)).
  destruct (fixed_tag_string_valid v) as (Hv & Hp & Hl). split; [|done].
  intros H0. rewrite H0 in Hl. by destruct v.
Qed.

(** ** The "metadata_to_use" setting *)

(** One element of the setting: an optional sign and a tag name. *)
Definition setting_element (e : option bool * TagType) : bytes :=
  match fst e with
  | Some true => lit "+"
  | Some false => lit "-"
  | None => []
  end ++ tag_item_names (snd e).

(** The sign an element without one inherits. *)
Fixpoint apply_setting (plus : bool) (es : list (option bool * TagType)) (t : TagType) (on : bool) : bool :=
  match es with
  | [] => on
  | (sign, t') :: es =>
      let plus := default plus sign in
      apply_setting plus es t (if bool_decide (t = t') then plus else on)
  end.

Definition setting_incremental (es : list (option bool * TagType)) : bool :=
  match es with (Some _, _) :: _ => true | _ => false end.

Lemma drop_while_none f (s : bytes) : Forall (fun c => f c = false) s -> drop_while f s = s.
Proof. intros H. apply drop_while_id. by inversion H. Qed.

Lemma Strip_visible s : visible s -> Strip s = s.
Proof.
  intros H. assert (Forall (fun c => IsWhitespaceOrNull c = false) s) as Hw.
  { eapply Forall_impl; [exact H|]. intros c Hc. unfold IsWhitespaceOrNull. apply Z.leb_gt. simpl in Hc. lia. }
  unfold Strip, StripRight, StripLeft. rewrite (drop_while_none _ s) by done.
  rewrite drop_while_none by (by apply Forall_reverse). apply reverse_involutive.
Qed.

Lemma setting_element_visible e : visible (setting_element e).
Proof. apply (bool_decide_unpack _). destruct e as [[[]|] []]; vm_compute; done. Qed.

Lemma setting_element_no_comma e : ","%char ∉ setting_element e.
Proof. apply (bool_decide_unpack _). destruct e as [[[]|] []]; vm_compute; done. Qed.

Lemma setting_element_sign e :
  match SkipPrefix (setting_element e) (lit "+") with
  | (true, r) => fst e = Some true /\ r = tag_item_names (snd e)
  | (false, _) =>
      match SkipPrefix (setting_element e) (lit "-") with
      | (true, r) => fst e = Some false /\ r = tag_item_names (snd e)
      | (false, _) => fst e = None /\ setting_element e = tag_item_names (snd e)
      end
  end.
Proof. destruct e as [[[]|] []]; vm_compute; done. Qed.

Lemma TagLoadConfig_items_spec es plus mask :
  exists m, TagLoadConfig_items (setting_element <$> es) plus mask = Ok m /\
  forall t, TagMask_Test m t = apply_setting plus es t (TagMask_Test mask t).
Proof.
  revert plus mask. induction es as [|e es IH]; intros plus mask; [by eexists|].
  rewrite fmap_cons. cbn [TagLoadConfig_items apply_setting]. rewrite Strip_visible by apply setting_element_visible.
  pose proof (setting_element_sign e) as Hs. destruct e as [sign t]. simpl fst in *. simpl snd in *.
  assert (exists plus', plus' = default plus sign /\
    forall T (k : bool -> bytes -> T),
    (let '(p, name) := match SkipPrefix (setting_element (sign, t)) (lit "+") with
      | (true, r) => (true, r)
      | (false, _) => match SkipPrefix (setting_element (sign, t)) (lit "-") with
                      | (true, r) => (false, r)
                      | (false, _) => (plus, setting_element (sign, t))
                      end
      end in k p name) = k plus' (tag_item_names t)) as (plus' & Hp & Hk).
  { exists (default plus sign). split; [done|]. intros T k.
    destruct (SkipPrefix (setting_element (sign, t)) (lit "+")) as [[] ?];
      [destruct Hs as [-> ->]; done|].
    destruct (SkipPrefix (setting_element (sign, t)) (lit "-")) as [[] ?];
      destruct Hs as [-> ->]; done. }
  rewrite Hk, tag_name_parse_i_names, <- Hp. clear Hk Hs Hp.
  destruct plus'; (edestruct IH as (m & -> & Hm); exists m; split; [done|]; intros t'; rewrite Hm; f_equal).
  - rewrite TagMask_Test_Set. by destruct (bool_decide (t' = t)).
  - rewrite TagMask_Test_Unset. by destruct (bool_decide (t' = t)).
Qed.

Lemma setting_not_none es : es <> [] ->
  StringIsEqualIgnoreCase (join "," (setting_element <$> es)) (lit "none") = false.
Proof.
  intros H. destruct es as [|e [|e' es]]; [done|apply (bool_decide_unpack _)|].
  - simpl. destruct e as [[[]|] []]; vm_compute; done.
  - apply bytes_eqb_neq. intros E.
    change (join "," (setting_element <$> e :: e' :: es)) with
      (setting_element e ++ ","%char :: join "," (setting_element <$> e' :: es)) in E.
    rewrite map_app in E. apply (f_equal (fun l => bool_decide (","%char ∈ l))) in E.
    rewrite bool_decide_true in E; [by vm_compute in E|].
    apply elem_of_app. right. by left.
Qed.

Lemma setting_sign es : es <> [] ->
  match join "," (setting_element <$> es) with
  | c :: _ => bool_decide (c = "+"%char) || bool_decide (c = "-"%char)
  | [] => false
  end = setting_incremental es.
Proof.
  intros H. destruct es as [|e es]; [done|].
  assert (exists r, join "," (setting_element <$> e :: es) = setting_element e ++ r) as [r ->]
    by (destruct es; [exists []; simpl; by rewrite app_nil_r|by eexists]).
  by destruct e as [[[]|] []].
Qed.

(** ** Properties *)

(** The "metadata_to_use" setting switches on exactly the tags it
    names: starting from the current mask if the setting begins with a
    sign and from the empty mask otherwise, its elements are applied in
    order, a sign staying in force for the elements without one. *)
Theorem TagLoadConfig_spec (es : list (option bool * TagType)) (mask : Z) (Hne : es <> []) :
  exists m, TagLoadConfig (Some (join "," (setting_element <$> es))) mask = Ok m /\
  forall t, IsTagEnabled m t =
    apply_setting true es t (if setting_incremental es then IsTagEnabled mask t else false).
Proof.
  destruct (TagLoadConfig_items_spec es true (if setting_incremental es then mask else TagMask_None))
    as (m & Hm & Ht).
  exists m. split.
  - unfold TagLoadConfig. rewrite setting_not_none by done. rewrite setting_sign by done.
    rewrite join_IterableSplitString; [done|by destruct es|].
    apply Forall_forall. intros x (e & -> & _)%list_elem_of_fmap. apply setting_element_no_comma.
  - intros t. unfold IsTagEnabled. rewrite Ht. destruct (setting_incremental es); [done|].
    by rewrite TagMask_Test_None.
Qed.

(** Artist and Album switched off, then Title on: the sign of the first
    element is inherited by the second. *)
Lemma TagLoadConfig_spec_witness :
  exists m, TagLoadConfig (Some (lit "-Artist,Album,+Title")) global_tag_mask = Ok m /\
  forall t, IsTagEnabled m t =
    apply_setting true [(Some false, TAG_ARTIST); (None, TAG_ALBUM); (Some true, TAG_TITLE)] t
      (IsTagEnabled global_tag_mask t).
Proof.
  apply (TagLoadConfig_spec [(Some false, TAG_ARTIST); (None, TAG_ALBUM); (Some true, TAG_TITLE)]
           global_tag_mask). discriminate.
Defined.

(** Merging two tags takes, for every type, all values of [add] if it
    has any and else those of [base]; the duration of [add] wins unless it
    is unknown. *)
Theorem Merge_values (base add : Tag) (Hfit : fits (items add ++ items base)) :
  let t := Merge base add in
  (forall type, values (items t) type =
     if Tag_HasType add type then values (items add) type else values (items base) type) /\
  duration t = (if IsNegative_ms (duration add) then duration base else duration add) /\
  has_playlist t = has_playlist add || has_playlist base.
Proof.
  cbn zeta. split; [|done]. intros type. unfold Merge. rewrite Commit_items.
  - rewrite values_Complement. f_equal. unfold TagBuilder_of, TagBuilder_HasType, Tag_HasType. simpl.
    rewrite GetValue_head. destruct (existsb _ _) eqn:E; apply eq_sym.
    + destruct (values (items add) type) eqn:Ev; [|done]. apply values_nil_iff in Ev. congruence.
    + apply values_nil_iff in E. by rewrite E.
  - unfold fits in *. unfold Complement. simpl. rewrite length_app in *.
    match goal with |- context [List.filter ?f ?l] => pose proof (List.filter_length_le f l) end. lia.
Qed.

Lemma Merge_values_witness :
  let base := mkTag 5000 false [mkTagItem TAG_TITLE (lit "x"); mkTagItem TAG_ALBUM (lit "y")] in
  let add := mkTag (-1) true [mkTagItem TAG_TITLE (lit "z")] in
  let t := Merge base add in
  (forall type, values (items t) type =
     if Tag_HasType add type then values (items add) type else values (items base) type) /\
  duration t = (if IsNegative_ms (duration add) then duration base else duration add) /\
  has_playlist t = has_playlist add || has_playlist base.
Proof. apply (Merge_values (mkTag 5000 false [mkTagItem TAG_TITLE (lit "x"); mkTagItem TAG_ALBUM (lit "y")])
  (mkTag (-1) true [mkTagItem TAG_TITLE (lit "z")])). vm_compute. reflexivity. Defined.

(** [GetSortValue] terminates: two calls always suffice, and more
    change nothing; its result is the value of the type itself if the tag
    has one. *)
Theorem GetSortValue_total (t : Tag) (type : TagType) :
  (forall n, GetSortValue_aux (2 + n) t type = Some (GetSortValue t type)) /\
  (forall v, GetValue t type = Some v -> GetSortValue t type = v).
Proof.
  split.
  - intros n. rewrite GetSortValue_fuel. unfold GetSortValue.
    pose proof (GetSortValue_terminates t type). by destruct (GetSortValue_aux 2 t type).
  - intros v H. unfold GetSortValue. cbn [GetSortValue_aux]. by rewrite H.
Qed.
