(* ===== verification/Audio.v ===== *)
(** Audio formats: [src/pcm/SampleFormat], [AudioFormat], [ChannelDefs.hxx],
    [AudioParser.cxx] and [CheckAudioFormat.cxx].  The database stores the
    format of every song as text ([Format: 44100:16:2]) and reads it back.

    [sample_rate] is a [uint32_t], [channels] a [uint8_t]; the [mask]
    argument of the parsers allows an asterisk, which stands for 0 or
    [UNDEFINED]. *)
From S2P Require Import Prelude Text.
Open Scope Z_scope.

(** ** SampleFormat *)

Inductive SampleFormat := UNDEFINED | S8 | S16 | S24_P32 | S32 | FLOAT | DSD.

#[export] Instance SampleFormat_eq_dec : EqDecision SampleFormat.
Proof. solve_decision. Defined.

Definition audio_valid_sample_format (format : SampleFormat) : bool :=
  match format with
  | S8 | S16 | S24_P32 | S32 | FLOAT | DSD => true
  | UNDEFINED => false
  end.

Definition sample_format_size (format : SampleFormat) : Z :=
  match format with
  | S8 => 1
  | S16 => 2
  | S24_P32 | S32 | FLOAT => 4
  | DSD => 1
  | UNDEFINED => 0
  end.

Definition sample_format_to_string (format : SampleFormat) : bytes :=
  match format with
  | UNDEFINED => lit "?"
  | S8 => lit "8"
  | S16 => lit "16"
  | S24_P32 => lit "24"
  | S32 => lit "32"
  | FLOAT => lit "f"
  | DSD => lit "dsd"
  end.

(** ** ChannelDefs.hxx *)

Definition MAX_CHANNELS : Z := 8.
Definition audio_valid_channel_count (channels : Z) : bool :=
  (1 <=? channels) && (channels <=? MAX_CHANNELS).

(** ** AudioFormat *)

Record AudioFormat := mkAudioFormat { sample_rate : Z; format : SampleFormat; channels : Z }.

#[export] Instance AudioFormat_eq_dec : EqDecision AudioFormat.
Proof. solve_decision. Defined.

Definition AudioFormat_Undefined : AudioFormat := mkAudioFormat 0 UNDEFINED 0.
Definition AudioFormat_IsDefined (a : AudioFormat) : bool := negb (sample_rate a =? 0).
Definition is_undefined (f : SampleFormat) : bool := bool_decide (f = UNDEFINED).
Definition IsFullyDefined (a : AudioFormat) : bool :=
  negb (sample_rate a =? 0) && negb (is_undefined (format a)) && negb (channels a =? 0).
Definition IsMaskDefined (a : AudioFormat) : bool :=
  negb (sample_rate a =? 0) || negb (is_undefined (format a)) || negb (channels a =? 0).

Definition audio_valid_sample_rate (sample_rate : Z) : bool :=
  (0 <? sample_rate) && (sample_rate <? 2 ^ 30).

Definition AudioFormat_IsValid (a : AudioFormat) : bool :=
  audio_valid_sample_rate (sample_rate a) && audio_valid_sample_format (format a) &&
  audio_valid_channel_count (channels a).

Definition IsMaskValid (a : AudioFormat) : bool :=
  ((sample_rate a =? 0) || audio_valid_sample_rate (sample_rate a)) &&
  (is_undefined (format a) || audio_valid_sample_format (format a)) &&
  ((channels a =? 0) || audio_valid_channel_count (channels a)).

Definition ApplyMask (a mask : AudioFormat) : AudioFormat :=
  mkAudioFormat
    (if negb (sample_rate mask =? 0) then sample_rate mask else sample_rate a)
    (if negb (is_undefined (format mask)) then format mask else format a)
    (if negb (channels mask =? 0) then channels mask else channels a).

Definition MatchMask (a mask : AudioFormat) : bool := bool_decide (ApplyMask a mask = a).

Definition GetFrameSize (a : AudioFormat) : Z := sample_format_size (format a) * channels a.

Definition ToString (af : AudioFormat) : bytes :=
  (if bool_decide (format af = DSD) && (0 <? sample_rate af) && (sample_rate af mod 44100 =? 0)
   then lit "dsd" ++ print_nat (u32 (sample_rate af * 8) / 44100) ++ lit ":"
   else
     let sample_format :=
       if negb (is_undefined (format af)) then sample_format_to_string (format af) else lit "*" in
     if 0 <? sample_rate af then print_nat (sample_rate af) ++ lit ":" ++ sample_format ++ lit ":"
     else lit "*:" ++ sample_format ++ lit ":") ++
  (if 0 <? channels af then print_nat (channels af) else lit "*").

(** ** AudioParser.cxx *)

Definition ParseSampleRate (src : bytes) (mask : bool) : result Z :=
  if mask && (src =b lit "*") then Ok 0
  else match ParseInteger (2 ^ 32 - 1) src with
       | None => Throw (lit "Failed to parse the sample rate")
       | Some value =>
           if negb (audio_valid_sample_rate value) then Throw (lit "Invalid sample rate")
           else Ok value
       end.

Definition ParseSampleFormat (src : bytes) (mask : bool) : result SampleFormat :=
  if mask && (src =b lit "*") then Ok UNDEFINED
  else if src =b lit "f" then Ok FLOAT
  else if src =b lit "dsd" then Ok DSD
  else if src =b lit "8" then Ok S8
  else if src =b lit "16" then Ok S16
  else if src =b lit "24" then Ok S24_P32
  else if src =b lit "24_3" then Ok S24_P32
  else if src =b lit "32" then Ok S32
  else Throw (lit "Invalid sample format").

Definition ParseChannelCount (src : bytes) (mask : bool) : result Z :=
  if mask && (src =b lit "*") then Ok 0
  else match ParseInteger 255 src with
       | None => Throw (lit "Failed to parse the channel count")
       | Some value =>
           if negb (audio_valid_channel_count value) then Throw (lit "Invalid channel count")
           else Ok value
       end.

Definition ParseAudioFormat (src : bytes) (mask : bool) : result AudioFormat :=
  match SkipPrefix src (lit "dsd") with
  | (true, src) =>
      match Split src ":" with
      | (_, None) => Throw (lit "Channel count missing")
      | (dsd_s, Some channels_s) =>
          match ParseInteger 65535 dsd_s with
          | None => Throw (lit "Failed to parse the DSD rate")
          | Some dsd =>
              if (dsd <? 32) || (4096 <? dsd) then Throw (lit "Bad DSD rate")
              else
                let* channels := ParseChannelCount channels_s mask in
                Ok (mkAudioFormat (dsd * 44100 / 8) DSD channels)
          end
      end
  | (false, src) =>
      let '(sample_rate_s, rest1) := Split src ":" in
      let* sample_rate := ParseSampleRate sample_rate_s mask in
      match rest1 with
      | None => Throw (lit "Sample format missing")
      | Some rest1 =>
          let '(format_s, channels_s) := Split rest1 ":" in
          let* format := ParseSampleFormat format_s mask in
          match channels_s with
          | None => Throw (lit "Channel count missing")
          | Some channels_s =>
              let* channels := ParseChannelCount channels_s mask in
              Ok (mkAudioFormat sample_rate format channels)
          end
      end
  end.

(** ** CheckAudioFormat.cxx.  [sample_rate] is an [unsigned long], converted
    to [unsigned] by the check and to [uint32_t] by the constructor. *)

Definition CheckSampleRate (sample_rate : Z) : result unit :=
  if negb (audio_valid_sample_rate (u32 sample_rate)) then Throw (lit "Invalid sample rate") else Ok tt.
Definition CheckSampleFormat (f : SampleFormat) : result unit :=
  if negb (audio_valid_sample_format f) then Throw (lit "Invalid sample format") else Ok tt.
Definition CheckChannelCount (channels : Z) : result unit :=
  if negb (audio_valid_channel_count channels) then Throw (lit "Invalid channel count") else Ok tt.

Definition CheckAudioFormat (sample_rate : Z) (f : SampleFormat) (channels : Z) : result AudioFormat :=
  let* _ := CheckSampleRate sample_rate in
  let* _ := CheckSampleFormat f in
  let* _ := CheckChannelCount channels in
  Ok (mkAudioFormat (u32 sample_rate) f (u8 channels)).

(** The rates the "dsdN" shortcut can express: DSD32 to DSD4096. *)
Definition expressible (af : AudioFormat) : Prop :=
  format af = DSD -> sample_rate af mod 44100 = 0 -> sample_rate af = 0 \/
  176400 <= sample_rate af <= 22579200.

#[export] Instance expressible_dec af : Decision (expressible af).
Proof. unfold expressible. apply _. Defined.

(** ** Lemmas *)

Lemma print_nat_not_star n : 0 <= n -> (print_nat n =b lit "*") = false.
Proof.
  intros H. apply bytes_eqb_neq. intros E.
  pose proof (print_nat_starts_digit n [] H) as Hd. by rewrite app_nil_r, E in Hd.
Qed.

Lemma print_nat_no_char n c : 0 <= n -> IsDigitASCII c = false -> c ∉ print_nat n.
Proof.
  intros H Hc Hin. destruct (print_nat_digits n H) as [_ Hd].
  rewrite Forall_forall in Hd. rewrite (Hd c Hin) in Hc. done.
Qed.

Lemma ParseChannelCount_print (n : Z) (mask : bool) :
  (if mask then n = 0 \/ audio_valid_channel_count n = true
   else audio_valid_channel_count n = true) ->
  ParseChannelCount (if 0 <? n then print_nat n else lit "*") mask = Ok n.
Proof.
  intros H.
  assert (n = 0 /\ mask = true \/ audio_valid_channel_count n = true) as [[-> ->]|Hv]
    by (destruct mask; tauto); [done|].
  pose proof Hv as Hb. unfold audio_valid_channel_count, MAX_CHANNELS in Hb. reflect_bools.
  rewrite (proj2 (Z.ltb_lt _ _)) by lia. unfold ParseChannelCount.
  rewrite print_nat_not_star, andb_false_r by lia.
  rewrite ParseInteger_print by lia. by rewrite Hv.
Qed.

Lemma ParseSampleRate_print (n : Z) (mask : bool) :
  (if mask then n = 0 \/ audio_valid_sample_rate n = true
   else audio_valid_sample_rate n = true) ->
  ParseSampleRate (if 0 <? n then print_nat n else lit "*") mask = Ok n.
Proof.
  intros H.
  assert (n = 0 /\ mask = true \/ audio_valid_sample_rate n = true) as [[-> ->]|Hv]
    by (destruct mask; tauto); [done|].
  pose proof Hv as Hb. unfold audio_valid_sample_rate in Hb. reflect_bools.
  rewrite (proj2 (Z.ltb_lt _ _)) by lia. unfold ParseSampleRate.
  rewrite print_nat_not_star, andb_false_r by lia.
  rewrite ParseInteger_print by lia. by rewrite Hv.
Qed.

Definition format_text (f : SampleFormat) : bytes :=
  if negb (is_undefined f) then sample_format_to_string f else lit "*".

Lemma ParseSampleFormat_print f (mask : bool) :
  (if mask then True else audio_valid_sample_format f = true) ->
  ParseSampleFormat (format_text f) mask = Ok f.
Proof. destruct mask, f; vm_compute; done. Qed.

Lemma format_text_no_colon f : ":"%char ∉ format_text f.
Proof. apply (bool_decide_unpack _). by destruct f; vm_compute. Qed.

Lemma ParseAudioFormat_general rate f ch mask :
  mask = true \/ audio_valid_sample_format f = true ->
  (rate = 0 /\ mask = true) \/ audio_valid_sample_rate rate = true ->
  (ch = 0 /\ mask = true) \/ audio_valid_channel_count ch = true ->
  ParseAudioFormat ((if 0 <? rate then print_nat rate else lit "*") ++ ":"%char ::
    format_text f ++ ":"%char :: (if 0 <? ch then print_nat ch else lit "*")) mask =
  Ok (mkAudioFormat rate f ch).
Proof.
  intros Hf Hr Hc. unfold ParseAudioFormat.
  set (r := if 0 <? rate then print_nat rate else lit "*").
  assert (":"%char ∉ r /\ forall s, after_prefix (r ++ ":"%char :: s) (lit "dsd") = None) as [Hn Hd].
  { subst r. destruct (0 <? rate) eqn:E; [|split; [apply (bool_decide_unpack _); by vm_compute|done]].
    apply Z.ltb_lt in E. split; [apply print_nat_no_char; [lia|done]|]. intros s.
    pose proof (print_nat_starts_digit rate (":"%char :: s) ltac:(lia)) as Hd.
    destruct (print_nat rate ++ ":"%char :: s) as [|c l]; [done|]. simpl in *.
    rewrite bool_decide_false; [done|]. by intros <-. }
  unfold SkipPrefix. rewrite Hd. cbn iota. rewrite Split_app by done. cbn iota.
  unfold r at 1. rewrite ParseSampleRate_print by (destruct mask; naive_solver). simpl rbind.
  rewrite Split_app by apply format_text_no_colon. cbn iota.
  rewrite ParseSampleFormat_print by (destruct mask; naive_solver). simpl rbind.
  by rewrite ParseChannelCount_print by (destruct mask; naive_solver).
Qed.

Lemma ToString_dsd n ch : 0 <= n -> 0 <= ch -> forall mask,
  ParseAudioFormat (lit "dsd" ++ (print_nat n ++ lit ":") ++
    (if 0 <? ch then print_nat ch else lit "*")) mask =
  (if (65535 <? n) then Throw (lit "Failed to parse the DSD rate")
   else if (n <? 32) || (4096 <? n) then Throw (lit "Bad DSD rate")
   else let* c := ParseChannelCount (if 0 <? ch then print_nat ch else lit "*") mask in
        Ok (mkAudioFormat (n * 44100 / 8) DSD c)).
Proof.
  intros Hn Hch mask. unfold ParseAudioFormat, SkipPrefix. rewrite after_prefix_app. cbn iota.
  rewrite <- app_assoc. change (lit ":" ++ ?s) with (":"%char :: s).
  rewrite Split_app by (by apply print_nat_no_char). cbn iota.
  destruct (65535 <? n) eqn:E; reflect_bools.
  - assert (ParseInteger 65535 (print_nat n) = None) as ->; [|done].
    unfold ParseInteger. pose proof (print_nat_starts_digit n [] Hn) as Hd.
    rewrite app_nil_r in Hd. rewrite Hd, scan_print_nat by done.
    by rewrite (proj2 (Z.leb_gt _ _)) by lia.
  - by rewrite ParseInteger_print by lia.
Qed.

Lemma dsd_rates rate : 0 < rate < 2 ^ 30 -> rate mod 44100 = 0 ->
  let n := u32 (rate * 8) / 44100 in
  (176400 <= rate <= 22579200 -> 32 <= n <= 4096 /\ n * 44100 / 8 = rate) /\
  (~ 176400 <= rate <= 22579200 -> 32 <= n <= 4096 -> n * 44100 / 8 <> rate).
Proof.
  intros Hr Hm n. subst n.
  assert (exists k, rate = k * 44100) as [k ->].
  { exists (rate / 44100). pose proof (Z.div_mod rate 44100). lia. }
  split.
  - intros H. rewrite u32_id by lia.
    replace (k * 44100 * 8) with (k * 8 * 44100) by lia. rewrite Z.div_mul by lia.
    split; [lia|]. replace (k * 8 * 44100) with (k * 44100 * 8) by lia. by rewrite Z.div_mul.
  - intros Hout Hn Heq. pose proof (Z.div_mod (u32 (k * 44100 * 8) / 44100 * 44100) 8 ltac:(lia)).
    pose proof (Z.mod_pos_bound (u32 (k * 44100 * 8) / 44100 * 44100) 8 ltac:(lia)).
    destruct (decide (k * 44100 < 176400)); [|lia].
    rewrite u32_id in * by lia. replace (k * 44100 * 8) with (k * 8 * 44100) in * by lia.
    rewrite Z.div_mul in * by lia. lia.
Qed.

Lemma format_text_visible f : visible (format_text f).
Proof. apply (bool_decide_unpack _). by destruct f; vm_compute. Qed.

Lemma ToString_visible af : 0 <= sample_rate af -> 0 <= channels af -> visible (ToString af).
Proof.
  intros Hr Hc. unfold ToString. fold (format_text (format af)).
  assert (forall s, bool_decide (visible s) = true -> visible s) as Hlit by (intros s; apply bool_decide_eq_true).
  pose proof (format_text_visible (format af)).
  apply visible_app; [|destruct (0 <? channels af); [by apply visible_print_nat|by apply Hlit]].
  destruct (_ && _ && _); [|destruct (0 <? sample_rate af)]; repeat apply visible_app;
    try done; try (by apply Hlit); apply visible_print_nat; try done.
  apply Z.div_pos; [by apply (wrap_u_range 32)|lia].
Qed.

Lemma ParseAudioFormat_ToString_iff (af : AudioFormat) (mask : bool) :
  (if mask then IsMaskValid af else AudioFormat_IsValid af) = true ->
  ParseAudioFormat (ToString af) mask = Ok af <-> expressible af.
Proof.
  intros Hvalid.
  destruct af as [rate f ch].
  assert ((mask = true \/ audio_valid_sample_format f = true) /\
    ((rate = 0 /\ mask = true) \/ audio_valid_sample_rate rate = true) /\
    ((ch = 0 /\ mask = true) \/ audio_valid_channel_count ch = true)) as (Hf & Hr & Hc).
  { destruct mask; [unfold IsMaskValid in Hvalid|unfold AudioFormat_IsValid in Hvalid];
      reflect_bools; simpl in *; [|tauto].
    split; [by left|]. split.
    - destruct (rate =? 0) eqn:E; reflect_bools; [by left|by right].
    - destruct (ch =? 0) eqn:E; reflect_bools; [by left|by right]. }
  assert (0 <= ch /\ 0 <= rate < 2 ^ 30) as [Hch Hrate].
  { unfold audio_valid_channel_count, audio_valid_sample_rate, MAX_CHANNELS in *.
    destruct Hr as [[-> _]|]; destruct Hc as [[-> _]|]; reflect_bools; lia. }
  unfold ToString. cbn [format sample_rate channels].
  destruct (bool_decide (f = DSD) && (0 <? rate) && (rate mod 44100 =? 0)) eqn:E.
  - reflect_bools. case_bool_decide; [|done]. subst f.
    rewrite <- (app_assoc (lit "dsd")), ToString_dsd by first [done | apply Z.div_pos; [by apply (wrap_u_range 32)|lia]].
    rewrite ParseChannelCount_print by (destruct mask; naive_solver). cbn [rbind].
    unfold expressible. cbn [format sample_rate].
    pose proof (dsd_rates rate ltac:(lia) ltac:(done)) as (Hin & Hout).
    destruct (decide (176400 <= rate <= 22579200)) as [Hin'|Hout'].
    + destruct (Hin Hin') as [Hlim Heq].
      rewrite !(proj2 (Z.ltb_ge _ _)) by lia. cbn [orb]. rewrite Heq. naive_solver.
    + specialize (Hout Hout'). split; [|intros Hex; specialize (Hex eq_refl ltac:(done)); lia].
      destruct (65535 <? _); [done|]. destruct (_ || _) eqn:Elim; [done|]. reflect_bools.
      intros [= Hrt]. exfalso. apply Hout; [lia|done].
  - replace (_ ++ _) with ((if 0 <? rate then print_nat rate else lit "*") ++ ":"%char ::
      format_text f ++ ":"%char :: (if 0 <? ch then print_nat ch else lit "*"))
      by (unfold format_text; destruct (0 <? rate); by rewrite <- ?app_assoc).
    rewrite ParseAudioFormat_general by done. split; [|done]. intros _.
    unfold expressible. cbn [format sample_rate]. intros -> H0. left.
    rewrite bool_decide_true, H0 in E by done. simpl in E. rewrite andb_true_r in E.
    apply Z.ltb_ge in E. lia.
Qed.

(** ** Properties *)

(** A valid audio format (or, with [mask], a valid mask) is printed and
    parsed back to itself exactly if it is not one of the DSD formats
    whose rate is a multiple of 44.1 kHz outside the range of the "dsdN"
    shortcut (DSD32 ... DSD4096): those are printed with the shortcut, which
    the parser then rejects or reads as another rate. *)
Theorem ParseAudioFormat_ToString (af : AudioFormat) (mask : bool)
  (Hvalid : (if mask then IsMaskValid af else AudioFormat_IsValid af) = true) :
  ParseAudioFormat (ToString af) mask = Ok af <-> expressible af.
Proof. by apply ParseAudioFormat_ToString_iff. Qed.

Lemma ParseAudioFormat_ToString_witness :
  ParseAudioFormat (ToString (mkAudioFormat 2822400 DSD 2)) false = Ok (mkAudioFormat 2822400 DSD 2)
  <-> expressible (mkAudioFormat 2822400 DSD 2).
Proof. apply (ParseAudioFormat_ToString (mkAudioFormat 2822400 DSD 2) false). vm_compute. reflexivity. Defined.

Example ParseAudioFormat_ToString_lossy :
  ToString (mkAudioFormat 44100 DSD 2) = lit "dsd8:2" /\
  ParseAudioFormat (lit "dsd8:2") false = Throw (lit "Bad DSD rate").
Proof. vm_compute. done. Qed.
