(* ===== verification/Songs.v ===== *)
(** Songs: [src/song/DetachedSong], [src/song/LightSong],
    [src/db/plugins/simple/Song] and [ExportedSong.hxx].

    A [Song] is owned by the [Directory] that contains it; what depends on
    the parent ([GetURI], [Export]) takes it as an argument or is defined
    with the directory tree (module [Directory]). *)
From S2P Require Import Prelude Text Chrono Tags Audio.
Open Scope Z_scope.

(** ** DetachedSong *)

Record DetachedSong := mkDetachedSong
  { d_uri : bytes;
    d_real_uri : bytes;
    d_tag : Tag;
    d_mtime : Z;
    d_added : Z;
    d_start_time : Z;
    d_end_time : Z;
    d_audio_format : AudioFormat }.

Definition DetachedSong_new (uri : bytes) : DetachedSong :=
  mkDetachedSong uri [] Tag_empty time_point_min time_point_min 0 0 AudioFormat_Undefined.
Definition DetachedSong_new_tag (uri : bytes) (tag : Tag) : DetachedSong :=
  mkDetachedSong uri [] tag time_point_min time_point_min 0 0 AudioFormat_Undefined.

Definition d_SetTag (s : DetachedSong) (t : Tag) : DetachedSong :=
  mkDetachedSong (d_uri s) (d_real_uri s) t (d_mtime s) (d_added s)
    (d_start_time s) (d_end_time s) (d_audio_format s).
Definition d_SetLastModified (s : DetachedSong) (p : Z) : DetachedSong :=
  mkDetachedSong (d_uri s) (d_real_uri s) (d_tag s) p (d_added s)
    (d_start_time s) (d_end_time s) (d_audio_format s).
Definition d_SetAdded (s : DetachedSong) (p : Z) : DetachedSong :=
  mkDetachedSong (d_uri s) (d_real_uri s) (d_tag s) (d_mtime s) p
    (d_start_time s) (d_end_time s) (d_audio_format s).
Definition d_SetStartTime (s : DetachedSong) (t : Z) : DetachedSong :=
  mkDetachedSong (d_uri s) (d_real_uri s) (d_tag s) (d_mtime s) (d_added s)
    t (d_end_time s) (d_audio_format s).
Definition d_SetEndTime (s : DetachedSong) (t : Z) : DetachedSong :=
  mkDetachedSong (d_uri s) (d_real_uri s) (d_tag s) (d_mtime s) (d_added s)
    (d_start_time s) t (d_audio_format s).
Definition d_SetAudioFormat (s : DetachedSong) (a : AudioFormat) : DetachedSong :=
  mkDetachedSong (d_uri s) (d_real_uri s) (d_tag s) (d_mtime s) (d_added s)
    (d_start_time s) (d_end_time s) a.
Definition d_SetURI (s : DetachedSong) (u : bytes) : DetachedSong :=
  mkDetachedSong u (d_real_uri s) (d_tag s) (d_mtime s) (d_added s)
    (d_start_time s) (d_end_time s) (d_audio_format s).
Definition d_SetRealURI (s : DetachedSong) (u : bytes) : DetachedSong :=
  mkDetachedSong (d_uri s) u (d_tag s) (d_mtime s) (d_added s)
    (d_start_time s) (d_end_time s) (d_audio_format s).

Definition HasRealURI (s : DetachedSong) : bool := negb (d_real_uri s =b []).
Definition GetRealURI (s : DetachedSong) : bytes :=
  if HasRealURI s then d_real_uri s else d_uri s.
Definition IsSame (s other : DetachedSong) : bool :=
  (d_uri s =b d_uri other) && (d_start_time s =? d_start_time other) &&
  (d_end_time s =? d_end_time other).
Definition IsRemote (s : DetachedSong) : bool := uri_has_scheme (GetRealURI s).
Definition IsAbsoluteFile (s : DetachedSong) : bool := IsAbsolute (GetRealURI s).
Definition IsInDatabase (s : DetachedSong) : bool := negb (IsAbsoluteOrHasScheme (d_uri s)).
Definition d_GetAdded (s : DetachedSong) : Z :=
  if IsNegative (d_added s) then d_mtime s else d_added s.

(** [GetDuration] of [DetachedSong] and of [LightSong]: the [uint32_t]
    difference, converted to [int32_t]. *)
Definition GetDuration_of (start_time end_time : Z) (tag : Tag) : Z :=
  if 0 <? end_time then s32 (u32 (end_time - start_time))
  else if IsNegative_ms (duration tag) then duration tag
  else s32 (u32 (u32 (duration tag) - start_time)).

Definition d_GetDuration (s : DetachedSong) : Z :=
  GetDuration_of (d_start_time s) (d_end_time s) (d_tag s).

(** ** LightSong, ExportedSong *)

Record LightSong := mkLightSong
  { l_directory : option bytes;
    l_uri : bytes;
    l_real_uri : option bytes;
    l_tag : Tag;
    l_mtime : Z;
    l_added : Z;
    l_start_time : Z;
    l_end_time : Z;
    l_audio_format : AudioFormat;
    l_priority : Z }.

Definition LightSong_new (uri : bytes) (tag : Tag) : LightSong :=
  mkLightSong None uri None tag time_point_min time_point_min 0 0 AudioFormat_Undefined 0.

(** [LightSong(const LightSong &src, const Tag &)]: [added] and [priority]
    are not in its initialiser list and keep their defaults. *)
Definition LightSong_copy (src : LightSong) (tag : Tag) : LightSong :=
  mkLightSong (l_directory src) (l_uri src) (l_real_uri src) tag
    (l_mtime src) time_point_min (l_start_time src) (l_end_time src) (l_audio_format src) 0.

Definition l_GetURI (s : LightSong) : bytes :=
  match l_directory s with
  | None => l_uri s
  | Some d => d ++ "/"%char :: l_uri s
  end.

Definition l_GetDuration (s : LightSong) : Z :=
  GetDuration_of (l_start_time s) (l_end_time s) (l_tag s).

(** An [ExportedSong] either owns its tag or refers to a foreign one. *)
Record ExportedSong := mkExportedSong { e_light : LightSong; e_tag_buffer : Tag; e_OwnsTag : bool }.

Definition ExportedSong_own (uri : bytes) (tag : Tag) : ExportedSong :=
  mkExportedSong (LightSong_new uri tag) tag true.
Definition ExportedSong_ref (uri : bytes) (tag : Tag) : ExportedSong :=
  mkExportedSong (LightSong_new uri tag) Tag_empty false.

(** The move constructor. *)
Definition ExportedSong_move (src : ExportedSong) : ExportedSong :=
  mkExportedSong
    (LightSong_copy (e_light src) (if e_OwnsTag src then e_tag_buffer src else l_tag (e_light src)))
    (e_tag_buffer src) (e_OwnsTag src).

Definition DetachedSong_of_light (other : LightSong) : DetachedSong :=
  mkDetachedSong (l_GetURI other) (default [] (l_real_uri other)) (l_tag other)
    (l_mtime other) (l_added other) (l_start_time other) (l_end_time other) (l_audio_format other).

(** [operator LightSong]: the audio format is not transferred. *)
Definition LightSong_of_detached (s : DetachedSong) : LightSong :=
  mkLightSong None (d_uri s) (if d_real_uri s =b [] then None else Some (d_real_uri s)) (d_tag s)
    (d_mtime s) (d_added s) (d_start_time s) (d_end_time s) AudioFormat_Undefined 0.

(** ** Song *)

Record Song := mkSong
  { filename : bytes;
    target : bytes;
    s_tag : Tag;
    s_mtime : Z;
    s_added : Z;
    start_time : Z;
    end_time : Z;
    audio_format : AudioFormat;
    in_playlist : bool;
    s_mark : bool }.

(** The constructors leave [mark] uninitialised; it is written before it
    is read. *)
Definition Song_new (name : bytes) : Song :=
  mkSong name [] Tag_empty time_point_min time_point_min 0 0 AudioFormat_Undefined false false.

Definition Song_of_detached (other : DetachedSong) : Song :=
  mkSong (d_uri other) [] (d_tag other) (d_mtime other) (d_GetAdded other)
    (d_start_time other) (d_end_time other) (d_audio_format other) false false.

Definition Song_with_target (s : Song) (t : bytes) : Song :=
  mkSong (filename s) t (s_tag s) (s_mtime s) (s_added s) (start_time s) (end_time s)
    (audio_format s) (in_playlist s) (s_mark s).
Definition Song_with_tag (s : Song) (t : Tag) : Song :=
  mkSong (filename s) (target s) t (s_mtime s) (s_added s) (start_time s) (end_time s)
    (audio_format s) (in_playlist s) (s_mark s).
Definition Song_with_mtime (s : Song) (p : Z) : Song :=
  mkSong (filename s) (target s) (s_tag s) p (s_added s) (start_time s) (end_time s)
    (audio_format s) (in_playlist s) (s_mark s).
Definition Song_with_added (s : Song) (p : Z) : Song :=
  mkSong (filename s) (target s) (s_tag s) (s_mtime s) p (start_time s) (end_time s)
    (audio_format s) (in_playlist s) (s_mark s).
Definition Song_with_audio_format (s : Song) (a : AudioFormat) : Song :=
  mkSong (filename s) (target s) (s_tag s) (s_mtime s) (s_added s) (start_time s) (end_time s)
    a (in_playlist s) (s_mark s).
Definition Song_with_in_playlist (s : Song) (b : bool) : Song :=
  mkSong (filename s) (target s) (s_tag s) (s_mtime s) (s_added s) (start_time s) (end_time s)
    (audio_format s) b (s_mark s).
Definition Song_with_mark (s : Song) (b : bool) : Song :=
  mkSong (filename s) (target s) (s_tag s) (s_mtime s) (s_added s) (start_time s) (end_time s)
    (audio_format s) (in_playlist s) b.

Definition Song_GetFilenameSuffix (s : Song) : option bytes :=
  if target s =b [] then GetFilenameSuffix (filename s) else GetPathSuffix (target s).

(** [parent_path]: [None] when the parent is the root directory. *)
Definition Song_GetURI (parent_path : option bytes) (s : Song) : bytes :=
  match parent_path with
  | None => filename s
  | Some path => Build path (filename s)
  end.

(** [Song::Export], given the song its target leads to.  The parent's
    path is [None] for the root. *)
Definition Song_Export (parent_path : option bytes) (s : Song) (target_song : option Song)
  : ExportedSong :=
  let merged_tag :=
    match target_song with
    | Some t => Commit (Complement (TagBuilder_of (s_tag s)) (s_tag t))
    | None => Tag_empty
    end in
  let dest :=
    if Tag_IsDefined merged_tag then ExportedSong_own (filename s) merged_tag
    else ExportedSong_ref (filename s) (s_tag s) in
  let l := e_light dest in
  let pick {A} (inherit : bool) (f : Song -> A) : A :=
    match target_song with
    | Some t => if inherit then f t else f s
    | None => f s
    end in
  mkExportedSong
    (mkLightSong parent_path (l_uri l)
       (if target s =b [] then None else Some (target s)) (l_tag l)
       (pick (IsNegative (s_mtime s)) s_mtime)
       (pick (IsNegative (s_added s)) s_added)
       (pick (start_time s =? 0) start_time)
       (pick (end_time s =? 0) end_time)
       (pick (negb (AudioFormat_IsDefined (audio_format s))) audio_format)
       (l_priority l))
    (e_tag_buffer dest) (e_OwnsTag dest).
