(* ===== verification/SongFilter.v ===== *)
(** Song filters: [src/song/Filter.cxx], [OptimizeFilter.cxx],
    [StringFilter], [TagSongFilter] and the other classes that implement
    [ISongFilter], [tag/Fallback.hxx], and [lib/icu/Compare.cxx].

    The build with ICU and PCRE is modelled: the case folding of ICU and
    the compilation and matching of regular expressions are the operations
    of [FilterLibraries].  A regular expression is compiled from the value
    and the case flag of its filter, so the two determine it.  Matching a
    [LightSong] is a function of it; filters are values, so [Clone] is the
    identity. *)
From S2P Require Import Prelude Text Chrono Tags Audio Songs.
From S2P Require Import Calendar Uri.
Open Scope Z_scope.

(** ** tag/Fallback.hxx *)

(** The function returns [Some] where the callback returns true. *)
Definition ApplyTagFallback {A} (type : TagType) (f : TagType -> option A) : option A :=
  match type with
  | TAG_ALBUM_ARTIST_SORT =>
      match f TAG_ALBUM_ARTIST with Some a => Some a | None => f TAG_ARTIST end
  | TAG_ALBUM_ARTIST | TAG_ARTIST_SORT => f TAG_ARTIST
  | TAG_ALBUM_SORT => f TAG_ALBUM
  | TAG_TITLE_SORT => f TAG_TITLE
  | TAG_COMPOSERSORT => f TAG_COMPOSER
  | _ => None
  end.
Definition ApplyTagWithFallback {A} (type : TagType) (f : TagType -> option A) : option A :=
  match f type with Some a => Some a | None => ApplyTagFallback type f end.

(** ** Libraries *)

Class FilterLibraries := {
  (** [IcuCanonicalize] with case folding *)
  IcuCanonicalize : bytes -> bytes;
  (** whether a pattern compiles, and whether it matches; the flag is [caseless] *)
  regex_valid : bytes -> bool -> bool;
  regex_match : bytes -> bool -> bytes -> bool }.

(** ** StringFilter.hxx *)

Inductive Position := FULL | ANYWHERE | PREFIX.
#[export] Instance Position_eq_dec : EqDecision Position.
Proof. solve_decision. Defined.

Record StringFilter := mkStringFilter
  { value : bytes; fold_case : bool; regex : bool; position : Position; negated : bool }.

Definition StringFilter_new (value : bytes) (fold_case : bool) (position : Position) (negated : bool)
  : StringFilter := mkStringFilter value fold_case false position negated.
Definition StringFilter_SetRegex (f : StringFilter) : StringFilter :=
  mkStringFilter (value f) (fold_case f) true (position f) (negated f).
Definition StringFilter_ToggleNegated (f : StringFilter) : StringFilter :=
  mkStringFilter (value f) (fold_case f) (regex f) (position f) (negb (negated f)).

Definition GetOperator (f : StringFilter) : bytes :=
  if regex f then if negated f then lit "!~" else lit "=~"
  else match position f with
       | ANYWHERE => if negated f then lit "!contains" else lit "contains"
       | PREFIX => if negated f then lit "!starts_with" else lit "starts_with"
       | FULL => if negated f then lit "!=" else lit "=="
       end.

Definition StringFind (haystack needle : bytes) : bool :=
  match find_sub haystack needle with Some _ => true | None => false end.

(** ** The classes of filters *)

(** The [TagType] of a [TagSongFilter]: [TAG_NUM_OF_ITEM_TYPES] for "any",
    and the numbers above it. *)
Inductive FilterTag := AnyTag | OneTag (type : TagType) | NoTag (number : Z).

Inductive ISongFilter :=
| AndSongFilter (items : list ISongFilter)
| NotSongFilter (child : ISongFilter)
| TagSongFilter (type : FilterTag) (filter : StringFilter)
| UriSongFilter (filter : StringFilter)
| BaseSongFilter (value : bytes)
| ModifiedSinceSongFilter (value : Z)
| AddedSinceSongFilter (value : Z)
| AudioFormatSongFilter (value : AudioFormat)
| PrioritySongFilter (value : Z).

Section Match.
Context `{FilterLibraries}.

(** [IcuCompare]: the needle is kept in its canonical form. *)
Definition IcuCompare_equal (needle haystack : bytes) : bool := IcuCanonicalize haystack =b IcuCanonicalize needle.
Definition IcuCompare_IsIn (needle haystack : bytes) : bool :=
  StringFind (IcuCanonicalize haystack) (IcuCanonicalize needle).
Definition IcuCompare_StartsWith (needle haystack : bytes) : bool :=
  StringStartsWith (IcuCanonicalize haystack) (IcuCanonicalize needle).

Definition MatchWithoutNegation (f : StringFilter) (s : bytes) : bool :=
  if regex f then regex_match (value f) (fold_case f) s
  else if fold_case f then
    match position f with
    | FULL => IcuCompare_equal (value f) s
    | ANYWHERE => IcuCompare_IsIn (value f) s
    | PREFIX => IcuCompare_StartsWith (value f) s
    end
  else
    match position f with
    | FULL => value f =b s
    | ANYWHERE => StringFind s (value f)
    | PREFIX => StringStartsWith s (value f)
    end.
Definition StringFilter_Match (f : StringFilter) (s : bytes) : bool :=
  xorb (MatchWithoutNegation f s) (negated f).

Definition has_type (t : TagType) (i : TagItem) : bool := bool_decide (ti_type i = t).

Definition TagSongFilter_Match (type : FilterTag) (f : StringFilter) (tag : Tag) : bool :=
  let visited_types t := existsb (has_type t) (items tag) in
  let selected i := match type with AnyTag => true | OneTag t => has_type t i | NoTag _ => false end in
  if existsb (fun i => selected i && MatchWithoutNegation f (ti_value i)) (items tag) then negb (negated f)
  else match type with
  | OneTag t =>
      if visited_types t then negated f
      else match ApplyTagFallback t (fun tag2 =>
              if negb (visited_types tag2) then None
              else Some (existsb (fun i => has_type tag2 i && MatchWithoutNegation f (ti_value i)) (items tag))) with
           | Some result => xorb result (negated f)
           | None => if value f =b [] then negb (negated f) else negated f
           end
  | _ => negated f
  end.

Definition UriSongFilter_Match (filter : StringFilter) (song : LightSong) : bool :=
  StringFilter_Match filter (l_GetURI song).
Definition BaseSongFilter_Match (value : bytes) (song : LightSong) : bool :=
  uri_is_child_or_same value (l_GetURI song).
Definition ModifiedSinceSongFilter_Match (value : Z) (song : LightSong) : bool := value <=? l_mtime song.
Definition AddedSinceSongFilter_Match (value : Z) (song : LightSong) : bool := value <=? l_added song.
Definition AudioFormatSongFilter_Match (value : AudioFormat) (song : LightSong) : bool :=
  AudioFormat_IsDefined (l_audio_format song) && MatchMask (l_audio_format song) value.
Definition PrioritySongFilter_Match (value : Z) (song : LightSong) : bool := value <=? l_priority song.

Fixpoint Match (f : ISongFilter) (song : LightSong) : bool :=
  match f with
  | AndSongFilter items => forallb (fun i => Match i song) items
  | NotSongFilter child => negb (Match child song)
  | TagSongFilter type filter => TagSongFilter_Match type filter (l_tag song)
  | UriSongFilter filter => UriSongFilter_Match filter song
  | BaseSongFilter value => BaseSongFilter_Match value song
  | ModifiedSinceSongFilter value => ModifiedSinceSongFilter_Match value song
  | AddedSinceSongFilter value => AddedSinceSongFilter_Match value song
  | AudioFormatSongFilter value => AudioFormatSongFilter_Match value song
  | PrioritySongFilter value => PrioritySongFilter_Match value song
  end.

End Match.

(** ** OptimizeFilter.cxx *)

Definition is_AndSongFilter (f : ISongFilter) : option (list ISongFilter) :=
  match f with AndSongFilter items => Some items | _ => None end.

(** Nested conjunctions are spliced into the list. *)
Definition splice (f : ISongFilter) : list ISongFilter :=
  match is_AndSongFilter f with Some nested => nested | None => [f] end.

Fixpoint OptimizeSongFilter (f : ISongFilter) : ISongFilter :=
  match f with
  | AndSongFilter items =>
      match concat (map (fun i => splice (OptimizeSongFilter i)) items) with
      | [item] => item
      | items => AndSongFilter items
      end
  | NotSongFilter child =>
      match OptimizeSongFilter child with
      | TagSongFilter type filter => TagSongFilter type (StringFilter_ToggleNegated filter)
      | UriSongFilter filter => UriSongFilter (StringFilter_ToggleNegated filter)
      | child => NotSongFilter child
      end
  | f => f
  end.

(** The optimisation of the list of a conjunction in place. *)
Definition OptimizeSongFilter_items (items : list ISongFilter) : list ISongFilter :=
  concat (map (fun i => splice (OptimizeSongFilter i)) items).

(** ** Escape.cxx, ToExpression *)

Definition SQUOTE : byte := chr 39.
Definition BACKSLASH : byte := chr 92.
Definition MustEscape (ch : byte) : bool :=
  bool_decide (ch = DQUOTE) || bool_decide (ch = SQUOTE) || bool_decide (ch = BACKSLASH).
Fixpoint EscapeFilterString (src : bytes) : bytes :=
  match src with
  | [] => []
  | ch :: src => (if MustEscape ch then [BACKSLASH] else []) ++ ch :: EscapeFilterString src
  end.

Definition quote (s : bytes) : bytes := [DQUOTE] ++ s ++ [DQUOTE].

Fixpoint join_and (l : list bytes) : bytes :=
  match l with [] => [] | e :: l => lit " AND " ++ e ++ join_and l end.

Fixpoint all_some {A} (l : list (option A)) : option (list A) :=
  match l with
  | [] => Some []
  | x :: l => x ≫= fun a => all_some l ≫= fun l => Some (a :: l)
  end.

(** Of the texts of the operands; [None] for none, where the code reads
    behind the end of the list. *)
Definition AndSongFilter_ToExpression (es : list bytes) : option bytes :=
  match es with
  | [] => None
  | [e] => Some e
  | e :: es => Some (lit "(" ++ e ++ join_and es ++ lit ")")
  end.

(** [None] for a number that is no tag type, behind the table of names. *)
Definition TagSongFilter_ToExpression (type : FilterTag) (filter : StringFilter) : option bytes :=
  match type with
  | AnyTag => Some (lit "any")
  | OneTag t => Some (tag_item_names t)
  | NoTag _ => None
  end ≫= fun name =>
  Some (lit "(" ++ name ++ lit " " ++ GetOperator filter ++ lit " " ++
        quote (EscapeFilterString (value filter)) ++ lit ")").
Definition UriSongFilter_ToExpression (filter : StringFilter) : bytes :=
  lit "(file " ++ GetOperator filter ++ lit " " ++ quote (EscapeFilterString (value filter)) ++ lit ")".
Definition BaseSongFilter_ToExpression (value : bytes) : bytes :=
  lit "(base " ++ quote (EscapeFilterString value) ++ lit ")".
Definition ModifiedSinceSongFilter_ToExpression (value : Z) : bytes :=
  lit "(modified-since " ++ quote (FormatISO8601 value) ++ lit ")".
Definition AddedSinceSongFilter_ToExpression (value : Z) : bytes :=
  lit "(added-since " ++ quote (FormatISO8601 value) ++ lit ")".
Definition AudioFormatSongFilter_ToExpression (value : AudioFormat) : bytes :=
  lit "(AudioFormat " ++ (if IsFullyDefined value then lit "==" else lit "=~") ++ lit " " ++
  quote (ToString value) ++ lit ")".
Definition PrioritySongFilter_ToExpression (value : Z) : bytes := lit "(prio >= " ++ print_int value ++ lit ")".

Fixpoint ToExpression (f : ISongFilter) : option bytes :=
  match f with
  | AndSongFilter items => all_some (map ToExpression items) ≫= AndSongFilter_ToExpression
  | NotSongFilter child => ToExpression child ≫= fun e => Some (lit "(!" ++ e ++ lit ")")
  | TagSongFilter type filter => TagSongFilter_ToExpression type filter
  | UriSongFilter filter => Some (UriSongFilter_ToExpression filter)
  | BaseSongFilter value => Some (BaseSongFilter_ToExpression value)
  | ModifiedSinceSongFilter value => Some (ModifiedSinceSongFilter_ToExpression value)
  | AddedSinceSongFilter value => Some (AddedSinceSongFilter_ToExpression value)
  | AudioFormatSongFilter value => Some (AudioFormatSongFilter_ToExpression value)
  | PrioritySongFilter value => Some (PrioritySongFilter_ToExpression value)
  end.

(** ** Filter.cxx: parsing *)

(** The types beside tags; [locate_parse_type] returns [None] for
    [TAG_NUM_OF_ITEM_TYPES]. *)
Inductive LocateType :=
| LOCATE_TAG (type : TagType)
| LOCATE_TAG_BASE_TYPE
| LOCATE_TAG_MODIFIED_SINCE
| LOCATE_TAG_AUDIO_FORMAT
| LOCATE_TAG_PRIORITY
| LOCATE_TAG_FILE_TYPE
| LOCATE_TAG_ANY_TYPE
| LOCATE_TAG_ADDED_SINCE.

Definition locate_parse_type (str : bytes) : option LocateType :=
  if StringIsEqualIgnoreCase str (lit "file") || StringIsEqualIgnoreCase str (lit "filename")
  then Some LOCATE_TAG_FILE_TYPE
  else if StringIsEqualIgnoreCase str (lit "any") then Some LOCATE_TAG_ANY_TYPE
  else if str =b lit "base" then Some LOCATE_TAG_BASE_TYPE
  else if str =b lit "modified-since" then Some LOCATE_TAG_MODIFIED_SINCE
  else if str =b lit "added-since" then Some LOCATE_TAG_ADDED_SINCE
  else if StringIsEqualIgnoreCase str (lit "AudioFormat") then Some LOCATE_TAG_AUDIO_FORMAT
  else if StringIsEqualIgnoreCase str (lit "prio") then Some LOCATE_TAG_PRIORITY
  else option_map LOCATE_TAG (tag_name_parse_i str).

(** The number of a type in the enumeration behind the tags. *)
Definition locate_number (t : LocateType) : Z :=
  let n := Z.of_nat (length all_tag_types) in
  match t with
  | LOCATE_TAG type => tag_index type
  | LOCATE_TAG_BASE_TYPE => n + 1
  | LOCATE_TAG_MODIFIED_SINCE => n + 2
  | LOCATE_TAG_AUDIO_FORMAT => n + 3
  | LOCATE_TAG_PRIORITY => n + 4
  | LOCATE_TAG_FILE_TYPE => n + 5
  | LOCATE_TAG_ANY_TYPE => n + 6
  | LOCATE_TAG_ADDED_SINCE => n + 7
  end.

Definition ParseTimeStamp (s : bytes) : result Z :=
  match ParseISO8601 s with
  | Ok (tp, _) => Ok tp
  | Throw e =>
      let '(value, endptr) := strtoull s in
      if (endptr =b []) && Nat.ltb 0 (consumed s endptr) then Ok (from_time_t (s64 value)) else Throw e
  end.

Definition IsTagNameChar (ch : byte) : bool :=
  IsAlphaASCII ch || bool_decide (ch = "_"%char) || bool_decide (ch = "-"%char).
Definition FirstNonTagNameChar (s : bytes) : bytes := drop_while IsTagNameChar s.

Definition ExpectWord (s : bytes) : result (bytes * bytes) :=
  let e := FirstNonTagNameChar s in
  match consumed s e with
  | O => Throw (lit "Word expected")
  | n => Ok (take n s, StripLeft_c e)
  end.

Definition ExpectFilterType (s : bytes) : result (LocateType * bytes) :=
  let* r := ExpectWord s in
  match locate_parse_type (fst r) with
  | None => Throw (lit "Unknown filter type")
  | Some type => Ok (type, snd r)
  end.

Definition IsQuote (ch : byte) : bool := bool_decide (ch = DQUOTE) || bool_decide (ch = SQUOTE).

Definition quoted_buffer_size : nat := 4096.

(** The loop of [ExpectQuoted]; [n] characters are in the buffer, the last
    one first. *)
Fixpoint quoted_loop (q : byte) (s : bytes) (n : nat) (buffer : bytes) {struct s} : result (bytes * bytes) :=
  match s with
  | [] => Throw (lit "Closing quote not found")
  | c :: s =>
      if bool_decide (c = q) then Ok (reverse buffer, StripLeft_c s)
      else if bool_decide (c = BACKSLASH) then
        match s with
        | [] => Throw (lit "Closing quote not found")
        | d :: s =>
            if Nat.leb quoted_buffer_size (S n) then Throw (lit "Quoted value is too long")
            else quoted_loop q s (S n) (d :: buffer)
        end
      else if Nat.leb quoted_buffer_size (S n) then Throw (lit "Quoted value is too long")
      else quoted_loop q s (S n) (c :: buffer)
  end.

Definition ExpectQuoted (s : bytes) : result (bytes * bytes) :=
  match s with
  | [] => Throw (lit "Quoted string expected")
  | q :: s => if negb (IsQuote q) then Throw (lit "Quoted string expected") else quoted_loop q s 0 []
  end.

Record OperatorDef := mkOperator { op_prefix : bytes; op_fold_case : bool; op_negated : bool; op_position : Position }.

Definition operators : list OperatorDef :=
  [mkOperator (lit "contains_cs ") false false ANYWHERE;
   mkOperator (lit "!contains_cs ") false true ANYWHERE;
   mkOperator (lit "contains_ci ") true false ANYWHERE;
   mkOperator (lit "!contains_ci ") true true ANYWHERE;
   mkOperator (lit "starts_with_cs ") false false PREFIX;
   mkOperator (lit "!starts_with_cs ") false true PREFIX;
   mkOperator (lit "starts_with_ci ") true false PREFIX;
   mkOperator (lit "!starts_with_ci ") true true PREFIX;
   mkOperator (lit "eq_cs ") false false FULL;
   mkOperator (lit "!eq_cs ") false true FULL;
   mkOperator (lit "eq_ci ") true false FULL;
   mkOperator (lit "!eq_ci ") true true FULL].

(** The operators of [ParseStringFilter] whose case folding is that of the
    command, in the order in which they are tried. *)
Definition plain_operators (fold_case : bool) : list OperatorDef :=
  [mkOperator (lit "contains ") fold_case false ANYWHERE;
   mkOperator (lit "!contains ") fold_case true ANYWHERE;
   mkOperator (lit "starts_with ") fold_case false PREFIX;
   mkOperator (lit "!starts_with ") fold_case true PREFIX].

(** The first operator that is a prefix, ignoring case, and what follows. *)
Fixpoint find_operator (ops : list OperatorDef) (s : bytes) : option (OperatorDef * bytes) :=
  match ops with
  | [] => None
  | op :: ops =>
      match StringAfterPrefixCaseASCII s (op_prefix op) with
      | Some r => Some (op, r)
      | None => find_operator ops s
      end
  end.

Section Parse.
Context `{FilterLibraries}.

Definition ParseStringFilter (s : bytes) (fold_case : bool) : result (StringFilter * bytes) :=
  match find_operator (operators ++ plain_operators fold_case) s with
  | Some (op, r) =>
      let* v := ExpectQuoted (StripLeft_c r) in
      Ok (StringFilter_new (fst v) (op_fold_case op) (op_position op) (op_negated op), snd v)
  | None =>
      match s with
      | a :: b :: r =>
          if (bool_decide (a = "!"%char) || bool_decide (a = "="%char)) && bool_decide (b = "~"%char) then
            let* v := ExpectQuoted (StripLeft_c r) in
            if negb (regex_valid (fst v) fold_case) then Throw (lit "Regex error")
            else Ok (StringFilter_SetRegex
                   (StringFilter_new (fst v) fold_case FULL (bool_decide (a = "!"%char))), snd v)
          else if (bool_decide (a = "!"%char) || bool_decide (a = "="%char)) && bool_decide (b = "="%char) then
            let* v := ExpectQuoted (StripLeft_c r) in
            Ok (StringFilter_new (fst v) fold_case FULL (bool_decide (a = "!"%char)), snd v)
          else Throw (lit "Unknown filter operator")
      | _ => Throw (lit "Unknown filter operator")
      end
  end.

(** The check for a closing parenthesis that ends most expressions. *)
Definition expect_close {A} (a : A) (s : bytes) : result (A * bytes) :=
  match s with
  | c :: s => if bool_decide (c = ")"%char) then Ok (a, StripLeft_c s) else Throw (lit "')' expected")
  | [] => Throw (lit "')' expected")
  end.

(** An expression that begins with a type. *)
Definition ParseSimple (s : bytes) (fold_case : bool) : result (ISongFilter * bytes) :=
  let* t := ExpectFilterType s in
  let '(type, s) := t in
  match type with
  | LOCATE_TAG_MODIFIED_SINCE =>
      let* v := ExpectQuoted s in
      let* r := expect_close tt (snd v) in
      let* t := ParseTimeStamp (fst v) in Ok (ModifiedSinceSongFilter t, snd r)
  | LOCATE_TAG_ADDED_SINCE =>
      let* v := ExpectQuoted s in
      let* r := expect_close tt (snd v) in
      let* t := ParseTimeStamp (fst v) in Ok (AddedSinceSongFilter t, snd r)
  | LOCATE_TAG_BASE_TYPE =>
      let* v := ExpectQuoted s in expect_close (BaseSongFilter (fst v)) (snd v)
  | LOCATE_TAG_AUDIO_FORMAT =>
      let* m :=
        match s with
        | a :: b :: r =>
            if bool_decide (a = "="%char) && bool_decide (b = "="%char) then Ok (false, r)
            else if bool_decide (a = "="%char) && bool_decide (b = "~"%char) then Ok (true, r)
            else Throw (lit "'==' or '=~' expected")
        | _ => Throw (lit "'==' or '=~' expected")
        end in
      let* v := ExpectQuoted (StripLeft_c (snd m)) in
      let* a := ParseAudioFormat (fst v) (fst m) in
      expect_close (AudioFormatSongFilter a) (snd v)
  | LOCATE_TAG_PRIORITY =>
      match StringAfterPrefix s (lit ">=") with
      | None => Throw (lit "'>=' expected")
      | Some r =>
          let s := StripLeft_c r in
          let '(value, endptr) := strtoull s in
          if Nat.eqb (consumed s endptr) 0 then Throw (lit "Number expected")
          else if 255 <? value then Throw (lit "Invalid priority value")
          else expect_close (PrioritySongFilter value) endptr
      end
  | _ =>
      let* f := ParseStringFilter s fold_case in
      let* r := expect_close tt (snd f) in
      Ok (match type with
          | LOCATE_TAG_FILE_TYPE => UriSongFilter (fst f)
          | LOCATE_TAG t => TagSongFilter (OneTag t) (fst f)
          | _ => TagSongFilter AnyTag (fst f)
          end, snd r)
  end.

(** [ParseExpression] skips the first character, which it assumes to be an
    opening parenthesis; [ParseAnd] is the loop that collects the operands
    of "AND", where nothing has checked that: at the end of the string the
    terminator is skipped and the code reads behind it. *)
Fixpoint ParseExpression (fuel : nat) (s : bytes) (fold_case : bool) {struct fuel}
  : result (ISongFilter * bytes) :=
  match fuel with
  | O => Throw (lit "out of fuel")
  | S fuel =>
      match s with
      | [] => Throw (lit "out of bounds")
      | _ :: s =>
          let s := StripLeft_c s in
          match s with
          | c :: s' =>
              if bool_decide (c = "("%char) then
                let* r := ParseExpression fuel s fold_case in
                match expect_close (fst r) (snd r) with
                | Ok r => Ok r
                | Throw _ =>
                    let* w := ExpectWord (snd r) in
                    if negb (fst w =b lit "AND") then Throw (lit "'AND' expected")
                    else ParseAnd fuel (snd w) fold_case [fst r]
                end
              else if bool_decide (c = "!"%char) then
                let s := StripLeft_c s' in
                if negb (StringStartsWith s (lit "(")) then Throw (lit "'(' expected")
                else
                  let* r := ParseExpression fuel s fold_case in
                  expect_close (NotSongFilter (fst r)) (snd r)
              else ParseSimple s fold_case
          | [] => ParseSimple s fold_case
          end
      end
  end
with ParseAnd (fuel : nat) (s : bytes) (fold_case : bool) (items : list ISongFilter) {struct fuel}
  : result (ISongFilter * bytes) :=
  match fuel with
  | O => Throw (lit "out of fuel")
  | S fuel =>
      let* r := ParseExpression fuel s fold_case in
      let items := items ++ [fst r] in
      match expect_close (AndSongFilter items) (snd r) with
      | Ok r => Ok r
      | Throw _ =>
          let* w := ExpectWord (snd r) in
          if negb (fst w =b lit "AND") then Throw (lit "'AND' expected")
          else ParseAnd fuel (snd w) fold_case items
      end
  end.

(** Enough for every string ([Parse_terminates]). *)
Definition expression_fuel (s : bytes) : nat := S (S (2 * length s)).

(** The list of the conjunction of a [SongFilter]. *)
Definition Parse_tag (tag_string v : bytes) (fold_case : bool) : result ISongFilter :=
  let string_filter :=
    StringFilter_new v fold_case (if fold_case then ANYWHERE else FULL) false in
  match locate_parse_type tag_string with
  | None => Throw (lit "Unknown filter type")
  | Some LOCATE_TAG_BASE_TYPE =>
      match uri_safe_local v with
      | None => Throw (lit "out of bounds")
      | Some safe => if negb safe then Throw (lit "Bad URI") else Ok (BaseSongFilter v)
      end
  | Some LOCATE_TAG_MODIFIED_SINCE => let* t := ParseTimeStamp v in Ok (ModifiedSinceSongFilter t)
  | Some LOCATE_TAG_ADDED_SINCE => let* t := ParseTimeStamp v in Ok (AddedSinceSongFilter t)
  | Some LOCATE_TAG_FILE_TYPE => Ok (UriSongFilter string_filter)
  | Some LOCATE_TAG_ANY_TYPE => Ok (TagSongFilter AnyTag string_filter)
  | Some (LOCATE_TAG t) => Ok (TagSongFilter (OneTag t) string_filter)
  | Some t => Ok (TagSongFilter (NoTag (locate_number t)) string_filter)
  end.

Fixpoint Parse_args (args : list bytes) (fold_case : bool) (items : list ISongFilter) {struct args}
  : result (list ISongFilter) :=
  match args with
  | [] => Ok items
  | a :: args =>
      if StringStartsWith a (lit "(") then
        let* r := ParseExpression (expression_fuel a) a fold_case in
        match snd r with
        | [] => Parse_args args fold_case (items ++ [fst r])
        | _ => Throw (lit "Unparsed garbage after expression")
        end
      else
        match args with
        | [] => Throw (lit "Incorrect number of filter arguments")
        | v :: args =>
            let* f := Parse_tag a v fold_case in Parse_args args fold_case (items ++ [f])
        end
  end.

(** [SongFilter::Parse]: the items after those the filter already has. *)
Definition Parse (args : list bytes) (fold_case : bool) (items : list ISongFilter)
  : result (list ISongFilter) :=
  match args with
  | [] => Throw (lit "Incorrect number of filter arguments")
  | _ => Parse_args args fold_case items
  end.

End Parse.

(** ** SongFilter: the items of the conjunction *)

Notation SongFilter := (list ISongFilter) (only parsing).

Definition SongFilter_Match `{FilterLibraries} (f : SongFilter) (song : LightSong) : bool :=
  Match (AndSongFilter f) song.
Definition SongFilter_ToExpression (f : SongFilter) : option bytes := ToExpression (AndSongFilter f).

Definition HasFoldCase (f : SongFilter) : bool :=
  existsb (fun item => match item with
                       | TagSongFilter _ s | UriSongFilter s => fold_case s
                       | _ => false
                       end) f.
Definition HasOtherThanBase (f : SongFilter) : bool :=
  existsb (fun item => match item with BaseSongFilter _ => false | _ => true end) f.
Fixpoint SongFilter_GetBase (f : SongFilter) : option bytes :=
  match f with
  | [] => None
  | BaseSongFilter v :: _ => Some v
  | _ :: f => SongFilter_GetBase f
  end.

(** What becomes of one item. *)
Definition without_base_prefix (prefix : bytes) (item : ISongFilter) : list ISongFilter :=
  match item with
  | BaseSongFilter v =>
      match StringAfterPrefix v prefix with
      | Some [] => []
      | Some (c :: s) =>
          if IsSeparator c then match s with [] => [] | _ => [BaseSongFilter s] end else [item]
      | None => [item]
      end
  | _ => [item]
  end.
Definition WithoutBasePrefix (f : SongFilter) (prefix : bytes) : SongFilter :=
  concat (map (without_base_prefix prefix) f).

#[export] Instance plain_libraries : FilterLibraries :=
  {| IcuCanonicalize := map ToLowerASCII; regex_valid := fun _ _ => true;
     regex_match := fun p _ s => StringFind s p |}.

Example parse_examples :
  Parse [lit "((artist == 'A\'b') AND (!(file contains 'x')))"] false [] =
    Ok [AndSongFilter [TagSongFilter (OneTag TAG_ARTIST) (StringFilter_new (lit "A'b") false FULL false);
                       NotSongFilter (UriSongFilter (StringFilter_new (lit "x") false ANYWHERE false))]] /\
  Parse [lit "((artist == 'a') AND"] false [] = Throw (lit "out of bounds") /\
  Parse [lit "((any =~ 'a') AND xprio >= 5))"] false [] =
    Ok [AndSongFilter [TagSongFilter AnyTag (StringFilter_SetRegex (StringFilter_new (lit "a") false FULL false));
                       PrioritySongFilter 5]] /\
  Parse [lit "AudioFormat"; lit "44100:16:2"] false [] =
    Ok [TagSongFilter (NoTag 38) (StringFilter_new (lit "44100:16:2") false FULL false)].
Proof. vm_compute. done. Qed.

(** ** Lemmas: matching *)

(** Induction over filters. *)
Lemma ISongFilter_ind' (P : ISongFilter -> Prop)
  (Hand : forall items, Forall P items -> P (AndSongFilter items))
  (Hnot : forall child, P child -> P (NotSongFilter child))
  (Hsimple : forall f, (match f with AndSongFilter _ | NotSongFilter _ => False | _ => True end) -> P f) :
  forall f, P f.
Proof.
  fix IH 1. intros [items|child|t f|f|v|v|v|v|v]; try (by apply Hsimple).
  - apply Hand. induction items as [|i items IHi]; constructor; [apply IH|apply IHi].
  - apply Hnot, IH.
Qed.

Section MatchLemmas.
Context `{FilterLibraries}.

Lemma toggle_without f s : MatchWithoutNegation (StringFilter_ToggleNegated f) s = MatchWithoutNegation f s.
Proof. done. Qed.

Lemma toggle_string f s : StringFilter_Match (StringFilter_ToggleNegated f) s = negb (StringFilter_Match f s).
Proof.
  unfold StringFilter_Match. rewrite toggle_without. simpl. by rewrite xorb_negb_negb || destruct (MatchWithoutNegation f s), (negated f).
Qed.

Lemma toggle_tag type f tag :
  TagSongFilter_Match type (StringFilter_ToggleNegated f) tag = negb (TagSongFilter_Match type f tag).
Proof.
  unfold TagSongFilter_Match. cbv zeta.
  assert (forall (g : TagItem -> bool), existsb (fun i => g i && MatchWithoutNegation (StringFilter_ToggleNegated f) (ti_value i))
    (items tag) = existsb (fun i => g i && MatchWithoutNegation f (ti_value i)) (items tag)) as He by done.
  rewrite He. cbn [negated value StringFilter_ToggleNegated].
  destruct (existsb _ (items tag)); [done|]. destruct type as [|t|n]; [done| |done].
  destruct (existsb (has_type t) (items tag)); [done|].
  change (fun tag2 => if negb (existsb (has_type tag2) (items tag)) then None else Some (existsb
    (fun i => has_type tag2 i && MatchWithoutNegation (StringFilter_ToggleNegated f) (ti_value i)) (items tag)))
    with (fun tag2 => if negb (existsb (has_type tag2) (items tag)) then None else Some (existsb
    (fun i => has_type tag2 i && MatchWithoutNegation f (ti_value i)) (items tag))).
  destruct (ApplyTagFallback t _) as [r|]; [by destruct r, (negated f)|].
  by destruct (value f =b []).
Qed.

Lemma Match_splice f song : forallb (fun i => Match i song) (splice f) = Match f song.
Proof. destruct f; simpl; try apply andb_true_r. done. Qed.

Lemma forallb_concat {A} (p : A -> bool) (l : list (list A)) :
  forallb p (concat l) = forallb (forallb p) l.
Proof. induction l as [|x l IH]; [done|]. simpl. by rewrite forallb_app, IH. Qed.

Lemma forallb_ext_Forall {A} (p q : A -> bool) l : Forall (fun x => p x = q x) l -> forallb p l = forallb q l.
Proof. induction 1 as [|x l Hx _ IH]; [done|]. simpl. by rewrite Hx, IH. Qed.

Lemma forallb_map {A B} (f : A -> B) (p : B -> bool) l : forallb p (map f l) = forallb (fun x => p (f x)) l.
Proof. induction l as [|x l IH]; [done|]. simpl. by rewrite IH. Qed.

Lemma Match_items song items : Forall (fun f => Match (OptimizeSongFilter f) song = Match f song) items ->
  forallb (fun i => Match i song) (OptimizeSongFilter_items items) = forallb (fun i => Match i song) items.
Proof.
  intros Hi. unfold OptimizeSongFilter_items. rewrite forallb_concat, forallb_map.
  apply forallb_ext_Forall. eapply Forall_impl; [exact Hi|]. intros f Hf. by rewrite Match_splice.
Qed.

Lemma Match_Optimize song f : Match (OptimizeSongFilter f) song = Match f song.
Proof.
  induction f as [items IH|child IH|f Hf] using ISongFilter_ind'; [| |by destruct f].
  - apply Match_items in IH. cbn [OptimizeSongFilter]. fold (OptimizeSongFilter_items items).
    cbn [Match]. rewrite <- IH. destruct (OptimizeSongFilter_items items) as [|i [|j l]]; [done| |done].
    simpl. by rewrite andb_true_r.
  - cbn [OptimizeSongFilter Match]. rewrite <- IH.
    destruct (OptimizeSongFilter child); try done; cbn [Match].
    + apply toggle_tag.
    + apply toggle_string.
Qed.
End MatchLemmas.

(** No conjunction directly in a conjunction or with a single operand, no
    negation directly around a filter that has its own flag. *)
Fixpoint optimized (f : ISongFilter) : bool :=
  match f with
  | AndSongFilter items =>
      negb (Nat.eqb (length items) 1) &&
      forallb (fun i => match i with AndSongFilter _ => false | _ => optimized i end) items
  | NotSongFilter child =>
      match child with TagSongFilter _ _ | UriSongFilter _ => false | _ => optimized child end
  | _ => true
  end.

Definition optimized_item (i : ISongFilter) : bool :=
  match i with AndSongFilter _ => false | _ => optimized i end.

Lemma splice_optimized f : optimized f = true -> forallb optimized_item (splice f) = true.
Proof.
  destruct f; intros Hf; try (simpl in *; by rewrite ?Hf). simpl in Hf. by apply andb_true_iff in Hf as [_ Hf].
Qed.

Lemma Optimize_optimized f : optimized (OptimizeSongFilter f) = true.
Proof.
  induction f as [items IH|child IH|f Hf] using ISongFilter_ind'; [| |by destruct f].
  - cbn [OptimizeSongFilter]. fold (OptimizeSongFilter_items items).
    assert (forallb optimized_item (OptimizeSongFilter_items items) = true) as Hi.
    { unfold OptimizeSongFilter_items. rewrite forallb_concat, forallb_map. apply forallb_forall.
      intros x Hx%list_elem_of_In. rewrite Forall_forall in IH. by apply splice_optimized, IH. }
    destruct (OptimizeSongFilter_items items) as [|i [|j l]]; [done| |exact Hi].
    simpl in Hi. rewrite andb_true_r in Hi. by destruct i.
  - cbn [OptimizeSongFilter]. destruct (OptimizeSongFilter child); done || exact IH.
Qed.

(** An optimised filter is left as it is. *)
Lemma Optimize_id f : optimized f = true -> OptimizeSongFilter f = f.
Proof.
  induction f as [items IH|child IH|f Hf] using ISongFilter_ind'; intros Ho; [| |by destruct f].
  - simpl in Ho. apply andb_true_iff in Ho as [Hl Ho]. cbn [OptimizeSongFilter].
    fold (OptimizeSongFilter_items items).
    assert (OptimizeSongFilter_items items = items) as ->.
    { unfold OptimizeSongFilter_items. clear Hl. induction IH as [|i items Hi _ IHl]; [done|].
      simpl in Ho. apply andb_true_iff in Ho as [Ho1 Ho]. simpl. rewrite (IHl Ho).
      destruct i; try done; rewrite Hi by exact Ho1; done. }
    by destruct items as [|i [|j l]].
  - simpl in Ho. cbn [OptimizeSongFilter].
    destruct child; try done; rewrite IH by (exact Ho); try done.
Qed.

(** ** Lemmas: quoting *)

Lemma quoted_loop_escape v : forall s n buffer, (n + length v < quoted_buffer_size)%nat ->
  quoted_loop DQUOTE (EscapeFilterString v ++ DQUOTE :: s) n buffer = Ok (reverse buffer ++ v, StripLeft_c s).
Proof.
  induction v as [|c v IH]; intros s n buffer Hn.
  - cbn [EscapeFilterString app quoted_loop]. rewrite bool_decide_true by done. by rewrite app_nil_r.
  - simpl length in Hn. assert (Nat.leb quoted_buffer_size (S n) = false) as Hlen by (apply Nat.leb_gt; lia).
    assert (forall s, quoted_loop DQUOTE (EscapeFilterString v ++ DQUOTE :: s) (S n) (c :: buffer) =
      Ok (reverse buffer ++ c :: v, StripLeft_c s)) as Hrec.
    { intros s'. rewrite IH by lia. by rewrite reverse_cons, <- app_assoc. }
    cbn [EscapeFilterString]. unfold MustEscape.
    destruct (decide (c = DQUOTE)) as [-> | Hq].
    + rewrite bool_decide_true by done. cbn [orb app quoted_loop]. rewrite bool_decide_false by done.
      rewrite bool_decide_true by done. by rewrite Hlen.
    + destruct (decide (c = BACKSLASH)) as [-> | Hb].
      * rewrite (bool_decide_true (BACKSLASH = BACKSLASH)) by done. rewrite orb_true_r. cbn [app quoted_loop].
        rewrite bool_decide_false by done. rewrite bool_decide_true by done. by rewrite Hlen.
      * rewrite (bool_decide_false (c = DQUOTE)), (bool_decide_false (c = BACKSLASH)) by done.
        cbn [orb]. rewrite orb_false_r. case_bool_decide; cbn [app quoted_loop].
        -- rewrite bool_decide_false, bool_decide_true by done. by rewrite Hlen.
        -- rewrite !bool_decide_false by done. by rewrite Hlen.
Qed.

Lemma ExpectQuoted_quote v s : (length v < quoted_buffer_size)%nat ->
  ExpectQuoted (quote (EscapeFilterString v) ++ s) = Ok (v, StripLeft_c s).
Proof.
  intros H. unfold ExpectQuoted, quote. rewrite <- !app_assoc. cbn [app]. unfold IsQuote.
  rewrite bool_decide_true by done. cbn [orb negb]. by rewrite quoted_loop_escape.
Qed.

(** Text without quotes and backslashes. *)
Definition unquoted (s : bytes) : bool := forallb (fun c => negb (MustEscape c)) s.

Lemma Escape_id s : unquoted s = true -> EscapeFilterString s = s.
Proof.
  induction s as [|c s IH]; intros H; [done|]. simpl in H. apply andb_true_iff in H as [Hc H].
  simpl. apply negb_true_iff in Hc. rewrite Hc. simpl. by rewrite IH.
Qed.

Lemma ExpectQuoted_plain v s : unquoted v = true -> (length v < quoted_buffer_size)%nat ->
  ExpectQuoted (quote v ++ s) = Ok (v, StripLeft_c s).
Proof. intros Hu Hl. rewrite <- (Escape_id v Hu) at 1. by apply ExpectQuoted_quote. Qed.

Lemma unquoted_app a b : unquoted (a ++ b) = unquoted a && unquoted b.
Proof. apply forallb_app. Qed.

Lemma unquoted_digits s : Forall (fun c => IsDigitASCII c = true) s -> unquoted s = true.
Proof.
  intros H. apply forallb_forall. intros c Hc%list_elem_of_In. rewrite Forall_forall in H.
  specialize (H c Hc). clear Hc. revert H. all_bytes c.
Qed.

Lemma print_aux_length fuel : forall n acc, (length (print_aux fuel n acc) <= fuel + length acc)%nat.
Proof.
  induction fuel as [|fuel IH]; intros n acc; simpl; [lia|]. destruct (n <? 10); simpl; [lia|].
  etransitivity; [apply IH|]. simpl. lia.
Qed.

Lemma print_nat_length n : 0 <= n < 2 ^ 64 -> (length (print_nat n) <= 64)%nat.
Proof.
  intros H. unfold print_nat. etransitivity; [apply print_aux_length|]. simpl length.
  assert (Z.log2 n < 64); [|lia]. destruct (decide (n = 0)) as [-> | Hn]; [done|]. apply Z.log2_lt_pow2; lia.
Qed.

Lemma print_nat_unquoted n : 0 <= n -> unquoted (print_nat n) = true.
Proof. intros H. apply unquoted_digits, print_nat_digits, H. Qed.

Lemma print_pad_unquoted w n : 0 <= n -> unquoted (print_pad w n) = true.
Proof.
  intros H. unfold print_pad. rewrite unquoted_app, print_nat_unquoted, andb_true_r by done.
  apply unquoted_digits, Forall_forall. by intros x [-> _]%elem_of_replicate.
Qed.

Lemma FormatISO8601_text tp : - 2 ^ 63 <= tp < 2 ^ 63 ->
  unquoted (FormatISO8601 tp) = true /\ (length (FormatISO8601 tp) < quoted_buffer_size)%nat.
Proof.
  intros Htp. unfold FormatISO8601. destruct (GmTime_fields tp Htp) as (Hy & Hm & Hd & Hh & Hmi & Hs).
  set (t := GmTime tp) in *. clearbody t. unfold FormatISO8601_tm.
  assert (forall n, 0 <= n < 100 -> length (print_pad 2 n) = 2%nat) as Hl.
  { intros n Hn. destruct (print_pad_2 n Hn) as (a & b & -> & _). done. }
  rewrite print_int_nonneg by lia. split.
  - rewrite !unquoted_app, print_nat_unquoted, !print_pad_unquoted by lia. done.
  - rewrite !length_app, !Hl by lia. pose proof (print_nat_length (tm_year t + 1900) ltac:(lia)).
    simpl. unfold quoted_buffer_size. lia.
Qed.

Lemma ToString_text af : 0 <= sample_rate af < 2 ^ 32 -> 0 <= channels af < 256 ->
  unquoted (ToString af) = true /\ (length (ToString af) < quoted_buffer_size)%nat.
Proof.
  intros Hr Hc. assert (0 <= u32 (sample_rate af * 8) / 44100 < 2 ^ 64) as Hd.
  { pose proof (wrap_u_range 32 (sample_rate af * 8) ltac:(lia)). unfold u32.
    Z.to_euclidean_division_equations. lia. }
  assert (forall f, unquoted (if negb (is_undefined f) then sample_format_to_string f else lit "*") = true /\
    (length (if negb (is_undefined f) then sample_format_to_string f else lit "*") <= 10)%nat) as Hf
    by (intros f; destruct f; vm_compute; split; (reflexivity || lia)).
  destruct (Hf (format af)) as [Hf1 Hf2]. unfold ToString.
  pose proof (print_nat_length _ Hd). pose proof (print_nat_length (sample_rate af) ltac:(lia)).
  pose proof (print_nat_length (channels af) ltac:(lia)).
  split; destruct (_ && _ && _), (0 <? sample_rate af), (0 <? channels af);
    rewrite ?unquoted_app, ?Hf1, ?print_nat_unquoted, ?length_app by lia; try reflexivity;
    repeat match goal with
    | |- context [length (lit ?s)] => let n := eval vm_compute in (length (lit s)) in change (length (lit s)) with n
    end; unfold quoted_buffer_size; lia.
Qed.

(** ** Lemmas: parsing what was printed *)

Section RoundTrip.
Context `{FilterLibraries}.

(** The string filters that [b], the case flag of the command, and the
    operators without "_cs" and "_ci" can express. *)
Definition string_filter_ok (b : bool) (f : StringFilter) : Prop :=
  fold_case f = b /\ (length (value f) < quoted_buffer_size)%nat /\
  (regex f = true -> position f = FULL /\ regex_valid (value f) b = true).

Definition time_ok (tp : Z) : Prop := - 2 ^ 63 <= tp < 2 ^ 63 /\ to_time_t tp * NS = tp.

Definition audio_ok (a : AudioFormat) : Prop :=
  (if IsFullyDefined a then AudioFormat_IsValid a else IsMaskValid a) = true /\ expressible a /\
  0 <= sample_rate a /\ 0 <= channels a.

(** Filters with a faithful text form. *)
Inductive printable (b : bool) : ISongFilter -> Prop :=
| printable_And items : (2 <= length items)%nat -> Forall (printable b) items -> printable b (AndSongFilter items)
| printable_Not child : printable b child -> printable b (NotSongFilter child)
| printable_Any f : string_filter_ok b f -> printable b (TagSongFilter AnyTag f)
| printable_Tag t f : string_filter_ok b f -> printable b (TagSongFilter (OneTag t) f)
| printable_Uri f : string_filter_ok b f -> printable b (UriSongFilter f)
| printable_Base v : (length v < quoted_buffer_size)%nat -> printable b (BaseSongFilter v)
| printable_ModifiedSince t : time_ok t -> printable b (ModifiedSinceSongFilter t)
| printable_AddedSince t : time_ok t -> printable b (AddedSinceSongFilter t)
| printable_AudioFormat a : audio_ok a -> printable b (AudioFormatSongFilter a)
| printable_Priority n : 0 <= n < 256 -> printable b (PrioritySongFilter n).

(** Evaluates the comparisons of given characters. *)
Ltac eval_chars :=
  repeat match goal with
  | |- context [bool_decide (?a = ?b)] =>
      let v := eval vm_compute in (bool_decide (a = b)) in
      match v with true => idtac | false => idtac end; change (bool_decide (a = b)) with v
  end.

Lemma find_operator_none b neg c q : c = "="%char \/ c = "~"%char ->
  find_operator (operators ++ plain_operators b) ((if neg : bool then "!"%char else "="%char) :: c :: q) = None.
Proof. by intros [-> | ->]; destruct neg. Qed.

Lemma ParseStringFilter_print b f s : string_filter_ok b f ->
  ParseStringFilter (GetOperator f ++ " "%char :: quote (EscapeFilterString (value f)) ++ s) b =
  Ok (f, StripLeft_c s).
Proof.
  intros (Hb & Hl & Hr). destruct f as [v fc re pos neg]. simpl in Hb, Hl, Hr. subst fc.
  pose proof (ExpectQuoted_quote v s Hl) as Hq. cbn [value] in *.
  assert (forall x, StripLeft_c (" "%char :: quote x ++ s) = quote x ++ s) as Hstrip by done.
  destruct re.
  - destruct (Hr eq_refl) as [-> Hv]. unfold ParseStringFilter, GetOperator. cbn [regex negated].
    destruct neg; cbn [lit String.list_ascii_of_string app];
      first [rewrite (find_operator_none b true) by (by right) | rewrite (find_operator_none b false) by (by right)];
      cbn iota; eval_chars; cbn [orb andb]; rewrite Hstrip, Hq; cbn [rbind fst snd]; rewrite Hv; done.
  - unfold ParseStringFilter, GetOperator. cbn [regex negated position]. destruct pos.
    + destruct neg; cbn [lit String.list_ascii_of_string app];
        first [rewrite (find_operator_none b true) by (by left) | rewrite (find_operator_none b false) by (by left)];
        cbn iota; eval_chars; cbn [orb andb]; rewrite Hstrip, Hq; done.
    + destruct neg; [
        replace (find_operator _ _) with (Some (mkOperator (lit "!contains ") b true ANYWHERE, quote (EscapeFilterString v) ++ s))
        by reflexivity |
        replace (find_operator _ _) with (Some (mkOperator (lit "contains ") b false ANYWHERE, quote (EscapeFilterString v) ++ s))
        by reflexivity];
      cbn iota; change (StripLeft_c (quote (EscapeFilterString v) ++ s)) with (quote (EscapeFilterString v) ++ s);
      rewrite Hq; done.
    + destruct neg; [
        replace (find_operator _ _) with (Some (mkOperator (lit "!starts_with ") b true PREFIX, quote (EscapeFilterString v) ++ s))
        by reflexivity |
        replace (find_operator _ _) with (Some (mkOperator (lit "starts_with ") b false PREFIX, quote (EscapeFilterString v) ++ s))
        by reflexivity];
      cbn iota; change (StripLeft_c (quote (EscapeFilterString v) ++ s)) with (quote (EscapeFilterString v) ++ s);
      rewrite Hq; done.
Qed.

Lemma drop_while_app_stop f a c (s : bytes) : forallb f a = true -> f c = false -> drop_while f (a ++ c :: s) = c :: s.
Proof.
  intros Ha Hc. induction a as [|x a IH]; simpl in *; [by rewrite Hc|].
  apply andb_true_iff in Ha as [Hx Ha]. by rewrite Hx, IH.
Qed.

(** A type is read as one word. *)
Lemma ExpectWord_name name s : forallb IsTagNameChar name = true -> name <> [] ->
  ExpectWord (name ++ " "%char :: s) = Ok (name, StripLeft_c s).
Proof.
  intros Hn Hne. unfold ExpectWord, FirstNonTagNameChar. rewrite drop_while_app_stop by done.
  unfold consumed. rewrite length_app.
  replace (length name + length (" "%char :: s) - length (" "%char :: s))%nat with (length name) by lia.
  destruct (length name) as [|n] eqn:E; [by destruct name|]. by rewrite <- E, take_app_length.
Qed.

Lemma ExpectFilterType_name name t s : forallb IsTagNameChar name = true -> name <> [] ->
  locate_parse_type name = Some t -> ExpectFilterType (name ++ " "%char :: s) = Ok (t, StripLeft_c s).
Proof.
  intros Hn Hne Ht. unfold ExpectFilterType. rewrite ExpectWord_name by done. cbn [rbind fst snd]. by rewrite Ht.
Qed.

Lemma tag_names_words t : forallb IsTagNameChar (tag_item_names t) = true /\ tag_item_names t <> [] /\
  locate_parse_type (tag_item_names t) = Some (LOCATE_TAG t).
Proof. destruct t; vm_compute; split; try reflexivity; split; try reflexivity; discriminate. Qed.

(** One closing parenthesis. *)
Lemma expect_close_paren {A} (a : A) s : expect_close a (")"%char :: s) = Ok (a, StripLeft_c s).
Proof. done. Qed.

(** A filter of one comparison prints as a type and a rest that
    [ParseSimple] reads. *)
Definition simple_printed (b : bool) (f : ISongFilter) : Prop :=
  exists c e, ToExpression f = Some ("("%char :: c :: e) /\ IsAlphaASCII c = true /\
    forall s, ParseSimple ((c :: e) ++ s) b = Ok (f, StripLeft_c s).

Lemma string_printed b name t f (mk : StringFilter -> ISongFilter) :
  string_filter_ok b f -> forallb IsTagNameChar name = true ->
  (exists c n, name = c :: n /\ IsAlphaASCII c = true) -> locate_parse_type name = Some t ->
  (forall s, ParseSimple (name ++ " "%char :: s) b =
     let* g := ParseStringFilter (StripLeft_c s) b in
     let* r := expect_close tt (snd g) in Ok (mk (fst g), snd r)) ->
  ToExpression (mk f) = Some (lit "(" ++ name ++ lit " " ++ GetOperator f ++ lit " " ++
            quote (EscapeFilterString (value f)) ++ lit ")") ->
  simple_printed b (mk f).
Proof.
  intros Hf Hn (c & n & -> & Hc) Ht Hp He. exists c, (n ++ " "%char :: GetOperator f ++ " "%char :: quote (EscapeFilterString (value f)) ++ [")"%char]).
  split; [exact He|]. split; [done|].
  intros s. replace ((c :: _) ++ s) with
    ((c :: n) ++ " "%char :: GetOperator f ++ " "%char :: quote (EscapeFilterString (value f)) ++ ")"%char :: s)
    by (cbn [app]; rewrite <- app_assoc; cbn [app]; rewrite <- app_assoc; cbn [app]; by rewrite <- app_assoc).
  rewrite Hp.
  replace (StripLeft_c (GetOperator f ++ _)) with
    (GetOperator f ++ " "%char :: quote (EscapeFilterString (value f)) ++ ")"%char :: s)
    by (unfold GetOperator; destruct (regex f), (position f), (negated f); done).
  rewrite ParseStringFilter_print by done. done.
Qed.

Lemma simple_string b name t s : forallb IsTagNameChar name = true -> name <> [] ->
  locate_parse_type name = Some t ->
  match t with LOCATE_TAG _ | LOCATE_TAG_FILE_TYPE | LOCATE_TAG_ANY_TYPE => True | _ => False end ->
  ParseSimple (name ++ " "%char :: s) b =
  let* g := ParseStringFilter (StripLeft_c s) b in
  let* r := expect_close tt (snd g) in
  Ok (match t with
      | LOCATE_TAG_FILE_TYPE => UriSongFilter (fst g)
      | LOCATE_TAG t => TagSongFilter (OneTag t) (fst g)
      | _ => TagSongFilter AnyTag (fst g)
      end, snd r).
Proof.
  intros Hn Hne Ht Hk. unfold ParseSimple. rewrite (ExpectFilterType_name _ _ _ Hn Hne Ht). cbn [rbind].
  by destruct t.
Qed.

Lemma ParseTimeStamp_print tp : time_ok tp -> ParseTimeStamp (FormatISO8601 tp) = Ok tp.
Proof.
  intros [Hr Hs]. unfold ParseTimeStamp, FormatISO8601. rewrite ParseISO8601_Format by (by apply GmTime_fields).
  f_equal. unfold TimeGm. by rewrite GmTime_timegm, from_time_t_id.
Qed.

(** The argument of a type that takes a quoted string alone. *)
Lemma quoted_argument q v s : ExpectQuoted (quote q ++ ")"%char :: s) = Ok (v, StripLeft_c (")"%char :: s)) ->
  ExpectQuoted (StripLeft_c (quote q ++ ")"%char :: s)) = Ok (v, ")"%char :: s).
Proof. done. Qed.

Lemma base_printed b v : (length v < quoted_buffer_size)%nat -> simple_printed b (BaseSongFilter v).
Proof.
  intros Hv. exists "b"%char, (lit "ase " ++ quote (EscapeFilterString v) ++ lit ")").
  split; [done|]. split; [done|]. intros s.
  change (ParseSimple _ b) with (ParseSimple (lit "base" ++ " "%char :: (quote (EscapeFilterString v) ++ lit ")") ++ s) b).
  unfold ParseSimple. rewrite (ExpectFilterType_name (lit "base") LOCATE_TAG_BASE_TYPE) by done. cbn [rbind].
  rewrite <- app_assoc. change (lit ")" ++ s) with (")"%char :: s).
  rewrite (quoted_argument _ v) by (by apply ExpectQuoted_quote). done.
Qed.

Lemma since_printed b (added : bool) tp : time_ok tp ->
  simple_printed b (if added then AddedSinceSongFilter tp else ModifiedSinceSongFilter tp).
Proof.
  intros Ht. pose proof Ht as [Hr _]. destruct (FormatISO8601_text tp Hr) as [Hu Hl].
  exists (if added then "a"%char else "m"%char),
    (tl (if added then lit "added-since" else lit "modified-since") ++ lit " " ++ quote (FormatISO8601 tp) ++ lit ")").
  split; [by destruct added|]. split; [by destruct added|]. intros s.
  replace (ParseSimple _ b) with (ParseSimple ((if added then lit "added-since" else lit "modified-since") ++
    " "%char :: quote (FormatISO8601 tp) ++ ")"%char :: s) b)
    by (f_equal; destruct added; cbn [lit String.list_ascii_of_string tl app]; by rewrite <- app_assoc).
  unfold ParseSimple.
  rewrite (ExpectFilterType_name _ (if added then LOCATE_TAG_ADDED_SINCE else LOCATE_TAG_MODIFIED_SINCE))
    by (by destruct added). cbn [rbind].
  pose proof (quoted_argument _ _ s (ExpectQuoted_plain _ (")"%char :: s) Hu Hl)) as Hq.
  destruct added; rewrite Hq; cbn [rbind fst snd]; rewrite expect_close_paren; cbn [rbind fst snd];
    by rewrite (ParseTimeStamp_print tp Ht).
Qed.

Lemma audio_printed b a : audio_ok a -> simple_printed b (AudioFormatSongFilter a).
Proof.
  intros (Hv & He & Hr0 & Hc0).
  assert (sample_rate a < 2 ^ 32 /\ channels a < 256) as [Hr1 Hc1].
  { unfold AudioFormat_IsValid, IsMaskValid, audio_valid_channel_count, audio_valid_sample_rate, MAX_CHANNELS in Hv.
    destruct (IsFullyDefined a); reflect_bools; [lia|].
    destruct (sample_rate a =? 0) eqn:E1, (channels a =? 0) eqn:E2; reflect_bools; lia. }
  destruct (ToString_text a) as [Hu Hl]; [lia|lia|].
  exists "A"%char, (lit "udioFormat " ++ (if IsFullyDefined a then lit "==" else lit "=~") ++ lit " " ++
    quote (ToString a) ++ lit ")").
  split; [done|]. split; [done|]. intros s.
  replace (ParseSimple _ b) with (ParseSimple (lit "AudioFormat" ++ " "%char ::
    (if IsFullyDefined a then lit "==" else lit "=~") ++ " "%char :: quote (ToString a) ++ ")"%char :: s) b)
    by (f_equal; destruct (IsFullyDefined a); cbn [lit String.list_ascii_of_string app]; by rewrite <- app_assoc).
  unfold ParseSimple. rewrite (ExpectFilterType_name (lit "AudioFormat") LOCATE_TAG_AUDIO_FORMAT) by done.
  cbn [rbind].
  pose proof (ExpectQuoted_plain _ (")"%char :: s) Hu Hl) as Hq.
  pose proof (ParseAudioFormat_ToString_iff a (negb (IsFullyDefined a))) as Hp.
  destruct (IsFullyDefined a); cbn [negb] in Hp; apply (proj2 (Hp Hv)) in He; clear Hp.
  - change (StripLeft_c (lit "==" ++ ?x)) with ("="%char :: "="%char :: x).
    cbn iota. eval_chars. cbn [andb rbind fst snd].
    change (StripLeft_c (" "%char :: ?x)) with (StripLeft_c x). 
    rewrite (quoted_argument _ _ s Hq). cbn [rbind fst snd]. rewrite He. done.
  - change (StripLeft_c (lit "=~" ++ ?x)) with ("="%char :: "~"%char :: x).
    cbn iota. eval_chars. cbn [andb rbind fst snd].
    change (StripLeft_c (" "%char :: ?x)) with (StripLeft_c x). 
    rewrite (quoted_argument _ _ s Hq). cbn [rbind fst snd]. rewrite He. done.
Qed.

Lemma priority_printed b n : 0 <= n < 256 -> simple_printed b (PrioritySongFilter n).
Proof.
  intros Hn. exists "p"%char, (lit "rio >= " ++ print_int n ++ lit ")"). split; [done|]. split; [done|].
  intros s. rewrite print_int_nonneg by lia.
  replace (ParseSimple _ b) with (ParseSimple (lit "prio" ++ " "%char :: lit ">=" ++ " "%char :: print_nat n ++ ")"%char :: s) b)
    by (f_equal; cbn [lit String.list_ascii_of_string app]; by rewrite <- app_assoc).
  unfold ParseSimple. rewrite (ExpectFilterType_name (lit "prio") LOCATE_TAG_PRIORITY) by done. cbn [rbind].
  change (StripLeft_c (lit ">=" ++ ?x)) with (lit ">=" ++ x).
  unfold StringAfterPrefix. rewrite after_prefix_app. cbv zeta.
  change (StripLeft_c (" "%char :: ?x)) with (StripLeft_c x). rewrite head_digit_StripLeft_c by lia.
  rewrite strtoull_print by (done || lia). unfold consumed.
  pose proof (print_nat_starts_digit n [] ltac:(lia)) as Hd. rewrite app_nil_r in Hd.
  rewrite (proj2 (Nat.eqb_neq _ _)) by (rewrite length_app; destruct (print_nat n); [done|simpl; lia]).
  rewrite (proj2 (Z.ltb_ge _ _)) by lia. done.
Qed.

Lemma simple_filters_printed b f : printable b f ->
  match f with AndSongFilter _ | NotSongFilter _ => True | _ => simple_printed b f end.
Proof.
  intros [items|child|g Hg|t g Hg|g Hg|v Hv|t Ht|t Ht|a Ha|n Hn]; try done.
  - apply (string_printed b (lit "any") LOCATE_TAG_ANY_TYPE g (TagSongFilter AnyTag)); try done; [by eexists _, _|].
    intros s. by apply (simple_string b (lit "any") LOCATE_TAG_ANY_TYPE).
  - destruct (tag_names_words t) as (Hn & Hne & Hl).
    apply (string_printed b (tag_item_names t) (LOCATE_TAG t) g (TagSongFilter (OneTag t))); try done.
    + destruct t; by eexists _, _.
    + intros s. by apply (simple_string b (tag_item_names t) (LOCATE_TAG t)).
  - apply (string_printed b (lit "file") LOCATE_TAG_FILE_TYPE g UriSongFilter); try done; [by eexists _, _|].
    intros s. by apply (simple_string b (lit "file") LOCATE_TAG_FILE_TYPE).
  - by apply base_printed.
  - by apply (since_printed b false).
  - by apply (since_printed b true).
  - by apply audio_printed.
  - by apply priority_printed.
Qed.

(** What [ParseExpression] does with the printed form. *)
Definition printed (b : bool) (f : ISongFilter) : Prop :=
  exists e, ToExpression f = Some ("("%char :: e) /\
    forall fuel s, (2 * length (("("%char :: e) ++ s) < fuel)%nat ->
      ParseExpression fuel (("("%char :: e) ++ s) b = Ok (f, StripLeft_c s).

Lemma ParseExpression_simple fuel c s b : IsAlphaASCII c = true ->
  ParseExpression (S fuel) ("("%char :: c :: s) b = ParseSimple (c :: s) b.
Proof.
  intros Hc. assert (StripLeft_c (c :: s) = c :: s /\ c <> "("%char /\ c <> "!"%char) as (Hs & Hp & Hn).
  { split; [|split; intros ->; done]. unfold StripLeft_c. simpl. assert (IsWhitespaceNotNull c = false) as ->; [|done].
    revert Hc. clear. all_bytes c. }
  cbn [ParseExpression]. rewrite Hs. rewrite !bool_decide_false by done. done.
Qed.

Lemma simple_printed_printed b f : simple_printed b f -> printed b f.
Proof.
  intros (c & e & He & Hc & Hp). exists (c :: e). split; [done|]. intros fuel s Hf.
  destruct fuel as [|fuel]; [simpl in Hf; lia|]. cbn [app]. rewrite ParseExpression_simple by done. apply Hp.
Qed.

Lemma not_printed b f : printed b f -> printed b (NotSongFilter f).
Proof.
  intros (e & He & Hp). exists ("!"%char :: "("%char :: e ++ [")"%char]). split.
  - cbn [ToExpression]. by rewrite He.
  - intros fuel s Hf. destruct fuel as [|fuel]; [simpl in Hf; lia|]. cbn [app]. rewrite <- app_assoc. cbn [app].
    cbn [ParseExpression]. change (StripLeft_c ("!"%char :: ?x)) with ("!"%char :: x). cbn iota. eval_chars. cbn iota.
    change (StripLeft_c ("("%char :: ?x)) with ("("%char :: x).
    change (StringStartsWith ("("%char :: ?x) (lit "(")) with true. cbn [negb].
    change ("("%char :: e ++ ")"%char :: s) with (("("%char :: e) ++ ")"%char :: s).
    rewrite Hp; [done|]. cbn [app length] in *. rewrite !length_app in *. simpl in *. lia.
Qed.

Lemma ExpectWord_and s : ExpectWord (lit "AND " ++ s) = Ok (lit "AND", StripLeft_c s).
Proof. exact (ExpectWord_name (lit "AND") s eq_refl ltac:(discriminate)). Qed.

Lemma all_some_cons f items : all_some (map ToExpression (f :: items)) =
  (ToExpression f ≫= fun a => all_some (map ToExpression items) ≫= fun l => Some (a :: l)).
Proof. done. Qed.

(** The loop over the operands that follow. *)
Lemma ParseAnd_printed b items : Forall (printed b) items -> items <> [] ->
  exists es, all_some (map ToExpression items) = Some es /\
    forall fuel acc s, (2 * length (join_and es ++ s) < fuel)%nat ->
      ParseAnd fuel (drop 5 (join_and es) ++ ")"%char :: s) b acc = Ok (AndSongFilter (acc ++ items), StripLeft_c s).
Proof.
  induction 1 as [|f items (e & He & Hp) Hf IH]; intros Hne; [done|].
  destruct items as [|g items].
  - exists ["("%char :: e]. split; [simpl; by rewrite He|]. intros fuel acc s Hl.
    destruct fuel as [|fuel]; [simpl in Hl; lia|].
    change (drop 5 (join_and ["("%char :: e])) with (("("%char :: e) ++ []). rewrite app_nil_r.
    cbn [ParseAnd]. rewrite Hp; [done|].
    simpl in *. rewrite !length_app in *. simpl in *. lia.
  - destruct (IH ltac:(done)) as (es & Hes & Hrec). exists (("("%char :: e) :: es).
    split; [rewrite all_some_cons, He, Hes; done|].
    intros fuel acc s Hl. destruct fuel as [|fuel]; [simpl in Hl; lia|].
    assert (exists e2, join_and es = lit " AND " ++ ("("%char :: e2)) as [e2 Hj].
    { cbn [map all_some] in Hes. apply Forall_inv in Hf as (e2 & He2 & _). rewrite He2 in Hes.
      cbn [mbind option_bind] in Hes. destruct (all_some (map ToExpression items)) as [l|]; [|done].
      injection Hes as <-. cbn [join_and]. by eexists. }
    change (drop 5 (join_and (("("%char :: e) :: es))) with (("("%char :: e) ++ join_and es).
    rewrite <- app_assoc. cbn [ParseAnd]. rewrite Hp; cbn [rbind fst snd].
    + rewrite Hj. change (StripLeft_c ((lit " AND " ++ ?x) ++ ?y)) with ((lit "AND " ++ x) ++ y).
      rewrite <- app_assoc.
      change (expect_close _ (lit "AND " ++ ?x)) with (@Throw (ISongFilter * bytes) (lit "')' expected")).
      rewrite ExpectWord_and. cbn [rbind fst snd]. rewrite bytes_eqb_refl. cbn [negb].
      change (StripLeft_c (("("%char :: e2) ++ ?x)) with (("("%char :: e2) ++ x).
      replace ("("%char :: e2) with (drop 5 (join_and es)) by (by rewrite Hj). rewrite Hrec; [by rewrite <- app_assoc|].
      cbn [join_and] in Hl. rewrite !length_app in *. simpl in *. lia.
    + cbn [join_and] in Hl. rewrite ?length_app in *. simpl in *. rewrite ?length_app in *. simpl in *. lia.
Qed.

Lemma and_printed b items : Forall (printed b) items -> (2 <= length items)%nat -> printed b (AndSongFilter items).
Proof.
  intros Hi Hlen. destruct items as [|f items]; [simpl in Hlen; lia|].
  apply Forall_cons in Hi as [(e & He & Hp) Hi].
  destruct (ParseAnd_printed b items Hi) as (es & Hes & Hrec); [by destruct items; [simpl in Hlen; lia|]|].
  assert (exists e2, join_and es = lit " AND " ++ ("("%char :: e2)) as [e2 Hj].
  { destruct items as [|g items]; [simpl in Hlen; lia|]. cbn [map all_some] in Hes.
    apply Forall_inv in Hi as (e2 & He2 & _). rewrite He2 in Hes.
    cbn [mbind option_bind] in Hes. destruct (all_some (map ToExpression items)) as [l|]; [|done].
    injection Hes as <-. cbn [join_and]. by eexists. }
  exists ("("%char :: e ++ join_and es ++ lit ")"). split.
  - cbn [ToExpression]. rewrite all_some_cons, He, Hes. cbn [mbind option_bind]. by destruct es.
  - intros fuel s Hl. destruct fuel as [|fuel]; [simpl in Hl; lia|].
    cbn [app]. rewrite <- !app_assoc. cbn [ParseExpression]. change (StripLeft_c ("("%char :: ?x)) with ("("%char :: x).
    cbn iota. eval_chars. cbn iota.
    change ("("%char :: e ++ join_and es ++ lit ")" ++ s) with (("("%char :: e) ++ join_and es ++ lit ")" ++ s).
    rewrite Hp; cbn [rbind fst snd].
    + rewrite Hj. change (StripLeft_c ((lit " AND " ++ ?x) ++ ?y)) with ((lit "AND " ++ x) ++ y).
      rewrite <- app_assoc.
      change (expect_close _ (lit "AND " ++ ?x)) with (@Throw (ISongFilter * bytes) (lit "')' expected")).
      rewrite ExpectWord_and. cbn [rbind fst snd]. rewrite bytes_eqb_refl. cbn [negb].
      change (StripLeft_c (("("%char :: e2) ++ ?x)) with (("("%char :: e2) ++ x).
      replace ("("%char :: e2) with (drop 5 (join_and es)) by (by rewrite Hj).
      change (lit ")" ++ s) with (")"%char :: s). rewrite Hrec; [done|].
      simpl in Hl. rewrite !length_app in *. simpl in Hl. lia.
    + simpl in *. rewrite !length_app in *. simpl in *. lia.
Qed.

Lemma printable_printed b f : printable b f -> printed b f.
Proof.
  induction f as [items IH|child IH|f Hf] using ISongFilter_ind'; intros Hp.
  - inversion Hp as [items' Hl Hi| | | | | | | | |]; subst. apply and_printed; [|done].
    clear Hp Hl. induction IH; constructor; inversion Hi; subst; auto.
  - inversion Hp; subst. by apply not_printed, IH.
  - apply simple_printed_printed. apply simple_filters_printed in Hp. by destruct f.
Qed.
End RoundTrip.

(** ** Lemmas: termination *)

Definition out_of_fuel : bytes := lit "out of fuel".

(** A parser result that uses part of the input and is not the model's own
    exception. *)
Definition consumes {A} (n : nat) (r : result (A * bytes)) : Prop :=
  match r with Ok (_, rest) => (length rest < n)%nat | Throw e => e <> out_of_fuel end.
Definition no_fuel {A} (r : result A) : Prop := match r with Ok _ => True | Throw e => e <> out_of_fuel end.

Lemma drop_while_length f (s : bytes) : (length (drop_while f s) <= length s)%nat.
Proof. induction s as [|c s IH]; simpl; [lia|]. destruct (f c); simpl; lia. Qed.

Lemma StripLeft_c_length s : (length (StripLeft_c s) <= length s)%nat.
Proof. apply drop_while_length. Qed.

Lemma rbind_consumes {A B} n m (r : result (A * bytes)) (f : A * bytes -> result (B * bytes)) :
  consumes n r -> (forall a s, r = Ok (a, s) -> (length s < n)%nat -> consumes m (f (a, s))) -> consumes m (rbind r f).
Proof. destruct r as [[a s]|e]; simpl; auto. Qed.

Lemma consumes_weaken {A} n m (r : result (A * bytes)) : consumes n r -> (n <= m)%nat -> consumes m r.
Proof. destruct r as [[a s]|e]; simpl; [lia|done]. Qed.

Lemma rbind_no_fuel {A B} (r : result A) (f : A -> result B) :
  no_fuel r -> (forall a, r = Ok a -> no_fuel (f a)) -> no_fuel (rbind r f).
Proof. destruct r; simpl; auto. Qed.

Lemma ExpectWord_consumes s : consumes (length s) (ExpectWord s).
Proof.
  unfold ExpectWord, FirstNonTagNameChar, consumed. pose proof (drop_while_length IsTagNameChar s).
  destruct (length s - _)%nat eqn:E; [done|]. simpl. pose proof (StripLeft_c_length (drop_while IsTagNameChar s)). lia.
Qed.

Lemma quoted_loop_consumes q s : forall n buffer, consumes (length s) (quoted_loop q s n buffer).
Proof.
  induction s as [s IH] using (induction_ltof1 _ (@length _)). unfold ltof in IH. intros n buffer.
  destruct s as [|c s]; [done|]. cbn [quoted_loop]. pose proof (StripLeft_c_length s).
  destruct (bool_decide (c = q)); [simpl; lia|]. destruct (bool_decide (c = BACKSLASH)).
  - destruct s as [|d s]; [done|]. destruct (Nat.leb _ _); [done|].
    eapply consumes_weaken; [apply IH; simpl; lia|simpl; lia].
  - destruct (Nat.leb _ _); [done|]. eapply consumes_weaken; [apply IH; simpl; lia|simpl; lia].
Qed.

Lemma ExpectQuoted_consumes s : consumes (length s) (ExpectQuoted s).
Proof.
  destruct s as [|q s]; [done|]. unfold ExpectQuoted. destruct (negb _); [done|].
  eapply consumes_weaken; [apply quoted_loop_consumes|simpl; lia].
Qed.

Lemma expect_close_consumes {A} (a : A) s : consumes (length s) (expect_close a s).
Proof.
  destruct s as [|c s]; [done|]. simpl. destruct (bool_decide _); [|done]. simpl.
  pose proof (StripLeft_c_length s). lia.
Qed.

Lemma ExpectFilterType_consumes s : consumes (length s) (ExpectFilterType s).
Proof.
  apply (rbind_consumes (length s)); [apply ExpectWord_consumes|]. intros w r _ Hr. cbn [fst snd].
  by destruct (locate_parse_type w).
Qed.

Lemma StringAfterPrefixCaseASCII_length needle : forall s r,
  StringAfterPrefixCaseASCII s needle = Some r -> (length r <= length s)%nat.
Proof.
  induction needle as [|c needle IH]; intros s r H; simpl in H; [by injection H as ->|].
  destruct s as [|d s]; [done|]. destruct (bool_decide _); [|done]. apply IH in H. simpl. lia.
Qed.

Lemma find_operator_length ops s op r : find_operator ops s = Some (op, r) -> (length r <= length s)%nat.
Proof.
  induction ops as [|o ops IH]; intros H; simpl in H; [done|].
  destruct (StringAfterPrefixCaseASCII s (op_prefix o)) as [r'|] eqn:E; [|by apply IH].
  injection H as <- <-. by apply StringAfterPrefixCaseASCII_length in E.
Qed.

Section Termination.
Context `{FilterLibraries}.

Lemma stripped_quoted_consumes n r : (length r <= n)%nat -> consumes n (ExpectQuoted (StripLeft_c r)).
Proof.
  intros Hr. eapply consumes_weaken; [apply ExpectQuoted_consumes|]. pose proof (StripLeft_c_length r). lia.
Qed.

Lemma ParseStringFilter_consumes s b : consumes (length s) (ParseStringFilter s b).
Proof.
  unfold ParseStringFilter. destruct (find_operator _ s) as [[op r]|] eqn:E.
  - apply (rbind_consumes (length s)); [|done]. apply stripped_quoted_consumes. by apply find_operator_length in E.
  - destruct s as [|a [|c r]]; try done. destruct (_ && _); [|destruct (_ && _); [|done]];
      (apply (rbind_consumes (length (a :: c :: r))); [apply stripped_quoted_consumes; simpl; lia|]);
      intros v r' _ Hr'; cbn [fst snd]; [|exact Hr']. by destruct (negb _).
Qed.

Lemma ParseTimeStamp_no_fuel s : no_fuel (ParseTimeStamp s).
Proof.
  unfold ParseTimeStamp. assert (no_fuel (ParseISO8601 s)) as Hi.
  { unfold ParseISO8601. destruct (strptime_Y_m s) as [[[y m] [|c r]]|]; [done| |];
      (destruct (match strptime_Y_m_d s with Some _ => _ | None => _ end) as [[[[y' m'] d] s']|]; [|done]);
      (apply rbind_no_fuel; [destruct (match_char "T" s'); [destruct (ParseTimeOfDay _ _); done|done]|]);
      intros [[s1 t] p] _; (apply rbind_no_fuel; [|intros [tp [|]] _; done]);
      (destruct s1 as [|x s1]; [done|]); (destruct (bool_decide _); [done|]); (destruct (_ || _); [|done]);
      (apply rbind_no_fuel; [|done]); unfold ParseTimeZoneOffset; (apply rbind_no_fuel;
        [|intros [[h mi] r'] _; destruct (_ <? _); [done|]; destruct (_ <=? _); done]);
      unfold ParseTimeZoneOffsetRaw; destruct (strtoull s1) as [v e1]; (destruct (Nat.eqb _ _); [done|]);
      (destruct (Nat.eqb _ _); [|done]); (destruct (match_char _ _); [|done]); destruct (strtoull _);
      by destruct (negb _). }
  destruct (ParseISO8601 s) as [[tp p]|e]; [done|]. destruct (strtoull s). by destruct (_ && _).
Qed.

Lemma ParseAudioFormat_no_fuel s mask : no_fuel (ParseAudioFormat s mask).
Proof.
  assert (forall c, no_fuel (ParseChannelCount c mask)) as Hc.
  { intros c. unfold ParseChannelCount. destruct (_ && _); [done|]. destruct (ParseInteger _ _); [|done].
    by destruct (negb _). }
  unfold ParseAudioFormat. destruct (SkipPrefix s (lit "dsd")) as [[] r].
  - destruct (Split r ":") as [d [c|]]; [|done]. destruct (ParseInteger _ d); [|done]. destruct (_ || _); [done|].
    by apply rbind_no_fuel.
  - destruct (Split r ":") as [d c]. apply rbind_no_fuel.
    + unfold ParseSampleRate. destruct (_ && _); [done|]. destruct (ParseInteger _ _); [|done]. by destruct (negb _).
    + intros sr _. destruct c as [c|]; [|done]. destruct (Split c ":") as [f ch]. apply rbind_no_fuel.
      * unfold ParseSampleFormat. repeat (destruct (_ =b _) || destruct (_ && _)); done.
      * intros sf _. destruct ch as [ch|]; [|done]. by apply rbind_no_fuel.
Qed.

Lemma strtoull_length s : (length (snd (strtoull s)) <= length s)%nat.
Proof.
  assert (forall s acc, (length (snd (scan_digits acc s)) <= length s)%nat) as Hd.
  { clear. induction s as [|c s IH]; intros acc; simpl; [lia|]. destruct (IsDigitASCII c); [|simpl; lia].
    etransitivity; [apply IH|lia]. }
  unfold strtoull, scan_integer. pose proof (drop_while_length isspace s).
  assert (forall neg s2, (length s2 <= length s)%nat -> (length (snd (match
    (if starts_digit s2 then let '(v, r) := scan_digits 0%Z s2 in Some (neg : bool, v, r) else None) with
    | None => (0%Z, s) | Some (neg, v, r) => ((if 2 ^ 64 <=? v then 2 ^ 64 - 1 else if neg then u64 (- v) else v)%Z, r)
    end)) <= length s)%nat) as Hs.
  { intros neg s2 Hs2. destruct (starts_digit s2); [|simpl; lia]. specialize (Hd s2 0).
    destruct (scan_digits 0 s2). simpl in *. lia. }
  destruct (drop_while isspace s) as [|c s1]; [apply (Hs false []); simpl; lia|]. simpl in *.
  destruct (bool_decide (c = "-"%char)); [apply (Hs true); lia|].
  destruct (bool_decide (c = "+"%char)); [apply (Hs false); lia|]. apply (Hs false (c :: s1)). simpl. lia.
Qed.

(** A quoted value, its conversion and the closing parenthesis. *)
Lemma quoted_close_consumes {A B} n s (f : bytes -> result B) (g : B -> A) : (length s <= n)%nat -> (forall v, no_fuel (f v)) ->
  consumes n (let* v := ExpectQuoted s in let* r := expect_close tt (snd v) in
              let* t := f (fst v) in Ok (g t, snd r)).
Proof.
  intros Hn Hf. apply (rbind_consumes n); [by eapply consumes_weaken; [apply ExpectQuoted_consumes|]|].
  intros v r _ Hr. cbn [fst snd]. apply (rbind_consumes n).
  - eapply consumes_weaken; [apply expect_close_consumes|lia].
  - intros [] r' _ Hr'. cbn [snd]. specialize (Hf v). destruct (f v); [exact Hr'|exact Hf].
Qed.

Lemma ParseSimple_consumes s b : consumes (length s) (ParseSimple s b).
Proof.
  apply (rbind_consumes (length s)); [apply ExpectFilterType_consumes|]. intros type r _ Hr.
  assert (forall type, consumes (length s) (let* f := ParseStringFilter r b in
      let* r0 := expect_close tt (snd f) in
      Ok (match type with LOCATE_TAG_FILE_TYPE => UriSongFilter (fst f) | LOCATE_TAG t => TagSongFilter (OneTag t) (fst f)
          | _ => TagSongFilter AnyTag (fst f) end, snd r0))) as Hs.
  { intros type'. apply (rbind_consumes (length s)).
    - eapply consumes_weaken; [apply ParseStringFilter_consumes|lia].
    - intros f r' _ Hr'. cbn [fst snd]. apply (rbind_consumes (length s)); [|done].
      eapply consumes_weaken; [apply expect_close_consumes|lia]. }
  destruct type; [apply (Hs (LOCATE_TAG _))| | | | |apply (Hs LOCATE_TAG_FILE_TYPE)|apply (Hs LOCATE_TAG_ANY_TYPE)|].
  - apply (rbind_consumes (length s)); [eapply consumes_weaken; [apply ExpectQuoted_consumes|lia]|].
    intros v r' _ Hr'. eapply consumes_weaken; [apply expect_close_consumes|simpl; lia].
  - apply (quoted_close_consumes (length s) r ParseTimeStamp ModifiedSinceSongFilter); [lia|apply ParseTimeStamp_no_fuel].
  - apply (rbind_consumes (length s)).
    + destruct r as [|x [|y r]]; try done. destruct (_ && _); [simpl in *; lia|]. destruct (_ && _); [simpl in *; lia|done].
    + intros mask r' _ Hr'. cbn [fst snd]. apply (rbind_consumes (length s)); [apply stripped_quoted_consumes; lia|].
      intros v r1 _ Hr1. cbn [fst snd]. pose proof (ParseAudioFormat_no_fuel v mask).
      destruct (ParseAudioFormat v mask); [|done]. eapply consumes_weaken; [apply expect_close_consumes|lia].
  - destruct (StringAfterPrefix r (lit ">=")) as [q|] eqn:E; [|done]. apply after_prefix_Some in E as ->.
    cbv zeta. pose proof (strtoull_length (StripLeft_c q)). pose proof (StripLeft_c_length q).
    destruct (strtoull (StripLeft_c q)) as [n e]. simpl in *.
    destruct (Nat.eqb _ _); [done|]. destruct (_ <? _); [done|].
    eapply consumes_weaken; [apply expect_close_consumes|lia].
  - apply (quoted_close_consumes (length s) r ParseTimeStamp AddedSinceSongFilter); [lia|apply ParseTimeStamp_no_fuel].
Qed.

Lemma expect_close_cases {A} (a : A) s (P : result (A * bytes) -> Prop) k :
  P (expect_close a s) -> P k -> P (match expect_close a s with Ok r => Ok r | Throw _ => k end).
Proof. by destruct (expect_close a s). Qed.

Lemma Parse_consumes fuel : forall s b items,
  ((2 * length s < fuel)%nat -> consumes (length s) (ParseExpression fuel s b)) /\
  ((2 * length s + 1 < fuel)%nat -> consumes (length s) (ParseAnd fuel s b items)).
Proof.
  induction fuel as [|fuel IH]; intros s b items; [lia|]. split; intros Hf.
  - destruct s as [|c s]; [done|]. simpl length in *. cbn [ParseExpression]. pose proof (StripLeft_c_length s) as Hl.
    destruct (StripLeft_c s) as [|d s'] eqn:E;
      [eapply consumes_weaken; [apply ParseSimple_consumes|lia]|].
    destruct (bool_decide (d = "("%char)).
    + apply (rbind_consumes (S (length s))).
      * eapply consumes_weaken; [apply (IH _ b []); lia|lia].
      * intros f r Hr _. cbn [fst snd].
        assert (length r < length (d :: s'))%nat as Hlr
          by (pose proof (proj1 (IH (d :: s') b []) ltac:(lia)) as Hc; by rewrite Hr in Hc).
        apply expect_close_cases; [eapply consumes_weaken; [apply expect_close_consumes|lia]|].
        apply (rbind_consumes (length r)); [apply ExpectWord_consumes|]. intros w r' _ Hr'. cbn [fst snd].
        destruct (negb _); [done|]. eapply consumes_weaken; [apply (IH r' b [f]); lia|lia].
    + destruct (bool_decide (d = "!"%char)); [|rewrite <- E in *; eapply consumes_weaken; [apply ParseSimple_consumes|lia]].
      destruct (negb _); [done|]. pose proof (StripLeft_c_length s'). simpl in Hl.
      apply (rbind_consumes (length s)); [eapply consumes_weaken; [apply (IH _ b []); lia|lia]|].
      intros f r _ Hr. cbn [fst snd]. eapply consumes_weaken; [apply expect_close_consumes|lia].
  - cbn [ParseAnd]. apply (rbind_consumes (length s)); [apply (IH s b []); lia|]. intros f r _ Hr. cbn [fst snd].
    apply expect_close_cases; [eapply consumes_weaken; [apply expect_close_consumes|lia]|].
    apply (rbind_consumes (length s)); [eapply consumes_weaken; [apply ExpectWord_consumes|lia]|].
    intros w r' _ Hr'. cbn [fst snd]. destruct (negb _); [done|].
    eapply consumes_weaken; [apply (IH r' b); lia|lia].
Qed.

End Termination.

(** ** Properties *)

(** C36: the optimizer never changes which songs a filter matches; its
    result has no conjunction inside a conjunction, none with a single
    operand and no negation around a filter with its own flag; and
    optimizing it again changes nothing. *)
Theorem OptimizeSongFilter_spec `{FilterLibraries} (f : ISongFilter) :
  (forall song, Match (OptimizeSongFilter f) song = Match f song) /\
  optimized (OptimizeSongFilter f) = true /\
  OptimizeSongFilter (OptimizeSongFilter f) = OptimizeSongFilter f.
Proof.
  split; [intros song; apply Match_Optimize|]. split; [apply Optimize_optimized|].
  apply Optimize_id, Optimize_optimized.
Qed.

(** C35: a filter printed by [ToExpression] is parsed back to itself, if its
    values are shorter than 4096 characters, its time stamps are whole
    seconds and its string filters fold case as the parsing command does. *)
Theorem Parse_ToExpression `{FilterLibraries} (f : ISongFilter) (fold_case : bool)
  (Hf : printable fold_case f) :
  exists e, ToExpression f = Some e /\ Parse [e] fold_case [] = Ok [f].
Proof.
  destruct (printable_printed fold_case f Hf) as (e & He & Hp). exists ("("%char :: e). split; [done|].
  specialize (Hp (expression_fuel ("("%char :: e)) []). rewrite app_nil_r in Hp.
  unfold Parse, Parse_args. change (StringStartsWith ("("%char :: e) (lit "(")) with true. cbn iota.
  rewrite Hp by (unfold expression_fuel; lia). done.
Qed.

Definition sample_filter : ISongFilter :=
  AndSongFilter
    [TagSongFilter (OneTag TAG_ARTIST) (mkStringFilter [SQUOTE; DQUOTE; BACKSLASH] false false ANYWHERE true);
     NotSongFilter (AndSongFilter [UriSongFilter (mkStringFilter (lit "a.*") false true FULL true);
                                   BaseSongFilter (lit "a b")]);
     ModifiedSinceSongFilter (1709208000 * NS);
     AudioFormatSongFilter (mkAudioFormat 0 S16 2);
     PrioritySongFilter 255].

Lemma Parse_ToExpression_witness :
  exists e, ToExpression sample_filter = Some e /\ Parse [e] false [] = Ok [sample_filter].
Proof.
  apply (Parse_ToExpression sample_filter false). constructor; [vm_compute; lia|].
  repeat constructor; vm_compute; try discriminate; try lia; try done; try (intros; discriminate).
Defined.

(** Parsing terminates: on every list of arguments the parser reaches
    a filter or one of its exceptions within the recursion depth that
    [expression_fuel] allows, and every expression it reads consumes part
    of the input. *)
Theorem Parse_terminates `{FilterLibraries} (args : list bytes) (fold_case : bool) (items : list ISongFilter) :
  Parse args fold_case items <> Throw out_of_fuel /\
  (forall s f rest, ParseExpression (expression_fuel s) s fold_case = Ok (f, rest) -> (length rest < length s)%nat).
Proof.
  assert (forall s, consumes (length s) (ParseExpression (expression_fuel s) s fold_case)) as He
    by (intros s; apply (Parse_consumes (expression_fuel s) s fold_case []); unfold expression_fuel; lia).
  split; [|intros s f rest H1; specialize (He s); by rewrite H1 in He].
  unfold Parse. destruct args as [|a0 args0]; [done|]. generalize (a0 :: args0). clear a0 args0.
  intros args. revert items. induction args as [args IH] using (induction_ltof1 _ (@length _)). unfold ltof in IH.
  intros items. destruct args as [|a args]; [done|]. cbn [Parse_args]. destruct (StringStartsWith a (lit "(")).
  - specialize (He a). destruct (ParseExpression _ a fold_case) as [[f rest]|e]; simpl in *; [|congruence].
    destruct rest; [apply IH; simpl; lia|done].
  - destruct args as [|v args]; [done|].
    assert (no_fuel (Parse_tag a v fold_case)) as Ht.
    { unfold Parse_tag. destruct (locate_parse_type a) as [t|]; [|done]. pose proof (ParseTimeStamp_no_fuel v).
      destruct t; try done; try (destruct (ParseTimeStamp v); done).
      destruct (uri_safe_local v) as [[]|]; done. }
    destruct (Parse_tag a v fold_case); simpl in *; [apply IH; simpl; lia|congruence].
Qed.

(** The old form of a filter on the audio format matches no song: it is a
    tag filter for a number that is no tag. *)
Lemma Parse_AudioFormat_matches_nothing `{FilterLibraries} v fold_case f song :
  Parse_tag (lit "AudioFormat") v fold_case = Ok f -> Match f song = false.
Proof.
  intros [= <-]. cbn [Match]. unfold TagSongFilter_Match. cbv zeta.
  assert (existsb (fun i => false && MatchWithoutNegation (StringFilter_new v fold_case
    (if fold_case then ANYWHERE else FULL) false) (ti_value i)) (items (l_tag song)) = false) as ->; [|done].
  by induction (items (l_tag song)).
Qed.
