(* ===== verification/SongSave.v ===== *)
(** The text form of songs: [src/SongSave.cxx] and [src/TagSave.cxx].

    Durations are printed by the fmt library as a [double] number of
    seconds; that conversion is the parameter [fmt_double].  Output is
    the byte string written; input is the list of lines left to read. *)
From S2P Require Import Prelude Text Chrono Tags Audio Songs.
Open Scope Z_scope.

Definition SONG_BEGIN : bytes := lit "song_begin: ".
Definition SONG_END : bytes := lit "song_end".
Definition SONG_MTIME : bytes := lit "mtime".
Definition SONG_ADDED : bytes := lit "added".
Definition SONG_TIME : bytes := lit "Time: ".

Section Save.
Context (fmt_double : double -> bytes).

Definition tag_save (t : Tag) : bytes :=
  (if negb (IsNegative_ms (duration t)) then line (SONG_TIME ++ fmt_double (ToDoubleS (duration t))) else [])
  ++ (if has_playlist t then line (lit "Playlist: yes") else [])
  ++ concat ((fun i => line (tag_item_names (ti_type i) ++ lit ": " ++ ti_value i)) <$> items t).

Definition range_save (start_ms end_ms : Z) : bytes :=
  if 0 <? end_ms then line (lit "Range: " ++ print_nat start_ms ++ lit "-" ++ print_nat end_ms)
  else if 0 <? start_ms then line (lit "Range: " ++ print_nat start_ms ++ lit "-")
  else [].

(** The "mtime" and "added" lines. *)
Definition time_save (label : bytes) (p : Z) : bytes :=
  if negb (IsNegative p) then line (label ++ lit ": " ++ print_int (to_time_t p)) else [].

(** What [song_save] writes after its first line. *)
Definition song_save_body (s : Song) : bytes :=
  (if negb (target s =b []) then line (lit "Target: " ++ target s) else [])
  ++ range_save (start_time s) (end_time s)
  ++ tag_save (s_tag s)
  ++ (if AudioFormat_IsDefined (audio_format s) then line (lit "Format: " ++ ToString (audio_format s)) else [])
  ++ (if in_playlist s then line (lit "InPlaylist: yes") else [])
  ++ time_save SONG_MTIME (s_mtime s)
  ++ time_save SONG_ADDED (s_added s)
  ++ line SONG_END.

Definition song_save (s : Song) : bytes := line (SONG_BEGIN ++ filename s) ++ song_save_body s.

(** The overload for [DetachedSong]. *)
Definition song_save_detached (s : DetachedSong) : bytes :=
  line (SONG_BEGIN ++ d_uri s)
  ++ range_save (d_start_time s) (d_end_time s)
  ++ tag_save (d_tag s)
  ++ time_save SONG_MTIME (d_mtime s)
  ++ time_save SONG_ADDED (d_GetAdded s)
  ++ line SONG_END.

End Save.

(** ** song_load *)

(** The local variables of [song_load] and its output parameters. *)
Record song_load_state := mkLoad
  { ld_song : DetachedSong; ld_tag : TagBuilder; ld_target : bytes; ld_in_playlist : bool }.

Definition ld_on_song (f : DetachedSong -> DetachedSong) (st : song_load_state) : song_load_state :=
  mkLoad (f (ld_song st)) (ld_tag st) (ld_target st) (ld_in_playlist st).
Definition ld_on_tag (f : TagBuilder -> TagBuilder) (st : song_load_state) : song_load_state :=
  mkLoad (ld_song st) (f (ld_tag st)) (ld_target st) (ld_in_playlist st).

(** [strtoul] of the "Range" value, and of what follows a dash. *)
Definition parse_range (value : bytes) : Z * Z :=
  let '(start_ms, endptr) := strtoull value in
  (u32 start_ms,
   match endptr with
   | c :: r => if bool_decide (c = "-"%char) then u32 (fst (strtoull r)) else 0
   | [] => 0
   end).

(** The body of the loop. *)
Definition song_load_line (line : bytes) (st : song_load_state) : result song_load_state :=
  match Split line ":" with
  | (_, None) | ([], Some _) => Throw (lit "unknown line in db")
  | (name, Some colon) =>
      let value := StripLeft_c colon in
      match tag_name_parse name with
      | Some type => Ok (ld_on_tag (fun b => AddItemUnchecked b type value) st)
      | None =>
          if name =b lit "Time" then
            Ok (ld_on_tag (fun b => SetDuration b (SignedSongTime_FromS (ParseDouble value))) st)
          else if name =b lit "Target" then
            Ok (mkLoad (ld_song st) (ld_tag st) value (ld_in_playlist st))
          else if name =b lit "Format" then
            match ParseAudioFormat value false with
            | Ok a => Ok (ld_on_song (fun s => d_SetAudioFormat s a) st)
            | Throw _ => Ok st
            end
          else if name =b lit "Playlist" then
            Ok (ld_on_tag (fun b => SetHasPlaylist b (value =b lit "yes")) st)
          else if name =b SONG_MTIME then
            Ok (ld_on_song (fun s => d_SetLastModified s (from_time_t (atoi value))) st)
          else if name =b SONG_ADDED then
            Ok (ld_on_song (fun s => d_SetAdded s (from_time_t (atoi value))) st)
          else if name =b lit "Range" then
            let '(start_ms, end_ms) := parse_range value in
            Ok (ld_on_song (fun s => d_SetEndTime (d_SetStartTime s (SongTime_FromMS start_ms))
                                       (SongTime_FromMS end_ms)) st)
          else if name =b lit "InPlaylist" then
            Ok (mkLoad (ld_song st) (ld_tag st) (ld_target st) (value =b lit "yes"))
          else Throw (lit "unknown line in db")
      end
  end.

(** The loop: up to [song_end] or the end of the file. *)
Fixpoint song_load_loop (file : LineReader) (st : song_load_state) {struct file}
  : result (song_load_state * LineReader) :=
  match file with
  | [] => Ok (st, [])
  | line :: file =>
      if line =b SONG_END then Ok (st, file)
      else
        let* st := song_load_line line st in
        song_load_loop file st
  end.

(** The song, the target, the "in playlist" flag and the rest of the file.
    The last two output parameters start as the caller initialised them. *)
Definition song_load (file : LineReader) (uri : bytes)
  : result (DetachedSong * bytes * bool * LineReader) :=
  let* p := song_load_loop file (mkLoad (DetachedSong_new uri) TagBuilder_new [] false) in
  let '(st, file) := p in
  Ok (d_SetTag (ld_song st) (Commit (ld_tag st)), ld_target st, ld_in_playlist st, file).

(** ** What a saved song is reloaded as *)

(** A time stamp: whole seconds, through the [int] that [atoi] returns. *)
Definition reload_time (p : Z) : Z :=
  if IsNegative p then time_point_min else from_time_t (s32 (to_time_t p)).

(** A duration: seconds as a [double], truncated to milliseconds. *)
Definition reload_duration (d : Z) : Z :=
  if IsNegative_ms d then SignedSongTime_Negative else SignedSongTime_FromS (ToDoubleS d).

Definition reload_item (i : TagItem) : TagItem := mkTagItem (ti_type i) (StripLeft_c (ti_value i)).

Definition reload_tag (t : Tag) : Tag :=
  mkTag (reload_duration (duration t)) (has_playlist t) (reload_item <$> items t).

Definition reload_audio_format (a : AudioFormat) : AudioFormat :=
  if AudioFormat_IsDefined a then
    match ParseAudioFormat (ToString a) false with Ok a' => a' | Throw _ => AudioFormat_Undefined end
  else AudioFormat_Undefined.

Definition reload_detached (s : Song) : DetachedSong :=
  mkDetachedSong (filename s) [] (reload_tag (s_tag s))
    (reload_time (s_mtime s)) (reload_time (s_added s))
    (start_time s) (end_time s) (reload_audio_format (audio_format s)).

(** What the text form relies on of the values of a song: one-line texts,
    machine integers in their range, and fmt's rendering of the song's
    duration, which [strtod] reads back to the same [double]. *)
Record song_ok (fmt_double : double -> bytes) (s : Song) : Prop := {
  ok_filename : plain (filename s);
  ok_target : plain (target s);
  ok_values : Forall (fun i => plain (ti_value i)) (items (s_tag s));
  ok_items : fits (items (s_tag s));
  ok_start : 0 <= start_time s < 2 ^ 32;
  ok_end : 0 <= end_time s < 2 ^ 32;
  ok_mtime : s_mtime s < 2 ^ 63;
  ok_added : s_added s < 2 ^ 63;
  ok_rate : 0 <= sample_rate (audio_format s);
  ok_channels : 0 <= channels (audio_format s);
  ok_duration : IsNegative_ms (duration (s_tag s)) = false ->
    let text := fmt_double (ToDoubleS (duration (s_tag s))) in
    plain text /\ strtod text = ToDoubleS (duration (s_tag s)) /\ StripLeft_c text = text }.

(** ** Lemmas: one line *)

Lemma song_load_loop_line l f st st' : l <> SONG_END -> song_load_line l st = Ok st' ->
  song_load_loop (l :: f) st = song_load_loop f st'.
Proof.
  intros Hne H. cbn [song_load_loop]. rewrite (proj2 (bytes_eqb_neq _ _)) by done.
  by rewrite H.
Qed.

Lemma label_colon (label v : bytes) : ":"%char ∉ label ->
  Split (label ++ lit ": " ++ v) ":" = (label, Some (" "%char :: v)).
Proof. intros H. change (lit ": " ++ v) with (":"%char :: " "%char :: v). by apply Split_app. Qed.

(** A line with a colon is not the end mark. *)
Lemma label_not_end (label v : bytes) : label ++ lit ": " ++ v <> SONG_END.
Proof.
  intros H. assert (":"%char ∉ SONG_END) as Hn by (apply (bool_decide_unpack _); by vm_compute).
  rewrite <- H in Hn. apply Hn. rewrite !elem_of_app. right. left. by left.
Qed.

Lemma plain_label label v : plain label -> plain v -> plain (label ++ lit ": " ++ v).
Proof. intros. repeat apply plain_app; [done|by plain_tac|done]. Qed.

(** One written line: [label: value], read back and passed to the loop. *)
Lemma load_label label v s st st' :
  plain (label ++ lit ": " ++ v) ->
  song_load_line (label ++ lit ": " ++ v) st = Ok st' ->
  song_load_loop (file_lines (line (label ++ lit ": " ++ v) ++ s)) st =
  song_load_loop (file_lines s) st'.
Proof.
  intros Hp H. rewrite file_lines_line by done.
  apply song_load_loop_line; [apply label_not_end|done].
Qed.

Lemma tag_line i st :
  song_load_line (tag_item_names (ti_type i) ++ lit ": " ++ ti_value i) st =
  Ok (ld_on_tag (fun b => AddItemUnchecked b (ti_type i) (StripLeft_c (ti_value i))) st).
Proof.
  unfold song_load_line. rewrite label_colon by (by apply tag_item_names_no_char).
  rewrite tag_name_parse_names. destruct (ti_type i); done.
Qed.

Lemma load_items its s st : Forall (fun i => plain (ti_value i)) its ->
  song_load_loop (file_lines
    (concat ((fun i => line (tag_item_names (ti_type i) ++ lit ": " ++ ti_value i)) <$> its) ++ s)) st =
  song_load_loop (file_lines s)
    (ld_on_tag (fun b => mkTagBuilder (b_duration b) (b_has_playlist b)
                           (b_items b ++ (reload_item <$> its))) st).
Proof.
  revert st. induction its as [|i its IH]; intros st H.
  - destruct st as [d [? ? b] t p]. unfold ld_on_tag. simpl. by rewrite app_nil_r.
  - inversion_clear H as [|? ? Hv Hvs]. cbn [fmap list_fmap concat]. rewrite <- app_assoc.
    erewrite load_label; [|apply plain_app; [apply tag_item_names_plain|by plain_tac]|apply tag_line].
    rewrite IH by done. destruct st as [d [? ? b] t p]. unfold ld_on_tag. simpl. by rewrite <- app_assoc.
Qed.

Lemma plain_print_int z : plain (print_int z).
Proof.
  unfold print_int. destruct (z <? 0) eqn:E; reflect_bools; [|plain_tac].
  change (plain (lit "-" ++ print_nat (- z))). plain_tac.
Qed.

Lemma StripLeft_c_space v : StripLeft_c (" "%char :: v) = StripLeft_c v.
Proof. done. Qed.

Lemma atoi_print n : 0 <= n < 2 ^ 63 -> atoi (print_nat n) = s32 n.
Proof.
  intros H. unfold atoi. pose proof (strtol_print n [] H eq_refl) as E.
  rewrite app_nil_r in E. by rewrite E.
Qed.

Lemma print_nat_StripLeft_c n : 0 <= n -> StripLeft_c (print_nat n) = print_nat n.
Proof. intros H. pose proof (head_digit_StripLeft_c n [] H) as E. by rewrite app_nil_r in E. Qed.

(** The value of a "mtime" or "added" line. *)
Lemma time_value p : 0 <= p < 2 ^ 63 ->
  from_time_t (atoi (StripLeft_c (" "%char :: print_int (to_time_t p)))) = reload_time p.
Proof.
  intros H. pose proof (to_time_t_range p H). rewrite StripLeft_c_space, print_int_nonneg by lia.
  rewrite print_nat_StripLeft_c, atoi_print by lia. unfold reload_time, IsNegative.
  by rewrite (proj2 (Z.ltb_ge _ _)) by lia.
Qed.

(** One lemma per optional line: what loading it does to the state. *)

Lemma load_target t s st : plain t -> ld_target st = [] ->
  song_load_loop (file_lines ((if negb (t =b []) then line (lit "Target: " ++ t) else []) ++ s)) st =
  song_load_loop (file_lines s) (mkLoad (ld_song st) (ld_tag st) (StripLeft_c t) (ld_in_playlist st)).
Proof.
  intros Hp H0. destruct (t =b []) eqn:E; reflect_bools; simpl negb; cbn iota.
  - subst t. destruct st; simpl in *. by subst.
  - change (lit "Target: " ++ t) with (lit "Target" ++ lit ": " ++ t).
    apply load_label; [by plain_tac|done].
Qed.

Lemma parse_range_print a b : 0 <= a < 2 ^ 32 -> 0 <= b < 2 ^ 32 ->
  parse_range (StripLeft_c (" "%char :: print_nat a ++ lit "-" ++ print_nat b)) = (a, b).
Proof.
  intros Ha Hb. rewrite StripLeft_c_space, head_digit_StripLeft_c by lia.
  unfold parse_range. rewrite strtoull_print by (done || lia). cbn [app lit String.list_ascii_of_string].
  rewrite bool_decide_true by done. pose proof (strtoull_print b [] ltac:(lia) eq_refl) as E.
  rewrite app_nil_r in E. by rewrite E, !u32_id.
Qed.

Lemma parse_range_print_open a : 0 <= a < 2 ^ 32 ->
  parse_range (StripLeft_c (" "%char :: print_nat a ++ lit "-")) = (a, 0).
Proof.
  intros Ha. rewrite StripLeft_c_space, head_digit_StripLeft_c by lia.
  unfold parse_range. rewrite strtoull_print by (done || lia). cbn [app lit String.list_ascii_of_string].
  rewrite bool_decide_true by done. by rewrite u32_id.
Qed.

Lemma load_range a b s st : 0 <= a < 2 ^ 32 -> 0 <= b < 2 ^ 32 ->
  d_start_time (ld_song st) = 0 -> d_end_time (ld_song st) = 0 ->
  song_load_loop (file_lines (range_save a b ++ s)) st =
  song_load_loop (file_lines s)
    (ld_on_song (fun d => d_SetEndTime (d_SetStartTime d a) b) st).
Proof.
  intros Ha Hb H1 H2. unfold range_save.
  destruct (0 <? b) eqn:Eb; [|destruct (0 <? a) eqn:Ea]; reflect_bools.
  - change (lit "Range: " ++ ?t) with (lit "Range" ++ lit ": " ++ t).
    apply load_label; [by plain_tac|]. unfold song_load_line.
    rewrite label_colon by (apply (bool_decide_unpack _); by vm_compute).
    pose proof (parse_range_print a b Ha Hb) as E. cbn -[StripLeft_c parse_range print_nat].
    cbn -[StripLeft_c parse_range print_nat] in E. rewrite E.
    unfold SongTime_FromMS. by rewrite !u32_id.
  - change (lit "Range: " ++ ?t) with (lit "Range" ++ lit ": " ++ t).
    assert (b = 0) as -> by lia.
    apply load_label; [by plain_tac|]. unfold song_load_line.
    rewrite label_colon by (apply (bool_decide_unpack _); by vm_compute).
    pose proof (parse_range_print_open a Ha) as E. cbn -[StripLeft_c parse_range print_nat].
    cbn -[StripLeft_c parse_range print_nat] in E. rewrite E.
    unfold SongTime_FromMS. by rewrite !u32_id.
  - assert (a = 0 /\ b = 0) as [-> ->] by lia. destruct st as [[] ? ? ?]. simpl in *. by subst.
Qed.

Lemma load_yes (label : bytes) (b : bool) s st st' :
  plain label -> song_load_line (label ++ lit ": " ++ lit "yes") st = Ok st' ->
  song_load_loop (file_lines ((if b then line (label ++ lit ": " ++ lit "yes") else []) ++ s)) st =
  song_load_loop (file_lines s) (if b then st' else st).
Proof. intros Hp H. destruct b; [|done]. apply load_label; [by plain_tac|done]. Qed.

Lemma load_duration fmt_double d s st :
  (IsNegative_ms d = false -> let text := fmt_double (ToDoubleS d) in
    plain text /\ strtod text = ToDoubleS d /\ StripLeft_c text = text) ->
  b_duration (ld_tag st) = SignedSongTime_Negative ->
  song_load_loop (file_lines ((if negb (IsNegative_ms d)
    then line (SONG_TIME ++ fmt_double (ToDoubleS d)) else []) ++ s)) st =
  song_load_loop (file_lines s) (ld_on_tag (fun b => SetDuration b (reload_duration d)) st).
Proof.
  intros H H0. unfold reload_duration. destruct (IsNegative_ms d); simpl negb; cbn iota.
  - destruct st as [? [] ? ?]. simpl in *. by subst.
  - destruct (H eq_refl) as (Hp & Hd & Hs).
    change (SONG_TIME ++ fmt_double (ToDoubleS d)) with (lit "Time" ++ lit ": " ++ fmt_double (ToDoubleS d)).
    apply load_label; [by plain_tac|]. unfold song_load_line.
    rewrite label_colon by (apply (bool_decide_unpack _); by vm_compute).
    rewrite StripLeft_c_space, Hs. unfold ParseDouble. by rewrite Hd.
Qed.

Lemma load_tag fmt_double t s st :
  (IsNegative_ms (duration t) = false -> let text := fmt_double (ToDoubleS (duration t)) in
    plain text /\ strtod text = ToDoubleS (duration t) /\ StripLeft_c text = text) ->
  Forall (fun i => plain (ti_value i)) (items t) -> ld_tag st = TagBuilder_new ->
  song_load_loop (file_lines (tag_save fmt_double t ++ s)) st =
  song_load_loop (file_lines s)
    (ld_on_tag (fun _ => TagBuilder_of (reload_tag t)) st).
Proof.
  intros Hd Hv H0. unfold tag_save. rewrite <- !app_assoc, load_duration by (rewrite ?H0; done).
  erewrite (load_yes (lit "Playlist")); [|by plain_tac|done].
  rewrite load_items by done. f_equal.
  destruct st as [d b t' p]. simpl in H0. subst b. by destruct t as [? [] ?].
Qed.

Lemma load_time (label : bytes) (set : DetachedSong -> Z -> DetachedSong) p s st :
  plain label -> ":"%char ∉ label -> p < 2 ^ 63 ->
  (forall v, song_load_line (label ++ lit ": " ++ v) st =
     Ok (ld_on_song (fun d => set d (from_time_t (atoi (StripLeft_c (" "%char :: v))))) st)) ->
  set (ld_song st) time_point_min = ld_song st ->
  song_load_loop (file_lines (time_save label p ++ s)) st =
  song_load_loop (file_lines s) (ld_on_song (fun d => set d (reload_time p)) st).
Proof.
  intros Hpl Hc Hp Hline H0. unfold time_save, IsNegative. destruct (p <? 0) eqn:E; reflect_bools; simpl negb; cbn iota.
  - unfold reload_time, IsNegative. rewrite (proj2 (Z.ltb_lt _ _)) by done.
    unfold ld_on_song. rewrite H0. by destruct st.
  - rewrite <- (time_value p) by lia.
    apply load_label; [|apply Hline]. apply plain_label; [done|apply plain_print_int].
Qed.

Lemma load_format a s st : 0 <= sample_rate a -> 0 <= channels a ->
  d_audio_format (ld_song st) = AudioFormat_Undefined ->
  song_load_loop (file_lines ((if AudioFormat_IsDefined a
    then line (lit "Format: " ++ ToString a) else []) ++ s)) st =
  song_load_loop (file_lines s)
    (ld_on_song (fun d => d_SetAudioFormat d (reload_audio_format a)) st).
Proof.
  intros Hr Hc H0. unfold reload_audio_format. destruct (AudioFormat_IsDefined a).
  - pose proof (ToString_visible a Hr Hc) as Hv.
    change (lit "Format: " ++ ToString a) with (lit "Format" ++ lit ": " ++ ToString a).
    apply load_label; [apply plain_label; [by plain_tac|by apply visible_plain]|]. unfold song_load_line.
    rewrite label_colon by (apply (bool_decide_unpack _); by vm_compute).
    rewrite StripLeft_c_space, visible_StripLeft_c by done. cbn -[ParseAudioFormat ToString].
    destruct (ParseAudioFormat (ToString a) false); [done|].
    unfold ld_on_song. destruct st as [[] ? ? ?]. simpl in *. by subst.
  - destruct st as [[] ? ? ?]. simpl in *. by subst.
Qed.

Lemma Commit_reload t : fits (items t) -> Commit (TagBuilder_of (reload_tag t)) = reload_tag t.
Proof.
  intros H. pose proof (Commit_items (TagBuilder_of (reload_tag t))) as Hc.
  unfold Commit in *. simpl in *. rewrite Hc; [done|]. unfold fits in *. by rewrite length_fmap.
Qed.

(** Saving and loading, whatever follows the song in the file. *)
Lemma song_load_body fmt_double s rest : song_ok fmt_double s ->
  song_load (file_lines (song_save_body fmt_double s ++ rest)) (filename s) =
  Ok (reload_detached s, StripLeft_c (target s), in_playlist s, file_lines rest).
Proof.
  intros [Hfn Htg Hvals Hitems Hst Hen Hmt Had Hrate Hch Hdur].
  unfold song_load, song_save_body. rewrite <- !app_assoc.
  rewrite load_target, load_range by done. rewrite load_tag by done.
  rewrite load_format by done.
  erewrite (load_yes (lit "InPlaylist")); [|by plain_tac|done].
  rewrite (load_time SONG_MTIME d_SetLastModified);
    [|by plain_tac|by (apply (bool_decide_unpack _); vm_compute)|done|done|by destruct (in_playlist s)].
  rewrite (load_time SONG_ADDED d_SetAdded);
    [|by plain_tac|by (apply (bool_decide_unpack _); vm_compute)|done|done|by destruct (in_playlist s)].
  rewrite file_lines_line by plain_tac. cbn [song_load_loop]. rewrite bytes_eqb_refl. cbn [rbind].
  pose proof (Commit_reload (s_tag s) Hitems) as Htag.
  destruct (in_playlist s);
    cbn -[Commit TagBuilder_of reload_tag reload_time reload_audio_format StripLeft_c file_lines];
    by rewrite Htag.
Qed.

Lemma song_begin_line fmt_double s rest : plain (filename s) ->
  file_lines (song_save fmt_double s ++ rest) =
  (SONG_BEGIN ++ filename s) :: file_lines (song_save_body fmt_double s ++ rest).
Proof.
  intros H. unfold song_save. rewrite <- app_assoc. apply file_lines_line. by plain_tac.
Qed.

(** A song none of whose values the text form alters. *)
Record song_exact (s : Song) : Prop := {
  ex_target : StripLeft_c (target s) = target s;
  ex_values : Forall (fun i => StripLeft_c (ti_value i) = ti_value i) (items (s_tag s));
  ex_duration : reload_duration (duration (s_tag s)) = duration (s_tag s);
  ex_mtime : s_mtime s = time_point_min \/
    0 <= s_mtime s < 2 ^ 31 * NS /\ whole_seconds (s_mtime s) = s_mtime s;
  ex_added : 0 <= s_added s < 2 ^ 31 * NS /\ whole_seconds (s_added s) = s_added s;
  ex_format : audio_format s = AudioFormat_Undefined \/
    ParseAudioFormat (ToString (audio_format s)) false = Ok (audio_format s) }.

Lemma reload_time_exact p : 0 <= p < 2 ^ 31 * NS -> whole_seconds p = p -> reload_time p = p.
Proof.
  unfold NS. intros H Hw. unfold reload_time, IsNegative. rewrite (proj2 (Z.ltb_ge _ _)) by lia.
  rewrite s32_id; [rewrite from_to_time_t by lia; done|].
  rewrite to_time_t_nonneg by lia. unfold NS.
  pose proof (Z.div_pos p 1000000000). pose proof (Z.div_lt_upper_bound p 1000000000 2147483648). lia.
Qed.

Lemma reload_items_exact its : Forall (fun i => StripLeft_c (ti_value i) = ti_value i) its ->
  reload_item <$> its = its.
Proof.
  induction 1 as [|i its Hi _ IH]; [done|]. rewrite fmap_cons, IH. f_equal.
  unfold reload_item. rewrite Hi. by destruct i.
Qed.

Lemma reload_audio_format_exact a :
  a = AudioFormat_Undefined \/ ParseAudioFormat (ToString a) false = Ok a ->
  reload_audio_format a = a.
Proof.
  unfold reload_audio_format. intros [->|H]; [done|]. rewrite H.
  destruct (AudioFormat_IsDefined a) eqn:E; [done|].
  destruct a as [r f c]. unfold AudioFormat_IsDefined in E. simpl in E.
  apply negb_false_iff, Z.eqb_eq in E. subst r. exfalso.
  unfold ToString in H. cbn [format sample_rate channels] in H.
  rewrite andb_false_r in H. simpl andb in H. cbn iota in H.
  destruct f; vm_compute in H; destruct (0 <? c); vm_compute in H; discriminate.
Qed.

(** The lines [song_load] understands. *)
Definition known_line (l : bytes) : bool :=
  match Split l ":" with
  | (_, None) | ([], Some _) => false
  | (name, Some _) =>
      match tag_name_parse name with
      | Some _ => true
      | None => existsb (bytes_eqb name)
          [lit "Time"; lit "Target"; lit "Format"; lit "Playlist"; SONG_MTIME; SONG_ADDED;
           lit "Range"; lit "InPlaylist"]
      end
  end.

Lemma song_load_line_known l st :
  if known_line l then exists st', song_load_line l st = Ok st'
  else song_load_line l st = Throw (lit "unknown line in db").
Proof.
  unfold known_line, song_load_line. destruct (Split l ":") as [[|c name] [v|]]; try done.
  destruct (tag_name_parse (c :: name)); [by eexists|].
  cbn [existsb]. repeat (destruct (c :: name =b _); cbn [orb]; cbn iota;
    [first [by eexists | (case_match; by eexists)]|]). done.
Qed.

(** The lines up to the end mark. *)
Fixpoint song_lines (file : LineReader) : list bytes :=
  match file with
  | [] => []
  | l :: file => if l =b SONG_END then [] else l :: song_lines file
  end.

Lemma song_load_loop_known file st :
  if forallb known_line (song_lines file) then exists r, song_load_loop file st = Ok r
  else song_load_loop file st = Throw (lit "unknown line in db").
Proof.
  revert st. induction file as [|l file IH]; intros st; simpl; [by eexists|].
  destruct (l =b SONG_END); simpl; [by eexists|].
  pose proof (song_load_line_known l st) as H. destruct (known_line l); simpl; [|by rewrite H].
  destruct H as [st' ->]. simpl. apply IH.
Qed.

(** ** Properties *)

(** Saving a song and loading what was written gives the song back, up
    to the precision of the text form ([reload_detached]: whole seconds
    within an [int], durations through a [double], no leading blanks), and
    consumes exactly the song's lines, whatever follows them in the file. *)
Theorem song_save_load (fmt_double : double -> bytes) (s : Song) (rest : bytes)
  (Hok : song_ok fmt_double s) :
  exists file,
    file_lines (song_save fmt_double s ++ rest) = (SONG_BEGIN ++ filename s) :: file /\
    song_load file (filename s) =
      Ok (reload_detached s, StripLeft_c (target s), in_playlist s, file_lines rest).
Proof.
  eexists. split; [apply song_begin_line, Hok|]. by apply song_load_body.
Qed.

(** For a song whose time stamps are whole seconds before 2038, whose
    duration survives the trip through [double], whose format is
    expressible and whose values have no leading blanks, the reloaded
    song equals the saved one in every persistent field. *)
Theorem song_save_load_exact (fmt_double : double -> bytes) (s : Song) (rest : bytes)
  (Hok : song_ok fmt_double s) (Hex : song_exact s) :
  exists d t i,
    song_load (file_lines (song_save_body fmt_double s ++ rest)) (filename s) =
      Ok (d, t, i, file_lines rest) /\
    Song_with_in_playlist (Song_with_target (Song_of_detached d) t) i = Song_with_mark s false.
Proof.
  do 3 eexists. split; [by apply song_load_body|].
  destruct Hex as [Ht Hv Hd Hm [Ha Haw] Hf].
  unfold Song_of_detached, d_GetAdded, reload_detached. cbn [d_uri d_tag d_mtime d_added
    d_start_time d_end_time d_audio_format].
  rewrite (reload_time_exact (s_added s)), (reload_audio_format_exact (audio_format s)) by done.
  unfold reload_tag. rewrite Hd, reload_items_exact by done.
  assert (reload_time (s_mtime s) = s_mtime s) as ->
    by (destruct Hm as [->|[? ?]]; [done|by apply reload_time_exact]).
  unfold IsNegative. rewrite (proj2 (Z.ltb_ge _ _)) by lia.
  destruct s as [? ? [? ? ?] ? ? ? ? ? ? ?]. cbn in *. by rewrite Ht.
Qed.

(** A CUE track in a FLAC image, and a rendering of its duration. *)
Definition sample_song : Song :=
  mkSong (lit "track0001.flac") (lit "../a.flac")
    (mkTag 180500 false [mkTagItem TAG_TITLE (lit "A: B"); mkTagItem TAG_ARTIST (lit "C")])
    (1700000000 * NS) (1700000001 * NS) 0 180500 (mkAudioFormat 44100 S16 2) true true.
Definition sample_fmt (_ : double) : bytes := lit "180.5".

Lemma song_save_load_witness :
  exists file,
    file_lines (song_save sample_fmt sample_song ++ lit "song_begin: x") =
      (SONG_BEGIN ++ filename sample_song) :: file /\
    song_load file (filename sample_song) =
      Ok (reload_detached sample_song, StripLeft_c (target sample_song), true, [lit "song_begin: x"]).
Proof.
  apply (song_save_load sample_fmt sample_song (lit "song_begin: x")).
  split; try (apply (bool_decide_unpack _); vm_compute; exact I); try (vm_compute; done).
  intros _. split; [apply (bool_decide_unpack _); vm_compute; exact I|]. vm_compute. done.
Defined.

Lemma song_save_load_exact_witness :
  exists d t i,
    song_load (file_lines (song_save_body sample_fmt sample_song ++ [])) (filename sample_song) =
      Ok (d, t, i, []) /\
    Song_with_in_playlist (Song_with_target (Song_of_detached d) t) i =
      Song_with_mark sample_song false.
Proof.
  apply (song_save_load_exact sample_fmt sample_song []).
  - split; try (apply (bool_decide_unpack _); vm_compute; exact I); try (vm_compute; done).
    intros _. split; [apply (bool_decide_unpack _); vm_compute; exact I|]. vm_compute. done.
  - split; try (vm_compute; done); try (by repeat constructor).
Defined.

(** [song_load] accepts a file exactly if every line before the end
    mark (or the end of the file) has a known label; otherwise it throws
    "unknown line in db". *)
Theorem song_load_accepts (file : list bytes) (uri : bytes) :
  if forallb known_line (song_lines file) then exists r, song_load file uri = Ok r
  else song_load file uri = Throw (lit "unknown line in db").
Proof.
  unfold song_load.
  pose proof (song_load_loop_known file (mkLoad (DetachedSong_new uri) TagBuilder_new [] false)) as H.
  destruct (forallb known_line (song_lines file)); [|by rewrite H].
  destruct H as [[st f] ->]. by eexists.
Qed.
