(* ===== verification/SortList.v ===== *)
(** [src/util/SortList.hxx]: the stable bottom-up merge sort the directory
    tree is sorted with.  An intrusive list is a [list]; splicing moves
    elements between lists.  [array] is a [StaticVector] of 64 lists. *)
From S2P Require Import Prelude.
From Stdlib Require Import Sorted Permutation.
Open Scope Z_scope.

Section Sort.
Context {A : Type} (p : A -> A -> bool).

(** [std::find_if] / the [src_until] loop: the elements before the first
    that satisfies (does not satisfy) the condition, and the rest. *)
Fixpoint span (f : A -> bool) (l : list A) : list A * list A :=
  match l with
  | [] => ([], [])
  | x :: l' => if f x then let '(a, b) := span f l' in (x :: a, b) else ([], l)
  end.

(** [dest] is [before ++ at], where [at] starts at the iterator [dest_at].
    [None]: out of fuel. *)
Fixpoint MergeList_aux (fuel : nat) (before at_ src : list A) : option (list A) :=
  match src with
  | [] => Some (before ++ at_)
  | front :: src' =>
      match fuel with
      | O => None
      | S fuel =>
          let '(smaller, at_) := span (fun i => negb (p front i)) at_ in
          match at_ with
          | [] => Some (before ++ smaller ++ src)
          | dest_anchor :: _ =>
              let '(range, src) := span (fun x => p x dest_anchor) src' in
              MergeList_aux fuel (before ++ smaller ++ front :: range) at_ src
          end
      end
  end.

(** The new [dest]; [src] is empty afterwards. *)
Definition MergeList (dest src : list A) : list A :=
  default [] (MergeList_aux (length src) [] dest src).

(** The inner loop of [SortList] and the assignment after it: [carry]
    moves to the first empty slot, merging with the full ones before it. *)
Fixpoint carry_in (carry : list A) (array : list (list A)) : list (list A) :=
  match array with
  | [] => [carry]
  | [] :: array => carry :: array
  | c :: array => [] :: carry_in (MergeList c carry) array
  end.

(** The outer loop. *)
Fixpoint SortList_loop (l : list A) (array : list (list A)) : list (list A) :=
  match l with
  | [] => array
  | x :: l => SortList_loop l (carry_in [x] array)
  end.

(** The last loop: [array[i-1]] is merged into [array[i]]. *)
Fixpoint merge_up (prev : list A) (array : list (list A)) : list A :=
  match array with
  | [] => prev
  | c :: array => merge_up (MergeList c prev) array
  end.

Definition SortList (l : list A) : list A :=
  match l with
  | [] => []
  | _ =>
      match SortList_loop l [] with
      | [] => []
      | c :: array => merge_up c array
      end
  end.

(** *** The reference: the textbook stable merge *)

Fixpoint merge (dest : list A) : list A -> list A :=
  fix merge_src (src : list A) : list A :=
    match dest, src with
    | [], _ => src
    | _, [] => dest
    | d :: dest', s :: src' =>
        if p s d then s :: merge_src src' else d :: merge dest' src
    end.

Lemma merge_nil_r d : merge d [] = d.
Proof. by destruct d. Qed.

Lemma merge_nil_l src : merge [] src = src.
Proof. by destruct src. Qed.

Lemma merge_cons d dest s src :
  merge (d :: dest) (s :: src) = if p s d then s :: merge (d :: dest) src else d :: merge dest (s :: src).
Proof. done. Qed.

(** Everything not larger than the front of [src] comes first... *)
Lemma merge_span_dest s src dest :
  merge dest (s :: src) =
  let '(a, b) := span (fun i => negb (p s i)) dest in a ++ merge b (s :: src).
Proof.
  induction dest as [|d dest IH]; [done|]. rewrite merge_cons. cbn [span].
  destruct (p s d) eqn:E; simpl negb; cbn iota.
  - by rewrite app_nil_l, merge_cons, E.
  - rewrite IH. by destruct (span _ dest).
Qed.

(** ... and then everything in [src] that belongs before the anchor. *)
Lemma merge_span_src d dest src :
  merge (d :: dest) src =
  let '(a, b) := span (fun x => p x d) src in a ++ merge (d :: dest) b.
Proof.
  induction src as [|s src IH]; [done|]. rewrite merge_cons. cbn [span].
  destruct (p s d) eqn:E; cbn iota.
  - rewrite IH. by destruct (span _ src).
  - by rewrite app_nil_l, merge_cons, E.
Qed.

Lemma span_app f l : let '(a, b) := span f l in a ++ b = l.
Proof.
  induction l as [|x l IH]; simpl; [done|]. destruct (f x); [|done].
  destruct (span f l). simpl. by rewrite IH.
Qed.

Lemma span_stop f l : match snd (span f l) with [] => True | x :: _ => f x = false end.
Proof.
  induction l as [|x l IH]; simpl; [done|]. destruct (f x) eqn:E; [|done].
  by destruct (span f l).
Qed.

Lemma MergeList_aux_merge fuel before dest src : (length src <= fuel)%nat ->
  MergeList_aux fuel before dest src = Some (before ++ merge dest src).
Proof.
  revert before dest src. induction fuel as [|fuel IH]; intros before dest [|s src] Hf;
    cbn [MergeList_aux]; try (by rewrite merge_nil_r); simpl in Hf; [lia|].
  rewrite merge_span_dest. pose proof (span_stop (fun i => negb (p s i)) dest) as Hstop.
  destruct (span (fun i => negb (p s i)) dest) as [a [|anchor at_]] eqn:E; [done|].
  simpl in Hstop. apply negb_false_iff in Hstop. rewrite merge_cons, Hstop, merge_span_src.
  pose proof (span_app (fun x => p x anchor) src) as Hsrc.
  destruct (span (fun x => p x anchor) src) as [range rest].
  rewrite IH by (rewrite <- Hsrc, length_app in Hf; lia).
  by rewrite <- !app_assoc.
Qed.

(** The splicing loop computes the textbook merge, for any predicate. *)
Lemma MergeList_merge dest src : MergeList dest src = merge dest src.
Proof. unfold MergeList. by rewrite MergeList_aux_merge by done. Qed.

Lemma merge_perm dest src : merge dest src ≡ₚ dest ++ src.
Proof.
  revert src. induction dest as [|d dest IHd]; intros src; [by rewrite merge_nil_l|].
  induction src as [|s src IHs]; [by rewrite merge_nil_r, app_nil_r|].
  rewrite merge_cons. destruct (p s d); [|exact (perm_skip d (IHd (s :: src)))].
  rewrite (perm_skip s IHs). apply Permutation_middle.
Qed.

Lemma merge_length dest src : length (merge dest src) = (length dest + length src)%nat.
Proof. rewrite (Permutation_length (merge_perm dest src)). apply length_app. Qed.

(** *** The binary counter of full slots *)

(** Slot [i] is empty or holds [2^i] elements. *)
Definition slot_ok (i : nat) (c : list A) : Prop := c = [] \/ length c = (2 ^ i)%nat.

Fixpoint slots_ok (i : nat) (array : list (list A)) : Prop :=
  match array with
  | [] => True
  | c :: array => slot_ok i c /\ slots_ok (S i) array
  end.

(** The last slot is never empty. *)
Definition top_full (array : list (list A)) : Prop := List.last array [] <> [] \/ array = [].

Lemma carry_in_ok i carry array : length carry = (2 ^ i)%nat -> slots_ok i array ->
  slots_ok i (carry_in carry array).
Proof.
  revert i carry. induction array as [|c array IH]; intros i carry Hc; [by split; [right|]|].
  intros [Hs Ho]. destruct c as [|x c]; cbn [carry_in].
  - split; [by right|done].
  - split; [by left|]. apply IH; [|done]. rewrite MergeList_merge, merge_length, Hc.
    destruct Hs as [Hs|Hs]; [done|]. rewrite Hs. simpl. lia.
Qed.

Lemma carry_in_concat carry array :
  concat (reverse (carry_in carry array)) ≡ₚ concat (reverse array) ++ carry.
Proof.
  revert carry. induction array as [|c array IH]; intros carry; [simpl; by rewrite app_nil_r|].
  destruct c as [|x c]; cbn [carry_in]; rewrite !reverse_cons, !concat_app; simpl;
    rewrite ?app_nil_r; [done|].
  rewrite IH, MergeList_merge, merge_perm. by rewrite <- app_assoc.
Qed.

Lemma carry_in_top carry array : carry <> [] -> top_full array -> top_full (carry_in carry array).
Proof.
  intros Hc Ht. left. revert carry Hc. induction array as [|c array IH]; intros carry Hc; [done|].
  assert (top_full array) as Ht'.
  { destruct Ht as [Ht|]; [|done]. destruct array; [by right|by left]. }
  destruct c as [|x c]; cbn [carry_in].
  - destruct array; [done|]. by destruct Ht.
  - specialize (IH Ht' (MergeList (x :: c) carry)).
    assert (MergeList (x :: c) carry <> []) as Hm.
    { rewrite MergeList_merge. intros E%(f_equal length). by rewrite merge_length in E. }
    specialize (IH Hm). by destruct (carry_in (MergeList (x :: c) carry) array).
Qed.

Lemma SortList_loop_ok l array : slots_ok 0 array -> slots_ok 0 (SortList_loop l array).
Proof. revert array. induction l; intros; simpl; [done|]. apply IHl. by apply carry_in_ok. Qed.

Lemma SortList_loop_top l array : top_full array -> top_full (SortList_loop l array).
Proof. revert array. induction l; intros; simpl; [done|]. apply IHl. by apply carry_in_top. Qed.

Lemma SortList_loop_concat l array :
  concat (reverse (SortList_loop l array)) ≡ₚ concat (reverse array) ++ l.
Proof.
  revert array. induction l as [|x l IH]; intros array; simpl; [by rewrite app_nil_r|].
  rewrite IH, carry_in_concat. by rewrite <- app_assoc.
Qed.

Lemma slots_ok_last i array : slots_ok i array -> array <> [] ->
  slot_ok (i + (length array - 1)) (List.last array []).
Proof.
  revert i. induction array as [|c array IH]; intros i H Hne; [done|]; destruct H as [Hc Ho].
  destruct array as [|c' array]; [simpl; by rewrite Nat.add_0_r|].
  specialize (IH (S i) Ho ltac:(done)). simpl length in *.
  replace (i + (S (S (length array)) - 1))%nat with (S i + (S (length array) - 1))%nat by lia.
  done.
Qed.

Lemma last_concat_length (array : list (list A)) :
  (length (List.last array []) <= length (concat (reverse array)))%nat.
Proof.
  destruct array as [|c array] using rev_ind; [done|].
  rewrite List.last_last, reverse_app. simpl. rewrite length_app. lia.
Qed.

Lemma merge_up_perm prev array : merge_up prev array ≡ₚ concat (reverse array) ++ prev.
Proof.
  revert prev. induction array as [|c array IH]; intros prev; [done|]. simpl.
  rewrite IH, MergeList_merge, merge_perm, reverse_cons, concat_app. simpl.
  by rewrite app_nil_r, <- app_assoc.
Qed.

Lemma SortList_perm_aux l : SortList l ≡ₚ l.
Proof.
  unfold SortList. destruct l as [|x l]; [done|].
  pose proof (SortList_loop_concat (x :: l) []) as H.
  destruct (SortList_loop (x :: l) []) as [|c array].
  - apply (Permutation_nil_cons) in H as [].
  - rewrite merge_up_perm. rewrite reverse_cons, concat_app in H. simpl in H.
    by rewrite app_nil_r in H.
Qed.

(** *** Order and stability, for a strict weak order on the elements that
    satisfy [ok] *)

Class StrictWeakOn (ok : A -> Prop) : Prop := {
  sw_asym x y : ok x -> ok y -> p x y = true -> p y x = false;
  sw_neg x y z : ok x -> ok y -> ok z -> p x z = true -> p x y = true \/ p y z = true }.

Definition not_after (x y : A) : Prop := p y x = false.
Definition sorted (l : list A) : Prop := StronglySorted not_after l.

(** A set of mutually equivalent elements. *)
Definition equal_class (f : A -> bool) : Prop :=
  forall x y, f x = true -> f y = true -> p x y = false.

Section Ordered.
Context (ok : A -> Prop) {H : StrictWeakOn ok}.

Lemma not_after_trans x y z : ok x -> ok y -> ok z ->
  not_after x y -> not_after y z -> not_after x z.
Proof.
  unfold not_after. intros Hx Hy Hz H1 H2. destruct (p z x) eqn:E; [|done].
  destruct (sw_neg z y x) as [H3|H3]; congruence.
Qed.

Lemma merge_sorted dest src : Forall ok dest -> Forall ok src ->
  sorted dest -> sorted src -> sorted (merge dest src).
Proof.
  revert src. induction dest as [|d dest IHd]; intros src; [by rewrite merge_nil_l|].
  induction src as [|s src IHs]; intros Hd Hs Sd Ss; [by rewrite merge_nil_r|]. rewrite merge_cons.
  pose proof Hd as [Hd0 Hd1]%Forall_cons. pose proof Hs as [Hs0 Hs1]%Forall_cons.
  pose proof Sd as [Sd0 Sd1]%StronglySorted_inv. pose proof Ss as [Ss0 Ss1]%StronglySorted_inv.
  destruct (p s d) eqn:E.
  - constructor; [by apply IHs|]. rewrite merge_perm. apply Forall_app. split; [|done].
    assert (not_after s d) by (by apply sw_asym). constructor; [done|].
    eapply Forall_impl; [apply Forall_and; split; [exact Hd1|exact Sd1]|].
    intros x [Hx Hdx]. by apply (not_after_trans s d x).
  - constructor; [by apply IHd|]. rewrite merge_perm. apply Forall_app. split; [done|].
    constructor; [done|].
    eapply Forall_impl; [apply Forall_and; split; [exact Hs1|exact Ss1]|].
    intros x [Hx Hsx]. by apply (not_after_trans d s x).
Qed.

Lemma filter_smaller f s l : equal_class f -> ok s -> f s = true ->
  Forall ok l -> Forall (fun y => p s y = true) l -> List.filter f l = [].
Proof.
  intros Hf Hs Hfs Hl Hsm. induction l as [|y l IH]; [done|].
  apply Forall_cons in Hl as [? ?]. apply Forall_cons in Hsm as [Hy ?]. simpl.
  destruct (f y) eqn:E; [|by apply IH]. rewrite (Hf s y) in Hy; done.
Qed.

Lemma merge_filter f dest src : equal_class f -> Forall ok dest -> Forall ok src ->
  sorted dest -> sorted src ->
  List.filter f (merge dest src) = List.filter f dest ++ List.filter f src.
Proof.
  intros Hf. revert src. induction dest as [|d dest IHd]; intros src; [by rewrite merge_nil_l|].
  induction src as [|s src IHs]; intros Hd Hs Sd Ss; [by rewrite merge_nil_r, app_nil_r|].
  rewrite merge_cons. pose proof Hd as [Hd0 Hd1]%Forall_cons. pose proof Hs as [Hs0 Hs1]%Forall_cons.
  pose proof Sd as [Sd0 Sd1]%StronglySorted_inv. pose proof Ss as [Ss0 Ss1]%StronglySorted_inv.
  destruct (p s d) eqn:E.
  - cbn [List.filter]. rewrite IHs by done. destruct (f s) eqn:Efs; [|done].
    enough (List.filter f (d :: dest) = []) as Hnil
      by (rewrite Hnil; cbn [List.filter] in Hnil; by rewrite Hnil).
    apply (filter_smaller f s); try done. constructor; [done|].
    eapply Forall_impl; [apply Forall_and; split; [exact Hd1|exact Sd1]|].
    intros y [Hy Hdy]. destruct (sw_neg s y d) as [|Hc]; try done.
    unfold not_after in Hdy. congruence.
  - cbn [List.filter]. rewrite IHd by done. cbn [List.filter]. by destruct (f d).
Qed.

(** What the slots hold, taken from the last to the first, is the input so
    far, each slot sorted. *)
Definition array_ok (array : list (list A)) : Prop :=
  Forall (fun c => Forall ok c /\ sorted c) array.

Definition array_filter (f : A -> bool) (array : list (list A)) : list A :=
  concat (reverse (List.filter f <$> array)).

Lemma array_filter_cons f c array :
  array_filter f (c :: array) = array_filter f array ++ List.filter f c.
Proof.
  unfold array_filter. rewrite fmap_cons, reverse_cons, concat_app. simpl. by rewrite app_nil_r.
Qed.

Lemma carry_in_sorted carry array : Forall ok carry -> sorted carry -> array_ok array ->
  array_ok (carry_in carry array) /\
  forall f, equal_class f ->
    array_filter f (carry_in carry array) = array_filter f array ++ List.filter f carry.
Proof.
  revert carry. induction array as [|c array IH]; intros carry Hok Hs Ha.
  { split; [by repeat constructor|]. intros f Hf. unfold array_filter. simpl. by rewrite app_nil_r. }
  apply Forall_cons in Ha as [[Hc Sc] Ha]. destruct c as [|x c]; cbn [carry_in].
  - split; [by constructor|]. intros f Hf. rewrite !array_filter_cons. simpl. by rewrite app_nil_r.
  - rewrite MergeList_merge. destruct (IH (merge (x :: c) carry)) as [IHa IHf]; try done.
    { rewrite merge_perm. by apply Forall_app. }
    { by apply merge_sorted. }
    split; [constructor; [by split; constructor|done]|]. intros f Hf. rewrite !array_filter_cons.
    rewrite IHf, merge_filter by done. simpl. by rewrite app_nil_r, <- app_assoc.
Qed.

Lemma SortList_loop_sorted l array : Forall ok l -> array_ok array ->
  array_ok (SortList_loop l array) /\
  forall f, equal_class f -> array_filter f (SortList_loop l array) = array_filter f array ++ List.filter f l.
Proof.
  revert array. induction l as [|x l IH]; intros array Hl Ha.
  { split; [done|]. intros. simpl. by rewrite app_nil_r. }
  apply Forall_cons in Hl as [Hx Hl]. simpl.
  destruct (carry_in_sorted [x] array) as [Ha' Hf'];
    [by apply Forall_singleton|by repeat constructor|done|].
  destruct (IH (carry_in [x] array) Hl Ha') as [IHa IHf].
  split; [done|]. intros f Hf. rewrite IHf, Hf' by done. simpl. rewrite <- app_assoc.
  by destruct (f x).
Qed.

Lemma merge_up_sorted prev array : Forall ok prev -> sorted prev -> array_ok array ->
  sorted (merge_up prev array) /\
  forall f, equal_class f -> List.filter f (merge_up prev array) = array_filter f array ++ List.filter f prev.
Proof.
  revert prev. induction array as [|c array IH]; intros prev Hok Hs Ha; [done|].
  apply Forall_cons in Ha as [[Hc Sc] Ha]. cbn [merge_up]. rewrite MergeList_merge.
  destruct (IH (merge c prev)) as [IHs IHf]; [|by apply merge_sorted|done|].
  { rewrite merge_perm. by apply Forall_app. }
  split; [done|]. intros f Hf. rewrite IHf, merge_filter, array_filter_cons by done.
  by rewrite <- app_assoc.
Qed.

Lemma SortList_sorted_aux l : Forall ok l ->
  sorted (SortList l) /\
  forall f, equal_class f -> List.filter f (SortList l) = List.filter f l.
Proof.
  intros Hl. unfold SortList. destruct l as [|x l]; [by repeat constructor|].
  destruct (SortList_loop_sorted (x :: l) [] Hl) as [Ha Hf]; [by constructor|].
  destruct (SortList_loop (x :: l) []) as [|c array] eqn:E.
  { pose proof (SortList_loop_concat (x :: l) []) as Hp. rewrite E in Hp.
    by apply Permutation_nil_cons in Hp. }
  apply Forall_cons in Ha as [[Hc Sc] Ha]. destruct (merge_up_sorted c array Hc Sc Ha) as [Hs Hff].
  split; [done|]. intros f Hcl. rewrite Hff by done. rewrite <- array_filter_cons.
  by apply Hf.
Qed.

End Ordered.
End Sort.

Arguments not_after {A} p x y /.
Arguments sorted {A} p l.

(** ** Properties *)

(** [SortList] returns a permutation of its input. *)
Theorem SortList_permutation {A} (p : A -> A -> bool) (l : list A) : SortList p l ≡ₚ l.
Proof. apply SortList_perm_aux. Qed.

(** For a strict weak order, [SortList] sorts, and it is stable: the
    elements of any class of mutually equivalent elements keep their order. *)
Theorem SortList_sorted_stable {A} (p : A -> A -> bool) (ok : A -> Prop) (l : list A)
  (Hp : StrictWeakOn p ok) (Hl : Forall ok l) :
  sorted p (SortList p l) /\
  forall f, equal_class p f -> List.filter f (SortList p l) = List.filter f l.
Proof. by apply (SortList_sorted_aux p ok). Qed.

(** Pairs ordered by their first component. *)
Definition by_key (x y : Z * Z) : bool := fst x <? fst y.

#[export] Instance by_key_order : StrictWeakOn by_key (fun _ => True).
Proof.
  split; unfold by_key.
  - intros x y _ _ H%Z.ltb_lt. apply Z.ltb_ge. lia.
  - intros x y z _ _ _ H%Z.ltb_lt. rewrite !Z.ltb_lt. lia.
Qed.

Lemma SortList_sorted_stable_witness :
  sorted by_key (SortList by_key [(3, 1); (1, 2); (3, 3); (2, 4); (1, 5)]) /\
  forall f, equal_class by_key f ->
    List.filter f (SortList by_key [(3, 1); (1, 2); (3, 3); (2, 4); (1, 5)]) =
    List.filter f [(3, 1); (1, 2); (3, 3); (2, 4); (1, 5)].
Proof.
  apply (SortList_sorted_stable by_key (fun _ => True)); [apply by_key_order|].
  repeat constructor.
Defined.

(** The slots form a binary counter: the number of slots in use is at
    most one more than the logarithm of the number of elements, so the
    capacity of 64 is never exceeded by a list that fits into memory. *)
Theorem SortList_capacity {A} (p : A -> A -> bool) (l : list A) (Hl : (length l < 2 ^ 64)%nat) :
  (length (SortList_loop p l []) <= 64)%nat.
Proof.
  pose proof (SortList_loop_ok p l [] I) as Hok.
  pose proof (SortList_loop_top p l [] ltac:(by right)) as Htop.
  pose proof (SortList_loop_concat p l []) as Hc.
  set (array := SortList_loop p l []) in *.
  destruct (decide (array = [])) as [->|Hne]; [simpl; lia|].
  destruct Htop as [Htop|]; [|done].
  pose proof (slots_ok_last 0 array Hok Hne) as [|Hlast]; [done|].
  pose proof (last_concat_length array) as Hlen.
  rewrite (Permutation_length Hc) in Hlen. simpl app in Hlen.
  destruct (decide (length array <= 64)%nat) as [|Hbig]; [done|exfalso].
  assert (2 ^ 64 <= 2 ^ (0 + (length array - 1)))%nat by (apply Nat.pow_le_mono_r; lia).
  apply (Nat.lt_irrefl (2 ^ 64)). eapply Nat.le_lt_trans; [|exact Hl].
  etransitivity; [|exact Hlen]. by rewrite Hlast.
Qed.

Lemma SortList_capacity_witness :
  (length (SortList_loop by_key [(3, 1); (1, 2); (3, 3)]%Z []) <= 64)%nat.
Proof.
  apply (SortList_capacity by_key [(3, 1); (1, 2); (3, 3)]%Z).
  apply (Nat.lt_le_trans _ (2 ^ 2)); [simpl; lia|]. apply Nat.pow_le_mono_r; lia.
Defined.
