(* ===== verification/StableSort.v ===== *)
(** [std::stable_sort], which sorts arrays: the only result that is sorted
    and keeps the order of equivalent elements, computed by insertion. *)
From Stdlib Require Import Sorted Permutation.
From S2P Require Import Prelude SortList.
Open Scope Z_scope.

(** [std::stable_sort]. *)
Fixpoint stable_insert {A} (less : A -> A -> bool) (x : A) (l : list A) : list A :=
  match l with
  | [] => [x]
  | y :: l' => if less y x then y :: stable_insert less x l' else x :: l
  end.
Definition stable_sort {A} (less : A -> A -> bool) (l : list A) : list A :=
  fold_right (stable_insert less) [] l.

Section Stable.
Context {A : Type} (less : A -> A -> bool).

Lemma stable_insert_perm x l : stable_insert less x l ≡ₚ x :: l.
Proof.
  induction l as [|y l IH]; [done|]. cbn [stable_insert]. destruct (less y x); [|done].
  rewrite IH. apply Permutation_swap.
Qed.

Lemma stable_sort_perm l : stable_sort less l ≡ₚ l.
Proof. induction l as [|x l IH]; [done|]. cbn. by rewrite stable_insert_perm, IH. Qed.

Context {Hless : StrictWeakOn less (fun _ => True)}.

Lemma stable_insert_sorted x l : sorted less l -> sorted less (stable_insert less x l).
Proof.
  induction l as [|y l IH]; intros Hs; cbn [stable_insert]; [repeat constructor|].
  pose proof (StronglySorted_inv Hs) as [Hl Hy].
  destruct (less y x) eqn:E.
  - constructor; [by apply IH|]. rewrite stable_insert_perm. constructor; [|done].
    by apply (sw_asym less (ok := fun _ => True) y x).
  - constructor; [done|]. constructor; [done|]. eapply Forall_impl; [exact Hy|].
    intros z Hz. by apply (not_after_trans less (fun _ => True) x y z).
Qed.

Lemma stable_sort_sorted l : sorted less (stable_sort less l).
Proof. induction l as [|x l IH]; [constructor|]. by apply stable_insert_sorted. Qed.

(** The order of mutually equivalent elements is kept. *)
Lemma stable_insert_filter f x l : equal_class less f ->
  List.filter f (stable_insert less x l) = List.filter f (x :: l).
Proof.
  intros Hf. induction l as [|y l IH]; [done|]. cbn [stable_insert]. destruct (less y x) eqn:E; [|done].
  cbn [List.filter] in *. rewrite IH. destruct (f y) eqn:Ey, (f x) eqn:Ex; try done.
  rewrite (Hf y x Ey Ex) in E. done.
Qed.

Lemma stable_sort_filter f l : equal_class less f -> List.filter f (stable_sort less l) = List.filter f l.
Proof.
  intros Hf. induction l as [|x l IH]; [done|]. cbn [stable_sort fold_right].
  rewrite stable_insert_filter by done. cbn [List.filter]. unfold stable_sort in IH. by rewrite IH.
Qed.
End Stable.

(** It depends on the order of the elements of the list only. *)
Lemma stable_insert_ext {A} (f g : A -> A -> bool) x l : (forall y, y ∈ l -> f y x = g y x) -> stable_insert f x l = stable_insert g x l.
Proof.
  induction l as [|y l IH]; intros Hfg; [done|]. cbn [stable_insert]. rewrite Hfg by apply list_elem_of_here.
  destruct (g y x); [|done]. f_equal. apply IH. intros z Hz. apply Hfg. by apply list_elem_of_further.
Qed.

Lemma stable_sort_ext {A} (f g : A -> A -> bool) l : (forall x y, x ∈ l -> y ∈ l -> f x y = g x y) -> stable_sort f l = stable_sort g l.
Proof.
  induction l as [|x l IH]; intros Hfg; [done|]. change (stable_insert f x (stable_sort f l) = stable_insert g x (stable_sort g l)).
  rewrite IH by (intros a b Ha Hb; apply Hfg; by apply list_elem_of_further). apply stable_insert_ext.
  intros y Hy. apply Hfg; [|apply list_elem_of_here]. apply list_elem_of_further. by rewrite (stable_sort_perm g) in Hy.
Qed.
