(* ===== verification/RangeArg.v ===== *)
(** Ranges of the protocol: [src/protocol/RangeArg.hxx].  Both ends are
    [unsigned]; a method that changes the range returns it. *)
From S2P Require Import Prelude.
Open Scope Z_scope.

Record RangeArg := mkRangeArg { r_start : Z; r_end : Z }.
#[export] Instance RangeArg_eq_dec : EqDecision RangeArg.
Proof. solve_decision. Defined.

Definition OpenEnded (start : Z) : RangeArg := mkRangeArg start (2 ^ 32 - 1).
Definition RangeArg_All : RangeArg := OpenEnded 0.
Definition RangeArg_Single (i : Z) : RangeArg := mkRangeArg i (u32 (i + 1)).
Definition IsOpenEnded (r : RangeArg) : bool := r_end r =? r_end RangeArg_All.
Definition IsAll (r : RangeArg) : bool := bool_decide (r = RangeArg_All).
Definition IsWellFormed (r : RangeArg) : bool := r_start r <=? r_end r.
Definition RangeArg_IsEmpty (r : RangeArg) : bool := r_end r <=? r_start r.
Definition HasAtLeast (r : RangeArg) (n : Z) : bool := u32 (r_start r + n) <=? r_end r.
Definition Contains (r : RangeArg) (i : Z) : bool := (r_start r <=? i) && (i <? r_end r).
Definition RangeArg_Count (r : RangeArg) : Z := u32 (r_end r - r_start r).
Definition ClipRelaxed (r : RangeArg) (count : Z) : RangeArg :=
  let e := if count <? r_end r then count else r_end r in
  mkRangeArg (if e <? r_start r then e else r_start r) e.
(** The returned flag and the range. *)
Definition CheckClip (r : RangeArg) (count : Z) : bool * RangeArg :=
  if count <? r_start r then (false, r)
  else (true, if count <? r_end r then mkRangeArg (r_start r) count else r).
Definition CheckAdjustEnd (r : RangeArg) (count : Z) : bool * RangeArg :=
  if count <? r_start r then (false, r)
  else if count <? r_end r then
    if negb (IsOpenEnded r) then (false, r) else (true, mkRangeArg (r_start r) count)
  else (true, r).
