(* ===== verification/SongSort.v ===== *)
(** [src/db/plugins/simple/SongSort.cxx]: the order of the songs of a
    directory.  [IcuCollate] (the ICU library, or [strcoll]) is a
    parameter; what is assumed of it is that its sign is a total preorder
    ([Collation]). *)
From S2P Require Import Prelude Text Tags Songs SortList.
Open Scope Z_scope.

(** A three-way comparison of the elements that satisfy [ok]. *)
Class Comparison {A} (ok : A -> Prop) (cmp : A -> A -> Z) : Prop := {
  cmp_anti a b : ok a -> ok b -> Z.sgn (cmp a b) = - Z.sgn (cmp b a);
  cmp_trans a b c : ok a -> ok b -> ok c -> cmp a b <= 0 -> cmp b c <= 0 -> cmp a c <= 0 }.

Notation Collation := (Comparison (fun _ : bytes => True)).

Section SongSort.
Context (IcuCollate : bytes -> bytes -> Z).

Definition compare_utf8_string (a b : option bytes) : Z :=
  match a with
  | None => match b with None => 0 | Some _ => -1 end
  | Some a => match b with None => 1 | Some b => IcuCollate a b end
  end.

Definition compare_string_tag_item (a b : Tag) (type : TagType) : Z :=
  compare_utf8_string (GetValue a type) (GetValue b type).

Definition tag_number (a : option bytes) : Z :=
  match a with None => 0 | Some a => fst (strtol a) end.

(** The [long] difference is returned as an [int]. *)
Definition compare_number_string (a b : option bytes) : Z :=
  let ai := tag_number a in
  let bi := tag_number b in
  if ai <=? 0 then (if bi <=? 0 then 0 else -1)
  else if bi <=? 0 then 1
  else s32 (ai - bi).

Definition compare_tag_item (a b : Tag) (type : TagType) : Z :=
  compare_number_string (GetValue a type) (GetValue b type).

Definition song_cmp (a b : Song) : bool :=
  let ret := compare_string_tag_item (s_tag a) (s_tag b) TAG_ALBUM in
  if negb (ret =? 0) then ret <? 0
  else
    let ret := compare_tag_item (s_tag a) (s_tag b) TAG_DISC in
    if negb (ret =? 0) then ret <? 0
    else
      let ret := compare_tag_item (s_tag a) (s_tag b) TAG_TRACK in
      if negb (ret =? 0) then ret <? 0
      else IcuCollate (filename a) (filename b) <? 0.

Definition song_list_sort (songs : list Song) : list Song := SortList song_cmp songs.

(** Disc and track numbers whose differences fit into an [int]. *)
Definition numbers_ok (s : Song) : Prop :=
  tag_number (GetValue (s_tag s) TAG_DISC) < 2 ^ 31 /\
  tag_number (GetValue (s_tag s) TAG_TRACK) < 2 ^ 31.

End SongSort.

(** ** Comparisons compose lexicographically *)

Section Lex.
Context {A : Type} (ok : A -> Prop).

Definition lex (c1 c2 : A -> A -> Z) (a b : A) : Z :=
  if negb (c1 a b =? 0) then c1 a b else c2 a b.

Lemma cmp_sign_cases {cmp} `{Comparison A ok cmp} a b : ok a -> ok b ->
  (cmp a b < 0 /\ 0 < cmp b a) \/ (cmp a b = 0 /\ cmp b a = 0) \/ (0 < cmp a b /\ cmp b a < 0).
Proof.
  intros Ha Hb. pose proof (cmp_anti a b Ha Hb).
  destruct (Z.sgn_spec (cmp a b)) as [|[|]], (Z.sgn_spec (cmp b a)) as [|[|]]; lia.
Qed.

Lemma cmp_lt_le {cmp} `{Comparison A ok cmp} a b c : ok a -> ok b -> ok c ->
  cmp a b <= 0 -> cmp b c <= 0 -> cmp a c = 0 -> cmp a b = 0 /\ cmp b c = 0.
Proof.
  intros Ha Hb Hc Hab Hbc Hac.
  pose proof (cmp_sign_cases a c Ha Hc). pose proof (cmp_sign_cases a b Ha Hb).
  pose proof (cmp_sign_cases b c Hb Hc).
  assert (cmp c b <= 0) by (apply (cmp_trans c a b); done || lia).
  assert (cmp b a <= 0) by (apply (cmp_trans b c a); done || lia). lia.
Qed.

#[export] Instance lex_comparison c1 c2 :
  Comparison ok c1 -> Comparison ok c2 -> Comparison ok (lex c1 c2).
Proof.
  intros H1 H2. split; unfold lex.
  - intros a b Ha Hb. pose proof (cmp_sign_cases (cmp := c1) a b Ha Hb).
    pose proof (cmp_anti (cmp := c1) a b Ha Hb). pose proof (cmp_anti (cmp := c2) a b Ha Hb).
    destruct (Z.eqb_spec (c1 a b) 0), (Z.eqb_spec (c1 b a) 0); simpl; lia.
  - intros a b c Ha Hb Hc Hab Hbc.
    assert (c1 a b <= 0 /\ c1 b c <= 0) as [Hab1 Hbc1]
      by (destruct (Z.eqb_spec (c1 a b) 0), (Z.eqb_spec (c1 b c) 0); simpl in *; lia).
    pose proof (cmp_trans (cmp := c1) a b c Ha Hb Hc Hab1 Hbc1).
    destruct (Z.eqb_spec (c1 a c) 0) as [E|E]; simpl; [|done].
    destruct (cmp_lt_le (cmp := c1) a b c Ha Hb Hc Hab1 Hbc1 E) as [E1 E2].
    rewrite E1 in Hab. rewrite E2 in Hbc. simpl in *. by apply (cmp_trans (cmp := c2) a b c).
Qed.

Lemma comparison_strict (cmp : A -> A -> Z) (p : A -> A -> bool) : Comparison ok cmp ->
  (forall a b, p a b = (cmp a b <? 0)) -> StrictWeakOn p ok.
Proof.
  intros H Hp. split.
  - intros x y Hx Hy. rewrite !Hp, Z.ltb_lt, Z.ltb_ge.
    pose proof (cmp_sign_cases x y Hx Hy). lia.
  - intros x y z Hx Hy Hz. rewrite !Hp, !Z.ltb_lt. intros Hxz.
    destruct (decide (cmp x y < 0)) as [|Hxy]; [by left|right].
    destruct (decide (cmp y z < 0)) as [|Hyz]; [done|exfalso].
    pose proof (cmp_sign_cases x y Hx Hy). pose proof (cmp_sign_cases y z Hy Hz).
    pose proof (cmp_sign_cases x z Hx Hz).
    assert (cmp z x <= 0) by (apply (cmp_trans z y x); done || lia). lia.
Qed.

(** Comparing the images under [f]. *)
Lemma image_comparison {B} (okb : B -> Prop) (cmp : B -> B -> Z) (f : A -> B) :
  Comparison okb cmp -> (forall a, ok a -> okb (f a)) -> Comparison ok (fun a b => cmp (f a) (f b)).
Proof.
  intros H Hf. split.
  - intros a b Ha Hb. apply cmp_anti; auto.
  - intros a b c Ha Hb Hc. apply (cmp_trans (f a) (f b) (f c)); auto.
Qed.

End Lex.

Lemma compare_utf8_string_comparison IcuCollate : Collation IcuCollate ->
  Comparison (fun _ => True) (compare_utf8_string IcuCollate).
Proof.
  intros H. split.
  - intros [a|] [b|] _ _; simpl; try done. by apply cmp_anti.
  - intros [a|] [b|] [c|] _ _ _; simpl; try lia. by apply cmp_trans.
Qed.

Lemma compare_number_string_comparison :
  Comparison (fun a => tag_number a < 2 ^ 31) compare_number_string.
Proof.
  assert (forall a b, tag_number a < 2 ^ 31 -> tag_number b < 2 ^ 31 ->
    Z.sgn (compare_number_string a b) = Z.sgn (Z.max 0 (tag_number a) - Z.max 0 (tag_number b))) as Hs.
  { intros a b Ha Hb. unfold compare_number_string.
    destruct (Z.leb_spec (tag_number a) 0), (Z.leb_spec (tag_number b) 0);
      try (by rewrite !Z.max_l by lia); rewrite ?s32_id by lia; lia. }
  split.
  - intros a b Ha Hb. rewrite !Hs by done. lia.
  - intros a b c Ha Hb Hc Hab Hbc. pose proof (Hs a b Ha Hb). pose proof (Hs b c Hb Hc).
    pose proof (Hs a c Ha Hc). lia.
Qed.

(** The comparison behind [song_cmp]. *)
Lemma song_cmp_strict IcuCollate : Collation IcuCollate ->
  StrictWeakOn (song_cmp IcuCollate) numbers_ok.
Proof.
  intros H. apply (comparison_strict numbers_ok
    (lex (fun a b => compare_string_tag_item IcuCollate (s_tag a) (s_tag b) TAG_ALBUM)
    (lex (fun a b => compare_tag_item (s_tag a) (s_tag b) TAG_DISC)
    (lex (fun a b => compare_tag_item (s_tag a) (s_tag b) TAG_TRACK)
         (fun a b => IcuCollate (filename a) (filename b)))))).
  - repeat apply lex_comparison.
    + apply (image_comparison _ (fun _ => True) (compare_utf8_string IcuCollate)
        (fun s => GetValue (s_tag s) TAG_ALBUM)); [by apply compare_utf8_string_comparison|done].
    + apply (image_comparison _ (fun a => tag_number a < 2 ^ 31) compare_number_string (fun s => GetValue (s_tag s) TAG_DISC));
        [apply compare_number_string_comparison|]. by intros a [? _].
    + apply (image_comparison _ (fun a => tag_number a < 2 ^ 31) compare_number_string (fun s => GetValue (s_tag s) TAG_TRACK));
        [apply compare_number_string_comparison|]. by intros a [_ ?].
    + by apply (image_comparison _ (fun _ => True) IcuCollate filename).
  - intros a b. unfold song_cmp, lex.
    repeat (destruct (negb _); [done|]). done.
Qed.

(** [strcoll] in the "C" locale. *)
Fixpoint strcmp (a b : bytes) : Z :=
  match a, b with
  | [], [] => 0
  | [], _ :: _ => -1
  | _ :: _, [] => 1
  | c :: a, d :: b => if code c =? code d then strcmp a b else code c - code d
  end.

Lemma strcmp_refl a : strcmp a a = 0.
Proof. induction a as [|c a IH]; [done|]. simpl. by rewrite Z.eqb_refl. Qed.

Lemma strcmp_lt_trans a b c : strcmp a b < 0 -> strcmp b c < 0 -> strcmp a c < 0.
Proof.
  revert b c. induction a as [|x a IH]; intros [|y b] [|z c]; simpl; try lia.
  destruct (Z.eqb_spec (code x) (code y)), (Z.eqb_spec (code y) (code z)), (Z.eqb_spec (code x) (code z)); try lia.
  apply IH.
Qed.

Lemma strcmp_eq a b : strcmp a b = 0 <-> a = b.
Proof.
  revert b. induction a as [|c a IH]; intros [|d b]; simpl; try (split; (done || lia)).
  destruct (Z.eqb_spec (code c) (code d)) as [E|E].
  - rewrite IH. apply code_inj in E as ->. split; [by intros ->|by intros [= ->]].
  - split; [lia|]. by intros [= -> ->].
Qed.

Lemma strcmp_sgn a b : Z.sgn (strcmp a b) = - Z.sgn (strcmp b a).
Proof.
  revert b. induction a as [|c a IH]; intros [|d b]; simpl; try done.
  destruct (Z.eqb_spec (code c) (code d)), (Z.eqb_spec (code d) (code c)); try lia. apply IH.
Qed.

#[export] Instance strcmp_collation : Collation strcmp.
Proof.
  split; [intros a b _ _; apply strcmp_sgn|].
  intros a b c _ _ _. revert b c.
  induction a as [|x a IH]; intros [|y b] [|z c]; simpl; try lia.
  destruct (Z.eqb_spec (code x) (code y)), (Z.eqb_spec (code y) (code z)),
    (Z.eqb_spec (code x) (code z)); try lia. apply IH.
Qed.

(** ** Properties *)

(** With a collation that is a total preorder, and disc and track
    numbers below 2^31, [song_list_sort] returns a permutation of the
    songs, ordered by album, disc, track and file name, and keeps the order
    of songs that compare equal. *)
Theorem song_list_sort_ok (IcuCollate : bytes -> bytes -> Z) (songs : list Song)
  (Hcoll : Collation IcuCollate) (Hnum : Forall numbers_ok songs) :
  song_list_sort IcuCollate songs ≡ₚ songs /\
  sorted (song_cmp IcuCollate) (song_list_sort IcuCollate songs) /\
  forall f, equal_class (song_cmp IcuCollate) f ->
    List.filter f (song_list_sort IcuCollate songs) = List.filter f songs.
Proof.
  pose proof (song_cmp_strict IcuCollate Hcoll).
  split; [apply SortList_perm_aux|]. by apply (SortList_sorted_aux _ numbers_ok).
Qed.

Definition sample_track (album track name : bytes) : Song :=
  Song_with_tag (Song_new name) (mkTag 1000 false [mkTagItem TAG_ALBUM album; mkTagItem TAG_TRACK track]).

Lemma song_list_sort_ok_witness :
  let songs := [sample_track (lit "B") (lit "10") (lit "x"); sample_track (lit "B") (lit "9/12") (lit "y");
                sample_track (lit "A") (lit "3") (lit "z")] in
  song_list_sort strcmp songs ≡ₚ songs /\
  sorted (song_cmp strcmp) (song_list_sort strcmp songs) /\
  forall f, equal_class (song_cmp strcmp) f ->
    List.filter f (song_list_sort strcmp songs) = List.filter f songs.
Proof.
  apply (song_list_sort_ok strcmp
    [sample_track (lit "B") (lit "10") (lit "x"); sample_track (lit "B") (lit "9/12") (lit "y");
     sample_track (lit "A") (lit "3") (lit "z")]); [apply strcmp_collation|].
  repeat constructor.
Defined.

(** Beyond an [int] the difference changes its sign: the order is no longer
    asymmetric with a third song in between. *)
Example compare_number_string_wraps :
  compare_number_string (Some (lit "1")) (Some (lit "1073741825")) < 0 /\
  compare_number_string (Some (lit "1073741825")) (Some (lit "2147483650")) < 0 /\
  0 < compare_number_string (Some (lit "1")) (Some (lit "2147483650")).
Proof. vm_compute. done. Qed.
