(* ===== verification/Cue.v ===== *)
(** CUE sheets: the line-driven state machine [src/playlist/cue/CueParser]
    and the song enumerator [CuePlaylistPlugin.cxx] that drives it.

    A [std::string_view] that may have a null pointer is an
    [option bytes]; "the rest of the line" is passed along explicitly.
    [mask] is the value of [global_tag_mask]. *)
From S2P Require Import Prelude Text Utf8 Chrono Tags Audio Songs.
Open Scope Z_scope.

(** ** Tokens *)

(** The word up to the first white space, and the rest from there on. *)
Fixpoint cue_next_word (src : bytes) : bytes * bytes :=
  match src with
  | [] => ([], [])
  | c :: src' =>
      if IsWhitespaceOrNull c then ([], src)
      else let '(w, r) := cue_next_word src' in (c :: w, r)
  end.

Definition cue_next_quoted (src : bytes) : bytes * bytes :=
  match Split src DQUOTE with
  | (_, None) => (src, [])
  | (value, Some rest) => (value, rest)
  end.

Definition cue_next_token (src : bytes) : option bytes * bytes :=
  match StripLeft src with
  | [] => (None, [])
  | src => let '(w, r) := cue_next_word src in (Some w, r)
  end.

Definition cue_next_value (src : bytes) : option bytes * bytes :=
  match StripLeft src with
  | [] => (None, [])
  | c :: src' =>
      let '(v, r) :=
        if bool_decide (c = DQUOTE) then cue_next_quoted src' else cue_next_word (c :: src') in
      (Some v, r)
  end.

(** *** Positions *)

(** The digits, in 32-bit unsigned arithmetic; a view that does not start
    with one becomes null. *)
Fixpoint cue_scan_unsigned (value : Z) (src : bytes) : Z * bytes :=
  match src with
  | ch :: src' =>
      if IsDigitASCII ch then cue_scan_unsigned (u32 (u32 (value * 10) + digit_value ch)) src'
      else (value, src)
  | [] => (value, [])
  end.

Definition cue_next_unsigned (src : bytes) : Z * option bytes :=
  if negb (starts_digit src) then (0, None)
  else let '(v, r) := cue_scan_unsigned 0 src in (v, Some r).

(** What follows a colon. *)
Definition after_colon (src : option bytes) : option bytes :=
  match src with
  | Some (c :: r) => if bool_decide (c = ":"%char) then Some r else None
  | _ => None
  end.

Definition cue_parse_position (src : bytes) : Z :=
  let '(minutes, src) := cue_next_unsigned src in
  match after_colon src with
  | None => -1
  | Some src =>
      let '(seconds, src) := cue_next_unsigned src in
      match after_colon src with
      | None => -1
      | Some src =>
          let '(frames, src) := cue_next_unsigned src in
          match src with
          | Some [] =>
              s32 (u64 (u32 (u32 (minutes * 60000) + u32 (seconds * 1000)) + u64 (frames * 1000) / 75))
          | _ => -1
          end
      end
  end.

(** ** CueParser *)

Inductive cue_state := HEADER | WAVE | IGNORE_FILE | TRACK | IGNORE_TRACK.

#[export] Instance cue_state_eq_dec : EqDecision cue_state.
Proof. solve_decision. Defined.

Record CueParser := mkCueParser
  { c_state : cue_state;
    header_tag : TagBuilder;
    song_tag : TagBuilder;
    c_filename : bytes;
    current : option DetachedSong;
    previous : option DetachedSong;
    finished : option DetachedSong;
    ignore_index : bool;
    c_end : bool }.

Definition CueParser_new : CueParser :=
  mkCueParser HEADER TagBuilder_new TagBuilder_new [] None None None false false.

Definition set_header_tag (p : CueParser) (t : TagBuilder) : CueParser :=
  mkCueParser (c_state p) t (song_tag p) (c_filename p) (current p) (previous p) (finished p)
    (ignore_index p) (c_end p).
Definition set_song_tag (p : CueParser) (t : TagBuilder) : CueParser :=
  mkCueParser (c_state p) (header_tag p) t (c_filename p) (current p) (previous p) (finished p)
    (ignore_index p) (c_end p).
Definition set_state (p : CueParser) (s : cue_state) : CueParser :=
  mkCueParser s (header_tag p) (song_tag p) (c_filename p) (current p) (previous p) (finished p)
    (ignore_index p) (c_end p).

Definition cue_add_tag (mask : Z) (tag : TagBuilder) (type : TagType) (src : bytes) : TagBuilder :=
  match cue_next_value src with
  | (Some value, _) => AddItem mask tag type value
  | (None, _) => tag
  end.

Definition cue_parse_rem (mask : Z) (src : bytes) (tag : TagBuilder) : TagBuilder :=
  match cue_next_token src with
  | (None, _) => tag
  | (Some type, src) =>
      match tag_name_parse_i type with
      | Some type2 => cue_add_tag mask tag type2 src
      | None => tag
      end
  end.

(** [GetCurrentTag] and a modification of the tag it points to. *)
Definition on_current_tag (f : TagBuilder -> TagBuilder) (p : CueParser) : CueParser :=
  match c_state p with
  | HEADER => set_header_tag p (f (header_tag p))
  | TRACK => set_song_tag p (f (song_tag p))
  | _ => p
  end.

(** [Commit]: the current song gets its tag, which empties the builder,
    and becomes the previous one. *)
Definition cue_Commit (p : CueParser) : CueParser :=
  match current p with
  | None => p
  | Some c =>
      mkCueParser (c_state p) (header_tag p) TagBuilder_new (c_filename p)
        None (Some (d_SetTag c (Commit (song_tag p)))) (previous p) (ignore_index p) (c_end p)
  end.

Definition feed_FILE (src : bytes) (p : CueParser) : CueParser :=
  let p := cue_Commit p in
  match cue_next_value src with
  | (None, _) => p
  | (Some new_filename, src) =>
      match cue_next_token src with
      | (None, _) => p
      | (Some type, _) =>
          if negb (type =b lit "WAVE") && negb (type =b lit "FLAC") &&
             negb (type =b lit "MP3") && negb (type =b lit "AIFF")
          then set_state p IGNORE_FILE
          else mkCueParser WAVE (header_tag p) (song_tag p) new_filename (current p) (previous p)
                 (finished p) (ignore_index p) (c_end p)
      end
  end.

Definition feed_TRACK (mask : Z) (src : bytes) (p : CueParser) : CueParser :=
  let p := cue_Commit p in
  match cue_next_token src with
  | (None, _) => p
  | (Some nr, src) =>
      match cue_next_token src with
      | (None, _) => p
      | (Some type, _) =>
          if negb (type =b lit "AUDIO") then set_state p IGNORE_TRACK
          else mkCueParser TRACK (header_tag p) (AddItem mask (header_tag p) TAG_TRACK nr)
                 (c_filename p) (Some (DetachedSong_new (c_filename p))) (previous p) (finished p)
                 false (c_end p)
      end
  end.

Definition feed_INDEX (src : bytes) (p : CueParser) : CueParser :=
  if ignore_index p then p
  else
    match cue_next_token src with
    | (None, _) => p
    | (Some nr, src) =>
        match cue_next_token src with
        | (None, _) => p
        | (Some position, _) =>
            let position_ms := cue_parse_position position in
            if position_ms <? 0 then p
            else
              mkCueParser (c_state p) (header_tag p) (song_tag p) (c_filename p)
                ((fun s => d_SetStartTime s (SongTime_FromMS position_ms)) <$> current p)
                ((fun s => if d_start_time s <? u32 position_ms
                           then d_SetEndTime s (SongTime_FromMS position_ms) else s) <$> previous p)
                (finished p)
                (if negb (nr =b lit "00") || match previous p with None => true | Some _ => false end
                 then true else ignore_index p)
                (c_end p)
        end
    end.

Definition Feed (mask : Z) (src : bytes) (p : CueParser) : CueParser :=
  match cue_next_token src with
  | (None, _) => p
  | (Some command, src) =>
      if command =b lit "REM" then on_current_tag (cue_parse_rem mask src) p
      else if command =b lit "PERFORMER" then
        let type := if bool_decide (c_state p = TRACK) then TAG_ARTIST else TAG_ALBUM_ARTIST in
        on_current_tag (fun tag => cue_add_tag mask tag type src) p
      else if command =b lit "TITLE" then
        match c_state p with
        | HEADER => set_header_tag p (cue_add_tag mask (header_tag p) TAG_ALBUM src)
        | TRACK => set_song_tag p (cue_add_tag mask (song_tag p) TAG_TITLE src)
        | _ => p
        end
      else if command =b lit "FILE" then feed_FILE src p
      else if bool_decide (c_state p = IGNORE_FILE) then p
      else if command =b lit "TRACK" then feed_TRACK mask src p
      else if bool_decide (c_state p = IGNORE_TRACK) then p
      else if bool_decide (c_state p = TRACK) && (command =b lit "INDEX") then feed_INDEX src p
      else p
  end.

Definition Finish (p : CueParser) : CueParser :=
  if c_end p then p
  else
    let p := cue_Commit p in
    mkCueParser (c_state p) (header_tag p) (song_tag p) (c_filename p) (current p) (previous p)
      (finished p) (ignore_index p) true.

Definition Get (p : CueParser) : option DetachedSong * CueParser :=
  let '(fin, prev) :=
    match finished p with
    | None => if c_end p then (previous p, None) else (None, previous p)
    | Some s => (Some s, previous p)
    end in
  (fin, mkCueParser (c_state p) (header_tag p) (song_tag p) (c_filename p) (current p) prev
          None (ignore_index p) (c_end p)).

(** ** CuePlaylist::NextSong *)

(** The [while] loop. *)
Fixpoint NextSong_loop (mask : Z) (tis : LineReader) (p : CueParser) {struct tis}
  : option DetachedSong * LineReader * CueParser :=
  match tis with
  | [] => let '(song, p) := Get (Finish p) in (song, [], p)
  | line :: tis =>
      match Get (Feed mask line p) with
      | (Some song, p) => (Some song, tis, p)
      | (None, p) => NextSong_loop mask tis p
      end
  end.

Definition NextSong (mask : Z) (tis : LineReader) (p : CueParser)
  : option DetachedSong * LineReader * CueParser :=
  match Get p with
  | (Some song, p) => (Some song, tis, p)
  | (None, p) => NextSong_loop mask tis p
  end.

(** Every caller of a [SongEnumerator] asks until it gets null: the songs,
    or [None] when [fuel] calls were not enough. *)
Fixpoint enumerate (fuel : nat) (mask : Z) (tis : LineReader) (p : CueParser)
  : option (list DetachedSong) :=
  match fuel with
  | O => None
  | S fuel =>
      match NextSong mask tis p with
      | (None, _, _) => Some []
      | (Some song, tis, p) => cons song <$> enumerate fuel mask tis p
      end
  end.

Definition CuePlaylist_songs (mask : Z) (tis : LineReader) : option (list DetachedSong) :=
  enumerate (S (S (S (length tis)))) mask tis CueParser_new.

(** ** The abstract sheet: the tracks in file order

    What a sheet means, without the one-song slots of the parser: the list
    of the tracks closed so far and the open one.  An INDEX line sets the
    start of the open track and the end of the last closed one. *)

Record sheet := mkSheet
  { sh_state : cue_state;
    sh_header : TagBuilder;
    sh_tag : TagBuilder;
    sh_filename : bytes;
    sh_open : option DetachedSong;
    sh_closed : list DetachedSong;
    sh_ignore : bool }.

Definition sheet_new : sheet := mkSheet HEADER TagBuilder_new TagBuilder_new [] None [] false.

Definition opt_list {A} (o : option A) : list A := match o with Some a => [a] | None => [] end.

Fixpoint alter_last {A} (f : A -> A) (l : list A) : list A :=
  match l with
  | [] => []
  | [x] => [f x]
  | x :: l => x :: alter_last f l
  end.

Definition sheet_close (h : sheet) : sheet :=
  match sh_open h with
  | None => h
  | Some c => mkSheet (sh_state h) (sh_header h) TagBuilder_new (sh_filename h) None
                (sh_closed h ++ [d_SetTag c (Commit (sh_tag h))]) (sh_ignore h)
  end.

Definition sheet_on_tag (f : TagBuilder -> TagBuilder) (h : sheet) : sheet :=
  match sh_state h with
  | HEADER => mkSheet HEADER (f (sh_header h)) (sh_tag h) (sh_filename h) (sh_open h) (sh_closed h) (sh_ignore h)
  | TRACK => mkSheet TRACK (sh_header h) (f (sh_tag h)) (sh_filename h) (sh_open h) (sh_closed h) (sh_ignore h)
  | _ => h
  end.

Definition sheet_set_state (h : sheet) (s : cue_state) : sheet :=
  mkSheet s (sh_header h) (sh_tag h) (sh_filename h) (sh_open h) (sh_closed h) (sh_ignore h).

Definition sheet_file (src : bytes) (h : sheet) : sheet :=
  let h := sheet_close h in
  match cue_next_value src with
  | (None, _) => h
  | (Some name, src) =>
      match fst (cue_next_token src) with
      | None => h
      | Some type =>
          if existsb (bytes_eqb type) [lit "WAVE"; lit "FLAC"; lit "MP3"; lit "AIFF"]
          then mkSheet WAVE (sh_header h) (sh_tag h) name (sh_open h) (sh_closed h) (sh_ignore h)
          else sheet_set_state h IGNORE_FILE
      end
  end.

Definition sheet_track (mask : Z) (src : bytes) (h : sheet) : sheet :=
  let h := sheet_close h in
  match cue_next_token src with
  | (None, _) => h
  | (Some nr, src) =>
      match fst (cue_next_token src) with
      | None => h
      | Some type =>
          if type =b lit "AUDIO" then
            mkSheet TRACK (sh_header h) (AddItem mask (sh_header h) TAG_TRACK nr) (sh_filename h)
              (Some (DetachedSong_new (sh_filename h))) (sh_closed h) false
          else sheet_set_state h IGNORE_TRACK
      end
  end.

(** The index number and position of an INDEX line. *)
Definition index_position (src : bytes) : option (bytes * Z) :=
  match cue_next_token src with
  | (None, _) => None
  | (Some nr, src) =>
      match fst (cue_next_token src) with
      | None => None
      | Some position =>
          let ms := cue_parse_position position in if ms <? 0 then None else Some (nr, ms)
      end
  end.

Definition sheet_index (src : bytes) (h : sheet) : sheet :=
  if sh_ignore h then h
  else
    match index_position src with
    | None => h
    | Some (nr, ms) =>
        mkSheet (sh_state h) (sh_header h) (sh_tag h) (sh_filename h)
          ((fun s => d_SetStartTime s (SongTime_FromMS ms)) <$> sh_open h)
          (alter_last (fun s => if d_start_time s <? u32 ms then d_SetEndTime s (SongTime_FromMS ms) else s)
             (sh_closed h))
          (negb (nr =b lit "00") || match sh_closed h with [] => true | _ => false end)
    end.

Definition sheet_feed (mask : Z) (src : bytes) (h : sheet) : sheet :=
  match cue_next_token src with
  | (None, _) => h
  | (Some command, src) =>
      if command =b lit "REM" then sheet_on_tag (cue_parse_rem mask src) h
      else if command =b lit "PERFORMER" then
        sheet_on_tag (fun tag => cue_add_tag mask tag
          (if bool_decide (sh_state h = TRACK) then TAG_ARTIST else TAG_ALBUM_ARTIST) src) h
      else if command =b lit "TITLE" then
        sheet_on_tag (fun tag => cue_add_tag mask tag
          (if bool_decide (sh_state h = TRACK) then TAG_TITLE else TAG_ALBUM) src) h
      else if command =b lit "FILE" then sheet_file src h
      else if bool_decide (sh_state h = IGNORE_FILE) then h
      else if command =b lit "TRACK" then sheet_track mask src h
      else if bool_decide (sh_state h = TRACK) && (command =b lit "INDEX") then sheet_index src h
      else h
  end.

(** The tracks of a whole file. *)
Definition sheet_tracks (mask : Z) (file : list bytes) : list DetachedSong :=
  sh_closed (sheet_close (fold_left (fun h l => sheet_feed mask l h) file sheet_new)).

(** The sheet a parser and the songs it has handed out stand for. *)
Definition sheet_of (emitted : list DetachedSong) (p : CueParser) : sheet :=
  mkSheet (c_state p) (header_tag p) (song_tag p) (c_filename p) (current p)
    (emitted ++ opt_list (finished p) ++ opt_list (previous p)) (ignore_index p).

(** *** Invariants *)

(** A song a CUE sheet may yield: a non-empty range, times within [int]. *)
Definition cue_song_ok (s : DetachedSong) : Prop :=
  0 <= d_start_time s < 2 ^ 31 /\ 0 <= d_end_time s < 2 ^ 31 /\
  (d_end_time s = 0 \/ d_start_time s < d_end_time s).

Definition clean_builder (b : TagBuilder) : Prop := Forall (fun i => clean_value (ti_value i)) (b_items b).
Definition clean_song (s : DetachedSong) : Prop := Forall (fun i => clean_value (ti_value i)) (items (d_tag s)).

Definition song_fine (s : DetachedSong) : Prop := cue_song_ok s /\ clean_song s.

Record sheet_inv (h : sheet) : Prop := {
  inv_header : clean_builder (sh_header h);
  inv_tag : clean_builder (sh_tag h);
  inv_open : forall s, sh_open h = Some s -> cue_song_ok s /\ d_end_time s = 0;
  inv_closed : Forall song_fine (sh_closed h) }.

(** ** The parser refines the sheet *)

(** Between two lines: nothing in the [finished] slot, and an empty
    [previous] slot only at the beginning. *)
Definition idle (emitted : list DetachedSong) (p : CueParser) : Prop :=
  c_end p = false /\ finished p = None /\ (previous p = None -> emitted = []).

Lemma alter_last_app {A} (f : A -> A) l x : alter_last f (l ++ [x]) = l ++ [f x].
Proof.
  induction l as [|y l IH]; [done|]. simpl. rewrite <- IH.
  destruct l; done.
Qed.

Lemma sheet_of_Commit emitted p : idle emitted p ->
  sheet_of emitted (cue_Commit p) = sheet_close (sheet_of emitted p).
Proof.
  intros (He & Hf & Hp). unfold cue_Commit, sheet_close, sheet_of. simpl.
  destruct (current p) as [c|] eqn:Ec; [|by rewrite Ec].
  rewrite Hf. simpl. by rewrite <- app_assoc.
Qed.

Lemma sheet_of_on_tag emitted p f :
  sheet_of emitted (on_current_tag f p) = sheet_on_tag f (sheet_of emitted p).
Proof. unfold on_current_tag, sheet_on_tag, sheet_of. simpl. by destruct (c_state p) eqn:E; simpl; rewrite ?E. Qed.

Lemma sheet_of_set_state emitted p s :
  sheet_of emitted (set_state p s) = sheet_set_state (sheet_of emitted p) s.
Proof. done. Qed.

Lemma sheet_of_FILE emitted src p : idle emitted p ->
  sheet_of emitted (feed_FILE src p) = sheet_file src (sheet_of emitted p).
Proof.
  intros H. unfold feed_FILE, sheet_file. rewrite <- sheet_of_Commit by done.
  destruct (cue_next_value src) as [[name|] r]; [|done].
  destruct (cue_next_token r) as [[type|] ?]; [|done]. cbn [fst existsb].
  destruct (type =b lit "WAVE"), (type =b lit "FLAC"), (type =b lit "MP3"), (type =b lit "AIFF"); done.
Qed.

Lemma sheet_of_TRACK emitted mask src p : idle emitted p ->
  sheet_of emitted (feed_TRACK mask src p) = sheet_track mask src (sheet_of emitted p).
Proof.
  intros H. unfold feed_TRACK, sheet_track. rewrite <- sheet_of_Commit by done.
  destruct (cue_next_token src) as [[nr|] r]; [|done].
  destruct (cue_next_token r) as [[type|] ?]; [|done]. cbn [fst].
  by destruct (type =b lit "AUDIO").
Qed.

Lemma sheet_of_INDEX emitted src p : idle emitted p ->
  sheet_of emitted (feed_INDEX src p) = sheet_index src (sheet_of emitted p).
Proof.
  intros (He & Hf & Hp). unfold feed_INDEX, sheet_index, index_position.
  change (sh_ignore (sheet_of emitted p)) with (ignore_index p).
  destruct (ignore_index p) eqn:Ei; [done|].
  destruct (cue_next_token src) as [[nr|] r]; [|done].
  destruct (cue_next_token r) as [[position|] ?]; [|done]. cbn [fst].
  destruct (cue_parse_position position <? 0); [done|].
  unfold sheet_of. simpl. rewrite Hf. simpl. destruct (previous p) as [q|]; simpl.
  - rewrite alter_last_app. change ["0"%char; "0"%char] with (lit "00").
    destruct emitted, (nr =b lit "00"); done.
  - rewrite (Hp eq_refl). change ["0"%char; "0"%char] with (lit "00"). by destruct (nr =b lit "00").
Qed.

Lemma sheet_of_Feed emitted mask src p : idle emitted p ->
  sheet_of emitted (Feed mask src p) = sheet_feed mask src (sheet_of emitted p).
Proof.
  intros H. unfold Feed, sheet_feed. destruct (cue_next_token src) as [[command|] r]; [|done].
  destruct (command =b lit "REM"); [apply sheet_of_on_tag|].
  destruct (command =b lit "PERFORMER"); [apply sheet_of_on_tag|].
  destruct (command =b lit "TITLE").
  { unfold sheet_on_tag, sheet_of. simpl. by destruct (c_state p) eqn:E; simpl; rewrite ?E. }
  destruct (command =b lit "FILE"); [by apply sheet_of_FILE|].
  cbn [sh_state sheet_of]. destruct (bool_decide (c_state p = IGNORE_FILE)); [done|].
  destruct (command =b lit "TRACK"); [by apply sheet_of_TRACK|].
  destruct (bool_decide (c_state p = IGNORE_TRACK)) eqn:E1.
  { apply bool_decide_eq_true in E1. rewrite E1. done. }
  destruct (bool_decide (c_state p = TRACK) && (command =b lit "INDEX")); [by apply sheet_of_INDEX|done].
Qed.

(** *** Handing out songs *)

Definition pending (p : CueParser) : list DetachedSong := opt_list (finished p) ++ opt_list (previous p).

Lemma Commit_slots emitted p : idle emitted p ->
  c_end (cue_Commit p) = false /\
  (previous (cue_Commit p) = None -> emitted = [] /\ finished (cue_Commit p) = None).
Proof. intros (He & Hf & Hp). unfold cue_Commit. destruct (current p); simpl; naive_solver. Qed.

Lemma on_tag_slots f p :
  c_end (on_current_tag f p) = c_end p /\ previous (on_current_tag f p) = previous p /\
  finished (on_current_tag f p) = finished p.
Proof. unfold on_current_tag. by destruct (c_state p). Qed.

Lemma Feed_slots emitted mask l p : idle emitted p ->
  c_end (Feed mask l p) = false /\
  (previous (Feed mask l p) = None -> emitted = [] /\ finished (Feed mask l p) = None).
Proof.
  intros H. pose proof (Commit_slots emitted p H) as Hc. destruct H as (He & Hf & Hp).
  unfold Feed. destruct (cue_next_token l) as [[command|] r]; [|naive_solver].
  destruct (command =b lit "REM"); [destruct (on_tag_slots (cue_parse_rem mask r) p) as (-> & -> & ->); naive_solver|].
  destruct (command =b lit "PERFORMER").
  { match goal with |- context [on_current_tag ?f p] => destruct (on_tag_slots f p) as (-> & -> & ->) end.
    naive_solver. }
  destruct (command =b lit "TITLE"); [destruct (c_state p); simpl; naive_solver|].
  destruct (command =b lit "FILE").
  { unfold feed_FILE. repeat (case_match; simpl; try done). }
  destruct (bool_decide _); [naive_solver|].
  destruct (command =b lit "TRACK").
  { unfold feed_TRACK. repeat (case_match; simpl; try done). }
  destruct (bool_decide _); [naive_solver|]. destruct (_ && _); [|naive_solver].
  assert (c_end p = false /\ (previous p = None -> emitted = [] /\ finished p = None)) as Hsame by auto.
  unfold feed_INDEX. destruct (ignore_index p); [done|].
  destruct (cue_next_token r) as [[nr|] r']; [|done].
  destruct (cue_next_token r') as [[position|] ?]; [|done].
  destruct (cue_parse_position position <? 0); [done|]. simpl.
  split; [done|]. destruct (previous p); [done|]. intros _. by apply Hsame.
Qed.

(** One line, and the song it finishes, if any. *)
Lemma Get_Feed emitted mask l p : idle emitted p ->
  let '(o, p') := Get (Feed mask l p) in
  idle (emitted ++ opt_list o) p' /\
  sheet_of (emitted ++ opt_list o) p' = sheet_feed mask l (sheet_of emitted p).
Proof.
  intros H. rewrite <- sheet_of_Feed by done. destruct (Feed_slots emitted mask l p H) as [He Hp].
  unfold Get. rewrite He. destruct (finished (Feed mask l p)) as [s|] eqn:Ef.
  - unfold idle, sheet_of. simpl. rewrite Ef, <- !app_assoc. split; [|done].
    split; [done|]. split; [done|]. intros Hn. by destruct (Hp Hn).
  - unfold idle, sheet_of. simpl. rewrite Ef, app_nil_r. naive_solver.
Qed.

Lemma Get_idle emitted p : idle emitted p -> Get p = (None, p).
Proof. intros (He & Hf & _). unfold Get. rewrite Hf, He. by destruct p; simpl in *; subst. Qed.

Lemma NextSong_idle emitted mask tis p : idle emitted p -> NextSong mask tis p = NextSong_loop mask tis p.
Proof. intros H. unfold NextSong. by rewrite (Get_idle emitted). Qed.

(** At the end the two slots are handed out in turn. *)
Lemma enumerate_ended fuel mask p : c_end p = true -> (length (pending p) < fuel)%nat ->
  enumerate fuel mask [] p = Some (pending p).
Proof.
  revert p. induction fuel as [|fuel IH]; intros p He Hf; [lia|]. cbn [enumerate]. unfold NextSong.
  unfold pending in *. unfold Get at 1. rewrite He.
  destruct (finished p) as [s|] eqn:Efin; [|destruct (previous p) as [s|] eqn:Ep].
  - rewrite IH; [by destruct (previous p)|done|]. simpl in *. destruct (previous p); simpl in *; lia.
  - rewrite IH; [done|done|]. simpl in *. lia.
  - simpl. unfold Finish, Get. simpl. done.
Qed.

Lemma Finish_pending emitted p : idle emitted p ->
  c_end (Finish p) = true /\
  emitted ++ pending (Finish p) = sh_closed (sheet_close (sheet_of emitted p)) /\
  (length (pending (Finish p)) <= 2)%nat.
Proof.
  intros H. rewrite <- sheet_of_Commit by done. destruct H as (He & Hf & Hp).
  unfold Finish. rewrite He. unfold pending. simpl. split; [done|]. split; [done|].
  destruct (finished (cue_Commit p)), (previous (cue_Commit p)); simpl; lia.
Qed.

Lemma enumerate_end fuel mask emitted p : idle emitted p -> (3 <= fuel)%nat ->
  exists rest, enumerate fuel mask [] p = Some rest /\
    emitted ++ rest = sh_closed (sheet_close (sheet_of emitted p)).
Proof.
  intros H Hf. destruct (Finish_pending emitted p H) as (He & Heq & Hlen).
  exists (pending (Finish p)). split; [|done]. destruct fuel as [|fuel]; [lia|].
  cbn [enumerate]. rewrite (NextSong_idle emitted) by done. cbn [NextSong_loop].
  unfold Get. rewrite He. unfold pending in *.
  destruct (finished (Finish p)) as [s|] eqn:E; [|destruct (previous (Finish p)) as [s|] eqn:E'].
  - rewrite enumerate_ended; [by destruct (previous (Finish p))|done|].
    unfold pending. simpl in *. destruct (previous (Finish p)); simpl in *; lia.
  - rewrite enumerate_ended; [done|done|]. unfold pending. simpl. lia.
  - done.
Qed.

Lemma enumerate_spec mask tis : forall fuel emitted p, idle emitted p -> (length tis + 3 <= fuel)%nat ->
  exists rest, enumerate fuel mask tis p = Some rest /\
    emitted ++ rest =
      sh_closed (sheet_close (fold_left (fun h l => sheet_feed mask l h) tis (sheet_of emitted p))).
Proof.
  induction tis as [|l tis IH]; intros fuel emitted p H Hf; [apply enumerate_end; [done|simpl in Hf; lia]|].
  pose proof (Get_Feed emitted mask l p H) as Hg.
  destruct fuel as [|fuel]; [lia|]. simpl in Hf.
  assert (NextSong mask (l :: tis) p = match Get (Feed mask l p) with
    | (Some song, p) => (Some song, tis, p) | (None, p) => NextSong mask tis p end) as Hn.
  { rewrite (NextSong_idle emitted) by done. cbn [NextSong_loop].
    destruct (Get (Feed mask l p)) as [[s|] p']; [done|]. destruct Hg as [Hi _].
    simpl in Hi. rewrite app_nil_r in Hi. by rewrite (NextSong_idle emitted). }
  cbn [fold_left]. cbn [enumerate]. rewrite Hn.
  destruct (Get (Feed mask l p)) as [[s|] p']; destruct Hg as [Hi <-].
  - destruct (IH fuel _ _ Hi) as (rest & -> & Heq); [lia|]. exists (s :: rest). split; [done|].
    rewrite <- Heq. simpl. by rewrite <- app_assoc.
  - destruct (IH (S fuel) _ _ Hi) as (rest & Hr & Heq); [lia|]. exists rest.
    simpl in *. rewrite app_nil_r in *. done.
Qed.

(** ** Invariants of the sheet *)

Lemma AddItem_clean_builder mask b type v : clean_builder b -> clean_builder (AddItem mask b type v).
Proof. apply AddItem_clean. Qed.

Lemma cue_add_tag_clean mask b type src : clean_builder b -> clean_builder (cue_add_tag mask b type src).
Proof.
  intros H. unfold cue_add_tag. destruct (cue_next_value src) as [[v|] ?]; [|done].
  by apply AddItem_clean_builder.
Qed.

Lemma cue_parse_rem_clean mask src b : clean_builder b -> clean_builder (cue_parse_rem mask src b).
Proof.
  intros H. unfold cue_parse_rem. destruct (cue_next_token src) as [[t|] ?]; [|done].
  destruct (tag_name_parse_i t); [|done]. by apply cue_add_tag_clean.
Qed.

Lemma Commit_clean b s : clean_builder b -> clean_song (d_SetTag s (Commit b)).
Proof. intros H. unfold clean_song. simpl. by apply Forall_take. Qed.

Lemma sheet_close_inv h : sheet_inv h -> sheet_inv (sheet_close h) /\ sh_open (sheet_close h) = None.
Proof.
  intros H. pose proof H as [H1 H2 H3 H4]. unfold sheet_close.
  destruct (sh_open h) as [s|] eqn:E; [|by split].
  split; [|done]. split; simpl; [done|by apply Forall_nil|done|].
  apply Forall_app. split; [done|]. apply Forall_singleton. split; [by apply (H3 s)|by apply Commit_clean].
Qed.

Lemma sheet_on_tag_inv f h : (forall b, clean_builder b -> clean_builder (f b)) ->
  sheet_inv h -> sheet_inv (sheet_on_tag f h).
Proof. intros Hf [H1 H2 H3 H4]. unfold sheet_on_tag. destruct (sh_state h); split; simpl; auto. Qed.

Lemma sheet_set_state_inv h s : sheet_inv h -> sheet_inv (sheet_set_state h s).
Proof. intros [H1 H2 H3 H4]. by split. Qed.

Lemma sheet_file_inv src h : sheet_inv h -> sheet_inv (sheet_file src h).
Proof.
  intros [H _]%sheet_close_inv. unfold sheet_file.
  destruct (cue_next_value src) as [[name|] r]; [|done].
  destruct (fst (cue_next_token r)); [|done].
  destruct (existsb _ _); [|by apply sheet_set_state_inv]. destruct H. by split.
Qed.

Lemma sheet_track_inv mask src h : sheet_inv h -> sheet_inv (sheet_track mask src h).
Proof.
  intros [H _]%sheet_close_inv. unfold sheet_track.
  destruct (cue_next_token src) as [[nr|] r]; [|done].
  destruct (fst (cue_next_token r)) as [type|]; [|done].
  destruct (type =b lit "AUDIO"); [|by apply sheet_set_state_inv]. destruct H as [H1 H2 H3 H4].
  split; simpl; [done|by apply AddItem_clean_builder| |done].
  intros s [= <-]. unfold cue_song_ok. simpl. lia.
Qed.

Lemma cue_parse_position_range src : - 2 ^ 31 <= cue_parse_position src < 2 ^ 31.
Proof.
  unfold cue_parse_position. pose proof wrap_s32_range as H.
  destruct (cue_next_unsigned src) as [m r1]. destruct (after_colon r1) as [r2|]; [|lia].
  destruct (cue_next_unsigned r2) as [s r3]. destruct (after_colon r3) as [r4|]; [|lia].
  destruct (cue_next_unsigned r4) as [f [[|]|]]; try lia. apply H.
Qed.

Lemma index_position_range src nr ms : index_position src = Some (nr, ms) -> 0 <= ms < 2 ^ 31.
Proof.
  unfold index_position. destruct (cue_next_token src) as [[n|] r]; [|done].
  destruct (fst (cue_next_token r)) as [pos|]; [|done].
  pose proof (cue_parse_position_range pos).
  destruct (cue_parse_position pos <? 0) eqn:E; [done|]. reflect_bools. intros [= _ <-]. lia.
Qed.

Lemma Forall_alter_last {A} (P : A -> Prop) f l : (forall x, P x -> P (f x)) ->
  Forall P l -> Forall P (alter_last f l).
Proof.
  intros Hf H. induction H as [|x l Hx Hl IH]; [constructor|].
  simpl. destruct l; constructor; auto.
Qed.

Lemma sheet_index_inv src h : sheet_inv h -> sheet_inv (sheet_index src h).
Proof.
  intros [H1 H2 H3 H4]. unfold sheet_index. destruct (sh_ignore h); [by split|].
  destruct (index_position src) as [[nr ms]|] eqn:E; [|by split].
  apply index_position_range in E. assert (u32 ms = ms) as Hms by (apply u32_id; lia).
  split; simpl; try done.
  - intros s. destruct (sh_open h) as [s0|]; [|done]. simpl. intros [= <-].
    destruct (H3 s0 eq_refl) as [_ He]. unfold cue_song_ok, SongTime_FromMS. simpl. rewrite Hms, He. lia.
  - apply Forall_alter_last; [|done]. intros x [(Hs & He & Hse) Hc].
    rewrite Hms. destruct (d_start_time x <? ms) eqn:E2; [|done]. apply Z.ltb_lt in E2.
    split; [|done]. unfold cue_song_ok, SongTime_FromMS. simpl. rewrite Hms. lia.
Qed.

Lemma sheet_feed_inv mask src h : sheet_inv h -> sheet_inv (sheet_feed mask src h).
Proof.
  intros H. unfold sheet_feed. destruct (cue_next_token src) as [[command|] r]; [|done].
  destruct (command =b lit "REM").
  { apply sheet_on_tag_inv; [|done]. intros. by apply cue_parse_rem_clean. }
  destruct (command =b lit "PERFORMER").
  { apply sheet_on_tag_inv; [|done]. intros. by apply cue_add_tag_clean. }
  destruct (command =b lit "TITLE").
  { apply sheet_on_tag_inv; [|done]. intros. by apply cue_add_tag_clean. }
  destruct (command =b lit "FILE"); [by apply sheet_file_inv|].
  destruct (bool_decide _); [done|].
  destruct (command =b lit "TRACK"); [by apply sheet_track_inv|].
  destruct (_ && _); [by apply sheet_index_inv|done].
Qed.

Lemma sheet_run_inv mask file h : sheet_inv h ->
  sheet_inv (fold_left (fun h l => sheet_feed mask l h) file h).
Proof. revert h. induction file; intros h H; [done|]. simpl. apply IHfile. by apply sheet_feed_inv. Qed.

Lemma sheet_new_inv : sheet_inv sheet_new.
Proof. split; simpl; try (by apply Forall_nil); done. Qed.

Lemma idle_new : idle [] CueParser_new.
Proof. done. Qed.

Lemma CuePlaylist_songs_sheet mask file : CuePlaylist_songs mask file = Some (sheet_tracks mask file).
Proof.
  destruct (enumerate_spec mask file (S (S (S (length file)))) [] CueParser_new idle_new)
    as (rest & Hr & Heq); [lia|].
  unfold CuePlaylist_songs. rewrite Hr. f_equal. exact Heq.
Qed.

Lemma cue_scan_unsigned_digits v src :
  cue_scan_unsigned (u32 v) src = (u32 (fst (scan_digits v src)), snd (scan_digits v src)).
Proof.
  revert v. induction src as [|c src IH]; intros v; [done|]. simpl.
  destruct (IsDigitASCII c); [|done]. rewrite <- IH. f_equal.
  unfold u32, wrap_u. rewrite Z.add_mod_idemp_l by lia.
  rewrite <- (Z.add_mod_idemp_l (v mod 2 ^ 32 * 10)), Z.mul_mod_idemp_l by lia.
  by rewrite Z.add_mod_idemp_l by lia.
Qed.

Lemma cue_next_unsigned_print n s : 0 <= n < 2 ^ 32 -> starts_digit s = false ->
  cue_next_unsigned (print_nat n ++ s) = (n, Some s).
Proof.
  intros H Hs. unfold cue_next_unsigned. rewrite print_nat_starts_digit by lia. simpl negb. cbn iota.
  rewrite (cue_scan_unsigned_digits 0), scan_print_nat_app by (done || lia). simpl.
  by rewrite u32_id by lia.
Qed.

(** ** Properties *)

(** Reading a CUE sheet terminates, and the songs the enumerator hands
    out one by one, through the parser's one-song slots, are exactly the
    tracks of the sheet in file order, none lost, none twice. *)
Theorem CuePlaylist_refines_sheet (mask : Z) (file : list bytes) :
  CuePlaylist_songs mask file = Some (sheet_tracks mask file).
Proof. apply CuePlaylist_songs_sheet. Qed.

(** No song of a CUE sheet has an empty or inverted range, whatever the
    INDEX lines say: its end is zero (open) or after its start, and both
    fit into a signed 32-bit number of milliseconds; and all its tag values
    are non-empty, valid UTF-8 and free of control characters. *)
Theorem CuePlaylist_songs_fine (mask : Z) (file : list bytes) :
  exists songs, CuePlaylist_songs mask file = Some songs /\ Forall song_fine songs.
Proof.
  exists (sheet_tracks mask file). split; [apply CuePlaylist_songs_sheet|].
  apply inv_closed, sheet_close_inv, sheet_run_inv, sheet_new_inv.
Qed.

(** A position "MM:SS:FF" within 32 bits is parsed as 75 frames a
    second, rounded down to a millisecond. *)
Theorem cue_parse_position_print (m s f : Z)
  (Hm : 0 <= m < 35791) (Hs : 0 <= s < 60) (Hf : 0 <= f < 75) :
  cue_parse_position (print_nat m ++ lit ":" ++ print_nat s ++ lit ":" ++ print_nat f) =
  (m * 60 + s) * 1000 + f * 1000 / 75.
Proof.
  pose proof (Z.div_pos (f * 1000) 75 ltac:(lia) ltac:(lia)).
  pose proof (Z.div_lt_upper_bound (f * 1000) 75 1000 ltac:(lia) ltac:(lia)).
  unfold cue_parse_position. change (lit ":" ++ ?t) with (":"%char :: t).
  rewrite cue_next_unsigned_print by (done || lia). simpl after_colon. cbn iota.
  rewrite cue_next_unsigned_print by (done || lia). simpl after_colon. cbn iota.
  rewrite <- (app_nil_r (print_nat f)). rewrite cue_next_unsigned_print by (done || lia).
  rewrite (u32_id (m * 60000)), (u32_id (s * 1000)), (u64_id (f * 1000)) by lia.
  rewrite u32_id by lia. rewrite u64_id by lia. rewrite s32_id by lia. lia.
Qed.

Lemma cue_parse_position_print_witness :
  cue_parse_position (print_nat 3 ++ lit ":" ++ print_nat 2 ++ lit ":" ++ print_nat 37) =
  (3 * 60 + 2) * 1000 + 37 * 1000 / 75.
Proof. apply (cue_parse_position_print 3 2 37); lia. Defined.

(** A two-track sheet over one file. *)
Definition sample_sheet : list bytes :=
  [lit "PERFORMER P"; lit "FILE a.flac WAVE"; lit "  TRACK 01 AUDIO"; lit "    INDEX 01 00:00:00";
   lit "  TRACK 02 AUDIO"; lit "    INDEX 00 03:00:00"; lit "    INDEX 01 03:02:37"].

(** The pregap belongs to the first track; the second starts at INDEX 01. *)
Example sample_sheet_ranges :
  option_map (map (fun s => (d_uri s, d_start_time s, d_end_time s)))
    (CuePlaylist_songs global_tag_mask sample_sheet) =
  Some [(lit "a.flac", 0, 182493); (lit "a.flac", 182493, 0)].
Proof. vm_compute. done. Qed.

(** An INDEX of the next file ends the last track of the previous file. *)
Example next_file_truncates_track :
  option_map (map (fun s => (d_uri s, d_start_time s, d_end_time s)))
    (CuePlaylist_songs global_tag_mask
      [lit "FILE a.wav WAVE"; lit "TRACK 01 AUDIO"; lit "INDEX 01 00:00:00";
       lit "FILE b.wav WAVE"; lit "TRACK 02 AUDIO"; lit "INDEX 00 00:00:00"; lit "INDEX 01 00:02:00"]) =
  Some [(lit "a.wav", 0, 2000); (lit "b.wav", 2000, 0)].
Proof. vm_compute. done. Qed.
