(* ===== verification/Playlists.v ===== *)
(** Playlist files known to a directory: [src/db/PlaylistInfo.hxx],
    [src/db/PlaylistVector.cxx] and their text form,
    [src/PlaylistDatabase.cxx].  The vector is a [std::list]. *)
From S2P Require Import Prelude Text Chrono SongSave.
Open Scope Z_scope.

Record PlaylistInfo := mkPlaylistInfo { pl_name : bytes; pl_mtime : Z; pl_mark : bool }.

#[export] Instance PlaylistInfo_eq_dec : EqDecision PlaylistInfo.
Proof. solve_decision. Defined.

(** The constructor; [mark] is uninitialised until it is inserted. *)
Definition PlaylistInfo_new (name : bytes) (mtime : Z) : PlaylistInfo := mkPlaylistInfo name mtime false.

Definition CompareName (name : bytes) (pi : PlaylistInfo) : bool := pl_name pi =b name.

Notation PlaylistVector := (list PlaylistInfo) (only parsing).

Definition pv_find (name : bytes) (pv : PlaylistVector) : option PlaylistInfo :=
  List.find (CompareName name) pv.

Definition pv_exists (name : bytes) (pv : PlaylistVector) : bool :=
  match pv_find name pv with Some _ => true | None => false end.

(** Assignment through the iterator [find] returned: the first match. *)
Fixpoint pv_alter (name : bytes) (f : PlaylistInfo -> PlaylistInfo) (pv : PlaylistVector) : PlaylistVector :=
  match pv with
  | [] => []
  | i :: pv => if CompareName name i then f i :: pv else i :: pv_alter name f pv
  end.

(** The new vector and whether it was modified. *)
Definition UpdateOrInsert (pi : PlaylistInfo) (pv : PlaylistVector) : PlaylistVector * bool :=
  match pv_find (pl_name pi) pv with
  | Some i =>
      if pl_mtime pi =? pl_mtime i then (pv, false)
      else (pv_alter (pl_name pi) (fun i => mkPlaylistInfo (pl_name i) (pl_mtime pi) true) pv, true)
  | None => (pv ++ [mkPlaylistInfo (pl_name pi) (pl_mtime pi) true], true)
  end.

(** [erase(std::string_view)]: the first match. *)
Fixpoint pv_erase (name : bytes) (pv : PlaylistVector) : PlaylistVector * bool :=
  match pv with
  | [] => ([], false)
  | i :: pv =>
      if CompareName name i then (pv, true)
      else let '(pv, r) := pv_erase name pv in (i :: pv, r)
  end.

(** ** PlaylistDatabase.cxx *)

Definition PLAYLIST_META_BEGIN : bytes := lit "playlist_begin: ".
Definition playlist_end : bytes := lit "playlist_end".

Definition playlist_save (pi : PlaylistInfo) : bytes :=
  line (PLAYLIST_META_BEGIN ++ pl_name pi) ++ time_save (lit "mtime") (pl_mtime pi) ++ line playlist_end.

Definition playlist_vector_save (pv : PlaylistVector) : bytes := concat (playlist_save <$> pv).

Fixpoint playlist_metadata_loop (file : LineReader) (pm : PlaylistInfo) {struct file}
  : result (PlaylistInfo * LineReader) :=
  match file with
  | [] => Ok (pm, [])
  | line :: file =>
      if line =b playlist_end then Ok (pm, file)
      else
        match Split line ":" with
        | (_, None) | ([], Some _) => Throw (lit "unknown line in db")
        | (name, Some colon) =>
            let value := StripLeft_c colon in
            if name =b lit "mtime" then
              playlist_metadata_loop file
                (mkPlaylistInfo (pl_name pm) (from_time_t (fst (strtol value))) (pl_mark pm))
            else Throw (lit "unknown line in db")
        end
  end.

Definition playlist_metadata_load (file : LineReader) (pv : PlaylistVector) (name : bytes)
  : result (PlaylistVector * LineReader) :=
  let* p := playlist_metadata_loop file (PlaylistInfo_new name time_point_min) in
  let '(pm, file) := p in
  Ok (fst (UpdateOrInsert pm pv), file).

(** ** Lemmas *)

Definition pl_names (pv : PlaylistVector) : list bytes := pl_name <$> pv.

Lemma pv_find_None name pv : pv_find name pv = None <-> name ∉ pl_names pv.
Proof.
  unfold pv_find, pl_names, CompareName. induction pv as [|i pv IH]; simpl.
  - split; [intros _; apply not_elem_of_nil|done].
  - rewrite not_elem_of_cons. destruct (pl_name i =b name) eqn:E; reflect_bools; naive_solver.
Qed.

Lemma pv_find_Some name pv i : pv_find name pv = Some i -> pl_name i = name /\ i ∈ pv.
Proof.
  intros H. apply List.find_some in H as [Hin Hc]. unfold CompareName in Hc. reflect_bools.
  by rewrite list_elem_of_In.
Qed.

Lemma pv_exists_true name pv : pv_exists name pv = true <-> name ∈ pl_names pv.
Proof.
  unfold pv_exists. destruct (pv_find name pv) as [i|] eqn:E.
  - apply pv_find_Some in E as [<- Hin]. split; [|done]. intros _. by apply list_elem_of_fmap_2.
  - apply pv_find_None in E. done.
Qed.

Lemma pv_alter_names name f pv : (forall i, pl_name (f i) = pl_name i) ->
  pl_names (pv_alter name f pv) = pl_names pv.
Proof.
  intros Hf. unfold pl_names. induction pv as [|i pv IH]; [done|]. simpl.
  destruct (CompareName name i); cbn [fmap list_fmap]; [by rewrite Hf|]. f_equal. apply IH.
Qed.

Lemma pv_find_alter name f pv : (forall i, pl_name (f i) = pl_name i) ->
  pv_find name (pv_alter name f pv) = f <$> pv_find name pv.
Proof.
  intros Hf. unfold pv_find. induction pv as [|i pv IH]; [done|]. simpl.
  destruct (CompareName name i) eqn:E; simpl.
  - assert (CompareName name (f i) = true) as -> by (unfold CompareName in *; by rewrite Hf). done.
  - by rewrite E.
Qed.

Lemma pv_find_alter_ne name name' f pv : (forall i, pl_name (f i) = pl_name i) -> name <> name' ->
  pv_find name' (pv_alter name f pv) = pv_find name' pv.
Proof.
  intros Hf Hne. unfold pv_find. induction pv as [|i pv IH]; [done|]. simpl.
  destruct (CompareName name i) eqn:E; simpl.
  - unfold CompareName in *. reflect_bools. rewrite Hf, E.
    rewrite (proj2 (bytes_eqb_neq name name')) by done. done.
  - by rewrite IH.
Qed.

Lemma pv_find_app name a b :
  pv_find name (a ++ b) = match pv_find name a with Some i => Some i | None => pv_find name b end.
Proof. unfold pv_find. induction a as [|i a IH]; [done|]. simpl. by destruct (CompareName name i). Qed.

Lemma UpdateOrInsert_names pi pv :
  pl_names (fst (UpdateOrInsert pi pv)) =
  if pv_exists (pl_name pi) pv then pl_names pv else pl_names pv ++ [pl_name pi].
Proof.
  unfold UpdateOrInsert, pv_exists. destruct (pv_find (pl_name pi) pv).
  - destruct (_ =? _); [done|]. by apply pv_alter_names.
  - cbn [fst]. unfold pl_names. by rewrite fmap_app.
Qed.

Lemma UpdateOrInsert_NoDup pi pv : NoDup (pl_names pv) -> NoDup (pl_names (fst (UpdateOrInsert pi pv))).
Proof.
  intros H. rewrite UpdateOrInsert_names. destruct (pv_exists (pl_name pi) pv) eqn:E; [done|].
  apply NoDup_app. split; [done|]. split; [|apply NoDup_singleton].
  intros x Hx ->%list_elem_of_singleton. apply pv_exists_true in Hx. congruence.
Qed.

(** What a saved playlist is reloaded as. *)
Definition reload_playlist (pi : PlaylistInfo) : PlaylistInfo :=
  mkPlaylistInfo (pl_name pi)
    (if IsNegative (pl_mtime pi) then time_point_min else whole_seconds (pl_mtime pi)) true.

Definition playlist_ok (pi : PlaylistInfo) : Prop := plain (pl_name pi) /\ pl_mtime pi < 2 ^ 63.

Lemma playlist_load_body pi rest : playlist_ok pi ->
  playlist_metadata_loop
    (file_lines (time_save (lit "mtime") (pl_mtime pi) ++ line playlist_end ++ rest))
    (PlaylistInfo_new (pl_name pi) time_point_min) =
  Ok (mkPlaylistInfo (pl_name pi) (pl_mtime (reload_playlist pi)) false, file_lines rest).
Proof.
  intros [Hn Hm]. unfold time_save, reload_playlist. cbn [pl_mtime].
  destruct (IsNegative (pl_mtime pi)) eqn:E; unfold IsNegative in E; reflect_bools; simpl negb; cbn iota.
  - rewrite app_nil_l, file_lines_line by plain_tac. cbn [playlist_metadata_loop].
    by rewrite bytes_eqb_refl.
  - pose proof (to_time_t_range (pl_mtime pi) ltac:(lia)).
    rewrite print_int_nonneg by lia.
    rewrite file_lines_line by (apply plain_label; [by plain_tac|by plain_tac]).
    cbn [playlist_metadata_loop]. rewrite (proj2 (bytes_eqb_neq _ _)) by discriminate.
    rewrite label_colon by (apply (bool_decide_unpack _); by vm_compute). cbn iota.
    change (lit "mtime" =b lit "mtime") with true. cbn iota.
    rewrite StripLeft_c_space, print_nat_StripLeft_c by lia.
    pose proof (strtol_print (to_time_t (pl_mtime pi)) [] ltac:(lia) eq_refl) as Hs.
    rewrite app_nil_r in Hs. rewrite Hs. cbn [fst PlaylistInfo_new pl_name pl_mark].
    rewrite from_to_time_t by lia.
    rewrite file_lines_line by plain_tac. cbn [playlist_metadata_loop]. by rewrite bytes_eqb_refl.
Qed.

(** Loading one saved playlist into a vector that does not have it. *)
Lemma playlist_load_one pi pv rest : playlist_ok pi -> pl_name pi ∉ pl_names pv ->
  playlist_metadata_load
    (file_lines (time_save (lit "mtime") (pl_mtime pi) ++ line playlist_end ++ rest)) pv (pl_name pi) =
  Ok (pv ++ [reload_playlist pi], file_lines rest).
Proof.
  intros H Hni. unfold playlist_metadata_load. rewrite playlist_load_body by done. cbn [rbind].
  unfold UpdateOrInsert. cbn [pl_name]. by rewrite (proj2 (pv_find_None _ _)).
Qed.

(** ** Properties *)

(** [UpdateOrInsert] leaves exactly one entry for the name if the names
    were distinct before, with the new time stamp; other entries are not
    touched; it reports a modification exactly if the entry is new or its
    time stamp changed, and only then is the entry marked: an unchanged
    entry keeps the mark it had. *)
Theorem UpdateOrInsert_spec (pi : PlaylistInfo) (pv : list PlaylistInfo) (Hnd : NoDup (pl_names pv)) :
  let '(pv', modified) := UpdateOrInsert pi pv in
  NoDup (pl_names pv') /\
  (forall name, name <> pl_name pi -> pv_find name pv' = pv_find name pv) /\
  (exists i, pv_find (pl_name pi) pv' = Some i /\ pl_mtime i = pl_mtime pi /\
     (modified = true -> pl_mark i = true) /\
     (modified = false -> pv' = pv)) /\
  (modified = false <-> exists i, pv_find (pl_name pi) pv = Some i /\ pl_mtime i = pl_mtime pi).
Proof.
  pose proof (UpdateOrInsert_NoDup pi pv Hnd) as Hnd'.
  unfold UpdateOrInsert in *. destruct (pv_find (pl_name pi) pv) as [i|] eqn:E.
  - destruct (Z.eqb_spec (pl_mtime pi) (pl_mtime i)) as [Heq|Hne]; (split; [done|]); split.
    + done.
    + split; [exists i; naive_solver|]. naive_solver.
    + intros name Hn. apply pv_find_alter_ne; [done|]. congruence.
    + split; [|naive_solver]. eexists. rewrite pv_find_alter by done. rewrite E. by simpl.
  - split; [done|]. split; [|split].
    + intros name Hn. rewrite pv_find_app. unfold pv_find at 2. simpl. unfold CompareName. simpl.
      rewrite (proj2 (bytes_eqb_neq (pl_name pi) name)) by congruence. by destruct (pv_find name pv).
    + eexists. rewrite pv_find_app, E. unfold pv_find. simpl. unfold CompareName. simpl.
      rewrite bytes_eqb_refl. by split.
    + naive_solver.
Qed.

Lemma UpdateOrInsert_spec_witness :
  let pv := [mkPlaylistInfo (lit "a.m3u") 5 false] in
  let pi := PlaylistInfo_new (lit "a.m3u") 5 in
  let '(pv', modified) := UpdateOrInsert pi pv in
  NoDup (pl_names pv') /\
  (forall name, name <> pl_name pi -> pv_find name pv' = pv_find name pv) /\
  (exists i, pv_find (pl_name pi) pv' = Some i /\ pl_mtime i = pl_mtime pi /\
     (modified = true -> pl_mark i = true) /\
     (modified = false -> pv' = pv)) /\
  (modified = false <-> exists i, pv_find (pl_name pi) pv = Some i /\ pl_mtime i = pl_mtime pi).
Proof.
  apply (UpdateOrInsert_spec (PlaylistInfo_new (lit "a.m3u") 5) [mkPlaylistInfo (lit "a.m3u") 5 false]).
  apply NoDup_singleton.
Defined.
