(* ===== verification/Directory.v ===== *)
(** The directory tree: [src/db/plugins/simple/Directory] and the parts of
    [Song.cxx] that follow parent pointers.

    A directory owns its children, songs and playlists; [is_root] says
    whether its parent pointer is null.  Where the code follows parent
    pointers, the model passes the root of the tree and the position of a
    directory: the child indices that lead to it.  [mounted_database]
    identifies another database mounted there. *)
From S2P Require Import Prelude Text Chrono Tags Songs SortList SongSort Playlists.
Open Scope Z_scope.

(** Special values of [Directory::device]: [unsigned] constants. *)
Definition DEVICE_INARCHIVE : Z := 2 ^ 32 - 1.
Definition DEVICE_CONTAINER : Z := 2 ^ 32 - 2.
Definition DEVICE_PLAYLIST : Z := 2 ^ 32 - 3.

Inductive Directory := mkDirectory
  { children : list Directory;
    songs : list Song;
    playlists : list PlaylistInfo;
    is_root : bool;
    mtime : Z;
    inode : Z;
    device : Z;
    path : bytes;
    mounted_database : option nat;
    mark : bool }.

(** The constructor. *)
Definition Directory_new (path : bytes) (is_root : bool) : Directory :=
  mkDirectory [] [] [] is_root time_point_min 0 0 path None false.
Definition NewRoot : Directory := Directory_new [] true.

(** Field assignments. *)
Definition with_children (d : Directory) (l : list Directory) : Directory :=
  mkDirectory l (songs d) (playlists d) (is_root d) (mtime d) (inode d) (device d) (path d)
    (mounted_database d) (mark d).
Definition with_songs (d : Directory) (l : list Song) : Directory :=
  mkDirectory (children d) l (playlists d) (is_root d) (mtime d) (inode d) (device d) (path d)
    (mounted_database d) (mark d).
Definition with_playlists (d : Directory) (l : list PlaylistInfo) : Directory :=
  mkDirectory (children d) (songs d) l (is_root d) (mtime d) (inode d) (device d) (path d)
    (mounted_database d) (mark d).
Definition with_mtime (d : Directory) (t : Z) : Directory :=
  mkDirectory (children d) (songs d) (playlists d) (is_root d) t (inode d) (device d) (path d)
    (mounted_database d) (mark d).
Definition with_device (d : Directory) (v : Z) : Directory :=
  mkDirectory (children d) (songs d) (playlists d) (is_root d) (mtime d) (inode d) v (path d)
    (mounted_database d) (mark d).
Definition with_stat (d : Directory) (i v : Z) : Directory :=
  mkDirectory (children d) (songs d) (playlists d) (is_root d) (mtime d) i v (path d)
    (mounted_database d) (mark d).
Definition with_mounted (d : Directory) (m : option nat) : Directory :=
  mkDirectory (children d) (songs d) (playlists d) (is_root d) (mtime d) (inode d) (device d) (path d)
    m (mark d).
Definition with_mark (d : Directory) (m : bool) : Directory :=
  mkDirectory (children d) (songs d) (playlists d) (is_root d) (mtime d) (inode d) (device d) (path d)
    (mounted_database d) m.

Definition IsPlaylist (d : Directory) : bool := device d =? DEVICE_PLAYLIST.
Definition IsReallyAFile (d : Directory) : bool :=
  (device d =? DEVICE_INARCHIVE) || IsPlaylist d || (device d =? DEVICE_CONTAINER).
Definition IsMount (d : Directory) : bool :=
  match mounted_database d with Some _ => true | None => false end.
Definition is_nil {A} (l : list A) : bool := match l with [] => true | _ => false end.
Definition IsEmpty (d : Directory) : bool :=
  is_nil (children d) && is_nil (songs d) && is_nil (playlists d).

(** [GetName] of a child of [parent]: its path without the parent's path
    and the separator. *)
Definition GetName (parent child : Directory) : bytes :=
  if is_root parent then path child else drop (S (length (path parent))) (path child).

(** The new child of [CreateChild], and the directory with it appended. *)
Definition new_child (d : Directory) (name : bytes) : Directory :=
  Directory_new (if is_root d then name else Build (path d) name) false.
Definition CreateChild (d : Directory) (name : bytes) : Directory :=
  with_children d (children d ++ [new_child d name]).

Definition has_name (parent : Directory) (name : bytes) (child : Directory) : bool :=
  GetName parent child =b name.

Definition FindChild (d : Directory) (name : bytes) : option Directory :=
  List.find (has_name d name) (children d).

Fixpoint find_index {A} (f : A -> bool) (l : list A) : option nat :=
  match l with
  | [] => None
  | x :: l => if f x then Some 0%nat else S <$> find_index f l
  end.

(** The position of the child [FindChild] returns. *)
Definition FindChild_pos (d : Directory) (name : bytes) : option nat :=
  find_index (has_name d name) (children d).

(** [MakeChild]: the directory, in which the child now exists. *)
Definition MakeChild (d : Directory) (name : bytes) : Directory :=
  match FindChild d name with
  | Some _ => d
  | None => CreateChild d name
  end.

Definition song_named (name : bytes) (s : Song) : bool := filename s =b name.
Definition FindSong (d : Directory) (name : bytes) : option Song :=
  List.find (song_named name) (songs d).
Definition FindSong_pos (d : Directory) (name : bytes) : option nat :=
  find_index (song_named name) (songs d).
Definition AddSong (d : Directory) (s : Song) : Directory := with_songs d (songs d ++ [s]).

(** [RemoveSong] of the song [FindSong] returns; assignment through it. *)
Fixpoint remove_first {A} (f : A -> bool) (l : list A) : list A :=
  match l with
  | [] => []
  | x :: l => if f x then l else x :: remove_first f l
  end.
Fixpoint alter_first {A} (f : A -> bool) (g : A -> A) (l : list A) : list A :=
  match l with
  | [] => []
  | x :: l => if f x then g x :: l else x :: alter_first f g l
  end.
Definition RemoveSong (d : Directory) (name : bytes) : Directory :=
  with_songs d (remove_first (song_named name) (songs d)).

(** ** Positions *)

Fixpoint dir_at (d : Directory) (pos : list nat) : option Directory :=
  match pos with
  | [] => Some d
  | i :: pos => match children d !! i with Some c => dir_at c pos | None => None end
  end.

Fixpoint alter_dir (f : Directory -> Directory) (pos : list nat) (d : Directory) : Directory :=
  match pos with
  | [] => f d
  | i :: pos => with_children d (alter (alter_dir f pos) i (children d))
  end.

(** ** LookupDirectory *)

(** The loop: the position of the last directory found relative to where
    it started, and the rest of the URI ([None] when it was consumed). *)
Fixpoint LookupDirectory_loop (fuel : nat) (d : Directory) (uri : bytes)
  : list nat * option bytes :=
  match fuel with
  | O => ([], Some uri)
  | S fuel =>
      let '(name, rest) := Split uri SEPARATOR in
      match name with
      | [] => ([], Some uri)
      | _ =>
          match FindChild_pos d name with
          | None => ([], Some uri)
          | Some i =>
              match children d !! i, rest with
              | Some c, Some rest =>
                  let '(pos, r) := LookupDirectory_loop fuel c rest in (i :: pos, r)
              | Some _, None => ([i], None)
              | None, _ => ([], Some uri)
              end
          end
      end
  end.

Record LookupResult := mkLookupResult
  { lr_directory : list nat; lr_uri : bytes; lr_rest : option bytes }.

(** A run of at most as many steps as the URI has bytes; the part that
    resolved keeps its trailing slash. *)
Definition LookupDirectory (d : Directory) (uri : bytes) : LookupResult :=
  if isRootDirectory uri then mkLookupResult [] uri None
  else
    let '(pos, rest) := LookupDirectory_loop (S (length uri)) d uri in
    mkLookupResult pos
      (match rest with None => uri | Some r => take (length uri - length r) uri end) rest.

(** [LookupTargetSong] from the directory at [pos]: the position of the
    song's directory and its index there. *)
Fixpoint LookupTargetSong (fuel : nat) (root : Directory) (pos : list nat) (target : bytes)
  : option (list nat * nat) :=
  match fuel with
  | O => None
  | S fuel =>
      match SkipPrefix target (lit "../") with
      | (true, target) =>
          match pos with
          | [] => None
          | _ => LookupTargetSong fuel root (removelast pos) target
          end
      | (false, target) =>
          match dir_at root pos with
          | None => None
          | Some d =>
              let lr := LookupDirectory d target in
              match dir_at d (lr_directory lr) with
              | None => None
              | Some d' =>
                  match FindSong_pos d' (default [] (lr_rest lr)) with
                  | Some i => Some (pos ++ lr_directory lr, i)
                  | None => None
                  end
              end
          end
      end
  end.

(** ** Song.cxx: targets *)

(** [FindTargetDirectory]: every segment of the path moves up or down. *)
Fixpoint FindTargetDirectory_loop (segs : list bytes) (root : Directory) (pos : list nat)
  : option (list nat) :=
  match segs with
  | [] => Some pos
  | name :: segs =>
      if (name =b []) || (name =b lit ".") then FindTargetDirectory_loop segs root pos
      else if name =b lit ".." then
        match pos with
        | [] => None
        | _ => FindTargetDirectory_loop segs root (removelast pos)
        end
      else
        match dir_at root pos ≫= fun d => FindChild_pos d name with
        | None => None
        | Some i => FindTargetDirectory_loop segs root (pos ++ [i])
        end
  end.

Definition FindTargetDirectory (root : Directory) (pos : list nat) (p : bytes) : option (list nat) :=
  FindTargetDirectory_loop (IterableSplitString p SEPARATOR) root pos.

Definition FindTargetSong (root : Directory) (pos : list nat) (target : bytes) : option Song :=
  let '(p, last) :=
    match SplitLast target SEPARATOR with
    | (p, None) => ([], p)
    | (p, Some last) => (p, last)
    end in
  match last with
  | [] => None
  | _ =>
      FindTargetDirectory root pos p ≫= fun pos =>
      dir_at root pos ≫= fun d => FindSong d last
  end.

(** [Song::Export] of a song in the directory at [pos]. *)
Definition Export (root : Directory) (pos : list nat) (s : Song) : ExportedSong :=
  Song_Export
    (match dir_at root pos with
     | Some d => if is_root d then None else Some (path d)
     | None => None
     end) s
    (if target s =b [] then None else FindTargetSong root pos (target s)).

(** ** Recursive operations *)

Fixpoint ClearInPlaylist (d : Directory) : Directory :=
  mkDirectory (map ClearInPlaylist (children d))
    (map (fun s => Song_with_in_playlist s false) (songs d)) (playlists d)
    (is_root d) (mtime d) (inode d) (device d) (path d) (mounted_database d) (mark d).

Fixpoint PruneEmpty (d : Directory) : Directory :=
  with_children d
    (List.filter (fun c => negb (IsEmpty c && negb (IsMount c))) (map PruneEmpty (children d))).

Definition directory_cmp (IcuCollate : bytes -> bytes -> Z) (a b : Directory) : bool :=
  IcuCollate (path a) (path b) <? 0.

(** Sorting the children and then sorting each of them. *)
Fixpoint Sort (IcuCollate : bytes -> bytes -> Z) (d : Directory) : Directory :=
  mkDirectory (SortList (directory_cmp IcuCollate) (map (Sort IcuCollate) (children d)))
    (song_list_sort IcuCollate (songs d)) (playlists d)
    (is_root d) (mtime d) (inode d) (device d) (path d) (mounted_database d) (mark d).

Record LightDirectory := mkLightDirectory { ld_uri : bytes; ld_mtime : Z }.
Definition Directory_Export (d : Directory) : LightDirectory := mkLightDirectory (path d) (mtime d).

(** ** Induction over the tree *)

Lemma Directory_ind' (P : Directory -> Prop) (H : forall d, Forall P (children d) -> P d) :
  forall d, P d.
Proof.
  fix IH 1. intros [l ? ? ? ? ? ? ? ? ?]. apply H. simpl.
  induction l as [|c l IHl]; constructor; [apply IH|apply IHl].
Qed.

(** ** Well-formed trees *)

Definition child_names (d : Directory) : list bytes := GetName d <$> children d.
Definition song_names (d : Directory) : list bytes := filename <$> songs d.

Definition name_ok (n : bytes) : Prop := n <> [] /\ (SEPARATOR ∉ n).
Definition path_ok (d : Directory) : Prop :=
  if is_root d then path d = [] else path d <> [] /\ List.last (path d) NUL <> SEPARATOR.
Definition child_ok (d c : Directory) : Prop :=
  is_root c = false /\ name_ok (GetName d c) /\ path c = path (new_child d (GetName d c)).

(** Names are unique among the children, the songs and the playlists of
    each directory, and every path is its parent's path, a separator and
    the name. *)
Inductive wf : Directory -> Prop :=
| wf_intro d :
    path_ok d -> NoDup (child_names d) -> NoDup (song_names d) -> NoDup (pl_names (playlists d)) ->
    Forall (child_ok d) (children d) -> Forall wf (children d) -> wf d.

Lemma wf_inv d : wf d -> path_ok d /\ NoDup (child_names d) /\ NoDup (song_names d) /\
  NoDup (pl_names (playlists d)) /\ Forall (child_ok d) (children d) /\ Forall wf (children d).
Proof. by inversion 1. Qed.

#[export] Instance name_ok_dec n : Decision (name_ok n).
Proof. unfold name_ok. apply _. Defined.

Lemma Build_app p n : p <> [] -> List.last p NUL <> SEPARATOR -> name_ok n ->
  Build p n = p ++ SEPARATOR :: n.
Proof.
  intros Hp Hl [Hn Hs]. destruct p as [|c p]; [done|]. destruct n as [|b n]; [done|].
  apply not_elem_of_cons in Hs as [Hb _].
  unfold Build, IsSeparator. rewrite !bool_decide_false by (exact Hl || congruence).
  by rewrite <- app_assoc.
Qed.

Lemma last_name_ok n : name_ok n -> List.last n NUL <> SEPARATOR.
Proof.
  intros [Hn Hs]. destruct (exists_last Hn) as (n' & c & ->). rewrite List.last_last.
  intros ->. apply Hs, elem_of_app. right. by left.
Qed.

(** The path of a new child. *)
Lemma new_child_path d n : path_ok d -> name_ok n ->
  path (new_child d n) = if is_root d then n else path d ++ SEPARATOR :: n.
Proof.
  intros Hp Hn. unfold new_child, path_ok in *. simpl. destruct (is_root d); [done|].
  apply Build_app; tauto.
Qed.

Lemma GetName_path d c n : path_ok d -> name_ok n -> path c = path (new_child d n) -> GetName d c = n.
Proof.
  intros Hp Hn Hc. unfold GetName. rewrite Hc, new_child_path by done.
  destruct (is_root d); [done|]. rewrite drop_app_ge by lia.
  by replace (S (length (path d)) - length (path d))%nat with 1%nat by lia.
Qed.

Lemma GetName_new_child d n : path_ok d -> name_ok n -> GetName d (new_child d n) = n.
Proof. intros. by apply GetName_path. Qed.

Lemma new_child_path_ok d n : path_ok d -> name_ok n -> path_ok (new_child d n).
Proof.
  intros Hp Hn. unfold path_ok at 1. simpl is_root. cbn iota. rewrite new_child_path by done.
  destruct (is_root d); [split; [apply Hn|by apply last_name_ok]|].
  split; [by destruct (path d)|].
  replace (path d ++ SEPARATOR :: n) with ((path d ++ [SEPARATOR]) ++ n) by (by rewrite <- app_assoc).
  rewrite last_app_ne by apply Hn. by apply last_name_ok.
Qed.

Lemma new_child_wf d n : path_ok d -> name_ok n -> wf (new_child d n) /\ child_ok d (new_child d n).
Proof.
  intros Hp Hn. split.
  - constructor; simpl; try apply NoDup_nil_2; try apply Forall_nil; try done.
    by apply new_child_path_ok.
  - unfold child_ok. by rewrite GetName_new_child.
Qed.

(** Replacing the children. *)
Lemma wf_with_children d l : wf d -> NoDup (GetName d <$> l) -> Forall (child_ok d) l ->
  Forall wf l -> wf (with_children d l).
Proof. intros (Hp & _ & Hs & Hpl & _)%wf_inv Hn Hc Hw. by constructor. Qed.

Lemma wf_with_songs d l : wf d -> NoDup (filename <$> l) -> wf (with_songs d l).
Proof. intros (Hp & Hn & _ & Hpl & Hc & Hw)%wf_inv Hs. by constructor. Qed.

Lemma wf_with_playlists d l : wf d -> NoDup (pl_names l) -> wf (with_playlists d l).
Proof. intros (Hp & Hn & Hs & _ & Hc & Hw)%wf_inv Hpl. by constructor. Qed.

(** Updating fields that carry neither names nor content. *)
Definition same_shape (d d' : Directory) : Prop :=
  children d = children d' /\ song_names d = song_names d' /\ playlists d = playlists d' /\
  is_root d = is_root d' /\ path d = path d'.

Lemma wf_same_shape d d' : same_shape d d' -> wf d -> wf d'.
Proof.
  intros (Hc & Hs & Hp & Hr & Hpa) (Hpo & Hn & Hso & Hpl & Hch & Hw)%wf_inv.
  assert (GetName d = GetName d') as Hg by (unfold GetName; by rewrite Hr, Hpa).
  assert (child_ok d = child_ok d') as Hco.
  { unfold child_ok, new_child. rewrite Hg, Hr, Hpa. done. }
  constructor.
  - unfold path_ok in *. by rewrite <- Hr, <- Hpa.
  - unfold child_names in *. by rewrite <- Hg, <- Hc.
  - by rewrite <- Hs.
  - by rewrite <- Hp.
  - by rewrite <- Hco, <- Hc.
  - by rewrite <- Hc.
Qed.

Lemma child_ok_same d c c' : path c' = path c -> is_root c' = is_root c -> child_ok d c -> child_ok d c'.
Proof.
  intros Hp Hr (Hroot & Hn & Hpath). unfold child_ok.
  assert (GetName d c' = GetName d c) as -> by (unfold GetName; by rewrite Hp).
  by rewrite Hr, Hp.
Qed.

Lemma child_path_ok d c : path_ok d -> child_ok d c -> path_ok c.
Proof.
  intros Hp (Hr & Hn & Hc). pose proof (new_child_path_ok d _ Hp Hn) as H.
  unfold path_ok in *. rewrite Hr. simpl in H. simpl in Hc. by rewrite Hc.
Qed.

(** *** Looking up names *)

Lemma find_index_Some {A} (f : A -> bool) l i :
  find_index f l = Some i -> exists x, l !! i = Some x /\ f x = true.
Proof.
  revert i. induction l as [|x l IH]; intros i H; [done|]. simpl in H.
  destruct (f x) eqn:E; [injection H as <-; by exists x|].
  destruct (find_index f l) as [j|] eqn:Ej; [|done]. injection H as <-. by apply IH.
Qed.

Lemma find_index_find {A} (f : A -> bool) l :
  List.find f l = find_index f l ≫= fun i => l !! i.
Proof.
  induction l as [|x l IH]; [done|]. simpl. destruct (f x); [done|]. rewrite IH.
  by destruct (find_index f l).
Qed.

Lemma find_index_unique {A} (key : A -> bytes) l i x : NoDup (key <$> l) -> l !! i = Some x ->
  find_index (fun y => key y =b key x) l = Some i.
Proof.
  revert i. induction l as [|y l IH]; intros [|i] Hnd Hx; try done; simpl in *.
  - injection Hx as ->. by rewrite bytes_eqb_refl.
  - apply NoDup_cons in Hnd as [Hni Hnd]. rewrite (proj2 (bytes_eqb_neq _ _)).
    + by rewrite (IH i).
    + intros E. apply Hni. rewrite E. by eapply list_elem_of_fmap_2, list_elem_of_lookup_2.
Qed.

Lemma find_named_None {A} (key : A -> bytes) l n :
  List.find (fun y => key y =b n) l = None <-> n ∉ (key <$> l).
Proof.
  induction l as [|y l IH]; simpl.
  - split; [intros _; apply not_elem_of_nil|done].
  - rewrite not_elem_of_cons. destruct (key y =b n) eqn:E; reflect_bools; naive_solver.
Qed.

Lemma FindChild_None d n : FindChild d n = None <-> n ∉ child_names d.
Proof. apply (find_named_None (GetName d)). Qed.

Lemma FindSong_None d n : FindSong d n = None <-> n ∉ song_names d.
Proof. apply (find_named_None filename). Qed.

Lemma FindSong_Some d n s : FindSong d n = Some s -> s ∈ songs d /\ filename s = n.
Proof.
  intros H. apply List.find_some in H as [Hin Hn]. unfold song_named in Hn. reflect_bools.
  by rewrite list_elem_of_In.
Qed.

Lemma FindChild_Some d n c : FindChild d n = Some c -> c ∈ children d /\ GetName d c = n.
Proof.
  intros H. apply List.find_some in H as [Hin Hn]. unfold has_name in Hn. reflect_bools.
  by rewrite list_elem_of_In.
Qed.

Lemma FindSong_unique d s : NoDup (song_names d) -> s ∈ songs d -> FindSong d (filename s) = Some s.
Proof.
  intros Hnd [i Hi]%list_elem_of_lookup. unfold FindSong. rewrite find_index_find.
  unfold song_named. by rewrite (find_index_unique filename _ i s Hnd Hi).
Qed.

(** *** The operations keep the tree well-formed *)

Lemma wf_CreateChild d n : wf d -> name_ok n -> n ∉ child_names d -> wf (CreateChild d n).
Proof.
  intros H Hn Hni. pose proof H as (Hp & Hnd & _ & _ & Hc & Hw)%wf_inv.
  destruct (new_child_wf d n Hp Hn) as [Hnw Hnc].
  apply wf_with_children; [done| | |].
  - rewrite fmap_app. apply NoDup_app. split; [done|]. split; [|apply NoDup_singleton].
    intros x Hx Hx'%list_elem_of_singleton. rewrite GetName_new_child in Hx' by done. by subst.
  - apply Forall_app. split; [done|]. by apply Forall_singleton.
  - apply Forall_app. split; [done|]. by apply Forall_singleton.
Qed.

Lemma wf_MakeChild d n : wf d -> name_ok n -> wf (MakeChild d n).
Proof.
  intros H Hn. unfold MakeChild. destruct (FindChild d n) eqn:E; [done|].
  apply wf_CreateChild; [done|done|]. by apply FindChild_None.
Qed.

Lemma wf_AddSong d s : wf d -> filename s ∉ song_names d -> wf (AddSong d s).
Proof.
  intros H Hs. pose proof H as (_ & _ & Hnd & _)%wf_inv. apply wf_with_songs; [done|].
  rewrite fmap_app. apply NoDup_app. split; [done|]. split; [|apply NoDup_singleton].
  intros x Hx ->%list_elem_of_singleton. done.
Qed.

Lemma remove_first_sublist {A} (f : A -> bool) l : sublist (remove_first f l) l.
Proof.
  induction l as [|x l IH]; [constructor|]. simpl. destruct (f x); [by constructor|by constructor].
Qed.

Lemma sublist_NoDup_fmap {A} (key : A -> bytes) l l' : sublist l l' -> NoDup (key <$> l') -> NoDup (key <$> l).
Proof. intros H Hnd. eapply sublist_NoDup; [exact Hnd|]. by apply fmap_sublist. Qed.

Lemma sublist_Forall {A} (P : A -> Prop) l l' : sublist l l' -> Forall P l' -> Forall P l.
Proof.
  induction 1 as [|x l l' _ IH|x l l' _ IH]; intros H; [done| |];
    apply Forall_cons in H as [Hx H]; [constructor|]; auto.
Qed.

Lemma filter_sublist {A} (f : A -> bool) l : sublist (List.filter f l) l.
Proof. induction l as [|x l IH]; simpl; [constructor|]. destruct (f x); by constructor. Qed.

Lemma wf_sub_songs d l : wf d -> sublist l (songs d) -> wf (with_songs d l).
Proof.
  intros H Hl. apply wf_with_songs; [done|]. apply wf_inv in H as (_ & _ & Hs & _).
  by apply (sublist_NoDup_fmap filename l (songs d)).
Qed.

Lemma wf_sub_children d l : wf d -> sublist l (children d) -> wf (with_children d l).
Proof.
  intros H Hl. pose proof H as (_ & Hn & _ & _ & Hc & Hw)%wf_inv. apply wf_with_children; [done| | |].
  - by apply (sublist_NoDup_fmap (GetName d) l (children d)).
  - by eapply sublist_Forall.
  - by eapply sublist_Forall.
Qed.

Lemma wf_RemoveSong d n : wf d -> wf (RemoveSong d n).
Proof. intros H. apply wf_sub_songs; [done|]. apply remove_first_sublist. Qed.

(** A map over the children that keeps their paths. *)
Lemma wf_map_children d f l : wf d -> (forall c, path (f c) = path c /\ is_root (f c) = is_root c) ->
  Forall (fun c => wf c -> wf (f c)) (children d) -> sublist l (f <$> children d) ->
  wf (with_children d l).
Proof.
  intros H Hf IH Hl. pose proof H as (_ & Hn & _ & _ & Hc & Hw)%wf_inv.
  assert (GetName d <$> (f <$> children d) = child_names d) as Hnames.
  { rewrite <- list_fmap_compose. apply list_fmap_ext. intros i c _. unfold compose, GetName.
    by rewrite (proj1 (Hf c)). }
  apply wf_with_children; [done| | |].
  - eapply (sublist_NoDup_fmap (GetName d)); [exact Hl|]. by rewrite Hnames.
  - eapply sublist_Forall; [exact Hl|]. apply Forall_fmap. eapply Forall_impl; [exact Hc|].
    intros c Hco. unfold compose. apply (child_ok_same d c); [apply Hf|apply Hf|done].
  - eapply sublist_Forall; [exact Hl|]. apply Forall_fmap.
    eapply Forall_impl; [apply Forall_and; split; [exact Hw|exact IH]|]. intros c [? ?]. unfold compose. auto.
Qed.

Lemma PruneEmpty_head d : path (PruneEmpty d) = path d /\ is_root (PruneEmpty d) = is_root d.
Proof. by destruct d. Qed.

Lemma Sort_head coll d : path (Sort coll d) = path d /\ is_root (Sort coll d) = is_root d.
Proof. by destruct d. Qed.

Lemma ClearInPlaylist_head d :
  path (ClearInPlaylist d) = path d /\ is_root (ClearInPlaylist d) = is_root d.
Proof. by destruct d. Qed.

Lemma PruneEmpty_eq d : PruneEmpty d =
  with_children d (List.filter (fun c => negb (IsEmpty c && negb (IsMount c))) (PruneEmpty <$> children d)).
Proof. by destruct d. Qed.

Lemma wf_PruneEmpty d : wf d -> wf (PruneEmpty d).
Proof.
  induction d as [d IH] using Directory_ind'. intros H. rewrite PruneEmpty_eq.
  apply (wf_map_children d PruneEmpty); [done|apply PruneEmpty_head|done|apply filter_sublist].
Qed.

(** *** The order of [Sort]: the children are sorted before they are
    sorted themselves, which is the same. *)

Lemma merge_map {A B} (f : A -> B) (p : A -> A -> bool) (q : B -> B -> bool) d s :
  (forall x y, q (f x) (f y) = p x y) -> merge q (map f d) (map f s) = map f (merge p d s).
Proof.
  intros H. revert s. induction d as [|x d IHd]; intros s; [cbn [map]; by rewrite !merge_nil_l|].
  induction s as [|y s IHs]; [cbn [map]; by rewrite !merge_nil_r|].
  cbn [map] in *. rewrite !merge_cons, H. destruct (p y x); cbn [map].
  - by rewrite IHs.
  - by rewrite <- (IHd (y :: s)).
Qed.

Lemma carry_in_map {A B} (f : A -> B) (p : A -> A -> bool) (q : B -> B -> bool) c array :
  (forall x y, q (f x) (f y) = p x y) ->
  carry_in q (map f c) (map (map f) array) = map (map f) (carry_in p c array).
Proof.
  intros H. revert c. induction array as [|a array IH]; intros c; [done|].
  destruct a as [|x a]; [done|]. cbn [carry_in map]. f_equal.
  rewrite !MergeList_merge, <- IH. f_equal. apply (merge_map f p q (x :: a) c H).
Qed.

Lemma SortList_map {A B} (f : A -> B) (p : A -> A -> bool) (q : B -> B -> bool) l :
  (forall x y, q (f x) (f y) = p x y) -> SortList q (map f l) = map f (SortList p l).
Proof.
  intros H.
  assert (forall l array, SortList_loop q (map f l) (map (map f) array) =
    map (map f) (SortList_loop p l array)) as Hloop.
  { clear l. induction l as [|x l IH]; intros array; [done|]. simpl.
    rewrite <- IH. f_equal. apply (carry_in_map f p q [x] array H). }
  assert (forall array c, merge_up q (map f c) (map (map f) array) = map f (merge_up p c array)) as Hup.
  { induction array as [|a array IH]; intros c; [done|]. simpl. rewrite <- IH. f_equal.
    rewrite !MergeList_merge. by apply merge_map. }
  unfold SortList. destruct l as [|x l]; [done|]. specialize (Hloop (x :: l) []).
  cbn [map] in *. rewrite Hloop.
  destruct (SortList_loop p (x :: l) []); [done|]. cbn [map]. apply Hup.
Qed.

Lemma Sort_eq coll d : Sort coll d =
  mkDirectory (Sort coll <$> SortList (directory_cmp coll) (children d))
    (song_list_sort coll (songs d)) (playlists d)
    (is_root d) (mtime d) (inode d) (device d) (path d) (mounted_database d) (mark d).
Proof.
  destruct d as [l ? ? ? ? ? ? ? ? ?]. cbn [Sort children songs playlists is_root mtime inode device path
    mounted_database mark].
  change (Sort coll <$> SortList (directory_cmp coll) l)
    with (map (Sort coll) (SortList (directory_cmp coll) l)).
  rewrite <- (SortList_map (Sort coll) (directory_cmp coll) (directory_cmp coll)); [done|].
  intros x y. unfold directory_cmp. by rewrite !(proj1 (Sort_head coll _)).
Qed.

Lemma wf_Permutation d l : wf d -> l ≡ₚ children d -> wf (with_children d l).
Proof.
  intros H Hl. pose proof H as (_ & Hn & _ & _ & Hc & Hw)%wf_inv.
  apply wf_with_children; [done| | |]; rewrite Hl; done.
Qed.

Lemma wf_Sort coll d : wf d -> wf (Sort coll d).
Proof.
  induction d as [d IH] using Directory_ind'. intros H. rewrite Sort_eq.
  pose proof (SortList_perm_aux (directory_cmp coll) (children d)) as Hperm.
  pose proof (SortList_perm_aux (song_cmp coll) (songs d)) as Hsongs.
  assert (wf (with_children d (Sort coll <$> SortList (directory_cmp coll) (children d)))) as Hw.
  { apply (wf_Permutation d _ H) in Hperm as Hwc.
    apply (wf_map_children (with_children d (SortList (directory_cmp coll) (children d))) (Sort coll));
      [done|apply Sort_head| |done].
    simpl. by rewrite Hperm. }
  apply (wf_with_songs _ (song_list_sort coll (songs d))) in Hw; [done|].
  apply wf_inv in H as (_ & _ & Hs & _). unfold song_names in Hs. unfold song_list_sort. by rewrite Hsongs.
Qed.

Lemma wf_ClearInPlaylist d : wf d -> wf (ClearInPlaylist d).
Proof.
  induction d as [d IH] using Directory_ind'. intros H.
  assert (wf (with_songs (with_children d (ClearInPlaylist <$> children d))
    (map (fun s => Song_with_in_playlist s false) (songs d)))) as Hw.
  { apply wf_with_songs.
    - by apply (wf_map_children d ClearInPlaylist); [|apply ClearInPlaylist_head| |].
    - apply wf_inv in H as (_ & _ & Hs & _).
      change (map (fun s => Song_with_in_playlist s false) (songs d))
        with ((fun s => Song_with_in_playlist s false) <$> songs d).
      by rewrite <- list_fmap_compose. }
  by destruct d.
Qed.

(** *** The songs of a tree, with the paths of their directories *)

Fixpoint all_songs (d : Directory) : list (bytes * Song) :=
  map (pair (path d)) (songs d) ++ concat (map all_songs (children d)).

Fixpoint all_playlists (d : Directory) : list (bytes * PlaylistInfo) :=
  map (pair (path d)) (playlists d) ++ concat (map all_playlists (children d)).

Lemma all_songs_eq d : all_songs d = (pair (path d) <$> songs d) ++ concat (all_songs <$> children d).
Proof. by destruct d. Qed.

Lemma concat_filter_nil {A B} (g : A -> list B) (p : A -> bool) l :
  (forall x, x ∈ l -> p x = false -> g x = []) -> concat (g <$> List.filter p l) = concat (g <$> l).
Proof.
  induction l as [|x l IH]; intros H; [done|]. cbn [List.filter].
  assert (concat (g <$> List.filter p l) = concat (g <$> l)) as Hl
    by (apply IH; intros y Hy; apply H; by right).
  destruct (p x) eqn:E; cbn [fmap list_fmap concat]; rewrite ?H by (try done; by left); cbn; by rewrite ?Hl.
Qed.

Lemma IsEmpty_true d : IsEmpty d = true -> children d = [] /\ songs d = [] /\ playlists d = [].
Proof.
  unfold IsEmpty. intros H. reflect_bools. by destruct (children d), (songs d), (playlists d).
Qed.

Lemma PruneEmpty_all_songs d : all_songs (PruneEmpty d) = all_songs d.
Proof.
  induction d as [d IH] using Directory_ind'. rewrite PruneEmpty_eq, !all_songs_eq.
  cbn [path songs children with_children]. f_equal.
  rewrite concat_filter_nil.
  - rewrite <- list_fmap_compose. f_equal. apply Forall_fmap_ext. exact IH.
  - intros c _ Hc. reflect_bools.
    destruct (IsEmpty_true c) as (Hch & Hs & _); [done|]. by rewrite all_songs_eq, Hch, Hs.
Qed.

Lemma Sort_all_songs coll d : all_songs (Sort coll d) ≡ₚ all_songs d.
Proof.
  induction d as [d IH] using Directory_ind'. rewrite Sort_eq, !all_songs_eq.
  cbn [path songs children]. unfold song_list_sort. rewrite SortList_perm_aux. f_equiv.
  assert (concat (all_songs <$> (Sort coll <$> children d)) ≡ₚ concat (all_songs <$> children d)) as Hch.
  { induction IH as [|c l Hc _ IHl]; [done|]. cbn [fmap list_fmap concat]. by rewrite Hc, IHl. }
  rewrite <- Hch. rewrite (SortList_perm_aux (directory_cmp coll) (children d)). done.
Qed.

(** Every directory below, except mount points, contains something. *)
Inductive pruned : Directory -> Prop :=
| pruned_intro d :
    Forall (fun c => IsMount c = true \/ IsEmpty c = false) (children d) ->
    Forall pruned (children d) -> pruned d.

Lemma PruneEmpty_pruned d : pruned (PruneEmpty d).
Proof.
  induction d as [d IH] using Directory_ind'. rewrite PruneEmpty_eq. constructor; simpl.
  - apply Forall_forall. intros c [_ Hc]%list_elem_of_In%filter_In.
    destruct (IsMount c); [by left|right]. by destruct (IsEmpty c).
  - eapply sublist_Forall; [apply filter_sublist|]. by apply Forall_fmap.
Qed.

Lemma filter_all {A} (p : A -> bool) l : Forall (fun x => p x = true) l -> List.filter p l = l.
Proof. induction 1 as [|x l Hx _ IH]; [done|]. cbn [List.filter]. by rewrite Hx, IH. Qed.

Lemma with_children_id d : with_children d (children d) = d.
Proof. by destruct d. Qed.

Lemma pruned_inv d : pruned d ->
  Forall (fun c => IsMount c = true \/ IsEmpty c = false) (children d) /\ Forall pruned (children d).
Proof. by inversion 1. Qed.

Lemma pruned_PruneEmpty_id d : pruned d -> PruneEmpty d = d.
Proof.
  induction d as [d IH] using Directory_ind'. intros [Hc Hp]%pruned_inv. rewrite PruneEmpty_eq.
  assert (PruneEmpty <$> children d = children d) as ->.
  { clear Hc. induction IH as [|c l Hci _ IHl]; [done|]. apply Forall_cons in Hp as [Hpc Hp].
    rewrite fmap_cons, Hci, IHl by done. done. }
  rewrite filter_all; [apply with_children_id|]. eapply Forall_impl; [exact Hc|].
  intros c [Hm|He]; simpl; [rewrite Hm|rewrite He]; [|done]. by rewrite andb_false_r.
Qed.

(** *** Looking up paths *)

(** The names on the way to a position. *)
Fixpoint names_at (d : Directory) (pos : list nat) : list bytes :=
  match pos with
  | [] => []
  | i :: pos =>
      match children d !! i with
      | Some c => GetName d c :: names_at c pos
      | None => []
      end
  end.

Lemma wf_child d i c : wf d -> children d !! i = Some c -> wf c /\ child_ok d c.
Proof.
  intros (_ & _ & _ & _ & Hc & Hw)%wf_inv Hi. split.
  - by eapply Forall_lookup_1.
  - by eapply (Forall_lookup_1 (child_ok d)).
Qed.

Lemma FindChild_pos_unique d i c : wf d -> children d !! i = Some c ->
  FindChild_pos d (GetName d c) = Some i.
Proof.
  intros (_ & Hn & _)%wf_inv Hi. by apply (find_index_unique (GetName d) (children d) i c).
Qed.

(** The path of a descendant. *)
Lemma path_join d pos d' : wf d -> dir_at d pos = Some d' -> pos <> [] ->
  path d' = (if is_root d then [] else path d ++ [SEPARATOR]) ++ join SEPARATOR (names_at d pos) /\
  Forall name_ok (names_at d pos) /\ names_at d pos <> [].
Proof.
  revert d. induction pos as [|i pos IH]; intros d Hw Hd Hne; [done|].
  cbn [dir_at names_at] in *. destruct (children d !! i) as [c|] eqn:Ei; [|done].
  destruct (wf_child d i c Hw Ei) as [Hwc (Hroot & Hname & Hpath)].
  pose proof Hw as (Hp & _)%wf_inv. rewrite new_child_path in Hpath by done.
  assert (path c = (if is_root d then [] else path d ++ [SEPARATOR]) ++ GetName d c) as Hpc.
  { rewrite Hpath. destruct (is_root d); [done|]. by rewrite <- app_assoc. }
  destruct pos as [|j pos].
  - simpl in Hd. injection Hd as <-. split; [done|]. split; [by apply Forall_singleton|done].
  - destruct (IH c Hwc Hd) as (Hpd & Hok & Hne'); [done|]. split; [|split; [by constructor|done]].
    rewrite Hroot in Hpd. rewrite Hpd, Hpc.
    destruct (names_at c (j :: pos)) as [|n ns] eqn:E; [done|].
    change (join SEPARATOR (GetName d c :: n :: ns))
      with (GetName d c ++ SEPARATOR :: join SEPARATOR (n :: ns)).
    by rewrite <- !app_assoc.
Qed.

Lemma Split_join n ns : SEPARATOR ∉ n ->
  Split (join SEPARATOR (n :: ns)) SEPARATOR =
  (n, match ns with [] => None | _ => Some (join SEPARATOR ns) end).
Proof.
  intros H. destruct ns as [|n' ns]; [by apply Split_none|].
  change (join SEPARATOR (n :: n' :: ns)) with (n ++ SEPARATOR :: join SEPARATOR (n' :: ns)).
  by apply Split_app.
Qed.

Lemma join_length (ns : list bytes) : Forall name_ok ns -> (length ns <= length (join SEPARATOR ns))%nat.
Proof.
  induction 1 as [|n ns [Hn _] _ IH]; [done|]. destruct n as [|c n]; [done|].
  destruct ns as [|n' ns]; [simpl; lia|].
  change (join SEPARATOR ((c :: n) :: n' :: ns)) with ((c :: n) ++ SEPARATOR :: join SEPARATOR (n' :: ns)).
  rewrite length_app. simpl in *. lia.
Qed.

Lemma names_at_length d pos d' : dir_at d pos = Some d' -> length (names_at d pos) = length pos.
Proof.
  revert d. induction pos as [|i pos IH]; intros d H; [done|]. cbn [dir_at names_at] in *.
  destruct (children d !! i) as [c|]; [|done]. simpl. by rewrite (IH c).
Qed.

Lemma LookupDirectory_loop_found fuel d pos d' : wf d -> dir_at d pos = Some d' -> pos <> [] ->
  (length pos <= fuel)%nat ->
  LookupDirectory_loop fuel d (join SEPARATOR (names_at d pos)) = (pos, None).
Proof.
  revert d pos. induction fuel as [|fuel IH]; intros d [|i pos] Hw Hd Hne Hf; try done; simpl in Hf; [lia|].
  destruct (path_join d (i :: pos) d' Hw Hd Hne) as (_ & Hok & _).
  cbn [dir_at names_at] in *. destruct (children d !! i) as [c|] eqn:Ei; [|done].
  apply Forall_cons in Hok as [[Hn Hs] Hok].
  destruct (wf_child d i c Hw Ei) as [Hwc _].
  cbn [LookupDirectory_loop]. rewrite Split_join by done.
  rewrite (FindChild_pos_unique d i c Hw Ei).
  destruct (GetName d c) as [|b n] eqn:En; [done|]. rewrite Ei.
  destruct pos as [|j pos]; [done|].
  destruct (path_join c (j :: pos) d' Hwc Hd) as (_ & _ & Hne'); [done|].
  destruct (names_at c (j :: pos)) as [|n' ns] eqn:E; [done|]. rewrite <- E.
  by rewrite (IH c (j :: pos)) by (done || (simpl in *; lia)).
Qed.

Lemma join_not_root ns : Forall name_ok ns -> ns <> [] -> isRootDirectory (join SEPARATOR ns) = false.
Proof.
  intros H Hne. destruct ns as [|n ns]; [done|]. apply Forall_cons in H as [[Hn Hs] _].
  destruct n as [|c n]; [done|]. apply not_elem_of_cons in Hs as [Hc _].
  unfold isRootDirectory. apply orb_false_iff. split; apply bytes_eqb_neq; [by destruct ns|].
  intros E. assert (c = SEPARATOR); [|congruence]. destruct ns; simpl in E; congruence.
Qed.

(** The loop never needs more than one step per byte of the URI. *)
Lemma LookupDirectory_loop_fuel fuel d uri : (length uri < fuel)%nat ->
  LookupDirectory_loop fuel d uri = LookupDirectory_loop (S (length uri)) d uri.
Proof.
  enough (forall n m d uri, (length uri < n)%nat -> (length uri < m)%nat ->
    LookupDirectory_loop n d uri = LookupDirectory_loop m d uri) as H by (intros; apply H; lia).
  clear. induction n as [|n IH]; intros m d uri Hn Hm; [lia|]. destruct m as [|m]; [lia|].
  cbn [LookupDirectory_loop]. pose proof (Split_spec uri SEPARATOR) as Hs.
  destruct (Split uri SEPARATOR) as [name [rest|]]; destruct name as [|b name]; try done;
    destruct (FindChild_pos d (b :: name)) as [i|]; try done;
    destruct (children d !! i) as [c|]; try done.
  destruct Hs as [-> _]. rewrite length_app in *. simpl in *.
  by rewrite (IH m c rest) by lia.
Qed.

Lemma LookupDirectory_found (root d : Directory) (pos : list nat) : wf root -> is_root root = true ->
  dir_at root pos = Some d -> LookupDirectory root (path d) = mkLookupResult pos (path d) None.
Proof.
  intros Hwf Hroot Hd.
  unfold LookupDirectory. destruct pos as [|i pos].
  - injection Hd as <-. apply wf_inv in Hwf as (Hp & _). unfold path_ok in Hp.
    rewrite Hroot in Hp. by rewrite Hp.
  - destruct (path_join root (i :: pos) d Hwf Hd) as (Hp & Hok & Hne); [done|].
    rewrite Hroot, app_nil_l in Hp. rewrite Hp.
    rewrite join_not_root by done.
    rewrite (LookupDirectory_loop_found _ root (i :: pos) d); try done.
    pose proof (names_at_length root (i :: pos) d Hd) as Hlen.
    pose proof (join_length _ Hok) as Hjoin. rewrite Hlen in Hjoin. lia.
Qed.

(** ** Properties *)

(** Every directory of a well-formed tree is found again by its path:
    [LookupDirectory] leads from the root to exactly that directory and
    consumes the whole path. *)
Theorem LookupDirectory_path (root d : Directory) (pos : list nat)
  (Hwf : wf root) (Hroot : is_root root = true) (Hd : dir_at root pos = Some d) :
  LookupDirectory root (path d) = mkLookupResult pos (path d) None.
Proof. by apply LookupDirectory_found. Qed.

Definition sample_root : Directory :=
  CreateChild (with_children NewRoot [CreateChild (new_child NewRoot (lit "a")) (lit "b")]) (lit "c").

Lemma sample_root_wf : wf sample_root.
Proof.
  unfold sample_root. apply wf_CreateChild; [|apply (bool_decide_unpack _); by vm_compute|
    apply (bool_decide_unpack _); by vm_compute].
  assert (path_ok NewRoot) as Hp by done.
  assert (name_ok (lit "a")) as Ha by (apply (bool_decide_unpack _); by vm_compute).
  destruct (new_child_wf NewRoot (lit "a") Hp Ha) as [Hwa Hca].
  apply wf_with_children.
  - constructor; simpl; try apply NoDup_nil_2; try apply Forall_nil; done.
  - apply NoDup_singleton.
  - apply Forall_singleton. done.
  - apply Forall_singleton. apply wf_CreateChild; [done| |]; apply (bool_decide_unpack _); by vm_compute.
Qed.

Lemma LookupDirectory_path_witness :
  LookupDirectory sample_root (lit "a/b") = mkLookupResult [0%nat; 0%nat] (lit "a/b") None.
Proof.
  apply (LookupDirectory_path sample_root
    (new_child (new_child NewRoot (lit "a")) (lit "b")) [0%nat; 0%nat]);
    [apply sample_root_wf|vm_compute; reflexivity|vm_compute; reflexivity].
Defined.

(** [PruneEmpty] leaves no empty directory other than mount points,
    removes no song, keeps the tree well-formed, and is idempotent. *)
Theorem PruneEmpty_spec (d : Directory) :
  pruned (PruneEmpty d) /\ all_songs (PruneEmpty d) = all_songs d /\
  PruneEmpty (PruneEmpty d) = PruneEmpty d /\ (wf d -> wf (PruneEmpty d)).
Proof.
  pose proof (PruneEmpty_pruned d). split; [done|]. split; [apply PruneEmpty_all_songs|].
  split; [by apply pruned_PruneEmpty_id|apply wf_PruneEmpty].
Qed.

(** The tree is ordered at every level. *)
Inductive sorted_tree (coll : bytes -> bytes -> Z) : Directory -> Prop :=
| sorted_tree_intro d :
    sorted (directory_cmp coll) (children d) -> sorted (song_cmp coll) (songs d) ->
    Forall (sorted_tree coll) (children d) -> sorted_tree coll d.

(** Disc and track numbers everywhere in the tree. *)
Definition tree_numbers_ok (d : Directory) : Prop := Forall (fun e => numbers_ok (snd e)) (all_songs d).

(** With a collation that is a total preorder, [Sort] orders the
    children by path and the songs by [song_cmp] at every level of the
    tree, without losing or adding any song, and keeps it well-formed. *)
Theorem Sort_spec (coll : bytes -> bytes -> Z) (d : Directory)
  (Hcoll : Collation coll) (Hnum : tree_numbers_ok d) :
  sorted_tree coll (Sort coll d) /\ all_songs (Sort coll d) ≡ₚ all_songs d /\
  (wf d -> wf (Sort coll d)).
Proof.
  split; [|split; [apply Sort_all_songs|apply wf_Sort]].
  induction d as [d IH] using Directory_ind'. rewrite Sort_eq.
  assert (StrictWeakOn (directory_cmp coll) (fun _ => True)) as Hd.
  { apply (comparison_strict _ (fun a b => coll (path a) (path b))); [|done].
    by apply (image_comparison _ (fun _ => True) coll path). }
  unfold tree_numbers_ok in Hnum. rewrite all_songs_eq in Hnum. apply Forall_app in Hnum as [Hs Hc].
  constructor; cbn [children songs].
  - change (Sort coll <$> SortList (directory_cmp coll) (children d))
      with (map (Sort coll) (SortList (directory_cmp coll) (children d))).
    rewrite <- (SortList_map (Sort coll) (directory_cmp coll) (directory_cmp coll)).
    + apply (SortList_sorted_aux _ (fun _ => True)). by apply Forall_true.
    + intros x y. unfold directory_cmp. by rewrite !(proj1 (Sort_head coll _)).
  - pose proof (song_cmp_strict coll Hcoll). apply (SortList_sorted_aux _ numbers_ok).
    rewrite Forall_fmap in Hs. exact Hs.
  - apply Forall_fmap. rewrite SortList_perm_aux.
    rewrite Forall_concat, Forall_fmap in Hc.
    eapply Forall_impl; [apply Forall_and; split; [exact IH|exact Hc]|].
    intros c [H1 H2]. by apply H1.
Qed.

Lemma Sort_spec_witness :
  sorted_tree strcmp (Sort strcmp sample_root) /\
  all_songs (Sort strcmp sample_root) ≡ₚ all_songs sample_root /\
  (wf sample_root -> wf (Sort strcmp sample_root)).
Proof. apply (Sort_spec strcmp sample_root); [apply strcmp_collation|].
  unfold tree_numbers_ok. change (all_songs sample_root) with (@nil (bytes * Song)). apply Forall_nil_2.
Defined.
