(* ===== verification/DbSave.v ===== *)
(** The database file: [src/db/plugins/simple/DirectorySave.cxx] and
    [DatabaseSave.cxx].

    Parameters of the text: fmt's rendering of a [double], the version
    string and the file system character set.  Loading is recursive in the
    lines of the file; [fuel] bounds the recursion, and one more than the
    number of lines is always enough ([directory_load_fuel]). *)
From S2P Require Import Prelude Text Chrono Tags Audio Songs SongSave Playlists Directory.
Open Scope Z_scope.

(** ** DirectorySave.cxx *)

Definition DIRECTORY_DIR : bytes := lit "directory: ".
Definition DIRECTORY_TYPE : bytes := lit "type: ".
Definition DIRECTORY_MTIME : bytes := lit "mtime: ".
Definition DIRECTORY_BEGIN : bytes := lit "begin: ".
Definition DIRECTORY_END : bytes := lit "end: ".

(** The argument is an [unsigned]. *)
Definition DeviceToTypeString (device : Z) : option bytes :=
  if device =? DEVICE_INARCHIVE then Some (lit "archive")
  else if device =? DEVICE_CONTAINER then Some (lit "container")
  else if device =? DEVICE_PLAYLIST then Some (lit "playlist")
  else None.

Definition ParseTypeString (type : bytes) : Z :=
  if type =b lit "archive" then DEVICE_INARCHIVE
  else if type =b lit "container" then DEVICE_CONTAINER
  else if type =b lit "playlist" then DEVICE_PLAYLIST
  else 0.

(** The lines before [begin:]. *)
Definition directory_save_header (d : Directory) : bytes :=
  match DeviceToTypeString (u32 (device d)) with
  | Some type => line (DIRECTORY_TYPE ++ type)
  | None => []
  end ++
  (if negb (IsNegative (mtime d)) then line (DIRECTORY_MTIME ++ print_int (to_time_t (mtime d))) else []).

Section Save.
Context (fmt_double : double -> bytes).

Fixpoint directory_save (d : Directory) : bytes :=
  (if is_root d then [] else directory_save_header d ++ line (DIRECTORY_BEGIN ++ path d)) ++
  concat (map (fun child =>
    if IsMount child then []
    else line (DIRECTORY_DIR ++ GetName d child) ++ directory_save child) (children d)) ++
  concat (map (song_save fmt_double) (songs d)) ++
  playlist_vector_save (playlists d) ++
  (if is_root d then [] else line (DIRECTORY_END ++ path d)).

End Save.

(** [None]: not a known header line. *)
Definition ParseLine (d : Directory) (line : bytes) : option Directory :=
  match StringAfterPrefix line DIRECTORY_MTIME with
  | Some p =>
      let mtime := ParseUint64 p in
      Some (if 0 <? mtime then with_mtime d (from_time_t (s64 mtime)) else d)
  | None =>
      match StringAfterPrefix line DIRECTORY_TYPE with
      | Some p => Some (with_device d (ParseTypeString p))
      | None => None
      end
  end.

(** The loop of [directory_load_subdir]. *)
Fixpoint load_header (file : LineReader) (d : Directory) {struct file} : result (Directory * LineReader) :=
  match file with
  | [] => Throw (lit "Unexpected end of file")
  | line :: file =>
      if StringStartsWith line DIRECTORY_BEGIN then Ok (d, file)
      else match ParseLine d line with
           | Some d => load_header file d
           | None => Throw (lit "Malformed line")
           end
  end.

Definition Song_of_loaded (detached : DetachedSong) (target : bytes) (in_playlist : bool) : Song :=
  Song_with_in_playlist (Song_with_target (Song_of_detached detached) target) in_playlist.

(** Membership in the set of the names seen so far. *)
Definition seen (name : bytes) (names : list bytes) : bool := existsb (bytes_eqb name) names.

(** [directory_load], with the two sets of names it keeps.  A subdirectory
    is loaded by [directory_load_subdir], which is inlined here. *)
Fixpoint directory_load (fuel : nat) (file : LineReader) (d : Directory)
  (seen_children seen_songs : list bytes) {struct fuel} : result (Directory * LineReader) :=
  match fuel with
  | O => Throw (lit "out of fuel")
  | S fuel =>
      match file with
      | [] => Ok (d, [])
      | line :: file =>
          if StringStartsWith line DIRECTORY_END then Ok (d, file)
          else match StringAfterPrefix line DIRECTORY_DIR with
          | Some p =>
              let* r := load_header file (new_child d p) in
              let '(child, file) := r in
              let* r := directory_load fuel file child [] [] in
              let '(child, file) := r in
              let name := GetName d child in
              if seen name seen_children then Throw (lit "Duplicate subdirectory")
              else directory_load fuel file (with_children d (children d ++ [child]))
                     (name :: seen_children) seen_songs
          | None =>
              match StringAfterPrefix line SONG_BEGIN with
              | Some name =>
                  let* r := song_load file name in
                  let '(detached, target, in_playlist, file) := r in
                  let song := Song_of_loaded detached target in_playlist in
                  if seen (filename song) seen_songs then Throw (lit "Duplicate song")
                  else directory_load fuel file (AddSong d song) seen_children
                         (filename song :: seen_songs)
              | None =>
                  match StringAfterPrefix line PLAYLIST_META_BEGIN with
                  | Some name =>
                      let* r := playlist_metadata_load file (playlists d) name in
                      let '(pv, file) := r in
                      directory_load fuel file (with_playlists d pv) seen_children seen_songs
                  | None => Throw (lit "Malformed line")
                  end
              end
          end
      end
  end.

(** ** DatabaseSave.cxx *)

Definition DIRECTORY_INFO_BEGIN : bytes := lit "info_begin".
Definition DIRECTORY_INFO_END : bytes := lit "info_end".
Definition DB_FORMAT_PREFIX : bytes := lit "format: ".
Definition DIRECTORY_MPD_VERSION : bytes := lit "mpd_version: ".
Definition DIRECTORY_FS_CHARSET : bytes := lit "fs_charset: ".
Definition DB_TAG_PREFIX : bytes := lit "tag: ".
Definition DB_FORMAT : Z := 2.
Definition OLDEST_DB_FORMAT : Z := 1.

Section Database.
Context (fmt_double : double -> bytes) (VERSION : bytes) (charset : bytes).

Definition db_save_internal (mask : Z) (music_root : Directory) : bytes :=
  line DIRECTORY_INFO_BEGIN ++
  line (DB_FORMAT_PREFIX ++ print_int DB_FORMAT) ++
  line (DIRECTORY_MPD_VERSION ++ VERSION) ++
  line (DIRECTORY_FS_CHARSET ++ charset) ++
  concat (map (fun i => if IsTagEnabled mask i then line (DB_TAG_PREFIX ++ tag_item_names i) else [])
            all_tag_types) ++
  line DIRECTORY_INFO_END ++
  directory_save fmt_double music_root.

(** The local variables of the header loop. *)
Record db_info := mkInfo
  { i_format : Z; found_charset : bool; found_version : bool; i_tags : list TagType }.

Definition db_info_line (ignore_config_mismatches : bool) (line : bytes) (i : db_info) : result db_info :=
  match StringAfterPrefix line DB_FORMAT_PREFIX with
  | Some p => Ok (mkInfo (u32 (atoi p)) (found_charset i) (found_version i) (i_tags i))
  | None =>
      if StringStartsWith line DIRECTORY_MPD_VERSION then
        if found_version i then Throw (lit "Duplicate version line")
        else Ok (mkInfo (i_format i) (found_charset i) true (i_tags i))
      else match StringAfterPrefix line DIRECTORY_FS_CHARSET with
      | Some new_charset =>
          if found_charset i then Throw (lit "Duplicate charset line")
          else
            let i := mkInfo (i_format i) true (found_version i) (i_tags i) in
            if ignore_config_mismatches then Ok i
            else if negb (charset =b []) && negb (new_charset =b charset)
                 then Throw (lit "Existing database has charset")
                 else Ok i
      | None =>
          match StringAfterPrefix line DB_TAG_PREFIX with
          | Some name =>
              if ignore_config_mismatches then Ok i
              else match tag_name_parse name with
                   | None => Throw (lit "Unrecognized tag")
                   | Some tag => Ok (mkInfo (i_format i) (found_charset i) (found_version i) (tag :: i_tags i))
                   end
          | None => Throw (lit "Malformed line")
          end
      end
  end.

Fixpoint db_info_loop (ignore : bool) (file : LineReader) (i : db_info) {struct file}
  : result (db_info * LineReader) :=
  match file with
  | [] => Ok (i, [])
  | line :: file =>
      if line =b DIRECTORY_INFO_END then Ok (i, file)
      else let* i := db_info_line ignore line i in db_info_loop ignore file i
  end.

Definition db_load_internal (mask : Z) (file : LineReader) (music_root : Directory)
  (ignore_config_mismatches : bool) : result Directory :=
  match file with
  | [] => Throw (lit "Database corrupted")
  | line :: file =>
      if negb (line =b DIRECTORY_INFO_BEGIN) then Throw (lit "Database corrupted")
      else
        let* r := db_info_loop ignore_config_mismatches file (mkInfo 0 false false []) in
        let '(i, file) := r in
        if (i_format i <? OLDEST_DB_FORMAT) || (DB_FORMAT <? i_format i)
        then Throw (lit "Database format mismatch")
        else if negb ignore_config_mismatches &&
                existsb (fun t => IsTagEnabled mask t && negb (bool_decide (t ∈ i_tags i))) all_tag_types
        then Throw (lit "Tag list mismatch")
        else
          let* r := directory_load (S (length file)) file music_root [] [] in
          Ok (fst r)
  end.

End Database.

(** ** What a saved tree is reloaded as *)

(** The directory time stamp: whole seconds; second 0 is not read back. *)
Definition reload_mtime (p : Z) : Z :=
  if IsNegative p then time_point_min
  else if 0 <? to_time_t p then whole_seconds p else time_point_min.

Definition reload_device (device : Z) : Z :=
  match DeviceToTypeString (u32 device) with Some t => ParseTypeString t | None => 0 end.

Definition reload_song (s : Song) : Song :=
  Song_of_loaded (reload_detached s) (StripLeft_c (target s)) (in_playlist s).

(** The fields of a subdirectory after its header was read. *)
Definition reload_head (d : Directory) : Directory :=
  mkDirectory [] [] [] false (reload_mtime (mtime d)) 0 (reload_device (device d)) (path d) None false.

(** The contents of a directory. *)
Fixpoint reload_dir (d : Directory) : Directory :=
  let h := if is_root d then NewRoot else reload_head d in
  mkDirectory (concat (map (fun c => if IsMount c then [] else [reload_dir c]) (children d)))
    (map reload_song (songs d)) (map reload_playlist (playlists d))
    (is_root h) (mtime h) (inode h) (device h) (path h) (mounted_database h) (mark h).

(** One-line names and values everywhere in the tree. *)
Inductive tree_ok (fmt_double : double -> bytes) : Directory -> Prop :=
| tree_ok_intro d :
    plain (path d) -> mtime d < 2 ^ 63 ->
    Forall (fun c => plain (GetName d c)) (children d) ->
    Forall (song_ok fmt_double) (songs d) -> Forall playlist_ok (playlists d) ->
    Forall (tree_ok fmt_double) (children d) -> tree_ok fmt_double d.

(** ** Lemmas: fuel *)

Lemma song_load_loop_length file st st' file' :
  song_load_loop file st = Ok (st', file') -> (length file' <= length file)%nat.
Proof.
  revert st. induction file as [|l file IH]; intros st H; simpl in H; [by injection H as <- <-|].
  destruct (l =b SONG_END); [injection H as <- <-; simpl; lia|].
  apply rbind_Ok in H as (st1 & _ & H). apply IH in H. simpl. lia.
Qed.

Lemma song_load_length file uri x file' :
  song_load file uri = Ok (x, file') -> (length file' <= length file)%nat.
Proof.
  unfold song_load. intros H. apply rbind_Ok in H as ([st f] & H & Heq).
  apply song_load_loop_length in H. by injection Heq as <- <-.
Qed.

Lemma playlist_load_length file pv name pv' file' :
  playlist_metadata_load file pv name = Ok (pv', file') -> (length file' <= length file)%nat.
Proof.
  unfold playlist_metadata_load. intros H. apply rbind_Ok in H as ([pm f] & H & Heq).
  injection Heq as _ <-. generalize dependent (PlaylistInfo_new name time_point_min).
  induction file as [|l file IH]; intros p0 H; cbn [playlist_metadata_loop] in H; [by injection H as <- <-|].
  destruct (l =b playlist_end); [injection H as <- <-; simpl; lia|].
  destruct (Split l ":") as [[|c name'] [v|]]; try done.
  destruct (c :: name' =b lit "mtime"); [|done]. apply IH in H. simpl. lia.
Qed.

Lemma load_header_length file d d' file' :
  load_header file d = Ok (d', file') -> (length file' < length file)%nat.
Proof.
  revert d. induction file as [|l file IH]; intros d H; simpl in H; [done|].
  destruct (StringStartsWith l DIRECTORY_BEGIN); [injection H as <- <-; simpl; lia|].
  destruct (ParseLine d l); [|done]. apply IH in H. simpl. lia.
Qed.

Lemma directory_load_length fuel file d sc ss d' file' :
  directory_load fuel file d sc ss = Ok (d', file') -> (length file' <= length file)%nat.
Proof.
  revert file d sc ss d' file'. induction fuel as [|fuel IH]; intros file d sc ss d' file' H; [done|].
  destruct file as [|l file]; cbn [directory_load] in H; [by injection H as <- <-|].
  destruct (StringStartsWith l DIRECTORY_END); [injection H as <- <-; simpl; lia|].
  destruct (StringAfterPrefix l DIRECTORY_DIR).
  { apply rbind_Ok in H as ([c f] & Hh & H). apply rbind_Ok in H as ([c' f'] & Hc & H).
    destruct (seen _ _); [done|]. apply load_header_length in Hh. apply IH in Hc. apply IH in H.
    simpl. lia. }
  destruct (StringAfterPrefix l SONG_BEGIN).
  { apply rbind_Ok in H as ([[[? ?] ?] f] & Hs & H). destruct (seen _ _); [done|].
    apply song_load_length in Hs. apply IH in H. simpl. lia. }
  destruct (StringAfterPrefix l PLAYLIST_META_BEGIN); [|done].
  apply rbind_Ok in H as ([pv f] & Hs & H). apply playlist_load_length in Hs. apply IH in H. simpl. lia.
Qed.

Lemma rbind_ext {A B} (r : result A) (f g : A -> result B) :
  (forall a, r = Ok a -> f a = g a) -> rbind r f = rbind r g.
Proof. destruct r; simpl; auto. Qed.

(** More fuel than lines changes nothing. *)
Lemma directory_load_fuel n m file d sc ss : (length file < n)%nat -> (length file < m)%nat ->
  directory_load n file d sc ss = directory_load m file d sc ss.
Proof.
  revert m file d sc ss. induction n as [|n IH]; intros m file d sc ss Hn Hm; [lia|].
  destruct m as [|m]; [lia|]. destruct file as [|l file]; [done|]. simpl in Hn, Hm.
  cbn [directory_load]. destruct (StringStartsWith l DIRECTORY_END); [done|].
  destruct (StringAfterPrefix l DIRECTORY_DIR).
  { apply rbind_ext. intros [c f] Hh%load_header_length.
    rewrite (IH m f c [] []) by lia.
    apply rbind_ext. intros [c' f'] Hc%directory_load_length.
    destruct (seen _ _); [done|]. apply IH; lia. }
  destruct (StringAfterPrefix l SONG_BEGIN).
  { apply rbind_ext. intros [[[? ?] ?] f] Hs%song_load_length. destruct (seen _ _); [done|]. apply IH; lia. }
  destruct (StringAfterPrefix l PLAYLIST_META_BEGIN); [|done].
  apply rbind_ext. intros [pv f] Hs%playlist_load_length. apply IH; lia.
Qed.

(** With more fuel than lines it never runs out. *)
Lemma song_load_fueled file uri : song_load file uri <> Throw (lit "out of fuel").
Proof.
  unfold song_load.
  pose proof (song_load_loop_known file (mkLoad (DetachedSong_new uri) TagBuilder_new [] false)) as H.
  destruct (forallb _ _); [|by rewrite H]. destruct H as [[st f] ->]. discriminate.
Qed.

Lemma playlist_loop_fueled file pm : playlist_metadata_loop file pm <> Throw (lit "out of fuel").
Proof.
  revert pm. induction file as [|l file IH]; intros pm; [discriminate|]. cbn [playlist_metadata_loop].
  destruct (l =b playlist_end); [discriminate|].
  destruct (Split l ":") as [[|c name] [v|]]; try discriminate.
  cbv zeta. destruct (c :: name =b lit "mtime"); [apply IH|discriminate].
Qed.

Lemma load_header_fueled file d : load_header file d <> Throw (lit "out of fuel").
Proof.
  revert d. induction file as [|l file IH]; intros d; [discriminate|]. cbn [load_header].
  destruct (StringStartsWith l DIRECTORY_BEGIN); [discriminate|].
  destruct (ParseLine d l); [apply IH|discriminate].
Qed.

Lemma rbind_fueled {A B} (r : result A) (f : A -> result B) :
  r <> Throw (lit "out of fuel") -> (forall a, r = Ok a -> f a <> Throw (lit "out of fuel")) ->
  rbind r f <> Throw (lit "out of fuel").
Proof. intros H1 H2. destruct r; [by apply H2|]. cbn [rbind]. congruence. Qed.

Lemma directory_load_fueled n file d sc ss : (length file < n)%nat ->
  directory_load n file d sc ss <> Throw (lit "out of fuel").
Proof.
  revert file d sc ss. induction n as [|n IH]; intros file d sc ss Hn; [lia|].
  destruct file as [|l file]; [discriminate|]. simpl in Hn. cbn [directory_load].
  destruct (StringStartsWith l DIRECTORY_END); [discriminate|].
  destruct (StringAfterPrefix l DIRECTORY_DIR).
  { apply rbind_fueled; [apply load_header_fueled|]. intros [c f] Hh%load_header_length.
    apply rbind_fueled; [apply IH; lia|]. intros [c' f'] Hc%directory_load_length.
    cbv zeta. destruct (seen _ _); [discriminate|]. apply IH; lia. }
  destruct (StringAfterPrefix l SONG_BEGIN).
  { apply rbind_fueled; [apply song_load_fueled|]. intros [[[? ?] ?] f] Hs%song_load_length.
    cbv zeta. destruct (seen _ _); [discriminate|]. apply IH; lia. }
  destruct (StringAfterPrefix l PLAYLIST_META_BEGIN); [|discriminate].
  apply rbind_fueled.
  - unfold playlist_metadata_load. apply rbind_fueled; [apply playlist_loop_fueled|].
    intros [? ?] _. discriminate.
  - intros [pv f] Hs%playlist_load_length. apply IH; lia.
Qed.

(** ** Loading what was saved *)

(** With enough fuel, loading [file] into [d] gives [r]. *)
Definition loads (file : LineReader) (d : Directory) (sc ss : list bytes)
  (r : result (Directory * LineReader)) : Prop :=
  exists n0, forall fuel, (n0 <= fuel)%nat -> directory_load fuel file d sc ss = r.

Lemma loads_S file d sc ss r f : (forall fuel, directory_load (S fuel) file d sc ss = f fuel) ->
  (exists n0, forall fuel, (n0 <= fuel)%nat -> f fuel = r) -> loads file d sc ss r.
Proof.
  intros Hf [n0 H]. exists (S n0). intros [|fuel] Hn; [lia|]. rewrite Hf. apply H. lia.
Qed.

Lemma loads_final file d sc ss r : loads file d sc ss r ->
  directory_load (S (length file)) file d sc ss = r.
Proof.
  intros [n0 H]. rewrite <- (H (n0 + S (length file))%nat) by lia. apply directory_load_fuel; lia.
Qed.

Lemma loads_song name d sc ss r f f' det t i :
  song_load f name = Ok (det, t, i, f') ->
  seen (filename (Song_of_loaded det t i)) ss = false ->
  loads f' (AddSong d (Song_of_loaded det t i)) sc (filename (Song_of_loaded det t i) :: ss) r ->
  loads ((SONG_BEGIN ++ name) :: f) d sc ss r.
Proof.
  intros Hs Hseen H. eapply loads_S; [|exact H]. intros fuel. cbn [directory_load].
  unfold StringStartsWith, StringAfterPrefix. rewrite after_prefix_app.
  simpl starts_with. simpl after_prefix. rewrite Hs. cbn [rbind]. by rewrite Hseen.
Qed.

Lemma loads_playlist name d sc ss r f f' pv :
  playlist_metadata_load f (playlists d) name = Ok (pv, f') ->
  loads f' (with_playlists d pv) sc ss r ->
  loads ((PLAYLIST_META_BEGIN ++ name) :: f) d sc ss r.
Proof.
  intros Hs H. eapply loads_S; [|exact H]. intros fuel. cbn [directory_load].
  unfold StringStartsWith, StringAfterPrefix. rewrite after_prefix_app.
  simpl starts_with. simpl after_prefix. by rewrite Hs.
Qed.

Lemma loads_subdir name d sc ss r f f1 f2 head child :
  load_header f (new_child d name) = Ok (head, f1) ->
  loads f1 head [] [] (Ok (child, f2)) ->
  seen (GetName d child) sc = false ->
  loads f2 (with_children d (children d ++ [child])) (GetName d child :: sc) ss r ->
  loads ((DIRECTORY_DIR ++ name) :: f) d sc ss r.
Proof.
  intros Hh [n1 H1] Hseen [n2 H2]. eapply loads_S.
  - intros fuel. cbn [directory_load]. unfold StringStartsWith, StringAfterPrefix.
    rewrite after_prefix_app. simpl starts_with. cbn iota. rewrite Hh. cbn [rbind]. reflexivity.
  - exists (n1 + n2)%nat. intros fuel Hf. rewrite H1 by lia. cbn [rbind]. rewrite Hseen. apply H2. lia.
Qed.

Lemma loads_end l d sc ss f : loads ((DIRECTORY_END ++ l) :: f) d sc ss (Ok (d, f)).
Proof. exists 1%nat. intros [|fuel] Hf; [lia|]. cbn [directory_load]. unfold StringStartsWith. by rewrite starts_with_app. Qed.

Lemma loads_eof d sc ss : loads [] d sc ss (Ok (d, [])).
Proof. exists 1%nat. intros [|fuel] Hf; [lia|]. done. Qed.

Lemma seen_false name names : name ∉ names -> seen name names = false.
Proof.
  intros H. unfold seen. induction names as [|n names IH]; [done|].
  apply not_elem_of_cons in H as [Hn H]. simpl. rewrite (proj2 (bytes_eqb_neq _ _)) by done. auto.
Qed.

Lemma seen_cons_false name n names : name <> n -> seen name names = false -> seen name (n :: names) = false.
Proof. intros Hn H. unfold seen in *. simpl. by rewrite (proj2 (bytes_eqb_neq _ _)), H. Qed.

(** The songs of a directory. *)
Lemma load_songs fmt_double l : forall rest d sc ss r,
  Forall (song_ok fmt_double) l -> NoDup (filename <$> l) ->
  Forall (fun s => seen (filename s) ss = false) l ->
  (forall ss', loads (file_lines rest) (with_songs d (songs d ++ map reload_song l)) sc ss' r) ->
  loads (file_lines (concat (map (song_save fmt_double) l) ++ rest)) d sc ss r.
Proof.
  induction l as [|s l IH]; intros rest d sc ss r Hok Hnd Hseen H.
  - simpl in *. rewrite app_nil_r in H. specialize (H ss). by destruct d.
  - apply Forall_cons in Hok as [Hs Hok]. apply NoDup_cons in Hnd as [Hni Hnd].
    apply Forall_cons in Hseen as [Hseen1 Hseen]. cbn [map concat]. rewrite <- app_assoc.
    rewrite song_begin_line by apply Hs.
    eapply loads_song; [by apply song_load_body|done|].
    apply IH; [done|done| |].
    + apply Forall_forall. intros x Hx. apply seen_cons_false.
      * intros E. apply Hni. change (filename x = filename s) in E.
        rewrite <- E. by apply list_elem_of_fmap_2.
      * by eapply (proj1 (Forall_forall _ _) Hseen).
    + intros ss'. specialize (H ss'). cbn [map] in H.
      unfold AddSong. cbn [songs with_songs]. rewrite <- app_assoc. exact H.
Qed.

(** Its playlists. *)
Lemma load_playlists l : forall rest d sc ss r,
  Forall playlist_ok l -> NoDup (pl_names l) ->
  Forall (fun p => pl_name p ∉ pl_names (playlists d)) l ->
  loads (file_lines rest) (with_playlists d (playlists d ++ map reload_playlist l)) sc ss r ->
  loads (file_lines (playlist_vector_save l ++ rest)) d sc ss r.
Proof.
  induction l as [|p l IH]; intros rest d sc ss r Hok Hnd Hni H.
  - simpl in *. rewrite app_nil_r in H. by destruct d.
  - apply Forall_cons in Hok as [[Hp Hm] Hok]. apply NoDup_cons in Hnd as [Hnd1 Hnd].
    apply Forall_cons in Hni as [Hni1 Hni].
    unfold playlist_vector_save. cbn [fmap list_fmap concat]. unfold playlist_save.
    rewrite <- !app_assoc. rewrite file_lines_line by (by plain_tac).
    eapply loads_playlist; [by apply playlist_load_one|].
    apply IH; [done|done| |].
    + apply Forall_forall. intros x Hx. simpl. unfold pl_names. rewrite fmap_app, not_elem_of_app.
      split; [by apply (proj1 (Forall_forall _ _) Hni)|].
      cbn [fmap list_fmap]. rewrite list_elem_of_singleton. cbn [reload_playlist pl_name].
      intros E. apply Hnd1. rewrite <- E. by apply list_elem_of_fmap_2.
    + simpl. rewrite <- app_assoc. exact H.
Qed.

Lemma ParseTypeString_save v t : DeviceToTypeString v = Some t ->
  plain t /\ starts_with (DIRECTORY_TYPE ++ t) DIRECTORY_BEGIN = false.
Proof.
  unfold DeviceToTypeString. repeat case_match; try done; intros [= <-];
    (split; [apply (bool_decide_unpack _); by vm_compute|done]).
Qed.

(** The header of a directory. *)
Lemma load_header_saved d rest h : plain (path d) -> mtime d < 2 ^ 63 -> h = Directory_new (path d) false ->
  load_header (file_lines (directory_save_header d ++ line (DIRECTORY_BEGIN ++ path d) ++ rest)) h =
  Ok (reload_head d, file_lines rest).
Proof.
  intros Hp Hm ->. unfold directory_save_header, reload_head, reload_device. rewrite <- app_assoc.
  assert (forall h, load_header (file_lines
    ((if negb (IsNegative (mtime d)) then line (DIRECTORY_MTIME ++ print_int (to_time_t (mtime d))) else [])
      ++ line (DIRECTORY_BEGIN ++ path d) ++ rest)) h =
    Ok (if 0 <? to_time_t (mtime d) then with_mtime h (whole_seconds (mtime d)) else h, file_lines rest)) as Hmt.
  { intros h. unfold IsNegative. destruct (mtime d <? 0) eqn:E; reflect_bools; simpl negb; cbn iota.
    - rewrite app_nil_l, file_lines_line by (by plain_tac). cbn [load_header].
      unfold StringStartsWith. rewrite starts_with_app.
      pose proof (to_time_t_neg (mtime d) ltac:(done)) as Hle.
      by rewrite (proj2 (Z.ltb_ge _ _)).
    - pose proof (to_time_t_range (mtime d) ltac:(lia)).
      rewrite print_int_nonneg by lia.
      rewrite file_lines_line by (by plain_tac). cbn [load_header].
      unfold StringStartsWith. simpl starts_with. cbn iota. unfold ParseLine, StringAfterPrefix.
      rewrite after_prefix_app. unfold ParseUint64.
      pose proof (strtoull_print (to_time_t (mtime d)) [] ltac:(lia) eq_refl) as Hs.
      rewrite app_nil_r in Hs. rewrite Hs. cbn [fst]. rewrite s64_id, from_to_time_t by lia.
      rewrite file_lines_line by (by plain_tac). cbn [load_header]. unfold StringStartsWith.
      by rewrite starts_with_app. }
  assert (reload_mtime (mtime d) =
    if 0 <? to_time_t (mtime d) then whole_seconds (mtime d) else time_point_min) as ->.
  { unfold reload_mtime, IsNegative. destruct (mtime d <? 0) eqn:E; reflect_bools; [|done].
    pose proof (to_time_t_neg (mtime d) ltac:(done)) as Hle.
    by rewrite (proj2 (Z.ltb_ge _ _)). }
  destruct (DeviceToTypeString (u32 (device d))) as [t|] eqn:Et.
  - destruct (ParseTypeString_save _ _ Et) as [Hpt Hb].
    rewrite file_lines_line by (by plain_tac). cbn [load_header]. unfold StringStartsWith.
    rewrite Hb. unfold ParseLine, StringAfterPrefix. rewrite after_prefix_app. simpl after_prefix. cbn iota.
    rewrite Hmt. by destruct (0 <? to_time_t (mtime d)).
  - rewrite app_nil_l, Hmt. by destruct (0 <? to_time_t (mtime d)).
Qed.

Lemma tree_ok_inv f d : tree_ok f d ->
  plain (path d) /\ mtime d < 2 ^ 63 /\ Forall (fun c => plain (GetName d c)) (children d) /\
  Forall (song_ok f) (songs d) /\ Forall playlist_ok (playlists d) /\ Forall (tree_ok f) (children d).
Proof. by inversion 1. Qed.

Lemma reload_dir_head c : is_root c = false -> is_root (reload_dir c) = false /\ path (reload_dir c) = path c.
Proof. intros H. destruct c. simpl in *. by rewrite H. Qed.

Section Load.
Context (fmt_double : double -> bytes).

(** What follows the [directory:] line of a child. *)
Definition child_loads (c : Directory) : Prop := forall rest,
  exists file1,
    load_header (file_lines (directory_save fmt_double c ++ rest)) (Directory_new (path c) false) =
      Ok (reload_head c, file1) /\
    loads file1 (reload_head c) [] [] (Ok (reload_dir c, file_lines rest)).

Definition children_text (d : Directory) (l : list Directory) : bytes :=
  concat (map (fun child =>
    if IsMount child then []
    else line (DIRECTORY_DIR ++ GetName d child) ++ directory_save fmt_double child) l).

Definition children_reloaded (l : list Directory) : list Directory :=
  concat (map (fun c => if IsMount c then [] else [reload_dir c]) l).

Lemma load_children d l : forall rest h sc ss r,
  path_ok d -> is_root h = is_root d -> path h = path d ->
  Forall (child_ok d) l -> Forall (fun c => plain (GetName d c)) l ->
  NoDup (GetName d <$> l) -> Forall (fun c => seen (GetName d c) sc = false) l ->
  Forall (fun c => IsMount c = false -> child_loads c) l ->
  (forall sc', loads (file_lines rest) (with_children h (children h ++ children_reloaded l)) sc' ss r) ->
  loads (file_lines (children_text d l ++ rest)) h sc ss r.
Proof.
  induction l as [|c l IH]; intros rest h sc ss r Hp Hr Hpa Hok Hplain Hnd Hseen Hload H.
  - unfold children_reloaded in H. simpl in *. rewrite app_nil_r in H. specialize (H sc). by destruct h.
  - apply Forall_cons in Hok as [Hc Hok]. apply Forall_cons in Hplain as [Hpc Hplain].
    apply NoDup_cons in Hnd as [Hni Hnd]. apply Forall_cons in Hseen as [Hs Hseen].
    apply Forall_cons in Hload as [Hl Hload].
    unfold children_text, children_reloaded in *. cbn [map concat] in *. destruct (IsMount c) eqn:Em.
    { rewrite app_nil_l in *. by apply (IH rest h sc ss r). }
    rewrite <- !app_assoc. rewrite file_lines_line by (by plain_tac).
    destruct (Hl eq_refl (concat (map (fun child => if IsMount child then []
      else line (DIRECTORY_DIR ++ GetName d child) ++ directory_save fmt_double child) l) ++ rest))
      as (f1 & Hh & Hbody).
    destruct Hc as (Hroot & Hname & Hpath).
    assert (new_child h (GetName d c) = Directory_new (path c) false) as Hnew.
    { rewrite Hpath. unfold new_child. simpl. by rewrite Hr, Hpa. }
    destruct (reload_dir_head c Hroot) as [Hrr Hrp].
    assert (GetName h (reload_dir c) = GetName d c) as Hgn by (unfold GetName; by rewrite Hr, Hpa, Hrp).
    eapply loads_subdir; [by rewrite Hnew|exact Hbody|by rewrite Hgn|].
    rewrite Hgn. apply IH; try done.
    + apply Forall_forall. intros x Hx. apply seen_cons_false.
      * intros E. apply Hni. rewrite <- E. by apply list_elem_of_fmap_2.
      * by apply (proj1 (Forall_forall _ _) Hseen).
    + intros sc'. specialize (H sc'). cbn [children with_children]. rewrite <- app_assoc. exact H.
Qed.

(** The whole content of a directory, loaded into an empty one. *)
Lemma load_content d h out fin :
  wf d -> tree_ok fmt_double d -> children h = [] -> songs h = [] -> playlists h = [] ->
  is_root h = is_root d -> path h = path d ->
  Forall (fun c => IsMount c = false -> child_loads c) (children d) ->
  (forall h' sc ss, loads (file_lines fin) h' sc ss (Ok (h', out))) ->
  loads (file_lines (children_text d (children d) ++ concat (map (song_save fmt_double) (songs d)) ++
    playlist_vector_save (playlists d) ++ fin)) h [] []
    (Ok (mkDirectory (children_reloaded (children d)) (map reload_song (songs d))
           (map reload_playlist (playlists d)) (is_root h) (mtime h) (inode h) (device h) (path h)
           (mounted_database h) (mark h), out)).
Proof.
  intros (Hp & Hn & Hsn & Hpn & Hc & Hw)%wf_inv (Hpl & Hm & Hnames & Hsongs & Hpls & _)%tree_ok_inv
    Ech Eso Epl Hr Hpa Hload Hfin.
  apply (load_children d); try done.
  { by apply Forall_true. }
  intros sc. apply (load_songs fmt_double); [done|done|by apply Forall_true|].
  intros ss. apply load_playlists; [done|done| |].
  { apply Forall_forall. intros x _. cbn [playlists with_songs with_children]. rewrite Epl. apply not_elem_of_nil. }
  cbn [playlists songs children with_songs with_children with_playlists].
  rewrite Ech, Eso, Epl. apply Hfin.
Qed.

Lemma directory_save_eq d : directory_save fmt_double d =
  (if is_root d then [] else directory_save_header d ++ line (DIRECTORY_BEGIN ++ path d)) ++
  children_text d (children d) ++ concat (map (song_save fmt_double) (songs d)) ++
  playlist_vector_save (playlists d) ++
  (if is_root d then [] else line (DIRECTORY_END ++ path d)).
Proof. by destruct d. Qed.

Lemma child_loads_all c : wf c -> tree_ok fmt_double c -> is_root c = false -> child_loads c.
Proof.
  induction c as [c IH] using Directory_ind'. intros Hw Ht Hr rest.
  rewrite directory_save_eq, Hr, <- !app_assoc.
  pose proof Ht as (Hp & Hm & _ & _ & _ & Htc)%tree_ok_inv.
  eexists. split; [by apply load_header_saved|].
  replace (reload_dir c) with (mkDirectory (children_reloaded (children c)) (map reload_song (songs c))
    (map reload_playlist (playlists c)) (is_root (reload_head c)) (mtime (reload_head c))
    (inode (reload_head c)) (device (reload_head c)) (path (reload_head c))
    (mounted_database (reload_head c)) (mark (reload_head c)))
    by (destruct c; simpl in Hr; simpl; by rewrite Hr).
  apply load_content; try done.
  - pose proof Hw as (_ & _ & _ & _ & Hc & Hwc)%wf_inv.
    apply Forall_forall. intros x Hx _.
    pose proof (proj1 (Forall_forall _ _) IH x Hx) as IHx. apply IHx.
    + by apply (proj1 (Forall_forall _ _) Hwc).
    + by apply (proj1 (Forall_forall _ _) Htc).
    + by destruct (proj1 (Forall_forall _ _) Hc x Hx).
  - intros h' sc ss. rewrite file_lines_line by (by plain_tac). apply loads_end.
Qed.

Lemma root_loads d : wf d -> tree_ok fmt_double d -> is_root d = true ->
  directory_load (S (length (file_lines (directory_save fmt_double d))))
    (file_lines (directory_save fmt_double d)) NewRoot [] [] = Ok (reload_dir d, []).
Proof.
  intros Hw Ht Hr. apply loads_final. rewrite directory_save_eq, Hr. rewrite app_nil_l.
  replace (reload_dir d) with (mkDirectory (children_reloaded (children d)) (map reload_song (songs d))
    (map reload_playlist (playlists d)) (is_root NewRoot) (mtime NewRoot)
    (inode NewRoot) (device NewRoot) (path NewRoot)
    (mounted_database NewRoot) (mark NewRoot))
    by (destruct d; simpl in Hr; simpl; by rewrite Hr).
  apply load_content; try done.
  - pose proof Hw as (Hp & _)%wf_inv. unfold path_ok in Hp. rewrite Hr in Hp. by rewrite Hp.
  - pose proof Hw as (_ & _ & _ & _ & Hc & Hwc)%wf_inv. pose proof Ht as (_ & _ & _ & _ & _ & Htc)%tree_ok_inv.
    apply Forall_forall. intros x Hx _. apply child_loads_all.
    + by apply (proj1 (Forall_forall _ _) Hwc).
    + by apply (proj1 (Forall_forall _ _) Htc).
    + by destruct (proj1 (Forall_forall _ _) Hc x Hx).
  - intros. apply loads_eof.
Qed.

End Load.

(** ** The header *)

Section Header.
Context (fmt_double : double -> bytes) (VERSION charset : bytes).

Definition enabled_tags (mask : Z) : list TagType := List.filter (IsTagEnabled mask) all_tag_types.

Lemma existsb_ext {A} (f g : A -> bool) l : (forall x, f x = g x) -> existsb f l = existsb g l.
Proof. intros H. induction l as [|x l IH]; [done|]. simpl. by rewrite H, IH. Qed.

Lemma existsb_false {A} (f : A -> bool) l : (forall x, f x = false) -> existsb f l = false.
Proof. intros H. induction l as [|x l IH]; [done|]. simpl. by rewrite H, IH. Qed.

Lemma enabled_tags_spec mask t : t ∈ enabled_tags mask <-> IsTagEnabled mask t = true.
Proof.
  unfold enabled_tags. rewrite list_elem_of_In, filter_In, <- list_elem_of_In.
  pose proof (all_tag_types_complete t). tauto.
Qed.

Lemma db_info_tag_line ignore t i :
  db_info_line charset ignore (DB_TAG_PREFIX ++ tag_item_names t) i =
  Ok (mkInfo (i_format i) (found_charset i) (found_version i) (if ignore then i_tags i else t :: i_tags i)).
Proof.
  unfold db_info_line, StringAfterPrefix, StringStartsWith. rewrite after_prefix_app.
  simpl after_prefix. simpl starts_with. cbn iota. rewrite tag_name_parse_names. by destruct i, ignore.
Qed.

Lemma db_info_tags ignore mask l : forall rest i,
  db_info_loop charset ignore (file_lines (concat (map (fun t =>
    if IsTagEnabled mask t then line (DB_TAG_PREFIX ++ tag_item_names t) else []) l) ++ rest)) i =
  db_info_loop charset ignore (file_lines rest)
    (mkInfo (i_format i) (found_charset i) (found_version i)
       (if ignore then i_tags i else rev (List.filter (IsTagEnabled mask) l) ++ i_tags i)).
Proof.
  induction l as [|t l IH]; intros rest i; [by destruct i, ignore|].
  cbn [map concat List.filter]. destruct (IsTagEnabled mask t); [|by apply IH].
  rewrite <- app_assoc.
  rewrite file_lines_line by (apply plain_app; [by plain_tac|apply tag_item_names_plain]).
  cbn [db_info_loop]. rewrite (proj2 (bytes_eqb_neq _ _)) by discriminate.
  rewrite db_info_tag_line. cbn [rbind]. rewrite IH. cbn [i_format found_charset found_version i_tags].
  destruct ignore; [done|]. simpl rev. by rewrite <- app_assoc.
Qed.

Lemma db_info_line_format ignore i :
  db_info_line charset ignore (DB_FORMAT_PREFIX ++ print_int DB_FORMAT) i =
  Ok (mkInfo DB_FORMAT (found_charset i) (found_version i) (i_tags i)).
Proof. done. Qed.

Lemma db_info_line_version ignore i : found_version i = false ->
  db_info_line charset ignore (DIRECTORY_MPD_VERSION ++ VERSION) i =
  Ok (mkInfo (i_format i) (found_charset i) true (i_tags i)).
Proof.
  intros H. unfold db_info_line, StringAfterPrefix, StringStartsWith. rewrite starts_with_app.
  simpl after_prefix. cbn iota. by rewrite H.
Qed.

Lemma db_info_line_charset ignore i : found_charset i = false ->
  db_info_line charset ignore (DIRECTORY_FS_CHARSET ++ charset) i =
  Ok (mkInfo (i_format i) true (found_version i) (i_tags i)).
Proof.
  intros H. unfold db_info_line, StringAfterPrefix, StringStartsWith. rewrite after_prefix_app.
  simpl after_prefix. simpl starts_with. cbn iota. rewrite H, bytes_eqb_refl.
  destruct ignore; [done|]. by rewrite andb_false_r.
Qed.

Lemma plain_closed s : bool_decide (plain s) = true -> plain s.
Proof. apply bool_decide_eq_true_1. Qed.

(** The header lines. *)
Lemma db_info_saved ignore mask text : plain VERSION -> plain charset ->
  db_info_loop charset ignore (file_lines (line (DB_FORMAT_PREFIX ++ print_int DB_FORMAT) ++
      line (DIRECTORY_MPD_VERSION ++ VERSION) ++ line (DIRECTORY_FS_CHARSET ++ charset) ++
      concat (map (fun i => if IsTagEnabled mask i then line (DB_TAG_PREFIX ++ tag_item_names i) else [])
            all_tag_types) ++ line DIRECTORY_INFO_END ++ text)) (mkInfo 0 false false []) =
  Ok (mkInfo DB_FORMAT true true (if ignore then [] else rev (enabled_tags mask)), file_lines text).
Proof.
  intros Hv Hc.
  rewrite (file_lines_line (DB_FORMAT_PREFIX ++ print_int DB_FORMAT))
    by (apply plain_closed; vm_compute; reflexivity).
  cbn [db_info_loop].
  rewrite (proj2 (bytes_eqb_neq _ _)) by discriminate. rewrite db_info_line_format. cbn [rbind].
  rewrite (file_lines_line (DIRECTORY_MPD_VERSION ++ VERSION))
    by (apply plain_app; [apply plain_closed; vm_compute; reflexivity|exact Hv]).
  cbn [db_info_loop].
  rewrite (proj2 (bytes_eqb_neq _ _)) by discriminate.
  rewrite db_info_line_version by reflexivity. cbn [rbind].
  rewrite (file_lines_line (DIRECTORY_FS_CHARSET ++ charset))
    by (apply plain_app; [apply plain_closed; vm_compute; reflexivity|exact Hc]).
  cbn [db_info_loop].
  rewrite (proj2 (bytes_eqb_neq _ _)) by discriminate.
  rewrite db_info_line_charset by reflexivity. cbn [rbind].
  rewrite db_info_tags.
  rewrite (file_lines_line DIRECTORY_INFO_END) by (apply plain_closed; vm_compute; reflexivity).
  cbn [db_info_loop]. rewrite bytes_eqb_refl.
  cbn [i_format found_charset found_version i_tags]. rewrite app_nil_r.
  unfold enabled_tags. reflexivity.
Qed.

(** The comparison of the enabled tags with those of the file. *)
Lemma missing_tags mask mask' :
  existsb (fun t => IsTagEnabled mask' t && negb (bool_decide (t ∈ rev (enabled_tags mask)))) all_tag_types =
  existsb (fun t => IsTagEnabled mask' t && negb (IsTagEnabled mask t)) all_tag_types.
Proof.
  apply existsb_ext. intros t. f_equal. f_equal. destruct (IsTagEnabled mask t) eqn:E.
  - apply bool_decide_eq_true. rewrite list_elem_of_In, <- in_rev, <- list_elem_of_In.
    by apply enabled_tags_spec.
  - apply bool_decide_eq_false. rewrite list_elem_of_In, <- in_rev, <- list_elem_of_In.
    intros H%enabled_tags_spec. congruence.
Qed.

(** Loading a file that was saved with the tag mask [mask]. *)
Lemma db_load_header ignore mask mask' d root0 : plain VERSION -> plain charset ->
  db_load_internal charset mask'
    (file_lines (db_save_internal fmt_double VERSION charset mask d)) root0 ignore =
  if negb ignore && existsb (fun t => IsTagEnabled mask' t && negb (IsTagEnabled mask t)) all_tag_types
  then Throw (lit "Tag list mismatch")
  else
    let file := file_lines (directory_save fmt_double d) in
    let* r := directory_load (S (length file)) file root0 [] [] in Ok (fst r).
Proof.
  intros Hv Hc. unfold db_save_internal, db_load_internal.
  rewrite (file_lines_line DIRECTORY_INFO_BEGIN) by (apply plain_closed; vm_compute; reflexivity).
  rewrite bytes_eqb_refl, db_info_saved by assumption. cbn [negb rbind i_format i_tags].
  replace ((DB_FORMAT <? OLDEST_DB_FORMAT) || (DB_FORMAT <? DB_FORMAT)) with false by reflexivity.
  destruct ignore; cbn [negb andb]; cbn iota; [reflexivity|]. rewrite missing_tags. reflexivity.
Qed.
End Header.

(** ** Properties *)

(** C6: loading a saved database gives the saved tree back, up to the
    precision of the text form ([reload_dir]: time stamps in whole
    seconds, no mount points, inode numbers or update marks), for any
    currently enabled set of tags that was enabled when it was saved; if the
    names, paths, URIs and tag values of the tree are lines of text
    ([tree_ok]: no newline, no NUL, no carriage return at the end), as are
    the version and the character set, times are below 2^63, a tag has fewer
    than 65536 items and [strtod] reads durations as they were printed, and
    no line of the saved text has 512 KiB, where the reader gives up. *)
Theorem db_save_load (fmt_double : double -> bytes) (VERSION charset : bytes) (mask mask' : Z)
  (ignore : bool) (root : Directory)
  (Hwf : wf root) (Hroot : is_root root = true) (Hok : tree_ok fmt_double root)
  (Hversion : plain VERSION) (Hcharset : plain charset)
  (Hmask : forall t, IsTagEnabled mask' t = true -> IsTagEnabled mask t = true)
  (Hshort : short_lines (db_save_internal fmt_double VERSION charset mask root) = true) :
  db_load_internal charset mask' (read_lines (db_save_internal fmt_double VERSION charset mask root))
    NewRoot ignore = Ok (reload_dir root).
Proof.
  rewrite read_lines_short by done.
  rewrite db_load_header by done.
  rewrite existsb_false.
  - rewrite andb_false_r. cbn zeta. rewrite root_loads by assumption. reflexivity.
  - intros t. destruct (IsTagEnabled mask' t) eqn:E; [|done]. by rewrite Hmask.
Qed.

(** If a tag is enabled now that was not enabled when the database was
    saved, loading it fails with "Tag list mismatch" (so that a new scan
    is made), unless mismatches are to be ignored. *)
Theorem db_load_tag_mismatch (fmt_double : double -> bytes) (VERSION charset : bytes) (mask mask' : Z)
  (root : Directory) (t : TagType) (Hversion : plain VERSION) (Hcharset : plain charset)
  (Hnew : IsTagEnabled mask' t = true) (Hold : IsTagEnabled mask t = false)
  (Hshort : short_lines (db_save_internal fmt_double VERSION charset mask root) = true) :
  db_load_internal charset mask' (read_lines (db_save_internal fmt_double VERSION charset mask root))
    NewRoot false = Throw (lit "Tag list mismatch").
Proof.
  rewrite read_lines_short, db_load_header by done.
  assert (existsb (fun t => IsTagEnabled mask' t && negb (IsTagEnabled mask t)) all_tag_types = true) as ->;
    [|reflexivity].
  apply existsb_exists. exists t. rewrite <- list_elem_of_In. split; [apply all_tag_types_complete|].
  by rewrite Hnew, Hold.
Qed.

(** The recursion of the loader is bounded by the number of lines: with
    more fuel than lines the result does not depend on the fuel and is
    never the model's "out of fuel", so the loader terminates on every file
    with a tree or one of the errors of the code. *)
Theorem directory_load_terminates (file : list bytes) (d : Directory) (n : nat)
  (Hfuel : (length file < n)%nat) :
  directory_load n file d [] [] = directory_load (S (length file)) file d [] [] /\
  directory_load n file d [] [] <> Throw (lit "out of fuel").
Proof. split; [apply directory_load_fuel; lia|by apply directory_load_fueled]. Qed.

(** A root with one directory that holds a CUE sheet's track and a
    playlist. *)
Definition sample_tree : Directory :=
  mkDirectory
    [mkDirectory [] [sample_song] [mkPlaylistInfo (lit "x.cue") (1700000000 * NS) true]
       false (1700000000 * NS) 7 3 (lit "a") None false]
    [] [] true (-1) 0 0 [] None false.

Lemma sample_tree_ok : wf sample_tree /\ tree_ok sample_fmt sample_tree.
Proof.
  assert (song_ok sample_fmt sample_song) as Hs.
  { split; try (apply (bool_decide_unpack _); vm_compute; exact I); try (vm_compute; done).
    intros _. split; [apply (bool_decide_unpack _); vm_compute; exact I|]. vm_compute. done. }
  split.
  - constructor; try (apply (bool_decide_unpack _); vm_compute; exact I).
    apply Forall_singleton. constructor; try (apply (bool_decide_unpack _); vm_compute; exact I).
    constructor.
  - constructor; try (apply (bool_decide_unpack _); vm_compute; exact I); try (constructor; fail).
    apply Forall_singleton.
    constructor; try (apply (bool_decide_unpack _); vm_compute; exact I); try (constructor; fail).
    by apply Forall_singleton.
Qed.

Lemma db_save_load_witness :
  db_load_internal (lit "UTF-8") 71 (read_lines
    (db_save_internal sample_fmt (lit "0.24") (lit "UTF-8") 127 sample_tree)) NewRoot false =
  Ok (reload_dir sample_tree).
Proof.
  apply (db_save_load sample_fmt (lit "0.24") (lit "UTF-8") 127 71 false sample_tree).
  - apply sample_tree_ok.
  - reflexivity.
  - apply sample_tree_ok.
  - apply (bool_decide_unpack _). vm_compute. exact I.
  - apply (bool_decide_unpack _). vm_compute. exact I.
  - intros t. destruct t; vm_compute; congruence.
  - vm_compute. reflexivity.
Defined.

Lemma db_load_tag_mismatch_witness :
  db_load_internal (lit "UTF-8") 127 (read_lines
    (db_save_internal sample_fmt (lit "0.24") (lit "UTF-8") 7 sample_tree)) NewRoot false =
  Throw (lit "Tag list mismatch").
Proof.
  apply (db_load_tag_mismatch sample_fmt (lit "0.24") (lit "UTF-8") 7 127 sample_tree TAG_TITLE).
  - apply (bool_decide_unpack _). vm_compute. exact I.
  - apply (bool_decide_unpack _). vm_compute. exact I.
  - vm_compute. reflexivity.
  - vm_compute. reflexivity.
  - vm_compute. reflexivity.
Defined.

Lemma directory_load_terminates_witness :
  directory_load 9 [lit "directory: a"; lit "begin: a"] NewRoot [] [] =
    directory_load 3 [lit "directory: a"; lit "begin: a"] NewRoot [] [] /\
  directory_load 9 [lit "directory: a"; lit "begin: a"] NewRoot [] [] <> Throw (lit "out of fuel").
Proof. apply (directory_load_terminates [lit "directory: a"; lit "begin: a"] NewRoot 9). simpl. lia. Defined.
