(* ===== verification/TagScan.v ===== *)
(** Reading the tags of a file: [src/tag/Handler.cxx],
    [src/decoder/DecoderPlugin], [DecoderList], [src/TagFile.cxx],
    [TagStream.cxx] and [TagArchive.cxx].

    A decoder plugin is a record of its tables and its callbacks.  What a
    callback does with the [TagHandler] it is given is the list of handler
    methods it calls, which may depend on the handler's [want_mask].  The
    decoders themselves, the generic APE/ID3 scanner and the opening of
    files are parameters ([System]).  [scan_file] is called from a noexcept
    method, so it is taken not to throw. *)
From S2P Require Import Prelude Text Chrono Utf8 Tags Audio Songs.
Open Scope Z_scope.

(** ** tag/Handler *)

Definition WANT_DURATION : Z := 1.
Definition WANT_TAG : Z := 2.
Definition WANT_PAIR : Z := 4.
Definition WANT_AUDIO_FORMAT : Z := 8.

(** Calls of the methods of [TagHandler] ([OnPicture], which the handlers
    here ignore, left out). *)
Inductive TagEvent :=
| OnDuration (duration : Z)
| OnTag (type : TagType) (value : bytes)
| OnPair (name value : bytes)
| OnAudioFormat (af : AudioFormat).

(** [FullTagHandler]: the builder and the audio format it was given a
    pointer to ([None] is the null pointer). *)
Record FullTagHandler := mkFullTagHandler { h_tag : TagBuilder; h_audio_format : option AudioFormat }.

Definition want_mask (h : FullTagHandler) : Z :=
  Z.lor (Z.lor WANT_DURATION WANT_TAG)
    (Z.lor WANT_PAIR (match h_audio_format h with Some _ => WANT_AUDIO_FORMAT | None => 0 end)).

(** Skip leading zeroes and a non-decimal suffix. *)
Fixpoint take_while (f : byte -> bool) (s : bytes) : bytes :=
  match s with
  | [] => []
  | c :: s => if f c then c :: take_while f s else []
  end.

Definition NormalizeDecimal (s : bytes) : bytes :=
  take_while IsDigitASCII (drop_while (fun ch => bool_decide (ch = "0"%char)) s).

Section Handler.
Context (mask : Z).

Definition AddTagHandler_OnTag (tag : TagBuilder) (type : TagType) (value : bytes) : TagBuilder :=
  let value :=
    if bool_decide (type = TAG_TRACK) || bool_decide (type = TAG_DISC)
    then NormalizeDecimal value else value in
  AddItem mask tag type value.

Definition handle (h : FullTagHandler) (e : TagEvent) : FullTagHandler :=
  match e with
  | OnDuration d => mkFullTagHandler (SetDuration (h_tag h) (s32 d)) (h_audio_format h)
  | OnTag type value => mkFullTagHandler (AddTagHandler_OnTag (h_tag h) type value) (h_audio_format h)
  | OnPair name _ =>
      if StringIsEqualIgnoreCase name (lit "cuesheet")
      then mkFullTagHandler (SetHasPlaylist (h_tag h) true) (h_audio_format h)
      else h
  | OnAudioFormat af =>
      mkFullTagHandler (h_tag h) (match h_audio_format h with Some _ => Some af | None => None end)
  end.

Definition handle_all (h : FullTagHandler) (es : list TagEvent) : FullTagHandler := fold_left handle es h.

End Handler.

(** ** decoder/DecoderPlugin, decoder/DecoderList *)

(** The parts of an input stream that matter here. *)
Record InputStream := mkInputStream { is_uri : bytes; is_mime : option bytes; is_data : bytes }.

Definition StringArrayContainsCase (haystack : list bytes) (needle : bytes) : bool :=
  existsb (fun s => StringIsEqualIgnoreCase s needle) haystack.

Record DecoderPlugin := mkDecoderPlugin
  { suffixes : option (list bytes);
    suffixes_function : option (list bytes);
    mime_types : option (list bytes);
    scan_file : option (bytes -> Z -> bool * list TagEvent);
    scan_stream : option (InputStream -> Z -> result (bool * list TagEvent));
    container_scan : option (bytes -> result (list DetachedSong)) }.

Definition SupportsSuffix (p : DecoderPlugin) (suffix : bytes) : bool :=
  match suffixes p with Some l => StringArrayContainsCase l suffix | None => false end ||
  match suffixes_function p with Some l => existsb (bytes_eqb suffix) l | None => false end.

Definition SupportsMimeType (p : DecoderPlugin) (mime_type : bytes) : bool :=
  match mime_types p with Some l => StringArrayContainsCase l mime_type | None => false end.

Definition SupportsContainerSuffix (p : DecoderPlugin) (suffix : bytes) : bool :=
  match container_scan p with Some _ => SupportsSuffix p suffix | None => false end.

(** The list is that of the enabled plugins. *)
Definition decoder_plugins_supports_suffix (plugins : list DecoderPlugin) (suffix : bytes) : bool :=
  existsb (fun p => SupportsSuffix p suffix) plugins.

(** ** UriExtract.cxx, Path.cxx, MimeType.cxx *)

Definition GetMimeTypeBase (s : bytes) : bytes := fst (Split s ";").

Definition uri_get_suffix (uri : bytes) : bytes :=
  match SplitLast (fst (Split uri "?")) "." with
  | (_, None) | ([], Some _) => []
  | (p, Some suffix) =>
      if bool_decide (List.last p NUL = "/"%char) || bool_decide (List.last p NUL = "\"%char) then []
      else if bool_decide ("/"%char ∈ suffix) || bool_decide ("\"%char ∈ suffix) then []
      else suffix
  end.

(** [Path::GetExtension]: what follows the last dot of the base name, its
    leading dots skipped. *)
Definition GetExtension (path_fs : bytes) : option bytes :=
  snd (SplitLast (drop_while (fun ch => bool_decide (ch = "."%char)) (GetBase path_fs)) ".").

(** ** TagFile.cxx *)

(** What the scan needs from the outside: opening a local file, the generic
    APE/ID3 scanner and the character set of file names. *)
Class System := {
  OpenLocalInputStream : bytes -> result InputStream;
  ScanGenericTags_path : bytes -> Z -> result (list TagEvent);
  ScanGenericTags_stream : InputStream -> Z -> result (list TagEvent);
  PathFromUTF8 : bytes -> option bytes;
  PathToUTF8 : bytes -> bytes }.

(** The throwing conversions; the others return null and the empty string
    instead. *)
Definition FromUTF8Throw `{System} (path_utf8 : bytes) : result bytes :=
  match PathFromUTF8 path_utf8 with Some p => Ok p | None => Throw (lit "Failed to convert from UTF-8") end.
Definition ToUTF8Throw `{System} (path_fs : bytes) : result bytes :=
  match PathToUTF8 path_fs with [] => Throw (lit "Failed to convert to UTF-8") | s => Ok s end.

Section Scan.
Context `{System} (mask : Z) (decoder_plugins : list DecoderPlugin).

Definition TagFileScan_ScanFile (p : DecoderPlugin) (path_fs : bytes) (h : FullTagHandler)
  : bool * FullTagHandler :=
  match scan_file p with
  | Some scan =>
      let '(r, es) := scan path_fs (want_mask h) in
      (r, handle_all mask h es)
  | None => (false, h)
  end.

(** [DecoderPlugin::ScanStream] *)
Definition ScanStream (p : DecoderPlugin) (input : InputStream) (h : FullTagHandler)
  : result (bool * FullTagHandler) :=
  match scan_stream p with
  | Some scan =>
      let* r := scan input (want_mask h) in
      let '(r, es) := r in
      Ok (r, handle_all mask h es)
  | None => Ok (false, h)
  end.

(** The stream is opened for the first plugin that scans streams and
    rewound for the others, which a file allows. *)
Definition TagFileScan_ScanStream (p : DecoderPlugin) (path_fs : bytes) (h : FullTagHandler)
  : result (bool * FullTagHandler) :=
  match scan_stream p with
  | None => Ok (false, h)
  | Some _ =>
      let* input := OpenLocalInputStream path_fs in
      ScanStream p input h
  end.

Definition TagFileScan_Scan (p : DecoderPlugin) (path_fs suffix : bytes) (h : FullTagHandler)
  : result (bool * FullTagHandler) :=
  if SupportsSuffix p suffix then
    match TagFileScan_ScanFile p path_fs h with
    | (true, h) => Ok (true, h)
    | (false, h) => TagFileScan_ScanStream p path_fs h
    end
  else Ok (false, h).

(** The loops over the enabled plugins: up to the first that accepts. *)
Fixpoint scan_plugins (scan : DecoderPlugin -> FullTagHandler -> result (bool * FullTagHandler))
  (plugins : list DecoderPlugin) (h : FullTagHandler) : result (bool * FullTagHandler) :=
  match plugins with
  | [] => Ok (false, h)
  | p :: plugins =>
      let* r := scan p h in
      match r with
      | (true, h) => Ok (true, h)
      | (false, h) => scan_plugins scan plugins h
      end
  end.

Definition ScanFileTagsNoGeneric (path_fs : bytes) (h : FullTagHandler) : result (bool * FullTagHandler) :=
  match GetExtension path_fs with
  | None => Ok (false, h)
  | Some suffix =>
      let suffix_utf8 := PathToUTF8 suffix in
      scan_plugins (fun p => TagFileScan_Scan p path_fs suffix_utf8) decoder_plugins h
  end.

Definition builder_empty (b : TagBuilder) : bool :=
  match b_items b with [] => true | _ => false end.

(** The result is the handler's builder and audio format. *)
Definition ScanFileTagsWithGeneric (path : bytes) (h : FullTagHandler) : result (bool * FullTagHandler) :=
  let* r := ScanFileTagsNoGeneric path h in
  match r with
  | (false, h) => Ok (false, h)
  | (true, h) =>
      if builder_empty (h_tag h) then
        let* es := ScanGenericTags_path path (want_mask h) in
        Ok (true, handle_all mask h es)
      else Ok (true, h)
  end.

(** ** TagStream.cxx *)

Definition is_empty_view (s : bytes) : bool := match s with [] => true | _ => false end.

Definition CheckDecoderPlugin (p : DecoderPlugin) (suffix mime : bytes) : bool :=
  (negb (is_empty_view mime) && SupportsMimeType p mime) ||
  (negb (is_empty_view suffix) && SupportsSuffix p suffix).

(** [tag_stream_scan(InputStream &, TagHandler &)]; the rewind before each
    plugin leaves the same stream. *)
Definition tag_stream_scan_handler (input : InputStream) (h : FullTagHandler)
  : result (bool * FullTagHandler) :=
  let suffix := uri_get_suffix (is_uri input) in
  let full_mime := is_mime input in
  if is_empty_view suffix && match full_mime with None => true | Some _ => false end then Ok (false, h)
  else
    let mime_base := match full_mime with Some m => GetMimeTypeBase m | None => [] end in
    scan_plugins (fun p h => if CheckDecoderPlugin p suffix mime_base then ScanStream p input h else Ok (false, h))
      decoder_plugins h.

(** The overload for a builder and an audio format. *)
Definition tag_stream_scan (input : InputStream) (h : FullTagHandler) : result (bool * FullTagHandler) :=
  let* r := tag_stream_scan_handler input h in
  match r with
  | (false, h) => Ok (false, h)
  | (true, h) =>
      if builder_empty (h_tag h) then
        let* es := ScanGenericTags_stream input (want_mask h) in
        Ok (true, handle_all mask h es)
      else Ok (true, h)
  end.

(** ** TagArchive.cxx: any exception means that nothing was found *)
Definition tag_archive_scan (open_stream : result (option InputStream)) (builder : TagBuilder)
  : bool * TagBuilder :=
  match open_stream with
  | Ok (Some input) =>
      match tag_stream_scan input (mkFullTagHandler builder None) with
      | Ok (r, h) => (r, h_tag h)
      | Throw _ => (false, builder)
      end
  | _ => (false, builder)
  end.
End Scan.

(** ** Lemmas *)

(** Every value in the builder is clean and of an enabled type, and track
    and disc numbers are decimal without a leading zero. *)
Definition decimal (v : bytes) : Prop :=
  Forall (fun c => IsDigitASCII c = true) v /\ head v <> Some "0"%char.
Definition item_ok (mask : Z) (i : TagItem) : Prop :=
  clean_value (ti_value i) /\ IsTagEnabled mask (ti_type i) = true /\
  (ti_type i = TAG_TRACK \/ ti_type i = TAG_DISC -> decimal (ti_value i)).
Definition builder_ok (mask : Z) (b : TagBuilder) : Prop := Forall (item_ok mask) (b_items b).

Lemma take_while_Forall f s : Forall (fun c => f c = true) (take_while f s).
Proof. induction s as [|c s IH]; simpl; [done|]. destruct (f c) eqn:E; by constructor. Qed.

Lemma take_while_head f s c : head (take_while f s) = Some c -> head s = Some c.
Proof. destruct s as [|d s]; simpl; [done|]. by destruct (f d). Qed.

Lemma NormalizeDecimal_decimal s : decimal (NormalizeDecimal s).
Proof.
  split; [apply take_while_Forall|]. intros H%take_while_head.
  pose proof (drop_while_head (fun ch => bool_decide (ch = "0"%char)) s) as Hh.
  destruct (drop_while _ s) as [|c r]; [done|]. simpl in *. by simplify_eq.
Qed.

Lemma digits_fixed v : Forall (fun c => IsDigitASCII c = true) v -> fixed_tag_string v = v.
Proof.
  intros H. assert (IsSafe v = true) as [Hv Hp]%IsSafe_valid.
  - unfold IsSafe. apply forallb_forall. intros c Hc.
    rewrite Forall_forall in H. specialize (H c (proj2 (list_elem_of_In _ _) Hc)). revert H. by all_bytes c.
  - by apply fixed_tag_string_id.
Qed.

Lemma AddItem_item_ok mask b type v : builder_ok mask b ->
  (type = TAG_TRACK \/ type = TAG_DISC -> decimal v) -> builder_ok mask (AddItem mask b type v).
Proof.
  intros Hb Hd. unfold AddItem. destruct (v =b []) eqn:E; [done|].
  destruct (IsTagEnabled mask type) eqn:Et; simpl; [|done].
  apply Forall_app. split; [done|]. apply Forall_singleton.
  change (item_ok mask (mkTagItem type (fixed_tag_string v))).
  apply bytes_eqb_neq in E. destruct (fixed_tag_string_valid v) as (Hv & Hp & Hl).
  split; [|split; [done|]].
  - split; [|done]. simpl. intros H0. rewrite H0 in Hl. by destruct v.
  - intros Ht. simpl. destruct (Hd Ht) as [Hdig Hh]. by rewrite digits_fixed.
Qed.

Lemma handle_ok mask h e : builder_ok mask (h_tag h) -> builder_ok mask (h_tag (handle mask h e)).
Proof.
  intros Hb. destruct e as [d|type v|name v|af]; simpl; try done.
  - apply AddItem_item_ok; [done|]. intros [-> | ->]; apply NormalizeDecimal_decimal.
  - by destruct (StringIsEqualIgnoreCase name _).
Qed.

(** A scan changes the handler by calls of its methods only: what every
    call that the plugins and the generic scanner make keeps is kept by the
    scan. *)
Class ScanLaws `{System} (mask : Z) (plugins : list DecoderPlugin)
  (event_p : TagEvent -> Prop) (handler_p : FullTagHandler -> Prop) : Prop := {
  handle_p : forall h e, event_p e -> handler_p h -> handler_p (handle mask h e);
  scan_file_p : forall p scan path_fs want r es, p ∈ plugins -> scan_file p = Some scan ->
    scan path_fs want = (r, es) -> Forall event_p es;
  scan_stream_p : forall p scan input want r es, p ∈ plugins -> scan_stream p = Some scan ->
    scan input want = Ok (r, es) -> Forall event_p es;
  generic_path_p : forall path want es, ScanGenericTags_path path want = Ok es -> Forall event_p es;
  generic_stream_p : forall input want es, ScanGenericTags_stream input want = Ok es -> Forall event_p es }.

Section ScanLemmas.
Context `{Hsys : System} {mask : Z} {plugins : list DecoderPlugin} {event_p : TagEvent -> Prop} {handler_p : FullTagHandler -> Prop}.
Context {Hlaws : ScanLaws mask plugins event_p handler_p}.

Lemma handle_all_p es h : Forall event_p es -> handler_p h -> handler_p (handle_all mask h es).
Proof.
  intros Hes. revert h. induction Hes as [|e es He Hes IH]; intros h Hb; [done|]. by apply IH, handle_p.
Qed.

Lemma ScanFile_p p path_fs h r h' : p ∈ plugins -> TagFileScan_ScanFile mask p path_fs h = (r, h') ->
  handler_p h -> handler_p h'.
Proof.
  intros Hp. unfold TagFileScan_ScanFile. destruct (scan_file p) as [scan|] eqn:E; [|by intros [= _ <-]].
  destruct (scan path_fs (want_mask h)) as [r0 es] eqn:Es. intros [= _ <-]. apply handle_all_p. by eapply scan_file_p.
Qed.

Lemma ScanStream_p p input h r h' : p ∈ plugins -> ScanStream mask p input h = Ok (r, h') ->
  handler_p h -> handler_p h'.
Proof.
  intros Hp. unfold ScanStream. destruct (scan_stream p) as [scan|] eqn:E; [|by intros [= _ <-]].
  intros ([r0 es] & Es & [= _ <-])%rbind_Ok. apply handle_all_p. by eapply scan_stream_p.
Qed.

Lemma Scan_p p path_fs suffix h r h' : p ∈ plugins -> TagFileScan_Scan mask p path_fs suffix h = Ok (r, h') ->
  handler_p h -> handler_p h'.
Proof.
  intros Hp. unfold TagFileScan_Scan. destruct (SupportsSuffix p suffix); [|by intros [= _ <-]].
  destruct (TagFileScan_ScanFile mask p path_fs h) as [[|] h1] eqn:E.
  - intros [= _ <-]. by eapply ScanFile_p.
  - unfold TagFileScan_ScanStream. intros Hs Hb. eapply ScanFile_p in E; [|done..].
    destruct (scan_stream p); [|by injection Hs as _ <-].
    apply rbind_Ok in Hs as (input & _ & Hs). by apply ScanStream_p in Hs.
Qed.

Lemma scan_plugins_p scan ps h r h' : (forall p, p ∈ ps -> p ∈ plugins) ->
  (forall p h r h', p ∈ plugins -> scan p h = Ok (r, h') -> handler_p h -> handler_p h') ->
  scan_plugins scan ps h = Ok (r, h') -> handler_p h -> handler_p h'.
Proof.
  intros Hps Hscan. revert h. induction ps as [|p ps IH]; intros h; simpl; [by intros [= _ <-]|].
  intros ([[|] h1] & Hs & Hr)%rbind_Ok Hb; (assert (p ∈ plugins) as Hp by (apply Hps; by left)).
  - injection Hr as _ <-. by eapply Hscan.
  - eapply IH; [intros q Hq; apply Hps; by right|done|]. by eapply Hscan.
Qed.

Lemma ScanFileTagsWithGeneric_p path h r h' :
  ScanFileTagsWithGeneric mask plugins path h = Ok (r, h') -> handler_p h -> handler_p h'.
Proof.
  intros ([r1 h1] & Hs & Hr)%rbind_Ok Hb.
  assert (handler_p h1) as Hb1.
  { unfold ScanFileTagsNoGeneric in Hs. destruct (GetExtension path); [|by injection Hs as _ <-].
    refine (scan_plugins_p _ _ _ _ _ _ _ Hs Hb); [done|]. intros p ??? Hp Hsc. exact (Scan_p _ _ _ _ _ _ Hp Hsc). }
  destruct r1; [|by injection Hr as _ <-]. destruct (builder_empty (h_tag h1)); [|by injection Hr as _ <-].
  apply rbind_Ok in Hr as (es & Hes & [= _ <-]). apply handle_all_p; [by eapply generic_path_p|done].
Qed.

Lemma tag_stream_scan_handler_p input h r h' :
  tag_stream_scan_handler mask plugins input h = Ok (r, h') -> handler_p h -> handler_p h'.
Proof.
  unfold tag_stream_scan_handler. cbv zeta. destruct (is_empty_view _ && _); [by intros [= _ <-]|].
  intros Hs Hb. refine (scan_plugins_p _ _ _ _ _ _ _ Hs Hb); [done|]. intros p h0 r0 h0' Hp Hsc Hb0.
  destruct (CheckDecoderPlugin _ _ _); [exact (ScanStream_p _ _ _ _ _ Hp Hsc Hb0)|by injection Hsc as _ <-].
Qed.

Lemma tag_stream_scan_p input h r h' :
  tag_stream_scan mask plugins input h = Ok (r, h') -> handler_p h -> handler_p h'.
Proof.
  intros ([r1 h1] & Hs & Hr)%rbind_Ok Hb. pose proof (tag_stream_scan_handler_p _ _ _ _ Hs Hb).
  destruct r1; [|by injection Hr as _ <-].
  destruct (builder_empty (h_tag h1)); [|by injection Hr as _ <-].
  apply rbind_Ok in Hr as (es & Hes & [= _ <-]). apply handle_all_p; [by eapply generic_stream_p|done].
Qed.

Lemma tag_archive_scan_p o b b' :
  tag_archive_scan mask plugins o b = (true, b') -> handler_p (mkFullTagHandler b None) ->
  exists h, handler_p h /\ h_tag h = b'.
Proof.
  unfold tag_archive_scan. destruct o as [[input|]|]; try done.
  destruct (tag_stream_scan mask plugins input (mkFullTagHandler b None)) as [[r0 h0]|] eqn:E;
    intros [= -> <-]. intros Hb. exists h0. split; [exact (tag_stream_scan_p _ _ _ _ E Hb)|done].
Qed.
End ScanLemmas.

(** Whatever is reported, the values stay clean. *)
#[export] Instance builder_ok_laws `{System} mask plugins :
  ScanLaws mask plugins (fun _ => True) (fun h => builder_ok mask (h_tag h)).
Proof.
  split; [intros h e _; apply handle_ok|..]; intros; by apply Forall_true.
Qed.
