(* ===== verification/Storage.v ===== *)
(** The file system as the update sees it: [src/storage], the wrappers of
    [src/db/update/UpdateIO.cxx] and the ignore lists of [ExcludeList].

    The storage, the operating system calls on local paths and [fnmatch]
    are parameters: a [Storage] is a snapshot, functions of the path which
    may throw; a directory reader is the list of the names it will return
    with the outcome of [GetInfo] for each. *)
From S2P Require Import Prelude Text Tags Directory TagScan.
Open Scope Z_scope.

(** ** storage/FileInfo.hxx *)

Inductive FileType := OTHER | REGULAR | DIRECTORY.

Record StorageFileInfo := mkInfoOf
  { fi_type : FileType; fi_size : Z; fi_mtime : Z; fi_device : Z; fi_inode : Z }.

Definition IsRegular (i : StorageFileInfo) : bool := match fi_type i with REGULAR => true | _ => false end.
Definition IsDirectory (i : StorageFileInfo) : bool := match fi_type i with DIRECTORY => true | _ => false end.

(** ** storage/StorageInterface.hxx *)

(** What [ReadLink] and the [errno] it leaves say: the target, "not a
    symbolic link" (EINVAL) or another error. *)
Inductive LinkResult := LinkTarget (target : bytes) | NotALink | LinkError.

Class Storage := {
  storage_GetInfo : bytes -> result StorageFileInfo;
  storage_OpenDirectory : bytes -> result (list (bytes * result StorageFileInfo));
  storage_OpenFile : bytes -> result InputStream;
  storage_MapFS : bytes -> option bytes;
  storage_MapToRelativeUTF8 : bytes -> option bytes;
  ReadLink : bytes -> LinkResult;
  (** [access(path, R_OK)] failed with EACCES *)
  access_denied : bytes -> bool;
  (** [fnmatch(pattern, name, 0) == 0] *)
  fnmatch : bytes -> bytes -> bool }.

Definition MapChildFS `{Storage} (uri_utf8 child_utf8 : bytes) : option bytes :=
  storage_MapFS (Build uri_utf8 child_utf8).

(** ** UpdateIO.cxx *)

Definition ok_or_none {A} (r : result A) : option A := match r with Ok a => Some a | Throw _ => None end.

Section UpdateIO.
Context `{Storage}.

(** The overload for a URI; the one for a reader is [ok_or_none] of the
    entry's outcome. *)
Definition GetInfo (uri_utf8 : bytes) : option StorageFileInfo := ok_or_none (storage_GetInfo uri_utf8).

Definition DirectoryExists (directory : Directory) : bool :=
  match storage_GetInfo (path directory) with
  | Throw _ => false
  | Ok info => if IsReallyAFile directory then IsRegular info else IsDirectory info
  end.

Definition GetDirectoryChildInfo (directory : Directory) (name_utf8 : bytes) : result StorageFileInfo :=
  storage_GetInfo (Build (path directory) name_utf8).

Definition directory_child_is_regular (directory : Directory) (name_utf8 : bytes) : bool :=
  match GetDirectoryChildInfo directory name_utf8 with Ok i => IsRegular i | Throw _ => false end.

Definition directory_child_access (directory : Directory) (name : bytes) : bool :=
  match MapChildFS (path directory) name with
  | None => true
  | Some p => negb (access_denied p)
  end.

(** ** ExcludeList *)

(** The patterns of a list, the last line of the file first, and those of
    its parents. *)
Inductive ExcludeList := mkExcludeList { ex_parent : option ExcludeList; ex_patterns : list bytes }.

Definition ExcludeList_new : ExcludeList := mkExcludeList None [].
Definition ExcludeList_of (parent : ExcludeList) : ExcludeList := mkExcludeList (Some parent) [].

Fixpoint ExcludeList_IsEmpty (l : ExcludeList) : bool :=
  match ex_parent l with None => true | Some p => ExcludeList_IsEmpty p end && is_nil (ex_patterns l).

Definition ExcludeList_ParseLine (l : ExcludeList) (line : bytes) : ExcludeList :=
  match Strip_c line with
  | [] => l
  | c :: p => if bool_decide (c = "#"%char) then l else mkExcludeList (ex_parent l) ((c :: p) :: ex_patterns l)
  end.

Definition ExcludeList_Load (l : ExcludeList) (tis : LineReader) : ExcludeList :=
  fold_left ExcludeList_ParseLine tis l.

Fixpoint ExcludeList_Check (l : ExcludeList) (name_fs : bytes) : bool :=
  match ex_parent l with None => false | Some p => ExcludeList_Check p name_fs end ||
  existsb (fun i => fnmatch i name_fs) (ex_patterns l).
End UpdateIO.

(** ** Lemmas *)

(** All the patterns in force. *)
Fixpoint all_patterns (l : ExcludeList) : list bytes :=
  ex_patterns l ++ match ex_parent l with None => [] | Some p => all_patterns p end.

(** The pattern a line stands for, if any. *)
Definition pattern_of (line : bytes) : option bytes :=
  match Strip_c line with
  | [] => None
  | c :: p => if bool_decide (c = "#"%char) then None else Some (c :: p)
  end.

Lemma Load_patterns tis l : all_patterns (ExcludeList_Load l tis) = rev (omap pattern_of tis) ++ all_patterns l.
Proof.
  revert l. induction tis as [|line tis IH]; intros l; [done|]. simpl. rewrite IH.
  unfold ExcludeList_ParseLine, pattern_of. destruct (Strip_c line) as [|c p]; [done|].
  case_bool_decide; [done|]. simpl. rewrite <- app_assoc. by destruct l.
Qed.

Fixpoint ExcludeList_ind' (P : ExcludeList -> Prop) (H0 : forall ps, P (mkExcludeList None ps))
  (H1 : forall p ps, P p -> P (mkExcludeList (Some p) ps)) (l : ExcludeList) : P l :=
  match l with
  | mkExcludeList None ps => H0 ps
  | mkExcludeList (Some p) ps => H1 p ps (ExcludeList_ind' P H0 H1 p)
  end.

(** ** Properties *)

(** A name is excluded exactly if a pattern in force matches it: one of
    a line, not a comment, of the loaded file or of the list it extends. *)
Theorem ExcludeList_Check_spec `{Storage} (parent : ExcludeList) (tis : list bytes) (name_fs : bytes) :
  ExcludeList_Check (ExcludeList_Load (ExcludeList_of parent) tis) name_fs = true <->
  ExcludeList_Check parent name_fs = true \/
  exists line p, line ∈ tis /\ pattern_of line = Some p /\ fnmatch p name_fs = true.
Proof.
  assert (forall l, ExcludeList_Check l name_fs = existsb (fun i => fnmatch i name_fs) (all_patterns l)) as E.
  { induction l as [ps|p ps IH] using ExcludeList_ind'; simpl; rewrite existsb_app; simpl;
      [by rewrite orb_false_r|]. by rewrite IH, orb_comm. }
  rewrite !E, Load_patterns. change (all_patterns (ExcludeList_of parent)) with (all_patterns parent).
  rewrite existsb_app, orb_true_iff, !existsb_exists. setoid_rewrite <- list_elem_of_In.
  split.
  - intros [(p & Hp & Hm)|H']; [right|by left]. rewrite list_elem_of_In, <- in_rev, <- list_elem_of_In in Hp.
    apply list_elem_of_omap in Hp as (line & Hl & Hpat). by exists line, p.
  - intros [H'|(line & p & Hl & Hpat & Hm)]; [by right|left]. exists p. split; [|done].
    rewrite list_elem_of_In, <- in_rev, <- list_elem_of_In. apply list_elem_of_omap. eauto.
Qed.
