(* ===== verification/CompositeStorage.v ===== *)
(** The storage behind the update: [src/storage/CompositeStorage], the tree
    of mounted storages, and [src/storage/plugins/LocalStorage.cxx].

    A storage is the record of its virtual methods.  The calls on local
    files and the character set are parameters ([LocalFiles], [System]).
    [std::map] is the list of its entries, in the order of their keys.
    Where the code follows a null pointer or an iterator that was erased,
    the result is the exception "undefined"; locking is left out. *)
From Stdlib Require Import Sorting.Sorted.
From stdpp Require Import sets sorting gmap.
From S2P Require Import Prelude Text Tags Directory TagScan SongSort Storage.
Open Scope Z_scope.

(** ** StorageInterface.hxx *)

(** A directory reader is the list of the names it returns, each with its
    [GetInfo]; [follow] is its argument. *)
Notation DirectoryReader := (list (bytes * (bool -> result StorageFileInfo))) (only parsing).

Record StorageOps := mkStorageOps {
  so_GetInfo : bytes -> bool -> result StorageFileInfo;
  so_OpenDirectory : bytes -> result DirectoryReader;
  so_MapUTF8 : bytes -> bytes;
  so_MapFS : bytes -> option bytes;
  so_MapToRelativeUTF8 : bytes -> option bytes;
  (** [Ok None] is the null pointer *)
  so_OpenFile : bytes -> result (option InputStream) }.

(** [StorageFileInfo(Type)]; the clock's minimum is "unknown". *)
Definition StorageFileInfo_of (type : FileType) : StorageFileInfo := mkInfoOf type 0 (- 2 ^ 63) 0 0.

(** ** LocalStorage.cxx *)

(** What [FileInfo] tells of a file. *)
Record FileStat := mkFileStat
  { st_regular : bool; st_directory : bool; st_size : Z; st_mtime : Z; st_device : Z; st_inode : Z }.

Class LocalFiles := {
  (** [FileInfo(path, follow)] *)
  FileInfo_of : bytes -> bool -> result FileStat;
  (** the names that [readdir] returns *)
  ReadDirectory : bytes -> result (list bytes) }.

Definition Stat `{LocalFiles} (path : bytes) (follow : bool) : result StorageFileInfo :=
  let* src := FileInfo_of path follow in
  Ok (mkInfoOf (if st_regular src then REGULAR else if st_directory src then DIRECTORY else OTHER)
        (st_size src) (st_mtime src) (st_device src) (st_inode src)).

(** [Traits::IsSpecialFilename] *)
Definition IsSpecialFilename (name : bytes) : bool := (name =b lit ".") || (name =b lit "..").

(** [RelativePathImpl] on views; [base_ends]: the character before what
    is left of [other] is a separator. *)
Definition Relative (base other : bytes) : option bytes :=
  match after_prefix other base with
  | None => None
  | Some [] => Some []
  | Some (c :: r) =>
      if negb (IsSeparator c) then
        if negb (base =b []) && IsSeparator (List.last base NUL) then Some (c :: r) else None
      else Some (drop_while IsSeparator (c :: r))
  end.

Section Local.
Context `{System} `{LocalFiles}.

(** [base_utf8] is that of [base_fs]; the constructor throws where it does
    not exist. *)
Definition MapFSOrThrow (base_fs uri_utf8 : bytes) : result bytes :=
  if uri_utf8 =b [] then Ok base_fs
  else let* p := FromUTF8Throw uri_utf8 in Ok (Build base_fs p).

Definition Local_MapFS (base_fs uri_utf8 : bytes) : option bytes := ok_or_none (MapFSOrThrow base_fs uri_utf8).

(** [LocalDirectoryReader]: special names and those without a UTF-8 form
    are skipped. *)
Definition LocalDirectoryReader (base_fs : bytes) (names : list bytes) : DirectoryReader :=
  omap (fun name_fs =>
    if IsSpecialFilename name_fs then None
    else match ToUTF8Throw name_fs with
         | Ok name_utf8 => Some (name_utf8, fun follow => Stat (Build base_fs name_fs) follow)
         | Throw _ => None
         end) names.

Definition LocalStorage (base_fs base_utf8 : bytes) : StorageOps := {|
  so_GetInfo := fun uri follow => let* p := MapFSOrThrow base_fs uri in Stat p follow;
  so_OpenDirectory := fun uri =>
    let* p := MapFSOrThrow base_fs uri in
    let* names := ReadDirectory p in
    Ok (LocalDirectoryReader p names);
  so_MapUTF8 := fun uri => if uri =b [] then base_utf8 else Build base_utf8 uri;
  so_MapFS := Local_MapFS base_fs;
  so_MapToRelativeUTF8 := Relative base_utf8;
  so_OpenFile := fun uri =>
    match Local_MapFS base_fs uri with
    | None | Some [] => Ok None
    | Some path => let* input := OpenLocalInputStream path in Ok (Some input)
    end |}.

(** [CreateLocalStorage] *)
Definition CreateLocalStorage (base_fs : bytes) : result StorageOps :=
  let* base_utf8 := ToUTF8Throw base_fs in Ok (LocalStorage base_fs base_utf8).
End Local.

(** ** StoragePlugin.cxx, Registry.cxx *)

(** [create_uri] may be null and may return null. *)
Record StoragePlugin := mkStoragePlugin
  { sp_prefixes : option (list bytes); create_uri : option (bytes -> result (option StorageOps)) }.

(** [StringStartsWithIgnoreCase] *)
Definition StringStartsWithIgnoreCase (haystack needle : bytes) : bool :=
  StringIsEqualIgnoreCase (take (length needle) haystack) needle.

Definition SupportsUri (p : StoragePlugin) (uri : bytes) : bool :=
  match sp_prefixes p with
  | None => false
  | Some prefixes => existsb (StringStartsWithIgnoreCase uri) prefixes
  end.

Fixpoint CreateStorageURI (storage_plugins : list StoragePlugin) (uri : bytes) : result (option StorageOps) :=
  match storage_plugins with
  | [] => Ok None
  | plugin :: plugins =>
      match create_uri plugin with
      | Some create =>
          if SupportsUri plugin uri then
            let* storage := create uri in
            match storage with
            | Some storage => Ok (Some storage)
            | None => CreateStorageURI plugins uri
            end
          else CreateStorageURI plugins uri
      | None => CreateStorageURI plugins uri
      end
  end.

(** ** CompositeStorage.hxx, CompositeStorage.cxx *)

(** [CompositeStorage::Directory] *)
Inductive MountDirectory := mkMount (storage : option StorageOps) (children : list (bytes * MountDirectory)).

Definition m_storage (d : MountDirectory) : option StorageOps := let 'mkMount s _ := d in s.
Definition m_children (d : MountDirectory) : list (bytes * MountDirectory) := let 'mkMount _ c := d in c.
Definition MountDirectory_new : MountDirectory := mkMount None [].

Definition m_IsEmpty (d : MountDirectory) : bool :=
  match m_storage d with None => is_nil (m_children d) | Some _ => false end.

(** [std::map::find] *)
Definition map_find (name : bytes) (l : list (bytes * MountDirectory)) : option MountDirectory :=
  snd <$> List.find (fun i => fst i =b name) l.

(** [emplace] a new directory unless there is one, and apply [f] to the
    one of that name. *)
Fixpoint map_emplace (name : bytes) (f : MountDirectory -> MountDirectory) (l : list (bytes * MountDirectory))
  : list (bytes * MountDirectory) :=
  match l with
  | [] => [(name, f MountDirectory_new)]
  | (n, d) :: l =>
      if n =b name then (n, f d) :: l
      else if strcmp name n <? 0 then (name, f MountDirectory_new) :: (n, d) :: l
      else (n, d) :: map_emplace name f l
  end.

(** Assign to the entry of that name, or [erase] it. *)
Definition map_assign (name : bytes) (d : option MountDirectory) (l : list (bytes * MountDirectory))
  : list (bytes * MountDirectory) :=
  omap (fun i => if fst i =b name then (fun d => (fst i, d)) <$> d else Some i) l.

(** [NextSegment]: the segment and what is left of the URI. *)
Definition NextSegment (uri : bytes) : bytes * bytes :=
  match Split uri SEPARATOR with (name, None) => (name, []) | (name, Some rest) => (name, rest) end.

Fixpoint Find_segments (segs : list bytes) (d : MountDirectory) : option MountDirectory :=
  match segs with
  | [] => Some d
  | name :: segs =>
      if name =b [] then Find_segments segs d
      else match map_find name (m_children d) with
           | None => None
           | Some d => Find_segments segs d
           end
  end.
Definition m_Find (d : MountDirectory) (uri : bytes) : option MountDirectory :=
  Find_segments (IterableSplitString uri SEPARATOR) d.

(** [Make], and [f] on the directory it returns. *)
Fixpoint Make_segments (segs : list bytes) (f : MountDirectory -> MountDirectory) (d : MountDirectory) : MountDirectory :=
  match segs with
  | [] => f d
  | name :: segs =>
      if name =b [] then Make_segments segs f d
      else mkMount (m_storage d) (map_emplace name (Make_segments segs f) (m_children d))
  end.

(** [Directory::Unmount]: the return value and the directory.  [fuel] is
    at least the length of the URI, which every call shortens. *)
Fixpoint m_Unmount (fuel : nat) (uri : bytes) (d : MountDirectory) : bool * MountDirectory :=
  if uri =b [] then
    match m_storage d with
    | None => (false, d)
    | Some _ => (true, mkMount None (m_children d))
    end
  else
    match fuel with
    | O => (false, d)
    | S fuel =>
        let '(name, uri) := NextSegment uri in
        match map_find name (m_children d) with
        | None => (false, d)
        | Some i =>
            match m_Unmount fuel uri i with
            | (false, _) => (false, d)
            | (true, i) =>
                (true, mkMount (m_storage d) (map_assign name (if m_IsEmpty i then None else Some i) (m_children d)))
            end
        end
    end.

(** The first mapping of the directory or of those below it, with their
    names before it. *)
Fixpoint m_MapToRelativeUTF8 (d : MountDirectory) (uri : bytes) : option bytes :=
  let 'mkMount storage children := d in
  match storage ≫= fun s => so_MapToRelativeUTF8 s uri with
  | Some buffer => Some buffer
  | None =>
      fold_right (fun i rest =>
        match m_MapToRelativeUTF8 (snd i) uri with
        | Some buffer => Some (fst i ++ SEPARATOR :: buffer)
        | None => rest
        end) None children
  end.

(** The loop of [FindStorage]; [fuel] is at least the length of [uri]. *)
Fixpoint FindStorage_loop (fuel : nat) (directory : MountDirectory) (uri : bytes)
  (result : MountDirectory * bytes) : MountDirectory * bytes :=
  if uri =b [] then result
  else
    match fuel with
    | O => result
    | S fuel =>
        let '(name, uri) := NextSegment uri in
        match map_find name (m_children directory) with
        | None => result
        | Some directory =>
            FindStorage_loop fuel directory uri
              (match m_storage directory with Some _ => (directory, uri) | None => result end)
        end
    end.
Definition FindStorage (root : MountDirectory) (uri : bytes) : MountDirectory * bytes :=
  FindStorage_loop (length uri) root uri (root, uri).

Definition GetMount (root : MountDirectory) (uri : bytes) : option StorageOps :=
  let '(directory, rest) := FindStorage root uri in
  if negb (rest =b []) then None else m_storage directory.
Definition IsMountPoint (root : MountDirectory) (uri : bytes) : bool :=
  match GetMount root uri with Some _ => true | None => false end.

(** The calls of the function given to [VisitMounts]. *)
Fixpoint VisitMounts (uri : bytes) (d : MountDirectory) : list (bytes * StorageOps) :=
  let 'mkMount storage children := d in
  match storage with Some s => [(uri, s)] | None => [] end ++
  concat (map (fun i =>
    VisitMounts ((if uri =b [] then [] else uri ++ [SEPARATOR]) ++ fst i) (snd i)) children).

Fixpoint IsMounted (d : MountDirectory) (storage_uri : bytes) : bool :=
  let 'mkMount storage children := d in
  match storage with Some s => so_MapUTF8 s [] =b storage_uri | None => false end ||
  existsb (fun i => IsMounted (snd i) storage_uri) children.

(** [None] if the assertion fails that the directory returned by [Make] has
    no storage; one that [Make] creates has none. *)
Definition Mount (uri : bytes) (storage : StorageOps) (root : MountDirectory) : option MountDirectory :=
  match m_Find root uri ≫= m_storage with
  | Some _ => None
  | None => Some (Make_segments (IterableSplitString uri SEPARATOR) (fun d => mkMount (Some storage) (m_children d)) root)
  end.

Definition Unmount (uri : bytes) (root : MountDirectory) : bool * MountDirectory :=
  m_Unmount (length uri) uri root.

(** [CompositeDirectoryReader]: the entries of the other reader, then the
    names it did not return.  [next] points to the first name from the
    start: if the other reader returns that one, it is erased under it. *)
Definition CompositeDirectoryReader (other : option DirectoryReader) (names : list bytes) : result DirectoryReader :=
  let virtual := map (fun name => (name, fun _ : bool => Ok (StorageFileInfo_of DIRECTORY))) in
  match other with
  | None => Ok (virtual names)
  | Some entries =>
      match names with
      | first :: _ =>
          if bool_decide (first ∈ fst <$> entries) then Throw (lit "undefined")
          else Ok (entries ++ virtual (List.filter (fun n => negb (bool_decide (n ∈ fst <$> entries))) names))
      | [] => Ok entries
      end
  end.

Definition CompositeStorage (root : MountDirectory) : StorageOps := {|
  so_GetInfo := fun uri follow =>
    let '(d, rest) := FindStorage root uri in
    match (match m_storage d with Some s => so_GetInfo s rest follow | None => Throw (lit "No such file or directory") end) with
    | Ok info => Ok info
    | Throw error =>
        match m_Find d rest with
        | Some _ => Ok (StorageFileInfo_of DIRECTORY)
        | None => Throw error
        end
    end;
  so_OpenDirectory := fun uri =>
    let '(d, rest) := FindStorage root uri in
    match m_Find d rest with
    | Some directory =>
        match m_children directory with
        | [] =>
            match m_storage d with
            | None => Throw (lit "No such directory")
            | Some s => so_OpenDirectory s rest
            end
        | children =>
            match m_storage d with
            | None => Throw (lit "undefined")
            | Some s => CompositeDirectoryReader (ok_or_none (so_OpenDirectory s rest)) (fst <$> children)
            end
        end
    | None =>
        match m_storage d with
        | None => Throw (lit "No such directory")
        | Some s => so_OpenDirectory s rest
        end
    end;
  so_MapUTF8 := fun uri =>
    let '(d, rest) := FindStorage root uri in
    match m_storage d with None => [] | Some s => so_MapUTF8 s rest end;
  so_MapFS := fun uri =>
    let '(d, rest) := FindStorage root uri in
    match m_storage d with None => None | Some s => so_MapFS s rest end;
  so_MapToRelativeUTF8 := fun uri =>
    match m_storage root ≫= fun s => so_MapToRelativeUTF8 s uri with
    | Some r => Some r
    | None => m_MapToRelativeUTF8 root uri
    end;
  so_OpenFile := fun uri =>
    let '(d, rest) := FindStorage root uri in
    match m_storage d with None => Ok None | Some s => so_OpenFile s rest end |}.

(** ** A storage as the update uses it *)

(** The system calls on local paths. *)
Class LocalCalls := {
  local_ReadLink : bytes -> LinkResult;
  local_access_denied : bytes -> bool;
  local_fnmatch : bytes -> bytes -> bool }.

(** [GetInfo] is always called with [follow]; the streams are
    dereferenced. *)
Definition Storage_of `{LocalCalls} (s : StorageOps) : Storage := {|
  storage_GetInfo := fun uri => so_GetInfo s uri true;
  storage_OpenDirectory := fun uri =>
    let* reader := so_OpenDirectory s uri in Ok (map (fun e => (fst e, snd e true)) reader);
  storage_OpenFile := fun uri =>
    let* input := so_OpenFile s uri in
    match input with Some input => Ok input | None => Throw (lit "undefined") end;
  storage_MapFS := so_MapFS s;
  storage_MapToRelativeUTF8 := so_MapToRelativeUTF8 s;
  ReadLink := local_ReadLink;
  access_denied := local_access_denied;
  fnmatch := local_fnmatch |}.

(** ** The map *)

(** The keys of a map are in order. *)
Definition keys_sorted (l : list (bytes * MountDirectory)) : Prop :=
  StronglySorted (fun a b => strcmp a b < 0) (fst <$> l).

Lemma map_find_cons name n d l : map_find name ((n, d) :: l) = if n =b name then Some d else map_find name l.
Proof. unfold map_find. simpl. by destruct (n =b name). Qed.

Lemma map_find_None name l : name ∉ fst <$> l -> map_find name l = None.
Proof.
  induction l as [|[n d] l IH]; intros Hn; [done|]. apply not_elem_of_cons in Hn as [Hn Hl].
  rewrite map_find_cons, (proj2 (bytes_eqb_neq _ _)) by (intros ->; by apply Hn). by apply IH.
Qed.

Lemma map_find_elem name l d : map_find name l = Some d -> (name, d) ∈ l.
Proof.
  induction l as [|[n d'] l IH]; [done|]. rewrite map_find_cons. destruct (n =b name) eqn:E; reflect_bools.
  - intros [= ->]. subst. by left.
  - intros Hf. right. by apply IH.
Qed.

Lemma keys_sorted_inv n d l : keys_sorted ((n, d) :: l) -> keys_sorted l /\ Forall (fun m => strcmp n m < 0) (fst <$> l).
Proof. intros Hs. by apply StronglySorted_inv in Hs. Qed.

Lemma sorted_above n (l : list (bytes * MountDirectory)) m : Forall (fun m => strcmp n m < 0) (fst <$> l) -> strcmp m n <= 0 -> m ∉ fst <$> l.
Proof.
  intros Hl Hm Hin. rewrite Forall_forall in Hl. specialize (Hl m Hin). pose proof (strcmp_sgn m n). lia.
Qed.

Lemma map_find_sorted name d l : keys_sorted l -> (name, d) ∈ l -> map_find name l = Some d.
Proof.
  induction l as [|[n d'] l IH]; [by intros _ ?%elem_of_nil|]. intros [Hs Hf]%keys_sorted_inv [E|Hin]%elem_of_cons.
  - injection E as -> ->. by rewrite map_find_cons, bytes_eqb_refl.
  - rewrite map_find_cons, (proj2 (bytes_eqb_neq _ _)); [by apply IH|]. intros ->.
    refine (sorted_above _ _ _ Hf _ (list_elem_of_fmap_2 fst _ _ Hin)). cbn [fst]. rewrite strcmp_refl. lia.
Qed.

Lemma map_emplace_keys name f l : fst <$> map_emplace name f l ⊆ name :: (fst <$> l).
Proof.
  induction l as [|[n d] l IH]; intros x; cbn [map_emplace]; [done|]. destruct (n =b name); [by right|].
  destruct (strcmp name n <? 0); [done|]. rewrite !fmap_cons. cbn [fst]. intros [->|Hx]%elem_of_cons.
  - right. by left.
  - apply IH in Hx. set_solver.
Qed.

Lemma map_emplace_sorted name f l : keys_sorted l -> keys_sorted (map_emplace name f l).
Proof.
  induction l as [|[n d] l IH]; intros Hs; cbn [map_emplace]; [by repeat constructor|].
  destruct (n =b name) eqn:E; [done|]. pose proof Hs as [Hl Hf]%keys_sorted_inv.
  destruct (strcmp name n <? 0) eqn:Ec; reflect_bools.
  - unfold keys_sorted. rewrite fmap_cons. constructor; [done|]. cbn [fst]. constructor; [done|].
    eapply Forall_impl; [exact Hf|]. intros m Hm. exact (strcmp_lt_trans name n m Ec Hm).
  - unfold keys_sorted. rewrite fmap_cons. constructor; [by apply IH|]. apply Forall_forall. cbn [fst].
    intros x [->|Hx]%map_emplace_keys%elem_of_cons; [|by rewrite Forall_forall in Hf; apply Hf].
    assert (strcmp name n <> 0) as Hne.
    { intros H0. apply E. clear -H0. revert n H0. induction name as [|c a IH]; intros [|b n]; simpl; try done.
      destruct (Z.eqb_spec (code c) (code b)) as [Hc|]; [|lia]. intros Hz. f_equal; [|by apply IH].
      rewrite <- (ascii_N_embedding c), <- (ascii_N_embedding b). f_equal. unfold code in Hc. lia. }
    pose proof (strcmp_sgn name n). lia.
Qed.

Lemma map_find_emplace name f l n : keys_sorted l ->
  map_find n (map_emplace name f l) =
  if n =b name then Some (f (default MountDirectory_new (map_find name l))) else map_find n l.
Proof.
  induction l as [|[m d] l IH]; intros Hs; cbn [map_emplace].
  - rewrite map_find_cons. destruct (n =b name) eqn:E; reflect_bools; [subst; by rewrite bytes_eqb_refl|].
    by rewrite (proj2 (bytes_eqb_neq _ _)) by congruence.
  - pose proof Hs as [Hl Hf]%keys_sorted_inv. destruct (m =b name) eqn:E; reflect_bools.
    + subst. rewrite !map_find_cons, bytes_eqb_refl. destruct (n =b name) eqn:En; reflect_bools.
      * subst. by rewrite bytes_eqb_refl.
      * by rewrite (proj2 (bytes_eqb_neq _ _)) by congruence.
    + destruct (strcmp name m <? 0) eqn:Ec; reflect_bools.
      * rewrite !map_find_cons. rewrite (proj2 (bytes_eqb_neq m name)) by done.
        rewrite (map_find_None name l) by (eapply sorted_above; [exact Hf|lia]).
        destruct (n =b name) eqn:En; reflect_bools; [subst; by rewrite bytes_eqb_refl|].
        by rewrite (proj2 (bytes_eqb_neq name n)) by congruence.
      * rewrite !map_find_cons. rewrite (proj2 (bytes_eqb_neq m name)) by done. rewrite IH by done.
        destruct (m =b n) eqn:Em; reflect_bools; [|done]. subst. by rewrite (proj2 (bytes_eqb_neq _ _)).
Qed.

Lemma map_assign_cons name d n d' l : map_assign name d ((n, d') :: l) =
  (if n =b name then match d with Some d => [(n, d)] | None => [] end else [(n, d')]) ++ map_assign name d l.
Proof. unfold map_assign. cbn [omap list_omap fst]. by destruct (n =b name), d. Qed.

Lemma map_assign_keys name d l : sublist (fst <$> map_assign name d l) (fst <$> l).
Proof.
  induction l as [|[n d'] l IH]; [done|]. rewrite map_assign_cons, fmap_cons.
  destruct (n =b name); [destruct d|]; by constructor.
Qed.

Lemma StronglySorted_sublist {A} (R : A -> A -> Prop) k l : sublist k l -> StronglySorted R l -> StronglySorted R k.
Proof.
  induction 1 as [|x k l Hk IH|x k l Hk IH]; intros Hs; [done| |]; apply StronglySorted_inv in Hs as [Hl Hf].
  - constructor; [by apply IH|]. by eapply sublist_Forall.
  - by apply IH.
Qed.

Lemma map_assign_sorted name d l : keys_sorted l -> keys_sorted (map_assign name d l).
Proof. intros Hs. eapply StronglySorted_sublist; [|exact Hs]. apply map_assign_keys. Qed.

Lemma map_find_assign name d l n : map_find n (map_assign name d l) =
  if n =b name then map_find name l ≫= fun _ => d else map_find n l.
Proof.
  induction l as [|[m d'] l IH]; [by destruct (n =b name)|]. rewrite map_assign_cons, !map_find_cons.
  destruct (m =b name) eqn:E; reflect_bools.
  - subst. cbn [mbind option_bind]. destruct d as [d|]; cbn [app]; [rewrite map_find_cons|]; rewrite IH;
      (destruct (n =b name) eqn:En; reflect_bools; [subst; rewrite ?bytes_eqb_refl; try done; by destruct (map_find name l)|]);
      by rewrite (proj2 (bytes_eqb_neq name n)) by congruence.
  - cbn [app]. rewrite map_find_cons, IH.
    destruct (m =b n) eqn:Em; reflect_bools; [|done]. subst. by rewrite (proj2 (bytes_eqb_neq n name)) by done.
Qed.

(** ** The tree *)

(** The directory, and the storage, at a path of names. *)
Fixpoint node_at (p : list bytes) (d : MountDirectory) : option MountDirectory :=
  match p with
  | [] => Some d
  | name :: p => map_find name (m_children d) ≫= node_at p
  end.
Definition storage_at (d : MountDirectory) (p : list bytes) : option StorageOps := node_at p d ≫= m_storage.

(** The class comment: "all leaf Directory instances must have a Storage";
    the names are those of segments, each once. *)
Inductive mounts_ok : MountDirectory -> Prop :=
| mounts_ok_intro s l :
    keys_sorted l -> Forall (fun i => name_ok (fst i)) l -> Forall (fun i => m_IsEmpty (snd i) = false) l ->
    Forall (fun i => mounts_ok (snd i)) l -> mounts_ok (mkMount s l).

Lemma mounts_ok_map s l : mounts_ok (mkMount s l) <-> keys_sorted l /\
  forall name c, map_find name l = Some c -> name_ok name /\ m_IsEmpty c = false /\ mounts_ok c.
Proof.
  split.
  - inversion_clear 1 as [? ? Hs Hn He Hm]. split; [done|]. intros name c Hf%map_find_elem.
    rewrite Forall_forall in Hn, He, Hm. split; [exact (Hn _ Hf)|]. split; [exact (He _ Hf)|exact (Hm _ Hf)].
  - intros [Hs Hl]. assert (Forall (fun i => name_ok (fst i) /\ m_IsEmpty (snd i) = false /\ mounts_ok (snd i)) l) as Hf.
    { apply Forall_forall. intros [name c] Hin. by apply Hl, map_find_sorted. }
    constructor; [done|..]; (eapply Forall_impl; [exact Hf|]; by intros x (? & ? & ?)).
Qed.

Lemma mounts_ok_new : mounts_ok MountDirectory_new.
Proof. by repeat constructor. Qed.

Lemma mounts_ok_storage d s : mounts_ok d -> mounts_ok (mkMount s (m_children d)).
Proof. destruct d as [s0 l]. by rewrite !mounts_ok_map. Qed.

Lemma storage_at_cons d name p : storage_at d (name :: p) = map_find name (m_children d) ≫= fun c => storage_at c p.
Proof. unfold storage_at. cbn [node_at]. by destruct (map_find name (m_children d)). Qed.

(** Only a storage was assigned. *)
Lemma storage_at_assign `{Decision (p = [])} d s : storage_at (mkMount s (m_children d)) p = if decide (p = []) then s else storage_at d p.
Proof. case_decide as Hp; [by rewrite Hp|]. by destruct p. Qed.

Lemma storage_at_new p : storage_at MountDirectory_new p = None.
Proof. by destruct p. Qed.

(** ** Mount *)

Definition clean (segs : list bytes) : list bytes := List.filter (fun seg => negb (seg =b [])) segs.

Definition set_storage (s : StorageOps) (d : MountDirectory) : MountDirectory := mkMount (Some s) (m_children d).

Lemma Make_not_empty segs s d : m_IsEmpty (Make_segments segs (set_storage s) d) = false.
Proof.
  revert d. induction segs as [|name segs IH]; intros d; [done|]. cbn [Make_segments].
  destruct (name =b []); [done|]. unfold m_IsEmpty. cbn [m_storage m_children]. destruct (m_storage d); [done|].
  destruct (m_children d) as [|[n c] l]; [done|]. cbn [map_emplace]. by destruct (n =b name), (strcmp name n <? 0).
Qed.

Lemma Make_spec segs s : Forall (fun seg => SEPARATOR ∉ seg) segs -> forall d, mounts_ok d ->
  mounts_ok (Make_segments segs (set_storage s) d) /\
  forall p, storage_at (Make_segments segs (set_storage s) d) p =
    if decide (p = clean segs) then Some s else storage_at d p.
Proof.
  induction 1 as [|name segs Hsep Hsegs IH]; intros d Hd.
  - split; [by apply mounts_ok_storage|]. intros p. apply storage_at_assign.
  - cbn [Make_segments clean List.filter]. destruct (name =b []) eqn:E; cbn [negb]; [by apply IH|]. reflect_bools.
    destruct d as [s0 l]. cbn [m_storage m_children]. apply mounts_ok_map in Hd as [Hs Hl].
    assert (mounts_ok (default MountDirectory_new (map_find name l))) as Hc.
    { destruct (map_find name l) as [c|] eqn:Ef; [by eapply Hl|apply mounts_ok_new]. }
    destruct (IH _ Hc) as [Hm Hp]. split.
    + apply mounts_ok_map. split; [by apply map_emplace_sorted|]. intros n c. rewrite map_find_emplace by done.
      destruct (n =b name) eqn:En; reflect_bools; [|apply Hl]. intros [= <-]. subst. repeat split; try done.
      apply Make_not_empty.
    + intros [|n p]; [by rewrite decide_False|]. rewrite !storage_at_cons. cbn [m_children].
      rewrite map_find_emplace by done. destruct (n =b name) eqn:En; reflect_bools.
      * subst. cbn [mbind option_bind]. rewrite Hp. fold (clean segs).
        destruct (decide (p = clean segs)) as [->|Hne]; [by rewrite decide_True|]. rewrite decide_False by congruence.
        destruct (map_find name l); [done|]. apply storage_at_new.
      * by rewrite decide_False by congruence.
Qed.

(** ** Unmount *)

Lemma m_IsEmpty_storage d p : m_IsEmpty d = true -> storage_at d p = None.
Proof. destruct d as [[s|] [|i l]]; try done. by destruct p. Qed.

Lemma NextSegment_join n ns : SEPARATOR ∉ n -> NextSegment (join SEPARATOR (n :: ns)) = (n, join SEPARATOR ns).
Proof. intros Hn. unfold NextSegment. rewrite Split_join by done. by destruct ns. Qed.

Lemma join_not_nil n ns : name_ok n -> join SEPARATOR (n :: ns) =b [] = false.
Proof. intros [Hn _]. apply bytes_eqb_neq. by destruct ns, n. Qed.

Lemma join_shorter n ns : name_ok n ->
  (length (join SEPARATOR ns) < length (join SEPARATOR (n :: ns)))%nat.
Proof.
  intros [Hn _]. destruct n as [|c n]; [done|]. destruct ns as [|m ns]; [simpl; lia|].
  change (join SEPARATOR ((c :: n) :: m :: ns)) with ((c :: n) ++ SEPARATOR :: join SEPARATOR (m :: ns)).
  rewrite length_app. simpl length. lia.
Qed.

Lemma m_Unmount_spec segs : Forall name_ok segs -> forall fuel d r d',
  (length (join SEPARATOR segs) <= fuel)%nat -> mounts_ok d -> m_Unmount fuel (join SEPARATOR segs) d = (r, d') ->
  r = match storage_at d segs with Some _ => true | None => false end /\ (r = false -> d' = d) /\ mounts_ok d' /\
  forall p, storage_at d' p = if decide (p = segs) then None else storage_at d p.
Proof.
  induction 1 as [|name segs Hn Hsegs IH]; intros fuel d r d' Hf Hd.
  - assert (m_Unmount fuel (join SEPARATOR []) d = match m_storage d with None => (false, d) | Some _ => (true, mkMount None (m_children d)) end)
      as -> by by destruct fuel.
    unfold storage_at at 1. cbn [node_at mbind option_bind]. destruct (m_storage d) as [s|] eqn:Es; intros [= <- <-].
    + split; [done|]. split; [done|]. split; [by apply mounts_ok_storage|].
      intros p. apply storage_at_assign.
    + split; [done|]. split; [done|]. split; [done|].
      intros p. case_decide; [|done]. subst. unfold storage_at. cbn [node_at mbind option_bind]. done.
  - pose proof (join_shorter name segs Hn) as Hl. destruct fuel as [|fuel]; [lia|]. cbn [m_Unmount].
    rewrite join_not_nil, NextSegment_join by (done || apply Hn). destruct d as [s0 l].
    rewrite storage_at_cons. cbn [m_storage m_children]. pose proof Hd as [Hs Hc]%mounts_ok_map.
    destruct (map_find name l) as [i|] eqn:Ef.
    2: { intros [= <- <-]. cbn [mbind option_bind]. split; [done|]. split; [done|]. split; [done|].
         intros p. case_decide; [|done]. subst. by rewrite storage_at_cons; cbn [m_children]; rewrite Ef. }
    destruct (Hc name i Ef) as (Hnm & Hie & Hi). destruct (m_Unmount fuel (join SEPARATOR segs) i) as [r1 i1] eqn:Eu.
    destruct (IH fuel i r1 i1 ltac:(lia) Hi Eu) as (Hr & Hsame & Hok & Hat). cbn [mbind option_bind].
    destruct r1; intros [= <- <-]; (split; [done|]); (split; [done|]).
    + split.
      * apply mounts_ok_map. split; [by apply map_assign_sorted|]. intros n c. rewrite map_find_assign, Ef.
        destruct (n =b name) eqn:En; reflect_bools; [|apply Hc]. subst. cbn [mbind option_bind].
        destruct (m_IsEmpty i1) eqn:Ee; [done|]. by intros [= <-].
      * intros [|n p]; [by rewrite decide_False|]. rewrite !storage_at_cons. cbn [m_children].
        rewrite map_find_assign, Ef. destruct (n =b name) eqn:En; reflect_bools; [|by rewrite decide_False by congruence].
        subst. rewrite Ef. cbn [mbind option_bind]. specialize (Hat p).
        assert ((if m_IsEmpty i1 then None else Some i1) ≫= (fun c => storage_at c p) = storage_at i1 p) as ->
          by (destruct (m_IsEmpty i1) eqn:Ee; [by rewrite m_IsEmpty_storage|done]).
        rewrite Hat. destruct (decide (p = segs)) as [->|Hne]; [by rewrite decide_True|by rewrite decide_False by congruence].
    + split; [done|]. intros p. case_decide; [|done]. subst. rewrite storage_at_cons. cbn [m_children]. rewrite Ef.
      cbn [mbind option_bind]. by destruct (storage_at i segs).
Qed.

(** ** FindStorage *)

(** The deepest mount on the way: the loop keeps [result] or goes below. *)
Lemma FindStorage_loop_spec segs : Forall name_ok segs -> forall fuel d result,
  (length (join SEPARATOR segs) <= fuel)%nat ->
  exists p rest, segs = p ++ rest /\
    (forall q, q <> [] -> q `prefix_of` rest -> storage_at d (p ++ q) = None) /\
    ((p = [] /\ FindStorage_loop fuel d (join SEPARATOR segs) result = result) \/
     exists node s, node_at p d = Some node /\ m_storage node = Some s /\
       FindStorage_loop fuel d (join SEPARATOR segs) result = (node, join SEPARATOR rest)).
Proof.
  induction 1 as [|name segs Hn Hsegs IH]; intros fuel d result Hf.
  - exists [], []. split; [done|]. split; [by intros q Hq ?%prefix_nil_inv|]. left. split; [done|]. by destruct fuel.
  - pose proof (join_shorter name segs Hn) as Hl. destruct fuel as [|fuel]; [lia|]. cbn [FindStorage_loop].
    rewrite join_not_nil, NextSegment_join by (done || apply Hn).
    destruct (map_find name (m_children d)) as [c|] eqn:Ec.
    + destruct (IH fuel c (match m_storage c with Some _ => (c, join SEPARATOR segs) | None => result end) ltac:(lia))
        as (p & rest & -> & Hnone & Hcase).
      assert (forall q, q <> [] -> q `prefix_of` rest -> storage_at d ((name :: p) ++ q) = None) as Hnone'.
      { intros q Hq Hp. cbn [app]. rewrite storage_at_cons, Ec. by apply Hnone. }
      destruct Hcase as [[-> Hr]|(node & s & Hp & Hs & Hr)].
      * destruct (m_storage c) as [s|] eqn:Es.
        -- exists [name], rest. split; [done|]. split; [done|]. right. exists c, s. cbn [node_at].
           rewrite Ec. cbn [mbind option_bind]. auto.
        -- exists [], (name :: rest). split; [done|]. split; [|by left]. intros [|n q] Hq Hp; [done|].
           apply prefix_cons_inv_1 in Hp as Hn'. subst n. apply prefix_cons_inv_2 in Hp.
           destruct q as [|m q]; [|by apply Hnone']. cbn [app]. rewrite storage_at_cons, Ec. exact Es.
      * exists (name :: p), rest. split; [done|]. split; [done|]. right. exists node, s. cbn [node_at]. by rewrite Ec.
    + exists [], (name :: segs). split; [done|]. split; [|by left]. intros [|n q] Hq Hp; [done|].
      apply prefix_cons_inv_1 in Hp as ->. cbn [app]. by rewrite storage_at_cons, Ec.
Qed.

Lemma FindStorage_deepest root segs : Forall name_ok segs -> exists p rest node, segs = p ++ rest /\
  node_at p root = Some node /\ FindStorage root (join SEPARATOR segs) = (node, join SEPARATOR rest) /\
  (p = [] \/ is_Some (m_storage node)) /\
  forall q, q <> [] -> q `prefix_of` rest -> storage_at root (p ++ q) = None.
Proof.
  intros Hs. unfold FindStorage.
  destruct (FindStorage_loop_spec segs Hs _ root (root, join SEPARATOR segs) (Nat.le_refl _))
    as (p & rest & -> & Hnone & [[-> Hr]|(node & s & Hp & Hst & Hr)]).
  - exists [], rest, root. rewrite Hr. split; [done|]. split; [done|]. split; [done|]. split; [by left|done].
  - exists p, rest, node. rewrite Hr, Hst. split; [done|]. split; [done|]. split; [done|]. split; [by right; eexists|done].
Qed.

Lemma join_nil_inv segs : Forall name_ok segs -> join SEPARATOR segs = [] -> segs = [].
Proof. destruct 1 as [|n ns Hn]; [done|]. intros Hj. pose proof (join_not_nil n ns Hn) as E. by rewrite Hj in E. Qed.

Lemma GetMount_storage_at root segs : Forall name_ok segs -> GetMount root (join SEPARATOR segs) = storage_at root segs.
Proof.
  intros Hs. unfold GetMount. destruct (FindStorage_deepest root segs Hs) as (p & rest & node & -> & Hp & -> & _ & Hnone).
  apply Forall_app in Hs as [_ Hrest]. destruct rest as [|n rest].
  - rewrite app_nil_r. unfold storage_at. by rewrite Hp.
  - rewrite join_not_nil by (by inversion Hrest). symmetry. by apply Hnone.
Qed.

(** ** VisitMounts *)

Fixpoint MountDirectory_ind' (P : MountDirectory -> Prop)
  (Hmk : forall s l, Forall (fun i => P (snd i)) l -> P (mkMount s l)) (d : MountDirectory) : P d :=
  match d with
  | mkMount s l => Hmk s l ((fix go l : Forall (fun i => P (snd i)) l :=
      match l with [] => Forall_nil_2 _ | i :: l => Forall_cons_2 _ _ _ (MountDirectory_ind' P Hmk (snd i)) (go l) end) l)
  end.

(** A visited URI is that of the prefix extended by the path. *)
Definition extend (uri : bytes) (p : list bytes) : bytes :=
  match p with [] => uri | _ => (if uri =b [] then [] else uri ++ [SEPARATOR]) ++ join SEPARATOR p end.

Lemma extend_cons uri name p : name_ok name ->
  extend uri (name :: p) = extend ((if uri =b [] then [] else uri ++ [SEPARATOR]) ++ name) p.
Proof.
  intros [Hn _]. unfold extend at 2. destruct p as [|m p]; [done|].
  rewrite (proj2 (bytes_eqb_neq _ _)) by (intros [_ ?]%app_nil; done).
  unfold extend. change (join SEPARATOR (name :: m :: p)) with (name ++ SEPARATOR :: join SEPARATOR (m :: p)).
  by rewrite <- !app_assoc.
Qed.

Lemma VisitMounts_spec d : mounts_ok d -> forall uri u s,
  (u, s) ∈ VisitMounts uri d <-> exists p, u = extend uri p /\ storage_at d p = Some s.
Proof.
  induction d as [st l IH] using MountDirectory_ind'. intros [Hs Hl]%mounts_ok_map uri u s. cbn [VisitMounts].
  rewrite elem_of_app. split.
  - intros [Hin|Hin].
    + destruct st as [st|]; [|by apply elem_of_nil in Hin]. apply list_elem_of_singleton in Hin as [= -> ->]. by exists [].
    + apply list_elem_of_In, in_concat in Hin as (m & ([name c] & <- & Hc)%in_map_iff & Hin). cbn [fst snd] in Hin.
      apply list_elem_of_In in Hc, Hin. pose proof (map_find_sorted name c l Hs Hc) as Hf.
      destruct (Hl name c Hf) as (Hn & _ & Hok). rewrite Forall_forall in IH.
      apply (IH (name, c) Hc Hok) in Hin as (p & -> & Hp). exists (name :: p). rewrite extend_cons by done.
      split; [done|]. rewrite storage_at_cons. cbn [m_children]. by rewrite Hf.
  - intros ([|name p] & -> & Hp).
    + left. unfold storage_at in Hp. cbn in Hp. rewrite Hp. by left.
    + right. rewrite storage_at_cons in Hp. cbn [m_children] in Hp.
      destruct (map_find name l) as [c|] eqn:Ef; [|done]. cbn [mbind option_bind] in Hp.
      destruct (Hl name c Ef) as (Hn & _ & Hok). apply map_find_elem in Ef.
      apply list_elem_of_In, in_concat. eexists. split; [apply in_map_iff; exists (name, c); split; [done|by apply list_elem_of_In]|].
      cbn [fst snd]. apply list_elem_of_In. rewrite Forall_forall in IH. apply (IH (name, c) Ef Hok).
      exists p. split; [by rewrite extend_cons|done].
Qed.

(** ** The abstract mount table *)

Notation MountTable := (list bytes -> option StorageOps) (only parsing).

Inductive MountOp := OpMount (p : list bytes) (s : StorageOps) | OpUnmount (p : list bytes).
Definition op_path (op : MountOp) : list bytes := match op with OpMount p _ => p | OpUnmount p => p end.

(** The return values of the calls of [Unmount], and the storage; [None] if
    an assertion fails. *)
Fixpoint run_mounts (ops : list MountOp) (root : MountDirectory) : option (list bool * MountDirectory) :=
  match ops with
  | [] => Some ([], root)
  | OpMount p s :: ops => root ← Mount (join SEPARATOR p) s root; run_mounts ops root
  | OpUnmount p :: ops =>
      let '(r, root) := Unmount (join SEPARATOR p) root in
      '(rs, root) ← run_mounts ops root; Some (r :: rs, root)
  end.

Definition table_update (p : list bytes) (s : option StorageOps) (m : MountTable) : MountTable :=
  fun q => if decide (q = p) then s else m q.

(** Only a free mount point may be mounted on. *)
Fixpoint run_table (ops : list MountOp) (m : MountTable) : option (list bool * MountTable) :=
  match ops with
  | [] => Some ([], m)
  | OpMount p s :: ops =>
      match m p with
      | Some _ => None
      | None => run_table ops (table_update p (Some s) m)
      end
  | OpUnmount p :: ops =>
      '(rs, m') ← run_table ops (table_update p None m);
      Some (match m p with Some _ => true | None => false end :: rs, m')
  end.

Definition represents (root : MountDirectory) (m : MountTable) : Prop :=
  mounts_ok root /\ forall p, storage_at root p = m p.

Lemma clean_join p : Forall name_ok p -> clean (IterableSplitString (join SEPARATOR p) SEPARATOR) = p.
Proof.
  intros Hp. destruct p as [|n p]; [done|]. rewrite join_IterableSplitString; [|done|].
  - unfold clean. induction Hp as [|m l [Hm _] _ IH]; [done|]. cbn [List.filter].
    by rewrite (proj2 (bytes_eqb_neq _ _) Hm), IH.
  - eapply Forall_impl; [exact Hp|]. by intros x [].
Qed.

Lemma Find_segments_clean segs d : Find_segments segs d = node_at (clean segs) d.
Proof.
  revert d. induction segs as [|name segs IH]; intros d; [done|]. cbn [Find_segments clean List.filter].
  destruct (name =b []); [apply IH|]. cbn [negb node_at]. destruct (map_find name (m_children d)); [|done]. cbn [mbind option_bind]. apply IH.
Qed.

Lemma Mount_represents root m p s : Forall name_ok p -> represents root m ->
  match Mount (join SEPARATOR p) s root with
  | Some root' => m p = None /\ represents root' (table_update p (Some s) m)
  | None => is_Some (m p)
  end.
Proof.
  intros Hp [Hok Hm]. unfold Mount, m_Find. rewrite Find_segments_clean, clean_join by done.
  change (node_at p root ≫= m_storage) with (storage_at root p). rewrite Hm. destruct (m p) eqn:E; [done|]. split; [done|].
  destruct (Make_spec (IterableSplitString (join SEPARATOR p) SEPARATOR) s
    (IterableSplitString_segments _ _) root Hok) as [Hok' Hat].
  split; [exact Hok'|]. intros q. unfold set_storage in Hat. rewrite Hat, clean_join by done. unfold table_update. by rewrite Hm.
Qed.

Lemma Unmount_represents root m p r root' : Forall name_ok p -> represents root m ->
  Unmount (join SEPARATOR p) root = (r, root') ->
  r = match m p with Some _ => true | None => false end /\ represents root' (table_update p None m).
Proof.
  intros Hp [Hok Hm] Hu. destruct (m_Unmount_spec p Hp _ _ _ _ (Nat.le_refl _) Hok Hu) as (Hr & _ & Hok' & Hat).
  rewrite <- Hm. split; [done|]. split; [done|]. intros q. unfold table_update. by rewrite Hat, Hm.
Qed.

Lemma run_mounts_represents ops : Forall (fun op => Forall name_ok (op_path op)) ops -> forall root m,
  represents root m ->
  match run_mounts ops root, run_table ops m with
  | Some (returned, root'), Some (expected, m') => returned = expected /\ represents root' m'
  | None, None => True
  | _, _ => False
  end.
Proof.
  induction 1 as [|[p s|p] ops Hp Hops IH]; intros root m Hr; cbn [run_mounts run_table op_path] in *; [done| |].
  - pose proof (Mount_represents root m p s Hp Hr) as Hmount. destruct (Mount (join SEPARATOR p) s root) as [root'|].
    + destruct Hmount as [-> Hr']. cbn [mbind option_bind]. by apply IH.
    + by destruct Hmount as [? ->].
  - destruct (Unmount (join SEPARATOR p) root) as [r root'] eqn:Eu.
    destruct (Unmount_represents root m p r root' Hp Hr Eu) as [-> Hr']. specialize (IH root' _ Hr').
    destruct (run_mounts ops root') as [[rs root2]|], (run_table ops (table_update p None m)) as [[rs' m']|]; try done.
    destruct IH as [-> Hs]. done.
Qed.

Lemma storage_at_names d p s : mounts_ok d -> storage_at d p = Some s -> Forall name_ok p.
Proof.
  revert d. induction p as [|name p IH]; intros [s0 l] Hd; [done|]. rewrite storage_at_cons. cbn [m_children].
  apply mounts_ok_map in Hd as [_ Hl]. destruct (map_find name l) as [c|] eqn:Ef; [|done].
  destruct (Hl name c Ef) as (Hn & _ & Hc). intros Hp. constructor; [done|]. by eapply IH.
Qed.

Lemma Mount_root s : Mount [] s MountDirectory_new = Some (mkMount (Some s) []).
Proof. done. Qed.

(** A composite storage with one storage, mounted at the root, behaves as
    that storage does, except that the information on the root itself never
    fails: it is then a directory of unknown age. *)
Lemma composite_single (s : StorageOps) :
  let c := CompositeStorage (mkMount (Some s) []) in
  (forall uri follow, so_GetInfo c uri follow =
     match so_GetInfo s uri follow with
     | Ok info => Ok info
     | Throw e => if forallb (bytes_eqb []) (IterableSplitString uri SEPARATOR)
                  then Ok (StorageFileInfo_of DIRECTORY) else Throw e
     end) /\
  (forall uri, so_OpenDirectory c uri = so_OpenDirectory s uri) /\
  (forall uri, so_MapUTF8 c uri = so_MapUTF8 s uri) /\
  (forall uri, so_MapFS c uri = so_MapFS s uri) /\
  (forall uri, so_MapToRelativeUTF8 c uri = so_MapToRelativeUTF8 s uri) /\
  (forall uri, so_OpenFile c uri = so_OpenFile s uri).
Proof.
  cbv zeta.
  assert (forall uri, FindStorage (mkMount (Some s) []) uri = (mkMount (Some s) [], uri)) as Hfind.
  { intros uri. unfold FindStorage. destruct (length uri) as [|n]; cbn [FindStorage_loop]; destruct (uri =b []); try done.
    by destruct (NextSegment uri). }
  assert (forall segs, Find_segments segs (mkMount (Some s) []) =
    if forallb (bytes_eqb []) segs then Some (mkMount (Some s) []) else None) as Hsegs.
  { induction segs as [|seg segs IH]; [done|]. cbn [Find_segments forallb]. by destruct seg. }
  unfold CompositeStorage. cbn [so_GetInfo so_OpenDirectory so_MapUTF8 so_MapFS so_MapToRelativeUTF8 so_OpenFile].
  repeat split; intros; rewrite ?Hfind; unfold m_Find; rewrite ?Hsegs; cbn [m_storage m_children]; try done.
  - destruct (so_GetInfo s uri follow); [done|]. by destruct (forallb _ _).
  - by destruct (forallb _ _).
  - cbn [mbind option_bind m_MapToRelativeUTF8 fold_right]. by destruct (so_MapToRelativeUTF8 s uri).
Qed.

(** ** Properties *)

(** C14: after any sequence of calls of [Mount] and [Unmount] the tree is the
    finite map from paths to storages it stands for: the assertion of [Mount]
    fails exactly if the mount point is occupied in the map, the return
    values are those of the map, [GetMount] looks a path up, [VisitMounts]
    lists the entries, [FindStorage] finds the deepest mount above a path,
    and no directory is left over that neither has a storage nor leads to
    one. *)
Theorem CompositeStorage_refines (ops : list MountOp)
  (Hnames : Forall (fun op => Forall name_ok (op_path op)) ops) :
  match run_mounts ops MountDirectory_new, run_table ops (fun _ => None) with
  | Some (returned, root), Some (expected, table) =>
      returned = expected /\ mounts_ok root /\
      (forall p, Forall name_ok p -> GetMount root (join SEPARATOR p) = table p) /\
      (forall u s, (u, s) ∈ VisitMounts [] root <-> exists p, Forall name_ok p /\ u = join SEPARATOR p /\ table p = Some s) /\
      (forall segs, Forall name_ok segs -> exists p rest directory, segs = p ++ rest /\
         FindStorage root (join SEPARATOR segs) = (directory, join SEPARATOR rest) /\
         m_storage directory = table p /\ (p <> [] -> is_Some (table p)) /\
         forall q, q <> [] -> q `prefix_of` rest -> table (p ++ q) = None)
  | None, None => True
  | _, _ => False
  end.
Proof.
  pose proof (run_mounts_represents ops Hnames MountDirectory_new (fun _ => None)) as H.
  specialize (H (conj mounts_ok_new storage_at_new)).
  destruct (run_mounts ops MountDirectory_new) as [[returned root]|], (run_table ops (fun _ => None)) as [[expected table]|]; try done.
  destruct H as [Hr [Hok Hm]].
  split; [done|]. split; [done|]. split; [|split].
  - intros p Hp. by rewrite GetMount_storage_at.
  - intros u s. rewrite VisitMounts_spec by done. setoid_rewrite Hm. split.
    + intros (p & -> & Hp). exists p. split; [|by destruct p]. eapply storage_at_names; [exact Hok|by rewrite Hm].
    + intros (p & Hn & -> & Hp). exists p. by destruct p.
  - intros segs Hsegs. destruct (FindStorage_deepest root segs Hsegs) as (p & rest & node & -> & Hp & Hf & Hc & Hnone).
    assert (m_storage node = table p) as Ht by (rewrite <- Hm; unfold storage_at; by rewrite Hp).
    exists p, rest, node. split; [done|]. split; [done|]. split; [done|]. rewrite <- Ht.
    split; [by destruct Hc|]. intros q Hq Hpre. rewrite <- Hm. by apply Hnone.
Qed.

(** Mapping a URI of a local storage and back. *)
Lemma Relative_Build base uri : base <> [] -> head uri <> Some SEPARATOR -> uri <> [] ->
  Relative base (Build base uri) = Some uri.
Proof.
  intros Hb Hh Hu. destruct base as [|b base]; [done|]. destruct uri as [|c uri]; [done|].
  assert (IsSeparator c = false) as Hc by (apply bool_decide_eq_false; intros ->; done).
  unfold Build. rewrite Hc. destruct (IsSeparator (List.last (b :: base) NUL)) eqn:Es; unfold Relative.
  - rewrite after_prefix_app, Hc, Es. done.
  - rewrite <- app_assoc, after_prefix_app. simpl. by rewrite Hc.
Qed.

Definition sample_mounted : StorageOps :=
  mkStorageOps (fun _ _ => Ok (StorageFileInfo_of REGULAR)) (fun _ => Ok []) (fun u => lit "nfs://x/" ++ u)
    (fun _ => None) (fun _ => None) (fun _ => Ok None).

Definition sample_mount_ops : list MountOp :=
  [OpMount [] sample_mounted; OpMount [lit "a"; lit "b"] sample_mounted; OpUnmount [lit "a"];
   OpMount [lit "a"] sample_mounted; OpUnmount [lit "a"; lit "b"]].

Example sample_mounts :
  (fun '(returned, root) => (returned, map fst (VisitMounts [] root), snd (FindStorage root (lit "a/b/c")))) <$>
    run_mounts sample_mount_ops MountDirectory_new = Some ([false; true], [[]; lit "a"], lit "b/c") /\
  run_mounts [OpMount [lit "a"] sample_mounted; OpMount [lit "a"] sample_mounted] MountDirectory_new = None.
Proof. vm_compute. done. Qed.

Lemma CompositeStorage_refines_witness :
  match run_mounts sample_mount_ops MountDirectory_new, run_table sample_mount_ops (fun _ => None) with
  | Some (returned, root), Some (expected, table) =>
      returned = expected /\ mounts_ok root /\
      (forall p, Forall name_ok p -> GetMount root (join SEPARATOR p) = table p) /\
      (forall u s, (u, s) ∈ VisitMounts [] root <-> exists p, Forall name_ok p /\ u = join SEPARATOR p /\ table p = Some s) /\
      (forall segs, Forall name_ok segs -> exists p rest directory, segs = p ++ rest /\
         FindStorage root (join SEPARATOR segs) = (directory, join SEPARATOR rest) /\
         m_storage directory = table p /\ (p <> [] -> is_Some (table p)) /\
         forall q, q <> [] -> q `prefix_of` rest -> table (p ++ q) = None)
  | None, None => True
  | _, _ => False
  end.
Proof.
  apply (CompositeStorage_refines sample_mount_ops).
  repeat apply Forall_cons_2; try apply Forall_nil_2; apply (bool_decide_unpack _); vm_compute; exact I.
Defined.
