(* ===== verification/Config.v ===== *)
(** The configuration: paths ([src/config/Path.cxx]).

    The user's directories come from the environment ([UserDirectories]). *)
From S2P Require Import Prelude Text TagScan.
Open Scope Z_scope.

(** ** Path.cxx *)

(** fs/glue/StandardDirectory: [None] is the null path. *)
Class UserDirectories := {
  GetHomeDir : option bytes;
  GetHomeDir_user : bytes -> option bytes;
  GetUserConfigDir : option bytes;
  GetUserMusicDir : option bytes;
  GetUserCacheDir : option bytes;
  GetUserRuntimeDir : option bytes }.

Section Path.
Context `{System} `{UserDirectories}.

Definition GetHome_user (user : bytes) : result bytes :=
  match GetHomeDir_user user with Some result => Ok result | None => Throw (lit "no such user") end.

Definition GetHome : result bytes :=
  match GetHomeDir with Some result => Ok result | None => Throw (lit "problems getting home for current user") end.

(** [configured_user] is the static variable set by [InitPathParser]. *)
Definition GetConfiguredHome (configured_user : option bytes) : result bytes :=
  match configured_user with Some user => GetHome_user user | None => GetHome end.

Definition GetVariable (configured_user : option bytes) (name : bytes) : result (option bytes) :=
  if name =b lit "HOME" then let* home := GetConfiguredHome configured_user in Ok (Some home)
  else if name =b lit "XDG_CONFIG_HOME" then Ok GetUserConfigDir
  else if name =b lit "XDG_MUSIC_DIR" then Ok GetUserMusicDir
  else if name =b lit "XDG_CACHE_HOME" then Ok GetUserCacheDir
  else if name =b lit "XDG_RUNTIME_DIR" then Ok GetUserRuntimeDir
  else Throw (lit "Unknown variable").

Definition ParsePath (configured_user : option bytes) (path : bytes) : result bytes :=
  match path with
  | c :: path' =>
      if bool_decide (c = "~"%char) then
        match path' with
        | [] => GetConfiguredHome configured_user
        | _ =>
            let '(user, rest) := Split path' SEPARATOR in
            let* home := (if user =b [] then GetConfiguredHome configured_user else GetHome_user user) in
            let* rest := FromUTF8Throw (default [] rest) in
            Ok (Build home rest)
        end
      else if bool_decide (c = "$"%char) then
        let '(name, rest) := Split path' SEPARATOR in
        let* value := GetVariable configured_user name in
        match value with
        | None => Throw (lit "No value for variable")
        | Some value =>
            let* rest := FromUTF8Throw (default [] rest) in
            Ok (Build value rest)
        end
      else if negb (IsAbsolute path) then Throw (lit "not an absolute path")
      else FromUTF8Throw path
  | [] => Throw (lit "not an absolute path")
  end.
End Path.
