(* ===== verification/SongUpdate.v ===== *)
(** Reading a song: [src/SongUpdate.cxx], and the channel filter of
    [src/db/update/FilteredSongUpdate.cxx].

    A song's parent directory is given as the directories from it up to
    the root ([chain]), without their contents. *)
From S2P Require Import Prelude Text Chrono Utf8 Tags Audio Songs Directory TagScan Storage.
Open Scope Z_scope.

(** ** FilteredSongUpdate.cxx *)

Inductive ChannelMode := STEREO | MULTICHANNEL | ALL.

#[export] Instance ChannelMode_eq_dec : EqDecision ChannelMode.
Proof. solve_decision. Defined.

Definition ShouldFilterByChannelCount (mode : ChannelMode) (f : AudioFormat) : bool :=
  match mode with
  | ALL => false
  | _ =>
      if negb (AudioFormat_IsDefined f) then false
      else
        let channels := channels f in
        if channels =? 0 then false
        else if bool_decide (mode = STEREO) && (2 <? channels) then true
        else if bool_decide (mode = MULTICHANNEL) && (channels <=? 2) then true
        else false
  end.

Definition ShouldIncludeSong (mode : ChannelMode) (song : Song) : bool :=
  match mode with
  | ALL => true
  | _ => if ShouldFilterByChannelCount mode (audio_format song) then false else true
  end.

Definition ProcessSongTags (song : Song) : Song := song.

(** ** SongUpdate.cxx *)

(** [GetURI] of a song in the directory [parent]. *)
Definition parent_path (parent : Directory) : option bytes :=
  if is_root parent then None else Some (path parent).
Definition song_uri (parent : Directory) (s : Song) : bytes := Song_GetURI (parent_path parent) s.

(** An opened archive. *)
Record ArchiveFile := mkArchiveFile
  { archive_entries : list bytes;
    OpenStream : bytes -> result (option InputStream) }.

Section SongUpdate.
Context `{System} `{Storage} (mask : Z) (decoder_plugins : list DecoderPlugin).

(** [UpdateFile]: the changed song; [None] stands for the return value
    false, which leaves the song as it was. *)
Definition UpdateFile (parent : Directory) (s : Song) (info : StorageFileInfo) : option Song :=
  let relative_uri := song_uri parent s in
  let h := mkFullTagHandler TagBuilder_new (Some AudioFormat_Undefined) in
  let r :=
    match storage_MapFS relative_uri with
    | None => let* input := storage_OpenFile relative_uri in tag_stream_scan mask decoder_plugins input h
    | Some path_fs => ScanFileTagsWithGeneric mask decoder_plugins path_fs h
    end in
  match r with
  | Ok (true, h) =>
      Some (Song_with_tag
              (Song_with_audio_format (Song_with_mtime s (fi_mtime info))
                 (default AudioFormat_Undefined (h_audio_format h)))
              (Commit (h_tag h)))
  | _ => None
  end.

Definition LoadFile (path_utf8 : bytes) (info : StorageFileInfo) (parent : Directory) : option Song :=
  UpdateFile parent (Song_new path_utf8) info.

(** The path of a song inside the archive: [chain] starts with its parent
    and goes up to the root. *)
Fixpoint archive_path (chain : list Directory) (path_utf8 : bytes) : bytes :=
  match chain with
  | d :: ((p :: _) as up) =>
      if device p =? DEVICE_INARCHIVE
      then archive_path up (GetName p d ++ SEPARATOR :: path_utf8)
      else path_utf8
  | _ => path_utf8
  end.

Definition UpdateFileInArchive (archive : ArchiveFile) (chain : list Directory) (s : Song) : option Song :=
  match tag_archive_scan mask decoder_plugins (OpenStream archive (archive_path chain (filename s)))
          TagBuilder_new with
  | (true, tag_builder) => Some (Song_with_tag s (Commit tag_builder))
  | (false, _) => None
  end.

Definition LoadFromArchive (archive : ArchiveFile) (name_utf8 : bytes) (chain : list Directory) : option Song :=
  UpdateFileInArchive archive chain (Song_new name_utf8).
End SongUpdate.

(** ** Lemmas *)

Lemma UpdateFile_fields `{System} `{Storage} mask plugins parent s info s' :
  UpdateFile mask plugins parent s info = Some s' ->
  filename s' = filename s /\ target s' = target s /\ s_mtime s' = fi_mtime info /\
  s_added s' = s_added s /\ s_mark s' = s_mark s /\ in_playlist s' = in_playlist s.
Proof. unfold UpdateFile. destruct (match storage_MapFS _ with None => _ | Some _ => _ end) as [[[|] h]|]; by intros [= <-]. Qed.

Lemma UpdateFileInArchive_fields `{System} mask plugins archive chain s s' :
  UpdateFileInArchive mask plugins archive chain s = Some s' ->
  filename s' = filename s /\ target s' = target s /\ s_mark s' = s_mark s.
Proof. unfold UpdateFileInArchive. destruct (tag_archive_scan _ _ _ _) as [[|] ?]; by intros [= <-]. Qed.

Lemma ShouldIncludeSong_tag mode s t : ShouldIncludeSong mode (Song_with_tag s t) = ShouldIncludeSong mode s.
Proof. done. Qed.

(** ** Properties *)

(** The items of a song's tag, as [AddItem] leaves them. *)
Definition tag_ok (mask : Z) (t : Tag) : Prop := Forall (item_ok mask) (items t).

Lemma Commit_ok mask b : builder_ok mask b -> tag_ok mask (Commit b).
Proof. intros H. by apply Forall_take. Qed.

(** C40: whatever the decoder plugins report, a song that is read carries
    only non-empty, well-formed UTF-8 values without control characters,
    of enabled types, with decimal track and disc numbers. *)
Theorem UpdateFile_tag_ok `{System} `{Storage} (mask : Z) (plugins : list DecoderPlugin)
  (parent : Directory) (s s' : Song) (info : StorageFileInfo)
  (Hread : UpdateFile mask plugins parent s info = Some s') : tag_ok mask (s_tag s').
Proof.
  assert (builder_ok mask (h_tag (mkFullTagHandler TagBuilder_new (Some AudioFormat_Undefined)))) as H1
    by constructor.
  unfold UpdateFile in Hread. cbv zeta in Hread. destruct (storage_MapFS (song_uri parent s)) as [path_fs|].
  - destruct (ScanFileTagsWithGeneric mask plugins path_fs _) as [[[|] h]|] eqn:E; try done.
    injection Hread as <-. apply Commit_ok. exact (ScanFileTagsWithGeneric_p (Hlaws := builder_ok_laws mask plugins) _ _ _ _ E H1).
  - destruct (rbind (storage_OpenFile _) _) as [[[|] h]|] eqn:E; try done. injection Hread as <-.
    apply rbind_Ok in E as (input & _ & E). apply Commit_ok. exact (tag_stream_scan_p (Hlaws := builder_ok_laws mask plugins) _ _ _ _ E H1).
Qed.

(** The channel filter keeps every song in the mode "all" and every
    song whose format is unknown; otherwise "stereo" keeps exactly the
    songs of one or two channels and "multichannel" those of more. *)
Theorem ShouldIncludeSong_spec (mode : ChannelMode) (s : Song) :
  ShouldIncludeSong mode s = true <->
  mode = ALL \/ sample_rate (audio_format s) = 0 \/ channels (audio_format s) = 0 \/
  (mode = STEREO /\ channels (audio_format s) <= 2) \/ (mode = MULTICHANNEL /\ 2 < channels (audio_format s)).
Proof.
  unfold ShouldIncludeSong, ShouldFilterByChannelCount, AudioFormat_IsDefined.
  destruct (sample_rate (audio_format s) =? 0) eqn:E1; destruct (channels (audio_format s) =? 0) eqn:E2;
    destruct (2 <? channels (audio_format s)) eqn:E3; destruct (channels (audio_format s) <=? 2) eqn:E4;
    reflect_bools; destruct mode; simpl; split; try done; try lia; try tauto;
    intros; destruct_or?; destruct_and?; try done; try lia.
Qed.

(** A small music directory: two stereo files, one of them in a
    subdirectory whose reader also returns a file that no plugin knows,
    a surround file and a CUE sheet. *)
Definition sample_system : System :=
  {| OpenLocalInputStream := fun p => Ok (mkInputStream p None []);
     ScanGenericTags_path := fun _ _ => Ok [];
     ScanGenericTags_stream := fun _ _ => Ok [];
     PathFromUTF8 := fun p => Some p;
     PathToUTF8 := fun p => p |}.

Definition sample_plugin : DecoderPlugin :=
  mkDecoderPlugin (Some [lit "flac"]) None None
    (Some (fun p _ => (true,
       [OnDuration 180000; OnTag TAG_TRACK (lit "03/12"); OnTag TAG_TITLE p;
        OnAudioFormat (mkAudioFormat 44100 S16
          (if p =b lit "/music/surround.flac" then 6 else 2))])))
    None None.

Definition sample_regular : result StorageFileInfo := Ok (mkInfoOf REGULAR 1000 (1700000000 * 10 ^ 9) 3 9).
Definition sample_subdir : StorageFileInfo := mkInfoOf DIRECTORY 0 (1700000000 * 10 ^ 9) 3 8.
Definition sample_dir : StorageFileInfo := mkInfoOf DIRECTORY 0 (1700000000 * 10 ^ 9) 3 7.

Definition sample_storage : Storage :=
  {| storage_GetInfo := fun p =>
       if p =b [] then Ok sample_dir else if p =b lit "d" then Ok sample_subdir else sample_regular;
     storage_OpenDirectory := fun p =>
       if p =b [] then Ok [(lit "a.flac", sample_regular); (lit "surround.flac", sample_regular);
                           (lit "d", Ok sample_subdir)]
       else if p =b lit "d" then Ok [(lit "b.flac", sample_regular); (lit "notes.txt", sample_regular)]
       else Throw (lit "ENOTDIR");
     storage_OpenFile := fun p => Throw (lit "ENOENT");
     storage_MapFS := fun p => Some (lit "/music/" ++ p);
     storage_MapToRelativeUTF8 := fun p => after_prefix p (lit "/music/");
     ReadLink := fun _ => NotALink;
     access_denied := fun _ => false;
     fnmatch := fun p n => p =b n |}.

Lemma UpdateFile_tag_ok_witness :
  exists s', @UpdateFile sample_system sample_storage global_tag_mask [sample_plugin] NewRoot
      (Song_new (lit "a.flac")) (mkInfoOf REGULAR 1 5 3 9) = Some s' /\
    tag_ok global_tag_mask (s_tag s').
Proof.
  eexists. split; [vm_compute; reflexivity|].
  apply (@UpdateFile_tag_ok sample_system sample_storage global_tag_mask [sample_plugin] NewRoot
    (Song_new (lit "a.flac")) _ (mkInfoOf REGULAR 1 5 3 9)).
  vm_compute. reflexivity.
Defined.
