(* ===== verification/Sacd.v ===== *)
(** The SACD plugin as the update uses it:
    [src/decoder/plugins/SacdIsoDecoderPlugin.cxx] (reading the tracks of a
    disc image and of one track; playing is not modelled).

    The reader of the disc, the metabase and the file system are parameters
    ([SacdSystem]); a reader answers for a selected area.  The plugin keeps
    the last opened disc in global variables: [SacdState]. *)
From S2P Require Import Prelude Text Chrono Utf8 Tags Audio Songs TagScan SongUpdate.
Open Scope Z_scope.

(** ** sacd_reader.h, sacd_metabase.h *)

Inductive area_id_e := AREA_BOTH | AREA_TWOCH | AREA_MULCH.

#[export] Instance area_id_eq_dec : EqDecision area_id_e.
Proof. solve_decision. Defined.

(** [get_duration] and [get_info] depend on the area chosen with
    [select_area]; the last argument of [get_info] is the handler's mask. *)
Record sacd_reader_t := mkReader
  { get_tracks : area_id_e -> Z;
    get_duration : area_id_e -> Z -> double;
    get_info : area_id_e -> Z -> Z -> list TagEvent }.

Record sacd_metabase_t := mkMetabase { get_track_info : Z -> Z -> list TagEvent }.

Class SacdSystem := {
  FileExists : bytes -> bool;
  (** opening the media and then the reader *)
  disc_open : bytes -> option sacd_reader_t;
  dsdiff_open : bytes -> option sacd_reader_t;
  metabase_new : sacd_reader_t -> option bytes -> option bytes -> sacd_metabase_t }.

(** The block parameters that matter here. *)
Record SacdParams := mkSacdParams
  { param_playable_area : area_id_e; param_tags_path : bytes; param_tags_with_iso : bool }.

(** [init], given the values of the block parameters. *)
Definition init (playable_area tags_path : option bytes) (tags_with_iso : bool) : SacdParams :=
  mkSacdParams
    (match playable_area with
     | Some a => if a =b lit "stereo" then AREA_TWOCH
                 else if a =b lit "multichannel" then AREA_MULCH else AREA_BOTH
     | None => AREA_BOTH
     end)
    (default [] tags_path) tags_with_iso.

(** [sacd_path], [sacd_reader] and [sacd_metabase].  A reader whose [open]
    failed is never used and is [None] here. *)
Record SacdState := mkSacdState
  { sacd_path : option bytes; sacd_reader : option sacd_reader_t; sacd_metabase : option sacd_metabase_t }.

Definition SacdState_new : SacdState := mkSacdState None None None.

(** ** Track names *)

(** [SACD_TRACKXXX_FMT] with [sprintf]: "%cC_AUDIO__TRACK%03u.%3s". *)
Definition track_prefix : bytes := lit "C_AUDIO__TRACK".
Definition sprintf_track (area : byte) (n : Z) (suffix : bytes) : bytes :=
  area :: track_prefix ++ print_pad 3 n ++ lit "." ++ replicate (3 - length suffix) " "%char ++ suffix.

(** Conversions of [sscanf]: at most [w] digits, "%3u" and whether "%3s"
    matches. *)
Fixpoint scan_width (w : nat) (acc : Z) (s : bytes) : Z * bytes :=
  match w, s with
  | S w, c :: s' => if IsDigitASCII c then scan_width w (acc * 10 + digit_value c) s' else (acc, s)
  | _, _ => (acc, s)
  end.

Definition sscanf_u3 (s : bytes) : option (Z * bytes) :=
  let s1 := drop_while isspace s in
  let '(neg, w, s2) :=
    match s1 with
    | c :: s' => if bool_decide (c = "-"%char) then (true, 2%nat, s')
                 else if bool_decide (c = "+"%char) then (false, 2%nat, s') else (false, 3%nat, s1)
    | [] => (false, 3%nat, [])
    end in
  if starts_digit s2 then let '(v, r) := scan_width w 0 s2 in Some (u32 (if neg then - v else v), r) else None.

Definition sscanf_s (s : bytes) : bool := match drop_while isspace s with [] => false | _ => true end.

(** [sscanf] with [SACD_TRACKXXX_FMT]: the return value, [area] and
    [index], which start as a null byte and zero. *)
Definition sscanf_track (s : bytes) : Z * byte * Z :=
  match s with
  | [] => (-1, NUL, 0)
  | area :: s =>
      match after_prefix s track_prefix ≫= sscanf_u3 with
      | None => (1, area, 0)
      | Some (index, s) =>
          match after_prefix s (lit ".") with
          | Some s => if sscanf_s s then (3, area, index) else (2, area, index)
          | None => (2, area, index)
          end
      end
  end.

Definition get_subsong (reader : sacd_reader_t) (path_fs : bytes) : Z :=
  let '(params, area, index) := sscanf_track (GetBase path_fs) in
  let index := if bool_decide (area = "M"%char) then u32 (index + get_tracks reader AREA_TWOCH) else index in
  let index := u32 (index - 1) in
  if params =? 3 then index else 0.

(** [Path::GetDirectoryName] *)
Definition GetDirectoryName (p : bytes) : bytes :=
  match SplitLast p SEPARATOR with
  | (_, None) => lit "."
  | ([], Some _) => [SEPARATOR]
  | (d, Some _) => d
  end.

(** [SongTime::FromS(double)]: a conversion to [uint32_t]; out of range
    it is undefined in C++ and the value is that of x86-64. *)
Definition SongTime_FromS (s : double) : Z :=
  match d_trunc (d_mul s (d_of_Z 1000)) with
  | Some v => if (- 2 ^ 63 <=? v) && (v <? 2 ^ 63) then u32 v else 0
  | None => 0
  end.

(** [AddTagHandler]: pairs and audio formats are ignored. *)
Definition AddTagHandler_mask : Z := Z.lor WANT_DURATION WANT_TAG.
Definition add_handle (mask : Z) (tag : TagBuilder) (e : TagEvent) : TagBuilder :=
  match e with
  | OnDuration d => SetDuration tag (s32 d)
  | OnTag type value => AddTagHandler_OnTag mask tag type value
  | OnPair _ _ | OnAudioFormat _ => tag
  end.

Section Sacd.
Context `{SacdSystem} (prm : SacdParams).

(** The disc image at [curr_path] and its metabase. *)
Definition open_disc (curr_path : bytes) : option (sacd_reader_t * option sacd_metabase_t) :=
  let suffix := default [] (GetExtension curr_path) in
  let is_iso := StringIsEqualIgnoreCase suffix (lit "dat") || StringIsEqualIgnoreCase suffix (lit "iso") in
  let is_dff := StringIsEqualIgnoreCase suffix (lit "dff") in
  if is_dff then option_map (fun r => (r, None)) (dsdiff_open curr_path)
  else if is_iso then
    match disc_open curr_path with
    | None => None
    | Some r =>
        let tags_file :=
          if param_tags_with_iso prm then Some (fst (SplitLast curr_path ".") ++ lit ".xml") else None in
        let tags_path := if param_tags_path prm =b [] then None else Some (param_tags_path prm) in
        Some (r, if negb (param_tags_path prm =b []) || param_tags_with_iso prm
                 then Some (metabase_new r tags_path tags_file) else None)
    end
  else None.

Definition container_update (st : SacdState) (path_fs : bytes) : bool * SacdState :=
  let curr_path := if negb (FileExists path_fs) then GetDirectoryName path_fs else path_fs in
  if bool_decide (sacd_path st = Some curr_path) then (true, st)
  else if FileExists curr_path then
    match open_disc curr_path with
    | None => (false, SacdState_new)
    | Some (r, m) => (true, mkSacdState (Some curr_path) (Some r) m)
    end
  else (false, SacdState_new).

(** The calls of the handler's methods.  No handler here wants pictures. *)
Definition scan_info (st : SacdState) (area : area_id_e) (track track_index want : Z) : list TagEvent :=
  match sacd_reader st with
  | None => []
  | Some reader =>
      [OnTag TAG_TRACK (print_nat (u32 (track + 1)));
       OnDuration (SongTime_FromS (get_duration reader area track))] ++
      match sacd_metabase st with
      | Some m => get_track_info m (u32 (track_index + 1)) want
      | None => []
      end ++ get_info reader area track want
  end.

(** ** container_scan *)

(** The tag of a track: in the mode "all" the first album title with
    [label], and no other album. *)
Definition label_album (mask : Z) (mode : ChannelMode) (label : bytes) (tag : Tag) : Tag :=
  match mode with
  | ALL =>
      match GetValue tag TAG_ALBUM with
      | Some album => Commit (AddItem mask (RemoveType (TagBuilder_of tag) TAG_ALBUM) TAG_ALBUM (album ++ label))
      | None => tag
      end
  | _ => tag
  end.

(** The loop over the [count] tracks of an area.  Committing leaves a fresh
    builder for the next track. *)
Definition scan_area (mask : Z) (mode : ChannelMode) (st : SacdState) (area : area_id_e) (area_char : byte)
  (label suffix : bytes) (count offset : Z) : list DetachedSong :=
  map (fun k =>
    let track := Z.of_nat k in
    let events := scan_info st area track (u32 (track + offset)) AddTagHandler_mask in
    let tag := Commit (fold_left (add_handle mask) events TagBuilder_new) in
    DetachedSong_new_tag (sprintf_track area_char (u32 (track + 1)) suffix) (label_album mask mode label tag))
  (seq 0 (Z.to_nat count)).

Definition container_scan (mask : Z) (mode : ChannelMode) (st : SacdState) (path_fs : bytes)
  : list DetachedSong * SacdState :=
  let '(ok, st) := container_update st path_fs in
  match (if ok then sacd_reader st else None) with
  | None => ([], st)
  | Some reader =>
      let suffix := default [] (GetExtension path_fs) in
      let twoch_count := get_tracks reader AREA_TWOCH in
      let mulch_count := get_tracks reader AREA_MULCH in
      let process_stereo := negb (bool_decide (mode = MULTICHANNEL)) in
      let process_multichannel := negb (bool_decide (mode = STEREO)) in
      ((if (0 <? twoch_count) && negb (bool_decide (param_playable_area prm = AREA_MULCH)) && process_stereo
        then scan_area mask mode st AREA_TWOCH "2"%char (lit " (Stereo)") suffix twoch_count 0 else []) ++
       (if (0 <? mulch_count) && negb (bool_decide (param_playable_area prm = AREA_TWOCH)) && process_multichannel
        then scan_area mask mode st AREA_MULCH "M"%char (lit " (Multichannel)") suffix mulch_count twoch_count
        else []), st)
  end.

(** [scan_file]: the calls of the handler, or [None] for the return value
    false. *)
Definition scan_track_file (mode : ChannelMode) (st : SacdState) (path_fs : bytes) (want : Z)
  : option (list TagEvent) * SacdState :=
  let '(ok, st) := container_update st (GetDirectoryName path_fs) in
  match (if ok then sacd_reader st else None) with
  | None => (None, st)
  | Some reader =>
      let track_index := get_subsong reader path_fs in
      let twoch_count := get_tracks reader AREA_TWOCH in
      let mulch_count := get_tracks reader AREA_MULCH in
      if track_index <? twoch_count then
        if bool_decide (mode = MULTICHANNEL) then (None, st)
        else (Some (scan_info st AREA_TWOCH track_index track_index want), st)
      else
        let track := u32 (track_index - twoch_count) in
        if track <? mulch_count then
          if bool_decide (mode = STEREO) then (None, st)
          else (Some (scan_info st AREA_MULCH track track_index want), st)
        else (None, st)
  end.
End Sacd.

(** ** Lemmas *)

Lemma drop_while_space_digit s : starts_digit s = true -> drop_while isspace s = s.
Proof. destruct s as [|c s]; [done|]. simpl. intros Hd. by rewrite (digit_not_space c Hd). Qed.

Lemma scan_width_digits d s : forall acc, Forall (fun c => IsDigitASCII c = true) d ->
  scan_width (length d) acc (d ++ s) = (fst (scan_digits acc d), s).
Proof.
  induction d as [|c d IH]; intros acc Hd; [by destruct s|]. apply Forall_cons in Hd as [Hc Hd].
  cbn [length app scan_width scan_digits]. rewrite Hc. by apply IH.
Qed.

Lemma print_pad_3 n : 0 <= n < 1000 -> length (print_pad 3 n) = 3%nat.
Proof.
  intros Hn. assert (forallb (fun k => Nat.eqb (length (print_pad 3 (Z.of_nat k))) 3) (seq 0 1000) = true) as Hall
    by (vm_compute; reflexivity).
  rewrite forallb_forall in Hall. specialize (Hall (Z.to_nat n)). rewrite Z2Nat.id in Hall by lia.
  apply Nat.eqb_eq, Hall, in_seq. lia.
Qed.

Lemma print_pad_digits w n : 0 <= n -> Forall (fun c => IsDigitASCII c = true) (print_pad w n).
Proof.
  intros Hn. unfold print_pad. apply Forall_app. split; [|by apply print_nat_digits].
  by apply Forall_replicate.
Qed.

Lemma scan_print_pad w n : 0 <= n -> fst (scan_digits 0 (print_pad w n)) = n.
Proof. intros Hn. unfold print_pad. rewrite scan_zeros. by rewrite scan_print_nat. Qed.

Lemma scan_pad_app w n s : 0 <= n -> starts_digit s = false -> fst (scan_digits 0 (print_pad w n ++ s)) = n.
Proof. intros Hn Hs. unfold print_pad. rewrite <- app_assoc, scan_zeros. by rewrite scan_print_nat_app. Qed.

Lemma sscanf_u3_print n s : 0 <= n < 1000 -> sscanf_u3 (print_pad 3 n ++ s) = Some (n, s).
Proof.
  intros Hn. pose proof (print_pad_3 n Hn) as Hl. pose proof (print_pad_digits 3 n (proj1 Hn)) as Hd.
  assert (starts_digit (print_pad 3 n ++ s) = true) as Hs.
  { destruct (print_pad 3 n); [done|]. by inversion Hd. }
  unfold sscanf_u3. rewrite drop_while_space_digit by done.
  pose proof (scan_width_digits _ s 0 Hd) as Hw. rewrite Hl, scan_print_pad in Hw by lia.
  destruct (print_pad 3 n ++ s) as [|c r] eqn:E; [done|]. cbn [starts_digit] in Hs.
  destruct (digit_not_sign c Hs) as [H1 H2]. rewrite !bool_decide_false by done.
  cbn [starts_digit]. rewrite Hs, Hw. by rewrite u32_id by lia.
Qed.

(** The suffix of a disc image. *)
Definition sane_suffix (suffix : bytes) : Prop := drop_while isspace suffix <> [] /\ SEPARATOR ∉ suffix.

Lemma drop_while_spaces k s : drop_while isspace (replicate k " "%char ++ s) = drop_while isspace s.
Proof. induction k as [|k IH]; [done|]. exact IH. Qed.

Lemma sscanf_sprintf area n suffix : 0 <= n < 1000 -> sane_suffix suffix ->
  sscanf_track (sprintf_track area n suffix) = (3, area, n).
Proof.
  intros Hn [Hs _]. unfold sscanf_track, sprintf_track. rewrite after_prefix_app. cbn [mbind option_bind].
  rewrite sscanf_u3_print, after_prefix_app by done. unfold sscanf_s. rewrite drop_while_spaces.
  by destruct (drop_while isspace suffix).
Qed.

Lemma sprintf_no_separator area n suffix : 0 <= n -> area <> SEPARATOR -> sane_suffix suffix ->
  SEPARATOR ∉ sprintf_track area n suffix.
Proof.
  intros Hn Ha [_ Hs]. unfold sprintf_track. rewrite not_elem_of_cons, !not_elem_of_app.
  repeat split; try done.
  - apply (bool_decide_unpack _). vm_compute. exact I.
  - intros Hin. pose proof (print_pad_digits 3 n Hn) as Hd. rewrite Forall_forall in Hd. by apply Hd in Hin.
  - apply (bool_decide_unpack _). vm_compute. exact I.
  - intros [Hin _]%elem_of_replicate. done.
Qed.

Lemma base_of_name p n : SEPARATOR ∉ n -> GetBase (p ++ SEPARATOR :: n) = n.
Proof.
  intros Hn. unfold GetBase. pose proof (SplitLast_spec (p ++ SEPARATOR :: n) SEPARATOR) as Hs.
  destruct (SplitLast _ _) as [a [b|]]; destruct Hs as [E Hb].
  - symmetry. by apply (last_cut SEPARATOR p n a b).
  - exfalso. apply Hb, elem_of_app. right. by left.
Qed.

Lemma dir_of_name p n : p <> [] -> SEPARATOR ∉ n -> GetDirectoryName (p ++ SEPARATOR :: n) = p.
Proof.
  intros Hp Hn. unfold GetDirectoryName. pose proof (SplitLast_spec (p ++ SEPARATOR :: n) SEPARATOR) as Hs.
  destruct (SplitLast _ _) as [a [b|]]; destruct Hs as [E Hb].
  - destruct (last_cut SEPARATOR p n a b Hn Hb E) as [-> _]. by destruct a.
  - exfalso. apply Hb, elem_of_app. right. by left.
Qed.

Lemma GetExtension_base p suffix : GetExtension p = Some suffix -> SEPARATOR ∉ suffix.
Proof.
  unfold GetExtension. intros E Hin.
  assert (SEPARATOR ∉ GetBase p) as Hb.
  { unfold GetBase. pose proof (SplitLast_spec p SEPARATOR) as Hs. by destruct (SplitLast p SEPARATOR) as [a [b|]]; destruct Hs. }
  apply Hb. destruct (drop_while_suffix (fun ch => bool_decide (ch = "."%char)) (GetBase p)) as (pre & -> & _).
  pose proof (SplitLast_spec (drop_while (fun ch => bool_decide (ch = "."%char)) (GetBase p)) ".") as Hs.
  destruct (SplitLast _ _) as [a [b|]]; [|done]. injection E as ->. destruct Hs as [-> _].
  rewrite !elem_of_app, elem_of_cons. tauto.
Qed.

(** ** The cached disc *)

Section Disc.
Context `{SacdSystem} (prm : SacdParams).

(** What the global variables hold between two calls. *)
Definition coherent (st : SacdState) : Prop :=
  st = SacdState_new \/
  exists p r m, st = mkSacdState (Some p) (Some r) m /\ FileExists p = true /\ open_disc prm p = Some (r, m).

Lemma container_update_open st path st' : coherent st -> container_update prm st path = (true, st') ->
  exists p r m, st' = mkSacdState (Some p) (Some r) m /\ FileExists p = true /\ open_disc prm p = Some (r, m) /\
    p = (if FileExists path then path else GetDirectoryName path).
Proof.
  unfold container_update. set (curr := if negb (FileExists path) then GetDirectoryName path else path).
  assert (curr = if FileExists path then path else GetDirectoryName path) as Hcurr.
  { unfold curr. by destruct (FileExists path). }
  intros Hst. cbv zeta. case_bool_decide as Hp.
  - intros [= <-]. destruct Hst as [->|(p & r & m & -> & Hf & Ho)]; [done|]. injection Hp as ->.
    exists curr, r, m. by rewrite <- Hcurr.
  - destruct (FileExists curr) eqn:Hf; [|done]. destruct (open_disc prm curr) as [[r m]|] eqn:Ho; [|done].
    intros [= <-]. exists curr, r, m. by rewrite <- Hcurr.
Qed.

Lemma container_update_same st path : coherent st ->
  container_update prm st path = container_update prm SacdState_new path.
Proof.
  intros [->|(p & r & m & -> & Hf & Ho)]; [done|]. unfold container_update.
  cbn [sacd_path SacdState_new]. rewrite (bool_decide_false (None = Some _)) by done.
  case_bool_decide as Hp; [|done]. injection Hp as <-. by rewrite Hf, Ho.
Qed.

Lemma open_disc_suffix p r m : open_disc prm p = Some (r, m) ->
  exists suffix, GetExtension p = Some suffix /\ sane_suffix suffix.
Proof.
  assert (forall suffix s, StringIsEqualIgnoreCase suffix s = true -> map ToLowerASCII s = s -> s <> [] ->
    forallb (fun c => negb (isspace c)) s = true -> drop_while isspace suffix <> []) as Hsp.
  { intros suffix s E%bytes_eqb_eq Hs Hne Hall. rewrite Hs in E. subst s.
    destruct suffix as [|c suffix]; [done|]. simpl in Hall. apply andb_prop in Hall as [Hc _].
    assert (isspace c = false) as Hc'.
    { destruct (isspace c) eqn:Ec; [|done]. revert Hc Ec. by all_bytes c. }
    simpl. by rewrite Hc'. }
  unfold open_disc. cbv zeta. intros Hopen.
  destruct (GetExtension p) as [suffix|] eqn:Ee; [|by vm_compute in Hopen].
  exists suffix. split; [done|]. split; [|by eapply GetExtension_base].
  change (default [] (Some suffix)) with suffix in Hopen.
  destruct (StringIsEqualIgnoreCase suffix (lit "dff")) eqn:E1; [by eapply Hsp|].
  destruct (StringIsEqualIgnoreCase suffix (lit "dat")) eqn:E2; [by eapply Hsp|].
  destruct (StringIsEqualIgnoreCase suffix (lit "iso")) eqn:E3; [by eapply Hsp|]. done.
Qed.

(** The names of the tracks of an area. *)
Definition area_names (area : byte) (suffix : bytes) (count : Z) : list bytes :=
  map (fun k => sprintf_track area (Z.of_nat k + 1) suffix) (seq 0 (Z.to_nat count)).

Lemma area_names_spec ch suffix count u : 0 <= count ->
  u ∈ area_names ch suffix count <-> exists n, 1 <= n <= count /\ u = sprintf_track ch n suffix.
Proof.
  intros Hc. unfold area_names. rewrite list_elem_of_In, in_map_iff. split.
  - intros (k & <- & [_ Hk]%in_seq). exists (Z.of_nat k + 1). split; [lia|done].
  - intros (n & Hn & ->). exists (Z.to_nat (n - 1)). rewrite in_seq. split; [f_equal; lia|lia].
Qed.

Lemma area_names_NoDup ch suffix count : NoDup (area_names ch suffix count).
Proof.
  unfold area_names. change (map ?f ?l) with (f <$> l). apply NoDup_fmap_2_strong; [|apply NoDup_seq].
  intros i j _ _ E. unfold sprintf_track in E. injection E as E.
  pose proof (f_equal (fun s => fst (scan_digits 0 s)) E) as E'. cbv beta in E'.
  rewrite !scan_pad_app in E' by (lia || done). lia.
Qed.

Lemma scan_area_names mask mode st area ch label suffix count offset : count < 2 ^ 32 ->
  d_uri <$> scan_area mask mode st area ch label suffix count offset = area_names ch suffix count.
Proof.
  intros Hc. unfold scan_area, area_names. change (?f <$> ?l) with (map f l). rewrite map_map. apply map_ext_in.
  intros k [_ Hk]%in_seq. cbn [d_uri DetachedSong_new_tag]. by rewrite u32_id by lia.
Qed.

(** The tracks of an area have three digits (the format allows 255). *)
Class DiscLimits : Prop :=
  disc_limit : forall p r m, open_disc prm p = Some (r, m) -> forall area, 0 <= get_tracks r area < 1000.

(** The areas [container_scan] visits. *)
Definition area_wanted (mode : ChannelMode) (area : area_id_e) : Prop :=
  match area with
  | AREA_TWOCH => mode <> MULTICHANNEL /\ param_playable_area prm <> AREA_MULCH
  | AREA_MULCH => mode <> STEREO /\ param_playable_area prm <> AREA_TWOCH
  | AREA_BOTH => False
  end.

Definition area_char (area : area_id_e) : byte := match area with AREA_MULCH => "M"%char | _ => "2"%char end.
Definition area_label (area : area_id_e) : bytes :=
  match area with AREA_MULCH => lit " (Multichannel)" | _ => lit " (Stereo)" end.
Definition area_offset (r : sacd_reader_t) (area : area_id_e) : Z :=
  match area with AREA_MULCH => get_tracks r AREA_TWOCH | _ => 0 end.

(** The songs of the wanted areas, in order. *)
Lemma container_scan_eq mask mode st path st' r : container_update prm st path = (true, st') ->
  sacd_reader st' = Some r ->
  exists l1 l2, container_scan prm mask mode st path = (l1 ++ l2, st') /\
    (forall area l, (area = AREA_TWOCH /\ l = l1) \/ (area = AREA_MULCH /\ l = l2) ->
      (area_wanted mode area /\
       l = scan_area mask mode st' area (area_char area) (area_label area)
             (default [] (GetExtension path)) (get_tracks r area) (area_offset r area)) \/
      (~ area_wanted mode area /\ l = [])).
Proof.
  intros Eu Er. unfold container_scan. rewrite Eu, Er. eexists _, _. split; [reflexivity|].
  assert (forall area ch label off, get_tracks r area <= 0 ->
    scan_area mask mode st' area ch label (default [] (GetExtension path)) (get_tracks r area) off = []) as Hnil.
  { intros area ch label off Hn. unfold scan_area. by rewrite Z2Nat.nonpos by done. }
  intros area l [[-> ->]|[-> ->]]; cbn [area_wanted area_char area_label area_offset];
    (destruct (0 <? _) eqn:En; [|apply Z.ltb_ge in En; rewrite Hnil by done]);
    destruct mode; destruct (param_playable_area prm); cbn; (left; split; [by split|done]) || (right; split; [by intros []|done]).
Qed.
End Disc.

(** ** Properties *)

(** Keeping the disc open between two calls is transparent: whatever was
    opened before, [container_update] answers as it does for the first call,
    leaves the same state and holds the reader and the metabase of the image
    it opened. *)
Theorem container_update_cached `{SacdSystem} (prm : SacdParams) (st : SacdState) (path : bytes)
  (Hst : coherent prm st) :
  container_update prm st path = container_update prm SacdState_new path /\
  coherent prm (snd (container_update prm st path)).
Proof.
  pose proof (container_update_same prm st path Hst) as E.
  split; [done|]. rewrite E. destruct (container_update prm SacdState_new path) as [[|] st'] eqn:Eu.
  - apply container_update_open in Eu as (p & r & m & -> & Hf & Ho & _); [|by left].
    right. by exists p, r, m.
  - left. unfold container_update in Eu. cbn [sacd_path SacdState_new] in Eu.
    rewrite (bool_decide_false (None = Some _)) in Eu by done.
    destruct (FileExists _); [|by injection Eu]. destruct (open_disc prm _) as [[r m]|]; [done|by injection Eu].
Qed.

(** The tracks of a disc image: those of the stereo area unless the
    database is for multichannel files, those of the multichannel area unless
    it is for stereo files, an area excluded by the plugin's setting left
    out; each track once, under a name of its own. *)
Theorem container_scan_tracks `{SacdSystem} (prm : SacdParams) (Hlimit : DiscLimits prm) (mask : Z)
  (mode : ChannelMode) (st st' : SacdState) (path : bytes) (r : sacd_reader_t) (Hst : coherent prm st)
  (Hopen : container_update prm st path = (true, st')) (Hreader : sacd_reader st' = Some r) :
  let uris := d_uri <$> fst (container_scan prm mask mode st path) in
  NoDup uris /\
  forall u, u ∈ uris <-> exists area n, area_wanted prm mode area /\ 1 <= n <= get_tracks r area /\
    u = sprintf_track (area_char area) n (default [] (GetExtension path)).
Proof.
  set (suffix := default [] (GetExtension path)).
  destruct (container_update_open _ _ _ _ Hst Hopen) as (p & r' & m & -> & _ & Ho & _).
  cbn [sacd_reader] in Hreader. injection Hreader as ->.
  destruct (container_scan_eq prm mask mode st path _ r Hopen eq_refl) as (l1 & l2 & -> & Hl).
  assert (forall area l, (area = AREA_TWOCH /\ l = l1) \/ (area = AREA_MULCH /\ l = l2) ->
    NoDup (d_uri <$> l) /\ forall u, u ∈ d_uri <$> l <-> area_wanted prm mode area /\
      exists n, 1 <= n <= get_tracks r area /\ u = sprintf_track (area_char area) n suffix) as Hname.
  { intros area l Ha. pose proof (Hlimit _ _ _ Ho area) as Hc.
    destruct (Hl area l Ha) as [[Hw ->]|[Hw ->]].
    - rewrite scan_area_names by lia. split; [by apply area_names_NoDup|]. intros u. rewrite area_names_spec by lia. tauto.
    - split; [apply NoDup_nil_2|]. intros u. rewrite elem_of_nil. tauto. }
  destruct (Hname AREA_TWOCH l1) as [Hnd1 H1]; [by left|]. destruct (Hname AREA_MULCH l2) as [Hnd2 H2]; [by right|].
  cbv zeta. cbn [fst]. rewrite fmap_app. split.
  - apply NoDup_app. split; [done|]. split; [|done]. intros u (_ & n & _ & ->)%H1 (_ & n' & _ & E)%H2. done.
  - intros u. rewrite elem_of_app, H1, H2. split.
    + intros [[Hw (n & Hn & ->)]|[Hw (n & Hn & ->)]]; eauto.
    + intros ([| |] & n & Hw & Hn & ->); [done|left|right]; eauto.
Qed.

(** Reading the tags of one track by its path agrees with the scan of
    the image: for every song that [container_scan] lists, [scan_file] finds
    the track from the name and reports the same tags, whatever disc was open
    before. *)
Theorem scan_file_agrees `{SacdSystem} (prm : SacdParams) (Hlimit : DiscLimits prm) (mask : Z)
  (mode : ChannelMode) (st st2 : SacdState) (path : bytes) (s : DetachedSong) (Hst : coherent prm st)
  (Hst2 : coherent prm st2) (Hpath : path <> []) (Hfile : FileExists path = true)
  (Hs : s ∈ fst (container_scan prm mask mode st path)) :
  exists area es,
    fst (scan_track_file prm mode st2 (path ++ SEPARATOR :: d_uri s) AddTagHandler_mask) = Some es /\
    d_tag s = label_album mask mode (area_label area) (Commit (fold_left (add_handle mask) es TagBuilder_new)).
Proof.
  destruct (container_update prm st path) as [[|] st'] eqn:Eu.
  2:{ unfold container_scan in Hs. rewrite Eu in Hs. by apply elem_of_nil in Hs. }
  destruct (container_update_open _ _ _ _ Hst Eu) as (p & r & m & -> & _ & Ho & Hp). rewrite Hfile in Hp. subst p.
  destruct (open_disc_suffix _ _ _ _ Ho) as (suffix & Ee & Hsuf).
  destruct (container_scan_eq prm mask mode st path _ r Eu eq_refl) as (l1 & l2 & E & Hl).
  rewrite E in Hs. cbn [fst] in Hs. rewrite Ee in Hl. change (default [] (Some suffix)) with suffix in Hl.
  assert (exists area, area <> AREA_BOTH /\ area_wanted prm mode area /\
    s ∈ scan_area mask mode (mkSacdState (Some path) (Some r) m) area (area_char area) (area_label area) suffix
          (get_tracks r area) (area_offset r area)) as (area & Hne & Hw & Hin).
  { apply elem_of_app in Hs as [Hs|Hs];
      [destruct (Hl AREA_TWOCH l1 (or_introl (conj eq_refl eq_refl))) as [[Hw ->]|[_ ->]]
      |destruct (Hl AREA_MULCH l2 (or_intror (conj eq_refl eq_refl))) as [[Hw ->]|[_ ->]]];
      try (by apply elem_of_nil in Hs); (eexists; split; [|by split; [exact Hw|exact Hs]]; done). }
  apply list_elem_of_In, in_map_iff in Hin as (k & <- & [_ Hk]%in_seq).
  pose proof (Hlimit _ _ _ Ho AREA_TWOCH) as H2. pose proof (Hlimit _ _ _ Ho area) as Hc.
  exists area, (scan_info (mkSacdState (Some path) (Some r) m) area (Z.of_nat k)
    (u32 (Z.of_nat k + area_offset r area)) AddTagHandler_mask).
  split; [|done]. cbn [d_uri DetachedSong_new_tag]. unfold scan_track_file.
  rewrite (u32_id (Z.of_nat k + 1)) by lia.
  pose proof (sprintf_no_separator (area_char area) (Z.of_nat k + 1) suffix) as Hns.
  rewrite dir_of_name, (container_update_same _ _ _ Hst2), <- (container_update_same _ _ _ Hst), Eu
    by (done || (apply Hns; [lia|by destruct area|done])).
  cbn [sacd_reader]. unfold get_subsong.
  rewrite base_of_name by (apply Hns; [lia|by destruct area|done]). rewrite sscanf_sprintf by (lia || done).
  destruct area; [done|..]; cbn [area_char area_offset area_wanted] in *.
  - rewrite bool_decide_false by done. cbv zeta. rewrite (Z.eqb_refl 3), u32_id by lia.
    replace (Z.of_nat k + 1 - 1) with (Z.of_nat k) by lia. rewrite (proj2 (Z.ltb_lt _ _)) by lia.
    rewrite bool_decide_false by tauto. by rewrite Z.add_0_r, u32_id by lia.
  - rewrite bool_decide_true by done. cbv zeta. rewrite (Z.eqb_refl 3).
    rewrite (u32_id (Z.of_nat k + 1 + _)), u32_id by lia.
    replace (Z.of_nat k + 1 + get_tracks r AREA_TWOCH - 1) with (Z.of_nat k + get_tracks r AREA_TWOCH) by lia.
    rewrite (proj2 (Z.ltb_ge _ _)) by lia.
    replace (Z.of_nat k + get_tracks r AREA_TWOCH - get_tracks r AREA_TWOCH) with (Z.of_nat k) by lia.
    rewrite (u32_id (Z.of_nat k)) by lia. rewrite (proj2 (Z.ltb_lt _ _)) by lia.
    rewrite bool_decide_false by tauto. by rewrite u32_id by lia.
Qed.

(** In the mode "all" a track's first album title gets the label of its
    area, further album titles are dropped and nothing else changes; in the
    other modes the tag is left as the disc has it. *)
Theorem label_album_spec (mask : Z) (mode : ChannelMode) (area : area_id_e) (tag : Tag)
  (Hclean : tag_ok mask tag) (Hfit : Z.of_nat (length (items tag)) < 65535) :
  let tag' := label_album mask mode (area_label area) tag in
  duration tag' = duration tag /\ has_playlist tag' = has_playlist tag /\
  (forall t, t <> TAG_ALBUM -> values (items tag') t = values (items tag) t) /\
  values (items tag') TAG_ALBUM =
    match mode, GetValue tag TAG_ALBUM with
    | ALL, Some album => [album ++ area_label area]
    | _, _ => values (items tag) TAG_ALBUM
    end.
Proof.
  unfold label_album. destruct mode; try done.
  destruct (GetValue tag TAG_ALBUM) as [album|] eqn:Ea; [|done]. cbv zeta.
  assert (clean_value (album ++ area_label area) /\ IsTagEnabled mask TAG_ALBUM = true) as [Hal Hen].
  { rewrite GetValue_head in Ea. unfold values in Ea.
    destruct (List.filter _ (items tag)) as [|i l] eqn:Ef; [done|]. injection Ea as <-.
    assert (In i (items tag) /\ bool_decide (ti_type i = TAG_ALBUM) = true) as [Hin Ht%bool_decide_eq_true].
    { apply (proj1 (filter_In (fun i => bool_decide (ti_type i = TAG_ALBUM)) i (items tag))). rewrite Ef. by left. }
    unfold tag_ok in Hclean. rewrite Forall_forall in Hclean.
    destruct (Hclean i (proj2 (list_elem_of_In _ _) Hin)) as ((Hv0 & Hv & Hp) & He & _). rewrite Ht in He.
    assert (IsSafe (area_label area) = true) as [Hv2 Hp2]%IsSafe_valid by (by destruct area).
    split; [|done]. split; [by destruct (ti_value i)|]. split; [by apply valid8_app|by apply Forall_app]. }
  assert (AddItem mask (RemoveType (TagBuilder_of tag) TAG_ALBUM) TAG_ALBUM (album ++ area_label area) =
    AddItemUnchecked (RemoveType (TagBuilder_of tag) TAG_ALBUM) TAG_ALBUM (album ++ area_label area)) as ->.
  { unfold AddItem. destruct Hal as (Hne & Hv & Hp). rewrite (proj2 (bytes_eqb_neq _ _) Hne), Hen. simpl.
    unfold AddItemInternal. f_equal. by apply fixed_tag_string_id. }
  split; [done|]. split; [done|]. rewrite Commit_items.
  - cbn [b_items AddItemUnchecked]. split.
    + intros t Ht. rewrite values_app, values_RemoveType, bool_decide_false by done.
      unfold values at 2. cbn [List.filter ti_type]. rewrite bool_decide_false by done. by rewrite app_nil_r.
    + rewrite values_app, values_RemoveType, bool_decide_true by done. done.
  - unfold fits. cbn [b_items AddItemUnchecked RemoveType TagBuilder_of]. rewrite length_app. cbn [length].
    pose proof (filter_length_le (fun item => negb (bool_decide (ti_type item = TAG_ALBUM))) (items tag)). lia.
Qed.

(** ** A disc with two stereo tracks and one multichannel track *)

Definition sample_reader : sacd_reader_t :=
  {| get_tracks := fun area => match area with AREA_TWOCH => 2 | AREA_MULCH => 1 | AREA_BOTH => 3 end;
     get_duration := fun _ _ => d_of_Z 60;
     get_info := fun _ _ _ => [OnTag TAG_ALBUM (lit "Album"); OnTag TAG_TITLE (lit "Title")] |}.

Definition sample_image : bytes := lit "/m/x.iso".

Definition sample_sacd : SacdSystem :=
  {| FileExists := fun p => bool_decide (p = sample_image);
     disc_open := fun _ => Some sample_reader;
     dsdiff_open := fun _ => None;
     metabase_new := fun _ _ _ => mkMetabase (fun _ _ => []) |}.

Definition sample_params : SacdParams := init None None false.
Definition sample_state : SacdState := mkSacdState (Some sample_image) (Some sample_reader) None.

Lemma sample_open : @open_disc sample_sacd sample_params sample_image = Some (sample_reader, None).
Proof. vm_compute. reflexivity. Qed.

Lemma sample_coherent : @coherent sample_sacd sample_params sample_state.
Proof. right. exists sample_image, sample_reader, None. split; [done|]. split; [done|apply sample_open]. Qed.

Lemma sample_limits : @DiscLimits sample_sacd sample_params.
Proof.
  intros p r m Ho area. assert (r = sample_reader) as ->; [|by destruct area].
  unfold open_disc in Ho. destruct (StringIsEqualIgnoreCase _ (lit "dff")); [done|].
  destruct (StringIsEqualIgnoreCase _ (lit "dat") || _); [|done]. cbn in Ho. by injection Ho.
Qed.

Lemma container_update_cached_witness :
  @coherent sample_sacd sample_params (snd (@container_update sample_sacd sample_params sample_state (lit "/m"))) /\
  fst (@container_update sample_sacd sample_params sample_state (lit "/m")) = false.
Proof.
  split; [|vm_compute; reflexivity].
  exact (proj2 (@container_update_cached sample_sacd sample_params sample_state (lit "/m") sample_coherent)).
Defined.

Lemma container_scan_tracks_witness :
  let uris := d_uri <$> fst (@container_scan sample_sacd sample_params global_tag_mask STEREO SacdState_new sample_image) in
  NoDup uris /\ uris = [lit "2C_AUDIO__TRACK001.iso"; lit "2C_AUDIO__TRACK002.iso"].
Proof.
  split; [|vm_compute; reflexivity].
  refine (proj1 (@container_scan_tracks sample_sacd sample_params sample_limits global_tag_mask STEREO
    SacdState_new sample_state sample_image sample_reader (or_introl eq_refl) _ eq_refl)).
  vm_compute. reflexivity.
Defined.

Lemma scan_file_agrees_witness :
  let songs := fst (@container_scan sample_sacd sample_params global_tag_mask ALL SacdState_new sample_image) in
  exists s area es, s ∈ songs /\ d_uri s = lit "MC_AUDIO__TRACK001.iso" /\
    fst (@scan_track_file sample_sacd sample_params ALL SacdState_new (sample_image ++ SEPARATOR :: d_uri s)
      AddTagHandler_mask) = Some es /\
    d_tag s = label_album global_tag_mask ALL (area_label area)
      (Commit (fold_left (add_handle global_tag_mask) es TagBuilder_new)).
Proof.
  intros songs.
  assert (exists s, s ∈ songs /\ d_uri s = lit "MC_AUDIO__TRACK001.iso") as (s & Hin & Hu).
  { destruct (songs !! 2%nat) as [s|] eqn:E; [|vm_compute in E; discriminate].
    exists s. split; [by apply list_elem_of_lookup_2 in E|]. vm_compute in E. by injection E as <-. }
  destruct (@scan_file_agrees sample_sacd sample_params sample_limits global_tag_mask ALL
    SacdState_new SacdState_new sample_image s (or_introl eq_refl) (or_introl eq_refl))
    as (area & es & H1 & H2); [done|vm_compute; reflexivity|exact Hin|].
  by exists s, area, es.
Defined.

Lemma label_album_spec_witness :
  let tag := mkTag 60000 false [mkTagItem TAG_ALBUM (lit "Album"); mkTagItem TAG_ALBUM (lit "Other")] in
  values (items (label_album global_tag_mask ALL (area_label AREA_MULCH) tag)) TAG_ALBUM =
  [lit "Album (Multichannel)"].
Proof.
  intros tag.
  destruct (label_album_spec global_tag_mask ALL AREA_MULCH tag) as (_ & _ & _ & E); [|cbn; lia|].
  - assert (forall v, IsSafe v = true -> v <> [] -> item_ok global_tag_mask (mkTagItem TAG_ALBUM v)) as Hi.
    { intros v [Hv Hp]%IsSafe_valid Hne. split; [done|]. split; [vm_compute; reflexivity|by intros [|]]. }
    unfold tag_ok. cbn [items tag]. rewrite !Forall_cons. by split_and!; [apply Hi..|apply Forall_nil].
  - etransitivity; [exact E|]. vm_compute. reflexivity.
Defined.
