(* ===== verification/CueValidator.v ===== *)
(** Which CUE sheets an update ignores: [src/db/update/CueValidator.cxx]. *)
From S2P Require Import Prelude Text Tags Songs Cue Directory TagScan Storage SongUpdate.
Open Scope Z_scope.

Definition media_extensions : list bytes :=
  [lit ".flac"; lit ".wav"; lit ".ape"; lit ".wv"; lit ".dsf"; lit ".dff";
   lit ".mp3"; lit ".mp4"; lit ".m4a"; lit ".aac"; lit ".ogg"; lit ".opus"].

Definition IsSupportedMediaFile (filename : bytes) : bool :=
  existsb (StringEndsWithIgnoreCase filename) media_extensions.

(** The loop over the directory reader; an exception ends it. *)
Fixpoint count_media (entries : list (bytes * result StorageFileInfo)) (count : Z) : Z :=
  match entries with
  | [] => count
  | (name, info) :: entries =>
      if starts_with name (lit ".") then count_media entries count
      else match info with
           | Throw _ => count
           | Ok info =>
               count_media entries
                 (if IsRegular info && IsSupportedMediaFile name then u32 (count + 1) else count)
           end
  end.

(** [isdigit] in the C locale. *)
Definition track_number (line : bytes) : option Z :=
  match after_prefix line (lit "TRACK") with
  | None => None
  | Some p =>
      let p := drop_while (fun ch => bool_decide (ch = " "%char) || bool_decide (ch = chr 9)) p in
      if starts_digit p then Some (u32 (atoi p)) else None
  end.

Definition count_tracks (tis : LineReader) : Z :=
  fold_left (fun track_count line =>
    match track_number line with
    | Some track_num => if track_count <? track_num then track_num else track_count
    | None => track_count
    end) tis 0.

Section CueValidator.
Context `{Storage}.

Definition CountMediaFilesInDirectory (directory_path : bytes) : Z :=
  match storage_OpenDirectory directory_path with
  | Throw _ => 0
  | Ok entries => count_media entries 0
  end.

Definition CountTracksInCueFile (cue_path : bytes) : Z :=
  match storage_OpenFile cue_path with
  | Throw _ => 0
  | Ok input => count_tracks (text_lines (is_data input))
  end.

Definition ShouldIgnoreCueFile (directory_path cue_filename : bytes) : bool :=
  let cue_path :=
    (if negb (directory_path =b []) && negb (bool_decide (List.last directory_path NUL = "/"%char))
     then directory_path ++ lit "/" else directory_path) ++ cue_filename in
  let cue_tracks := CountTracksInCueFile cue_path in
  if cue_tracks =? 0 then true
  else
    let media_files := CountMediaFilesInDirectory directory_path in
    if cue_tracks =? media_files then true
    else if cue_tracks =? u32 (media_files + 1) then true
    else false.
End CueValidator.

(** ** Lemmas *)

(** The largest number of a line that starts with "TRACK". *)
Lemma count_tracks_spec tis :
  0 <= count_tracks tis /\
  (forall line k, line ∈ tis -> track_number line = Some k -> k <= count_tracks tis) /\
  (count_tracks tis = 0 \/ exists line, line ∈ tis /\ track_number line = Some (count_tracks tis)).
Proof.
  unfold count_tracks.
  induction tis as [|line tis IH] using rev_ind.
  - split; [done|]. split; [|by left]. intros line k H. by apply not_elem_of_nil in H.
  - rewrite fold_left_app. destruct IH as (H0 & Hmax & Hin). cbn [fold_left].
    set (n := fold_left _ tis 0) in *. destruct (track_number line) as [k|] eqn:E.
    + destruct (n <? k) eqn:Hk; reflect_bools.
      * split; [lia|]. split; [|right; exists line; split; [apply elem_of_app; right; by left|done]].
        intros l j [Hl| ->%list_elem_of_singleton]%elem_of_app Hj; [specialize (Hmax l j Hl Hj); lia|].
        simplify_eq. lia.
      * split; [lia|]. split.
        -- intros l j [Hl| ->%list_elem_of_singleton]%elem_of_app Hj; [by eapply Hmax|]. simplify_eq. lia.
        -- destruct Hin as [|(l & Hl & Hj)]; [by left|]. right. exists l. by rewrite elem_of_app; auto.
    + split; [lia|]. split.
      * intros l j [Hl| ->%list_elem_of_singleton]%elem_of_app Hj; [by eapply Hmax|]. by rewrite E in Hj.
      * destruct Hin as [|(l & Hl & Hj)]; [by left|]. right. exists l. by rewrite elem_of_app; auto.
Qed.

(** The files the count stands for. *)
Definition is_media (e : bytes * result StorageFileInfo) : bool :=
  negb (starts_with (fst e) (lit ".")) &&
  match snd e with Ok info => IsRegular info && IsSupportedMediaFile (fst e) | Throw _ => false end.

Definition readable (e : bytes * result StorageFileInfo) : Prop :=
  starts_with (fst e) (lit ".") = true \/ exists info, snd e = Ok info.

Lemma count_media_spec entries count : Forall readable entries ->
  0 <= count -> count + Z.of_nat (length entries) < 2 ^ 32 ->
  count_media entries count = count + Z.of_nat (length (List.filter is_media entries)).
Proof.
  intros Hr. revert count. induction Hr as [|[name info] entries H Hr IH]; intros count H0 Hb; [simpl; lia|].
  cbn [length] in Hb. cbn [count_media List.filter].
  replace (is_media (name, info)) with (negb (starts_with name (lit ".")) &&
    match info with Ok i => IsRegular i && IsSupportedMediaFile name | Throw _ => false end) by done.
  unfold readable in H. cbn [fst snd] in H.
  destruct (starts_with name (lit ".")); cbn [negb andb]; [apply IH; lia|].
  destruct H as [H|[i ->]]; [done|].
  destruct (IsRegular i && IsSupportedMediaFile name); cbn [length]; [|apply IH; lia].
  rewrite u32_id by lia. rewrite IH by lia. lia.
Qed.

(** ** Properties *)

(** The number of a TRACK line, indented or not, as a parser of CUE sheets
    sees it. *)
Definition sheet_track (line : bytes) : option Z := track_number (StripLeft line).

(** No TRACK line is indented. *)
Definition not_indented (line : bytes) : bool :=
  match after_prefix (StripLeft line) (lit "TRACK") with Some _ => StripLeft line =b line | None => true end.

Lemma sheet_track_not_indented line : not_indented line = true -> sheet_track line = track_number line.
Proof.
  unfold not_indented, sheet_track. destruct (after_prefix (StripLeft line) (lit "TRACK")) eqn:E.
  - intros H. reflect_bools. by rewrite H.
  - intros _. unfold track_number. rewrite E. destruct (after_prefix line (lit "TRACK")) eqn:E2; [|done].
    apply after_prefix_Some in E2. subst line. done.
Qed.

(** C10: a readable sheet none of whose TRACK lines is indented is ignored
    exactly if it has no TRACK line with a positive number, or if the largest
    such number is the number of media files in its directory or one more;
    media files are the regular, not hidden files with one of the known
    suffixes.  The lines are those of [TextInputStream]. *)
Theorem ShouldIgnoreCueFile_spec `{Storage} (dir cue : bytes) (input : InputStream)
  (entries : list (bytes * result StorageFileInfo))
  (Hcue : storage_OpenFile
            ((if negb (dir =b []) && negb (bool_decide (List.last dir NUL = "/"%char))
              then dir ++ lit "/" else dir) ++ cue) = Ok input)
  (Hsheet : forallb not_indented (text_lines (is_data input)) = true)
  (Hdir : storage_OpenDirectory dir = Ok entries) (Hread : Forall readable entries)
  (Hsmall : Z.of_nat (length entries) < 2 ^ 32 - 1) :
  let sheet := text_lines (is_data input) in
  ShouldIgnoreCueFile dir cue = true <->
  (forall line k, line ∈ sheet -> sheet_track line = Some k -> k <= 0) \/
  exists n, (n = Z.of_nat (length (List.filter is_media entries)) \/
             n = Z.of_nat (length (List.filter is_media entries)) + 1) /\
    (exists line, line ∈ sheet /\ sheet_track line = Some n) /\
    (forall line k, line ∈ sheet -> sheet_track line = Some k -> k <= n).
Proof.
  intros tracks.
  assert (forall line, line ∈ tracks -> sheet_track line = track_number line) as Htrack.
  { intros line Hl. apply sheet_track_not_indented. rewrite forallb_forall in Hsheet. by apply Hsheet, list_elem_of_In. }
  unfold ShouldIgnoreCueFile, CountTracksInCueFile, CountMediaFilesInDirectory.
  cbv zeta. rewrite Hcue, Hdir. fold tracks.
  rewrite count_media_spec by (try done; lia). rewrite Z.add_0_l.
  assert (length (List.filter is_media entries) <= length entries)%nat as Hle by apply filter_length_le.
  rewrite u32_id by lia.
  destruct (count_tracks_spec tracks) as (H0 & Hmax & Hin).
  set (n := count_tracks tracks) in *. set (m := Z.of_nat (length (List.filter is_media entries))) in *.
  destruct (n =? 0) eqn:E0; reflect_bools.
  { split; [|done]. intros _. left. intros line k Hl Hk. rewrite <- E0. rewrite Htrack in Hk by done. by eapply Hmax. }
  destruct Hin as [|(line & Hl & Hk)]; [done|].
  assert (forall q, n = q -> (exists l, l ∈ tracks /\ sheet_track l = Some q) /\
    (forall l k, l ∈ tracks -> sheet_track l = Some k -> k <= q)) as Hn.
  { intros q <-. split; [exists line; by rewrite Htrack|]. intros l k Hl' Hk'. rewrite Htrack in Hk' by done. by eapply Hmax. }
  destruct (n =? m) eqn:E1; reflect_bools.
  { split; [|done]. intros _. right. exists m. split; [by left|]. by apply Hn. }
  destruct (n =? m + 1) eqn:E2; reflect_bools.
  { split; [|done]. intros _. right. exists (m + 1). split; [by right|]. by apply Hn. }
  split; [done|]. destruct (Hn n eq_refl) as [(l0 & Hl0 & Hk0) _]. intros [Hz|(k & Hk' & (l & Hl' & Hlk) & Hkm)].
  - specialize (Hz l0 n Hl0 Hk0). lia.
  - rewrite Htrack in Hlk by done. specialize (Hmax l k Hl' Hlk). specialize (Hkm l0 n Hl0 Hk0). lia.
Qed.

Lemma sheet_tracks_le tis n :
  forallb (fun l => match sheet_track l with Some k => k <=? n | None => true end) tis = true ->
  forall line k, line ∈ tis -> sheet_track line = Some k -> k <= n.
Proof.
  intros H line k Hl Hk. apply forallb_forall with (x := line) in H; [|by apply list_elem_of_In].
  rewrite Hk in H. by apply Z.leb_le.
Qed.

(** A storage with the sheet of [Cue.sample_sheet], unindented, next to
    three media files. *)
Definition cue_storage (sheet : list bytes) : Storage :=
  {| storage_GetInfo := fun _ => sample_regular;
     storage_OpenDirectory := fun _ =>
       Ok [(lit "a.flac", sample_regular); (lit "b.mp3", sample_regular); (lit "x.cue", sample_regular);
           (lit ".hidden.mp3", Throw (lit "EACCES"))];
     storage_OpenFile := fun p => Ok (mkInputStream p None (concat (map line sheet)));
     storage_MapFS := fun _ => None;
     storage_MapToRelativeUTF8 := fun _ => None;
     ReadLink := fun _ => NotALink;
     access_denied := fun _ => false;
     fnmatch := fun _ _ => false |}.

Lemma ShouldIgnoreCueFile_spec_witness :
  @ShouldIgnoreCueFile (cue_storage (map StripLeft sample_sheet)) (lit "d") (lit "x.cue") = true.
Proof.
  apply (@ShouldIgnoreCueFile_spec (cue_storage (map StripLeft sample_sheet)) (lit "d") (lit "x.cue")
    (mkInputStream (lit "d/x.cue") None (concat (map line (map StripLeft sample_sheet))))
    [(lit "a.flac", sample_regular); (lit "b.mp3", sample_regular); (lit "x.cue", sample_regular);
     (lit ".hidden.mp3", Throw (lit "EACCES"))]).
  - reflexivity.
  - vm_compute. reflexivity.
  - reflexivity.
  - repeat apply Forall_cons_2; try apply Forall_nil_2; first [by left | right; by eexists].
  - vm_compute. reflexivity.
  - right. exists 2. split; [left; vm_compute; reflexivity|]. split.
    + exists (lit "TRACK 02 AUDIO"). split; [|vm_compute; reflexivity].
      apply (bool_decide_unpack _). vm_compute. exact I.
    + apply sheet_tracks_le. vm_compute. reflexivity.
Defined.

(** A sheet whose TRACK lines are indented, as most programs write them,
    has "no tracks", although the parser finds them: it is ignored next to
    a single image file. *)
Example indented_sheet_ignored :
  @ShouldIgnoreCueFile (cue_storage sample_sheet) (lit "d") (lit "x.cue") = true /\
  option_map (fun l => length l) (CuePlaylist_songs global_tag_mask sample_sheet) = Some 2%nat.
Proof. vm_compute. done. Qed.
