(* ===== verification/Editor.v ===== *)
(** Deleting from the tree during an update: [src/db/update/Editor.cxx],
    and the state of a running update ([UpdateWalk] in [Walk.hxx]).

    A directory is a value here, so an operation that deletes through a
    pointer takes the parent and the index, and returns the parent. *)
From S2P Require Import Prelude Text Songs Playlists Directory SongUpdate.
Open Scope Z_scope.

(** [modified]; the URIs given to [UpdateRemoveService::Remove], the last
    one first; and how often the cancel flag and the clock were read. *)
Record WalkState := mkWalkState
  { modified : bool; removed : list bytes; ticks : nat }.

Definition set_modified (st : WalkState) : WalkState := mkWalkState true (removed st) (ticks st).
Definition or_modified (st : WalkState) (b : bool) : WalkState :=
  mkWalkState (modified st || b) (removed st) (ticks st).
Definition tick (st : WalkState) : WalkState := mkWalkState (modified st) (removed st) (S (ticks st)).

(** [remove.Remove(uri)] *)
Definition remove_uri (st : WalkState) (uri : bytes) : WalkState :=
  mkWalkState (modified st) (uri :: removed st) (ticks st).

(** [DatabaseEditor::DeleteSong] of the song with the index [i]. *)
Definition DeleteSong (dir : Directory) (i : nat) (st : WalkState) : Directory * WalkState :=
  match songs dir !! i with
  | None => (dir, st)
  | Some del => (with_songs dir (delete i (songs dir)), remove_uri st (song_uri dir del))
  end.

(** The songs [ClearDirectory] deletes, in its order: those of the
    subdirectories first. *)
Fixpoint clear_uris (directory : Directory) : list bytes :=
  concat (map clear_uris (children directory)) ++ map (song_uri directory) (songs directory).

Definition ClearDirectory (directory : Directory) (st : WalkState) : WalkState :=
  fold_left remove_uri (clear_uris directory) st.

(** [DeleteDirectory] of the child with the index [i]. *)
Definition DeleteDirectory (parent : Directory) (i : nat) (st : WalkState) : Directory * WalkState :=
  match children parent !! i with
  | None => (parent, st)
  | Some directory => (with_children parent (delete i (children parent)), ClearDirectory directory st)
  end.

Definition DeleteNameIn (parent : Directory) (name : bytes) (st : WalkState) : bool * Directory * WalkState :=
  let '(m1, parent, st) :=
    match FindChild_pos parent name with
    | Some i => let '(parent, st) := DeleteDirectory parent i st in (true, parent, st)
    | None => (false, parent, st)
    end in
  let '(m2, parent, st) :=
    match FindSong_pos parent name with
    | Some i => let '(parent, st) := DeleteSong parent i st in (true, parent, st)
    | None => (false, parent, st)
    end in
  (m1 || m2, with_playlists parent (fst (pv_erase name (playlists parent))), st).

(** [ForEachChildSafe] and [ForEachSongSafe] with a callback that deletes
    what satisfies [p] and sets [modified]. *)
Fixpoint delete_children_if (p : Directory -> bool) (l : list Directory) (st : WalkState)
  : list Directory * WalkState :=
  match l with
  | [] => ([], st)
  | child :: l =>
      if p child then delete_children_if p l (set_modified (ClearDirectory child st))
      else let '(l, st) := delete_children_if p l st in (child :: l, st)
  end.

Fixpoint delete_songs_if (directory : Directory) (p : Song -> bool) (l : list Song) (st : WalkState)
  : list Song * WalkState :=
  match l with
  | [] => ([], st)
  | song :: l =>
      if p song then delete_songs_if directory p l (set_modified (remove_uri st (song_uri directory song)))
      else let '(l, st) := delete_songs_if directory p l st in (song :: l, st)
  end.

Definition DeleteIf (pc : Directory -> bool) (ps : Song -> bool) (directory : Directory) (st : WalkState)
  : Directory * WalkState :=
  let '(l, st) := delete_children_if pc (children directory) st in
  let '(s, st) := delete_songs_if directory ps (songs directory) st in
  (with_songs (with_children directory l) s, st).

(** ** Lemmas *)

Lemma remove_all_removed l st : removed (fold_left remove_uri l st) = rev l ++ removed st.
Proof.
  revert st. induction l as [|u l IH]; intros st; [done|]. simpl. by rewrite IH, <- app_assoc.
Qed.

Lemma remove_all_modified l st : modified (fold_left remove_uri l st) = modified st.
Proof. revert st. induction l as [|u l IH]; intros st; [done|]. simpl. by rewrite IH. Qed.

Lemma remove_all_ticks l st : ticks (fold_left remove_uri l st) = ticks st.
Proof. revert st. induction l as [|u l IH]; intros st; [done|]. simpl. by rewrite IH. Qed.

Lemma delete_children_if_list p l st :
  fst (delete_children_if p l st) = List.filter (fun c => negb (p c)) l.
Proof.
  revert st. induction l as [|c l IH]; intros st; [done|]. simpl.
  destruct (p c) eqn:E; simpl; [apply IH|]. specialize (IH st).
  destruct (delete_children_if p l st). simpl in *. by subst.
Qed.

Lemma delete_songs_if_list d p l st :
  fst (delete_songs_if d p l st) = List.filter (fun c => negb (p c)) l.
Proof.
  revert st. induction l as [|c l IH]; intros st; [done|]. simpl.
  destruct (p c) eqn:E; simpl; [apply IH|]. specialize (IH st).
  destruct (delete_songs_if d p l st). simpl in *. by subst.
Qed.

Lemma DeleteIf_eq pc ps d st : fst (DeleteIf pc ps d st) =
  with_songs (with_children d (List.filter (fun c => negb (pc c)) (children d)))
    (List.filter (fun s => negb (ps s)) (songs d)).
Proof.
  unfold DeleteIf. pose proof (delete_children_if_list pc (children d) st) as H1.
  destruct (delete_children_if pc (children d) st) as [l st1]. simpl in H1. subst l.
  pose proof (delete_songs_if_list d ps (songs d) st1) as H2.
  destruct (delete_songs_if d ps (songs d) st1) as [s st2]. simpl in H2. by subst s.
Qed.
