(* ===== verification/Walk.v ===== *)
(** The update walk: [UpdateWalk] in [src/db/update/Walk.cxx],
    [UpdateSong.cxx], [Container.cxx], [Archive.cxx], [Playlist.cxx] and
    [VirtualDirectory.cxx].

    A directory is a value: an operation on [Directory &directory] takes it
    and returns it.  Where the code follows [parent] pointers, [chain] holds
    the parents of the directory up to the root; only their paths and
    [stat] fields are looked at.  [FindAncestorLoop] assigns the latter, so
    the chain is returned, too.  [UpdateDirectory] recurses into the file
    system: [fuel] bounds the depth and [None] means that it was exceeded
    ([WalkTermination] shows how much is enough).  The database lock is
    not modelled: every operation here runs in the update thread. *)
From S2P Require Import Prelude Text Chrono Tags Audio Songs SongSave Playlists Directory.
From S2P Require Import TagScan Storage SongUpdate CueValidator Editor.
Open Scope Z_scope.

(** ** Plugins and configuration *)

Record ArchivePlugin := mkArchivePlugin
  { ap_suffixes : option (list bytes); archive_file_open : bytes -> result ArchiveFile }.

(** The songs an enumerator returns, and whether it then throws instead of
    returning null. *)
Record SongEnumerator := mkSongEnumerator { e_songs : list DetachedSong; e_throws : bool }.

Record PlaylistPlugin := mkPlaylistPlugin
  { pp_suffixes : option (list bytes);
    open_stream : InputStream -> result (option SongEnumerator);
    as_folder : bool }.

(** What is fixed during a walk.  The plugin lists are those of the enabled
    plugins.  [cancel] and [now] are what the n-th reading of the flag and
    of the clock gives. *)
Class UpdateWalk := {
  follow_inside_symlinks : bool;
  follow_outside_symlinks : bool;
  tag_mask : Z;
  decoder_plugins : list DecoderPlugin;
  archive_plugins : list ArchivePlugin;
  playlist_plugins : list PlaylistPlugin;
  channel_mode : ChannelMode;
  walk_discard : bool;
  cancel : nat -> bool;
  now : nat -> Z }.

Definition supports (suffixes : option (list bytes)) (suffix : bytes) : bool :=
  match suffixes with Some l => StringArrayContainsCase l suffix | None => false end.

Section Walk.
Context `{System} `{Storage} `{UpdateWalk}.

Definition archive_plugin_from_suffix (suffix : bytes) : option ArchivePlugin :=
  List.find (fun p => supports (ap_suffixes p) suffix) archive_plugins.

Definition FindPlaylistPluginBySuffix (suffix : bytes) : option PlaylistPlugin :=
  List.find (fun p => supports (pp_suffixes p) suffix) playlist_plugins.

(** Assignment through a pointer to a child. *)
Definition set_child (directory : Directory) (i : nat) (child : Directory) : Directory :=
  with_children directory (<[i := child]> (children directory)).
Definition set_song (directory : Directory) (i : nat) (song : Song) : Directory :=
  with_songs directory (<[i := song]> (songs directory)).

(** ** VirtualDirectory.cxx *)

(** The index of the new child, and the directory it is in. *)
Definition make_virtual (parent : Directory) (name : bytes) (info : StorageFileInfo) (virtual_device : Z)
  : option nat * Directory :=
  let parent := MakeChild parent name in
  match FindChild_pos parent name with
  | None => (None, parent)
  | Some i =>
      (Some i, with_children parent
        (alter (fun d => with_mark (with_device (with_mtime d (fi_mtime info)) virtual_device) true) i
           (children parent)))
  end.

Definition MakeVirtualDirectoryIfModified (parent : Directory) (name : bytes) (info : StorageFileInfo)
  (virtual_device : Z) (st : WalkState) : option nat * Directory * WalkState :=
  match FindChild_pos parent name with
  | Some i =>
      match children parent !! i with
      | None => (None, parent, st)
      | Some directory =>
          if IsMount directory then (None, parent, st)
          else if (mtime directory =? fi_mtime info) && (device directory =? virtual_device) &&
                  negb walk_discard
          then (None, set_child parent i (with_mark directory true), st)
          else
            let '(parent, st) := DeleteDirectory parent i st in
            (make_virtual parent name info virtual_device, set_modified st)
      end
  | None => (make_virtual parent name info virtual_device, st)
  end.

(** ** Container.cxx *)

(** The tracks of the plugins that return any. *)
Fixpoint container_tracks (plugins : list DecoderPlugin) (pathname : bytes) (info : StorageFileInfo)
  : list Song :=
  match plugins with
  | [] => []
  | plugin :: plugins =>
      match container_scan plugin with
      | Some scan =>
          match scan pathname with
          | Ok v => map (fun vtrack => Song_with_mtime (Song_of_detached vtrack) (fi_mtime info)) v
          | Throw _ => []
          end
      | None => []
      end ++ container_tracks plugins pathname info
  end.

Definition UpdateContainerFile (directory : Directory) (name suffix : bytes) (info : StorageFileInfo)
  (st : WalkState) : bool * Directory * WalkState :=
  match List.filter (fun p => SupportsContainerSuffix p suffix) decoder_plugins with
  | [] => (false, directory, st)
  | plugins =>
      match MakeVirtualDirectoryIfModified directory name info DEVICE_CONTAINER st with
      | (None, directory, st) => (true, directory, st)
      | (Some i, directory, st) =>
          match children directory !! i with
          | None => (false, directory, st)
          | Some contdir =>
              match storage_MapFS (path contdir) with
              | None => let '(directory, st) := DeleteDirectory directory i st in (false, directory, st)
              | Some pathname =>
                  match container_tracks plugins pathname info with
                  | [] => let '(directory, st) := DeleteDirectory directory i st in (false, directory, st)
                  | tracks =>
                      (true, set_child directory i (fold_left AddSong tracks contdir), set_modified st)
                  end
              end
          end
      end
  end.

(** ** UpdateSong.cxx *)

Definition AddSongFile (directory : Directory) (name : bytes) (info : StorageFileInfo) (st : WalkState)
  : Directory * WalkState :=
  match LoadFile tag_mask decoder_plugins name info directory with
  | None => (directory, st)
  | Some new_song =>
      if negb (ShouldIncludeSong channel_mode new_song) then (directory, st)
      else
        let new_song := ProcessSongTags new_song in
        let new_song := Song_with_added (Song_with_mark new_song true) (now (ticks st)) in
        (AddSong directory new_song, set_modified (tick st))
  end.

Definition ReloadSongFile (directory : Directory) (i : nat) (song : Song) (info : StorageFileInfo)
  (st : WalkState) : Directory * WalkState :=
  match UpdateFile tag_mask decoder_plugins directory song info with
  | Some song =>
      if negb (ShouldIncludeSong channel_mode song) then
        let '(directory, st) := DeleteSong (set_song directory i song) i st in
        (directory, set_modified st)
      else
        (set_song directory i (Song_with_mark (ProcessSongTags song) true), set_modified st)
  | None => (directory, set_modified st)
  end.

(** The song of the given name and its index. *)
Definition find_song (directory : Directory) (name : bytes) : option (nat * Song) :=
  FindSong_pos directory name ≫= fun i => songs directory !! i ≫= fun s => Some (i, s).

Definition UpdateSongFile2 (directory : Directory) (name suffix : bytes) (info : StorageFileInfo)
  (st : WalkState) : Directory * WalkState :=
  let song := find_song directory name in
  if negb (directory_child_access directory name) then (directory, st)
  else
    let unmodified :=
      match song with Some (_, s) => (fi_mtime info =? s_mtime s) && negb walk_discard | None => false end in
    let '(is_container, directory, st) :=
      if negb unmodified then UpdateContainerFile directory name suffix info st
      else (false, directory, st) in
    if is_container then (directory, st)
    else
      match song with
      | None => AddSongFile directory name info st
      | Some (i, s) =>
          if negb (fi_mtime info =? s_mtime s) || walk_discard then ReloadSongFile directory i s info st
          else (set_song directory i (Song_with_mark s true), st)
      end.

Definition UpdateSongFile (directory : Directory) (name suffix : bytes) (info : StorageFileInfo)
  (st : WalkState) : bool * Directory * WalkState :=
  if negb (decoder_plugins_supports_suffix decoder_plugins suffix) then (false, directory, st)
  else let '(directory, st) := UpdateSongFile2 directory name suffix info st in (true, directory, st).

(** ** Archive.cxx *)

Definition IsAcceptableFilename (name : bytes) : bool :=
  negb (name =b []) && negb (bool_decide (LF ∈ name)).

(** [segs] are the parts of the entry's name between slashes. *)
Fixpoint UpdateArchiveTree (archive : ArchiveFile) (chain : list Directory) (directory : Directory)
  (segs : list bytes) (st : WalkState) {struct segs} : Directory * WalkState :=
  match segs with
  | [] => (directory, st)
  | [name] =>
      if negb (IsAcceptableFilename name) then (directory, st)
      else
        match find_song directory name with
        | None =>
            match LoadFromArchive tag_mask decoder_plugins archive name (directory :: chain) with
            | Some new_song => (AddSong directory new_song, set_modified st)
            | None => (directory, st)
            end
        | Some (i, song) =>
            match UpdateFileInArchive tag_mask decoder_plugins archive (directory :: chain) song with
            | Some song => (set_song directory i song, st)
            | None => DeleteSong directory i st
            end
        end
  | child_name :: rest =>
      if negb (IsAcceptableFilename child_name) then (directory, st)
      else
        let directory := MakeChild directory child_name in
        match FindChild_pos directory child_name ≫= fun i => children directory !! i ≫= fun c => Some (i, c) with
        | None => (directory, st)
        | Some (i, subdir) =>
            let '(subdir, st) :=
              UpdateArchiveTree archive (directory :: chain) (with_device subdir DEVICE_INARCHIVE) rest st in
            (set_child directory i subdir, st)
        end
  end.

(** [UpdateArchiveVisitor::VisitArchiveEntry] for every entry. *)
Fixpoint VisitArchive (archive : ArchiveFile) (chain : list Directory) (directory : Directory)
  (entries : list bytes) (st : WalkState) : Directory * WalkState :=
  match entries with
  | [] => (directory, st)
  | path_utf8 :: entries =>
      let '(directory, st) :=
        UpdateArchiveTree archive chain directory (IterableSplitString path_utf8 SEPARATOR) st in
      VisitArchive archive chain directory entries st
  end.

Definition UpdateArchiveFile_plugin (chain : list Directory) (parent : Directory) (name : bytes)
  (info : StorageFileInfo) (plugin : ArchivePlugin) (st : WalkState) : Directory * WalkState :=
  match MapChildFS (path parent) name with
  | None => (parent, st)
  | Some path_fs =>
      match MakeVirtualDirectoryIfModified parent name info DEVICE_INARCHIVE st with
      | (None, parent, st) => (parent, st)
      | (Some i, parent, st) =>
          match archive_file_open plugin path_fs, children parent !! i with
          | Ok file, Some directory =>
              let '(directory, st) :=
                VisitArchive file (parent :: chain) directory (archive_entries file) st in
              (set_child parent i (with_mark directory true), st)
          | _, _ => (parent, st)
          end
      end
  end.

Definition UpdateArchiveFile (chain : list Directory) (directory : Directory) (name suffix : bytes)
  (info : StorageFileInfo) (st : WalkState) : bool * Directory * WalkState :=
  match archive_plugin_from_suffix suffix with
  | None => (false, directory, st)
  | Some plugin =>
      let '(directory, st) := UpdateArchiveFile_plugin chain directory name info plugin st in
      (true, directory, st)
  end.

(** ** Playlist.cxx *)

(** A song of the playlist as the given track of the virtual directory. *)
Definition playlist_track (track : Z) (song : DetachedSong) : Song :=
  let db_song := Song_of_detached song in
  let is_absolute := IsAbsoluteOrHasScheme (filename db_song) in
  mkSong (lit "track" ++ print_pad 4 track)
    (if is_absolute then filename db_song else lit "../" ++ filename db_song)
    (s_tag db_song) (s_mtime db_song) (s_added db_song) (start_time db_song) (end_time db_song)
    (audio_format db_song) (in_playlist db_song) (s_mark db_song).

Fixpoint add_tracks (directory : Directory) (track : Z) (contents : list DetachedSong) : Directory :=
  match contents with
  | [] => directory
  | song :: contents =>
      let track := u32 (track + 1) in
      add_tracks (AddSong directory (playlist_track track song)) track contents
  end.

(** The overload that fills the virtual directory from a plugin. *)
Definition UpdatePlaylistFile_plugin (parent : Directory) (name : bytes) (info : StorageFileInfo)
  (plugin : PlaylistPlugin) (st : WalkState) : Directory * WalkState :=
  match MakeVirtualDirectoryIfModified parent name info DEVICE_PLAYLIST st with
  | (None, parent, st) => (parent, st)
  | (Some i, parent, st) =>
      match children parent !! i with
      | None => (parent, st)
      | Some directory =>
          match (let* input := storage_OpenFile (path directory) in open_stream plugin input) with
          | Ok (Some e) =>
              let directory := add_tracks directory 0 (e_songs e) in
              let parent := set_child parent i directory in
              if e_throws e || IsEmpty directory then DeleteDirectory parent i st else (parent, st)
          | Ok None | Throw _ => DeleteDirectory parent i st
          end
      end
  end.

Definition UpdatePlaylistFile (directory : Directory) (name suffix : bytes) (info : StorageFileInfo)
  (st : WalkState) : bool * Directory * WalkState :=
  match FindPlaylistPluginBySuffix suffix with
  | None => (false, directory, st)
  | Some plugin =>
      if StringIsEqualIgnoreCase suffix (lit "cue") && ShouldIgnoreCueFile (path directory) name
      then (false, directory, st)
      else if StringIsEqualIgnoreCase suffix (lit "pls") || StringIsEqualIgnoreCase suffix (lit "m3u")
      then (false, directory, st)
      else
        let '(directory, st) :=
          if as_folder plugin then UpdatePlaylistFile_plugin directory name info plugin st
          else (directory, st) in
        let '(pv, m) := UpdateOrInsert (PlaylistInfo_new name (fi_mtime info)) (playlists directory) in
        (true, with_playlists directory pv, or_modified st m)
  end.

(** ** Walk.cxx *)

Definition directory_set_stat (dir : Directory) (info : StorageFileInfo) : Directory :=
  with_stat dir (fi_inode info) (fi_device info).

Definition RemoveExcludedFromDirectory (directory : Directory) (exclude_list : ExcludeList) (st : WalkState)
  : Directory * WalkState :=
  let excluded name :=
    match PathFromUTF8 name with
    | None => true
    | Some name_fs => ExcludeList_Check exclude_list name_fs
    end in
  DeleteIf (fun child => excluded (GetName directory child)) (fun song => excluded (filename song)) directory st.

Definition UnmarkAllIn (directory : Directory) : Directory :=
  with_playlists
    (with_songs
       (with_children directory (map (fun i => with_mark i false) (children directory)))
       (map (fun i => Song_with_mark i false) (songs directory)))
    (map (fun i => mkPlaylistInfo (pl_name i) (pl_mtime i) false) (playlists directory)).

Definition PurgeDeletedFromDirectory (directory : Directory) (st : WalkState) : Directory * WalkState :=
  let '(directory, st) :=
    DeleteIf (fun child => negb (IsMount child) && negb (mark child)) (fun song => negb (s_mark song))
      directory st in
  (with_playlists directory (List.filter pl_mark (playlists directory)), st).

Definition update_directory_stat (directory : Directory) : option Directory :=
  directory_set_stat directory <$> GetInfo (path directory).

(** The directories from the first argument up to the root. *)
Fixpoint FindAncestorLoop_from (chain : list Directory) (inode' device' : Z) : Z * list Directory :=
  match chain with
  | [] => (0, [])
  | parent :: up =>
      match (if (device parent =? 0) && (inode parent =? 0) then update_directory_stat parent
             else Some parent) with
      | None => (-1, parent :: up)
      | Some parent =>
          if (inode parent =? inode') && (device parent =? device') then (1, parent :: up)
          else let '(r, up) := FindAncestorLoop_from up inode' device' in (r, parent :: up)
      end
  end.

Definition FindAncestorLoop (chain : list Directory) (inode' device' : Z) : Z * list Directory :=
  if (device' =? 0) && (inode' =? 0) then (0, chain) else FindAncestorLoop_from chain inode' device'.

(** The directory and its parents after [FindAncestorLoop] was called on
    them. *)
Definition sync_stat (directory : Directory) (up : list Directory) : Directory * list Directory :=
  match up with
  | [] => (directory, [])
  | d :: chain => (with_stat directory (inode d) (device d), chain)
  end.

Definition UpdateRegularFile (chain : list Directory) (directory : Directory) (name : bytes)
  (info : StorageFileInfo) (st : WalkState) : bool * Directory * WalkState :=
  match GetFilenameSuffix name with
  | None => (false, directory, st)
  | Some suffix =>
      match UpdateSongFile directory name suffix info st with
      | (true, directory, st) => (true, directory, st)
      | (false, directory, st) =>
          match UpdateArchiveFile chain directory name suffix info st with
          | (true, directory, st) => (true, directory, st)
          | (false, directory, st) => UpdatePlaylistFile directory name suffix info st
          end
      end
  end.

(** [skip_path]: names with newlines. *)
Definition skip_path (name_utf8 : bytes) : bool := bool_decide (LF ∈ name_utf8).

(** The relative target [p], read in a directory with [ups] parents, leads
    out of the music directory. *)
Fixpoint leaves_music_directory (p : bytes) (ups : nat) {struct p} : bool :=
  match p with
  | c0 :: c1 :: p2 =>
      if bool_decide (c0 = "."%char) then
        if bool_decide (c1 = "."%char) && match p2 with c2 :: _ => IsSeparator c2 | [] => false end then
          match ups, p2 with
          | S ups, _ :: p3 => leaves_music_directory p3 ups
          | _, _ => true
          end
        else if IsSeparator c1 then leaves_music_directory p2 ups
        else false
      else false
  | _ => false
  end.

(** [directory] is the head of [chain]. *)
Definition SkipSymlink (chain : list Directory) (utf8_name : bytes) : bool :=
  match storage_MapFS (Build (match chain with d :: _ => path d | [] => [] end) utf8_name) with
  | None => false
  | Some path_fs =>
      match ReadLink path_fs with
      | NotALink => false
      | LinkError => true
      | LinkTarget target =>
          if negb follow_inside_symlinks && negb follow_outside_symlinks then true
          else if follow_inside_symlinks && follow_outside_symlinks then false
          else if IsAbsolute target then
            match PathToUTF8 target with
            | [] => true
            | target_utf8 =>
                match storage_MapToRelativeUTF8 target_utf8 with
                | Some _ => negb follow_inside_symlinks
                | None => negb follow_outside_symlinks
                end
            end
          else if leaves_music_directory target (length chain - 1) then negb follow_outside_symlinks
          else negb follow_inside_symlinks
      end
  end.

(** [LoadExcludeListOrLog] *)
Definition LoadExcludeList (directory : Directory) (exclude_list : ExcludeList) : ExcludeList :=
  match storage_OpenFile (Build (path directory) (lit ".mpdignore")) with
  | Throw _ => exclude_list
  | Ok input => ExcludeList_Load exclude_list (text_lines (is_data input))
  end.

(** A call of [UpdateDirectory]: the return value, the directory, its
    parents and the state. *)
Notation update_result := (option (bool * Directory * list Directory * WalkState)) (only parsing).

(** [update_directory] is [UpdateDirectory] of a subdirectory. *)
Section Child.
Context (update_directory : list Directory -> Directory -> ExcludeList -> StorageFileInfo -> WalkState ->
  option (bool * Directory * list Directory * WalkState)).

Definition UpdateDirectoryChild (chain : list Directory) (directory : Directory)
  (exclude_list : ExcludeList) (name : bytes) (info : StorageFileInfo) (st : WalkState)
  : option (Directory * list Directory * WalkState) :=
  if IsRegular info then
    let '(_, directory, st) := UpdateRegularFile chain directory name info st in
    Some (directory, chain, st)
  else if IsDirectory info then
    let '(found, up) := FindAncestorLoop (directory :: chain) (fi_inode info) (fi_device info) in
    let '(directory, chain) := sync_stat directory up in
    if negb (found =? 0) then Some (directory, chain, st)
    else
      let directory := MakeChild directory name in
      match FindChild_pos directory name ≫= fun i => children directory !! i ≫= fun c => Some (i, c) with
      | None => Some (directory, chain, st)
      | Some (i, subdir) =>
          match update_directory (directory :: chain) subdir exclude_list info st with
          | None => None
          | Some (r, subdir, up, st) =>
              let '(directory, chain) := sync_stat directory up in
              let directory := set_child directory i subdir in
              if r then Some (directory, chain, st)
              else let '(directory, st) := DeleteDirectory directory i st in Some (directory, chain, st)
          end
      end
  else Some (directory, chain, st).

(** The loop over the directory reader. *)
Fixpoint read_entries (child_exclude_list : ExcludeList) (entries : list (bytes * result StorageFileInfo))
  (chain : list Directory) (directory : Directory) (st : WalkState) {struct entries}
  : option (Directory * list Directory * WalkState) :=
  let cancelled := cancel (ticks st) in
  let st := tick st in
  if cancelled then Some (directory, chain, st)
  else
    match entries with
    | [] => Some (directory, chain, st)
    | (name_utf8, info2) :: entries =>
        let continue := read_entries child_exclude_list entries in
        if skip_path name_utf8 then continue chain directory st
        else if match PathFromUTF8 name_utf8 with
                | None => true
                | Some name_fs => ExcludeList_Check child_exclude_list name_fs
                end then continue chain directory st
        else if SkipSymlink (directory :: chain) name_utf8 then
          let '(m, directory, st) := DeleteNameIn directory name_utf8 st in
          continue chain directory (or_modified st m)
        else
          match ok_or_none info2 with
          | None =>
              let '(m, directory, st) := DeleteNameIn directory name_utf8 st in
              continue chain directory (or_modified st m)
          | Some info2 =>
              match UpdateDirectoryChild chain directory child_exclude_list name_utf8 info2 st with
              | None => None
              | Some (directory, chain, st) => continue chain directory st
              end
          end
    end.
End Child.

Fixpoint UpdateDirectory (fuel : nat) (chain : list Directory) (directory : Directory)
  (exclude_list : ExcludeList) (info : StorageFileInfo) (st : WalkState)
  : option (bool * Directory * list Directory * WalkState) :=
  match fuel with
  | O => None
  | S fuel =>
      let directory := directory_set_stat directory info in
      match storage_OpenDirectory (path directory) with
      | Throw _ => Some (false, directory, chain, st)
      | Ok reader =>
          let child_exclude_list := LoadExcludeList directory (ExcludeList_of exclude_list) in
          let '(directory, st) :=
            if negb (ExcludeList_IsEmpty child_exclude_list)
            then RemoveExcludedFromDirectory directory child_exclude_list st
            else (directory, st) in
          let directory := UnmarkAllIn directory in
          match read_entries (UpdateDirectory fuel) child_exclude_list reader chain directory st with
          | None => None
          | Some (directory, chain, st) =>
              let '(directory, st) := PurgeDeletedFromDirectory directory st in
              Some (true, with_mark (with_mtime directory (fi_mtime info)) true, chain, st)
          end
      end
  end.

(** [DirectoryMakeChildChecked]: the index of the child. *)
Definition DirectoryMakeChildChecked (chain : list Directory) (parent : Directory) (uri_utf8 name_utf8 : bytes)
  (st : WalkState) : option nat * Directory * list Directory * WalkState :=
  match FindChild_pos parent name_utf8 ≫= fun i => children parent !! i ≫= fun c => Some (i, c) with
  | Some (i, directory) =>
      if IsMount directory then (None, parent, chain, st) else (Some i, parent, chain, st)
  | None =>
      match GetInfo uri_utf8 with
      | None => (None, parent, chain, st)
      | Some info =>
          let '(found, up) := FindAncestorLoop (parent :: chain) (fi_inode info) (fi_device info) in
          let '(parent, chain) := sync_stat parent up in
          if negb (found =? 0) then (None, parent, chain, st)
          else if SkipSymlink (parent :: chain) name_utf8 then (None, parent, chain, st)
          else
            let '(parent, st) :=
              match FindSong_pos parent name_utf8 with
              | Some i => DeleteSong parent i st
              | None => (parent, st)
              end in
            let parent := CreateChild parent name_utf8 in
            let i := (length (children parent) - 1)%nat in
            (Some i, with_children parent (alter (fun d => directory_set_stat d info) i (children parent)),
             chain, st)
      end
  end.

(** [LoadExcludeLists]: one list for each directory up to the root and an
    empty one, each without a parent; the first is that of [directory]. *)
Fixpoint LoadExcludeLists (up : list Directory) : list ExcludeList :=
  match up with
  | [] => [ExcludeList_new]
  | directory :: up => LoadExcludeList directory ExcludeList_new :: LoadExcludeLists up
  end.

Section Uri.
Context (update_directory : list Directory -> Directory -> ExcludeList -> StorageFileInfo -> WalkState ->
  option (bool * Directory * list Directory * WalkState)).

(** The rest of [UpdateUri], once the parent directory is found. *)
Definition UpdateUri_in (uri : bytes) (chain : list Directory) (parent : Directory) (st : WalkState)
  : option (Directory * list Directory * WalkState) :=
  let name := GetBase uri in
  if SkipSymlink (parent :: chain) name then
    let '(m, parent, st) := DeleteNameIn parent name st in Some (parent, chain, or_modified st m)
  else
    match GetInfo uri with
    | None =>
        let '(m, parent, st) := DeleteNameIn parent name st in Some (parent, chain, or_modified st m)
    | Some info =>
        let exclude_lists := LoadExcludeLists (parent :: chain) in
        UpdateDirectoryChild update_directory chain parent (hd ExcludeList_new exclude_lists) name info st
    end.

(** [DirectoryMakeUriParentChecked] for the segments before the last one,
    and then the rest of [UpdateUri] on the directory it leads to. *)
Fixpoint UpdateUri_from (segs : list bytes) (uri : bytes) (chain : list Directory) (directory : Directory)
  (st : WalkState) {struct segs} : option (Directory * list Directory * WalkState) :=
  match segs with
  | name :: ((_ :: _) as rest) =>
      if name =b [] then UpdateUri_from rest uri chain directory st
      else
        match DirectoryMakeChildChecked chain directory name name st with
        | (None, directory, chain, st) => Some (directory, chain, st)
        | (Some i, directory, chain, st) =>
            match children directory !! i with
            | None => Some (directory, chain, st)
            | Some child =>
                match UpdateUri_from rest uri (directory :: chain) child st with
                | None => None
                | Some (child, up, st) =>
                    let '(directory, chain) := sync_stat directory up in
                    Some (set_child directory i child, chain, st)
                end
            end
        end
  | _ => UpdateUri_in uri chain directory st
  end.
End Uri.

Definition UpdateUri (fuel : nat) (root : Directory) (uri : bytes) (st : WalkState)
  : option (Directory * WalkState) :=
  match UpdateUri_from (UpdateDirectory fuel) (IterableSplitString uri SEPARATOR) uri [] root st with
  | None => None
  | Some (root, _, st) => Some (root, st)
  end.

(** ** PurgeDanglingFromPlaylists *)

(** The positions of the directories, in the order of the recursion: the
    children of a directory before itself. *)
Fixpoint postorder (d : Directory) : list (list nat) :=
  concat (imap (fun i l => map (cons i) l) (map postorder (children d))) ++ [[]].

(** The loop over the songs of the playlist at [pos]: [n] more, from the
    index [i].  It deletes songs here and marks songs elsewhere. *)
Fixpoint purge_playlist (n : nat) (pos : list nat) (i : nat) (root : Directory) (st : WalkState)
  : Directory * WalkState :=
  match n with
  | O => (root, st)
  | S n =>
      match dir_at root pos ≫= fun d => songs d !! i ≫= fun s => Some (d, s) with
      | None => (root, st)
      | Some (directory, song) =>
          if negb (target song =b []) && negb (IsAbsoluteOrHasScheme (target song)) then
            match LookupTargetSong (S (length (target song))) root pos (target song) with
            | None =>
                purge_playlist n pos i (alter_dir (fun d => fst (DeleteSong d i st)) pos root)
                  (set_modified (snd (DeleteSong directory i st)))
            | Some (pos', j) =>
                purge_playlist n pos (S i)
                  (alter_dir (fun d => with_songs d
                     (alter (fun s => Song_with_in_playlist s true) j (songs d))) pos' root) st
            end
          else purge_playlist n pos (S i) root st
      end
  end.

Definition purge_at (pos : list nat) (acc : Directory * WalkState) : Directory * WalkState :=
  let '(root, st) := acc in
  match dir_at root pos with
  | None => (root, st)
  | Some directory =>
      if negb (IsPlaylist directory) then (root, st)
      else purge_playlist (length (songs directory)) pos 0 root st
  end.

Definition PurgeDanglingFromPlaylists (root : Directory) (st : WalkState) : Directory * WalkState :=
  fold_left (fun acc pos => purge_at pos acc) (postorder root) (root, st).

(** ** UpdateWalk::Walk *)

(** The return value and the tree.  [None] as [path] is the null pointer. *)
Definition Walk (fuel : nat) (root : Directory) (path : option bytes) : option (bool * Directory * list bytes) :=
  let st := mkWalkState false [] 0 in
  let finish '(root, st) :=
    let '(root, st) := PurgeDanglingFromPlaylists (ClearInPlaylist root) st in
    Some (modified st, root, removed st) in
  match (match path with Some p => if isRootDirectory p then None else Some p | None => None end) with
  | Some p => match UpdateUri fuel root p st with None => None | Some r => finish r end
  | None =>
      match GetInfo [] with
      | None => Some (false, root, [])
      | Some info =>
          if negb (IsDirectory info) then Some (false, root, [])
          else
            match UpdateDirectory fuel [] root ExcludeList_new info st with
            | None => None
            | Some (_, root, _, st) => finish (root, st)
            end
      end
  end.
End Walk.

(** ** An example *)

Definition sample_walk (mode : ChannelMode) : UpdateWalk :=
  {| follow_inside_symlinks := true; follow_outside_symlinks := true;
     tag_mask := global_tag_mask; decoder_plugins := [sample_plugin];
     archive_plugins := []; playlist_plugins := [];
     channel_mode := mode; walk_discard := true; cancel := fun _ => false; now := fun _ => 1700000000 * NS |}.

(** A full scan in stereo mode: the surround file is left out. *)
Example sample_walk_stereo :
  option_map (fun '(m, d, r) => (m, map (fun e => (fst e, filename (snd e))) (all_songs d), r))
    (@Walk sample_system sample_storage (sample_walk STEREO) 4 NewRoot None) =
  Some (true, [([], lit "a.flac"); (lit "d", lit "b.flac")], []).
Proof. vm_compute. done. Qed.
