(* ===== verification/WalkWf.v ===== *)
(** The update keeps the tree well-formed: unique names in every directory
    and paths that are those of the parents extended by the name
    ([Directory.wf]). *)
From S2P Require Import Prelude Text Chrono Songs Playlists Directory.
From S2P Require Import TagScan Storage SongUpdate CueValidator Editor Walk.
Open Scope Z_scope.

(** What the code relies on: a directory reader returns base names, a
    container has no two tracks of the same name and a playlist fewer than
    2^32 songs. *)
Class WalkLaws `{System} `{Storage} `{UpdateWalk} : Prop := {
  reader_names : forall p entries, storage_OpenDirectory p = Ok entries ->
    Forall (fun e => name_ok (fst e)) entries;
  container_names : forall suffix pathname info,
    NoDup (filename <$> container_tracks
      (List.filter (fun p => SupportsContainerSuffix p suffix) decoder_plugins) pathname info);
  playlist_size : forall plugin input e, plugin ∈ playlist_plugins ->
    open_stream plugin input = Ok (Some e) -> Z.of_nat (length (e_songs e)) < 2 ^ 32 }.

(** What, besides [wf], is to hold everywhere in the tree: of the songs, the
    playlists, the paths, the names and the time stamps. *)
Class TreePred := {
  song_p : Song -> Prop;
  playlist_p : PlaylistInfo -> Prop;
  path_p : bytes -> Prop;
  name_p : bytes -> Prop;
  mtime_p : Z -> Prop;
  mounted_p : option nat -> Prop }.

Definition head_p `{TreePred} (d : Directory) : Prop := path_p (path d) /\ mounted_p (mounted_database d).

Inductive tree_all `{TreePred} : Directory -> Prop :=
| tree_all_intro d :
    head_p d -> mtime_p (mtime d) -> Forall song_p (songs d) -> Forall playlist_p (playlists d) ->
    Forall tree_all (children d) -> tree_all d.

(** The same of everything an update puts into the tree. *)
Class PredLaws `{System} `{Storage} `{UpdateWalk} `{TreePred} : Prop := {
  root_path_p : forall n, name_ok n -> name_p n -> path_p n;
  child_path_p : forall p n, path_p p -> name_ok n -> name_p n -> path_p (p ++ SEPARATOR :: n);
  new_mtime_p : mtime_p time_point_min;
  new_mounted_p : mounted_p None;
  marked_song_p : forall s b, song_p s -> song_p (Song_with_mark s b);
  in_playlist_song_p : forall s b, song_p s -> song_p (Song_with_in_playlist s b);
  loaded_song_p : forall name info d s n, name_p name -> mtime_p (fi_mtime info) ->
    LoadFile tag_mask decoder_plugins name info d = Some s ->
    song_p (Song_with_added (Song_with_mark (ProcessSongTags s) true) (now n));
  reloaded_song_p : forall d s s' info, song_p s -> mtime_p (fi_mtime info) ->
    UpdateFile tag_mask decoder_plugins d s info = Some s' ->
    song_p (Song_with_mark (ProcessSongTags s') true);
  container_song_p : forall suffix pathname info, mtime_p (fi_mtime info) ->
    Forall song_p (container_tracks
      (List.filter (fun p => SupportsContainerSuffix p suffix) decoder_plugins) pathname info);
  archive_name_p : forall plugin path_fs file e n, plugin ∈ archive_plugins ->
    archive_file_open plugin path_fs = Ok file -> e ∈ archive_entries file ->
    n ∈ IterableSplitString e SEPARATOR -> IsAcceptableFilename n = true -> name_p n;
  archive_song_p : forall archive name chain s, name_p name ->
    LoadFromArchive tag_mask decoder_plugins archive name chain = Some s -> song_p s;
  archive_updated_p : forall archive chain s s', song_p s ->
    UpdateFileInArchive tag_mask decoder_plugins archive chain s = Some s' -> song_p s';
  track_p : forall plugin input e s k, plugin ∈ playlist_plugins -> open_stream plugin input = Ok (Some e) ->
    s ∈ e_songs e -> 0 <= k < 2 ^ 32 -> song_p (playlist_track k s);
  new_playlist_p : forall name t m, name_p name -> mtime_p t -> playlist_p (mkPlaylistInfo name t m);
  marked_playlist_p : forall i m, playlist_p i -> playlist_p (mkPlaylistInfo (pl_name i) (pl_mtime i) m);
  reader_p : forall p entries, storage_OpenDirectory p = Ok entries ->
    Forall (fun e => skip_path (fst e) = false -> name_p (fst e) /\
      match snd e with Ok info => mtime_p (fi_mtime info) | Throw _ => True end) entries;
  info_p : forall p info, GetInfo p = Some info -> mtime_p (fi_mtime info) }.

(** Nothing. *)
Definition no_pred : TreePred :=
  {| song_p := fun _ => True; playlist_p := fun _ => True; path_p := fun _ => True; name_p := fun _ => True;
     mtime_p := fun _ => True; mounted_p := fun _ => True |}.

Lemma no_pred_laws `{System} `{Storage} `{UpdateWalk} : @PredLaws _ _ _ no_pred.
Proof.
  split; try done; intros; apply Forall_forall; try done. intros [name [info|e]] _ _; by split.
Qed.

Lemma no_pred_all d : @tree_all no_pred d.
Proof.
  induction d as [d IH] using Directory_ind'. constructor; try done; by apply Forall_true.
Qed.

Lemma no_good d : wf d -> wf d /\ @tree_all no_pred d.
Proof. intros Hw. split; [done|apply no_pred_all]. Qed.

(** ** Operations on one directory *)

Section Keeps.
Context {TP : TreePred}.

Lemma tree_all_inv d : tree_all d -> head_p d /\ mtime_p (mtime d) /\ Forall song_p (songs d) /\
  Forall playlist_p (playlists d) /\ Forall tree_all (children d).
Proof. by inversion 1. Qed.

Definition good (d : Directory) : Prop := wf d /\ tree_all d.

Lemma good_wf d : good d -> wf d.
Proof. by intros []. Qed.

(** [d'] is [d] after an operation that leaves it in place: if [d] was
    good, [d'] is, with the same path. *)
Definition keeps (d d' : Directory) : Prop :=
  good d -> good d' /\ path d' = path d /\ is_root d' = is_root d.

#[export] Instance keeps_preorder : PreOrder keeps.
Proof.
  split; [by intros d|]. intros d1 d2 d3 H1 H2 Hw. destruct (H1 Hw) as (Hw2 & Hp & Hr).
  destruct (H2 Hw2) as (Hw3 & Hp' & Hr'). split; [done|]. split; congruence.
Qed.

Lemma keeps_trans d1 d2 d3 : keeps d1 d2 -> keeps d2 d3 -> keeps d1 d3.
Proof. apply transitivity. Qed.

Lemma keeps_with_songs d l : (good d -> NoDup (filename <$> l) /\ Forall song_p l) -> keeps d (with_songs d l).
Proof.
  intros Hl Hg. destruct (Hl Hg) as [Hn Hp]. destruct Hg as [Hw (Hpa & Hm & _ & Hpl & Hc)%tree_all_inv].
  split; [|done]. split; [by apply wf_with_songs|by constructor].
Qed.

Lemma keeps_sub_songs d l : sublist l (songs d) -> keeps d (with_songs d l).
Proof.
  intros Hl. apply keeps_with_songs. intros [(_ & _ & Hs & _)%wf_inv (_ & _ & Hp & _)%tree_all_inv].
  split; [by eapply (sublist_NoDup_fmap filename)|by eapply sublist_Forall].
Qed.

Lemma good_children d : good d -> Forall good (children d).
Proof.
  intros [(_ & _ & _ & _ & _ & Hw)%wf_inv (_ & _ & _ & _ & Ha)%tree_all_inv]. apply Forall_and. by split.
Qed.

Lemma keeps_with_children d l : (good d -> wf (with_children d l) /\ Forall tree_all l) -> keeps d (with_children d l).
Proof.
  intros Hl Hg. destruct (Hl Hg) as [Hw Ha]. destruct Hg as [_ (Hpa & Hm & Hs & Hpl & _)%tree_all_inv].
  split; [|done]. split; [done|by constructor].
Qed.

Lemma keeps_sub_children d l : sublist l (children d) -> keeps d (with_children d l).
Proof.
  intros Hl. apply keeps_with_children. intros [Hw (_ & _ & _ & _ & Ha)%tree_all_inv].
  split; [by apply wf_sub_children|by eapply sublist_Forall].
Qed.

Lemma keeps_with_playlists d l : (good d -> NoDup (pl_names l) /\ Forall playlist_p l) -> keeps d (with_playlists d l).
Proof.
  intros Hl Hg. destruct (Hl Hg) as [Hn Hp]. destruct Hg as [Hw (Hpa & Hm & Hs & _ & Hc)%tree_all_inv].
  split; [|done]. split; [by apply wf_with_playlists|by constructor].
Qed.

Lemma keeps_sub_playlists d l : sublist l (playlists d) -> keeps d (with_playlists d l).
Proof.
  intros Hl. apply keeps_with_playlists. intros [(_ & _ & _ & Hs & _)%wf_inv (_ & _ & _ & Hp & _)%tree_all_inv].
  split; [by eapply (sublist_NoDup_fmap pl_name)|by eapply sublist_Forall].
Qed.

(** Only [mtime], [inode], [device] and [mark] are assigned. *)
Lemma keeps_scalar d d' : children d' = children d -> songs d' = songs d -> playlists d' = playlists d ->
  is_root d' = is_root d -> path d' = path d -> mounted_database d' = mounted_database d ->
  (mtime_p (mtime d) -> mtime_p (mtime d')) -> keeps d d'.
Proof.
  intros Hc Hs Hpl Hr Hp Hmd Hm [Hw (Hpa & Hmt & Hso & Hpls & Hch)%tree_all_inv]. split; [|done]. split.
  - apply (wf_same_shape d); [|done]. unfold same_shape, song_names. by rewrite Hc, Hs, Hpl, Hr, Hp.
  - constructor; rewrite ?Hc, ?Hs, ?Hpl; auto. unfold head_p. by rewrite Hp, Hmd.
Qed.

Lemma keeps_with_stat d i v : keeps d (with_stat d i v).
Proof. by apply keeps_scalar. Qed.
Lemma keeps_with_mark d m : keeps d (with_mark d m).
Proof. by apply keeps_scalar. Qed.
Lemma keeps_with_mtime d t : mtime_p t -> keeps d (with_mtime d t).
Proof. intros Ht. by apply keeps_scalar. Qed.
Lemma keeps_with_device d v : keeps d (with_device d v).
Proof. by apply keeps_scalar. Qed.

Lemma sublist_delete {A} i (l : list A) : sublist (delete i l) l.
Proof.
  revert i. induction l as [|x l IH]; intros [|i]; simpl; try done; [by constructor|by constructor; apply IH].
Qed.

(** Replacing a child by one that is still in its place. *)
Lemma keeps_set_child d i c c' : children d !! i = Some c -> keeps c c' -> keeps d (set_child d i c').
Proof.
  intros Hi Hk. apply keeps_with_children. intros Hg. pose proof Hg as [Hwd (_ & _ & _ & _ & Ha)%tree_all_inv].
  pose proof Hwd as (_ & Hn & _ & _ & Hc & Hwc)%wf_inv.
  destruct (Hk (Forall_lookup_1 _ _ _ _ (good_children d Hg) Hi)) as ([Hw Hac] & Hp & Hr).
  split; [|by apply Forall_insert]. apply wf_with_children; [done| | |].
  - rewrite list_fmap_insert. rewrite list_insert_id; [done|].
    rewrite list_lookup_fmap, Hi. simpl. f_equal. unfold GetName. by rewrite Hp.
  - apply Forall_insert; [done|]. apply (child_ok_same d c); [done..|].
    by apply (Forall_lookup_1 _ _ _ _ Hc Hi).
  - by apply Forall_insert.
Qed.

Lemma keeps_alter_child d i f : (forall c, keeps c (f c)) ->
  keeps d (with_children d (alter f i (children d))).
Proof.
  intros Hf. destruct (children d !! i) as [c|] eqn:E.
  - rewrite (alter_insert_eq _ _ _ _ E). by eapply keeps_set_child.
  - rewrite alter_none by done. by rewrite with_children_id.
Qed.

Lemma keeps_set_song d i s s' : songs d !! i = Some s -> filename s' = filename s ->
  (song_p s -> song_p s') -> keeps d (set_song d i s').
Proof.
  intros Hi Hf Hs'. apply keeps_with_songs. intros [(_ & _ & Hs & _)%wf_inv (_ & _ & Hp & _)%tree_all_inv]. split.
  - rewrite list_fmap_insert. rewrite list_insert_id; [done|]. rewrite list_lookup_fmap, Hi. simpl. by rewrite Hf.
  - apply Forall_insert; [done|]. apply Hs'. by apply (Forall_lookup_1 _ _ _ _ Hp Hi).
Qed.

Lemma keeps_AddSong d s : filename s ∉ song_names d -> song_p s -> keeps d (AddSong d s).
Proof.
  intros Hf Hs. apply keeps_with_songs. intros [Hw (_ & _ & Hp & _)%tree_all_inv]. split.
  - pose proof (wf_AddSong d s Hw Hf) as (_ & _ & Hn & _)%wf_inv. exact Hn.
  - apply Forall_app. split; [done|by apply Forall_singleton].
Qed.

Lemma find_song_None d n : find_song d n = None -> n ∉ song_names d.
Proof.
  unfold find_song, FindSong_pos. intros H. apply FindSong_None. unfold FindSong. rewrite find_index_find.
  destruct (find_index _ _) as [i|]; [|done]. simpl in *. by destruct (songs d !! i).
Qed.

Lemma find_song_Some d n i s : find_song d n = Some (i, s) -> songs d !! i = Some s /\ filename s = n.
Proof.
  unfold find_song, FindSong_pos. destruct (find_index _ _) as [j|] eqn:E; [|done]. simpl.
  destruct (songs d !! j) as [s'|] eqn:Ej; [|done]. simpl. intros [= -> ->]. split; [done|].
  apply find_index_Some in E as (x & Hx & Hf). rewrite Ej in Hx. injection Hx as <-.
  unfold song_named in Hf. by apply bytes_eqb_eq.
Qed.

(** ** Editor *)

Lemma DeleteSong_keeps d i st : keeps d (fst (DeleteSong d i st)).
Proof.
  unfold DeleteSong. destruct (songs d !! i); [|done]. apply keeps_sub_songs, sublist_delete.
Qed.

Lemma DeleteDirectory_keeps d i st : keeps d (fst (DeleteDirectory d i st)).
Proof.
  unfold DeleteDirectory. destruct (children d !! i); [|done]. apply keeps_sub_children, sublist_delete.
Qed.

Lemma pv_erase_sublist n pv : sublist (fst (pv_erase n pv)) pv.
Proof.
  induction pv as [|i pv IH]; [constructor|]. simpl. destruct (CompareName n i); [by constructor|].
  destruct (pv_erase n pv). by constructor.
Qed.

Lemma DeleteNameIn_keeps d n st : keeps d (snd (fst (DeleteNameIn d n st))).
Proof.
  unfold DeleteNameIn.
  assert (keeps d (snd (fst (match FindChild_pos d n with
    | Some i => let '(parent, st) := DeleteDirectory d i st in (true, parent, st)
    | None => (false, d, st) end)))) as H1.
  { destruct (FindChild_pos d n) as [i|]; [|done]. pose proof (DeleteDirectory_keeps d i st) as H.
    by destruct (DeleteDirectory d i st). }
  destruct (match FindChild_pos d n with Some _ => _ | None => _ end) as [[m1 d1] st1]. simpl in H1.
  assert (keeps d1 (snd (fst (match FindSong_pos d1 n with
    | Some i => let '(parent, st) := DeleteSong d1 i st1 in (true, parent, st)
    | None => (false, d1, st1) end)))) as H2.
  { destruct (FindSong_pos d1 n) as [i|]; [|done]. pose proof (DeleteSong_keeps d1 i st1) as H.
    by destruct (DeleteSong d1 i st1). }
  destruct (match FindSong_pos d1 n with Some _ => _ | None => _ end) as [[m2 d2] st2]. simpl in *.
  etrans; [exact H1|]. etrans; [exact H2|]. apply keeps_sub_playlists, pv_erase_sublist.
Qed.

Lemma DeleteIf_keeps pc ps d st : keeps d (fst (DeleteIf pc ps d st)).
Proof.
  rewrite DeleteIf_eq. etrans; [apply keeps_sub_children, filter_sublist|].
  apply keeps_sub_songs. apply filter_sublist.
Qed.
End Keeps.

(** ** Virtual directories *)

Section Ops.
Context `{System} `{Storage} `{UpdateWalk}.

(** The new directory of [make_virtual]. *)
Definition virtual_dir (d : Directory) (name : bytes) (info : StorageFileInfo) (dev : Z) : Directory :=
  with_mark (with_device (with_mtime (new_child d name) (fi_mtime info)) dev) true.

Lemma FindChild_pos_Some d n i : FindChild_pos d n = Some i ->
  exists c, children d !! i = Some c /\ GetName d c = n.
Proof.
  unfold FindChild_pos. intros (c & Hc & Hf)%find_index_Some. exists c. split; [done|].
  unfold has_name in Hf. by apply bytes_eqb_eq.
Qed.

Lemma FindChild_pos_None d n : FindChild_pos d n = None <-> n ∉ child_names d.
Proof.
  rewrite <- FindChild_None. unfold FindChild, FindChild_pos. rewrite find_index_find.
  destruct (find_index (has_name d n) (children d)) as [i|] eqn:E; [|done].
  apply find_index_Some in E as (c & Hc & _). simpl. by rewrite Hc.
Qed.

Lemma find_index_snoc {A} (f : A -> bool) l x :
  (forall y, y ∈ l -> f y = false) -> f x = true -> find_index f (l ++ [x]) = Some (length l).
Proof.
  induction l as [|y l IH]; intros Hl Hx; simpl; [by rewrite Hx|].
  rewrite Hl by (by left). rewrite IH; [done|intros z Hz; apply Hl; by right|done].
Qed.

(** A name that is not there is found where it is appended. *)
Lemma FindChild_pos_Create d n : path_ok d -> name_ok n -> n ∉ child_names d ->
  MakeChild d n = CreateChild d n /\
  FindChild_pos (CreateChild d n) n = Some (length (children d)).
Proof.
  intros Hp Hn Hni. split.
  - unfold MakeChild. by rewrite (proj2 (FindChild_None d n) Hni).
  - unfold FindChild_pos. simpl children. apply find_index_snoc.
    + intros y Hy. apply bytes_eqb_neq. intros Heq. apply Hni. rewrite <- Heq. by apply list_elem_of_fmap_2.
    + apply bytes_eqb_eq. change (GetName d (new_child d n) = n). by apply GetName_new_child.
Qed.

Lemma make_virtual_eq d name info dev : path_ok d -> name_ok name -> name ∉ child_names d ->
  make_virtual d name info dev =
    (Some (length (children d)), with_children d (children d ++ [virtual_dir d name info dev])).
Proof.
  intros Hp Hn Hni. unfold make_virtual. destruct (FindChild_pos_Create d name Hp Hn Hni) as [-> ->].
  simpl children. rewrite (alter_insert_eq _ _ _ (new_child d name)).
  - rewrite insert_app_r_alt by done. by rewrite Nat.sub_diag.
  - rewrite lookup_app_r by done. by rewrite Nat.sub_diag.
Qed.

(** After the child [i] is deleted its name is free. *)
Lemma deleted_name_free d i c : wf d -> children d !! i = Some c ->
  GetName d c ∉ GetName d <$> delete i (children d).
Proof.
  intros (_ & Hnd & _)%wf_inv Hc Hin. unfold child_names in Hnd.
  rewrite <- (take_drop_middle (children d) i c Hc) in Hnd. rewrite fmap_app, fmap_cons in Hnd.
  rewrite delete_take_drop, fmap_app in Hin. rewrite NoDup_app, NoDup_cons in Hnd.
  apply elem_of_app in Hin as [Hin|Hin]; [|by apply Hnd].
  destruct Hnd as (_ & Hd & _). apply (Hd _ Hin). by left.
Qed.

(** The outcomes of [MakeVirtualDirectoryIfModified]. *)
Definition virtual_outcome (d : Directory) (name : bytes) (info : StorageFileInfo) (dev : Z) (st : WalkState)
  (r : option nat * Directory * WalkState) : Prop :=
  (exists i c, children d !! i = Some c /\ GetName d c = name /\
    ((IsMount c = true /\ r = (None, d, st)) \/
     (IsMount c = false /\ mtime c = fi_mtime info /\ device c = dev /\ walk_discard = false /\
      r = (None, set_child d i (with_mark c true), st)))) \/
  (exists l st', sublist l (children d) /\ name ∉ GetName d <$> l /\
    ((l = children d /\ st' = st) \/
     exists i c, children d !! i = Some c /\ GetName d c = name /\ IsMount c = false /\
       l = delete i (children d) /\ st' = set_modified (ClearDirectory c st)) /\
    r = (Some (length l), with_children d (l ++ [virtual_dir d name info dev]), st')).

Lemma MakeVirtual_outcome d name info dev st : wf d -> name_ok name ->
  virtual_outcome d name info dev st (MakeVirtualDirectoryIfModified d name info dev st).
Proof.
  intros Hw Hn. pose proof Hw as (Hp & _)%wf_inv. unfold MakeVirtualDirectoryIfModified.
  destruct (FindChild_pos d name) as [i|] eqn:E.
  - apply FindChild_pos_Some in E as (c & Hc & Hname). rewrite Hc. destruct (IsMount c) eqn:Em.
    { left. exists i, c. split; [done|]. split; [done|]. by left. }
    destruct ((mtime c =? fi_mtime info) && (device c =? dev) && negb walk_discard) eqn:Eu.
    { reflect_bools. left. exists i, c. split; [done|]. split; [done|]. by right. }
    unfold DeleteDirectory. rewrite Hc.
    pose proof (deleted_name_free d i c Hw Hc) as Hfree. rewrite Hname in Hfree.
    right. exists (delete i (children d)), (set_modified (ClearDirectory c st)).
    split; [apply sublist_delete|]. split; [done|]. split; [right; by exists i, c|].
    by rewrite make_virtual_eq.
  - apply FindChild_pos_None in E. right. exists (children d), st. split; [done|]. split; [done|].
    split; [by left|]. rewrite make_virtual_eq by done. by destruct d.
Qed.

(** Operations on the new child. *)
Lemma snoc_lookup d l v : children (with_children d (l ++ [v])) !! length l = Some v.
Proof. simpl. rewrite lookup_app_r by done. by rewrite Nat.sub_diag. Qed.

Lemma snoc_set_child d l v c : set_child (with_children d (l ++ [v])) (length l) c = with_children d (l ++ [c]).
Proof.
  unfold set_child. simpl children. rewrite insert_app_r_alt by done. by rewrite Nat.sub_diag.
Qed.

Lemma snoc_delete d l v st : DeleteDirectory (with_children d (l ++ [v])) (length l) st =
  (with_children d l, ClearDirectory v st).
Proof.
  unfold DeleteDirectory. rewrite snoc_lookup. simpl children.
  rewrite delete_take_drop, take_app_length, drop_ge by (rewrite length_app; simpl; lia).
  by rewrite app_nil_r.
Qed.

Context {TP : TreePred} `{!PredLaws}.

(** An entry of a directory that may be put into the tree. *)
Definition entry_p (name : bytes) (info : StorageFileInfo) : Prop :=
  name_ok name /\ name_p name /\ mtime_p (fi_mtime info).

Lemma new_child_all d name : path_ok d -> name_ok name -> name_p name -> head_p d -> tree_all (new_child d name).
Proof.
  intros Hp Hn Hnp [Hd _]. constructor; try apply Forall_nil_2.
  - split; [|apply new_mounted_p]. rewrite new_child_path by done.
    destruct (is_root d); [by apply root_path_p|by apply child_path_p].
  - apply new_mtime_p.
Qed.

(** A new child in the place of its name. *)
Lemma keeps_append d name l c : name_ok name -> sublist l (children d) -> name ∉ GetName d <$> l ->
  (good d -> good c /\ path c = path (new_child d name) /\ is_root c = false) ->
  keeps d (with_children d (l ++ [c])).
Proof.
  intros Hn Hl Hni Hc. apply keeps_with_children. intros Hg.
  destruct (Hc Hg) as ([Hwc Hac] & Hpc & Hrc). destruct Hg as [Hw (_ & _ & _ & _ & Ha)%tree_all_inv].
  pose proof Hw as (Hp & Hnd & _ & _ & Hco & Hwch)%wf_inv. destruct (new_child_wf d name Hp Hn) as [_ Hnc].
  assert (child_ok d c) as Hok by by apply (child_ok_same d (new_child d name)).
  assert (GetName d c = name) as Hname by by apply GetName_path.
  split; [|apply Forall_app; split; [by eapply sublist_Forall|by apply Forall_singleton]].
  apply wf_with_children; [done| | |].
  - rewrite fmap_app. apply NoDup_app. split; [by eapply sublist_NoDup_fmap|].
    split; [|apply NoDup_singleton]. intros x Hx ->%list_elem_of_singleton. by rewrite Hname in Hx.
  - apply Forall_app. split; [by eapply sublist_Forall|]. by apply Forall_singleton.
  - apply Forall_app. split; [by eapply sublist_Forall|]. by apply Forall_singleton.
Qed.

Lemma new_child_good d name : name_ok name -> name_p name -> good d -> good (new_child d name).
Proof.
  intros Hn Hnp [(Hp & _)%wf_inv (Hpa & _)%tree_all_inv]. split; [by apply new_child_wf|by apply new_child_all].
Qed.

Lemma keeps_CreateChild d n : name_ok n -> name_p n -> n ∉ child_names d -> keeps d (CreateChild d n).
Proof. intros Hn Hnp Hni. apply (keeps_append d n); [done..|]. intros Hg. split; [by apply new_child_good|done]. Qed.

Lemma keeps_MakeChild d n : name_ok n -> name_p n -> keeps d (MakeChild d n).
Proof.
  intros Hn Hnp. unfold MakeChild. destruct (FindChild d n) eqn:E; [done|].
  apply keeps_CreateChild; [done..|]. by apply FindChild_None.
Qed.

Lemma virtual_good d name info dev : entry_p name info -> good d -> good (virtual_dir d name info dev).
Proof.
  intros (Hn & Hnp & Ht) Hg. pose proof (new_child_good d name Hn Hnp Hg) as Hc. unfold virtual_dir.
  destruct (keeps_with_mtime _ (fi_mtime info) Ht Hc) as (Hg1 & _ & _).
  destruct (keeps_with_device _ dev Hg1) as (Hg2 & _ & _). by destruct (keeps_with_mark _ true Hg2) as (Hg3 & _ & _).
Qed.

Lemma keeps_snoc d name info dev l c : entry_p name info ->
  sublist l (children d) -> name ∉ GetName d <$> l ->
  (good (virtual_dir d name info dev) -> good c /\ path c = path (virtual_dir d name info dev) /\ is_root c = false) ->
  keeps d (with_children d (l ++ [c])).
Proof.
  intros He Hl Hni Hc. apply (keeps_append d name); [apply He|done..|]. intros Hg.
  by apply Hc, virtual_good.
Qed.

(** A list of songs with distinct names goes into an empty directory. *)
Lemma fold_AddSong tracks d : fold_left AddSong tracks d = with_songs d (songs d ++ tracks).
Proof.
  revert d. induction tracks as [|t tracks IH]; intros d; simpl; [rewrite app_nil_r; by destruct d|].
  rewrite IH. simpl. by rewrite <- app_assoc.
Qed.

Lemma good_fill v tracks : good v -> songs v = [] -> NoDup (filename <$> tracks) -> Forall song_p tracks ->
  good (with_songs v (songs v ++ tracks)).
Proof. intros Hg -> Hnd Hs. by apply (keeps_with_songs v). Qed.

Context `{!WalkLaws}.

Lemma UpdateContainerFile_keeps d name suffix info st : entry_p name info ->
  keeps d (snd (fst (UpdateContainerFile d name suffix info st))).
Proof.
  intros He Hg. pose proof He as (Hn & Hnp & Ht). pose proof Hg as [Hw _]. unfold UpdateContainerFile.
  pose proof (container_names suffix) as Hnd. pose proof (container_song_p suffix) as Hsp. destruct (List.filter _ decoder_plugins) as [|p ps]; [done|].
  destruct (MakeVirtual_outcome d name info DEVICE_CONTAINER st Hw Hn)
    as [(i & c & Hc & Hname & [[Hm ->]|(Hm & _ & _ & _ & ->)])|(l & st1 & Hl & Hni & _ & ->)].
  - done.
  - simpl. eapply keeps_set_child; [done|apply keeps_with_mark|done].
  - rewrite snoc_lookup. destruct (storage_MapFS _) as [pathname|].
    + specialize (Hnd pathname info). specialize (Hsp pathname info Ht). destruct (container_tracks (p :: ps) pathname info) as [|t ts].
      * rewrite snoc_delete. simpl. by apply keeps_sub_children.
      * cbn [fst snd]. rewrite snoc_set_child, fold_AddSong. eapply keeps_snoc; [done..| |done].
        intros Hv. split; [by apply good_fill|done].
    + rewrite snoc_delete. simpl. by apply keeps_sub_children.
Qed.

Lemma UpdateContainerFile_songs d name suffix info st : wf d -> name_ok name ->
  songs (snd (fst (UpdateContainerFile d name suffix info st))) = songs d.
Proof.
  intros Hw Hn. unfold UpdateContainerFile. destruct (List.filter _ decoder_plugins) as [|p ps]; [done|].
  destruct (MakeVirtual_outcome d name info DEVICE_CONTAINER st Hw Hn)
    as [(i & c & Hc & Hname & [[Hm ->]|(Hm & _ & _ & _ & ->)])|(l & st1 & Hl & Hni & _ & ->)]; [done|done|].
  rewrite snoc_lookup. destruct (storage_MapFS _) as [pathname|]; [|by rewrite snoc_delete].
  destruct (container_tracks (p :: ps) pathname info); [by rewrite snoc_delete|].
  cbn [fst snd]. by rewrite snoc_set_child.
Qed.

(** ** Songs *)

Lemma AddSongFile_keeps d name info st : entry_p name info -> name ∉ song_names d ->
  keeps d (fst (AddSongFile d name info st)).
Proof.
  intros (_ & Hnp & Ht) Hni. unfold AddSongFile. destruct (LoadFile _ _ _ _ _) as [s|] eqn:El; [|done].
  pose proof El as E. unfold LoadFile in E.
  apply UpdateFile_fields in E as (Hf & _). destruct (negb _); [done|]. apply keeps_AddSong.
  - change (filename s ∉ song_names d). by rewrite Hf.
  - by eapply loaded_song_p.
Qed.

Lemma set_song_delete d i s st : fst (DeleteSong (set_song d i s) i st) = fst (DeleteSong d i st).
Proof.
  unfold DeleteSong, set_song. simpl songs. destruct (songs d !! i) as [s0|] eqn:E.
  - rewrite list_lookup_insert_eq by (by eapply lookup_lt_Some). simpl.
    unfold with_songs; simpl. f_equal. rewrite !delete_take_drop.
    by rewrite take_insert_ge, drop_insert_lt by lia.
  - rewrite (list_insert_ge _ i) by (by apply lookup_ge_None). rewrite E. by destruct d.
Qed.

Lemma ReloadSongFile_keeps d i s info st : mtime_p (fi_mtime info) -> songs d !! i = Some s ->
  keeps d (fst (ReloadSongFile d i s info st)).
Proof.
  intros Ht Hi. unfold ReloadSongFile. destruct (UpdateFile _ _ _ _ _) as [s'|] eqn:E; [|done].
  pose proof E as Hu. apply UpdateFile_fields in E as (Hf & _). destruct (negb _).
  - pose proof (set_song_delete d i s' st) as Hd. pose proof (DeleteSong_keeps d i st) as Hk.
    destruct (DeleteSong (set_song d i s') i st) as [d1 st1]. simpl in *. by rewrite Hd.
  - apply (keeps_set_song d i s); [done|done|]. intros Hs. by eapply reloaded_song_p.
Qed.

Lemma UpdateSongFile2_keeps d name suffix info st : entry_p name info ->
  keeps d (fst (UpdateSongFile2 d name suffix info st)).
Proof.
  intros He Hg. pose proof He as (Hn & Hnp & Ht). pose proof Hg as [Hw _]. unfold UpdateSongFile2. destruct (negb (directory_child_access d name)); [done|].
  set (u := match find_song d name with Some (_, s) => _ | None => false end).
  assert (keeps d (snd (fst (if negb u then UpdateContainerFile d name suffix info st else (false, d, st)))) /\
    songs (snd (fst (if negb u then UpdateContainerFile d name suffix info st else (false, d, st)))) = songs d)
    as [Hk Hs].
  { destruct u; [done|]. split; [by apply UpdateContainerFile_keeps|by apply UpdateContainerFile_songs]. }
  destruct (if negb u then _ else _) as [[is_container d1] st1]. simpl in Hk, Hs.
  apply (keeps_trans d d1 _); [done| |done].
  destruct is_container; [done|]. destruct (find_song d name) as [[i s]|] eqn:E.
  - apply find_song_Some in E as [Hi Hf]. rewrite <- Hs in Hi.
    destruct (negb (fi_mtime info =? s_mtime s) || walk_discard); [by apply ReloadSongFile_keeps|].
    apply (keeps_set_song d1 i s); [done|done|]. apply marked_song_p.
  - apply AddSongFile_keeps; [done|]. unfold song_names. rewrite Hs. by apply find_song_None.
Qed.

Lemma UpdateSongFile_keeps d name suffix info st : entry_p name info ->
  keeps d (snd (fst (UpdateSongFile d name suffix info st))).
Proof.
  intros Hn. unfold UpdateSongFile. destruct (negb _); [done|].
  pose proof (UpdateSongFile2_keeps d name suffix info st Hn) as Hk.
  by destruct (UpdateSongFile2 d name suffix info st).
Qed.

(** ** Archives *)

Lemma find_child_Some d n i c :
  (FindChild_pos d n ≫= fun i => children d !! i ≫= fun c => Some (i, c)) = Some (i, c) ->
  children d !! i = Some c /\ GetName d c = n.
Proof.
  destruct (FindChild_pos d n) as [j|] eqn:E; [|done]. simpl.
  apply FindChild_pos_Some in E as (c0 & Hc & Hn). rewrite Hc. by intros [= <- <-].
Qed.

Lemma acceptable_ok n : IsAcceptableFilename n = true -> (SEPARATOR ∉ n) -> name_ok n.
Proof. unfold IsAcceptableFilename. intros Ha Hs. reflect_bools. done. Qed.

Lemma UpdateArchiveTree_keeps archive segs :
  Forall (fun seg => (SEPARATOR ∉ seg) /\ (IsAcceptableFilename seg = true -> name_p seg)) segs ->
  forall chain d st, keeps d (fst (UpdateArchiveTree archive chain d segs st)).
Proof.
  induction 1 as [|name rest [Hsep Hnp] Hrest IH]; intros chain d st; [done|].
  cbn [UpdateArchiveTree]. destruct rest as [|r rest].
  - destruct (negb (IsAcceptableFilename name)) eqn:Ea; [done|]. reflect_bools. specialize (Hnp Ea).
    destruct (find_song d name) as [[i s]|] eqn:E.
    + apply find_song_Some in E as [Hi Hf].
      destruct (UpdateFileInArchive _ _ _ _ _) as [s'|] eqn:Eu; [|apply DeleteSong_keeps].
      pose proof Eu as Eu'. apply UpdateFileInArchive_fields in Eu as (Hf' & _). apply (keeps_set_song d i s); [done|done|].
      intros Hs. by eapply archive_updated_p.
    + apply find_song_None in E.
      destruct (LoadFromArchive _ _ _ _ _) as [s'|] eqn:El; [|done]. pose proof El as Eu. unfold LoadFromArchive in Eu.
      apply UpdateFileInArchive_fields in Eu as (Hf' & _). apply keeps_AddSong; [by rewrite Hf'|].
      by eapply archive_song_p.
  - destruct (negb (IsAcceptableFilename name)) eqn:Ea; [done|]. reflect_bools.
    pose proof (acceptable_ok _ Ea Hsep) as Hn. specialize (Hnp Ea).
    apply (keeps_trans d (MakeChild d name)); [by apply keeps_MakeChild|].
    destruct (FindChild_pos (MakeChild d name) name ≫= _) as [[i c]|] eqn:E; [|done].
    apply find_child_Some in E as [Hi _].
    specialize (IH (MakeChild d name :: chain) (with_device c DEVICE_INARCHIVE) st).
    destruct (UpdateArchiveTree archive _ _ (r :: rest) st) as [c' st']. simpl in *.
    eapply keeps_set_child; [done|]. by apply (keeps_trans c (with_device c DEVICE_INARCHIVE)); [apply keeps_with_device|].
Qed.

Lemma VisitArchive_keeps archive chain entries :
  Forall (fun e => forall n, n ∈ IterableSplitString e SEPARATOR -> IsAcceptableFilename n = true -> name_p n) entries ->
  forall d st, keeps d (fst (VisitArchive archive chain d entries st)).
Proof.
  induction 1 as [|e entries He _ IH]; intros d st; [done|]. cbn [VisitArchive].
  assert (keeps d (fst (UpdateArchiveTree archive chain d (IterableSplitString e SEPARATOR) st))) as Hk.
  { apply UpdateArchiveTree_keeps. apply Forall_forall. intros n Hin. split; [|by apply He].
    pose proof (IterableSplitString_segments e SEPARATOR) as Hs. by rewrite Forall_forall in Hs; apply Hs. }
  destruct (UpdateArchiveTree archive chain d _ st) as [d1 st1]. by apply (keeps_trans d d1).
Qed.

Lemma UpdateArchiveFile_plugin_keeps chain d name info plugin st : entry_p name info -> plugin ∈ archive_plugins ->
  keeps d (fst (UpdateArchiveFile_plugin chain d name info plugin st)).
Proof.
  intros He Hplugin Hg. pose proof He as (Hn & Hnp & Ht). pose proof Hg as [Hw _].
  unfold UpdateArchiveFile_plugin. destruct (MapChildFS _ _) as [path_fs|]; [|done].
  destruct (MakeVirtual_outcome d name info DEVICE_INARCHIVE st Hw Hn)
    as [(i & c & Hc & Hname & [[Hm ->]|(Hm & _ & _ & _ & ->)])|(l & st1 & Hl & Hni & _ & ->)].
  - done.
  - simpl. eapply keeps_set_child; [done|apply keeps_with_mark|done].
  - rewrite snoc_lookup. destruct (archive_file_open plugin path_fs) as [file|] eqn:Ef.
    + assert (keeps (virtual_dir d name info DEVICE_INARCHIVE) (fst (VisitArchive file
        (with_children d (l ++ [virtual_dir d name info DEVICE_INARCHIVE]) :: chain)
        (virtual_dir d name info DEVICE_INARCHIVE) (archive_entries file) st1))) as Hk.
      { apply VisitArchive_keeps. apply Forall_forall. intros e Hin n. by eapply archive_name_p. }
      destruct (VisitArchive _ _ _ _ _) as [v st2]. simpl in Hk. cbn [fst]. rewrite snoc_set_child.
      eapply keeps_snoc; [done..| |done]. intros Hv. destruct (Hk Hv) as (Hwv & Hp & Hr).
      destruct (keeps_with_mark v true Hwv) as (? & ? & ?). split; [done|]. by split.
    + cbn [fst]. eapply keeps_snoc; [done..| |done]. by intros Hv.
Qed.

Lemma UpdateArchiveFile_keeps chain d name suffix info st : entry_p name info ->
  keeps d (snd (fst (UpdateArchiveFile chain d name suffix info st))).
Proof.
  intros Hn. unfold UpdateArchiveFile. destruct (archive_plugin_from_suffix suffix) as [plugin|] eqn:E; [|done].
  unfold archive_plugin_from_suffix in E. apply List.find_some in E as [Hin _]. rewrite <- list_elem_of_In in Hin.
  pose proof (UpdateArchiveFile_plugin_keeps chain d name info plugin st Hn Hin) as Hk.
  by destruct (UpdateArchiveFile_plugin chain d name info plugin st).
Qed.

(** ** Playlists *)

Definition track_name (k : Z) : bytes := lit "track" ++ print_pad 4 k.

(** The tracks are appended, numbered from the given one. *)
Lemma add_tracks_spec contents : forall d track, 0 <= track -> track + Z.of_nat (length contents) < 2 ^ 32 ->
  exists tracks, add_tracks d track contents = with_songs d (songs d ++ tracks) /\
    filename <$> tracks = map (fun i => track_name (track + 1 + Z.of_nat i)) (seq 0 (length contents)) /\
    Forall (fun t => exists k s, s ∈ contents /\ 0 <= k < 2 ^ 32 /\ t = playlist_track k s) tracks.
Proof.
  induction contents as [|s contents IH]; intros d track Ht Hb.
  - exists []. rewrite app_nil_r. split; [by destruct d|]. split; [done|apply Forall_nil_2].
  - cbn [add_tracks]. cbn [length] in Hb. rewrite u32_id by lia.
    destruct (IH (AddSong d (playlist_track (track + 1) s)) (track + 1)) as (tracks & -> & Hnames & Hall); [lia|lia|].
    exists (playlist_track (track + 1) s :: tracks). split; [simpl; by rewrite <- app_assoc|]. split.
    + rewrite fmap_cons, Hnames. cbn [length seq map filename playlist_track]. f_equal.
      * unfold track_name. by rewrite Z.add_0_r.
      * rewrite <- seq_shift, map_map. apply map_ext. intros i. f_equal. lia.
    + constructor; [exists (track + 1), s; split; [by left|]; split; [lia|done]|].
      eapply Forall_impl; [exact Hall|]. intros t (k & s' & Hs & Hk & ->). exists k, s'. split; [by right|done].
Qed.

Lemma track_names_NoDup track n : 0 <= track ->
  NoDup (map (fun i => track_name (track + 1 + Z.of_nat i)) (seq 0 n)).
Proof.
  intros Ht. change (map ?f ?l) with (f <$> l). apply NoDup_fmap_2_strong; [|apply NoDup_seq].
  intros i j _ _ E. unfold track_name in E. apply app_inv_head in E.
  apply print_pad_inj in E; lia.
Qed.

Lemma UpdatePlaylistFile_plugin_keeps d name info plugin st : entry_p name info -> plugin ∈ playlist_plugins ->
  keeps d (fst (UpdatePlaylistFile_plugin d name info plugin st)).
Proof.
  intros He Hplugin Hg. pose proof He as (Hn & Hnp & Ht). pose proof Hg as [Hw _]. unfold UpdatePlaylistFile_plugin.
  destruct (MakeVirtual_outcome d name info DEVICE_PLAYLIST st Hw Hn)
    as [(i & c & Hc & Hname & [[Hm ->]|(Hm & _ & _ & _ & ->)])|(l & st1 & Hl & Hni & _ & ->)].
  - done.
  - simpl. eapply keeps_set_child; [done|apply keeps_with_mark|done].
  - rewrite snoc_lookup. destruct (rbind _ _) as [[e|]|] eqn:E;
      [|rewrite snoc_delete; by apply keeps_sub_children..].
    apply rbind_Ok in E as (input & _ & E). pose proof (playlist_size plugin input e Hplugin E) as Hsize.
    cbv zeta. rewrite snoc_set_child.
    destruct (add_tracks_spec (e_songs e) (virtual_dir d name info DEVICE_PLAYLIST) 0) as (tracks & -> & Hnames & Hall);
      [lia|lia|].
    destruct (e_throws e || _); [rewrite snoc_delete; by apply keeps_sub_children|]. cbn [fst].
    eapply keeps_snoc; [done..| |done]. intros Hv. split; [|done]. apply good_fill; [done..| |].
    + rewrite Hnames. by apply track_names_NoDup.
    + eapply Forall_impl; [exact Hall|]. intros t (k & s & Hs & Hk & ->). by eapply track_p.
Qed.

Lemma UpdateOrInsert_p name t pv : name_p name -> mtime_p t -> Forall playlist_p pv ->
  Forall playlist_p (fst (UpdateOrInsert (PlaylistInfo_new name t) pv)).
Proof.
  intros Hn Ht Hpv. unfold UpdateOrInsert. cbn [pl_name pl_mtime PlaylistInfo_new].
  destruct (pv_find name pv) as [i|].
  - destruct (t =? pl_mtime i); [done|]. cbn [fst]. induction Hpv as [|x pv Hx Hpv IH]; [done|]. cbn [pv_alter].
    destruct (CompareName name x) eqn:E; constructor; try done. apply new_playlist_p; [|done].
    unfold CompareName in E. reflect_bools. by subst.
  - apply Forall_app. split; [done|]. apply Forall_singleton. by apply new_playlist_p.
Qed.

Lemma UpdatePlaylistFile_keeps d name suffix info st : entry_p name info ->
  keeps d (snd (fst (UpdatePlaylistFile d name suffix info st))).
Proof.
  intros Hn. unfold UpdatePlaylistFile. destruct (FindPlaylistPluginBySuffix suffix) as [plugin|] eqn:E; [|done].
  unfold FindPlaylistPluginBySuffix in E. apply List.find_some in E as [Hin _].
  rewrite <- list_elem_of_In in Hin.
  destruct (_ && _); [done|]. destruct (_ || _); [done|].
  assert (keeps d (fst (if as_folder plugin then UpdatePlaylistFile_plugin d name info plugin st else (d, st)))) as Hk.
  { destruct (as_folder plugin); [by apply UpdatePlaylistFile_plugin_keeps|done]. }
  destruct (if as_folder plugin then _ else _) as [d1 st1]. simpl in Hk.
  pose proof (UpdateOrInsert_NoDup (PlaylistInfo_new name (fi_mtime info)) (playlists d1)) as Hnd.
  pose proof (UpdateOrInsert_p name (fi_mtime info) (playlists d1) (proj1 (proj2 Hn)) (proj2 (proj2 Hn))) as Hpp.
  destruct (UpdateOrInsert _ _) as [pv m]. simpl in *. apply (keeps_trans d d1); [done|].
  apply keeps_with_playlists. intros [(_ & _ & _ & Hpl & _)%wf_inv (_ & _ & _ & Hpls & _)%tree_all_inv]. auto.
Qed.

(** ** The walk *)

Lemma RemoveExcluded_keeps d ex st : keeps d (fst (RemoveExcludedFromDirectory d ex st)).
Proof. apply DeleteIf_keeps. Qed.

Lemma UnmarkAllIn_keeps d : keeps d (UnmarkAllIn d).
Proof.
  unfold UnmarkAllIn. set (d1 := with_children d _). apply (keeps_trans d d1).
  - apply keeps_with_children. intros Hg. pose proof (good_children d Hg) as Hc. destruct Hg as [Hw _].
    assert (Forall (fun c => good (with_mark c false)) (children d)) as Hgc
      by (eapply Forall_impl; [exact Hc|]; intros c Hgc; by apply (keeps_with_mark c false)).
    split; [|apply Forall_fmap; eapply Forall_impl; [exact Hgc|]; by intros c []].
    apply (wf_map_children d (fun i => with_mark i false)); [done|done| |done].
    eapply Forall_impl; [exact Hgc|]. by intros c [].
  - etrans; [|apply keeps_with_playlists].
    + apply keeps_with_songs. intros [(_ & _ & Hs & _)%wf_inv (_ & _ & Hsp & _)%tree_all_inv]. split.
      * change (filename <$> map (fun i => Song_with_mark i false) (songs d)) with
          (filename <$> ((fun i => Song_with_mark i false) <$> songs d)). by rewrite <- list_fmap_compose.
      * apply Forall_fmap. eapply Forall_impl; [exact Hsp|]. intros x Hx. by apply marked_song_p.
    + intros [(_ & _ & _ & Hpl & _)%wf_inv (_ & _ & _ & Hpp & _)%tree_all_inv]. split.
      * unfold pl_names. change (map ?f ?l) with (f <$> l). by rewrite <- list_fmap_compose.
      * apply Forall_fmap. eapply Forall_impl; [exact Hpp|]. intros x Hx. by apply marked_playlist_p.
Qed.

Lemma PurgeDeleted_keeps d st : keeps d (fst (PurgeDeletedFromDirectory d st)).
Proof.
  unfold PurgeDeletedFromDirectory.
  pose proof (DeleteIf_keeps (fun child => negb (IsMount child) && negb (mark child))
    (fun song => negb (s_mark song)) d st) as Hk.
  destruct (DeleteIf _ _ d st) as [d1 st1]. simpl in *. apply (keeps_trans d d1); [done|].
  apply keeps_sub_playlists, filter_sublist.
Qed.

Lemma UpdateRegularFile_keeps chain d name info st : entry_p name info ->
  keeps d (snd (fst (UpdateRegularFile chain d name info st))).
Proof.
  intros Hn. unfold UpdateRegularFile. destruct (GetFilenameSuffix name) as [suffix|]; [|done].
  pose proof (UpdateSongFile_keeps d name suffix info st Hn) as Hk1.
  destruct (UpdateSongFile d name suffix info st) as [[[|] d1] st1]; [done|].
  pose proof (UpdateArchiveFile_keeps chain d1 name suffix info st1 Hn) as Hk2.
  destruct (UpdateArchiveFile chain d1 name suffix info st1) as [[[|] d2] st2]; simpl in *.
  - by apply (keeps_trans d d1).
  - apply (keeps_trans d d1); [done|]. apply (keeps_trans d1 d2); [done|]. by apply UpdatePlaylistFile_keeps.
Qed.

Lemma sync_stat_keeps d up : keeps d (fst (sync_stat d up)).
Proof. unfold sync_stat. destruct up; [done|]. apply keeps_with_stat. Qed.

(** The recursion: [update_directory] is [UpdateDirectory] of a smaller
    fuel. *)
Section Rec.
Context (update_directory : list Directory -> Directory -> ExcludeList -> StorageFileInfo -> WalkState ->
  option (bool * Directory * list Directory * WalkState)).
Context (update_directory_keeps : forall chain d ex info st r d' up st',
  mtime_p (fi_mtime info) -> update_directory chain d ex info st = Some (r, d', up, st') -> keeps d d').

Lemma UpdateDirectoryChild_keeps chain d ex name info st d' chain' st' : entry_p name info ->
  UpdateDirectoryChild update_directory chain d ex name info st = Some (d', chain', st') -> keeps d d'.
Proof.
  intros He. pose proof He as (Hn & Hnp & Ht). unfold UpdateDirectoryChild. destruct (IsRegular info).
  { pose proof (UpdateRegularFile_keeps chain d name info st He) as Hk.
    destruct (UpdateRegularFile chain d name info st) as [[b d1] st1]. by intros [= <- _ _]. }
  destruct (IsDirectory info); [|by intros [= <- _ _]].
  destruct (FindAncestorLoop _ _ _) as [found up]. pose proof (sync_stat_keeps d up) as Hk1.
  destruct (sync_stat d up) as [d1 chain1]. simpl in Hk1.
  destruct (negb (found =? 0)); [by intros [= <- _ _]|].
  pose proof (keeps_MakeChild d1 name Hn Hnp) as Hk2.
  assert (keeps d (MakeChild d1 name)) as Hk by by apply (keeps_trans d d1).
  destruct (FindChild_pos (MakeChild d1 name) name ≫= _) as [[i c]|] eqn:E; [|by intros [= <- _ _]].
  apply find_child_Some in E as [Hi _].
  destruct (update_directory _ c ex info st) as [[[[r c'] up'] st1]|] eqn:Eu; [|done].
  apply update_directory_keeps in Eu; [|done]. pose proof (sync_stat_keeps (MakeChild d1 name) up') as Hk3.
  assert (children (fst (sync_stat (MakeChild d1 name) up')) = children (MakeChild d1 name)) as Hch
    by (by destruct up').
  destruct (sync_stat (MakeChild d1 name) up') as [d2 chain2]. simpl in Hk3, Hch.
  assert (keeps d (set_child d2 i c')) as Hk4.
  { apply (keeps_trans d (MakeChild d1 name)); [done|]. apply (keeps_trans _ d2); [done|].
    apply (keeps_set_child d2 i c); [by rewrite Hch|done]. }
  destruct r; [by intros [= <- _ _]|].
  pose proof (DeleteDirectory_keeps (set_child d2 i c') i st1) as Hk5.
  destruct (DeleteDirectory _ i st1) as [d3 st2]. intros [= <- _ _]. by apply (keeps_trans d (set_child d2 i c')).
Qed.

(** The entries of a reader that are used. *)
Definition usable_entry (e : bytes * result StorageFileInfo) : Prop :=
  name_ok (fst e) /\ (skip_path (fst e) = false -> name_p (fst e) /\
    match snd e with Ok info => mtime_p (fi_mtime info) | Throw _ => True end).

Lemma read_entries_keeps ex entries : Forall usable_entry entries ->
  forall chain d st d' chain' st',
  read_entries update_directory ex entries chain d st = Some (d', chain', st') -> keeps d d'.
Proof.
  induction 1 as [|[name info] entries [Hn Hnp] Hr IH]; intros chain d st d' chain' st'; cbn [read_entries];
    (destruct (cancel (ticks st)); [by intros [= <- _ _]|]); [by intros [= <- _ _]|].
  simpl in Hn, Hnp. destruct (skip_path name); [apply IH|]. destruct (Hnp eq_refl) as [Hnp' Ht].
  destruct (match PathFromUTF8 name with None => true | Some _ => _ end); [apply IH|].
  pose proof (DeleteNameIn_keeps d name (tick st)) as Hk.
  destruct (SkipSymlink (d :: chain) name).
  { destruct (DeleteNameIn d name (tick st)) as [[m d1] st1]. intros Hrest%IH. by apply (keeps_trans d d1). }
  destruct (ok_or_none info) as [info'|] eqn:Ei.
  - destruct (UpdateDirectoryChild _ _ _ _ _ _ _) as [[[d1 chain1] st1]|] eqn:Eu; [|done].
    apply UpdateDirectoryChild_keeps in Eu; [|destruct info; [by injection Ei as ->|done]]. intros Hrest%IH. by apply (keeps_trans d d1).
  - destruct (DeleteNameIn d name (tick st)) as [[m d1] st1]. intros Hrest%IH. by apply (keeps_trans d d1).
Qed.

Lemma DirectoryMakeChildChecked_keeps chain d uri name st : name_ok name -> name_p name ->
  keeps d (snd (fst (fst (DirectoryMakeChildChecked chain d uri name st)))).
Proof.
  intros Hn Hnp Hw. revert Hw. unfold DirectoryMakeChildChecked.
  destruct (FindChild_pos d name ≫= _) as [[i c]|] eqn:E.
  { by destruct (IsMount c). }
  destruct (GetInfo uri) as [info|]; [|done].
  destruct (FindAncestorLoop _ _ _) as [found up]. pose proof (sync_stat_keeps d up) as Hk1.
  assert (children (fst (sync_stat d up)) = children d) as Hch by (by destruct up).
  destruct (sync_stat d up) as [d1 chain1]. simpl in Hk1, Hch. destruct (negb (found =? 0)); [done|].
  destruct (SkipSymlink _ _); [done|].
  assert (keeps d1 (fst (match FindSong_pos d1 name with Some i => DeleteSong d1 i st | None => (d1, st) end)) /\
    children (fst (match FindSong_pos d1 name with Some i => DeleteSong d1 i st | None => (d1, st) end)) = children d1)
    as [Hk2 Hch2].
  { destruct (FindSong_pos d1 name) as [i|]; [|done]. split; [apply DeleteSong_keeps|].
    unfold DeleteSong. by destruct (songs d1 !! i). }
  destruct (match FindSong_pos d1 name with Some _ => _ | None => _ end) as [d2 st2]. cbn [fst snd] in *. intros Hw.
  pose proof (keeps_trans d d1 d2 Hk1 Hk2 Hw) as (Hw2 & Hp2 & Hr2).
  apply (keeps_trans d d2); [by apply (keeps_trans d d1)| |done].
  assert (name ∉ child_names d2) as Hni.
  { unfold child_names, GetName. rewrite Hch2, Hch, Hp2, Hr2. apply FindChild_pos_None.
    destruct (FindChild_pos d name) as [i|] eqn:Ei; [|done].
    apply FindChild_pos_Some in Ei as (c & Hc & _). simpl in E. by rewrite Hc in E. }
  apply (keeps_trans d2 (CreateChild d2 name)); [|apply keeps_alter_child; intros c; apply keeps_with_stat].
  by apply keeps_CreateChild.
Qed.

Lemma UpdateUri_from_cons name r rest uri chain d st :
  UpdateUri_from update_directory (name :: r :: rest) uri chain d st =
  if name =b [] then UpdateUri_from update_directory (r :: rest) uri chain d st
  else
    match DirectoryMakeChildChecked chain d name name st with
    | (None, d, chain, st) => Some (d, chain, st)
    | (Some i, d, chain, st) =>
        match children d !! i with
        | None => Some (d, chain, st)
        | Some child =>
            match UpdateUri_from update_directory (r :: rest) uri (d :: chain) child st with
            | None => None
            | Some (child, up, st) =>
                let '(d, chain) := sync_stat d up in Some (set_child d i child, chain, st)
            end
        end
    end.
Proof. done. Qed.

Lemma UpdateUri_from_keeps segs uri : Forall (fun seg => (SEPARATOR ∉ seg) /\ (seg <> [] -> name_p seg)) segs ->
  name_ok (GetBase uri) -> name_p (GetBase uri) ->
  forall chain d st d' chain' st',
  UpdateUri_from update_directory segs uri chain d st = Some (d', chain', st') -> keeps d d'.
Proof.
  intros Hsegs Hbase Hbase_p. induction Hsegs as [|name rest [Hsep Hnp] Hrest IH]; intros chain d st d' chain' st';
    [|destruct rest as [|r rest]].
  1-2: cbn [UpdateUri_from]; unfold UpdateUri_in; pose proof (DeleteNameIn_keeps d (GetBase uri) st) as Hk;
    destruct (SkipSymlink _ _);
    [|destruct (GetInfo uri) as [info|] eqn:Ei;
      [apply UpdateDirectoryChild_keeps; split; [exact Hbase|split; [exact Hbase_p|by eapply info_p]]|]];
    destruct (DeleteNameIn d (GetBase uri) st) as [[m d1] st1]; by intros [= <- _ _].
  rewrite UpdateUri_from_cons. destruct (name =b []) eqn:E; [apply IH|]. reflect_bools.
  assert (name_ok name) as Hn by done.
  pose proof (DirectoryMakeChildChecked_keeps chain d name name st Hn (Hnp E)) as Hk.
  destruct (DirectoryMakeChildChecked chain d name name st) as [[[[i|] d1] chain1] st1]; simpl in Hk;
    [|by intros [= <- _ _]].
  destruct (children d1 !! i) as [c|] eqn:Ei; [|by intros [= <- _ _]].
  destruct (UpdateUri_from update_directory (r :: rest) uri (d1 :: chain1) c st1) as [[[c' up] st2]|] eqn:Er; [|done].
  apply IH in Er. pose proof (sync_stat_keeps d1 up) as Hk1.
  assert (children (fst (sync_stat d1 up)) = children d1) as Hch by (by destruct up).
  destruct (sync_stat d1 up) as [d2 chain2]. simpl in Hk1, Hch. intros [= <- _ _].
  apply (keeps_trans d d1); [done|]. apply (keeps_trans d1 d2); [done|].
  apply (keeps_set_child d2 i c); [by rewrite Hch|done].
Qed.
End Rec.

Lemma reader_usable p entries : storage_OpenDirectory p = Ok entries -> Forall usable_entry entries.
Proof.
  intros Hp. apply Forall_and. split; [by eapply reader_names|by eapply reader_p].
Qed.

Lemma UpdateDirectory_keeps fuel : forall chain d ex info st r d' up st', mtime_p (fi_mtime info) ->
  UpdateDirectory fuel chain d ex info st = Some (r, d', up, st') -> keeps d d'.
Proof.
  induction fuel as [|fuel IH]; intros chain d ex info st r d' up st' Ht; [done|]. cbn [UpdateDirectory].
  set (d0 := directory_set_stat d info). assert (keeps d d0) as Hk0 by apply keeps_with_stat.
  destruct (storage_OpenDirectory (path d0)) as [reader|] eqn:Er; [|by intros [= _ <- _ _]].
  set (cex := LoadExcludeList d0 (ExcludeList_of ex)).
  assert (keeps d0 (fst (if negb (ExcludeList_IsEmpty cex) then RemoveExcludedFromDirectory d0 cex st else (d0, st))))
    as Hk1 by (destruct (negb _); [apply RemoveExcluded_keeps|done]).
  destruct (if negb (ExcludeList_IsEmpty cex) then _ else _) as [d1 st1]. simpl in Hk1.
  destruct (read_entries _ _ _ _ _ _) as [[[d2 up2] st2]|] eqn:Eread; [|done].
  apply read_entries_keeps in Eread; [|exact IH|by eapply reader_usable].
  pose proof (PurgeDeleted_keeps d2 st2) as Hk3.
  destruct (PurgeDeletedFromDirectory d2 st2) as [d3 st3]. simpl in Hk3. intros [= _ <- _ _].
  apply (keeps_trans d d0); [done|]. apply (keeps_trans d0 d1); [done|].
  apply (keeps_trans d1 (UnmarkAllIn d1)); [apply UnmarkAllIn_keeps|].
  apply (keeps_trans _ d2); [done|]. apply (keeps_trans _ d3); [done|].
  apply (keeps_trans _ (with_mtime d3 (fi_mtime info))); [by apply keeps_with_mtime|apply keeps_with_mark].
Qed.

(** ** PurgeDanglingFromPlaylists *)

Lemma keeps_alter_dir f pos : (forall d, keeps d (f d)) -> forall d, keeps d (alter_dir f pos d).
Proof.
  intros Hf. induction pos as [|i pos IH]; intros d; [apply Hf|]. by apply keeps_alter_child.
Qed.

Lemma purge_playlist_keeps n pos : forall i root st, keeps root (fst (purge_playlist n pos i root st)).
Proof.
  induction n as [|n IH]; intros i root st; [done|]. cbn [purge_playlist].
  destruct (dir_at root pos ≫= _) as [[d s]|]; [|done]. destruct (_ && _); [|apply IH].
  destruct (LookupTargetSong _ root pos (target s)) as [[pos' j]|].
  - eapply keeps_trans; [|apply IH]. apply keeps_alter_dir. intros d1.
    destruct (songs d1 !! j) as [s1|] eqn:E.
    + rewrite (alter_insert_eq _ _ _ _ E). apply (keeps_set_song d1 j s1); [done|done|]. apply in_playlist_song_p.
    + rewrite alter_none by done. by destruct d1.
  - eapply keeps_trans; [|apply IH]. apply keeps_alter_dir. intros d1. apply DeleteSong_keeps.
Qed.

Lemma PurgeDangling_keeps root st : keeps root (fst (PurgeDanglingFromPlaylists root st)).
Proof.
  unfold PurgeDanglingFromPlaylists. generalize (postorder root). intros l. revert root st.
  induction l as [|pos l IH]; intros root st; [done|]. cbn [fold_left].
  assert (keeps root (fst (purge_at pos (root, st)))) as Hk.
  { unfold purge_at. destruct (dir_at root pos) as [d|]; [|done]. destruct (negb (IsPlaylist d)); [done|].
    apply purge_playlist_keeps. }
  destruct (purge_at pos (root, st)) as [root1 st1]. by apply (keeps_trans root root1).
Qed.

Lemma ClearInPlaylist_keeps d : keeps d (ClearInPlaylist d).
Proof.
  intros [Hw Ha]. split; [|by destruct d]. split; [by apply wf_ClearInPlaylist|]. clear Hw.
  induction d as [d IH] using Directory_ind'. apply tree_all_inv in Ha as (Hp & Hm & Hs & Hpl & Hc).
  assert (ClearInPlaylist d = with_songs (with_children d (ClearInPlaylist <$> children d))
    ((fun s => Song_with_in_playlist s false) <$> songs d)) as -> by by destruct d.
  constructor; try done.
  - apply Forall_fmap. eapply Forall_impl; [exact Hs|]. intros x Hx. by apply in_playlist_song_p.
  - apply Forall_fmap. eapply Forall_impl; [apply Forall_and; split; [exact IH|exact Hc]|]. intros x [Hx1 Hx2]. by apply Hx1.
Qed.

(** The whole walk. *)
Lemma Walk_keeps fuel root uri m root' uris :
  match uri with
  | Some p => isRootDirectory p = true \/ (name_ok (GetBase p) /\ name_p (GetBase p) /\
      Forall (fun seg => seg <> [] -> name_p seg) (IterableSplitString p SEPARATOR))
  | None => True
  end ->
  Walk fuel root uri = Some (m, root', uris) -> keeps root root'.
Proof.
  intros Huri. unfold Walk. cbv zeta.
  assert (forall root1 st1, keeps root root1 ->
    keeps root (fst (PurgeDanglingFromPlaylists (ClearInPlaylist root1) st1))) as Hfinish.
  { intros root1 st1 Hk. etrans; [exact Hk|]. etrans; [apply ClearInPlaylist_keeps|apply PurgeDangling_keeps]. }
  destruct (match uri with Some p => if isRootDirectory p then None else Some p | None => None end) as [p|] eqn:E.
  - assert (uri = Some p /\ isRootDirectory p = false) as [-> Er].
    { destruct uri as [q|]; [|done]. destruct (isRootDirectory q) eqn:Eq; [done|]. by injection E as ->. }
    destruct Huri as [Huri|(Hn & Hnp & Hsegs)]; [congruence|]. unfold UpdateUri.
    destruct (UpdateUri_from (UpdateDirectory fuel) _ p [] root _) as [[[root1 up] st1]|] eqn:Eu; [|done].
    eapply UpdateUri_from_keeps in Eu; [|apply UpdateDirectory_keeps| |done|done].
    2: { apply Forall_and. split; [apply IterableSplitString_segments|done]. }
    specialize (Hfinish root1 st1 Eu). destruct (PurgeDanglingFromPlaylists _ _) as [root2 st2].
    by intros [= _ <- _].
  - destruct (GetInfo []) as [info|] eqn:Ei; [|by intros [= _ <- _]].
    destruct (negb (IsDirectory info)); [by intros [= _ <- _]|].
    destruct (UpdateDirectory fuel [] root ExcludeList_new info _) as [[[[r root1] up] st1]|] eqn:Eu; [|done].
    apply UpdateDirectory_keeps in Eu; [|by eapply info_p]. specialize (Hfinish root1 st1 Eu).
    destruct (PurgeDanglingFromPlaylists _ _) as [root2 st2]. by intros [= _ <- _].
Qed.
End Ops.

(** ** Properties *)

(** C3: an update leaves a well-formed tree well-formed: no two children,
    songs or playlists of a directory share a name and every path is its
    parent's extended by the name. *)
Theorem Walk_wf `{System} `{Storage} `{UpdateWalk} (Hlaws : WalkLaws) (fuel : nat) (root root' : Directory)
  (uri : option bytes) (m : bool) (uris : list bytes) (Hwf : wf root)
  (Huri : match uri with Some p => isRootDirectory p = true \/ name_ok (GetBase p) | None => True end)
  (Hrun : Walk fuel root uri = Some (m, root', uris)) : wf root'.
Proof.
  assert (@keeps no_pred root root') as Hk; [|by apply (Hk (conj Hwf (no_pred_all root)))].
  pose proof no_pred_laws. eapply Walk_keeps; [|exact Hrun].
  destruct uri as [p|]; [|done]. destruct Huri as [Huri|Huri]; [by left|right].
  split; [done|]. split; [done|]. by apply Forall_true.
Qed.

Lemma no_entry name info : name_ok name -> @entry_p no_pred name info.
Proof. intros Hn. exact (conj Hn (conj I I)). Qed.

Lemma wf_NewRoot : wf NewRoot.
Proof. constructor; simpl; try apply NoDup_nil_2; done. Qed.

Lemma sample_laws (mode : ChannelMode) : @WalkLaws sample_system sample_storage (sample_walk mode).
Proof.
  split.
  - intros p entries Hp. cbn [storage_OpenDirectory sample_storage] in Hp. destruct (p =b []); [|destruct (p =b lit "d"); [|done]];
      injection Hp as <-; repeat apply Forall_cons_2; try apply Forall_nil_2;
      apply (bool_decide_unpack _); vm_compute; exact I.
  - intros suffix pathname info. apply NoDup_nil_2.
  - intros plugin input e Hp. by apply not_elem_of_nil in Hp.
Qed.

Lemma Walk_wf_witness :
  exists m root' uris,
    @Walk sample_system sample_storage (sample_walk ALL) 4 NewRoot None = Some (m, root', uris) /\ wf root'.
Proof.
  do 3 eexists. split; [vm_compute; reflexivity|].
  eapply (@Walk_wf sample_system sample_storage (sample_walk ALL) (sample_laws ALL) 4 NewRoot _ None).
  - apply wf_NewRoot.
  - exact I.
  - vm_compute. reflexivity.
Defined.
