(* ===== verification/WalkTexts.v ===== *)
(** The update keeps the tree fit for the database file: every name, path
    and value is a line of text and every number is in the range of its
    type ([DbSave.tree_ok], which [DbSave.db_save_load] asks for).

    This is the instance of [WalkWf.TreePred] for texts; what is to be
    known of the plugins, the storage and the clock is [TextLaws]. *)
From S2P Require Import Prelude Text Chrono Utf8 Tags Audio Songs SongSave SortList SongSort Playlists Directory DbSave TagScan Storage SongUpdate CueValidator Editor Walk WalkWf.
Open Scope Z_scope.

Section Texts.
Context (fmt_double : double -> bytes).

(** fmt prints the duration as a line that [strtod] reads back. *)
Definition duration_text (d : Z) : Prop :=
  IsNegative_ms d = false ->
  let text := fmt_double (ToDoubleS d) in
  plain text /\ strtod text = ToDoubleS d /\ StripLeft_c text = text.

(** The fields are unsigned in the source. *)
Definition format_ok (a : AudioFormat) : Prop := 0 <= sample_rate a /\ 0 <= channels a.

Definition event_ok (e : TagEvent) : Prop :=
  match e with
  | OnDuration d => duration_text (s32 d)
  | OnAudioFormat af => format_ok af
  | _ => True
  end.

Definition handler_ok (mask : Z) (h : FullTagHandler) : Prop :=
  builder_ok mask (h_tag h) /\ duration_text (b_duration (h_tag h)) /\
  match h_audio_format h with Some a => format_ok a | None => True end.

Lemma handle_handler_ok mask h e : event_ok e -> handler_ok mask h -> handler_ok mask (handle mask h e).
Proof.
  intros He (Hb & Hd & Ha). split; [by apply handle_ok|]. destruct e as [d|type v|name v|af]; simpl in *.
  - done.
  - unfold AddTagHandler_OnTag, AddItem. repeat case_match; done.
  - by destruct (StringIsEqualIgnoreCase name _).
  - split; [done|]. by destruct (h_audio_format h).
Qed.

(** ** What the texts in the tree come from *)

Class TextLaws `{System} `{Storage} `{UpdateWalk} : Prop := {
  text_scan_file : forall p scan path_fs want r es, p ∈ decoder_plugins -> scan_file p = Some scan ->
    scan path_fs want = (r, es) -> Forall event_ok es;
  text_scan_stream : forall p scan input want r es, p ∈ decoder_plugins -> scan_stream p = Some scan ->
    scan input want = Ok (r, es) -> Forall event_ok es;
  text_generic_path : forall path want es, ScanGenericTags_path path want = Ok es -> Forall event_ok es;
  text_generic_stream : forall input want es, ScanGenericTags_stream input want = Ok es -> Forall event_ok es;
  text_now : forall n, now n < 2 ^ 63;
  text_info : forall p info, GetInfo p = Some info -> fi_mtime info < 2 ^ 63;
  text_reader : forall p entries, storage_OpenDirectory p = Ok entries ->
    Forall (fun e => skip_path (fst e) = false -> plain (fst e) /\
      match snd e with Ok info => fi_mtime info < 2 ^ 63 | Throw _ => True end) entries;
  text_container : forall plugin scan path v, plugin ∈ decoder_plugins -> container_scan plugin = Some scan ->
    scan path = Ok v -> Forall (fun s => song_ok fmt_double (Song_of_detached s)) v;
  text_archive : forall plugin path_fs file e n, plugin ∈ archive_plugins ->
    archive_file_open plugin path_fs = Ok file -> e ∈ archive_entries file ->
    n ∈ IterableSplitString e SEPARATOR -> IsAcceptableFilename n = true -> plain n;
  text_playlist : forall plugin input e s, plugin ∈ playlist_plugins ->
    open_stream plugin input = Ok (Some e) -> s ∈ e_songs e -> song_ok fmt_double (Song_of_detached s) }.

#[export] Instance text_scan_laws `{TextLaws} : ScanLaws tag_mask decoder_plugins event_ok (handler_ok tag_mask).
Proof.
  split; [apply handle_handler_ok|apply text_scan_file|apply text_scan_stream|apply text_generic_path|
    apply text_generic_stream].
Qed.

Definition text_pred : TreePred :=
  {| song_p := song_ok fmt_double; playlist_p := playlist_ok; path_p := plain; name_p := plain;
     mtime_p := fun t => t < 2 ^ 63; mounted_p := fun _ => True |}.

(** ** The songs *)

Lemma printable_plain s : printable s -> plain s.
Proof.
  intros Hs. apply plain_forall. eapply Forall_impl; [exact Hs|]. intros c Hc.
  unfold IsNonPrintableASCII in Hc. by apply Z.ltb_ge in Hc.
Qed.

Lemma take_fits {A} (l : list A) z : Z.of_nat (length (take (Z.to_nat (u16 z)) l)) < 65536.
Proof.
  rewrite length_take. pose proof (Z.mod_pos_bound z 65536 ltac:(lia)) as Hb. change (u16 z) with (z mod 65536).
  rewrite Nat2Z.inj_min, Z2Nat.id by lia. lia.
Qed.

(** The tag of a scan. *)
Lemma Commit_texts mask b : builder_ok mask b ->
  Forall (fun i => plain (ti_value i)) (items (Commit b)) /\ fits (items (Commit b)).
Proof.
  intros Hb. split.
  - apply Forall_take. eapply Forall_impl; [exact Hb|]. intros i ((_ & _ & Hp) & _). by apply printable_plain.
  - apply take_fits.
Qed.

(** The fields of a song that [song_ok] speaks of, but for the tag. *)
Lemma song_ok_with_tag s b mask : song_ok fmt_double s -> builder_ok mask b -> duration_text (b_duration b) ->
  song_ok fmt_double (Song_with_tag s (Commit b)).
Proof.
  intros [] Hb Hd. destruct (Commit_texts mask b Hb) as [Hv Hf]. by split.
Qed.

Lemma song_ok_new name : plain name -> song_ok fmt_double (Song_new name).
Proof. intros Hn. split; try done; try apply plain_nil; by constructor. Qed.

Lemma song_ok_mtime s t : song_ok fmt_double s -> t < 2 ^ 63 -> song_ok fmt_double (Song_with_mtime s t).
Proof. intros [] Ht. by split. Qed.

Lemma song_ok_added s t : song_ok fmt_double s -> t < 2 ^ 63 -> song_ok fmt_double (Song_with_added s t).
Proof. intros [] Ht. by split. Qed.

Lemma song_ok_format s a : song_ok fmt_double s -> format_ok a -> song_ok fmt_double (Song_with_audio_format s a).
Proof. intros [] [Hr Hc]. by split. Qed.

Lemma song_ok_mark s b : song_ok fmt_double s -> song_ok fmt_double (Song_with_mark s b).
Proof. intros []. by split. Qed.

Lemma song_ok_in_playlist s b : song_ok fmt_double s -> song_ok fmt_double (Song_with_in_playlist s b).
Proof. intros []. by split. Qed.

Section Laws.
Context `{TextLaws}.

Lemma new_handler_ok a : match a with Some a => format_ok a | None => True end ->
  handler_ok tag_mask (mkFullTagHandler TagBuilder_new a).
Proof. intros Ha. by split; [constructor|]. Qed.

Lemma UpdateFile_texts d s info s' : song_ok fmt_double s -> fi_mtime info < 2 ^ 63 ->
  UpdateFile tag_mask decoder_plugins d s info = Some s' -> song_ok fmt_double s'.
Proof.
  intros Hs Ht. unfold UpdateFile. cbv zeta.
  assert (handler_ok tag_mask (mkFullTagHandler TagBuilder_new (Some AudioFormat_Undefined))) as Hh
    by by apply new_handler_ok.
  destruct (match storage_MapFS _ with None => _ | Some _ => _ end) as [[[|] h]|] eqn:E; [|done|done].
  assert (handler_ok tag_mask h) as (Hb & Hd & Ha).
  { destruct (storage_MapFS (song_uri d s)).
    - exact (ScanFileTagsWithGeneric_p _ _ _ _ E Hh).
    - apply rbind_Ok in E as (input & _ & E). exact (tag_stream_scan_p _ _ _ _ E Hh). }
  intros [= <-]. eapply song_ok_with_tag; [|done|done]. apply song_ok_format; [by apply song_ok_mtime|].
  by destruct (h_audio_format h).
Qed.

Lemma UpdateFileInArchive_texts archive chain s s' : song_ok fmt_double s ->
  UpdateFileInArchive tag_mask decoder_plugins archive chain s = Some s' -> song_ok fmt_double s'.
Proof.
  intros Hs. unfold UpdateFileInArchive. destruct (tag_archive_scan _ _ _ _) as [[|] b] eqn:E; [|done].
  intros [= <-].
  destruct (tag_archive_scan_p _ _ _ E (new_handler_ok None I)) as (h & (Hb & Hd & _) & <-).
  by eapply song_ok_with_tag.
Qed.

Lemma container_tracks_texts plugins path info : (forall p, p ∈ plugins -> p ∈ decoder_plugins) ->
  fi_mtime info < 2 ^ 63 -> Forall (song_ok fmt_double) (container_tracks plugins path info).
Proof.
  intros Hp Ht. induction plugins as [|p plugins IH]; [done|]. cbn [container_tracks]. apply Forall_app. split.
  - destruct (container_scan p) as [scan|] eqn:E; [|done]. destruct (scan path) as [v|] eqn:Ev; [|done].
    apply Forall_fmap. eapply Forall_impl; [eapply text_container; [apply Hp; by left|done..]|].
    intros s Hs. by apply song_ok_mtime.
  - apply IH. intros q Hq. apply Hp. by right.
Qed.

(** The width of the number is at least four. *)
Lemma track_name_plain k : 0 <= k -> plain (lit "track" ++ print_pad 4 k).
Proof.
  intros Hk. apply plain_app; [by plain_tac|]. unfold print_pad. apply plain_app; [|by apply plain_print_nat].
  apply plain_forall. apply Forall_forall. intros c Hc.
  assert (c = "0"%char) as -> by (by apply elem_of_replicate in Hc as [-> _]). by vm_compute.
Qed.

Lemma playlist_track_texts k s : 0 <= k -> song_ok fmt_double (Song_of_detached s) ->
  song_ok fmt_double (playlist_track k s).
Proof.
  intros Hk []. split; try done; unfold playlist_track; cbn [filename target]; [by apply track_name_plain|].
  destruct (IsAbsoluteOrHasScheme _); [done|]. by apply plain_app; [plain_tac|].
Qed.

#[export] Instance text_pred_laws : @PredLaws _ _ _ text_pred.
Proof.
  split; cbn [song_p playlist_p path_p name_p mtime_p mounted_p text_pred].
  - done.
  - intros p n Hp _ Hn. apply plain_app; [done|]. by apply (plain_app [SEPARATOR]); [plain_tac|].
  - done.
  - done.
  - apply song_ok_mark.
  - apply song_ok_in_playlist.
  - intros name info d s n Hn Ht Hs. apply song_ok_added; [|apply text_now]. apply song_ok_mark.
    unfold ProcessSongTags. eapply UpdateFile_texts; [by apply song_ok_new|done|exact Hs].
  - intros d s s' info Hs Ht Hu. apply song_ok_mark. by eapply UpdateFile_texts.
  - intros suffix path info Ht. apply container_tracks_texts; [|done].
    intros p [Hp _]%list_elem_of_In%filter_In. by apply list_elem_of_In.
  - apply text_archive.
  - intros archive name chain s Hn Hl. eapply UpdateFileInArchive_texts; [by apply song_ok_new|exact Hl].
  - intros archive chain s s'. apply UpdateFileInArchive_texts.
  - intros plugin input e s k Hp He Hs Hk. apply playlist_track_texts; [lia|]. by eapply text_playlist.
  - by intros.
  - by intros i m [].
  - apply text_reader.
  - apply text_info.
Qed.
End Laws.

(** ** The tree *)

Lemma plain_suffix p s : plain (p ++ s) -> plain s.
Proof.
  intros (Hl & Hn & Hc). rewrite elem_of_app in Hl, Hn. split; [tauto|]. split; [tauto|].
  destruct s as [|x s]; [done|]. by rewrite last_app_ne in Hc.
Qed.

Lemma plain_drop n s : plain s -> plain (drop n s).
Proof. intros Hs. apply (plain_suffix (take n s)). by rewrite take_drop. Qed.

Lemma tree_ok_all d : tree_ok fmt_double d <-> @tree_all text_pred d.
Proof.
  induction d as [d IH] using Directory_ind'. split.
  - intros (Hp & Hm & _ & Hs & Hpl & Hc)%tree_ok_inv. constructor; try done.
    apply Forall_forall. intros c Hin. rewrite Forall_forall in IH, Hc. by apply IH, Hc.
  - intros ([Hp _] & Hm & Hs & Hpl & Hc)%tree_all_inv. constructor; try done.
    + apply Forall_forall. intros c Hin. rewrite Forall_forall in Hc.
      apply Hc, tree_all_inv in Hin as [[Hpc _] _]. unfold GetName. destruct (is_root d); [done|by apply plain_drop].
    + apply Forall_forall. intros c Hin. rewrite Forall_forall in IH, Hc. by apply IH, Hc.
Qed.

Lemma Walk_texts_good `{TextLaws} (Hlaws : WalkLaws) fuel root root' uri m uris :
  wf root -> tree_ok fmt_double root ->
  match uri with
  | Some p => isRootDirectory p = true \/
      (name_ok (GetBase p) /\ plain (GetBase p) /\ Forall plain (IterableSplitString p SEPARATOR))
  | None => True
  end ->
  Walk fuel root uri = Some (m, root', uris) -> wf root' /\ tree_ok fmt_double root' /\ is_root root' = is_root root.
Proof.
  intros Hw Ht%tree_ok_all Hu Hrun. pose proof text_pred_laws.
  assert (@keeps text_pred root root') as Hk.
  { eapply Walk_keeps; [|exact Hrun]. destruct uri as [p|]; [|done]. destruct Hu as [Hu|(Hn & Hp & Hs)]; [by left|right].
    split; [done|]. split; [done|]. by eapply Forall_impl; [exact Hs|]. }
  destruct (Hk (conj Hw Ht)) as ([Hw' Ha'] & _ & Hr). by rewrite tree_ok_all.
Qed.
End Texts.

(** ** Mount points *)

(** No directory is a mount point. *)
Definition unmounted_pred : TreePred :=
  {| song_p := fun _ => True; playlist_p := fun _ => True; path_p := fun _ => True; name_p := fun _ => True;
     mtime_p := fun _ => True; mounted_p := fun m => m = None |}.
Definition unmounted : Directory -> Prop := @tree_all unmounted_pred.

Lemma unmounted_pred_laws `{System} `{Storage} `{UpdateWalk} : @PredLaws _ _ _ unmounted_pred.
Proof.
  split; try done; intros; apply Forall_forall; try done. intros [name [info|e]] _ _; by split.
Qed.

Lemma Walk_unmounted `{System} `{Storage} `{UpdateWalk} (Hlaws : WalkLaws) fuel root root' m uris :
  wf root -> unmounted root -> Walk fuel root (Some []) = Some (m, root', uris) -> unmounted root'.
Proof.
  intros Hw Hu Hrun. pose proof unmounted_pred_laws.
  assert (@keeps unmounted_pred root root') as Hk by (eapply Walk_keeps; [|exact Hrun]; by left).
  by destruct (Hk (conj Hw Hu)) as ([_ ?] & _).
Qed.

Lemma tree_all_PruneEmpty {TP : TreePred} d : tree_all d -> tree_all (PruneEmpty d).
Proof.
  induction d as [d IH] using Directory_ind'. intros (Hp & Hm & Hs & Hpl & Hc)%tree_all_inv.
  rewrite PruneEmpty_eq. constructor; try done. eapply sublist_Forall; [apply filter_sublist|]. apply Forall_fmap.
  eapply Forall_impl; [apply Forall_and; split; [exact IH|exact Hc]|]. intros c [H1 H2]. by apply H1.
Qed.

Lemma tree_all_Sort {TP : TreePred} coll d : tree_all d -> tree_all (Sort coll d).
Proof.
  induction d as [d IH] using Directory_ind'. intros (Hp & Hm & Hs & Hpl & Hc)%tree_all_inv.
  rewrite Sort_eq. constructor; cbn [songs playlists children]; try done.
  - unfold song_list_sort. by rewrite SortList_perm_aux.
  - apply Forall_fmap. rewrite SortList_perm_aux.
    eapply Forall_impl; [apply Forall_and; split; [exact IH|exact Hc]|]. intros c [H1 H2]. by apply H1.
Qed.

(** Reloading keeps every song of such a tree where it was. *)
Lemma reload_all_songs d : unmounted d -> wf d ->
  all_songs (reload_dir d) = (fun e => (fst e, reload_song (snd e))) <$> all_songs d.
Proof.
  induction d as [d IH] using Directory_ind'. intros (_ & _ & _ & _ & Hu)%tree_all_inv (Hp & _ & _ & _ & _ & Hw)%wf_inv.
  rewrite !all_songs_eq, fmap_app, <- list_fmap_compose.
  assert (path (reload_dir d) = path d /\ songs (reload_dir d) = reload_song <$> songs d) as [-> ->].
  { unfold path_ok in Hp. destruct d as [ch so pl r mt ino dev pa mo ma]. cbn [is_root path] in Hp. split; [|done].
    by destruct r. }
  rewrite <- list_fmap_compose. f_equal.
  assert (children (reload_dir d) = concat (map (fun c => if IsMount c then [] else [reload_dir c]) (children d))) as ->
    by by destruct d.
  clear Hp. induction (children d) as [|c l IHl]; [done|]. inversion_clear IH as [|? ? Hc Hcs].
  inversion_clear Hu as [|? ? Huc Hul]. inversion_clear Hw as [|? ? Hwc Hwl].
  assert (IsMount c = false) as Hm.
  { apply tree_all_inv in Huc as [[_ Hm] _]. cbn in Hm. unfold IsMount. by rewrite Hm. }
  cbn [map concat fmap list_fmap]. rewrite Hm. cbn [app fmap list_fmap concat]. rewrite (Hc Huc Hwc).
  rewrite fmap_app. f_equal. by apply IHl.
Qed.

(** ** Properties *)

(** An update of a tree that can be written to the database file gives
    one that can be written, too: whatever the plugins report, every name,
    path, target and tag value in it is a line of text that is read back
    as it was written. *)
Theorem Walk_texts `{System} `{Storage} `{UpdateWalk} (fmt_double : SpecFloat.spec_float -> bytes)
  (Hlaws : WalkLaws) (Htexts : TextLaws fmt_double) (fuel : nat) (root root' : Directory)
  (uri : option bytes) (m : bool) (uris : list bytes) (Hwf : wf root) (Hok : tree_ok fmt_double root)
  (Huri : match uri with
          | Some p => isRootDirectory p = true \/
              (name_ok (GetBase p) /\ plain (GetBase p) /\ Forall plain (IterableSplitString p SEPARATOR))
          | None => True
          end)
  (Hrun : Walk fuel root uri = Some (m, root', uris)) : tree_ok fmt_double root'.
Proof. by apply (Walk_texts_good fmt_double Hlaws fuel root root' uri m uris). Qed.

(** The decoder of the sample reports three minutes. *)
Definition sample_fmt180 (_ : SpecFloat.spec_float) : bytes := lit "180".

Lemma sample_texts (mode : ChannelMode) :
  @TextLaws sample_fmt180 sample_system sample_storage (sample_walk mode).
Proof.
  split; cbn [decoder_plugins archive_plugins playlist_plugins sample_walk now].
  - intros p scan path_fs want r es [->|Hp]%elem_of_cons; [|by apply elem_of_nil in Hp].
    intros [= <-] [= _ <-]. repeat apply Forall_cons_2; try apply Forall_nil_2; try done.
    + intros _. split; [apply (bool_decide_unpack _); vm_compute; exact I|]. by vm_compute.
    + unfold event_ok, format_ok. cbn [sample_rate channels]. destruct (path_fs =b _); lia.
  - intros p scan input want r es [->|Hp]%elem_of_cons; [done|]. by apply elem_of_nil in Hp.
  - by intros path want es [= <-].
  - by intros input want es [= <-].
  - intros n. vm_compute. done.
  - intros p info. unfold GetInfo. cbn [storage_GetInfo sample_storage].
    destruct (p =b []); [|destruct (p =b lit "d")]; intros [= <-]; vm_compute; done.
  - intros p entries. cbn [storage_OpenDirectory sample_storage].
    destruct (p =b []); [|destruct (p =b lit "d"); [|done]]; intros [= <-];
      repeat apply Forall_cons_2; try apply Forall_nil_2; intros _;
      (split; [apply (bool_decide_unpack _); vm_compute; exact I|vm_compute; done]).
  - intros p scan path v [->|Hp]%elem_of_cons; [done|]. by apply elem_of_nil in Hp.
  - by intros p path_fs file e n Hp%elem_of_nil.
  - by intros p input e s Hp%elem_of_nil.
Qed.

Lemma Walk_texts_witness :
  exists m root' uris,
    @Walk sample_system sample_storage (sample_walk ALL) 4 NewRoot None = Some (m, root', uris) /\
    tree_ok sample_fmt180 root'.
Proof.
  do 3 eexists. split; [vm_compute; reflexivity|].
  eapply (@Walk_texts sample_system sample_storage (sample_walk ALL) sample_fmt180 (sample_laws ALL) (sample_texts ALL)
    4 NewRoot _ None).
  - apply wf_NewRoot.
  - constructor; try apply plain_nil; try apply Forall_nil_2. vm_compute. done.
  - exact I.
  - vm_compute. reflexivity.
Defined.
