(* ===== verification/WalkTermination.v ===== *)
(** The update terminates: the recursion into the file system is no deeper
    than there are pairs of an inode and a device number, because
    [FindAncestorLoop] refuses a directory with the numbers of one of its
    parents. *)
From S2P Require Import Prelude Text Songs Playlists Directory.
From S2P Require Import TagScan Storage SongUpdate CueValidator Editor Walk WalkWf.
Open Scope Z_scope.

(** ** What stays as it is in a directory whose contents change *)

Definition scalars (d : Directory) : bool * Z * Z * Z * bytes * option nat * bool :=
  (is_root d, mtime d, inode d, device d, path d, mounted_database d, mark d).

(** Case analysis on what an operation computes, down to its results. *)
Ltac cases_scalars :=
  repeat (case_match; simplify_eq/=; try done).

Section Scalars.
Context `{System} `{Storage} `{UpdateWalk}.

Lemma DeleteSong_scalars d i st : scalars (fst (DeleteSong d i st)) = scalars d.
Proof. unfold DeleteSong. by destruct (songs d !! i). Qed.

Lemma DeleteDirectory_scalars d i st : scalars (fst (DeleteDirectory d i st)) = scalars d.
Proof. unfold DeleteDirectory. by destruct (children d !! i). Qed.

Lemma DeleteNameIn_scalars d n st : scalars (snd (fst (DeleteNameIn d n st))) = scalars d.
Proof. unfold DeleteNameIn, DeleteDirectory, DeleteSong. cases_scalars. Qed.

Lemma DeleteIf_scalars pc ps d st : scalars (fst (DeleteIf pc ps d st)) = scalars d.
Proof. by rewrite DeleteIf_eq. Qed.

Lemma MakeChild_scalars d n : scalars (MakeChild d n) = scalars d.
Proof. unfold MakeChild. by destruct (FindChild d n). Qed.

Lemma make_virtual_scalars d n info dev : scalars (snd (make_virtual d n info dev)) = scalars d.
Proof.
  unfold make_virtual. rewrite <- (MakeChild_scalars d n). by destruct (FindChild_pos (MakeChild d n) n).
Qed.

Lemma MakeVirtual_scalars d n info dev st :
  scalars (snd (fst (MakeVirtualDirectoryIfModified d n info dev st))) = scalars d.
Proof.
  unfold MakeVirtualDirectoryIfModified. destruct (FindChild_pos d n) as [i|].
  - destruct (children d !! i) as [c|]; [|done]. destruct (IsMount c); [done|].
    destruct (_ && _); [done|]. pose proof (DeleteDirectory_scalars d i st) as Hd.
    destruct (DeleteDirectory d i st) as [d1 st1]. simpl in *. rewrite <- Hd. apply make_virtual_scalars.
  - apply make_virtual_scalars.
Qed.

Lemma UpdateContainerFile_scalars d n suffix info st :
  scalars (snd (fst (UpdateContainerFile d n suffix info st))) = scalars d.
Proof.
  unfold UpdateContainerFile. destruct (List.filter _ decoder_plugins) as [|p ps]; [done|].
  pose proof (MakeVirtual_scalars d n info DEVICE_CONTAINER st) as Hv.
  destruct (MakeVirtualDirectoryIfModified d n info DEVICE_CONTAINER st) as [[[i|] d1] st1]; [|exact Hv].
  simpl in Hv. destruct (children d1 !! i) as [c|] eqn:Ei; [|done].
  pose proof (DeleteDirectory_scalars d1 i st1) as Hd.
  destruct (storage_MapFS (path c)) as [pathname|];
    [destruct (container_tracks (p :: ps) pathname info); [|by rewrite <- Hv]|];
    destruct (DeleteDirectory d1 i st1); simpl in *; congruence.
Qed.

Lemma UpdateSongFile_scalars d n suffix info st :
  scalars (snd (fst (UpdateSongFile d n suffix info st))) = scalars d.
Proof.
  unfold UpdateSongFile, UpdateSongFile2. destruct (negb _); [done|]. destruct (negb _); [done|]. cbv zeta.
  generalize (match find_song d n with
    Some (_, s) => (fi_mtime info =? s_mtime s) && negb walk_discard | None => false end). intros u.
  assert (scalars (snd (fst (if negb u then UpdateContainerFile d n suffix info st else (false, d, st)))) = scalars d)
    as Hc by (destruct u; [done|apply UpdateContainerFile_scalars]).
  destruct (if negb u then _ else _) as [[is_container d1] st1]. simpl in Hc. rewrite <- Hc.
  destruct is_container; [done|]. destruct (find_song d n) as [[i s]|].
  - destruct (_ || _); [|done]. unfold ReloadSongFile. destruct (UpdateFile _ _ _ _ _) as [s'|]; [|done].
    pose proof (DeleteSong_scalars (set_song d1 i s') i st1) as Hd.
    destruct (negb (ShouldIncludeSong _ _)); [|reflexivity].
    by destruct (DeleteSong (set_song d1 i s') i st1).
  - unfold AddSongFile. destruct (LoadFile _ _ _ _ _); [|done]. by destruct (negb (ShouldIncludeSong _ _)).
Qed.

Lemma UpdateArchiveFile_scalars chain d n suffix info st :
  scalars (snd (fst (UpdateArchiveFile chain d n suffix info st))) = scalars d.
Proof.
  unfold UpdateArchiveFile. destruct (archive_plugin_from_suffix suffix) as [plugin|]; [|done].
  unfold UpdateArchiveFile_plugin. destruct (MapChildFS _ _); [|done].
  pose proof (MakeVirtual_scalars d n info DEVICE_INARCHIVE st) as Hv.
  destruct (MakeVirtualDirectoryIfModified d n info DEVICE_INARCHIVE st) as [[[i|] d1] st1]; [|exact Hv].
  simpl in Hv. destruct (archive_file_open plugin _); [|done]. destruct (children d1 !! i); [|done].
  by destruct (VisitArchive _ _ _ _ _).
Qed.

Lemma UpdatePlaylistFile_scalars d n suffix info st :
  scalars (snd (fst (UpdatePlaylistFile d n suffix info st))) = scalars d.
Proof.
  unfold UpdatePlaylistFile. destruct (FindPlaylistPluginBySuffix suffix) as [plugin|]; [|done].
  destruct (_ && _); [done|]. destruct (_ || _); [done|].
  assert (scalars (fst (if as_folder plugin then UpdatePlaylistFile_plugin d n info plugin st else (d, st)))
    = scalars d) as Hp.
  { destruct (as_folder plugin); [|done]. unfold UpdatePlaylistFile_plugin.
    pose proof (MakeVirtual_scalars d n info DEVICE_PLAYLIST st) as Hv.
    destruct (MakeVirtualDirectoryIfModified d n info DEVICE_PLAYLIST st) as [[[i|] d1] st1]; [|exact Hv].
    simpl in Hv. destruct (children d1 !! i) as [c|]; [|done]. rewrite <- Hv.
    destruct (rbind _ _) as [[e|]|]; [|apply DeleteDirectory_scalars..].
    cbv zeta. destruct (_ || _); [|done]. by rewrite DeleteDirectory_scalars. }
  destruct (if as_folder plugin then _ else _) as [d1 st1]. simpl in Hp.
  by destruct (UpdateOrInsert _ _).
Qed.

Lemma UpdateRegularFile_scalars chain d n info st :
  scalars (snd (fst (UpdateRegularFile chain d n info st))) = scalars d.
Proof.
  unfold UpdateRegularFile. destruct (GetFilenameSuffix n) as [suffix|]; [|done].
  pose proof (UpdateSongFile_scalars d n suffix info st) as Hs.
  destruct (UpdateSongFile d n suffix info st) as [[[|] d1] st1]; [done|].
  pose proof (UpdateArchiveFile_scalars chain d1 n suffix info st1) as Ha.
  destruct (UpdateArchiveFile chain d1 n suffix info st1) as [[[|] d2] st2]; simpl in *; [congruence|].
  rewrite <- Hs, <- Ha. apply UpdatePlaylistFile_scalars.
Qed.

Lemma UnmarkAllIn_scalars d : scalars (UnmarkAllIn d) = scalars d.
Proof. done. Qed.

Lemma PurgeDeleted_scalars d st : scalars (fst (PurgeDeletedFromDirectory d st)) = scalars d.
Proof.
  unfold PurgeDeletedFromDirectory.
  pose proof (DeleteIf_scalars (fun child => negb (IsMount child) && negb (mark child))
    (fun song => negb (s_mark song)) d st) as Hd. by destruct (DeleteIf _ _ d st).
Qed.
End Scalars.

(** ** The numbers of the directories on the way to the root *)

Definition ids (d : Directory) : Z * Z := (inode d, device d).
Definition no_id : Z * Z := (0, 0).

Lemma scalars_ids d d' : scalars d' = scalars d -> ids d' = ids d.
Proof. unfold scalars, ids. by intros [= _ _ -> -> _ _ _]. Qed.

(** [up'] has the known numbers of [up]. *)
Definition same_ids (up up' : list Directory) : Prop :=
  Forall2 (fun a a' => ids a = no_id \/ ids a' = ids a) up up'.

#[export] Instance same_ids_preorder : PreOrder same_ids.
Proof.
  split.
  - intros up. apply Forall_Forall2_diag, Forall_forall. by right.
  - intros u1 u2 u3 Ha Hb. revert u3 Hb. induction Ha as [|a b u1 u2 Hab _ IH]; intros u3 Hb; [done|].
    inversion Hb as [|? c ? u3' Hbc Hrest]; subst. constructor; [|by apply IH].
    destruct Hab as [|Hab]; [by left|]. rewrite <- Hab. destruct Hbc as [|Hbc]; [by left|by right].
Qed.

Definition id_eq_dec : EqDecision (Z * Z) := _.

(** How many of the pairs [S] no directory of [up] has. *)
Definition fresh (S : list (Z * Z)) (up : list Directory) : nat :=
  length (List.filter (fun p => negb (bool_decide (p ∈ ids <$> up))) S).

Lemma fresh_mono S up up' : (forall p, p ∈ S -> p ∈ ids <$> up -> p ∈ ids <$> up') ->
  (fresh S up' <= fresh S up)%nat.
Proof.
  unfold fresh. induction S as [|p S IH]; intros Hsub; [done|]. simpl.
  assert (length (List.filter (fun q => negb (bool_decide (q ∈ ids <$> up'))) S) <=
    length (List.filter (fun q => negb (bool_decide (q ∈ ids <$> up))) S))%nat as IH'
    by (apply IH; intros q Hq; apply Hsub; by right).
  case_bool_decide as E'; case_bool_decide as E; simpl; try lia.
  exfalso. apply E', Hsub; [by left|done].
Qed.

Lemma fresh_same S up up' : no_id ∉ S -> same_ids up up' -> (fresh S up' <= fresh S up)%nat.
Proof.
  intros H0 Hs. apply fresh_mono. intros p Hp (a & -> & Ha)%list_elem_of_fmap.
  apply list_elem_of_lookup in Ha as [i Hi]. destruct (Forall2_lookup_l _ _ _ _ _ Hs Hi) as (a' & Hi' & [Hz|Heq]).
  - by rewrite Hz in Hp.
  - rewrite <- Heq. apply list_elem_of_fmap_2. by eapply list_elem_of_lookup_2.
Qed.

Lemma fresh_cons S up d : ids d ∈ S -> ids d ∉ ids <$> up -> (fresh S (d :: up) < fresh S up)%nat.
Proof.
  unfold fresh. induction S as [|p S IH]; intros Hin Hni; [by apply not_elem_of_nil in Hin|]. cbn [List.filter].
  assert (length (List.filter (fun q => negb (bool_decide (q ∈ ids <$> d :: up))) S) <=
    length (List.filter (fun q => negb (bool_decide (q ∈ ids <$> up))) S))%nat as Hle.
  { apply (fresh_mono S up (d :: up)). intros q _ Hq. by right. }
  apply elem_of_cons in Hin as [<-|Hin].
  - rewrite (bool_decide_true (ids d ∈ ids <$> d :: up)) by (by left).
    rewrite (bool_decide_false (ids d ∈ ids <$> up)) by done. cbn [negb length]. lia.
  - specialize (IH Hin Hni).
    assert (bool_decide (p ∈ ids <$> up) = true -> bool_decide (p ∈ ids <$> d :: up) = true) as Himp.
    { intros E%bool_decide_eq_true. apply bool_decide_eq_true. by right. }
    destruct (bool_decide (p ∈ ids <$> up)); [rewrite Himp by done; cbn [negb]; exact IH|].
    destruct (bool_decide (p ∈ ids <$> d :: up)); cbn [negb length]; lia.
Qed.

(** ** Termination *)

(** The numbers of every directory the storage reports are known and are
    one of the finitely many pairs [S]. *)
Class FiniteStorage `{Storage} (S : list (Z * Z)) : Prop := {
  ids_known : no_id ∉ S;
  reader_ids : forall p entries name info, storage_OpenDirectory p = Ok entries ->
    (name, Ok info) ∈ entries -> IsDirectory info = true -> (fi_inode info, fi_device info) ∈ S;
  info_ids : forall p info, storage_GetInfo p = Ok info -> IsDirectory info = true ->
    (fi_inode info, fi_device info) ∈ S }.

Section Termination.
Context `{System} `{Storage} `{UpdateWalk} (S : list (Z * Z)) `{!FiniteStorage S}.

Lemma FindAncestorLoop_from_spec i v chain : forall r up, FindAncestorLoop_from chain i v = (r, up) ->
  same_ids chain up /\ (r = 0 -> (i, v) ∉ ids <$> up).
Proof.
  induction chain as [|p chain IH]; intros r up; cbn [FindAncestorLoop_from].
  { intros [= <- <-]. split; [done|]. intros _. apply not_elem_of_nil. }
  assert (forall p', (if (device p =? 0) && (inode p =? 0) then update_directory_stat p else Some p) = Some p' ->
    ids p = no_id \/ ids p' = ids p) as Hp.
  { intros p'. destruct ((device p =? 0) && (inode p =? 0)) eqn:E; [|intros [= <-]; by right].
    reflect_bools. intros _. left. unfold ids, no_id. by f_equal. }
  destruct (if (device p =? 0) && (inode p =? 0) then _ else _) as [p'|].
  - specialize (Hp p' eq_refl). destruct ((inode p' =? i) && (device p' =? v)) eqn:E.
    + intros [= <- <-]. split; [|done]. by constructor.
    + destruct (FindAncestorLoop_from chain i v) as [r0 up0]. intros [= <- <-].
      destruct (IH r0 up0 eq_refl) as [Hs Hr]. split; [by constructor|]. intros Hz.
      rewrite fmap_cons. apply not_elem_of_cons. split; [|by apply Hr]. unfold ids. intros [= Hi Hv].
      by rewrite Hi, Hv, !Z.eqb_refl in E.
  - intros [= <- <-]. split; [done|done].
Qed.

Lemma FindAncestorLoop_spec chain i v r up : FindAncestorLoop chain i v = (r, up) ->
  same_ids chain up /\ (r = 0 -> (i, v) ∈ S -> (i, v) ∉ ids <$> up).
Proof.
  unfold FindAncestorLoop. destruct ((v =? 0) && (i =? 0)) eqn:E.
  - reflect_bools. subst. intros [= <- <-]. split; [done|]. intros _ Hin. by destruct (ids_known Hin).
  - intros Hf. apply FindAncestorLoop_from_spec in Hf as [Hs Hr]. split; [done|]. auto.
Qed.

Lemma sync_stat_ids d up a chain : same_ids (a :: chain) up ->
  ids <$> (fst (sync_stat d up) :: snd (sync_stat d up)) = ids <$> up.
Proof. inversion 1; subst. done. Qed.

Lemma same_ids_fmap up up1 up2 : same_ids up up1 -> ids <$> up1 = ids <$> up2 -> same_ids up up2.
Proof.
  intros Hs. revert up2. induction Hs as [|a b up up1 Hab Hs IH]; intros [|c up2] E; try done.
  rewrite !fmap_cons in E. injection E as Ei Ev E. constructor; [|by apply IH].
  assert (ids b = ids c) as <- by (unfold ids; congruence). done.
Qed.

Section Rec.
Context (n : nat) (update_directory : list Directory -> Directory -> ExcludeList -> StorageFileInfo -> WalkState ->
  option (bool * Directory * list Directory * WalkState)).
Context (update_directory_total : forall chain d ex info st,
  (fresh S (directory_set_stat d info :: chain) < n)%nat ->
  exists r d' up st', update_directory chain d ex info st = Some (r, d', up, st') /\ same_ids chain up).

Lemma UpdateDirectoryChild_total chain d ex name info st : (fresh S (d :: chain) <= n)%nat ->
  (IsDirectory info = true -> (fi_inode info, fi_device info) ∈ S) ->
  exists d' chain' st', UpdateDirectoryChild update_directory chain d ex name info st = Some (d', chain', st') /\
    same_ids (d :: chain) (d' :: chain').
Proof.
  intros Hfresh Hid. unfold UpdateDirectoryChild. destruct (IsRegular info).
  { pose proof (UpdateRegularFile_scalars chain d name info st) as Hsc.
    destruct (UpdateRegularFile chain d name info st) as [[b d1] st1]. do 3 eexists. split; [done|].
    constructor; [right; by apply scalars_ids|reflexivity]. }
  destruct (IsDirectory info) eqn:Edir; [|do 3 eexists; split; [done|reflexivity]].
  specialize (Hid eq_refl).
  destruct (FindAncestorLoop _ _ _) as [found up] eqn:Ef. apply FindAncestorLoop_spec in Ef as [Hs Hnew].
  pose proof (sync_stat_ids d up d chain Hs) as Hids. destruct (sync_stat d up) as [d1 chain1]. cbn [fst snd] in Hids.
  assert (same_ids (d :: chain) (d1 :: chain1)) as Hs1 by by apply (same_ids_fmap _ up).
  destruct (found =? 0) eqn:E0; cbn [negb]; [|do 3 eexists; by split]. reflect_bools.
  set (d2 := MakeChild d1 name).
  assert (same_ids (d :: chain) (d2 :: chain1)) as Hs2.
  { apply (same_ids_fmap _ _ _ Hs1). rewrite !fmap_cons. f_equal. symmetry. apply scalars_ids, MakeChild_scalars. }
  destruct (FindChild_pos d2 name ≫= _) as [[i c]|]; [|do 3 eexists; by split].
  destruct (update_directory_total (d2 :: chain1) c ex info st) as (r & c' & up' & st' & -> & Hs3).
  { assert (ids (directory_set_stat c info) = (fi_inode info, fi_device info)) as Hc by done.
    enough (fresh S (directory_set_stat c info :: d2 :: chain1) < fresh S (d2 :: chain1))%nat.
    { pose proof (fresh_same S _ _ ids_known Hs2). lia. }
    apply fresh_cons; rewrite Hc; [done|].
    assert (ids <$> d2 :: chain1 = ids <$> up) as ->; [|by apply Hnew].
    rewrite <- Hids, !fmap_cons. f_equal. apply scalars_ids, MakeChild_scalars. }
  pose proof (sync_stat_ids d2 up' d2 chain1 Hs3) as Hids2.
  destruct (sync_stat d2 up') as [d3 chain3]. cbn [fst snd] in Hids2.
  assert (same_ids (d :: chain) (d3 :: chain3)) as Hs4.
  { transitivity (d2 :: chain1); [done|]. by apply (same_ids_fmap _ up'). }
  destruct r; [do 3 eexists; split; [done|]; by apply (same_ids_fmap _ _ _ Hs4)|].
  pose proof (DeleteDirectory_scalars (set_child d3 i c') i st') as Hd.
  destruct (DeleteDirectory _ i st') as [d4 st4]. do 3 eexists. split; [done|].
  apply (same_ids_fmap _ _ _ Hs4). rewrite !fmap_cons. f_equal. symmetry. by apply scalars_ids.
Qed.

Lemma read_entries_total ex entries :
  (forall name info, (name, Ok info) ∈ entries -> IsDirectory info = true -> (fi_inode info, fi_device info) ∈ S) ->
  forall chain d st, (fresh S (d :: chain) <= n)%nat ->
  exists d' chain' st', read_entries update_directory ex entries chain d st = Some (d', chain', st') /\
    same_ids (d :: chain) (d' :: chain').
Proof.
  induction entries as [|[name info] entries IH]; intros Hid chain d st Hfresh; cbn [read_entries];
    (destruct (cancel (ticks st)); [do 3 eexists; split; [done|reflexivity]|]);
    [do 3 eexists; split; [done|reflexivity]|].
  assert (forall d1 st1, scalars d1 = scalars d -> exists d' chain' st',
    read_entries update_directory ex entries chain d1 st1 = Some (d', chain', st') /\
    same_ids (d :: chain) (d' :: chain')) as Hnext.
  { intros d1 st1 Hd1. assert (same_ids (d :: chain) (d1 :: chain)) as Hs.
    { constructor; [right; by apply scalars_ids|reflexivity]. }
    destruct (IH ltac:(intros; eapply Hid; [by right|done]) chain d1 st1) as (d' & chain' & st' & E & Hs').
    { pose proof (fresh_same S _ _ ids_known Hs). lia. }
    do 3 eexists. split; [exact E|]. by transitivity (d1 :: chain). }
  destruct (skip_path name); [by apply Hnext|].
  destruct (match PathFromUTF8 name with None => true | Some _ => _ end); [by apply Hnext|].
  pose proof (DeleteNameIn_scalars d name (tick st)) as Hk.
  destruct (SkipSymlink (d :: chain) name).
  { destruct (DeleteNameIn d name (tick st)) as [[m d1] st1]. by apply Hnext. }
  destruct info as [info'|]; cbn [ok_or_none].
  - destruct (UpdateDirectoryChild_total chain d ex name info' (tick st) Hfresh)
      as (d1 & chain1 & st1 & -> & Hs); [eapply Hid; by left|].
    destruct (IH ltac:(intros; eapply Hid; [by right|done]) chain1 d1 st1) as (d' & chain' & st' & E & Hs').
    { pose proof (fresh_same S _ _ ids_known Hs). lia. }
    do 3 eexists. split; [exact E|]. by transitivity (d1 :: chain1).
  - destruct (DeleteNameIn d name (tick st)) as [[m d1] st1]. by apply Hnext.
Qed.
End Rec.

Lemma UpdateDirectory_total fuel : forall chain d ex info st,
  (fresh S (directory_set_stat d info :: chain) < fuel)%nat ->
  exists r d' up st', UpdateDirectory fuel chain d ex info st = Some (r, d', up, st') /\ same_ids chain up.
Proof.
  induction fuel as [|fuel IH]; intros chain d ex info st Hfresh; [lia|]. cbn [UpdateDirectory].
  set (d0 := directory_set_stat d info) in *.
  destruct (storage_OpenDirectory (path d0)) as [reader|] eqn:Er; [|do 4 eexists; split; [done|reflexivity]].
  set (cex := LoadExcludeList d0 (ExcludeList_of ex)).
  assert (scalars (fst (if negb (ExcludeList_IsEmpty cex) then RemoveExcludedFromDirectory d0 cex st else (d0, st)))
    = scalars d0) as Hk1 by (destruct (negb _); [apply DeleteIf_scalars|done]).
  destruct (if negb (ExcludeList_IsEmpty cex) then _ else _) as [d1 st1]. cbn [fst] in Hk1.
  assert (same_ids (d0 :: chain) (UnmarkAllIn d1 :: chain)) as Hs1.
  { constructor; [right; by apply scalars_ids|reflexivity]. }
  destruct (read_entries_total fuel (UpdateDirectory fuel) IH cex reader
    (fun name info' => reader_ids _ _ name info' Er) chain (UnmarkAllIn d1) st1) as (d2 & up & st2 & -> & Hs2).
  { pose proof (fresh_same S _ _ ids_known Hs1). lia. }
  destruct (PurgeDeletedFromDirectory d2 st2) as [d3 st3]. do 4 eexists. split; [done|].
  inversion Hs2; by subst.
Qed.

Lemma fresh_le up : (fresh S up <= length S)%nat.
Proof. apply filter_length_le. Qed.

Lemma UpdateUri_from_total fuel segs uri : (length S < fuel)%nat -> forall chain d st,
  exists r, UpdateUri_from (UpdateDirectory fuel) segs uri chain d st = Some r.
Proof.
  intros Hfuel. induction segs as [|name rest IH]; intros chain d st; [|destruct rest as [|r rest]].
  1-2: cbn [UpdateUri_from]; unfold UpdateUri_in;
    destruct (SkipSymlink _ _); [destruct (DeleteNameIn d (GetBase uri) st) as [[? ?] ?]; by eexists|];
    destruct (GetInfo uri) as [info|] eqn:Ei;
      [|destruct (DeleteNameIn d (GetBase uri) st) as [[? ?] ?]; by eexists];
    edestruct (UpdateDirectoryChild_total fuel (UpdateDirectory fuel)) as (d' & c' & s' & -> & _);
      [apply UpdateDirectory_total|pose proof (fresh_le (d :: chain)); lia| |by eexists];
    unfold GetInfo in Ei; destruct (storage_GetInfo uri) eqn:Eg; [|done]; injection Ei as ->;
    by eapply info_ids.
  rewrite UpdateUri_from_cons. destruct (name =b []); [apply IH|].
  destruct (DirectoryMakeChildChecked chain d name name st) as [[[[i|] d1] chain1] st1]; [|by eexists].
  destruct (children d1 !! i) as [c|]; [|by eexists].
  destruct (IH (d1 :: chain1) c st1) as [[[c' up] st2] ->].
  destruct (sync_stat d1 up) as [d2 chain2]. by eexists.
Qed.
End Termination.

Lemma Walk_total `{System} `{Storage} `{UpdateWalk} (S : list (Z * Z)) (Hfinite : FiniteStorage S)
  (fuel : nat) (root : Directory) (uri : option bytes) (Hfuel : (length S < fuel)%nat) :
  exists m root' uris, Walk fuel root uri = Some (m, root', uris).
Proof.
  unfold Walk. cbv zeta.
  destruct (match uri with Some p => if isRootDirectory p then None else Some p | None => None end) as [p|].
  - unfold UpdateUri. edestruct (UpdateUri_from_total S fuel) as [[[root1 up] st1] ->]; [done|].
    destruct (PurgeDanglingFromPlaylists _ _) as [root2 st2]. by do 3 eexists.
  - destruct (GetInfo []) as [info|]; [|by do 3 eexists].
    destruct (negb (IsDirectory info)); [by do 3 eexists|].
    edestruct (UpdateDirectory_total S fuel) as (r & root1 & up & st1 & -> & _).
    { eapply Nat.le_lt_trans; [apply fresh_le|exact Hfuel]. }
    destruct (PurgeDanglingFromPlaylists _ _) as [root2 st2]. by do 3 eexists.
Qed.

(** ** Properties *)

(** C2: an update terminates: if the directories of the storage have one of
    finitely many known pairs of inode and device numbers, a recursion one
    deeper than their number always suffices, whatever the shape of the
    storage (links that lead back included) and of the tree before. *)
Theorem Walk_terminates `{System} `{Storage} `{UpdateWalk} (S : list (Z * Z)) (Hfinite : FiniteStorage S)
  (fuel : nat) (root : Directory) (uri : option bytes) (Hfuel : (length S < fuel)%nat) :
  exists m root' uris, Walk fuel root uri = Some (m, root', uris).
Proof. by apply (Walk_total S). Qed.

(** A storage of infinite depth: a link in every directory leads to the
    same one. *)
Definition loop_storage : Storage :=
  {| storage_GetInfo := fun p => if p =b [] then Ok sample_dir else Ok sample_subdir;
     storage_OpenDirectory := fun _ => Ok [(lit "loop", Ok sample_subdir); (lit "a.flac", sample_regular)];
     storage_OpenFile := fun p => Throw (lit "ENOENT");
     storage_MapFS := fun p => Some (lit "/music/" ++ p);
     storage_MapToRelativeUTF8 := fun p => after_prefix p (lit "/music/");
     ReadLink := fun _ => NotALink;
     access_denied := fun _ => false;
     fnmatch := fun p n => p =b n |}.

Lemma loop_finite : @FiniteStorage loop_storage [(7, 3); (8, 3)].
Proof.
  split.
  - apply (bool_decide_unpack _). vm_compute. exact I.
  - intros p entries name info [= <-] Hin Hdir.
    apply elem_of_cons in Hin as [[= _ ->]|Hin]; [right; by left|].
    apply list_elem_of_singleton in Hin as [= _ ->]. done.
  - intros p info Hp Hdir. cbn [storage_GetInfo loop_storage] in Hp.
    destruct (p =b []); injection Hp as <-; [by left|right; by left].
Qed.

Lemma Walk_terminates_witness :
  exists m root' uris,
    @Walk sample_system loop_storage (sample_walk ALL) 3 NewRoot None = Some (m, root', uris).
Proof.
  apply (@Walk_terminates sample_system loop_storage (sample_walk ALL) [(7, 3); (8, 3)] loop_finite 3 NewRoot None).
  simpl. lia.
Defined.
