(* ===== verification/WalkSound.v ===== *)
(** What an update leaves in the tree is what the storage has: every song
    of a directory that is not virtual is a readable regular file that its
    reader returned, with a suffix a decoder supports and with the time
    stamp of the file; after a full rescan it also passes the channel
    filter and has clean tags. *)
From S2P Require Import Prelude Text Tags Songs Playlists Directory.
From S2P Require Import TagScan Storage SongUpdate CueValidator Editor Walk WalkWf WalkTermination.
Open Scope Z_scope.

Section Sound.
Context `{System} `{Storage} `{UpdateWalk}.

(** The song [s] of the directory with the path [p] is one of its files. *)
Definition scanned_song (p : bytes) (s : Song) : Prop :=
  exists entries info suffix,
    storage_OpenDirectory p = Ok entries /\ (filename s, Ok info) ∈ entries /\ IsRegular info = true /\
    s_mtime s = fi_mtime info /\
    GetFilenameSuffix (filename s) = Some suffix /\
    decoder_plugins_supports_suffix decoder_plugins suffix = true /\
    (forall path_fs, MapChildFS p (filename s) = Some path_fs -> access_denied path_fs = false) /\
    (walk_discard = true -> ShouldIncludeSong channel_mode s = true /\ tag_ok tag_mask (s_tag s)).

(** The whole tree, down to mount points and virtual directories. *)
Inductive scanned : Directory -> Prop :=
| scanned_intro d :
    Forall (scanned_song (path d)) (songs d) ->
    Forall (fun c => IsMount c = true \/ IsReallyAFile c = true \/ scanned c) (children d) -> scanned d.

Definition child_fine (c : Directory) : Prop := IsMount c = true \/ IsReallyAFile c = true \/ scanned c.

Lemma scanned_inv d : scanned d -> Forall (scanned_song (path d)) (songs d) /\ Forall child_fine (children d).
Proof. by inversion 1. Qed.

(** During the scan of a directory, this holds of what is marked. *)
Definition marked_fine (d : Directory) : Prop :=
  Forall (fun s => s_mark s = true -> scanned_song (path d) s) (songs d) /\
  Forall (fun c => mark c = true -> child_fine c) (children d).

Lemma marked_fine_sub d d' : path d' = path d -> sublist (songs d') (songs d) ->
  sublist (children d') (children d) -> marked_fine d -> marked_fine d'.
Proof.
  intros Hp Hs Hc [Hms Hmc]. unfold marked_fine. rewrite Hp.
  split; [by eapply sublist_Forall|by eapply sublist_Forall].
Qed.

Lemma marked_fine_same d d' : path d' = path d -> songs d' = songs d -> children d' = children d ->
  marked_fine d -> marked_fine d'.
Proof. intros Hp Hs Hc. apply marked_fine_sub; [done|by rewrite Hs|by rewrite Hc]. Qed.

Lemma scalars_path d d' : scalars d' = scalars d -> path d' = path d.
Proof. unfold scalars. by intros [= _ _ _ _ -> _ _]. Qed.

Lemma DeleteSong_fine d i st : marked_fine d -> marked_fine (fst (DeleteSong d i st)).
Proof.
  apply marked_fine_sub; [by rewrite (scalars_path _ _ (DeleteSong_scalars d i st))| |];
    unfold DeleteSong; destruct (songs d !! i); try done. apply sublist_delete.
Qed.

Lemma DeleteDirectory_fine d i st : marked_fine d -> marked_fine (fst (DeleteDirectory d i st)).
Proof.
  apply marked_fine_sub; [by rewrite (scalars_path _ _ (DeleteDirectory_scalars d i st))| |];
    unfold DeleteDirectory; destruct (children d !! i); try done. apply sublist_delete.
Qed.

Lemma DeleteNameIn_fine d n st : marked_fine d -> marked_fine (snd (fst (DeleteNameIn d n st))).
Proof.
  intros Hd. unfold DeleteNameIn.
  assert (marked_fine (snd (fst (match FindChild_pos d n with
    | Some i => let '(parent, st) := DeleteDirectory d i st in (true, parent, st)
    | None => (false, d, st) end)))) as Hc.
  { destruct (FindChild_pos d n) as [i|]; [|done]. pose proof (DeleteDirectory_fine d i st Hd) as Hk.
    by destruct (DeleteDirectory d i st). }
  destruct (match FindChild_pos d n with Some _ => _ | None => _ end) as [[m1 d1] st1]. simpl in Hc.
  assert (marked_fine (snd (fst (match FindSong_pos d1 n with
    | Some i => let '(parent, st) := DeleteSong d1 i st1 in (true, parent, st)
    | None => (false, d1, st1) end)))) as Hs.
  { destruct (FindSong_pos d1 n) as [i|]; [|done]. pose proof (DeleteSong_fine d1 i st1 Hc) as Hk.
    by destruct (DeleteSong d1 i st1). }
  by destruct (match FindSong_pos d1 n with Some _ => _ | None => _ end) as [[m2 d2] st2].
Qed.

(** A child that is fine takes the place of another. *)
Lemma set_child_fine d i c : marked_fine d -> (mark c = true -> child_fine c) -> marked_fine (set_child d i c).
Proof. intros [Hs Hc] Hf. split; [done|]. by apply Forall_insert. Qed.

Lemma set_song_fine d i s : marked_fine d -> (s_mark s = true -> scanned_song (path d) s) ->
  marked_fine (set_song d i s).
Proof. intros [Hs Hc] Hf. split; [|done]. by apply Forall_insert. Qed.

Lemma AddSong_fine d s : marked_fine d -> (s_mark s = true -> scanned_song (path d) s) ->
  marked_fine (AddSong d s).
Proof. intros [Hs Hc] Hf. split; [|done]. apply Forall_app. split; [done|]. by apply Forall_singleton. Qed.

Lemma snoc_fine d l c : marked_fine d -> sublist l (children d) -> (mark c = true -> child_fine c) ->
  marked_fine (with_children d (l ++ [c])).
Proof.
  intros [Hs Hc] Hl Hf. split; [done|]. apply Forall_app. split; [by eapply sublist_Forall|].
  by apply Forall_singleton.
Qed.

Lemma MakeChild_fine d n : marked_fine d -> marked_fine (MakeChild d n).
Proof.
  intros Hd. unfold MakeChild. destruct (FindChild d n); [done|]. destruct d. by apply snoc_fine.
Qed.

(** ** Regular files *)

(** The three special values are those of "really a file". *)
Definition special (dev : Z) : Prop := dev = DEVICE_INARCHIVE \/ dev = DEVICE_CONTAINER \/ dev = DEVICE_PLAYLIST.

Lemma special_fine c dev : device c = dev -> special dev -> child_fine c.
Proof.
  intros Hd Hs. right. left. unfold IsReallyAFile, IsPlaylist. rewrite Hd.
  by destruct Hs as [->|[->| ->]].
Qed.

(** What [MakeVirtualDirectoryIfModified] returns is fine, and stays so if
    the new child is replaced or deleted. *)
Lemma MakeVirtual_fine d name info dev st o d' st' : wf d -> name_ok name -> special dev -> marked_fine d ->
  MakeVirtualDirectoryIfModified d name info dev st = (o, d', st') ->
  marked_fine d' /\ songs d' = songs d /\ path d' = path d /\
  match o with
  | None => True
  | Some i => exists c, children d' !! i = Some c /\ device c = dev /\
      forall c', device c' = dev -> marked_fine (set_child d' i c')
  end.
Proof.
  intros Hw Hn Hdev Hd E. pose proof (MakeVirtual_outcome d name info dev st Hw Hn) as Hout. rewrite E in Hout.
  destruct Hout as [(i & c & Hc & Hname & [[Hm [= -> -> ->]]|(Hm & _ & Hdc & _ & [= -> -> ->])])|
    (l & st1 & Hl & Hni & _ & [= -> -> ->])].
  - done.
  - split; [|done]. apply set_child_fine; [done|]. intros _. by apply (special_fine _ dev).
  - split; [apply snoc_fine; [done|done|intros _; by apply (special_fine _ dev)]|]. split; [done|]. split; [done|].
    exists (virtual_dir d name info dev). split; [apply snoc_lookup|]. split; [done|].
    intros c' Hc'. rewrite snoc_set_child. apply snoc_fine; [done|done|]. intros _. by apply (special_fine _ dev).
Qed.

Lemma fold_AddSong_device tracks d : device (fold_left AddSong tracks d) = device d.
Proof. by rewrite fold_AddSong. Qed.

Lemma UpdateContainerFile_fine d name suffix info st : wf d -> name_ok name -> marked_fine d ->
  marked_fine (snd (fst (UpdateContainerFile d name suffix info st))).
Proof.
  intros Hw Hn Hd. unfold UpdateContainerFile. destruct (List.filter _ decoder_plugins) as [|p ps]; [done|].
  destruct (MakeVirtualDirectoryIfModified d name info DEVICE_CONTAINER st) as [[o d1] st1] eqn:E.
  apply MakeVirtual_fine in E as (Hd1 & _ & _ & Ho); [|done|done|by right; left|done].
  destruct o as [i|]; [|done]. destruct Ho as (c & -> & Hc & Hset).
  pose proof (DeleteDirectory_fine d1 i st1 Hd1) as Hdel.
  destruct (storage_MapFS (path c)) as [pathname|]; [|by destruct (DeleteDirectory d1 i st1)].
  destruct (container_tracks (p :: ps) pathname info) as [|t ts]; [by destruct (DeleteDirectory d1 i st1)|].
  apply Hset. by rewrite fold_AddSong_device.
Qed.

Lemma UpdateArchiveTree_device archive segs : forall chain d st,
  device (fst (UpdateArchiveTree archive chain d segs st)) = device d.
Proof.
  destruct segs as [|name rest]; intros chain d st; [done|]. cbn [UpdateArchiveTree]. destruct rest as [|r rest].
  - destruct (negb _); [done|]. destruct (find_song d name) as [[i s]|].
    + destruct (UpdateFileInArchive _ _ _ _ _); [done|].
      pose proof (DeleteSong_scalars d i st) as Hd. unfold scalars in Hd. congruence.
    + by destruct (LoadFromArchive _ _ _ _ _).
  - destruct (negb _); [done|]. pose proof (MakeChild_scalars d name) as Hm. unfold scalars in Hm.
    destruct (FindChild_pos (MakeChild d name) name ≫= _) as [[i c]|]; [|cbn [fst]; congruence].
    destruct (UpdateArchiveTree archive _ _ (r :: rest) st) as [c' st']. cbn [fst]. simpl. congruence.
Qed.

Lemma VisitArchive_device archive chain entries : forall d st,
  device (fst (VisitArchive archive chain d entries st)) = device d.
Proof.
  induction entries as [|e entries IH]; intros d st; [done|]. cbn [VisitArchive].
  pose proof (UpdateArchiveTree_device archive (IterableSplitString e SEPARATOR) chain d st) as Hd.
  destruct (UpdateArchiveTree archive chain d _ st) as [d1 st1]. rewrite IH. exact Hd.
Qed.

Lemma UpdateArchiveFile_fine chain d name suffix info st : wf d -> name_ok name -> marked_fine d ->
  marked_fine (snd (fst (UpdateArchiveFile chain d name suffix info st))).
Proof.
  intros Hw Hn Hd. unfold UpdateArchiveFile. destruct (archive_plugin_from_suffix suffix) as [plugin|]; [|done].
  unfold UpdateArchiveFile_plugin. destruct (MapChildFS _ _) as [path_fs|]; [|done].
  destruct (MakeVirtualDirectoryIfModified d name info DEVICE_INARCHIVE st) as [[o d1] st1] eqn:E.
  apply MakeVirtual_fine in E as (Hd1 & _ & _ & Ho); [|done|done|by left|done].
  destruct o as [i|]; [|done]. destruct Ho as (c & -> & Hc & Hset).
  destruct (archive_file_open plugin path_fs) as [file|]; [|done].
  pose proof (VisitArchive_device file (d1 :: chain) (archive_entries file) c st1) as Hv.
  destruct (VisitArchive _ _ _ _ _) as [c' st2]. cbn [fst snd] in *. apply Hset. simpl. congruence.
Qed.

Lemma add_tracks_device contents : forall d track, device (add_tracks d track contents) = device d.
Proof. induction contents as [|s contents IH]; intros d track; [done|]. cbn [add_tracks]. by rewrite IH. Qed.

Lemma UpdatePlaylistFile_fine d name suffix info st : wf d -> name_ok name -> marked_fine d ->
  marked_fine (snd (fst (UpdatePlaylistFile d name suffix info st))).
Proof.
  intros Hw Hn Hd. unfold UpdatePlaylistFile. destruct (FindPlaylistPluginBySuffix suffix) as [plugin|]; [|done].
  destruct (_ && _); [done|]. destruct (_ || _); [done|].
  assert (marked_fine (fst (if as_folder plugin then UpdatePlaylistFile_plugin d name info plugin st else (d, st))))
    as Hp.
  { destruct (as_folder plugin); [|done]. unfold UpdatePlaylistFile_plugin.
    destruct (MakeVirtualDirectoryIfModified d name info DEVICE_PLAYLIST st) as [[o d1] st1] eqn:E.
    apply MakeVirtual_fine in E as (Hd1 & _ & _ & Ho); [|done|done|by right; right|done].
    destruct o as [i|]; [|done]. destruct Ho as (c & -> & Hc & Hset).
    destruct (rbind _ _) as [[e|]|]; [|by apply DeleteDirectory_fine..]. cbv zeta.
    assert (marked_fine (set_child d1 i (add_tracks c 0 (e_songs e)))) as Hadd
      by (apply Hset; by rewrite add_tracks_device).
    destruct (_ || _); [by apply DeleteDirectory_fine|done]. }
  destruct (if as_folder plugin then _ else _) as [d1 st1]. simpl in Hp.
  by destruct (UpdateOrInsert _ _).
Qed.

(** ** Songs *)

(** An entry of the reader of [p] that is a song file. *)
Definition song_entry (p name suffix : bytes) (info : StorageFileInfo) : Prop :=
  exists entries, storage_OpenDirectory p = Ok entries /\ (name, Ok info) ∈ entries /\ IsRegular info = true /\
    GetFilenameSuffix name = Some suffix.

Lemma scanned_song_intro d name suffix info s : song_entry (path d) name suffix info ->
  decoder_plugins_supports_suffix decoder_plugins suffix = true -> directory_child_access d name = true ->
  filename s = name -> s_mtime s = fi_mtime info ->
  (walk_discard = true -> ShouldIncludeSong channel_mode s = true /\ tag_ok tag_mask (s_tag s)) ->
  scanned_song (path d) s.
Proof.
  intros (entries & Ho & Hin & Hr & Hs) Hsup Hacc <- Hm Hd. exists entries, info, suffix.
  do 6 (split; [done|]). split; [|done]. intros path_fs Hp. unfold directory_child_access in Hacc.
  rewrite Hp in Hacc. by destruct (access_denied path_fs).
Qed.

Lemma UpdateSongFile_fine d name suffix info st : wf d -> name_ok name ->
  song_entry (path d) name suffix info -> marked_fine d ->
  marked_fine (snd (fst (UpdateSongFile d name suffix info st))).
Proof.
  intros Hw Hn He Hd. unfold UpdateSongFile. destruct (decoder_plugins_supports_suffix _ suffix) eqn:Esup; [|done].
  cbn [negb]. unfold UpdateSongFile2. destruct (directory_child_access d name) eqn:Eacc; [|done]. cbn [negb]. cbv zeta.
  pose proof (scanned_song_intro d name suffix info) as Hintro.
  specialize (fun s => Hintro s He Esup Eacc).
  destruct (find_song d name) as [[i s]|] eqn:Ef.
  - apply find_song_Some in Ef as [Hi Hf].
    pose proof (UpdateContainerFile_fine d name suffix info st Hw Hn Hd) as Hc.
    pose proof (UpdateContainerFile_songs d name suffix info st Hw Hn) as Hcs.
    pose proof (UpdateContainerFile_scalars d name suffix info st) as Hcp.
    destruct ((fi_mtime info =? s_mtime s) && negb walk_discard) eqn:Eu; cbn [negb].
    + reflect_bools. replace (negb (fi_mtime info =? s_mtime s) || walk_discard) with false.
      * cbn [fst snd]. apply set_song_fine; [done|]. intros _. apply Hintro; [done|simpl; congruence|congruence].
      * rewrite (proj2 (Z.eqb_eq _ _)) by done. by destruct walk_discard.
    + destruct (UpdateContainerFile d name suffix info st) as [[[|] d1] st1]; [done|].
      cbn [fst snd] in Hc, Hcs, Hcp. apply scalars_path in Hcp.
      destruct (negb (fi_mtime info =? s_mtime s) || walk_discard) eqn:Er.
      * unfold ReloadSongFile. destruct (UpdateFile _ _ d1 s info) as [s'|] eqn:Es; [|done].
        pose proof (UpdateFile_tag_ok _ _ _ _ _ _ Es) as Htag.
        apply UpdateFile_fields in Es as (Hf' & _ & Hm' & _).
        destruct (ShouldIncludeSong channel_mode s') eqn:Einc; cbn [negb].
        -- cbn [fst snd]. apply set_song_fine; [done|]. intros _. rewrite Hcp.
           apply Hintro; [exact (eq_trans Hf' Hf)|exact Hm'|done].
        -- pose proof (set_song_delete d1 i s' st1) as Hdel. pose proof (DeleteSong_fine d1 i st1 Hc) as Hd1.
           destruct (DeleteSong (set_song d1 i s') i st1) as [d2 st2]. cbn [fst snd] in *. by rewrite Hdel.
      * apply orb_false_iff in Er as [Er1 Er2]. rewrite Er2, andb_true_r in Eu.
        apply negb_false_iff in Er1. congruence.
  - pose proof (UpdateContainerFile_fine d name suffix info st Hw Hn Hd) as Hc.
    pose proof (UpdateContainerFile_scalars d name suffix info st) as Hcp. cbn [negb].
    destruct (UpdateContainerFile d name suffix info st) as [[[|] d1] st1]; [done|].
    cbn [fst snd] in Hc, Hcp. apply scalars_path in Hcp. unfold AddSongFile, LoadFile.
    destruct (UpdateFile _ _ d1 _ info) as [s'|] eqn:Es; [|done].
    pose proof (UpdateFile_tag_ok _ _ _ _ _ _ Es) as Htag.
    apply UpdateFile_fields in Es as (Hf' & _ & Hm' & _).
    destruct (ShouldIncludeSong channel_mode s') eqn:Einc; cbn [negb]; [|done].
    cbn [fst snd]. apply AddSong_fine; [done|]. intros _. rewrite Hcp. apply Hintro; [done|done|done].
Qed.

Context `{!WalkLaws}.
#[local] Existing Instance no_pred.
#[local] Existing Instance no_pred_laws.

Lemma UpdateRegularFile_fine chain d name info st entries : wf d -> name_ok name ->
  storage_OpenDirectory (path d) = Ok entries -> (name, Ok info) ∈ entries -> IsRegular info = true ->
  marked_fine d -> marked_fine (snd (fst (UpdateRegularFile chain d name info st))).
Proof.
  intros Hw Hn Ho Hin Hr Hd. unfold UpdateRegularFile. destruct (GetFilenameSuffix name) as [suffix|] eqn:Es; [|done].
  assert (song_entry (path d) name suffix info) as He by by exists entries.
  pose proof (UpdateSongFile_fine d name suffix info st Hw Hn He Hd) as Hs.
  pose proof (UpdateSongFile_keeps d name suffix info st (no_entry name info Hn) (no_good d Hw)) as ([Hw1 _] & _).
  destruct (UpdateSongFile d name suffix info st) as [[[|] d1] st1]; [done|].
  pose proof (UpdateArchiveFile_fine chain d1 name suffix info st1 Hw1 Hn Hs) as Ha.
  pose proof (UpdateArchiveFile_keeps chain d1 name suffix info st1 (no_entry name info Hn) (no_good d1 Hw1)) as ([Hw2 _] & _).
  destruct (UpdateArchiveFile chain d1 name suffix info st1) as [[[|] d2] st2]; [done|].
  by apply UpdatePlaylistFile_fine.
Qed.

(** ** The recursion *)

Section Rec.
Context (update_directory : list Directory -> Directory -> ExcludeList -> StorageFileInfo -> WalkState ->
  option (bool * Directory * list Directory * WalkState)).
Context (update_directory_keeps : forall chain d ex info st r d' up st',
  mtime_p (fi_mtime info) -> update_directory chain d ex info st = Some (r, d', up, st') -> keeps d d').
Context (update_directory_scanned : forall chain d ex info st d' up st', wf d ->
  update_directory chain d ex info st = Some (true, d', up, st') -> scanned d').

Lemma UpdateDirectoryChild_fine chain d ex name info st d' chain' st' entries : wf d -> name_ok name ->
  storage_OpenDirectory (path d) = Ok entries -> (name, Ok info) ∈ entries -> marked_fine d ->
  UpdateDirectoryChild update_directory chain d ex name info st = Some (d', chain', st') -> marked_fine d'.
Proof.
  intros Hw Hn Ho Hin Hd. unfold UpdateDirectoryChild. destruct (IsRegular info) eqn:Er.
  { pose proof (UpdateRegularFile_fine chain d name info st entries Hw Hn Ho Hin Er Hd) as Hk.
    destruct (UpdateRegularFile chain d name info st) as [[b d1] st1]. by intros [= <- _ _]. }
  destruct (IsDirectory info); [|by intros [= <- _ _]].
  destruct (FindAncestorLoop _ _ _) as [found up]. pose proof (sync_stat_keeps d up (no_good d Hw)) as ([Hw1 _] & Hp1 & _).
  assert (songs (fst (sync_stat d up)) = songs d /\ children (fst (sync_stat d up)) = children d) as [Hs1 Hc1]
    by (by destruct up).
  destruct (sync_stat d up) as [d1 chain1]. cbn [fst] in *.
  assert (marked_fine d1) as Hd1 by (by apply (marked_fine_same d)).
  destruct (negb (found =? 0)); [by intros [= <- _ _]|].
  pose proof (keeps_MakeChild d1 name Hn I (no_good d1 Hw1)) as ([Hw2 _] & Hp2 & _). pose proof (MakeChild_fine d1 name Hd1) as Hd2.
  destruct (FindChild_pos (MakeChild d1 name) name ≫= _) as [[i c]|] eqn:E; [|by intros [= <- _ _]].
  apply find_child_Some in E as [Hi _]. pose proof (wf_child _ _ _ Hw2 Hi) as [Hwc _].
  destruct (update_directory _ c ex info st) as [[[[r c'] up'] st1]|] eqn:Eu; [|done].
  assert (songs (fst (sync_stat (MakeChild d1 name) up')) = songs (MakeChild d1 name) /\
    children (fst (sync_stat (MakeChild d1 name) up')) = children (MakeChild d1 name) /\
    path (fst (sync_stat (MakeChild d1 name) up')) = path (MakeChild d1 name)) as (Hs3 & Hc3 & Hp3)
    by (by destruct up').
  destruct (sync_stat (MakeChild d1 name) up') as [d2 chain2]. cbn [fst] in *.
  assert (marked_fine d2) as Hd3 by (by apply (marked_fine_same (MakeChild d1 name))).
  destruct r.
  - intros [= <- _ _]. apply set_child_fine; [done|]. intros _. right. right.
    by apply (update_directory_scanned _ _ _ _ _ _ _ _ Hwc Eu).
  - assert (fst (DeleteDirectory (set_child d2 i c') i st1) = with_children d2 (delete i (children d2))) as Hdel.
    { unfold DeleteDirectory, set_child. simpl children. rewrite list_lookup_insert_eq.
      - simpl. unfold with_children; simpl. f_equal. rewrite !delete_take_drop.
        by rewrite take_insert_ge, drop_insert_lt by lia.
      - rewrite Hc3. by eapply lookup_lt_Some. }
    destruct (DeleteDirectory _ i st1) as [d3 st2]. cbn [fst] in Hdel. subst d3. intros [= <- _ _].
    apply (marked_fine_sub d2); [done|done|simpl; apply sublist_delete|done].
Qed.

Lemma read_entries_fine ex all : forall entries chain d st d' chain' st',
  (forall e, e ∈ entries -> e ∈ all) -> Forall (fun e => name_ok (fst e)) entries ->
  wf d -> storage_OpenDirectory (path d) = Ok all -> marked_fine d ->
  read_entries update_directory ex entries chain d st = Some (d', chain', st') -> marked_fine d'.
Proof.
  induction entries as [|[name info] entries IH]; intros chain d st d' chain' st' Hsub Hn Hw Ho Hd;
    cbn [read_entries]; (destruct (cancel (ticks st)); [by intros [= <- _ _]|]); [by intros [= <- _ _]|].
  apply Forall_cons in Hn as [Hn Hr]. simpl in Hn.
  assert (forall d1 chain1 st1, keeps d d1 -> marked_fine d1 ->
    read_entries update_directory ex entries chain1 d1 st1 = Some (d', chain', st') -> marked_fine d') as Hnext.
  { intros d1 chain1 st1 Hk Hd1. destruct (Hk (no_good d Hw)) as ([Hw1 _] & Hp1 & _).
    apply IH; [intros e He; apply Hsub; by right|done|done|by rewrite Hp1|done]. }
  destruct (skip_path name); [by apply Hnext|].
  destruct (match PathFromUTF8 name with None => true | Some _ => _ end); [by apply Hnext|].
  pose proof (DeleteNameIn_keeps d name (tick st)) as Hk. pose proof (DeleteNameIn_fine d name (tick st) Hd) as Hf.
  destruct (SkipSymlink (d :: chain) name).
  { destruct (DeleteNameIn d name (tick st)) as [[m d1] st1]. by apply Hnext. }
  destruct info as [info'|]; cbn [ok_or_none].
  - destruct (UpdateDirectoryChild _ _ _ _ _ _ _) as [[[d1 chain1] st1]|] eqn:Eu; [|done].
    apply Hnext; [eapply UpdateDirectoryChild_keeps; [exact update_directory_keeps|by apply no_entry|exact Eu]|].
    refine (UpdateDirectoryChild_fine _ _ _ _ _ _ _ _ _ _ Hw Hn Ho _ Hd Eu). apply Hsub. by left.
  - destruct (DeleteNameIn d name (tick st)) as [[m d1] st1]. by apply Hnext.
Qed.
End Rec.

Lemma UnmarkAllIn_fine d : marked_fine (UnmarkAllIn d).
Proof.
  split; simpl; apply Forall_forall; intros x (y & -> & _)%list_elem_of_fmap; done.
Qed.

Lemma PurgeDeleted_scanned d st : marked_fine d -> scanned (fst (PurgeDeletedFromDirectory d st)).
Proof.
  intros [Hs Hc]. unfold PurgeDeletedFromDirectory.
  pose proof (DeleteIf_eq (fun child => negb (IsMount child) && negb (mark child)) (fun song => negb (s_mark song)) d st) as E.
  destruct (DeleteIf _ _ d st) as [d1 st1]. cbn [fst] in *. subst d1.
  constructor; simpl; apply Forall_forall; intros x Hx; apply list_elem_of_In, filter_In in Hx as [Hx Hm];
    rewrite <- list_elem_of_In in Hx.
  - rewrite negb_involutive in Hm. by apply (proj1 (Forall_forall _ _) Hs).
  - pose proof (proj1 (Forall_forall _ _) Hc x Hx) as Hcx. cbv beta in Hcx. destruct (mark x); [exact (Hcx eq_refl)|]. left.
    by destruct (IsMount x).
Qed.

Lemma scanned_same d d' : path d' = path d -> songs d' = songs d -> children d' = children d -> scanned d -> scanned d'.
Proof. intros Hp Hs Hc [Hss Hcc]%scanned_inv. constructor; [by rewrite Hp, Hs|by rewrite Hc]. Qed.

Lemma UpdateDirectory_scanned fuel : forall chain d ex info st d' up st', wf d ->
  UpdateDirectory fuel chain d ex info st = Some (true, d', up, st') -> scanned d'.
Proof.
  induction fuel as [|fuel IH]; intros chain d ex info st d' up st' Hw; [done|]. cbn [UpdateDirectory].
  set (d0 := directory_set_stat d info). destruct (keeps_with_stat d (fi_inode info) (fi_device info) (no_good d Hw)) as ([Hw0 _] & _).
  change (with_stat d (fi_inode info) (fi_device info)) with d0 in Hw0.
  destruct (storage_OpenDirectory (path d0)) as [reader|] eqn:Er; [|done].
  set (cex := LoadExcludeList d0 (ExcludeList_of ex)).
  assert (keeps d0 (fst (if negb (ExcludeList_IsEmpty cex) then RemoveExcludedFromDirectory d0 cex st else (d0, st))))
    as Hk1 by (destruct (negb _); [apply RemoveExcluded_keeps|done]).
  destruct (if negb (ExcludeList_IsEmpty cex) then _ else _) as [d1 st1]. cbn [fst] in Hk1.
  destruct (keeps_trans _ _ _ Hk1 (UnmarkAllIn_keeps d1) (no_good d0 Hw0)) as ([Hw1 _] & Hp1 & _).
  destruct (read_entries _ _ _ _ _ _) as [[[d2 up2] st2]|] eqn:Eread; [|done].
  apply (read_entries_fine _ (UpdateDirectory_keeps fuel) IH cex reader) in Eread;
    [|done|by eapply reader_names|done|by rewrite Hp1|apply UnmarkAllIn_fine].
  pose proof (PurgeDeleted_scanned d2 st2 Eread) as Hk3.
  destruct (PurgeDeletedFromDirectory d2 st2) as [d3 st3]. cbn [fst] in Hk3. intros [= <- _ _].
  by apply (scanned_same d3).
Qed.

(** ** The pass over the playlists keeps it *)

(** Neither the flag nor a deletion matters. *)
Lemma scanned_song_in_playlist p s b : scanned_song p s -> scanned_song p (Song_with_in_playlist s b).
Proof. done. Qed.

(** A change of a directory that [scanned] does not notice. *)
Definition harmless (f : Directory -> Directory) : Prop := forall d,
  IsMount (f d) = IsMount d /\ IsReallyAFile (f d) = IsReallyAFile d /\ (scanned d -> scanned (f d)).

Lemma harmless_child f c : harmless f -> child_fine c -> child_fine (f c).
Proof.
  intros Hf. destruct (Hf c) as (Hm & Hr & Hs). unfold child_fine. rewrite Hm, Hr.
  intros [?|[?|?]]; [by left|right; by left|right; right; auto].
Qed.

Lemma harmless_children d l : (forall x, x ∈ l -> (x ∈ children d) \/ child_fine x) ->
  scanned d -> scanned (with_children d l).
Proof.
  intros Hl [Hs Hc]%scanned_inv. constructor; [done|]. apply Forall_forall. intros x Hx.
  destruct (Hl x Hx) as [Hin|Hf]; [|done]. by apply (proj1 (Forall_forall _ _) Hc).
Qed.

Lemma harmless_alter_dir f pos : harmless f -> harmless (alter_dir f pos).
Proof.
  intros Hf. induction pos as [|i pos IH]; [done|]. intros d. split; [done|]. split; [done|]. intros Hs.
  cbn [alter_dir]. destruct (children d !! i) as [c|] eqn:E.
  - rewrite (alter_insert_eq _ _ _ _ E). apply harmless_children; [|done]. intros x Hx.
    apply list_elem_of_lookup in Hx as [j Hj]. rewrite list_lookup_insert in Hj.
    case_decide; [|left; by eapply list_elem_of_lookup_2]. injection Hj as <-. right.
    apply harmless_child; [done|]. apply scanned_inv in Hs as [_ Hc]. by apply (Forall_lookup_1 _ _ _ _ Hc E).
  - rewrite alter_none by done. by rewrite with_children_id.
Qed.

Lemma harmless_songs (g : Directory -> list Song) :
  (forall d s, s ∈ g d -> exists s0, s0 ∈ songs d /\ (forall p, scanned_song p s0 -> scanned_song p s)) ->
  harmless (fun d => with_songs d (g d)).
Proof.
  intros Hg d. split; [done|]. split; [done|]. intros [Hs Hc]%scanned_inv. constructor; [|done].
  apply Forall_forall. intros s Hin. destruct (Hg d s Hin) as (s0 & Hs0 & Himp). apply Himp.
  by apply (proj1 (Forall_forall _ _) Hs).
Qed.

Lemma purge_playlist_harmless n pos : forall i st, harmless (fun root => fst (purge_playlist n pos i root st)).
Proof.
  induction n as [|n IH]; intros i st root; [done|]. cbn [purge_playlist].
  destruct (dir_at root pos ≫= _) as [[d s]|]; [|done]. destruct (_ && _); [|apply IH].
  assert (forall f i st, harmless f ->
    IsMount (fst (purge_playlist n pos i (f root) st)) = IsMount root /\
    IsReallyAFile (fst (purge_playlist n pos i (f root) st)) = IsReallyAFile root /\
    (scanned root -> scanned (fst (purge_playlist n pos i (f root) st)))) as Hcomp.
  { intros f i' st' Hf. destruct (Hf root) as (Hm & Hr & Hs). destruct (IH i' st' (f root)) as (Hm' & Hr' & Hs').
    rewrite Hm', Hr'. auto. }
  destruct (LookupTargetSong _ root pos (target s)) as [[pos' j]|]; apply (Hcomp (alter_dir _ _));
    apply harmless_alter_dir.
  - apply harmless_songs. intros d1 s1 Hin. apply list_elem_of_lookup in Hin as [k Hk].
    destruct (songs d1 !! j) as [s2|] eqn:E.
    + rewrite (alter_insert_eq _ _ _ _ E), list_lookup_insert in Hk. case_decide as Hd.
      * injection Hk as <-. exists s2. split; [by eapply list_elem_of_lookup_2|].
        intros p. apply scanned_song_in_playlist.
      * exists s1. split; [by eapply list_elem_of_lookup_2|done].
    + rewrite alter_none in Hk by done. exists s1. split; [by eapply list_elem_of_lookup_2|done].
  - intros d1. unfold DeleteSong. destruct (songs d1 !! i) eqn:E; [|done].
    apply (harmless_songs (fun d => delete i (songs d))). intros d2 s2 Hin. exists s2. split; [|done].
    assert (Forall (fun x => x ∈ songs d2) (delete i (songs d2))) as HF
      by (eapply sublist_Forall; [apply sublist_delete|by apply Forall_forall]).
    by apply (proj1 (Forall_forall _ _) HF).
Qed.

Lemma PurgeDangling_scanned root st : scanned root -> scanned (fst (PurgeDanglingFromPlaylists root st)).
Proof.
  unfold PurgeDanglingFromPlaylists. generalize (postorder root). intros l. revert root st.
  induction l as [|pos l IH]; intros root st Hs; [done|]. cbn [fold_left].
  assert (scanned (fst (purge_at pos (root, st)))) as Hk.
  { unfold purge_at. destruct (dir_at root pos) as [d|]; [|done]. destruct (negb (IsPlaylist d)); [done|].
    by apply purge_playlist_harmless. }
  destruct (purge_at pos (root, st)) as [root1 st1]. by apply IH.
Qed.

Lemma ClearInPlaylist_scanned d : scanned d -> scanned (ClearInPlaylist d).
Proof.
  induction d as [d IH] using Directory_ind'. intros [Hs Hc]%scanned_inv. destruct d. simpl in *. constructor; simpl.
  - apply Forall_fmap. eapply Forall_impl; [exact Hs|]. done.
  - apply Forall_fmap, Forall_forall. intros c Hin.
    pose proof (proj1 (Forall_forall _ _) Hc c Hin) as Hfine. pose proof (proj1 (Forall_forall _ _) IH c Hin) as IHc.
    destruct c. destruct Hfine as [?|[?|?]]; [by left|right; by left|right; right; by apply IHc].
Qed.
End Sound.

(** ** Properties *)

(** C1: after an update of the whole music directory every song of a
    directory that is not virtual is a file the storage has: its directory's
    reader returned it as a regular file, it may be read, a decoder plugin
    supports its suffix and the song carries its time stamp; after a full
    rescan ([walk_discard]) it also passes the channel filter and its tags
    are clean.  Directories that are gone, excluded or not readable are not
    in the tree. *)
Theorem Walk_scanned `{System} `{Storage} `{UpdateWalk} (Hlaws : WalkLaws) (fuel : nat) (root root' : Directory)
  (m : bool) (uris : list bytes) (info : StorageFileInfo) (entries : list (bytes * result StorageFileInfo))
  (Hwf : wf root) (Hroot : is_root root = true)
  (Hinfo : GetInfo [] = Some info) (Hdir : IsDirectory info = true)
  (Hopen : storage_OpenDirectory [] = Ok entries)
  (Hrun : Walk fuel root None = Some (m, root', uris)) : scanned root'.
Proof.
  unfold Walk in Hrun. cbv zeta in Hrun. rewrite Hinfo, Hdir in Hrun. cbn [negb] in Hrun.
  destruct (UpdateDirectory fuel [] root ExcludeList_new info _) as [[[[r root1] up] st1]|] eqn:Eu; [|done].
  destruct r.
  - apply UpdateDirectory_scanned in Eu; [|done].
    pose proof (PurgeDangling_scanned (ClearInPlaylist root1) st1 (ClearInPlaylist_scanned _ Eu)) as Hp.
    destruct (PurgeDanglingFromPlaylists _ _) as [root2 st2]. by injection Hrun as _ <- _.
  - exfalso. destruct fuel as [|fuel]; [done|]. cbn [UpdateDirectory] in Eu.
    assert (path (directory_set_stat root info) = []) as Hpath.
    { apply wf_inv in Hwf as (Hp & _). unfold path_ok in Hp. rewrite Hroot in Hp. done. }
    rewrite Hpath, Hopen in Eu. destruct (if negb _ then _ else _) as [d1 s1].
    destruct (read_entries _ _ _ _ _ _) as [[[d2 up2] st2]|]; [|done].
    by destruct (PurgeDeletedFromDirectory d2 st2).
Qed.

Lemma Walk_scanned_witness :
  exists m root' uris,
    @Walk sample_system sample_storage (sample_walk STEREO) 4 NewRoot None = Some (m, root', uris) /\
    @scanned sample_storage (sample_walk STEREO) root'.
Proof.
  do 3 eexists. split; [vm_compute; reflexivity|].
  eapply (@Walk_scanned sample_system sample_storage (sample_walk STEREO) (sample_laws STEREO) 4 NewRoot).
  - apply wf_NewRoot.
  - reflexivity.
  - vm_compute. reflexivity.
  - reflexivity.
  - reflexivity.
  - vm_compute. reflexivity.
Defined.
