(* ===== verification/WalkReports.v ===== *)
(** No song disappears silently: whatever song was in the tree before an
    update is still there, under the same URI, or its URI was given to
    [UpdateRemoveService::Remove], which tells the listeners of the
    database. *)
From S2P Require Import Prelude Text Songs Playlists Directory.
From S2P Require Import TagScan Storage SongUpdate CueValidator Editor Walk WalkWf WalkTermination.
Open Scope Z_scope.

(** From a tree and a state to a later tree and state. *)
Definition reports (a b : Directory * WalkState) : Prop :=
  (forall u, u ∈ clear_uris (fst a) -> u ∈ clear_uris (fst b) \/ u ∈ removed (snd b)) /\
  (forall u, u ∈ removed (snd a) -> u ∈ removed (snd b)).

#[export] Instance reports_preorder : PreOrder reports.
Proof.
  split; [split; auto|]. intros a b c [Hab Hr] [Hbc Hr']. split; [|auto].
  intros u Hu. destruct (Hab u Hu) as [Hb|Hb]; auto.
Qed.

Lemma reports_trans a b c : reports a b -> reports b c -> reports a c.
Proof. apply transitivity. Qed.

Lemma clear_uris_eq d :
  clear_uris d = concat (map clear_uris (children d)) ++ map (song_uri d) (songs d).
Proof. by destruct d. Qed.

Lemma elem_clear_uris d u : u ∈ clear_uris d <->
  (exists c, c ∈ children d /\ u ∈ clear_uris c) \/ (exists s, s ∈ songs d /\ u = song_uri d s).
Proof.
  rewrite clear_uris_eq, elem_of_app. change (map clear_uris (children d)) with (clear_uris <$> children d).
  change (map (song_uri d) (songs d)) with (song_uri d <$> songs d).
  rewrite list_elem_of_fmap, list_elem_of_In, in_concat. split.
  - intros [(l & Hl & Hu)|(s & -> & Hs)]; [left|right; eauto].
    apply list_elem_of_In in Hl, Hu. apply list_elem_of_fmap in Hl as (c & -> & Hc). eauto.
  - intros [(c & Hc & Hu)|(s & Hs & ->)]; [left|right; eauto]. exists (clear_uris c).
    split; apply list_elem_of_In; [by apply list_elem_of_fmap_2|done].
Qed.

(** The same URIs of its own songs. *)
Lemma song_uri_head d d' s s' : path d' = path d -> is_root d' = is_root d -> filename s' = filename s ->
  song_uri d' s' = song_uri d s.
Proof. intros Hp Hr Hf. unfold song_uri, parent_path, Song_GetURI. by rewrite Hp, Hr, Hf. Qed.

(** A general change of one directory: each child and each song is still
    there, or what was lost was reported. *)
Lemma reports_intro d d' st st' : path d' = path d -> is_root d' = is_root d ->
  (forall c, c ∈ children d -> (exists c', c' ∈ children d' /\ forall u, u ∈ clear_uris c ->
      u ∈ clear_uris c' \/ u ∈ removed st') \/ (forall u, u ∈ clear_uris c -> u ∈ removed st')) ->
  (forall s, s ∈ songs d -> (exists s', s' ∈ songs d' /\ filename s' = filename s) \/ song_uri d s ∈ removed st') ->
  (forall u, u ∈ removed st -> u ∈ removed st') -> reports (d, st) (d', st').
Proof.
  intros Hp Hr Hc Hs Hst. split; [|done]. intros u. simpl. rewrite !elem_clear_uris.
  intros [(c & Hin & Hu)|(s & Hin & ->)].
  - destruct (Hc c Hin) as [(c' & Hin' & Hu')|Hu']; [|by right; apply Hu'].
    destruct (Hu' u Hu); [left; left; eauto|by right].
  - destruct (Hs s Hin) as [(s' & Hin' & Hf)|Hu]; [|by right]. left. right. exists s'. split; [done|].
    symmetry. by apply song_uri_head.
Qed.

(** Nothing is lost in the tree. *)
Lemma reports_more d d' st st' : path d' = path d -> is_root d' = is_root d ->
  (forall c, c ∈ children d -> exists c', c' ∈ children d' /\ forall u, u ∈ clear_uris c -> u ∈ clear_uris c') ->
  (forall s, s ∈ songs d -> exists s', s' ∈ songs d' /\ filename s' = filename s) ->
  (forall u, u ∈ removed st -> u ∈ removed st') -> reports (d, st) (d', st').
Proof.
  intros Hp Hr Hc Hs Hst. apply reports_intro; [done|done| | |done].
  - intros c Hin. left. destruct (Hc c Hin) as (c' & Hin' & Hu). eauto.
  - intros s Hin. left. auto.
Qed.

(** Only scalar fields change. *)
Lemma reports_same d d' st st' : path d' = path d -> is_root d' = is_root d ->
  children d' = children d -> songs d' = songs d -> removed st' = removed st -> reports (d, st) (d', st').
Proof.
  intros Hp Hr Hc Hs Hst. apply reports_more; [done|done|rewrite Hc; eauto|rewrite Hs; eauto|by rewrite Hst].
Qed.

(** ** Editor *)

Lemma ClearDirectory_removed d st u :
  u ∈ removed (ClearDirectory d st) <-> u ∈ clear_uris d \/ u ∈ removed st.
Proof.
  unfold ClearDirectory. rewrite remove_all_removed, elem_of_app, (list_elem_of_In (rev _)), <- in_rev,
    <- list_elem_of_In. done.
Qed.

Lemma lookup_delete_cases {A} (l : list A) i x y : l !! i = Some x -> y ∈ l -> y = x \/ y ∈ delete i l.
Proof.
  intros Hi Hy. rewrite <- (take_drop_middle l i x Hi) in Hy. rewrite delete_take_drop.
  rewrite elem_of_app, elem_of_cons in Hy. rewrite elem_of_app. tauto.
Qed.

Lemma DeleteSong_reports d i st : reports (d, st) (DeleteSong d i st).
Proof.
  unfold DeleteSong. destruct (songs d !! i) as [s|] eqn:E; [|done]. apply reports_intro; [done|done| | |].
  - intros c Hc. left. eauto.
  - intros s' Hs'. destruct (lookup_delete_cases _ _ _ _ E Hs') as [->|Hin]; [right; by left|left; eauto].
  - intros u Hu. by right.
Qed.

Lemma DeleteDirectory_reports d i st : reports (d, st) (DeleteDirectory d i st).
Proof.
  unfold DeleteDirectory. destruct (children d !! i) as [c|] eqn:E; [|done]. apply reports_intro; [done|done| | |].
  - intros c' Hc'. destruct (lookup_delete_cases _ _ _ _ E Hc') as [->|Hin]; [right|left; eauto].
    intros u Hu. apply ClearDirectory_removed. by left.
  - intros s Hs. left. eauto.
  - intros u Hu. apply ClearDirectory_removed. by right.
Qed.

Lemma reports_modified a d st b : reports a (d, st) -> reports a (d, or_modified st b).
Proof. intros Hr. eapply reports_trans; [exact Hr|]. by apply reports_same. Qed.

Lemma reports_set_modified a d st : reports a (d, st) -> reports a (d, set_modified st).
Proof. intros Hr. eapply reports_trans; [exact Hr|]. by apply reports_same. Qed.

Lemma DeleteNameIn_reports d n st : let '(m, d', st') := DeleteNameIn d n st in reports (d, st) (d', st').
Proof.
  unfold DeleteNameIn.
  assert (let '(m, d1, st1) := match FindChild_pos d n with
    | Some i => let '(parent, st) := DeleteDirectory d i st in (true, parent, st)
    | None => (false, d, st) end in reports (d, st) (d1, st1)) as Hc.
  { destruct (FindChild_pos d n) as [i|]; [|done]. pose proof (DeleteDirectory_reports d i st) as Hk.
    by destruct (DeleteDirectory d i st). }
  destruct (match FindChild_pos d n with Some _ => _ | None => _ end) as [[m1 d1] st1].
  assert (let '(m, d2, st2) := match FindSong_pos d1 n with
    | Some i => let '(parent, st) := DeleteSong d1 i st1 in (true, parent, st)
    | None => (false, d1, st1) end in reports (d1, st1) (d2, st2)) as Hs.
  { destruct (FindSong_pos d1 n) as [i|]; [|done]. pose proof (DeleteSong_reports d1 i st1) as Hk.
    by destruct (DeleteSong d1 i st1). }
  destruct (match FindSong_pos d1 n with Some _ => _ | None => _ end) as [[m2 d2] st2].
  apply (reports_trans _ _ _ Hc). apply (reports_trans _ _ _ Hs). by apply reports_same.
Qed.

Lemma delete_children_if_reports p l st : let '(l', st') := delete_children_if p l st in
  (forall c, c ∈ l -> c ∈ l' \/ forall u, u ∈ clear_uris c -> u ∈ removed st') /\
  (forall u, u ∈ removed st -> u ∈ removed st').
Proof.
  revert st. induction l as [|c l IH]; intros st; simpl.
  { split; [intros c Hc; by apply not_elem_of_nil in Hc|done]. }
  destruct (p c).
  - specialize (IH (set_modified (ClearDirectory c st))).
    destruct (delete_children_if p l (set_modified (ClearDirectory c st))) as [l' st']. destruct IH as [Hl Hst].
    assert (forall u, u ∈ clear_uris c \/ u ∈ removed st -> u ∈ removed st') as Hst'.
    { intros u Hu. apply Hst. change (u ∈ removed (ClearDirectory c st)). by apply ClearDirectory_removed. }
    split; [|auto]. intros c' [->|Hc']%elem_of_cons; [right; auto|auto].
  - specialize (IH st). destruct (delete_children_if p l st) as [l' st']. destruct IH as [Hl Hst].
    split; [|done]. intros c' [->|Hc']%elem_of_cons; [left; by left|].
    destruct (Hl c' Hc'); [left; by right|by right].
Qed.

Lemma delete_songs_if_reports d p l st : let '(l', st') := delete_songs_if d p l st in
  (forall s, s ∈ l -> s ∈ l' \/ song_uri d s ∈ removed st') /\ (forall u, u ∈ removed st -> u ∈ removed st').
Proof.
  revert st. induction l as [|s l IH]; intros st; simpl.
  { split; [intros s Hs; by apply not_elem_of_nil in Hs|done]. }
  destruct (p s).
  - specialize (IH (set_modified (remove_uri st (song_uri d s)))).
    destruct (delete_songs_if d p l _) as [l' st']. destruct IH as [Hl Hst]. cbn [removed set_modified remove_uri] in Hst.
    split; [|intros u Hu; apply Hst; by right].
    intros s' [->|Hs']%elem_of_cons; [right; apply Hst; by left|auto].
  - specialize (IH st). destruct (delete_songs_if d p l st) as [l' st']. destruct IH as [Hl Hst].
    split; [|done]. intros s' [->|Hs']%elem_of_cons; [left; by left|].
    destruct (Hl s' Hs'); [left; by right|by right].
Qed.

Lemma DeleteIf_reports pc ps d st : reports (d, st) (DeleteIf pc ps d st).
Proof.
  unfold DeleteIf. pose proof (delete_children_if_reports pc (children d) st) as Hc.
  destruct (delete_children_if pc (children d) st) as [l st1]. destruct Hc as [Hc Hst1].
  pose proof (delete_songs_if_reports d ps (songs d) st1) as Hs.
  destruct (delete_songs_if d ps (songs d) st1) as [s st2]. destruct Hs as [Hs Hst2].
  apply reports_intro; [done|done| | |auto].
  - intros c Hin. destruct (Hc c Hin) as [Hl|Hu]; [left; eauto|right; auto].
  - intros s' Hin. destruct (Hs s' Hin) as [Hl|Hu]; [left; eauto|by right].
Qed.

(** ** Changes in place *)

Lemma lookup_insert_cases {A} (l : list A) i x y z : l !! i = Some x -> z ∈ l -> z = x \/ z ∈ <[i := y]> l.
Proof.
  intros Hi Hz. apply list_elem_of_lookup in Hz as [j Hj]. destruct (decide (i = j)) as [->|Hne].
  - left. congruence.
  - right. apply list_elem_of_lookup. exists j. by rewrite list_lookup_insert_ne.
Qed.

Lemma set_child_reports d i c c' st st' : children d !! i = Some c -> reports (c, st) (c', st') ->
  reports (d, st) (set_child d i c', st').
Proof.
  intros Hi [Hc Hst]. apply reports_intro; [done|done| |eauto|done].
  intros x Hx. left. destruct (lookup_insert_cases _ _ _ c' _ Hi Hx) as [->|Hin]; [|eauto].
  exists c'. split; [|done]. simpl. apply list_elem_of_lookup. exists i.
  apply list_lookup_insert_eq. by eapply lookup_lt_Some.
Qed.

Lemma alter_child_reports d i f st st' :
  (forall c, children d !! i = Some c -> reports (c, st) (f c, st')) ->
  (forall u, u ∈ removed st -> u ∈ removed st') ->
  reports (d, st) (with_children d (alter f i (children d)), st').
Proof.
  intros Hf Hst. destruct (children d !! i) as [c|] eqn:E.
  - rewrite (alter_insert_eq _ _ _ _ E). apply (set_child_reports d i c); auto.
  - rewrite alter_none by done. rewrite with_children_id. by apply reports_more; eauto.
Qed.

Lemma set_song_reports d i s s' st : songs d !! i = Some s -> filename s' = filename s ->
  reports (d, st) (set_song d i s', st).
Proof.
  intros Hi Hf. apply reports_more; [done|done|eauto| |done].
  intros x Hx. destruct (lookup_insert_cases _ _ _ s' _ Hi Hx) as [->|Hin]; [|eauto].
  exists s'. split; [|done]. simpl. apply list_elem_of_lookup. exists i.
  apply list_lookup_insert_eq. by eapply lookup_lt_Some.
Qed.

Lemma AddSong_reports d s st : reports (d, st) (AddSong d s, st).
Proof.
  apply reports_more; [done|done|eauto| |done]. intros x Hx. exists x. split; [|done]. simpl.
  apply elem_of_app. by left.
Qed.

Lemma fold_AddSong_reports tracks d st : reports (d, st) (fold_left AddSong tracks d, st).
Proof.
  revert d. induction tracks as [|t tracks IH]; intros d; [done|]. simpl.
  eapply reports_trans; [apply AddSong_reports|apply IH].
Qed.

Lemma add_tracks_reports contents : forall d track st, reports (d, st) (add_tracks d track contents, st).
Proof.
  induction contents as [|s contents IH]; intros d track st; [done|]. cbn [add_tracks].
  eapply reports_trans; [apply AddSong_reports|apply IH].
Qed.

Lemma MakeChild_reports d n st : reports (d, st) (MakeChild d n, st).
Proof.
  unfold MakeChild. destruct (FindChild d n); [done|]. apply reports_more; [done|done| |eauto|done].
  intros c Hc. exists c. split; [|done]. simpl. apply elem_of_app. by left.
Qed.

Section Ops.
Context `{System} `{Storage} `{UpdateWalk}.

Lemma make_virtual_reports d n info dev st : reports (d, st) (snd (make_virtual d n info dev), st).
Proof.
  unfold make_virtual. eapply reports_trans; [apply (MakeChild_reports d n)|].
  destruct (FindChild_pos (MakeChild d n) n) as [i|]; [|done]. cbn [snd].
  apply alter_child_reports; [|done]. intros c _. by apply reports_same.
Qed.

Lemma MakeVirtual_reports d n info dev st :
  let '(o, d', st') := MakeVirtualDirectoryIfModified d n info dev st in reports (d, st) (d', st').
Proof.
  unfold MakeVirtualDirectoryIfModified. pose proof (make_virtual_reports d n info dev st) as Hv.
  destruct (FindChild_pos d n) as [i|].
  - destruct (children d !! i) as [c|] eqn:Ei; [|done]. destruct (IsMount c); [done|].
    destruct (_ && _); [apply (set_child_reports d i c); [done|by apply reports_same]|].
    pose proof (DeleteDirectory_reports d i st) as Hd. destruct (DeleteDirectory d i st) as [d1 st1].
    pose proof (make_virtual_reports d1 n info dev st1) as Hv1.
    destruct (make_virtual d1 n info dev) as [o d2]. apply (reports_trans _ _ _ Hd).
    by apply reports_set_modified.
  - by destruct (make_virtual d n info dev) as [o d2].
Qed.

Lemma UpdateContainerFile_reports d n suffix info st :
  let '(b, d', st') := UpdateContainerFile d n suffix info st in reports (d, st) (d', st').
Proof.
  unfold UpdateContainerFile. destruct (List.filter _ decoder_plugins) as [|p ps]; [done|].
  pose proof (MakeVirtual_reports d n info DEVICE_CONTAINER st) as Hv.
  destruct (MakeVirtualDirectoryIfModified d n info DEVICE_CONTAINER st) as [[[i|] d1] st1]; [|done].
  destruct (children d1 !! i) as [c|] eqn:Ei; [|done].
  pose proof (reports_trans _ _ _ Hv (DeleteDirectory_reports d1 i st1)) as Hd.
  destruct (storage_MapFS (path c)) as [pathname|]; [|by destruct (DeleteDirectory d1 i st1)].
  destruct (container_tracks (p :: ps) pathname info) as [|t ts]; [by destruct (DeleteDirectory d1 i st1)|].
  apply reports_set_modified, (reports_trans _ _ _ Hv). apply (set_child_reports d1 i c); [done|].
  apply fold_AddSong_reports.
Qed.

Lemma UpdateSongFile_reports d n suffix info st :
  let '(b, d', st') := UpdateSongFile d n suffix info st in reports (d, st) (d', st').
Proof.
  unfold UpdateSongFile. destruct (negb _); [done|].
  enough (reports (d, st) (UpdateSongFile2 d n suffix info st)) as Hs
    by (by destruct (UpdateSongFile2 d n suffix info st)).
  unfold UpdateSongFile2. destruct (negb _); [done|]. cbv zeta.
  generalize (match find_song d n with
    Some (_, s) => (fi_mtime info =? s_mtime s) && negb walk_discard | None => false end). intros u.
  assert (let '(b, d', st') := if negb u then UpdateContainerFile d n suffix info st else (false, d, st) in
    reports (d, st) (d', st')) as Hc
    by (destruct u; cbn [negb]; cbv beta iota; [reflexivity|apply UpdateContainerFile_reports]).
  assert (songs (snd (fst (if negb u then UpdateContainerFile d n suffix info st else (false, d, st)))) = songs d) as Hsongs.
  { destruct u; [done|]. cbn [negb]. unfold UpdateContainerFile.
    destruct (List.filter _ decoder_plugins) as [|p ps]; [done|].
    assert (songs (snd (fst (MakeVirtualDirectoryIfModified d n info DEVICE_CONTAINER st))) = songs d) as Hv.
    { assert (forall d0, songs (snd (make_virtual d0 n info DEVICE_CONTAINER)) = songs d0) as Hmk.
      { intros d0. unfold make_virtual. assert (songs (MakeChild d0 n) = songs d0) as Hm
          by (unfold MakeChild; by destruct (FindChild d0 n)).
        destruct (FindChild_pos (MakeChild d0 n) n); exact Hm. }
      unfold MakeVirtualDirectoryIfModified, DeleteDirectory. destruct (FindChild_pos d n) as [i|]; [|apply Hmk].
      destruct (children d !! i); [|done]. destruct (IsMount _); [done|]. destruct (_ && _); [done|].
      apply (Hmk (with_children d (delete i (children d)))). }
    destruct (MakeVirtualDirectoryIfModified d n info DEVICE_CONTAINER st) as [[[i|] d1] st1]; [|exact Hv].
    unfold DeleteDirectory. destruct (children d1 !! i) as [c|]; [|exact Hv].
    destruct (storage_MapFS (path c)); [|exact Hv]. by destruct (container_tracks _ _ _). }
  destruct (if negb u then _ else _) as [[b d1] st1]. cbn [fst snd] in Hsongs.
  apply (reports_trans _ _ _ Hc). destruct b; [done|].
  destruct (find_song d n) as [[i s]|] eqn:Ef.
  - apply find_song_Some in Ef as [Hi _]. rewrite <- Hsongs in Hi. destruct (_ || _); [|by apply (set_song_reports d1 i s)].
    unfold ReloadSongFile. destruct (UpdateFile _ _ d1 s info) as [s'|] eqn:Es; [|by apply reports_same].
    apply UpdateFile_fields in Es as (Hf & _).
    pose proof (set_song_reports d1 i s s' st1 Hi Hf) as Hset.
    pose proof (reports_trans _ _ _ Hset (DeleteSong_reports (set_song d1 i s') i st1)) as Hdel.
    destruct (negb (ShouldIncludeSong _ _)).
    + destruct (DeleteSong (set_song d1 i s') i st1) as [d2 st2]. by apply reports_set_modified.
    + apply reports_set_modified. by apply (set_song_reports d1 i s).
  - unfold AddSongFile. destruct (LoadFile _ _ _ _ _); [|done]. destruct (negb (ShouldIncludeSong _ _)); [done|].
    eapply reports_trans; [apply AddSong_reports|by apply reports_same].
Qed.

(** ** Archives and playlists *)

Lemma UpdateArchiveTree_reports archive segs : forall chain d st,
  reports (d, st) (UpdateArchiveTree archive chain d segs st).
Proof.
  induction segs as [|name rest IH]; intros chain d st; [done|]. cbn [UpdateArchiveTree]. destruct rest as [|r rest].
  - destruct (negb _); [done|]. destruct (find_song d name) as [[i s]|] eqn:E.
    + apply find_song_Some in E as [Hi _].
      destruct (UpdateFileInArchive _ _ _ _ _) as [s'|] eqn:Eu; [|apply DeleteSong_reports].
      apply UpdateFileInArchive_fields in Eu as (Hf & _). by apply (set_song_reports d i s).
    + destruct (LoadFromArchive _ _ _ _ _); [|done]. apply reports_set_modified, AddSong_reports.
  - destruct (negb _); [done|]. eapply reports_trans; [apply (MakeChild_reports d name)|].
    destruct (FindChild_pos (MakeChild d name) name ≫= _) as [[i c]|] eqn:E; [|done].
    apply find_child_Some in E as [Hi _].
    specialize (IH (MakeChild d name :: chain) (with_device c DEVICE_INARCHIVE) st).
    destruct (UpdateArchiveTree archive _ _ (r :: rest) st) as [c' st']. apply (set_child_reports _ i c); [done|].
    eapply reports_trans; [|exact IH]. by apply reports_same.
Qed.

Lemma VisitArchive_reports archive chain entries : forall d st,
  reports (d, st) (VisitArchive archive chain d entries st).
Proof.
  induction entries as [|e entries IH]; intros d st; [done|]. cbn [VisitArchive].
  pose proof (UpdateArchiveTree_reports archive (IterableSplitString e SEPARATOR) chain d st) as Hd.
  destruct (UpdateArchiveTree archive chain d _ st) as [d1 st1]. eapply reports_trans; [exact Hd|apply IH].
Qed.

Lemma UpdateArchiveFile_reports chain d n suffix info st :
  let '(b, d', st') := UpdateArchiveFile chain d n suffix info st in reports (d, st) (d', st').
Proof.
  unfold UpdateArchiveFile. destruct (archive_plugin_from_suffix suffix) as [plugin|]; [|done].
  enough (reports (d, st) (UpdateArchiveFile_plugin chain d n info plugin st)) as Hs
    by (by destruct (UpdateArchiveFile_plugin chain d n info plugin st)).
  unfold UpdateArchiveFile_plugin. destruct (MapChildFS _ _) as [path_fs|]; [|done].
  pose proof (MakeVirtual_reports d n info DEVICE_INARCHIVE st) as Hv.
  destruct (MakeVirtualDirectoryIfModified d n info DEVICE_INARCHIVE st) as [[[i|] d1] st1]; [|done].
  destruct (archive_file_open plugin path_fs) as [file|]; [|done].
  destruct (children d1 !! i) as [c|] eqn:Ei; [|done].
  pose proof (VisitArchive_reports file (d1 :: chain) (archive_entries file) c st1) as Hf.
  destruct (VisitArchive _ _ _ _ _) as [c' st2]. apply (reports_trans _ _ _ Hv).
  apply (set_child_reports d1 i c); [done|]. eapply reports_trans; [exact Hf|by apply reports_same].
Qed.

Lemma UpdatePlaylistFile_reports d n suffix info st :
  let '(b, d', st') := UpdatePlaylistFile d n suffix info st in reports (d, st) (d', st').
Proof.
  unfold UpdatePlaylistFile. destruct (FindPlaylistPluginBySuffix suffix) as [plugin|]; [|done].
  destruct (_ && _); [done|]. destruct (_ || _); [done|].
  assert (reports (d, st) (if as_folder plugin then UpdatePlaylistFile_plugin d n info plugin st else (d, st))) as Hp.
  { destruct (as_folder plugin); [|done]. unfold UpdatePlaylistFile_plugin.
    pose proof (MakeVirtual_reports d n info DEVICE_PLAYLIST st) as Hv.
    destruct (MakeVirtualDirectoryIfModified d n info DEVICE_PLAYLIST st) as [[[i|] d1] st1]; [|done].
    destruct (children d1 !! i) as [c|] eqn:Ei; [|done].
    pose proof (reports_trans _ _ _ Hv (DeleteDirectory_reports d1 i st1)) as Hd.
    destruct (rbind _ _) as [[e|]|]; [|done..]. cbv zeta.
    assert (reports (d, st) (set_child d1 i (add_tracks c 0 (e_songs e)), st1)) as Ha.
    { apply (reports_trans _ _ _ Hv). apply (set_child_reports d1 i c); [done|]. apply add_tracks_reports. }
    destruct (_ || _); [|done]. eapply reports_trans; [exact Ha|apply DeleteDirectory_reports]. }
  destruct (if as_folder plugin then _ else _) as [d1 st1].
  destruct (UpdateOrInsert _ _) as [pv m]. apply (reports_trans _ _ _ Hp). by apply reports_same.
Qed.

Lemma UpdateRegularFile_reports chain d n info st :
  let '(b, d', st') := UpdateRegularFile chain d n info st in reports (d, st) (d', st').
Proof.
  unfold UpdateRegularFile. destruct (GetFilenameSuffix n) as [suffix|]; [|done].
  pose proof (UpdateSongFile_reports d n suffix info st) as Hs.
  destruct (UpdateSongFile d n suffix info st) as [[[|] d1] st1]; [done|].
  pose proof (UpdateArchiveFile_reports chain d1 n suffix info st1) as Ha.
  destruct (UpdateArchiveFile chain d1 n suffix info st1) as [[[|] d2] st2]; [by apply (reports_trans _ _ _ Hs)|].
  pose proof (UpdatePlaylistFile_reports d2 n suffix info st2) as Hp.
  destruct (UpdatePlaylistFile d2 n suffix info st2) as [[b d3] st3].
  apply (reports_trans _ _ _ Hs). by apply (reports_trans _ _ _ Ha).
Qed.

(** ** The recursion *)

Lemma sync_stat_reports d up st : reports (d, st) (fst (sync_stat d up), st).
Proof. destruct up; [done|]. by apply reports_same. Qed.

Lemma tick_reports d st : reports (d, st) (d, tick st).
Proof. by apply reports_same. Qed.

Section Rec.
Context (update_directory : list Directory -> Directory -> ExcludeList -> StorageFileInfo -> WalkState ->
  option (bool * Directory * list Directory * WalkState)).
Context (update_directory_reports : forall chain d ex info st r d' up st',
  update_directory chain d ex info st = Some (r, d', up, st') -> reports (d, st) (d', st')).

Lemma UpdateDirectoryChild_reports chain d ex name info st d' chain' st' :
  UpdateDirectoryChild update_directory chain d ex name info st = Some (d', chain', st') ->
  reports (d, st) (d', st').
Proof.
  unfold UpdateDirectoryChild. destruct (IsRegular info).
  { pose proof (UpdateRegularFile_reports chain d name info st) as Hk.
    destruct (UpdateRegularFile chain d name info st) as [[b d1] st1]. by intros [= <- _ <-]. }
  destruct (IsDirectory info); [|by intros [= <- _ <-]].
  destruct (FindAncestorLoop _ _ _) as [found up]. pose proof (sync_stat_reports d up st) as Hk1.
  destruct (sync_stat d up) as [d1 chain1]. cbn [fst] in Hk1.
  destruct (negb (found =? 0)); [by intros [= <- _ <-]|].
  pose proof (reports_trans _ _ _ Hk1 (MakeChild_reports d1 name st)) as Hk2.
  destruct (FindChild_pos (MakeChild d1 name) name ≫= _) as [[i c]|] eqn:E; [|by intros [= <- _ <-]].
  apply find_child_Some in E as [Hi _].
  destruct (update_directory _ c ex info st) as [[[[r c'] up'] st1]|] eqn:Eu; [|done].
  apply update_directory_reports in Eu. pose proof (sync_stat_reports (MakeChild d1 name) up' st) as Hk3.
  assert (children (fst (sync_stat (MakeChild d1 name) up')) = children (MakeChild d1 name)) as Hch
    by (by destruct up').
  destruct (sync_stat (MakeChild d1 name) up') as [d2 chain2]. cbn [fst] in Hk3, Hch.
  assert (reports (d, st) (set_child d2 i c', st1)) as Hk4.
  { apply (reports_trans _ _ _ Hk2), (reports_trans _ _ _ Hk3).
    apply (set_child_reports d2 i c); [by rewrite Hch|done]. }
  destruct r; [by intros [= <- _ <-]|].
  pose proof (DeleteDirectory_reports (set_child d2 i c') i st1) as Hk5.
  destruct (DeleteDirectory _ i st1) as [d3 st2]. intros [= <- _ <-]. by apply (reports_trans _ _ _ Hk4).
Qed.

Lemma read_entries_reports ex entries : forall chain d st d' chain' st',
  read_entries update_directory ex entries chain d st = Some (d', chain', st') -> reports (d, st) (d', st').
Proof.
  induction entries as [|[name info] entries IH]; intros chain d st d' chain' st'; cbn [read_entries];
    (destruct (cancel (ticks st)); [intros [= <- _ <-]; apply tick_reports|]);
    [intros [= <- _ <-]; apply tick_reports|].
  assert (forall d1 chain1 st1, reports (d, tick st) (d1, st1) ->
    read_entries update_directory ex entries chain1 d1 st1 = Some (d', chain', st') ->
    reports (d, st) (d', st')) as Hnext.
  { intros d1 chain1 st1 Hk E%IH. apply (reports_trans _ _ _ (tick_reports d st)). by apply (reports_trans _ _ _ Hk). }
  destruct (skip_path name); [by apply Hnext|].
  destruct (match PathFromUTF8 name with None => true | Some _ => _ end); [by apply Hnext|].
  pose proof (DeleteNameIn_reports d name (tick st)) as Hk.
  destruct (SkipSymlink (d :: chain) name).
  { destruct (DeleteNameIn d name (tick st)) as [[m d1] st1]. apply Hnext. by apply reports_modified. }
  destruct (ok_or_none info) as [info'|].
  - destruct (UpdateDirectoryChild _ _ _ _ _ _ _) as [[[d1 chain1] st1]|] eqn:Eu; [|done].
    apply Hnext. by eapply UpdateDirectoryChild_reports.
  - destruct (DeleteNameIn d name (tick st)) as [[m d1] st1]. apply Hnext. by apply reports_modified.
Qed.

Lemma DirectoryMakeChildChecked_reports chain d uri name st :
  let '(o, d', chain', st') := DirectoryMakeChildChecked chain d uri name st in reports (d, st) (d', st').
Proof.
  unfold DirectoryMakeChildChecked.
  destruct (FindChild_pos d name ≫= _) as [[i c]|]; [by destruct (IsMount c)|].
  destruct (GetInfo uri) as [info|]; [|done].
  destruct (FindAncestorLoop _ _ _) as [found up]. pose proof (sync_stat_reports d up st) as Hk1.
  destruct (sync_stat d up) as [d1 chain1]. cbn [fst] in Hk1. destruct (negb (found =? 0)); [done|].
  destruct (SkipSymlink _ _); [done|].
  assert (reports (d1, st) (match FindSong_pos d1 name with Some i => DeleteSong d1 i st | None => (d1, st) end)) as Hk2.
  { destruct (FindSong_pos d1 name) as [i|]; [|done]. apply DeleteSong_reports. }
  destruct (match FindSong_pos d1 name with Some _ => _ | None => _ end) as [d2 st2].
  apply (reports_trans _ _ _ Hk1), (reports_trans _ _ _ Hk2).
  apply (reports_trans _ (CreateChild d2 name, st2)).
  - apply reports_more; [done|done| |eauto|done]. intros c Hc. exists c. split; [|done]. simpl.
    apply elem_of_app. by left.
  - apply alter_child_reports; [|done]. intros c _. by apply reports_same.
Qed.

Lemma UpdateUri_from_reports segs uri : forall chain d st d' chain' st',
  UpdateUri_from update_directory segs uri chain d st = Some (d', chain', st') -> reports (d, st) (d', st').
Proof.
  induction segs as [|name rest IH]; intros chain d st d' chain' st'; [|destruct rest as [|r rest]].
  1-2: cbn [UpdateUri_from]; unfold UpdateUri_in; pose proof (DeleteNameIn_reports d (GetBase uri) st) as Hk;
    destruct (SkipSymlink _ _);
    [|destruct (GetInfo uri) as [info|]; [apply UpdateDirectoryChild_reports|]];
    destruct (DeleteNameIn d (GetBase uri) st) as [[m d1] st1]; intros [= <- _ <-]; by apply reports_modified.
  rewrite UpdateUri_from_cons. destruct (name =b []); [apply IH|].
  pose proof (DirectoryMakeChildChecked_reports chain d name name st) as Hk.
  destruct (DirectoryMakeChildChecked chain d name name st) as [[[[i|] d1] chain1] st1];
    [|by intros [= <- _ <-]].
  destruct (children d1 !! i) as [c|] eqn:Ei; [|by intros [= <- _ <-]].
  destruct (UpdateUri_from update_directory (r :: rest) uri (d1 :: chain1) c st1) as [[[c' up] st2]|] eqn:Er; [|done].
  apply IH in Er. pose proof (sync_stat_reports d1 up st1) as Hk1.
  assert (children (fst (sync_stat d1 up)) = children d1) as Hch by (by destruct up).
  destruct (sync_stat d1 up) as [d2 chain2]. cbn [fst] in Hk1, Hch. intros [= <- _ <-].
  apply (reports_trans _ _ _ Hk), (reports_trans _ _ _ Hk1).
  apply (set_child_reports d2 i c); [by rewrite Hch|done].
Qed.
End Rec.

Lemma UnmarkAllIn_reports d st : reports (d, st) (UnmarkAllIn d, st).
Proof.
  apply reports_more; [done|done| | |done].
  - intros c Hc. exists (with_mark c false). split; [by apply (list_elem_of_fmap_2 (fun i => with_mark i false))|].
    intros u. by rewrite !elem_clear_uris.
  - intros s Hs. exists (Song_with_mark s false).
    split; [by apply (list_elem_of_fmap_2 (fun i => Song_with_mark i false))|done].
Qed.

Lemma PurgeDeleted_reports d st : reports (d, st) (PurgeDeletedFromDirectory d st).
Proof.
  unfold PurgeDeletedFromDirectory.
  pose proof (DeleteIf_reports (fun child => negb (IsMount child) && negb (mark child))
    (fun song => negb (s_mark song)) d st) as Hk.
  destruct (DeleteIf _ _ d st) as [d1 st1]. apply (reports_trans _ _ _ Hk). by apply reports_same.
Qed.

Lemma UpdateDirectory_reports fuel : forall chain d ex info st r d' up st',
  UpdateDirectory fuel chain d ex info st = Some (r, d', up, st') -> reports (d, st) (d', st').
Proof.
  induction fuel as [|fuel IH]; intros chain d ex info st r d' up st'; [done|]. cbn [UpdateDirectory].
  set (d0 := directory_set_stat d info). assert (reports (d, st) (d0, st)) as Hk0 by by apply reports_same.
  destruct (storage_OpenDirectory (path d0)) as [reader|]; [|by intros [= _ <- _ <-]].
  set (cex := LoadExcludeList d0 (ExcludeList_of ex)).
  assert (reports (d0, st) (if negb (ExcludeList_IsEmpty cex) then RemoveExcludedFromDirectory d0 cex st else (d0, st)))
    as Hk1 by (destruct (negb _); [apply DeleteIf_reports|done]).
  destruct (if negb (ExcludeList_IsEmpty cex) then _ else _) as [d1 st1].
  destruct (read_entries _ _ _ _ _ _) as [[[d2 up2] st2]|] eqn:Eread; [|done].
  apply (read_entries_reports _ IH) in Eread. pose proof (PurgeDeleted_reports d2 st2) as Hk3.
  destruct (PurgeDeletedFromDirectory d2 st2) as [d3 st3]. intros [= _ <- _ <-].
  apply (reports_trans _ _ _ Hk0), (reports_trans _ _ _ Hk1), (reports_trans _ _ _ (UnmarkAllIn_reports d1 st1)),
    (reports_trans _ _ _ Eread), (reports_trans _ _ _ Hk3). by apply reports_same.
Qed.

(** ** The playlists *)

Lemma ClearInPlaylist_reports d st : reports (d, st) (ClearInPlaylist d, st).
Proof.
  assert (clear_uris (ClearInPlaylist d) = clear_uris d) as E.
  { induction d as [d IH] using Directory_ind'. rewrite !clear_uris_eq. destruct d as [cs ss ? ? ? ? ? ? ? ?].
    simpl in *. f_equal.
    - f_equal. rewrite map_map. induction IH as [|c cs Hc _ IHl]; [done|]. simpl. by f_equal.
    - by rewrite map_map. }
  split; [|done]. simpl. intros u. rewrite E. by left.
Qed.

Lemma alter_dir_reports f st st' : (forall u, u ∈ removed st -> u ∈ removed st') -> forall pos d,
  (forall d0, dir_at d pos = Some d0 -> reports (d0, st) (f d0, st')) -> reports (d, st) (alter_dir f pos d, st').
Proof.
  intros Hst pos. induction pos as [|i pos IH]; intros d Hf; [by apply Hf|]. cbn [alter_dir].
  apply alter_child_reports; [|done]. intros c Hc. apply IH. intros d0 Hd0. apply Hf. simpl. by rewrite Hc.
Qed.

Lemma DeleteSong_state d i st st0 : fst (DeleteSong d i st) = fst (DeleteSong d i st0).
Proof. unfold DeleteSong. by destruct (songs d !! i). Qed.

Lemma purge_playlist_reports n pos : forall i root st, reports (root, st) (purge_playlist n pos i root st).
Proof.
  induction n as [|n IH]; intros i root st; [done|]. cbn [purge_playlist].
  destruct (dir_at root pos) as [d|] eqn:Ed; [|done]. cbn [mbind option_bind].
  destruct (songs d !! i) as [s|] eqn:Es; [|done]. cbn [mbind option_bind].
  destruct (negb (target s =b []) && negb (IsAbsoluteOrHasScheme (target s))); [|apply IH].
  destruct (LookupTargetSong (S (length (target s))) root pos (target s)) as [[pos' j]|]; (eapply reports_trans; [|apply IH]).
  - apply alter_dir_reports; [done|]. intros d1 _. destruct (songs d1 !! j) as [s1|] eqn:E.
    + rewrite (alter_insert_eq _ _ _ _ E). by apply (set_song_reports d1 j s1).
    + rewrite alter_none by done. apply reports_same; done.
  - apply reports_set_modified. pose proof (DeleteSong_reports d i st) as [_ Hrem].
    apply alter_dir_reports; [exact Hrem|]. intros d1 Hd1. rewrite Ed in Hd1. injection Hd1 as <-.
    pose proof (DeleteSong_reports d i st) as Hd. by destruct (DeleteSong d i st).
Qed.

Lemma PurgeDangling_reports root st : reports (root, st) (PurgeDanglingFromPlaylists root st).
Proof.
  unfold PurgeDanglingFromPlaylists. generalize (postorder root). intros l. revert root st.
  induction l as [|pos l IH]; intros root st; [done|]. cbn [fold_left].
  assert (reports (root, st) (purge_at pos (root, st))) as Hk.
  { unfold purge_at. destruct (dir_at root pos) as [d|]; [|done]. destruct (negb (IsPlaylist d)); [done|].
    apply purge_playlist_reports. }
  destruct (purge_at pos (root, st)) as [root1 st1]. eapply reports_trans; [exact Hk|apply IH].
Qed.
End Ops.

(** ** Properties *)

(** C4: a song that was in the tree before an update, of the whole directory
    or of one path, is in the tree afterwards under the same URI, or its URI
    was reported as removed. *)
Theorem Walk_reports `{System} `{Storage} `{UpdateWalk} (fuel : nat) (root root' : Directory)
  (uri : option bytes) (m : bool) (uris : list bytes)
  (Hrun : Walk fuel root uri = Some (m, root', uris)) :
  forall u, u ∈ clear_uris root -> u ∈ clear_uris root' \/ u ∈ uris.
Proof.
  unfold Walk in Hrun. cbv zeta in Hrun. set (st := mkWalkState false [] 0) in *.
  assert (forall root1 st1, reports (root, st) (root1, st1) ->
    reports (root, st) (PurgeDanglingFromPlaylists (ClearInPlaylist root1) st1)) as Hfinish.
  { intros root1 st1 Hk. apply (reports_trans _ _ _ Hk), (reports_trans _ _ _ (ClearInPlaylist_reports root1 st1)).
    apply PurgeDangling_reports. }
  destruct (match uri with Some p => if isRootDirectory p then None else Some p | None => None end) as [p|].
  - unfold UpdateUri in Hrun.
    destruct (UpdateUri_from (UpdateDirectory fuel) _ p [] root st) as [[[root1 up] st1]|] eqn:Eu; [|done].
    apply (UpdateUri_from_reports _ (UpdateDirectory_reports fuel)) in Eu. specialize (Hfinish root1 st1 Eu).
    destruct (PurgeDanglingFromPlaylists _ _) as [root2 st2]. injection Hrun as _ <- <-. apply Hfinish.
  - destruct (GetInfo []) as [info|]; [|injection Hrun as _ <- _; by left].
    destruct (negb (IsDirectory info)); [injection Hrun as _ <- _; by left|].
    destruct (UpdateDirectory fuel [] root ExcludeList_new info st) as [[[[r root1] up] st1]|] eqn:Eu; [|done].
    apply UpdateDirectory_reports in Eu. specialize (Hfinish root1 st1 Eu).
    destruct (PurgeDanglingFromPlaylists _ _) as [root2 st2]. injection Hrun as _ <- <-. apply Hfinish.
Qed.

(** A tree with a song whose file is gone. *)
Definition stale_root : Directory := AddSong (CreateChild NewRoot (lit "old")) (Song_new (lit "gone.flac")).

Lemma Walk_reports_witness :
  exists m root' uris,
    @Walk sample_system sample_storage (sample_walk ALL) 4 stale_root None = Some (m, root', uris) /\
    (lit "gone.flac" ∈ clear_uris root' \/ lit "gone.flac" ∈ uris).
Proof.
  do 3 eexists. split; [vm_compute; reflexivity|].
  eapply (@Walk_reports sample_system sample_storage (sample_walk ALL) 4 stale_root _ None).
  - vm_compute. reflexivity.
  - apply (bool_decide_unpack _). vm_compute. exact I.
Defined.
