(* ===== verification/RemoveService.v ===== *)
(** Telling the main thread which songs are gone: [UpdateRemoveService] in
    [src/db/update/Remove.cxx], with the inject queue of
    [src/event/Loop.cxx] it goes through and the end of the update thread in
    [src/db/update/Service.cxx].

    Two threads: the update thread removes songs and ends, the main thread
    runs the event loop.  Each step is one critical section, or one access
    outside of one; the interleavings are the runs of the step relation.
    Only the two inject events of the update occur here. *)
From S2P Require Import Prelude.
From stdpp Require Import relations.

(** [UpdateRemoveService::defer] and [UpdateService::defer]. *)
Inductive InjectEvent := RemoveEvent | ServiceEvent.

#[export] Instance InjectEvent_eq_dec : EqDecision InjectEvent.
Proof. solve_decision. Defined.

(** Where the update thread is: between two calls of [Remove], before
    [InjectEvent::Schedule], after it but before the wake-up is written, at
    its end. *)
Inductive UpdateThread := Running | Scheduling (e : InjectEvent) | Waking (e : InjectEvent) | Exited.

(** Where the main thread is: in [EventLoop::Run] outside of any callback,
    in a callback, copying the list of URIs to the listener, waiting, and
    woken up by the inject queue or by a timer but not yet busy. *)
Inductive MainThread :=
| Looping
| InCallback (e : InjectEvent)
| Delivering (copy : list bytes)
| Asleep
| Woken
| TimedOut.

Record RemoveState := mkRemoveState
  { todo : list bytes;         (** what the walk has still to remove *)
    thread : UpdateThread;
    main : MainThread;
    uris : list bytes;         (** [UpdateRemoveService::uris] *)
    inject : list InjectEvent; (** [EventLoop::inject] *)
    again : bool;
    wake_fd : bool;
    walk_exists : bool;        (** [UpdateService::walk], which owns the remove service *)
    delivered : list bytes }.  (** calls of [OnDatabaseSongRemoved] *)

Definition RemoveState_new (us : list bytes) : RemoveState :=
  mkRemoveState us Running Looping [] [] false false true [].

(** [EventLoop::busy] *)
Definition busy (m : MainThread) : bool :=
  match m with Asleep | Woken | TimedOut => false | _ => true end.

(** Where the update thread goes on after scheduling. *)
Definition after (e : InjectEvent) : UpdateThread :=
  match e with RemoveEvent => Running | ServiceEvent => Exited end.

(** The critical section of [UpdateRemoveService::Remove], and whether
    [Schedule] follows. *)
Definition Remove (uri : bytes) (us : list bytes) : bool * list bytes :=
  (match us with [] => true | _ => false end, uri :: us).

(** The critical section of [EventLoop::AddInject]: whether the wake-up is
    to be written, [inject] and [again]. *)
Definition AddInject (d : InjectEvent) (m : MainThread) (l : list InjectEvent) (ag : bool)
  : bool * list InjectEvent * bool :=
  if bool_decide (d ∈ l) then (false, l, ag)
  else (negb (busy m) && match l with [] => true | _ => false end, l ++ [d], true).

(** [EventLoop::RemoveInject] *)
Definition RemoveInject (d : InjectEvent) (l : list InjectEvent) : list InjectEvent :=
  List.filter (fun e => negb (bool_decide (e = d))) l.

(** The steps of the two threads.  Waking up because of a timer is apart. *)
Inductive step : RemoveState -> RemoveState -> Prop :=
| step_Remove u t us l ag w a del m :
    step (mkRemoveState (u :: t) Running m us l ag w a del)
         (mkRemoveState t (if fst (Remove u us) then Scheduling RemoveEvent else Running) m
            (snd (Remove u us)) l ag w a del)
| step_Task_end us l ag w a del m :
    step (mkRemoveState [] Running m us l ag w a del)
         (mkRemoveState [] (Scheduling ServiceEvent) m us l ag w a del)
| step_AddInject t e m us l ag w a del must_wake l' ag' :
    AddInject e m l ag = (must_wake, l', ag') ->
    step (mkRemoveState t (Scheduling e) m us l ag w a del)
         (mkRemoveState t (if must_wake then Waking e else after e) m us l' ag' w a del)
| step_Write t e m us l ag w a del :
    step (mkRemoveState t (Waking e) m us l ag w a del)
         (mkRemoveState t (after e) m us l ag true a del)
| step_HandleInject t p us e l ag w a del :
    step (mkRemoveState t p Looping us (e :: l) ag w a del)
         (mkRemoveState t p (InCallback e) us l ag w a del)
| step_swap t p us l ag w a del :
    step (mkRemoveState t p (InCallback RemoveEvent) us l ag w a del)
         (mkRemoveState t p (Delivering us) [] l ag w a del)
| step_deliver t p u c us l ag w a del :
    step (mkRemoveState t p (Delivering (u :: c)) us l ag w a del)
         (mkRemoveState t p (Delivering c) us l ag w a (del ++ [u]))
| step_return t p us l ag w a del :
    step (mkRemoveState t p (Delivering []) us l ag w a del)
         (mkRemoveState t p Looping us l ag w a del)
(** [UpdateService::RunDeferred]: joins the thread and deletes the walk,
    with what the remove service still holds. *)
| step_RunDeferred t us l ag w a del :
    step (mkRemoveState t Exited (InCallback ServiceEvent) us l ag w a del)
         (mkRemoveState t Exited Looping [] (RemoveInject RemoveEvent l) ag w false del)
| step_again t p us w a del :
    step (mkRemoveState t p Looping us [] true w a del)
         (mkRemoveState t p Looping us [] false w a del)
| step_Wait t p us w a del :
    step (mkRemoveState t p Looping us [] false w a del)
         (mkRemoveState t p Asleep us [] false w a del)
| step_wake t p us l ag a del :
    step (mkRemoveState t p Asleep us l ag true a del)
         (mkRemoveState t p Woken us l ag true a del)
| step_OnWake t p us l ag a del :
    step (mkRemoveState t p Woken us l ag true a del)
         (mkRemoveState t p Looping us l ag false a del)
| step_timed t p us l ag w a del :
    step (mkRemoveState t p TimedOut us l ag w a del)
         (mkRemoveState t p Looping us l ag w a del).

Inductive timer : RemoveState -> RemoveState -> Prop :=
| timer_expires t p us l ag w a del :
    timer (mkRemoveState t p Asleep us l ag w a del)
          (mkRemoveState t p TimedOut us l ag w a del).

Definition any_step (s s' : RemoveState) : Prop := step s s' \/ timer s s'.

(** What can happen when the walk removes [us]. *)
Definition reachable (us : list bytes) (s : RemoveState) : Prop := rtc any_step (RemoveState_new us) s.

(** ** The invariant *)

Definition copy_of (m : MainThread) : list bytes := match m with Delivering c => c | _ => [] end.

Record inv (us : list bytes) (s : RemoveState) : Prop := mkInv
  { i_perm : us ≡ₚ todo s ++ uris s ++ copy_of (main s) ++ delivered s;
    i_inject : inject s = [] \/ inject s = [RemoveEvent] \/ inject s = [ServiceEvent] \/
      inject s = [RemoveEvent; ServiceEvent];
    i_pending : uris s <> [] ->
      RemoveEvent ∈ inject s \/ thread s = Scheduling RemoveEvent \/ main s = InCallback RemoveEvent;
    i_done : thread s = Scheduling ServiceEvent \/ thread s = Waking ServiceEvent \/ thread s = Exited -> todo s = [];
    i_service : ServiceEvent ∈ inject s \/ main s = InCallback ServiceEvent ->
      thread s = Waking ServiceEvent \/ thread s = Exited;
    i_last : main s = InCallback ServiceEvent -> inject s = [];
    i_asleep : main s = Asleep -> inject s <> [] -> wake_fd s = true \/ exists e, thread s = Waking e;
    i_woken : main s = Woken -> wake_fd s = true;
    i_alive : thread s = Waking ServiceEvent \/ thread s = Exited -> walk_exists s = true ->
      ServiceEvent ∈ inject s \/ main s = InCallback ServiceEvent;
    i_dead : walk_exists s = false -> thread s = Exited /\ inject s = [] /\ uris s = [] /\ copy_of (main s) = [] /\
      main s <> InCallback RemoveEvent }.

Ltac events :=
  repeat match goal with
  | H : _ \/ _ |- _ => destruct H
  | H : _ /\ _ |- _ => destruct H
  | H : exists _, _ |- _ => destruct H
  end; subst; simplify_eq; try set_solver.

Lemma remove_inv_new us : inv us (RemoveState_new us).
Proof. constructor; simpl; try done; try set_solver. by rewrite !app_nil_r. Qed.

(** Only an event that is not pending, or after which nothing else is
    scheduled, is added. *)
Lemma inv_AddInject us0 t e m us l ag w a del must_wake l' ag' :
  inv us0 (mkRemoveState t (Scheduling e) m us l ag w a del) -> AddInject e m l ag = (must_wake, l', ag') ->
  inv us0 (mkRemoveState t (if must_wake then Waking e else after e) m us l' ag' w a del).
Proof.
  intros [H1 H2 H3 H4 H5 H6 H7 H10 H8 H9] Ha. simpl in *.
  assert (ServiceEvent ∉ l) as Hs by (intros Hs; destruct (H5 (or_introl Hs)); done).
  assert (m <> InCallback ServiceEvent) as Hm by (intros Hm; destruct (H5 (or_intror Hm)); done).
  assert (a = true) as -> by (destruct a; [done|]; destruct (H9 eq_refl); done).
  assert (l = [] \/ l = [RemoveEvent]) as Hl by (destruct H2 as [-> | [-> | [-> | ->]]]; [by left|by right|set_solver..]).
  assert ((must_wake = true \/ must_wake = false) /\
    (m = Asleep -> l = [] -> must_wake = true) /\ l' = (if bool_decide (e ∈ l) then l else l ++ [e])) as (Hb & Hw & ->).
  { split; [by destruct must_wake; auto|]. unfold AddInject in Ha. case_bool_decide; injection Ha as <- <- <-.
    - split; [|done]. intros -> ->. set_solver.
    - split; [|done]. by intros -> ->. }
  clear Ha. destruct e; constructor; simpl.
  all: try done.
  all: try (intros; congruence).
  - destruct Hl as [-> | ->]; simpl; auto.
  - left. destruct Hl as [-> | ->]; simpl; set_solver.
  - destruct Hb as [-> | ->]; simpl; intros [|[|]]; done.
  - destruct Hl as [-> | ->]; simpl; set_solver.
  - intros Hm' _. destruct Hl as [-> | ->]; [right; rewrite Hw by done; eauto|].
    destruct (H7 Hm' ltac:(done)) as [|[]]; [by left|done].
  - destruct Hb as [-> | ->]; simpl; intros [|]; done.
  - destruct Hl as [-> | ->]; simpl; auto.
  - intros Hu. destruct (H3 Hu) as [Hr|[Hr|Hr]]; [left|done|by right; right]. destruct Hl as [-> | ->]; set_solver.
  - intros _. apply H4. by left.
  - destruct Hb as [-> | ->]; simpl; auto.
  - intros Hm' _. destruct Hl as [-> | ->]; [right; rewrite Hw by done; eauto|].
    destruct (H7 Hm' ltac:(done)) as [|[]]; [by left|done].
  - intros _ _. left. destruct Hl as [-> | ->]; simpl; set_solver.
Qed.

(** The fields a step of the main thread keeps. *)
Ltac fields H3 H5 H8 H9 :=
  first
    [ by intros [Hx|Hx]; [apply H5; by left|]
    | by let Hp := fresh in let Ha := fresh in intros Hp Ha; destruct (H8 Hp Ha); [by left|]
    | by let Hx := fresh in intros Hx; destruct (H9 Hx) as (? & ? & ? & ? & ?)
    | by let Hu := fresh in intros Hu; destruct (H3 Hu) as [|[|]]; auto ].

Lemma inv_step us s s' : inv us s -> step s s' -> inv us s'.
Proof.
  intros Hi Hs. destruct Hi as [H1 H2 H3 H4 H5 H6 H7 H10 H8 H9].
  destruct Hs; simpl in *.
  - constructor; simpl; try done.
    + rewrite H1. simpl. by rewrite Permutation_middle.
    + intros _. destruct us0; [by right; left|]. apply H3; done.
    + destruct us0; events.
    + intros Hx. destruct (H5 Hx); done.
    + intros Hm Hl. destruct (H7 Hm Hl) as [->|[e ?]]; [by left|done].
    + destruct us0; events.
    + intros Hx. destruct (H9 Hx). done.
  - constructor; simpl; try done.
    + intros Hu. destruct (H3 Hu) as [|[|]]; [by left|done|by right; right].
    + intros Hx. destruct (H5 Hx); done.
    + intros Hm Hl. destruct (H7 Hm Hl) as [->|[e ?]]; [by left|done].
    + events.
    + intros Hx. destruct (H9 Hx). done.
  - eapply inv_AddInject; [|done]. by constructor.
  - (* the wake-up is written *)
    constructor; simpl; try done; destruct e; simpl in *; try (by intros [|[|]]); auto.
    all: first [by intros Hx; destruct (H3 Hx) as [|[|]]; auto | by intros Hx; destruct (H5 Hx)
      | by intros Hx; destruct (H9 Hx) | by intros _; right | by intros _ Hx; apply H8; auto | by intros [|]].
  - (* an event is taken from the queue *)
    assert (e = RemoveEvent /\ (l = [] \/ l = [ServiceEvent]) \/ e = ServiceEvent /\ l = []) as He
      by (destruct H2 as [|[|[|]]]; simplify_eq; auto).
    constructor; simpl in *; try done.
    + destruct He as [[_ [-> | ->]]|[_ ->]]; auto.
    + intros Hu. destruct He as [[-> _]|[-> ->]]; [by right; right|].
      destruct (H3 Hu) as [|[|]]; [set_solver|by right; left|done].
    + intros [Hx|Hx]; apply H5; left; [by right|]. injection Hx as ->. by left.
    + intros [= ->]. by destruct He as [[]|[_ ->]].
    + intros Hp Ha. destruct (H8 Hp Ha) as [[<-|Hx]%elem_of_cons|]; [by right|by left|done].
    + intros Hx. by destruct (H9 Hx) as (_ & ? & _).
  - (* RunDeferred takes the list *)
    constructor; simpl in *; try done; try tauto; fields H3 H5 H8 H9.
  - (* a URI is delivered *)
    constructor; simpl in *; try done; try tauto; try fields H3 H5 H8 H9.
    rewrite H1. apply Permutation_app_head, Permutation_app_head. by rewrite app_assoc, <- Permutation_cons_append.
  - constructor; simpl in *; try done; try tauto; fields H3 H5 H8 H9.
  - (* the walk is destroyed *)
    specialize (H6 eq_refl). subst l.
    assert (us0 = []) as -> by (destruct us0; [done|]; destruct (H3 ltac:(done)) as [|[|]]; [set_solver|done..]).
    constructor; simpl in *; try done; auto.
  - constructor; simpl in *; try done; try tauto.
  - constructor; simpl in *; try done; try tauto; fields H3 H5 H8 H9.
  - constructor; simpl in *; try done; try tauto; fields H3 H5 H8 H9.
  - constructor; simpl in *; try done; try tauto; fields H3 H5 H8 H9.
  - constructor; simpl in *; try done; try tauto; fields H3 H5 H8 H9.
Qed.

Lemma inv_timer us s s' : inv us s -> timer s s' -> inv us s'.
Proof.
  intros [H1 H2 H3 H4 H5 H6 H7 H10 H8 H9] Hs. destruct Hs; simpl in *.
  constructor; simpl in *; try done; try tauto; fields H3 H5 H8 H9.
Qed.

Lemma inv_reachable us s : reachable us s -> inv us s.
Proof.
  unfold reachable. generalize (remove_inv_new us). generalize (RemoveState_new us).
  induction 2 as [|s0 s1 s2 [Hs|Hs] _ IH]; [done|..]; apply IH; [by eapply inv_step|by eapply inv_timer].
Qed.

(** ** Progress *)

(** A state with [P] is reached on every path. *)
Inductive eventually {A} (R : A -> A -> Prop) (P : A -> Prop) (s : A) : Prop :=
| eventually_now : P s -> eventually R P s
| eventually_later : (exists s', R s s') -> (forall s', R s s' -> eventually R P s') -> eventually R P s.

Lemma eventually_weight {A} (R : A -> A -> Prop) (w : A -> nat) (I P : A -> Prop) :
  (forall s s', I s -> R s s' -> I s') -> (forall s s', R s s' -> (w s' < w s)%nat) ->
  (forall s, I s -> P s \/ exists s', R s s') -> forall s, I s -> eventually R P s.
Proof.
  intros HI Hw Hp s. induction (well_founded_ltof _ w s) as [s _ IH]. intros Hs.
  destruct (Hp s Hs) as [|Hstep]; [by apply eventually_now|]. apply eventually_later; [done|].
  intros s' Hs'. apply IH; [by apply Hw|by eapply HI].
Qed.

Definition thread_weight (t : UpdateThread) : nat :=
  match t with
  | Running => 10
  | Scheduling RemoveEvent => 19
  | Scheduling ServiceEvent => 9
  | Waking RemoveEvent => 14
  | Waking ServiceEvent => 4
  | Exited => 0
  end.

Definition main_weight (m : MainThread) : nat :=
  match m with
  | Looping => 3
  | InCallback _ => 5
  | Delivering c => 4 + length c
  | Asleep => 2
  | Woken => 1
  | TimedOut => 4
  end.

(** Every step but the expiry of a timer uses some of this up. *)
Definition weight (s : RemoveState) : nat :=
  12 * length (todo s) + 2 * length (uris s) + 3 * length (inject s) + thread_weight (thread s) +
  main_weight (main s) + (if again s then 1 else 0) + (if wake_fd s then 3 else 0).

Lemma step_weight s s' : step s s' -> (weight s' < weight s)%nat.
Proof.
  destruct 1; unfold weight; simpl.
  - destruct us; simpl; lia.
  - lia.
  - unfold AddInject in *. case_bool_decide; simplify_eq.
    + destruct e, ag', w; simpl; lia.
    + rewrite length_app. destruct e, ag, w, (negb (busy m) && _); simpl; lia.
  - destruct e, w; simpl; lia.
  - lia.
  - lia.
  - lia.
  - lia.
  - pose proof (filter_length_le (fun e => negb (bool_decide (e = RemoveEvent))) l). unfold RemoveInject. lia.
  - lia.
  - lia.
  - lia.
  - lia.
  - lia.
Qed.

Lemma progress us s : reachable us s -> walk_exists s = true -> exists s', step s s'.
Proof.
  intros [H1 H2 H3 H4 H5 H6 H7 H10 H8 H9]%inv_reachable Ha.
  destruct s as [t p m us0 l ag w a del]. simpl in *. subst a.
  destruct p as [|e|e|].
  - destruct t as [|u t]; eexists; constructor.
  - destruct (AddInject e m l ag) as [[b l'] ag'] eqn:E. eexists. by eapply step_AddInject.
  - eexists. constructor.
  - destruct m as [|[|]|[|u c]| | |].
    + destruct l as [|e l]; [|eexists; constructor]. destruct ag; eexists; constructor.
    + eexists; constructor.
    + eexists; constructor.
    + eexists; constructor.
    + eexists; constructor.
    + destruct (H8 (or_intror eq_refl) eq_refl) as [Hin|]; [|done].
      destruct (H7 eq_refl) as [->|[e ?]]; [by destruct l; [set_solver|]| |done]. eexists; constructor.
    + rewrite H10 by done. eexists; constructor.
    + eexists; constructor.
Qed.

(** ** Properties *)

(** C11: when the update is over, every URI the walk removed has been
    delivered to the listener exactly once, whatever the interleaving of the
    update thread and the event loop: nothing is lost when the walk and with
    it the list of pending URIs is deleted. *)
Theorem removed_delivered_once (us : list bytes) (s : RemoveState) (Hr : reachable us s)
  (Hdone : walk_exists s = false) : delivered s ≡ₚ us.
Proof.
  apply inv_reachable in Hr as [H1 _ _ H4 _ _ _ _ _ H9].
  destruct (H9 Hdone) as (Ht & _ & Hu & Hc & _). rewrite H4, Hu, Hc in H1 by auto. by rewrite H1.
Qed.

(** C12: the update always comes to its end: in every situation that can
    arise, if no timer expires from now on, some thread can go on until the
    walk is destroyed, and whichever does, it is destroyed after finitely
    many steps: no wake-up of the event loop is lost. *)
Theorem update_ends (us : list bytes) (s : RemoveState) (Hr : reachable us s) :
  eventually step (fun s' => walk_exists s' = false) s.
Proof.
  apply (eventually_weight step weight (reachable us)); [|apply step_weight|..|done].
  - intros s1 s2 Hr1 Hs. eapply rtc_r; [exact Hr1|by left].
  - intros s1 Hr1. destruct (walk_exists s1) eqn:Ha; [right; by eapply progress|by left].
Qed.

(** ** A run with two removals in which the event loop is asleep at first *)

Definition sample_end : RemoveState :=
  mkRemoveState [] Exited Looping [] [] false false false [lit "b"; lit "a"].

Lemma sample_run : reachable [lit "a"; lit "b"] sample_end.
Proof.
  unfold reachable, RemoveState_new.
  eapply rtc_l; [left; apply step_Wait|].
  eapply rtc_l; [left; apply step_Remove|]. simpl.
  eapply rtc_l; [left; by eapply step_AddInject|]. simpl.
  eapply rtc_l; [left; apply step_Write|]. simpl.
  eapply rtc_l; [left; apply step_Remove|]. simpl.
  eapply rtc_l; [left; apply step_wake|].
  eapply rtc_l; [left; apply step_OnWake|].
  eapply rtc_l; [left; apply step_HandleInject|].
  eapply rtc_l; [left; apply step_swap|].
  eapply rtc_l; [left; apply step_Task_end|].
  eapply rtc_l; [left; by eapply step_AddInject|]. simpl.
  eapply rtc_l; [left; apply step_deliver|].
  eapply rtc_l; [left; apply step_deliver|].
  eapply rtc_l; [left; apply step_return|].
  eapply rtc_l; [left; apply step_HandleInject|].
  eapply rtc_l; [left; apply step_RunDeferred|].
  eapply rtc_l; [left; apply step_again|]. apply rtc_refl.
Qed.

Lemma removed_delivered_once_witness : delivered sample_end ≡ₚ [lit "a"; lit "b"].
Proof. exact (removed_delivered_once [lit "a"; lit "b"] sample_end sample_run eq_refl). Defined.

Lemma update_ends_witness :
  eventually step (fun s' => walk_exists s' = false) (RemoveState_new [lit "a"; lit "b"]).
Proof. apply (update_ends [lit "a"; lit "b"]). apply rtc_refl. Defined.
