(* ===== verification/Service.v ===== *)
(** The update service in the main thread: [src/db/update/Queue.cxx] and
    [Service.cxx].

    Databases and storages are identified by numbers ([mounted_database] of
    a directory is one); [Service] says which of the databases are simple
    ones and what [CompositeStorage::GetMount] finds.  The update thread is
    not here ([RemoveService] and [Walk]): the deferred call that follows
    its end is an operation, with the [modified] flag it has set. *)
From S2P Require Import Prelude Text Directory.
Open Scope Z_scope.

(** ** Queue.hxx, Queue.cxx *)

(** The default constructor leaves the other fields uninitialised. *)
Record UpdateQueueItem := mkItem
  { i_db : nat; i_storage : nat; path_utf8 : bytes; discard : bool; id : Z }.

Definition UpdateQueueItem_none : UpdateQueueItem := mkItem 0 0 [] false 0.
Definition Item_IsDefined (i : UpdateQueueItem) : bool := negb (id i =? 0).

Notation UpdateQueue := (list UpdateQueueItem) (only parsing).
Definition MAX_UPDATE_QUEUE_SIZE : nat := 32.

(** The return value and the queue. *)
Definition Push (q : UpdateQueue) (i : UpdateQueueItem) : bool * UpdateQueue :=
  if Nat.leb MAX_UPDATE_QUEUE_SIZE (length q) then (false, q) else (true, q ++ [i]).
Definition Pop (q : UpdateQueue) : UpdateQueueItem * UpdateQueue :=
  match q with [] => (UpdateQueueItem_none, []) | i :: q => (i, q) end.
Definition Erase_db (q : UpdateQueue) (db : nat) : UpdateQueue :=
  List.filter (fun i => negb (Nat.eqb (i_db i) db)) q.
Definition Erase_storage (q : UpdateQueue) (storage : nat) : UpdateQueue :=
  List.filter (fun i => negb (Nat.eqb (i_storage i) storage)) q.

(** ** Service.hxx, Service.cxx *)

Definition update_task_id_max : Z := Z.shiftl 1 15.

(** [walk]: null or whether it was cancelled. *)
Record UpdateService := mkService
  { update_task_id : Z; queue : UpdateQueue; next : UpdateQueueItem; walk : option bool; modified : bool }.

Definition UpdateService_new : UpdateService := mkService 0 [] UpdateQueueItem_none None false.

Definition GetId (s : UpdateService) : Z := id (next s).

(** What others see: a thread is started, an idle event is emitted, the
    listener is told of the modification. *)
Inductive Effect := ThreadStarted (i : UpdateQueueItem) | IdleUpdate | DatabaseModified.

Definition GenerateId (s : UpdateService) : Z :=
  let id := update_task_id s + 1 in if update_task_id_max <? id then 1 else id.

Definition StartThread (s : UpdateService) (i : UpdateQueueItem) : UpdateService * list Effect :=
  (mkService (update_task_id s) (queue s) i (Some false) false, [ThreadStarted i]).

Class ServiceEnv := {
  (** the root of the service's own database, which has the number 0 *)
  root_directory : Directory;
  (** [dynamic_cast<SimpleDatabase *>] succeeds *)
  is_simple : nat -> bool;
  GetMount : bytes -> option nat }.

Section Service.
Context `{ServiceEnv}.

(** The database, the storage and the path of a job. *)
Definition resolve (path : bytes) : result (nat * nat * bytes) :=
  let lr := LookupDirectory root_directory path in
  let* job :=
    match dir_at root_directory (lr_directory lr) ≫= mounted_database with
    | Some db2 =>
        if negb (is_simple db2) then Throw (lit "Cannot update this type of database")
        else match lr_rest lr with
             | None => Ok (db2, GetMount path, [])
             | Some rest => Ok (db2, GetMount (lr_uri lr), rest)
             end
    | None => Ok (0%nat, GetMount [], path)
    end in
  match job with
  | (_, None, _) => Throw (lit "No storage at this path")
  | (db2, Some storage2, path) => Ok (db2, storage2, path)
  end.

(** The id of the new job.  An exception leaves the service as it was. *)
Definition Enqueue (s : UpdateService) (path : bytes) (discard : bool)
  : result (Z * UpdateService * list Effect) :=
  let* job := resolve path in
  let '(db2, storage2, path) := job in
  let id := GenerateId s in
  match walk s with
  | Some _ =>
      match Push (queue s) (mkItem db2 storage2 path discard id) with
      | (false, _) => Throw (lit "Update queue is full")
      | (true, q) => Ok (id, mkService id q (next s) (walk s) (modified s), [])
      end
  | None =>
      let s := mkService id (queue s) (next s) (walk s) (modified s) in
      let '(s, effects) := StartThread s (mkItem db2 storage2 path discard id) in
      Ok (id, s, effects ++ [IdleUpdate])
  end.

(** The call after the end of the update thread, which has set [modified]. *)
Definition RunDeferred (s : UpdateService) (task_modified : bool) : UpdateService * list Effect :=
  let next := mkItem (i_db (next s)) (i_storage (next s)) (path_utf8 (next s)) (discard (next s)) 0 in
  let effects := IdleUpdate :: if task_modified then [DatabaseModified] else [] in
  let '(i, q) := Pop (queue s) in
  let s := mkService (update_task_id s) q next None task_modified in
  if Item_IsDefined i then let '(s, e) := StartThread s i in (s, effects ++ e) else (s, effects).

Definition CancelAllAsync (s : UpdateService) : UpdateService :=
  mkService (update_task_id s) [] (next s) (option_map (fun _ => true) (walk s)) (modified s).

(** Where the current walk is cancelled, the thread is joined. *)
Definition CancelMount (s : UpdateService) (uri : bytes) : UpdateService :=
  let lr := LookupDirectory root_directory uri in
  match dir_at root_directory (lr_directory lr) ≫= mounted_database with
  | None => s
  | Some db =>
      let '(q, cancel_current) :=
        match GetMount uri with
        | Some storage2 =>
            (Erase_storage (queue s) storage2, Item_IsDefined (next s) && Nat.eqb (i_storage (next s)) storage2)
        | None => (queue s, false)
        end in
      let '(q, cancel_current) :=
        if is_simple db
        then (Erase_db q db, cancel_current || (Item_IsDefined (next s) && Nat.eqb (i_db (next s)) db))
        else (q, cancel_current) in
      mkService (update_task_id s) q (next s)
        (if cancel_current then option_map (fun _ => true) (walk s) else walk s) (modified s)
  end.

(** ** The operations as steps *)

Inductive Op := OpEnqueue (path : bytes) (discard : bool) | OpTaskEnd (modified : bool) | OpCancelAll | OpCancelMount (uri : bytes).

(** The jobs accepted, the effects and the service, after one more
    operation.  The deferred call comes only when an update was running. *)
Definition exec (op : Op) (s : UpdateService) : list UpdateQueueItem * list Effect * UpdateService :=
  match op with
  | OpEnqueue path d =>
      match Enqueue s path d, resolve path with
      | Ok (i, s, e), Ok (db, storage, p) => ([mkItem db storage p d i], e, s)
      | _, _ => ([], [], s)
      end
  | OpTaskEnd m =>
      match walk s with Some _ => let '(s, e) := RunDeferred s m in ([], e, s) | None => ([], [], s) end
  | OpCancelAll => ([], [], CancelAllAsync s)
  | OpCancelMount uri => ([], [], CancelMount s uri)
  end.

Fixpoint run (ops : list Op) (s : UpdateService) : list UpdateQueueItem * list Effect * UpdateService :=
  match ops with
  | [] => ([], [], s)
  | op :: ops =>
      let '(a, e, s) := exec op s in
      let '(a', e', s) := run ops s in (a ++ a', e ++ e', s)
  end.
End Service.

(** ** The invariant *)

(** The id of the n-th job accepted. *)
Definition nth_id (n : nat) : Z := Z.of_nat n mod update_task_id_max + 1.

Definition id_ok (i : UpdateQueueItem) : Prop := 1 <= id i <= update_task_id_max.

(** A walk exists exactly while a job is current; only then others wait. *)
Record service_inv (s : UpdateService) : Prop := mkInv
  { si_next : match walk s with Some _ => id_ok (next s) | None => id (next s) = 0 /\ queue s = [] end;
    si_ids : Forall id_ok (queue s);
    si_size : (length (queue s) <= MAX_UPDATE_QUEUE_SIZE)%nat;
    si_task_id : 0 <= update_task_id s <= update_task_id_max }.

Definition starts (es : list Effect) : list UpdateQueueItem :=
  omap (fun e => match e with ThreadStarted i => Some i | _ => None end) es.

Lemma starts_app a b : starts (a ++ b) = starts a ++ starts b.
Proof. apply omap_app. Qed.

Lemma GenerateId_ok s : 0 <= update_task_id s <= update_task_id_max -> 1 <= GenerateId s <= update_task_id_max.
Proof.
  unfold GenerateId, update_task_id_max. cbv zeta. intros Hid.
  destruct (Z.shiftl 1 15 <? update_task_id s + 1) eqn:E; [by vm_compute|]. apply Z.ltb_ge in E. lia.
Qed.

Lemma id_defined i : id_ok i -> Item_IsDefined i = true.
Proof. unfold id_ok, Item_IsDefined. intros Hi. apply negb_true_iff, Z.eqb_neq. lia. Qed.

(** Whether a cancellation of the mount point concerns the job: its
    directory is one, and the job is for its storage or its database. *)
Definition of_mount `{ServiceEnv} (uri : bytes) (i : UpdateQueueItem) : bool :=
  match dir_at root_directory (lr_directory (LookupDirectory root_directory uri)) ≫= mounted_database with
  | None => false
  | Some db =>
      match GetMount uri with Some storage => Nat.eqb (i_storage i) storage | None => false end ||
      (is_simple db && Nat.eqb (i_db i) db)
  end.

Section Inv.
Context `{ServiceEnv}.

(** [Enqueue] accepts a job at the end of the queue or starts it. *)
Lemma Enqueue_cases s path d : service_inv s ->
  match resolve path with
  | Throw e => Enqueue s path d = Throw e
  | Ok (db, storage, p) =>
      let i := mkItem db storage p d (GenerateId s) in
      match walk s with
      | Some _ =>
          Enqueue s path d =
            if Nat.ltb (length (queue s)) MAX_UPDATE_QUEUE_SIZE
            then Ok (GenerateId s, mkService (GenerateId s) (queue s ++ [i]) (next s) (walk s) (modified s), [])
            else Throw (lit "Update queue is full")
      | None =>
          Enqueue s path d =
            Ok (GenerateId s, mkService (GenerateId s) [] i (Some false) false, [ThreadStarted i; IdleUpdate])
      end
  end.
Proof.
  intros [Hn _ _ _]. unfold Enqueue. destruct (resolve path) as [[[db storage] p]|e]; [|done]. simpl.
  destruct (walk s) as [c|]; [|by destruct Hn as [_ ->]]. unfold Push.
  rewrite Nat.ltb_antisym. by destruct (Nat.leb MAX_UPDATE_QUEUE_SIZE (length (queue s))).
Qed.

Lemma filter_keeps (f : UpdateQueueItem -> bool) q : Forall id_ok q -> (length q <= MAX_UPDATE_QUEUE_SIZE)%nat ->
  Forall id_ok (List.filter f q) /\ (length (List.filter f q) <= MAX_UPDATE_QUEUE_SIZE)%nat.
Proof.
  intros Hq Hl. split; [|pose proof (filter_length_le f q); lia].
  apply List.Forall_forall. intros x [Hx _]%filter_In. by eapply List.Forall_forall in Hq.
Qed.

(** What [CancelMount] does: it erases the jobs of the mount that wait and
    cancels the walk if it is of the mount. *)
Lemma CancelMount_cases s uri : CancelMount s uri =
  mkService (update_task_id s) (List.filter (fun i => negb (of_mount uri i)) (queue s)) (next s)
    (if Item_IsDefined (next s) && of_mount uri (next s) then option_map (fun _ => true) (walk s) else walk s) (modified s).
Proof.
  assert (forall (f g : UpdateQueueItem -> bool) q, (forall i, f i = g i) -> List.filter f q = List.filter g q) as Hext.
  { intros f g q E. induction q as [|i q IH]; [done|]. simpl. by rewrite E, IH. }
  assert (forall (f g : UpdateQueueItem -> bool) q, List.filter f (List.filter g q) = List.filter (fun i : UpdateQueueItem => g i && f i) q) as Hff.
  { intros f g q. induction q as [|i q IH]; [done|]. simpl. destruct (g i); simpl; rewrite IH; done. }
  assert (forall q : UpdateQueue, q = List.filter (fun _ : UpdateQueueItem => true) q) as Hid.
  { intros q. induction q as [|i q IH]; [done|]. simpl. by rewrite <- IH. }
  unfold CancelMount, Erase_storage, Erase_db, of_mount. cbv zeta.
  destruct (dir_at root_directory _ ≫= mounted_database) as [db|].
  - destruct (GetMount uri) as [storage2|]; destruct (is_simple db); rewrite ?Hff; f_equal;
      try (apply Hext; intros i; destruct (Nat.eqb _ _); simpl; rewrite ?orb_false_r; done);
      destruct (Item_IsDefined (next s)); simpl; rewrite ?orb_false_r; done.
  - rewrite andb_false_r, <- Hid. by destruct s.
Qed.

Lemma exec_inv op s a e s' : service_inv s -> exec op s = (a, e, s') -> service_inv s'.
Proof.
  intros Hi. pose proof Hi as [Hn Hq Hl Ht]. destruct op as [path d|m| |uri]; simpl.
  - pose proof (Enqueue_cases s path d Hi) as Hc.
    destruct (resolve path) as [[[db storage] p]|err]; [|rewrite Hc; by intros [= _ _ <-]].
    pose proof (GenerateId_ok s Ht) as Hg. destruct (walk s) as [c|] eqn:Ew.
    + destruct (Nat.ltb (length (queue s)) MAX_UPDATE_QUEUE_SIZE) eqn:El; rewrite Hc; intros [= _ _ <-]; [|done].
      apply Nat.ltb_lt in El. constructor; simpl; [done|by apply Forall_app_2; [|constructor]|rewrite length_app; simpl; lia|lia].
    + rewrite Hc. intros [= _ _ <-]. constructor; simpl; [done|constructor|lia|lia].
  - destruct (walk s) as [c|]; [|by intros [= _ _ <-]]. unfold RunDeferred. simpl.
    destruct (queue s) as [|i q]; simpl; [intros [= _ _ <-]; by constructor|].
    apply Forall_cons in Hq as [Hi' Hq]. rewrite (id_defined i Hi'). simpl. intros [= _ _ <-].
    constructor; simpl in *; try done; lia.
  - intros [= _ _ <-]. constructor; simpl; try done; [|lia]. destruct (walk s); [done|]. by destruct Hn.
  - intros [= _ _ <-]. rewrite CancelMount_cases.
    destruct (filter_keeps (fun i => negb (of_mount uri i)) (queue s) Hq Hl). constructor; simpl; try done.
    destruct (walk s); [by destruct (_ && _)|]. destruct Hn as [? ->]. by destruct (_ && _).
Qed.

Lemma service_inv_new : service_inv UpdateService_new.
Proof. constructor; simpl; try done; unfold update_task_id_max, MAX_UPDATE_QUEUE_SIZE; lia. Qed.

Lemma run_inv ops s a e s' : service_inv s -> run ops s = (a, e, s') -> service_inv s'.
Proof.
  revert s a e. induction ops as [|op ops IH]; intros s a e Hi; simpl; [by intros [= _ _ <-]|].
  destruct (exec op s) as [[a1 e1] s1] eqn:E1. destruct (run ops s1) as [[a2 e2] s2] eqn:E2.
  intros [= _ _ <-]. eapply IH; [|exact E2]. by eapply exec_inv.
Qed.

(** The ids count up, from 1 to the maximum and over again. *)
Lemma GenerateId_nth s n : update_task_id s = (if Nat.eqb n 0 then 0 else nth_id (n - 1)) -> GenerateId s = nth_id n.
Proof.
  intros Hid. unfold GenerateId. cbv zeta. rewrite Hid. unfold nth_id.
  assert (update_task_id_max = 32768) as -> by done. destruct n as [|n]; [done|].
  cbn [Nat.eqb]. replace (S n - 1)%nat with n by lia. rewrite Nat2Z.inj_succ.
  pose proof (Z.div_mod (Z.of_nat n) 32768 ltac:(lia)).
  destruct (_ <? _) eqn:E; [apply Z.ltb_lt in E|apply Z.ltb_ge in E];
    pose proof (Z.mod_pos_bound (Z.of_nat n) 32768 ltac:(lia)).
  - replace (Z.succ (Z.of_nat n)) with (0 + (Z.of_nat n / 32768 + 1) * 32768) by lia.
    by rewrite Z.mod_add.
  - replace (Z.succ (Z.of_nat n)) with (Z.of_nat n mod 32768 + 1 + (Z.of_nat n / 32768) * 32768) by lia.
    rewrite Z.mod_add, (Z.mod_small (Z.of_nat n mod 32768 + 1)) by lia. done.
Qed.

Lemma exec_ids op s a e s' n : update_task_id s = (if Nat.eqb n 0 then 0 else nth_id (n - 1)) ->
  exec op s = (a, e, s') ->
  (length a <= 1)%nat /\ Forall (fun i => id i = nth_id n) a /\
  update_task_id s' = (if Nat.eqb (n + length a) 0 then 0 else nth_id (n + length a - 1)).
Proof.
  intros Hid. pose proof (GenerateId_nth s n Hid) as Hg.
  assert (forall s1 : UpdateService, update_task_id s1 = update_task_id s ->
    (length (@nil UpdateQueueItem) <= 1)%nat /\ Forall (fun i => id i = nth_id n) [] /\
    update_task_id s1 = (if Nat.eqb (n + 0) 0 then 0 else nth_id (n + 0 - 1))) as Hsame.
  { intros s1 ->. rewrite Nat.add_0_r. split; [simpl; lia|]. by split. }
  assert (forall (i : UpdateQueueItem) (s1 : UpdateService), id i = GenerateId s -> update_task_id s1 = GenerateId s ->
    (length [i] <= 1)%nat /\ Forall (fun i => id i = nth_id n) [i] /\
    update_task_id s1 = (if Nat.eqb (n + 1) 0 then 0 else nth_id (n + 1 - 1))) as Hnew.
  { intros i s1 Hi ->. split; [simpl; lia|]. split; [constructor; [congruence|constructor]|].
    replace (n + 1 - 1)%nat with n by lia. by rewrite Nat.add_1_r. }
  destruct op as [path d|m| |uri]; simpl.
  - unfold Enqueue. destruct (resolve path) as [[[db storage] p]|err]; simpl; [|intros [= <- _ <-]; by apply Hsame].
    destruct (walk s) as [c|]; [destruct (Push _ _) as [[|] q]|]; simpl; intros [= <- _ <-];
      (by apply Hsame) || (by apply Hnew).
  - destruct (walk s) as [c|]; [|intros [= <- _ <-]; by apply Hsame]. unfold RunDeferred.
    destruct (Pop (queue s)) as [i q]. destruct (Item_IsDefined i); simpl; intros [= <- _ <-]; by apply Hsame.
  - intros [= <- _ <-]. by apply Hsame.
  - intros [= <- _ <-]. rewrite CancelMount_cases. by apply Hsame.
Qed.

Lemma run_ids ops s a e s' n : update_task_id s = (if Nat.eqb n 0 then 0 else nth_id (n - 1)) ->
  run ops s = (a, e, s') -> id <$> a = nth_id <$> seq n (length a).
Proof.
  revert s a e n. induction ops as [|op ops IH]; intros s a e n Hid; simpl; [by intros [= <- _ _]|].
  destruct (exec op s) as [[a1 e1] s1] eqn:E1. destruct (run ops s1) as [[a2 e2] s2] eqn:E2.
  intros [= <- _ ->]. destruct (exec_ids _ _ _ _ _ n Hid E1) as (Hl & Ha & Hid1).
  rewrite fmap_app, (IH _ _ _ _ Hid1 E2), length_app, seq_app, fmap_app. f_equal.
  destruct a1 as [|i [|]]; [done| |simpl in Hl; lia]. apply Forall_cons in Ha as [Ha _]. simpl. by rewrite Ha.
Qed.

Lemma run_cons op ops s a e s1 a' e' s2 : exec op s = (a, e, s1) -> run ops s1 = (a', e', s2) ->
  run (op :: ops) s = (a ++ a', e ++ e', s2).
Proof. intros E1 E2. simpl. by rewrite E1, E2. Qed.

(** Jobs end one after the other. *)
Lemma drain_queue m k : forall s, service_inv s -> walk s <> None -> length (queue s) = k ->
  exists e s', run (repeat (OpTaskEnd m) (S k)) s = ([], e, s') /\ walk s' = None /\ queue s' = [].
Proof.
  induction k as [|k IH]; intros s Hi Hw Hk.
  - simpl. destruct (walk s) as [c|]; [|done]. unfold RunDeferred. destruct (queue s); [|done]. simpl. by eexists _, _.
  - destruct (RunDeferred s m) as [s1 e1] eqn:E1.
    assert (exec (OpTaskEnd m) s = ([], e1, s1)) as Ex by (simpl; rewrite E1; by destruct (walk s)).
    assert (walk s1 <> None /\ length (queue s1) = k) as [Hw1 Hk1].
    { destruct Hi as [_ Hq _ _]. unfold RunDeferred in E1. destruct (queue s) as [|i q]; [done|]. simpl in E1.
      apply Forall_cons in Hq as [Hi' _]. rewrite (id_defined i Hi') in E1. injection E1 as <- _. split; [done|].
      simpl in *. lia. }
    destruct (IH s1 (exec_inv _ _ _ _ _ Hi Ex) Hw1 Hk1) as (e2 & s2 & E2 & Hw2 & Hq2).
    eexists _, _. split; [exact (run_cons _ _ _ _ _ _ _ _ _ Ex E2)|done].
Qed.
End Inv.

(** ** What becomes of the jobs *)

Inductive JobState := Waiting | Started | Cancelled.
#[global] Instance JobState_eq_dec : EqDecision JobState.
Proof. solve_decision. Defined.

(** All jobs that were accepted, in this order, with what has become of
    them, and the running one with whether its walk was cancelled. *)
Record Ledger := mkLedger { jobs : list (UpdateQueueItem * JobState); running : option (UpdateQueueItem * bool) }.

Definition Ledger_new : Ledger := mkLedger [] None.

Definition jobs_in (st : JobState) (js : list (UpdateQueueItem * JobState)) : list UpdateQueueItem :=
  fst <$> List.filter (fun j => bool_decide (snd j = st)) js.

(** The first job that waits is started. *)
Fixpoint start_first (js : list (UpdateQueueItem * JobState)) : option UpdateQueueItem * list (UpdateQueueItem * JobState) :=
  match js with
  | [] => (None, [])
  | (i, Waiting) :: js => (Some i, (i, Started) :: js)
  | j :: js => let '(o, js) := start_first js in (o, j :: js)
  end.

(** The waiting jobs of a kind are cancelled, and the running one. *)
Definition cancel_jobs (f : UpdateQueueItem -> bool) (l : Ledger) : Ledger :=
  mkLedger (map (fun '(i, st) => (i, match st with Waiting => if f i then Cancelled else Waiting | st => st end)) (jobs l))
    ((fun '(i, c) => (i, f i || c)) <$> running l).

Definition ledger_step `{ServiceEnv} (op : Op) (l : Ledger) : Ledger :=
  match op with
  | OpEnqueue path d =>
      match resolve path with
      | Throw _ => l
      | Ok (db, storage, p) =>
          let i := mkItem db storage p d (nth_id (length (jobs l))) in
          match running l with
          | None => mkLedger (jobs l ++ [(i, Started)]) (Some (i, false))
          | Some _ =>
              if Nat.ltb (length (jobs_in Waiting (jobs l))) 32 then mkLedger (jobs l ++ [(i, Waiting)]) (running l) else l
          end
      end
  | OpTaskEnd _ =>
      match running l with
      | None => l
      | Some _ => let '(o, js) := start_first (jobs l) in mkLedger js ((fun i => (i, false)) <$> o)
      end
  | OpCancelAll => cancel_jobs (fun _ => true) l
  | OpCancelMount uri => cancel_jobs (of_mount uri) l
  end.

Definition ledger `{ServiceEnv} (ops : list Op) : Ledger := fold_left (fun l op => ledger_step op l) ops Ledger_new.

(** No job is started before one that was accepted earlier and waits. *)
Fixpoint in_turn (js : list (UpdateQueueItem * JobState)) : Prop :=
  match js with
  | [] => True
  | (_, Waiting) :: js => Forall (fun j => snd j <> Started) js /\ in_turn js
  | _ :: js => in_turn js
  end.

Section Ledgers.
Context `{ServiceEnv}.

Lemma jobs_in_app st js ks : jobs_in st (js ++ ks) = jobs_in st js ++ jobs_in st ks.
Proof. unfold jobs_in. by rewrite List.filter_app, fmap_app. Qed.

Lemma jobs_in_cons st i st' js : jobs_in st ((i, st') :: js) = (if decide (st' = st) then [i] else []) ++ jobs_in st js.
Proof. unfold jobs_in. cbn [List.filter snd]. case_bool_decide; by case_decide. Qed.

Lemma jobs_in_none st js : Forall (fun j => snd j <> st) js -> jobs_in st js = [].
Proof. induction 1 as [|[i st'] js Hj Hjs IH]; [done|]. cbn [snd] in Hj. by rewrite jobs_in_cons, IH, decide_False. Qed.

Lemma in_turn_app js i st : in_turn js -> (st = Started -> jobs_in Waiting js = []) -> in_turn (js ++ [(i, st)]).
Proof.
  induction js as [|[j st'] js IH]; intros Hj Hst; [destruct st; repeat constructor|].
  rewrite jobs_in_cons in Hst. destruct st'; cbn [app in_turn] in *; rewrite ?decide_False in Hst by done; try (by apply IH).
  destruct Hj as [Hs Hj]. split; [|apply IH; [done|intros ?; by specialize (Hst ltac:(done))]].
  apply Forall_app_2; [done|]. constructor; [|constructor]. cbn [snd]. intros ->. by specialize (Hst eq_refl).
Qed.

Lemma start_first_spec js : in_turn js ->
  let '(o, js') := start_first js in
  fst <$> js' = fst <$> js /\ in_turn js' /\ jobs_in Started js' = jobs_in Started js ++ option_list o /\
  jobs_in Waiting js = option_list o ++ jobs_in Waiting js' /\ (o = None -> jobs_in Waiting js' = []).
Proof.
  induction js as [|[i st] js IH]; intros Hj; [done|]. destruct st; cbn [start_first in_turn] in *.
  - destruct Hj as [Hs Hj]. cbn [option_list]. rewrite !jobs_in_cons, (jobs_in_none Started js Hs). simpl. repeat split; done.
  - specialize (IH Hj). destruct (start_first js) as [o js']. destruct IH as (Ha & Ht & Hs & Hw & Hc).
    split; [by rewrite !fmap_cons, Ha|]. by rewrite !jobs_in_cons, Hs, Hw.
  - specialize (IH Hj). destruct (start_first js) as [o js']. destruct IH as (Ha & Ht & Hs & Hw & Hc).
    split; [by rewrite !fmap_cons, Ha|]. by rewrite !jobs_in_cons, Hs, Hw.
Qed.

Lemma cancel_spec f l : in_turn (jobs l) -> fst <$> jobs (cancel_jobs f l) = fst <$> jobs l /\ in_turn (jobs (cancel_jobs f l)) /\
  jobs_in Started (jobs (cancel_jobs f l)) = jobs_in Started (jobs l) /\
  jobs_in Waiting (jobs (cancel_jobs f l)) = List.filter (fun i => negb (f i)) (jobs_in Waiting (jobs l)).
Proof.
  unfold cancel_jobs. cbn [jobs]. generalize (jobs l). clear l.
  assert (Hns : forall js, Forall (fun j : UpdateQueueItem * JobState => snd j <> Started) js ->
    Forall (fun j => snd j <> Started) (map (fun '(i, st) => (i, match st with Waiting => if f i then Cancelled else Waiting | st => st end)) js)).
  { induction 1 as [|[i st] js Hj Hjs IH]; constructor; [|done]. by destruct st; [destruct (f i)|..]. }
  intros js. induction js as [|[i st] js IH]; intros Hj; [done|].
  destruct st; cbn [map in_turn] in *; [destruct Hj as [Hs Hj]| |]; destruct (IH Hj) as (Ha & Ht & Hst & Hw).
  - destruct (f i) eqn:E; (split; [by rewrite !fmap_cons, Ha|]); rewrite !jobs_in_cons, Hst, Hw; cbn [List.filter app];
      simpl; rewrite E; simpl; repeat split; auto.
  - split; [by rewrite !fmap_cons, Ha|]. by rewrite !jobs_in_cons, Hst, Hw.
  - split; [by rewrite !fmap_cons, Ha|]. by rewrite !jobs_in_cons, Hst, Hw.
Qed.

(** The ledger tells what was accepted and started and what the service
    is about to do. *)
Record represents (l : Ledger) (accepted : list UpdateQueueItem) (started : list UpdateQueueItem) (s : UpdateService) : Prop := {
  rp_inv : service_inv s;
  rp_id : update_task_id s = (if Nat.eqb (length accepted) 0 then 0 else nth_id (length accepted - 1));
  rp_accepted : fst <$> jobs l = accepted;
  rp_started : jobs_in Started (jobs l) = started;
  rp_waiting : jobs_in Waiting (jobs l) = queue s;
  rp_turn : in_turn (jobs l);
  rp_running : match running l with Some (i, c) => next s = i /\ walk s = Some c | None => walk s = None end }.

Lemma represents_Enqueue l acc st s path d a e s' : represents l acc st s -> exec (OpEnqueue path d) s = (a, e, s') ->
  represents (ledger_step (OpEnqueue path d) l) (acc ++ a) (st ++ starts e) s'.
Proof.
  intros [Hi Hid Hacc Hst Hw Ht Hr] Hx. pose proof (exec_inv _ _ _ _ _ Hi Hx) as Hi'.
  destruct (exec_ids _ _ _ _ _ _ Hid Hx) as (_ & _ & Hid'). rewrite <- length_app in Hid'. cbn [ledger_step] in *.
  pose proof (Enqueue_cases s path d Hi) as Hc. rewrite (GenerateId_nth s _ Hid) in Hc.
  assert (length (jobs l) = length acc) as Hlen by (rewrite <- Hacc; by rewrite length_fmap).
  unfold exec in Hx. rewrite Hlen, Hw. destruct (resolve path) as [[[db storage] p]|err]; cbv zeta in Hc.
  2:{ rewrite Hc in Hx. injection Hx as <- <- <-. cbn [starts omap list_omap]. by rewrite !app_nil_r. }
  destruct (running l) as [[i c]|] eqn:Er.
  - destruct Hr as [Hn Hwalk]. rewrite Hwalk in Hc. unfold MAX_UPDATE_QUEUE_SIZE in Hc.
    destruct (Nat.ltb _ 32); rewrite Hc in Hx; injection Hx as <- <- <-; cbn [starts omap list_omap]; rewrite !app_nil_r in *.
    + split; cbn [jobs running queue next walk] in *; try done.
      * by rewrite fmap_app, Hacc.
      * by rewrite jobs_in_app, Hst, app_nil_r.
      * by rewrite jobs_in_app, Hw.
      * by apply in_turn_app.
    + split; try done. by rewrite Er.
  - rewrite Hr in Hc. rewrite Hc in Hx. injection Hx as <- <- <-. cbn [starts omap list_omap].
    pose proof (si_next s Hi) as Hn. rewrite Hr in Hn. destruct Hn as [_ Hq].
    split; cbn [jobs running queue next walk] in *; try done.
    + by rewrite fmap_app, Hacc.
    + by rewrite jobs_in_app, Hst.
    + by rewrite jobs_in_app, Hw, Hq.
    + apply in_turn_app; [done|]. by rewrite Hw.
Qed.

Lemma represents_TaskEnd l acc st s m a e s' : represents l acc st s -> exec (OpTaskEnd m) s = (a, e, s') ->
  represents (ledger_step (OpTaskEnd m) l) (acc ++ a) (st ++ starts e) s'.
Proof.
  intros [Hi Hid Hacc Hst Hw Ht Hr] Hx. pose proof (exec_inv _ _ _ _ _ Hi Hx) as Hi'.
  destruct (exec_ids _ _ _ _ _ _ Hid Hx) as (_ & _ & Hid'). rewrite <- length_app in Hid'. unfold exec, ledger_step in *.
  destruct (running l) as [[i c]|] eqn:Er.
  - destruct Hr as [Hn Hwalk]. rewrite Hwalk in Hx. pose proof (start_first_spec (jobs l) Ht) as Hf.
    destruct (start_first (jobs l)) as [o js]. destruct Hf as (Ha & Ht' & Hs' & Hw' & Hnone).
    rewrite Hw in Hw'. unfold RunDeferred in Hx. destruct Hi as [_ Hq _ _].
    destruct o as [j|]; cbn [option_list app] in Hs', Hw'; rewrite Hw' in Hx, Hq; simpl in Hx.
    + apply Forall_cons in Hq as [Hj _]. rewrite (id_defined j Hj) in Hx. simpl in Hx. injection Hx as <- <- <-. rewrite app_nil_r in *.
      split; cbn [jobs running queue next walk fmap option_fmap option_map] in *; try done; [by rewrite Ha|].
      rewrite Hs', Hst. by destruct m.
    + rewrite (Hnone eq_refl) in Hx. injection Hx as <- <- <-. rewrite app_nil_r in *.
      split; cbn [jobs running queue next walk fmap option_fmap option_map] in *; try done;
        [by rewrite Ha|rewrite Hs', Hst; destruct m; simpl; by rewrite ?app_nil_r|by rewrite (Hnone eq_refl)].
  - rewrite Hr in Hx. injection Hx as <- <- <-. rewrite !app_nil_r in *.
    split; try done. by rewrite Er.
Qed.

Lemma represents_cancel f l acc st s s' : represents l acc st s -> service_inv s' ->
  update_task_id s' = update_task_id s -> queue s' = List.filter (fun i => negb (f i)) (queue s) -> next s' = next s ->
  walk s' = (fun c => f (next s) || c) <$> walk s -> represents (cancel_jobs f l) acc st s'.
Proof.
  intros [Hi Hid Hacc Hst Hw Ht Hr] Hi' Eid Eq En Ew. destruct (cancel_spec f l Ht) as (Ha & Ht' & Hs' & Hw').
  split; [done|by rewrite Eid|by rewrite Ha|by rewrite Hs'|by rewrite Hw', Hw|done|].
  rewrite En, Ew. cbn [cancel_jobs running]. destruct (running l) as [[i c]|]; [destruct Hr as [-> ->]|rewrite Hr]; done.
Qed.

Lemma represents_exec op l acc st s a e s' : represents l acc st s -> exec op s = (a, e, s') ->
  represents (ledger_step op l) (acc ++ a) (st ++ starts e) s'.
Proof.
  intros Hl Hx. destruct op as [path d|m| |uri]; [by eapply represents_Enqueue|by eapply represents_TaskEnd|..];
    pose proof (exec_inv _ _ _ _ _ (rp_inv _ _ _ _ Hl) Hx) as Hi'; injection Hx as <- <- <-; rewrite !app_nil_r; cbn [ledger_step].
  - eapply represents_cancel; [exact Hl|done|done| |done|done]. cbn [CancelAllAsync queue].
    induction (queue s) as [|i q IH]; [done|exact IH].
  - rewrite CancelMount_cases in *. eapply represents_cancel; [exact Hl|done|done|done|done|]. cbn [walk].
    destruct (walk s) as [c|] eqn:Ew; [|by destruct (_ && _)].
    pose proof (si_next s (rp_inv _ _ _ _ Hl)) as Hn. rewrite Ew in Hn. rewrite (id_defined _ Hn). simpl.
    by destruct (of_mount uri (next s)).
Qed.

Lemma represents_run ops : forall l acc st s a e s', represents l acc st s -> run ops s = (a, e, s') ->
  represents (fold_left (fun l op => ledger_step op l) ops l) (acc ++ a) (st ++ starts e) s'.
Proof.
  induction ops as [|op ops IH]; intros l acc st s a e s' Hl; simpl; [intros [= <- <- <-]; by rewrite !app_nil_r|].
  destruct (exec op s) as [[a1 e1] s1] eqn:E1. destruct (run ops s1) as [[a2 e2] s2] eqn:E2. intros [= <- <- <-].
  rewrite starts_app, !app_assoc. eapply IH; [|exact E2]. by eapply represents_exec.
Qed.

Lemma represents_new : represents Ledger_new [] [] UpdateService_new.
Proof. split; try done. apply service_inv_new. Qed.

(** The end of an update starts the next job: what has been started and
    what waits stay the same jobs. *)
Lemma drain_starts k : forall s e s', service_inv s -> run (repeat (OpTaskEnd false) k) s = ([], e, s') ->
  starts e ++ queue s' = queue s.
Proof.
  induction k as [|k IH]; intros s e s' Hi; [by intros [= <- <-]|]. cbn [repeat run].
  destruct (exec (OpTaskEnd false) s) as [[a1 e1] s1] eqn:E1. destruct (run _ s1) as [[a2 e2] s2] eqn:E2.
  intros [= Ha <- <-]. apply app_eq_nil in Ha as [-> ->].
  pose proof (IH _ _ _ (exec_inv _ _ _ _ _ Hi E1) E2) as Hq. rewrite starts_app, <- app_assoc, Hq.
  unfold exec in E1. destruct (walk s); [|by injection E1 as <- <-]. unfold RunDeferred in E1.
  destruct (queue s) as [|i q] eqn:E; simpl in E1; [by injection E1 as <- <-|].
  destruct Hi as [_ Hids _ _]. rewrite E in Hids. apply Forall_cons in Hids as [Hids _]. rewrite (id_defined i Hids) in E1.
  simpl in E1. by injection E1 as <- <-.
Qed.
End Ledgers.

(** ** Properties *)

(** In every sequence of operations on a new service the state stays
    consistent: an update runs exactly while a job is current and only then
    jobs wait, at most 32 of them, ids stay between 1 and 32768; and the n-th
    accepted job has the id n modulo 32768, counted from 1. *)
Theorem service_consistent `{ServiceEnv} (ops : list Op) (accepted : list UpdateQueueItem)
  (effects : list Effect) (s : UpdateService) (Hrun : run ops UpdateService_new = (accepted, effects, s)) :
  service_inv s /\ id <$> accepted = nth_id <$> seq 0 (length accepted).
Proof.
  split; [by eapply run_inv; [apply service_inv_new|]|]. by eapply (run_ids ops UpdateService_new).
Qed.

(** C13: the ledger tells what becomes of every job: those accepted, started
    and waiting are those of the ledger, in the order of acceptance, and no
    job is started before an earlier one that waits.  A job waits until an
    update ends while it is the first to wait, which starts it, or until a
    cancellation of all jobs or of its own mount point, which no other job
    notices; the running walk is cancelled exactly by those that concern it.
    When as many updates have ended as there are jobs waiting, and one more,
    each of those has been started and the service is idle. *)
Theorem jobs_fifo `{ServiceEnv} (ops : list Op) (accepted : list UpdateQueueItem) (effects : list Effect)
  (s : UpdateService) (Hrun : run ops UpdateService_new = (accepted, effects, s)) :
  let l := ledger ops in
  fst <$> jobs l = accepted /\ jobs_in Started (jobs l) = starts effects /\ jobs_in Waiting (jobs l) = queue s /\
  in_turn (jobs l) /\
  match running l with Some (i, c) => next s = i /\ walk s = Some c | None => walk s = None end /\
  exists e s', run (repeat (OpTaskEnd false) (S (length (queue s)))) s = ([], e, s') /\
    walk s' = None /\ queue s' = [] /\ starts e = queue s.
Proof.
  destruct (represents_run ops _ _ _ _ _ _ _ represents_new Hrun) as [Hi _ Ha Hs Hw Ht Hr].
  split_and!; try done.
  assert (exists e s', run (repeat (OpTaskEnd false) (S (length (queue s)))) s = ([], e, s') /\ walk s' = None /\ queue s' = [])
    as (e & s' & E & Ew & Eq).
  { destruct (walk s) as [c|] eqn:Ew.
    - apply (drain_queue false (length (queue s)) s Hi); [by rewrite Ew|done].
    - pose proof (si_next s Hi) as Hn. rewrite Ew in Hn. destruct Hn as [_ Hq].
      exists [], s. rewrite Hq. simpl. by rewrite Ew. }
  exists e, s'. split_and!; try done. pose proof (drain_starts _ _ _ _ Hi E) as Hd. by rewrite Eq, app_nil_r in Hd.
Qed.

(** [Enqueue] rejects a job exactly if the database mounted at the path
    cannot be updated, there is no storage for it or 32 jobs wait already,
    and then changes nothing; otherwise the job is the last of the queue or,
    if none is current, is started at once. *)
Theorem Enqueue_spec `{ServiceEnv} (s : UpdateService) (path : bytes) (d : bool) (Hi : service_inv s) :
  match resolve path, walk s with
  | Throw e, _ => Enqueue s path d = Throw e
  | Ok (db, storage, p), Some _ =>
      let i := mkItem db storage p d (GenerateId s) in
      if Nat.ltb (length (queue s)) 32
      then exists s', Enqueue s path d = Ok (id i, s', []) /\ queue s' = queue s ++ [i] /\ next s' = next s
      else Enqueue s path d = Throw (lit "Update queue is full")
  | Ok (db, storage, p), None =>
      let i := mkItem db storage p d (GenerateId s) in
      exists s', Enqueue s path d = Ok (id i, s', [ThreadStarted i; IdleUpdate]) /\ next s' = i /\ walk s' = Some false
  end.
Proof.
  pose proof (Enqueue_cases s path d Hi) as Hc.
  destruct (resolve path) as [[[db storage] p]|e]; [|done]. cbv zeta in *.
  destruct (walk s) as [c|]; [|by rewrite Hc; eexists]. unfold MAX_UPDATE_QUEUE_SIZE in Hc.
  destruct (Nat.ltb _ 32); [|done]. rewrite Hc. by eexists.
Qed.

(** ** An example: three jobs, one of them for a mounted database *)

Definition sample_env : ServiceEnv :=
  {| root_directory := with_children NewRoot
       [with_mounted (new_child NewRoot (lit "usb")) (Some 1%nat); new_child NewRoot (lit "a")];
     is_simple := fun db => Nat.leb db 1;
     GetMount := fun uri => if uri =b [] then Some 0%nat else if uri =b lit "usb/" then Some 1%nat else None |}.

Definition sample_ops : list Op :=
  [OpEnqueue [] true; OpEnqueue (lit "usb/b") false; OpEnqueue (lit "a") false; OpTaskEnd true].

Lemma service_consistent_witness :
  exists a e s, @run sample_env sample_ops UpdateService_new = (a, e, s) /\ id <$> a = [1; 2; 3].
Proof.
  do 3 eexists. split; [vm_compute; reflexivity|].
  etransitivity; [apply (proj2 (@service_consistent sample_env sample_ops _ _ _ eq_refl))|]. vm_compute. reflexivity.
Defined.

(** While the first job runs, the mount is cancelled: its job is, the other
    one is started. *)
Lemma jobs_fifo_witness :
  let ops := [OpEnqueue [] true; OpEnqueue (lit "usb/b") false; OpEnqueue (lit "a") false; OpCancelMount (lit "usb/"); OpTaskEnd true] in
  exists a e s, @run sample_env ops UpdateService_new = (a, e, s) /\
    path_utf8 <$> a = [[]; lit "b"; lit "a"] /\ path_utf8 <$> starts e = [[]; lit "a"] /\
    snd <$> jobs (@ledger sample_env ops) = [Started; Cancelled; Started].
Proof.
  intros ops. destruct (@run sample_env ops UpdateService_new) as [[a e] s] eqn:E. exists a, e, s. split; [done|].
  destruct (@jobs_fifo sample_env ops a e s E) as (Ha & Hs & _).
  split; [rewrite <- Ha; vm_compute; reflexivity|]. split; [rewrite <- Hs; vm_compute; reflexivity|]. vm_compute. reflexivity.
Defined.

Lemma Enqueue_spec_witness :
  exists s', @Enqueue sample_env UpdateService_new (lit "usb/b") false =
    Ok (1, s', [ThreadStarted (mkItem 1 1 (lit "b") false 1); IdleUpdate]).
Proof.
  destruct (@Enqueue_spec sample_env UpdateService_new (lit "usb/b") false service_inv_new) as (s' & E & _).
  exists s'. exact E.
Defined.
