(* ===== verification/DbVisit.v ===== *)
(** Visiting a database: [src/db/plugins/simple/SimpleDatabasePlugin.cxx]
    ([GetSong], [ReturnSong], [Visit]), [Directory::Walk],
    [src/db/plugins/simple/Mount.cxx], [PrefixedLightSong.hxx],
    [src/db/Selection.cxx], [VHelper.cxx], [Helpers.cxx], [UniqueTags.cxx],
    [src/tag/Sort.cxx] and [src/tag/VisitFallback.hxx].

    The databases that are open are a map from the numbers that
    [mounted_database] holds.  A visitor is a record of optional callbacks
    (an empty [std::function] is [None]) on a state of any type; a callback
    may throw.  A visit follows mounts from database to database, which
    takes fuel; [None] means that the fuel is spent. *)
From stdpp Require Import gmap sorting.
From S2P Require Import Prelude Text Chrono Tags Audio Songs Uri SongFilter SortList StableSort SongSort RangeArg Playlists Directory.
Open Scope Z_scope.

(** ** tag/Sort.cxx *)

Definition CompareNumeric (a b : bytes) : bool := fst (strtol a) <? fst (strtol b).

Definition CompareTags (type : TagType) (descending : bool) (a b : Tag) : bool :=
  let a_value := GetSortValue a type in
  let b_value := GetSortValue b type in
  let '(a_value, b_value) := if descending then (b_value, a_value) else (a_value, b_value) in
  match type with
  | TAG_DISC | TAG_TRACK => CompareNumeric a_value b_value
  | _ => strcmp a_value b_value <? 0
  end.

(** ** tag/VisitFallback.hxx: the values the callback gets, in order *)

Definition VisitTagType (tag : Tag) (type : TagType) : option (list bytes) :=
  match map ti_value (List.filter (has_type type) (items tag)) with
  | [] => None
  | values => Some values
  end.
Definition VisitTagWithFallback (tag : Tag) (type : TagType) : option (list bytes) :=
  ApplyTagWithFallback type (VisitTagType tag).
Definition VisitTagWithFallbackOrEmpty (tag : Tag) (type : TagType) : list bytes :=
  match VisitTagWithFallback tag type with Some values => values | None => [[]] end.

(** ** db/Selection.cxx *)

(** The [sort] of a selection: [TAG_NUM_OF_ITEM_TYPES], the two special
    numbers or a tag type. *)
Inductive SortTag := DontSort | SORT_TAG_LAST_MODIFIED | SORT_TAG_ADDED | SortBy (type : TagType).

Record DatabaseSelection := mkSelection
  { sel_uri : bytes;
    sel_filter : option SongFilter;
    window : RangeArg;
    sort : SortTag;
    descending : bool;
    recursive : bool }.

Definition DatabaseSelection_new (uri : bytes) (recursive : bool) (filter : option SongFilter)
  : DatabaseSelection :=
  mkSelection
    (match uri, filter with
     | [], Some f => default [] (SongFilter_GetBase f)
     | _, _ => uri
     end) filter RangeArg_All DontSort false recursive.

Definition with_uri (s : DatabaseSelection) (uri : bytes) : DatabaseSelection :=
  mkSelection uri (sel_filter s) (window s) (sort s) (descending s) (recursive s).
Definition with_filter (s : DatabaseSelection) (f : option SongFilter) : DatabaseSelection :=
  mkSelection (sel_uri s) f (window s) (sort s) (descending s) (recursive s).

Definition IsFiltered (s : DatabaseSelection) : bool :=
  negb (sel_uri s =b []) || match sel_filter s with Some f => negb (is_nil f) | None => false end.
Definition Selection_HasOtherThanBase (s : DatabaseSelection) : bool :=
  match sel_filter s with Some f => HasOtherThanBase f | None => false end.
Definition filter_matches `{FilterLibraries} (f : option SongFilter) (song : LightSong) : bool :=
  match f with None => true | Some f => SongFilter_Match f song end.
Definition Selection_Match `{FilterLibraries} (s : DatabaseSelection) (song : LightSong) : bool :=
  filter_matches (sel_filter s) song.

(** ** Visitors *)

(** What ends a visit or a lookup early: [DatabaseError], a call of an
    empty [std::function], an exception of a callback; [Undefined] is a
    failed assertion or a bad pointer. *)
Inductive DbError := NOT_FOUND | CONFLICT | BadFunctionCall | Undefined | Callback (what : bytes).

(** A callback on the state [St]. *)
Definition Call (St : Type) : Type := St -> St * option DbError.

(** A computation that may run out of fuel. *)
Definition Run (St : Type) : Type := St -> option (St * option DbError).

Definition skip {St} : Run St := fun st => Some (st, None).
Definition raise {St} (e : DbError) : Run St := fun st => Some (st, Some e).
Definition call {St} (f : Call St) : Run St := fun st => Some (f st).
Definition andthen {St} (m k : Run St) : Run St := fun st =>
  match m st with
  | Some (st, None) => k st
  | r => r
  end.
Notation "m ;;; k" := (andthen m k) (at level 60, right associativity) : mpd_scope.
Fixpoint for_each {St A} (f : A -> Run St) (l : list A) : Run St :=
  match l with
  | [] => skip
  | a :: l => f a ;;; for_each f l
  end.

Record Visitors (St : Type) := mkVisitors
  { visit_directory : option (LightDirectory -> Call St);
    visit_song : option (LightSong -> Call St);
    visit_playlist : option (PlaylistInfo -> LightDirectory -> Call St) }.
Arguments mkVisitors {St} _ _ _.
Arguments visit_directory {St} _.
Arguments visit_song {St} _.
Arguments visit_playlist {St} _.

(** Calling a [std::function] that may be empty. *)
Definition invoke {St A} (f : option (A -> Call St)) (a : A) : Call St := fun st =>
  match f with
  | Some f => f a st
  | None => (st, Some BadFunctionCall)
  end.

(** ** db/VHelper.cxx *)

(** The visitor's state with the members of [DatabaseVisitorHelper]. *)
Record Helper (St : Type) := mkHelper { h_state : St; h_songs : list DetachedSong; h_counter : Z }.
Arguments mkHelper {St} _ _ _.
Arguments h_state {St} _.
Arguments h_songs {St} _.
Arguments h_counter {St} _.

Section Helper.
Context {St : Type} (sel : DatabaseSelection) (v : Visitors St).

(** A callback that does not touch the helper. *)
Definition through (f : Call St) : Call (Helper St) := fun h =>
  let '(st, e) := f (h_state h) in (mkHelper st (h_songs h) (h_counter h), e).

(** The visitors after the constructor. *)
Definition DatabaseVisitorHelper : Visitors (Helper St) :=
  mkVisitors
    (option_map (fun f dir => through (f dir)) (visit_directory v))
    (match sort sel with
     | DontSort =>
         if negb (bool_decide (window sel = RangeArg_All)) then
           Some (fun song h =>
             let '(i, h) := (h_counter h, mkHelper (h_state h) (h_songs h) (u32 (h_counter h + 1))) in
             if Contains (window sel) i then through (invoke (visit_song v) song) h else (h, None))
         else option_map (fun f song => through (f song)) (visit_song v)
     | _ => Some (fun song h =>
         (mkHelper (h_state h) (h_songs h ++ [DetachedSong_of_light song]) (h_counter h), None))
     end)
    (option_map (fun f playlist dir => through (f playlist dir)) (visit_playlist v)).

Definition compare_songs : DetachedSong -> DetachedSong -> bool :=
  match sort sel with
  | SORT_TAG_LAST_MODIFIED => fun a b =>
      if descending sel then d_mtime b <? d_mtime a else d_mtime a <? d_mtime b
  | SORT_TAG_ADDED => fun a b =>
      if descending sel then d_GetAdded b <? d_GetAdded a else d_GetAdded a <? d_GetAdded b
  | SortBy type => fun a b => CompareTags type (descending sel) (d_tag a) (d_tag b)
  | DontSort => fun _ _ => false
  end.

(** The songs of the vector that [window] leaves. *)
Definition apply_window (songs : list DetachedSong) : list DetachedSong :=
  let songs :=
    if r_end (window sel) <? Z.of_nat (length songs) then take (Z.to_nat (r_end (window sel))) songs else songs in
  if Z.of_nat (length songs) <=? r_start (window sel) then []
  else drop (Z.to_nat (r_start (window sel))) songs.

Definition Helper_Commit : Run (Helper St) := fun h =>
  match sort sel with
  | DontSort => Some (h, None)
  | _ =>
      for_each (fun song => call (through (invoke (visit_song v) (LightSong_of_detached song))))
        (apply_window (stable_sort compare_songs (h_songs h))) h
  end.

(** The visit with the helper: [run] uses the replaced visitors. *)
Definition with_helper (run : Visitors (Helper St) -> Run (Helper St)) : Run St := fun st =>
  match run DatabaseVisitorHelper (mkHelper st [] 0) with
  | Some (h, e) => Some (h_state h, e)
  | None => None
  end.
End Helper.

(** ** db/plugins/simple/PrefixedLightSong.hxx, Mount.cxx *)

Definition PrefixedLightSong (song : LightSong) (base : bytes) : LightSong :=
  mkLightSong None (Build base (l_GetURI song)) (l_real_uri song) (l_tag song) (l_mtime song) (l_added song)
    (l_start_time song) (l_end_time song) (l_audio_format song) (l_priority song).

Definition PrefixedLightDirectory (directory : LightDirectory) (base : bytes) : LightDirectory :=
  mkLightDirectory (if ld_uri directory =b [] then base else Build base (ld_uri directory)) (ld_mtime directory).

Definition prefix_visitors {St} (base : bytes) (v : Visitors St) : Visitors St :=
  mkVisitors
    (option_map (fun f dir => f (PrefixedLightDirectory dir base)) (visit_directory v))
    (option_map (fun f song => f (PrefixedLightSong song base)) (visit_song v))
    (option_map (fun f playlist dir => f playlist (PrefixedLightDirectory dir base)) (visit_playlist v)).

(** [visit] is the [Visit] of the mounted database. *)
Definition WalkMount {St} (visit : DatabaseSelection -> Visitors St -> Run St) (base uri : bytes)
  (old_selection : DatabaseSelection) (v : Visitors St) : Run St :=
  let selection := with_uri old_selection uri in
  let selection :=
    match sel_filter selection with
    | Some f => with_filter selection (Some (WithoutBasePrefix f base))
    | None => selection
    end in
  visit selection (prefix_visitors base v).

(** ** Directory::Walk *)

Section Walk.
Context `{FilterLibraries} {St : Type}.
(** [WalkMount] of the database mounted as number [n]. *)
Context (walk_mount : nat -> bytes -> bytes -> DatabaseSelection -> Visitors St -> Run St).
Context (root : Directory) (recursive : bool) (filter : option SongFilter) (hide_playlist_targets : bool)
  (v : Visitors St).

Definition walk_song (pos : list nat) (f : LightSong -> Call St) (song : Song) : Run St :=
  if hide_playlist_targets && in_playlist song then skip
  else
    let song2 := e_light (Export root pos song) in
    if filter_matches filter song2 then call (f song2) else skip.

(** The directory [d] at [pos]. *)
Fixpoint Directory_Walk (pos : list nat) (d : Directory) : Run St :=
  match mounted_database d with
  | Some n => walk_mount n (path d) [] (DatabaseSelection_new [] recursive filter) v
  | None =>
      match visit_song v with Some f => for_each (walk_song pos f) (songs d) | None => skip end ;;;
      match visit_playlist v with
      | Some f => for_each (fun p => call (f p (Directory_Export d))) (playlists d)
      | None => skip
      end ;;;
      (fix walk_children (i : nat) (l : list Directory) : Run St :=
         match l with
         | [] => skip
         | child :: l =>
             match visit_directory v with Some f => call (f (Directory_Export child)) | None => skip end ;;;
             (if recursive then Directory_Walk (pos ++ [i]) child else skip) ;;;
             walk_children (S i) l
         end) 0%nat (children d)
  end.

(** The loop over the children of the directory at [pos]. *)
Section Children.
Context (pos : list nat).
Fixpoint walk_children (i : nat) (l : list Directory) : Run St :=
  match l with
  | [] => skip
  | child :: l =>
      match visit_directory v with Some f => call (f (Directory_Export child)) | None => skip end ;;;
      (if recursive then Directory_Walk (pos ++ [i]) child else skip) ;;;
      walk_children (S i) l
  end.
End Children.

Lemma Directory_Walk_eq pos d : mounted_database d = None -> Directory_Walk pos d =
  (match visit_song v with Some f => for_each (walk_song pos f) (songs d) | None => skip end ;;;
   match visit_playlist v with
   | Some f => for_each (fun p => call (f p (Directory_Export d))) (playlists d)
   | None => skip
   end ;;;
   walk_children pos 0 (children d)).
Proof. destruct d as [l sl pl r mt ino dev p m mk]. cbn. by intros ->. Qed.
End Walk.

(** ** SimpleDatabase *)

(** [prefixed_light_song] and [exported_song] are the buffers of
    [GetSong]; [root] is [None] while the database is not open. *)
Record SimpleDatabase := mkSimpleDatabase
  { db_path : bytes;
    cache_path : option bytes;
    root : option Directory;
    db_mtime : Z;
    prefixed_light_song : option LightSong;
    exported_song : option ExportedSong;
    compress : bool;
    hide_playlist_targets : bool }.

Definition with_prefixed (db : SimpleDatabase) (p : option LightSong) : SimpleDatabase :=
  mkSimpleDatabase (db_path db) (cache_path db) (root db) (db_mtime db) p (exported_song db) (compress db)
    (hide_playlist_targets db).
Definition with_exported (db : SimpleDatabase) (e : option ExportedSong) : SimpleDatabase :=
  mkSimpleDatabase (db_path db) (cache_path db) (root db) (db_mtime db) (prefixed_light_song db) e (compress db)
    (hide_playlist_targets db).

(** All open databases. *)
Notation Databases := (gmap nat SimpleDatabase) (only parsing).

Definition root_of (dbs : Databases) (n : nat) : option Directory := dbs !! n ≫= root.

Definition has_slash (s : bytes) : bool := existsb IsSeparator s.

(** [CheckSelection]: the features that the helper emulates. *)
Definition CheckSelection (selection : DatabaseSelection) : DatabaseSelection :=
  with_filter (with_uri selection []) None.

Section Visit.
Context `{FilterLibraries} (dbs : Databases).

Fixpoint Visit (fuel : nat) (St : Type) (n : nat) (selection : DatabaseSelection) (v : Visitors St) {struct fuel}
  : Run St :=
  match fuel with
  | O => fun _ => None
  | S fuel =>
      match dbs !! n with
      | Some db =>
      match root db with
      | Some root =>
          let r := LookupDirectory root (sel_uri selection) in
          match dir_at root (lr_directory r) with
          | None => raise Undefined
          | Some directory =>
              match mounted_database directory with
              | Some m => WalkMount (Visit fuel St m) (lr_uri r) (default [] (lr_rest r)) selection v
              | None =>
                  let helper_selection := CheckSelection selection in
                  with_helper helper_selection v (fun hv =>
                    match lr_rest r with
                    | None =>
                        (if recursive selection then
                           match visit_directory hv with
                           | Some f => call (f (Directory_Export directory))
                           | None => skip
                           end
                         else skip) ;;;
                        Directory_Walk (fun m => WalkMount (Visit fuel (Helper St) m)) root (recursive selection)
                          (sel_filter selection) (hide_playlist_targets db) hv (lr_directory r) directory ;;;
                        Helper_Commit helper_selection v
                    | Some rest =>
                        match (if has_slash rest then None else visit_song hv) with
                        | None => raise NOT_FOUND
                        | Some f =>
                            match FindSong directory rest with
                            | None => raise NOT_FOUND
                            | Some song =>
                                let song2 := e_light (Export root (lr_directory r) song) in
                                (if Selection_Match selection song2 then call (f song2) else skip) ;;;
                                Helper_Commit helper_selection v
                            end
                        end
                    end)
              end
          end
      | None => raise Undefined
      end
      | None => raise Undefined
      end
  end.
End Visit.

(** ** GetSong, ReturnSong *)

Definition ReturnSong (dbs : Databases) (n : nat) : Databases :=
  match dbs !! n with
  | None => dbs
  | Some db =>
      match prefixed_light_song db with
      | Some _ => <[n := with_prefixed db None]> dbs
      | None => <[n := with_exported db None]> dbs
      end
  end.

(** The song is lent from the buffers, which the returned databases hold. *)
Fixpoint GetSong (fuel : nat) (dbs : Databases) (n : nat) (uri : bytes) {struct fuel}
  : option (Databases * (LightSong + DbError)) :=
  match fuel with
  | O => None
  | S fuel =>
      match dbs !! n with
      | Some db =>
      match root db with
      | Some root =>
          let r := LookupDirectory root uri in
          match dir_at root (lr_directory r) with
          | None => Some (dbs, inr Undefined)
          | Some directory =>
              let rest := default [] (lr_rest r) in
              match mounted_database directory with
              | Some m =>
                  match GetSong fuel dbs m rest with
                  | Some (dbs, inl song) =>
                      let prefixed := PrefixedLightSong song (lr_uri r) in
                      let dbs :=
                        match dbs !! n with
                        | Some db => <[n := with_prefixed db (Some prefixed)]> dbs
                        | None => dbs
                        end in
                      Some (ReturnSong dbs m, inl prefixed)
                  | result => result
                  end
              | None =>
                  match rest with
                  | [] => Some (dbs, inr NOT_FOUND)
                  | _ =>
                      if has_slash rest then Some (dbs, inr NOT_FOUND)
                      else
                        match FindSong directory rest with
                        | None => Some (dbs, inr NOT_FOUND)
                        | Some song =>
                            let e := ExportedSong_move (Export root (lr_directory r) song) in
                            Some (<[n := with_exported db (Some e)]> dbs, inl (e_light e))
                        end
                  end
              end
          end
      | None => Some (dbs, inr Undefined)
      end
      | None => Some (dbs, inr Undefined)
      end
  end.

(** ** db/Helpers.cxx *)

Record DatabaseStats := mkStats
  { song_count : Z; total_duration : Z; artist_count : Z; album_count : Z }.

(** [std::set] of C strings: a list without duplicates. *)
Definition set_emplace (value : bytes) (set : list bytes) : list bytes :=
  if bool_decide (value ∈ set) then set else set ++ [value].

(** The stats and the two sets. *)
Record StatsState := mkStatsState { stats : DatabaseStats; artists : list bytes; albums : list bytes }.

(** The [switch] on one item. *)
Definition StatsVisitItem (s : StatsState) (item : TagItem) : StatsState :=
  match ti_type item with
  | TAG_ARTIST => mkStatsState (stats s) (set_emplace (ti_value item) (artists s)) (albums s)
  | TAG_ALBUM => mkStatsState (stats s) (artists s) (set_emplace (ti_value item) (albums s))
  | _ => s
  end.

Definition StatsVisitTag (s : StatsState) (tag : Tag) : StatsState :=
  let total :=
    if IsNegative_ms (duration tag) then total_duration (stats s)
    else u64 (total_duration (stats s) + duration tag) in
  fold_left StatsVisitItem (items tag)
    (mkStatsState
      (mkStats (song_count (stats s)) total (artist_count (stats s)) (album_count (stats s)))
      (artists s) (albums s)).

Definition StatsVisitSong (s : StatsState) (song : LightSong) : StatsState :=
  StatsVisitTag (mkStatsState
    (mkStats (u32 (song_count (stats s) + 1)) (total_duration (stats s)) (artist_count (stats s))
      (album_count (stats s))) (artists s) (albums s)) (l_tag song).

(** A visitor of songs only, which never throws. *)
Definition song_visitor {St} (f : St -> LightSong -> St) : Visitors St :=
  mkVisitors None (Some (fun song st => (f st song, None))) None.

Definition GetStats `{FilterLibraries} (fuel : nat) (dbs : Databases) (n : nat) (selection : DatabaseSelection)
  : option (DatabaseStats + DbError) :=
  match Visit dbs fuel StatsState n selection (song_visitor StatsVisitSong)
    (mkStatsState (mkStats 0 0 0 0) [] []) with
  | None => None
  | Some (s, Some e) => Some (inr e)
  | Some (s, None) =>
      Some (inl (mkStats (song_count (stats s)) (total_duration (stats s))
        (u32 (Z.of_nat (length (artists s)))) (u32 (Z.of_nat (length (albums s))))))
  end.

(** ** db/UniqueTags.cxx *)

(** [RecursiveMap<std::string>]: the entries in the order of the keys. *)
Inductive RecursiveMap := RMap (entries : list (bytes * RecursiveMap)).
Definition rm_entries (m : RecursiveMap) : list (bytes * RecursiveMap) := let 'RMap l := m in l.
Definition rm_empty : RecursiveMap := RMap [].

(** [f] applied to [map[key]], which is inserted if it is not there. *)
Fixpoint rm_alter (key : bytes) (f : RecursiveMap -> RecursiveMap) (l : list (bytes * RecursiveMap))
  : list (bytes * RecursiveMap) :=
  match l with
  | [] => [(key, f rm_empty)]
  | (k, m) :: l' =>
      if k =b key then (k, f m) :: l'
      else if strcmp key k <? 0 then (key, f rm_empty) :: l
      else (k, m) :: rm_alter key f l'
  end.

Fixpoint CollectUniqueTags_tag (result : RecursiveMap) (tag : Tag) (tag_types : list TagType) : RecursiveMap :=
  match tag_types with
  | [] => result
  | tag_type :: tag_types =>
      fold_left (fun result value =>
        RMap (rm_alter value (fun m => CollectUniqueTags_tag m tag tag_types) (rm_entries result)))
        (VisitTagWithFallbackOrEmpty tag tag_type) result
  end.

Definition CollectUniqueTags `{FilterLibraries} (fuel : nat) (dbs : Databases) (n : nat)
  (selection : DatabaseSelection) (tag_types : list TagType) : option (RecursiveMap + DbError) :=
  match Visit dbs fuel RecursiveMap n selection
    (song_visitor (fun result song => CollectUniqueTags_tag result (l_tag song) tag_types)) rm_empty with
  | None => None
  | Some (_, Some e) => Some (inr e)
  | Some (m, None) => Some (inl m)
  end.

(** ** An example: a database with another one mounted at "m" *)

Definition sample_song (name artist title : bytes) : Song :=
  mkSong name [] (mkTag 1500 false [mkTagItem TAG_ARTIST artist; mkTagItem TAG_TITLE title]) 7 9 0 0
    AudioFormat_Undefined false false.
Definition sample_mounted_root : Directory := with_songs NewRoot [sample_song (lit "x") (lit "A") (lit "3")].
Definition sample_root_0 : Directory :=
  with_children (with_songs NewRoot [sample_song (lit "t") (lit "B") (lit "2")])
    [with_songs (new_child NewRoot (lit "d")) [sample_song (lit "u") (lit "A") (lit "1")];
     with_mounted (new_child NewRoot (lit "m")) (Some 1%nat)].
Definition sample_db (root : Directory) : SimpleDatabase :=
  mkSimpleDatabase (lit "db") None (Some root) 1 None None false false.
Definition sample_dbs : Databases :=
  {[ 0%nat := sample_db sample_root_0; 1%nat := sample_db sample_mounted_root ]}.
Definition sample_selection : DatabaseSelection := DatabaseSelection_new [] true None.
