(* ===== verification/VisitLog.v ===== *)
(** Every visit factors through its log: what a visitor sees does not
    depend on what it does, so the visit of any visitor is the replay of
    the calls that a recording visitor receives.  The proof relates two
    visits step by step, through the helper and through mounts.  The
    results for statistics and unique tags follow. *)
From stdpp Require Import gmap.
From S2P Require Import Prelude Text Chrono Tags Audio Songs Uri SongFilter SortList StableSort SongSort RangeArg Playlists Directory DbVisit.
Open Scope Z_scope.

(** ** Related visits *)

Section Sim.
Context `{FilterLibraries}.

(** A visitor on [St] follows one on [L]: while no callback of the first
    has thrown, the states are [live]; after that its outcome is [dead],
    and nothing the second one does changes that. *)
Record Relation (St L : Type) := mkRelation
  { live : St -> L -> Prop; dead : St * DbError -> L -> Prop }.
Arguments mkRelation {St L} _ _.
Arguments live {St L} _ _ _.
Arguments dead {St L} _ _ _.

Section Steps.
Context {St L : Type} (R : Relation St L).

Definition outcome (r : St * option DbError) (o : L * option DbError) : Prop :=
  match r, o with
  | (st, None), (l, None) => live R st l
  | (st, None), (l, Some _) => False
  | (st, Some e), (l, e') => dead R (st, e) l \/ (e' = Some e /\ live R st l)
  end.

Definition sim_call (f : Call St) (g : Call L) : Prop :=
  (forall st l, live R st l -> outcome (f st) (g l)) /\
  (forall r l, dead R r l -> dead R r (fst (g l))).

Definition sim_run (f : Run St) (g : Run L) : Prop :=
  (forall st l o, live R st l -> g l = Some o -> exists r, f st = Some r /\ outcome r o) /\
  (forall r l o, dead R r l -> g l = Some o -> dead R r (fst o)).

Definition sim_option {A} (f : option (A -> Call St)) (g : option (A -> Call L)) : Prop :=
  match f, g with
  | Some f, Some g => forall a, sim_call (f a) (g a)
  | None, None => True
  | _, _ => False
  end.

Record sim_visitors (v : Visitors St) (w : Visitors L) : Prop := mkSim
  { sim_directory : sim_option (visit_directory v) (visit_directory w);
    sim_song : sim_option (visit_song v) (visit_song w);
    sim_playlist : match visit_playlist v, visit_playlist w with
      | Some f, Some g => forall a b, sim_call (f a b) (g a b)
      | None, None => True
      | _, _ => False
      end }.

Lemma sim_skip : sim_run skip skip.
Proof. split; [intros st l o Hl [= <-]; by eexists|by intros r l o Hd [= <-]]. Qed.

Lemma sim_raise e : sim_run (raise e) (raise e).
Proof.
  split; [intros st l o Hl [= <-]; eexists; split; [done|]; by right|by intros r l o Hd [= <-]].
Qed.

Lemma sim_run_call f g : sim_call f g -> sim_run (call f) (call g).
Proof.
  intros [Hl Hd]. split; [intros st l o Hst [= <-]; eexists; split; [done|]; by apply Hl|].
  intros r l o Hr [= <-]. by apply Hd.
Qed.

Lemma sim_andthen f g f' g' : sim_run f g -> sim_run f' g' -> sim_run (f ;;; f') (g ;;; g').
Proof.
  intros [Hl Hd] [Hl' Hd']. split; unfold andthen.
  - intros st l o Hst Ho. destruct (g l) as [[l1 e1]|] eqn:Eg; [|done].
    destruct (Hl st l _ Hst Eg) as ([st1 e] & -> & Hout). destruct e as [e|].
    + destruct Hout as [Hdead|[-> Hlive]].
      * eexists. split; [done|]. destruct e1 as [e1|]; [injection Ho as <-; by left|].
        destruct o as [l2 e2]. left. by apply (Hd' _ _ _ Hdead Ho).
      * injection Ho as <-. eexists. split; [done|]. by right.
    + destruct e1; [done|]. by apply (Hl' _ l1).
  - intros r l o Hr Ho. destruct (g l) as [[l1 [e1|]]|] eqn:Eg; [| |done].
    + injection Ho as <-. by apply (Hd _ _ _ Hr Eg).
    + apply (Hd' _ l1); [|done]. by apply (Hd _ _ _ Hr Eg).
Qed.

Lemma sim_for_each {A} (f : A -> Run St) (g : A -> Run L) l : (forall a, sim_run (f a) (g a)) ->
  sim_run (for_each f l) (for_each g l).
Proof. intros Hfg. induction l as [|a l IH]; [apply sim_skip|]. by apply sim_andthen. Qed.

Lemma sim_optional {A} (f : option (A -> Call St)) (g : option (A -> Call L)) F G :
  sim_option f g -> (forall f g, (forall a, sim_call (f a) (g a)) -> sim_run (F f) (G g)) ->
  sim_run (match f with Some f => F f | None => skip end) (match g with Some g => G g | None => skip end).
Proof. intros Hs HF. destruct f, g; try done; [by apply HF|apply sim_skip]. Qed.

Lemma sim_prefix base v w : sim_visitors v w -> sim_visitors (prefix_visitors base v) (prefix_visitors base w).
Proof.
  intros [Hd Hs Hp]. split; simpl.
  - destruct (visit_directory v), (visit_directory w); try done. simpl. intros a. apply Hd.
  - destruct (visit_song v), (visit_song w); try done. simpl. intros a. apply Hs.
  - destruct (visit_playlist v), (visit_playlist w); try done. simpl. intros a b. apply Hp.
Qed.

(** [Directory::Walk]. *)
Section Walk.
Context (wm : nat -> bytes -> bytes -> DatabaseSelection -> Visitors St -> Run St)
  (wm' : nat -> bytes -> bytes -> DatabaseSelection -> Visitors L -> Run L)
  (root : Directory) (rec : bool) (filter : option SongFilter) (hide : bool) (v : Visitors St) (w : Visitors L).
Context (Hv : sim_visitors v w)
  (Hwm : forall n base uri sel, sim_run (wm n base uri sel v) (wm' n base uri sel w)).

Lemma sim_Walk d : forall pos,
  sim_run (Directory_Walk wm root rec filter hide v pos d) (Directory_Walk wm' root rec filter hide w pos d).
Proof.
  induction d as [d IH] using Directory_ind'. intros pos. destruct (mounted_database d) as [n|] eqn:Em.
  - destruct d; simpl in *; rewrite Em. apply Hwm.
  - rewrite !Directory_Walk_eq by done. destruct Hv as [Hd Hs Hp]. apply sim_andthen; [|apply sim_andthen].
    + apply sim_optional; [done|]. intros f g Hfg. apply sim_for_each. intros s. unfold walk_song.
      destruct (hide && in_playlist s); [apply sim_skip|].
      destruct (filter_matches filter _); [by apply sim_run_call|apply sim_skip].
    + destruct (visit_playlist v), (visit_playlist w); try done; [|apply sim_skip].
      apply sim_for_each. intros p. by apply sim_run_call.
    + generalize 0%nat. induction IH as [|c l Hc _ IHl]; intros i; [apply sim_skip|].
      cbn [walk_children]. apply sim_andthen; [|apply sim_andthen; [|apply IHl]].
      * apply sim_optional; [done|]. intros f g Hfg. by apply sim_run_call.
      * destruct rec; [apply Hc|apply sim_skip].
Qed.
End Walk.
End Steps.

(** The helper's part of the state is the same on both sides. *)
Definition helper_relation {St L} (R : Relation St L) : Relation (Helper St) (Helper L) :=
  mkRelation
    (fun h k => live R (h_state h) (h_state k) /\ h_songs h = h_songs k /\ h_counter h = h_counter k)
    (fun r k => dead R (h_state (fst r), snd r) (h_state k)).

Section HelperSim.
Context {St L : Type} (R : Relation St L) (sel : DatabaseSelection) (v : Visitors St) (w : Visitors L).
Context (Hv : sim_visitors R v w).

Lemma sim_through f g : sim_call R f g -> sim_call (helper_relation R) (through f) (through g).
Proof.
  intros [Hl Hd]. split.
  - intros [st sl c] [l sl' c'] (Hst & Hs & Hc). simpl in *. subst.
    specialize (Hl _ _ Hst). unfold through. simpl. destruct (f st) as [st1 [e|]], (g l) as [l1 [e'|]];
      simpl in *; naive_solver.
  - intros r k Hr. specialize (Hd _ _ Hr). unfold through. simpl in *. by destruct (g (h_state k)).
Qed.

Lemma sim_invoke {A} f g (a : A) : sim_option R f g -> sim_call R (invoke f a) (invoke g a).
Proof.
  destruct f, g; intros Hs; try done. split; [intros st l Hst; by right|done].
Qed.

Lemma sim_helper : sim_visitors (helper_relation R) (DatabaseVisitorHelper sel v) (DatabaseVisitorHelper sel w).
Proof.
  destruct Hv as [Hd Hs Hp]. split.
  - unfold DatabaseVisitorHelper. simpl. destruct (visit_directory v), (visit_directory w); try done.
    simpl. intros a. apply sim_through, Hd.
  - unfold DatabaseVisitorHelper. simpl.
    assert (forall song, sim_call (helper_relation R)
      (fun h => (mkHelper (h_state h) (h_songs h ++ [DetachedSong_of_light song]) (h_counter h), None))
      (fun h => (mkHelper (h_state h) (h_songs h ++ [DetachedSong_of_light song]) (h_counter h), None))) as Hsort.
    { intros song. split; [|done]. intros st l (Hst & Hss & Hc). simpl. by rewrite Hss. }
    destruct (sort sel); [|exact Hsort..].
    destruct (negb (bool_decide (window sel = RangeArg_All))).
    + simpl. intros song. pose proof (sim_through _ _ (sim_invoke _ _ song Hs)) as [Hl Hdd].
      split.
      * intros h k Hhk. pose proof Hhk as (Hst & Hss & Hc). rewrite Hc.
        destruct (Contains (window sel) (h_counter k)); [|by rewrite <- Hss].
        apply Hl. simpl. by rewrite <- Hss.
      * intros r k Hr. destruct (Contains (window sel) (h_counter k)); [|done]. by apply Hdd.
    + destruct (visit_song v), (visit_song w); try done. simpl. intros a. apply sim_through, Hs.
  - unfold DatabaseVisitorHelper. simpl. destruct (visit_playlist v), (visit_playlist w); try done.
    simpl. intros a b. apply sim_through, Hp.
Qed.

Lemma sim_Commit : sim_run (helper_relation R) (Helper_Commit sel v) (Helper_Commit sel w).
Proof.
  assert (forall songs, sim_run (helper_relation R)
    (for_each (fun song => call (through (invoke (visit_song v) (LightSong_of_detached song)))) songs)
    (for_each (fun song => call (through (invoke (visit_song w) (LightSong_of_detached song)))) songs)) as Hf.
  { intros songs. apply sim_for_each. intros song. apply sim_run_call, sim_through, sim_invoke, Hv. }
  split.
  - intros h k o Hhk. pose proof Hhk as (_ & Hs & _). unfold Helper_Commit. rewrite Hs.
    destruct (sort sel); [intros [= <-]; by eexists| | |]; by apply Hf.
  - intros r k o Hr. unfold Helper_Commit. destruct (sort sel); [by intros [= <-]| | |]; by apply Hf.
Qed.

Lemma sim_with_helper F G :
  sim_run (helper_relation R) (F (DatabaseVisitorHelper sel v)) (G (DatabaseVisitorHelper sel w)) ->
  sim_run R (with_helper sel v F) (with_helper sel w G).
Proof.
  intros [Hl Hd]. unfold with_helper. split.
  - intros st l o Hst Ho. destruct (G _ _) as [[k e']|] eqn:Eg; [|done]. injection Ho as <-.
    destruct (Hl (mkHelper st [] 0) (mkHelper l [] 0) _ (conj Hst (conj eq_refl eq_refl)) Eg) as ([h e] & -> & Hout). eexists. split; [done|].
    destruct e as [e|], e' as [e'|]; simpl in *; naive_solver.
  - intros [st e] l o Hr Ho. destruct (G _ _) as [[k e']|] eqn:Eg; [|done]. injection Ho as <-.
    by apply (Hd (mkHelper st [] 0, e) (mkHelper l [] 0) _ Hr Eg).
Qed.
End HelperSim.

Lemma sim_Visit dbs fuel : forall St L (R : Relation St L) n sel v w, sim_visitors R v w ->
  sim_run R (Visit dbs fuel St n sel v) (Visit dbs fuel L n sel w).
Proof.
  induction fuel as [|fuel IH]; intros St L R n sel v w Hv; [by split|]. cbn [Visit].
  destruct (dbs !! n) as [db|]; [|apply sim_raise]. destruct (root db) as [root|]; [|apply sim_raise].
  destruct (dir_at root _) as [directory|]; [|apply sim_raise].
  destruct (mounted_database directory) as [m|].
  { unfold WalkMount. apply IH. by apply sim_prefix. }
  apply sim_with_helper. pose proof (sim_helper R (CheckSelection sel) v w Hv) as Hh.
  destruct (lr_rest _) as [rest|].
  - destruct (has_slash rest); [apply sim_raise|]. pose proof (sim_song _ _ _ Hh) as Hs.
    destruct (visit_song (DatabaseVisitorHelper _ v)), (visit_song (DatabaseVisitorHelper _ w)); try done;
      [|apply sim_raise].
    destruct (FindSong directory rest) as [song|]; [|apply sim_raise].
    apply sim_andthen; [|by apply sim_Commit]. destruct (Selection_Match _ _); [|apply sim_skip].
    by apply sim_run_call.
  - apply sim_andthen; [|apply sim_andthen; [|by apply sim_Commit]].
    + destruct (recursive sel); [|apply sim_skip]. apply sim_optional; [apply Hh|].
      intros f g Hfg. by apply sim_run_call.
    + apply sim_Walk; [done|]. intros m base uri sel'. unfold WalkMount. apply IH. by apply sim_prefix.
Qed.
End Sim.

(** ** Recording and replaying *)

Inductive Event :=
| VDirectory (directory : LightDirectory)
| VSong (song : LightSong)
| VPlaylist (playlist : PlaylistInfo) (directory : LightDirectory).

(** The visitor that appends every call to its log.  The flags say which
    callbacks it has. *)
Definition record (e : Event) : Call (list Event) := fun log => (log ++ [e], None).
Definition recorder (directory song playlist : bool) : Visitors (list Event) :=
  mkVisitors
    (if directory then Some (fun d => record (VDirectory d)) else None)
    (if song then Some (fun s => record (VSong s)) else None)
    (if playlist then Some (fun p d => record (VPlaylist p d)) else None).

Definition given {A} (f : option A) : bool := match f with Some _ => true | None => false end.
Definition recorder_of {St} (v : Visitors St) : Visitors (list Event) :=
  recorder (given (visit_directory v)) (given (visit_song v)) (given (visit_playlist v)).

(** The calls of a log, until one throws. *)
Definition replay1 {St} (v : Visitors St) (e : Event) : Call St :=
  match e with
  | VDirectory d => invoke (visit_directory v) d
  | VSong s => invoke (visit_song v) s
  | VPlaylist p d => fun st =>
      match visit_playlist v with Some f => f p d st | None => (st, Some BadFunctionCall) end
  end.
Fixpoint replay {St} (v : Visitors St) (log : list Event) : Call St := fun st =>
  match log with
  | [] => (st, None)
  | e :: log =>
      match replay1 v e st with
      | (st, None) => replay v log st
      | r => r
      end
  end.

Lemma replay_app {St} (v : Visitors St) a b st : replay v (a ++ b) st =
  match replay v a st with (st, None) => replay v b st | r => r end.
Proof.
  revert st. induction a as [|e a IH]; intros st; [done|]. cbn [replay app].
  destruct (replay1 v e st) as [st1 [e1|]]; [done|]. apply IH.
Qed.

Section Replay.
Context `{FilterLibraries} {St : Type} (v : Visitors St) (st0 : St).

Definition replay_relation : Relation St (list Event) :=
  mkRelation _ _ (fun st log => replay v log st0 = (st, None))
    (fun r log => replay v log st0 = (fst r, Some (snd r))).

Lemma sim_record e (f : Call St) : (forall st, f st = replay1 v e st) ->
  sim_call replay_relation f (record e).
Proof.
  intros Hf. split.
  - intros st log Hl. simpl in Hl. unfold record. rewrite Hf.
    destruct (replay1 v e st) as [st1 [e1|]] eqn:E; simpl; [left|]; by rewrite replay_app, Hl; simpl; rewrite E.
  - intros [st1 e1] log Hd. simpl in *. by rewrite replay_app, Hd.
Qed.

Lemma sim_recorder : sim_visitors replay_relation v (recorder_of v).
Proof.
  split; unfold recorder_of, recorder; simpl.
  - destruct (visit_directory v) eqn:E; [|done]. intros a. apply sim_record. intros st. simpl. by rewrite E.
  - destruct (visit_song v) eqn:E; [|done]. intros a. apply sim_record. intros st. simpl. by rewrite E.
  - destruct (visit_playlist v) eqn:E; [|done]. intros a b. apply sim_record. intros st. simpl. by rewrite E.
Qed.

(** A visit is the replay of its log, which ends like the recording one
    unless a callback throws. *)
Lemma Visit_log dbs fuel n sel log e :
  Visit dbs fuel (list Event) n sel (recorder_of v) [] = Some (log, e) ->
  Visit dbs fuel St n sel v st0 =
    Some (match replay v log st0 with (st, None) => (st, e) | r => r end).
Proof.
  intros Hlog. destruct (proj1 (sim_Visit dbs fuel _ _ _ n sel _ _ sim_recorder) st0 [] (log, e))
    as ([st e1] & -> & Hout); [done|done|].
  f_equal. destruct e1 as [e1|]; simpl in Hout.
  - destruct Hout as [-> |[-> ->]]; done.
  - destruct e; [done|]. by rewrite Hout.
Qed.
End Replay.

(** The songs of a log. *)
Definition event_song (e : Event) : option LightSong := match e with VSong s => Some s | _ => None end.
Definition log_songs (log : list Event) : list LightSong := omap event_song log.

(** Only songs are reported to a visitor of songs. *)
Definition song_event (e : Event) : Prop := match e with VSong _ => True | _ => False end.

Lemma replay_song_visitor {St} (f : St -> LightSong -> St) log st : Forall song_event log ->
  replay (song_visitor f) log st = (fold_left f (log_songs log) st, None).
Proof.
  intros Hl. revert st. induction Hl as [|e log He _ IH]; intros st; [done|].
  destruct e as [|s|]; try done. cbn. apply IH.
Qed.

(** ** The songs of a visit *)

Definition collect_songs : Visitors (list LightSong) := song_visitor (fun l s => l ++ [s]).
Definition visit_songs `{FilterLibraries} dbs fuel n sel : option (list LightSong * option DbError) :=
  Visit dbs fuel (list LightSong) n sel collect_songs [].

Section Songs.
Context `{FilterLibraries} {St : Type} (f : St -> LightSong -> St) (st0 : St).

Definition fold_relation : Relation St (list LightSong) :=
  mkRelation _ _ (fun st l => st = fold_left f l st0) (fun _ _ => False).

Lemma sim_fold : sim_visitors fold_relation (song_visitor f) collect_songs.
Proof. split; try done. intros s. split; [|done]. intros st l ->. simpl. by rewrite fold_left_app. Qed.

(** A visitor of songs folds over them. *)
Lemma Visit_fold dbs fuel n sel l e : visit_songs dbs fuel n sel = Some (l, e) ->
  Visit dbs fuel St n sel (song_visitor f) st0 = Some (fold_left f l st0, e).
Proof.
  intros Hl. destruct (proj1 (sim_Visit dbs fuel _ _ _ n sel _ _ sim_fold) st0 [] (l, e))
    as ([st e1] & -> & Hout); [done|done|].
  f_equal. destruct e1 as [e1|]; simpl in Hout.
  - by destruct Hout as [[]|[-> ->]].
  - destruct e; [done|]. by rewrite Hout.
Qed.
End Songs.

(** ** GetStats *)

Lemma set_emplace_spec v set : NoDup set ->
  NoDup (set_emplace v set) /\ forall w, w ∈ set_emplace v set <-> w = v \/ w ∈ set.
Proof.
  intros Hnd. unfold set_emplace. case_bool_decide as Hv.
  - split; [done|]. intros w. split; [by right|]. by intros [->|].
  - split.
    + apply NoDup_app. split; [done|]. split; [|apply NoDup_singleton].
      intros w Hw ->%list_elem_of_singleton. done.
    + intros w. rewrite elem_of_app, list_elem_of_singleton. tauto.
Qed.

Definition tag_time (t : Tag) : Z := if IsNegative_ms (duration t) then 0 else duration t.

(** The sets after some songs. *)
Definition stats_after (songs : list LightSong) (s : StatsState) : Prop :=
  song_count (stats s) = u32 (Z.of_nat (length songs)) /\
  total_duration (stats s) = u64 (foldr (fun song n => tag_time (l_tag song) + n) 0 songs) /\
  NoDup (artists s) /\ NoDup (albums s) /\
  (forall v, v ∈ artists s <-> exists song, song ∈ songs /\ v ∈ values (items (l_tag song)) TAG_ARTIST) /\
  (forall v, v ∈ albums s <-> exists song, song ∈ songs /\ v ∈ values (items (l_tag song)) TAG_ALBUM).

(** The loop over the items of one tag. *)
Lemma stats_items its s : NoDup (artists s) -> NoDup (albums s) ->
  let s' := fold_left StatsVisitItem its s in
  stats s' = stats s /\ NoDup (artists s') /\ NoDup (albums s') /\
  (forall v, v ∈ artists s' <-> v ∈ artists s \/ v ∈ values its TAG_ARTIST) /\
  (forall v, v ∈ albums s' <-> v ∈ albums s \/ v ∈ values its TAG_ALBUM).
Proof.
  revert s. induction its as [|[ty v] its IH]; intros s Ha Hb.
  { simpl. unfold values. simpl. setoid_rewrite elem_of_nil. split_and!; try done; tauto. }
  cbn [fold_left].
  assert (forall T, values (mkTagItem ty v :: its) T =
    if bool_decide (ty = T) then v :: values its T else values its T) as Hv.
  { intros T. unfold values. simpl. by case_bool_decide. }
  rewrite !Hv. destruct (decide (ty = TAG_ARTIST)) as [->|Hna]; [|destruct (decide (ty = TAG_ALBUM)) as [->|Hnb]].
  - cbn [StatsVisitItem ti_type ti_value]. destruct (set_emplace_spec v (artists s) Ha) as [Hnd Hin].
    destruct (IH (mkStatsState (stats s) (set_emplace v (artists s)) (albums s)) Hnd Hb) as (H1 & H2 & H3 & H4 & H5).
    simpl in *. split_and!; try done. intros w. rewrite H4, Hin, elem_of_cons. tauto.
  - cbn [StatsVisitItem ti_type ti_value]. destruct (set_emplace_spec v (albums s) Hb) as [Hnd Hin].
    destruct (IH (mkStatsState (stats s) (artists s) (set_emplace v (albums s))) Ha Hnd) as (H1 & H2 & H3 & H4 & H5).
    simpl in *. split_and!; try done. intros w. rewrite H5, Hin, elem_of_cons. tauto.
  - rewrite !bool_decide_false by done. destruct (IH s Ha Hb) as (H1 & H2 & H3 & H4 & H5).
    destruct ty; try done; exact (conj H1 (conj H2 (conj H3 (conj H4 H5)))).
Qed.

Lemma u64_add_l a b : u64 (u64 a + b) = u64 (a + b).
Proof. unfold u64, wrap_u. by rewrite Zplus_mod_idemp_l. Qed.
Lemma u32_add_l a b : u32 (u32 a + b) = u32 (a + b).
Proof. unfold u32, wrap_u. by rewrite Zplus_mod_idemp_l. Qed.

Definition total_time (songs : list LightSong) : Z := foldr (fun song n => tag_time (l_tag song) + n) 0 songs.

Lemma total_time_snoc songs s : total_time (songs ++ [s]) = total_time songs + tag_time (l_tag s).
Proof. induction songs as [|t songs IH]; cbn; [lia|]. fold (total_time (songs ++ [s])). rewrite IH.
  unfold total_time. lia. Qed.

Lemma elem_of_snoc_exists {A} (P : A -> Prop) l x : (exists y, y ∈ l ++ [x] /\ P y) <-> (exists y, y ∈ l /\ P y) \/ P x.
Proof.
  setoid_rewrite elem_of_app. setoid_rewrite list_elem_of_singleton. split.
  - intros (y & [Hy| ->] & HP); [left; by exists y|by right].
  - intros [(y & Hy & HP)|HP]; [exists y; tauto|exists x; tauto].
Qed.

Lemma stats_after_snoc songs s song : stats_after songs s -> stats_after (songs ++ [song]) (StatsVisitSong s song).
Proof.
  intros (Hc & Ht & Ha & Hb & Hia & Hib). unfold StatsVisitSong, StatsVisitTag.
  set (s0 := mkStatsState _ (artists _) (albums _)).
  destruct (stats_items (items (l_tag song)) s0 Ha Hb) as (H1 & H2 & H3 & H4 & H5).
  unfold stats_after. rewrite H1. cbn [s0 stats song_count total_duration]. split_and!; [| |done|done| |].
  - rewrite Hc, u32_add_l, length_app. f_equal. simpl. lia.
  - fold (total_time (songs ++ [song])). rewrite total_time_snoc, Ht. fold (total_time songs).
    unfold tag_time. destruct (IsNegative_ms _); [by rewrite Z.add_0_r|apply u64_add_l].
  - intros v. rewrite H4. cbn [s0 artists]. rewrite Hia. by rewrite (elem_of_snoc_exists (fun x => v ∈ values (items (l_tag x)) TAG_ARTIST)).
  - intros v. rewrite H5. cbn [s0 albums]. rewrite Hib. by rewrite (elem_of_snoc_exists (fun x => v ∈ values (items (l_tag x)) TAG_ALBUM)).
Qed.

Lemma stats_fold songs : stats_after songs (fold_left StatsVisitSong songs (mkStatsState (mkStats 0 0 0 0) [] [])).
Proof.
  induction songs as [|s songs IH] using rev_ind.
  - unfold stats_after. simpl. setoid_rewrite elem_of_nil.
    split_and!; try done; try apply NoDup_nil_2; naive_solver.
  - rewrite fold_left_app. by apply stats_after_snoc.
Qed.

(** ** CollectUniqueTags *)

Fixpoint assoc (k : bytes) (l : list (bytes * RecursiveMap)) : option RecursiveMap :=
  match l with
  | [] => None
  | (k', m) :: l => if k' =b k then Some m else assoc k l
  end.

(** The map contains a path of keys. *)
Fixpoint rm_has (m : RecursiveMap) (p : list bytes) : Prop :=
  match p with
  | [] => True
  | k :: p => match assoc k (rm_entries m) with Some m => rm_has m p | None => False end
  end.

(** The keys of every level are in strict order. *)
Definition key_less (a b : bytes) : Prop := strcmp a b < 0.
Inductive rm_sorted : RecursiveMap -> Prop :=
| rm_sorted_intro l : Sorted.StronglySorted key_less l.*1 -> Forall rm_sorted l.*2 -> rm_sorted (RMap l).

Lemma key_less_irrefl a : ~ key_less a a.
Proof. unfold key_less. rewrite (proj2 (strcmp_eq a a) eq_refl). lia. Qed.

Lemma key_less_total a b : a <> b -> ~ key_less a b -> key_less b a.
Proof.
  unfold key_less. intros Hne Hn. pose proof (strcmp_sgn a b). rewrite <- strcmp_eq in Hne. lia.
Qed.

Lemma key_less_trans a b c : key_less a b -> key_less b c -> key_less a c.
Proof.
  unfold key_less. revert b c. induction a as [|x a IH]; intros [|y b] [|z c]; simpl; try lia.
  destruct (Z.eqb_spec (code x) (code y)), (Z.eqb_spec (code y) (code z)), (Z.eqb_spec (code x) (code z)); try lia.
  apply IH.
Qed.

Lemma assoc_None k l : Forall (key_less k) l.*1 -> assoc k l = None.
Proof.
  induction l as [|[k' m] l IH]; [done|]. cbn [fmap list_fmap fst assoc]. intros [Hk Hl]%Forall_cons.
  rewrite (proj2 (bytes_eqb_neq k' k)); [by apply IH|]. intros ->. by apply key_less_irrefl in Hk.
Qed.

Section Alter.
Context (key : bytes) (f : RecursiveMap -> RecursiveMap).

Lemma rm_alter_assoc l k : Sorted.StronglySorted key_less l.*1 ->
  assoc k (rm_alter key f l) = if key =b k then Some (f (default rm_empty (assoc key l))) else assoc k l.
Proof.
  intros Hs. induction l as [|[k' m] l IH]; [done|].
  cbn [fmap list_fmap fst] in Hs. apply Sorted.StronglySorted_inv in Hs as [Hs Hk]. specialize (IH Hs).
  cbn [rm_alter assoc]. destruct (k' =b key) eqn:E.
  - reflect_bools. subst k'. cbn [assoc]. by destruct (key =b k).
  - destruct (strcmp key k' <? 0) eqn:El.
    + cbn [assoc]. apply Z.ltb_lt in El. rewrite (assoc_None key l); [done|].
      eapply Forall_impl; [exact Hk|]. intros x Hx. by apply (key_less_trans key k').
    + cbn [assoc]. rewrite IH. destruct (k' =b k) eqn:Ek; [|done]. reflect_bools. subst.
      by rewrite (proj2 (bytes_eqb_neq key k)).
Qed.

Lemma rm_alter_keys l x : x ∈ (rm_alter key f l).*1 -> x = key \/ x ∈ l.*1.
Proof.
  induction l as [|[k' m] l IH]; cbn [rm_alter].
  - intros ->%list_elem_of_singleton. by left.
  - destruct (k' =b key); [by right|]. destruct (strcmp key k' <? 0).
    + cbn [fmap list_fmap fst]. intros [->|Hx]%elem_of_cons; [by left|by right].
    + cbn [fmap list_fmap fst]. intros [->|Hx]%elem_of_cons; [right; by left|].
      destruct (IH Hx) as [?|?]; [by left|right; by right].
Qed.

Lemma rm_alter_sorted l : rm_sorted (RMap l) -> (forall m, rm_sorted m -> rm_sorted (f m)) ->
  rm_sorted (RMap (rm_alter key f l)).
Proof.
  intros Hs Hf.
  assert (rm_sorted rm_empty) as He by (constructor; constructor).
  inversion_clear Hs as [l' H1 H2]. constructor.
  - clear H2. induction l as [|[k' m] l IH]; cbn [rm_alter]; [repeat constructor|].
    cbn [fmap list_fmap fst] in *. pose proof (Sorted.StronglySorted_inv H1) as [Hs Hk].
    destruct (k' =b key) eqn:E; [done|]. destruct (strcmp key k' <? 0) eqn:El.
    + apply Z.ltb_lt in El. constructor; [done|]. constructor; [done|].
      eapply Forall_impl; [exact Hk|]. intros x Hx. by apply (key_less_trans key k').
    + cbn [fmap list_fmap fst]. constructor; [by apply IH|]. apply Forall_forall. intros x Hx.
      apply rm_alter_keys in Hx as [->|Hx]; [|by eapply Forall_forall in Hk].
      reflect_bools. apply key_less_total; [congruence|]. unfold key_less. lia.
  - clear H1. induction l as [|[k' m] l IH]; cbn [rm_alter]; [repeat constructor; by apply Hf|].
    cbn [fmap list_fmap snd] in H2. apply Forall_cons in H2 as [Hm Hl].
    destruct (k' =b key); [|destruct (strcmp key k' <? 0)]; cbn [fmap list_fmap snd]; repeat constructor; auto.
Qed.
End Alter.

(** A path of values of one tag. *)
Definition tag_path (tag : Tag) (p : list bytes) (tag_types : list TagType) : Prop :=
  Forall2 (fun v type => v ∈ VisitTagWithFallbackOrEmpty tag type) p tag_types.

Lemma rm_has_empty k p : ~ rm_has rm_empty (k :: p).
Proof. by intros []. Qed.

Lemma CollectUniqueTags_tag_spec tag tys : forall m, rm_sorted m ->
  rm_sorted (CollectUniqueTags_tag m tag tys) /\
  forall p, length p = length tys ->
    (rm_has (CollectUniqueTags_tag m tag tys) p <-> rm_has m p \/ tag_path tag p tys).
Proof.
  induction tys as [|ty tys IH]; intros m Hm.
  { split; [done|]. intros [|k p]; [|done]. intros _. simpl. tauto. }
  cbn [CollectUniqueTags_tag]. set (vs := VisitTagWithFallbackOrEmpty tag ty).
  assert (forall k p, tag_path tag (k :: p) (ty :: tys) <-> k ∈ vs /\ tag_path tag p tys) as Hp
    by (intros; unfold tag_path; rewrite Forall2_cons; done).
  assert (forall vs m, rm_sorted m ->
    let m' := fold_left (fun result value =>
      RMap (rm_alter value (fun m => CollectUniqueTags_tag m tag tys) (rm_entries result))) vs m in
    rm_sorted m' /\ forall k p, length p = length tys ->
      (rm_has m' (k :: p) <-> rm_has m (k :: p) \/ k ∈ vs /\ tag_path tag p tys)) as Hfold.
  { clear m Hm Hp vs. induction vs as [|v vs IHv]; intros m Hm; cbn [fold_left].
    { split; [done|]. intros k p Hl. rewrite elem_of_nil. tauto. }
    destruct m as [l]. cbn [rm_entries].
    assert (rm_sorted (RMap (rm_alter v (fun m => CollectUniqueTags_tag m tag tys) l))) as Hs
      by (apply rm_alter_sorted; [done|]; intros m Hm'; by apply IH).
    destruct (IHv _ Hs) as [H1 H2]. split; [done|]. intros k p Hl. rewrite H2 by done.
    cbn [rm_has rm_entries]. inversion_clear Hm as [l' Hk Hsub]. rewrite rm_alter_assoc by done.
    rewrite elem_of_cons. destruct (v =b k) eqn:E; reflect_bools.
    - subst v.
      assert (rm_sorted (default rm_empty (assoc k l))) as Hd.
      { destruct (assoc k l) as [m'|] eqn:Ea; [|constructor; constructor]. simpl. clear -Ea Hsub.
        induction l as [|[k' m1] l IH]; [done|]. cbn [assoc fmap list_fmap snd] in *. apply Forall_cons in Hsub as [? ?].
        destruct (k' =b k); [by injection Ea as <-|by apply IH]. }
      rewrite (proj2 (IH _ Hd) p Hl). destruct (assoc k l) as [m'|]; simpl; [tauto|].
      destruct p as [|k1 p]; [|simpl; tauto]. destruct tys; [|done]. simpl.
      unfold tag_path. split; intros _; [right|left; by left]. split; [by left|constructor].
    - split; [intros [?|[? ?]]|intros [?|[[?|?] ?]]]; tauto || (subst; done). }
  destruct (Hfold vs m Hm) as [H1 H2]. split; [done|]. intros [|k p] Hl; [done|]. rewrite Hp. apply H2. simpl in Hl. lia.
Qed.

Lemma unique_fold tys songs : 
  let m := fold_left (fun result song => CollectUniqueTags_tag result (l_tag song) tys) songs rm_empty in
  rm_sorted m /\ forall p, length p = length tys -> p <> [] ->
    (rm_has m p <-> exists song, song ∈ songs /\ tag_path (l_tag song) p tys).
Proof.
  induction songs as [|s songs IH] using rev_ind.
  - split; [constructor; constructor|]. intros [|k p] _ Hp; [done|]. split; [by intros []|].
    intros (song & Hs & _). by apply elem_of_nil in Hs.
  - rewrite fold_left_app. cbn [fold_left]. destruct IH as [Hs Hp].
    destruct (CollectUniqueTags_tag_spec (l_tag s) tys _ Hs) as [Hs' Hp']. split; [done|].
    intros p Hl Hne. rewrite Hp', Hp by done. by rewrite (elem_of_snoc_exists (fun x => tag_path (l_tag x) p tys)).
Qed.

(** ** Properties *)

(** What a visit does with any visitor is the replay of the calls that
    a recording visitor gets: directories, songs and playlists are chosen
    by the database and the selection alone, and the first exception of a
    callback ends it. *)
Theorem Visit_replay `{FilterLibraries} {St : Type} (v : Visitors St) (st : St) (dbs : gmap nat SimpleDatabase)
  (fuel n : nat) (selection : DatabaseSelection) (log : list Event) (e : option DbError)
  (Hlog : Visit dbs fuel (list Event) n selection (recorder_of v) [] = Some (log, e)) :
  Visit dbs fuel St n selection v st =
    Some (match replay v log st with (st', None) => (st', e) | r => r end).
Proof. by apply Visit_log. Qed.

(** What the visit of the example reports. *)
Definition sample_songs : list LightSong :=
  match visit_songs sample_dbs 2 0 sample_selection with Some (l, _) => l | None => [] end.

Lemma Visit_replay_witness :
  exists log,
    Visit sample_dbs 2 (list Event) 0 sample_selection (recorder true true false) [] = Some (log, None) /\
    length log = 7%nat /\
    Visit sample_dbs 2 nat 0 sample_selection
      (mkVisitors (Some (fun _ n => (n, None))) (Some (fun _ n => (S n, None))) None) 0%nat = Some (3%nat, None).
Proof.
  eexists. split; [vm_compute; reflexivity|]. split; [vm_compute; reflexivity|].
  erewrite (Visit_replay (mkVisitors (Some (fun _ n => (n, None))) (Some (fun _ n => (S n, None))) None) 0%nat
    sample_dbs 2 0 sample_selection); [|vm_compute; reflexivity]. vm_compute. reflexivity.
Defined.

(** The statistics count the songs of the visit, add up the times of
    those that have one, and count the different artists and albums. *)
Theorem GetStats_spec `{FilterLibraries} (dbs : gmap nat SimpleDatabase) (fuel n : nat)
  (selection : DatabaseSelection) (songs : list LightSong)
  (Hsongs : visit_songs dbs fuel n selection = Some (songs, None)) :
  exists artists albums : list bytes,
    GetStats fuel dbs n selection = Some (inl (mkStats (u32 (Z.of_nat (length songs)))
      (u64 (total_time songs)) (u32 (Z.of_nat (length artists))) (u32 (Z.of_nat (length albums))))) /\
    NoDup artists /\ NoDup albums /\
    (forall v, v ∈ artists <-> exists song, song ∈ songs /\ v ∈ values (items (l_tag song)) TAG_ARTIST) /\
    (forall v, v ∈ albums <-> exists song, song ∈ songs /\ v ∈ values (items (l_tag song)) TAG_ALBUM).
Proof.
  unfold GetStats. rewrite (Visit_fold StatsVisitSong _ _ _ _ _ _ _ Hsongs).
  destruct (stats_fold songs) as (Hc & Ht & Ha & Hb & Hia & Hib).
  eexists _, _. rewrite Hc, Ht. split; [done|]. by split_and!.
Qed.

Lemma GetStats_spec_witness :
  exists artists albums : list bytes,
    GetStats 2 sample_dbs 0 sample_selection = Some (inl (mkStats 3 4500 (u32 (Z.of_nat (length artists)))
      (u32 (Z.of_nat (length albums))))) /\ NoDup artists /\ NoDup albums.
Proof.
  assert (visit_songs sample_dbs 2 0 sample_selection = Some (sample_songs, None)) as Hs by (vm_compute; reflexivity).
  destruct (GetStats_spec sample_dbs 2 0 sample_selection sample_songs Hs) as (artists & albums & HG & Ha & Hb & _).
  exists artists, albums. rewrite HG. by split_and!.
Defined.

(** The tree of unique tags of a visit has exactly the paths of values
    that some song has, one of each of the types asked for, where a song
    without a value counts as having an empty one; the keys of every level
    are unique and in order. *)
Theorem CollectUniqueTags_spec `{FilterLibraries} (dbs : gmap nat SimpleDatabase) (fuel n : nat)
  (selection : DatabaseSelection) (songs : list LightSong) (tag_types : list TagType)
  (Hsongs : visit_songs dbs fuel n selection = Some (songs, None)) :
  exists m,
    CollectUniqueTags fuel dbs n selection tag_types = Some (inl m) /\ rm_sorted m /\
    forall path, length path = length tag_types -> path <> [] ->
      (rm_has m path <-> exists song, song ∈ songs /\
        Forall2 (fun v type => v ∈ VisitTagWithFallbackOrEmpty (l_tag song) type) path tag_types).
Proof.
  unfold CollectUniqueTags. rewrite (Visit_fold _ _ _ _ _ _ _ _ Hsongs).
  eexists. split; [done|]. apply (unique_fold tag_types songs).
Qed.

Lemma CollectUniqueTags_spec_witness :
  exists m, CollectUniqueTags 2 sample_dbs 0 sample_selection [TAG_ARTIST; TAG_TITLE] = Some (inl m) /\
    rm_has m [lit "A"; lit "3"] /\ ~ rm_has m [lit "B"; lit "3"].
Proof.
  destruct (CollectUniqueTags_spec sample_dbs 2 0 sample_selection sample_songs [TAG_ARTIST; TAG_TITLE] ltac:(vm_compute; reflexivity))
    as (m & Hm & _ & Hp).
  exists m. split; [done|].
  assert (Some (inl m) = Some (inl (RMap [(lit "A", RMap [(lit "1", RMap []); (lit "3", RMap [])]);
    (lit "B", RMap [(lit "2", RMap [])])]) : RecursiveMap + DbError)) as Heq
    by (rewrite <- Hm; vm_compute; reflexivity).
  injection Heq as ->. split; [exact I|]. intros [].
Defined.
