(* ===== verification/VisitOrder.v ===== *)
(** Sorting and windows of a visit: what [DatabaseVisitorHelper] makes of
    the songs that the same visit reports without it. *)
From stdpp Require Import gmap sorting.
From S2P Require Import Prelude Text Chrono Tags Audio Songs Uri SongFilter SortList StableSort SongSort RangeArg Playlists Directory DbVisit VisitLog.
Open Scope Z_scope.

(** ** Slices *)

(** The elements whose index is in the range. *)
Definition slice {A} (r : RangeArg) (l : list A) : list A :=
  drop (Z.to_nat (r_start r)) (take (Z.to_nat (r_end r)) l).

Lemma take_to_nat {A} (n : Z) (l : list A) : (if n <? Z.of_nat (length l) then take (Z.to_nat n) l else l) =
  take (Z.to_nat n) l.
Proof. destruct (Z.ltb_spec n (Z.of_nat (length l))); [done|]. by rewrite take_ge by lia. Qed.

Lemma apply_window_slice sel l : apply_window sel l = slice (window sel) l.
Proof.
  unfold apply_window, slice. rewrite take_to_nat.
  destruct (Z.leb_spec (Z.of_nat (length (take (Z.to_nat (r_end (window sel))) l))) (r_start (window sel))); [|done].
  by rewrite drop_ge by lia.
Qed.

Lemma slice_snoc {A} r (l : list A) x : 0 <= r_start r -> 0 <= r_end r ->
  slice r (l ++ [x]) = slice r l ++ (if Contains r (Z.of_nat (length l)) then [x] else []).
Proof.
  intros Hs He. unfold slice, Contains.
  destruct (Z.ltb_spec (Z.of_nat (length l)) (r_end r)) as [Hl|Hl].
  - rewrite andb_true_r, !take_ge by (rewrite ?length_app; simpl; lia).
    destruct (Z.leb_spec (r_start r) (Z.of_nat (length l))).
    + by rewrite drop_app_le by lia.
    + rewrite !drop_ge by (rewrite ?length_app; simpl; lia). done.
  - rewrite andb_false_r, app_nil_r. by rewrite take_app_le by lia.
Qed.

Lemma slice_all {A} (l : list A) : Z.of_nat (length l) < 2 ^ 32 -> slice RangeArg_All l = l.
Proof.
  intros Hl. unfold slice. cbn [RangeArg_All OpenEnded r_start r_end]. rewrite drop_0. apply take_ge. lia.
Qed.

(** The order of the songs is a strict weak order for every [sort]. *)
Lemma key_comparison {A} (f : A -> Z) : Comparison (fun _ => True) (fun a b => f a - f b).
Proof. split; intros; lia. Qed.

Lemma reverse_comparison {A} (cmp : A -> A -> Z) : Comparison (fun _ => True) cmp ->
  Comparison (fun _ => True) (fun a b => cmp b a).
Proof.
  intros Hc. split; [intros a b _ _; by apply cmp_anti|]. intros a b c _ _ _ H1 H2. by apply (cmp_trans c b a).
Qed.

Lemma compare_songs_strict sel : StrictWeakOn (compare_songs sel) (fun _ => True).
Proof.
  unfold compare_songs. destruct (sort sel) as [| | |type].
  - by split.
  - apply (comparison_strict _ (if descending sel then fun a b => d_mtime b - d_mtime a else fun a b => d_mtime a - d_mtime b)).
    + destruct (descending sel); [|apply key_comparison]. apply reverse_comparison, key_comparison.
    + intros a b. destruct (descending sel); apply eq_true_iff_eq; rewrite !Z.ltb_lt; lia.
  - apply (comparison_strict _ (if descending sel then fun a b => d_GetAdded b - d_GetAdded a else fun a b => d_GetAdded a - d_GetAdded b)).
    + destruct (descending sel); [|apply key_comparison]. apply reverse_comparison, key_comparison.
    + intros a b. destruct (descending sel); apply eq_true_iff_eq; rewrite !Z.ltb_lt; lia.
  - set (num := match type with TAG_DISC | TAG_TRACK => true | _ => false end).
    set (val := fun s => GetSortValue (d_tag s) type).
    set (cmp := fun a b => if num then fst (strtol (val a)) - fst (strtol (val b)) else strcmp (val a) (val b)).
    assert (Comparison (fun _ => True) cmp) as Hc.
    { unfold cmp. destruct num; [apply (key_comparison (fun a => fst (strtol (val a))))|].
      apply (image_comparison _ (fun _ => True) strcmp val); [apply strcmp_collation|done]. }
    apply (comparison_strict _ (if descending sel then fun a b => cmp b a else cmp)).
    + destruct (descending sel); [by apply reverse_comparison|done].
    + intros a b. unfold CompareTags, CompareNumeric, cmp, num, val.
      destruct (descending sel), type; try reflexivity; apply eq_true_iff_eq; rewrite !Z.ltb_lt; lia.
Qed.

(** ** The helper's songs *)

Definition plain (sel : DatabaseSelection) : DatabaseSelection :=
  mkSelection (sel_uri sel) (sel_filter sel) RangeArg_All DontSort false (recursive sel).

Section Window.
Context `{FilterLibraries} (sel : DatabaseSelection).

(** What the visitor [collect_songs] has got of the songs [l], and what the
    helper keeps, before [Commit]. *)
Definition collected (l : list LightSong) (h : Helper (list LightSong)) : Prop :=
  match sort sel with
  | DontSort => h_state h = slice (window sel) l /\
      (window sel <> RangeArg_All -> h_counter h = u32 (Z.of_nat (length l)))
  | _ => h_state h = [] /\ h_songs h = DetachedSong_of_light <$> l
  end.

(** While there are not too many songs to count. *)
Definition window_relation : Relation (Helper (list LightSong)) (Helper (list LightSong)) :=
  mkRelation _ _ (fun h k => Z.of_nat (length (h_state k)) < 2 ^ 32 -> collected (h_state k) h) (fun _ _ => False).

Context (Hwin : 0 <= r_start (window sel) /\ 0 <= r_end (window sel)).

Lemma plain_visitors : DatabaseVisitorHelper (CheckSelection (plain sel)) collect_songs =
  mkVisitors None (Some (fun song => through (fun l => (l ++ [song], None)))) None.
Proof. done. Qed.

Lemma window_sim : sim_visitors window_relation (DatabaseVisitorHelper (CheckSelection sel) collect_songs)
  (DatabaseVisitorHelper (CheckSelection (plain sel)) collect_songs).
Proof.
  rewrite plain_visitors. unfold DatabaseVisitorHelper.
  cbn [sort window CheckSelection with_filter with_uri collect_songs song_visitor visit_directory visit_song
    visit_playlist option_map].
  split; cbn [visit_directory visit_song visit_playlist]; try exact I.
  assert (forall f : LightSong -> Call (Helper (list LightSong)),
    (forall song h l, Z.of_nat (length (l ++ [song])) < 2 ^ 32 -> collected l h ->
       exists h', f song h = (h', None) /\ collected (l ++ [song]) h') ->
    (forall song h, snd (f song h) = None) ->
    forall song, sim_call window_relation (f song) (through (fun l => (l ++ [song], None)))) as Hcall.
  { intros f Hf Hok song. split; [|done]. intros h k Hk. unfold through. specialize (Hok song h).
    destruct (f song h) as [h' e] eqn:E. simpl in Hok. subst e. simpl. intros Hl.
    destruct (Hf song h (h_state k) Hl) as (h2 & Hf2 & Hc); [|by rewrite E in Hf2; injection Hf2 as ->].
    apply Hk. rewrite length_app in Hl. simpl in Hl. lia. }
  unfold collected in *. destruct (sort sel) eqn:Es.
  2-4: refine (Hcall _ _ _); [|done]; intros song h l Hl [H1 H2]; eexists; split; [done|]; simpl; rewrite H2;
    by rewrite fmap_app.
  case_bool_decide as Hw; cbn [negb option_map]; refine (Hcall _ _ _).
  - intros song h l Hl [H1 H2]. eexists. split; [done|]. simpl. split; [|done]. rewrite H1, slice_snoc by lia.
    f_equal. rewrite Hw. unfold Contains. cbn [RangeArg_All OpenEnded r_start r_end].
    rewrite length_app in Hl. simpl in Hl. destruct (Z.leb_spec 0 (Z.of_nat (length l))); [|lia].
    by destruct (Z.ltb_spec (Z.of_nat (length l)) (2 ^ 32 - 1)); [|lia].
  - done.
  - intros song h l Hl [H1 H2]. specialize (H2 Hw). rewrite H2.
    assert (u32 (Z.of_nat (length l)) = Z.of_nat (length l)) as E
      by (apply u32_id; rewrite length_app in Hl; simpl in Hl; lia).
    assert (u32 (u32 (Z.of_nat (length l)) + 1) = u32 (Z.of_nat (length (l ++ [song])))) as E'
      by (rewrite u32_add_l, length_app; simpl; f_equal; lia).
    rewrite E', E. destruct (Contains (window sel) (Z.of_nat (length l))) eqn:Ec; eexists; (split; [done|]);
      simpl; rewrite slice_snoc, Ec, H1 by lia; [done|]. by rewrite app_nil_r.
  - intros song h. by destruct (Contains _ _).
Qed.

(** What [Commit] adds. *)
Definition reported (l : list LightSong) : list LightSong :=
  match sort sel with
  | DontSort => slice (window sel) l
  | _ => LightSong_of_detached <$>
      slice (window sel) (stable_sort (compare_songs sel) (DetachedSong_of_light <$> l))
  end.

Lemma commit_loop (songs : list DetachedSong) h :
  for_each (fun song => call (through (invoke (visit_song collect_songs) (LightSong_of_detached song)))) songs h =
  Some (mkHelper (h_state h ++ (LightSong_of_detached <$> songs)) (h_songs h) (h_counter h), None).
Proof.
  revert h. induction songs as [|s songs IH]; intros [st hs c]; cbn [for_each fmap list_fmap].
  - by rewrite app_nil_r.
  - unfold andthen at 1, call at 1. cbn. rewrite IH. cbn. by rewrite <- app_assoc.
Qed.

Lemma Commit_collected l h : collected l h -> exists h',
  Helper_Commit (CheckSelection sel) collect_songs h = Some (h', None) /\ h_state h' = reported l.
Proof.
  unfold collected, reported, Helper_Commit. cbn [sort window CheckSelection with_filter with_uri].
  destruct (sort sel); intros [H1 H2]; [by exists h|..]; rewrite commit_loop; eexists; (split; [done|]);
    cbn [h_state]; rewrite H1, H2, apply_window_slice; done.
Qed.

(** The part of [Visit] that runs with the helper, but for [Commit]. *)
Lemma window_run (run : forall v : Visitors (Helper (list LightSong)), Run (Helper (list LightSong))) songs :
  (forall v w, sim_visitors window_relation v w -> sim_run window_relation (run v) (run w)) ->
  with_helper (CheckSelection (plain sel)) collect_songs
    (fun hv => run hv ;;; Helper_Commit (CheckSelection (plain sel)) collect_songs) [] = Some (songs, None) ->
  Z.of_nat (length songs) < 2 ^ 32 ->
  with_helper (CheckSelection sel) collect_songs
    (fun hv => run hv ;;; Helper_Commit (CheckSelection sel) collect_songs) [] = Some (reported songs, None).
Proof.
  intros Hrun Hp Hlen. unfold with_helper, andthen in *.
  destruct (run (DatabaseVisitorHelper (CheckSelection (plain sel)) collect_songs) (mkHelper [] [] 0))
    as [[k [e|]]|] eqn:Ek; [done| |done].
  cbn in Hp. injection Hp as Hk.
  assert (live _ _ window_relation (mkHelper [] [] 0) (mkHelper [] [] 0)) as Hlive.
  { intros _. unfold collected. cbn [h_state h_songs h_counter]. unfold slice.
    rewrite take_nil, drop_nil. by destruct (sort sel). }
  destruct (proj1 (Hrun _ _ window_sim) _ _ _ Hlive Ek) as ([h e] & -> & Hout).
  destruct e as [e|]; [by destruct Hout as [[]|[? _]]|]. cbn in Hout. rewrite Hk in Hout.
  destruct (Commit_collected songs h (Hout Hlen)) as (h' & -> & ->). done.
Qed.

Lemma with_helper_ext s (F G : Visitors (Helper (list LightSong)) -> Run (Helper (list LightSong))) st :
  (forall v h, F v h = G v h) -> with_helper s collect_songs F st = with_helper s collect_songs G st.
Proof. intros HFG. unfold with_helper. by rewrite HFG. Qed.

Lemma andthen_assoc {St} (a b c : Run St) st : (a ;;; b ;;; c) st = ((a ;;; b) ;;; c) st.
Proof. unfold andthen. by destruct (a st) as [[st1 [e|]]|]. Qed.
End Window.

Lemma Visit_reported `{FilterLibraries} dbs fuel n sel db root directory songs :
  dbs !! n = Some db -> DbVisit.root db = Some root ->
  dir_at root (lr_directory (LookupDirectory root (sel_uri sel))) = Some directory ->
  mounted_database directory = None ->
  0 <= r_start (window sel) -> 0 <= r_end (window sel) ->
  visit_songs dbs (S fuel) n (plain sel) = Some (songs, None) -> Z.of_nat (length songs) < 2 ^ 32 ->
  visit_songs dbs (S fuel) n sel = Some (reported sel songs, None).
Proof.
  intros Hn Hr Hd Hm Hs He Hv Hlen. unfold visit_songs in *. cbn [Visit] in *. rewrite Hn, Hr in *.
  cbn [plain sel_uri] in Hv. rewrite Hd, Hm in *. cbn [plain sel_filter recursive] in Hv.
  destruct (lr_rest _) as [rest|].
  - destruct (has_slash rest); [done|].
    assert (forall s : DatabaseSelection, exists f,
      visit_song (DatabaseVisitorHelper (CheckSelection s) collect_songs) = Some f) as Hsome.
    { intros s. unfold DatabaseVisitorHelper. cbn. destruct (sort s); [|by eexists..].
      case_bool_decide; by eexists. }
    destruct (FindSong directory rest) as [song|].
    2: { unfold with_helper in Hv. destruct (Hsome (plain sel)) as [f Hf].
      rewrite Hf in Hv. done. }
    set (run := fun v => match visit_song v with
      | Some f => if Selection_Match sel (e_light (Export root (lr_directory (LookupDirectory root (sel_uri sel))) song))
          then call (f (e_light (Export root (lr_directory (LookupDirectory root (sel_uri sel))) song)))
          else @skip (Helper (list LightSong))
      | None => skip end).
    assert (forall s, with_helper (CheckSelection s) collect_songs
      (fun hv => run hv ;;; Helper_Commit (CheckSelection s) collect_songs) [] = 
      with_helper (CheckSelection s) collect_songs (fun hv =>
        match visit_song hv with
        | Some f =>
            (if Selection_Match sel (e_light (Export root (lr_directory (LookupDirectory root (sel_uri sel))) song))
             then call (f (e_light (Export root (lr_directory (LookupDirectory root (sel_uri sel))) song)))
             else skip) ;;; Helper_Commit (CheckSelection s) collect_songs
        | None => raise NOT_FOUND
        end) []) as Hrun.
    { intros s. unfold with_helper, run. destruct (Hsome s) as [f Hf]. by rewrite Hf. }
    rewrite <- Hrun. eapply (window_run sel (conj Hs He) run); [|etrans; [apply (Hrun (plain sel))|exact Hv]|done].
    intros v w [_ Hsv _]. unfold run. destruct (visit_song v), (visit_song w); try done; [|apply sim_skip].
    destruct (Selection_Match _ _); [|apply sim_skip]. by apply sim_run_call.
  - set (run := fun v : Visitors (Helper (list LightSong)) =>
      (if recursive sel then
         match visit_directory v with Some f => call (f (Directory_Export directory)) | None => skip end
       else skip) ;;;
      Directory_Walk (fun m => WalkMount (Visit dbs fuel _ m)) root (recursive sel) (sel_filter sel)
        (hide_playlist_targets db) v (lr_directory (LookupDirectory root (sel_uri sel))) directory).
    rewrite (with_helper_ext _ _ (fun hv => run hv ;;; Helper_Commit (CheckSelection sel) collect_songs))
      by (intros; apply andthen_assoc).
    rewrite (with_helper_ext _ _ (fun hv => run hv ;;; Helper_Commit (CheckSelection (plain sel)) collect_songs))
      in Hv by (intros; apply andthen_assoc).
    eapply (window_run sel (conj Hs He) run); [|exact Hv|done].
    intros v w Hvw. unfold run. apply sim_andthen.
    + destruct (recursive sel); [|apply sim_skip]. apply sim_optional; [apply Hvw|].
      intros f g Hfg. by apply sim_run_call.
    + apply sim_Walk; [done|]. intros m base uri sel'. unfold WalkMount. apply sim_Visit. by apply sim_prefix.
Qed.

(** ** Properties *)

(** C9: with a window, a visit reports exactly the songs whose index is in
    the window, of those that it reports without one; with [sort], it
    reports the window of the same songs in the order asked for.  That list
    is a permutation of the songs, sorted by the comparison, and songs that
    compare equal keep their order. *)
Theorem Visit_sorted_window `{FilterLibraries} (dbs : gmap nat SimpleDatabase) (fuel n : nat)
  (sel : DatabaseSelection) (db : SimpleDatabase) (root directory : Directory) (songs : list LightSong)
  (Hn : dbs !! n = Some db) (Hr : DbVisit.root db = Some root)
  (Hd : dir_at root (lr_directory (LookupDirectory root (sel_uri sel))) = Some directory)
  (Hm : mounted_database directory = None)
  (Hs : 0 <= r_start (window sel)) (He : 0 <= r_end (window sel))
  (Hv : visit_songs dbs (S fuel) n (plain sel) = Some (songs, None))
  (Hlen : Z.of_nat (length songs) < 2 ^ 32) :
  let all := DetachedSong_of_light <$> songs in
  let ordered := stable_sort (compare_songs sel) all in
  visit_songs dbs (S fuel) n sel = Some (match sort sel with
    | DontSort => slice (window sel) songs
    | _ => LightSong_of_detached <$> slice (window sel) ordered
    end, None) /\
  ordered ≡ₚ all /\ sorted (compare_songs sel) ordered /\
  forall f, equal_class (compare_songs sel) f -> List.filter f ordered = List.filter f all.
Proof.
  cbv zeta. pose proof (compare_songs_strict sel). split_and!.
  - by eapply Visit_reported.
  - apply stable_sort_perm.
  - by apply stable_sort_sorted.
  - intros f. apply stable_sort_filter.
Qed.

(** The second of the songs by title. *)
Definition sample_sorted : DatabaseSelection :=
  mkSelection [] None (mkRangeArg 1 2) (SortBy TAG_TITLE) false true.

Lemma Visit_sorted_window_witness :
  visit_songs sample_dbs 2 0 sample_sorted =
    Some (LightSong_of_detached <$> slice (mkRangeArg 1 2)
      (stable_sort (compare_songs sample_sorted) (DetachedSong_of_light <$> sample_songs)), None) /\
  (fun s => GetValue (d_tag s) TAG_TITLE) <$>
    stable_sort (compare_songs sample_sorted) (DetachedSong_of_light <$> sample_songs) =
  [Some (lit "1"); Some (lit "2"); Some (lit "3")].
Proof.
  split; [|vm_compute; reflexivity].
  refine (proj1 (Visit_sorted_window sample_dbs 1 0 sample_sorted (sample_db sample_root_0) sample_root_0
    sample_root_0 sample_songs _ _ _ _ _ _ _ _)); try (vm_compute; reflexivity); simpl; lia.
Defined.
