(* ===== verification/VisitGetSong.v ===== *)
(** [Visit] and [GetSong] agree: a visit of a whole database, mounted ones
    included, terminates and lists every song once, under the URI by which
    [GetSong] finds it; [GetSong] finds nothing else but the targets of
    playlists that a visit hides. *)
From stdpp Require Import gmap.
From S2P Require Import Prelude Text Chrono Tags Audio Songs Uri SongFilter SortList StableSort SongSort RangeArg Playlists Directory DbVisit VisitLog.
Open Scope Z_scope.

(** ** The directories of a tree, each before the ones below it, with
    their positions *)

Fixpoint tree_dirs (d : Directory) : list (list nat * Directory) :=
  ([], d) :: concat (imap (fun i l => (fun x => (i :: fst x, snd x)) <$> l) (map tree_dirs (children d))).

Lemma tree_dirs_eq d : tree_dirs d =
  ([], d) :: concat (imap (fun i l => (fun x => (i :: fst x, snd x)) <$> l) (tree_dirs <$> children d)).
Proof. by destruct d. Qed.

Lemma elem_of_concat_imap {A B} (f : nat -> A -> list B) l x :
  x ∈ concat (imap f l) <-> exists i a, l !! i = Some a /\ x ∈ f i a.
Proof.
  revert f. induction l as [|a l IH]; intros f.
  - split; [by intros H%elem_of_nil|]. by intros (i & a & H & _).
  - cbn [imap concat]. rewrite elem_of_app, IH. split.
    + intros [H|(i & b & Hi & H)]; [by exists 0%nat, a|by exists (S i), b].
    + intros ([|i] & b & Hi & H); [left|right; by exists i, b]. by injection Hi as ->.
Qed.

Lemma tree_dirs_spec d pos d' : (pos, d') ∈ tree_dirs d <-> dir_at d pos = Some d'.
Proof.
  revert pos d'. induction d as [d IH] using Directory_ind'. intros pos d'.
  rewrite tree_dirs_eq, elem_of_cons, elem_of_concat_imap. split.
  - intros [[= -> ->]|(i & l & Hl & Hx)]; [done|]. rewrite list_lookup_fmap in Hl.
    destruct (children d !! i) as [c|] eqn:Ec; [|done]. injection Hl as <-.
    apply list_elem_of_fmap in Hx as ([p e] & Hp & He). simpl in Hp. injection Hp as -> ->.
    cbn [dir_at]. rewrite Ec. by apply (Forall_lookup_1 _ _ _ _ IH Ec).
  - destruct pos as [|i pos]; [intros [= ->]; by left|]. cbn [dir_at]. intros Hd. right.
    destruct (children d !! i) as [c|] eqn:Ec; [|done]. exists i, (tree_dirs c).
    split; [by rewrite list_lookup_fmap, Ec|]. apply list_elem_of_fmap. exists (pos, d'). split; [done|].
    by apply (Forall_lookup_1 _ _ _ _ IH Ec).
Qed.

Lemma NoDup_concat_imap {B} (f : nat -> list (list nat * B) -> list (list nat * B)) ls k :
  (forall i l x, x ∈ f i l -> exists p, fst x = (k + i)%nat :: p) ->
  (forall i l, l ∈ ls -> NoDup (fst <$> f i l)) -> NoDup (fst <$> concat (imap f ls)).
Proof.
  revert f k. induction ls as [|l ls IH]; intros f k Hf Hn; [apply NoDup_nil_2|].
  cbn [imap concat]. rewrite fmap_app. apply NoDup_app. split; [by apply Hn; left|]. split.
  - intros p (x & -> & Hx)%list_elem_of_fmap (y & Hxy & Hy)%list_elem_of_fmap.
    destruct (Hf _ _ _ Hx) as [p Hp]. apply elem_of_concat_imap in Hy as (i & a & _ & Hy).
    destruct (Hf _ _ _ Hy) as [q Hq]. rewrite Hp, Hq in Hxy. injection Hxy as Hi _. lia.
  - apply (IH _ (S k)).
    + intros i a x Hx. destruct (Hf _ _ _ Hx) as [p ->]. exists p. f_equal. lia.
    + intros i a Ha. apply Hn. by right.
Qed.

Lemma tree_dirs_NoDup d : NoDup (fst <$> tree_dirs d).
Proof.
  induction d as [d IH] using Directory_ind'. rewrite tree_dirs_eq, fmap_cons. apply NoDup_cons. split.
  - intros (x & Hx & Hin)%list_elem_of_fmap. apply elem_of_concat_imap in Hin as (i & l & _ & Hin).
    apply list_elem_of_fmap in Hin as (y & -> & _). done.
  - apply (NoDup_concat_imap _ _ 0).
    + intros i l x (y & -> & _)%list_elem_of_fmap. by exists (fst y).
    + intros i l (c & -> & Hc)%list_elem_of_fmap. rewrite <- list_fmap_compose.
      eapply Forall_forall in IH; [|exact Hc].
      rewrite (list_fmap_ext _ (cons i ∘ fst)) by done. rewrite list_fmap_compose.
      apply (NoDup_fmap_2_strong (cons i)); [|done]. by intros p q _ _ [= ->].
Qed.

(** ** What a visit reports *)

Section Songs.
(** The songs of the database mounted as number [n]. *)
Context (sub : nat -> list LightSong) (hide : bool) (root : Directory).

Definition dir_lights (pos : list nat) (d : Directory) : list LightSong :=
  match mounted_database d with
  | Some n => (fun s => PrefixedLightSong s (path d)) <$> sub n
  | None => (fun s => e_light (Export root pos s)) <$> List.filter (fun s => negb (hide && in_playlist s)) (songs d)
  end.

(** The songs of the subtree at [pos]. *)
Definition tree_lights (pos : list nat) (d : Directory) : list LightSong :=
  concat ((fun x => dir_lights (pos ++ fst x) (snd x)) <$> tree_dirs d).
End Songs.

(** [all]: with the songs that [hide_playlist_targets] hides from a visit. *)
Fixpoint db_songs (all : bool) (dbs : gmap nat SimpleDatabase) (fuel n : nat) : list LightSong :=
  match fuel with
  | O => []
  | S fuel =>
      match dbs !! n with
      | None => []
      | Some db =>
          match root db with
          | None => []
          | Some root => tree_lights (db_songs all dbs fuel) (negb all && hide_playlist_targets db) root [] root
          end
      end
  end.

(** Nothing is in a mount point. *)
Definition mount_point (d : Directory) : Prop := children d = [] /\ songs d = [] /\ playlists d = [].

(** Songs have names of their own in their directories. *)
Definition names_apart (d : Directory) : Prop :=
  Forall name_ok (song_names d) /\ forall name, name ∈ song_names d -> name ∉ child_names d.

(** Database [n] is open, its tree is well-formed, and so are those mounted
    in it, to a depth of [fuel]. *)
Fixpoint open_ok (dbs : gmap nat SimpleDatabase) (fuel n : nat) : Prop :=
  match fuel with
  | O => False
  | S fuel => exists db root,
      dbs !! n = Some db /\ DbVisit.root db = Some root /\
      wf root /\ is_root root = true /\ mounted_database root = None /\
      (forall pos d, dir_at root pos = Some d -> names_apart d) /\
      forall pos d m, dir_at root pos = Some d -> mounted_database d = Some m ->
        mount_point d /\ open_ok dbs fuel m
  end.

(** The selection of everything. *)
Definition everything : DatabaseSelection := DatabaseSelection_new [] true None.

(** ** A visit reports these songs *)

Section Visit.
Context `{FilterLibraries}.

Lemma for_each_fold {St A} (g : A -> option LightSong) (f : St -> LightSong -> St) (r : A -> Run St) l :
  (forall a st, r a st = Some (match g a with Some s => f st s | None => st end, None)) ->
  forall st, for_each r l st = Some (fold_left f (omap g l) st, None).
Proof.
  intros Hr. induction l as [|a l IH]; intros st; [done|]. cbn [for_each]. unfold andthen. rewrite Hr, IH.
  cbn [omap list_omap]. by destruct (g a).
Qed.

Lemma omap_filter {A B} (p : A -> bool) (g : A -> B) l :
  omap (fun a => if p a then None else Some (g a)) l = g <$> List.filter (fun a => negb (p a)) l.
Proof. induction l as [|a l IH]; [done|]. cbn [omap list_omap List.filter]. rewrite IH. by destruct (p a). Qed.

Section Walk.
Context {St : Type} (f : St -> LightSong -> St).
Context (wm : nat -> bytes -> bytes -> DatabaseSelection -> Visitors St -> Run St) (sub : nat -> list LightSong)
  (hide : bool) (root : Directory).

(** The children from index [k] on. *)
Lemma walk_children_fold pos l : forall k,
  Forall (fun c => forall pos st, Directory_Walk wm root true None hide (song_visitor f) pos c st =
    Some (fold_left f (tree_lights sub hide root pos c) st, None)) l ->
  forall st, walk_children wm root true None hide (song_visitor f) pos k l st =
    Some (fold_left f (concat ((fun x => dir_lights sub hide root (pos ++ fst x) (snd x)) <$>
      concat (imap (fun i l => (fun x => ((k + i)%nat :: fst x, snd x)) <$> l) (tree_dirs <$> l)))) st, None).
Proof.
  induction l as [|c l IH]; intros k Hl st; [done|]. apply Forall_cons in Hl as [Hc Hl].
  cbn [walk_children visit_directory song_visitor fmap list_fmap imap concat].
  unfold andthen, skip at 1. rewrite Hc. rewrite (IH (S k) Hl).
  rewrite fmap_app, concat_app, fold_left_app. do 3 f_equal.
  - do 2 f_equal. f_equal. apply imap_ext. intros i x _. unfold compose. by rewrite Nat.add_succ_comm.
  - f_equal. unfold tree_lights. f_equal. rewrite <- list_fmap_compose. apply list_fmap_ext. intros i x _.
    unfold compose. simpl. rewrite <- app_assoc. by rewrite Nat.add_0_r.
Qed.

Lemma Walk_fold d : forall pos,
  (forall x m, x ∈ tree_dirs d -> mounted_database (snd x) = Some m -> children (snd x) = [] /\
    forall base st, wm m base [] everything (song_visitor f) st =
      Some (fold_left f ((fun s => PrefixedLightSong s base) <$> sub m) st, None)) ->
  forall st, Directory_Walk wm root true None hide (song_visitor f) pos d st =
    Some (fold_left f (tree_lights sub hide root pos d) st, None).
Proof.
  induction d as [d IH] using Directory_ind'. intros pos Hm st.
  unfold tree_lights. rewrite tree_dirs_eq, fmap_cons, concat_cons. cbn [fst snd]. rewrite app_nil_r.
  destruct (mounted_database d) as [n|] eqn:Em.
  - destruct (Hm ([], d) n) as [Hc Hw]; [rewrite tree_dirs_eq; by left|done|]. cbn [snd] in Hc.
    rewrite Hc. cbn [fmap list_fmap imap concat]. rewrite app_nil_r. unfold dir_lights. rewrite Em.
    clear -Em Hw. destruct d as [? ? ? ? ? ? ? ? mo ?]. cbn in Em |- *. rewrite Em. apply Hw.
  - rewrite Directory_Walk_eq by done. cbn [visit_song visit_playlist song_visitor]. unfold andthen at 1.
    rewrite (for_each_fold (fun s => if hide && in_playlist s then None else Some (e_light (Export root pos s))) f).
    2: { intros s st'. unfold walk_song. by destruct (hide && in_playlist s). }
    rewrite omap_filter. unfold dir_lights at 1. rewrite Em. rewrite fold_left_app.
    generalize (fold_left f ((fun s => e_light (Export root pos s)) <$>
      List.filter (fun s => negb (hide && in_playlist s)) (songs d)) st). clear st. intros st.
    change ((skip ;;; ?k) st) with (k st). apply (walk_children_fold pos (children d) 0).
    apply Forall_forall. intros c Hc pos' st'. eapply Forall_forall in IH; [|exact Hc].
    apply IH. intros x m Hx Hxm. apply list_elem_of_lookup in Hc as [i Hi].
    apply (Hm (i :: fst x, snd x) m); [|done]. rewrite tree_dirs_eq. right.
    apply elem_of_concat_imap. exists i, (tree_dirs c). split; [by rewrite list_lookup_fmap, Hi|].
    by apply (list_elem_of_fmap_2 (fun x => (i :: fst x, snd x))).
Qed.
End Walk.

Lemma Visit_db_songs dbs fuel : forall n St (f : St -> LightSong -> St) st, open_ok dbs fuel n ->
  Visit dbs fuel St n everything (song_visitor f) st = Some (fold_left f (db_songs false dbs fuel n) st, None).
Proof.
  induction fuel as [|fuel IH]; intros n St f st; [done|].
  intros (db & root & Hn & Hr & Hw & Hroot & Hm & _ & Hmounts). cbn [Visit db_songs negb andb]. rewrite Hn, Hr.
  change (LookupDirectory root (sel_uri everything)) with (mkLookupResult [] [] None).
  cbn [lr_directory lr_rest dir_at]. rewrite Hm.
  unfold with_helper.
  set (F := fun (h : Helper St) s => mkHelper (f (h_state h) s) (h_songs h) (h_counter h)).
  change (DatabaseVisitorHelper (CheckSelection everything) (song_visitor f)) with (song_visitor F).
  cbn [recursive everything DatabaseSelection_new visit_directory song_visitor sel_filter].
  unfold andthen, skip at 1. change (mkVisitors None _ None) with (song_visitor F).
  rewrite (Walk_fold F _ (db_songs false dbs fuel)).
  - change (Helper_Commit (CheckSelection everything) (song_visitor f)) with (@skip (Helper St)).
    unfold skip. do 2 f_equal. cbn [negb andb]. generalize (tree_lights (db_songs false dbs fuel) (hide_playlist_targets db) root [] root).
    intros l. change st with (h_state (mkHelper st [] 0)) at 2. generalize (mkHelper st [] 0).
    induction l as [|s l IHl]; intros h; [done|]. cbn [fold_left]. by rewrite IHl.
  - intros [pos d] m Hd%tree_dirs_spec Hdm. destruct (Hmounts pos d m Hd Hdm) as [(Hc & _ & _) Hok].
    split; [done|]. intros base st'. unfold WalkMount.
    change (prefix_visitors base (song_visitor F)) with (song_visitor (fun h s => F h (PrefixedLightSong s base))).
    etrans; [apply (IH m _ _ st' Hok)|]. do 2 f_equal. generalize (db_songs false dbs fuel m). intros l. clear. revert st'.
    induction l as [|s l IHl]; intros h; [done|]. cbn [fold_left fmap list_fmap]. by rewrite IHl.
Qed.

Lemma visit_songs_db_songs dbs fuel n : open_ok dbs fuel n ->
  visit_songs dbs fuel n everything = Some (db_songs false dbs fuel n, None).
Proof.
  intros Hok. unfold visit_songs, collect_songs. rewrite Visit_db_songs by done. do 2 f_equal.
  assert (forall (l acc : list LightSong), fold_left (fun a s => a ++ [s]) l acc = acc ++ l) as Happ.
  { induction l as [|s l IH]; intros acc; [by rewrite app_nil_r|]. cbn [fold_left]. by rewrite IH, <- app_assoc. }
  apply Happ.
Qed.
End Visit.

(** ** Looking up the URIs of songs *)

(** The names on the way, each with its slash. *)
Definition pre (names : list bytes) : bytes := concat ((fun n => n ++ [SEPARATOR]) <$> names).

Lemma pre_join names : names <> [] -> join SEPARATOR names ++ [SEPARATOR] = pre names.
Proof.
  unfold pre. induction names as [|n names IH]; [done|]. intros _. destruct names as [|n' names].
  - cbn. by rewrite app_nil_r.
  - cbn [fmap list_fmap concat] in *. rewrite <- IH by done.
    change (join SEPARATOR (n :: n' :: names)) with (n ++ SEPARATOR :: join SEPARATOR (n' :: names)).
    by rewrite <- !app_assoc.
Qed.

(** Not empty and not absolute. *)
Definition uri_ok (u : bytes) : Prop := u <> [] /\ IsAbsolute u = false.

Lemma uri_ok_root u : uri_ok u -> isRootDirectory u = false.
Proof.
  intros [Hn Ha]. unfold isRootDirectory. rewrite (proj2 (bytes_eqb_neq _ _) Hn). simpl.
  apply bytes_eqb_neq. by intros ->.
Qed.

Lemma name_uri_ok n : name_ok n -> uri_ok n.
Proof.
  intros [Hn Hs]. split; [done|]. destruct n as [|c n]; [done|]. apply not_elem_of_cons in Hs as [Hc _].
  unfold IsAbsolute, IsSeparator. apply bool_decide_false. congruence.
Qed.

Lemma pre_uri_ok names u : Forall name_ok names -> uri_ok u -> uri_ok (pre names ++ u).
Proof.
  intros Hn Hu. destruct Hn as [|n names Hn _]; [done|]. destruct (name_uri_ok n Hn) as [Hne Ha].
  by destruct n as [|c n].
Qed.

Lemma Build_uri p u : p <> [] -> uri_ok u ->
  Build p u = (if IsSeparator (List.last p NUL) then p else p ++ [SEPARATOR]) ++ u.
Proof.
  intros Hp [Hu Ha]. destruct p as [|c p]; [done|]. destruct u as [|b u]; [done|].
  unfold Build. unfold IsAbsolute in Ha. by rewrite Ha.
Qed.

Definition first_segment (u : bytes) : bytes := fst (Split u SEPARATOR).

Lemma name_first_segment n : name_ok n -> first_segment n = n.
Proof. intros [_ Hs]. unfold first_segment. by rewrite Split_none. Qed.

(** A lookup that stops at the directory [d']. *)
Lemma loop_stop pos : forall d d' rest fuel, wf d -> dir_at d pos = Some d' -> (length pos < fuel)%nat ->
  (first_segment rest = [] \/ FindChild_pos d' (first_segment rest) = None) ->
  LookupDirectory_loop fuel d (pre (names_at d pos) ++ rest) = (pos, Some rest).
Proof.
  induction pos as [|i pos IH]; intros d d' rest [|fuel] Hw Hd Hf Hstop; [simpl in Hf; lia| |simpl in Hf; lia|].
  - injection Hd as <-. cbn [LookupDirectory_loop names_at pre fmap list_fmap concat app]. unfold first_segment in Hstop.
    destruct (Split rest SEPARATOR) as [name r]. simpl in Hstop. destruct name as [|b name]; [done|].
    by destruct Hstop as [?| ->].
  - cbn [dir_at names_at] in *. destruct (children d !! i) as [c|] eqn:Ei; [|done].
    destruct (wf_child d i c Hw Ei) as [Hwc (_ & Hname & _)].
    assert (pre (GetName d c :: names_at c pos) ++ rest =
      GetName d c ++ SEPARATOR :: (pre (names_at c pos) ++ rest)) as ->.
    { unfold pre. cbn [fmap list_fmap concat]. by rewrite <- !app_assoc. }
    cbn [LookupDirectory_loop]. rewrite Split_app by apply Hname.
    rewrite (FindChild_pos_unique d i c Hw Ei). destruct (GetName d c) as [|b n] eqn:En; [by destruct Hname|].
    rewrite Ei. rewrite (IH c d' rest fuel); [done..|simpl in Hf; lia|done].
Qed.

(** Where any lookup stops. *)
Lemma loop_inv fuel : forall d uri pos r, LookupDirectory_loop fuel d uri = (pos, r) ->
  exists d', dir_at d pos = Some d' /\ forall rest, r = Some rest -> uri = pre (names_at d pos) ++ rest.
Proof.
  induction fuel as [|fuel IH]; intros d uri pos r.
  { intros [= <- <-]. exists d. split; [done|]. by intros rest [= ->]. }
  cbn [LookupDirectory_loop]. pose proof (Split_spec uri SEPARATOR) as Hs.
  assert (exists d', dir_at d [] = Some d' /\ forall rest, Some uri = Some rest -> uri = pre (names_at d []) ++ rest) as Hstop
    by (exists d; split; [done|]; by intros rest [= ->]).
  destruct (Split uri SEPARATOR) as [name rest]. destruct name as [|b name]; [by intros [= <- <-]|].
  destruct (FindChild_pos d (b :: name)) as [i|] eqn:Ei; [|by intros [= <- <-]].
  destruct (children d !! i) as [c|] eqn:Ec; [|by intros [= <- <-]].
  assert (GetName d c = b :: name) as Hname.
  { apply find_index_Some in Ei as (x & Hx & Hn). rewrite Ec in Hx. injection Hx as <-.
    unfold has_name in Hn. by apply bytes_eqb_eq. }
  destruct rest as [rest|].
  - destruct Hs as [Hs _]. destruct (LookupDirectory_loop fuel c rest) as [pos' r'] eqn:El.
    intros [= <- <-]. apply IH in El as (d' & Hd & Hr). exists d'. cbn [dir_at names_at]. rewrite Ec. split; [done|].
    intros rest' ->%Hr. rewrite Hs, Hname. unfold pre. cbn [fmap list_fmap concat]. by rewrite <- !app_assoc.
  - intros [= <- <-]. exists c. cbn [dir_at]. rewrite Ec. done.
Qed.

Section Lookup.
Context (root : Directory) (Hw : wf root) (Hroot : is_root root = true).

(** The directories of the tree. *)
Lemma dir_prefix pos d : dir_at root pos = Some d ->
  is_root d = bool_decide (pos = []) /\ Forall name_ok (names_at root pos) /\
  (pos <> [] -> pre (names_at root pos) = path d ++ [SEPARATOR] /\ path d <> [] /\
    IsSeparator (List.last (path d) NUL) = false).
Proof.
  intros Hd. destruct pos as [|i pos].
  { injection Hd as <-. split; [by rewrite bool_decide_true|]. split; [apply Forall_nil_2|done]. }
  destruct (path_join root (i :: pos) d Hw Hd) as (Hp & Hn & Hne); [done|].
  rewrite Hroot in Hp. simpl in Hp.
  assert (is_root d = false /\ wf d) as [Hr Hwd].
  { clear Hp Hn Hne Hroot. revert root i Hw Hd. induction pos as [|j pos IH]; intros r i Hw Hd; cbn [dir_at] in Hd;
      destruct (children r !! i) as [c|] eqn:Ei; try done; destruct (wf_child r i c Hw Ei) as [Hwc (Hr & _)].
    - injection Hd as <-. done.
    - by apply (IH c j). }
  split; [by rewrite bool_decide_false|]. split; [done|]. intros _. split; [by rewrite Hp, pre_join|].
  apply wf_inv in Hwd as (Hpo & _). unfold path_ok in Hpo. rewrite Hr in Hpo. split; [apply Hpo|].
  unfold IsSeparator. apply bool_decide_false, Hpo.
Qed.

Lemma pre_length names : Forall name_ok names -> (length names <= length (pre names))%nat.
Proof.
  unfold pre. induction 1 as [|n names _ _ IH]; [done|]. cbn [fmap list_fmap concat]. rewrite !length_app. simpl. lia.
Qed.

Lemma Lookup_stop pos d rest : dir_at root pos = Some d -> uri_ok rest ->
  (FindChild_pos d (first_segment rest) = None) ->
  LookupDirectory root (pre (names_at root pos) ++ rest) =
    mkLookupResult pos (pre (names_at root pos)) (Some rest).
Proof.
  intros Hd Hu Hstop. destruct (dir_prefix pos d Hd) as (_ & Hn & _). unfold LookupDirectory.
  rewrite uri_ok_root by by apply pre_uri_ok. rewrite (loop_stop pos root d); [|done|done| |by right].
  - f_equal. rewrite length_app, Nat.add_sub. by rewrite take_app_length.
  - pose proof (pre_length _ Hn). rewrite (names_at_length root pos d Hd) in *. rewrite length_app. lia.
Qed.

Lemma Lookup_inv uri : let r := LookupDirectory root uri in
  exists d, dir_at root (lr_directory r) = Some d /\ forall rest, lr_rest r = Some rest ->
    uri = pre (names_at root (lr_directory r)) ++ rest /\ lr_uri r = pre (names_at root (lr_directory r)).
Proof.
  unfold LookupDirectory. destruct (isRootDirectory uri); [by exists root|].
  destruct (LookupDirectory_loop _ root uri) as [pos r] eqn:E. apply loop_inv in E as (d & Hd & Hr).
  exists d. split; [done|]. cbn [lr_rest lr_directory lr_uri]. intros rest ->.
  pose proof (Hr rest eq_refl) as Hu. split; [done|].
  rewrite Hu at 1 2. rewrite length_app, Nat.add_sub. by rewrite take_app_length.
Qed.

Lemma Export_uri pos d s : dir_at root pos = Some d ->
  l_GetURI (e_light (Export root pos s)) = pre (names_at root pos) ++ filename s.
Proof.
  intros Hd. destruct (dir_prefix pos d Hd) as (Hr & _ & Hp). unfold Export. rewrite Hd, Hr.
  unfold Song_Export, l_GetURI. cbn [e_light l_directory l_uri].
  match goal with |- context [e_light (if ?b then _ else _)] => destruct b end; cbn [ExportedSong_own ExportedSong_ref e_light LightSong_new l_uri];
    (case_bool_decide as Hpos; [by rewrite Hpos|]; destruct (Hp Hpos) as [-> _]; by rewrite <- app_assoc).
Qed.

Lemma Prefixed_uri pos d s : dir_at root pos = Some d -> pos <> [] -> uri_ok (l_GetURI s) ->
  l_GetURI (PrefixedLightSong s (path d)) = pre (names_at root pos) ++ l_GetURI s /\
  PrefixedLightSong s (pre (names_at root pos)) = PrefixedLightSong s (path d).
Proof.
  intros Hd Hpos Hu. destruct (dir_prefix pos d Hd) as (_ & _ & Hp). destruct (Hp Hpos) as (Hpre & Hne & Hl).
  assert (Build (path d) (l_GetURI s) = pre (names_at root pos) ++ l_GetURI s) as Hb
    by by rewrite Build_uri, Hl, Hpre.
  split; [done|]. unfold PrefixedLightSong. rewrite Hb. f_equal. rewrite Hpre, Build_uri by (done || by destruct (path d)).
  rewrite last_last. unfold IsSeparator at 1. by rewrite bool_decide_true.
Qed.
End Lookup.

(** ** GetSong *)

(** What is left of a song in [exported_song]: the move constructor drops
    [added] and [priority]. *)
Definition kept (s : LightSong) : LightSong := LightSong_copy s (l_tag s).

Lemma kept_uri s : l_GetURI (kept s) = l_GetURI s.
Proof. done. Qed.

Lemma kept_prefixed s base : PrefixedLightSong (kept s) base = kept (PrefixedLightSong s base).
Proof. done. Qed.

Lemma kept_export root pos s : e_light (ExportedSong_move (Export root pos s)) = kept (e_light (Export root pos s)).
Proof.
  unfold ExportedSong_move, kept, Export, Song_Export. cbn [e_light e_OwnsTag e_tag_buffer l_tag].
  match goal with |- context [e_OwnsTag (if ?b then _ else _)] => by destruct b end.
Qed.

Lemma elem_of_tree_lights sub hide root s : s ∈ tree_lights sub hide root [] root <->
  exists pos d, dir_at root pos = Some d /\ s ∈ dir_lights sub hide root pos d.
Proof.
  unfold tree_lights. rewrite list_elem_of_In, in_concat. setoid_rewrite <- list_elem_of_In. split.
  - intros (l & ([pos d] & -> & Hd%tree_dirs_spec)%list_elem_of_fmap & Hs). by exists pos, d.
  - intros (pos & d & Hd & Hs). exists (dir_lights sub hide root pos d). split; [|done].
    apply list_elem_of_fmap. exists (pos, d). split; [done|]. by apply tree_dirs_spec.
Qed.

Lemma elem_of_dir_songs root hide d pos s (sub : nat -> list LightSong) : mounted_database d = None ->
  s ∈ dir_lights sub hide root pos d <->
  exists song, song ∈ songs d /\ hide && in_playlist song = false /\ s = e_light (Export root pos song).
Proof.
  intros Hm. unfold dir_lights. rewrite Hm, list_elem_of_fmap. setoid_rewrite list_elem_of_In.
  setoid_rewrite filter_In. split.
  - intros (song & -> & Hs & Hh). exists song. by reflect_bools.
  - intros (song & Hs & Hh & ->). exists song. by rewrite Hh.
Qed.

Lemma has_slash_name n : name_ok n -> has_slash n = false.
Proof.
  intros [_ Hs]. unfold has_slash. apply not_true_iff_false. intros (c & Hc & He)%existsb_exists.
  unfold IsSeparator in He. apply bool_decide_eq_true in He as ->. by apply list_elem_of_In in Hc.
Qed.

Lemma no_child_pos d n : n ∉ child_names d -> FindChild_pos d n = None.
Proof.
  rewrite <- FindChild_None. unfold FindChild, FindChild_pos. rewrite find_index_find.
  destruct (find_index _ _) as [i|] eqn:Ei; [|done]. apply find_index_Some in Ei as (c & Hc & _).
  simpl. by rewrite Hc.
Qed.

Lemma dir_at_wf root pos d : wf root -> dir_at root pos = Some d -> wf d.
Proof.
  revert root. induction pos as [|i pos IH]; intros r Hw Hd; [by injection Hd as <-|].
  cbn [dir_at] in Hd. destruct (children r !! i) as [c|] eqn:Ei; [|done].
  destruct (wf_child r i c Hw Ei) as [Hwc _]. by apply (IH c).
Qed.

Section GetSong.
Context (dbs : gmap nat SimpleDatabase).

Lemma GetSong_found all fuel : forall n s, open_ok dbs fuel n -> s ∈ db_songs all dbs fuel n ->
  uri_ok (l_GetURI s) /\
  exists dbs', GetSong fuel dbs n (l_GetURI s) = Some (dbs', inl (kept s)).
Proof.
  induction fuel as [|fuel IH]; intros n s; [done|].
  intros (db & root & Hn & Hr & Hw & Hroot & Hrm & Hnames & Hmounts). cbn [db_songs]. rewrite Hn, Hr.
  intros (pos & d & Hd & Hs)%elem_of_tree_lights. cbn [GetSong]. rewrite Hn, Hr.
  pose proof (Hnames pos d Hd) as [Hsn Hap].
  destruct (dir_prefix root Hw Hroot pos d Hd) as (_ & Hnok & _).
  destruct (mounted_database d) as [m|] eqn:Em.
  - destruct (Hmounts pos d m Hd Em) as [(Hc & _ & _) Hok].
    assert (pos <> []) as Hpos by (intros ->; injection Hd as <-; congruence).
    unfold dir_lights in Hs. rewrite Em in Hs. apply list_elem_of_fmap in Hs as (s' & -> & Hs').
    destruct (IH m s' Hok Hs') as [Hu (dbs' & Hg)].
    destruct (Prefixed_uri root Hw Hroot pos d s' Hd Hpos Hu) as [-> Hpre].
    split; [by apply pre_uri_ok|].
    rewrite (Lookup_stop root Hw Hroot pos d); [|done|done|by unfold FindChild_pos; rewrite Hc].
    cbn [lr_directory lr_rest lr_uri from_option id]. rewrite Hd, Em, Hg. eexists. do 3 f_equal.
    by rewrite kept_prefixed, Hpre.
  - apply elem_of_dir_songs in Hs as (song & Hsong & _ & ->); [|done].
    rewrite (Export_uri root Hw Hroot pos d song Hd).
    assert (filename song ∈ song_names d) as Hin by by apply list_elem_of_fmap_2.
    assert (name_ok (filename song)) as Hname by by eapply Forall_forall in Hsn.
    pose proof (name_uri_ok _ Hname) as Hu. split; [by apply pre_uri_ok|].
    rewrite (Lookup_stop root Hw Hroot pos d); [|done|done|].
    2: { rewrite name_first_segment by done. apply no_child_pos; auto. }
    cbn [lr_directory lr_rest from_option id]. rewrite Hd, Em.
    destruct (filename song) as [|b nm] eqn:En; [by destruct Hname|]. rewrite has_slash_name by done.
    pose proof (dir_at_wf root pos d Hw Hd) as (_ & _ & Hnd & _)%wf_inv. rewrite <- En, (FindSong_unique d song Hnd Hsong).
    eexists. by rewrite kept_export.
Qed.

(** Nothing else is found. *)
Lemma GetSong_inv fuel : forall n uri dbs' s, open_ok dbs fuel n ->
  GetSong fuel dbs n uri = Some (dbs', inl s) ->
  exists s0, s0 ∈ db_songs true dbs fuel n /\ l_GetURI s0 = uri /\ s = kept s0.
Proof.
  induction fuel as [|fuel IH]; intros n uri dbs' s; [done|].
  intros (db & root & Hn & Hr & Hw & Hroot & Hrm & Hnames & Hmounts). cbn [GetSong db_songs]. rewrite Hn, Hr.
  setoid_rewrite elem_of_tree_lights.
  pose proof (Lookup_inv root uri) as (d & Hd & Hrest). cbv zeta in *.
  set (r := LookupDirectory root uri) in *. rewrite Hd.
  destruct (mounted_database d) as [m|] eqn:Em.
  - destruct (Hmounts _ d m Hd Em) as [_ Hok].
    assert (lr_directory r <> []) as Hpos by (intros E; rewrite E in Hd; injection Hd as <-; congruence).
    destruct (GetSong fuel dbs m (default [] (lr_rest r))) as [[dbs1 [s1|]]|] eqn:Eg; try done.
    intros [= _ <-]. apply IH in Eg as (s0 & Hs0 & Hu0 & ->); [|done].
    destruct (GetSong_found true fuel m s0 Hok Hs0) as [Hu _].
    destruct (lr_rest r) as [rest|] eqn:Er; cbn [from_option id] in Hu0.
    2: { rewrite Hu0 in Hu. by destruct Hu. }
    destruct (Hrest rest eq_refl) as [Huri Hlr].
    destruct (Prefixed_uri root Hw Hroot _ d s0 Hd Hpos Hu) as [Hp Hpre].
    exists (PrefixedLightSong s0 (path d)). split; [|split].
    + exists (lr_directory r), d. split; [done|]. unfold dir_lights. rewrite Em. by apply (list_elem_of_fmap_2 (fun s => PrefixedLightSong s (path d))).
    + rewrite Hp, Hu0. done.
    + rewrite Hlr, kept_prefixed. by rewrite Hpre.
  - destruct (lr_rest r) as [rest|] eqn:Er; cbn [from_option id]; [|done].
    destruct rest as [|b rest]; [done|]. destruct (has_slash (b :: rest)); [done|].
    destruct (FindSong d (b :: rest)) as [song|] eqn:Ef; [|done]. intros [= _ <-].
    destruct (Hrest _ eq_refl) as [Huri _]. apply FindSong_Some in Ef as [Hsong Hfn].
    exists (e_light (Export root (lr_directory r) song)). split; [|split].
    + exists (lr_directory r), d. split; [done|]. apply elem_of_dir_songs; [done|]. by exists song.
    + by rewrite (Export_uri root Hw Hroot _ d), Hfn.
    + apply kept_export.
Qed.

(** ** Every URI is listed once *)

Lemma NoDup_pairs {A B} (g : A -> list B) (key : A -> list nat) (l : list A) :
  NoDup (key <$> l) -> (forall x, x ∈ l -> NoDup (g x)) ->
  NoDup (concat ((fun x => pair (key x) <$> g x) <$> l)).
Proof.
  induction l as [|x l IH]; intros Hk Hg; [apply NoDup_nil_2|]. cbn [fmap list_fmap concat] in *.
  apply NoDup_cons in Hk as [Hx Hk]. apply NoDup_app. split; [|split].
  - apply (NoDup_fmap_2 (pair (key x))). apply Hg. by left.
  - intros p (b & -> & _)%list_elem_of_fmap Hin.
    apply list_elem_of_In, in_concat in Hin as (l' & Hl%list_elem_of_In & Hp%list_elem_of_In).
    apply list_elem_of_fmap in Hl as (y & -> & Hy). apply list_elem_of_fmap in Hp as (c & [= Heq _] & _).
    apply Hx. rewrite Heq. by apply list_elem_of_fmap_2.
  - apply IH; [done|]. intros y Hy. apply Hg. by right.
Qed.

Lemma sublist_NoDup_keys {A} (key : A -> bytes) (p : A -> bool) l : NoDup (key <$> l) -> NoDup (key <$> List.filter p l).
Proof. intros Hnd. eapply sublist_NoDup_fmap; [apply filter_sublist|done]. Qed.

(** What the lookup of a song's URI leaves for its directory. *)
Definition dir_rests (sub : nat -> list LightSong) (hide : bool) (d : Directory) : list (option bytes) :=
  Some <$> match mounted_database d with
  | Some n => l_GetURI <$> sub n
  | None => filename <$> List.filter (fun s => negb (hide && in_playlist s)) (songs d)
  end.

Lemma db_songs_NoDup all fuel : forall n, open_ok dbs fuel n -> NoDup (l_GetURI <$> db_songs all dbs fuel n).
Proof.
  induction fuel as [|fuel IH]; intros n; [done|]. intros Hok. pose proof Hok as
    (db & root & Hn & Hr & Hw & Hroot & Hrm & Hnames & Hmounts). cbn [db_songs]. rewrite Hn, Hr.
  apply (NoDup_fmap_1 (fun uri => (lr_directory (LookupDirectory root uri), lr_rest (LookupDirectory root uri)))).
  assert ((fun uri => (lr_directory (LookupDirectory root uri), lr_rest (LookupDirectory root uri))) <$>
    (l_GetURI <$> tree_lights (db_songs all dbs fuel) (negb all && hide_playlist_targets db) root [] root) =
    concat ((fun x => pair (fst x) <$> dir_rests (db_songs all dbs fuel) (negb all && hide_playlist_targets db) (snd x)) <$> tree_dirs root)) as ->.
  { unfold tree_lights. rewrite <- list_fmap_compose.
    assert (forall x, x ∈ tree_dirs root -> dir_at root (fst x) = Some (snd x)) as Hdirs
      by (intros [pos d] Hx; by apply tree_dirs_spec).
    induction (tree_dirs root) as [|[pos d] l IHl]; [done|]. cbn [fmap list_fmap concat]. rewrite fmap_app.
    f_equal; [|apply IHl; intros x Hx; apply Hdirs; by right]. cbn [fst snd].
    pose proof (Hdirs (pos, d) ltac:(by left)) as Hd. cbn [fst snd] in Hd. clear IHl Hdirs.
    pose proof (Hnames pos d Hd) as [Hsn Hap]. unfold dir_lights, dir_rests. rewrite app_nil_l.
    destruct (mounted_database d) as [m|] eqn:Em.
    - destruct (Hmounts pos d m Hd Em) as [(Hc & _ & _) Hokm].
      assert (pos <> []) as Hpos by (intros ->; injection Hd as <-; congruence).
      rewrite <- !list_fmap_compose. apply list_fmap_ext. intros i s Hi. unfold compose.
      apply list_elem_of_lookup_2 in Hi. destruct (GetSong_found all fuel m s Hokm Hi) as [Hu _].
      destruct (Prefixed_uri root Hw Hroot pos d s Hd Hpos Hu) as [-> _].
      by rewrite (Lookup_stop root Hw Hroot pos d) by (done || by unfold FindChild_pos; rewrite Hc).
    - rewrite <- !list_fmap_compose. apply list_fmap_ext. intros i s Hi. unfold compose.
      apply list_elem_of_lookup_2, list_elem_of_In, filter_In in Hi as [Hi _]. apply list_elem_of_In in Hi.
      assert (filename s ∈ song_names d) as Hin by by apply list_elem_of_fmap_2.
      assert (name_ok (filename s)) as Hname by by eapply Forall_forall in Hsn.
      rewrite (Export_uri root Hw Hroot pos d s Hd).
      rewrite (Lookup_stop root Hw Hroot pos d); [done|done|by apply name_uri_ok|].
      rewrite name_first_segment by done. apply no_child_pos; auto. }
  apply NoDup_pairs; [apply tree_dirs_NoDup|]. intros [pos d] Hd%tree_dirs_spec. unfold dir_rests. cbn [snd].
  apply NoDup_fmap_2; [apply _|]. destruct (mounted_database d) as [m|] eqn:Em.
  - apply IH. by apply (Hmounts pos d m).
  - apply sublist_NoDup_keys. by apply (dir_at_wf root pos d Hw) in Hd as (_ & _ & Hnd & _)%wf_inv.
Qed.

(** A song of a playlist, in a database that hides those. *)
Definition hidden_target (s : LightSong) : Prop :=
  exists m db root pos d song prefix, dbs !! m = Some db /\ DbVisit.root db = Some root /\ hide_playlist_targets db = true /\
    dir_at root pos = Some d /\ song ∈ songs d /\ in_playlist song = true /\
    l_GetURI s = prefix ++ l_GetURI (e_light (Export root pos song)).

Lemma all_songs_cases fuel : forall n s, open_ok dbs fuel n -> s ∈ db_songs true dbs fuel n ->
  s ∈ db_songs false dbs fuel n \/ hidden_target s.
Proof.
  induction fuel as [|fuel IH]; intros n s; [done|].
  intros (db & root & Hn & Hr & Hw & Hroot & Hrm & Hnames & Hmounts). cbn [db_songs]. rewrite Hn, Hr, !elem_of_tree_lights.
  intros (pos & d & Hd & Hs). destruct (mounted_database d) as [m|] eqn:Em.
  - destruct (Hmounts pos d m Hd Em) as [_ Hok].
    assert (pos <> []) as Hpos by (intros ->; injection Hd as <-; congruence).
    unfold dir_lights in Hs. rewrite Em in Hs. apply list_elem_of_fmap in Hs as (s' & -> & Hs').
    destruct (IH m s' Hok Hs') as [Hin|(k & dbk & rk & p & dk & song & prefix & Hk & Hrk & Hh & Hdk & Hsong & Hin & Hu)].
    + left. exists pos, d. split; [done|]. unfold dir_lights. rewrite Em. by apply (list_elem_of_fmap_2 (fun s => PrefixedLightSong s (path d))).
    + right. destruct (GetSong_found true fuel m s' Hok Hs') as [Huri _].
      destruct (Prefixed_uri root Hw Hroot pos d s' Hd Hpos Huri) as [Hp _].
      exists k, dbk, rk, p, dk, song, (pre (names_at root pos) ++ prefix). split_and!; try done. rewrite Hp, Hu. by rewrite app_assoc.
  - apply elem_of_dir_songs in Hs as (song & Hsong & _ & ->); [|done].
    destruct (hide_playlist_targets db && in_playlist song) eqn:Eh.
    + right. apply andb_true_iff in Eh as [Hh Hin]. by exists n, db, root, pos, d, song, [].
    + left. exists pos, d. split; [done|]. apply elem_of_dir_songs; [done|]. by exists song.
Qed.

Lemma concat_sublist {A B} (f g : A -> list B) l : (forall x, x ∈ l -> sublist (f x) (g x)) ->
  sublist (concat (f <$> l)) (concat (g <$> l)).
Proof.
  induction l as [|x l IH]; intros H; [done|]. cbn [fmap list_fmap concat].
  apply sublist_app; [apply H; by left|]. apply IH. intros y Hy. apply H. by right.
Qed.

(** A visit leaves songs out, but keeps the order. *)
Lemma db_songs_sublist fuel : forall n, sublist (db_songs false dbs fuel n) (db_songs true dbs fuel n).
Proof.
  induction fuel as [|fuel IH]; intros n; [done|]. cbn [db_songs]. destruct (dbs !! n) as [db|]; [|done].
  destruct (root db) as [root|]; [|done]. unfold tree_lights. apply concat_sublist. intros [pos d] _. unfold dir_lights. cbn [fst snd].
  destruct (mounted_database d); [by apply fmap_sublist|]. apply fmap_sublist. cbn [negb andb].
  induction (songs d) as [|song l IHl]; [done|]. cbn [List.filter negb]. destruct (_ && _); by constructor.
Qed.
End GetSong.

Lemma GetSong_total dbs fuel : forall n uri, open_ok dbs fuel n -> GetSong fuel dbs n uri <> None.
Proof.
  induction fuel as [|fuel IH]; intros n uri; [done|].
  intros (db & root & Hn & Hr & Hw & Hroot & Hrm & Hnames & Hmounts). cbn [GetSong]. rewrite Hn, Hr.
  pose proof (Lookup_inv root uri) as (d & Hd & _). cbv zeta in *. rewrite Hd.
  destruct (mounted_database d) as [m|] eqn:Em.
  - destruct (Hmounts _ d m Hd Em) as [_ Hok]. specialize (IH m (default [] (lr_rest (LookupDirectory root uri))) Hok).
    by destruct (GetSong fuel dbs m _) as [[dbs1 [s1|e]]|].
  - destruct (default [] _); [done|]. destruct (has_slash _); [done|]. by destruct (FindSong d _).
Qed.

(** ** ReturnSong *)

(** No song is lent. *)
Definition buffers_free (dbs : gmap nat SimpleDatabase) : Prop :=
  forall n db, dbs !! n = Some db -> prefixed_light_song db = None /\ exported_song db = None.

(** The database of which one buffer is in use. *)
Definition lent (db db' : SimpleDatabase) : Prop :=
  (exists p, db' = with_prefixed db (Some p)) \/ (exists e, db' = with_exported db (Some e)).

Lemma no_self_mount dbs fuel n db root pos d : dbs !! n = Some db -> DbVisit.root db = Some root ->
  dir_at root pos = Some d -> mounted_database d = Some n -> ~ open_ok dbs fuel n.
Proof.
  intros Hn Hr Hd Hm. induction fuel as [|fuel IH]; [by intros []|].
  intros (db' & root' & Hn' & Hr' & _ & _ & _ & _ & Hmounts). rewrite Hn in Hn'. injection Hn' as <-.
  rewrite Hr in Hr'. injection Hr' as <-. apply IH. by apply (Hmounts pos d n).
Qed.

Lemma ReturnSong_lent dbs n db db' : prefixed_light_song db = None -> exported_song db = None -> lent db db' ->
  ReturnSong (<[n := db']> dbs) n = <[n := db]> dbs.
Proof.
  intros Hp He Hl. unfold ReturnSong. rewrite lookup_insert_eq. destruct db as [pa ca ro mt p e co hi]. simpl in *. subst.
  destruct Hl as [[p ->]|[e ->]]; simpl; by rewrite insert_insert_eq.
Qed.

Lemma GetSong_lends fuel : forall dbs n uri dbs' s, open_ok dbs fuel n -> buffers_free dbs ->
  GetSong fuel dbs n uri = Some (dbs', inl s) ->
  exists db db', dbs !! n = Some db /\ dbs' = <[n := db']> dbs /\ lent db db'.
Proof.
  induction fuel as [|fuel IH]; intros dbs n uri dbs' s Hok Hfree; [done|]. pose proof Hok as
    (db & root & Hn & Hr & Hw & Hroot & Hrm & Hnames & Hmounts). cbn [GetSong]. rewrite Hn, Hr.
  destruct (dir_at root _) as [d|] eqn:Hd; [|done]. destruct (mounted_database d) as [m|] eqn:Em.
  - destruct (Hmounts _ d m Hd Em) as [_ Hokm].
    assert (n <> m) as Hne by (intros ->; by eapply no_self_mount in Hok).
    destruct (GetSong fuel dbs m _) as [[dbs1 [s1|]]|] eqn:Eg; try done.
    apply IH in Eg as (dbm & dbm' & Hm & -> & Hl); [|done|done]. rewrite lookup_insert_ne by done. rewrite Hn.
    intros [= <- <-]. exists db. eexists. split; [done|]. split; [|left; by eexists].
    rewrite insert_insert_ne by done. destruct (Hfree m dbm Hm) as [Hp He].
    rewrite (ReturnSong_lent _ m dbm dbm' Hp He Hl). rewrite insert_insert_ne by done. by rewrite (insert_id dbs m).
  - destruct (default [] _) as [|b rest]; [done|]. destruct (has_slash _); [done|].
    destruct (FindSong d _) as [song|]; [|done]. intros [= <- <-]. exists db. eexists. split; [done|].
    split; [done|]. right. by eexists.
Qed.

(** ** Properties *)


(** [ReturnSong] undoes [GetSong]: the buffers of the database and of
    all databases that were asked through mounts are free again and nothing
    else has changed. *)
Theorem GetSong_ReturnSong (dbs dbs' : gmap nat SimpleDatabase) (fuel n : nat) (uri : bytes) (s : LightSong)
  (Hok : open_ok dbs fuel n) (Hfree : buffers_free dbs)
  (Hget : GetSong fuel dbs n uri = Some (dbs', inl s)) :
  ReturnSong dbs' n = dbs.
Proof.
  destruct (GetSong_lends fuel dbs n uri dbs' s Hok Hfree Hget) as (db & db' & Hn & -> & Hl).
  destruct (Hfree n db Hn) as [Hp He]. rewrite (ReturnSong_lent dbs n db db' Hp He Hl). by apply insert_id.
Qed.

(** ** Deciding the hypotheses on an example *)

Definition local_ok (d : Directory) : Prop :=
  (if is_root d then path d = [] else path d <> [] /\ List.last (path d) NUL <> SEPARATOR) /\
  NoDup (child_names d) /\ NoDup (song_names d) /\ NoDup (pl_names (playlists d)) /\
  Forall (fun c => is_root c = false /\ name_ok (GetName d c) /\ path c = path (new_child d (GetName d c))) (children d) /\
  Forall name_ok (song_names d) /\ Forall (fun name => name ∉ child_names d) (song_names d).

#[export] Instance local_ok_dec d : Decision (local_ok d).
Proof. unfold local_ok. destruct (is_root d); apply _. Defined.

Definition check_tree (d : Directory) : bool := forallb (fun x => bool_decide (local_ok (snd x))) (tree_dirs d).

Lemma check_tree_spec d : check_tree d = true -> wf d /\ forall pos d', dir_at d pos = Some d' -> names_apart d'.
Proof.
  intros Hc.
  assert (forall pos d', dir_at d pos = Some d' -> local_ok d') as Hl.
  { intros pos d' Hd. apply tree_dirs_spec, list_elem_of_In in Hd. unfold check_tree in Hc.
    rewrite forallb_forall in Hc. by apply Hc, bool_decide_eq_true in Hd. }
  clear Hc. split.
  - induction d as [d IH] using Directory_ind'. destruct (Hl [] d eq_refl) as (Hp & Hn & Hs & Hpl & Hc & _).
    constructor; try done. apply Forall_forall. intros c Hin. eapply Forall_forall in IH; [|exact Hin]. apply IH.
    apply list_elem_of_lookup in Hin as [i Hi]. intros pos d' Hd. apply (Hl (i :: pos)). cbn [dir_at]. by rewrite Hi.
  - intros pos d' Hd. destruct (Hl pos d' Hd) as (_ & _ & _ & _ & _ & Hs & Ha). split; [done|].
    intros name. by rewrite Forall_forall in Ha; apply Ha.
Qed.

Lemma sample_dbs_open : open_ok sample_dbs 2 0.
Proof.
  destruct (check_tree_spec sample_root_0 ltac:(vm_compute; reflexivity)) as [Hw0 Hn0].
  destruct (check_tree_spec sample_mounted_root ltac:(vm_compute; reflexivity)) as [Hw1 Hn1].
  exists (sample_db sample_root_0), sample_root_0. split_and!; try done.
  intros pos d m Hd%tree_dirs_spec Hm.
  assert (Forall (fun x => mounted_database (snd x) = None \/
    (mounted_database (snd x) = Some 1%nat /\ mount_point (snd x))) (tree_dirs sample_root_0)) as Hall.
  { vm_compute. repeat apply Forall_cons_2; [by left|by left|right; by repeat split|apply Forall_nil_2]. }
  rewrite Forall_forall in Hall. destruct (Hall _ Hd) as [Hx|[Hx Hmp]]; cbn [snd] in *; [congruence|].
  assert (m = 1%nat) as -> by congruence. split; [done|].
  exists (sample_db sample_mounted_root), sample_mounted_root. split_and!; try done.
  intros pos1 d1 m1 Hd1%tree_dirs_spec Hm1.
  assert (tree_dirs sample_mounted_root = [([], sample_mounted_root)]) as E by (vm_compute; reflexivity).
  rewrite E in Hd1. apply list_elem_of_singleton in Hd1. injection Hd1 as -> ->. done.
Qed.

Lemma sample_free : buffers_free sample_dbs.
Proof.
  intros n db. unfold sample_dbs. rewrite lookup_insert_Some. intros H. destruct H as [[_ <-]|[_ H]]; [done|].
  apply lookup_singleton_Some in H as [_ <-]. done.
Qed.


Lemma GetSong_ReturnSong_witness :
  exists dbs' s, GetSong 2 sample_dbs 0 (lit "m/x") = Some (dbs', inl s) /\ ReturnSong dbs' 0 = sample_dbs.
Proof.
  eexists _, _. split; [vm_compute; reflexivity|].
  eapply (GetSong_ReturnSong sample_dbs _ 2 0 (lit "m/x")); [exact sample_dbs_open|exact sample_free|vm_compute; reflexivity].
Defined.
