(* ===== verification/SimpleDatabase.v ===== *)
(** Opening, saving and mounting: [src/db/plugins/simple/SimpleDatabasePlugin.cxx]
    ([Check], [Load], [Open], [Close], [FileExists], [Save], [Mount],
    [Unmount]) and the detection of compressed files
    ([src/lib/zlib/AutoGunzipReader.cxx]).

    Files and the gzip format are the operations of [FileSystem]; a
    [FileOutputStream] replaces its file when it is committed, so writing is
    one operation.  The build with zlib is modelled. *)
From stdpp Require Import gmap.
From S2P Require Import Prelude Text Chrono Tags Audio Songs Uri SongFilter SortList StableSort SongSort RangeArg Playlists Directory TagScan SongSave DbSave DbVisit VisitGetSong.
Open Scope Z_scope.

(** ** The system *)

Inductive FsType := FsRegular | FsDirectory | FsOther.
Record FileInfo := mkFileInfo { fs_type : FsType; GetModificationTime : Z }.
Inductive AccessMode := X_OK_W_OK | R_OK_W_OK.

Class FileSystem := {
  Files : Type;
  PathExists : Files -> bytes -> bool;
  (** [None]: the constructor of [FileInfo] throws, [GetFileInfo] returns false *)
  GetFileInfo : Files -> bytes -> option FileInfo;
  CheckAccess : Files -> bytes -> AccessMode -> bool;
  ReadFile : Files -> bytes -> result bytes;
  WriteFile : Files -> bytes -> bytes -> result Files;
  gzip : bytes -> bytes;
  gunzip : bytes -> result bytes }.

(** The settings and libraries the database text depends on. *)
Class DatabaseFormat := {
  fmt_double : double -> bytes;
  VERSION : bytes;
  fs_charset : bytes;
  enabled_mask : Z;
  IcuCollate : bytes -> bytes -> Z }.

(** [fs/Traits.cxx]: [GetParentPathImpl]. *)
Definition GetParent (p : bytes) : bytes :=
  match SplitLast p SEPARATOR with
  | (_, None) => lit "."
  | ([], Some _) => [SEPARATOR]
  | (parent, Some _) => parent
  end.

(** ** AutoGunzipReader.cxx *)

Definition IsGzip (data : bytes) : bool :=
  match data with
  | a :: b :: c :: d :: _ =>
      (code a =? 31) && (code b =? 139) && (code c =? 8) && (Z.land (code d) 224 =? 0)
  | _ => false
  end.

(** ** SimpleDatabase *)

Definition with_root (db : SimpleDatabase) (r : option Directory) : SimpleDatabase :=
  mkSimpleDatabase (db_path db) (cache_path db) r (db_mtime db) (prefixed_light_song db) (exported_song db)
    (compress db) (hide_playlist_targets db).
Definition with_db_mtime (db : SimpleDatabase) (t : Z) : SimpleDatabase :=
  mkSimpleDatabase (db_path db) (cache_path db) (root db) t (prefixed_light_song db) (exported_song db)
    (compress db) (hide_playlist_targets db).

(** The second constructor. *)
Definition SimpleDatabase_new (path : bytes) (compress hide : bool) : SimpleDatabase :=
  mkSimpleDatabase path None None time_point_min None None compress hide.

(** The constructor from the configuration block: its [path],
    [cache_directory], [compress] and [hide_playlist_targets]. *)
Definition SimpleDatabase_config (path cache : option bytes) (compress hide : option bool) : result SimpleDatabase :=
  match path with
  | None => Throw (lit "No path parameter specified")
  | Some p => Ok (mkSimpleDatabase p cache None time_point_min None None (default true compress) (default true hide))
  end.

Definition FileExists (db : SimpleDatabase) : bool := 0 <=? db_mtime db.

Definition IsSafeChar (ch : byte) : bool :=
  IsAlphaNumericASCII ch || bool_decide (ch = "-"%char) || bool_decide (ch = "_"%char) || bool_decide (ch = "%"%char).
Definition IsUnsafeChar (ch : byte) : bool := negb (IsSafeChar ch).

Section Files.
Context `{System} `{FileSystem} `{DatabaseFormat}.

Definition Check (fs : Files) (db : SimpleDatabase) : result unit :=
  if negb (PathExists fs (db_path db)) then
    let dirPath := GetParent (db_path db) in
    match GetFileInfo fs dirPath with
    | None => Throw (lit "On parent directory of db file")
    | Some fi =>
        match fs_type fi with
        | FsDirectory =>
            if CheckAccess fs dirPath X_OK_W_OK then Ok tt else Throw (lit "Can't create db file")
        | _ => Throw (lit "parent path is not a directory")
        end
    end
  else
    match GetFileInfo fs (db_path db) with
    | None => Throw (lit "Failed to access")
    | Some fi =>
        match fs_type fi with
        | FsRegular =>
            if CheckAccess fs (db_path db) R_OK_W_OK then Ok tt else Throw (lit "Can't open db file")
        | _ => Throw (lit "is not a regular file")
        end
    end.

(** What [AutoGunzipReader] reads of the file. *)
Definition ReadText (fs : Files) (path : bytes) : result bytes :=
  let* data := ReadFile fs path in
  if IsGzip data then gunzip data else Ok data.

(** [AutoGunzipFileLineReader]: the lines of the file, as its
    [BufferedReader] reads them. *)
Definition AutoGunzipFileLineReader (fs : Files) (path : bytes) : result (list bytes) :=
  let* text := ReadText fs path in
  Ok (read_lines text).

(** No line of the file reaches the limit of [BufferedReader]. *)
Definition short_file (fs : Files) (path : bytes) : bool :=
  match ReadText fs path with Ok text => short_lines text | Throw _ => false end.

Definition update_mtime (fs : Files) (db : SimpleDatabase) : SimpleDatabase :=
  match GetFileInfo fs (db_path db) with
  | Some fi => with_db_mtime db (GetModificationTime fi)
  | None => db
  end.

(** [Load] into a new root. *)
Definition Load (fs : Files) (db : SimpleDatabase) : result SimpleDatabase :=
  let* file := AutoGunzipFileLineReader fs (db_path db) in
  let* root := db_load_internal fs_charset enabled_mask file NewRoot false in
  Ok (update_mtime fs (with_root db (Some root))).

(** [Open]; when [Check] throws, [root] is left dangling. *)
Definition Open (fs : Files) (db : SimpleDatabase) : SimpleDatabase * result unit :=
  let db := with_db_mtime (with_root db (Some NewRoot)) time_point_min in
  match Load fs db with
  | Ok db => (db, Ok tt)
  | Throw _ =>
      match Check fs db with
      | Throw e => (with_root db None, Throw e)
      | Ok _ => (with_root db (Some NewRoot), Ok tt)
      end
  end.

Definition Close (db : SimpleDatabase) : SimpleDatabase := with_root db None.

(** [Save]: the database and the files; the tree is pruned and sorted even
    if writing fails. *)
Definition Save (fs : Files) (db : SimpleDatabase) : SimpleDatabase * result Files :=
  match root db with
  | None => (db, Throw (lit "undefined"))
  | Some root =>
      let root := Sort IcuCollate (PruneEmpty root) in
      let db := with_root db (Some root) in
      let text := db_save_internal fmt_double VERSION fs_charset enabled_mask root in
      match WriteFile fs (db_path db) (if compress db then gzip text else text) with
      | Throw e => (db, Throw e)
      | Ok fs => (update_mtime fs db, Ok fs)
      end
  end.

(** ** Mounting *)

(** [Mount] of the open database [m], which is already in the map. *)
Definition Mount (dbs : gmap nat SimpleDatabase) (n : nat) (uri : bytes) (m : nat)
  : gmap nat SimpleDatabase + DbError :=
  match dbs !! n with
  | None => inr Undefined
  | Some db =>
      match root db with
      | None => inr Undefined
      | Some root =>
          let r := LookupDirectory root uri in
          match lr_rest r with
          | None => inr CONFLICT
          | Some rest =>
              if has_slash rest then inr NOT_FOUND
              else
                let root := alter_dir (fun d =>
                  with_children d (children d ++ [with_mounted (new_child d rest) (Some m)])) (lr_directory r) root in
                inl (<[n := with_root db (Some root)]> dbs)
          end
      end
  end.

Inductive MountError := Db (e : DbError) | Exception (what : bytes).

(** [Mount] of a storage: opens the database of its cache file as number
    [m]; the result is that of [FileExists]. *)
Definition Mount_storage (fs : Files) (dbs : gmap nat SimpleDatabase) (n : nat) (local_uri storage_uri : bytes)
  (m : nat) : (gmap nat SimpleDatabase * bool) + MountError :=
  match dbs !! n with
  | None => inr (Db Undefined)
  | Some self =>
      match cache_path self with
      | None => inr (Db NOT_FOUND)
      | Some cache =>
          let name := map (fun ch => if IsUnsafeChar ch then "_"%char else ch) storage_uri in
          match FromUTF8Throw name with
          | Throw e => inr (Exception e)
          | Ok name_fs =>
              let '(db, opened) :=
                Open fs (SimpleDatabase_new (Build cache name_fs) (compress self) (hide_playlist_targets self)) in
              match opened with
              | Throw e => inr (Exception e)
              | Ok _ =>
                  let exists_ := FileExists db in
                  match Mount (<[m := db]> dbs) n local_uri m with
                  | inl dbs => inl (dbs, exists_)
                  | inr e => inr (Db e)
                  end
              end
          end
      end
  end.

(** [Directory::Delete] of the child at a position. *)
Definition Delete (pos : list nat) (root : Directory) : Directory :=
  match last pos with
  | None => root
  | Some i => alter_dir (fun d => with_children d (delete i (children d))) (removelast pos) root
  end.

(** [LockUmountSteal]: the number of the mounted database. *)
Definition LockUmountSteal (dbs : gmap nat SimpleDatabase) (n : nat) (uri : bytes)
  : gmap nat SimpleDatabase * option nat :=
  match dbs !! n with
  | None => (dbs, None)
  | Some db =>
      match root db with
      | None => (dbs, None)
      | Some root =>
          let r := LookupDirectory root uri in
          match lr_rest r, dir_at root (lr_directory r) ≫= mounted_database with
          | None, Some m => (<[n := with_root db (Some (Delete (lr_directory r) root))]> dbs, Some m)
          | _, _ => (dbs, None)
          end
      end
  end.

(** The database that was mounted is closed and deleted. *)
Definition Unmount (dbs : gmap nat SimpleDatabase) (n : nat) (uri : bytes) : gmap nat SimpleDatabase * bool :=
  match LockUmountSteal dbs n uri with
  | (dbs, None) => (dbs, false)
  | (dbs, Some m) => (delete m dbs, true)
  end.
End Files.

(** ** Assigning to one directory of a tree *)

Lemma alter_dir_dir_at f pos : forall root d, dir_at root pos = Some d -> dir_at (alter_dir f pos root) pos = Some (f d).
Proof.
  induction pos as [|i pos IH]; intros root d Hd; cbn [dir_at alter_dir] in *; [by injection Hd as ->|].
  destruct (children root !! i) as [c|] eqn:Ei; [|done]. cbn [children with_children].
  rewrite (alter_insert_eq _ _ _ c Ei), list_lookup_insert_eq by (by eapply lookup_lt_Some). by apply IH.
Qed.

Lemma alter_dir_below f pos p : forall root, dir_at (alter_dir f pos root) (pos ++ p) =
  dir_at root pos ≫= fun d => dir_at (f d) p.
Proof.
  induction pos as [|i pos IH]; intros root; cbn [dir_at alter_dir app mbind option_bind] in *; [done|].
  cbn [children with_children]. destruct (children root !! i) as [c|] eqn:Ei.
  - rewrite (alter_insert_eq _ _ _ c Ei), list_lookup_insert_eq by (by eapply lookup_lt_Some). apply IH.
  - rewrite alter_none by done. by rewrite Ei.
Qed.

Lemma alter_dir_compose f g pos : forall root, alter_dir g pos (alter_dir f pos root) = alter_dir (fun d => g (f d)) pos root.
Proof.
  induction pos as [|i pos IH]; intros root; cbn [alter_dir]; [done|]. cbn [children with_children].
  unfold with_children. f_equal. cbn [children]. destruct (children root !! i) as [c|] eqn:Ei.
  - rewrite (alter_insert_eq (alter_dir f pos) _ _ c Ei), (alter_insert_eq (alter_dir _ pos) i (children root) c Ei).
    rewrite (alter_insert_eq _ _ _ (alter_dir f pos c)) by (apply list_lookup_insert_eq; by eapply lookup_lt_Some).
    by rewrite list_insert_insert_eq, IH.
  - by rewrite !(alter_none _ i (children root)) by done.
Qed.

Lemma alter_dir_id f pos : forall root d, dir_at root pos = Some d -> f d = d -> alter_dir f pos root = root.
Proof.
  induction pos as [|i pos IH]; intros root d Hd Hf; cbn [dir_at alter_dir] in *; [by injection Hd as ->|].
  destruct (children root !! i) as [c|] eqn:Ei; [|done].
  rewrite (alter_insert_eq _ _ _ c Ei), (IH c d Hd Hf), list_insert_id by done. apply with_children_id.
Qed.

(** Replacing a directory by one with the same path. *)
Lemma wf_alter_dir f pos : forall root d, wf root -> dir_at root pos = Some d ->
  (wf d -> wf (f d)) -> path (f d) = path d -> is_root (f d) = is_root d ->
  wf (alter_dir f pos root) /\ path (alter_dir f pos root) = path root /\ is_root (alter_dir f pos root) = is_root root.
Proof.
  induction pos as [|i pos IH]; intros root d Hw Hd Hf Hp Hr; cbn [dir_at alter_dir] in *;
    [injection Hd as ->; auto|].
  destruct (children root !! i) as [c|] eqn:Ei; [|done]. destruct (wf_child root i c Hw Ei) as [Hwc Hok].
  destruct (IH c d Hwc Hd Hf Hp Hr) as (Hw' & Hp' & Hr'). split; [|done].
  rewrite (alter_insert_eq _ _ _ c Ei). pose proof Hw as (_ & Hn & _ & _ & Hc & Hch)%wf_inv.
  apply wf_with_children; [done| | |].
  - rewrite list_fmap_insert. rewrite list_insert_id; [done|]. rewrite list_lookup_fmap, Ei. simpl. f_equal.
    unfold GetName. by rewrite Hp'.
  - apply Forall_insert; [done|]. by apply (child_ok_same root c).
  - by apply Forall_insert.
Qed.

(** ** Mount and Unmount *)

Lemma has_slash_false s : has_slash s = false -> SEPARATOR ∉ s.
Proof.
  intros Hs Hin. unfold has_slash in Hs. apply not_true_iff_false in Hs. apply Hs. apply existsb_exists.
  exists SEPARATOR. split; [by apply list_elem_of_In|]. unfold IsSeparator. by apply bool_decide_true.
Qed.

Lemma find_pos_None d n : FindChild_pos d n = None -> n ∉ child_names d.
Proof.
  rewrite <- FindChild_None. unfold FindChild, FindChild_pos. rewrite find_index_find. by intros ->.
Qed.

(** Why a lookup stops. *)
Lemma loop_stops fuel : forall d uri pos rest d', (length uri < fuel)%nat ->
  LookupDirectory_loop fuel d uri = (pos, Some rest) -> dir_at d pos = Some d' ->
  first_segment rest = [] \/ FindChild_pos d' (first_segment rest) = None.
Proof.
  induction fuel as [|fuel IH]; intros d uri pos rest d' Hf; [lia|]. cbn [LookupDirectory_loop].
  pose proof (Split_spec uri SEPARATOR) as Hs. destruct (Split uri SEPARATOR) as [name r] eqn:Esp.
  assert (first_segment uri = name) as Hseg by (unfold first_segment; by rewrite Esp).
  destruct name as [|b name]; [intros [= <- <-] _; by left|].
  destruct (FindChild_pos d (b :: name)) as [i|] eqn:Ei.
  2: { intros [= <- <-] [= <-]. right. by rewrite Hseg. }
  destruct (children d !! i) as [c|] eqn:Ec.
  2: { intros [= <- <-] [= <-]. apply find_index_Some in Ei as (x & Hx & _). congruence. }
  destruct r as [r|]; [|done]. destruct Hs as [-> _]. rewrite length_app in Hf. simpl in Hf.
  destruct (LookupDirectory_loop fuel c r) as [pos' r'] eqn:El. intros [= <- ->].
  cbn [dir_at]. rewrite Ec. by apply (IH c r); [lia|].
Qed.

Section MountProofs.
Context (root : Directory) (Hw : wf root) (Hroot : is_root root = true).

(** What a successful [Mount] has found. *)
Lemma Lookup_free uri rest d : lr_rest (LookupDirectory root uri) = Some rest -> has_slash rest = false -> rest <> [] ->
  dir_at root (lr_directory (LookupDirectory root uri)) = Some d ->
  name_ok rest /\ rest ∉ child_names d /\ path (new_child d rest) = uri.
Proof.
  intros Hr Hs Hne Hd. assert (name_ok rest) as Hname by (split; [done|by apply has_slash_false]).
  split; [done|]. pose proof (Lookup_inv root uri) as (d' & Hd' & Hinv). cbv zeta in *. rewrite Hd in Hd'.
  injection Hd' as <-. destruct (Hinv rest Hr) as [Huri _]. split.
  - unfold LookupDirectory in *. destruct (isRootDirectory uri); [done|].
    destruct (LookupDirectory_loop _ root uri) as [pos r] eqn:E. cbn [lr_rest lr_directory] in *. subst r.
    apply find_pos_None. eapply loop_stops in E; [|lia|exact Hd]. rewrite name_first_segment in E by done.
    destruct E as [->|E]; [by destruct Hname|done].
  - pose proof (dir_at_wf root _ d Hw Hd) as (Hp & _)%wf_inv. rewrite new_child_path by done.
    destruct (dir_prefix root Hw Hroot _ d Hd) as (Hrd & _ & Hpre). rewrite Hrd. etrans; [|symmetry; exact Huri].
    case_bool_decide as Hpos.
    + assert (names_at root (lr_directory (LookupDirectory root uri)) = []) as -> by exact (f_equal (names_at root) Hpos).
      done.
    + destruct (Hpre Hpos) as [-> _]. by rewrite <- app_assoc.
Qed.

Lemma wf_mounted_child d name m : wf d -> name_ok name -> name ∉ child_names d ->
  wf (with_children d (children d ++ [with_mounted (new_child d name) (Some m)])).
Proof.
  intros Hwd Hn Hni. pose proof (wf_CreateChild d name Hwd Hn Hni) as Hc.
  pose proof Hc as (_ & Hnd & _ & _ & Hco & Hch)%wf_inv. pose proof Hwd as (Hp & _)%wf_inv.
  unfold CreateChild in Hnd, Hco, Hch. cbn [children with_children] in *.
  apply Forall_app in Hco as [Hco1 [Hco2 _]%Forall_cons]. apply Forall_app in Hch as [Hch1 [Hch2 _]%Forall_cons].
  apply wf_with_children; [done| | |].
  - unfold child_names in Hnd. cbn [children with_children] in Hnd. rewrite fmap_app in *. exact Hnd.
  - apply Forall_app. split; [done|]. apply Forall_singleton. apply (child_ok_same d (new_child d name)); [done|done|exact Hco2].
  - apply Forall_app. split; [done|]. apply Forall_singleton. by apply (wf_same_shape (new_child d name)).
Qed.

(** The tree with the mount point. *)
Definition mount_at (rest : bytes) (m : nat) : Directory -> Directory :=
  fun d => with_children d (children d ++ [with_mounted (new_child d rest) (Some m)]).

Lemma mounted_tree uri rest d m : lr_rest (LookupDirectory root uri) = Some rest -> has_slash rest = false -> rest <> [] ->
  let pos := lr_directory (LookupDirectory root uri) in
  dir_at root pos = Some d ->
  let root' := alter_dir (mount_at rest m) pos root in
  wf root' /\ LookupDirectory root' uri = mkLookupResult (pos ++ [length (children d)]) uri None /\
  dir_at root' (pos ++ [length (children d)]) = Some (with_mounted (new_child d rest) (Some m)) /\
  Delete (pos ++ [length (children d)]) root' = root.
Proof.
  intros Hr Hs Hne pos Hd root'. destruct (Lookup_free uri rest d Hr Hs Hne Hd) as (Hname & Hni & Hpath).
  assert (dir_at root' (pos ++ [length (children d)]) = Some (with_mounted (new_child d rest) (Some m))) as Hm.
  { unfold root'. rewrite alter_dir_below. fold pos in Hd. rewrite Hd. cbn [mbind option_bind]. unfold mount_at.
    cbn [dir_at children with_children]. rewrite lookup_app_r by done. by rewrite Nat.sub_diag. }
  destruct (wf_alter_dir (mount_at rest m) pos root d Hw Hd) as (Hw' & _ & Hr'); [|done|done|].
  { intros Hwd. by apply wf_mounted_child. }
  split; [done|]. split; [|split; [done|]].
  - rewrite <- Hpath. apply (LookupDirectory_found root' (with_mounted (new_child d rest) (Some m)));
      [done|by etrans; [exact Hr'|]|done].
  - unfold Delete, root'. rewrite last_snoc, removelast_last, alter_dir_compose.
    apply (alter_dir_id _ pos root d Hd). cbn [mount_at children with_children].
    rewrite delete_take_drop, take_app_length, drop_ge by (rewrite length_app; simpl; lia).
    rewrite app_nil_r. by destruct d.
Qed.
End MountProofs.

(** ** Save and Open *)

Lemma tree_ok_PruneEmpty fmt d : tree_ok fmt d -> tree_ok fmt (PruneEmpty d).
Proof.
  induction d as [d IH] using Directory_ind'. intros (Hp & Hm & Hn & Hs & Hpl & Hc)%tree_ok_inv.
  rewrite PruneEmpty_eq. constructor; cbn [path mtime songs playlists children with_children]; try done.
  - eapply sublist_Forall; [apply filter_sublist|]. apply Forall_fmap. eapply Forall_impl; [exact Hn|].
    intros c Hpc. unfold compose, GetName in *. by rewrite (proj1 (PruneEmpty_head c)).
  - eapply sublist_Forall; [apply filter_sublist|]. apply Forall_fmap.
    eapply Forall_impl; [apply Forall_and; split; [exact IH|exact Hc]|]. intros c [H1 H2]. by apply H1.
Qed.

Lemma tree_ok_Sort fmt coll d : tree_ok fmt d -> tree_ok fmt (Sort coll d).
Proof.
  induction d as [d IH] using Directory_ind'. intros (Hp & Hm & Hn & Hs & Hpl & Hc)%tree_ok_inv.
  rewrite Sort_eq. constructor; cbn [path mtime songs playlists children]; try done.
  - apply Forall_fmap. rewrite SortList_perm_aux. eapply Forall_impl; [exact Hn|].
    intros c Hpc. unfold compose, GetName in *. cbn [is_root path]. by rewrite (proj1 (Sort_head coll c)).
  - unfold song_list_sort. by rewrite SortList_perm_aux.
  - apply Forall_fmap. rewrite SortList_perm_aux.
    eapply Forall_impl; [apply Forall_and; split; [exact IH|exact Hc]|]. intros c [H1 H2]. by apply H1.
Qed.

(** A file that was written is read back and has a time stamp; a compressed
    one looks like one and is decompressed. *)
Class FileLaws `{FileSystem} : Prop := {
  write_read fs p c fs' : WriteFile fs p c = Ok fs' -> ReadFile fs' p = Ok c;
  write_info fs p c fs' : WriteFile fs p c = Ok fs' -> exists t, GetFileInfo fs' p = Some (mkFileInfo FsRegular t) /\ 0 <= t;
  gunzip_gzip c : gunzip (gzip c) = Ok c;
  gzip_header c : IsGzip (gzip c) = true }.

(** A database file is not taken for a compressed one. *)
Lemma db_text_not_gzip fmt v cs mask root : IsGzip (db_save_internal fmt v cs mask root) = false.
Proof. reflexivity. Qed.

Section Reload.
Context `{FileSystem} `{DatabaseFormat} {Hlaws : FileLaws}.

Lemma read_saved fs fs' p text (c : bool) : WriteFile fs p (if c then gzip text else text) = Ok fs' -> IsGzip text = false ->
  short_file fs' p = true -> AutoGunzipFileLineReader fs' p = Ok (file_lines text).
Proof.
  intros Hw Hg. assert (ReadText fs' p = Ok text) as Ht.
  { unfold ReadText. rewrite (write_read _ _ _ _ Hw). cbn [rbind].
    destruct c; [by rewrite gzip_header, gunzip_gzip|]. by rewrite Hg. }
  unfold short_file, AutoGunzipFileLineReader. rewrite Ht. cbn [rbind]. intros Hs. by rewrite read_lines_short.
Qed.

(** The database text of a tree, loaded again. *)
Lemma load_saved root0 : wf root0 -> is_root root0 = true -> tree_ok fmt_double root0 ->
  plain VERSION -> plain fs_charset ->
  db_load_internal fs_charset enabled_mask
    (file_lines (db_save_internal fmt_double VERSION fs_charset enabled_mask root0)) NewRoot false =
  Ok (reload_dir root0).
Proof.
  intros Hw Hr Hok Hv Hc. rewrite db_load_header by done. rewrite existsb_false.
  - cbn [negb andb]. cbn zeta. by rewrite root_loads.
  - intros t. by destruct (IsTagEnabled enabled_mask t).
Qed.
End Reload.

Lemma Save_reopened `{FileSystem} `{DatabaseFormat} (Hlaws : FileLaws) (fs fs' : Files) (db db' other : SimpleDatabase)
  (root0 : Directory)
  (Hroot : root db = Some root0) (Hwf : wf root0) (Hisroot : is_root root0 = true)
  (Hok : tree_ok fmt_double root0) (Hversion : plain VERSION) (Hcharset : plain fs_charset)
  (Hsave : Save fs db = (db', Ok fs')) (Hshort : short_file fs' (db_path db) = true) (Hpath : db_path other = db_path db) :
  exists db'', Open fs' other = (db'', Ok tt) /\
    root db'' = Some (reload_dir (Sort IcuCollate (PruneEmpty root0))) /\
    root db' = Some (Sort IcuCollate (PruneEmpty root0)) /\
    FileExists db'' = true /\ FileExists db' = true.
Proof.
  unfold Save in Hsave. rewrite Hroot in Hsave. cbv zeta in Hsave. cbn [with_root db_path compress] in Hsave.
  destruct (WriteFile fs (db_path db) _) as [fs1|e] eqn:Ew; [|done]. injection Hsave as <- ->.
  pose proof (read_saved _ _ _ _ _ Ew (db_text_not_gzip _ _ _ _ _) Hshort) as Hread.
  destruct (write_info _ _ _ _ Ew) as (t & Hinfo & Ht).
  unfold Open, Load. cbn [with_db_mtime with_root db_path]. rewrite Hpath, Hread. cbn [rbind].
  rewrite load_saved; [|by apply wf_Sort, wf_PruneEmpty| |by apply tree_ok_Sort, tree_ok_PruneEmpty|done|done].
  2: { by rewrite (proj2 (Sort_head _ _)), (proj2 (PruneEmpty_head _)). }
  cbn [rbind]. unfold update_mtime. cbn [with_db_mtime with_root db_path]. rewrite ?Hpath, Hinfo.
  eexists. split; [done|]. split; [done|]. split; [done|]. split; apply Z.leb_le; exact Ht.
Qed.

(** ** Properties *)

(** C8: a database that was saved, compressed or not, is opened again with
    the tree that was saved, pruned and sorted, up to the precision of the
    text form, and then counts as existing: if the names, paths, URIs and
    tag values of the tree are lines of text ([tree_ok]: no newline, no NUL,
    no carriage return at the end), as are the version and the character
    set, times are below 2^63, a tag has fewer than 65536 items and [strtod]
    reads durations as they were printed, and no line of the file has
    512 KiB, the limit of the reader. *)
Theorem Save_Open `{FileSystem} `{DatabaseFormat} (Hlaws : FileLaws) (fs fs' : Files) (db db' other : SimpleDatabase)
  (root0 : Directory)
  (Hroot : root db = Some root0) (Hwf : wf root0) (Hisroot : is_root root0 = true)
  (Hok : tree_ok fmt_double root0) (Hversion : plain VERSION) (Hcharset : plain fs_charset)
  (Hsave : Save fs db = (db', Ok fs')) (Hshort : short_file fs' (db_path db) = true) (Hpath : db_path other = db_path db) :
  exists db'', Open fs' other = (db'', Ok tt) /\
    root db'' = Some (reload_dir (Sort IcuCollate (PruneEmpty root0))) /\
    root db' = Some (Sort IcuCollate (PruneEmpty root0)) /\
    FileExists db'' = true /\ FileExists db' = true.
Proof. by apply (Save_reopened Hlaws fs fs' db db' other). Qed.

(** A file system of regular files, all from the same time. *)
Definition gzip_magic : bytes := [chr 31; chr 139; chr 8; chr 0].
#[export] Instance sample_files : FileSystem :=
  {| Files := bytes -> option bytes;
     PathExists := fun fs p => match fs p with Some _ => true | None => false end;
     GetFileInfo := fun fs p => (fun _ => mkFileInfo FsRegular 7) <$> fs p;
     CheckAccess := fun _ _ _ => true;
     ReadFile := fun fs p => match fs p with Some c => Ok c | None => Throw (lit "Failed to open") end;
     WriteFile := fun fs p c => Ok (fun q => if q =b p then Some c else fs q);
     gzip := app gzip_magic;
     gunzip := fun c => Ok (drop 4 c) |}.
#[export] Instance sample_file_laws : FileLaws.
Proof.
  split.
  - intros fs p c fs' [= <-]. cbn. by rewrite bytes_eqb_refl.
  - intros fs p c fs' [= <-]. cbn. rewrite bytes_eqb_refl. by exists 7.
  - intros c. cbn. by rewrite drop_0.
  - intros c. reflexivity.
Qed.
#[export] Instance sample_format : DatabaseFormat :=
  {| fmt_double := sample_fmt; VERSION := lit "0.24"; fs_charset := lit "UTF-8"; enabled_mask := 71; IcuCollate := strcmp |}.

Definition no_files : Files := fun _ => None.
Definition sample_saved : SimpleDatabase :=
  with_root (SimpleDatabase_new (lit "/db") true true) (Some DbSave.sample_tree).

Lemma Save_Open_witness :
  exists fs' db'', snd (Save no_files sample_saved) = Ok fs' /\
    Open fs' (SimpleDatabase_new (lit "/db") false true) = (db'', Ok tt) /\
    root db'' = Some (reload_dir (Sort strcmp (PruneEmpty DbSave.sample_tree))).
Proof.
  destruct (Save no_files sample_saved) as [db' [fs'|e]] eqn:Es; [|vm_compute in Es; discriminate Es].
  destruct DbSave.sample_tree_ok as [Hw Hok].
  destruct (@Save_Open sample_files sample_format sample_file_laws no_files fs' sample_saved db' (SimpleDatabase_new (lit "/db") false true)
    DbSave.sample_tree eq_refl Hw eq_refl Hok ltac:(apply (bool_decide_unpack _); vm_compute; exact I)
    ltac:(apply (bool_decide_unpack _); vm_compute; exact I) Es ltac:(injection Es as _ <-; vm_compute; reflexivity) eq_refl) as (db'' & Ho & Hr & _).
  exists fs', db''. split; [reflexivity|]. split; [exact Ho|exact Hr].
Defined.

(** Mounting a database at a free place and unmounting it there gives
    the tree and the other databases back; in between the mount point is
    found under that URI. *)
Theorem Mount_Unmount (dbs dbs' : gmap nat SimpleDatabase) (n m : nat) (uri : bytes) (db : SimpleDatabase)
  (root0 : Directory)
  (Hn : dbs !! n = Some db) (Hr : root db = Some root0) (Hwf : wf root0) (Hroot : is_root root0 = true)
  (Hslash : List.last uri NUL <> SEPARATOR)
  (Hmount : Mount dbs n uri m = inl dbs') :
  Unmount dbs' n uri = (delete m dbs, true) /\
  exists root' pos, root_of dbs' n = Some root' /\ wf root' /\
    LookupDirectory root' uri = mkLookupResult pos uri None /\
    (dir_at root' pos ≫= mounted_database) = Some m.
Proof.
  unfold Mount in Hmount. rewrite Hn, Hr in Hmount. cbv zeta in Hmount.
  destruct (lr_rest (LookupDirectory root0 uri)) as [rest|] eqn:Erest; [|done].
  destruct (has_slash rest) eqn:Eslash; [done|]. injection Hmount as <-.
  pose proof (Lookup_inv root0 uri) as (d & Hd & Hinv). cbv zeta in *.
  assert (rest <> []) as Hne.
  { intros ->. destruct (Hinv [] Erest) as [Huri _]. rewrite app_nil_r in Huri.
    destruct (decide (lr_directory (LookupDirectory root0 uri) = [])) as [E|E].
    - assert (names_at root0 (lr_directory (LookupDirectory root0 uri)) = []) as En by exact (f_equal (names_at root0) E).
      rewrite En in Huri. subst uri. done.
    - destruct (dir_prefix root0 Hwf Hroot _ d Hd) as (_ & _ & Hp). destruct (Hp E) as [Hpre _].
      rewrite Hpre in Huri. apply Hslash. by rewrite Huri, last_last. }
  destruct (mounted_tree root0 Hwf Hroot uri rest d m Erest Eslash Hne Hd) as (Hw' & Hl & Hat & Hdel).
  change (fun d0 => with_children d0 (children d0 ++ [with_mounted (new_child d0 rest) (Some m)])) with (mount_at rest m).
  split.
  - unfold Unmount, LockUmountSteal. rewrite lookup_insert_eq. cbn [root with_root]. rewrite Hl.
    cbn [lr_rest lr_directory]. rewrite Hat. cbn [mbind option_bind mounted_database with_mounted]. rewrite Hdel.
    rewrite insert_insert_eq. f_equal. f_equal. apply insert_id. rewrite Hn. f_equal. destruct db. cbn in *. by rewrite Hr.
  - eexists _, _. unfold root_of. rewrite lookup_insert_eq. split; [reflexivity|]. split; [exact Hw'|].
    split; [exact Hl|]. by rewrite Hat.
Qed.

Lemma Mount_Unmount_witness :
  exists dbs', Mount sample_dbs 0 (lit "d/n") 2 = inl dbs' /\ Unmount dbs' 0 (lit "d/n") = (delete 2%nat sample_dbs, true).
Proof.
  destruct (Mount sample_dbs 0 (lit "d/n") 2) as [dbs'|e] eqn:Em; [|vm_compute in Em; discriminate Em].
  exists dbs'. split; [reflexivity|].
  refine (proj1 (Mount_Unmount sample_dbs dbs' 0 2 (lit "d/n") (sample_db sample_root_0) sample_root_0 eq_refl eq_refl
    _ eq_refl _ Em)).
  - exact (proj1 (check_tree_spec sample_root_0 ltac:(vm_compute; reflexivity))).
  - vm_compute. discriminate.
Defined.
