(* ===== verification/DbMain.v ===== *)
(** The program: [src/DbMain.cxx], with the configured storage
    ([src/storage/Configured.cxx]) and the update thread's [Task]
    ([src/db/update/Service.cxx]).

    [main] is a function of the arguments and the files: it returns the exit
    code and the files it leaves, or [None] where the walk of the music
    directory exceeds the depth [fuel].  The music directory, the plugins
    and the clock are parameters ([MainEnv]); what is written to the
    terminal is left out, but for the progress dots. *)
From S2P Require Import Prelude Text Chrono Tags Audio Songs SongSave Playlists Directory DbSave TagScan Storage CompositeStorage Config SongUpdate CueValidator Editor Walk WalkWf WalkTexts WalkTermination Service DbVisit SimpleDatabase.
Open Scope Z_scope.

(** ** The arguments *)

(** The static variables; a path without characters is the null path. *)
Record Settings := mkSettings
  { channel_mode_arg : ChannelMode; music_directory : bytes; database_path : bytes;
    verbose : bool; update_mode : bool }.

Definition Settings_default : Settings := mkSettings ALL [] [] false false.

Definition with_channel_mode (s : Settings) (m : ChannelMode) : Settings :=
  mkSettings m (music_directory s) (database_path s) (verbose s) (update_mode s).

(** [--help] ends the program at once. *)
Inductive ArgsResult := ArgsParsed (s : Settings) | ArgsHelp | ArgsError (what : bytes).

Section Args.
Context `{System}.

Fixpoint ParseArgs_loop (argv : list bytes) (s : Settings) {struct argv} : ArgsResult :=
  match argv with
  | [] => ArgsParsed s
  | arg :: argv =>
      if arg =b lit "--help" then ArgsHelp
      else if arg =b lit "--update" then
        ParseArgs_loop argv (mkSettings (channel_mode_arg s) (music_directory s) (database_path s) (verbose s) true)
      else if arg =b lit "--stereo" then ParseArgs_loop argv (with_channel_mode s STEREO)
      else if arg =b lit "--multichannel" then ParseArgs_loop argv (with_channel_mode s MULTICHANNEL)
      else if arg =b lit "--all" then ParseArgs_loop argv (with_channel_mode s ALL)
      else if arg =b lit "--verbose" then
        ParseArgs_loop argv (mkSettings (channel_mode_arg s) (music_directory s) (database_path s) true (update_mode s))
      else if arg =b lit "--music-dir" then
        match argv with
        | [] => ArgsError (lit "--music-dir needs arg")
        | v :: argv =>
            ParseArgs_loop argv (mkSettings (channel_mode_arg s) v (database_path s) (verbose s) (update_mode s))
        end
      else if arg =b lit "--database" then
        match argv with
        | [] => ArgsError (lit "--database needs arg")
        | v :: argv =>
            match FromUTF8Throw v with
            | Ok p => ParseArgs_loop argv (mkSettings (channel_mode_arg s) (music_directory s) p (verbose s) (update_mode s))
            | Throw e => ArgsError e
            end
        end
      else ArgsError (lit "Unknown")
  end.

(** [argv] without the name of the program. *)
Definition ParseArgs (argv : list bytes) : ArgsResult :=
  match ParseArgs_loop argv Settings_default with
  | ArgsParsed s =>
      if (music_directory s =b []) || (database_path s =b [])
      then ArgsError (lit "--music-dir and --database required") else ArgsParsed s
  | r => r
  end.
End Args.

(** ** Waiting for the update *)

(** [dots] are the dots written to the terminal. *)
Record UpdateChecker := mkChecker { progress_counter : Z; dots : nat }.

(** [None]: the event loop is left. *)
Definition OnTimer (verbose : bool) (update : UpdateService) (c : UpdateChecker) : option UpdateChecker :=
  if GetId update =? 0 then None
  else Some (
    if verbose then
      let n := progress_counter c + 1 in
      if 100 <=? n then mkChecker 0 (S (dots c)) else mkChecker n (dots c)
    else c).

(** What the event loop runs: the timer, which is scheduled again every
    time, and the deferred call at the end of the update thread. *)
Inductive LoopEvent := TimerExpired | UpdateFinished (modified : bool).

(** The service, the checker and the events that are left when the loop was
    left; [None]: it still runs. *)
Fixpoint Run (verbose : bool) (events : list LoopEvent) (update : UpdateService) (c : UpdateChecker)
  : UpdateService * UpdateChecker * option (list LoopEvent) :=
  match events with
  | [] => (update, c, None)
  | TimerExpired :: events =>
      match OnTimer verbose update c with
      | None => (update, c, Some events)
      | Some c => Run verbose events update c
      end
  | UpdateFinished m :: events => Run verbose events (fst (RunDeferred update m)) c
  end.

(** ** Configured.cxx *)

(** [AllocatedPath::ChopSeparators], on the reversed path. *)
Fixpoint chop (r : bytes) : bytes :=
  match r with
  | c :: ((_ :: _) as r') => if IsSeparator c then chop r' else r
  | _ => r
  end.
Definition ChopSeparators (p : bytes) : bytes := reverse (chop (reverse p)).

Class MainEnv := {
  main_decoder_plugins : list DecoderPlugin;
  main_archive_plugins : list ArchivePlugin;
  main_playlist_plugins : list PlaylistPlugin;
  storage_plugins : list StoragePlugin;
  (** the n-th reading of the clock *)
  main_now : nat -> Z }.

Section Main.
Context `{System} `{LocalFiles} `{LocalCalls} `{UserDirectories} `{FileSystem} `{DatabaseFormat} `{MainEnv}.

(** The user is not configured: [InitPathParser] is not called. *)
Definition GetConfiguredMusicDirectory (uri : bytes) : result bytes :=
  if uri_has_scheme uri then Ok []
  else
    let* path := ParsePath None uri in
    Ok (if path =b [] then default [] GetUserMusicDir else path).

Definition CreateConfiguredStorageLocal (uri : bytes) : result (option StorageOps) :=
  let* path := GetConfiguredMusicDirectory uri in
  if path =b [] then Ok None
  else let* storage := CreateLocalStorage (ChopSeparators path) in Ok (Some storage).

Definition CreateConfiguredStorageUri (uri : bytes) : result StorageOps :=
  let* storage := CreateStorageURI storage_plugins uri in
  match storage with Some storage => Ok storage | None => Throw (lit "Unrecognized storage URI") end.

Definition CreateConfiguredStorage (uri : bytes) : result (option StorageOps) :=
  if uri_has_scheme uri
  then let* storage := CreateConfiguredStorageUri uri in Ok (Some storage)
  else CreateConfiguredStorageLocal uri.

(** ** The update *)

(** [UpdateWalk] as [StartThread] creates it; nothing cancels it. *)
Definition main_walk (mode : ChannelMode) (discard : bool) : UpdateWalk := {|
  follow_inside_symlinks := true;
  follow_outside_symlinks := true;
  tag_mask := enabled_mask;
  decoder_plugins := main_decoder_plugins;
  archive_plugins := main_archive_plugins;
  playlist_plugins := main_playlist_plugins;
  channel_mode := mode;
  walk_discard := discard;
  cancel := fun _ => false;
  now := main_now |}.

(** [UpdateService::Task] of a job on the own database: the [modified] flag,
    the database and the files.  That saving failed is only logged. *)
Definition Task (fuel : nat) (mode : ChannelMode) (storage : StorageOps) (i : UpdateQueueItem)
  (fs : Files) (db : SimpleDatabase) : option (bool * SimpleDatabase * Files) :=
  match root db with
  | None => None
  | Some r =>
      match @Walk _ (Storage_of storage) (main_walk mode (discard i)) fuel r (Some (path_utf8 i)) with
      | None => None
      | Some (modified, r, _) =>
          let db := with_root db (Some r) in
          if modified || negb (FileExists db) then
            match Save fs db with
            | (db, Ok fs) => Some (modified, db, fs)
            | (db, Throw _) => Some (modified, db, fs)
            end
          else Some (modified, db, fs)
      end
  end.

(** The own database has the number 0, and so has the only storage. *)
Definition main_service (composite : MountDirectory) (r : Directory) : ServiceEnv := {|
  root_directory := r;
  is_simple := fun _ => true;
  Service.GetMount := fun uri => (fun _ => 0%nat) <$> CompositeStorage.GetMount composite uri |}.

(** The database of the settings, opened, and the composite storage. *)
Definition setup (fs : Files) (s : Settings) : result (SimpleDatabase * MountDirectory) :=
  let* path := ParsePath None (PathToUTF8 (database_path s)) in
  let* db := SimpleDatabase_config (if path =b [] then None else Some path) None None None in
  let '(db, opened) := Open fs db in
  let* _ := opened in
  let* configured := CreateConfiguredStorage (music_directory s) in
  match configured with
  | None => Throw (lit "Failed to create storage for music directory")
  | Some storage =>
      match CompositeStorage.Mount [] storage MountDirectory_new with
      | Some composite => Ok (db, composite)
      | None => Throw (lit "undefined")
      end
  end.

(** The rest of [main] once the arguments are parsed: the event loop is left
    after the update thread has finished, then the database is saved. *)
Definition main_run (fuel : nat) (s : Settings) (fs : Files) : option (Z * Files) :=
  match setup fs s with
  | Throw _ => Some (1, fs)
  | Ok (db, composite) =>
      match @Enqueue (main_service composite (default NewRoot (root db))) UpdateService_new [] (negb (update_mode s)) with
      | Throw _ => Some (1, fs)
      | Ok (_, service, _) =>
          match Task fuel (channel_mode_arg s) (CompositeStorage composite) (next service) fs db with
          | None => None
          | Some (_, db, fs) =>
              match Save fs db with
              | (_, Ok fs) => Some (0, fs)
              | (_, Throw _) => Some (1, fs)
              end
          end
      end
  end.

Definition main (fuel : nat) (argv : list bytes) (fs : Files) : option (Z * Files) :=
  match ParseArgs argv with
  | ArgsHelp => Some (0, fs)
  | ArgsError _ => Some (1, fs)
  | ArgsParsed s => main_run fuel s fs
  end.
End Main.

(** ** The event loop *)

Definition timers (n : nat) : list LoopEvent := replicate n TimerExpired.

(** While the update runs the timer only counts. *)
Lemma Run_timers verbose n rest update : GetId update <> 0 -> forall c, 0 <= progress_counter c < 100 ->
  Run verbose (timers n ++ rest) update c =
  Run verbose rest update (if verbose
    then mkChecker ((progress_counter c + Z.of_nat n) mod 100)
           (dots c + Z.to_nat ((progress_counter c + Z.of_nat n) / 100))
    else c).
Proof.
  intros Hid. induction n as [|n IH]; intros c Hc.
  - destruct verbose; [|done]. rewrite Z.add_0_r, Z.mod_small, Z.div_small by lia. rewrite Nat.add_0_r.
    by destruct c.
  - cbn [timers replicate app Run]. unfold OnTimer. rewrite (proj2 (Z.eqb_neq _ _)) by done.
    fold (timers n). destruct verbose; [|by rewrite IH]. cbv zeta. rewrite Nat2Z.inj_succ.
    destruct (100 <=? progress_counter c + 1) eqn:E; reflect_bools; rewrite IH by (cbn [progress_counter]; lia);
      cbn [progress_counter dots]; do 2 f_equal.
    + replace (progress_counter c + Z.succ (Z.of_nat n)) with (0 + Z.of_nat n + 1 * 100) by lia. by rewrite Z.mod_add.
    + replace (progress_counter c + Z.succ (Z.of_nat n)) with (0 + Z.of_nat n + 1 * 100) by lia.
      rewrite Z.div_add by done. rewrite Z2Nat.inj_add by (try apply Z.div_pos; lia). lia.
    + f_equal. lia.
    + do 2 f_equal. f_equal. lia.
Qed.

(** ** The walk of the main program *)

Section MainProofs.
Context `{System} `{LocalFiles} `{LocalCalls} `{UserDirectories} `{FileSystem} `{DatabaseFormat} `{MainEnv}.

Lemma setup_composite fs s db composite : setup fs s = Ok (db, composite) ->
  exists storage, composite = mkMount (Some storage) [].
Proof.
  unfold setup. intros (path & _ & Hs)%rbind_Ok. apply rbind_Ok in Hs as (db0 & _ & Hs).
  destruct (Open fs db0) as [db1 opened]. apply rbind_Ok in Hs as (u & _ & Hs).
  apply rbind_Ok in Hs as ([storage|] & _ & Hs); [|done]. injection Hs as _ <-. by exists storage.
Qed.

(** The job is accepted and started. *)
Lemma Enqueue_root storage r d : mounted_database r = None ->
  exists update effects,
    @Enqueue (main_service (mkMount (Some storage) []) r) UpdateService_new [] d =
      Ok (1, update, effects) /\ next update = mkItem 0 0 [] d 1 /\ queue update = [].
Proof.
  intros Hr. unfold Enqueue. assert (@resolve (main_service (mkMount (Some storage) []) r) [] =
    Ok (0%nat, 0%nat, [])) as ->.
  { unfold resolve. cbn [root_directory main_service]. change (LookupDirectory r []) with (mkLookupResult [] [] None).
    cbn [lr_directory dir_at mbind option_bind]. by rewrite Hr. }
  cbn [rbind]. by eexists _, _.
Qed.

Lemma with_root_path db r : db_path (with_root db r) = db_path db.
Proof. done. Qed.

Lemma Save_path fs db : db_path (fst (Save fs db)) = db_path db.
Proof.
  unfold Save. destruct (root db) as [r|]; [|done]. cbv zeta. cbn [with_root db_path compress].
  destruct (WriteFile _ _ _) as [fs1|e]; [|done]. unfold update_mtime. cbn [with_root db_path].
  by destruct (GetFileInfo fs1 (db_path db)).
Qed.

Lemma Save_root fs db r : root db = Some r -> root (fst (Save fs db)) = Some (Sort IcuCollate (PruneEmpty r)).
Proof.
  intros Hr. unfold Save. rewrite Hr. cbv zeta. cbn [with_root db_path compress].
  destruct (WriteFile _ _ _) as [fs1|e]; [|done]. unfold update_mtime. cbn [with_root db_path].
  by destruct (GetFileInfo fs1 (db_path db)).
Qed.

(** The tree after the task: as the walk left it or as it was saved. *)
Lemma Task_root fuel mode storage i fs db r m r1 uris : root db = Some r ->
  @Walk _ (Storage_of storage) (main_walk mode (discard i)) fuel r (Some (path_utf8 i)) = Some (m, r1, uris) ->
  exists db' fs', Task fuel mode storage i fs db = Some (m, db', fs') /\ db_path db' = db_path db /\
    (root db' = Some r1 \/ root db' = Some (Sort IcuCollate (PruneEmpty r1))).
Proof.
  intros Hr Hw. unfold Task. rewrite Hr, Hw.
  destruct (m || _); [|eexists _, _; split; [done|]; split; [done|by left]].
  pose proof (Save_path fs (with_root db (Some r1))) as Hp. pose proof (Save_root fs (with_root db (Some r1)) r1 eq_refl) as Hs.
  destruct (Save fs (with_root db (Some r1))) as [db' [fs'|e]]; cbn [fst] in *; eexists _, _;
    (split; [done|]); (split; [done|by right]).
Qed.

(** What is saved of a tree. *)
Definition saved (r : Directory) : Directory := reload_dir (Sort IcuCollate (PruneEmpty r)).

Lemma saved_songs r : unmounted r -> wf r ->
  all_songs (saved r) ≡ₚ (fun e => (fst e, reload_song (snd e))) <$> all_songs r.
Proof.
  intros Hu Hw. unfold saved. rewrite reload_all_songs.
  - apply fmap_Permutation. by rewrite Sort_all_songs, PruneEmpty_all_songs.
  - by apply tree_all_Sort, tree_all_PruneEmpty.
  - by apply wf_Sort, wf_PruneEmpty.
Qed.

(** A tree that can be saved. *)
Record savable (r : Directory) : Prop := {
  sv_wf : wf r;
  sv_root : is_root r = true;
  sv_texts : tree_ok fmt_double r;
  sv_unmounted : unmounted r }.

Lemma savable_pruned r : savable r -> savable (Sort IcuCollate (PruneEmpty r)).
Proof.
  intros []. split.
  - by apply wf_Sort, wf_PruneEmpty.
  - by rewrite (proj2 (Sort_head _ _)), (proj2 (PruneEmpty_head _)).
  - by apply tree_ok_Sort, tree_ok_PruneEmpty.
  - by apply tree_all_Sort, tree_all_PruneEmpty.
Qed.

(** The walk of a job at the root. *)
Lemma Walk_savable mode d storage fuel r m r1 uris :
  @WalkLaws _ (Storage_of storage) (main_walk mode d) ->
  @TextLaws fmt_double _ (Storage_of storage) (main_walk mode d) ->
  @Walk _ (Storage_of storage) (main_walk mode d) fuel r (Some []) = Some (m, r1, uris) ->
  savable r -> savable r1.
Proof.
  intros Hl Ht Hw [Hs1 Hs2 Hs3 Hs4].
  destruct (@Walk_texts_good fmt_double _ (Storage_of storage) (main_walk mode d) Ht Hl fuel r r1 (Some []) m uris Hs1 Hs3
    (or_introl eq_refl) Hw) as (Hw1 & Ht1 & Hr1).
  split; [done|congruence|done|].
  exact (@Walk_unmounted _ (Storage_of storage) (main_walk mode d) Hl fuel r r1 m uris Hs1 Hs4 Hw).
Qed.
End MainProofs.

(** ** Properties *)

(** C5: from an opened database whose tree can be saved, and with a storage
    of finitely many directories, the program ends.  If it reports success
    and no line of the database file it wrote has 512 KiB, opening that file
    gives a database that exists and whose songs are those the walk of the
    music directory left, each in its directory and up to the precision of
    the text form; provided that the names the storage gives and the values
    of tags are lines of text ([savable], [TextLaws]: no newline, no NUL, no
    carriage return at the end), as are the version and the character set,
    that times are below 2^63, and that a duration is read as it was
    printed. *)
Theorem main_scans `{System} `{LocalFiles} `{LocalCalls} `{UserDirectories} `{FileSystem} `{DatabaseFormat} `{MainEnv}
  (Hfiles : FileLaws) (argv : list bytes) (s : Settings) (fs : Files) (db : SimpleDatabase)
  (composite : MountDirectory) (root0 : Directory) (S : list (Z * Z)) (fuel : nat)
  (Hargs : ParseArgs argv = ArgsParsed s) (Hsetup : setup fs s = Ok (db, composite))
  (Hroot : root db = Some root0) (Hsavable : savable root0) :
  let storage := Storage_of (CompositeStorage composite) in
  let walk := main_walk (channel_mode_arg s) (negb (update_mode s)) in
  forall (Hlaws : @WalkLaws _ storage walk) (Htexts : @TextLaws fmt_double _ storage walk)
    (Hfinite : @FiniteStorage storage S) (Hfuel : (length S < fuel)%nat)
    (Hversion : plain VERSION) (Hcharset : plain fs_charset),
  exists code fs' modified root1 uris,
    @Walk _ storage walk fuel root0 (Some []) = Some (modified, root1, uris) /\
    main fuel argv fs = Some (code, fs') /\ (code = 0 \/ code = 1) /\
    (code = 0 -> short_file fs' (db_path db) = true -> forall other, db_path other = db_path db ->
      exists db' root', Open fs' other = (db', Ok tt) /\ root db' = Some root' /\ FileExists db' = true /\
        (root' = saved root1 \/ root' = saved (Sort IcuCollate (PruneEmpty root1))) /\
        all_songs root' ≡ₚ (fun e => (fst e, reload_song (snd e))) <$> all_songs root1).
Proof.
  intros storage walk Hlaws Htexts Hfinite Hfuel Hversion Hcharset.
  destruct (@Walk_total _ storage walk S Hfinite fuel root0 (Some []) Hfuel) as (m & root1 & uris & Hw).
  destruct (setup_composite fs s db composite Hsetup) as (st & ->).
  pose proof (Walk_savable _ _ _ _ _ _ _ _ Hlaws Htexts Hw Hsavable) as Hsav1.
  assert (mounted_database root0 = None) as Hmd by (by destruct Hsavable as [_ _ _ [[_ ?] _]%tree_all_inv]).
  destruct (Enqueue_root st root0 (negb (update_mode s)) Hmd) as (update & effects & He & Hn & _).
  destruct (Task_root fuel (channel_mode_arg s) (CompositeStorage (mkMount (Some st) []))
    (next update) fs db root0 m root1 uris Hroot) as (db2 & fs2 & Ht & Hp2 & Hr2); [by rewrite Hn|].
  unfold main, main_run. rewrite Hargs, Hsetup, Hroot. change (default NewRoot (Some root0)) with root0. rewrite He, Ht.
  assert (exists r, root db2 = Some r /\ savable r /\ (r = root1 \/ r = Sort IcuCollate (PruneEmpty root1)) /\
    all_songs r ≡ₚ all_songs root1) as (r & Hr & [] & Hcase & Hsongs).
  { destruct Hr2 as [Hr|Hr]; eexists; (split; [exact Hr|]).
    - split; [done|]. split; [by left|done].
    - split; [by apply savable_pruned|]. split; [by right|]. by rewrite Sort_all_songs, PruneEmpty_all_songs. }
  pose proof (Save_path fs2 db2) as Hp3. destruct (Save fs2 db2) as [db3 [fs3|e]] eqn:Es; cbn [fst] in Hp3.
  - exists 0, fs3, m, root1, uris. split; [done|]. split; [done|]. split; [by left|]. intros _ Hshort other Hother.
    destruct (Save_reopened Hfiles fs2 fs3 db2 db3 other r Hr) as (db' & Ho & Hr' & _ & Hfe & _); try done; [congruence..|].
    exists db', (saved r). split; [done|]. split; [done|]. split; [done|]. split.
    + destruct Hcase as [-> | ->]; [by left|by right].
    + rewrite saved_songs by done. by apply fmap_Permutation.
  - exists 1, fs2, m, root1, uris. split; [done|]. split; [done|]. split; [by right|]. done.
Qed.

(** The event loop of the main program is left at the first expiry of
    the timer after the update thread has finished, and not before: with
    [n] expiries while the update runs, and [k] after it. *)
Theorem event_loop_left `{ServiceEnv} (discard verbose m : bool) (n k : nat) (i : Z) (update : UpdateService)
  (effects : list Effect)
  (Hstarted : Enqueue UpdateService_new [] discard = Ok (i, update, effects)) :
  snd (Run verbose (timers n) update (mkChecker 0 0)) = None /\
  let '(update', checker, rest) := Run verbose (timers n ++ UpdateFinished m :: timers k) update (mkChecker 0 0) in
  rest = match k with O => None | S k => Some (timers k) end /\
  GetId update' = 0 /\ walk update' = None /\
  dots checker = if verbose then (n / 100)%nat else 0%nat.
Proof.
  assert (GetId update = 1 /\ queue update = []) as [Hid Hq].
  { unfold Enqueue in Hstarted. apply rbind_Ok in Hstarted as ([[d st] p] & _ & Hs). by injection Hs as _ <- _. }
  assert (GetId update <> 0) as Hne by lia.
  split.
  - rewrite <- (app_nil_r (timers n)), Run_timers by (done || (cbn; lia)). done.
  - rewrite Run_timers by (done || (cbn; lia)). cbn [Run progress_counter dots].
    destruct update as [tid q nx w md]. cbn in Hq. subst q.
    assert ((if verbose then mkChecker ((0 + Z.of_nat n) mod 100) (0 + Z.to_nat ((0 + Z.of_nat n) / 100)) else mkChecker 0 0) =
      (if verbose then mkChecker (Z.of_nat n mod 100) (n / 100)%nat else mkChecker 0 0)) as ->.
    { destruct verbose; [|done]. f_equal. rewrite Z.add_0_l, Nat.add_0_l. change 100 with (Z.of_nat 100).
      by rewrite <- Nat2Z.inj_div, Nat2Z.id. }
    unfold RunDeferred. cbn. destruct k as [|k]; cbn; by destruct verbose.
Qed.

(** ** A local music directory *)

(** What the update needs to know of the names and times of local files. *)
Class LocalLaws `{System} `{LocalFiles} : Prop := {
  directory_names : forall p names n u, ReadDirectory p = Ok names -> n ∈ names -> IsSpecialFilename n = false ->
    ToUTF8Throw n = Ok u -> name_ok u /\ (skip_path u = false -> plain u);
  stat_times : forall p follow st, FileInfo_of p follow = Ok st -> st_mtime st < 2 ^ 63 }.

Section LocalMusic.
Context `{System} `{LocalFiles} `{LocalCalls} {Hlocal : LocalLaws}.

Definition local_music (base_fs base_utf8 : bytes) : Storage :=
  Storage_of (CompositeStorage (mkMount (Some (LocalStorage base_fs base_utf8)) [])).

Lemma Stat_time p follow info : Stat p follow = Ok info -> fi_mtime info < 2 ^ 63.
Proof. intros (st & Hst & [= <-])%rbind_Ok. by eapply stat_times. Qed.

Lemma local_entries base_fs base_utf8 p entries :
  @storage_OpenDirectory (local_music base_fs base_utf8) p = Ok entries ->
  Forall (fun e => name_ok (fst e) /\ (skip_path (fst e) = false -> plain (fst e)) /\
    match snd e with Ok info => fi_mtime info < 2 ^ 63 | Throw _ => True end) entries.
Proof.
  unfold local_music, Storage_of. cbn [storage_OpenDirectory].
  destruct (composite_single (LocalStorage base_fs base_utf8)) as (_ & -> & _). cbn [so_OpenDirectory LocalStorage].
  intros (reader & Hr & [= <-])%rbind_Ok. apply rbind_Ok in Hr as (p' & _ & Hr).
  apply rbind_Ok in Hr as (names & Hnames & [= <-]). apply Forall_fmap, Forall_forall. intros [u get] Hin.
  apply list_elem_of_omap in Hin as (n & Hn & Hin). destruct (IsSpecialFilename n) eqn:Esp; [done|].
  destruct (ToUTF8Throw n) as [u'|] eqn:Eu; [|done]. injection Hin as <- <-. cbn [fst snd].
  destruct (directory_names p' names n u' Hnames Hn Esp Eu) as [Hok Hpl]. split; [done|]. split; [done|]. unfold compose. cbn [fst snd compose].
  destruct (Stat (Build p' n) true) as [info|e] eqn:Es; [|exact I]. exact (Stat_time _ _ _ Es).
Qed.

Lemma local_info base_fs base_utf8 p info : @GetInfo (local_music base_fs base_utf8) p = Some info -> fi_mtime info < 2 ^ 63.
Proof.
  unfold GetInfo, local_music, Storage_of. cbn [storage_GetInfo].
  destruct (composite_single (LocalStorage base_fs base_utf8)) as (-> & _). cbn [so_GetInfo LocalStorage].
  destruct (rbind _ _) as [info'|] eqn:E.
  - intros [= <-]. apply rbind_Ok in E as (p' & _ & E). exact (Stat_time _ _ _ E).
  - destruct (forallb _ _); [|done]. intros [= <-]. by vm_compute.
Qed.
End LocalMusic.

(** ** An example *)

(** A music directory like that of [sample_storage]. *)
Definition sample_stat (p : bytes) : FileStat :=
  if p =b lit "/music" then mkFileStat false true 0 (1700000000 * NS) 3 7
  else if p =b lit "/music/d" then mkFileStat false true 0 (1700000000 * NS) 3 8
  else mkFileStat true false 1000 (1700000000 * NS) 3 9.

Definition sample_local : LocalFiles :=
  {| FileInfo_of := fun p _ => Ok (sample_stat p);
     ReadDirectory := fun p =>
       if p =b lit "/music" then Ok [lit "."; lit ".."; lit "a.flac"; lit "surround.flac"; lit "d"]
       else if p =b lit "/music/d" then Ok [lit "."; lit ".."; lit "b.flac"; lit "notes.txt"]
       else Throw (lit "ENOTDIR") |}.

Definition sample_calls : LocalCalls :=
  {| local_ReadLink := fun _ => NotALink; local_access_denied := fun _ => false; local_fnmatch := fun p n => p =b n |}.

Definition sample_directories : UserDirectories :=
  {| GetHomeDir := Some (lit "/home/u"); GetHomeDir_user := fun _ => None; GetUserConfigDir := None;
     GetUserMusicDir := None; GetUserCacheDir := None; GetUserRuntimeDir := None |}.

Definition sample_env : MainEnv :=
  {| main_decoder_plugins := [sample_plugin]; main_archive_plugins := []; main_playlist_plugins := [];
     storage_plugins := []; main_now := fun _ => 1700000000 * NS |}.

(** Regular files below the root directory. *)
Definition main_files : FileSystem :=
  {| Files := bytes -> option bytes;
     PathExists := fun fs p => match fs p with Some _ => true | None => false end;
     GetFileInfo := fun fs p => if p =b [SEPARATOR] then Some (mkFileInfo FsDirectory 7)
                                else (fun _ => mkFileInfo FsRegular 7) <$> fs p;
     CheckAccess := fun _ _ _ => true;
     ReadFile := fun fs p => match fs p with Some c => Ok c | None => Throw (lit "Failed to open") end;
     WriteFile := fun fs p c =>
       if p =b [SEPARATOR] then Throw (lit "EISDIR") else Ok (fun q => if q =b p then Some c else fs q);
     gzip := app gzip_magic;
     gunzip := fun c => Ok (drop 4 c) |}.

Lemma main_file_laws : @FileLaws main_files.
Proof.
  split; cbn [WriteFile ReadFile GetFileInfo gzip gunzip main_files].
  - intros fs p c fs'. destruct (p =b [SEPARATOR]); [done|]. intros [= <-]. by rewrite bytes_eqb_refl.
  - intros fs p c fs'. destruct (p =b [SEPARATOR]); [done|]. intros [= <-]. rewrite bytes_eqb_refl. by exists 7.
  - intros c. cbn. by rewrite drop_0.
  - intros c. reflexivity.
Qed.

Definition main_format : DatabaseFormat :=
  {| fmt_double := sample_fmt180; VERSION := lit "0.24"; fs_charset := lit "UTF-8"; enabled_mask := 71; IcuCollate := SongSort.strcmp |}.

Definition sample_argv : list bytes :=
  [lit "--music-dir"; lit "/music/"; lit "--stereo"; lit "--database"; lit "/db"].

#[local] Existing Instances sample_system sample_local sample_calls sample_directories main_files main_format sample_env.

Lemma sample_local_laws : LocalLaws.
Proof.
  split; [|intros p follow st [= <-]; unfold sample_stat; by repeat case_match].
  intros p names n u. cbn [ReadDirectory sample_local].
  assert (forall l, Forall (fun n => IsSpecialFilename n = true \/ name_ok n /\ plain n) l -> n ∈ l ->
    IsSpecialFilename n = false -> ToUTF8Throw n = Ok u -> name_ok u /\ (skip_path u = false -> plain u)) as Hl.
  { intros l Hall Hn Hs. rewrite Forall_forall in Hall. destruct (Hall n Hn) as [?|[Hok Hp]]; [congruence|].
    unfold ToUTF8Throw. cbn [PathToUTF8 sample_system]. destruct n; [done|]. by intros [= <-]. }
  destruct (p =b lit "/music"); [|destruct (p =b lit "/music/d"); [|done]]; intros [= <-]; apply Hl;
    repeat apply Forall_cons_2; try apply Forall_nil_2; apply (bool_decide_unpack _); vm_compute; exact I.
Qed.

Lemma sample_entries p entries : @storage_OpenDirectory (local_music (lit "/music") (lit "/music")) p = Ok entries ->
  entries = [(lit "a.flac", Ok (mkInfoOf REGULAR 1000 (1700000000 * NS) 3 9));
    (lit "surround.flac", Ok (mkInfoOf REGULAR 1000 (1700000000 * NS) 3 9));
    (lit "d", Ok (mkInfoOf DIRECTORY 0 (1700000000 * NS) 3 8))] \/
  entries = [(lit "b.flac", Ok (mkInfoOf REGULAR 1000 (1700000000 * NS) 3 9));
    (lit "notes.txt", Ok (mkInfoOf REGULAR 1000 (1700000000 * NS) 3 9))].
Proof.
  unfold local_music, Storage_of. cbn [storage_OpenDirectory].
  destruct (composite_single (LocalStorage (lit "/music") (lit "/music"))) as (_ & -> & _). cbn [so_OpenDirectory LocalStorage].
  intros (reader & Hr & [= <-])%rbind_Ok. apply rbind_Ok in Hr as (p' & _ & Hr).
  apply rbind_Ok in Hr as (names & Hnames & [= <-]). cbn [ReadDirectory sample_local] in Hnames.
  destruct (p' =b lit "/music") eqn:E1; reflect_bools; [|destruct (p' =b lit "/music/d") eqn:E2; reflect_bools; [|done]];
    injection Hnames as <-; subst p'; [left|right]; vm_compute; reflexivity.
Qed.

Definition sample_music : Storage := local_music (lit "/music") (lit "/music").

Lemma sample_music_info p info : storage_GetInfo (Storage := sample_music) p = Ok info -> IsDirectory info = true ->
  (fi_inode info, fi_device info) ∈ [(7, 3); (8, 3)].
Proof.
  unfold sample_music, local_music, Storage_of. cbn [storage_GetInfo].
  destruct (composite_single (LocalStorage (lit "/music") (lit "/music"))) as (-> & _). cbn [so_GetInfo LocalStorage].
  assert (exists p', MapFSOrThrow (lit "/music") p = Ok p') as [p' ->].
  { unfold MapFSOrThrow. destruct (p =b []); by eexists. }
  cbn [rbind]. unfold Stat. cbn [FileInfo_of sample_local rbind]. intros [= <-].
  unfold sample_stat. destruct (p' =b lit "/music"); [intros _; by left|].
  destruct (p' =b lit "/music/d"); [intros _; right; by left|done].
Qed.

Lemma sample_music_finite : @FiniteStorage sample_music [(7, 3); (8, 3)].
Proof.
  split; [apply (bool_decide_unpack _); vm_compute; exact I| |exact sample_music_info].
  intros p entries name info [-> | ->]%sample_entries Hin Hdir.
  - repeat (apply elem_of_cons in Hin as [[= _ ->]|Hin]; [done || (right; by left)|]). by apply elem_of_nil in Hin.
  - repeat (apply elem_of_cons in Hin as [[= _ ->]|Hin]; [done|]). by apply elem_of_nil in Hin.
Qed.

Lemma sample_music_laws : @WalkLaws sample_system sample_music (main_walk STEREO true).
Proof.
  split.
  - intros p entries Hp. pose proof sample_local_laws. apply local_entries in Hp.
    eapply Forall_impl; [exact Hp|]. by intros e (? & _).
  - intros suffix pathname info. apply NoDup_nil_2.
  - intros plugin input e Hp. by apply elem_of_nil in Hp.
Qed.

Lemma sample_music_texts : @TextLaws sample_fmt180 sample_system sample_music (main_walk STEREO true).
Proof.
  destruct (sample_texts STEREO) as [T1 T2 T3 T4 T5 _ _ T8 T9 T10]. pose proof sample_local_laws. split; try assumption.
  - exact (local_info (lit "/music") (lit "/music")).
  - intros p entries Hp. apply local_entries in Hp. eapply Forall_impl; [exact Hp|]. intros e (_ & Hpl & Ht) Hs. auto.
Qed.

Lemma savable_new : savable NewRoot.
Proof.
  split; [apply wf_NewRoot|done| |].
  - constructor; try apply plain_nil; try apply Forall_nil_2. by vm_compute.
  - constructor; try apply Forall_nil_2; done.
Qed.

Definition main_no_files : Files := fun _ : bytes => None.
Definition sample_settings : Settings := mkSettings STEREO (lit "/music/") (lit "/db") false false.
Definition sample_opened : SimpleDatabase := with_root (SimpleDatabase_new (lit "/db") true true) (Some NewRoot).
Definition sample_composite : MountDirectory :=
  mkMount (Some (LocalStorage (lit "/music") (lit "/music"))) [].

(** The stereo files are scanned, in both directories. *)
Example sample_main :
  match main 4 sample_argv main_no_files with
  | Some (code, fs') =>
      code = 0 /\
      option_map (fun r => map (fun e => (fst e, filename (snd e))) (all_songs r))
        (root (fst (Open fs' (SimpleDatabase_new (lit "/db") true true)))) =
      Some [([], lit "a.flac"); (lit "d", lit "b.flac")]
  | None => False
  end.
Proof. vm_compute. done. Qed.

Lemma main_scans_witness :
  exists code fs' modified root1 uris,
    @Walk _ sample_music (main_walk STEREO true) 4 NewRoot (Some []) = Some (modified, root1, uris) /\
    main 4 sample_argv main_no_files = Some (code, fs') /\ (code = 0 \/ code = 1) /\
    (code = 0 -> short_file fs' (lit "/db") = true -> forall other, db_path other = lit "/db" ->
      exists db' root', Open fs' other = (db', Ok tt) /\ root db' = Some root' /\ FileExists db' = true /\
        (root' = saved root1 \/ root' = saved (Sort IcuCollate (PruneEmpty root1))) /\
        all_songs root' ≡ₚ (fun e => (fst e, reload_song (snd e))) <$> all_songs root1).
Proof.
  refine (main_scans main_file_laws sample_argv sample_settings main_no_files sample_opened sample_composite NewRoot
    [(7, 3); (8, 3)] 4 _ _ eq_refl savable_new sample_music_laws sample_music_texts sample_music_finite _ _ _).
  - vm_compute. reflexivity.
  - vm_compute. reflexivity.
  - simpl. lia.
  - apply (bool_decide_unpack _). vm_compute. exact I.
  - apply (bool_decide_unpack _). vm_compute. exact I.
Defined.

Lemma event_loop_left_witness :
  let env := main_service sample_composite NewRoot in
  exists i update effects, Enqueue UpdateService_new [] true = Ok (i, update, effects) /\
  snd (Run true (timers 250) update (mkChecker 0 0)) = None /\
  let '(update', checker, rest) := Run true (timers 250 ++ UpdateFinished true :: timers 3) update (mkChecker 0 0) in
  rest = Some (timers 2) /\ GetId update' = 0 /\ walk update' = None /\ dots checker = 2%nat.
Proof.
  cbv zeta. do 3 eexists. split; [vm_compute; reflexivity|].
  refine (@event_loop_left (main_service sample_composite NewRoot) true true true 250 3 1 _ _ _).
  vm_compute. reflexivity.
Defined.
