(* ===== verification/Arrays.v ===== *)
(** Arrays and counting loops of the C++ code: an array is the list of its
    initialised elements, an index is an [unsigned] or [int], and reading or
    writing at an index that is not there is undefined behaviour, which is
    [None].  A [for] loop runs its body for the indices it counts through. *)
From stdpp Require Export numbers.
From S2P Require Export Prelude.
Open Scope Z_scope.

Section Arrays.
Context {A : Type}.

Definition arr_get (l : list A) (i : Z) : option A :=
  if i <? 0 then None else l !! Z.to_nat i.

Definition arr_set (l : list A) (i : Z) (x : A) : option (list A) :=
  if (0 <=? i) && (i <? Z.of_nat (length l)) then Some (<[Z.to_nat i := x]> l) else None.

(** [std::swap] of two elements. *)
Definition arr_swap (l : list A) (i j : Z) : option (list A) :=
  x ← arr_get l i; y ← arr_get l j; l ← arr_set l i y; arr_set l j x.
End Arrays.

Section Loops.
Context {St : Type}.

Fixpoint for_count (n : nat) (i step : Z) (body : Z -> St -> option St) (s : St) : option St :=
  match n with
  | O => Some s
  | S n => s ← body i s; for_count n (i + step) step body s
  end.

(** [for (i = from; i < to; ++i)] *)
Definition for_up (from to : Z) (body : Z -> St -> option St) (s : St) : option St :=
  for_count (Z.to_nat (to - from)) from 1 body s.

(** [for (i = from; i > to; --i)] *)
Definition for_down (from to : Z) (body : Z -> St -> option St) (s : St) : option St :=
  for_count (Z.to_nat (from - to)) from (-1) body s.

(** The rule of a loop: an invariant indexed by the number of rounds. *)
Lemma for_count_rule (I : nat -> St -> Prop) n i step body s :
  I O s ->
  (forall k s, (k < n)%nat -> I k s -> exists s', body (i + step * Z.of_nat k) s = Some s' /\ I (S k) s') ->
  exists s', for_count n i step body s = Some s' /\ I n s'.
Proof.
  revert I i s. induction n as [|n IH]; intros I i s H0 Hstep; cbn [for_count]; [by exists s|].
  destruct (Hstep O s ltac:(lia) H0) as (s1 & Hb & H1). rewrite Z.mul_0_r, Z.add_0_r in Hb. rewrite Hb. cbn.
  destruct (IH (fun k => I (S k)) (i + step) s1 H1) as (s' & Hr & Hn); [|by exists s'].
  intros k s2 Hk Hi. destruct (Hstep (S k) s2 ltac:(lia) Hi) as (s3 & Hb3 & Hi3). exists s3.
  split; [|done]. rewrite <- Hb3. f_equal. lia.
Qed.
End Loops.

(** ** Lemmas *)

Section ArrayLemmas.
Context {A : Type}.
Implicit Types (l src : list A) (i j k : nat) (x : A).

Lemma arr_get_nat l i : arr_get l (Z.of_nat i) = l !! i.
Proof. unfold arr_get. destruct (Z.ltb_spec (Z.of_nat i) 0); [lia|]. by rewrite Nat2Z.id. Qed.

Lemma arr_set_nat l i x : (i < length l)%nat -> arr_set l (Z.of_nat i) x = Some (<[i := x]> l).
Proof.
  intros Hi. unfold arr_set. rewrite Nat2Z.id.
  destruct (Z.leb_spec 0 (Z.of_nat i)), (Z.ltb_spec (Z.of_nat i) (Z.of_nat (length l))); done || lia.
Qed.

Lemma arr_get_Some l (z : Z) x : arr_get l z = Some x -> exists i, z = Z.of_nat i /\ l !! i = Some x.
Proof.
  unfold arr_get. destruct (Z.ltb_spec z 0); [done|]. intros Hx. exists (Z.to_nat z). split; [lia|done].
Qed.

Lemma arr_get_lt l (z : Z) : 0 <= z < Z.of_nat (length l) -> exists i x, z = Z.of_nat i /\ l !! i = Some x.
Proof.
  intros Hz. destruct (lookup_lt_is_Some_2 l (Z.to_nat z) ltac:(lia)) as [x Hx]. exists (Z.to_nat z), x.
  split; [lia|done].
Qed.

(** [l'] is [l] with the [k] elements of [src] from [from] copied, through
    [f], to the places from [to]. *)
Definition copied (f : A -> A) (src l l' : list A) (from to k : nat) : Prop :=
  length l' = length l /\
  forall j, l' !! j = if decide (to <= j < to + k)%nat then f <$> src !! (j - to + from)%nat else l !! j.

Lemma copied_0 f src l from to : copied f src l l from to 0.
Proof. split; [done|]. intros j. rewrite decide_False by lia. done. Qed.

(** One more element at the end of the block, or at its start. *)
Lemma copied_up f src l l' from to k x :
  copied f src l l' from to k -> src !! (from + k)%nat = Some x -> (to + k < length l)%nat ->
  copied f src l (<[(to + k)%nat := f x]> l') from to (S k).
Proof.
  intros [Hl Hc] Hx Hk. split; [by rewrite length_insert|]. intros j.
  destruct (decide (j = to + k)%nat) as [->|Hj].
  - rewrite list_lookup_insert_eq by lia. rewrite decide_True by lia.
    replace (to + k - to + from)%nat with (from + k)%nat by lia. by rewrite Hx.
  - rewrite list_lookup_insert_ne by done. rewrite Hc.
    destruct (decide (to <= j < to + k)%nat), (decide (to <= j < to + S k)%nat); done || lia.
Qed.

Lemma copied_down f src l l' from to k x :
  copied f src l l' (S from) (S to) k -> src !! from = Some x -> (to < length l)%nat ->
  copied f src l (<[to := f x]> l') from to (S k).
Proof.
  intros [Hl Hc] Hx Hk. split; [by rewrite length_insert|]. intros j.
  destruct (decide (j = to)%nat) as [->|Hj].
  - rewrite list_lookup_insert_eq by lia. rewrite decide_True by lia.
    replace (to - to + from)%nat with from by lia. by rewrite Hx.
  - rewrite list_lookup_insert_ne by done. rewrite Hc.
    destruct (decide (S to <= j < S to + k)%nat), (decide (to <= j < to + S k)%nat); try done; try lia.
    by replace (j - S to + S from)%nat with (j - to + from)%nat by lia.
Qed.

(** What has not been overwritten yet. *)
Lemma copied_outside f src l l' from to k j :
  copied f src l l' from to k -> (j < to \/ to + k <= j)%nat -> l' !! j = l !! j.
Proof. intros [_ Hc] Hj. rewrite Hc. by rewrite decide_False by lia. Qed.
End ArrayLemmas.

(** Rewrites the loop of the goal, whose body may be written differently. *)
Ltac rewrite_for Hl :=
  lazymatch type of Hl with ?loop = _ =>
    match goal with |- context [for_count ?n ?i ?d ?b ?x] => change (for_count n i d b x) with loop end
  end; rewrite Hl.

(** ** Moving a block *)

(** The elements from [s] to [e] (exclusive) taken out and put back so that
    they start at [t]. *)
Definition move_range {A} (s e t : nat) (l : list A) : list A :=
  let block := take (e - s) (drop s l) in
  let others := take s l ++ drop e l in
  take t others ++ block ++ drop t others.

(** Where the element at a place comes from, and where it goes to. *)
Definition move_source (s e t j : nat) : nat :=
  if decide (t <= j < t + (e - s))%nat then (j - t + s)%nat
  else let r := (if decide (j < t)%nat then j else j - (e - s))%nat in
       if decide (r < s)%nat then r else (r + (e - s))%nat.

Definition move_target (s e t p : nat) : nat :=
  if decide (s <= p < e)%nat then (p - s + t)%nat
  else let r := (if decide (p < s)%nat then p else p - (e - s))%nat in
       if decide (r < t)%nat then r else (r + (e - s))%nat.

Section MoveRange.
Context {A : Type}.
Implicit Types (l : list A).

Lemma length_move_range s e t l : (s <= e <= length l)%nat -> (t + (e - s) <= length l)%nat ->
  length (move_range s e t l) = length l.
Proof. intros. unfold move_range. rewrite !length_app, !length_take, !length_drop, !length_app, !length_take, !length_drop. lia. Qed.

Lemma lookup_others s e l r : (s <= e <= length l)%nat ->
  (take s l ++ drop e l) !! r = l !! (if decide (r < s)%nat then r else r + (e - s))%nat.
Proof.
  intros. destruct (decide (r < s)%nat).
  - rewrite lookup_app_l by (rewrite length_take; lia). by apply lookup_take_lt.
  - rewrite lookup_app_r by (rewrite length_take; lia). rewrite length_take, lookup_drop. f_equal. lia.
Qed.

Lemma lookup_move_range s e t l j : (s <= e <= length l)%nat -> (t + (e - s) <= length l)%nat ->
  move_range s e t l !! j = l !! move_source s e t j.
Proof.
  intros Hs Ht. unfold move_range, move_source. set (others := take s l ++ drop e l).
  assert (length others = length l - (e - s))%nat as Ho.
  { unfold others. rewrite length_app, length_take, length_drop. lia. }
  destruct (decide (j < t)%nat).
  - rewrite decide_False by lia. rewrite lookup_app_l by (rewrite length_take; lia).
    rewrite lookup_take_lt by done. by apply lookup_others.
  - rewrite lookup_app_r by (rewrite length_take; lia). rewrite length_take.
    replace (t `min` length others)%nat with t by lia.
    destruct (decide (t <= j < t + (e - s))%nat).
    + rewrite lookup_app_l by (rewrite length_take, length_drop; lia).
      rewrite lookup_take_lt by lia. rewrite lookup_drop. f_equal. lia.
    + rewrite lookup_app_r by (rewrite length_take, length_drop; lia).
      rewrite length_take, length_drop, lookup_drop.
      replace (t + (j - t - (e - s) `min` (length l - s)))%nat with (j - (e - s))%nat by lia.
      by apply lookup_others.
Qed.

Lemma move_source_target s e t p : (s <= e)%nat -> move_source s e t (move_target s e t p) = p.
Proof. intros. unfold move_source, move_target. repeat case_decide; lia. Qed.

Lemma move_target_source s e t j : (s <= e)%nat -> move_target s e t (move_source s e t j) = j.
Proof. intros. unfold move_source, move_target. repeat case_decide; lia. Qed.

Lemma move_target_lt s e t n p : (s <= e <= n)%nat -> (t + (e - s) <= n)%nat -> (p < n)%nat ->
  (move_target s e t p < n)%nat.
Proof. intros. unfold move_target. repeat case_decide; lia. Qed.

Lemma move_range_Permutation s e t l : (s <= e)%nat -> move_range s e t l ≡ₚ l.
Proof.
  intros. unfold move_range. set (block := take (e - s) (drop s l)).
  rewrite (Permutation_app_comm block), app_assoc, take_drop.
  rewrite <- app_assoc, (Permutation_app_comm (drop e l)).
  transitivity (take s l ++ drop s l); [|by rewrite take_drop]. f_equiv. unfold block.
  replace e with (s + (e - s))%nat at 2 by lia. by rewrite <- drop_drop, take_drop.
Qed.

Lemma move_range_fmap {B} (f : A -> B) s e t l : f <$> move_range s e t l = move_range s e t (f <$> l).
Proof. unfold move_range. by rewrite !fmap_app, !fmap_take, !fmap_drop, !fmap_app, !fmap_take, !fmap_drop. Qed.
End MoveRange.
