(* ===== verification/Queue.v ===== *)
(** The play queue: [src/queue/Queue.cxx], [src/queue/IdTable.hxx],
    [src/SingleMode.cxx], [src/ConsumeMode.cxx] and
    [src/util/LazyRandomEngine.cxx].

    The arrays [items] and [order] have [max_length] elements of which the
    first [length] are initialised; each is the list of those.  [None] is
    undefined behaviour: an access to an element that is not there, or a
    loop that leaves the array.  A [DetachedSong] is owned by one item, so
    it is a value here and its address is the [id] of its item.

    The engine behind [std::shuffle] and [std::uniform_int_distribution] is
    a parameter ([Random]). *)
From S2P Require Import Prelude Arrays Text Tags Audio Songs SortList StableSort.
Open Scope Z_scope.

(** ** SingleMode.cxx, ConsumeMode.cxx *)

Inductive SingleMode := SINGLE_OFF | SINGLE_ON | SINGLE_ONE_SHOT.
Inductive ConsumeMode := CONSUME_OFF | CONSUME_ON | CONSUME_ONE_SHOT.
#[export] Instance SingleMode_eq_dec : EqDecision SingleMode.
Proof. solve_decision. Defined.
#[export] Instance ConsumeMode_eq_dec : EqDecision ConsumeMode.
Proof. solve_decision. Defined.

Definition SingleToString (mode : SingleMode) : bytes :=
  match mode with
  | SINGLE_OFF => lit "0"
  | SINGLE_ON => lit "1"
  | SINGLE_ONE_SHOT => lit "oneshot"
  end.

Definition SingleFromString (s : bytes) : result SingleMode :=
  if s =b lit "0" then Ok SINGLE_OFF
  else if s =b lit "1" then Ok SINGLE_ON
  else if s =b lit "oneshot" then Ok SINGLE_ONE_SHOT
  else Throw (lit "Unrecognized single mode, expected 0, 1, or oneshot").

Definition ConsumeToString (mode : ConsumeMode) : bytes :=
  match mode with
  | CONSUME_OFF => lit "0"
  | CONSUME_ON => lit "1"
  | CONSUME_ONE_SHOT => lit "oneshot"
  end.

Definition ConsumeFromString (s : bytes) : result ConsumeMode :=
  if s =b lit "0" then Ok CONSUME_OFF
  else if s =b lit "1" then Ok CONSUME_ON
  else if s =b lit "oneshot" then Ok CONSUME_ONE_SHOT
  else Throw (lit "Unrecognized consume mode, expected 0, 1, or oneshot").

(** ** IdTable.hxx *)

(** [data] holds the [initialized] elements of the array; the one at 0 is
    allocated and never written. *)
Record IdTable := mkIdTable { t_size : Z; t_next : Z; t_data : list (option Z) }.

Definition IdTable_new (size : Z) : IdTable := mkIdTable size 1 [None].

Definition t_initialized (t : IdTable) : Z := Z.of_nat (length (t_data t)).

(** Reading an element that was never written is undefined. *)
Definition data_at (t : IdTable) (id : Z) : option Z := mjoin (arr_get (t_data t) id).

Definition IdTable_IdToPosition (t : IdTable) (id : Z) : option Z :=
  if id <? t_initialized t then data_at t id else Some (-1).

Fixpoint GenerateId_loop (fuel : nat) (t : IdTable) : option (Z * IdTable) :=
  match fuel with
  | O => None
  | S fuel =>
      let id := t_next t in
      let next := if u32 (id + 1) =? t_size t then 1 else u32 (id + 1) in
      if id =? t_initialized t then
        if id <? t_size t then Some (id, mkIdTable (t_size t) next (t_data t ++ [None])) else None
      else
        p ← data_at t id;
        if p <? 0 then Some (id, mkIdTable (t_size t) next (t_data t))
        else GenerateId_loop fuel (mkIdTable (t_size t) next (t_data t))
  end.

(** The loop visits every id at most once before it finds a free one. *)
Definition GenerateId (t : IdTable) : option (Z * IdTable) :=
  GenerateId_loop (S (Z.to_nat (t_size t))) t.

Definition t_assign (t : IdTable) (id position : Z) : option IdTable :=
  data ← arr_set (t_data t) id (Some position); Some (mkIdTable (t_size t) (t_next t) data).

Definition IdTable_Insert (t : IdTable) (position : Z) : option (Z * IdTable) :=
  '(id, t) ← GenerateId t; t ← t_assign t id position; Some (id, t).

Definition IdTable_Move (t : IdTable) (id position : Z) : option IdTable := t_assign t id position.
Definition IdTable_Erase (t : IdTable) (id : Z) : option IdTable := t_assign t id (-1).

(** ** LazyRandomEngine.cxx *)

Class Random := {
  Engine : Type;
  (** [std::mt19937] seeded by [std::random_device] *)
  seeded : Engine;
  (** [std::shuffle] of the values of a range *)
  std_shuffle : Engine -> list Z -> list Z * Engine;
  (** [std::uniform_int_distribution<unsigned>(a, b)] *)
  std_uniform : Engine -> Z -> Z -> Z * Engine
}.

Definition LazyRandomEngine `{Random} : Type := option Engine.

Definition AutoCreate `{Random} (r : LazyRandomEngine) : LazyRandomEngine :=
  match r with Some _ => r | None => Some seeded end.

(** ** Queue.hxx *)

Record Item := mkItem { i_song : DetachedSong; i_id : Z; i_version : Z; i_priority : Z }.

Definition set_item_version (v : Z) (i : Item) : Item := mkItem (i_song i) (i_id i) v (i_priority i).
Definition set_item_song (s : DetachedSong) (i : Item) : Item := mkItem s (i_id i) (i_version i) (i_priority i).
Definition set_item_priority (v p : Z) (i : Item) : Item := mkItem (i_song i) (i_id i) v p.

Section Queue.
Context `{Random}.

Record Queue := mkQueue {
  max_length : Z;
  version : Z;
  items : list Item;
  order : list Z;
  id_table : IdTable;
  repeat : bool;
  single : SingleMode;
  consume : ConsumeMode;
  random : bool;
  last_loaded_playlist : bytes;
  rand : LazyRandomEngine
}.

Definition HASH_MULT : Z := 4.

Definition Queue_new (max_length : Z) : Queue :=
  mkQueue max_length 1 [] [] (IdTable_new (u32 (max_length * HASH_MULT))) false SINGLE_OFF CONSUME_OFF false [] None.

Definition with_items (items : list Item) (q : Queue) : Queue :=
  mkQueue (max_length q) (version q) items (order q) (id_table q) (repeat q) (single q) (consume q) (random q)
    (last_loaded_playlist q) (rand q).
Definition with_order (order : list Z) (q : Queue) : Queue :=
  mkQueue (max_length q) (version q) (items q) order (id_table q) (repeat q) (single q) (consume q) (random q)
    (last_loaded_playlist q) (rand q).
Definition with_id_table (id_table : IdTable) (q : Queue) : Queue :=
  mkQueue (max_length q) (version q) (items q) (order q) id_table (repeat q) (single q) (consume q) (random q)
    (last_loaded_playlist q) (rand q).
Definition with_version (version : Z) (q : Queue) : Queue :=
  mkQueue (max_length q) version (items q) (order q) (id_table q) (repeat q) (single q) (consume q) (random q)
    (last_loaded_playlist q) (rand q).
Definition with_repeat (repeat : bool) (q : Queue) : Queue :=
  mkQueue (max_length q) (version q) (items q) (order q) (id_table q) repeat (single q) (consume q) (random q)
    (last_loaded_playlist q) (rand q).
Definition with_single (single : SingleMode) (q : Queue) : Queue :=
  mkQueue (max_length q) (version q) (items q) (order q) (id_table q) (repeat q) single (consume q) (random q)
    (last_loaded_playlist q) (rand q).
Definition with_consume (consume : ConsumeMode) (q : Queue) : Queue :=
  mkQueue (max_length q) (version q) (items q) (order q) (id_table q) (repeat q) (single q) consume (random q)
    (last_loaded_playlist q) (rand q).
Definition with_random (random : bool) (q : Queue) : Queue :=
  mkQueue (max_length q) (version q) (items q) (order q) (id_table q) (repeat q) (single q) (consume q) random
    (last_loaded_playlist q) (rand q).
Definition with_last_loaded_playlist (name : bytes) (q : Queue) : Queue :=
  mkQueue (max_length q) (version q) (items q) (order q) (id_table q) (repeat q) (single q) (consume q) (random q)
    name (rand q).
Definition with_rand (rand : LazyRandomEngine) (q : Queue) : Queue :=
  mkQueue (max_length q) (version q) (items q) (order q) (id_table q) (repeat q) (single q) (consume q) (random q)
    (last_loaded_playlist q) rand.

Definition GetLength (q : Queue) : Z := Z.of_nat (length (items q)).
Definition IsEmpty (q : Queue) : bool := GetLength q =? 0.
Definition IsFull (q : Queue) : bool := max_length q <=? GetLength q.
Definition IsValidPosition (q : Queue) (position : Z) : bool := position <? GetLength q.
Definition IsValidOrder (q : Queue) (o : Z) : bool := o <? GetLength q.

Definition IdToPosition (q : Queue) (id : Z) : option Z := IdTable_IdToPosition (id_table q) id.
Definition PositionToId (q : Queue) (position : Z) : option Z := i_id <$> arr_get (items q) position.
Definition OrderToPosition (q : Queue) (o : Z) : option Z := arr_get (order q) o.

(** The loop has no end but the element it looks for. *)
Fixpoint PositionToOrder_loop (order : list Z) (position i : Z) : option Z :=
  match order with
  | [] => None
  | o :: order => if o =? position then Some i else PositionToOrder_loop order position (i + 1)
  end.
Definition PositionToOrder (q : Queue) (position : Z) : option Z := PositionToOrder_loop (order q) position 0.

Definition GetPriorityAtPosition (q : Queue) (position : Z) : option Z := i_priority <$> arr_get (items q) position.
Definition GetOrderItem (q : Queue) (i : Z) : option Item := p ← OrderToPosition q i; arr_get (items q) p.
Definition GetOrderPriority (q : Queue) (i : Z) : option Z := i_priority <$> GetOrderItem q i.
Definition Get (q : Queue) (position : Z) : option DetachedSong := i_song <$> arr_get (items q) position.
Definition GetOrder (q : Queue) (o : Z) : option DetachedSong := p ← OrderToPosition q o; Get q p.

Definition IsNewerAtPosition (q : Queue) (position v : Z) : option bool :=
  it ← arr_get (items q) position;
  Some ((version q <? v) || (v <=? i_version it) || (i_version it =? 0)).

Definition ModifyAtPosition (q : Queue) (position : Z) : option Queue :=
  it ← arr_get (items q) position;
  items' ← arr_set (items q) position (set_item_version (version q) it);
  Some (with_items items' q).

Definition SwapOrders (q : Queue) (order1 order2 : Z) : option Queue :=
  o ← arr_swap (order q) order1 order2; Some (with_order o q).

(** [for (i = 0; i < length; ++i) order[i] = i] *)
Definition RestoreOrder (q : Queue) : option Queue :=
  o ← for_up 0 (GetLength q) (fun i o => arr_set o i i) (order q);
  Some (with_order o q).

Definition MoveItemTo (from to : Z) (q : Queue) : option Queue :=
  it ← arr_get (items q) from;
  items' ← arr_set (items q) to (set_item_version (version q) it);
  t ← IdTable_Move (id_table q) (i_id it) to;
  Some (with_id_table t (with_items items' q)).

(** ** Queue.cxx *)

Definition GetLight (q : Queue) (position : Z) : option LightSong :=
  song ← Get q position;
  priority ← GetPriorityAtPosition q position;
  let s := LightSong_of_detached song in
  Some (mkLightSong (l_directory s) (l_uri s) (l_real_uri s) (l_tag s) (l_mtime s) (l_added s) (l_start_time s)
    (l_end_time s) (l_audio_format s) priority).

(** The order number that follows in the current mode, -1 for none. *)
Definition order_after (q : Queue) (o : Z) : Z :=
  if negb (bool_decide (single q = SINGLE_OFF)) && repeat q && bool_decide (consume q = CONSUME_OFF) then o
  else if o + 1 <? GetLength q then o + 1
  else if repeat q && ((0 <? o) || bool_decide (consume q = CONSUME_OFF)) then 0
  else -1.

(** [assert(_order < length)], [_order] is unsigned. *)
Definition GetNextOrder (q : Queue) (o : Z) : option Z :=
  if (0 <=? o) && (o <? GetLength q) then Some (order_after q o) else None.

Definition max_version : Z := 2 ^ 31 - 1.

Definition IncrementVersion (q : Queue) : Queue :=
  let q := with_version (u32 (version q + 1)) q in
  if max_version <=? version q
  then with_version 1 (with_items (set_item_version 0 <$> items q) q)
  else q.

Definition ModifyAtOrder (q : Queue) (o : Z) : option Queue :=
  position ← arr_get (order q) o; ModifyAtPosition q position.

(** The id of the new item, and the queue. *)
Definition Append (q : Queue) (song : DetachedSong) (priority : Z) : option (Z * Queue) :=
  let position := GetLength q in
  if max_length q <=? position then None
  else
    '(id, t) ← IdTable_Insert (id_table q) position;
    Some (id, with_order (order q ++ [position]) (with_id_table t
      (with_items (items q ++ [mkItem song id (version q) priority]) q))).

Definition SwapPositions (q : Queue) (position1 position2 : Z) : option Queue :=
  id1 ← PositionToId q position1;
  id2 ← PositionToId q position2;
  l ← arr_swap (items q) position1 position2;
  a ← arr_get l position1;
  l ← arr_set l position1 (set_item_version (version q) a);
  b ← arr_get l position2;
  l ← arr_set l position2 (set_item_version (version q) b);
  t ← IdTable_Move (id_table q) id1 position2;
  t ← IdTable_Move t id2 position1;
  Some (with_id_table t (with_items l q)).

(** A loop over all [order] numbers that changes each of them. *)
Definition map_order (f : Z -> Z) (q : Queue) : option Queue :=
  o ← for_up 0 (GetLength q) (fun i o => x ← arr_get o i; arr_set o i (f x)) (order q);
  Some (with_order o q).

Definition MovePostion (q : Queue) (from to : Z) : option Queue :=
  tmp ← arr_get (items q) from;
  q ← for_up from to (fun i q => MoveItemTo (u32 (i + 1)) i q) q;
  q ← for_down from to (fun i q => MoveItemTo (u32 (i - 1)) i q) q;
  t ← IdTable_Move (id_table q) (i_id tmp) to;
  l ← arr_set (items q) to (set_item_version (version q) tmp);
  let q := with_items l (with_id_table t q) in
  if random q then
    map_order (fun o =>
      if (from <? o) && (o <=? to) then u32 (o - 1)
      else if (o <? from) && (to <=? o) then u32 (o + 1)
      else if from =? o then to
      else o) q
  else Some q.

(** [tmp[i - start] = items[i]] for the whole block. *)
Fixpoint copy_block (l : list Item) (i : Z) (n : nat) : option (list Item) :=
  match n with
  | O => Some []
  | S n => x ← arr_get l i; tmp ← copy_block l (i + 1) n; Some (x :: tmp)
  end.

Definition MoveRange (q : Queue) (start end_ to : Z) : option Queue :=
  tmp ← copy_block (items q) start (Z.to_nat (end_ - start));
  q ← for_up end_ (u32 (end_ + to - start)) (fun i q => MoveItemTo i (u32 (start + i - end_)) q) q;
  q ← for_down (s32 (start - 1)) (s32 to - 1) (fun i q => MoveItemTo (u32 i) (u32 (i + end_ - start)) q) q;
  q ← for_up start end_ (fun i q =>
    it ← arr_get tmp (u32 (i - start));
    t ← IdTable_Move (id_table q) (i_id it) (u32 (to + i - start));
    l ← arr_set (items q) (u32 (to + i - start)) (set_item_version (version q) it);
    Some (with_items l (with_id_table t q))) q;
  if random q then
    map_order (fun o =>
      if (end_ <=? o) && (o <? u32 (to + end_ - start)) then u32 (o - (end_ - start))
      else if (o <? start) && (to <=? o) then u32 (o + (end_ - start))
      else if (start <=? o) && (o <? end_) then u32 (o + (to - start))
      else o) q
  else Some q.

(** The new order number ([to_order]) and the queue. *)
Definition MoveOrder (q : Queue) (from_order to_order : Z) : option (Z * Queue) :=
  from_position ← OrderToPosition q from_order;
  o ← (if from_order <? to_order
       then for_up from_order to_order (fun i o => x ← arr_get o (u32 (i + 1)); arr_set o i x) (order q)
       else for_down from_order to_order (fun i o => x ← arr_get o (u32 (i - 1)); arr_set o i x) (order q));
  o ← arr_set o to_order from_position;
  Some (to_order, with_order o q).

Definition MoveOrderBefore (q : Queue) (from_order to_order : Z) : option (Z * Queue) :=
  MoveOrder q from_order (u32 (to_order - Z.b2z (from_order <? to_order))).

Definition MoveOrderAfter (q : Queue) (from_order to_order : Z) : option (Z * Queue) :=
  MoveOrder q from_order (u32 (to_order + Z.b2z (to_order <? from_order))).

(** [--length] drops the last elements of both arrays; they are read by the
    loops before. *)
Definition DeletePosition (q : Queue) (position : Z) : option Queue :=
  id ← PositionToId q position;
  o ← PositionToOrder q position;
  let length' := GetLength q - 1 in
  t ← IdTable_Erase (id_table q) id;
  q ← for_up position length' (fun i q => MoveItemTo (u32 (i + 1)) i q) (with_id_table t q);
  order' ← for_up o length' (fun i o => x ← arr_get o (u32 (i + 1)); arr_set o i x) (order q);
  let q := with_order (take (Z.to_nat length') order') (with_items (take (Z.to_nat length') (items q)) q) in
  map_order (fun x => if position <? x then x - 1 else x) q.

Definition Clear (q : Queue) : option Queue :=
  t ← for_up 0 (GetLength q) (fun i t => it ← arr_get (items q) i; IdTable_Erase t (i_id it)) (id_table q);
  Some (with_last_loaded_playlist [] (with_order [] (with_items [] (with_id_table t q)))).

(** ** Random order *)

(** The part of an array between two pointers. *)
Definition range_of {A} (start end_ : Z) (l : list A) : list A :=
  take (Z.to_nat (end_ - start)) (drop (Z.to_nat start) l).
Definition set_range {A} (start end_ : Z) (block l : list A) : list A :=
  take (Z.to_nat start) l ++ block ++ drop (Z.to_nat end_) l.
Definition range_ok {A} (start end_ : Z) (l : list A) : bool :=
  (0 <=? start) && (start <=? end_) && (end_ <=? Z.of_nat (length l)).

(** The comparison of positions by the priority of their items. *)
Definition higher_priority (q : Queue) (a_pos b_pos : Z) : bool :=
  match arr_get (items q) a_pos, arr_get (items q) b_pos with
  | Some a, Some b => i_priority b <? i_priority a
  | _, _ => false
  end.

Definition queue_sort_order_by_priority (q : Queue) (start end_ : Z) : option Queue :=
  if range_ok start end_ (order q) then
    Some (with_order (set_range start end_ (stable_sort (higher_priority q) (range_of start end_ (order q))) (order q)) q)
  else None.

Definition ShuffleOrderRange (q : Queue) (start end_ : Z) : option Queue :=
  r ← AutoCreate (rand q);
  if range_ok start end_ (order q) then
    let '(block, r) := std_shuffle r (range_of start end_ (order q)) in
    Some (with_rand (Some r) (with_order (set_range start end_ block (order q)) q))
  else None.

(** [group_start] and [group_priority] with the queue. *)
Definition shuffle_group (i : Z) (st : Z * Z * Queue) : option (Z * Z * Queue) :=
  let '(group_start, group_priority, q) := st in
  priority ← GetOrderPriority q i;
  if priority =? group_priority then Some st
  else q ← ShuffleOrderRange q group_start i; Some (i, priority, q).

Definition ShuffleOrderRangeWithPriority (q : Queue) (start end_ : Z) : option Queue :=
  if start =? end_ then Some q
  else
    q ← queue_sort_order_by_priority q start end_;
    group_priority ← GetOrderPriority q start;
    '(group_start, _, q) ← for_up (u32 (start + 1)) end_ shuffle_group (start, group_priority, q);
    ShuffleOrderRange q group_start end_.

Definition ShuffleOrder (q : Queue) : option Queue := ShuffleOrderRangeWithPriority q 0 (GetLength q).

(** The distribution is undefined for an empty range. *)
Definition uniform (start end_ : Z) (q : Queue) : option (Z * Queue) :=
  r ← AutoCreate (rand q);
  if start <=? end_ then let '(x, r) := std_uniform r start end_ in Some (x, with_rand (Some r) q) else None.

Definition ShuffleOrderFirst (q : Queue) (start end_ : Z) : option Queue :=
  '(x, q) ← uniform start (u32 (end_ - 1)) q; SwapOrders q start x.

(** [while (priority of order[start] != last_priority) ++start] *)
Fixpoint skip_other_priorities (n : nat) (q : Queue) (start last_priority : Z) : option Z :=
  match n with
  | O => None
  | S n =>
      priority ← GetOrderPriority q start;
      if priority =? last_priority then Some start else skip_other_priorities n q (start + 1) last_priority
  end.

Definition ShuffleOrderLastWithPriority (q : Queue) (start end_ : Z) : option Queue :=
  last_priority ← GetOrderPriority q (u32 (end_ - 1));
  start ← skip_other_priorities (S (length (order q))) q start last_priority;
  '(x, q) ← uniform start (u32 (end_ - 1)) q;
  SwapOrders q (u32 (end_ - 1)) x.

Definition ShuffleRange (q : Queue) (start end_ : Z) : option Queue :=
  for_up start end_ (fun i q => '(ri, q) ← uniform start (u32 (end_ - 1)) q; SwapPositions q i ri)
    (with_rand (AutoCreate (rand q)) q).

(** ** Priorities *)

Fixpoint FindPriorityOrder_loop (q : Queue) (n : nat) (i priority exclude_order : Z) : option Z :=
  match n with
  | O => Some (GetLength q)
  | S n =>
      it ← GetOrderItem q i;
      if (i_priority it <=? priority) && negb (i =? exclude_order) then Some i
      else FindPriorityOrder_loop q n (i + 1) priority exclude_order
  end.
Definition FindPriorityOrder (q : Queue) (start_order priority exclude_order : Z) : option Z :=
  FindPriorityOrder_loop q (Z.to_nat (GetLength q - start_order)) start_order priority exclude_order.

Fixpoint CountSamePriority_loop (q : Queue) (n : nat) (i start_order priority : Z) : option Z :=
  match n with
  | O => Some (u32 (GetLength q - start_order))
  | S n =>
      it ← GetOrderItem q i;
      if negb (i_priority it =? priority) then Some (i - start_order)
      else CountSamePriority_loop q n (i + 1) start_order priority
  end.
Definition CountSamePriority (q : Queue) (start_order priority : Z) : option Z :=
  CountSamePriority_loop q (Z.to_nat (GetLength q - start_order)) start_order start_order priority.

(** Whether a song that was played already is to be played again. *)
Definition raised_above (q : Queue) (o priority old_priority after_order : Z) : option bool :=
  if o <? u32 after_order then
    after_item ← GetOrderItem q after_order;
    Some (negb ((priority <=? old_priority) || (priority <=? i_priority after_item)))
  else Some true.

Definition reorder_priority (q : Queue) (o priority after_order : Z) : option Queue :=
  before_order ← FindPriorityOrder q (u32 (after_order + 1)) priority o;
  let new_order := if o <? before_order then before_order - 1 else before_order in
  '(_, q) ← MoveOrder q o new_order;
  priority_count ← CountSamePriority q new_order priority;
  ShuffleOrderFirst q new_order (u32 (new_order + priority_count)).

(** Whether the priority was changed, and the queue. *)
Definition SetPriority (q : Queue) (position priority after_order : Z) (reorder : bool) : option (bool * Queue) :=
  it ← arr_get (items q) position;
  let old_priority := i_priority it in
  if old_priority =? priority then Some (false, q)
  else
    l ← arr_set (items q) position (set_item_priority (version q) priority it);
    let q := with_items l q in
    if negb (random q) || negb reorder then Some (true, q)
    else
      o ← PositionToOrder q position;
      move ← (if 0 <=? after_order then
                if o =? u32 after_order then Some false
                else raised_above q o priority old_priority after_order
              else Some true);
      if (move : bool) then q ← reorder_priority q o priority after_order; Some (true, q)
      else Some (true, q).

Definition SetPriorityRange (q : Queue) (start_position end_position priority after_order : Z) : option (bool * Queue) :=
  after_position ← (if 0 <=? after_order then OrderToPosition q after_order else Some (-1));
  for_up start_position end_position (fun i '(modified, q) =>
    after_order ← (if 0 <=? after_position then PositionToOrder q after_position else Some (-1));
    '(m, q) ← SetPriority q i priority after_order true;
    Some (modified || m, q)) (false, q).
End Queue.
