(* ===== verification/QueueWf.v ===== *)
(** The invariant of the play queue ([queue_ok]) and what each operation of
    [Queue] does to the songs and to the order in which they are played. *)
From S2P Require Import Prelude Arrays Text Tags Audio Songs SortList StableSort Queue.
Open Scope Z_scope.

(** ** The table of ids *)

Lemma data_at_nat t n : data_at t (Z.of_nat n) = mjoin (t_data t !! n).
Proof. unfold data_at. by rewrite arr_get_nat. Qed.

Lemma data_at_neg t id : id < 0 -> data_at t id = None.
Proof. intros Hid. unfold data_at, arr_get. by destruct (Z.ltb_spec id 0); [|lia]. Qed.

(** Everything but the positions. *)
Definition t_same (t t' : IdTable) : Prop :=
  t_size t' = t_size t /\ t_next t' = t_next t /\ t_initialized t' = t_initialized t.

Lemma t_same_trans t t' t'' : t_same t t' -> t_same t' t'' -> t_same t t''.
Proof. unfold t_same. intuition congruence. Qed.

Lemma t_assign_spec t id p : 0 <= id < t_initialized t ->
  exists t', t_assign t id p = Some t' /\ t_same t t' /\
    forall x, data_at t' x = if decide (x = id) then Some p else data_at t x.
Proof.
  intros Hid. unfold t_assign. destruct (Z_of_nat_complete id ltac:(lia)) as [n ->].
  unfold t_initialized in Hid. rewrite arr_set_nat by lia. cbn.
  eexists. split; [done|]. split; [unfold t_same, t_initialized; cbn; by rewrite length_insert|].
  intros x. destruct (Z.ltb_spec x 0) as [Hx|Hx].
  { rewrite !data_at_neg by done. rewrite decide_False by lia. done. }
  destruct (Z_of_nat_complete x Hx) as [m ->]. rewrite !data_at_nat. cbn [t_data].
  destruct (decide (Z.of_nat m = Z.of_nat n)) as [E|E].
  - apply Nat2Z.inj in E as ->. rewrite list_lookup_insert_eq by lia. done.
  - rewrite list_lookup_insert_ne by (intros ->; done). done.
Qed.

Lemma data_at_range t id p : data_at t id = Some p -> 0 <= id < t_initialized t.
Proof.
  unfold data_at. intros Hd. destruct (arr_get (t_data t) id) as [c|] eqn:E; [|done].
  apply arr_get_Some in E as (n & -> & Hn). apply lookup_lt_Some in Hn. unfold t_initialized. lia.
Qed.

Definition ids (l : list Item) : list Z := i_id <$> l.

(** Every item is found at its position. *)
Definition found (l : list Item) (t : IdTable) : Prop :=
  forall (i : nat) it, l !! i = Some it -> data_at t (i_id it) = Some (Z.of_nat i).

Record table_ok (l : list Item) (t : IdTable) : Prop := {
  table_found : found l t;
  table_used : forall id p, data_at t id = Some p -> 0 <= p -> id ∈ ids l;
  table_init : forall id, 1 <= id < t_initialized t -> is_Some (data_at t id);
  table_ids : Forall (fun it => 1 <= i_id it) l;
  table_next : 1 <= t_next t /\ t_next t < t_size t /\ t_next t <= t_initialized t;
  table_size : 2 <= t_size t < 2 ^ 32 /\ t_initialized t <= t_size t
}.

Lemma found_inj l t (i j : nat) a b : found l t -> l !! i = Some a -> l !! j = Some b -> i_id a = i_id b -> i = j.
Proof. intros Hf Ha Hb E. pose proof (Hf i a Ha) as H1. pose proof (Hf j b Hb) as H2. rewrite E, H2 in H1. naive_solver lia. Qed.

Lemma found_NoDup l t : found l t -> NoDup (ids l).
Proof.
  intros Hf. apply NoDup_alt. intros i j x Hi Hj. unfold ids in *.
  apply list_lookup_fmap_Some in Hi as (a & -> & Ha). apply list_lookup_fmap_Some in Hj as (b & E & Hb).
  by apply (found_inj l t i j a b).
Qed.

Lemma found_initialized l t (i : nat) it : found l t -> l !! i = Some it -> 0 <= i_id it < t_initialized t.
Proof. intros Hf Hi. by apply (data_at_range t _ _ (Hf i it Hi)). Qed.

Lemma elem_of_ids l id : id ∈ ids l <-> exists (i : nat) it, l !! i = Some it /\ i_id it = id.
Proof.
  unfold ids. rewrite list_elem_of_lookup. split.
  - intros (i & Hi). apply list_lookup_fmap_Some in Hi as (it & -> & Hi). by exists i, it.
  - intros (i & it & Hi & <-). exists i. by rewrite list_lookup_fmap, Hi.
Qed.

(** Positions are assigned anew, to the items of a permuted list. *)
Lemma table_ok_moved l l' t t' : table_ok l t -> t_same t t' -> ids l' ≡ₚ ids l -> found l' t' ->
  (forall x, x ∉ ids l -> data_at t' x = data_at t x) -> table_ok l' t'.
Proof.
  intros [Hf Hu Hi Hids Hn Hs] (E1 & E2 & E3) Hp Hf' Hx. split; [done| | | | |].
  - intros id p Hd Hp0. destruct (decide (id ∈ ids l)); [by rewrite Hp|].
    rewrite Hx in Hd by done. rewrite Hp. by apply (Hu id p).
  - intros id Hid. rewrite E3 in Hid. destruct (decide (id ∈ ids l)) as [Hin|Hin].
    + rewrite <- Hp in Hin. apply elem_of_ids in Hin as (i & it & Hl & <-). eexists. by apply (Hf' i).
    + rewrite Hx by done. by apply Hi.
  - change (Forall ((fun x => 1 <= x) ∘ i_id) l'). apply Forall_fmap. fold (ids l'). rewrite Hp. by apply Forall_fmap.
  - lia.
  - lia.
Qed.

(** ** Moving items *)

(** The ids of the [k] items of [src] from [from] are assigned the
    positions from [to]. *)
Definition moved (src : list Item) (t t' : IdTable) (from to k : nat) : Prop :=
  t_same t t' /\
  (forall (i : nat) it, (i < k)%nat -> src !! (from + i)%nat = Some it -> data_at t' (i_id it) = Some (Z.of_nat (to + i))) /\
  (forall x, (forall (i : nat) it, (i < k)%nat -> src !! (from + i)%nat = Some it -> i_id it <> x) -> data_at t' x = data_at t x).

Lemma moved_0 src t from to : moved src t t from to 0.
Proof. split; [by repeat split|]. split; [intros; lia|done]. Qed.

Lemma moved_up src t t' from to k it (t0 : IdTable) : found src t0 -> moved src t t' from to k ->
  t_initialized t = t_initialized t0 ->
  src !! (from + k)%nat = Some it ->
  exists t'', t_assign t' (i_id it) (Z.of_nat (to + k)) = Some t'' /\ moved src t t'' from to (S k).
Proof.
  intros Hf (Hs & Hm & Ho) Hini Hit.
  pose proof (found_initialized _ _ _ _ Hf Hit) as Hr.
  destruct (t_assign_spec t' (i_id it) (Z.of_nat (to + k))) as (t'' & Ha & Hs' & Hd).
  { destruct Hs as (_ & _ & ->). by rewrite Hini. }
  exists t''. split; [done|]. split; [by apply (t_same_trans t t')|]. split.
  - intros i it' Hi Hit'. rewrite Hd. destruct (decide (i_id it' = i_id it)) as [E|E].
    + pose proof (found_inj _ _ _ _ _ _ Hf Hit' Hit E). f_equal. lia.
    + apply Hm; [|done]. destruct (decide (i = k)) as [->|]; [congruence|lia].
  - intros x Hx. rewrite Hd. rewrite decide_False by (intros ->; by apply (Hx k it ltac:(lia) Hit)).
    apply Ho. intros i it' Hi Hit'. apply (Hx i it'); [lia|done].
Qed.

Lemma moved_down src t t' from to k it (t0 : IdTable) : found src t0 -> moved src t t' (S from) (S to) k ->
  t_initialized t = t_initialized t0 ->
  src !! from = Some it ->
  exists t'', t_assign t' (i_id it) (Z.of_nat to) = Some t'' /\ moved src t t'' from to (S k).
Proof.
  intros Hf (Hs & Hm & Ho) Hini Hit.
  pose proof (found_initialized _ _ _ _ Hf Hit) as Hr.
  destruct (t_assign_spec t' (i_id it) (Z.of_nat to)) as (t'' & Ha & Hs' & Hd).
  { destruct Hs as (_ & _ & ->). by rewrite Hini. }
  exists t''. split; [done|]. split; [by apply (t_same_trans t t')|]. split.
  - intros i it' Hi Hit'. rewrite Hd. destruct (decide (i_id it' = i_id it)) as [E|E].
    + pose proof (found_inj _ _ _ _ _ _ Hf Hit' Hit E). f_equal. lia.
    + destruct i as [|i]; [rewrite Nat.add_0_r, Hit in Hit'; congruence|].
      replace (to + S i)%nat with (S to + i)%nat by lia. apply Hm; [lia|].
      by replace (S from + i)%nat with (from + S i)%nat by lia.
  - intros x Hx. rewrite Hd. rewrite decide_False by (intros ->; apply (Hx O it ltac:(lia)); [by rewrite Nat.add_0_r|done]).
    apply Ho. intros i it' Hi Hit'. apply (Hx (S i) it'); [lia|]. by replace (from + S i)%nat with (S from + i)%nat by lia.
Qed.

Section Moves.
Context `{Random}.
Implicit Types (q : Queue) (from to k : nat).

Definition with_both (l : list Item) (t : IdTable) (q : Queue) : Queue := with_id_table t (with_items l q).

Lemma MoveItemTo_step q from to it t : items q !! from = Some it -> (to < length (items q))%nat ->
  t_assign (id_table q) (i_id it) (Z.of_nat to) = Some t ->
  MoveItemTo (Z.of_nat from) (Z.of_nat to) q = Some (with_both (<[to := set_item_version (version q) it]> (items q)) t q).
Proof. intros Hit Hto Ht. unfold MoveItemTo. rewrite arr_get_nat, Hit. cbn. rewrite arr_set_nat by done. cbn. unfold IdTable_Move. by rewrite Ht. Qed.

(** The two directions of the copying loops. *)
Lemma move_up_loop q (t0 : IdTable) from to k i body :
  (forall n q', (n < k)%nat -> body (i + Z.of_nat n) q' = MoveItemTo (Z.of_nat (from + n)) (Z.of_nat (to + n)) q') ->
  (to < from)%nat -> (from + k <= length (items q))%nat ->
  found (items q) t0 -> t_initialized (id_table q) = t_initialized t0 ->
  exists l t, for_count k i 1 body q = Some (with_both l t q) /\
    copied (set_item_version (version q)) (items q) (items q) l from to k /\ moved (items q) (id_table q) t from to k.
Proof.
  intros Hbody Hlt Hk Hf Hini.
  destruct (for_count_rule (fun n q' => exists l t, q' = with_both l t q /\
    copied (set_item_version (version q)) (items q) (items q) l from to n /\
    moved (items q) (id_table q) t from to n) k i 1 body q) as (q' & Hq & l & t & -> & Hc & Hm); [| |by exists l, t].
  - exists (items q), (id_table q). split; [by destruct q|]. split; [apply copied_0|apply moved_0].
  - intros n q' Hn (l & t & -> & Hc & Hm).
    destruct (lookup_lt_is_Some_2 (items q) (from + n) ltac:(lia)) as [it Hit].
    destruct (moved_up _ _ _ _ _ _ _ _ Hf Hm Hini Hit) as (t' & Ht & Hm').
    eexists. split; [|exists (<[(to + n)%nat := set_item_version (version q) it]> l), t'; split; [reflexivity|]; split;
      [by apply copied_up; [..|lia]|done]].
    rewrite Z.mul_1_l, Hbody by done.
    rewrite (MoveItemTo_step _ _ _ it t'); [done| | |done].
    + cbn. rewrite (copied_outside _ _ _ _ _ _ _ _ Hc) by lia. done.
    + cbn. destruct Hc as [-> _]. lia.
Qed.

Lemma move_down_loop q (t0 : IdTable) from to k i body :
  (forall n q', (n < k)%nat -> body (i - Z.of_nat n) q' =
    MoveItemTo (Z.of_nat (from + (k - S n))) (Z.of_nat (to + (k - S n))) q') ->
  (from < to)%nat -> (to + k <= length (items q))%nat ->
  found (items q) t0 -> t_initialized (id_table q) = t_initialized t0 ->
  exists l t, for_count k i (-1) body q = Some (with_both l t q) /\
    copied (set_item_version (version q)) (items q) (items q) l from to k /\ moved (items q) (id_table q) t from to k.
Proof.
  intros Hbody Hlt Hk Hf Hini.
  destruct (for_count_rule (fun n q' => exists l t, q' = with_both l t q /\
    copied (set_item_version (version q)) (items q) (items q) l (from + (k - n)) (to + (k - n)) n /\
    moved (items q) (id_table q) t (from + (k - n)) (to + (k - n)) n) k i (-1) body q) as (q' & Hq & l & t & -> & Hc & Hm).
  - exists (items q), (id_table q). split; [by destruct q|]. split; [apply copied_0|apply moved_0].
  - intros n q' Hn (l & t & -> & Hc & Hm).
    replace (from + (k - n))%nat with (S (from + (k - S n))) in Hc, Hm by lia.
    replace (to + (k - n))%nat with (S (to + (k - S n))) in Hc, Hm by lia.
    destruct (lookup_lt_is_Some_2 (items q) (from + (k - S n)) ltac:(lia)) as [it Hit].
    destruct (moved_down _ _ _ _ _ _ _ _ Hf Hm Hini Hit) as (t' & Ht & Hm').
    eexists. split; [|exists (<[(to + (k - S n))%nat := set_item_version (version q) it]> l), t'; split; [reflexivity|]; split;
      [by apply copied_down; [..|lia]|done]].
    replace (i + -1 * Z.of_nat n) with (i - Z.of_nat n) by lia. rewrite Hbody by done.
    rewrite (MoveItemTo_step _ _ _ it t'); [done| | |done].
    + cbn. rewrite (copied_outside _ _ _ _ _ _ _ _ Hc) by lia. done.
    + cbn. destruct Hc as [-> _]. lia.
  - rewrite Nat.sub_diag, !Nat.add_0_r in Hc, Hm. by exists l, t.
Qed.

(** ** Moving a block of items *)

Lemma copy_block_eq (l : list Item) (i n : nat) : (i + n <= length l)%nat ->
  copy_block l (Z.of_nat i) n = Some (take n (drop i l)).
Proof.
  revert i. induction n as [|n IH]; intros i Hi; [done|]. cbn [copy_block]. rewrite arr_get_nat.
  destruct (lookup_lt_is_Some_2 l i ltac:(lia)) as [x Hx]. rewrite Hx. cbn.
  replace (Z.of_nat i + 1) with (Z.of_nat (S i)) by lia. rewrite IH by lia. cbn.
  by rewrite (drop_S l x i Hx).
Qed.

(** The songs of a list of items, whatever their version numbers. *)
Definition track (it : Item) : Z * DetachedSong * Z := (i_id it, i_song it, i_priority it).

(** What has changed has the version [v]. *)
Definition marked (v : Z) (l0 l : list Item) : Prop :=
  forall (j : nat) it, l !! j = Some it -> i_version it = v \/ l0 !! j = Some it.

Lemma put_block_loop q (q1 : Queue) l1 t1 (t0 : IdTable) from to k i body :
  q1 = with_both l1 t1 q -> length l1 = length (items q) ->
  (forall n it q', (n < k)%nat -> items q !! (from + n)%nat = Some it -> version q' = version q ->
    body (i + Z.of_nat n) q' = t ← IdTable_Move (id_table q') (i_id it) (Z.of_nat (to + n));
      l ← arr_set (items q') (Z.of_nat (to + n)) (set_item_version (version q) it);
      Some (with_items l (with_id_table t q'))) ->
  (from + k <= length (items q))%nat -> (to + k <= length (items q))%nat ->
  found (items q) t0 -> t_initialized t1 = t_initialized t0 ->
  exists l t, for_count k i 1 body q1 = Some (with_both l t q) /\
    copied (set_item_version (version q)) (items q) l1 l from to k /\ moved (items q) t1 t from to k.
Proof.
  intros -> Hlen Hbody Hfrom Hto Hf Hini.
  destruct (for_count_rule (fun n q' => exists l t, q' = with_both l t q /\
    copied (set_item_version (version q)) (items q) l1 l from to n /\
    moved (items q) t1 t from to n) k i 1 body (with_both l1 t1 q)) as (q' & Hq & l & t & -> & Hc & Hm); [| |by exists l, t].
  - exists l1, t1. split; [done|]. split; [apply copied_0|apply moved_0].
  - intros n q' Hn (l & t & -> & Hc & Hm).
    destruct (lookup_lt_is_Some_2 (items q) (from + n) ltac:(lia)) as [it Hit].
    destruct (moved_up _ _ _ _ _ _ _ _ Hf Hm Hini Hit) as (t' & Ht & Hm').
    eexists. split; [|exists (<[(to + n)%nat := set_item_version (version q) it]> l), t'; split; [reflexivity|]; split;
      [by apply copied_up; [..|lia]|done]].
    rewrite Z.mul_1_l, (Hbody n it) by done. unfold IdTable_Move. cbn [id_table with_both with_id_table with_items].
    rewrite Ht. cbn. rewrite arr_set_nat by (destruct Hc as [-> _]; lia). done.
Qed.

(** What the loops of [MovePostion] and [MoveRange] leave. *)
Definition block_moved q (s e t : nat) (l : list Item) (tb : IdTable) : Prop :=
  track <$> l = move_range s e t (track <$> items q) /\ marked (version q) (items q) l /\
  t_same (id_table q) tb /\ found l tb /\ (forall x, x ∉ ids (items q) -> data_at tb x = data_at (id_table q) x).

Lemma block_moved_intro q s e t l1 t1 l tb (f := set_item_version (version q)) :
  (s < e <= length (items q))%nat -> (t + (e - s) <= length (items q))%nat ->
  found (items q) (id_table q) ->
  ((s <= t)%nat /\ copied f (items q) (items q) l1 e s (t - s) /\ moved (items q) (id_table q) t1 e s (t - s) \/
   (t < s)%nat /\ copied f (items q) (items q) l1 t (t + (e - s)) (s - t) /\
     moved (items q) (id_table q) t1 t (t + (e - s)) (s - t)) ->
  copied f (items q) l1 l s t (e - s) -> moved (items q) t1 tb s t (e - s) ->
  block_moved q s e t l tb.
Proof.
  intros Hs Ht Hf Hcase [Hlen Hc] (Hsame & Hm & Ho).
  assert (t_same (id_table q) t1) as Hsame1 by (by destruct Hcase as [(_ & _ & ? & _)|(_ & _ & ? & _)]).
  assert (length l1 = length (items q)) as Hlen1 by (by destruct Hcase as [(_ & [? _] & _)|(_ & [? _] & _)]).
  assert (forall j, exists b : bool, l !! j = (if b then f else fun x => x) <$> items q !! move_source s e t j /\
    (b = false -> move_source s e t j = j)) as Hl.
  { intros j. rewrite Hc. unfold move_source. destruct (decide (t <= j < t + (e - s))%nat); [by exists true|].
    destruct Hcase as [(Hle & [_ Hc1] & _)|(Hlt & [_ Hc1] & _)]; rewrite Hc1; case_decide.
    - exists true. split; [|done]. rewrite (decide_True (P := (j < t)%nat)), decide_False by lia. do 2 f_equal. lia.
    - exists false. assert (move_source s e t j = j) as E by (unfold move_source; repeat case_decide; lia).
      unfold move_source in E. rewrite (decide_False (P := (t <= j < t + (e - s))%nat)) in E by lia. rewrite E.
      split; [|done]. by destruct (items q !! j).
    - exists true. split; [|done]. rewrite (decide_False (P := (j < t)%nat)), decide_True by lia. do 2 f_equal. lia.
    - exists false. assert (move_source s e t j = j) as E by (unfold move_source; repeat case_decide; lia).
      unfold move_source in E. rewrite (decide_False (P := (t <= j < t + (e - s))%nat)) in E by lia. rewrite E.
      split; [|done]. by destruct (items q !! j). }
  split; [|split; [|split; [|split]]].
  - apply list_eq. intros j. rewrite lookup_move_range, !list_lookup_fmap by (rewrite length_fmap; lia).
    destruct (Hl j) as (b & -> & _). destruct (items q !! _); [|done]. by destruct b.
  - intros j it Hj. destruct (Hl j) as ([] & E & Hb); rewrite E in Hj.
    + apply fmap_Some in Hj as (it0 & _ & ->). by left.
    + rewrite Hb in Hj by done. right. by destruct (items q !! j).
  - by apply (t_same_trans _ t1).
  - intros j it Hj. destruct (Hl j) as (b & E & _). rewrite E in Hj. apply fmap_Some in Hj as (it0 & Hit0 & ->).
    assert (i_id ((if b then f else fun x => x) it0) = i_id it0) as -> by (by destruct b).
    set (p := move_source s e t j) in *.
    assert (move_target s e t p = j) as Hj by (by apply move_target_source; lia).
    destruct (decide (s <= p < e)%nat) as [Hin|Hout].
    + replace p with (s + (p - s))%nat in Hit0 by lia. rewrite (Hm (p - s)%nat it0) by (lia || done).
      do 2 f_equal. unfold move_target in Hj. rewrite decide_True in Hj by lia. lia.
    + rewrite Ho; [|intros i it' Hi Hit' E'; pose proof (found_inj _ _ _ _ _ _ Hf Hit' Hit0 E'); lia].
      destruct Hcase as [(Hle & _ & (_ & Hm1 & Ho1))|(Hlt & _ & (_ & Hm1 & Ho1))].
      * destruct (decide (e <= p < e + (t - s))%nat).
        -- replace p with (e + (p - e))%nat in Hit0 by lia. rewrite (Hm1 (p - e)%nat it0) by (lia || done).
           do 2 f_equal. unfold move_target in Hj. repeat case_decide; lia.
        -- rewrite Ho1; [|intros i it' Hi Hit' E'; pose proof (found_inj _ _ _ _ _ _ Hf Hit' Hit0 E'); lia].
           rewrite (Hf _ _ Hit0). do 2 f_equal. unfold move_target in Hj. repeat case_decide; lia.
      * destruct (decide (t <= p < s)%nat).
        -- replace p with (t + (p - t))%nat in Hit0 by lia. rewrite (Hm1 (p - t)%nat it0) by (lia || done).
           do 2 f_equal. unfold move_target in Hj. repeat case_decide; lia.
        -- rewrite Ho1; [|intros i it' Hi Hit' E'; pose proof (found_inj _ _ _ _ _ _ Hf Hit' Hit0 E'); lia].
           rewrite (Hf _ _ Hit0). do 2 f_equal. unfold move_target in Hj. repeat case_decide; lia.
  - intros x Hx. rewrite elem_of_ids in Hx. rewrite Ho by (intros i it _ Hi E; apply Hx; by eexists _, _).
    destruct Hcase as [(_ & _ & (_ & _ & Ho1))|(_ & _ & (_ & _ & Ho1))];
      apply Ho1; intros i it _ Hi E; apply Hx; by eexists _, _.
Qed.
End Moves.

Section MoveOperations.
Context `{Random}.

(** The loops that change every order number. *)
Lemma map_order_eq (f : Z -> Z) (q : Queue) : length (order q) = length (items q) ->
  map_order f q = Some (with_order (f <$> order q) q).
Proof.
  intros Hlen. unfold map_order, for_up, GetLength. rewrite Z.sub_0_r, Nat2Z.id, <- Hlen.
  destruct (for_count_rule (fun n o => o = (f <$> take n (order q)) ++ drop n (order q)) (length (order q)) 0 1
    (fun i o => x ← arr_get o i; arr_set o i (f x)) (order q)) as (o & Ho & ->).
  - done.
  - intros n o Hn ->. destruct (lookup_lt_is_Some_2 (order q) n Hn) as [x Hx].
    assert (length (f <$> take n (order q)) = n) as Hl by (rewrite length_fmap, length_take; lia).
    replace (0 + 1 * Z.of_nat n) with (Z.of_nat n) by lia. rewrite arr_get_nat.
    rewrite (drop_S _ _ _ Hx), list_lookup_middle by done. cbn.
    rewrite arr_set_nat by (rewrite length_app; cbn; lia).
    eexists. split; [done|]. rewrite <- Hl at 1. rewrite insert_app_r_alt, Nat.sub_diag by lia. cbn.
    rewrite (take_S_r _ _ _ Hx), fmap_app, <- app_assoc. done.
  - rewrite Ho. cbn. by rewrite firstn_all, drop_all, app_nil_r.
Qed.

Definition small (n : nat) : Prop := Z.of_nat n < 2 ^ 30.

Ltac unsigned := rewrite ?u32_id by (unfold small in *; lia).

(** The order numbers of a queue are the positions of its items. *)
Definition order_ok (q : Queue) : Prop := order q ≡ₚ seqZ 0 (Z.of_nat (length (items q))).

Lemma order_ok_length q : order_ok q -> length (order q) = length (items q).
Proof. intros Ho. rewrite (Permutation_length Ho), length_seqZ. lia. Qed.

Lemma order_ok_range q o : order_ok q -> o ∈ order q -> exists p, o = Z.of_nat p /\ (p < length (items q))%nat.
Proof.
  unfold order_ok. intros Ho Hin. rewrite Ho in Hin. apply elem_of_seqZ in Hin. exists (Z.to_nat o). lia.
Qed.

Lemma order_map_ext (f g : Z -> Z) (q : Queue) : order_ok q ->
  (forall p, (p < length (items q))%nat -> f (Z.of_nat p) = g (Z.of_nat p)) -> f <$> order q = g <$> order q.
Proof.
  intros Ho Hfg. apply list_fmap_ext. intros i o Hi.
  destruct (order_ok_range q o Ho) as (p & -> & Hp); [by apply list_elem_of_lookup_2 in Hi|]. by apply Hfg.
Qed.

(** The order numbers after a block of items has been moved. *)
Definition moved_order (s e t : nat) (q : Queue) : list Z :=
  if random q then (fun o => Z.of_nat (move_target s e t (Z.to_nat o))) <$> order q else order q.

Lemma for_up_none (a b : Z) {St} (body : Z -> St -> option St) (x : St) : b <= a -> for_up a b body x = Some x.
Proof. intros. unfold for_up. by replace (Z.to_nat (b - a)) with O by lia. Qed.

Lemma for_down_none (a b : Z) {St} (body : Z -> St -> option St) (x : St) : a <= b -> for_down a b body x = Some x.
Proof. intros. unfold for_down. by replace (Z.to_nat (a - b)) with O by lia. Qed.

Lemma with_both_id q : with_both (items q) (id_table q) q = q.
Proof. by destruct q. Qed.

Lemma MoveRange_eq (q : Queue) (s e t : nat) :
  (s < e <= length (items q))%nat -> (t + (e - s) <= length (items q))%nat -> small (length (items q)) ->
  found (items q) (id_table q) -> order_ok q ->
  exists l tb, block_moved q s e t l tb /\
    MoveRange q (Z.of_nat s) (Z.of_nat e) (Z.of_nat t) = Some (with_order (moved_order s e t q) (with_both l tb q)).
Proof.
  intros Hs Ht Hn Hf Ho.
  assert (exists l1 t1, (q1 ← for_up (Z.of_nat e) (u32 (Z.of_nat e + Z.of_nat t - Z.of_nat s))
        (fun i q => MoveItemTo i (u32 (Z.of_nat s + i - Z.of_nat e)) q) q;
      for_down (s32 (Z.of_nat s - 1)) (s32 (Z.of_nat t) - 1)
        (fun i q => MoveItemTo (u32 i) (u32 (i + Z.of_nat e - Z.of_nat s)) q) q1) = Some (with_both l1 t1 q) /\
      ((s <= t)%nat /\ copied (set_item_version (version q)) (items q) (items q) l1 e s (t - s) /\
         moved (items q) (id_table q) t1 e s (t - s) \/
       (t < s)%nat /\ copied (set_item_version (version q)) (items q) (items q) l1 t (t + (e - s)) (s - t) /\
         moved (items q) (id_table q) t1 t (t + (e - s)) (s - t))) as (l1 & t1 & Hloops & Hcase).
  { unsigned. rewrite !s32_id by (unfold small in *; lia). destruct (decide (s <= t)%nat) as [Hle|Hlt].
    - destruct (move_up_loop q (id_table q) e s (t - s) (Z.of_nat e)
        (fun i q => MoveItemTo i (u32 (Z.of_nat s + i - Z.of_nat e)) q)) as (l1 & t1 & Hl & Hc & Hm); try done; try lia.
      { intros n q' Hk. unsigned. f_equal; lia. }
      exists l1, t1. split; [|by left]. unfold for_up.
      replace (Z.to_nat (Z.of_nat e + Z.of_nat t - Z.of_nat s - Z.of_nat e)) with (t - s)%nat by lia.
      rewrite Hl. cbn. by rewrite for_down_none by lia.
    - destruct (move_down_loop q (id_table q) t (t + (e - s)) (s - t) (Z.of_nat s - 1)
        (fun i q => MoveItemTo (u32 i) (u32 (i + Z.of_nat e - Z.of_nat s)) q)) as (l1 & t1 & Hl & Hc & Hm); try done; try lia.
      { intros n q' Hk. unsigned. f_equal; lia. }
      exists l1, t1. split; [|right; split; [lia|done]]. rewrite for_up_none by lia. cbn. unfold for_down.
      by replace (Z.to_nat (Z.of_nat s - 1 - (Z.of_nat t - 1))) with (s - t)%nat by lia. }
  assert (length l1 = length (items q)) as Hlen1 by (by destruct Hcase as [(_ & [? _] & _)|(_ & [? _] & _)]).
  assert (t_same (id_table q) t1) as Hsame1 by (by destruct Hcase as [(_ & _ & ? & _)|(_ & _ & ? & _)]).
  unfold MoveRange.
  replace (Z.to_nat (Z.of_nat e - Z.of_nat s)) with (e - s)%nat by lia.
  rewrite copy_block_eq by lia. cbn [mbind option_bind].
  destruct (put_block_loop q (with_both l1 t1 q) l1 t1 (id_table q) s t (e - s) (Z.of_nat s)
    (fun i q0 => it ← arr_get (take (e - s) (drop s (items q))) (u32 (i - Z.of_nat s));
      t0 ← IdTable_Move (id_table q0) (i_id it) (u32 (Z.of_nat t + i - Z.of_nat s));
      l ← arr_set (items q0) (u32 (Z.of_nat t + i - Z.of_nat s)) (set_item_version (version q0) it);
      Some (with_items l (with_id_table t0 q0)))) as (l & tb & Hl & Hc & Hm); try done; try lia.
  { intros n it q' Hk Hit Hv. unsigned. replace (Z.of_nat s + Z.of_nat n - Z.of_nat s) with (Z.of_nat n) by lia.
    rewrite arr_get_nat, lookup_take_lt, lookup_drop, Hit by done. cbn. rewrite Hv.
    by replace (Z.of_nat t + (Z.of_nat s + Z.of_nat n) - Z.of_nat s) with (Z.of_nat (t + n)) by lia. }
  { destruct Hsame1 as (_ & _ & ?). done. }
  exists l, tb. split; [by apply (block_moved_intro q s e t l1 t1)|].
  destruct (for_up _ _ _ q) as [q1|]; [|done]. cbn [mbind option_bind] in Hloops |- *. rewrite Hloops. cbn [mbind option_bind].
  unfold for_up. replace (Z.to_nat (Z.of_nat e - Z.of_nat s)) with (e - s)%nat by lia.
  rewrite_for Hl. cbn [mbind option_bind]. unfold moved_order. cbn [random with_both with_id_table with_items].
  destruct (random q); [|by rewrite <- (with_both_id q) at 1].
  rewrite map_order_eq by (cbn; destruct Hc as [-> _]; rewrite Hlen1; by apply order_ok_length). do 2 f_equal. cbn [order with_both with_id_table with_items].
  apply (order_map_ext _ _ q Ho). intros p Hp. rewrite Nat2Z.id. unsigned. unfold move_target.
  repeat case_decide; repeat (match goal with |- context [(?a <=? ?b)] => destruct (Z.leb_spec a b) | |- context [(?a <? ?b)] => destruct (Z.ltb_spec a b) end;
    cbn [andb]); unsigned; try lia.
Qed.

Lemma MovePostion_eq (q : Queue) (s t : nat) :
  (s < length (items q))%nat -> (t < length (items q))%nat -> small (length (items q)) ->
  found (items q) (id_table q) -> order_ok q ->
  exists l tb, block_moved q s (S s) t l tb /\
    MovePostion q (Z.of_nat s) (Z.of_nat t) = Some (with_order (moved_order s (S s) t q) (with_both l tb q)).
Proof.
  intros Hs Ht Hn Hf Ho.
  destruct (lookup_lt_is_Some_2 (items q) s Hs) as [tmp Htmp].
  assert (exists l1 t1, (q1 ← for_up (Z.of_nat s) (Z.of_nat t) (fun i q => MoveItemTo (u32 (i + 1)) i q) q;
      for_down (Z.of_nat s) (Z.of_nat t) (fun i q => MoveItemTo (u32 (i - 1)) i q) q1) = Some (with_both l1 t1 q) /\
      ((s <= t)%nat /\ copied (set_item_version (version q)) (items q) (items q) l1 (S s) s (t - s) /\
         moved (items q) (id_table q) t1 (S s) s (t - s) \/
       (t < s)%nat /\ copied (set_item_version (version q)) (items q) (items q) l1 t (t + (S s - s)) (s - t) /\
         moved (items q) (id_table q) t1 t (t + (S s - s)) (s - t))) as (l1 & t1 & Hloops & Hcase).
  { destruct (decide (s <= t)%nat) as [Hle|Hlt].
    - destruct (move_up_loop q (id_table q) (S s) s (t - s) (Z.of_nat s)
        (fun i q => MoveItemTo (u32 (i + 1)) i q)) as (l1 & t1 & Hl & Hc & Hm); try done; try lia.
      { intros n q' Hk. unsigned. f_equal; lia. }
      exists l1, t1. split; [|by left]. unfold for_up.
      replace (Z.to_nat (Z.of_nat t - Z.of_nat s)) with (t - s)%nat by lia.
      rewrite Hl. cbn. by rewrite for_down_none by lia.
    - destruct (move_down_loop q (id_table q) t (t + (S s - s)) (s - t) (Z.of_nat s)
        (fun i q => MoveItemTo (u32 (i - 1)) i q)) as (l1 & t1 & Hl & Hc & Hm); try done; try lia.
      { intros n q' Hk. unsigned. f_equal; lia. }
      exists l1, t1. split; [|right; split; [lia|done]]. rewrite for_up_none by lia. cbn. unfold for_down.
      by replace (Z.to_nat (Z.of_nat s - Z.of_nat t)) with (s - t)%nat by lia. }
  assert (length l1 = length (items q)) as Hlen1 by (by destruct Hcase as [(_ & [? _] & _)|(_ & [? _] & _)]).
  assert (t_same (id_table q) t1) as Hsame1 by (by destruct Hcase as [(_ & _ & ? & _)|(_ & _ & ? & _)]).
  assert (items q !! (s + 0)%nat = Some tmp) as Htmp0 by (by rewrite Nat.add_0_r).
  destruct (moved_up (items q) t1 t1 s t 0 tmp (id_table q) Hf (moved_0 _ _ _ _)) as (tb & Htb & Hm); [|done|].
  { destruct Hsame1 as (_ & _ & ?). done. }
  pose proof (copied_up (set_item_version (version q)) (items q) l1 l1 s t 0 tmp (copied_0 _ _ _ _ _) Htmp0 ltac:(lia)) as Hc.
  rewrite Nat.add_0_r in Htb, Hc. set (l := <[t:=set_item_version (version q) tmp]> l1) in *.
  exists l, tb. replace 1%nat with (S s - s)%nat in Hc, Hm by lia.
  split; [apply (block_moved_intro q s (S s) t l1 t1); done || lia|].
  unfold MovePostion. rewrite arr_get_nat, Htmp. cbn [mbind option_bind].
  destruct (for_up _ _ _ q) as [q1|]; [|done]. cbn [mbind option_bind] in Hloops |- *. rewrite Hloops. cbn [mbind option_bind].
  unfold IdTable_Move. cbn [id_table items version with_both with_id_table with_items]. rewrite Htb. cbn [mbind option_bind].
  rewrite arr_set_nat by lia. cbn [mbind option_bind]. fold l. unfold moved_order. cbn [random with_both with_id_table with_items].
  destruct (random q); [|by rewrite <- (with_both_id q) at 1].
  rewrite map_order_eq by (cbn; unfold l; rewrite length_insert, Hlen1; by apply order_ok_length). do 2 f_equal.
  cbn [order with_both with_id_table with_items].
  apply (order_map_ext _ _ q Ho). intros p Hp. rewrite Nat2Z.id. unsigned. unfold move_target.
  repeat case_decide; repeat (match goal with |- context [(?a <=? ?b)] => destruct (Z.leb_spec a b) | |- context [(?a <? ?b)] => destruct (Z.ltb_spec a b)
    | |- context [(?a =? ?b)] => destruct (Z.eqb_spec a b) end;
    cbn [andb]); unsigned; try lia.
Qed.
End MoveOperations.

(** ** The invariant *)

Section Invariant.
Context `{Random}.
Implicit Types (q : Queue).

Record queue_ok (q : Queue) : Prop := {
  ok_table : table_ok (items q) (id_table q);
  ok_order : order_ok q;
  ok_plain : random q = false -> order q = seqZ 0 (GetLength q);
  ok_max : 1 <= max_length q < 2 ^ 30 /\ GetLength q <= max_length q /\ t_size (id_table q) = 4 * max_length q;
  ok_version : 1 <= version q < max_version /\ Forall (fun it => 0 <= i_version it <= version q) (items q);
  ok_priority : Forall (fun it => 0 <= i_priority it < 256) (items q)
}.

Lemma ok_found q : queue_ok q -> found (items q) (id_table q).
Proof. intros [[] _ _ _ _ _]. done. Qed.

Lemma ok_small q : queue_ok q -> small (length (items q)).
Proof. intros [_ _ _ (? & ? & _) _ _]. unfold small, GetLength in *. lia. Qed.

Lemma ok_lengths q : queue_ok q -> length (order q) = length (items q).
Proof. intros Hq. apply order_ok_length, Hq. Qed.

Lemma order_ok_NoDup q : order_ok q -> NoDup (order q).
Proof. unfold order_ok. intros ->. apply NoDup_seqZ. Qed.

Lemma ids_track l : ids l = (fun x => x.1.1) <$> (track <$> l).
Proof. unfold ids. rewrite <- list_fmap_compose. done. Qed.

Lemma track_length (l l' : list Item) : track <$> l ≡ₚ track <$> l' -> length l = length l'.
Proof. intros Hp%Permutation_length. by rewrite !length_fmap in Hp. Qed.

(** The songs keep their ids and priorities, wherever they are moved. *)
Lemma queue_ok_rearranged q l tb o : queue_ok q ->
  track <$> l ≡ₚ track <$> items q -> marked (version q) (items q) l ->
  t_same (id_table q) tb -> found l tb -> (forall x, x ∉ ids (items q) -> data_at tb x = data_at (id_table q) x) ->
  o ≡ₚ seqZ 0 (GetLength q) -> (random q = false -> o = seqZ 0 (GetLength q)) ->
  queue_ok (with_order o (with_both l tb q)).
Proof.
  intros Hok Hp Hmark Hs Hf Hx Ho Hplain. destruct Hok as [Ht _ _ (Hm1 & Hm2 & Hm3) (Hv & Hvs) Hpr].
  pose proof (track_length _ _ Hp) as Hlen.
  split; cbn [items id_table order random max_length version with_order with_both with_id_table with_items].
  - apply (table_ok_moved (items q) l (id_table q) tb); try done. rewrite !ids_track. by rewrite Hp.
  - unfold order_ok. cbn. rewrite Hlen. apply Ho.
  - unfold GetLength in *. cbn. by rewrite Hlen.
  - unfold GetLength in *. cbn. rewrite Hlen. destruct Hs as (-> & _). done.
  - split; [done|]. apply Forall_lookup. intros j it Hj. destruct (Hmark j it Hj) as [->|Hj0]; [lia|].
    by apply (Forall_lookup_1 _ _ _ _ Hvs Hj0).
  - change (Forall ((fun x => 0 <= snd x < 256) ∘ track) l). apply Forall_fmap. rewrite Hp. by apply Forall_fmap.
Qed.

(** A change of the order alone. *)
Lemma marked_refl v l : marked v l l.
Proof. intros j it Hj. by right. Qed.

Lemma queue_ok_order q o : queue_ok q -> o ≡ₚ order q -> (random q = false -> o = order q) -> queue_ok (with_order o q).
Proof.
  intros Hok Hp Hplain. rewrite <- (with_both_id q).
  apply queue_ok_rearranged; try done; try apply marked_refl; try (by apply ok_found).
  - rewrite Hp. apply Hok.
  - intros Hr. rewrite Hplain by done. by apply Hok.
Qed.

(** A bijection of the positions permutes them. *)
Lemma bijection_perm (f : Z -> Z) (n : nat) :
  (forall i j, 0 <= i < Z.of_nat n -> 0 <= j < Z.of_nat n -> f i = f j -> i = j) ->
  (forall i, 0 <= i < Z.of_nat n -> 0 <= f i < Z.of_nat n) -> f <$> seqZ 0 (Z.of_nat n) ≡ₚ seqZ 0 (Z.of_nat n).
Proof.
  intros Hinj Hrange. apply submseteq_length_Permutation.
  - apply NoDup_submseteq.
    + apply NoDup_fmap_2_strong; [|apply NoDup_seqZ]. intros x y Hx%elem_of_seqZ Hy%elem_of_seqZ. apply Hinj; lia.
    + intros x Hx. apply list_elem_of_fmap in Hx as (y & -> & Hy%elem_of_seqZ). apply elem_of_seqZ.
      destruct (Hrange y); lia.
  - by rewrite length_fmap.
Qed.

Lemma moved_order_ok q s e t : queue_ok q -> (s < e <= length (items q))%nat -> (t + (e - s) <= length (items q))%nat ->
  moved_order s e t q ≡ₚ seqZ 0 (GetLength q) /\ (random q = false -> moved_order s e t q = seqZ 0 (GetLength q)).
Proof.
  intros Hok Hs Ht. unfold moved_order. split; [|intros Hr; rewrite Hr; by apply Hok].
  destruct (random q); [|apply Hok]. pose proof (ok_order q Hok) as Ho. unfold order_ok in Ho. rewrite Ho. apply bijection_perm.
  - intros i j Hi Hj E%Nat2Z.inj.
    assert (Z.to_nat i = Z.to_nat j); [|lia].
    rewrite <- (move_source_target s e t (Z.to_nat i)), <- (move_source_target s e t (Z.to_nat j)) by lia. by rewrite E.
  - intros i Hi. pose proof (move_target_lt s e t (length (items q)) (Z.to_nat i)). lia.
Qed.

Lemma queue_ok_block_moved q s e t l tb : queue_ok q -> (s < e <= length (items q))%nat ->
  (t + (e - s) <= length (items q))%nat -> block_moved q s e t l tb ->
  queue_ok (with_order (moved_order s e t q) (with_both l tb q)).
Proof.
  intros Hok Hs Ht (Htr & Hm & Hsame & Hf & Hx). destruct (moved_order_ok q s e t Hok Hs Ht).
  apply queue_ok_rearranged; try done. rewrite Htr. apply move_range_Permutation. lia.
Qed.
End Invariant.

(** ** Taking and giving back ids *)

Section Ids.

Definition free_id (t : IdTable) (id : Z) : Prop :=
  id = t_initialized t /\ id < t_size t \/ exists p, data_at t id = Some p /\ p < 0.

(** How far the counter is from an id. *)
Definition id_distance (t : IdTable) (id : Z) : Z := (id - t_next t) mod (t_size t - 1).

Lemma cyclic_next (size next id : Z) : 1 <= next < size -> 1 <= id < size -> id <> next -> size < 2 ^ 32 ->
  let next' := if u32 (next + 1) =? size then 1 else u32 (next + 1) in
  1 <= next' < size /\ (id - next') mod (size - 1) = (id - next) mod (size - 1) - 1.
Proof.
  intros Hn Hid Hne Hs. cbn. rewrite u32_id by lia. split.
  - destruct (Z.eqb_spec (next + 1) size); lia.
  - assert ((id - (if next + 1 =? size then 1 else next + 1)) mod (size - 1) = (id - next - 1) mod (size - 1)) as ->.
    { destruct (Z.eqb_spec (next + 1) size); [|do 1 f_equal; lia].
      replace (id - 1) with (id - next - 1 + 1 * (size - 1)) by lia. by rewrite Z.mod_add by lia. }
    destruct (Z.ltb_spec id next).
    + rewrite <- (Z.mod_unique (id - next - 1) (size - 1) (-1) (id - next - 1 + (size - 1))) by lia.
      rewrite <- (Z.mod_unique (id - next) (size - 1) (-1) (id - next + (size - 1))) by lia. lia.
    + rewrite !Z.mod_small by lia. lia.
Qed.

(** What [GenerateId] changes. *)
Definition id_taken (t t' : IdTable) (id : Z) : Prop :=
  t_size t' = t_size t /\ 1 <= t_next t' < t_size t /\ t_next t' <= t_initialized t' /\
  1 <= id < t_initialized t' /\ t_initialized t <= t_initialized t' <= t_size t /\
  (forall x, 1 <= x < t_initialized t' -> x = id \/ x < t_initialized t) /\
  forall x, x <> id -> data_at t' x = data_at t x.

Lemma GenerateId_loop_spec (fuel : nat) t target :
  1 <= t_next t < t_size t -> t_next t <= t_initialized t <= t_size t -> t_size t < 2 ^ 32 ->
  (forall x, 1 <= x < t_initialized t -> is_Some (data_at t x)) ->
  free_id t target -> 1 <= target < t_size t -> id_distance t target < Z.of_nat fuel ->
  exists id t', GenerateId_loop fuel t = Some (id, t') /\ free_id t id /\ id_taken t t' id.
Proof.
  revert t. induction fuel as [|fuel IH]; intros t Hn Hi Hs Hinit Hfree Ht Hd.
  { unfold id_distance in Hd. pose proof (Z.mod_pos_bound (target - t_next t) (t_size t - 1) ltac:(lia)). lia. }
  cbn [GenerateId_loop]. set (next' := if u32 (t_next t + 1) =? t_size t then 1 else u32 (t_next t + 1)).
  assert (1 <= next' <= t_next t + 1 /\ next' < t_size t) as Hn'.
  { unfold next'. rewrite u32_id by lia. destruct (Z.eqb_spec (t_next t + 1) (t_size t)); lia. }
  destruct (Z.eqb_spec (t_next t) (t_initialized t)) as [E|E].
  - destruct (Z.ltb_spec (t_next t) (t_size t)); [|lia]. eexists _, _. split; [done|]. split; [left; lia|].
    unfold id_taken, t_initialized in *. cbn. rewrite length_app. cbn.
    split; [done|]. split; [lia|]. split; [lia|]. split; [lia|]. split; [lia|]. split; [intros; lia|].
    intros x Hx. destruct (Z.ltb_spec x 0); [by rewrite !data_at_neg|]. destruct (Z_of_nat_complete x ltac:(lia)) as [m ->].
    rewrite !data_at_nat. cbn. destruct (decide (m < length (t_data t))%nat).
    + by rewrite lookup_app_l.
    + rewrite !lookup_ge_None_2; [done|lia|]. rewrite length_app. cbn. lia.
  - destruct (Hinit (t_next t) ltac:(lia)) as [p Hp]. rewrite Hp. cbn.
    destruct (Z.ltb_spec p 0) as [Hp0|Hp0].
    + eexists _, _. split; [done|]. split; [right; by exists p|]. unfold id_taken, t_initialized, data_at in *. cbn.
      split; [done|]. split; [lia|]. split; [lia|]. split; [lia|]. split; [lia|]. split; [intros; lia|]. done.
    + assert (target <> t_next t) as Hne.
      { intros ->. destruct Hfree as [[? _]|(p' & Hp' & ?)]; [done|]. rewrite Hp in Hp'. injection Hp' as ->. lia. }
      destruct (cyclic_next (t_size t) (t_next t) target) as [_ Hdist]; try lia. fold next' in Hdist.
      destruct (IH (mkIdTable (t_size t) next' (t_data t))) as (id & t' & Hg & Hf & Hk); unfold t_initialized, id_distance, data_at in *;
        cbn in *; try done; try lia.
      exists id, t'. split; [done|]. split; [done|]. unfold id_taken, t_initialized, data_at in *. cbn in *. done.
Qed.

Lemma table_capacity l t : table_ok l t -> Z.of_nat (length l) < t_size t - 1 -> exists id, free_id t id /\ 1 <= id < t_size t.
Proof.
  intros Hok Hlen. destruct (decide (t_initialized t < t_size t)) as [Hlt|Hge].
  - exists (t_initialized t). destruct (table_next _ _ Hok). split; [by left|lia].
  - destruct (decide (Exists (fun id => match data_at t id with Some p => p <? 0 | None => false end = true) (seqZ 1 (t_size t - 1)))) as [He|He].
    + apply Exists_exists in He as (id & Hin%elem_of_seqZ & Hp). exists id. split; [|lia]. right.
      destruct (data_at t id) as [p|]; [|done]. exists p. split; [done|]. by apply Z.ltb_lt.
    + exfalso. assert (seqZ 1 (t_size t - 1) ⊆+ ids l) as Hsub.
      { apply NoDup_submseteq; [apply NoDup_seqZ|]. intros id Hin. pose proof (proj1 (elem_of_seqZ _ _ _) Hin).
        destruct (table_init _ _ Hok id ltac:(lia)) as [p Hp]. apply (table_used _ _ Hok id p Hp).
        destruct (Z.ltb_spec p 0) as [Hneg|]; [|done]. exfalso. apply He, Exists_exists. exists id.
        split; [done|]. rewrite Hp. by apply Z.ltb_lt. }
      apply submseteq_length in Hsub. rewrite length_seqZ in Hsub. unfold ids in Hsub. rewrite length_fmap in Hsub.
      destruct (table_size _ _ Hok). lia.
Qed.

Lemma GenerateId_spec l t : table_ok l t -> Z.of_nat (length l) < t_size t - 1 ->
  exists id t', GenerateId t = Some (id, t') /\ id ∉ ids l /\ id_taken t t' id.
Proof.
  intros Hok Hlen. destruct (table_capacity l t Hok Hlen) as (target & Hfree & Ht).
  destruct (table_next _ _ Hok) as (? & ? & ?), (table_size _ _ Hok) as [[? ?] ?].
  destruct (GenerateId_loop_spec (S (Z.to_nat (t_size t))) t target) as (id & t' & Hg & Hf & Hk); try done; try lia.
  { apply (table_init _ _ Hok). }
  { unfold id_distance. pose proof (Z.mod_pos_bound (target - t_next t) (t_size t - 1) ltac:(lia)). lia. }
  exists id, t'. split; [done|]. split; [|done]. intros Hin%elem_of_ids. destruct Hin as (i & it & Hi & <-).
  pose proof (table_found _ _ Hok i it Hi) as Hd. pose proof (data_at_range _ _ _ Hd).
  destruct Hf as [[? _]|(p & Hp & ?)]; [lia|]. rewrite Hd in Hp. injection Hp. lia.
Qed.

Lemma Insert_spec l t it : table_ok l t -> Z.of_nat (length l) < t_size t - 1 ->
  exists id t', IdTable_Insert t (Z.of_nat (length l)) = Some (id, t') /\ id ∉ ids l /\ t_size t' = t_size t /\
    (i_id it = id -> table_ok (l ++ [it]) t').
Proof.
  intros Hok Hlen. destruct (GenerateId_spec l t Hok Hlen) as (id & t1 & Hg & Hnew & Hk).
  destruct Hk as (Hsize & Hn1 & Hn2 & Hid & Hini & Hx & Hd).
  unfold IdTable_Insert. rewrite Hg. cbn.
  destruct (t_assign_spec t1 id (Z.of_nat (length l)) ltac:(lia)) as (t' & Ha & (E1 & E2 & E3) & Hd'). rewrite Ha. cbn.
  exists id, t'. split; [done|]. split; [done|]. split; [congruence|]. intros <-.
  destruct Hok as [Hf Hu Hinit Hids Hnext Hts]. split.
  - intros i it' Hi. rewrite Hd'. apply lookup_app_Some in Hi as [Hi|[Hi1 Hi]].
    + rewrite decide_False by (intros E; apply Hnew; rewrite <- E; apply elem_of_ids; by exists i, it').
      rewrite Hd by (intros E; apply Hnew; rewrite <- E; apply elem_of_ids; by exists i, it'). by apply Hf.
    + apply list_lookup_singleton_Some in Hi as [Hi <-]. rewrite decide_True by done. do 2 f_equal. lia.
  - intros x p Hxp Hp. unfold ids. rewrite fmap_app. apply elem_of_app. rewrite Hd' in Hxp.
    destruct (decide (x = i_id it)) as [->|Hne]; [right; by apply list_elem_of_singleton|].
    left. rewrite Hd in Hxp by done. by apply (Hu x p).
  - intros x Hxr. rewrite Hd'. destruct (decide (x = i_id it)); [done|]. rewrite Hd by done. apply Hinit.
    rewrite E3 in Hxr. destruct (Hx x Hxr); [done|lia].
  - apply Forall_app. split; [done|]. constructor; [lia|done].
  - lia.
  - lia.
Qed.

(** Giving back ids: their positions become -1. *)
Lemma table_ok_erased l l' t t' : table_ok l t -> t_same t t' -> found l' t' ->
  Forall (fun it => i_id it ∈ ids l) l' ->
  (forall x, x ∉ ids l -> data_at t' x = data_at t x) ->
  (forall x, x ∈ ids l -> x ∉ ids l' -> data_at t' x = Some (-1)) -> table_ok l' t'.
Proof.
  intros [Hf Hu Hi Hids Hn Hs] (E1 & E2 & E3) Hf' Hsub Hx Her. split; [done| | | |lia|lia].
  - intros id p Hd Hp. destruct (decide (id ∈ ids l')); [done|]. exfalso.
    destruct (decide (id ∈ ids l)) as [Hin|Hin]; [rewrite Her in Hd by done; injection Hd; lia|].
    rewrite Hx in Hd by done. apply Hin. by apply (Hu id p).
  - intros id Hid. destruct (decide (id ∈ ids l')) as [Hin|Hout].
    { apply elem_of_ids in Hin as (i & it & Hl & <-). eexists. by apply (Hf' i). }
    destruct (decide (id ∈ ids l)); [rewrite Her by done; by eexists|]. rewrite Hx by done. apply Hi. lia.
  - eapply Forall_impl; [exact Hsub|]. intros it Hin. cbn in Hin. apply elem_of_ids in Hin as (i & it0 & Hl & <-).
    by apply (Forall_lookup_1 _ _ _ _ Hids Hl).
Qed.
End Ids.
