(* ===== verification/QueueOps.v ===== *)
(** The operations of the play queue keep its invariant and do to the songs,
    and to the order in which they are played, what the abstract queue does:
    [tracks] are the songs with their ids and priorities by position,
    [in_order] the same in the order of play. *)
From S2P Require Import Prelude Arrays Text Tags Audio Songs SortList StableSort Queue QueueWf.
Open Scope Z_scope.

Notation Track := (Z * DetachedSong * Z)%type.
Definition track_id (x : Track) : Z := x.1.1.

Section Abstraction.
Context `{Random}.
Implicit Types (q : Queue).

Definition tracks q : list Track := track <$> items q.
Definition in_order q : list Track := omap (fun o => track <$> arr_get (items q) o) (order q).

Lemma length_tracks q : length (tracks q) = length (items q).
Proof. apply length_fmap. Qed.

Lemma tracks_NoDup q : queue_ok q -> NoDup (track_id <$> tracks q).
Proof. intros Hok. unfold tracks. change (NoDup (track_id <$> (track <$> items q))). rewrite <- ids_track. by apply (found_NoDup _ (id_table q)), ok_found. Qed.

Lemma omap_ext_elem {A B} (f g : A -> option B) (l : list A) : (forall x, x ∈ l -> f x = g x) -> omap f l = omap g l.
Proof.
  intros Hl. induction l as [|x l IH]; [done|]. cbn. rewrite (Hl x) by apply list_elem_of_here.
  destruct (g x); [f_equal|]; apply IH; intros y Hy; apply Hl; by apply list_elem_of_further.
Qed.

Lemma omap_of_fmap {A B C} (f : B -> option C) (g : A -> B) (l : list A) : omap f (g <$> l) = omap (fun x => f (g x)) l.
Proof. induction l as [|x l IH]; [done|]. cbn. destruct (f (g x)); [f_equal|]; done. Qed.

Lemma omap_of_app {A B} (f : A -> option B) (l l' : list A) : omap f (l ++ l') = omap f l ++ omap f l'.
Proof. induction l as [|x l IH]; [done|]. cbn. destruct (f x); [cbn; f_equal|]; done. Qed.

(** Without random mode the songs are played by position. *)
Lemma omap_positions {A} (l : list A) : omap (fun o => arr_get l o) (seqZ 0 (Z.of_nat (length l))) = l.
Proof.
  induction l as [|x l IH] using rev_ind; [done|]. rewrite length_app, Nat2Z.inj_add.
  change (Z.of_nat (length [x])) with 1. rewrite seqZ_app by lia. rewrite omap_of_app. f_equal.
  - rewrite <- IH at 2. apply omap_ext_elem. intros o Ho%elem_of_seqZ. destruct (Z_of_nat_complete o ltac:(lia)) as [n ->].
    rewrite !arr_get_nat. apply lookup_app_l. lia.
  - rewrite seqZ_cons, (seqZ_nil _ (Z.pred 1)), Z.add_0_l by lia. cbn. rewrite arr_get_nat.
    by rewrite lookup_app_r, Nat.sub_diag by lia.
Qed.

Lemma arr_get_fmap {A B} (f : A -> B) l i : f <$> arr_get l i = arr_get (f <$> l) i.
Proof. unfold arr_get. destruct (i <? 0); [done|]. by rewrite list_lookup_fmap. Qed.

Lemma in_order_tracks q : in_order q = omap (arr_get (tracks q)) (order q).
Proof. apply omap_ext_elem. intros o _. apply arr_get_fmap. Qed.

Lemma in_order_plain q : order q = seqZ 0 (GetLength q) -> in_order q = tracks q.
Proof.
  intros Ho. rewrite in_order_tracks, Ho. unfold GetLength. rewrite <- length_tracks. apply omap_positions.
Qed.

Lemma omap_order_length {A} (l : list A) o : o ≡ₚ seqZ 0 (Z.of_nat (length l)) -> omap (arr_get l) o ≡ₚ l.
Proof. intros ->. by rewrite omap_positions. Qed.

(** Every song has its turn once. *)
Lemma in_order_perm q : queue_ok q -> in_order q ≡ₚ tracks q.
Proof.
  intros Hok. rewrite in_order_tracks. apply omap_order_length. rewrite length_tracks. apply Hok.
Qed.

Lemma omap_total {A B} (f : A -> option B) (l : list A) : (forall x, x ∈ l -> is_Some (f x)) ->
  forall i x, l !! i = Some x -> omap f l !! i = f x.
Proof.
  intros Hl. induction l as [|y l IH]; intros i x Hi; [done|].
  destruct (Hl y ltac:(apply list_elem_of_here)) as [b Hb]. cbn. rewrite Hb. destruct i as [|i]; cbn in *.
  - injection Hi as ->. done.
  - apply IH; [|done]. intros z Hz. apply Hl. by apply list_elem_of_further.
Qed.

Lemma order_get_Some q o : queue_ok q -> o ∈ order q -> is_Some (arr_get (tracks q) o).
Proof.
  intros Hok Ho. destruct (order_ok_range q o (ok_order q Hok) Ho) as (p & -> & Hp). rewrite arr_get_nat.
  apply lookup_lt_is_Some_2. by rewrite length_tracks.
Qed.

Lemma lookup_in_order q i o : queue_ok q -> order q !! i = Some o -> in_order q !! i = arr_get (tracks q) o.
Proof. intros Hok Hi. rewrite in_order_tracks. apply omap_total; [|done]. intros x Hx. by apply order_get_Some. Qed.

(** ** Moving *)

Lemma in_order_block q s e t l tb : queue_ok q -> (s < e <= length (items q))%nat ->
  (t + (e - s) <= length (items q))%nat -> block_moved q s e t l tb ->
  let q' := with_order (moved_order s e t q) (with_both l tb q) in
  in_order q' = if random q then in_order q else tracks q'.
Proof.
  intros Hok Hs Ht Hb. pose proof (queue_ok_block_moved q s e t l tb Hok Hs Ht Hb) as Hok'. intros q'.
  destruct (random q) eqn:Er.
  2: { apply in_order_plain. by apply Hok'. }
  unfold q'. rewrite !in_order_tracks. unfold moved_order. cbn [order with_order with_both]. rewrite Er, omap_of_fmap.
  apply omap_ext_elem. intros o Ho. destruct (order_ok_range q o (ok_order q Hok) Ho) as (p & -> & Hp).
  rewrite Nat2Z.id, !arr_get_nat. destruct Hb as (Htr & _).
  unfold tracks at 1. cbn [items with_order with_both with_id_table with_items]. rewrite Htr.
  rewrite lookup_move_range by (rewrite ?length_fmap; lia). by rewrite move_source_target by lia.
Qed.

Record moved_ok q q' (new : list Track) : Prop := {
  moved_wf : queue_ok q';
  moved_tracks : tracks q' = new;
  moved_random : random q' = random q;
  moved_version : version q' = version q;
  moved_max : max_length q' = max_length q;
  moved_marked : marked (version q) (items q) (items q')
}.

Lemma MoveRange_ok q s e t : queue_ok q -> (s < e <= length (items q))%nat -> (t + (e - s) <= length (items q))%nat ->
  exists q', MoveRange q (Z.of_nat s) (Z.of_nat e) (Z.of_nat t) = Some q' /\
    moved_ok q q' (move_range s e t (tracks q)) /\ in_order q' = if random q then in_order q else tracks q'.
Proof.
  intros Hok Hs Ht.
  destruct (MoveRange_eq q s e t Hs Ht (ok_small q Hok) (ok_found q Hok) (ok_order q Hok)) as (l & tb & Hb & ->).
  eexists. split; [done|]. split; [|by apply in_order_block].
  split; try done; [by apply queue_ok_block_moved|by destruct Hb|by destruct Hb as (_ & ? & _)].
Qed.

Lemma MovePostion_ok q s t : queue_ok q -> (s < length (items q))%nat -> (t < length (items q))%nat ->
  exists q', MovePostion q (Z.of_nat s) (Z.of_nat t) = Some q' /\
    moved_ok q q' (move_range s (S s) t (tracks q)) /\ in_order q' = if random q then in_order q else tracks q'.
Proof.
  intros Hok Hs Ht.
  destruct (MovePostion_eq q s t Hs Ht (ok_small q Hok) (ok_found q Hok) (ok_order q Hok)) as (l & tb & Hb & ->).
  eexists. split; [done|]. split; [|apply in_order_block; try done; lia].
  split; try done; [apply queue_ok_block_moved; try done; lia|by destruct Hb|by destruct Hb as (_ & ? & _)].
Qed.

(** ** Swapping *)

Definition swap_at {A} (i j : nat) (l : list A) : list A :=
  match l !! i, l !! j with Some x, Some y => <[j := x]> (<[i := y]> l) | _, _ => l end.

Definition swap_index (i j k : nat) : nat := if decide (k = i) then j else if decide (k = j) then i else k.

Lemma lookup_swap_at {A} (i j k : nat) (l : list A) : (i < length l)%nat -> (j < length l)%nat ->
  swap_at i j l !! k = l !! swap_index i j k.
Proof.
  intros Hi Hj. unfold swap_at, swap_index. destruct (lookup_lt_is_Some_2 l i Hi) as [x Hx], (lookup_lt_is_Some_2 l j Hj) as [y Hy].
  rewrite Hx, Hy. destruct (decide (k = j)) as [->|Hkj].
  - rewrite list_lookup_insert_eq by (rewrite length_insert; lia). destruct (decide (j = i)) as [->|]; congruence.
  - rewrite list_lookup_insert_ne by done. destruct (decide (k = i)) as [->|].
    + by rewrite list_lookup_insert_eq by lia.
    + by rewrite list_lookup_insert_ne by done.
Qed.

Lemma length_swap_at {A} (i j : nat) (l : list A) : length (swap_at i j l) = length l.
Proof. unfold swap_at. destruct (l !! i), (l !! j); rewrite ?length_insert; done. Qed.

Lemma insert_perm {A} (l : list A) (i : nat) x y : l !! i = Some x -> y :: l ≡ₚ x :: <[i := y]> l.
Proof.
  revert i. induction l as [|z l IH]; intros [|i] Hi; cbn in *; [done|done| |].
  - injection Hi as ->. apply Permutation_swap.
  - rewrite Permutation_swap, (IH i Hi). apply Permutation_swap.
Qed.

Lemma swap_at_perm {A} (i j : nat) (l : list A) : swap_at i j l ≡ₚ l.
Proof.
  unfold swap_at. destruct (l !! i) as [x|] eqn:Hi, (l !! j) as [y|] eqn:Hj; try done.
  assert (<[i := y]> l !! j = Some y) as Hj'.
  { destruct (decide (i = j)) as [->|]; [apply list_lookup_insert_eq; by apply lookup_lt_Some in Hi|].
    by rewrite list_lookup_insert_ne. }
  apply (Permutation_cons_inv (a := y)). rewrite <- (insert_perm _ _ _ _ Hj'). symmetry. by apply insert_perm.
Qed.

Lemma swap_at_fmap {A B} (f : A -> B) i j (l : list A) : f <$> swap_at i j l = swap_at i j (f <$> l).
Proof. unfold swap_at. rewrite !list_lookup_fmap. destruct (l !! i), (l !! j); cbn; rewrite ?list_fmap_insert; done. Qed.

Lemma arr_swap_nat {A} (i j : nat) (l : list A) : (i < length l)%nat -> (j < length l)%nat ->
  arr_swap l (Z.of_nat i) (Z.of_nat j) = Some (swap_at i j l).
Proof.
  intros Hi Hj. unfold arr_swap, swap_at. rewrite !arr_get_nat.
  destruct (lookup_lt_is_Some_2 l i Hi) as [x Hx], (lookup_lt_is_Some_2 l j Hj) as [y Hy]. rewrite Hx, Hy. cbn.
  rewrite arr_set_nat by done. cbn. by rewrite arr_set_nat by (rewrite length_insert; done).
Qed.

Lemma arr_modify {A} (f : A -> A) (l : list A) (i : nat) : (i < length l)%nat ->
  (x ← arr_get l (Z.of_nat i); arr_set l (Z.of_nat i) (f x)) = Some (alter f i l).
Proof.
  intros Hi. rewrite arr_get_nat. destruct (lookup_lt_is_Some_2 l i Hi) as [x Hx]. rewrite Hx. cbn.
  rewrite arr_set_nat by done. by rewrite (alter_insert_eq f i l x Hx).
Qed.

Lemma track_alter (f : Item -> Item) (i : nat) (l : list Item) : (forall x, track (f x) = track x) -> track <$> alter f i l = track <$> l.
Proof.
  intros Hf. apply list_eq. intros k. rewrite !list_lookup_fmap. destruct (decide (k = i)) as [->|].
  - rewrite list_lookup_alter_eq. destruct (l !! i); cbn; [by rewrite Hf|done].
  - by rewrite list_lookup_alter_ne.
Qed.

Lemma track_id_item it : track_id (track it) = i_id it.
Proof. done. Qed.

Lemma found_tracks l t : found l t <-> forall (i : nat) x, (track <$> l) !! i = Some x -> data_at t (track_id x) = Some (Z.of_nat i).
Proof.
  split.
  - intros Hf i x Hi. apply list_lookup_fmap_Some in Hi as (it & -> & Hi). by apply Hf.
  - intros Hf i it Hi. apply (Hf i (track it)). by rewrite list_lookup_fmap, Hi.
Qed.

Lemma SwapPositions_ok q i j : queue_ok q -> (i < length (items q))%nat -> (j < length (items q))%nat ->
  exists q', SwapPositions q (Z.of_nat i) (Z.of_nat j) = Some q' /\
    moved_ok q q' (swap_at i j (tracks q)) /\ order q' = order q.
Proof.
  intros Hok Hi Hj. pose proof (ok_found q Hok) as Hf.
  destruct (lookup_lt_is_Some_2 (items q) i Hi) as [a Ha], (lookup_lt_is_Some_2 (items q) j Hj) as [b Hb].
  set (f := set_item_version (version q)). set (l := alter f j (alter f i (swap_at i j (items q)))).
  destruct (t_assign_spec (id_table q) (i_id a) (Z.of_nat j)) as (t1 & H1 & Hs1 & Hd1).
  { by apply (found_initialized (items q) _ i). }
  destruct (t_assign_spec t1 (i_id b) (Z.of_nat i)) as (t2 & H2 & Hs2 & Hd2).
  { destruct Hs1 as (_ & _ & ->). by apply (found_initialized (items q) _ j). }
  assert (track <$> l = swap_at i j (tracks q)) as Htr.
  { unfold l. rewrite !track_alter by done. by rewrite swap_at_fmap. }
  assert (SwapPositions q (Z.of_nat i) (Z.of_nat j) = Some (with_both l t2 q)) as E.
  { unfold SwapPositions, PositionToId. rewrite !arr_get_nat, Ha, Hb. cbn. rewrite arr_swap_nat by done. cbn.
    pose proof (arr_modify f (swap_at i j (items q)) i) as M1. rewrite length_swap_at in M1. specialize (M1 Hi).
    destruct (arr_get _ _) as [x|] in M1 |- *; [|done]. cbn in M1 |- *. unfold f in M1 at 1. rewrite M1. cbn. fold f.
    pose proof (arr_modify f (alter f i (swap_at i j (items q))) j) as M2. rewrite length_alter, length_swap_at in M2. specialize (M2 Hj).
    destruct (arr_get _ _) as [y|] in M2 |- *; [|done]. cbn in M2 |- *. unfold f in M2 at 1. fold f in M2. rewrite M2. cbn. unfold IdTable_Move. rewrite H1. cbn. by rewrite H2. }
  exists (with_both l t2 q). split; [done|]. split; [|done].
  assert (marked (version q) (items q) l) as Hm.
  { intros k it Hit. unfold l in Hit. destruct (decide (k = j)) as [->|Hkj].
    { rewrite list_lookup_alter_eq in Hit. apply fmap_Some in Hit as (it0 & _ & ->). by left. }
    rewrite list_lookup_alter_ne in Hit by done. destruct (decide (k = i)) as [->|Hki].
    { rewrite list_lookup_alter_eq in Hit. apply fmap_Some in Hit as (it0 & _ & ->). by left. }
    rewrite list_lookup_alter_ne, lookup_swap_at in Hit by done. unfold swap_index in Hit.
    rewrite !decide_False in Hit by done. by right. }
  assert (queue_ok (with_order (order q) (with_both l t2 q))) as Hok'; [|by split].
  apply queue_ok_rearranged; try done; try apply Hok.
  - rewrite Htr. apply swap_at_perm.
  - by apply (t_same_trans _ t1).
  - apply found_tracks. intros k x Hx. rewrite Htr, lookup_swap_at in Hx by (rewrite length_tracks; done).
    unfold tracks in Hx. rewrite list_lookup_fmap in Hx. apply fmap_Some in Hx as (it & Hit & ->).
    rewrite track_id_item, Hd2, Hd1. unfold swap_index in Hit.
    destruct (decide (k = i)) as [->|Hki]; [|destruct (decide (k = j)) as [->|Hkj]].
    + rewrite Hb in Hit. injection Hit as <-. by rewrite decide_True.
    + rewrite Ha in Hit. injection Hit as <-. rewrite (decide_True (P := i_id a = i_id a)) by done.
      rewrite decide_False; [done|]. intros E'. pose proof (found_inj _ _ _ _ _ _ Hf Ha Hb E'). congruence.
    + rewrite !decide_False; [by apply Hf| |]; intros E'.
      * pose proof (found_inj _ _ _ _ _ _ Hf Hit Ha E'). congruence.
      * pose proof (found_inj _ _ _ _ _ _ Hf Hit Hb E'). congruence.
  - intros x Hx. rewrite elem_of_ids in Hx. rewrite Hd2, decide_False, Hd1, decide_False; [done| |]; intros E'; apply Hx.
    + exists i, a. by split.
    + exists j, b. by split.
Qed.
(** ** Changes of the order *)

Record reordered_ok q q' : Prop := {
  reordered_wf : queue_ok q';
  reordered_items : items q' = items q;
  reordered_random : random q' = random q;
  reordered_version : version q' = version q;
  reordered_max : max_length q' = max_length q
}.

Lemma reordered_order q o : queue_ok q -> random q = true -> o ≡ₚ order q -> reordered_ok q (with_order o q).
Proof. intros Hok Hr Hp. split; try done. apply queue_ok_order; [done|done|congruence]. Qed.

Lemma reordered_trans q q' q'' : reordered_ok q q' -> reordered_ok q' q'' -> reordered_ok q q''.
Proof. intros [? ? ? ? ?] [? ? ? ? ?]. split; congruence. Qed.

Lemma in_order_of_order q o : in_order (with_order o q) = omap (arr_get (tracks q)) o.
Proof. rewrite in_order_tracks. done. Qed.

Lemma reordered_tracks q q' : reordered_ok q q' -> tracks q' = tracks q.
Proof. intros [_ E _ _ _]. unfold tracks. by rewrite E. Qed.

Lemma omap_take {A B} (f : A -> option B) (l : list A) n : (forall x, x ∈ l -> is_Some (f x)) ->
  omap f (take n l) = take n (omap f l).
Proof.
  revert n. induction l as [|x l IH]; intros [|n] Hl; [done..|]. destruct (Hl x ltac:(apply list_elem_of_here)) as [b Hb].
  cbn. rewrite Hb. cbn. f_equal. apply IH. intros y Hy. apply Hl. by apply list_elem_of_further.
Qed.

Lemma omap_drop {A B} (f : A -> option B) (l : list A) n : (forall x, x ∈ l -> is_Some (f x)) ->
  omap f (drop n l) = drop n (omap f l).
Proof.
  revert n. induction l as [|x l IH]; intros [|n] Hl; [done..|]. destruct (Hl x ltac:(apply list_elem_of_here)) as [b Hb].
  cbn. rewrite Hb. cbn. apply IH. intros y Hy. apply Hl. by apply list_elem_of_further.
Qed.

Lemma omap_move {A B} (f : A -> option B) s e t (l : list A) : (forall x, x ∈ l -> is_Some (f x)) ->
  omap f (move_range s e t l) = move_range s e t (omap f l).
Proof.
  intros Hl. assert (forall x, x ∈ take s l ++ drop e l -> is_Some (f x)) as Ho.
  { intros x [Hx|Hx]%elem_of_app; apply Hl; [by apply elem_of_take in Hx as (? & ? & _); eapply list_elem_of_lookup_2|].
    by apply (elem_of_list_drop _ _ _ Hx) || (apply list_elem_of_lookup in Hx as (i & Hi); rewrite lookup_drop in Hi; by eapply list_elem_of_lookup_2). }
  assert (forall x, x ∈ drop s l -> is_Some (f x)) as Hd.
  { intros x Hx. apply Hl. apply list_elem_of_lookup in Hx as (i & Hi). rewrite lookup_drop in Hi. by eapply list_elem_of_lookup_2. }
  unfold move_range. rewrite !omap_of_app, !omap_take, !omap_drop, !omap_of_app, !omap_take, !omap_drop by done. done.
Qed.

(** A loop that copies elements of an array one place down or up. *)
Lemma shift_up_loop {A} (l : list A) (from to k : nat) i body :
  (forall n l', (n < k)%nat -> body (i + Z.of_nat n) l' = x ← arr_get l' (Z.of_nat (from + n)); arr_set l' (Z.of_nat (to + n)) x) ->
  (to < from)%nat -> (from + k <= length l)%nat ->
  exists l', for_count k i 1 body l = Some l' /\ copied (fun x => x) l l l' from to k.
Proof.
  intros Hbody Hlt Hk. apply (for_count_rule (fun n l' => copied (fun x => x) l l l' from to n)); [apply copied_0|].
  intros n l' Hn Hc. destruct (lookup_lt_is_Some_2 l (from + n) ltac:(lia)) as [x Hx].
  exists (<[(to + n)%nat := x]> l'). split; [|apply (copied_up (fun x => x) l l l' from to n x); done || lia].
  rewrite Z.mul_1_l, Hbody, arr_get_nat by done. rewrite (copied_outside _ _ _ _ _ _ _ _ Hc) by lia. rewrite Hx. cbn.
  apply arr_set_nat. destruct Hc as [-> _]. lia.
Qed.

Lemma shift_down_loop {A} (l : list A) (from to k : nat) i body :
  (forall n l', (n < k)%nat -> body (i - Z.of_nat n) l' =
    x ← arr_get l' (Z.of_nat (from + (k - S n))); arr_set l' (Z.of_nat (to + (k - S n))) x) ->
  (from < to)%nat -> (to + k <= length l)%nat ->
  exists l', for_count k i (-1) body l = Some l' /\ copied (fun x => x) l l l' from to k.
Proof.
  intros Hbody Hlt Hk.
  destruct (for_count_rule (fun n l' => copied (fun x => x) l l l' (from + (k - n)) (to + (k - n)) n) k i (-1) body l) as (l' & Hl & Hc).
  - apply copied_0.
  - intros n l' Hn Hc. replace (from + (k - n))%nat with (S (from + (k - S n))) in Hc by lia.
    replace (to + (k - n))%nat with (S (to + (k - S n))) in Hc by lia.
    destruct (lookup_lt_is_Some_2 l (from + (k - S n)) ltac:(lia)) as [x Hx].
    exists (<[(to + (k - S n))%nat := x]> l').
    split; [|apply (copied_down (fun x => x) l l l' (from + (k - S n)) (to + (k - S n)) n x); done || lia].
    replace (i + -1 * Z.of_nat n) with (i - Z.of_nat n) by lia. rewrite Hbody, arr_get_nat by done.
    rewrite (copied_outside _ _ _ _ _ _ _ _ Hc) by lia. rewrite Hx. cbn. apply arr_set_nat. destruct Hc as [-> _]. lia.
  - rewrite Nat.sub_diag, !Nat.add_0_r in Hc. by exists l'.
Qed.

(** One element moved to another place. *)
Lemma shifted_move {A} (l l' : list A) (from to : nat) x : l !! from = Some x -> (to < length l)%nat ->
  ((from <= to)%nat /\ copied (fun x => x) l l l' (S from) from (to - from) \/
   (to < from)%nat /\ copied (fun x => x) l l l' to (S to) (from - to)) ->
  <[to := x]> l' = move_range from (S from) to l.
Proof.
  intros Hx Hto Hcase. pose proof (lookup_lt_Some _ _ _ Hx).
  assert (length l' = length l) as Hlen by (by destruct Hcase as [(_ & [? _])|(_ & [? _])]).
  apply list_eq. intros j. rewrite lookup_move_range by lia. unfold move_source.
  destruct (decide (j = to)) as [->|Hj].
  - rewrite list_lookup_insert_eq by lia. rewrite decide_True by lia. rewrite <- Hx. f_equal. lia.
  - rewrite list_lookup_insert_ne by done. rewrite (decide_False (P := (to <= j < to + (S from - from))%nat)) by lia.
    destruct Hcase as [(Hle & [_ Hc])|(Hlt & [_ Hc])]; rewrite Hc; repeat case_decide; try lia;
      rewrite ?option_fmap_id; f_equal; lia.
Qed.

Lemma MoveOrder_ok q (from to : nat) : queue_ok q -> random q = true ->
  (from < length (items q))%nat -> (to < length (items q))%nat ->
  exists q', MoveOrder q (Z.of_nat from) (Z.of_nat to) = Some (Z.of_nat to, q') /\ reordered_ok q q' /\
    order q' = move_range from (S from) to (order q) /\ in_order q' = move_range from (S from) to (in_order q).
Proof.
  intros Hok Hr Hfrom Hto. pose proof (ok_lengths q Hok) as Hlen. pose proof (ok_small q Hok).
  destruct (lookup_lt_is_Some_2 (order q) from ltac:(lia)) as [x Hx].
  set (o := move_range from (S from) to (order q)).
  assert (MoveOrder q (Z.of_nat from) (Z.of_nat to) = Some (Z.of_nat to, with_order o q)) as E.
  { unfold MoveOrder, OrderToPosition. rewrite arr_get_nat, Hx. cbn [mbind option_bind].
    destruct (Z.ltb_spec (Z.of_nat from) (Z.of_nat to)).
    - destruct (shift_up_loop (order q) (S from) from (to - from) (Z.of_nat from)
        (fun i o => x ← arr_get o (u32 (i + 1)); arr_set o i x)) as (l' & Hl & Hc); try lia.
      { intros n l' Hn. rewrite u32_id by (unfold small in *; lia).
        by replace (Z.of_nat from + Z.of_nat n + 1) with (Z.of_nat (S from + n)) by lia; replace (Z.of_nat from + Z.of_nat n) with (Z.of_nat (from + n)) by lia. }
      unfold for_up. replace (Z.to_nat (Z.of_nat to - Z.of_nat from)) with (to - from)%nat by lia.
      rewrite_for Hl. cbn [mbind option_bind]. rewrite arr_set_nat by (destruct Hc as [-> _]; lia). cbn [mbind option_bind].
      do 3 f_equal. apply (shifted_move (order q)); [done|lia|left; split; [lia|done]].
    - destruct (decide (from = to)) as [->|Hne].
      { rewrite for_down_none by lia. cbn [mbind option_bind]. rewrite arr_set_nat by lia. cbn [mbind option_bind].
        do 3 f_equal. apply (shifted_move (order q)); [done|lia|left; split; [lia|]]. rewrite Nat.sub_diag. apply copied_0. }
      destruct (shift_down_loop (order q) to (S to) (from - to) (Z.of_nat from)
        (fun i o => x ← arr_get o (u32 (i - 1)); arr_set o i x)) as (l' & Hl & Hc); try lia.
      { intros n l' Hn. rewrite u32_id by (unfold small in *; lia).
        replace (Z.of_nat from - Z.of_nat n - 1) with (Z.of_nat (to + (from - to - S n))) by lia.
        by replace (Z.of_nat from - Z.of_nat n) with (Z.of_nat (S to + (from - to - S n))) by lia. }
      unfold for_down. replace (Z.to_nat (Z.of_nat from - Z.of_nat to)) with (from - to)%nat by lia.
      rewrite_for Hl. cbn [mbind option_bind]. rewrite arr_set_nat by (destruct Hc as [-> _]; lia). cbn [mbind option_bind].
      do 3 f_equal. apply (shifted_move (order q)); [done|lia|right; split; [lia|done]]. }
  exists (with_order o q). split; [done|]. split; [|split; [done|]].
  - apply reordered_order; [done|done|]. apply move_range_Permutation. lia.
  - rewrite in_order_of_order, in_order_tracks. apply omap_move. intros y Hy. by apply order_get_Some.
Qed.
(** ** Adding and removing songs *)

Lemma Append_ok q song priority : queue_ok q -> IsFull q = false -> 0 <= priority < 256 ->
  exists id q', Append q song priority = Some (id, q') /\ queue_ok q' /\
    id ∉ track_id <$> tracks q /\ 1 <= id < 4 * max_length q /\
    tracks q' = tracks q ++ [(id, song, priority)] /\ in_order q' = in_order q ++ [(id, song, priority)] /\
    random q' = random q /\ version q' = version q /\ max_length q' = max_length q /\
    order q' = order q ++ [GetLength q] /\ items q' = items q ++ [mkItem song id (version q) priority].
Proof.
  intros Hok Hfull Hp. unfold IsFull in Hfull. apply Z.leb_gt in Hfull.
  pose proof Hok as [Ht Ho Hplain (Hm1 & Hm2 & Hm3) (Hv & Hvs) Hpr].
  unfold GetLength in Hfull, Hm2.
  set (it := mkItem song 0 (version q) priority).
  destruct (Insert_spec (items q) (id_table q) it Ht ltac:(lia)) as (id & t' & Hins & Hnew & Hsize & _).
  destruct (Insert_spec (items q) (id_table q) (mkItem song id (version q) priority) Ht ltac:(lia)) as (id' & t'' & Hins' & _ & _ & Hok').
  rewrite Hins in Hins'. injection Hins' as <- <-. specialize (Hok' eq_refl).
  exists id. eexists. unfold Append, GetLength. destruct (Z.leb_spec (max_length q) (Z.of_nat (length (items q)))); [lia|].
  rewrite Hins. cbn. split; [done|].
  assert (seqZ 0 (Z.of_nat (length (items q)) + 1) = seqZ 0 (Z.of_nat (length (items q))) ++ [Z.of_nat (length (items q))]) as Hseq.
  { rewrite seqZ_app by lia. rewrite (seqZ_cons _ 1), (seqZ_nil _ (Z.pred 1)), Z.add_0_l by lia. done. }
  assert (forall l : list Item, Z.of_nat (length (l ++ [mkItem song id (version q) priority])) = Z.of_nat (length l) + 1) as Hlen1
    by (intros l; rewrite length_app; cbn; lia).
  split.
  { split; cbn [items id_table order random max_length version with_order with_id_table with_items].
    - done.
    - unfold order_ok in *. cbn. rewrite Hlen1, Hseq, Ho. done.
    - intros Hr. unfold GetLength. cbn. rewrite Hlen1, Hseq. by rewrite Hplain.
    - unfold GetLength. cbn. rewrite Hlen1, Hsize. lia.
    - split; [done|]. apply Forall_app. split; [done|]. constructor; [cbn; lia|done].
    - apply Forall_app. split; [done|]. by constructor. }
  assert (track_id <$> tracks q = ids (items q)) as Eids by (unfold tracks; change ((fun x => x.1.1) <$> (track <$> items q) = ids (items q)); by rewrite <- ids_track).
  split; [by rewrite Eids|].
  pose proof (table_ids _ _ Hok') as Hids. apply Forall_app in Hids as [_ Hid]. apply Forall_inv in Hid.
  pose proof (found_initialized _ _ (length (items q)) (mkItem song id (version q) priority) (table_found _ _ Hok')
    ltac:(by rewrite lookup_app_r, Nat.sub_diag by lia)) as Hini.
  destruct (table_size _ _ Hok'). cbn in Hini, Hid. split; [lia|].
  assert (track <$> (items q ++ [mkItem song id (version q) priority]) = tracks q ++ [(id, song, priority)]) as Etr
    by (unfold tracks; by rewrite fmap_app).
  split; [done|]. split; [|done].
  unfold in_order. cbn [order items with_order with_id_table with_items].
  rewrite omap_of_app. f_equal.
  - apply omap_ext_elem. intros o Hin. destruct (order_ok_range q o Ho Hin) as (p & -> & Hlt). rewrite !arr_get_nat.
    by rewrite lookup_app_l.
  - cbn. rewrite arr_get_nat, lookup_app_r, Nat.sub_diag by lia. done.
Qed.

(** The position of an order number is unique. *)
Lemma PositionToOrder_loop_spec (o : list Z) p i : NoDup o -> p ∈ o ->
  exists n : nat, PositionToOrder_loop o p i = Some (i + Z.of_nat n) /\ o !! n = Some p.
Proof.
  revert i. induction o as [|x o IH]; intros i Hnd Hin; [by apply not_elem_of_nil in Hin|]. cbn [PositionToOrder_loop].
  destruct (Z.eqb_spec x p) as [->|Hne].
  - exists O. split; [f_equal; lia|done].
  - apply NoDup_cons in Hnd as [_ Hnd]. apply elem_of_cons in Hin as [->|Hin]; [done|].
    destruct (IH (i + 1) Hnd Hin) as (n & -> & Hn). exists (S n). split; [f_equal; lia|done].
Qed.

Lemma PositionToOrder_spec q (p : nat) : queue_ok q -> (p < length (items q))%nat ->
  exists n : nat, PositionToOrder q (Z.of_nat p) = Some (Z.of_nat n) /\ order q !! n = Some (Z.of_nat p) /\ (n < length (items q))%nat.
Proof.
  intros Hok Hp. destruct (PositionToOrder_loop_spec (order q) (Z.of_nat p) 0) as (n & Hn & Hl).
  - by apply order_ok_NoDup, ok_order.
  - pose proof (ok_order q Hok) as Ho. unfold order_ok in Ho. rewrite Ho. apply elem_of_seqZ. lia.
  - exists n. unfold PositionToOrder. rewrite Hn. split; [done|]. split; [done|]. rewrite <- (ok_lengths q Hok).
    by apply lookup_lt_Some in Hl.
Qed.

Definition close_gap (p x : Z) : Z := if p <? x then x - 1 else x.

Lemma eq_Permutation {A} (l l' : list A) : l = l' -> l ≡ₚ l'.
Proof. by intros ->. Qed.

Lemma delete_perm {A} (l : list A) (i : nat) x : l !! i = Some x -> l ≡ₚ x :: delete i l.
Proof. intros Hi. rewrite delete_take_drop, <- (take_drop_middle _ _ _ Hi) at 1. by rewrite Permutation_middle. Qed.

(** The order of the remaining positions, renumbered. *)
Lemma close_gap_perm (n p : nat) (o : list Z) (i : nat) : (p < n)%nat -> o ≡ₚ seqZ 0 (Z.of_nat n) -> o !! i = Some (Z.of_nat p) ->
  close_gap (Z.of_nat p) <$> delete i o ≡ₚ seqZ 0 (Z.of_nat (n - 1)).
Proof.
  intros Hp Ho Hi.
  assert (seqZ 0 (Z.of_nat n) = seqZ 0 (Z.of_nat p) ++ Z.of_nat p :: seqZ (Z.of_nat p + 1) (Z.of_nat (n - 1 - p))) as Hs.
  { replace (Z.of_nat n) with (Z.of_nat p + (1 + Z.of_nat (n - 1 - p))) by lia. rewrite seqZ_app by lia. f_equal.
    rewrite seqZ_cons, Z.add_0_l by lia. f_equal. f_equal; lia. }
  assert (delete i o ≡ₚ seqZ 0 (Z.of_nat p) ++ seqZ (Z.of_nat p + 1) (Z.of_nat (n - 1 - p))) as Hd.
  { apply (Permutation_cons_inv (a := Z.of_nat p)). rewrite <- (delete_perm _ _ _ Hi), Ho, Hs. by rewrite Permutation_middle. }
  rewrite Hd, fmap_app.
  replace (Z.of_nat (n - 1)) with (Z.of_nat p + Z.of_nat (n - 1 - p)) by lia. rewrite seqZ_app by lia.
  apply Permutation_app.
  - rewrite <- (list_fmap_id (seqZ 0 (Z.of_nat p))) at 2. apply eq_Permutation, list_fmap_ext. intros j x Hx.
    apply list_elem_of_lookup_2, elem_of_seqZ in Hx. unfold close_gap. destruct (Z.ltb_spec (Z.of_nat p) x); [lia|done].
  - apply eq_Permutation.
    apply list_eq. intros j. rewrite list_lookup_fmap. destruct (decide (j < n - 1 - p)%nat).
    + rewrite !lookup_seqZ_lt by lia. cbn. f_equal. unfold close_gap. destruct (Z.ltb_spec (Z.of_nat p) (Z.of_nat p + 1 + Z.of_nat j)); lia.
    + rewrite !lookup_seqZ_ge by lia. done.
Qed.
Lemma copied_delete {A} (l l' : list A) (i : nat) : (i < length l)%nat ->
  copied (fun x => x) l l l' (S i) i (length l - 1 - i) -> take (length l - 1) l' = delete i l.
Proof.
  intros Hi [Hlen Hc]. apply list_eq. intros j. destruct (decide (j < length l - 1)%nat).
  - rewrite lookup_take_lt, Hc by done. destruct (decide (i <= j < i + (length l - 1 - i))%nat).
    + rewrite list_lookup_delete_ge, option_fmap_id by lia. f_equal. lia.
    + by rewrite list_lookup_delete_lt by lia.
  - rewrite lookup_take_ge by lia. symmetry. apply lookup_ge_None_2. rewrite length_delete by (by apply lookup_lt_is_Some_2). lia.
Qed.

Lemma copied_fmap {A B} (f : A -> A) (g : A -> B) (l l' : list A) from to k : (forall x, g (f x) = g x) ->
  copied f l l l' from to k -> copied (fun x => x) (g <$> l) (g <$> l) (g <$> l') from to k.
Proof.
  intros Hg [Hlen Hc]. split; [by rewrite !length_fmap|]. intros j. rewrite !list_lookup_fmap, Hc.
  case_decide; [|done]. rewrite option_fmap_id. destruct (l !! _); cbn; [by rewrite Hg|done].
Qed.

Record deleted_ok q q' (p o : nat) : Prop := {
  deleted_wf : queue_ok q';
  deleted_tracks : tracks q' = delete p (tracks q);
  deleted_order : order q !! o = Some (Z.of_nat p);
  deleted_orders : order q' = close_gap (Z.of_nat p) <$> delete o (order q);
  deleted_in_order : in_order q' = delete o (in_order q);
  deleted_scalars : random q' = random q /\ version q' = version q /\ max_length q' = max_length q /\
    repeat q' = repeat q /\ single q' = single q /\ consume q' = consume q /\ rand q' = rand q;
  deleted_marked : marked (version q) (items q) (items q')
}.

Lemma in_order_deleted q q' (p o : nat) : queue_ok q -> tracks q' = delete p (tracks q) -> order q !! o = Some (Z.of_nat p) ->
  order q' = close_gap (Z.of_nat p) <$> delete o (order q) -> in_order q' = delete o (in_order q).
Proof.
  intros Hok Htr Ho Ho'. rewrite !in_order_tracks, Ho', omap_of_fmap, Htr.
  rewrite !delete_take_drop. rewrite <- omap_take, <- omap_drop by (intros; by apply order_get_Some).
  rewrite <- omap_of_app, <- delete_take_drop. apply omap_ext_elem. intros x Hx.
  rewrite <- delete_take_drop in Hx.
  pose proof (order_ok_NoDup q (ok_order q Hok)) as Hnd. rewrite (delete_perm _ _ _ Ho) in Hnd. apply NoDup_cons in Hnd as [Hni _].
  assert (x <> Z.of_nat p) by (intros ->; done).
  assert (x ∈ order q) as Hxo by (rewrite (delete_perm _ _ _ Ho); by apply list_elem_of_further).
  destruct (order_ok_range q x (ok_order q Hok) Hxo) as (n & -> & Hn). unfold close_gap.
  destruct (Z.ltb_spec (Z.of_nat p) (Z.of_nat n)).
  - replace (Z.of_nat n - 1) with (Z.of_nat (n - 1)) by lia. rewrite !arr_get_nat, list_lookup_delete_ge by lia. f_equal. lia.
  - rewrite !arr_get_nat. apply list_lookup_delete_lt. lia.
Qed.

Lemma DeletePosition_ok q (p : nat) : queue_ok q -> (p < length (items q))%nat ->
  exists q' o, DeletePosition q (Z.of_nat p) = Some q' /\ deleted_ok q q' p o.
Proof.
  intros Hok Hp. pose proof (ok_found q Hok) as Hf. pose proof (ok_small q Hok) as Hsm. pose proof (ok_lengths q Hok) as Hlen.
  destruct (lookup_lt_is_Some_2 (items q) p Hp) as [it Hit]. destruct (PositionToOrder_spec q p Hok Hp) as (o & Ho & Hoo & Holt).
  set (n := length (items q)) in *.
  destruct (t_assign_spec (id_table q) (i_id it) (-1)) as (t1 & H1 & Hs1 & Hd1); [by apply (found_initialized (items q) _ p)|].
  destruct (move_up_loop (with_id_table t1 q) (id_table q) (S p) p (n - 1 - p) (Z.of_nat p) (fun i q => MoveItemTo (u32 (i + 1)) i q))
    as (l & t2 & Hl & Hc & Hm).
  { intros k q' Hk. rewrite u32_id by (unfold small in *; lia). f_equal; lia. }
  { lia. } { cbn. fold n. lia. } { done. } { cbn. by destruct Hs1 as (_ & _ & ->). }
  cbn [items version id_table with_id_table] in Hc, Hm.
  destruct (shift_up_loop (order q) (S o) o (n - 1 - o) (Z.of_nat o) (fun i o => x ← arr_get o (u32 (i + 1)); arr_set o i x)) as (o' & Hlo & Hco).
  { intros k l' Hk. rewrite u32_id by (unfold small in *; lia).
    replace (Z.of_nat o + Z.of_nat k + 1) with (Z.of_nat (S o + k)) by lia. by replace (Z.of_nat o + Z.of_nat k) with (Z.of_nat (o + k)) by lia. }
  { lia. } { lia. }
  assert (take (n - 1) o' = delete o (order q)) as Edel by (rewrite <- Hlen in *; apply copied_delete; [lia|done]).
  assert (track <$> take (n - 1) l = delete p (tracks q)) as Etr.
  { rewrite fmap_take. unfold n. rewrite <- (length_tracks q). apply copied_delete; [by rewrite length_tracks|].
    rewrite length_tracks. apply (copied_fmap (set_item_version (version q))); done. }
  set (q' := with_order (close_gap (Z.of_nat p) <$> delete o (order q)) (with_both (take (n - 1) l) t2 q)).
  assert (DeletePosition q (Z.of_nat p) = Some q') as E.
  { unfold DeletePosition, PositionToId, GetLength. rewrite arr_get_nat, Hit, Ho. cbn [fmap option_fmap option_map mbind option_bind].
    unfold IdTable_Erase. rewrite H1. cbn [mbind option_bind]. fold n. unfold for_up.
    replace (Z.to_nat (Z.of_nat n - 1 - Z.of_nat p)) with (n - 1 - p)%nat by lia. rewrite_for Hl. cbn [mbind option_bind].
    replace (Z.to_nat (Z.of_nat n - 1 - Z.of_nat o)) with (n - 1 - o)%nat by lia.
    cbn [order with_both with_id_table with_items]. rewrite_for Hlo. cbn [mbind option_bind].
    replace (Z.to_nat (Z.of_nat n - 1)) with (n - 1)%nat by lia.
    rewrite map_order_eq; cbn [items order with_both with_id_table with_items with_order].
    - rewrite Edel. done.
    - rewrite !length_take. destruct Hc as [-> _], Hco as [-> _]. lia. }
  exists q', o. split; [done|].
  assert (length (take (n - 1) l) = n - 1)%nat as Hln.
  { rewrite length_take. destruct Hc as [-> _]. fold n. lia. }
  destruct Hs1 as (Es1 & Es2 & Es3). destruct Hm as ((Et1 & Et2 & Et3) & Hm & Hmo).
  destruct Hok as [Ht Hord Hplain (Hm1 & Hm2 & Hm3) (Hv & Hvs) Hpr] eqn:Eok.
  assert (marked (version q) (items q) (take (n - 1) l)) as Hmark.
  { intros j x Hj. apply lookup_take_Some in Hj as [Hj Hjn]. destruct Hc as [_ Hc]. rewrite Hc in Hj.
    case_decide; [|by right]. apply fmap_Some in Hj as (x0 & _ & ->). by left. }
  assert (found (take (n - 1) l) t2) as Hfound.
  { intros j x Hj. apply lookup_take_Some in Hj as [Hj Hjn]. destruct Hc as [_ Hc]. rewrite Hc in Hj. case_decide.
    - apply fmap_Some in Hj as (x0 & Hx0 & ->). cbn. replace (j - p + S p)%nat with (S p + (j - p))%nat in Hx0 by lia.
      rewrite (Hm (j - p)%nat x0) by (lia || done). do 2 f_equal. lia.
    - rewrite Hmo, Hd1, decide_False; [by apply Hf| |].
      + intros Ei. pose proof (found_inj _ _ _ _ _ _ Hf Hj Hit Ei). lia.
      + intros i x0 Hi Hx0 Ei. pose proof (found_inj _ _ _ _ _ _ Hf Hx0 Hj Ei). lia. }
  assert (forall x, x ∈ ids (take (n - 1) l) <-> x ∈ ids (items q) /\ x <> i_id it) as Hids.
  { intros x. rewrite !ids_track, Etr. fold (tracks q).
    pose proof (tracks_NoDup q Hok) as Hnd. assert (tracks q !! p = Some (track it)) as Hpt by (unfold tracks; by rewrite list_lookup_fmap, Hit).
    change ((fun x0 : Track => x0.1.1)) with track_id. rewrite (delete_perm _ _ _ Hpt) in Hnd. cbn in Hnd. apply NoDup_cons in Hnd as [Hni _].
    rewrite (delete_perm _ _ _ Hpt) at 2. cbn. rewrite elem_of_cons. split; [intros Hx; split; [by right|intros ->; done]|].
    intros [[->|Hx] Hne]; [done|done]. }
  constructor; try done.
  - split; cbn [q' items id_table order random max_length version with_order with_both with_id_table with_items].
    + apply (table_ok_erased (items q) _ (id_table q)); try done.
      * unfold t_same. repeat split; congruence.
      * apply Forall_lookup. intros j x Hj. apply Hids. apply elem_of_ids. by exists j, x.
      * intros x Hx. rewrite elem_of_ids in Hx. rewrite Hmo, Hd1, decide_False; [done| |].
        -- intros ->. apply Hx. by exists p, it.
        -- intros i x0 _ Hx0 <-. apply Hx. by eexists _, x0.
      * intros x Hx Hx'. destruct (decide (x = i_id it)) as [->|Hne]; [|exfalso; apply Hx', Hids; done].
        rewrite Hmo, Hd1, decide_True; [done..|]. intros i x0 Hi Hx0 Ei. pose proof (found_inj _ _ _ _ _ _ Hf Hx0 Hit Ei). lia.
    + unfold order_ok. cbn. rewrite Hln. apply (close_gap_perm n p _ o); done.
    + intros Hr. unfold GetLength. cbn. rewrite Hln. rewrite Hplain in Hoo |- * by done. unfold GetLength in *. fold n in Hoo |- *.
      apply lookup_seqZ in Hoo as [Eo _]. assert (o = p) as -> by lia.
      apply list_eq. intros j. rewrite list_lookup_fmap. destruct (decide (j < p)%nat).
      * rewrite list_lookup_delete_lt, !lookup_seqZ_lt by lia. cbn. f_equal. unfold close_gap. destruct (Z.ltb_spec (Z.of_nat p) (0 + Z.of_nat j)); lia.
      * rewrite list_lookup_delete_ge by lia. destruct (decide (j < n - 1)%nat).
        -- rewrite !lookup_seqZ_lt by lia. cbn. f_equal. unfold close_gap. destruct (Z.ltb_spec (Z.of_nat p) (0 + Z.of_nat (S j))); lia.
        -- rewrite !lookup_seqZ_ge by lia. done.
    + unfold GetLength in *. cbn. rewrite Hln. fold n in Hm2. rewrite Et1, Es1. lia.
    + split; [done|]. apply Forall_lookup. intros j x Hj. destruct (Hmark j x Hj) as [->|Hj0]; [lia|].
      by apply (Forall_lookup_1 _ _ _ _ Hvs Hj0).
    + change (Forall ((fun x => 0 <= snd x < 256) ∘ track) (take (n - 1) l)). apply Forall_fmap. rewrite Etr.
      apply Forall_delete. unfold tracks. by apply Forall_fmap.
  - by apply (in_order_deleted q q' p o).
Qed.
Lemma Clear_ok q : queue_ok q ->
  exists q', Clear q = Some q' /\ queue_ok q' /\ items q' = [] /\ order q' = [] /\ last_loaded_playlist q' = [] /\
    random q' = random q /\ version q' = version q /\ max_length q' = max_length q.
Proof.
  intros Hok. pose proof Hok as [Ht _ _ (Hm1 & Hm2 & Hm3) (Hv & _) _].
  destruct (for_count_rule (fun n t => t_same (id_table q) t /\
      (forall x, x ∉ ids (take n (items q)) -> data_at t x = data_at (id_table q) x) /\
      (forall x, x ∈ ids (take n (items q)) -> data_at t x = Some (-1))) (length (items q)) 0 1
    (fun i t => it ← arr_get (items q) i; IdTable_Erase t (i_id it)) (id_table q)) as (t' & Hl & Hs & Hout & Hin).
  - split; [by split|]. split; [done|]. intros x Hx. by apply not_elem_of_nil in Hx.
  - intros n t Hn (Hs & Hout & Hin). replace (0 + 1 * Z.of_nat n) with (Z.of_nat n) by lia. rewrite arr_get_nat.
    destruct (lookup_lt_is_Some_2 (items q) n Hn) as [it Hit]. rewrite Hit. cbn. unfold IdTable_Erase.
    destruct (t_assign_spec t (i_id it) (-1)) as (t' & Ha & Hs' & Hd).
    { destruct Hs as (_ & _ & ->). apply (found_initialized (items q) _ n); [by apply ok_found|done]. }
    exists t'. split; [done|]. split; [by apply (t_same_trans _ t)|]. rewrite (take_S_r _ _ _ Hit). unfold ids.
    rewrite fmap_app. split; intros x Hx; rewrite Hd.
    + apply not_elem_of_app in Hx as [Hx1 Hx2%not_elem_of_cons]. rewrite decide_False by (by destruct Hx2). by apply Hout.
    + case_decide; [done|]. apply elem_of_app in Hx as [Hx|Hx%list_elem_of_singleton]; [by apply Hin|done].
  - eexists. unfold Clear, for_up, GetLength. rewrite Z.sub_0_r, Nat2Z.id. rewrite_for Hl. cbn. split; [done|]. split; [|done].
    rewrite firstn_all in Hout, Hin. destruct Hs as (E1 & E2 & E3).
    split; cbn; try done.
    + apply (table_ok_erased (items q) [] (id_table q)); [done|by split|by intros i it Hi|done|done|].
      intros x Hx _. by apply Hin.
    + by unfold order_ok.
    + unfold GetLength in *. cbn. rewrite E1. lia.
Qed.

(** Version numbers. *)
Lemma IncrementVersion_ok q : queue_ok q -> queue_ok (IncrementVersion q) /\
  tracks (IncrementVersion q) = tracks q /\ order (IncrementVersion q) = order q /\
  in_order (IncrementVersion q) = in_order q /\ random (IncrementVersion q) = random q.
Proof.
  intros Hok. pose proof Hok as [Ht Ho Hplain (Hm1 & Hm2 & Hm3) (Hv & Hvs) Hpr].
  assert (track <$> (set_item_version 0 <$> items q) = track <$> items q) as E by (by rewrite <- list_fmap_compose).
  unfold IncrementVersion. rewrite u32_id by (unfold max_version in Hv; lia). cbn [version with_version].
  destruct (Z.leb_spec max_version (version q + 1)).
  - split.
    + split; cbn [items id_table order random max_length version with_version with_items].
      * apply (table_ok_moved (items q) _ (id_table q) _ Ht); [by split|by rewrite !ids_track, E| |done].
        apply found_tracks. rewrite E. by apply found_tracks, ok_found.
      * unfold order_ok. cbn. by rewrite length_fmap.
      * unfold GetLength. cbn. by rewrite length_fmap.
      * unfold GetLength in *. cbn. by rewrite length_fmap.
      * split; [unfold max_version; lia|]. apply Forall_fmap, Forall_forall. intros it _. cbn. lia.
      * apply Forall_fmap. by eapply Forall_impl; [exact Hpr|].
    + split; [exact E|]. split; [done|]. split; [|done]. rewrite !in_order_tracks. unfold tracks. cbn [items order with_version with_items].
      by rewrite E.
  - split; [|by repeat split]. split; cbn [items id_table order random max_length version with_version]; try done.
    split; [lia|]. eapply Forall_impl; [exact Hvs|]. cbn. intros it Hit. lia.
Qed.

Lemma ModifyAtPosition_ok q (p : nat) : queue_ok q -> (p < length (items q))%nat ->
  exists q', ModifyAtPosition q (Z.of_nat p) = Some q' /\ moved_ok q q' (tracks q) /\ order q' = order q.
Proof.
  intros Hok Hp. set (l := alter (set_item_version (version q)) p (items q)).
  assert (ModifyAtPosition q (Z.of_nat p) = Some (with_items l q)) as E.
  { unfold ModifyAtPosition. pose proof (arr_modify (set_item_version (version q)) (items q) p Hp) as M.
    destruct (arr_get _ _); [|done]. cbn in *. by rewrite M. }
  exists (with_items l q). split; [done|]. split; [|done].
  assert (track <$> l = tracks q) as Etr by (by apply track_alter).
  assert (marked (version q) (items q) l) as Hm.
  { intros j it Hj. unfold l in Hj. destruct (decide (j = p)) as [->|].
    - rewrite list_lookup_alter_eq in Hj. apply fmap_Some in Hj as (x & _ & ->). by left.
    - rewrite list_lookup_alter_ne in Hj by done. by right. }
  assert (queue_ok (with_order (order q) (with_both l (id_table q) q))) as Hok'; [|by split].
  apply queue_ok_rearranged; try done; try apply Hok.
  - by rewrite Etr.
  - apply found_tracks. rewrite Etr. by apply found_tracks, ok_found.
Qed.

(** [RestoreOrder] after [random] has been switched off. *)
Lemma RestoreOrder_ok q : queue_ok (with_random true q) ->
  exists q', RestoreOrder q = Some q' /\ queue_ok q' /\ items q' = items q /\ order q' = seqZ 0 (GetLength q) /\
    in_order q' = tracks q /\ random q' = random q /\ version q' = version q /\ max_length q' = max_length q.
Proof.
  intros Hok. assert (length (order q) = length (items q)) as Hlen by apply (ok_lengths _ Hok).
  destruct (for_count_rule (fun n o => o = seqZ 0 (Z.of_nat n) ++ drop n (order q)) (length (items q)) 0 1
    (fun i o => arr_set o i i) (order q)) as (o & Hl & ->).
  - done.
  - intros n o Hn ->. destruct (lookup_lt_is_Some_2 (order q) n ltac:(lia)) as [x Hx].
    replace (0 + 1 * Z.of_nat n) with (Z.of_nat n) by lia. rewrite (drop_S _ _ _ Hx).
    assert (length (seqZ 0 (Z.of_nat n)) = n) as Hl by (rewrite length_seqZ; lia).
    rewrite arr_set_nat by (rewrite length_app; cbn; lia). eexists. split; [done|].
    rewrite <- Hl at 1. rewrite insert_app_r_alt, Nat.sub_diag by lia. cbn.
    replace (Z.of_nat (S n)) with (Z.of_nat n + 1) by lia. rewrite seqZ_app by lia.
    rewrite (seqZ_cons _ 1), (seqZ_nil _ (Z.pred 1)), Z.add_0_l by lia. by rewrite <- app_assoc.
  - rewrite drop_ge, app_nil_r in Hl by lia.
    assert (RestoreOrder q = Some (with_order (seqZ 0 (GetLength q)) q)) as E.
    { unfold RestoreOrder, for_up, GetLength. rewrite Z.sub_0_r, Nat2Z.id. by rewrite_for Hl. }
    eexists. split; [exact E|]. split.
    { destruct Hok as [Ht Ho Hplain Hm Hv Hpr]. split; try done. by unfold order_ok. }
    split; [done|]. split; [done|]. split; [|done]. by rewrite in_order_plain.
Qed.

Lemma SwapOrders_ok q (i j : nat) : queue_ok q -> random q = true -> (i < length (items q))%nat -> (j < length (items q))%nat ->
  exists q', SwapOrders q (Z.of_nat i) (Z.of_nat j) = Some q' /\ reordered_ok q q' /\ order q' = swap_at i j (order q).
Proof.
  intros Hok Hr Hi Hj. exists (with_order (swap_at i j (order q)) q). unfold SwapOrders.
  rewrite arr_swap_nat by (rewrite ok_lengths; done). split; [done|]. split; [|done].
  apply reordered_order; [done|done|]. apply swap_at_perm.
Qed.
End Abstraction.
