(* ===== verification/QueueRandom.v ===== *)
(** Random order and priorities of the play queue: every operation permutes
    the order numbers within the range it is given, and a shuffled queue is
    played by descending priority.  What is known of the random number
    generator is [RandomLaws]. *)
From S2P Require Import Arrays Text Tags Audio Songs SortList StableSort Queue QueueWf QueueOps.
From Stdlib Require Import Sorted.
Open Scope Z_scope.

Class RandomLaws `{Random} : Prop := {
  shuffle_perm : forall r l, fst (std_shuffle r l) ≡ₚ l;
  uniform_range : forall r a b, a <= b -> a <= fst (std_uniform r a b) <= b
}.

(** ** Ranges of an array *)

Section Ranges.
Context {A : Type}.
Implicit Types (l block : list A).

Lemma range_ok_nat l (s e : nat) : (s <= e <= length l)%nat -> range_ok (Z.of_nat s) (Z.of_nat e) l = true.
Proof. intros. unfold range_ok. rewrite !andb_true_iff, !Z.leb_le. lia. Qed.

Lemma range_of_nat l (s e : nat) : range_of (Z.of_nat s) (Z.of_nat e) l = take (e - s) (drop s l).
Proof. unfold range_of. f_equal; [lia|]. f_equal. lia. Qed.

Lemma set_range_nat l block (s e : nat) : set_range (Z.of_nat s) (Z.of_nat e) block l = take s l ++ block ++ drop e l.
Proof. unfold set_range. by rewrite !Nat2Z.id. Qed.

Lemma range_split l (s e : nat) : (s <= e)%nat -> l = take s l ++ take (e - s) (drop s l) ++ drop e l.
Proof.
  intros. rewrite <- (take_drop s l) at 1. f_equal. rewrite <- (take_drop (e - s) (drop s l)) at 1. f_equal.
  rewrite drop_drop. f_equal. lia.
Qed.

(** [l'] is [l] permuted in the range from [s] to [e]. *)
Definition range_perm (s e : nat) l l' : Prop :=
  exists block, block ≡ₚ take (e - s) (drop s l) /\ l' = take s l ++ block ++ drop e l.

Lemma range_perm_perm s e l l' : (s <= e)%nat -> range_perm s e l l' -> l' ≡ₚ l.
Proof. intros Hs (block & Hb & ->). rewrite Hb. by rewrite <- range_split. Qed.

Lemma range_perm_refl s e l : (s <= e)%nat -> range_perm s e l l.
Proof. intros. exists (take (e - s) (drop s l)). split; [done|]. by apply range_split. Qed.

Lemma range_perm_lookup s e l l' j : (s <= e <= length l)%nat -> range_perm s e l l' -> (j < s \/ e <= j)%nat -> l' !! j = l !! j.
Proof.
  intros Hs (block & Hb & ->) Hj. pose proof (Permutation_length Hb) as Hlen. rewrite length_take, length_drop in Hlen.
  destruct Hj.
  - rewrite lookup_app_l by (rewrite length_take; lia). by apply lookup_take_lt.
  - rewrite lookup_app_r by (rewrite length_take; lia). rewrite lookup_app_r by (rewrite length_take; lia).
    rewrite lookup_drop, length_take. f_equal. lia.
Qed.

(** What is permuted in a part of a range is permuted in the range. *)
Lemma range_perm_intro s e l l' : (s <= e <= length l)%nat -> length l' = length l -> l' ≡ₚ l ->
  (forall j, (j < s \/ e <= j)%nat -> l' !! j = l !! j) -> range_perm s e l l'.
Proof.
  intros Hs Hlen Hp Hout. exists (take (e - s) (drop s l')).
  assert (take s l' = take s l) as Et.
  { apply list_eq. intros j. destruct (decide (j < s)%nat); [rewrite !lookup_take_lt by done; apply Hout; lia|by rewrite !lookup_take_ge by lia]. }
  assert (drop e l' = drop e l) as Ed.
  { apply list_eq. intros j. rewrite !lookup_drop. apply Hout. lia. }
  split.
  - rewrite (range_split l' s e), (range_split l s e), Et, Ed in Hp by lia. apply Permutation_app_inv_l in Hp.
    by apply Permutation_app_inv_r in Hp.
  - rewrite <- Et, <- Ed. apply range_split. lia.
Qed.

Lemma range_perm_trans s e l l' l'' : (s <= e <= length l)%nat -> range_perm s e l l' -> range_perm s e l' l'' -> range_perm s e l l''.
Proof.
  intros Hs H1 H2. pose proof (range_perm_perm s e _ _ ltac:(lia) H1) as P1. pose proof (range_perm_perm s e _ _ ltac:(lia) H2) as P2.
  apply range_perm_intro; [done|by rewrite P2, P1|by rewrite P2, P1|].
  intros j Hj. rewrite <- (range_perm_lookup s e l l') by done. apply (range_perm_lookup s e); [|done|done].
  rewrite (Permutation_length P1). lia.
Qed.

Lemma range_perm_mono s e s' e' l l' : (s' <= s)%nat -> (s <= e)%nat -> (e <= e' <= length l)%nat -> range_perm s e l l' -> range_perm s' e' l l'.
Proof.
  intros. pose proof (range_perm_perm s e _ _ ltac:(lia) H2) as P1.
  apply range_perm_intro; [lia|by rewrite P1|done|]. intros j Hj. apply (range_perm_lookup s e); [lia|done|lia].
Qed.

Lemma swap_range_perm s e l (i j : nat) : (s <= e <= length l)%nat -> (s <= i < e)%nat -> (s <= j < e)%nat -> range_perm s e l (swap_at i j l).
Proof.
  intros. apply range_perm_intro; [done|apply length_swap_at|apply swap_at_perm|].
  intros k Hk. rewrite lookup_swap_at by lia. unfold swap_index. by rewrite !decide_False by lia.
Qed.
End Ranges.

Section Shuffling.
Context `{RandomLaws}.
Implicit Types (q : Queue).

Lemma queue_ok_rand q r : queue_ok q -> queue_ok (with_rand r q).
Proof. intros [? ? ? ? ? ?]. by split. Qed.

Record shuffled_ok q q' (s e : nat) : Prop := {
  shuffled_reordered : reordered_ok q q';
  shuffled_range : range_perm s e (order q) (order q')
}.

Lemma shuffled_trans q q' q'' s e : (s <= e <= length (order q))%nat -> shuffled_ok q q' s e -> shuffled_ok q' q'' s e -> shuffled_ok q q'' s e.
Proof.
  intros Hs [R1 P1] [R2 P2]. split; [by apply (reordered_trans q q')|]. by apply (range_perm_trans s e _ (order q')).
Qed.

Lemma shuffled_intro q o r s e : queue_ok q -> random q = true -> (s <= e)%nat -> range_perm s e (order q) o ->
  shuffled_ok q (with_rand r (with_order o q)) s e.
Proof.
  intros Hok Hr Hs Hp. split; [|done]. pose proof (range_perm_perm _ _ _ _ Hs Hp) as Pp.
  split; try done. apply queue_ok_rand, queue_ok_order; [done|done|congruence].
Qed.

Lemma AutoCreate_Some (r : LazyRandomEngine) : exists r', AutoCreate r = Some r'.
Proof. destruct r; by eexists. Qed.

Lemma ShuffleOrderRange_ok q (s e : nat) : queue_ok q -> random q = true -> (s <= e <= length (items q))%nat ->
  exists q', ShuffleOrderRange q (Z.of_nat s) (Z.of_nat e) = Some q' /\ shuffled_ok q q' s e.
Proof.
  intros Hok Hr Hs. unfold ShuffleOrderRange. destruct (AutoCreate_Some (rand q)) as [r ->]. cbn.
  rewrite range_ok_nat by (rewrite ok_lengths; done). rewrite range_of_nat.
  destruct (std_shuffle r (take (e - s) (drop s (order q)))) as [block r'] eqn:E. eexists. split; [done|].
  rewrite set_range_nat. apply shuffled_intro; [done|done|lia|]. exists block. split; [|done].
  pose proof (shuffle_perm r (take (e - s) (drop s (order q)))) as Hp. by rewrite E in Hp.
Qed.

(** The priorities in the order of play. *)
Definition prio_of q (o : Z) : Z := match arr_get (items q) o with Some it => i_priority it | None => 0 end.
Definition prios q : list Z := prio_of q <$> order q.

Lemma prios_in_order q : queue_ok q -> prios q = snd <$> in_order q.
Proof.
  intros Hok. apply list_eq. intros i. unfold prios. rewrite !list_lookup_fmap.
  destruct (order q !! i) as [o|] eqn:E.
  - rewrite (lookup_in_order q i o Hok E). cbn. unfold prio_of.
    destruct (order_get_Some q o Hok ltac:(by eapply list_elem_of_lookup_2)) as [x Hx]. rewrite Hx.
    unfold tracks in Hx. rewrite <- arr_get_fmap in Hx. destruct (arr_get (items q) o); [|done]. cbn in Hx. by injection Hx as <-.
  - symmetry. rewrite lookup_ge_None_2; [done|]. apply lookup_ge_None in E.
    rewrite (Permutation_length (in_order_perm q Hok)), length_tracks, <- (ok_lengths q Hok). lia.
Qed.

Lemma GetOrderItem_spec q (i : nat) : queue_ok q -> (i < length (items q))%nat ->
  exists (p : nat) it, order q !! i = Some (Z.of_nat p) /\ items q !! p = Some it /\ GetOrderItem q (Z.of_nat i) = Some it /\
    prios q !! i = Some (i_priority it).
Proof.
  intros Hok Hi. destruct (lookup_lt_is_Some_2 (order q) i) as [o Ho]; [by rewrite ok_lengths|].
  destruct (order_ok_range q o (ok_order q Hok)) as (p & -> & Hp); [by eapply list_elem_of_lookup_2|].
  destruct (lookup_lt_is_Some_2 (items q) p Hp) as [it Hit]. exists p, it. split; [done|]. split; [done|].
  unfold GetOrderItem, OrderToPosition, prios. rewrite arr_get_nat, Ho. cbn. rewrite arr_get_nat. split; [done|].
  rewrite list_lookup_fmap, Ho. cbn. unfold prio_of. by rewrite arr_get_nat, Hit.
Qed.

Lemma GetOrderPriority_spec q (i : nat) : queue_ok q -> (i < length (items q))%nat -> GetOrderPriority q (Z.of_nat i) = prios q !! i.
Proof. intros Hok Hi. destruct (GetOrderItem_spec q i Hok Hi) as (p & it & _ & _ & E & ->). unfold GetOrderPriority. by rewrite E. Qed.

(** Sorting by priority. *)
Definition by_priority q (a b : Z) : bool := prio_of q b <? prio_of q a.

Lemma by_priority_order q : StrictWeakOn (by_priority q) (fun _ => True).
Proof.
  split; unfold by_priority; intros.
  - apply Z.ltb_lt in H3. apply Z.ltb_ge. lia.
  - apply Z.ltb_lt in H4. rewrite !Z.ltb_lt. lia.
Qed.

Lemma sort_by_priority q (l : list Z) : queue_ok q -> (forall x, x ∈ l -> x ∈ order q) ->
  stable_sort (higher_priority q) l ≡ₚ l /\ StronglySorted Z.ge (prio_of q <$> stable_sort (higher_priority q) l).
Proof.
  intros Hok Hl. split; [apply stable_sort_perm|]. rewrite (stable_sort_ext _ (by_priority q)).
  - pose proof (@stable_sort_sorted _ (by_priority q) (by_priority_order q) l) as Hs.
    induction Hs as [|x m Hm IH Hx]; [constructor|]. cbn. constructor; [done|]. apply Forall_fmap.
    eapply Forall_impl; [exact Hx|]. intros y Hy. unfold not_after, by_priority in Hy. apply Z.ltb_ge in Hy. cbn. lia.
  - intros x y Hx Hy. unfold higher_priority, by_priority, prio_of.
    destruct (order_get_Some q x Hok (Hl x Hx)) as [a Ha], (order_get_Some q y Hok (Hl y Hy)) as [b Hb].
    unfold tracks in Ha, Hb. rewrite <- arr_get_fmap in Ha, Hb.
    by destruct (arr_get (items q) x), (arr_get (items q) y).
Qed.
(** ** ShuffleOrder *)

Lemma queue_sort_ok q (s e : nat) : queue_ok q -> random q = true -> (s <= e <= length (items q))%nat ->
  exists q', queue_sort_order_by_priority q (Z.of_nat s) (Z.of_nat e) = Some q' /\ shuffled_ok q q' s e /\ rand q' = rand q /\
    StronglySorted Z.ge (take (e - s) (drop s (prios q'))).
Proof.
  intros Hok Hr Hs. pose proof (ok_lengths q Hok) as Hlen. set (block := take (e - s) (drop s (order q))).
  assert (forall x, x ∈ block -> x ∈ order q) as Hb.
  { intros x Hx. rewrite (range_split (order q) s e) by lia. rewrite !elem_of_app. auto. }
  destruct (sort_by_priority q block Hok Hb) as [Hp Hsort].
  unfold queue_sort_order_by_priority. rewrite range_ok_nat by lia. rewrite range_of_nat, set_range_nat. fold block.
  set (sorted_block := stable_sort (higher_priority q) block) in *.
  set (q' := with_order (take s (order q) ++ sorted_block ++ drop e (order q)) q).
  assert (shuffled_ok q (with_rand (rand q) q') s e) as Hsh.
  { apply shuffled_intro; [done|done|lia|]. by exists sorted_block. }
  exists q'. split; [done|]. split; [by destruct Hsh|]. split; [done|].
  assert (length sorted_block = e - s)%nat as Hlb.
  { rewrite (Permutation_length Hp). unfold block. rewrite length_take, length_drop. lia. }
  assert (take (e - s) (drop s (prios q')) = prio_of q <$> sorted_block) as ->; [|done].
  unfold prios. cbn [order q' with_order]. rewrite <- fmap_drop, <- fmap_take.
  rewrite drop_app_length' by (rewrite length_take; lia). by rewrite take_app_length' by done.
Qed.

(** Shuffling songs of one priority does not change the priorities. *)
Lemma shuffled_prios q q' (g i : nat) p : (g <= i <= length (order q))%nat -> shuffled_ok q q' g i ->
  (forall j, (g <= j < i)%nat -> prios q !! j = Some p) -> prios q' = prios q.
Proof.
  intros Hgi [[_ Hit _ _ _] (block & Hb & Ho)] Hall. unfold prios. rewrite Ho.
  assert (forall l, prio_of q' <$> l = prio_of q <$> l) as -> by (intros l; apply list_fmap_ext; intros ? ? _; unfold prio_of; by rewrite Hit).
  rewrite (range_split (order q) g i) at 3 by lia. rewrite !fmap_app. do 2 f_equal.
  assert (forall x, x ∈ take (i - g) (drop g (order q)) -> prio_of q x = p) as Hp.
  { intros x Hx. apply list_elem_of_lookup in Hx as (k & Hk). apply lookup_take_Some in Hk as [Hk Hki]. rewrite lookup_drop in Hk.
    pose proof (Hall (g + k)%nat ltac:(lia)) as Hpk. unfold prios in Hpk. rewrite list_lookup_fmap, Hk in Hpk. by injection Hpk. }
  assert (forall l, (forall x, x ∈ l -> prio_of q x = p) -> prio_of q <$> l = replicate (length l) p) as Hrep.
  { induction l as [|x l IH]; intros Hl; [done|]. cbn. rewrite Hl by apply list_elem_of_here. f_equal. apply IH.
    intros y Hy. apply Hl. by apply list_elem_of_further. }
  rewrite (Hrep block) by (intros x Hx; apply Hp; by rewrite <- Hb). rewrite Hrep by done. by rewrite (Permutation_length Hb).
Qed.

Lemma shuffle_groups q1 (s e : nat) p0 : queue_ok q1 -> random q1 = true -> (s < e <= length (items q1))%nat ->
  prios q1 !! s = Some p0 ->
  exists g p q', for_count (e - S s) (Z.of_nat (S s)) 1 shuffle_group (Z.of_nat s, p0, q1) = Some (Z.of_nat g, p, q') /\
    shuffled_ok q1 q' s e /\ prios q' = prios q1 /\ (s <= g < e)%nat /\ (forall j, (g <= j < e)%nat -> prios q1 !! j = Some p).
Proof.
  intros Hok Hr Hs Hp0. pose proof (ok_lengths q1 Hok) as Hlen.
  destruct (for_count_rule (fun n '(gs, p, q') => exists g : nat, gs = Z.of_nat g /\ shuffled_ok q1 q' s e /\ prios q' = prios q1 /\
      (s <= g < S s + n)%nat /\ (forall j, (g <= j < S s + n)%nat -> prios q1 !! j = Some p)) (e - S s) (Z.of_nat (S s)) 1
      shuffle_group (Z.of_nat s, p0, q1)) as ([[gs p] q'] & Hl & g & -> & Hsh & Hp & Hg & Hall).
  - exists s. split; [done|]. split; [split; [by split|apply range_perm_refl; lia]|]. split; [done|]. split; [lia|].
    intros j Hj. by replace j with s by lia.
  - intros n [[gs p] q'] Hn (g & -> & Hsh & Hp & Hg & Hall).
    replace (Z.of_nat (S s) + 1 * Z.of_nat n) with (Z.of_nat (S s + n)) by lia.
    destruct Hsh as [Hre Hrp] eqn:Esh. destruct Hre as [Hok' Hit' Hr' Hv' Hm'] eqn:Ere.
    assert (length (items q') = length (items q1)) as Hlen' by (by rewrite Hit').
    cbn [shuffle_group]. rewrite GetOrderPriority_spec by (done || lia). rewrite Hp.
    destruct (lookup_lt_is_Some_2 (prios q1) (S s + n)) as [pi Hpi]; [unfold prios; rewrite length_fmap; lia|].
    rewrite Hpi. cbn [mbind option_bind]. destruct (Z.eqb_spec pi p) as [->|Hne].
    + eexists. split; [done|]. exists g. split; [done|]. split; [done|]. split; [done|]. split; [lia|].
      intros j Hj. destruct (decide (j = S s + n)%nat) as [->|]; [done|]. apply Hall. lia.
    + destruct (ShuffleOrderRange_ok q' g (S s + n)) as (q'' & Hq'' & Hsh''); [done|congruence|lia|].
      rewrite Hq''. cbn [mbind option_bind]. eexists. split; [done|]. exists (S s + n)%nat. split; [done|].
      assert (prios q'' = prios q') as Epr.
      { apply (shuffled_prios q' q'' g (S s + n) p); [rewrite ok_lengths; done || lia|done|]. intros j Hj. rewrite Hp. apply Hall. lia. }
      split; [|split; [by rewrite Epr|split; [lia|]]].
      * destruct Hsh'' as [R2 P2]. split; [by apply (reordered_trans q1 q')|]. apply (range_perm_trans s e _ (order q')); [lia|done|].
        apply (range_perm_mono g (S s + n)); try lia; [rewrite ok_lengths; done || lia|done].
      * intros j Hj. by replace j with (S s + n)%nat by lia.
  - exists g, p, q'. replace (S s + (e - S s))%nat with e in * by lia. done.
Qed.

Lemma ShuffleOrderRangeWithPriority_ok q (s e : nat) : queue_ok q -> random q = true -> (s <= e <= length (items q))%nat ->
  exists q', ShuffleOrderRangeWithPriority q (Z.of_nat s) (Z.of_nat e) = Some q' /\ shuffled_ok q q' s e /\
    StronglySorted Z.ge (take (e - s) (drop s (prios q'))).
Proof.
  intros Hok Hr Hs. pose proof (ok_lengths q Hok) as Hlen. pose proof (ok_small q Hok) as Hsm.
  unfold ShuffleOrderRangeWithPriority. destruct (Z.eqb_spec (Z.of_nat s) (Z.of_nat e)) as [E|E].
  { apply Nat2Z.inj in E as ->. exists q. split; [done|]. split; [split; [by split|by apply range_perm_refl]|].
    rewrite Nat.sub_diag. constructor. }
  destruct (queue_sort_ok q s e Hok Hr Hs) as (q1 & -> & [Hre Hrp] & _ & Hsort). cbn [mbind option_bind].
  destruct Hre as [Hok1 Hit1 Hr1 Hv1 Hm1] eqn:Ere. assert (length (items q1) = length (items q)) as Hlen1 by (by rewrite Hit1).
  destruct (lookup_lt_is_Some_2 (prios q1) s) as [p0 Hp0]; [unfold prios; rewrite length_fmap, ok_lengths; done || lia|].
  rewrite GetOrderPriority_spec, Hp0 by (done || lia). cbn [mbind option_bind].
  destruct (shuffle_groups q1 s e p0 Hok1 ltac:(congruence) ltac:(lia) Hp0) as (g & p & q2 & Hl & [Hre2 Hrp2] & Hpr & Hg & Hall).
  rewrite u32_id by (unfold small in Hsm; lia). unfold for_up.
  replace (Z.to_nat (Z.of_nat e - (Z.of_nat s + 1))) with (e - S s)%nat by lia. replace (Z.of_nat s + 1) with (Z.of_nat (S s)) by lia.
  rewrite Hl. cbn [mbind option_bind]. destruct Hre2 as [Hok2 Hit2 Hr2 Hv2 Hm2] eqn:Ere2.
  assert (length (items q2) = length (items q)) as Hlen2 by (by rewrite Hit2).
  destruct (ShuffleOrderRange_ok q2 g e) as (q3 & -> & [Hre3 Hrp3]); [done|congruence|lia|].
  exists q3. split; [done|]. pose proof (ok_lengths q1 Hok1). pose proof (ok_lengths q2 Hok2).
  assert (prios q3 = prios q2) as Epr.
  { apply (shuffled_prios q2 q3 g e p); [lia|by split|]. intros j Hj. rewrite Hpr. by apply Hall. }
  split; [|by rewrite Epr, Hpr]. split.
  - by apply (reordered_trans q q1), (reordered_trans q1 q2).
  - apply (range_perm_trans s e _ (order q1)); [lia|done|]. apply (range_perm_trans s e _ (order q2)); [lia|done|].
    by apply (range_perm_mono g e); try lia.
Qed.

Lemma ShuffleOrder_ok q : queue_ok q -> random q = true ->
  exists q', ShuffleOrder q = Some q' /\ reordered_ok q q' /\ StronglySorted Z.ge (prios q').
Proof.
  intros Hok Hr. destruct (ShuffleOrderRangeWithPriority_ok q 0 (length (items q)) Hok Hr ltac:(lia)) as (q' & Hq & [Hre _] & Hs).
  exists q'. unfold ShuffleOrder, GetLength. split; [done|]. split; [done|].
  rewrite drop_0, Nat.sub_0_r, take_ge in Hs; [done|]. unfold prios. rewrite length_fmap. destruct Hre as [Hok' Hit _ _ _].
  rewrite ok_lengths by done. by rewrite Hit.
Qed.

(** ** Picking a place at random *)

Lemma uniform_ok q (a b : Z) : queue_ok q -> a <= b ->
  exists x r, uniform a b q = Some (x, with_rand r q) /\ a <= x <= b.
Proof.
  intros Hok Hab. unfold uniform. destruct (AutoCreate_Some (rand q)) as [r ->]. cbn.
  destruct (Z.leb_spec a b); [|lia]. pose proof (uniform_range r a b Hab) as Hx.
  destruct (std_uniform r a b) as [x r']. exists x, (Some r'). done.
Qed.

Lemma swap_shuffled q (s e i j : nat) r : queue_ok q -> random q = true -> (s <= e <= length (items q))%nat ->
  (s <= i < e)%nat -> (s <= j < e)%nat ->
  exists q', SwapOrders (with_rand r q) (Z.of_nat i) (Z.of_nat j) = Some q' /\ shuffled_ok q q' s e /\ order q' = swap_at i j (order q).
Proof.
  intros Hok Hr Hs Hi Hj. pose proof (ok_lengths q Hok). exists (with_rand r (with_order (swap_at i j (order q)) q)).
  unfold SwapOrders. cbn [order with_rand]. rewrite arr_swap_nat by lia. split; [done|]. split; [|done].
  apply shuffled_intro; [done|done|lia|]. by apply swap_range_perm; [lia|..].
Qed.

Lemma ShuffleOrderFirst_ok q (s e : nat) : queue_ok q -> random q = true -> (s < e <= length (items q))%nat ->
  exists q', ShuffleOrderFirst q (Z.of_nat s) (Z.of_nat e) = Some q' /\ shuffled_ok q q' s e.
Proof.
  intros Hok Hr Hs. pose proof (ok_small q Hok) as Hsm. unfold ShuffleOrderFirst. rewrite u32_id by (unfold small in Hsm; lia).
  destruct (uniform_ok q (Z.of_nat s) (Z.of_nat e - 1) Hok ltac:(lia)) as (x & r & -> & Hx). cbn.
  destruct (Z_of_nat_complete x ltac:(lia)) as [j ->].
  destruct (swap_shuffled q s e s j r Hok Hr) as (q' & Hq & Hsh & _); try lia. by exists q'.
Qed.

Lemma skip_other_priorities_spec q (n start : nat) p (last : nat) : queue_ok q -> (start <= last < length (items q))%nat ->
  prios q !! last = Some p -> (last - start < n)%nat ->
  exists k : nat, skip_other_priorities n q (Z.of_nat start) p = Some (Z.of_nat k) /\ (start <= k <= last)%nat /\ prios q !! k = Some p.
Proof.
  intros Hok. revert start. induction n as [|n IH]; intros start Hs Hp Hn; [lia|]. cbn [skip_other_priorities].
  rewrite GetOrderPriority_spec by (done || lia).
  destruct (lookup_lt_is_Some_2 (prios q) start) as [x Hx]; [unfold prios; rewrite length_fmap, ok_lengths; done || lia|].
  rewrite Hx. cbn. destruct (Z.eqb_spec x p) as [->|Hne]; [exists start; split; [done|]; split; [lia|done]|].
  destruct (decide (start = last)) as [->|]; [congruence|].
  replace (Z.of_nat start + 1) with (Z.of_nat (S start)) by lia. destruct (IH (S start)) as (k & Hk & Hr & Hkp); [lia|done|lia|].
  exists k. split; [done|]. split; [lia|done].
Qed.

Lemma ShuffleOrderLastWithPriority_ok q (s e : nat) : queue_ok q -> random q = true -> (s < e <= length (items q))%nat ->
  exists q', ShuffleOrderLastWithPriority q (Z.of_nat s) (Z.of_nat e) = Some q' /\ shuffled_ok q q' s e.
Proof.
  intros Hok Hr Hs. pose proof (ok_small q Hok) as Hsm. pose proof (ok_lengths q Hok) as Hlen.
  unfold ShuffleOrderLastWithPriority. rewrite u32_id by (unfold small in Hsm; lia).
  replace (Z.of_nat e - 1) with (Z.of_nat (e - 1)) by lia. rewrite GetOrderPriority_spec by (done || lia).
  destruct (lookup_lt_is_Some_2 (prios q) (e - 1)) as [p Hp]; [unfold prios; rewrite length_fmap; lia|]. rewrite Hp. cbn [mbind option_bind].
  destruct (skip_other_priorities_spec q (S (length (order q))) s p (e - 1) Hok ltac:(lia) Hp ltac:(lia)) as (k & -> & Hk & _).
  cbn [mbind option_bind].
  destruct (uniform_ok q (Z.of_nat k) (Z.of_nat (e - 1)) Hok ltac:(lia)) as (x & r & -> & Hx). cbn [mbind option_bind].
  destruct (Z_of_nat_complete x ltac:(lia)) as [j ->].
  destruct (swap_shuffled q s e (e - 1) j r Hok Hr) as (q' & Hq & Hsh & _); try lia. by exists q'.
Qed.
(** ** ShuffleRange *)

Lemma marked_trans v (l0 l1 l2 : list Item) : marked v l0 l1 -> marked v l1 l2 -> marked v l0 l2.
Proof. intros H1 H2 j it Hj. destruct (H2 j it Hj) as [?|Hj1]; [by left|]. by apply H1. Qed.

Lemma tracks_length q q' : tracks q ≡ₚ tracks q' -> length (items q) = length (items q').
Proof. intros Hp%Permutation_length. by rewrite !length_tracks in Hp. Qed.

Lemma ShuffleRange_ok q (s e : nat) : queue_ok q -> (s <= e <= length (items q))%nat ->
  exists q' new, ShuffleRange q (Z.of_nat s) (Z.of_nat e) = Some q' /\ moved_ok q q' new /\ range_perm s e (tracks q) new /\
    order q' = order q.
Proof.
  intros Hok Hs. pose proof (ok_small q Hok) as Hsm. unfold ShuffleRange, for_up.
  replace (Z.to_nat (Z.of_nat e - Z.of_nat s)) with (e - s)%nat by lia.
  destruct (for_count_rule (fun n q' => moved_ok q q' (tracks q') /\ range_perm s e (tracks q) (tracks q') /\ order q' = order q)
    (e - s) (Z.of_nat s) 1
    (fun i q => '(ri, q) ← uniform (Z.of_nat s) (u32 (Z.of_nat e - 1)) q; SwapPositions q i ri)
    (with_rand (AutoCreate (rand q)) q)) as (q' & Hl & Hm & Hp & Ho).
  - split; [|split; [apply range_perm_refl; lia|done]]. split; try done; [by apply queue_ok_rand|apply marked_refl].
  - intros n q' Hn (Hm & Hp & Ho). pose proof Hm as [Hok' _ Hr' Hv' Hm' Hmk'].
    assert (length (items q') = length (items q)) as Hlen by (apply tracks_length; apply (range_perm_perm s e); [lia|done]).
    rewrite u32_id by (unfold small in Hsm; lia).
    destruct (uniform_ok q' (Z.of_nat s) (Z.of_nat e - 1) Hok' ltac:(lia)) as (x & r & -> & Hx). cbn [mbind option_bind].
    destruct (Z_of_nat_complete x ltac:(lia)) as [j ->]. replace (Z.of_nat s + 1 * Z.of_nat n) with (Z.of_nat (s + n)) by lia.
    destruct (SwapPositions_ok (with_rand r q') (s + n) j) as (q'' & -> & [Hok'' Htr'' Hr'' Hv'' Hm'' Hmk''] & Ho'');
      [by apply queue_ok_rand|cbn; lia|cbn; lia|].
    exists q''. split; [done|]. split; [|split; [|by rewrite Ho'']].
    + split; [done|done|by rewrite Hr''|by rewrite Hv''|by rewrite Hm''|]. apply (marked_trans _ _ (items q')); [done|].
      cbn in Hmk''. by rewrite <- Hv'.
    + rewrite Htr''. apply (range_perm_trans s e _ (tracks q')); [rewrite length_tracks; lia|done|].
      change (tracks (with_rand r q')) with (tracks q'). apply swap_range_perm; rewrite ?length_tracks; lia.
  - exists q', (tracks q'). done.
Qed.

(** ** Priorities *)

Lemma FindPriorityOrder_loop_spec q (n i : nat) p x : queue_ok q -> (i + n = length (items q))%nat ->
  exists k : nat, FindPriorityOrder_loop q n (Z.of_nat i) p x = Some (Z.of_nat k) /\ (i <= k <= length (items q))%nat.
Proof.
  intros Hok. revert i. induction n as [|n IH]; intros i Hi; cbn [FindPriorityOrder_loop].
  - exists (length (items q)). split; [done|lia].
  - destruct (GetOrderItem_spec q i Hok ltac:(lia)) as (p0 & it & _ & _ & -> & _). cbn [mbind option_bind].
    destruct (_ && _); [exists i; split; [done|lia]|]. replace (Z.of_nat i + 1) with (Z.of_nat (S i)) by lia.
    destruct (IH (S i) ltac:(lia)) as (k & -> & Hk). exists k. split; [done|lia].
Qed.

Lemma CountSamePriority_loop_spec q (n i s : nat) p : queue_ok q -> (i + n = length (items q))%nat -> (s <= i)%nat ->
  exists k : nat, CountSamePriority_loop q n (Z.of_nat i) (Z.of_nat s) p = Some (Z.of_nat k) /\ (i <= s + k <= length (items q))%nat /\
    (prios q !! i = Some p -> (i < s + k)%nat).
Proof.
  intros Hok. pose proof (ok_small q Hok) as Hsm. revert i. induction n as [|n IH]; intros i Hi Hs; cbn [CountSamePriority_loop].
  - exists (length (items q) - s)%nat. split; [|split; [lia|]].
    + unfold GetLength. rewrite u32_id by (unfold small in Hsm; lia). f_equal. lia.
    + intros Hp%lookup_lt_Some. unfold prios in Hp. rewrite length_fmap, ok_lengths in Hp by done. lia.
  - destruct (GetOrderItem_spec q i Hok ltac:(lia)) as (p0 & it & _ & _ & -> & Hp). cbn [mbind option_bind].
    destruct (Z.eqb_spec (i_priority it) p) as [E|E]; cbn [negb].
    + replace (Z.of_nat i + 1) with (Z.of_nat (S i)) by lia. destruct (IH (S i) ltac:(lia) ltac:(lia)) as (k & -> & Hk & _).
      exists k. split; [done|]. split; [lia|]. intros _. lia.
    + exists (i - s)%nat. split; [f_equal; lia|]. split; [lia|]. rewrite Hp. intros [= ?]. done.
Qed.

(** [order[o]] is moved behind the songs of higher priority. *)
Lemma reorder_priority_ok q (o : nat) p (after : Z) it (pos : nat) : queue_ok q -> random q = true ->
  order q !! o = Some (Z.of_nat pos) -> items q !! pos = Some it -> i_priority it = p ->
  -1 <= after < GetLength q ->
  exists q', reorder_priority q (Z.of_nat o) p after = Some q' /\ reordered_ok q q'.
Proof.
  intros Hok Hr Ho Hit Hp Hafter. pose proof (ok_small q Hok) as Hsm. pose proof (ok_lengths q Hok) as Hlen.
  pose proof (lookup_lt_Some _ _ _ Ho) as Holt. unfold GetLength in Hafter.
  unfold reorder_priority. rewrite u32_id by (unfold small in Hsm; lia).
  unfold FindPriorityOrder, GetLength. destruct (Z_of_nat_complete (after + 1) ltac:(lia)) as [start Es]. rewrite Es.
  replace (Z.to_nat (Z.of_nat (length (items q)) - Z.of_nat start)) with (length (items q) - start)%nat by lia.
  destruct (FindPriorityOrder_loop_spec q (length (items q) - start) start p (Z.of_nat o) Hok ltac:(lia)) as (b & -> & Hb).
  cbn [mbind option_bind].
  assert (exists t : nat, (if Z.of_nat o <? Z.of_nat b then Z.of_nat b - 1 else Z.of_nat b) = Z.of_nat t /\ (t < length (items q))%nat)
    as (t & -> & Ht).
  { destruct (Z.ltb_spec (Z.of_nat o) (Z.of_nat b)); [exists (b - 1)%nat|exists b]; split; lia. }
  destruct (MoveOrder_ok q o t Hok Hr ltac:(lia) Ht) as (q1 & -> & Hre & Ho1 & _). cbn [mbind option_bind].
  pose proof Hre as [Hok1 Hit1 Hr1 _ _]. unfold CountSamePriority, GetLength. rewrite Hit1.
  replace (Z.to_nat (Z.of_nat (length (items q)) - Z.of_nat t)) with (length (items q) - t)%nat by lia.
  destruct (CountSamePriority_loop_spec q1 (length (items q) - t) t t p Hok1) as (k & -> & Hk & Hkp); [rewrite Hit1; lia|lia|].
  cbn [mbind option_bind]. rewrite Hit1 in Hk.
  assert (t < t + k)%nat as Hpos.
  { apply Hkp. unfold prios. rewrite list_lookup_fmap, Ho1, lookup_move_range by lia. unfold move_source.
    rewrite decide_True by lia. replace (t - t + o)%nat with o by lia. rewrite Ho. cbn. unfold prio_of. by rewrite Hit1, arr_get_nat, Hit, Hp. }
  rewrite u32_id by (unfold small in Hsm; lia). replace (Z.of_nat t + Z.of_nat k) with (Z.of_nat (t + k)) by lia.
  destruct (ShuffleOrderFirst_ok q1 t (t + k)) as (q2 & -> & [Hre2 _]); [done|congruence|rewrite Hit1; lia|].
  exists q2. split; [done|]. by apply (reordered_trans q q1).
Qed.

Definition set_track_priority (p : Z) (x : Track) : Track := (x.1, p).

Record prioritized_ok q q' (new : list Track) : Prop := {
  prioritized_wf : queue_ok q';
  prioritized_tracks : tracks q' = new;
  prioritized_random : random q' = random q;
  prioritized_version : version q' = version q;
  prioritized_max : max_length q' = max_length q;
  prioritized_marked : marked (version q) (items q) (items q');
  prioritized_plain : random q = false -> order q' = order q
}.

(** The priority is set, and the order is left alone. *)
Lemma set_priority_item q (p : nat) priority : queue_ok q -> (p < length (items q))%nat -> 0 <= priority < 256 ->
  prioritized_ok q (with_items (alter (set_item_priority (version q) priority) p (items q)) q)
    (alter (set_track_priority priority) p (tracks q)).
Proof.
  intros Hok Hp Hpr. pose proof Hok as [Ht Ho Hplain (Hm1 & Hm2 & Hm3) (Hv & Hvs) Hprs].
  set (l := alter _ p (items q)).
  assert (forall j, l !! j = if decide (j = p) then set_item_priority (version q) priority <$> items q !! j else items q !! j) as Hl.
  { intros j. unfold l. case_decide as E; [rewrite E; apply list_lookup_alter_eq|by apply list_lookup_alter_ne]. }
  assert (ids l = ids (items q)) as Hids.
  { unfold ids. apply list_eq. intros j. rewrite !list_lookup_fmap, Hl. case_decide; [|done]. by destruct (items q !! j). }
  assert (length l = length (items q)) as Hlen by apply length_alter.
  split; try done.
  - split; cbn [items id_table order random max_length version with_items].
    + apply (table_ok_moved (items q) l (id_table q)); [done|by split|by rewrite Hids| |done].
      intros j it Hj. rewrite Hl in Hj. case_decide; [|exact (ok_found q Hok j it Hj)].
      apply fmap_Some in Hj as (it0 & Hj & ->). exact (ok_found q Hok j it0 Hj).
    + unfold order_ok. cbn. by rewrite Hlen.
    + unfold GetLength. cbn. by rewrite Hlen.
    + unfold GetLength in *. cbn. by rewrite Hlen.
    + split; [done|]. apply Forall_lookup. intros j it Hj. rewrite Hl in Hj. case_decide.
      * apply fmap_Some in Hj as (it0 & _ & ->). cbn. lia.
      * by apply (Forall_lookup_1 _ _ _ _ Hvs Hj).
    + apply Forall_lookup. intros j it Hj. rewrite Hl in Hj. case_decide.
      * apply fmap_Some in Hj as (it0 & _ & ->). done.
      * by apply (Forall_lookup_1 _ _ _ _ Hprs Hj).
  - unfold tracks. cbn. apply list_eq. intros j. rewrite list_lookup_fmap, Hl. case_decide as E.
    + rewrite E, list_lookup_alter_eq, list_lookup_fmap. by destruct (items q !! p).
    + by rewrite list_lookup_alter_ne, list_lookup_fmap.
  - intros j it Hj. cbn in Hj. rewrite Hl in Hj. case_decide; [|by right]. apply fmap_Some in Hj as (it0 & _ & ->). by left.
Qed.

Lemma prioritized_reordered q q1 q' new : prioritized_ok q q1 new -> random q = true -> reordered_ok q1 q' -> prioritized_ok q q' new.
Proof.
  intros [] Hr Hre. pose proof (reordered_tracks _ _ Hre) as Etr. destruct Hre as [Hok' Hit Hr' Hv' Hm'].
  split; try congruence. by rewrite Hit.
Qed.

Lemma SetPriority_ok q (p : nat) priority after reorder : queue_ok q -> (p < length (items q))%nat -> 0 <= priority < 256 ->
  -1 <= after < GetLength q ->
  exists m q', SetPriority q (Z.of_nat p) priority after reorder = Some (m, q') /\
    prioritized_ok q q' (alter (set_track_priority priority) p (tracks q)) /\ (reorder = false -> order q' = order q).
Proof.
  intros Hok Hp Hpr Hafter. pose proof (ok_small q Hok) as Hsm.
  destruct (lookup_lt_is_Some_2 (items q) p Hp) as [it Hit]. unfold SetPriority. rewrite arr_get_nat, Hit. cbn [mbind option_bind].
  destruct (Z.eqb_spec (i_priority it) priority) as [Ep|Ep].
  { exists false, q. split; [done|]. split; [|done]. split; try done; [|apply marked_refl].
    apply list_eq. intros j. destruct (decide (j = p)) as [->|]; [|by rewrite list_lookup_alter_ne].
    rewrite list_lookup_alter_eq. unfold tracks. rewrite list_lookup_fmap, Hit. cbn. unfold set_track_priority, track. by rewrite <- Ep. }
  rewrite arr_set_nat, <- (alter_insert_eq _ _ _ _ Hit) by done. cbn [mbind option_bind].
  pose proof (set_priority_item q p priority Hok Hp Hpr) as Hset. set (q1 := with_items _ q) in *.
  destruct (negb (random q1) || negb reorder) eqn:Ecase; [exists true, q1; done|].
  apply orb_false_iff in Ecase as [Er Ere]. apply negb_false_iff in Er, Ere.
  pose proof Hset as [Hok1 _ Hr1 _ _ _ _]. assert (length (items q1) = length (items q)) as Hlen1 by (cbn; apply length_alter).
  destruct (PositionToOrder_spec q1 p Hok1 ltac:(lia)) as (o & -> & Ho & Holt). cbn [mbind option_bind].
  assert (exists it1, items q1 !! p = Some it1 /\ i_priority it1 = priority) as (it1 & Hit1 & Ep1).
  { cbn. rewrite list_lookup_alter_eq, Hit. by eexists. }
  assert (GetLength q1 = GetLength q) as Hgl by (unfold GetLength; by rewrite Hlen1).
  destruct (reorder_priority_ok q1 o priority after it1 p Hok1 Er Ho Hit1 Ep1 ltac:(lia)) as (q2 & Hq2 & Hre2).
  assert (exists b : bool, (if 0 <=? after then if Z.of_nat o =? u32 after then Some false
      else raised_above q1 (Z.of_nat o) priority (i_priority it) after else Some true) = Some b) as [b ->].
  { destruct (Z.leb_spec 0 after); [|by exists true]. destruct (_ =? _); [by exists false|]. unfold raised_above.
    destruct (_ <? _); [|by exists true]. destruct (Z_of_nat_complete after ltac:(lia)) as [a ->].
    destruct (GetOrderItem_spec q1 a Hok1) as (? & ita & _ & _ & -> & _); [unfold GetLength in *; lia|]. by eexists. }
  cbn [mbind option_bind]. destruct b; [|exists true, q1; split; [done|]; by split].
  rewrite Hq2. cbn [mbind option_bind]. exists true, q2. split; [done|]. split; [|congruence].
  apply (prioritized_reordered q q1); done || congruence.
Qed.

Lemma prioritized_trans q q1 q2 new1 new2 : prioritized_ok q q1 new1 -> prioritized_ok q1 q2 new2 -> prioritized_ok q q2 new2.
Proof.
  intros [? ? ? Hv ? ? ?] [? ? ? ? ? Hmk ?]. split; try congruence; [|intros; etransitivity; [|naive_solver]; naive_solver congruence].
  rewrite Hv in Hmk. by apply (marked_trans _ _ (items q1)).
Qed.
(** The priorities of the positions from [s] to [e]. *)
Definition set_priorities (s e : nat) (priority : Z) (l : list Track) : list Track :=
  imap (fun j x => if decide (s <= j < e)%nat then set_track_priority priority x else x) l.

Lemma set_priorities_step s k priority l : (s <= k)%nat ->
  alter (set_track_priority priority) k (set_priorities s k priority l) = set_priorities s (S k) priority l.
Proof.
  intros Hs. unfold set_priorities. apply list_eq. intros j. destruct (decide (j = k)) as [->|].
  - rewrite list_lookup_alter_eq, !list_lookup_imap. destruct (l !! k); [|done]. cbn.
    rewrite decide_False, decide_True by lia. done.
  - rewrite list_lookup_alter_ne, !list_lookup_imap by done. destruct (l !! j); [|done]. cbn. f_equal. repeat case_decide; done || lia.
Qed.

Lemma set_priorities_none s priority l : set_priorities s s priority l = l.
Proof.
  unfold set_priorities. apply list_eq. intros j. rewrite list_lookup_imap. destruct (l !! j); [|done]. cbn. by rewrite decide_False by lia.
Qed.

Lemma SetPriorityRange_ok q (s e : nat) priority after : queue_ok q -> (s <= e <= length (items q))%nat -> 0 <= priority < 256 ->
  -1 <= after < GetLength q ->
  exists m q', SetPriorityRange q (Z.of_nat s) (Z.of_nat e) priority after = Some (m, q') /\
    prioritized_ok q q' (set_priorities s e priority (tracks q)).
Proof.
  intros Hok Hs Hpr Hafter.
  assert (exists pos, (if 0 <=? after then OrderToPosition q after else Some (-1)) = Some pos /\ -1 <= pos < GetLength q) as (pos & Hpos & Hrange).
  { destruct (Z.leb_spec 0 after); [|exists (-1); unfold GetLength; split; [done|lia]].
    destruct (Z_of_nat_complete after ltac:(lia)) as [a ->]. unfold GetLength in *.
    destruct (GetOrderItem_spec q a Hok ltac:(lia)) as (p & it & Ho & Hit & _). exists (Z.of_nat p). unfold OrderToPosition.
    rewrite arr_get_nat, Ho. apply lookup_lt_Some in Hit. split; [done|lia]. }
  unfold SetPriorityRange. rewrite Hpos. cbn [mbind option_bind]. unfold for_up.
  replace (Z.to_nat (Z.of_nat e - Z.of_nat s)) with (e - s)%nat by lia.
  destruct (for_count_rule (fun n '(m, q') => prioritized_ok q q' (set_priorities s (s + n) priority (tracks q))) (e - s) (Z.of_nat s) 1
    (fun i '(modified, q) => after_order ← (if 0 <=? pos then PositionToOrder q pos else Some (-1));
      '(m, q) ← SetPriority q i priority after_order true; Some (modified || m, q)) (false, q)) as ([m q'] & Hl & Hp).
  - rewrite Nat.add_0_r, set_priorities_none. split; try done. apply marked_refl.
  - intros n [m q'] Hn Hp. pose proof Hp as [Hok' Htr' _ _ _ _ _].
    assert (length (items q') = length (items q)) as Hlen.
    { rewrite <- !length_tracks, Htr'. unfold set_priorities. apply length_imap. }
    assert (exists a, (if 0 <=? pos then PositionToOrder q' pos else Some (-1)) = Some a /\ -1 <= a < GetLength q') as (a & -> & Ha).
    { unfold GetLength in *. destruct (Z.leb_spec 0 pos); [|exists (-1); split; [done|lia]]. destruct (Z_of_nat_complete pos ltac:(lia)) as [p ->].
      destruct (PositionToOrder_spec q' p Hok' ltac:(lia)) as (o & -> & _ & Ho). exists (Z.of_nat o). split; [done|lia]. }
    cbn [mbind option_bind]. replace (Z.of_nat s + 1 * Z.of_nat n) with (Z.of_nat (s + n)) by lia.
    destruct (SetPriority_ok q' (s + n) priority a true Hok') as (m' & q'' & -> & Hp' & _); [lia|done|lia|].
    cbn [mbind option_bind]. eexists. split; [done|]. cbn. rewrite Htr', set_priorities_step in Hp' by lia.
    replace (s + S n)%nat with (S (s + n)) by lia. by eapply (prioritized_trans q q').
  - exists m, q'. replace (s + (e - s))%nat with e in Hp by lia. done.
Qed.

Lemma ModifyAtOrder_ok q (o : nat) : queue_ok q -> (o < length (items q))%nat ->
  exists q', ModifyAtOrder q (Z.of_nat o) = Some q' /\ moved_ok q q' (tracks q) /\ order q' = order q.
Proof.
  intros Hok Ho. destruct (GetOrderItem_spec q o Hok Ho) as (p & it & Hp & Hit & _). unfold ModifyAtOrder.
  rewrite arr_get_nat, Hp. cbn. apply ModifyAtPosition_ok; [done|by apply lookup_lt_Some in Hit].
Qed.

Lemma order_after_range q (o : nat) : queue_ok q -> (o < length (items q))%nat -> -1 <= order_after q (Z.of_nat o) < GetLength q.
Proof.
  intros Hok Ho. unfold order_after, GetLength. destruct (_ && _ && _); [lia|].
  destruct (Z.ltb_spec (Z.of_nat o + 1) (Z.of_nat (length (items q)))); [lia|]. destruct (_ && _); lia.
Qed.
End Shuffling.
