(* ===== verification/QueueSpec.v ===== *)
(** The play queue against its abstract specification: a queue is two lists
    of songs, by position and in the order of play.  Also the "plchanges"
    protocol (which positions have changed since a version) and the order in
    which the songs are heard. *)
From S2P Require Import Arrays Text Tags Audio Songs SortList StableSort Queue QueueWf QueueOps QueueRandom.
From Stdlib Require Import Sorted.
Open Scope Z_scope.

(** ** Calls *)

Inductive QueueOp :=
| OpAppend (song : DetachedSong) (priority : Z)
| OpSwapPositions (i j : nat)
| OpMovePostion (s t : nat)
| OpMoveRange (s e t : nat)
| OpDeletePosition (p : nat)
| OpClear
| OpRandom (random : bool)
| OpMoveOrder (from to : nat)
| OpShuffleOrder
| OpShuffleOrderRange (s e : nat)
| OpShuffleOrderFirst (s e : nat)
| OpShuffleOrderLastWithPriority (s e : nat)
| OpShuffleRange (s e : nat)
| OpSetPriorityRange (s e : nat) (priority after_order : Z)
| OpModifyAtPosition (p : nat)
| OpIncrementVersion.

Section Spec.
Context `{Random}.

(** A call on the queue.  [random] is a member that its owner sets; when it
    clears it, it calls [RestoreOrder]. *)
Definition call (q : Queue) (op : QueueOp) : option Queue :=
  match op with
  | OpAppend song priority => snd <$> Append q song priority
  | OpSwapPositions i j => SwapPositions q (Z.of_nat i) (Z.of_nat j)
  | OpMovePostion s t => MovePostion q (Z.of_nat s) (Z.of_nat t)
  | OpMoveRange s e t => MoveRange q (Z.of_nat s) (Z.of_nat e) (Z.of_nat t)
  | OpDeletePosition p => DeletePosition q (Z.of_nat p)
  | OpClear => Clear q
  | OpRandom true => Some (with_random true q)
  | OpRandom false => RestoreOrder (with_random false q)
  | OpMoveOrder from to => snd <$> MoveOrder q (Z.of_nat from) (Z.of_nat to)
  | OpShuffleOrder => ShuffleOrder q
  | OpShuffleOrderRange s e => ShuffleOrderRange q (Z.of_nat s) (Z.of_nat e)
  | OpShuffleOrderFirst s e => ShuffleOrderFirst q (Z.of_nat s) (Z.of_nat e)
  | OpShuffleOrderLastWithPriority s e => ShuffleOrderLastWithPriority q (Z.of_nat s) (Z.of_nat e)
  | OpShuffleRange s e => ShuffleRange q (Z.of_nat s) (Z.of_nat e)
  | OpSetPriorityRange s e priority after_order => snd <$> SetPriorityRange q (Z.of_nat s) (Z.of_nat e) priority after_order
  | OpModifyAtPosition p => ModifyAtPosition q (Z.of_nat p)
  | OpIncrementVersion => Some (IncrementVersion q)
  end.

Fixpoint calls (q : Queue) (ops : list QueueOp) : option Queue :=
  match ops with
  | [] => Some q
  | op :: ops => q ← call q op; calls q ops
  end.

(** ** The abstract queue *)

Record AbstractQueue := mkAbstract {
  a_tracks : list Track;
  a_in_order : list Track;
  a_random : bool;
  a_max : nat
}.

Definition abstract (q : Queue) : AbstractQueue :=
  mkAbstract (tracks q) (in_order q) (random q) (Z.to_nat (max_length q)).

(** What the assertions of the code ask of the caller. *)
Definition allowed (a : AbstractQueue) (op : QueueOp) : bool :=
  let n := length (a_tracks a) in
  match op with
  | OpAppend _ priority => (n <? a_max a)%nat && (0 <=? priority) && (priority <? 256)
  | OpSwapPositions i j => (i <? n)%nat && (j <? n)%nat
  | OpMovePostion s t => (s <? n)%nat && (t <? n)%nat
  | OpMoveRange s e t => (s <? e)%nat && (e <=? n)%nat && (t + (e - s) <=? n)%nat
  | OpDeletePosition p | OpModifyAtPosition p => (p <? n)%nat
  | OpClear | OpRandom _ | OpIncrementVersion => true
  | OpMoveOrder from to => a_random a && (from <? n)%nat && (to <? n)%nat
  | OpShuffleOrder => a_random a
  | OpShuffleOrderRange s e => a_random a && (s <=? e)%nat && (e <=? n)%nat
  | OpShuffleOrderFirst s e | OpShuffleOrderLastWithPriority s e => a_random a && (s <? e)%nat && (e <=? n)%nat
  | OpShuffleRange s e => (s <=? e)%nat && (e <=? n)%nat
  | OpSetPriorityRange s e priority after_order =>
      (s <=? e)%nat && (e <=? n)%nat && (0 <=? priority) && (priority <? 256) && (-1 <=? after_order) && (after_order <? Z.of_nat n)
  end.

(** Two songs exchange their turns. *)
Definition exchange (a b : Track) (l : list Track) : list Track :=
  (fun x => if track_id x =? track_id a then b else if track_id x =? track_id b then a else x) <$> l.

(** The order of play when the songs have been rearranged. *)
Definition follows (a a' : AbstractQueue) (in_order_of : list Track -> list Track) : Prop :=
  a_in_order a' = if a_random a then in_order_of (a_in_order a) else a_tracks a'.

(** What a call does. *)
Definition effect (a : AbstractQueue) (op : QueueOp) (a' : AbstractQueue) : Prop :=
  a_max a' = a_max a /\ a_random a' = (match op with OpRandom r => r | _ => a_random a end) /\
  a_in_order a' ≡ₚ a_tracks a' /\ (a_random a' = false -> a_in_order a' = a_tracks a') /\
  match op with
  | OpAppend song priority => exists id, id ∉ track_id <$> a_tracks a /\ 1 <= id < 4 * Z.of_nat (a_max a) /\
      a_tracks a' = a_tracks a ++ [(id, song, priority)] /\ a_in_order a' = a_in_order a ++ [(id, song, priority)]
  | OpSwapPositions i j => a_tracks a' = swap_at i j (a_tracks a) /\
      forall x y, a_tracks a !! i = Some x -> a_tracks a !! j = Some y -> a_in_order a' = exchange x y (a_in_order a)
  | OpMovePostion s t => a_tracks a' = move_range s (S s) t (a_tracks a) /\ follows a a' (fun l => l)
  | OpMoveRange s e t => a_tracks a' = move_range s e t (a_tracks a) /\ follows a a' (fun l => l)
  | OpDeletePosition p => a_tracks a' = delete p (a_tracks a) /\
      exists x o, a_tracks a !! p = Some x /\ a_in_order a !! o = Some x /\ a_in_order a' = delete o (a_in_order a)
  | OpClear => a_tracks a' = []
  | OpRandom r => a_tracks a' = a_tracks a /\ (r = true -> a_in_order a' = a_in_order a)
  | OpMoveOrder from to => a_tracks a' = a_tracks a /\ a_in_order a' = move_range from (S from) to (a_in_order a)
  | OpShuffleOrder => a_tracks a' = a_tracks a /\ StronglySorted Z.ge (snd <$> a_in_order a')
  | OpShuffleOrderRange s e | OpShuffleOrderFirst s e | OpShuffleOrderLastWithPriority s e =>
      a_tracks a' = a_tracks a /\ range_perm s e (a_in_order a) (a_in_order a')
  | OpShuffleRange s e => range_perm s e (a_tracks a) (a_tracks a')
  | OpSetPriorityRange s e priority _ => a_tracks a' = set_priorities s e priority (a_tracks a)
  | OpModifyAtPosition _ | OpIncrementVersion => a_tracks a' = a_tracks a /\ a_in_order a' = a_in_order a
  end.

(** ** Lemmas *)

Lemma Queue_new_ok n : 1 <= n < 2 ^ 30 -> queue_ok (Queue_new n).
Proof.
  intros Hn. assert (u32 (n * HASH_MULT) = 4 * n) as E by (rewrite u32_id; unfold HASH_MULT; lia).
  split; cbn.
  - split; cbn; rewrite ?E; try done; try (unfold t_initialized; cbn; lia).
    intros id p Hd Hp. exfalso. unfold data_at, arr_get in Hd. cbn in Hd. destruct (id <? 0); [done|].
    destruct (Z.to_nat id) as [|[|k]]; cbn in Hd; discriminate.
  - by unfold order_ok.
  - done.
  - unfold GetLength. cbn. rewrite E. lia.
  - done.
  - done.
Qed.

Lemma in_order_same q q' : items q' = items q -> order q' = order q -> in_order q' = in_order q.
Proof. unfold in_order. by intros -> ->. Qed.

(** A permutation of the order numbers in a range permutes the turns. *)
Lemma in_order_range q q' s e : queue_ok q -> items q' = items q -> (s <= e <= length (items q))%nat ->
  range_perm s e (order q) (order q') -> range_perm s e (in_order q) (in_order q').
Proof.
  intros Hok Hit Hs (block & Hb & Ho).
  assert (forall x, x ∈ order q -> is_Some (arr_get (tracks q) x)) as Ht by (intros; by apply order_get_Some).
  assert (forall x, x ∈ drop s (order q) -> is_Some (arr_get (tracks q) x)) as Hd.
  { intros x Hx. apply Ht. rewrite <- (take_drop s (order q)). apply elem_of_app. by right. }
  exists (omap (arr_get (tracks q)) block). rewrite !in_order_tracks.
  rewrite <- omap_drop, <- omap_take by done. split; [by rewrite Hb|].
  rewrite <- omap_take, <- omap_drop by done. rewrite Ho. unfold tracks at 1. rewrite Hit. fold (tracks q). by rewrite !omap_of_app.
Qed.

(** What every operation that keeps the invariant keeps. *)
Lemma effect_intro q q' op (a' := abstract q') :
  queue_ok q' -> max_length q' = max_length q -> random q' = (match op with OpRandom r => r | _ => random q end) ->
  (a_max a' = a_max (abstract q) -> a_random a' = (match op with OpRandom r => r | _ => a_random (abstract q) end) ->
   a_in_order a' ≡ₚ a_tracks a' -> (a_random a' = false -> a_in_order a' = a_tracks a') -> effect (abstract q) op a') ->
  effect (abstract q) op a'.
Proof.
  intros Hok Hm Hr Hk. apply Hk; cbn; [by rewrite Hm|done|by apply in_order_perm|].
  intros E. apply in_order_plain. by apply Hok.
Qed.
(** A call that is allowed returns, keeps the invariant, has its effect, and
    gives the current version to everything it changes. *)
Definition call_ok (q : Queue) (op : QueueOp) : Prop :=
  exists q', call q op = Some q' /\ queue_ok q' /\ effect (abstract q) op (abstract q') /\
    (op <> OpIncrementVersion -> version q' = version q /\ marked (version q) (items q) (items q')).

Ltac allowed_hyps H := unfold allowed in H; cbn [a_tracks a_random a_max abstract] in H; rewrite ?length_tracks in H;
  rewrite ?andb_true_iff, ?Nat.ltb_lt, ?Nat.leb_le, ?Z.ltb_lt, ?Z.leb_le in H.

Lemma call_append q song priority : queue_ok q -> allowed (abstract q) (OpAppend song priority) = true -> call_ok q (OpAppend song priority).
Proof.
  intros Hok Ha. allowed_hyps Ha. destruct Ha as [[Hlen Hp1] Hp2].
  pose proof (ok_max q Hok) as (Hm & _).
  assert (IsFull q = false) as Hfull by (unfold IsFull, GetLength; apply Z.leb_gt; lia).
  destruct (Append_ok q song priority Hok Hfull ltac:(lia)) as (id & q' & Hc & Hok' & Hnew & Hid & Htr & Hin & Hr & Hv & Hmax & _ & Hit).
  exists q'. cbn [call]. rewrite Hc. split; [done|]. split; [done|]. split.
  - apply effect_intro; try done. intros. split_and!; try done. exists id. cbn. rewrite Htr, Hin. split_and!; done || lia.
  - intros _. split; [done|]. rewrite Hit. intros j it Hj. apply lookup_app_Some in Hj as [Hj|[_ Hj]]; [by right|].
    apply list_lookup_singleton_Some in Hj as [_ <-]. by left.
Qed.

Lemma fmap_of_omap {A B C} (f : B -> C) (g : A -> option B) (l : list A) : f <$> omap g l = omap (fun a => f <$> g a) l.
Proof. induction l as [|a l IH]; [done|]. cbn. destruct (g a); cbn; [f_equal|]; done. Qed.

Lemma swap_exchange q q' i j x y : queue_ok q -> tracks q' = swap_at i j (tracks q) -> order q' = order q ->
  tracks q !! i = Some x -> tracks q !! j = Some y -> in_order q' = exchange x y (in_order q).
Proof.
  intros Hok Htr Ho Hx Hy. rewrite !in_order_tracks, Ho, Htr. unfold exchange.
  rewrite fmap_of_omap. apply omap_ext_elem. intros o Hin. destruct (order_ok_range q o (ok_order q Hok) Hin) as (p & -> & Hp).
  pose proof (lookup_lt_Some _ _ _ Hx). pose proof (lookup_lt_Some _ _ _ Hy). rewrite !arr_get_nat, lookup_swap_at by done.
  assert (forall a b (k l : nat), tracks q !! k = Some a -> tracks q !! l = Some b -> track_id a = track_id b -> k = l) as Hinj.
  { intros a b k l Hk Hl E. apply (NoDup_lookup (track_id <$> tracks q) k l (track_id a)); [by apply tracks_NoDup| |];
      rewrite list_lookup_fmap; [by rewrite Hk|by rewrite Hl, E]. }
  rewrite <- (length_tracks q) in Hp. destruct (lookup_lt_is_Some_2 (tracks q) p Hp) as [z Hz]. rewrite Hz. cbn. unfold swap_index.
  destruct (decide (p = i)) as [->|Hpi]; [|destruct (decide (p = j)) as [->|Hpj]].
  - rewrite Hz in Hx. injection Hx as <-. by rewrite Z.eqb_refl.
  - rewrite Hz in Hy. injection Hy as <-. rewrite Z.eqb_refl. destruct (Z.eqb_spec (track_id z) (track_id x)) as [E|_]; [|done].
    by destruct (Hpi (Hinj z x j i Hz Hx E)).
  - destruct (Z.eqb_spec (track_id z) (track_id x)) as [E|_]; [by destruct (Hpi (Hinj z x p i Hz Hx E))|].
    destruct (Z.eqb_spec (track_id z) (track_id y)) as [E|_]; [by destruct (Hpj (Hinj z y p j Hz Hy E))|]. done.
Qed.

Lemma call_swap q i j : queue_ok q -> allowed (abstract q) (OpSwapPositions i j) = true -> call_ok q (OpSwapPositions i j).
Proof.
  intros Hok Ha. allowed_hyps Ha. destruct Ha as [Hi Hj].
  destruct (SwapPositions_ok q i j Hok Hi Hj) as (q' & Hc & [Hok' Htr Hr Hv Hm Hmk] & Ho).
  exists q'. split; [done|]. split; [done|]. split; [|by intros _].
  apply effect_intro; try done. intros. split_and!; try done. intros x y Hx Hy. by apply (swap_exchange q q' i j).
Qed.

(** The two operations that move a block. *)
Lemma call_moved q q' op new : queue_ok q -> call q op = Some q' -> moved_ok q q' new ->
  in_order q' = (if random q then in_order q else tracks q') ->
  (forall a', a_tracks a' = new -> follows (abstract q) a' (fun l => l) ->
    effect (abstract q) op a' <-> (a_max a' = a_max (abstract q) /\ a_random a' = a_random (abstract q) /\ a_in_order a' ≡ₚ a_tracks a' /\
      (a_random a' = false -> a_in_order a' = a_tracks a'))) -> call_ok q op.
Proof.
  intros Hok Hc [Hok' Htr Hr Hv Hm Hmk] Hin He. exists q'. split; [done|]. split; [done|]. split; [|by intros _].
  apply He; [done|done|]. cbn. split; [by rewrite Hm|]. split; [done|]. split; [by apply in_order_perm|].
  intros E. apply in_order_plain. by apply Hok'.
Qed.

Lemma call_move_range q s e t : queue_ok q -> allowed (abstract q) (OpMoveRange s e t) = true -> call_ok q (OpMoveRange s e t).
Proof.
  intros Hok Ha. allowed_hyps Ha. destruct Ha as [[Hse He] Ht].
  destruct (MoveRange_ok q s e t Hok ltac:(lia) Ht) as (q' & Hc & Hm & Hin).
  apply (call_moved q q' (OpMoveRange s e t) _ Hok Hc Hm Hin). intros a' Htr Hf. unfold effect. cbn [abstract a_tracks] in *. naive_solver.
Qed.

Lemma call_move_position q s t : queue_ok q -> allowed (abstract q) (OpMovePostion s t) = true -> call_ok q (OpMovePostion s t).
Proof.
  intros Hok Ha. allowed_hyps Ha. destruct Ha as [Hs Ht].
  destruct (MovePostion_ok q s t Hok Hs Ht) as (q' & Hc & Hm & Hin).
  apply (call_moved q q' (OpMovePostion s t) _ Hok Hc Hm Hin). intros a' Htr Hf. unfold effect. cbn [abstract a_tracks] in *. naive_solver.
Qed.

Lemma call_delete q p : queue_ok q -> allowed (abstract q) (OpDeletePosition p) = true -> call_ok q (OpDeletePosition p).
Proof.
  intros Hok Hp. allowed_hyps Hp. destruct (DeletePosition_ok q p Hok Hp) as (q' & o & Hc & Hd).
  pose proof Hd as [Hok' Htr Ho _ Hin (Hr & Hv & Hm & _) Hmk]. exists q'. split; [done|]. split; [done|]. split; [|by intros _].
  apply effect_intro; try done. intros. split_and!; try done. cbn.
  destruct (lookup_lt_is_Some_2 (tracks q) p) as [x Hx]; [by rewrite length_tracks|]. exists x, o. split; [done|]. split; [|done].
  by rewrite (lookup_in_order q o (Z.of_nat p)), arr_get_nat.
Qed.

Lemma call_clear q : queue_ok q -> call_ok q OpClear.
Proof.
  intros Hok. destruct (Clear_ok q Hok) as (q' & Hc & Hok' & Hit & Ho & _ & Hr & Hv & Hm). exists q'. split; [done|]. split; [done|]. split.
  - apply effect_intro; try done. intros. split_and!; try done. cbn. unfold tracks. by rewrite Hit.
  - intros _. split; [done|]. rewrite Hit. by intros j it Hj.
Qed.

Lemma queue_ok_with_random q : queue_ok q -> queue_ok (with_random true q).
Proof. intros []. by split. Qed.

Lemma call_random q r : queue_ok q -> call_ok q (OpRandom r).
Proof.
  intros Hok. destruct r.
  - exists (with_random true q). split; [done|]. split; [by apply queue_ok_with_random|]. split; [|intros _; split; [done|apply marked_refl]].
    apply effect_intro; [by apply queue_ok_with_random|done|done|]. intros. by split_and!.
  - destruct (RestoreOrder_ok (with_random false q)) as (q' & Hc & Hok' & Hit & Ho & Hin & Hr & Hv & Hm);
      [exact (queue_ok_with_random q Hok)|].
    exists q'. split; [done|]. split; [done|]. split; [|intros _; split; [done|rewrite Hit; apply marked_refl]].
    apply effect_intro; try done. intros. split_and!; try done. cbn. unfold tracks. by rewrite Hit.
Qed.

(** The operations on the order alone. *)
Lemma call_reordered q q' op : queue_ok q -> call q op = Some q' -> reordered_ok q q' -> (match op with OpRandom r => r | _ => random q end) = random q ->
  (tracks q' = tracks q -> a_max (abstract q') = a_max (abstract q) -> a_random (abstract q') = (match op with OpRandom r => r | _ => a_random (abstract q) end) ->
   a_in_order (abstract q') ≡ₚ a_tracks (abstract q') -> (a_random (abstract q') = false -> a_in_order (abstract q') = a_tracks (abstract q')) ->
   effect (abstract q) op (abstract q')) -> call_ok q op.
Proof.
  intros Hok Hc Hre Eop He. pose proof (reordered_tracks _ _ Hre) as Htr. destruct Hre as [Hok' Hit Hr Hv Hm].
  exists q'. split; [done|]. split; [done|]. split; [|intros _; split; [done|rewrite Hit; apply marked_refl]].
  apply effect_intro; try done; [congruence|]. intros. by apply He.
Qed.

Lemma call_move_order q from to : queue_ok q -> allowed (abstract q) (OpMoveOrder from to) = true -> call_ok q (OpMoveOrder from to).
Proof.
  intros Hok Ha. allowed_hyps Ha. destruct Ha as [[Hr Hf] Ht].
  destruct (MoveOrder_ok q from to Hok Hr Hf Ht) as (q' & Hc & Hre & _ & Hin).
  apply (call_reordered q q'); [done|cbn [call]; by rewrite Hc|done|done|]. intros. by split_and!.
Qed.

Context {Hlaws : RandomLaws}.

Lemma call_shuffle q : queue_ok q -> allowed (abstract q) OpShuffleOrder = true -> call_ok q OpShuffleOrder.
Proof.
  intros Hok Hr. allowed_hyps Hr. destruct (ShuffleOrder_ok q Hok Hr) as (q' & Hc & Hre & Hs).
  apply (call_reordered q q'); [done..|]. intros. split_and!; try done. cbn. rewrite <- prios_in_order; [done|by destruct Hre].
Qed.

Lemma call_shuffled q op s e : queue_ok q -> (s <= e <= length (items q))%nat ->
  (exists q', call q op = Some q' /\ shuffled_ok q q' s e) ->
  (op = OpShuffleOrderRange s e \/ op = OpShuffleOrderFirst s e \/ op = OpShuffleOrderLastWithPriority s e) -> call_ok q op.
Proof.
  intros Hok Hs (q' & Hc & [Hre Hp]) Hop.
  assert (range_perm s e (in_order q) (in_order q')) as Hin by (apply in_order_range; try done; by destruct Hre).
  apply (call_reordered q q'); try done; destruct Hop as [->|[->| ->]]; try done; intros; by split_and!.
Qed.

Lemma call_shuffle_range q s e : queue_ok q -> allowed (abstract q) (OpShuffleRange s e) = true -> call_ok q (OpShuffleRange s e).
Proof.
  intros Hok Ha. allowed_hyps Ha. destruct (ShuffleRange_ok q s e Hok Ha) as (q' & new & Hc & [Hok' Htr Hr Hv Hm Hmk] & Hp & _).
  exists q'. split; [done|]. split; [done|]. split; [|by intros _]. apply effect_intro; try done. intros. split_and!; try done.
  cbn. by rewrite Htr.
Qed.

Lemma call_priority q s e priority after : queue_ok q -> allowed (abstract q) (OpSetPriorityRange s e priority after) = true ->
  call_ok q (OpSetPriorityRange s e priority after).
Proof.
  intros Hok Ha. allowed_hyps Ha. destruct Ha as [[[[[Hs He] Hp1] Hp2] Ha1] Ha2].
  destruct (SetPriorityRange_ok q s e priority after Hok ltac:(lia) ltac:(lia) ltac:(unfold GetLength; lia))
    as (m & q' & Hc & [Hok' Htr Hr Hv Hm Hmk _]).
  exists q'. split; [cbn [call]; by rewrite Hc|]. split; [done|]. split; [|by intros _]. apply effect_intro; try done; intros; by split_and!.
Qed.

Lemma call_modify q p : queue_ok q -> allowed (abstract q) (OpModifyAtPosition p) = true -> call_ok q (OpModifyAtPosition p).
Proof.
  intros Hok Hp. allowed_hyps Hp. destruct (ModifyAtPosition_ok q p Hok Hp) as (q' & Hc & [Hok' Htr Hr Hv Hm Hmk] & Ho).
  exists q'. split; [done|]. split; [done|]. split; [|by intros _]. apply effect_intro; try done. intros. split_and!; try done.
  cbn. rewrite !in_order_tracks. by rewrite Htr, Ho.
Qed.

Lemma call_increment q : queue_ok q -> call_ok q OpIncrementVersion.
Proof.
  intros Hok. destruct (IncrementVersion_ok q Hok) as (Hok' & Htr & Ho & Hin & Hr). exists (IncrementVersion q).
  split; [done|]. split; [done|]. split; [|done]. apply effect_intro; try done.
  unfold IncrementVersion. by destruct (_ <=? _).
Qed.

Lemma call_total q op : queue_ok q -> allowed (abstract q) op = true -> call_ok q op.
Proof.
  intros Hok Ha. destruct op.
  - by apply call_append.
  - by apply call_swap.
  - by apply call_move_position.
  - by apply call_move_range.
  - by apply call_delete.
  - by apply call_clear.
  - by apply call_random.
  - by apply call_move_order.
  - by apply call_shuffle.
  - allowed_hyps Ha. apply (call_shuffled q _ s e); [done|lia| |by left]. apply ShuffleOrderRange_ok; [done|tauto|lia].
  - allowed_hyps Ha. apply (call_shuffled q _ s e); [done|lia| |by right; left]. apply ShuffleOrderFirst_ok; [done|tauto|lia].
  - allowed_hyps Ha. apply (call_shuffled q _ s e); [done|lia| |by right; right]. apply ShuffleOrderLastWithPriority_ok; [done|tauto|lia].
  - by apply call_shuffle_range.
  - by apply call_priority.
  - by apply call_modify.
  - by apply call_increment.
Qed.
(** A caller that checks what the code asserts. *)
Definition checked_call (q : Queue) (op : QueueOp) : option Queue :=
  if allowed (abstract q) op then call q op else Some q.

Fixpoint checked_calls (q : Queue) (ops : list QueueOp) : option Queue :=
  match ops with
  | [] => Some q
  | op :: ops => q ← checked_call q op; checked_calls q ops
  end.

Lemma checked_calls_ok q ops : queue_ok q -> exists q', checked_calls q ops = Some q' /\ queue_ok q'.
Proof.
  revert q. induction ops as [|op ops IH]; intros q Hok; [by exists q|]. cbn [checked_calls]. unfold checked_call.
  destruct (allowed (abstract q) op) eqn:Ea; [|by apply IH].
  destruct (call_total q op Hok Ea) as (q1 & -> & Hok1 & _). by apply IH.
Qed.

(** The version numbers, as long as the counter is not reset. *)
Definition increments (ops : list QueueOp) : Z :=
  Z.of_nat (length (List.filter (fun op => match op with OpIncrementVersion => true | _ => false end) ops)).

Lemma increments_cons op ops : increments (op :: ops) = increments ops + match op with OpIncrementVersion => 1 | _ => 0 end.
Proof. unfold increments. destruct op; cbn [List.filter length]; lia. Qed.

Definition unchanged_since (v : Z) (l0 l : list Item) : Prop :=
  forall (j : nat) it, l !! j = Some it -> v <= i_version it \/ l0 !! j = Some it.

Lemma checked_calls_versions q0 ops : queue_ok q0 -> forall q v, queue_ok q -> unchanged_since v (items q0) (items q) -> v <= version q ->
  version q + increments ops < max_version ->
  forall q', checked_calls q ops = Some q' -> unchanged_since v (items q0) (items q') /\ v <= version q' /\ queue_ok q'.
Proof.
  intros Hok0. induction ops as [|op ops IH]; intros q v Hok Hu Hv Hmax q' Hq; [by injection Hq as <-|].
  rewrite increments_cons in Hmax. assert (0 <= increments ops) by (unfold increments; lia).
  cbn [checked_calls] in Hq. unfold checked_call in Hq. destruct (allowed (abstract q) op) eqn:Ea.
  2: { cbn in Hq. apply (IH q v); try done. destruct op; lia. }
  destruct (call_total q op Hok Ea) as (q1 & Hc & Hok1 & _ & Hm). rewrite Hc in Hq. cbn in Hq.
  assert (op = OpIncrementVersion \/ op <> OpIncrementVersion) as [->|Hne] by (destruct op; auto).
  - injection Hc as <-. assert (IncrementVersion q = with_version (version q + 1) q) as E.
    { unfold IncrementVersion. pose proof (ok_version q Hok). unfold max_version in *. rewrite u32_id by lia. cbn.
      destruct (Z.leb_spec (2 ^ 31 - 1) (version q + 1)); [lia|done]. }
    rewrite E in Hq, Hok1. apply (IH (with_version (version q + 1) q) v); try done; cbn; lia.
  - destruct (Hm Hne) as [Hv1 Hmk]. apply (IH q1 v); try done; [|lia|rewrite Hv1; destruct op; lia].
    intros j it Hj. destruct (Hmk j it Hj) as [->|Hj']; [left; lia|by apply Hu].
Qed.

(** The songs that are heard from an order number on, if nothing else
    happens; the fuel is the number of songs. *)
Fixpoint played (fuel : nat) (q : Queue) (o : Z) : option (list DetachedSong) :=
  match fuel with
  | O => None
  | S fuel =>
      song ← GetOrder q o;
      let next := order_after q o in
      if next <? 0 then Some [song] else songs ← played fuel q next; Some (song :: songs)
  end.

Lemma played_rest q (k : nat) : queue_ok q -> repeat q = false -> (k < length (items q))%nat ->
  played (length (items q) - k) q (Z.of_nat k) = Some ((fun x : Track => x.1.2) <$> drop k (in_order q)).
Proof.
  intros Hok Hrep Hk. remember (length (items q) - k)%nat as n eqn:En. revert k Hk En.
  induction n as [|n IH]; intros k Hk En; [lia|]. cbn [played].
  destruct (GetOrderItem_spec q k Hok Hk) as (p & it & Ho & Hit & _). unfold GetOrder, OrderToPosition, Get.
  rewrite arr_get_nat, Ho. cbn [mbind option_bind]. rewrite arr_get_nat, Hit. cbn [mbind option_bind fmap option_fmap option_map].
  assert (in_order q !! k = Some (track it)) as Hin.
  { rewrite (lookup_in_order q k (Z.of_nat p) Hok Ho), arr_get_nat. unfold tracks. by rewrite list_lookup_fmap, Hit. }
  rewrite (drop_S _ _ _ Hin). unfold order_after. rewrite Hrep, andb_false_r. cbn [andb]. unfold GetLength.
  destruct (Z.ltb_spec (Z.of_nat k + 1) (Z.of_nat (length (items q)))).
  - replace (Z.of_nat k + 1) with (Z.of_nat (S k)) by lia. destruct (Z.ltb_spec (Z.of_nat (S k)) 0); [lia|].
    rewrite IH by lia. done.
  - rewrite drop_ge; [done|]. rewrite (Permutation_length (in_order_perm q Hok)), length_tracks. lia.
Qed.
End Spec.

(** ** Properties *)

(** C16: Every call whose assertions hold returns, keeps the invariant of the
    queue (no access outside the arrays, unique ids that the table maps to
    the positions, an order that is a permutation), and does to the two
    lists of the abstract queue what [effect] says. *)
Theorem Queue_refines `{RandomLaws} (q : Queue) (op : QueueOp) (Hok : queue_ok q) (Hallowed : allowed (abstract q) op = true) :
  exists q', call q op = Some q' /\ queue_ok q' /\ effect (abstract q) op (abstract q').
Proof. destruct (call_total q op Hok Hallowed) as (q' & Hc & Hok' & He & _). by exists q'. Qed.

(** C18: From an empty queue every sequence of calls returns a queue that
    satisfies the invariant: ids are unique and between 1 and 4 [max_length],
    the table finds every song by its id and no other, and every song has
    exactly one turn. *)
Theorem Queue_invariant `{RandomLaws} (n : Z) (ops : list QueueOp) (Hn : 1 <= n < 2 ^ 30) :
  exists q, checked_calls (Queue_new n) ops = Some q /\ queue_ok q /\
    NoDup (track_id <$> tracks q) /\ in_order q ≡ₚ tracks q /\
    (forall id p, 1 <= id -> 0 <= p -> IdToPosition q id = Some p <-> exists x, tracks q !! Z.to_nat p = Some x /\ track_id x = id).
Proof.
  destruct (checked_calls_ok (Queue_new n) ops (Queue_new_ok n Hn)) as (q & Hq & Hok). exists q.
  split; [done|]. split; [done|]. split; [by apply tracks_NoDup|]. split; [by apply in_order_perm|].
  intros id p Hid Hp. unfold IdToPosition, IdTable_IdToPosition. split.
  - destruct (Z.ltb_spec id (t_initialized (id_table q))); [|intros [= ?]; lia]. intros Hd.
    pose proof (table_used _ _ (ok_table q Hok) id p Hd Hp) as Hin. apply elem_of_ids in Hin as (i & it & Hi & <-).
    rewrite (ok_found q Hok i it Hi) in Hd. injection Hd as <-. exists (track it). rewrite Nat2Z.id. unfold tracks.
    by rewrite list_lookup_fmap, Hi.
  - intros (x & Hx & <-). unfold tracks in Hx. rewrite list_lookup_fmap in Hx. apply fmap_Some in Hx as (it & Hit & ->).
    pose proof (ok_found q Hok _ it Hit) as Hd. pose proof (data_at_range _ _ _ Hd). rewrite track_id_item.
    destruct (Z.ltb_spec (i_id it) (t_initialized (id_table q))); [|lia]. rewrite Hd. f_equal. lia.
Qed.

(** C19: A client that asks which positions have changed since the version
    it has seen misses no change: a position that is not reported holds the
    same song, with the same id and priority, as then.  This holds until the
    counter is reset. *)
Theorem plchanges_sound `{RandomLaws} (q0 q : Queue) (ops : list QueueOp) (Hok : queue_ok q0)
  (Hcalls : checked_calls q0 ops = Some q) (Hcounter : version q0 + increments ops < max_version) (p : nat) :
  IsNewerAtPosition q (Z.of_nat p) (version q0) = Some false -> tracks q !! p = tracks q0 !! p.
Proof.
  destruct (checked_calls_versions q0 ops Hok q0 (version q0) Hok) with (q' := q) as (Hu & Hv & _); try done; try lia.
  { intros j it Hj. by right. }
  unfold IsNewerAtPosition. rewrite arr_get_nat. destruct (items q !! p) as [it|] eqn:E; [|done]. cbn. intros [= Hf].
  apply orb_false_iff in Hf as [Hf _]. apply orb_false_iff in Hf as [_ Hf]. apply Z.leb_gt in Hf.
  destruct (Hu p it E) as [?|E0]; [lia|]. unfold tracks. by rewrite !list_lookup_fmap, E, E0.
Qed.

(** Without repeat, playback from the first order number visits every
    song exactly once, in the order of play, and ends. *)
Theorem played_once `{Random} (q : Queue) (Hok : queue_ok q) (Hsome : IsEmpty q = false) (Hrepeat : repeat q = false) :
  played (length (items q)) q 0 = Some ((fun x : Track => x.1.2) <$> in_order q) /\ in_order q ≡ₚ tracks q.
Proof.
  split; [|by apply in_order_perm]. unfold IsEmpty, GetLength in Hsome. apply Z.eqb_neq in Hsome.
  pose proof (played_rest q 0 Hok Hrepeat ltac:(lia)) as Hp. by rewrite Nat.sub_0_r, drop_0 in Hp.
Qed.

(** ** A sample queue *)

(** A generator that reverses instead of shuffling and takes the last
    value of every range. *)
Definition sample_random : Random := {|
  Engine := unit;
  seeded := tt;
  std_shuffle := fun r l => (List.rev l, r);
  std_uniform := fun r a b => (b, r)
|}.

Lemma sample_random_laws : @RandomLaws sample_random.
Proof. split; intros; cbn; [by rewrite <- Permutation_rev|lia]. Qed.

Definition sample_song (uri : string) : DetachedSong := DetachedSong_new (lit uri).

Definition sample_ops : list QueueOp :=
  [OpAppend (sample_song "a") 0; OpAppend (sample_song "b") 7; OpAppend (sample_song "c") 0; OpIncrementVersion;
   OpRandom true; OpShuffleOrder; OpDeletePosition 0; OpAppend (sample_song "d") 0; OpMoveRange 0 2 1; OpIncrementVersion].

Definition sample_queue : @Queue sample_random := default (Queue_new 10) (@checked_calls sample_random (Queue_new 10) sample_ops).

(** Song [b] has the highest priority and is played first. *)
Lemma sample_queue_tracks : (track_id <$> @tracks sample_random sample_queue, track_id <$> @in_order sample_random sample_queue) = ([4; 2; 3], [2; 3; 4]).
Proof. vm_compute. reflexivity. Qed.

Lemma sample_queue_ok : @queue_ok sample_random sample_queue.
Proof.
  destruct (@checked_calls_ok sample_random sample_random_laws (Queue_new 10) sample_ops) as (q & Hq & Hok).
  { apply Queue_new_ok. lia. }
  unfold sample_queue. by rewrite Hq.
Qed.

Lemma Queue_refines_witness : exists q', @call sample_random sample_queue (OpMoveRange 1 3 0) = Some q' /\
  @queue_ok sample_random q' /\ effect (@abstract sample_random sample_queue) (OpMoveRange 1 3 0) (@abstract sample_random q').
Proof.
  apply (@Queue_refines sample_random sample_random_laws); [exact sample_queue_ok|]. vm_compute. reflexivity.
Defined.

Lemma Queue_invariant_witness : exists q, @checked_calls sample_random (Queue_new 10) sample_ops = Some q /\ @queue_ok sample_random q /\
  NoDup (track_id <$> @tracks sample_random q) /\ @in_order sample_random q ≡ₚ @tracks sample_random q /\
  (forall id p, 1 <= id -> 0 <= p -> @IdToPosition sample_random q id = Some p <->
     exists x, @tracks sample_random q !! Z.to_nat p = Some x /\ track_id x = id).
Proof. apply (@Queue_invariant sample_random sample_random_laws). lia. Defined.

Definition sample_later : @Queue sample_random :=
  default sample_queue (@checked_calls sample_random sample_queue [OpSwapPositions 0 1; OpIncrementVersion]).

Lemma plchanges_sound_witness :
  @IsNewerAtPosition sample_random sample_later 2 (@version sample_random sample_queue) = Some false /\
  @tracks sample_random sample_later !! 2%nat = @tracks sample_random sample_queue !! 2%nat.
Proof.
  assert (@IsNewerAtPosition sample_random sample_later 2 (@version sample_random sample_queue) = Some false) as E by (vm_compute; reflexivity).
  split; [exact E|].
  apply (@plchanges_sound sample_random sample_random_laws sample_queue sample_later [OpSwapPositions 0 1; OpIncrementVersion]).
  - exact sample_queue_ok.
  - vm_compute. reflexivity.
  - vm_compute. reflexivity.
  - exact E.
Defined.

Lemma played_once_witness :
  @played sample_random (length (@items sample_random sample_queue)) sample_queue 0 =
    Some ((fun x : Track => x.1.2) <$> @in_order sample_random sample_queue) /\
  @in_order sample_random sample_queue ≡ₚ @tracks sample_random sample_queue.
Proof.
  apply (@played_once sample_random); [exact sample_queue_ok|vm_compute; reflexivity|vm_compute; reflexivity].
Defined.
