(* ===== verification/PlayControl.v ===== *)
(** Playing the queue: [playlist] in [src/queue/Playlist.cxx],
    [PlaylistControl.cxx], [PlaylistEdit.cxx], [PlaylistTag.cxx] and
    [PlaylistUpdate.cxx].

    The methods change the playlist, give commands to the player and notify
    the listener, and may throw: a computation takes the state ([World]) and
    gives the new one with a result, or [None] for undefined behaviour (an
    order number or a position that is not there, a failed assertion of the
    player).  A pointer to a song of the queue is the id of its item.

    The player is an interface ([PlayerControl]): it runs in a thread of its
    own, so every call may change its state. *)
From S2P Require Import Arrays Text Chrono Tags Audio Songs RangeArg SortList StableSort Queue.
From Stdlib Require Import SpecFloat.
Open Scope Z_scope.

(** ** The player (player/Control.hxx) *)

Inductive PlayerState := PLAYER_STOP | PLAYER_PAUSE | PLAYER_PLAY.
Inductive PlayerError := PLAYER_ERROR_NONE | PLAYER_ERROR_DECODER | PLAYER_ERROR_OUTPUT.
#[export] Instance PlayerState_eq_dec : EqDecision PlayerState.
Proof. solve_decision. Defined.
#[export] Instance PlayerError_eq_dec : EqDecision PlayerError.
Proof. solve_decision. Defined.

Record SyncInfo := mkSyncInfo { sync_state : PlayerState; has_next_song : bool }.
Record PlayerStatus := mkPlayerStatus
  { status_state : PlayerState; bit_rate : Z; status_audio_format : AudioFormat; total_time : Z; elapsed_time : Z }.

Inductive ReplayGainMode := RG_OFF | RG_ALBUM | RG_TRACK | RG_AUTO.
#[export] Instance ReplayGainMode_eq_dec : EqDecision ReplayGainMode.
Proof. solve_decision. Defined.

Class PlayerControl := {
  Player : Type;
  (** whether the player may hold a song to be played next *)
  has_next : Player -> bool;
  LockEnqueueSong : DetachedSong -> Player -> Player;
  LockCancel : Player -> Player;
  LockStop : Player -> Player;
  (** these two may throw *)
  Play : DetachedSong -> Player -> Player * option bytes;
  LockSeek : DetachedSong -> Z -> Player -> Player * option bytes;
  LockSetPause : bool -> Player -> Player;
  LockPause : Player -> Player;
  LockSetBorderPause : bool -> Player -> Player;
  LockClearError : Player -> Player;
  LockUpdateAudio : Player -> Player;
  LockSetReplayGainMode : ReplayGainMode -> Player -> Player;
  (** seconds, decibels *)
  SetCrossFade : spec_float -> Player -> Player;
  SetMixRampDb : spec_float -> Player -> Player;
  SetMixRampDelay : spec_float -> Player -> Player;
  GetState : Player -> PlayerState * Player;
  GetErrorType : Player -> PlayerError * Player;
  LockGetSyncInfo : Player -> SyncInfo * Player;
  LockGetStatus : Player -> PlayerStatus * Player;
  GetCrossFade : Player -> spec_float;
  GetMixRampDb : Player -> spec_float;
  GetMixRampDelay : Player -> spec_float;
  (** the message of the error *)
  LockCheckRethrowError : Player -> option bytes
}.

(** What the playlist relies on: only [LockEnqueueSong] gives the player a
    next song, and the commands that cancel it have done so when they
    return; [LockGetSyncInfo] says whether there is one, and a player that
    has stopped does not start by itself. *)
Class PlayerLaws `{PlayerControl} : Prop := {
  cancel_law p : has_next (LockCancel p) = false;
  stop_law p : has_next (LockStop p) = false;
  play_law s p : has_next (fst (Play s p)) = false;
  seek_law s t p : has_next (fst (LockSeek s t p)) = false;
  pause_law b p : has_next p = false -> has_next (LockSetPause b p) = false;
  pause_toggle_law p : has_next p = false -> has_next (LockPause p) = false;
  replay_gain_law m p : has_next p = false -> has_next (LockSetReplayGainMode m p) = false;
  cross_fade_law d p : has_next p = false -> has_next (SetCrossFade d p) = false;
  mix_ramp_db_law d p : has_next p = false -> has_next (SetMixRampDb d p) = false;
  mix_ramp_delay_law d p : has_next p = false -> has_next (SetMixRampDelay d p) = false;
  border_law b p : has_next p = false -> has_next (LockSetBorderPause b p) = false;
  error_law p : has_next p = false -> has_next (LockClearError p) = false;
  update_audio_law p : has_next p = false -> has_next (LockUpdateAudio p) = false;
  state_law p : has_next p = false -> has_next (snd (GetState p)) = false;
  error_type_law p : has_next p = false -> has_next (snd (GetErrorType p)) = false;
  sync_law p : (has_next p = false -> has_next (snd (LockGetSyncInfo p)) = false) /\
    (has_next_song (fst (LockGetSyncInfo p)) = false -> has_next (snd (LockGetSyncInfo p)) = false);
  sync_none_law p : has_next p = false -> has_next_song (fst (LockGetSyncInfo p)) = false;
  sync_stop_law p : sync_state (fst (LockGetSyncInfo p)) = PLAYER_STOP -> fst (GetState (snd (LockGetSyncInfo p))) = PLAYER_STOP;
  status_law p : has_next p = false -> has_next (snd (LockGetStatus p)) = false
}.

(** ** The playlist (Playlist.hxx) *)

Inductive QueueEvent := OnQueueModified | OnQueueOptionsChanged | OnQueueSongStarted.

Section Playlist.
Context `{Random} `{PlayerControl}.

Record playlist := mkPlaylist {
  queue : Queue;
  playing : bool;
  stop_on_error : bool;
  bulk_edit : bool;
  bulk_modified : bool;
  error_count : Z;
  current : Z;
  queued : Z
}.

Definition playlist_new (max_length : Z) : playlist :=
  mkPlaylist (Queue_new max_length) false false false false 0 (-1) (-1).

Definition set_queue (q : Queue) (p : playlist) : playlist :=
  mkPlaylist q (playing p) (stop_on_error p) (bulk_edit p) (bulk_modified p) (error_count p) (current p) (queued p).
Definition set_playing (b : bool) (p : playlist) : playlist :=
  mkPlaylist (queue p) b (stop_on_error p) (bulk_edit p) (bulk_modified p) (error_count p) (current p) (queued p).
Definition set_stop_on_error (b : bool) (p : playlist) : playlist :=
  mkPlaylist (queue p) (playing p) b (bulk_edit p) (bulk_modified p) (error_count p) (current p) (queued p).
Definition set_bulk_edit (b : bool) (p : playlist) : playlist :=
  mkPlaylist (queue p) (playing p) (stop_on_error p) b (bulk_modified p) (error_count p) (current p) (queued p).
Definition set_bulk_modified (b : bool) (p : playlist) : playlist :=
  mkPlaylist (queue p) (playing p) (stop_on_error p) (bulk_edit p) b (error_count p) (current p) (queued p).
Definition set_error_count (n : Z) (p : playlist) : playlist :=
  mkPlaylist (queue p) (playing p) (stop_on_error p) (bulk_edit p) (bulk_modified p) n (current p) (queued p).
Definition set_current (n : Z) (p : playlist) : playlist :=
  mkPlaylist (queue p) (playing p) (stop_on_error p) (bulk_edit p) (bulk_modified p) (error_count p) n (queued p).
Definition set_queued (n : Z) (p : playlist) : playlist :=
  mkPlaylist (queue p) (playing p) (stop_on_error p) (bulk_edit p) (bulk_modified p) (error_count p) (current p) n.

(** ** Computations *)

Record World := mkWorld { pl : playlist; pc : Player; events : list QueueEvent }.

Definition M (A : Type) : Type := World -> option (World * result A).

#[export] Instance M_ret : MRet M := fun A a w => Some (w, Ok a).
#[export] Instance M_bind : MBind M := fun A B f m w =>
  match m w with
  | None => None
  | Some (w, Ok a) => f a w
  | Some (w, Throw e) => Some (w, Throw e)
  end.
#[export] Instance M_fmap : FMap M := fun A B f m => a ← m; mret (f a).

Definition throw {A} (e : bytes) : M A := fun w => Some (w, Throw e).
(** [try { m } catch (...) { h }], with the exception. *)
Definition catch {A} (m : M A) (h : bytes -> M A) : M A := fun w =>
  match m w with
  | Some (w, Throw e) => h e w
  | r => r
  end.
Definition when (b : bool) (m : M unit) : M unit := if b then m else mret tt.

(** The members, and the calls of the queue and of the player. *)
Definition get {A} (f : playlist -> A) : M A := fun w => Some (w, Ok (f (pl w))).
Definition modify (f : playlist -> playlist) : M unit := fun w => Some (mkWorld (f (pl w)) (pc w) (events w), Ok tt).
Definition ask {A} (f : Queue -> option A) : M A := fun w =>
  match f (queue (pl w)) with None => None | Some a => Some (w, Ok a) end.
Definition call {A} (f : Queue -> option (A * Queue)) : M A := fun w =>
  match f (queue (pl w)) with
  | None => None
  | Some (a, q) => Some (mkWorld (set_queue q (pl w)) (pc w) (events w), Ok a)
  end.
Definition call_ (f : Queue -> option Queue) : M unit := call (fun q => q ← f q; Some (tt, q)).
Definition notify (e : QueueEvent) : M unit := fun w => Some (mkWorld (pl w) (pc w) (events w ++ [e]), Ok tt).
Definition player (f : Player -> Player) : M unit := fun w => Some (mkWorld (pl w) (f (pc w)) (events w), Ok tt).
Definition player_ask {A} (f : Player -> A * Player) : M A := fun w =>
  Some (mkWorld (pl w) (snd (f (pc w))) (events w), Ok (fst (f (pc w)))).
Definition player_get : M Player := fun w => Some (w, Ok (pc w)).
Definition player_try (f : Player -> Player * option bytes) : M unit := fun w =>
  Some (mkWorld (pl w) (fst (f (pc w))) (events w), match snd (f (pc w)) with None => Ok tt | Some e => Throw e end).
(** [assert]: of the members, and of the state of the player. *)
Definition massert (b : bool) : M unit := fun w => if b then Some (w, Ok tt) else None.
Definition player_assert (b : Player -> bool) : M unit := fun w => massert (b (pc w)) w.
(** [LockEnqueueSong] asserts that the player has no next song. *)
Definition enqueue_song (s : DetachedSong) : M unit := fun w =>
  if has_next (pc w) then None else player (LockEnqueueSong s) w.

Definition NoSuchSong : bytes := lit "No such song".
Definition BadRange : bytes := lit "Bad song index".
Definition NotPlaying : bytes := lit "Not playing".

(** ** Playlist.cxx, first part *)

Definition OnModified : M unit :=
  b ← get bulk_edit;
  if (b : bool) then modify (set_bulk_modified true)
  else modify (fun p => set_queue (IncrementVersion (queue p)) p);; notify OnQueueModified.

Definition GetCurrentPosition : M Z :=
  c ← get current; if 0 <=? c then ask (fun q => OrderToPosition q c) else mret (-1).

Definition GetNextPosition : M Z :=
  c ← get current;
  q ← get queue;
  if c <? 0 then mret (-1)
  else if negb (bool_decide (single q = SINGLE_OFF)) && repeat q then ask (fun q => OrderToPosition q c)
  else if IsValidOrder q (c + 1) then ask (fun q => OrderToPosition q (c + 1))
  else if repeat q then ask (fun q => OrderToPosition q 0)
  else mret (-1).

(** The address of the song with an order number. *)
Definition song_at (o : Z) : M Z := ask (fun q => i_id <$> GetOrderItem q o).

Definition GetQueuedSong : M (option Z) :=
  p ← get playing;
  n ← get queued;
  if (p : bool) && (0 <=? n) then Some <$> song_at n else mret None.

Definition QueueSongOrder (o : Z) : M unit :=
  q ← get queue;
  massert (IsValidOrder q o);;
  modify (set_queued o);;
  song ← ask (fun q => GetOrder q o);
  enqueue_song song.

Definition SongStarted : M unit :=
  c ← get current;
  massert (0 <=? c);;
  position ← ask (fun q => OrderToPosition q c);
  m ← call (fun q => SetPriority q position 0 (-1) false);
  when m OnModified.

(** Shuffles the order of play and lets [current] follow its song. *)
Definition shuffle_keep_current : M unit :=
  c ← get current;
  current_position ← ask (fun q => OrderToPosition q c);
  call_ ShuffleOrder;;
  c ← ask (fun q => PositionToOrder q current_position);
  modify (set_current c).

Definition UpdateQueuedSong (prev : option Z) : M unit :=
  p ← get playing;
  bulk ← get bulk_edit;
  if negb (p : bool) then mret tt
  else if bool_decide (prev = None) && (bulk : bool) then mret tt
  else
    c ← get current;
    q ← get queue;
    n ← get queued;
    massert (negb (IsEmpty q));;
    massert (eqb (n <? 0) (bool_decide (prev = None)));;
    next_order ← (if 0 <=? c then ask (fun q => GetNextOrder q c) else mret 0);
    when ((next_order =? 0) && random q && bool_decide (single q = SINGLE_OFF)) shuffle_keep_current;;
    next_song ← (if 0 <=? next_order then Some <$> song_at next_order else mret None);
    when (negb (bool_decide (prev = None)) && negb (bool_decide (next_song = prev)))
      (player LockCancel;; modify (set_queued (-1)));;
    when (0 <=? next_order)
      (if bool_decide (next_song = prev) then modify (set_queued next_order) else QueueSongOrder next_order).

(** ** PlaylistControl.cxx *)

Definition Stop : M unit :=
  p ← get playing;
  if negb (p : bool) then mret tt
  else
    c ← get current;
    massert (0 <=? c);;
    player LockStop;;
    modify (set_queued (-1));;
    modify (set_playing false);;
    q ← get queue;
    when (random q) shuffle_keep_current.

Definition MoveOrderToCurrent (old_order : Z) : M Z :=
  q ← get queue;
  p ← get playing;
  c ← get current;
  if negb (random q) then mret old_order
  else if (p : bool) then call (fun q => MoveOrderAfter q old_order c)
  else if 0 <=? c then call (fun q => MoveOrderBefore q old_order c)
  else call (fun q => MoveOrderBefore q old_order 0).

Definition PlayOrder (o : Z) : M unit :=
  modify (set_playing true);;
  modify (set_queued (-1));;
  song ← ask (fun q => GetOrder q o);
  modify (set_current o);;
  player_try (Play song);;
  SongStarted.

Definition PlayAny : M unit :=
  q ← get queue;
  p ← get playing;
  if IsEmpty q then mret tt
  else if (p : bool) then player (LockSetPause false)
  else
    player LockClearError;;
    modify (set_stop_on_error false);;
    modify (set_error_count 0);;
    c ← get current;
    PlayOrder (if 0 <=? c then c else 0).

Definition PlayPosition (position : Z) : M unit :=
  player LockClearError;;
  q ← get queue;
  if negb (IsValidPosition q position) then throw BadRange
  else
    o ← (if random q then o ← ask (fun q => PositionToOrder q position); MoveOrderToCurrent o else mret position);
    modify (set_stop_on_error false);;
    modify (set_error_count 0);;
    PlayOrder o.

Definition PlayId (id : Z) : M unit :=
  position ← ask (fun q => IdToPosition q id);
  if position <? 0 then throw NoSuchSong else PlayPosition position.

(** ** PlaylistEdit.cxx: removing songs *)

(** The [queued_p] argument is returned. *)
Definition DeleteInternal (song : Z) (queued_p : option Z) : M (option Z) :=
  q ← get queue;
  massert (song <? GetLength q);;
  songOrder ← ask (fun q => PositionToOrder q song);
  p ← get playing;
  c ← get current;
  queued_p ← (
    if (p : bool) && (c =? songOrder) then
      state ← player_ask GetState;
      next ← ask (fun q => GetNextOrder q c);
      modify (set_current (if next =? songOrder then -1 else next));;
      c ← get current;
      (if (0 <=? c) && negb (bool_decide (state = PLAYER_PAUSE))
       then catch (PlayOrder c) (fun _ => mret tt)
       else player LockStop;; modify (set_playing false));;
      mret None
    else
      when (c =? songOrder) (modify (set_current (-1)));;
      mret queued_p);
  call_ (fun q => DeletePosition q song);;
  c ← get current;
  when (songOrder <? c) (modify (set_current (c - 1)));;
  mret queued_p.

Definition DeletePosition (song : Z) : M unit :=
  q ← get queue;
  if negb (IsValidPosition q song) then throw BadRange
  else
    queued_song ← GetQueuedSong;
    queued_song ← DeleteInternal song queued_song;
    UpdateQueuedSong queued_song;;
    OnModified.

Definition DeleteOrder (o : Z) : M unit :=
  position ← ask (fun q => OrderToPosition q o); DeletePosition position.

(** [do ... while (range.end != range.start)], [n] rounds down from [e]. *)
Fixpoint DeleteRange_loop (n : nat) (e : Z) (queued_song : option Z) : M (option Z) :=
  match n with
  | O => mret queued_song
  | S n => queued_song ← DeleteInternal (e - 1) queued_song; DeleteRange_loop n (e - 1) queued_song
  end.

Definition DeleteRange (range : RangeArg) : M unit :=
  q ← get queue;
  let '(ok, range) := CheckClip range (GetLength q) in
  if negb ok then throw BadRange
  else if RangeArg_IsEmpty range then mret tt
  else
    queued_song ← GetQueuedSong;
    queued_song ← DeleteRange_loop (Z.to_nat (r_end range - r_start range)) (r_end range) queued_song;
    UpdateQueuedSong queued_song;;
    OnModified.

Definition DeleteId (id : Z) : M unit :=
  song ← ask (fun q => IdToPosition q id);
  if song <? 0 then throw NoSuchSong else DeletePosition song.

(** [for (i = length - 1; i >= 0; --i)] *)
Fixpoint StaleSong_loop (n : nat) (current_position : Z) (uri : bytes) : M unit :=
  match n with
  | O => mret tt
  | S n =>
      let i := Z.of_nat n in
      (if i =? current_position then mret tt
       else song ← ask (fun q => Get q i); when (d_uri song =b uri) (DeletePosition i));;
      StaleSong_loop n current_position uri
  end.

Definition StaleSong (uri : bytes) : M unit :=
  p ← get playing;
  current_position ← (if (p : bool) then GetCurrentPosition else mret (-1));
  q ← get queue;
  StaleSong_loop (length (items q)) current_position uri.

Definition Clear : M unit :=
  Stop;;
  call_ Queue.Clear;;
  modify (set_current (-1));;
  OnModified.

(** ** PlaylistControl.cxx: the next song *)

(** Consume mode removes the song that was played; "oneshot" ends it. *)
Definition consume_played (old_current : Z) : M unit :=
  q ← get queue;
  when (negb (bool_decide (consume q = CONSUME_OFF))) (DeleteOrder old_current).
Definition consume_oneshot : M unit :=
  q ← get queue;
  when (bool_decide (consume q = CONSUME_ONE_SHOT))
    (modify (fun p => set_queue (with_consume CONSUME_OFF (queue p)) p);; notify OnQueueOptionsChanged).

Definition PlayNext : M unit :=
  p ← get playing;
  if negb (p : bool) then throw NotPlaying
  else
    old_current ← get current;
    q ← get queue;
    massert (negb (IsEmpty q));;
    massert (IsValidOrder q (u32 old_current));;
    modify (set_stop_on_error false);;
    next_order ← ask (fun q => GetNextOrder q old_current);
    (if next_order <? 0 then Stop;; modify (set_current (-1))
     else
       when ((next_order =? 0) && random q) (massert (repeat q);; call_ ShuffleOrder);;
       PlayOrder next_order);;
    consume_played old_current;;
    consume_oneshot.

Definition PlayPrevious : M unit :=
  p ← get playing;
  if negb (p : bool) then throw NotPlaying
  else
    c ← get current;
    q ← get queue;
    massert (negb (IsEmpty q));;
    PlayOrder (if 0 <? c then c - 1 else if repeat q then GetLength q - 1 else c).

Definition SeekSongOrder (i seek_time : Z) : M unit :=
  q ← get queue;
  massert (IsValidOrder q i);;
  player LockClearError;;
  modify (set_stop_on_error true);;
  modify (set_error_count 0);;
  p ← get playing;
  c ← get current;
  i ← (if negb (p : bool) || negb (u32 c =? i) then
         i ← MoveOrderToCurrent i;
         modify (set_playing true);;
         modify (set_current i);;
         mret i
       else mret i);
  modify (set_queued (-1));;
  song ← ask (fun q => GetOrder q i);
  catch (player_try (LockSeek song seek_time)) (fun e => UpdateQueuedSong None;; throw e);;
  UpdateQueuedSong None.

Definition SeekSongPosition (song seek_time : Z) : M unit :=
  q ← get queue;
  if negb (IsValidPosition q song) then throw BadRange
  else
    i ← (if random q then ask (fun q => PositionToOrder q song) else mret song);
    SeekSongOrder i seek_time.

Definition SeekSongId (id seek_time : Z) : M unit :=
  song ← ask (fun q => IdToPosition q id);
  if song <? 0 then throw NoSuchSong else SeekSongPosition song seek_time.

(** Times are 32 bit numbers of milliseconds. *)
Definition SeekCurrent (seek_time : Z) (relative : bool) : M unit :=
  p ← get playing;
  if negb (p : bool) then throw NotPlaying
  else
    seek_time ← (if relative then
        status ← player_ask LockGetStatus;
        if bool_decide (status_state status = PLAYER_STOP) then throw NotPlaying
        else mret (s32 (seek_time + elapsed_time status))
      else mret seek_time);
    c ← get current;
    SeekSongOrder c (u32 (if seek_time <? 0 then 0 else seek_time)).

(** ** Playlist.cxx, second part *)

Definition QueuedSongStarted : M unit :=
  player_assert (fun p => negb (has_next_song (fst (LockGetSyncInfo p))));;
  old_current ← get current;
  n ← get queued;
  massert (-1 <=? n);;
  massert (0 <=? old_current);;
  modify (set_current n);;
  modify (set_queued (-1));;
  consume_played old_current;;
  consume_oneshot;;
  notify OnQueueSongStarted;;
  SongStarted.

Definition ResumePlayback : M unit :=
  p ← get playing;
  massert p;;
  player_assert (fun p => bool_decide (fst (GetState p) = PLAYER_STOP));;
  error ← player_ask GetErrorType;
  modify (fun p => set_error_count (if bool_decide (error = PLAYER_ERROR_NONE) then 0 else u32 (error_count p + 1)) p);;
  stop ← get stop_on_error;
  count ← get error_count;
  q ← get queue;
  if ((stop : bool) && negb (bool_decide (error = PLAYER_ERROR_NONE))) || bool_decide (error = PLAYER_ERROR_OUTPUT) || (GetLength q <=? count)
  then Stop
  else catch PlayNext (fun _ => mret tt).

Definition SyncWithPlayer : M unit :=
  p ← get playing;
  if negb (p : bool) then mret tt
  else
    i ← player_ask LockGetSyncInfo;
    if bool_decide (sync_state i = PLAYER_STOP) then ResumePlayback
    else
      n ← get queued;
      when (negb (has_next_song i) && negb (n =? -1)) QueuedSongStarted;;
      j ← player_ask LockGetSyncInfo;
      n ← get queued;
      when (negb (has_next_song j) && (n <? 0)) (UpdateQueuedSong None).

(** The pause at the end of a song in "single" mode. *)
Definition set_border_pause : M unit :=
  q ← get queue;
  player (LockSetBorderPause (negb (bool_decide (single q = SINGLE_OFF)) && negb (repeat q))).

Definition requeue : M unit := prev ← GetQueuedSong; UpdateQueuedSong prev.

Definition SetRepeat (status : bool) : M unit :=
  q ← get queue;
  if eqb status (repeat q) then mret tt
  else
    modify (fun p => set_queue (with_repeat status (queue p)) p);;
    set_border_pause;;
    requeue;;
    notify OnQueueOptionsChanged.

Definition SetSingle (status : SingleMode) : M unit :=
  q ← get queue;
  if bool_decide (status = single q) then mret tt
  else
    modify (fun p => set_queue (with_single status (queue p)) p);;
    set_border_pause;;
    requeue;;
    notify OnQueueOptionsChanged.

Definition SetConsume (status : ConsumeMode) : M unit :=
  q ← get queue;
  if bool_decide (status = consume q) then mret tt
  else
    modify (fun p => set_queue (with_consume status (queue p)) p);;
    notify OnQueueOptionsChanged.

Definition playlist_order : M unit :=
  c ← get current;
  when (0 <=? c) (p ← ask (fun q => OrderToPosition q c); modify (set_current p));;
  call_ RestoreOrder.

Definition SetRandom (status : bool) : M unit :=
  q ← get queue;
  if eqb status (random q) then mret tt
  else
    queued_song ← GetQueuedSong;
    modify (fun p => set_queue (with_random status (queue p)) p);;
    (if status then
       p ← get playing;
       current_position ← (if (p : bool) then GetCurrentPosition else mret (-1));
       call_ ShuffleOrder;;
       if 0 <=? current_position then
         current_order ← ask (fun q => PositionToOrder q current_position);
         c ← call (fun q => MoveOrder q current_order 0);
         modify (set_current c)
       else modify (set_current (-1))
     else playlist_order);;
    UpdateQueuedSong queued_song;;
    notify OnQueueOptionsChanged.

Definition BorderPause : M unit :=
  q ← get queue;
  when (bool_decide (single q = SINGLE_ONE_SHOT))
    (modify (fun p => set_queue (with_single SINGLE_OFF (queue p)) p);;
     player (LockSetBorderPause false);;
     notify OnQueueOptionsChanged).

(** ** PlaylistEdit.cxx, the rest *)

Definition BeginBulk : M unit :=
  b ← get bulk_edit;
  massert (negb b);;
  modify (set_bulk_edit true);; modify (set_bulk_modified false).

Definition CommitBulk : M unit :=
  b ← get bulk_edit;
  massert b;;
  modify (set_bulk_edit false);;
  m ← get bulk_modified;
  if negb (m : bool) then mret tt
  else
    n ← get queued;
    when (n <? 0) (UpdateQueuedSong None);;
    OnModified.

Definition AppendSong (song : DetachedSong) : M Z :=
  q ← get queue;
  if IsFull q then throw (lit "Playlist is too large")
  else
    queued_song ← GetQueuedSong;
    id ← call (fun q => Append q song 0);
    n ← get queued;
    c ← get current;
    q ← get queue;
    let start := u32 (if 0 <=? n then n + 1 else c + 1) in
    when (random q && (start <? GetLength q)) (call_ (fun q => ShuffleOrderLastWithPriority q start (GetLength q)));;
    UpdateQueuedSong queued_song;;
    OnModified;;
    mret id.

Definition AppendURI (LoadSong : bytes -> result DetachedSong) (uri : bytes) : M Z :=
  match LoadSong uri with
  | Ok song => AppendSong song
  | Throw e => throw e
  end.

Definition SwapPositions (song1 song2 : Z) : M unit :=
  q ← get queue;
  if negb (IsValidPosition q song1) || negb (IsValidPosition q song2) then throw BadRange
  else
    queued_song ← GetQueuedSong;
    call_ (fun q => Queue.SwapPositions q song1 song2);;
    c ← get current;
    (if random q then
       o1 ← ask (fun q => PositionToOrder q song1);
       o2 ← ask (fun q => PositionToOrder q song2);
       call_ (fun q => SwapOrders q o1 o2)
     else if 0 <=? c then
       if u32 c =? song1 then modify (set_current song2)
       else when (u32 c =? song2) (modify (set_current song1))
     else mret tt);;
    UpdateQueuedSong queued_song;;
    OnModified.

Definition SwapIds (id1 id2 : Z) : M unit :=
  song1 ← ask (fun q => IdToPosition q id1);
  song2 ← ask (fun q => IdToPosition q id2);
  if (song1 <? 0) || (song2 <? 0) then throw NoSuchSong else SwapPositions song1 song2.

Definition SetPriorityRange (range : RangeArg) (priority : Z) : M unit :=
  q ← get queue;
  let '(ok, range) := CheckClip range (GetLength q) in
  if negb ok then throw BadRange
  else if RangeArg_IsEmpty range then mret tt
  else
    current_position ← GetCurrentPosition;
    queued_song ← GetQueuedSong;
    c ← get current;
    _ ← call (fun q => Queue.SetPriorityRange q (r_start range) (r_end range) priority c);
    when (0 <=? current_position) (c ← ask (fun q => PositionToOrder q current_position); modify (set_current c));;
    UpdateQueuedSong queued_song;;
    OnModified.

Definition SetPriorityId (song_id priority : Z) : M unit :=
  position ← ask (fun q => IdToPosition q song_id);
  if position <? 0 then throw NoSuchSong
  else SetPriorityRange (mkRangeArg (u32 position) (u32 (position + 1))) priority.

Definition MoveRange (range : RangeArg) (to : Z) : M unit :=
  q ← get queue;
  if negb (IsValidPosition q (r_start range)) || negb (IsValidPosition q (u32 (r_end range - 1))) then throw BadRange
  else if GetLength q <=? u32 (to + RangeArg_Count range - 1) then throw BadRange
  else if r_start range =? to then mret tt
  else
    queued_song ← GetQueuedSong;
    call_ (fun q => Queue.MoveRange q (r_start range) (r_end range) to);;
    c ← get current;
    when (negb (random q) && (0 <=? c))
      (if Contains range c then modify (set_current (s32 (u32 (c + (to - r_start range)))))
       else if (r_end range <=? c) && (c <=? to) then modify (set_current (s32 (u32 (c - RangeArg_Count range))))
       else when ((to <=? c) && (c <? r_start range)) (modify (set_current (s32 (u32 (c + RangeArg_Count range))))));;
    UpdateQueuedSong queued_song;;
    OnModified.

Definition Shuffle (range : RangeArg) : M unit :=
  q ← get queue;
  let '(ok, range) := CheckClip range (GetLength q) in
  if negb ok then throw BadRange
  else if negb (HasAtLeast range 2) then mret tt
  else
    queued_song ← GetQueuedSong;
    p ← get playing;
    c ← get current;
    range ← (
      if (p : bool) && (0 <=? c) then
        current_position ← ask (fun q => OrderToPosition q c);
        if Contains range current_position then
          call_ (fun q => Queue.SwapPositions q (r_start range) current_position);;
          c ← (if random q then ask (fun q => PositionToOrder q (r_start range)) else mret (r_start range));
          modify (set_current c);;
          mret (mkRangeArg (r_start range + 1) (r_end range))
        else mret range
      else modify (set_current (-1));; mret range);
    call_ (fun q => ShuffleRange q (r_start range) (r_end range));;
    UpdateQueuedSong queued_song;;
    OnModified.

(** Changes the song at a position. *)
Definition edit_song (f : DetachedSong -> DetachedSong) (position : Z) : M unit :=
  call_ (fun q => it ← arr_get (items q) position; l ← arr_set (items q) position (set_item_song (f (i_song it)) it); Some (with_items l q)).

Definition SetSongIdRange (id start end_ : Z) : M unit :=
  massert ((end_ =? 0) || (start <? end_));;
  position ← ask (fun q => IdToPosition q id);
  if position <? 0 then throw NoSuchSong
  else
    p ← get playing;
    c ← get current;
    n ← get queued;
    if (p : bool) && (position =? c) then throw (lit "Cannot edit the current song")
    else
      let was_queued := (p : bool) && (position =? n) in
      when was_queued (player LockCancel;; modify (set_queued (-1)));;
      song ← ask (fun q => Get q position);
      let duration := duration (d_tag song) in
      if negb (duration <? 0) && (duration <? start) then throw (lit "Invalid start offset")
      else
        let end_ := if negb (duration <? 0) && (duration <=? end_) then 0 else end_ in
        edit_song (fun s => d_SetEndTime (d_SetStartTime s start) end_) position;;
        when was_queued (UpdateQueuedSong None);;
        call_ (fun q => ModifyAtPosition q position);;
        OnModified.

(** ** PlaylistTag.cxx *)

Definition DENIED : bytes := lit "Cannot edit tags of local file".

Definition edit_tag (id : Z) (f : TagBuilder -> TagBuilder) : M unit :=
  position ← ask (fun q => IdToPosition q id);
  if position <? 0 then throw NoSuchSong
  else
    song ← ask (fun q => Get q position);
    if negb (IsRemote song) then throw DENIED
    else
      edit_song (fun s => d_SetTag s (Commit (f (TagBuilder_of (d_tag s))))) position;;
      call_ (fun q => ModifyAtPosition q position);;
      OnModified.

Definition AddSongIdTag (mask : Z) (id : Z) (tag_type : TagType) (value : bytes) : M unit :=
  edit_tag id (fun tag => AddItem mask tag tag_type value).

(** [None] is [TAG_NUM_OF_ITEM_TYPES]: all of them. *)
Definition ClearSongIdTag (id : Z) (tag_type : option TagType) : M unit :=
  edit_tag id (fun tag => match tag_type with
    | None => mkTagBuilder (b_duration tag) (b_has_playlist tag) []
    | Some t => RemoveType tag t
    end).

(** ** Playlist.cxx: modified tags *)

Definition MoveTagItemsFrom (s other : DetachedSong) : DetachedSong :=
  d_SetTag s (mkTag (duration (d_tag s)) (has_playlist (d_tag s)) (Tags.items (d_tag other))).

Definition TagModified (song : DetachedSong) : M unit :=
  p ← get playing;
  if negb (p : bool) then mret tt
  else
    c ← get current;
    massert (0 <=? c);;
    current_song ← ask (fun q => GetOrder q c);
    position ← ask (fun q => OrderToPosition q c);
    when (IsSame song current_song) (edit_song (fun s => MoveTagItemsFrom s song) position);;
    call_ (fun q => ModifyAtOrder q c);;
    OnModified.

(** Applies [f], which says whether it has modified the song, to the songs
    of all positions. *)
Fixpoint modify_songs (f : DetachedSong -> option DetachedSong) (n : nat) (i : Z) (modified : bool) : M bool :=
  match n with
  | O => mret modified
  | S n =>
      song ← ask (fun q => Get q i);
      match f song with
      | None => modify_songs f n (i + 1) modified
      | Some song => edit_song (fun _ => song) i;; call_ (fun q => ModifyAtPosition q i);; modify_songs f n (i + 1) true
      end
  end.

Definition TagModified_uri (real_uri : bytes) (tag : Tag) : M unit :=
  q ← get queue;
  m ← modify_songs (fun song => if GetRealURI song =b real_uri then Some (d_SetTag song tag) else None) (length (items q)) 0 false;
  when m OnModified.

(** ** PlaylistUpdate.cxx: [db_GetSong] is [Database::GetSong] *)

Definition UpdatePlaylistSong (db_GetSong : bytes -> option LightSong) (song : DetachedSong) : option DetachedSong :=
  if negb (IsInDatabase song) || IsRemote song then None
  else
    match db_GetSong (d_uri song) with
    | None => None
    | Some original =>
        if l_mtime original =? d_mtime song then None
        else Some (d_SetTag (d_SetAdded (d_SetLastModified song (l_mtime original)) (l_added original)) (l_tag original))
    end.

Definition DatabaseModified (db_GetSong : bytes -> option LightSong) : M unit :=
  q ← get queue;
  m ← modify_songs (UpdatePlaylistSong db_GetSong) (length (items q)) 0 false;
  when m OnModified.
End Playlist.
