(* ===== verification/PlayRules.v ===== *)
(** Rules for the computations of [PlayControl], and what they find in a
    queue: the song with an order number, the order number of a position. *)
From S2P Require Import Arrays Text Tags Audio Songs SortList StableSort Queue QueueWf QueueOps QueueRandom PlayControl.
Open Scope Z_scope.

(** ** Weakest preconditions *)

Section Rules.
Context `{Random} `{PlayerControl}.

(** [m] is defined at [w], and its result and the state after it satisfy [Q]. *)
Definition wp {A} (m : M A) (Q : result A -> World -> Prop) (w : World) : Prop :=
  match m w with None => False | Some (w', r) => Q r w' end.

Lemma wp_conseq {A} (m : M A) (Q Q' : result A -> World -> Prop) w :
  wp m Q w -> (forall r w', Q r w' -> Q' r w') -> wp m Q' w.
Proof. unfold wp. destruct (m w) as [[w' r]|]; auto. Qed.

Lemma wp_bind {A B} (m : M A) (f : A -> M B) Q w :
  wp m (fun r w' => match r with Ok a => wp (f a) Q w' | Throw e => Q (Throw e) w' end) w -> wp (m ≫= f) Q w.
Proof. unfold wp, mbind, M_bind. by destruct (m w) as [[w' [a|e]]|]. Qed.

Lemma wp_catch {A} (m : M A) (h : bytes -> M A) Q w :
  wp m (fun r w' => match r with Ok a => Q (Ok a) w' | Throw e => wp (h e) Q w' end) w -> wp (catch m h) Q w.
Proof. unfold wp, catch. by destruct (m w) as [[w' [a|e]]|]. Qed.

Lemma wp_ret {A} (a : A) (Q : result A -> World -> Prop) w : Q (Ok a) w -> wp (mret a) Q w.
Proof. done. Qed.
Lemma wp_throw {A} e (Q : result A -> World -> Prop) w : Q (Throw e) w -> wp (throw e) Q w.
Proof. done. Qed.
Lemma wp_get {A} (f : playlist -> A) Q w : Q (Ok (f (pl w))) w -> wp (get f) Q w.
Proof. done. Qed.
Lemma wp_modify f Q w : Q (Ok tt) (mkWorld (f (pl w)) (pc w) (events w)) -> wp (modify f) Q w.
Proof. done. Qed.
Lemma wp_notify e Q w : Q (Ok tt) (mkWorld (pl w) (pc w) (events w ++ [e])) -> wp (notify e) Q w.
Proof. done. Qed.
Lemma wp_massert b (Q : result unit -> World -> Prop) w : b = true -> Q (Ok tt) w -> wp (massert b) Q w.
Proof. by intros ->. Qed.
Lemma wp_player_assert b (Q : result unit -> World -> Prop) w : b (pc w) = true -> Q (Ok tt) w -> wp (player_assert b) Q w.
Proof. apply wp_massert. Qed.
Lemma wp_player f Q w : Q (Ok tt) (mkWorld (pl w) (f (pc w)) (events w)) -> wp (player f) Q w.
Proof. done. Qed.
Lemma wp_player_ask {A} (f : Player -> A * Player) Q w :
  Q (Ok (fst (f (pc w)))) (mkWorld (pl w) (snd (f (pc w))) (events w)) -> wp (player_ask f) Q w.
Proof. done. Qed.
Lemma wp_player_try f Q w :
  (forall r, Q r (mkWorld (pl w) (fst (f (pc w))) (events w))) -> wp (player_try f) Q w.
Proof. intros HQ. apply HQ. Qed.
Lemma wp_when b m (Q : result unit -> World -> Prop) w :
  (b = true -> wp m Q w) -> (b = false -> Q (Ok tt) w) -> wp (when b m) Q w.
Proof. destruct b; cbn; auto. Qed.
Lemma wp_if {A} (b : bool) (m m' : M A) Q w : (b = true -> wp m Q w) -> (b = false -> wp m' Q w) -> wp (if b then m else m') Q w.
Proof. destruct b; auto. Qed.
Lemma wp_ask {A} (f : Queue -> option A) a Q w : f (queue (pl w)) = Some a -> Q (Ok a) w -> wp (ask f) Q w.
Proof. intros E HQ. unfold wp, ask. by rewrite E. Qed.
Lemma wp_call {A} (f : Queue -> option (A * Queue)) a q Q w : f (queue (pl w)) = Some (a, q) ->
  Q (Ok a) (mkWorld (set_queue q (pl w)) (pc w) (events w)) -> wp (call f) Q w.
Proof. intros E HQ. unfold wp, call. by rewrite E. Qed.
Lemma wp_call_ f q Q w : f (queue (pl w)) = Some q ->
  Q (Ok tt) (mkWorld (set_queue q (pl w)) (pc w) (events w)) -> wp (call_ f) Q w.
Proof. intros E HQ. apply (wp_call _ tt q); [|done]. by rewrite E. Qed.
Lemma wp_enqueue_song s Q w : has_next (pc w) = false ->
  Q (Ok tt) (mkWorld (pl w) (LockEnqueueSong s (pc w)) (events w)) -> wp (enqueue_song s) Q w.
Proof. intros E HQ. unfold wp, enqueue_song. by rewrite E. Qed.
End Rules.

(** Runs the steps that need nothing but the state. *)
Ltac wsimpl := cbn [pl pc events queue playing stop_on_error bulk_edit bulk_modified error_count current queued
  set_queue set_playing set_stop_on_error set_bulk_edit set_bulk_modified set_error_count set_current set_queued] in *.
Ltac wstep :=
  lazymatch goal with
  | |- wp (mbind _ _) _ _ => apply wp_bind
  | |- wp (get _) _ _ => apply wp_get
  | |- wp (mret _) _ _ => apply wp_ret
  | |- wp (throw _) _ _ => apply wp_throw
  | |- wp (modify _) _ _ => apply wp_modify
  | |- wp (notify _) _ _ => apply wp_notify
  | |- wp (player _) _ _ => apply wp_player
  | |- wp (player_ask _) _ _ => apply wp_player_ask
  end; cbv beta iota; wsimpl.
Ltac wsteps := repeat wstep.

(** ** The songs of a queue *)

Section Lookups.
Context `{Random}.
Implicit Types (q : Queue).

(** The id of the song with an order number. *)
Definition song_id_at q (o : Z) : option Z := if 0 <=? o then track_id <$> in_order q !! Z.to_nat o else None.

Lemma song_id_at_nat q (n : nat) : song_id_at q (Z.of_nat n) = track_id <$> in_order q !! n.
Proof. unfold song_id_at. destruct (Z.leb_spec 0 (Z.of_nat n)); [by rewrite Nat2Z.id|lia]. Qed.

Record turn q (o : Z) (n p : nat) (it : Item) : Prop := {
  turn_order : o = Z.of_nat n;
  turn_position : order q !! n = Some (Z.of_nat p);
  turn_item : items q !! p = Some it
}.

Lemma turn_exists q o : queue_ok q -> 0 <= o < GetLength q -> exists n p it, turn q o n p it.
Proof.
  intros Hok Ho. unfold GetLength in Ho. destruct (Z_of_nat_complete o ltac:(lia)) as [n ->].
  destruct (GetOrderItem_spec q n Hok ltac:(lia)) as (p & it & H1 & H2 & _). by exists n, p, it.
Qed.

Lemma turn_of_position q (p : Z) : queue_ok q -> 0 <= p < GetLength q ->
  exists n k it, PositionToOrder q p = Some (Z.of_nat n) /\ p = Z.of_nat k /\ turn q (Z.of_nat n) n k it.
Proof.
  intros Hok Hp. unfold GetLength in Hp. destruct (Z_of_nat_complete p ltac:(lia)) as [k ->].
  destruct (PositionToOrder_spec q k Hok ltac:(lia)) as (n & Hn & Ho & _).
  destruct (lookup_lt_is_Some_2 (items q) k ltac:(lia)) as [it Hit]. by exists n, k, it.
Qed.

Section Turn.
Context {q : Queue} {o : Z} {n p : nat} {it : Item} (Hok : queue_ok q) (Ht : turn q o n p it).

Lemma turn_range : (n < length (items q))%nat /\ (p < length (items q))%nat.
Proof. destruct Ht as [_ Ho Hi]. apply lookup_lt_Some in Ho, Hi. rewrite (ok_lengths q Hok) in Ho. done. Qed.
Lemma turn_OrderToPosition : OrderToPosition q o = Some (Z.of_nat p).
Proof. destruct Ht as [-> Ho Hi]. unfold OrderToPosition. by rewrite arr_get_nat. Qed.
Lemma turn_GetOrderItem : GetOrderItem q o = Some it.
Proof. unfold GetOrderItem. rewrite turn_OrderToPosition. cbn. rewrite arr_get_nat. apply Ht. Qed.
Lemma turn_GetOrder : GetOrder q o = Some (i_song it).
Proof. unfold GetOrder, Get. rewrite turn_OrderToPosition. cbn. rewrite arr_get_nat, (turn_item _ _ _ _ _ Ht). done. Qed.
Lemma turn_song : song_id_at q o = Some (i_id it).
Proof.
  destruct Ht as [-> Ho Hi]. rewrite song_id_at_nat, (lookup_in_order q n _ Hok Ho), arr_get_nat. unfold tracks.
  by rewrite list_lookup_fmap, Hi.
Qed.
Lemma turn_PositionToOrder : PositionToOrder q (Z.of_nat p) = Some (Z.of_nat n).
Proof.
  destruct (PositionToOrder_spec q p Hok (proj2 turn_range)) as (m & -> & Hm & _). do 2 f_equal.
  apply (NoDup_lookup (order q) m n (Z.of_nat p)); [apply order_ok_NoDup, Hok|done|apply Ht].
Qed.
End Turn.

Lemma song_id_at_None q o : o < 0 -> song_id_at q o = None.
Proof. intros. unfold song_id_at. by destruct (Z.leb_spec 0 o); [lia|]. Qed.

(** A song has one turn. *)
Lemma turn_unique q o1 o2 n1 p1 it1 n2 p2 it2 : queue_ok q -> turn q o1 n1 p1 it1 -> turn q o2 n2 p2 it2 -> i_id it1 = i_id it2 ->
  o1 = o2 /\ p1 = p2.
Proof.
  intros Hok [-> Ho1 Hi1] [-> Ho2 Hi2] E. pose proof (found_inj _ _ _ _ _ _ (ok_found q Hok) Hi1 Hi2 E) as ->.
  assert (n1 = n2) as ->; [|done]. by apply (NoDup_lookup (order q) n1 n2 (Z.of_nat p2) (order_ok_NoDup q (ok_order q Hok))).
Qed.

(** The order number and the position of a song with a given id. *)
Lemma IdToPosition_ok q id : queue_ok q -> 1 <= id ->
  exists p, IdToPosition q id = Some p /\ p < GetLength q.
Proof.
  intros Hok Hid. unfold IdToPosition, IdTable_IdToPosition.
  destruct (Z.ltb_spec id (t_initialized (id_table q))) as [Hi|Hi]; [|exists (-1); split; [done|unfold GetLength; lia]].
  destruct (table_init _ _ (ok_table q Hok) id ltac:(lia)) as [p Hp]. exists p. split; [done|].
  destruct (Z.leb_spec 0 p); [|unfold GetLength; lia].
  pose proof (table_used _ _ (ok_table q Hok) id p Hp ltac:(done)) as Hin. apply elem_of_ids in Hin as (i & it & Hl & <-).
  rewrite (ok_found q Hok i it Hl) in Hp. injection Hp as <-. apply lookup_lt_Some in Hl. unfold GetLength. lia.
Qed.

Lemma order_after_bounds q o : queue_ok q -> 0 <= o < GetLength q -> -1 <= order_after q o < GetLength q.
Proof. intros Hok Ho. destruct (turn_exists q o Hok Ho) as (n & p & it & Ht). pose proof (turn_range Hok Ht) as [? _]. destruct Ht as [-> _ _].
  unfold order_after, GetLength in *. destruct (_ && _ && _); [lia|].
  destruct (Z.ltb_spec (Z.of_nat n + 1) (Z.of_nat (length (items q)))); [lia|]. destruct (_ && _); lia.
Qed.

Lemma GetNextOrder_ok q o : 0 <= o < GetLength q -> GetNextOrder q o = Some (order_after q o).
Proof.
  intros Ho. unfold GetNextOrder. destruct (Z.leb_spec 0 o); [|lia]. destruct (Z.ltb_spec o (GetLength q)); [done|lia].
Qed.

(** The next song is the first one only while repeating, or before it. *)
Lemma order_after_first q o : 0 <= o -> order_after q o = 0 -> repeat q = true.
Proof.
  intros Ho. unfold order_after. destruct (repeat q); [done|]. rewrite andb_false_r. cbn [andb].
  destruct (Z.ltb_spec (o + 1) (GetLength q)); lia.
Qed.

Lemma not_empty q o : 0 <= o < GetLength q -> negb (IsEmpty q) = true.
Proof. intros Ho. unfold IsEmpty. destruct (Z.eqb_spec (GetLength q) 0); [lia|done]. Qed.

(** The queue is small. *)
Lemma GetLength_small q : queue_ok q -> 0 <= GetLength q < 2 ^ 30.
Proof. intros Hok. pose proof (ok_small q Hok). unfold small, GetLength in *. lia. Qed.

(** A song keeps its turn where the items and their order are kept. *)
Lemma song_id_at_same q q' o : in_order q' = in_order q -> song_id_at q' o = song_id_at q o.
Proof. unfold song_id_at. by intros ->. Qed.
End Lookups.
#[global] Arguments song_id_at : simpl never.
