(* ===== verification/PlayWf.v ===== *)
(** The invariant of the playlist ([pl_ok]): the queue is well-formed,
    [current] and [queued] are order numbers of it while playing, and the
    player holds a next song only while one is queued.  The steps that every
    method is made of keep it, and [current] stays on the same song. *)
From S2P Require Import Arrays Text Tags Audio Songs SortList StableSort Queue QueueWf QueueOps QueueRandom PlayControl PlayRules.
Open Scope Z_scope.

Section Wf.
Context `{RandomLaws} `{PlayerLaws}.
Implicit Types (w : World) (cs : option Z) (prev : option Z).

(** [cs] is the id of the current song. *)
Record core_ok cs (p : playlist) : Prop := {
  c_queue : queue_ok (queue p);
  c_current : -1 <= current p < GetLength (queue p);
  c_playing : playing p = true -> 0 <= current p;
  c_queued : -1 <= queued p < 2 ^ 30;
  c_song : song_id_at (queue p) (current p) = cs
}.

Record pl_ok cs w : Prop := {
  p_core : core_ok cs (pl w);
  p_queued : playing (pl w) = true -> queued (pl w) < GetLength (queue (pl w));
  p_next : has_next (pc w) = true -> playing (pl w) = true /\ 0 <= queued (pl w)
}.

(** While the queue is edited: [prev] was the queued song, [queued] may have
    another order number by now. *)
Record mid_ok cs prev w : Prop := {
  m_core : core_ok cs (pl w);
  m_none : prev = None -> has_next (pc w) = false /\ (playing (pl w) = true -> queued (pl w) = -1);
  m_stopped : playing (pl w) = false -> prev = None;
  m_some : prev <> None -> 0 <= queued (pl w)
}.

Lemma core_ok_queue cs (p : playlist) q : core_ok cs p -> queue_ok q -> tracks q = tracks (queue p) -> in_order q = in_order (queue p) ->
  core_ok cs (set_queue q p).
Proof.
  intros [Hq Hc Hp Hn Hs] Hok Ht Hi. assert (GetLength q = GetLength (queue p)) as Hl.
  { unfold GetLength. by rewrite <- !length_tracks, Ht. }
  split; cbn; rewrite ?Hl; try done. by rewrite (song_id_at_same (queue p)).
Qed.

Lemma pl_ok_queue cs w q : pl_ok cs w -> queue_ok q -> tracks q = tracks (queue (pl w)) -> in_order q = in_order (queue (pl w)) ->
  forall evs, pl_ok cs (mkWorld (set_queue q (pl w)) (pc w) evs).
Proof.
  intros [Hc Hq Hn] Hok Ht Hi evs. split; cbn; [by apply core_ok_queue| |done].
  unfold GetLength in *. by rewrite <- (length_tracks q), Ht, length_tracks.
Qed.

Lemma pl_ok_mid cs w : pl_ok cs w -> queued (pl w) = -1 -> mid_ok cs None w.
Proof. intros [Hc Hq Hn] E. split; [done| |done|done]. intros _. split; [|done]. destruct (has_next (pc w)); [destruct Hn; [done|lia]|done]. Qed.

(** ** [OnModified] *)

Record same_songs w w' : Prop := {
  same_tracks : tracks (queue (pl w')) = tracks (queue (pl w));
  same_playing : playing (pl w') = playing (pl w);
  same_bulk : bulk_edit (pl w') = bulk_edit (pl w);
  same_random : random (queue (pl w')) = random (queue (pl w))
}.

Lemma same_songs_refl w : same_songs w w.
Proof. done. Qed.
Lemma same_songs_trans w w' w'' : same_songs w w' -> same_songs w' w'' -> same_songs w w''.
Proof. intros [] []. split; congruence. Qed.

Lemma wp_OnModified cs w (Q : result unit -> World -> Prop) : pl_ok cs w ->
  (forall w', pl_ok cs w' -> same_songs w w' -> current (pl w') = current (pl w) -> queued (pl w') = queued (pl w) -> pc w' = pc w ->
    order (queue (pl w')) = order (queue (pl w)) -> Q (Ok tt) w') ->
  wp OnModified Q w.
Proof.
  intros Hok HQ. unfold OnModified. do 2 wstep. apply wp_if; intros Hb; wsteps.
  - apply HQ; try done. destruct Hok as [[] ? ?]. by split.
  - destruct (IncrementVersion_ok (queue (pl w)) (c_queue _ _ (p_core _ _ Hok))) as (Hq & Ht & Ho & Hi & Hr).
    apply HQ; try done. by apply pl_ok_queue.
Qed.

(** ** [GetQueuedSong], [UpdateQueuedSong] *)

Lemma wp_song_at o w (Q : result Z -> World -> Prop) : queue_ok (queue (pl w)) -> 0 <= o < GetLength (queue (pl w)) ->
  (forall n p it, turn (queue (pl w)) o n p it -> Q (Ok (i_id it)) w) -> wp (song_at o) Q w.
Proof.
  intros Hok Ho HQ. destruct (turn_exists _ o Hok Ho) as (n & p & it & Ht). unfold song_at.
  apply (wp_ask _ (i_id it)); [by rewrite (turn_GetOrderItem Ht)|]. by apply (HQ n p).
Qed.

Lemma wp_song_opt (b : bool) o w (Q : result (option Z) -> World -> Prop) : queue_ok (queue (pl w)) ->
  (b = true -> 0 <= o < GetLength (queue (pl w))) ->
  (b = true -> forall n p it, turn (queue (pl w)) o n p it -> Q (Ok (Some (i_id it))) w) -> (b = false -> Q (Ok None) w) ->
  wp (if b then Some <$> song_at o else mret None) Q w.
Proof.
  intros Hok Ho HS HN. apply wp_if; intros Hb; [|wstep; auto]. unfold fmap, M_fmap. wstep.
  apply wp_song_at; [done|auto|]. intros n p it Ht. wstep. by apply (HS Hb n p).
Qed.

Lemma wp_GetQueuedSong cs w (Q : result (option Z) -> World -> Prop) : pl_ok cs w ->
  (forall prev, mid_ok cs prev w -> Q (Ok prev) w) -> wp GetQueuedSong Q w.
Proof.
  intros [Hc Hq Hn] HQ. unfold GetQueuedSong. wsteps. apply wp_song_opt.
  - apply Hc.
  - intros [Hp Hb%Z.leb_le]%andb_true_iff. auto.
  - intros [Hp Hb%Z.leb_le]%andb_true_iff n p it Ht. apply HQ. split; [done|done|congruence|done].
  - intros Hb. apply HQ. split; [done| |done|done]. intros _. pose proof (c_queued _ _ Hc).
    apply andb_false_iff in Hb as [Hb|Hb%Z.leb_gt].
    + split; [|congruence]. destruct (has_next (pc w)); [destruct Hn; [done|congruence]|done].
    + split; [|lia]. destruct (has_next (pc w)); [destruct Hn; [done|lia]|done].
Qed.

(** A new order of play, with [current] on the same song. *)
Lemma wp_shuffle_keep_current cs w (Q : result unit -> World -> Prop) : core_ok cs (pl w) -> 0 <= current (pl w) -> random (queue (pl w)) = true ->
  (forall q c, let p' := set_current c (set_queue q (pl w)) in
    core_ok cs p' -> reordered_ok (queue (pl w)) q -> 0 <= c -> Q (Ok tt) (mkWorld p' (pc w) (events w))) ->
  wp shuffle_keep_current Q w.
Proof.
  intros [Hok Hc Hp Hn Hs] Hc0 Hr HQ. destruct (turn_exists _ (current (pl w)) Hok ltac:(lia)) as (n & k & it & Ht).
  unfold shuffle_keep_current. wsteps. eapply wp_ask; [by apply (turn_OrderToPosition Ht)|]. cbv beta iota.
  destruct (ShuffleOrder_ok _ Hok Hr) as (q' & Hq & Hre & _). wstep. eapply wp_call_; [exact Hq|]. cbv beta iota.
  pose proof (turn_range Hok Ht) as [_ Hk]. pose proof Hre as [Hok' Hit _ _ _].
  assert (GetLength q' = GetLength (queue (pl w))) as Hlen by (unfold GetLength; by rewrite Hit).
  destruct (turn_of_position q' (Z.of_nat k) Hok') as (n' & k' & it' & Ho & E%Nat2Z.inj & Ht'); [unfold GetLength; rewrite Hit; lia|subst k'].
  wstep. eapply wp_ask; [exact Ho|]. cbv beta iota. wsteps. apply HQ; [|done|lia].
  assert (it' = it) as -> by (pose proof (turn_item _ _ _ _ _ Ht) as E1; pose proof (turn_item _ _ _ _ _ Ht') as E2; rewrite Hit in E2; congruence).
  split; cbn; [done| |lia|done|].
  - pose proof (turn_range Hok' Ht') as [? _]. unfold GetLength. lia.
  - rewrite (turn_song Hok' Ht'), <- Hs, (turn_song Hok Ht). done.
Qed.

Lemma queued_prev cs prev w : mid_ok cs prev w -> playing (pl w) = true -> eqb (queued (pl w) <? 0) (bool_decide (prev = None)) = true.
Proof.
  intros [Hc Hnone _ Hsome] Hp. destruct prev as [s|]; cbn.
  - specialize (Hsome ltac:(done)). by destruct (Z.ltb_spec (queued (pl w)) 0); [lia|].
  - destruct (Hnone eq_refl) as [_ Hq]. by rewrite (Hq Hp).
Qed.

(** What [UpdateQueuedSong] does: unless it is not playing, or the first
    song of a bulk edit is postponed, the song after the current one is the
    queued one. *)
Definition queue_updated prev w w' : Prop :=
  same_songs w w' /\
  (playing (pl w) = true -> prev = None /\ bulk_edit (pl w) = true \/
    queued (pl w') = order_after (queue (pl w)) (current (pl w)) /\
    (queue (pl w') = queue (pl w) /\ current (pl w') = current (pl w) \/
     queued (pl w') = 0 /\ random (queue (pl w)) = true /\ single (queue (pl w)) = SINGLE_OFF)).

Lemma wp_QueueSongOrder cs o w (Q : result unit -> World -> Prop) : core_ok cs (pl w) -> playing (pl w) = true -> has_next (pc w) = false ->
  0 <= o < GetLength (queue (pl w)) ->
  (forall s w', w' = mkWorld (set_queued o (pl w)) (LockEnqueueSong s (pc w)) (events w) -> pl_ok cs w' -> Q (Ok tt) w') ->
  wp (QueueSongOrder o) Q w.
Proof.
  intros Hc Hp Hn Ho HQ. unfold QueueSongOrder. do 3 wstep. apply wp_massert; [apply Z.ltb_lt; lia|]. wsteps.
  destruct (turn_exists _ o (c_queue _ _ Hc) Ho) as (n & k & it & Ht).
  eapply wp_ask; [apply (turn_GetOrder Ht)|]. cbv beta iota. apply wp_enqueue_song; [done|]. eapply HQ; [done|].
  pose proof (GetLength_small _ (c_queue _ _ Hc)). destruct Hc. split; cbn; [split; cbn; try done; lia|lia|].
  split; [done|lia].
Qed.

Lemma wp_UpdateQueuedSong cs prev w (Q : result unit -> World -> Prop) : mid_ok cs prev w ->
  (forall w', pl_ok cs w' -> queue_updated prev w w' -> Q (Ok tt) w') -> wp (UpdateQueuedSong prev) Q w.
Proof.
  intros Hmid HQ. pose proof Hmid as [Hc Hnone Hstop Hsome]. unfold UpdateQueuedSong. wsteps.
  apply wp_if; intros Hp; [apply negb_true_iff in Hp|apply negb_false_iff in Hp].
  { wstep. destruct (Hnone (Hstop Hp)) as [Hn Hqd]. apply HQ; [|by split; [|congruence]].
    split; [done|congruence|]. by rewrite Hn. }
  pose proof (c_playing _ _ Hc Hp) as Hc0. apply wp_if; intros Hb.
  { apply andb_true_iff in Hb as [Hb1%bool_decide_eq_true Hb2]. wstep. destruct (Hnone Hb1) as [Hn Hqd].
    apply HQ; [|split; [done|auto]]. split; [done|intros; rewrite Hqd by done; destruct Hc; lia|by rewrite Hn]. }
  pose proof (c_current _ _ Hc) as Hcur. wsteps. apply wp_massert; [eapply not_empty; split; [exact Hc0|apply Hcur]|]. wstep.
  apply wp_massert; [by apply (queued_prev cs)|]. wstep. apply wp_if; intros Hcb; [clear Hcb|apply Z.leb_gt in Hcb; lia].
  eapply wp_ask; [apply GetNextOrder_ok; lia|]. cbv beta iota.
  pose proof (order_after_bounds _ (current (pl w)) (c_queue _ _ Hc) ltac:(destruct Hc; lia)) as Hnext.
  set (next := order_after (queue (pl w)) (current (pl w))) in *.
  (* the optional shuffle *)
  assert (forall (Q' : result unit -> World -> Prop),
    (forall w1, mid_ok cs prev w1 -> same_songs w w1 -> events w1 = events w -> next < GetLength (queue (pl w1)) ->
      (queue (pl w1) = queue (pl w) /\ current (pl w1) = current (pl w) \/
       next = 0 /\ random (queue (pl w)) = true /\ single (queue (pl w)) = SINGLE_OFF) -> Q' (Ok tt) w1) ->
    wp (when ((next =? 0) && random (queue (pl w)) && bool_decide (single (queue (pl w)) = SINGLE_OFF)) shuffle_keep_current) Q' w) as Hshuffle.
  { intros Q' HQ'. apply wp_when; intros Hs.
    - apply andb_true_iff in Hs as [[Hs1%Z.eqb_eq Hs2]%andb_true_iff Hs3%bool_decide_eq_true].
      apply (wp_shuffle_keep_current cs); try done. intros q c p' Hc' Hre Hcc. apply HQ'; [| |done| |by right].
      + by split.
      + split; try done; cbn; [by apply reordered_tracks|by destruct Hre].
      + cbn. unfold GetLength in *. destruct Hre as [_ -> _ _ _]. lia.
    - apply HQ'; [by split|apply same_songs_refl|done|lia|by left]. }
  wstep. apply Hshuffle. intros w1 [Hc1 Hnone1 Hstop1 Hsome1] Hsame _ Hlt Hwhy. cbv beta iota. pose proof (same_playing _ _ Hsame) as Hp1. rewrite Hp in Hp1.
  wstep. apply wp_song_opt; [apply Hc1|intros Hb'%Z.leb_le; lia| |].
  - intros Hge%Z.leb_le n k it Ht. cbv beta iota. wstep. apply wp_when; intros Hd.
    + apply andb_true_iff in Hd as [Hd1 Hd2]. wsteps. apply wp_when; [intros _|intros ?%Z.leb_gt; lia].
      apply negb_true_iff in Hd2. rewrite Hd2.
      apply (wp_QueueSongOrder cs); cbn; [by destruct Hc1; split; cbn; try done; lia|done|apply cancel_law|lia|].
      intros s w' -> Hw'. apply HQ; [done|]. split; [by destruct Hsame; split|]. intros _. right. cbn. split; [done|].
      destruct Hwhy as [[? ?]|[-> ?]]; [by left|by right].
    + apply wp_when; [intros _|intros ?%Z.leb_gt; lia].
      destruct (bool_decide (Some (i_id it) = prev)) eqn:Hsong.
      * wstep. apply HQ; [|split; [by destruct Hsame; split|]].
        -- pose proof (GetLength_small _ (c_queue _ _ Hc1)). split; cbn; [destruct Hc1; split; cbn; try done; lia|lia|done].
        -- intros _. right. cbn. split; [done|]. destruct Hwhy as [[? ?]|[-> ?]]; [by left|by right].
      * cbn [negb andb] in Hd. rewrite andb_true_r in Hd. apply negb_false_iff, bool_decide_eq_true in Hd as ->.
        apply (wp_QueueSongOrder cs); [done|done|by apply Hnone1|lia|].
        intros s w' -> Hw'. apply HQ; [done|]. split; [by destruct Hsame; split|]. intros _. right. cbn. split; [done|].
        destruct Hwhy as [[? ?]|[-> ?]]; [by left|by right].
  - intros Hlt0%Z.leb_gt. cbv beta iota. assert (next = -1) as Hm1 by lia.
    destruct Hwhy as [[Hq1 Hcu1]|(? & _)]; [|lia].
    wstep. apply wp_when; intros Hd; [wsteps|]; (apply wp_when; [intros ?%Z.leb_le; lia|intros _]).
    + apply HQ; [|split; [by destruct Hsame; split|]].
      * split; cbn; [destruct Hc1; split; cbn; try done; lia| |].
        -- intros _. destruct Hc1. pose proof (GetLength_small _ c_queue0). lia.
        -- rewrite cancel_law. done.
      * intros _. right. split; [wsimpl; lia|by left].
    + assert (prev = None) as ->.
      { destruct prev; [|done]. cbn in Hd. discriminate. }
      destruct (Hnone1 eq_refl) as [Hn Hqd]. apply HQ; [|split; [done|]].
      * split; [done| |by rewrite Hn]. intros _. rewrite Hqd by done. pose proof (GetLength_small _ (c_queue _ _ Hc1)). lia.
      * intros _. right. rewrite Hqd by done. split; [lia|by left].
Qed.
End Wf.
