(* ===== verification/PlayOps.v ===== *)
(** Playing, stopping and removing songs ([PlaylistControl.cxx] and the
    "delete" commands of [PlaylistEdit.cxx]) keep the invariant of the
    playlist. *)
From S2P Require Import Arrays Text Tags Audio Songs RangeArg SortList StableSort Queue QueueWf QueueOps QueueRandom PlayControl PlayRules PlayWf.
Open Scope Z_scope.

Section Ops.
Context `{RandomLaws} `{PlayerLaws}.
Implicit Types (w : World) (cs : option Z) (prev : option Z) (q : Queue).

(** The ids of the songs, by position. *)
Definition song_ids w : list Z := track_id <$> tracks (queue (pl w)).

Lemma length_song_ids w : Z.of_nat (length (song_ids w)) = GetLength (queue (pl w)).
Proof. unfold song_ids, GetLength. by rewrite length_fmap, length_tracks. Qed.

Lemma fmap_omap_ids q : track_id <$> in_order q = omap (arr_get (track_id <$> tracks q)) (order q).
Proof.
  rewrite in_order_tracks. induction (order q) as [|o l IH]; [done|]. cbn. rewrite <- arr_get_fmap.
  destruct (arr_get (tracks q) o); cbn; [f_equal|]; done.
Qed.

Lemma song_id_at_ids q q' o : order q' = order q -> track_id <$> tracks q' = track_id <$> tracks q -> song_id_at q' o = song_id_at q o.
Proof.
  intros Ho Hi. unfold song_id_at. destruct (0 <=? o); [|done]. rewrite <- !list_lookup_fmap, !fmap_omap_ids. by rewrite Ho, Hi.
Qed.

Lemma ids_GetLength q q' : track_id <$> tracks q' = track_id <$> tracks q -> GetLength q' = GetLength q.
Proof. intros E%(f_equal length). unfold GetLength. rewrite !length_fmap, !length_tracks in E. by rewrite E. Qed.

(** ** Starting and stopping *)

Definition same_ids w w' : Prop :=
  song_ids w' = song_ids w /\ bulk_edit (pl w') = bulk_edit (pl w) /\ random (queue (pl w')) = random (queue (pl w)).

Lemma wp_SongStarted cs w (Q : result unit -> World -> Prop) : pl_ok cs w -> 0 <= current (pl w) ->
  (forall w', pl_ok cs w' -> same_ids w w' -> playing (pl w') = playing (pl w) -> current (pl w') = current (pl w) ->
     queued (pl w') = queued (pl w) -> order (queue (pl w')) = order (queue (pl w)) -> Q (Ok tt) w') ->
  wp SongStarted Q w.
Proof.
  intros Hpl Hc0 HQ. destruct (p_core _ _ Hpl) as [Hok Hc Hp Hn Hs].
  destruct (turn_exists _ (current (pl w)) Hok ltac:(lia)) as (n & k & it & Ht). pose proof (turn_range Hok Ht) as [_ Hk].
  unfold SongStarted. wsteps. apply wp_massert; [by apply Z.leb_le|]. wsteps. eapply wp_ask; [apply (turn_OrderToPosition Ht)|]. cbv beta iota. wstep.
  destruct (SetPriority_ok (queue (pl w)) k 0 (-1) false Hok Hk) as (m & q' & Hq & Hpr & Ho); [lia|unfold GetLength; lia|].
  eapply wp_call; [exact Hq|]. cbv beta iota. specialize (Ho eq_refl). destruct Hpr as [Hok' Htr Hr _ _ _ _].
  assert (track_id <$> tracks q' = track_id <$> tracks (queue (pl w))) as Hids.
  { rewrite Htr. apply list_eq. intros j. rewrite !list_lookup_fmap. destruct (decide (j = k)) as [->|?];
      [rewrite list_lookup_alter_eq|by rewrite list_lookup_alter_ne]. by destruct (tracks (queue (pl w)) !! k). }
  set (w1 := mkWorld (set_queue q' (pl w)) (pc w) (events w)).
  assert (pl_ok cs w1) as Hpl1.
  { destruct Hpl as [_ Hq2 Hn2]. pose proof (ids_GetLength _ _ Hids) as Hl. split; [split|..]; cbn; rewrite ?Hl; try done.
    rewrite <- Hs. by apply song_id_at_ids. }
  apply wp_when; intros Hm.
  - apply (wp_OnModified cs w1); [done|]. intros w' Hpl' [Htr' Hp' Hb' Hr'] Hcu Hqu _ Ho'. apply HQ; try done.
    + split; [|split]; cbn in *; [|done|congruence]. unfold song_ids. by rewrite Htr'.
    + cbn in Ho'. congruence.
  - apply HQ; done.
Qed.

Lemma wp_PlayOrder o w (Q : result unit -> World -> Prop) (cs := song_id_at (queue (pl w)) o) :
  queue_ok (queue (pl w)) -> 0 <= o < GetLength (queue (pl w)) ->
  (forall r w', pl_ok cs w' -> same_ids w w' -> playing (pl w') = true -> current (pl w') = o ->
     queued (pl w') = -1 -> order (queue (pl w')) = order (queue (pl w)) -> Q r w') ->
  wp (PlayOrder o) Q w.
Proof.
  intros Hok Ho HQ. destruct (turn_exists _ o Hok Ho) as (n & k & it & Ht).
  unfold PlayOrder. wsteps. eapply wp_ask; [apply (turn_GetOrder Ht)|]. cbv beta iota. wsteps.
  apply wp_player_try. wsimpl. intros r.
  set (w1 := mkWorld _ _ _). assert (pl_ok cs w1) as Hpl1.
  { split; [split|..]; cbn; try done; try lia. rewrite play_law. done. }
  destruct r as [[]|e]; [|by apply HQ]. apply (wp_SongStarted cs w1); [done|cbn; lia|]. intros w' Hpl' Hids Hp' Hc' Hq' Ho'. by apply HQ.
Qed.

Lemma wp_Stop cs w (Q : result unit -> World -> Prop) : pl_ok cs w ->
  (forall w', pl_ok cs w' -> same_songs w (mkWorld (set_playing (playing (pl w)) (pl w')) (pc w') (events w')) ->
    playing (pl w') = false -> Q (Ok tt) w') ->
  wp Stop Q w.
Proof.
  intros Hpl HQ. unfold Stop. wsteps. apply wp_if; intros Hp; [apply negb_true_iff in Hp|apply negb_false_iff in Hp]; wsteps.
  { apply HQ; [done| |done]. by split. }
  pose proof (p_core _ _ Hpl) as [Hok Hc Hpc Hn Hs]. apply wp_massert; [by apply Z.leb_le, Hpc|]. wsteps. set (w1 := mkWorld _ _ _).
  assert (core_ok cs (pl w1)) as Hc1 by (split; cbn; try done; lia).
  apply wp_when; intros Hr.
  - apply (wp_shuffle_keep_current cs w1); [done|cbn; auto|done|]. intros q c p' Hp' Hre Hc0. apply HQ; [|split|done]; cbn; try done.
    + split; cbn; [done|done|by rewrite stop_law].
    + by apply reordered_tracks.
    + by destruct Hre.
  - apply HQ; [|by split|done]. split; [done|done|]. cbn. by rewrite stop_law.
Qed.

(** ** Removing songs *)

(** [current] after the song with another order number is gone. *)
Lemma core_ok_deleted cs w q (k o : nat) : core_ok cs (pl w) -> deleted_ok (queue (pl w)) q k o -> current (pl w) <> Z.of_nat o ->
  core_ok cs (set_current (if Z.of_nat o <? current (pl w) then current (pl w) - 1 else current (pl w)) (set_queue q (pl w))).
Proof.
  intros [Hok Hc Hp Hn Hs] [Hok' Htr Ho _ Hin _ _] Hne.
  assert (GetLength q = GetLength (queue (pl w)) - 1) as Hl.
  { unfold GetLength. rewrite <- (length_tracks q), Htr. pose proof (lookup_lt_Some _ _ _ Ho) as Hlt. rewrite (ok_lengths _ Hok) in Hlt.
    destruct (order_ok_range (queue (pl w)) (Z.of_nat k) (ok_order _ Hok)) as (k' & E & Hk); [by apply list_elem_of_lookup_2 in Ho|].
    apply Nat2Z.inj in E as <-. rewrite length_delete by (apply lookup_lt_is_Some_2; by rewrite length_tracks). rewrite length_tracks. lia. }
  assert (Z.of_nat o < GetLength (queue (pl w))) as Holt.
  { apply lookup_lt_Some in Ho. rewrite (ok_lengths _ Hok) in Ho. unfold GetLength. lia. }
  split; cbn; rewrite ?Hl.
  - done.
  - destruct (Z.ltb_spec (Z.of_nat o) (current (pl w))); lia.
  - intros E. specialize (Hp E). destruct (Z.ltb_spec (Z.of_nat o) (current (pl w))); lia.
  - done.
  - rewrite <- Hs. destruct (Z.ltb_spec (current (pl w)) 0) as [Hneg|Hpos].
    { destruct (Z.ltb_spec (Z.of_nat o) (current (pl w))); [lia|]. by rewrite !song_id_at_None by done. }
    destruct (Z_of_nat_complete _ Hpos) as [c Ec]. rewrite Ec in *. rewrite song_id_at_nat.
    destruct (Z.ltb_spec (Z.of_nat o) (Z.of_nat c)).
    + replace (Z.of_nat c - 1) with (Z.of_nat (c - 1)) by lia. rewrite song_id_at_nat, Hin, list_lookup_delete_ge by lia.
      do 2 f_equal. lia.
    + rewrite song_id_at_nat, Hin, list_lookup_delete_lt by lia. done.
Qed.

(** The state after a song is removed.  Nothing happens to the current
    song, unless it is the one. *)
Record removed w w' (k : nat) cs cs' prev prev' : Prop := {
  removed_mid : mid_ok cs' prev' w';
  removed_ids : song_ids w' = delete k (song_ids w);
  removed_bulk : bulk_edit (pl w') = bulk_edit (pl w);
  removed_random : random (queue (pl w')) = random (queue (pl w));
  removed_kept : song_ids w !! k <> cs -> cs' = cs /\ prev' = prev;
  removed_tracks : playing (pl w) = false \/ song_ids w !! k <> cs ->
    playing (pl w') = playing (pl w) /\ tracks (queue (pl w')) = delete k (tracks (queue (pl w)))
}.

Lemma song_ids_lookup w (k : nat) it : items (queue (pl w)) !! k = Some it -> song_ids w !! k = Some (i_id it).
Proof. intros Hk. unfold song_ids, tracks. by rewrite !list_lookup_fmap, Hk. Qed.

(** The last part of [DeleteInternal]: [current] has another order number
    than the song, or is on it and nothing is played. *)
Lemma wp_delete_song cs w prev (k o : nat) it (m : M (option Z)) (Q : result (option Z) -> World -> Prop) :
  mid_ok cs prev w -> turn (queue (pl w)) (Z.of_nat o) o k it -> current (pl w) <> Z.of_nat o ->
  m = (call_ (fun q => Queue.DeletePosition q (Z.of_nat k));;
       c ← get current; when (Z.of_nat o <? c) (modify (set_current (c - 1)));; mret prev) ->
  (forall w', removed w w' k cs cs prev prev -> playing (pl w') = playing (pl w) ->
     tracks (queue (pl w')) = delete k (tracks (queue (pl w))) -> Q (Ok prev) w') -> wp m Q w.
Proof.
  intros [Hc Hnone Hstop Hsome] Ht Hne -> HQ. pose proof (c_queue _ _ Hc) as Hok. pose proof (turn_range Hok Ht) as [_ Hk].
  destruct (DeletePosition_ok (queue (pl w)) k Hok Hk) as (q' & o' & Hq & Hd).
  assert (o' = o) as ->.
  { apply (NoDup_lookup (order (queue (pl w))) o' o (Z.of_nat k)); [apply order_ok_NoDup, Hok|by apply Hd|by apply Ht]. }
  pose proof (core_ok_deleted cs w q' k o Hc Hd Hne) as Hc'. pose proof Hd as [_ Htr _ _ _ (Hr & _) _].
  assert (forall w', pl w' = set_current (if Z.of_nat o <? current (pl w) then current (pl w) - 1 else current (pl w)) (set_queue q' (pl w)) ->
    pc w' = pc w -> Q (Ok prev) w') as HQ'.
  { intros w' Epl Epc. apply HQ; [split|..]; rewrite ?Epl; try done.
    - split; [by rewrite Epl|rewrite Epc, Epl; exact Hnone|by rewrite Epl|by rewrite Epl].
    - unfold song_ids. rewrite Epl. cbn. rewrite Htr. rewrite !list_fmap_delete. done. }
  wstep. eapply wp_call_; [exact Hq|]. cbv beta iota. wsteps. apply wp_when; intros Hlt; wsteps; apply HQ'; cbn; try done; rewrite Hlt; done.
Qed.

Lemma turn_same_order q q' o n k it : turn q o n k it -> order q' = order q -> track_id <$> tracks q' = track_id <$> tracks q ->
  exists it', turn q' o n k it' /\ i_id it' = i_id it.
Proof.
  intros [-> Ho Hi] Eo Ei. assert ((track_id <$> tracks q') !! k = Some (i_id it)) as E.
  { rewrite Ei. unfold tracks. by rewrite !list_lookup_fmap, Hi. }
  unfold tracks in E. rewrite !list_lookup_fmap in E. destruct (items q' !! k) as [it'|] eqn:Hi'; [|done]. cbn in E. injection E as E.
  exists it'. split; [|done]. split; [done|by rewrite Eo|done].
Qed.

Lemma song_id_not_current cs w (k o : nat) it : core_ok cs (pl w) -> turn (queue (pl w)) (Z.of_nat o) o k it ->
  current (pl w) = Z.of_nat o <-> song_ids w !! k = cs.
Proof.
  intros [Hok Hc _ _ Hs] Ht. rewrite (song_ids_lookup w k it (turn_item _ _ _ _ _ Ht)). split; intros E.
  - rewrite E in Hs. by rewrite <- Hs, (turn_song Hok Ht).
  - destruct (Z.ltb_spec (current (pl w)) 0); [rewrite song_id_at_None in Hs by done; congruence|].
    destruct (turn_exists _ (current (pl w)) Hok ltac:(lia)) as (n & p & it' & Ht').
    rewrite (turn_song Hok Ht'), <- E in Hs. injection Hs as Hs. exact (proj1 (turn_unique _ _ _ _ _ _ _ _ _ Hok Ht' Ht Hs)).
Qed.

(** The song being played is to be removed: the one after it is played, or
    the player is stopped. *)
Lemma wp_skip_current w (paused : bool) (Q : result (option Z) -> World -> Prop) : queue_ok (queue (pl w)) ->
  -1 <= current (pl w) < GetLength (queue (pl w)) -> -1 <= queued (pl w) < 2 ^ 30 ->
  (forall w' cs', mid_ok cs' None w' -> same_ids w w' -> order (queue (pl w')) = order (queue (pl w)) -> current (pl w') = current (pl w) ->
    Q (Ok None) w') ->
  wp (c ← get current;
      (if (0 <=? c) && negb paused then catch (PlayOrder c) (fun _ => mret tt) else player LockStop;; modify (set_playing false));;
      mret None) Q w.
Proof.
  intros Hok Hc Hn HQ. do 3 wstep. apply wp_if; intros Hb.
  - apply andb_true_iff in Hb as [Hb%Z.leb_le _]. apply wp_catch. apply wp_PlayOrder; [done|lia|].
    intros r w' Hpl Hids Hp' Hcu Hqu Ho. assert (Q (Ok None) w') as HQ' by (eapply HQ; [by apply pl_ok_mid|done..]).
    by destruct r as [[]|].
  - wsteps. eapply HQ; [|done|done|done]. split; cbn; [|by rewrite stop_law|done|done]. split; cbn; done.
Qed.

Lemma wp_DeleteInternal cs prev w (k : nat) (Q : result (option Z) -> World -> Prop) :
  mid_ok cs prev w -> (k < length (items (queue (pl w))))%nat ->
  (forall w' cs' prev', removed w w' k cs cs' prev prev' -> Q (Ok prev') w') -> wp (DeleteInternal (Z.of_nat k) prev) Q w.
Proof.
  intros Hmid Hk HQ. pose proof (m_core _ _ _ Hmid) as Hc. pose proof (c_queue _ _ Hc) as Hok.
  destruct (turn_of_position _ (Z.of_nat k) Hok ltac:(unfold GetLength; lia)) as (o & k' & it & Ho & <-%Nat2Z.inj & Ht).
  unfold DeleteInternal. do 3 wstep. apply wp_massert; [apply Z.ltb_lt; unfold GetLength; lia|]. wsteps.
  eapply wp_ask; [exact Ho|]. cbv beta iota. do 5 wstep.
  apply wp_if; intros Hcur.
  - apply andb_true_iff in Hcur as [Hp Hcu%Z.eqb_eq]. do 3 wstep.
    pose proof (order_after_bounds _ (current (pl w)) Hok ltac:(destruct Hc; lia)) as Hnext.
    eapply wp_ask; [apply GetNextOrder_ok; destruct Hc; cbn; lia|]. cbv beta iota. do 2 wstep.
    apply wp_skip_current; cbn; [done|destruct (_ =? _); lia|by destruct Hc|].
    intros w1 cs1 Hmid1 (Hids & Hbulk & Hrand) Hord Hcu1. cbn in Hids, Hbulk, Hrand, Hord.
    assert (current (pl w1) <> Z.of_nat o) as Hne by (rewrite Hcu1; cbn; destruct (Z.eqb_spec (order_after (queue (pl w)) (current (pl w))) (Z.of_nat o)); lia).
    destruct (turn_same_order _ (queue (pl w1)) _ _ _ _ Ht Hord Hids) as (it1 & Ht1 & _).
    eapply (wp_delete_song cs1 w1 None k o it1); [done|done|done|reflexivity|].
    intros w2 [Hm2 Hi2 Hb2 Hr2 _ _] _ _. apply (HQ w2 cs1).
    apply (song_id_not_current cs w k o it Hc Ht) in Hcu.
    split; [done|by rewrite Hi2, Hids|congruence|congruence|done|intros [?|?]; congruence].
  - wstep. apply wp_when; intros Hcu.
    + apply Z.eqb_eq in Hcu. rewrite Hcu, Z.eqb_refl, andb_true_r in Hcur. do 2 wstep.
      set (w1 := mkWorld _ _ _).
      assert (mid_ok None prev w1) as Hmid1.
      { destruct Hmid as [[] Hnone Hstop Hsome]. split; cbn; [split; cbn; try done; [lia|congruence]|done..]. }
      eapply (wp_delete_song None w1 prev k o it); [done|done|cbn; lia|reflexivity|].
      intros w2 [Hm2 Hi2 Hb2 Hr2 _ _] Hpl2 Htr2. apply (HQ w2 None).
      apply (song_id_not_current cs w k o it Hc Ht) in Hcu. by split.
    + apply Z.eqb_neq in Hcu. wstep. eapply (wp_delete_song cs w prev k o it); [done|done|done|reflexivity|].
      intros w2 [Hm2 Hi2 Hb2 Hr2 _ _] Hpl2 Htr2. by apply (HQ w2 cs).
Qed.

(** After "delete": the songs are gone, and playback goes on where the
    current song is not one of them. *)
Record deleted w w' (ids : list Z) (trs : list Track) (gone : Prop) cs cs' : Prop := {
  deleted_ok : pl_ok cs' w';
  deleted_ids : song_ids w' = ids;
  deleted_bulk : bulk_edit (pl w') = bulk_edit (pl w);
  deleted_rand : random (queue (pl w')) = random (queue (pl w));
  deleted_kept : ~ gone -> cs' = cs;
  deleted_tracks : playing (pl w) = false \/ ~ gone -> playing (pl w') = playing (pl w) /\ tracks (queue (pl w')) = trs
}.

Lemma same_songs_ids w w' : same_songs w w' -> song_ids w' = song_ids w.
Proof. intros []. unfold song_ids. by f_equal. Qed.

(** [UpdateQueuedSong] and [OnModified] end every edit. *)
Lemma wp_finish_edit cs prev w (Q : result unit -> World -> Prop) : mid_ok cs prev w ->
  (forall w', pl_ok cs w' -> same_songs w w' -> Q (Ok tt) w') -> wp (UpdateQueuedSong prev;; OnModified) Q w.
Proof.
  intros Hmid HQ. wstep. apply (wp_UpdateQueuedSong cs); [done|]. intros w1 Hpl1 [Hs1 _]. cbv beta iota.
  apply (wp_OnModified cs); [done|]. intros w2 Hpl2 Hs2 _ _ _ _. apply HQ; [done|by eapply same_songs_trans].
Qed.

Lemma wp_DeletePosition cs w (k : nat) (Q : result unit -> World -> Prop) : pl_ok cs w -> (k < length (items (queue (pl w))))%nat ->
  (forall w' cs', deleted w w' (delete k (song_ids w)) (delete k (tracks (queue (pl w)))) (song_ids w !! k = cs) cs cs' -> Q (Ok tt) w') ->
  wp (DeletePosition (Z.of_nat k)) Q w.
Proof.
  intros Hpl Hk HQ. unfold DeletePosition. wsteps. unfold IsValidPosition.
  destruct (Z.ltb_spec (Z.of_nat k) (GetLength (queue (pl w)))); [cbn [negb]|unfold GetLength in *; lia].
  wstep. apply (wp_GetQueuedSong cs); [done|]. intros prev Hmid. cbv beta iota. wstep.
  apply (wp_DeleteInternal cs prev); [done|done|]. intros w1 cs1 prev1 [Hmid1 Hi1 Hb1 Hr1 Hk1 Ht1]. cbv beta iota.
  apply (wp_finish_edit cs1); [done|]. intros w2 Hpl2 Hs2. apply (HQ w2 cs1).
  pose proof (same_songs_ids _ _ Hs2). destruct Hs2 as [Ht2 Hp2 Hb2 Hr2]. split; [done|congruence|congruence|congruence| |].
  - intros Hg. by destruct (Hk1 Hg).
  - intros Hg. destruct (Ht1 Hg). split; congruence.
Qed.

Lemma wp_DeletePosition_any cs w (song : Z) (Q : result unit -> World -> Prop) : pl_ok cs w -> 0 <= song ->
  (forall r w' cs', pl_ok cs' w' -> Q r w') -> wp (DeletePosition song) Q w.
Proof.
  intros Hpl Hs HQ. destruct (Z.ltb_spec song (GetLength (queue (pl w)))) as [Hlt|Hge].
  - destruct (Z_of_nat_complete song Hs) as [k ->]. apply (wp_DeletePosition cs); [done|unfold GetLength in *; lia|].
    intros w' cs' Hd. eapply HQ, Hd.
  - unfold DeletePosition. wsteps. unfold IsValidPosition. destruct (Z.ltb_spec song (GetLength (queue (pl w)))); [lia|]. cbn [negb].
    wstep. by eapply HQ.
Qed.

(** Removing the last element of a range. *)
Lemma delete_range_last {A} (l : list A) (s e : nat) : (s <= e < length l)%nat ->
  take s (delete e l) ++ drop e (delete e l) = take s l ++ drop (S e) l /\ take (e - s) (drop s (delete e l)) = take (e - s) (drop s l).
Proof.
  intros Hs. assert (forall j, (j < e)%nat -> delete e l !! j = l !! j) as Hlt by (intros; by apply list_lookup_delete_lt).
  assert (length (delete e l) = length l - 1)%nat as Hlen by (rewrite length_delete by (apply lookup_lt_is_Some_2; lia); lia).
  split; [f_equal|]; apply list_eq; intros j.
  - destruct (decide (j < s)%nat); [rewrite !lookup_take_lt by done; apply Hlt; lia|by rewrite !lookup_take_ge by lia].
  - rewrite !lookup_drop, list_lookup_delete_ge by lia. by rewrite Nat.add_succ_l.
  - destruct (decide (j < e - s)%nat); [rewrite !lookup_take_lt, !lookup_drop by done; apply Hlt; lia|by rewrite !lookup_take_ge by lia].
Qed.

Lemma wp_DeleteRange_loop cs prev w (s n : nat) (Q : result (option Z) -> World -> Prop) : mid_ok cs prev w ->
  (s + n <= length (items (queue (pl w))))%nat ->
  (forall w' cs' prev', mid_ok cs' prev' w' -> song_ids w' = take s (song_ids w) ++ drop (s + n) (song_ids w) ->
     bulk_edit (pl w') = bulk_edit (pl w) -> random (queue (pl w')) = random (queue (pl w)) ->
     (cs ∉ Some <$> take n (drop s (song_ids w)) -> cs' = cs) ->
     (playing (pl w) = false \/ cs ∉ Some <$> take n (drop s (song_ids w)) -> playing (pl w') = playing (pl w) /\
       tracks (queue (pl w')) = take s (tracks (queue (pl w))) ++ drop (s + n) (tracks (queue (pl w)))) ->
     Q (Ok prev') w') ->
  wp (DeleteRange_loop n (Z.of_nat (s + n)) prev) Q w.
Proof.
  revert cs prev w Q. induction n as [|n IH]; intros cs prev w Q Hmid Hn HQ; cbn [DeleteRange_loop].
  { wstep. eapply HQ; try done; rewrite Nat.add_0_r, take_drop; done. }
  replace (Z.of_nat (s + S n) - 1) with (Z.of_nat (s + n)) by lia. wstep.
  apply (wp_DeleteInternal cs prev); [done|lia|]. intros w1 cs1 prev1 [Hmid1 Hi1 Hb1 Hr1 Hk1 Ht1]. cbv beta iota.
  assert (length (song_ids w) = length (items (queue (pl w)))) as Hlen by (unfold song_ids; by rewrite length_fmap, length_tracks).
  assert (length (items (queue (pl w1))) = length (items (queue (pl w))) - 1)%nat as Hlen1.
  { assert (length (song_ids w1) = length (items (queue (pl w1)))) as <- by (unfold song_ids; by rewrite length_fmap, length_tracks).
    rewrite Hi1, length_delete by (apply lookup_lt_is_Some_2; lia). lia. }
  pose proof (delete_range_last (song_ids w) s (s + n) ltac:(lia)) as [Hids Hrange].
  replace (s + n - s)%nat with n in Hrange by lia.
  destruct (lookup_lt_is_Some_2 (song_ids w) (s + n) ltac:(lia)) as [x Hx].
  assert (take (S n) (drop s (song_ids w)) = take n (drop s (song_ids w)) ++ [x]) as Et by (apply take_S_r; by rewrite lookup_drop).
  assert (cs ∉ Some <$> take (S n) (drop s (song_ids w)) -> song_ids w !! (s + n)%nat <> cs /\ cs ∉ Some <$> take n (drop s (song_ids w1))) as Hcs.
  { rewrite Et, fmap_app, elem_of_app. cbn. rewrite list_elem_of_singleton, Hx, Hi1, Hrange. naive_solver. }
  apply (IH cs1 prev1); [done|lia|]. intros w2 cs2 prev2 Hmid2 Hi2 Hb2 Hr2 Hk2 Ht2.
  replace (s + S n)%nat with (S (s + n)) in * by lia.
  apply (HQ w2 cs2 prev2); [done|by rewrite Hi2, Hi1|congruence|congruence| |].
  - intros [Hc1 Hc2]%Hcs. destruct (Hk1 Hc1) as [-> _]. by apply Hk2.
  - intros Hp. destruct Ht1 as [Hp1 Htr1]; [by naive_solver|].
    destruct Ht2 as [Hp2 Htr2]; [destruct Hp as [Hp|[Hc1 Hc2]%Hcs]; [left; congruence|right; by destruct (Hk1 Hc1) as [-> _]]|].
    split; [congruence|]. rewrite Htr2, Htr1.
    by rewrite (proj1 (delete_range_last (tracks (queue (pl w))) s (s + n) ltac:(rewrite length_tracks; lia))).
Qed.

Lemma CheckClip_ok r count : 0 <= r_start r -> 0 <= count ->
  CheckClip r count = (false, r) /\ count < r_start r \/
  exists e, CheckClip r count = (true, mkRangeArg (r_start r) e) /\ e = Z.min (r_end r) count /\ r_start r <= count.
Proof.
  intros Hs Hc. unfold CheckClip. destruct (Z.ltb_spec count (r_start r)); [by left|right].
  exists (Z.min (r_end r) count). split; [|done]. destruct (Z.ltb_spec count (r_end r)).
  - by rewrite Z.min_r by lia.
  - rewrite Z.min_l by lia. by destruct r.
Qed.

Lemma wp_DeleteRange cs w (r : RangeArg) (Q : result unit -> World -> Prop) : pl_ok cs w -> 0 <= r_start r ->
  (GetLength (queue (pl w)) < r_start r -> Q (Throw BadRange) w) ->
  (r_start r <= GetLength (queue (pl w)) -> Z.min (r_end r) (GetLength (queue (pl w))) <= r_start r -> Q (Ok tt) w) ->
  (forall s e : nat, r_start r = Z.of_nat s -> Z.min (r_end r) (GetLength (queue (pl w))) = Z.of_nat e -> (s < e)%nat ->
    forall w' cs', deleted w w' (take s (song_ids w) ++ drop e (song_ids w))
      (take s (tracks (queue (pl w))) ++ drop e (tracks (queue (pl w)))) (cs ∈ Some <$> take (e - s) (drop s (song_ids w))) cs cs' -> Q (Ok tt) w') ->
  wp (DeleteRange r) Q w.
Proof.
  intros Hpl Hs HT HE HQ. unfold DeleteRange. wsteps.
  destruct (CheckClip_ok r (GetLength (queue (pl w))) Hs) as [[-> Hlt]|(e & -> & He & Hse)]; [unfold GetLength; lia|..]; cbn [negb].
  { wstep. by apply HT. }
  unfold RangeArg_IsEmpty. cbn [r_start r_end]. destruct (Z.leb_spec e (r_start r)); [wstep; apply HE; lia|].
  destruct (Z_of_nat_complete (r_start r) Hs) as [s Es]. destruct (Z_of_nat_complete e ltac:(lia)) as [e' Ee].
  rewrite Es, Ee in *. replace (Z.to_nat (Z.of_nat e' - Z.of_nat s)) with (e' - s)%nat by lia.
  wstep. apply (wp_GetQueuedSong cs); [done|]. intros prev Hmid. cbv beta iota. wstep.
  replace (Z.of_nat e') with (Z.of_nat (s + (e' - s))) by lia.
  apply (wp_DeleteRange_loop cs prev); [done|unfold GetLength in *; lia|].
  intros w1 cs1 prev1 Hmid1 Hi1 Hb1 Hr1 Hk1 Ht1. cbv beta iota. replace (s + (e' - s))%nat with e' in * by lia.
  apply (wp_finish_edit cs1); [done|]. intros w2 Hpl2 Hs2. apply (HQ s e' eq_refl) with (cs' := cs1); [lia|lia|].
  pose proof (same_songs_ids _ _ Hs2). destruct Hs2 as [Ht2 Hp2 Hb2 Hr2]. split; [done|congruence|congruence|congruence|done|].
  intros Hg. destruct (Ht1 Hg). split; congruence.
Qed.

(** ** Stale songs *)

(** A song stays in the queue if it has another URI or is being played. *)
Definition stays (uri : bytes) (playing_id : option Z) (x : Track) : bool :=
  negb (d_uri x.1.2 =b uri) || bool_decide (playing_id = Some (track_id x)).

Definition playing_song cs w : option Z := if playing (pl w) then cs else None.

Lemma filter_snoc {A} (P : A -> bool) (l : list A) x : List.filter P (l ++ [x]) = List.filter P l ++ (if P x then [x] else []).
Proof. rewrite List.filter_app. cbn. by destruct (P x). Qed.

Lemma tracks_lookup_id w (k : nat) x : tracks (queue (pl w)) !! k = Some x -> song_ids w !! k = Some (track_id x).
Proof. intros Hk. unfold song_ids. by rewrite list_lookup_fmap, Hk. Qed.

Lemma wp_Get w (k : nat) x (Q : result DetachedSong -> World -> Prop) : tracks (queue (pl w)) !! k = Some x -> Q (Ok x.1.2) w ->
  wp (ask (fun q => Get q (Z.of_nat k))) Q w.
Proof.
  intros Hx HQ. unfold tracks in Hx. rewrite list_lookup_fmap in Hx. apply fmap_Some in Hx as (it & Hit & ->).
  eapply wp_ask; [unfold Get; by rewrite arr_get_nat, Hit|]. done.
Qed.

Lemma wp_StaleSong_loop cs w (n : nat) cp uri (Q : result unit -> World -> Prop) : pl_ok cs w -> (n <= length (tracks (queue (pl w))))%nat ->
  (forall i, (i < n)%nat -> Z.of_nat i = cp <-> playing (pl w) = true /\ song_ids w !! i = cs) ->
  (forall w' cs', pl_ok cs' w' -> playing (pl w') = playing (pl w) -> (playing (pl w) = true -> cs' = cs) ->
     tracks (queue (pl w')) = List.filter (stays uri (playing_song cs w)) (take n (tracks (queue (pl w)))) ++ drop n (tracks (queue (pl w))) ->
     Q (Ok tt) w') ->
  wp (StaleSong_loop n cp uri) Q w.
Proof.
  revert cs w Q. induction n as [|n IH]; intros cs w Q Hpl Hn Hcp HQ; cbn [StaleSong_loop].
  { wstep. by eapply HQ. }
  destruct (lookup_lt_is_Some_2 (tracks (queue (pl w))) n ltac:(lia)) as [x Hx].
  pose proof (tracks_lookup_id w n x Hx) as Hid.
  assert (take (S n) (tracks (queue (pl w))) = take n (tracks (queue (pl w))) ++ [x]) as Et by by apply take_S_r.
  assert (stays uri (playing_song cs w) x = negb (d_uri x.1.2 =b uri) || (Z.of_nat n =? cp)) as Hst.
  { unfold stays, playing_song. f_equal. specialize (Hcp n ltac:(lia)). rewrite Hid in Hcp.
    destruct (Z.eqb_spec (Z.of_nat n) cp) as [E|E].
    - destruct (proj1 Hcp E) as [-> <-]. by apply bool_decide_eq_true.
    - apply bool_decide_eq_false. intros Ec. apply E, Hcp. by destruct (playing (pl w)). }
  (* the song stays *)
  assert (stays uri (playing_song cs w) x = true -> wp (StaleSong_loop n cp uri) Q w) as Hstay.
  { intros Hs. apply (IH cs); [done|lia|intros; apply Hcp; lia|]. intros w' cs' Hpl' Hp' Hc' Ht'. apply (HQ w' cs'); try done.
    rewrite Ht', Et, filter_snoc, Hs, <- app_assoc. cbn. by rewrite (drop_S _ x). }
  wstep. destruct (Z.of_nat n =? cp) eqn:Ecp.
  { wstep. apply Hstay. by rewrite Hst, orb_true_r. }
  wstep. apply (wp_Get w n x); [done|]. cbv beta iota. rewrite orb_false_r in Hst.
  apply wp_when; intros Hu; [|apply Hstay; by rewrite Hst, Hu].
  rewrite Hu in Hst. assert (playing (pl w) = false \/ song_ids w !! n <> cs) as Hgone.
  { apply Z.eqb_neq in Ecp. specialize (Hcp n ltac:(lia)). destruct (playing (pl w)); [right; naive_solver|by left]. }
  apply (wp_DeletePosition cs); [done|rewrite <- (length_tracks (queue (pl w))); lia|].
  intros w1 cs1 [Hpl1 Hi1 _ _ Hk1 Ht1]. destruct (Ht1 Hgone) as [Hp1 Htr1].
  assert (playing (pl w) = true -> cs1 = cs) as Hcs1 by (intros Hp; apply Hk1; destruct Hgone; congruence).
  assert (playing_song cs1 w1 = playing_song cs w) as Eps by (unfold playing_song; rewrite Hp1; destruct (playing (pl w)); auto).
  apply (IH cs1 w1); [done| | |].
  - rewrite Htr1, length_delete by (by eexists). lia.
  - intros i Hi. rewrite Hp1, Hi1, list_lookup_delete_lt by lia. rewrite (Hcp i ltac:(lia)). split; intros [Hp E]; (split; [done|]);
      [by rewrite Hcs1|by rewrite <- Hcs1].
  - intros w2 cs2 Hpl2 Hp2 Hc2 Ht2. apply (HQ w2 cs2); [done|congruence| |].
    + intros Hp. rewrite Hc2 by congruence. auto.
    + rewrite Ht2, Htr1, Eps, Et, filter_snoc, Hst, app_nil_r. f_equal.
      * f_equal. rewrite delete_take_drop, take_app_le by (rewrite length_take; lia). by rewrite take_take, Nat.min_id.
      * by rewrite delete_take_drop, drop_app_length' by (rewrite length_take; lia).
Qed.

Lemma wp_StaleSong cs w uri (Q : result unit -> World -> Prop) : pl_ok cs w ->
  (forall w' cs', pl_ok cs' w' -> playing (pl w') = playing (pl w) -> (playing (pl w) = true -> cs' = cs) ->
     tracks (queue (pl w')) = List.filter (stays uri (playing_song cs w)) (tracks (queue (pl w))) -> Q (Ok tt) w') ->
  wp (StaleSong uri) Q w.
Proof.
  intros Hpl HQ. pose proof (p_core _ _ Hpl) as [Hok Hc Hp Hn Hs].
  assert (forall cp, (forall i, (i < length (tracks (queue (pl w))))%nat -> Z.of_nat i = cp <-> playing (pl w) = true /\ song_ids w !! i = cs) ->
    wp (q ← get queue; StaleSong_loop (length (items q)) cp uri) Q w) as Hloop.
  { intros cp Hcp. wsteps. rewrite <- length_tracks. apply (wp_StaleSong_loop cs); [done|done|done|].
    intros w' cs' Hpl' Hp' Hc' Ht'. apply (HQ w' cs'); try done. rewrite Ht', firstn_all, drop_all, app_nil_r. done. }
  unfold StaleSong. do 3 wstep. apply wp_if; intros Hplay.
  - unfold GetCurrentPosition. do 2 wstep. specialize (Hp Hplay). destruct (Z.leb_spec 0 (current (pl w))); [|lia].
    destruct (turn_exists _ (current (pl w)) Hok ltac:(lia)) as (n & k & it & Ht).
    eapply wp_ask; [apply (turn_OrderToPosition Ht)|]. cbv beta iota. apply Hloop. intros i Hi. rewrite Hplay, <- Hs, (turn_song Hok Ht).
    split.
    + intros <-%Nat2Z.inj. split; [done|]. apply song_ids_lookup, Ht.
    + intros [_ Hid]. destruct (items (queue (pl w)) !! i) as [it'|] eqn:Hi'.
      * rewrite (song_ids_lookup w i it' Hi') in Hid. injection Hid as Hid. f_equal.
        by apply (found_inj _ _ _ _ _ _ (ok_found _ Hok) Hi' (turn_item _ _ _ _ _ Ht)).
      * apply lookup_ge_None in Hi'. rewrite length_tracks in Hi. lia.
  - wstep. apply Hloop. intros i _. split; [lia|]. intros [? _]. congruence.
Qed.
End Ops.
