(* ===== verification/PlayPlayback.v ===== *)
(** Starting, stopping and seeking, and the events of the player
    ([PlaylistControl.cxx], [Playlist.cxx]), keep the invariant of the
    playlist.  [SyncWithPlayer] needs a precondition: in consume mode the
    queued song is not the current one. *)
From S2P Require Import Arrays Text Tags Audio Songs RangeArg SortList StableSort Queue QueueWf QueueOps QueueRandom PlayControl PlayRules PlayWf PlayOps.
Open Scope Z_scope.

Section Playback.
Context `{RandomLaws} `{PlayerLaws}.
Implicit Types (w : World) (cs : option Z) (prev : option Z) (q : Queue).

(** The computation is defined and the invariant holds after it, whether
    it throws or not. *)
Definition safe {A} (m : M A) w : Prop := wp m (fun _ w' => exists cs, pl_ok cs w') w.

(** The invariant does not depend on the state of the player but for its
    next song. *)
Lemma pl_ok_player cs w pc' evs : pl_ok cs w -> (has_next (pc w) = false -> has_next pc' = false) -> pl_ok cs (mkWorld (pl w) pc' evs).
Proof. intros [Hc Hq Hn] Hp. split; cbn; [done|done|]. intros E. apply Hn. destruct (has_next (pc w)); [done|]. rewrite Hp in E by done. done. Qed.

(** Changes that keep what the invariant is about. *)
Lemma pl_ok_ext cs w w' : pl_ok cs w -> queue (pl w') = queue (pl w) -> playing (pl w') = playing (pl w) -> current (pl w') = current (pl w) ->
  queued (pl w') = queued (pl w) -> pc w' = pc w -> pl_ok cs w'.
Proof. intros [[] Hq Hn] E1 E2 E3 E4 E5. split; [split|..]; rewrite ?E1, ?E2, ?E3, ?E4, ?E5; done. Qed.

(** Options of the queue that do not reorder it. *)
Lemma pl_ok_options cs w q : pl_ok cs w -> items q = items (queue (pl w)) -> order q = order (queue (pl w)) -> id_table q = id_table (queue (pl w)) ->
  max_length q = max_length (queue (pl w)) -> version q = version (queue (pl w)) ->
  (random q = random (queue (pl w)) \/ random q = true) ->
  forall evs, pl_ok cs (mkWorld (set_queue q (pl w)) (pc w) evs).
Proof.
  intros Hpl Ei Eo Et Em Ev Er evs. apply pl_ok_queue; [done| | |].
  - destruct (c_queue _ _ (p_core _ _ Hpl)) as [Ht Ho Hplain Hm Hv Hpr]. unfold order_ok, GetLength in *. split; unfold order_ok, GetLength; rewrite ?Ei, ?Eo, ?Et, ?Em, ?Ev; try done.
    intros E. destruct Er; [|congruence]. by apply Hplain; congruence.
  - unfold tracks. by rewrite Ei.
  - unfold in_order. by rewrite Ei, Eo.
Qed.

Lemma wp_PlayOrder_safe o w : queue_ok (queue (pl w)) -> 0 <= o < GetLength (queue (pl w)) -> safe (PlayOrder o) w.
Proof. intros Hok Ho. apply wp_PlayOrder; [done|done|]. intros r w' Hpl _ _ _ _ _. by eexists. Qed.

Lemma Stop_safe cs w : pl_ok cs w -> safe Stop w.
Proof. intros Hpl. apply (wp_Stop cs); [done|]. intros w' Hpl' _ _. by eexists. Qed.

(** ** Commands *)

Lemma PlayAny_safe cs w : pl_ok cs w -> safe PlayAny w.
Proof.
  intros Hpl. pose proof (p_core _ _ Hpl) as [Hok Hc _ _ _]. unfold safe, PlayAny. do 4 wstep. apply wp_if; intros He.
  { wstep. by eexists. }
  unfold IsEmpty in He. apply Z.eqb_neq in He. pose proof (GetLength_small _ Hok).
  apply wp_if; intros Hp; wsteps.
  - exists cs. apply pl_ok_player; [done|apply pause_law].
  - apply wp_PlayOrder_safe; cbn; [done|]. destruct (Z.leb_spec 0 (current (pl w))); lia.
Qed.

(** [MoveOrderToCurrent] gives the song a new order number. *)
Lemma wp_MoveOrderToCurrent cs w (o : Z) (Q : result Z -> World -> Prop) : core_ok cs (pl w) -> 0 <= o < GetLength (queue (pl w)) ->
  (forall o' q, queue_ok q -> GetLength q = GetLength (queue (pl w)) -> 0 <= o' < GetLength q -> song_id_at q o' = song_id_at (queue (pl w)) o ->
     Q (Ok o') (mkWorld (set_queue q (pl w)) (pc w) (events w))) ->
  wp (MoveOrderToCurrent o) Q w.
Proof.
  intros [Hok Hc Hp Hn Hs] Ho HQ. pose proof (GetLength_small _ Hok) as Hsm. unfold MoveOrderToCurrent. do 6 wstep.
  destruct (random (queue (pl w))) eqn:Hr; cbn [negb].
  2: { wstep. assert (mkWorld (set_queue (queue (pl w)) (pl w)) (pc w) (events w) = w) as E by (destruct w as [[] ? ?]; done).
       rewrite <- E. by apply HQ. }
  assert (forall t, 0 <= t < GetLength (queue (pl w)) ->
    wp (call (fun q => MoveOrder q o t)) Q w) as Hmove.
  { intros t Ht. destruct (Z_of_nat_complete o ltac:(lia)) as [n ->], (Z_of_nat_complete t ltac:(lia)) as [m ->].
    unfold GetLength in *. destruct (MoveOrder_ok (queue (pl w)) n m Hok Hr ltac:(lia) ltac:(lia)) as (q' & Hq & [Hok' Hit Hr' _ _] & _ & Hin).
    eapply wp_call; [exact Hq|]. apply HQ; unfold GetLength; rewrite ?Hit; try done; try congruence.
    rewrite !song_id_at_nat, Hin. pose proof (Permutation_length (in_order_perm _ Hok)) as Hl. rewrite length_tracks in Hl.
    rewrite lookup_move_range by lia. do 2 f_equal. unfold move_source. repeat case_decide; lia. }
  unfold MoveOrderAfter, MoveOrderBefore. destruct (playing (pl w)) eqn:Hplay.
  - specialize (Hp eq_refl). apply Hmove. destruct (Z.ltb_spec (current (pl w)) o); cbn [Z.b2z]; rewrite u32_id; lia.
  - destruct (Z.leb_spec 0 (current (pl w))); apply Hmove.
    + destruct (Z.ltb_spec o (current (pl w))); cbn [Z.b2z]; rewrite u32_id; lia.
    + destruct (Z.ltb_spec o 0); cbn [Z.b2z]; rewrite u32_id; lia.
Qed.

(** The song at a position and its order number. *)
Lemma song_of_position w (p : Z) (n k : nat) it : queue_ok (queue (pl w)) -> p = Z.of_nat k -> turn (queue (pl w)) (Z.of_nat n) n k it ->
  song_id_at (queue (pl w)) (Z.of_nat n) = song_ids w !! Z.to_nat p.
Proof. intros Hok -> Ht. rewrite (turn_song Hok Ht), Nat2Z.id. symmetry. apply song_ids_lookup, Ht. Qed.

Lemma plain_position w p : queue_ok (queue (pl w)) -> random (queue (pl w)) = false -> 0 <= p < GetLength (queue (pl w)) ->
  song_id_at (queue (pl w)) p = song_ids w !! Z.to_nat p.
Proof.
  intros Hok Hr Hp. destruct (turn_exists _ p Hok Hp) as (n & k & it & Ht). rewrite (turn_song Hok Ht).
  destruct Ht as [-> Ho Hi]. rewrite (ok_plain _ Hok Hr) in Ho. apply lookup_seqZ in Ho as [E _]. rewrite Nat2Z.id.
  symmetry. apply song_ids_lookup. replace n with k by lia. done.
Qed.

(** After the song at a position was started, or an error occurred while
    doing so, it is the current one. *)
Lemma wp_PlayPosition cs w position : pl_ok cs w -> 0 <= position < GetLength (queue (pl w)) ->
  wp (PlayPosition position) (fun _ w' => pl_ok (song_ids w !! Z.to_nat position) w' /\ playing (pl w') = true) w.
Proof.
  intros Hpl Hp. pose proof (p_core _ _ Hpl) as Hcore. pose proof (c_queue _ _ Hcore) as Hok. unfold PlayPosition. do 4 wstep.
  unfold IsValidPosition. destruct (Z.ltb_spec position (GetLength (queue (pl w)))); cbn [negb]; [|lia].
  assert (forall w1 o, queue_ok (queue (pl w1)) -> 0 <= o < GetLength (queue (pl w1)) -> song_id_at (queue (pl w1)) o = song_ids w !! Z.to_nat position ->
    wp (PlayOrder o) (fun _ w' => pl_ok (song_ids w !! Z.to_nat position) w' /\ playing (pl w') = true) w1) as Hstart.
  { intros w1 o Hok1 Ho <-. apply wp_PlayOrder; done. }
  wstep. apply wp_if; intros Hr.
  - destruct (turn_of_position _ position Hok ltac:(lia)) as (n & k & it & Ho & E & Ht). wstep. eapply wp_ask; [exact Ho|]. cbv beta iota.
    apply (wp_MoveOrderToCurrent cs); cbn; [done|pose proof (turn_range Hok Ht); unfold GetLength; lia|].
    intros o' q Hq Hl Ho' Hsong. wsteps. apply Hstart; cbn; [done|done|]. rewrite Hsong. by apply (song_of_position w position n k it).
  - wsteps. apply Hstart; cbn; [done|lia|]. by apply plain_position.
Qed.

Lemma PlayPosition_safe cs w position : pl_ok cs w -> 0 <= position -> safe (PlayPosition position) w.
Proof.
  intros Hpl Hp. destruct (Z.ltb_spec position (GetLength (queue (pl w)))) as [Hlt|Hge].
  { eapply wp_conseq; [by apply (wp_PlayPosition cs)|]. intros r w' [? _]. by eexists. }
  unfold safe, PlayPosition. do 4 wstep. unfold IsValidPosition. destruct (Z.ltb_spec position (GetLength (queue (pl w)))); [lia|]. cbn [negb].
  wstep. exists cs. apply pl_ok_player; [done|apply error_law].
Qed.

(** The player has never given out the id 0: see [IdToPosition]. *)
Lemma wp_IdToPosition cs w id (Q : result Z -> World -> Prop) : pl_ok cs w -> 1 <= id ->
  (forall p, p < GetLength (queue (pl w)) -> Q (Ok p) w) -> wp (ask (fun q => IdToPosition q id)) Q w.
Proof.
  intros Hpl Hid HQ. destruct (IdToPosition_ok (queue (pl w)) id (c_queue _ _ (p_core _ _ Hpl)) Hid) as (p & Hp & Hr).
  eapply wp_ask; [exact Hp|]. by apply HQ.
Qed.

Lemma PlayId_safe cs w id : pl_ok cs w -> 1 <= id -> safe (PlayId id) w.
Proof.
  intros Hpl Hid. unfold safe, PlayId. wstep. apply (wp_IdToPosition cs); [done|done|]. intros p Hp. cbv beta iota.
  destruct (Z.ltb_spec p 0); [wstep; by eexists|]. by apply (PlayPosition_safe cs).
Qed.

(** ** Consume mode *)

(** The songs without the one that was played. *)
Definition consumed q (o : Z) (ids : list Z) : list Z :=
  match consume q, OrderToPosition q o with
  | CONSUME_OFF, _ | _, None => ids
  | _, Some k => delete (Z.to_nat k) ids
  end.

Lemma wp_consume_played cs w o (Q : result unit -> World -> Prop) : pl_ok cs w -> 0 <= o < GetLength (queue (pl w)) ->
  (forall w' cs', pl_ok cs' w' -> bulk_edit (pl w') = bulk_edit (pl w) -> (o <> current (pl w) \/ consume (queue (pl w)) = CONSUME_OFF -> cs' = cs /\ playing (pl w') = playing (pl w)) ->
     song_ids w' = consumed (queue (pl w)) o (song_ids w) -> Q (Ok tt) w') ->
  wp (consume_played o) Q w.
Proof.
  intros Hpl Ho HQ. pose proof (p_core _ _ Hpl) as Hcore. pose proof (c_queue _ _ Hcore) as Hok. unfold consume_played. wsteps.
  apply wp_when; intros Hcons.
  - destruct (turn_exists _ o Hok Ho) as (n & k & it & Ht). unfold DeleteOrder. wstep.
    eapply wp_ask; [apply (turn_OrderToPosition Ht)|]. cbv beta iota.
    apply (wp_DeletePosition cs); [done|apply (turn_range Hok Ht)|]. intros w' cs' [Hpl' Hi' Hb _ Hk Ht']. apply (HQ w' cs'); [done|done| |].
    2: { rewrite Hi'. unfold consumed. rewrite (turn_OrderToPosition Ht), Nat2Z.id. by destruct (consume (queue (pl w))). }
    apply negb_true_iff, bool_decide_eq_false in Hcons. intros [Hne|?]; [|done].
    assert (song_ids w !! k <> cs) as Hgone.
    { intros E. destruct Ht as [-> Ho1 Hi1]. apply (song_id_not_current cs w k n it Hcore) in E; [congruence|by split]. }
    split; [by apply Hk|apply Ht'; by right].
  - apply negb_false_iff, bool_decide_eq_true in Hcons. apply (HQ w cs); try done. unfold consumed. by rewrite Hcons.
Qed.

Lemma wp_consume_oneshot cs w (Q : result unit -> World -> Prop) : pl_ok cs w ->
  (forall w', pl_ok cs w' -> current (pl w') = current (pl w) -> queued (pl w') = queued (pl w) -> pc w' = pc w -> playing (pl w') = playing (pl w) ->
     song_ids w' = song_ids w -> Q (Ok tt) w') -> wp consume_oneshot Q w.
Proof.
  intros Hpl HQ. unfold consume_oneshot. wsteps. apply wp_when; intros Hc; [|by apply HQ]. wsteps. apply HQ; try done.
  apply pl_ok_options; try done. by left.
Qed.

Lemma wp_consume_safe cs w o : pl_ok cs w -> 0 <= o < GetLength (queue (pl w)) -> safe (consume_played o;; consume_oneshot) w.
Proof.
  intros Hpl Ho. unfold safe. wstep. apply (wp_consume_played cs); [done|done|]. intros w1 cs1 Hpl1 _ _ _. cbv beta iota.
  apply (wp_consume_oneshot cs1); [done|]. intros w2 Hpl2 _ _ _ _ _. by eexists.
Qed.

(** ** The next song *)

Lemma PlayNext_safe cs w : pl_ok cs w -> safe PlayNext w.
Proof.
  intros Hpl. pose proof (p_core _ _ Hpl) as [Hok Hc Hp Hn Hs]. unfold safe, PlayNext. do 2 wstep. apply wp_if; intros Hplay.
  { wstep. by eexists. }
  apply negb_false_iff in Hplay. specialize (Hp Hplay). pose proof (GetLength_small _ Hok). do 5 wstep.
  apply wp_massert; [apply (not_empty _ (current (pl w))); lia|]. wstep.
  apply wp_massert; [apply Z.ltb_lt; rewrite u32_id; lia|]. do 3 wstep. eapply wp_ask; [apply GetNextOrder_ok; cbn; lia|]. cbv beta iota. wsimpl.
  pose proof (order_after_bounds _ (current (pl w)) Hok ltac:(lia)) as Hnext.
  set (next := order_after (queue (pl w)) (current (pl w))) in *.
  assert (forall w1 cs1, pl_ok cs1 w1 -> GetLength (queue (pl w1)) = GetLength (queue (pl w)) ->
    wp (consume_played (current (pl w));; consume_oneshot) (fun _ w' => exists cs, pl_ok cs w') w1) as Hconsume.
  { intros w1 cs1 Hpl1 Hl. apply (wp_consume_safe cs1); [done|lia]. }
  set (w0 := mkWorld (set_stop_on_error false (pl w)) (pc w) (events w)).
  assert (pl_ok cs w0) as Hpl0 by by apply (pl_ok_ext cs w).
  wstep. apply wp_if; intros Hneg.
  - apply wp_bind. apply (wp_Stop cs); [done|]. intros w1 Hpl1 [Ht1 _ _ _] Hp1. cbn in Ht1. cbv beta iota. wstep.
    apply (Hconsume _ None).
    + destruct Hpl1 as [[] Hq1 Hn1]. split; [split|..]; cbn; try done; try lia. congruence.
    + cbn. unfold GetLength. by rewrite <- !length_tracks, Ht1.
  - apply Z.ltb_ge in Hneg. apply wp_bind.
    assert (forall w1, queue_ok (queue (pl w1)) -> GetLength (queue (pl w1)) = GetLength (queue (pl w)) ->
      wp (PlayOrder next) (fun r w' => match r with Ok _ => wp (consume_played (current (pl w));; consume_oneshot)
         (fun _ w' => exists cs, pl_ok cs w') w' | Throw _ => exists cs, pl_ok cs w' end) w1) as Hplayed.
    { intros w1 Hok1 Hl1. apply wp_PlayOrder; [done|lia|]. intros r w2 Hpl2 (Hids2 & _) _ _ _ _.
      destruct r as [[]|]; [|by eexists]. eapply Hconsume; [done|]. rewrite <- Hl1. by apply ids_GetLength. }
    apply wp_when; intros Hsh; [|by apply Hplayed].
    apply andb_true_iff in Hsh as [Hfirst%Z.eqb_eq Hr]. wstep. apply wp_massert; [by apply (order_after_first _ (current (pl w)))|]. cbv beta iota.
    destruct (ShuffleOrder_ok _ Hok Hr) as (q' & Hq & [Hok' Hit _ _ _] & _).
    eapply wp_call_; [exact Hq|]. cbv beta iota. apply Hplayed; cbn; [done|]. unfold GetLength. by rewrite Hit.
Qed.

Lemma PlayPrevious_safe cs w : pl_ok cs w -> safe PlayPrevious w.
Proof.
  intros Hpl. pose proof (p_core _ _ Hpl) as [Hok Hc Hp Hn Hs]. unfold safe, PlayPrevious. do 2 wstep. apply wp_if; intros Hplay.
  { wstep. by eexists. }
  apply negb_false_iff in Hplay. specialize (Hp Hplay). wsteps. apply wp_massert; [apply (not_empty _ (current (pl w))); lia|]. cbv beta iota. apply wp_PlayOrder_safe; [done|].
  destruct (Z.ltb_spec 0 (current (pl w))); [lia|]. destruct (repeat _); lia.
Qed.

(** ** Seeking *)

Lemma wp_SeekSongOrder cs w i t : pl_ok cs w -> 0 <= i < GetLength (queue (pl w)) ->
  wp (SeekSongOrder i t) (fun _ w' => pl_ok (song_id_at (queue (pl w)) i) w' /\ playing (pl w') = true) w.
Proof.
  intros Hpl Hi. pose proof (p_core _ _ Hpl) as Hcore. unfold SeekSongOrder. do 3 wstep. apply wp_massert; [apply Z.ltb_lt; lia|]. do 11 wstep.
  set (w0 := mkWorld _ _ _).
  assert (core_ok cs (pl w0)) as Hcore0 by by destruct Hcore; split.
  assert (forall w1 o, queue_ok (queue (pl w1)) -> playing (pl w1) = true -> current (pl w1) = o -> 0 <= o < GetLength (queue (pl w1)) ->
    song_id_at (queue (pl w1)) o = song_id_at (queue (pl w)) i ->
    wp (modify (set_queued (-1));; song ← ask (fun q => GetOrder q o);
        catch (player_try (LockSeek song t)) (fun e => UpdateQueuedSong None;; throw e);; UpdateQueuedSong None)
      (fun _ w' => pl_ok (song_id_at (queue (pl w)) i) w' /\ playing (pl w') = true) w1) as Hseek.
  { intros w1 o Hok1 Hp1 Hc1 Ho <-. destruct (turn_exists _ o Hok1 Ho) as (n & k & it & Ht). wsteps.
    eapply wp_ask; [apply (turn_GetOrder Ht)|]. cbv beta iota. wstep. apply wp_catch, wp_player_try. wsimpl. intros r.
    set (w2 := mkWorld _ _ _).
    assert (mid_ok (song_id_at (queue (pl w1)) o) None w2) as Hmid.
    { split; cbn; [split; cbn; rewrite ?Hc1; try done; lia|by rewrite seek_law|by rewrite Hp1|done]. }
    assert (forall w3, queue_updated None w2 w3 -> playing (pl w3) = true) as Hplay.
    { intros w3 [Hsame _]. rewrite (same_playing _ _ Hsame). done. }
    destruct r as [[]|e].
    - eapply wp_UpdateQueuedSong; [exact Hmid|]. intros w3 Hpl3 Hu. split; [done|by apply Hplay].
    - wstep. eapply wp_UpdateQueuedSong; [exact Hmid|]. intros w3 Hpl3 Hu. wstep. split; [done|by apply Hplay]. }
  apply wp_if; intros Hch.
  - wstep. apply (wp_MoveOrderToCurrent cs w0); [done|done|]. intros o' q Hq Hl Ho' Hsong. cbv beta iota. do 5 wstep. apply Hseek; done.
  - apply orb_false_iff in Hch as [Hp%negb_false_iff Hcu%negb_false_iff]. apply Z.eqb_eq in Hcu. wstep.
    pose proof (GetLength_small _ (c_queue _ _ Hcore)). pose proof (c_playing _ _ Hcore Hp) as Hc0. destruct Hcore.
    rewrite u32_id in Hcu by lia. apply Hseek; done.
Qed.

Lemma SeekSongOrder_safe cs w i t : pl_ok cs w -> 0 <= i < GetLength (queue (pl w)) -> safe (SeekSongOrder i t) w.
Proof. intros Hpl Hi. eapply wp_conseq; [by apply (wp_SeekSongOrder cs)|]. intros r w' [? _]. by eexists. Qed.

Lemma wp_SeekSongPosition cs w song t : pl_ok cs w -> 0 <= song < GetLength (queue (pl w)) ->
  wp (SeekSongPosition song t) (fun _ w' => pl_ok (song_ids w !! Z.to_nat song) w' /\ playing (pl w') = true) w.
Proof.
  intros Hpl Hs. pose proof (c_queue _ _ (p_core _ _ Hpl)) as Hok. unfold SeekSongPosition. do 2 wstep. unfold IsValidPosition.
  destruct (Z.ltb_spec song (GetLength (queue (pl w)))); cbn [negb]; [|lia]. wstep. apply wp_if; intros Hr.
  - destruct (turn_of_position _ song Hok ltac:(lia)) as (n & k & it & Ho & E & Ht). eapply wp_ask; [exact Ho|]. cbv beta iota.
    rewrite <- (song_of_position w song n k it Hok E Ht). apply (wp_SeekSongOrder cs); [done|]. pose proof (turn_range Hok Ht). unfold GetLength. lia.
  - wstep. rewrite <- (plain_position w song Hok Hr) by lia. apply (wp_SeekSongOrder cs); [done|lia].
Qed.

Lemma SeekSongPosition_safe cs w song t : pl_ok cs w -> 0 <= song -> safe (SeekSongPosition song t) w.
Proof.
  intros Hpl Hs. destruct (Z.ltb_spec song (GetLength (queue (pl w)))) as [Hlt|Hge].
  { eapply wp_conseq; [by apply (wp_SeekSongPosition cs)|]. intros r w' [? _]. by eexists. }
  unfold safe, SeekSongPosition. do 2 wstep. unfold IsValidPosition.
  destruct (Z.ltb_spec song (GetLength (queue (pl w)))); [lia|]. cbn [negb]. wstep. by eexists.
Qed.

Lemma SeekSongId_safe cs w id t : pl_ok cs w -> 1 <= id -> safe (SeekSongId id t) w.
Proof.
  intros Hpl Hid. unfold safe, SeekSongId. wstep. apply (wp_IdToPosition cs); [done|done|]. intros p Hp. cbv beta iota.
  destruct (Z.ltb_spec p 0); [wstep; by eexists|]. by apply (SeekSongPosition_safe cs).
Qed.

Lemma SeekCurrent_safe cs w t relative : pl_ok cs w -> safe (SeekCurrent t relative) w.
Proof.
  intros Hpl. unfold safe, SeekCurrent. do 2 wstep. apply wp_if; intros Hp; [wstep; by eexists|]. apply negb_false_iff in Hp.
  pose proof (p_core _ _ Hpl) as [Hok Hc Hpc _ _]. specialize (Hpc Hp). wstep. apply wp_if; intros Hrel.
  - do 2 wstep. set (w1 := mkWorld (pl w) _ _). assert (pl_ok cs w1) as Hpl1 by (apply pl_ok_player; [done|apply status_law]).
    apply wp_if; intros Hst; [wstep; by eexists|]. do 3 wstep. apply (SeekSongOrder_safe cs); [done|cbn; lia].
  - do 3 wstep. apply (SeekSongOrder_safe cs); [done|cbn; lia].
Qed.

(** ** The events of the player *)

(** Removing the current song while it starts is an error: see
    [queued_song_consumed] in [PlaySpec]. *)
Definition can_start w : Prop := consume (queue (pl w)) = CONSUME_OFF \/ queued (pl w) <> current (pl w).

Lemma wp_QueuedSongStarted cs w (Q : result unit -> World -> Prop) : pl_ok cs w -> playing (pl w) = true -> 0 <= queued (pl w) ->
  has_next (pc w) = false -> can_start w ->
  (forall w', pl_ok (song_id_at (queue (pl w)) (queued (pl w))) w' -> playing (pl w') = true ->
     song_ids w' = consumed (queue (pl w)) (current (pl w)) (song_ids w) -> Q (Ok tt) w') ->
  wp QueuedSongStarted Q w.
Proof.
  intros Hpl Hp Hqd Hnext Hcan HQ. pose proof (p_core _ _ Hpl) as [Hok Hc Hpc Hn _]. specialize (Hpc Hp).
  pose proof (p_queued _ _ Hpl Hp) as Hlt. unfold QueuedSongStarted. wstep.
  apply wp_player_assert; [by rewrite sync_none_law|]. do 5 wstep. apply wp_massert; [apply Z.leb_le; lia|]. wstep.
  apply wp_massert; [by apply Z.leb_le|]. do 4 wstep. set (cs1 := song_id_at _ _) in HQ.
  set (w1 := mkWorld _ _ _). assert (pl_ok cs1 w1) as Hpl1.
  { split; cbn; [split; cbn; try done; lia|lia|]. by rewrite Hnext. }
  wstep. apply (wp_consume_played cs1); [done|cbn; lia|]. intros w2 cs2 Hpl2 _ Hk2 Hi2. cbv beta iota.
  destruct Hk2 as [-> Hp2]; [cbn; destruct Hcan; [by right|left; done]|]. cbn in Hp2.
  wstep. apply (wp_consume_oneshot cs1); [done|]. intros w3 Hpl3 _ _ _ Hp3 Hi3. cbv beta iota. do 2 wstep.
  assert (pl_ok cs1 (mkWorld (pl w3) (pc w3) (events w3 ++ [OnQueueSongStarted]))) as Hpl4 by (by apply (pl_ok_ext cs1 w3)).
  apply (wp_SongStarted cs1); [done| |].
  - cbn. apply (c_playing _ _ (p_core _ _ Hpl3)). congruence.
  - intros w5 Hpl5 (Hi5 & _) Hp5 _ _ _. apply HQ; [done|rewrite Hp5; cbn; congruence|]. rewrite Hi5. change (song_ids w3 = consumed (queue (pl w)) (current (pl w)) (song_ids w)).
    by rewrite Hi3, Hi2.
Qed.

Lemma ResumePlayback_safe cs w : pl_ok cs w -> playing (pl w) = true -> fst (GetState (pc w)) = PLAYER_STOP -> safe ResumePlayback w.
Proof.
  intros Hpl Hp Hstop. unfold safe, ResumePlayback. do 3 wstep. apply wp_massert; [done|]. wstep.
  apply wp_player_assert; [by apply bool_decide_eq_true|]. do 9 wstep. set (w1 := mkWorld _ _ _).
  assert (pl_ok cs w1) as Hpl1.
  { apply (pl_ok_ext cs (mkWorld (pl w) (snd (GetErrorType (pc w))) (events w))); try done. apply pl_ok_player; [done|apply error_type_law]. }
  apply wp_if; intros _; [by apply (Stop_safe cs)|]. apply wp_catch. eapply wp_conseq; [by apply (PlayNext_safe cs)|].
  intros [[]|e] w' Hw'; [done|]. by wstep.
Qed.

Lemma SyncWithPlayer_safe cs w : pl_ok cs w -> (can_start w \/ queued (pl w) < 0) -> safe SyncWithPlayer w.
Proof.
  intros Hpl Hcan. unfold safe, SyncWithPlayer. do 2 wstep. apply wp_if; intros Hp; [wstep; by eexists|]. apply negb_false_iff in Hp.
  destruct (sync_law (pc w)) as [Hs1 Hs2]. do 2 wstep. set (w1 := mkWorld (pl w) _ _).
  assert (pl_ok cs w1) as Hpl1 by (by apply pl_ok_player). apply wp_if; intros Hst.
  { apply bool_decide_eq_true in Hst. apply (ResumePlayback_safe cs); [done|done|]. by apply sync_stop_law. }
  assert (forall w2 cs2, pl_ok cs2 w2 -> playing (pl w2) = true ->
    wp (j ← player_ask LockGetSyncInfo; n ← get queued; when (negb (has_next_song j) && (n <? 0)) (UpdateQueuedSong None))
      (fun _ w' => exists cs, pl_ok cs w') w2) as Hlast.
  { intros w2 cs2 Hpl2 Hp2. destruct (sync_law (pc w2)) as [Hl1 Hl2]. do 4 wstep. set (w3 := mkWorld (pl w2) _ _).
    assert (pl_ok cs2 w3) as Hpl3 by (by apply pl_ok_player). apply wp_when; intros Hw; [|by eexists].
    apply andb_true_iff in Hw as [_ Hq%Z.ltb_lt]. apply (wp_UpdateQueuedSong cs2).
    - apply pl_ok_mid; [done|]. pose proof (c_queued _ _ (p_core _ _ Hpl3)). cbn in *. lia.
    - intros w4 Hpl4 _. by eexists. }
  do 3 wstep. apply wp_when; intros Hw; [|by apply (Hlast w1 cs)].
  apply andb_true_iff in Hw as [Hno%negb_true_iff Hq%negb_true_iff]. apply Z.eqb_neq in Hq.
  change (queued (pl w1)) with (queued (pl w)) in Hq. pose proof (c_queued _ _ (p_core _ _ Hpl)).
  apply (wp_QueuedSongStarted cs); [done|done|cbn; lia|by apply Hs2|destruct Hcan; [done|lia]|].
  intros w2 Hpl2 Hp2 _. by eapply Hlast.
Qed.

Lemma Clear_safe cs w : pl_ok cs w -> wp Clear (fun r w' => r = Ok tt /\ pl_ok None w' /\ tracks (queue (pl w')) = []) w.
Proof.
  intros Hpl. unfold Clear. wstep. apply (wp_Stop cs); [done|]. intros w1 Hpl1 _ Hp1. cbv beta iota.
  pose proof (p_core _ _ Hpl1) as [Hok Hc Hpc Hn Hs].
  destruct (Clear_ok _ Hok) as (q' & Hq & Hok' & Hit & Ho & _). wstep. eapply wp_call_; [exact Hq|]. cbv beta iota. do 2 wstep.
  set (w2 := mkWorld _ _ _). assert (pl_ok None w2) as Hpl2.
  { destruct Hpl1 as [_ Hq1 Hn1]. split; cbn; [split; cbn; try done; [unfold GetLength; rewrite Hit; cbn; lia|congruence]|congruence|done]. }
  apply (wp_OnModified None w2); [done|]. intros w3 Hpl3 [Ht3 _ _ _] _ _ _ _. split; [done|]. split; [done|]. rewrite Ht3. cbn. unfold tracks. by rewrite Hit.
Qed.
End Playback.
