(* ===== verification/PlayEdits.v ===== *)
(** Editing the queue ([PlaylistEdit.cxx], [PlaylistTag.cxx],
    [PlaylistUpdate.cxx] and the options in [Playlist.cxx]): the edits keep
    the invariant, and the current song where they say so. *)
From S2P Require Import Arrays Text Tags Audio Songs RangeArg SortList StableSort Queue QueueWf QueueOps QueueRandom PlayControl PlayRules PlayWf PlayOps PlayPlayback.
Open Scope Z_scope.

Section Edits.
Context `{RandomLaws} `{PlayerLaws}.
Implicit Types (w : World) (cs : option Z) (prev : option Z) (q : Queue).

(** Another queue under the same playlist, and another order number for the
    current song. *)
Lemma core_ok_at cs (p : playlist) q c : core_ok cs p -> queue_ok q -> GetLength q = GetLength (queue p) ->
  -1 <= c < GetLength q -> (0 <= current p -> 0 <= c) -> song_id_at q c = cs -> core_ok cs (set_current c (set_queue q p)).
Proof. intros [Hq Hc Hp Hn Hs] Hok Hl Hr Hcc Hid. split; cbn; try done. intros E. auto. Qed.

Lemma set_current_same (p : playlist) q : set_current (current p) (set_queue q p) = set_queue q p.
Proof. by destruct p. Qed.

Lemma core_ok_same_order cs (p : playlist) q : core_ok cs p -> queue_ok q -> order q = order (queue p) ->
  track_id <$> tracks q = track_id <$> tracks (queue p) -> core_ok cs (set_queue q p).
Proof.
  intros Hc Hok Ho Hi. pose proof (ids_GetLength _ _ Hi) as Hl. rewrite <- set_current_same. pose proof Hc as [_ Hcr _ _ Hs].
  apply core_ok_at; try done; [lia|]. rewrite <- Hs. by apply song_id_at_ids.
Qed.

(** [current] follows its song, which keeps its position. *)
Lemma core_ok_follow cs (p : playlist) q (n k : nat) it : core_ok cs p -> turn (queue p) (current p) n k it ->
  queue_ok q -> track_id <$> tracks q = track_id <$> tracks (queue p) ->
  exists c, PositionToOrder q (Z.of_nat k) = Some c /\ 0 <= c < GetLength q /\ core_ok cs (set_current c (set_queue q p)).
Proof.
  intros Hc Ht Hok Hi. pose proof (ids_GetLength _ _ Hi) as Hl. pose proof Hc as [Hq Hcr Hp Hn Hs].
  pose proof (turn_range Hq Ht) as [_ Hk].
  destruct (turn_of_position q (Z.of_nat k) Hok) as (n' & k' & it' & Ho & <-%Nat2Z.inj & Ht'); [unfold GetLength in *; lia|].
  exists (Z.of_nat n'). pose proof (turn_range Hok Ht') as [Hn' _]. split; [done|]. split; [unfold GetLength; lia|].
  apply core_ok_at; [done..|unfold GetLength; lia|lia|]. rewrite (turn_song Hok Ht'), <- Hs, (turn_song Hq Ht). f_equal.
  assert (forall q k it, items q !! k = Some it -> (track_id <$> tracks q) !! k = Some (i_id it)) as Hid.
  { intros q0 k0 it0 E. unfold tracks. by rewrite !list_lookup_fmap, E. }
  pose proof (Hid _ _ _ (turn_item _ _ _ _ _ Ht)) as E1. pose proof (Hid _ _ _ (turn_item _ _ _ _ _ Ht')) as E2. congruence.
Qed.

Lemma mid_ok_with cs prev w cs' (p : playlist) evs : mid_ok cs prev w -> core_ok cs' p -> playing p = playing (pl w) -> queued p = queued (pl w) ->
  mid_ok cs' prev (mkWorld p (pc w) evs).
Proof. intros [Hc Hnone Hstop Hsome] Hc' E1 E2. split; cbn; [done|by rewrite E1, E2|by rewrite E1|by rewrite E2]. Qed.

(** ** Options *)

Definition keeps {A} (m : M A) w : Prop := forall cs, pl_ok cs w -> wp m (fun _ w' => pl_ok cs w') w.

Lemma wp_requeue cs w : pl_ok cs w -> wp requeue (fun r w' => pl_ok cs w' /\ r = Ok tt) w.
Proof.
  intros Hpl. unfold requeue. wstep. apply (wp_GetQueuedSong cs); [done|]. intros prev Hmid. cbv beta iota.
  apply (wp_UpdateQueuedSong cs); [done|]. by intros w' Hpl' _.
Qed.

Lemma keeps_option w (f : Queue -> Queue) : (forall q, items (f q) = items q /\ order (f q) = order q /\ id_table (f q) = id_table q /\
    max_length (f q) = max_length q /\ version (f q) = version q /\ random (f q) = random q) ->
  keeps (modify (fun p => set_queue (f (queue p)) p);; set_border_pause;; requeue;; notify OnQueueOptionsChanged) w.
Proof.
  intros Hf cs Hpl. destruct (Hf (queue (pl w))) as (E1 & E2 & E3 & E4 & E5 & E6). do 2 wstep. set (w1 := mkWorld _ _ _).
  assert (pl_ok cs w1) as Hpl1 by (apply pl_ok_options; try done; by left).
  unfold set_border_pause. do 4 wstep. set (w2 := mkWorld _ _ _). assert (pl_ok cs w2) as Hpl2 by (apply pl_ok_player; [done|apply border_law]).
  wstep. eapply wp_conseq; [by apply (wp_requeue cs)|]. intros r w3 [Hpl3 ->]. wsteps. by apply (pl_ok_ext cs w3).
Qed.

Lemma SetRepeat_keeps w status : keeps (SetRepeat status) w.
Proof. intros cs Hpl. unfold SetRepeat. wsteps. destruct (eqb _ _); [by wstep|]. by apply keeps_option. Qed.

Lemma SetSingle_keeps w status : keeps (SetSingle status) w.
Proof. intros cs Hpl. unfold SetSingle. wsteps. apply wp_if; intros _; [by wstep|]. by apply keeps_option. Qed.

Lemma SetConsume_keeps w status : keeps (SetConsume status) w.
Proof.
  intros cs Hpl. unfold SetConsume. wsteps. apply wp_if; intros _; wsteps; [done|].
  apply pl_ok_options; try done. by left.
Qed.

Lemma BorderPause_keeps w : keeps BorderPause w.
Proof.
  intros cs Hpl. unfold BorderPause. wsteps. apply wp_when; intros _; [|done]. wsteps.
  apply (pl_ok_player cs (mkWorld (set_queue (with_single SINGLE_OFF (queue (pl w))) (pl w)) (pc w) (events w))).
  - apply pl_ok_options; try done. by left.
  - apply border_law.
Qed.

Lemma BeginBulk_keeps w : bulk_edit (pl w) = false -> keeps BeginBulk w.
Proof. intros Hb cs Hpl. unfold BeginBulk. do 3 wstep. apply wp_massert; [by rewrite Hb|]. wsteps. by apply (pl_ok_ext cs w). Qed.

Lemma CommitBulk_keeps w : bulk_edit (pl w) = true -> keeps CommitBulk w.
Proof.
  intros Hb cs Hpl. unfold CommitBulk. do 3 wstep. apply wp_massert; [done|]. do 4 wstep. set (w1 := mkWorld _ _ _). assert (pl_ok cs w1) as Hpl1 by (by apply (pl_ok_ext cs w)).
  apply wp_if; intros _; [by wstep|]. do 3 wstep. apply wp_when; intros Hn.
  - apply Z.ltb_lt in Hn. apply (wp_UpdateQueuedSong cs); [apply pl_ok_mid; [done|]|].
    + pose proof (c_queued _ _ (p_core _ _ Hpl)). unfold w1 in *. cbn in *. lia.
    + intros w2 Hpl2 _. cbv beta iota. by apply (wp_OnModified cs).
  - by apply (wp_OnModified cs).
Qed.

(** The end of every edit. *)
Lemma keeps_finish cs prev w : mid_ok cs prev w -> wp (UpdateQueuedSong prev;; OnModified) (fun _ w' => pl_ok cs w') w.
Proof. intros Hmid. by apply (wp_finish_edit cs). Qed.

(** ** Random mode *)

(** Random mode without playback forgets the current song. *)
Definition random_song cs w (status : bool) : option Z :=
  if status && negb (random (queue (pl w))) && negb (playing (pl w)) then None else cs.

(** The song at [c] becomes the first one. *)
Lemma move_to_front q (c : nat) : queue_ok q -> random q = true -> (c < length (items q))%nat ->
  exists q', MoveOrder q (Z.of_nat c) 0 = Some (0, q') /\ reordered_ok q q' /\ song_id_at q' 0 = song_id_at q (Z.of_nat c).
Proof.
  intros Hok Hr Hc. destruct (MoveOrder_ok q c 0 Hok Hr Hc ltac:(lia)) as (q' & Hq & Hre & _ & Hin).
  exists q'. split; [exact Hq|]. split; [done|]. change 0 with (Z.of_nat 0). rewrite !song_id_at_nat, Hin.
  assert (length (in_order q) = length (items q)) as Hl by (by rewrite (Permutation_length (in_order_perm q Hok)), length_tracks).
  rewrite lookup_move_range by lia. do 2 f_equal. unfold move_source. repeat case_decide; lia.
Qed.

(** The order of play of [SetRandom]. *)
Definition random_order (status : bool) : M unit :=
  if status then
    p ← get playing;
    current_position ← (if (p : bool) then GetCurrentPosition else mret (-1));
    call_ ShuffleOrder;;
    if 0 <=? current_position then
      current_order ← ask (fun q => PositionToOrder q current_position);
      c ← call (fun q => MoveOrder q current_order 0);
      modify (set_current c)
    else modify (set_current (-1))
  else playlist_order.

Lemma wp_random_on cs w (Q : result unit -> World -> Prop) : core_ok cs (pl w) -> random (queue (pl w)) = true ->
  (forall q c, let p' := set_current c (set_queue q (pl w)) in
    core_ok (if playing (pl w) then cs else None) p' -> Q (Ok tt) (mkWorld p' (pc w) (events w))) ->
  wp (random_order true) Q w.
Proof.
  intros Hcore Hr HQ. pose proof Hcore as [Hok Hc Hp Hn Hs]. unfold random_order. do 3 wstep.
  destruct (ShuffleOrder_ok _ Hok Hr) as (q' & Hq & [Hok' Hit Hr' _ _] & _).
  assert (track_id <$> tracks q' = track_id <$> tracks (queue (pl w))) as Hids by (unfold tracks; by rewrite Hit).
  pose proof (ids_GetLength _ _ Hids) as Hl.
  destruct (playing (pl w)) eqn:Hplay.
  - specialize (Hp eq_refl). destruct (turn_exists _ (current (pl w)) Hok ltac:(lia)) as (n & k & it & Ht).
    unfold GetCurrentPosition. do 2 wstep. destruct (Z.leb_spec 0 (current (pl w))); [|lia].
    eapply wp_ask; [apply (turn_OrderToPosition Ht)|]. cbv beta iota. wstep. eapply wp_call_; [exact Hq|]. cbv beta iota.
    destruct (Z.leb_spec 0 (Z.of_nat k)); [|lia]. wstep.
    destruct (core_ok_follow cs (pl w) q' n k it Hcore Ht Hok' Hids) as (c & Hpo & Hcr & Hc').
    eapply wp_ask; [exact Hpo|]. cbv beta iota. wstep. destruct (Z_of_nat_complete c ltac:(lia)) as [c' ->].
    destruct (move_to_front q' c' Hok') as (q2 & Hq2 & [Hok2 Hit2 _ _ _] & Hsong); [by rewrite Hr'|unfold GetLength in Hcr; lia|].
    eapply wp_call; [exact Hq2|]. cbv beta iota. wstep. apply HQ.
    assert (GetLength q2 = GetLength (queue (pl w))) as Hl2 by (rewrite <- Hl; unfold GetLength; by rewrite Hit2).
    apply core_ok_at; try done; [lia|]. rewrite Hsong. apply Hc'.
  - do 2 wstep. eapply wp_call_; [exact Hq|]. cbv beta iota. cbn [Z.leb Z.compare]. wstep. apply HQ.
    split; cbn; try done; [unfold GetLength; lia|congruence].
Qed.

Lemma wp_random_off cs w (q0 := queue (pl w)) (Q : result unit -> World -> Prop) : core_ok cs (set_queue (with_random true q0) (pl w)) -> random q0 = false ->
  (forall q c, let p' := set_current c (set_queue q (pl w)) in core_ok cs p' -> Q (Ok tt) (mkWorld p' (pc w) (events w))) ->
  wp (random_order false) Q w.
Proof.
  intros Hcore Hr HQ. pose proof Hcore as [Hok Hc Hp Hn Hs]. cbn in Hok, Hc, Hp, Hn, Hs. unfold random_order, playlist_order. do 2 wstep.
  destruct (RestoreOrder_ok q0 Hok) as (q' & Hq & Hok' & Hit & Ho & Hin & _).
  assert (GetLength q' = GetLength q0) as Hl by (unfold GetLength; by rewrite Hit).
  wstep. apply wp_when; intros Hc0.
  - apply Z.leb_le in Hc0. destruct (turn_exists _ (current (pl w)) Hok ltac:(lia)) as (n & k & it & Ht). pose proof (turn_range Hok Ht) as [_ Hk].
    wstep. eapply wp_ask; [apply (turn_OrderToPosition Ht)|]. cbv beta iota. wstep. eapply wp_call_; [exact Hq|].
    apply (HQ q' (Z.of_nat k)). cbn in Hk.
    apply (core_ok_at cs (set_queue (with_random true q0) (pl w)) q'); try done; [subst q0; unfold GetLength; rewrite Hit; lia|lia|].
    rewrite <- Hs, (turn_song Hok Ht), song_id_at_nat, Hin. unfold tracks. rewrite !list_lookup_fmap.
    pose proof (turn_item _ _ _ _ _ Ht) as Hi. cbn in Hi. by rewrite Hi.
  - apply Z.leb_gt in Hc0. eapply wp_call_; [exact Hq|]. rewrite <- (set_current_same (pl w)). apply HQ.
    apply (core_ok_at cs (set_queue (with_random true q0) (pl w)) q'); try done; [rewrite Hl; exact Hc|]. rewrite <- Hs. by rewrite !song_id_at_None.
Qed.

Lemma SetRandom_ok cs w status : pl_ok cs w -> wp (SetRandom status) (fun _ w' => pl_ok (random_song cs w status) w') w.
Proof.
  intros Hpl. pose proof (p_core _ _ Hpl) as Hcore. unfold SetRandom. do 2 wstep.
  destruct (eqb_spec status (random (queue (pl w)))) as [Er|Er].
  { wstep. unfold random_song. destruct status; rewrite <- Er; done. }
  wstep. apply (wp_GetQueuedSong cs); [done|]. intros prev Hmid. do 3 wstep. set (w1 := mkWorld _ _ _).
  assert (core_ok cs (set_queue (with_random true (queue (pl w))) (pl w))) as Hcore1.
  { destruct Hcore as [Hok Hc Hp Hn Hs]. split; try done. by destruct Hok; split. }
  assert (forall q c (cs' := random_song cs w status), let p' := set_current c (set_queue q (pl w1)) in core_ok cs' p' ->
    wp (UpdateQueuedSong prev;; notify OnQueueOptionsChanged) (fun _ w' => pl_ok cs' w') (mkWorld p' (pc w1) (events w1))) as Hend.
  { intros q c cs' p' Hc'. wstep. apply (wp_UpdateQueuedSong cs').
    - destruct Hmid as [_ Hnone Hstop Hsome]. by split.
    - intros w2 Hpl2 _. wsteps. by apply (pl_ok_ext cs' w2). }
  change (if status then _ else playlist_order) with (random_order status). destruct status.
  - apply (wp_random_on cs w1); [done|done|]. intros q c p' Hc'. apply Hend.
    assert (random (queue (pl w)) = false) as Hr by (destruct (random (queue (pl w))); done). change (playing (pl w1)) with (playing (pl w)) in Hc'.
    unfold random_song. rewrite Hr. by destruct (playing (pl w)).
  - apply (wp_random_off cs w1); [done|done|]. intros q c p' Hc'. by apply Hend.
Qed.

(** ** Adding songs *)

(** The new song may be shuffled into the songs that are left to play, which
    are those after the queued one. *)
Definition append_keeps w : Prop := random (queue (pl w)) = false \/ queued (pl w) < 0 \/ current (pl w) <= queued (pl w).

(** The ids of the songs in the order of play. *)
Lemma song_id_at_prefix q q' o (l : list Track) : in_order q' = in_order q ++ l -> o < Z.of_nat (length (in_order q)) -> song_id_at q' o = song_id_at q o.
Proof.
  intros Hin Ho. destruct (Z.ltb_spec o 0); [by rewrite !song_id_at_None|]. destruct (Z_of_nat_complete o ltac:(lia)) as [n ->].
  rewrite !song_id_at_nat, Hin, lookup_app_l by lia. done.
Qed.

Lemma length_in_order q : queue_ok q -> Z.of_nat (length (in_order q)) = GetLength q.
Proof. intros Hok. unfold GetLength. by rewrite (Permutation_length (in_order_perm q Hok)), length_tracks. Qed.

(** Shuffling order numbers that are not the current one. *)
Lemma song_id_at_shuffled q q' (s e : nat) o : queue_ok q -> shuffled_ok q q' s e -> (s <= e <= length (items q))%nat -> o < Z.of_nat s ->
  song_id_at q' o = song_id_at q o.
Proof.
  intros Hok [[Hok' Hit _ _ _] Hp] Hs Ho. destruct (Z.ltb_spec o 0); [by rewrite !song_id_at_None|].
  destruct (Z_of_nat_complete o ltac:(lia)) as [n ->]. rewrite !song_id_at_nat, !in_order_tracks.
  pose proof (ok_lengths q Hok) as Hl. pose proof (ok_lengths q' Hok') as Hl'. rewrite Hit in Hl'.
  pose proof (range_perm_lookup s e (order q) (order q') n ltac:(lia) Hp ltac:(lia)) as E.
  destruct (lookup_lt_is_Some_2 (order q) n ltac:(lia)) as [x Hx]. rewrite Hx in E.
  rewrite <- !in_order_tracks, (lookup_in_order q n x Hok Hx), (lookup_in_order q' n x Hok' E). unfold tracks. by rewrite Hit.
Qed.

Lemma AppendSong_ok cs w song : pl_ok cs w ->
  wp (AppendSong song) (fun r w' => exists cs', pl_ok cs' w' /\ (append_keeps w -> cs' = cs) /\
    match r with
    | Ok id => song_ids w' = song_ids w ++ [id]
    | Throw _ => w' = w /\ IsFull (queue (pl w)) = true
    end) w.
Proof.
  intros Hpl. pose proof (p_core _ _ Hpl) as Hcore. pose proof Hcore as [Hok Hc Hp Hn Hs]. unfold AppendSong. do 2 wstep. apply wp_if; intros Hfull.
  { wstep. by exists cs. }
  wstep. apply (wp_GetQueuedSong cs); [done|]. intros prev Hmid.
  destruct (Append_ok (queue (pl w)) song 0 Hok Hfull ltac:(lia)) as (id & q' & Hq & Hok' & _ & _ & Htr & Hin & Hr & _ & _ & Ho & Hit).
  cbv beta iota. wstep. eapply wp_call; [exact Hq|]. cbv beta iota. do 6 wstep. set (w1 := mkWorld _ _ _). cbv zeta.
  assert (GetLength q' = GetLength (queue (pl w)) + 1) as Hl by (unfold GetLength; rewrite Hit, length_app; cbn; lia).
  assert (core_ok cs (set_queue q' (pl w))) as Hcore1.
  { rewrite <- set_current_same. split; cbn; try done; [lia|]. rewrite <- Hs. apply (song_id_at_prefix _ _ _ _ Hin). rewrite length_in_order by done. lia. }
  assert (forall w2 cs2, mid_ok cs2 prev w2 -> song_ids w2 = song_ids w ++ [id] -> (append_keeps w -> cs2 = cs) ->
    wp (UpdateQueuedSong prev;; OnModified;; mret id) (fun r w' => exists cs', pl_ok cs' w' /\ (append_keeps w -> cs' = cs) /\
      match r with Ok id => song_ids w' = song_ids w ++ [id] | Throw _ => w' = w /\ IsFull (queue (pl w)) = true end) w2) as Hend.
  { intros w2 cs2 Hmid2 Hids Hk. wstep. apply (wp_UpdateQueuedSong cs2); [done|]. intros w3 Hpl3 [Hs3 _]. cbv beta iota. wstep.
    apply (wp_OnModified cs2); [done|]. intros w4 Hpl4 Hs4 _ _ _ _. cbv beta iota. wstep. exists cs2. split; [done|]. split; [done|].
    by rewrite (same_songs_ids _ _ Hs4), (same_songs_ids _ _ Hs3). }
  assert (song_ids w1 = song_ids w ++ [id]) as Hids1 by (unfold song_ids; cbn; by rewrite Htr, fmap_app).
  pose proof (GetLength_small _ Hok'). wstep. set (start := u32 _). apply wp_when; intros Hsh.
  - apply andb_true_iff in Hsh as [Hrand Hlt%Z.ltb_lt]. cbn [w1 pl queue set_queue] in Hrand, Hlt.
    assert (start = u32 (if 0 <=? queued (pl w) then queued (pl w) + 1 else current (pl w) + 1)) as Estart by done. clearbody start.
    rewrite u32_id in Estart by (destruct (Z.leb_spec 0 (queued (pl w))); lia).
    assert (0 <= start) as Hst by (destruct (Z.leb_spec 0 (queued (pl w))); lia). destruct (Z_of_nat_complete start Hst) as [s Es].
    change (GetLength (queue (pl w1))) with (GetLength q') in Hlt.
    destruct (ShuffleOrderLastWithPriority_ok q' s (length (items q')) Hok' Hrand ltac:(unfold GetLength in *; lia)) as (q2 & Hq2 & Hsh2).
    pose proof Hsh2 as [[Hok2 Hit2 _ _ _] _].
    assert (GetLength q2 = GetLength q') as Hl2 by (unfold GetLength; by rewrite Hit2).
    eapply wp_call_; [rewrite Es; exact Hq2|]. cbv beta iota.
    apply (Hend _ (song_id_at q2 (current (pl w)))).
    + destruct Hmid as [_ Hnone Hstop Hsome]. split; [|done..]. split; cbn; try done. lia.
    + rewrite <- Hids1. unfold song_ids, tracks. cbn. by rewrite Hit2.
    + intros Hk. destruct Hcore1 as [_ _ _ _ <-]. apply (song_id_at_shuffled q' q2 s (length (items q'))); [done|done|unfold GetLength in *; lia|].
      cbn. unfold append_keeps in Hk. rewrite Hrand in Hr. destruct (Z.leb_spec 0 (queued (pl w))); [|lia].
      destruct Hk as [?|[?|?]]; [congruence|lia|lia].
  - apply (Hend _ cs); [|done|done]. by apply (mid_ok_with cs prev w).
Qed.
End Edits.
