(* ===== verification/PlayMoves.v ===== *)
(** Rearranging the queue ([SwapPositions], [MoveRange], [SetPriorityRange],
    [Shuffle] of [PlaylistEdit.cxx]) and changing songs in place
    ([SetSongIdRange], [PlaylistTag.cxx], [PlaylistUpdate.cxx]). *)
From S2P Require Import Arrays Text Tags Audio Songs RangeArg SortList StableSort Queue QueueWf QueueOps QueueRandom PlayControl PlayRules PlayWf PlayOps PlayPlayback PlayEdits.
Open Scope Z_scope.

Section Moves.
Context `{RandomLaws} `{PlayerLaws}.
Implicit Types (w : World) (cs : option Z) (prev : option Z) (q : Queue).

(** ** Swapping *)

Lemma swap_index_swap i j k : swap_index i j (swap_index i j k) = k.
Proof. unfold swap_index. repeat case_decide; congruence. Qed.

(** Swapping two positions and their turns keeps the order of play. *)
Lemma swap_both q q1 q2 (i j n1 n2 : nat) : queue_ok q -> queue_ok q2 -> order q !! n1 = Some (Z.of_nat i) -> order q !! n2 = Some (Z.of_nat j) ->
  order q2 = swap_at n1 n2 (order q) -> tracks q2 = swap_at i j (tracks q) -> in_order q2 = in_order q.
Proof.
  intros Hok Hok2 H1' H2' Ho Ht. pose proof (ok_lengths q Hok) as Hl. pose proof (ok_lengths q2 Hok2) as Hl2.
  assert (forall n k, order q !! n = Some (Z.of_nat k) -> (n < length (items q))%nat /\ (k < length (tracks q))%nat) as Hrange.
  { intros n k E. destruct (turn_exists q (Z.of_nat n) Hok) as (n' & k' & it & Htn).
    - apply lookup_lt_Some in E. unfold GetLength. lia.
    - pose proof (turn_range Hok Htn) as [? ?]. destruct Htn as [<-%Nat2Z.inj E' _]. rewrite E in E'. injection E' as E'.
      rewrite length_tracks. lia. }
  destruct (Hrange _ _ H1'), (Hrange _ _ H2').
  assert (length (tracks q2) = length (tracks q)) as Hlt by (by rewrite Ht, length_swap_at). rewrite !length_tracks in Hlt.
  apply list_eq. intros n. destruct (decide (n < length (items q))%nat) as [Hn|Hn].
  - destruct (turn_exists q (Z.of_nat n) Hok ltac:(unfold GetLength; lia)) as (n' & k & it & Htn).
    destruct (turn_range Hok Htn) as [_ Hk]. destruct Htn as [<-%Nat2Z.inj E _].
    assert (order q2 !! n = Some (Z.of_nat (swap_index i j k))) as E2.
    { rewrite Ho, lookup_swap_at by lia. unfold swap_index. pose proof (order_ok_NoDup q (ok_order q Hok)) as Hnd.
      pose proof (fun a b x => NoDup_lookup (order q) a b x Hnd) as Hinj.
      destruct (decide (n = n1)) as [->|N1]; [|destruct (decide (n = n2)) as [->|N2]].
      - rewrite H1' in E. injection E as E%Nat2Z.inj. subst k. by rewrite decide_True by done.
      - rewrite H2' in E. injection E as E%Nat2Z.inj. subst k. destruct (decide (j = i)) as [->|]; [congruence|]. by rewrite decide_True by done.
      - rewrite !decide_False; [done|intros ->; eauto..]. }
    rewrite (lookup_in_order q2 n _ Hok2 E2), (lookup_in_order q n _ Hok E), !arr_get_nat, Ht, lookup_swap_at by done.
    by rewrite swap_index_swap.
  - rewrite !lookup_ge_None_2; [done| |]; pose proof (length_in_order q Hok); pose proof (length_in_order q2 Hok2); unfold GetLength in *; lia.
Qed.

Lemma song_id_at_plain q (n : nat) : queue_ok q -> random q = false -> song_id_at q (Z.of_nat n) = track_id <$> tracks q !! n.
Proof. intros Hok Hr. rewrite song_id_at_nat, in_order_plain; [done|]. by apply Hok. Qed.

Lemma SwapPositions_keeps cs w (song1 song2 : Z) : pl_ok cs w -> 0 <= song1 -> 0 <= song2 ->
  wp (SwapPositions song1 song2) (fun r w' => pl_ok cs w' /\ forall i j : nat, song1 = Z.of_nat i -> song2 = Z.of_nat j ->
    match r with
    | Ok _ => tracks (queue (pl w')) = swap_at i j (tracks (queue (pl w)))
    | Throw _ => w' = w /\ (length (tracks (queue (pl w))) <= i \/ length (tracks (queue (pl w))) <= j)%nat
    end) w.
Proof.
  intros Hpl Hs1 Hs2. destruct (Z_of_nat_complete song1 Hs1) as [i ->], (Z_of_nat_complete song2 Hs2) as [j ->].
  pose proof (p_core _ _ Hpl) as Hcore. pose proof Hcore as [Hok Hc Hp Hn Hs]. unfold SwapPositions. do 2 wstep. unfold IsValidPosition.
  destruct (Z.ltb_spec (Z.of_nat i) (GetLength (queue (pl w)))) as [Hi|Hi]; cbn [negb orb];
    [destruct (Z.ltb_spec (Z.of_nat j) (GetLength (queue (pl w)))) as [Hj|Hj]; cbn [negb]|].
  2,3: wstep; split; [done|]; intros i' j' <-%Nat2Z.inj <-%Nat2Z.inj; rewrite length_tracks; unfold GetLength in *; split; [done|lia].
  wstep. apply (wp_GetQueuedSong cs); [done|]. intros prev Hmid. cbv beta iota. wstep.
  destruct (SwapPositions_ok (queue (pl w)) i j Hok) as (q1 & Hq1 & [Hok1 Ht1 Hr1 _ _ _] & Ho1); [unfold GetLength in *; lia..|].
  assert (forall q c evs, core_ok cs (set_current c (set_queue q (pl w))) -> tracks q = swap_at i j (tracks (queue (pl w))) ->
    wp (UpdateQueuedSong prev;; OnModified) (fun r w' => pl_ok cs w' /\ forall i' j' : nat, Z.of_nat i = Z.of_nat i' -> Z.of_nat j = Z.of_nat j' ->
      match r with
      | Ok _ => tracks (queue (pl w')) = swap_at i' j' (tracks (queue (pl w)))
      | Throw _ => w' = w /\ (length (tracks (queue (pl w))) <= i' \/ length (tracks (queue (pl w))) <= j')%nat
      end) (mkWorld (set_current c (set_queue q (pl w))) (pc w) evs)) as Hend.
  { intros q c evs Hc' Ht'. apply (wp_finish_edit cs); [by apply (mid_ok_with cs prev w)|]. intros w' Hpl' Hs'. split; [done|].
    intros i' j' <-%Nat2Z.inj <-%Nat2Z.inj. by rewrite (same_tracks _ _ Hs'). }
  assert (GetLength q1 = GetLength (queue (pl w))) as Hl1.
  { unfold GetLength. by rewrite <- !length_tracks, Ht1, length_swap_at. }
  pose proof (f_equal length Ht1) as Hlt. rewrite length_swap_at, !length_tracks in Hlt.
  eapply wp_call_; [exact Hq1|]. cbv beta iota. do 3 wstep. apply wp_if; intros Hrand.
  - destruct (turn_of_position q1 (Z.of_nat i) Hok1 ltac:(lia)) as (n1 & i0 & it1 & Hp1 & <-%Nat2Z.inj & Htn1).
    destruct (turn_of_position q1 (Z.of_nat j) Hok1 ltac:(lia)) as (n2 & j0 & it2 & Hp2 & <-%Nat2Z.inj & Htn2).
    destruct (SwapOrders_ok q1 n1 n2 Hok1) as (q2 & Hq2 & Hre & Ho2); [congruence|apply (turn_range Hok1 Htn1)|apply (turn_range Hok1 Htn2)|].
    wstep. eapply wp_ask; [exact Hp1|]. cbv beta iota. wstep. eapply wp_ask; [exact Hp2|]. cbv beta iota. eapply wp_call_; [exact Hq2|].
    cbv beta iota. pose proof Hre as [Hok2 Hit2 _ _ _]. pose proof (reordered_tracks _ _ Hre) as Ht2. cbn [pl set_queue].
    rewrite <- (set_current_same (set_queue q1 (pl w))). apply (Hend q2 (current (pl w))); [|congruence].
    apply core_ok_at; try done; [unfold GetLength in *; by rewrite Hit2|unfold GetLength in *; rewrite Hit2; lia|]. rewrite <- Hs.
    apply song_id_at_same. apply (swap_both (queue (pl w)) q1 q2 i j n1 n2 Hok Hok2); [by rewrite <- Ho1; apply Htn1|by rewrite <- Ho1; apply Htn2|congruence|congruence].
  - assert (forall c c' : nat, current (pl w) = Z.of_nat c -> c' = swap_index i j c -> core_ok cs (set_current (Z.of_nat c') (set_queue q1 (pl w)))) as Hsw.
    { intros c c' Ec ->. assert (swap_index i j c < length (items q1))%nat as Hlt'.
      { unfold GetLength in *. unfold swap_index. repeat case_decide; lia. }
      apply core_ok_at; try done; [unfold GetLength; lia|lia|]. rewrite <- Hs, Ec, (song_id_at_plain q1), (song_id_at_plain (queue (pl w))) by (done || congruence).
      rewrite Ht1, lookup_swap_at by (rewrite length_tracks; unfold GetLength in *; lia). by rewrite swap_index_swap. }
    pose proof (GetLength_small _ Hok). cbn [current set_queue pl]. apply wp_if; intros Hc0.
    + apply Z.leb_le in Hc0. destruct (Z_of_nat_complete (current (pl w)) Hc0) as [c Ec]. rewrite u32_id by lia.
      assert (forall c', c' = Z.of_nat (swap_index i j c) -> core_ok cs (set_current c' (set_queue q1 (pl w)))) as Hsw' by (intros c' ->; by apply (Hsw c)).
      unfold swap_index in Hsw'.
      apply wp_if; intros E1; [apply Z.eqb_eq in E1|apply Z.eqb_neq in E1; apply wp_when; intros E2; [apply Z.eqb_eq in E2|apply Z.eqb_neq in E2]].
      * wstep. apply Hend; [|done]. apply Hsw'. by rewrite decide_True by lia.
      * wstep. apply Hend; [|done]. apply Hsw'. rewrite decide_False by lia. by rewrite decide_True by lia.
      * rewrite <- set_current_same. apply Hend; [|done]. apply Hsw'. by rewrite !decide_False by lia.
    + apply Z.leb_gt in Hc0. wstep. rewrite <- set_current_same. apply Hend; [|done].
      apply core_ok_at; try done; [lia|]. rewrite <- Hs. by rewrite !song_id_at_None.
Qed.

Lemma wp_swap_ids cs w id1 id2 : pl_ok cs w -> 1 <= id1 -> 1 <= id2 -> wp (SwapIds id1 id2) (fun _ w' => pl_ok cs w') w.
Proof.
  intros Hpl Hi1 Hi2. unfold SwapIds. wstep. apply (wp_IdToPosition cs); [done|done|]. intros p1 _. cbv beta iota.
  wstep. apply (wp_IdToPosition cs); [done|done|]. intros p2 _. cbv beta iota. apply wp_if; intros Hneg; [by wstep|].
  apply orb_false_iff in Hneg as [Hp1%Z.ltb_ge Hp2%Z.ltb_ge]. eapply wp_conseq; [by apply (SwapPositions_keeps cs)|]. by intros r w' [? _].
Qed.

(** ** Priorities *)

Lemma set_priorities_ids s e priority (l : list Track) : track_id <$> set_priorities s e priority l = track_id <$> l.
Proof.
  apply list_eq. intros j. unfold set_priorities. rewrite !list_lookup_fmap, list_lookup_imap. destruct (l !! j) as [x|]; [|done]. cbn.
  by destruct (decide _).
Qed.

Lemma SetPriorityRange_keeps cs w (r : RangeArg) priority : pl_ok cs w -> 0 <= r_start r -> 0 <= priority < 256 ->
  wp (SetPriorityRange r priority) (fun _ w' => pl_ok cs w') w.
Proof.
  intros Hpl Hs Hpr. pose proof (p_core _ _ Hpl) as Hcore. pose proof Hcore as [Hok Hc Hp Hn Hsong]. unfold SetPriorityRange. do 2 wstep.
  destruct (CheckClip_ok r (GetLength (queue (pl w))) Hs) as [[-> _]|(e & -> & He & Hse)]; [unfold GetLength; lia|..]; cbn [negb].
  { by wstep. }
  unfold RangeArg_IsEmpty. cbn [r_start r_end]. destruct (Z.leb_spec e (r_start r)); [by wstep|].
  destruct (Z_of_nat_complete (r_start r) Hs) as [s Es]. destruct (Z_of_nat_complete e ltac:(lia)) as [e' Ee]. rewrite Es, Ee in *.
  destruct (SetPriorityRange_ok (queue (pl w)) s e' priority (current (pl w)) Hok) as (m & q' & Hq & [Hok' Ht Hr _ _ _ Ho]);
    [unfold GetLength in *; lia|done|done|].
  assert (track_id <$> tracks q' = track_id <$> tracks (queue (pl w))) as Hids by (by rewrite Ht, set_priorities_ids).
  unfold GetCurrentPosition. do 3 wstep. destruct (Z.leb_spec 0 (current (pl w))) as [Hc0|Hc0].
  - destruct (turn_exists _ (current (pl w)) Hok ltac:(lia)) as (n & k & it & Htn).
    eapply wp_ask; [apply (turn_OrderToPosition Htn)|]. cbv beta iota. wstep. apply (wp_GetQueuedSong cs); [done|]. intros prev Hmid. cbv beta iota.
    do 3 wstep. eapply wp_call; [exact Hq|]. cbv beta iota. wstep. apply wp_when; intros Hk; [|apply Z.leb_gt in Hk; lia].
    destruct (core_ok_follow cs (pl w) q' n k it Hcore Htn Hok' Hids) as (c & Hpo & Hcr & Hc'). wstep. eapply wp_ask; [exact Hpo|]. cbv beta iota. wstep.
    apply (keeps_finish cs prev). by apply (mid_ok_with cs prev w).
  - wstep. wstep. apply (wp_GetQueuedSong cs); [done|]. intros prev Hmid. cbv beta iota.
    do 3 wstep. eapply wp_call; [exact Hq|]. cbv beta iota. wstep. apply wp_when; intros Hk; [apply Z.leb_le in Hk; lia|].
    apply (keeps_finish cs prev). apply (mid_ok_with cs prev w); try done. rewrite <- set_current_same.
    pose proof (ids_GetLength _ _ Hids). apply core_ok_at; try done; [lia|]. rewrite <- Hsong. by rewrite !song_id_at_None.
Qed.

Lemma SetPriorityId_keeps cs w id priority : pl_ok cs w -> 1 <= id -> 0 <= priority < 256 -> wp (SetPriorityId id priority) (fun _ w' => pl_ok cs w') w.
Proof.
  intros Hpl Hid Hpr. unfold SetPriorityId. wstep. apply (wp_IdToPosition cs); [done|done|]. intros p Hp. cbv beta iota.
  destruct (Z.ltb_spec p 0); [by wstep|]. apply SetPriorityRange_keeps; [done| |done]. cbn. unfold u32. apply Z.mod_pos_bound. lia.
Qed.

(** ** Moving *)

(** [current] is left behind when the block moves over the songs between
    [to] and [to] plus the length of the block: see [move_loses_current] in
    [PlaySpec]. *)
Definition move_keeps w (r : RangeArg) (to : Z) : Prop :=
  random (queue (pl w)) = true \/ current (pl w) < r_end r \/ current (pl w) <= to \/ to + (r_end r - r_start r) <= current (pl w).

(** What [MoveRange] makes of [current]. *)
Definition moved_current (r : RangeArg) (to c : Z) : Z :=
  if Contains r c then s32 (u32 (c + (to - r_start r)))
  else if (r_end r <=? c) && (c <=? to) then s32 (u32 (c - RangeArg_Count r))
  else if (to <=? c) && (c <? r_start r) then s32 (u32 (c + RangeArg_Count r))
  else c.

Lemma moved_current_source (s e t n c : nat) (r := mkRangeArg (Z.of_nat s) (Z.of_nat e)) : (s < e <= n)%nat -> (t + (e - s) <= n)%nat -> (c < n)%nat -> small n ->
  exists c' : nat, moved_current r (Z.of_nat t) (Z.of_nat c) = Z.of_nat c' /\ (c' < n)%nat /\
    ((c < e)%nat \/ (c <= t)%nat \/ (t + (e - s) <= c)%nat -> move_source s e t c' = c).
Proof.
  intros Hs Ht Hc Hn. unfold moved_current, Contains, RangeArg_Count, small in *. cbn [r r_start r_end].
  assert (forall x, 0 <= x < 2 ^ 30 -> s32 (u32 x) = x) as Hx by (intros; rewrite u32_id by lia; apply s32_id; lia).
  rewrite (u32_id (Z.of_nat e - Z.of_nat s)) by lia.
  destruct (Z.leb_spec (Z.of_nat s) (Z.of_nat c)), (Z.ltb_spec (Z.of_nat c) (Z.of_nat e)); cbn [andb].
  - exists (c + t - s)%nat. rewrite Hx by lia. split; [lia|]. split; [lia|]. unfold move_source. intros _. repeat case_decide; lia.
  - destruct (Z.leb_spec (Z.of_nat e) (Z.of_nat c)); [|lia]. destruct (Z.leb_spec (Z.of_nat c) (Z.of_nat t)); cbn [andb].
    + exists (c - (e - s))%nat. rewrite Hx by lia. split; [lia|]. split; [lia|]. unfold move_source. intros _. repeat case_decide; lia.
    + destruct (Z.ltb_spec (Z.of_nat c) (Z.of_nat s)); [lia|]. rewrite andb_false_r. exists c. split; [done|]. split; [done|].
      unfold move_source. intros ?. repeat case_decide; lia.
  - destruct (Z.leb_spec (Z.of_nat e) (Z.of_nat c)); [lia|]. destruct (Z.ltb_spec (Z.of_nat c) (Z.of_nat s)); [|lia].
    cbn [andb]. rewrite andb_true_r. destruct (Z.leb_spec (Z.of_nat t) (Z.of_nat c)).
    + exists (c + (e - s))%nat. rewrite Hx by lia. split; [lia|]. split; [lia|]. unfold move_source. intros _. repeat case_decide; lia.
    + exists c. split; [done|]. split; [done|]. unfold move_source. intros _. repeat case_decide; lia.
  - lia.
Qed.

Lemma MoveRange_block cs w (s e t : nat) (r := mkRangeArg (Z.of_nat s) (Z.of_nat e)) : core_ok cs (pl w) ->
  (s < e <= length (items (queue (pl w))))%nat -> (t + (e - s) <= length (items (queue (pl w))))%nat ->
  exists q' cs', Queue.MoveRange (queue (pl w)) (r_start r) (r_end r) (Z.of_nat t) = Some q' /\
    tracks q' = move_range s e t (tracks (queue (pl w))) /\
    core_ok cs' (set_current (if negb (random (queue (pl w))) && (0 <=? current (pl w)) then moved_current r (Z.of_nat t) (current (pl w)) else current (pl w))
      (set_queue q' (pl w))) /\
    (move_keeps w r (Z.of_nat t) -> cs' = cs).
Proof.
  intros Hcore Hse Ht. pose proof Hcore as [Hok Hc Hp Hn Hs].
  destruct (MoveRange_ok (queue (pl w)) s e t Hok Hse Ht) as (q' & Hq & [Hok' Htr Hr _ _ _] & Hin).
  assert (GetLength q' = GetLength (queue (pl w))) as Hl.
  { unfold GetLength. rewrite <- !length_tracks, Htr, length_move_range; rewrite ?length_tracks; lia. }
  exists q'. destruct (random (queue (pl w))) eqn:Hrand; cbn [negb andb].
  { exists cs. split; [done|]. split; [done|]. split; [|done]. apply core_ok_at; try done; [lia|]. rewrite <- Hs. by apply song_id_at_same. }
  destruct (Z.leb_spec 0 (current (pl w))) as [Hc0|Hc0].
  2: { exists cs. split; [done|]. split; [done|]. split; [|done]. apply core_ok_at; try done; [lia|]. rewrite <- Hs. by rewrite !song_id_at_None. }
  destruct (Z_of_nat_complete _ Hc0) as [c Ec]. rewrite Ec in *.
  destruct (moved_current_source s e t (length (items (queue (pl w)))) c Hse Ht ltac:(unfold GetLength in *; lia) (ok_small _ Hok)) as (c' & E & Hlt & Hsrc). fold r in E.
  exists (song_id_at q' (Z.of_nat c')). split; [done|]. split; [done|]. rewrite E. split.
  - split; cbn; try done; [unfold GetLength in *; lia|lia].
  - intros Hk. rewrite <- Hs, !song_id_at_plain by (done || congruence). rewrite Htr, lookup_move_range by (rewrite length_tracks; lia).
    rewrite Hsrc; [done|]. unfold move_keeps in Hk. rewrite Hrand, Ec in Hk. cbn in Hk. destruct Hk as [?|[?|[?|?]]]; [done|lia|lia|lia].
Qed.

Lemma MoveRange_moves cs w (s e t : nat) (r := mkRangeArg (Z.of_nat s) (Z.of_nat e)) : pl_ok cs w -> (s < e)%nat -> Z.of_nat e < 2 ^ 32 ->
  Z.of_nat t + (Z.of_nat e - Z.of_nat s) <= 2 ^ 32 ->
  wp (MoveRange r (Z.of_nat t)) (fun r' w' => exists cs', pl_ok cs' w' /\ (move_keeps w r (Z.of_nat t) -> cs' = cs) /\
    match r' with
    | Ok _ => tracks (queue (pl w')) = move_range s e t (tracks (queue (pl w)))
    | Throw _ => w' = w /\ (length (tracks (queue (pl w))) < e \/ length (tracks (queue (pl w))) < t + (e - s))%nat
    end) w.
Proof.
  intros Hpl Hse He Ht. pose proof (p_core _ _ Hpl) as Hcore. pose proof (GetLength_small _ (c_queue _ _ Hcore)) as Hsm.
  assert (RangeArg_Count r = Z.of_nat e - Z.of_nat s) as Ecount by (unfold RangeArg_Count; cbn; apply u32_id; lia).
  unfold MoveRange. do 2 wstep. unfold IsValidPosition. rewrite length_tracks, Ecount.
  change (r_start r) with (Z.of_nat s). change (r_end r) with (Z.of_nat e).
  rewrite (u32_id (Z.of_nat e - 1)), (u32_id (Z.of_nat t + (Z.of_nat e - Z.of_nat s) - 1)) by lia.
  destruct (Z.ltb_spec (Z.of_nat s) (GetLength (queue (pl w)))); cbn [negb orb];
    [destruct (Z.ltb_spec (Z.of_nat e - 1) (GetLength (queue (pl w)))) as [Hel|]; cbn [negb]|].
  2,3: wstep; exists cs; split; [done|]; split; [done|]; unfold GetLength in *; split; [done|lia].
  destruct (Z.leb_spec (GetLength (queue (pl w))) (Z.of_nat t + (Z.of_nat e - Z.of_nat s) - 1)) as [Hbad|Htl].
  { wstep. exists cs. split; [done|]. split; [done|]. unfold GetLength in *. split; [done|lia]. }
  destruct (Z.eqb_spec (Z.of_nat s) (Z.of_nat t)) as [Est|Est].
  { wstep. exists cs. split; [done|]. split; [done|]. apply Nat2Z.inj in Est as <-. apply list_eq. intros j.
    rewrite lookup_move_range by (rewrite length_tracks; unfold GetLength in *; lia). f_equal. unfold move_source. repeat case_decide; lia. }
  wstep. apply (wp_GetQueuedSong cs); [done|]. intros prev Hmid. cbv beta iota.
  destruct (MoveRange_block cs w s e t Hcore) as (q' & cs' & Hq & Htr & Hc' & Hk); [unfold GetLength in *; lia..|].
  wstep. eapply wp_call_; [exact Hq|]. cbv beta iota. do 2 wstep.
  assert (forall evs, wp (UpdateQueuedSong prev;; OnModified) (fun r' w' => exists cs', pl_ok cs' w' /\ (move_keeps w r (Z.of_nat t) -> cs' = cs) /\
    match r' with
    | Ok _ => tracks (queue (pl w')) = move_range s e t (tracks (queue (pl w)))
    | Throw _ => w' = w /\ (length (items (queue (pl w))) < e \/ length (items (queue (pl w))) < t + (e - s))%nat
    end) (mkWorld (set_current (if negb (random (queue (pl w))) && (0 <=? current (pl w)) then moved_current r (Z.of_nat t) (current (pl w)) else current (pl w))
      (set_queue q' (pl w))) (pc w) evs)) as Hend.
  { intros evs. apply (wp_finish_edit cs'); [by apply (mid_ok_with cs prev w)|].
    intros w' Hpl' Hs'. exists cs'. split; [done|]. split; [done|]. by rewrite (same_tracks _ _ Hs'). }
  wstep. cbn [random]. apply wp_when; intros Hb; rewrite Hb in Hend; [|rewrite set_current_same in Hend; apply Hend].
  unfold moved_current in Hend. rewrite Ecount in Hend. change (r_start r) with (Z.of_nat s) in Hend. change (r_end r) with (Z.of_nat e) in Hend.
  apply wp_if; intros H1'; rewrite H1' in Hend; [wstep; apply Hend|].
  apply wp_if; intros H2'; rewrite H2' in Hend; [wstep; apply Hend|].
  apply wp_when; intros H3'; rewrite H3' in Hend; [wstep; apply Hend|rewrite set_current_same in Hend; apply Hend].
Qed.

(** ** Shuffling *)

(** The song of a turn whose position is not touched. *)
Lemma song_id_at_position q q' (n k : nat) it : queue_ok q -> queue_ok q' -> turn q (Z.of_nat n) n k it -> order q' = order q ->
  tracks q' !! k = tracks q !! k -> song_id_at q' (Z.of_nat n) = song_id_at q (Z.of_nat n).
Proof.
  intros Hok Hok' [_ Ho _] Eo Et. rewrite !song_id_at_nat, (lookup_in_order q n _ Hok Ho).
  rewrite (lookup_in_order q' n (Z.of_nat k) Hok') by congruence. by rewrite !arr_get_nat, Et.
Qed.

Lemma set_queue_same (p : playlist) : set_queue (queue p) p = p.
Proof. by destruct p. Qed.

Lemma world_same w : mkWorld (set_current (current (pl w)) (set_queue (queue (pl w)) (pl w))) (pc w) (events w) = w.
Proof. by destruct w as [[] ? ?]. Qed.

(** The current song is put first. *)
Lemma swap_to_start cs w (s k n : nat) it : core_ok cs (pl w) -> turn (queue (pl w)) (current (pl w)) n k it -> (s < length (items (queue (pl w))))%nat ->
  exists q c, Queue.SwapPositions (queue (pl w)) (Z.of_nat s) (Z.of_nat k) = Some q /\ tracks q = swap_at s k (tracks (queue (pl w))) /\
    length (items q) = length (items (queue (pl w))) /\
    PositionToOrder q (Z.of_nat s) = Some c /\ (random (queue (pl w)) = false -> c = Z.of_nat s) /\
    core_ok cs (set_current c (set_queue q (pl w))) /\ (forall n k it, turn q c n k it -> k = s).
Proof.
  intros Hcore Ht Hs. pose proof Hcore as [Hok Hc Hp Hn Hsong]. pose proof (turn_range Hok Ht) as [_ Hk].
  destruct (SwapPositions_ok (queue (pl w)) s k Hok Hs Hk) as (q & Hq & [Hok1 Ht1 Hr1 _ _ _] & Ho).
  assert (length (items q) = length (items (queue (pl w)))) as Hl by (by rewrite <- !length_tracks, Ht1, length_swap_at).
  destruct (turn_of_position q (Z.of_nat s) Hok1) as (c & s' & it' & Hpo & <-%Nat2Z.inj & Htc); [unfold GetLength; lia|].
  exists q, (Z.of_nat c). split; [done|]. split; [done|]. split; [done|]. split; [done|]. split; [|split].
  - intros Hr. pose proof (ok_plain q Hok1 ltac:(congruence)) as Hplain. destruct Htc as [_ Hoc _]. rewrite Hplain in Hoc.
    apply lookup_seqZ in Hoc. lia.
  - pose proof (turn_range Hok1 Htc). apply core_ok_at; try done; [unfold GetLength; lia|unfold GetLength; lia|lia|].
    rewrite <- Hsong, (turn_song Hok Ht), (turn_song Hok1 Htc).
    assert (tracks q !! s = tracks (queue (pl w)) !! k) as E.
    { rewrite Ht1, lookup_swap_at by (rewrite length_tracks; done). unfold swap_index. by rewrite decide_True. }
    unfold tracks in E. rewrite !list_lookup_fmap, (turn_item _ _ _ _ _ Ht), (turn_item _ _ _ _ _ Htc) in E. by injection E as <- _ _.
  - intros n' k' it2 Ht'. destruct Ht' as [E1 E2 _], Htc as [_ E4 _].
    apply Nat2Z.inj in E1 as <-. rewrite E2 in E4. injection E4. lia.
Qed.

(** The rest of [Shuffle]: the current song is not in the range. *)
Lemma wp_shuffle_rest cs cs' prev w q c (s e : nat) evs (Q : result unit -> World -> Prop) : mid_ok cs prev w ->
  core_ok cs' (set_current c (set_queue q (pl w))) -> (s <= e <= length (items q))%nat ->
  (forall n k it, turn q c n k it -> (k < s \/ e <= k)%nat) ->
  (forall w', pl_ok cs' w' -> tracks (queue (pl w')) ≡ₚ tracks q -> Q (Ok tt) w') ->
  wp (call_ (fun q => ShuffleRange q (Z.of_nat s) (Z.of_nat e));; UpdateQueuedSong prev;; OnModified) Q (mkWorld (set_current c (set_queue q (pl w))) (pc w) evs).
Proof.
  intros Hmid Hcore Hs Hout HQ. pose proof Hcore as [Hok Hc Hp Hn Hsong]. cbn in Hok, Hc, Hp, Hn, Hsong.
  destruct (ShuffleRange_ok q s e Hok Hs) as (q' & new & Hq & [Hok' Ht _ _ _ _] & Hperm & Ho). subst new.
  pose proof (range_perm_perm s e _ _ ltac:(lia) Hperm) as Hp2.
  assert (GetLength q' = GetLength q) as Hl by (unfold GetLength; rewrite <- !length_tracks; by rewrite (Permutation_length Hp2)).
  wstep. eapply wp_call_; [exact Hq|]. cbv beta iota. apply (wp_finish_edit cs').
  - apply (mid_ok_with cs prev w); [done| |done|done].
    apply (core_ok_at cs' (set_current c (set_queue q (pl w))) q' c); try done; [lia|].
    rewrite <- Hsong. destruct (Z.ltb_spec c 0); [by rewrite !song_id_at_None|].
    destruct (turn_exists q c Hok ltac:(lia)) as (n & k & it & Htn). pose proof Htn as [-> _ _]. specialize (Hout n k it Htn).
    apply (song_id_at_position q q' n k it); try done.
    apply (range_perm_lookup s e (tracks q) (tracks q') k); [rewrite length_tracks; lia|done|lia].
  - intros w' Hpl' Hs'. apply HQ; [done|]. by rewrite (same_tracks _ _ Hs').
Qed.

Lemma Shuffle_ok cs w (r : RangeArg) : pl_ok cs w -> 0 <= r_start r ->
  wp (Shuffle r) (fun r' w' => (w' = w \/ pl_ok (playing_song cs w) w') /\ tracks (queue (pl w')) ≡ₚ tracks (queue (pl w))) w.
Proof.
  intros Hpl Hs. pose proof (p_core _ _ Hpl) as Hcore. pose proof Hcore as [Hok Hc Hp Hn Hsong]. pose proof (GetLength_small _ Hok) as Hsm.
  unfold Shuffle. do 2 wstep.
  destruct (CheckClip_ok r (GetLength (queue (pl w))) Hs) as [[-> _]|(e & -> & He & Hse)]; [lia|..]; cbn [negb].
  { wstep. split; [by left|done]. }
  unfold HasAtLeast. cbn [r_start r_end]. destruct (Z_of_nat_complete (r_start r) Hs) as [s Es]. rewrite Es in *. rewrite u32_id by lia.
  destruct (Z.leb_spec (Z.of_nat s + 2) e); cbn [negb]; [|wstep; split; [by left|done]].
  destruct (Z_of_nat_complete e ltac:(lia)) as [e' Ee]. rewrite Ee in *.
  wstep. apply (wp_GetQueuedSong cs); [done|]. intros prev Hmid. cbv beta iota. do 5 wstep. unfold playing_song.
  destruct (playing (pl w)) eqn:Hplay.
  2: { cbn [andb]. do 3 wstep. rewrite <- (set_queue_same (pl w)) at 1. apply (wp_shuffle_rest cs None prev); [done| | | |].
       - rewrite set_queue_same. split; cbn; try done; lia || congruence.
       - unfold GetLength in *. lia.
       - intros n k it [E _ _]. lia.
       - intros w' Hpl' Hp'. split; [by right|done]. }
  specialize (Hp eq_refl). destruct (Z.leb_spec 0 (current (pl w))); [|lia]. cbn [andb].
  destruct (turn_exists _ (current (pl w)) Hok ltac:(lia)) as (n & k & it & Ht). wstep.
  eapply wp_ask; [apply (turn_OrderToPosition Ht)|]. cbv beta iota. unfold Contains. cbn [r_start r_end].
  apply wp_if; intros Hin.
  - apply andb_true_iff in Hin as [Hin1%Z.leb_le Hin2%Z.ltb_lt].
    destruct (swap_to_start cs w s k n it Hcore Ht) as (q & c & Hq & Htr & Hlen & Hpo & Hplain & Hc' & Hu); [unfold GetLength in *; lia|].
    wstep. eapply wp_call_; [exact Hq|]. cbv beta iota. wstep.
    assert (forall evs, wp (call_ (fun q => ShuffleRange q (Z.of_nat s + 1) (Z.of_nat e'));; UpdateQueuedSong prev;; OnModified)
      (fun _ w' => (w' = w \/ pl_ok cs w') /\ tracks (queue (pl w')) ≡ₚ tracks (queue (pl w))) (mkWorld (set_current c (set_queue q (pl w))) (pc w) evs)) as Hend.
    { intros evs. replace (Z.of_nat s + 1) with (Z.of_nat (S s)) by lia. apply (wp_shuffle_rest cs cs prev); [done|done|unfold GetLength in *; lia| |].
      - intros n' k' it' Ht'. rewrite (Hu n' k' it' Ht'). left. lia.
      - intros w' Hpl' Hp'. split; [by right|]. rewrite Hp', Htr. apply swap_at_perm. }
    apply wp_if; intros Hr.
    + eapply wp_ask; [exact Hpo|]. cbv beta iota. do 3 wstep. apply Hend.
    + rewrite (Hplain Hr) in Hend. do 4 wstep. apply Hend.
  - wstep. apply andb_false_iff in Hin. pose proof (fun Q => wp_shuffle_rest cs cs prev w (queue (pl w)) (current (pl w)) s e' (events w) Q) as Hrest.
    rewrite world_same in Hrest. apply Hrest; [done| | | |].
    + by rewrite set_current_same, set_queue_same.
    + unfold GetLength in *. lia.
    + intros n' k' it' Ht'. assert (k' = k) as -> by (destruct Ht' as [E1 E2 _], Ht as [E3 E4 _]; rewrite E1 in E3; apply Nat2Z.inj in E3 as ->; rewrite E2 in E4; injection E4; lia).
      destruct Hin as [?%Z.leb_gt|?%Z.ltb_ge]; lia.
    + intros w' Hpl' Hp'. split; [by right|done].
Qed.
End Moves.
