(* ===== verification/PlayTags.v ===== *)
(** Changing the songs of the queue in place: [SetSongIdRange]
    ([PlaylistEdit.cxx]), [PlaylistTag.cxx], [PlaylistUpdate.cxx] and the
    [TagModified] events of [Playlist.cxx]. *)
From S2P Require Import Arrays Text Tags Audio Songs RangeArg SortList StableSort Queue QueueWf QueueOps QueueRandom PlayControl PlayRules PlayWf PlayOps PlayPlayback PlayEdits.
Open Scope Z_scope.

Section Tags.
Context `{RandomLaws} `{PlayerLaws}.
Implicit Types (w : World) (cs : option Z) (prev : option Z) (q : Queue).

Definition edit_item (f : DetachedSong -> DetachedSong) (it : Item) : Item := set_item_song (f (i_song it)) it.
Definition edit_track (f : DetachedSong -> DetachedSong) (x : Track) : Track := (x.1.1, f x.1.2, x.2).

Lemma queue_ok_edit q (k : nat) f : queue_ok q -> queue_ok (with_items (alter (edit_item f) k (items q)) q).
Proof.
  intros [Ht Ho Hplain Hm [Hv Hvs] Hpr]. set (l := alter _ k (items q)).
  assert (forall (P : Item -> Prop), (forall it, P it -> P (edit_item f it)) -> Forall P (items q) -> Forall P l) as Hall.
  { intros P HP Hf. apply Forall_alter; [done|]. intros it Hit _. apply HP. by apply (Forall_lookup_1 _ _ _ _ Hf Hit). }
  assert (ids l = ids (items q)) as Hids.
  { unfold ids. apply list_eq. intros j. rewrite !list_lookup_fmap. unfold l. destruct (decide (j = k)) as [->|].
    - rewrite list_lookup_alter_eq. by destruct (items q !! k).
    - by rewrite list_lookup_alter_ne. }
  assert (length l = length (items q)) as Hl by apply length_alter.
  split; unfold order_ok, GetLength in *; cbn; fold l; rewrite ?Hl; try done.
  - apply (table_ok_moved (items q) l (id_table q)); try done; [by rewrite Hids|].
    intros i it Hi. assert (ids l !! i = Some (i_id it)) as E by (unfold ids; by rewrite list_lookup_fmap, Hi).
    rewrite Hids in E. unfold ids in E. apply list_lookup_fmap_Some in E as (it' & -> & Hi'). by apply (table_found _ _ Ht).
  - split; [done|]. by apply Hall.
  - by apply Hall.
Qed.

Lemma tracks_edit q k f : tracks (with_items (alter (edit_item f) k (items q)) q) = alter (edit_track f) k (tracks q).
Proof.
  unfold tracks. cbn. apply list_eq. intros j. rewrite list_lookup_fmap. destruct (decide (j = k)) as [->|].
  - rewrite !list_lookup_alter_eq, list_lookup_fmap. by destruct (items q !! k).
  - by rewrite !list_lookup_alter_ne, list_lookup_fmap.
Qed.

Lemma edit_track_ids f k (l : list Track) : track_id <$> alter (edit_track f) k l = track_id <$> l.
Proof.
  apply list_eq. intros j. rewrite !list_lookup_fmap. destruct (decide (j = k)) as [->|]; [|by rewrite list_lookup_alter_ne].
  rewrite list_lookup_alter_eq. by destruct (l !! k).
Qed.

(** The state after songs are changed: the same ids, the same order. *)
Record edited w w' (trs : list Track) cs : Prop := {
  edited_ok : pl_ok cs w';
  edited_tracks : tracks (queue (pl w')) = trs;
  edited_playing : playing (pl w') = playing (pl w)
}.

Lemma pl_ok_same_order cs w q evs : pl_ok cs w -> queue_ok q -> order q = order (queue (pl w)) ->
  track_id <$> tracks q = track_id <$> tracks (queue (pl w)) -> pl_ok cs (mkWorld (set_queue q (pl w)) (pc w) evs).
Proof.
  intros [Hc Hq Hn] Hok Ho Hi. pose proof (ids_GetLength _ _ Hi) as Hl. split; cbn; [by apply core_ok_same_order|by rewrite Hl|done].
Qed.

Lemma wp_edit_song cs w f (k : nat) (Q : result unit -> World -> Prop) : pl_ok cs w -> (k < length (items (queue (pl w))))%nat ->
  (forall q evs, let w' := mkWorld (set_queue q (pl w)) (pc w) evs in pl_ok cs w' -> order q = order (queue (pl w)) ->
     tracks q = alter (edit_track f) k (tracks (queue (pl w))) -> version q = version (queue (pl w)) -> Q (Ok tt) w') ->
  wp (edit_song f (Z.of_nat k)) Q w.
Proof.
  intros Hpl Hk HQ. unfold edit_song.
  eapply (wp_call_ _ (with_items (alter (edit_item f) k (items (queue (pl w)))) (queue (pl w)))).
  - pose proof (arr_modify (edit_item f) (items (queue (pl w))) k Hk) as E. destruct (arr_get (items (queue (pl w))) (Z.of_nat k)) as [it|]; [|done].
    cbn [mbind option_bind] in *. unfold edit_item at 1 in E. by rewrite E.
  - apply HQ; [|done|apply tracks_edit|done]. apply pl_ok_same_order; [done|apply queue_ok_edit, Hpl|done|]. by rewrite tracks_edit, edit_track_ids.
Qed.

(** [ModifyAtPosition] marks the song. *)
Lemma wp_ModifyAtPosition cs w (k : nat) (Q : result unit -> World -> Prop) : pl_ok cs w -> (k < length (items (queue (pl w))))%nat ->
  (forall q evs, let w' := mkWorld (set_queue q (pl w)) (pc w) evs in pl_ok cs w' -> order q = order (queue (pl w)) ->
     tracks q = tracks (queue (pl w)) -> Q (Ok tt) w') ->
  wp (call_ (fun q => ModifyAtPosition q (Z.of_nat k))) Q w.
Proof.
  intros Hpl Hk HQ. destruct (ModifyAtPosition_ok (queue (pl w)) k (c_queue _ _ (p_core _ _ Hpl)) Hk) as (q & Hq & [Hok Ht _ _ _ _] & Ho).
  eapply wp_call_; [exact Hq|]. apply HQ; [|done|done]. apply pl_ok_same_order; [done|done|done|by rewrite Ht].
Qed.

Lemma items_tracks_length q q' k f : tracks q' = alter (edit_track f) k (tracks q) -> length (items q') = length (items q).
Proof. intros E. by rewrite <- !length_tracks, E, length_alter. Qed.

(** The song with an id, or none. *)
Lemma IdToPosition_exact q id : queue_ok q -> 1 <= id ->
  exists p, IdToPosition q id = Some p /\
    (p < 0 /\ id ∉ track_id <$> tracks q \/ exists (k : nat) x, p = Z.of_nat k /\ tracks q !! k = Some x /\ track_id x = id).
Proof.
  intros Hok Hid. destruct (IdToPosition_ok q id Hok Hid) as (p & Hp & Hlt). exists p. split; [done|].
  unfold IdToPosition, IdTable_IdToPosition in Hp. assert (track_id <$> tracks q = ids (items q)) as Hids.
  { unfold tracks, ids. rewrite <- list_fmap_compose. done. }
  rewrite Hids. destruct (Z.ltb_spec id (t_initialized (id_table q))) as [Hi|Hi].
  - destruct (Z.ltb_spec p 0) as [Hneg|Hpos].
    + left. split; [done|]. intros (i & it & Hl & <-)%elem_of_ids. rewrite (ok_found q Hok i it Hl) in Hp. injection Hp. lia.
    + right. pose proof (table_used _ _ (ok_table q Hok) id p Hp Hpos) as (i & it & Hl & <-)%elem_of_ids.
      rewrite (ok_found q Hok i it Hl) in Hp. injection Hp as <-. exists i, (track it). split; [done|]. split; [|done].
      unfold tracks. by rewrite list_lookup_fmap, Hl.
  - left. injection Hp as <-. split; [lia|]. intros (i & it & Hl & <-)%elem_of_ids.
    pose proof (found_initialized _ _ i it (ok_found q Hok) Hl). lia.
Qed.

Lemma wp_find cs w id (Q : result Z -> World -> Prop) : pl_ok cs w -> 1 <= id ->
  (forall p, p < 0 -> id ∉ song_ids w -> Q (Ok p) w) ->
  (forall k x, tracks (queue (pl w)) !! k = Some x -> track_id x = id -> (k < length (items (queue (pl w))))%nat -> Q (Ok (Z.of_nat k)) w) ->
  wp (ask (fun q => IdToPosition q id)) Q w.
Proof.
  intros Hpl Hid HN HS. destruct (IdToPosition_exact (queue (pl w)) id (c_queue _ _ (p_core _ _ Hpl)) Hid) as (p & Hp & Hcase).
  eapply wp_ask; [exact Hp|]. destruct Hcase as [[? ?]|(k & x & -> & Hx & Hi)]; [by apply HN|]. apply (HS k x); try done.
  rewrite <- length_tracks. by apply lookup_lt_Some in Hx.
Qed.

(** ** Tags *)

(** Changes one song and tells the clients. *)
Lemma wp_edit_and_mark cs w f (k : nat) (Q : result unit -> World -> Prop) : pl_ok cs w -> (k < length (items (queue (pl w))))%nat ->
  (forall w', edited w w' (alter (edit_track f) k (tracks (queue (pl w)))) cs -> Q (Ok tt) w') ->
  wp (edit_song f (Z.of_nat k);; call_ (fun q => ModifyAtPosition q (Z.of_nat k));; OnModified) Q w.
Proof.
  intros Hpl Hk HQ. wstep. apply (wp_edit_song cs); [done|done|]. intros q1 evs1 w1 Hpl1 _ Ht1 _. cbv beta iota.
  wstep. apply (wp_ModifyAtPosition cs w1); [done|cbn; by rewrite (items_tracks_length _ _ _ _ Ht1)|]. intros q2 evs2 w2 Hpl2 _ Ht2. cbv beta iota.
  apply (wp_OnModified cs); [done|]. intros w3 Hpl3 [Ht3 Hp3 _ _] _ _ _ _. apply HQ. split; [done| |by rewrite Hp3]. rewrite Ht3. cbn. by rewrite Ht2.
Qed.

Definition edited_tags (f : TagBuilder -> TagBuilder) (s : DetachedSong) : DetachedSong := d_SetTag s (Commit (f (TagBuilder_of (d_tag s)))).

(** The song with the id gets the new tags, the others are left alone; a
    song of the database or an unknown id is refused. *)
Lemma edit_tag_ok cs w id f : pl_ok cs w -> 1 <= id ->
  wp (edit_tag id f) (fun r w' => pl_ok cs w' /\ match r with
    | Ok _ => exists k x, tracks (queue (pl w)) !! k = Some x /\ track_id x = id /\ IsRemote x.1.2 = true /\
        tracks (queue (pl w')) = alter (edit_track (edited_tags f)) k (tracks (queue (pl w)))
    | Throw e => w' = w /\ (e = NoSuchSong /\ id ∉ song_ids w \/
        e = DENIED /\ exists k x, tracks (queue (pl w)) !! k = Some x /\ track_id x = id /\ IsRemote x.1.2 = false)
    end) w.
Proof.
  intros Hpl Hid. unfold edit_tag. wstep. apply (wp_find cs); [done|done|..]; cbv beta iota.
  - intros p Hp Hno. destruct (Z.ltb_spec p 0); [|lia]. wstep. split; [done|]. split; [done|]. by left.
  - intros k x Hx Hi Hk. destruct (Z.ltb_spec (Z.of_nat k) 0); [lia|]. wstep. apply (wp_Get w k x); [done|]. cbv beta iota.
    destruct (IsRemote x.1.2) eqn:Hrem; cbn [negb].
    + apply (wp_edit_and_mark cs); [done|done|]. intros w' [Hpl' Ht' _]. split; [done|]. by exists k, x.
    + wstep. split; [done|]. split; [done|]. right. split; [done|]. by exists k, x.
Qed.

Lemma wp_TagModified cs w song : pl_ok cs w -> wp (TagModified song) (fun _ w' => pl_ok cs w' /\ song_ids w' = song_ids w) w.
Proof.
  intros Hpl. pose proof (p_core _ _ Hpl) as [Hok Hc Hp Hn Hs]. unfold TagModified. do 2 wstep. apply wp_if; intros Hplay; [by wstep|].
  apply negb_false_iff in Hplay. specialize (Hp Hplay). destruct (turn_exists _ (current (pl w)) Hok ltac:(lia)) as (n & k & it & Ht).
  pose proof (turn_range Hok Ht) as [Hn' Hk]. do 3 wstep. apply wp_massert; [by apply Z.leb_le|]. wstep. eapply wp_ask; [apply (turn_GetOrder Ht)|]. cbv beta iota. wstep.
  eapply wp_ask; [apply (turn_OrderToPosition Ht)|]. cbv beta iota. wstep.
  assert (forall w1, pl_ok cs w1 -> song_ids w1 = song_ids w -> wp (call_ (fun q => ModifyAtOrder q (current (pl w)));; OnModified)
    (fun _ w' => pl_ok cs w' /\ song_ids w' = song_ids w) w1) as Hend.
  { intros w1 Hpl1 Hi1. pose proof (c_queue _ _ (p_core _ _ Hpl1)) as Hok1. pose proof (ids_GetLength _ _ Hi1) as Hl1. destruct Ht as [-> _ _].
    destruct (ModifyAtOrder_ok (queue (pl w1)) n Hok1) as (q' & Hq & [Hok' Ht' _ _ _ _] & Ho'); [unfold GetLength in *; lia|].
    wstep. eapply wp_call_; [exact Hq|]. cbv beta iota. set (w2 := mkWorld _ _ _).
    assert (pl_ok cs w2) as Hpl2 by (apply pl_ok_same_order; [done|done|done|by rewrite Ht']).
    apply (wp_OnModified cs); [done|]. intros w3 Hpl3 Hs3 _ _ _ _. split; [done|]. rewrite (same_songs_ids _ _ Hs3). unfold song_ids in *. cbn. by rewrite Ht'. }
  apply wp_when; intros _; [|by apply Hend]. apply (wp_edit_song cs); [done|done|]. intros q evs w1 Hpl1 _ Ht1 _. apply Hend; [done|].
  unfold song_ids. cbn. by rewrite Ht1, edit_track_ids.
Qed.

(** ** All songs *)

Lemma alter_split {A} (f : A -> A) (l : list A) (k : nat) x : l !! k = Some x -> alter f k l = take k l ++ f x :: drop (S k) l.
Proof.
  intros Hk. rewrite <- insert_take_drop by (by apply lookup_lt_Some in Hk). apply list_eq. intros j. destruct (decide (j = k)) as [->|].
  - rewrite list_lookup_alter_eq, Hk, list_lookup_insert_eq; [done|by apply lookup_lt_Some in Hk].
  - by rewrite list_lookup_alter_ne, list_lookup_insert_ne.
Qed.

(** What [modify_songs] makes of a song. *)
Definition modified (f : DetachedSong -> option DetachedSong) (x : Track) : Track := (x.1.1, default x.1.2 (f x.1.2), x.2).

Lemma wp_modify_songs cs w f (n i : nat) m (Q : result bool -> World -> Prop) : pl_ok cs w -> (i + n = length (tracks (queue (pl w))))%nat ->
  (forall w' m', edited w w' (take i (tracks (queue (pl w))) ++ (modified f <$> drop i (tracks (queue (pl w))))) cs -> Q (Ok m') w') ->
  wp (modify_songs f n (Z.of_nat i) m) Q w.
Proof.
  revert w i m Q. induction n as [|n IH]; intros w i m Q Hpl Hi HQ; cbn [modify_songs].
  { wstep. apply HQ. split; [done| |done]. by rewrite drop_ge, take_ge, app_nil_r by lia. }
  destruct (lookup_lt_is_Some_2 (tracks (queue (pl w))) i ltac:(lia)) as [x Hx]. wstep. apply (wp_Get w i x); [done|]. cbv beta iota.
  replace (Z.of_nat i + 1) with (Z.of_nat (S i)) by lia. rewrite (drop_S _ x) in HQ by done. cbn in HQ.
  destruct (f x.1.2) as [song|] eqn:Ef.
  - rewrite length_tracks in Hi. wstep. apply (wp_edit_song cs); [done|lia|]. intros q1 evs1 w1 Hpl1 _ Ht1 _. cbv beta iota.
    wstep. apply (wp_ModifyAtPosition cs w1); [done|cbn; rewrite (items_tracks_length _ _ _ _ Ht1); lia|]. intros q2 evs2 w2 Hpl2 _ Ht2. cbv beta iota.
    cbn in Ht2. assert (tracks q2 = take i (tracks (queue (pl w))) ++ modified f x :: drop (S i) (tracks (queue (pl w)))) as Ht.
    { rewrite Ht2, Ht1, (alter_split _ _ _ x) by done. do 2 f_equal. unfold edit_track, modified. by rewrite Ef. }
    apply (IH w2); [done|cbn; rewrite Ht2, Ht1, length_alter, length_tracks; lia|]. intros w3 m3 [Hpl3 Ht3 Hp3]. apply HQ. split; [done| |done].
    rewrite Ht3. change (tracks (queue (pl w2))) with (tracks q2). rewrite Ht. clear Ht3.
    assert (length (take i (tracks (queue (pl w)))) = i) as Hti by (rewrite length_take, length_tracks; lia).
    rewrite take_app_ge, drop_app_ge by lia. replace (S i - length (take i (tracks (queue (pl w)))))%nat with 1%nat by lia. cbn. by rewrite <- app_assoc.
  - apply IH; [done|lia|]. intros w' m' [Hpl' Ht' Hp']. apply HQ. split; [done| |done]. rewrite Ht', (take_S_r _ _ x) by done. rewrite <- app_assoc. cbn.
    do 2 f_equal. unfold modified. rewrite Ef. by destruct x as [[] ?].
Qed.

(** Every song is replaced by what [f] makes of it; the ids, the order of
    play and the current song stay. *)
Lemma wp_modify_all cs w f : pl_ok cs w ->
  wp (q ← get queue; m ← modify_songs f (length (items q)) 0 false; when m OnModified)
    (fun r w' => r = Ok tt /\ pl_ok cs w' /\ tracks (queue (pl w')) = modified f <$> tracks (queue (pl w))) w.
Proof.
  intros Hpl. do 3 wstep. rewrite <- length_tracks. change 0 with (Z.of_nat 0).
  apply (wp_modify_songs cs); [done|done|]. intros w1 m [Hpl1 Ht1 Hp1]. cbv beta iota. rewrite drop_0, take_0, app_nil_l in Ht1.
  apply wp_when; intros _; [|done]. apply (wp_OnModified cs); [done|]. intros w2 Hpl2 [Ht2 _ _ _] _ _ _ _. split; [done|]. split; [done|congruence].
Qed.

Lemma TagModified_uri_ok cs w real_uri tag : pl_ok cs w ->
  wp (TagModified_uri real_uri tag) (fun r w' => r = Ok tt /\ pl_ok cs w' /\
    tracks (queue (pl w')) = modified (fun song => if GetRealURI song =b real_uri then Some (d_SetTag song tag) else None) <$> tracks (queue (pl w))) w.
Proof. apply wp_modify_all. Qed.

Lemma DatabaseModified_ok cs w db_GetSong : pl_ok cs w ->
  wp (DatabaseModified db_GetSong) (fun r w' => r = Ok tt /\ pl_ok cs w' /\
    tracks (queue (pl w')) = modified (UpdatePlaylistSong db_GetSong) <$> tracks (queue (pl w))) w.
Proof. apply wp_modify_all. Qed.

(** ** The range of a song *)

(** The offsets that are set. *)
Definition ranged (start end_ : Z) (s : DetachedSong) : DetachedSong :=
  let duration := duration (d_tag s) in
  d_SetEndTime (d_SetStartTime s start) (if negb (duration <? 0) && (duration <=? end_) then 0 else end_).

Lemma SetSongIdRange_ok cs w id start end_ : pl_ok cs w -> 1 <= id -> (end_ =? 0) || (start <? end_) = true ->
  wp (SetSongIdRange id start end_) (fun r w' => pl_ok cs w' /\ match r with
    | Ok _ => exists k x, tracks (queue (pl w)) !! k = Some x /\ track_id x = id /\
        tracks (queue (pl w')) = alter (edit_track (fun _ => ranged start end_ x.1.2)) k (tracks (queue (pl w)))
    | Throw _ => tracks (queue (pl w')) = tracks (queue (pl w))
    end) w.
Proof.
  intros Hpl Hid Hse. unfold SetSongIdRange. wstep. apply wp_massert; [done|]. wstep. apply (wp_find cs); [done|done|..]; cbv beta iota.
  { intros p Hp _. destruct (Z.ltb_spec p 0); [|lia]. by wstep. }
  intros k x Hx Hi Hk. destruct (Z.ltb_spec (Z.of_nat k) 0); [lia|]. do 6 wstep. apply wp_if; intros _; [by wstep|].
  cbv zeta. set (was_queued := playing (pl w) && (Z.of_nat k =? queued (pl w))). wstep.
  assert (forall w1, pl_ok cs w1 -> (was_queued = true -> queued (pl w1) = -1) -> tracks (queue (pl w1)) = tracks (queue (pl w)) ->
    wp (song ← ask (fun q => Get q (Z.of_nat k));
        if negb (duration (d_tag song) <? 0) && (duration (d_tag song) <? start) then throw (lit "Invalid start offset")
        else
          edit_song (fun s => d_SetEndTime (d_SetStartTime s start)
            (if negb (duration (d_tag song) <? 0) && (duration (d_tag song) <=? end_) then 0 else end_)) (Z.of_nat k);;
          when was_queued (UpdateQueuedSong None);;
          call_ (fun q => ModifyAtPosition q (Z.of_nat k));;
          OnModified) (fun r w' => pl_ok cs w' /\ match r with
      | Ok _ => exists k x, tracks (queue (pl w)) !! k = Some x /\ track_id x = id /\
          tracks (queue (pl w')) = alter (edit_track (fun _ => ranged start end_ x.1.2)) k (tracks (queue (pl w)))
      | Throw _ => tracks (queue (pl w')) = tracks (queue (pl w))
      end) w1) as Hrest.
  { intros w1 Hpl1 Hq1 Ht1. wstep. apply (wp_Get w1 k x); [by rewrite Ht1|]. cbv beta iota. apply wp_if; intros _; [by wstep|].
    assert (length (items (queue (pl w1))) = length (items (queue (pl w)))) as Hl1 by (by rewrite <- !length_tracks, Ht1).
    wstep. apply (wp_edit_song cs); [done|lia|]. intros q2 evs2 w2 Hpl2 _ Ht2 _. cbv beta iota.
    assert (forall w3, pl_ok cs w3 -> tracks (queue (pl w3)) = tracks q2 -> wp (call_ (fun q => ModifyAtPosition q (Z.of_nat k));; OnModified)
      (fun r w' => pl_ok cs w' /\ match r with
      | Ok _ => exists k x, tracks (queue (pl w)) !! k = Some x /\ track_id x = id /\
          tracks (queue (pl w')) = alter (edit_track (fun _ => ranged start end_ x.1.2)) k (tracks (queue (pl w)))
      | Throw _ => tracks (queue (pl w')) = tracks (queue (pl w))
      end) w3) as Hend.
    { intros w3 Hpl3 Ht3. assert (length (items (queue (pl w3))) = length (items (queue (pl w)))) as Hl3 by (by rewrite <- !length_tracks, Ht3, Ht2, length_alter, Ht1).
      wstep. apply (wp_ModifyAtPosition cs w3); [done|lia|]. intros q4 evs4 w4 Hpl4 _ Ht4. cbv beta iota.
      apply (wp_OnModified cs); [done|]. intros w5 Hpl5 [Ht5 _ _ _] _ _ _ _. split; [done|]. exists k, x. split; [done|]. split; [done|].
      rewrite Ht5. change (tracks (queue (pl w4))) with (tracks q4). rewrite Ht4, Ht3, Ht2, Ht1, !(alter_split _ _ _ x) by done. done. }
    wstep. apply wp_when; intros Hw; [|by apply Hend]. apply (wp_UpdateQueuedSong cs).
    - apply pl_ok_mid; [done|]. by apply Hq1.
    - intros w3 Hpl3 [[Ht3 _ _ _] _]. by apply Hend. }
  apply wp_when; intros Hw; [|apply Hrest; [done|congruence|done]]. do 3 wstep. apply Hrest; [|done|done].
  destruct Hpl as [[Hok Hc Hp Hn Hs] Hq Hnx]. pose proof (GetLength_small _ Hok). split; cbn; [split; cbn; try done|lia|by rewrite cancel_law].
Qed.
End Tags.
