(* ===== verification/PlaySpec.v ===== *)
(** The playlist as a whole: all commands and events, the properties of
    their sequences, and examples of what goes wrong where a precondition
    does not hold. *)
From S2P Require Import Arrays Text Chrono Tags Audio Songs RangeArg SortList StableSort Queue QueueWf QueueOps QueueRandom QueueSpec PlayControl PlayRules PlayWf PlayOps PlayPlayback PlayEdits PlayMoves PlayTags.
From Stdlib Require Import SpecFloat.
Open Scope Z_scope.

Inductive PlaylistOp :=
| OpPlayAny | OpPlayPosition (position : Z) | OpPlayId (id : Z) | OpStop | OpPlayNext | OpPlayPrevious
| OpSeekPosition (position seek_time : Z) | OpSeekId (id seek_time : Z) | OpSeekCurrent (seek_time : Z) (relative : bool)
| OpClearPlaylist | OpAppendSong (song : DetachedSong) | OpDelete (position : Z) | OpDeleteRange (range : RangeArg) | OpDeleteId (id : Z)
| OpStaleSong (uri : bytes) | OpMove (range : RangeArg) (to : Z) | OpSwap (song1 song2 : Z) | OpSwapIds (id1 id2 : Z)
| OpSetPriority (range : RangeArg) (priority : Z) | OpSetPriorityId (id priority : Z) | OpShuffle (range : RangeArg)
| OpSetRange (id start end_ : Z) | OpAddTag (mask id : Z) (tag : TagType) (value : bytes) | OpClearTag (id : Z) (tag : option TagType)
| OpSetRepeat (status : bool) | OpSetRandom (status : bool) | OpSetSingle (status : SingleMode) | OpSetConsume (status : ConsumeMode)
| OpBeginBulk | OpCommitBulk
| OpSync | OpBorderPause | OpTagModified (song : DetachedSong) | OpTagModifiedUri (uri : bytes) (tag : Tag)
| OpDatabaseModified (db_GetSong : bytes -> option LightSong).

Section Session.
Context `{Random} `{PlayerControl}.

Definition run (op : PlaylistOp) : M unit :=
  match op with
  | OpPlayAny => PlayAny
  | OpPlayPosition position => PlayPosition position
  | OpPlayId id => PlayId id
  | OpStop => Stop
  | OpPlayNext => PlayNext
  | OpPlayPrevious => PlayPrevious
  | OpSeekPosition position t => SeekSongPosition position t
  | OpSeekId id t => SeekSongId id t
  | OpSeekCurrent t relative => SeekCurrent t relative
  | OpClearPlaylist => PlayControl.Clear
  | OpAppendSong song => _ ← AppendSong song; mret tt
  | OpDelete position => PlayControl.DeletePosition position
  | OpDeleteRange range => DeleteRange range
  | OpDeleteId id => DeleteId id
  | OpStaleSong uri => StaleSong uri
  | OpMove range to => PlayControl.MoveRange range to
  | OpSwap song1 song2 => PlayControl.SwapPositions song1 song2
  | OpSwapIds id1 id2 => SwapIds id1 id2
  | OpSetPriority range priority => PlayControl.SetPriorityRange range priority
  | OpSetPriorityId id priority => SetPriorityId id priority
  | OpShuffle range => Shuffle range
  | OpSetRange id start end_ => SetSongIdRange id start end_
  | OpAddTag mask id tag value => AddSongIdTag mask id tag value
  | OpClearTag id tag => ClearSongIdTag id tag
  | OpSetRepeat status => SetRepeat status
  | OpSetRandom status => SetRandom status
  | OpSetSingle status => SetSingle status
  | OpSetConsume status => SetConsume status
  | OpBeginBulk => BeginBulk
  | OpCommitBulk => CommitBulk
  | OpSync => SyncWithPlayer
  | OpBorderPause => BorderPause
  | OpTagModified song => TagModified song
  | OpTagModifiedUri uri tag => TagModified_uri uri tag
  | OpDatabaseModified db_GetSong => DatabaseModified db_GetSong
  end.

(** What the code relies on: positions and ids are [unsigned] and the id 0
    is not used (see [id_zero_uninitialised]); a block to be moved is not
    empty and does not leave the range of [unsigned]; a range of a song is
    not empty; bulk edits are not nested; in consume mode the player has not
    begun the song that is already the current one. *)
Definition permitted (p : playlist) (op : PlaylistOp) : bool :=
  match op with
  | OpPlayPosition position | OpSeekPosition position _ | OpDelete position => 0 <=? position
  | OpPlayId id | OpSeekId id _ | OpDeleteId id | OpAddTag _ id _ _ | OpClearTag id _ => 1 <=? id
  | OpSwap song1 song2 => (0 <=? song1) && (0 <=? song2)
  | OpSwapIds id1 id2 => (1 <=? id1) && (1 <=? id2)
  | OpDeleteRange range | OpShuffle range => 0 <=? r_start range
  | OpSetPriority range priority => (0 <=? r_start range) && (0 <=? priority) && (priority <? 256)
  | OpSetPriorityId id priority => (1 <=? id) && (0 <=? priority) && (priority <? 256)
  | OpMove range to => (0 <=? r_start range) && (r_start range <? r_end range) && (r_end range <? 2 ^ 32) && (0 <=? to) &&
      (to + (r_end range - r_start range) <=? 2 ^ 32)
  | OpSetRange id start end_ => (1 <=? id) && ((end_ =? 0) || (start <? end_))
  | OpBeginBulk => negb (bulk_edit p)
  | OpCommitBulk => bulk_edit p
  | OpSync => bool_decide (consume (queue p) = CONSUME_OFF) || negb (queued p =? current p)
  | _ => true
  end.

(** The operations that edit the queue around the current song, and those
    under a condition. *)
Definition keeps_current (w : World) (op : PlaylistOp) : bool :=
  match op with
  | OpAppendSong _ => negb (random (queue (pl w))) || (queued (pl w) <? 0) || (current (pl w) <=? queued (pl w))
  | OpMove range to => random (queue (pl w)) || (current (pl w) <? r_end range) || (current (pl w) <=? to) ||
      (to + (r_end range - r_start range) <=? current (pl w))
  | OpSetRandom _ | OpShuffle _ => playing (pl w)
  | OpStaleSong _ => playing (pl w)
  | OpSwap _ _ | OpSwapIds _ _ | OpSetPriority _ _ | OpSetPriorityId _ _ | OpSetRange _ _ _ | OpAddTag _ _ _ _ | OpClearTag _ _
  | OpSetRepeat _ | OpSetSingle _ | OpSetConsume _ | OpBeginBulk | OpCommitBulk | OpBorderPause | OpTagModified _ | OpTagModifiedUri _ _
  | OpDatabaseModified _ => true
  | _ => false
  end.

(** A session: exceptions are reported to the client. *)
Definition step (w : World) (op : PlaylistOp) : option World := fst <$> run op w.

Fixpoint session (w : World) (ops : list PlaylistOp) : option World :=
  match ops with
  | [] => Some w
  | op :: ops => w ← step w op; session w ops
  end.

(** Every operation is permitted where it is run; after one that is not
    defined nothing is asked. *)
Fixpoint session_permitted (w : World) (ops : list PlaylistOp) : bool :=
  match ops with
  | [] => true
  | op :: ops => permitted (pl w) op && match step w op with None => true | Some w => session_permitted w ops end
  end.

Definition current_song (w : World) : option Z := song_id_at (queue (pl w)) (current (pl w)).
End Session.

Section Properties.
Context `{RandomLaws} `{PlayerLaws}.

Lemma wp_any {A} (m : M A) w (Q : result A -> World -> Prop) : wp m Q w -> exists w' r, m w = Some (w', r) /\ Q r w'.
Proof. unfold wp. destruct (m w) as [[w' r]|]; [|done]. by exists w', r. Qed.

Lemma DeleteId_safe cs w id : pl_ok cs w -> 1 <= id -> safe (DeleteId id) w.
Proof.
  intros Hpl Hid. unfold safe, DeleteId. wstep. apply (wp_IdToPosition cs); [done|done|]. intros p Hp. cbv beta iota.
  destruct (Z.ltb_spec p 0); [wstep; by eexists|]. apply (wp_DeletePosition_any cs); [done|done|]. intros r0 w' cs' Hpl'. by eexists.
Qed.

Lemma DeleteRange_safe cs w r : pl_ok cs w -> 0 <= r_start r -> safe (DeleteRange r) w.
Proof.
  intros Hpl Hs. apply (wp_DeleteRange cs); [done|done|by eexists|by eexists|]. intros s e _ _ _ w' cs' Hd. eexists. apply Hd.
Qed.

Ltac hyps H := cbn [permitted keeps_current] in H; rewrite ?andb_true_iff, ?orb_true_iff, ?negb_true_iff, ?Z.leb_le, ?Z.ltb_lt, ?Z.eqb_neq, ?bool_decide_eq_true in H.

Lemma MoveRange_safe cs w r to : pl_ok cs w -> permitted (pl w) (OpMove r to) = true ->
  wp (PlayControl.MoveRange r to) (fun _ w' => exists cs', pl_ok cs' w' /\ (move_keeps w r to -> cs' = cs)) w.
Proof.
  intros Hpl Hp. hyps Hp. destruct Hp as [[[[Hs Hse] He] Hto] Hle].
  destruct r as [s e]. cbn [r_start r_end] in *.
  destruct (Z_of_nat_complete s Hs) as [s' ->], (Z_of_nat_complete e ltac:(lia)) as [e' ->], (Z_of_nat_complete to Hto) as [t ->].
  eapply wp_conseq; [apply (MoveRange_moves cs); [done|lia|lia|lia]|]. intros r w' (cs' & Hpl' & Hk & _). by exists cs'.
Qed.

Lemma run_keeps cs w op : pl_ok cs w -> permitted (pl w) op = true -> keeps_current w op = true -> wp (run op) (fun _ w' => pl_ok cs w') w.
Proof.
  intros Hpl Hp Hk. assert (permitted (pl w) op = true) as Hp' by done.
  destruct op; try discriminate; cbn [run]; hyps Hp; hyps Hk.
  - wstep. eapply wp_conseq; [by apply (AppendSong_ok cs)|]. intros r w' (cs' & Hpl' & Hcs & _).
    assert (cs' = cs) as -> by (apply Hcs; unfold append_keeps; tauto). destruct r; [by wstep|done].
  - apply (wp_StaleSong cs); [done|]. intros w' cs' Hpl' _ Hcs _. by rewrite <- (Hcs Hk).
  - eapply wp_conseq; [by apply (MoveRange_safe cs)|]. intros r0 w' (cs' & Hpl' & Hcs).
    rewrite <- Hcs; [done|]. unfold move_keeps. tauto.
  - destruct Hp. eapply wp_conseq; [by apply (SwapPositions_keeps cs)|]. by intros r w' [? _].
  - destruct Hp. by apply wp_swap_ids.
  - apply SetPriorityRange_keeps; [done|tauto|lia].
  - apply SetPriorityId_keeps; [done|tauto|lia].
  - pose proof (Shuffle_ok cs w range Hpl Hp) as Hsh. eapply wp_conseq; [exact Hsh|]. intros r0 w' [[->|Hpl'] _]; [done|].
    unfold playing_song in Hpl'. by rewrite Hk in Hpl'.
  - destruct Hp. eapply wp_conseq; [apply (SetSongIdRange_ok cs); [done|done|]|].
    + by rewrite orb_true_iff, Z.ltb_lt.
    + by intros r w' [? _].
  - eapply wp_conseq; [by apply (edit_tag_ok cs)|]. by intros r w' [? _].
  - eapply wp_conseq; [by apply (edit_tag_ok cs)|]. by intros r w' [? _].
  - by apply SetRepeat_keeps.
  - eapply wp_conseq; [by apply (SetRandom_ok cs)|]. intros r w' Hpl'. unfold random_song in Hpl'. rewrite Hk, andb_false_r in Hpl'. done.
  - by apply SetSingle_keeps.
  - by apply SetConsume_keeps.
  - by apply BeginBulk_keeps.
  - by apply CommitBulk_keeps.
  - by apply BorderPause_keeps.
  - eapply wp_conseq; [by apply (wp_TagModified cs)|]. by intros r w' [? _].
  - eapply wp_conseq; [by apply (TagModified_uri_ok cs)|]. by intros r w' (_ & ? & _).
  - eapply wp_conseq; [by apply (DatabaseModified_ok cs)|]. by intros r w' (_ & ? & _).
Qed.

Lemma run_safe cs w op : pl_ok cs w -> permitted (pl w) op = true -> safe (run op) w.
Proof.
  intros Hpl Hp. destruct (keeps_current w op) eqn:Hk.
  { eapply wp_conseq; [by apply (run_keeps cs)|]. intros r0 w' Hpl'. by exists cs. }
  assert (permitted (pl w) op = true) as Hp' by done.
  destruct op; try discriminate; cbn [run]; hyps Hp; clear Hk.
  - by apply (PlayAny_safe cs).
  - by apply (PlayPosition_safe cs).
  - by apply (PlayId_safe cs).
  - by apply (Stop_safe cs).
  - by apply (PlayNext_safe cs).
  - by apply (PlayPrevious_safe cs).
  - by apply (SeekSongPosition_safe cs).
  - by apply (SeekSongId_safe cs).
  - by apply (SeekCurrent_safe cs).
  - eapply wp_conseq; [by apply (Clear_safe cs)|]. intros r w' (_ & Hpl' & _). by exists None.
  - unfold safe. wstep. eapply wp_conseq; [by apply (AppendSong_ok cs)|]. intros r w' (cs' & Hpl' & _). destruct r; [wstep|]; by exists cs'.
  - apply (wp_DeletePosition_any cs); [done|done|]. intros r0 w' cs' Hpl'. by exists cs'.
  - by apply (DeleteRange_safe cs).
  - by apply (DeleteId_safe cs).
  - apply (wp_StaleSong cs); [done|]. intros w' cs' Hpl' _ _ _. by exists cs'.
  - eapply wp_conseq; [by apply (MoveRange_safe cs)|]. intros r0 w' (cs' & Hpl' & _). by exists cs'.
  - eapply wp_conseq; [by apply (Shuffle_ok cs)|]. intros r0 w' [[->|Hpl'] _]; by eexists.
  - eapply wp_conseq; [by apply (SetRandom_ok cs)|]. intros r w' Hpl'. eexists. exact Hpl'.
  - apply (SyncWithPlayer_safe cs); [done|]. left. unfold can_start. tauto.
Qed.
End Properties.

Section Sessions.
Context `{RandomLaws} `{PlayerLaws}.

Lemma session_ok w ops cs : pl_ok cs w -> session_permitted w ops = true -> exists w' cs', session w ops = Some w' /\ pl_ok cs' w'.
Proof.
  revert w cs. induction ops as [|op ops IH]; intros w cs Hpl; [by exists w, cs|]. cbn [session session_permitted].
  intros [Hp Hops]%andb_true_iff. destruct (wp_any _ _ _ (run_safe cs w op Hpl Hp)) as (w1 & r & Hr & cs1 & Hpl1).
  unfold step in *. rewrite Hr in *. cbn in *. by eapply IH.
Qed.

Definition start_world (n : Z) (p : Player) : World := mkWorld (playlist_new n) p [].

Lemma start_ok n p : 1 <= n < 2 ^ 30 -> has_next p = false -> pl_ok None (start_world n p).
Proof.
  intros Hn Hp. split; cbn; [|done|by rewrite Hp]. split; cbn; try done. by apply Queue_new_ok.
Qed.
End Sessions.

(** ** Properties *)


(** C17: Editing the queue does not change which song is the current one:
    swapping songs, priorities, tags and ranges of songs, the options, bulk
    edits and changes of the database; shuffling, random mode and stale
    songs while playing; adding a song, unless in random mode the queued
    song comes before the current one in the order; moving a block, unless,
    outside random mode, the current song is behind the block and after the
    new position by less than the length of the block. *)
Theorem edits_keep_current_song `{RandomLaws} `{PlayerLaws} (cs : option Z) (w : World) (op : PlaylistOp) (Hpl : pl_ok cs w)
  (Hpermitted : permitted (pl w) op = true) (Hkeeps : keeps_current w op = true) :
  exists w' r, run op w = Some (w', r) /\ current_song w' = current_song w /\ exists cs', pl_ok cs' w'.
Proof.
  destruct (wp_any _ _ _ (run_keeps cs w op Hpl Hpermitted Hkeeps)) as (w' & r & Hr & Hpl'). exists w', r. split; [done|]. split; [|by exists cs].
  unfold current_song. by rewrite (c_song _ _ (p_core _ _ Hpl')), (c_song _ _ (p_core _ _ Hpl)).
Qed.

(** C39: When a file is gone, all its songs are removed from the queue but the
    one that is being played; the others keep their ids, tags, priorities
    and their order, and the playback goes on. *)
Theorem StaleSong_removes `{RandomLaws} `{PlayerLaws} (cs : option Z) (w : World) (uri : bytes) (Hpl : pl_ok cs w) :
  exists w', StaleSong uri w = Some (w', Ok tt) /\
    tracks (queue (pl w')) = List.filter (fun x => negb (d_uri x.1.2 =b uri) ||
      bool_decide ((if playing (pl w) then current_song w else None) = Some (track_id x))) (tracks (queue (pl w))) /\
    playing (pl w') = playing (pl w) /\ (playing (pl w) = true -> current_song w' = current_song w).
Proof.
  destruct (wp_any _ _ (fun r w' => r = Ok tt /\ tracks (queue (pl w')) = List.filter (stays uri (playing_song cs w)) (tracks (queue (pl w))) /\
    playing (pl w') = playing (pl w) /\ (playing (pl w) = true -> current_song w' = cs)) (wp_StaleSong cs w uri _ Hpl
      (fun w' cs' Hpl' Hp' Hc' Ht' => conj eq_refl (conj Ht' (conj Hp' (fun Hplay => eq_trans (c_song _ _ (p_core _ _ Hpl')) (Hc' Hplay)))))))
    as (w' & r & Hr & -> & Ht & Hp & Hc).
  assert (current_song w = cs) as Ecs by apply (p_core _ _ Hpl).
  exists w'. split; [done|]. rewrite Ecs. split; [exact Ht|]. by split.
Qed.


(** Gapless playback: after the queued song is chosen anew (as every edit
    and option does), the song queued in the player is the one that
    [GetNextOrder] names, or none if there is none.  The exceptions: nothing
    is played; a bulk edit postpones the first song; in random mode the
    order was shuffled to start over, and the queued song is the first one
    of the new order. *)
Theorem next_song_queued `{RandomLaws} `{PlayerLaws} (cs : option Z) (w : World) (Hpl : pl_ok cs w) (Hplaying : playing (pl w) = true) :
  exists w', requeue w = Some (w', Ok tt) /\ pl_ok cs w' /\ tracks (queue (pl w')) = tracks (queue (pl w)) /\
    (bulk_edit (pl w) = true /\ queued (pl w) = -1 \/
     queued (pl w') = order_after (queue (pl w)) (current (pl w)) /\
     (queue (pl w') = queue (pl w) /\ current (pl w') = current (pl w) \/
      queued (pl w') = 0 /\ random (queue (pl w)) = true /\ single (queue (pl w)) = SINGLE_OFF)).
Proof.
  assert (wp requeue (fun r w' => r = Ok tt /\ pl_ok cs w' /\ tracks (queue (pl w')) = tracks (queue (pl w)) /\
    (bulk_edit (pl w) = true /\ queued (pl w) = -1 \/
     queued (pl w') = order_after (queue (pl w)) (current (pl w)) /\
     (queue (pl w') = queue (pl w) /\ current (pl w') = current (pl w) \/
      queued (pl w') = 0 /\ random (queue (pl w)) = true /\ single (queue (pl w)) = SINGLE_OFF))) w) as Hwp.
  { unfold requeue. wstep. apply (wp_GetQueuedSong cs); [done|]. intros prev Hmid. cbv beta iota.
    apply (wp_UpdateQueuedSong cs); [done|]. intros w' Hpl' [[Ht _ _ _] Hq]. split; [done|]. split; [done|]. split; [done|].
    destruct (Hq Hplaying) as [[-> Hb]|Hq']; [left; split; [done|by apply (m_none _ _ _ Hmid)]|by right]. }
  destruct (wp_any _ _ _ Hwp) as (w' & r & Hr & -> & Hrest). by exists w'.
Qed.

(** C20: The player has gone on to the queued song: that becomes the current one,
    and in consume mode exactly the song that was played is removed, as long
    as it is not the queued song itself (see [queued_song_consumed]). *)
Theorem queued_song_becomes_current `{RandomLaws} `{PlayerLaws} (cs : option Z) (w : World) (Hpl : pl_ok cs w) (Hplaying : playing (pl w) = true)
  (Hqueued : 0 <= queued (pl w)) (Hnext : has_next (pc w) = false)
  (Hother : consume (queue (pl w)) = CONSUME_OFF \/ queued (pl w) <> current (pl w)) :
  exists w', QueuedSongStarted w = Some (w', Ok tt) /\ current_song w' = song_id_at (queue (pl w)) (queued (pl w)) /\ playing (pl w') = true /\
    (exists cs', pl_ok cs' w') /\
    song_ids w' = (match consume (queue (pl w)), OrderToPosition (queue (pl w)) (current (pl w)) with
      | CONSUME_OFF, _ | _, None => song_ids w
      | _, Some k => delete (Z.to_nat k) (song_ids w)
      end).
Proof.
  assert (wp QueuedSongStarted (fun r w' => r = Ok tt /\ pl_ok (song_id_at (queue (pl w)) (queued (pl w))) w' /\ playing (pl w') = true /\
    song_ids w' = consumed (queue (pl w)) (current (pl w)) (song_ids w)) w) as Hwp by (by apply (wp_QueuedSongStarted cs)).
  destruct (wp_any _ _ _ Hwp) as (w' & r & Hr & -> & Hpl' & Hp' & Hi'). exists w'. split; [done|]. split; [by apply (p_core _ _ Hpl')|].
  split; [done|]. split; [by eexists|]. exact Hi'.
Qed.

(** "move START:END TO" takes the songs out and puts them at the position,
    or throws without a change; the current song stays the current one
    unless it is one of the songs between [TO] and [TO] plus the length of
    the block. *)
Theorem MoveRange_moves_block `{RandomLaws} `{PlayerLaws} (cs : option Z) (w : World) (s e t : nat) (Hpl : pl_ok cs w)
  (Hblock : (s < e)%nat) (Hwidth : Z.of_nat t + Z.of_nat e <= 2 ^ 32 - 1) :
  exists w' r, PlayControl.MoveRange (mkRangeArg (Z.of_nat s) (Z.of_nat e)) (Z.of_nat t) w = Some (w', r) /\ (exists cs', pl_ok cs' w') /\
    (random (queue (pl w)) = true \/ current (pl w) <= Z.max (Z.of_nat e - 1) (Z.of_nat t) \/ Z.of_nat t + (Z.of_nat e - Z.of_nat s) <= current (pl w) ->
       current_song w' = current_song w) /\
    match r with
    | Ok _ => tracks (queue (pl w')) = move_range s e t (tracks (queue (pl w)))
    | Throw _ => w' = w /\ (length (tracks (queue (pl w))) < e \/ length (tracks (queue (pl w))) < t + (e - s))%nat
    end.
Proof.
  destruct (wp_any _ _ _ (MoveRange_moves cs w s e t Hpl Hblock ltac:(lia) ltac:(lia))) as (w' & r & Hr & cs' & Hpl' & Hk & Hres).
  exists w', r. split; [done|]. split; [by exists cs'|]. split; [|done]. intros Hc. unfold current_song.
  rewrite (c_song _ _ (p_core _ _ Hpl')), (c_song _ _ (p_core _ _ Hpl)). apply Hk. unfold move_keeps. cbn. destruct Hc as [?|[?|?]]; [tauto|lia|tauto].
Qed.

(** ** A sample session *)

(** A player that takes its next song when it is asked. *)
Definition sample_player : PlayerControl := {|
  Player := bool;
  has_next := fun p => p;
  LockEnqueueSong := fun _ _ => true;
  LockCancel := fun _ => false;
  LockStop := fun _ => false;
  Play := fun _ _ => (false, None);
  LockSeek := fun _ _ _ => (false, None);
  LockSetPause := fun _ p => p;
  LockPause := fun p => p;
  LockSetBorderPause := fun _ p => p;
  LockClearError := fun p => p;
  LockUpdateAudio := fun p => p;
  LockSetReplayGainMode := fun _ p => p;
  SetCrossFade := fun _ p => p;
  SetMixRampDb := fun _ p => p;
  SetMixRampDelay := fun _ p => p;
  GetState := fun p => (PLAYER_PLAY, p);
  GetErrorType := fun p => (PLAYER_ERROR_NONE, p);
  LockGetSyncInfo := fun _ => (mkSyncInfo PLAYER_PLAY false, false);
  LockGetStatus := fun p => (mkPlayerStatus PLAYER_PLAY 320 (mkAudioFormat 44100 S16 2) 180500 1500, p);
  GetCrossFade := fun _ => S754_zero false;
  GetMixRampDb := fun _ => S754_zero false;
  GetMixRampDelay := fun _ => S754_nan;
  LockCheckRethrowError := fun _ => None
|}.

Lemma sample_player_laws : @PlayerLaws sample_player.
Proof. by split. Qed.

#[local] Existing Instance sample_random.
#[local] Existing Instance sample_player.
#[local] Existing Instance sample_random_laws.
#[local] Existing Instance sample_player_laws.

(** Two songs are played: the first one to its end. *)
Definition sample_playback : list PlaylistOp :=
  [OpAppendSong (sample_song "a"); OpAppendSong (sample_song "b"); OpAppendSong (sample_song "c"); OpAppendSong (sample_song "a");
   OpPlayPosition 0; OpSync; OpSync; OpSetRepeat true].

Definition sample_start : @World sample_random sample_player := @start_world sample_random sample_player 10 false.

Definition play (w : World) (ops : list PlaylistOp) : World := default w (session w ops).
Definition sample_world : World := play sample_start sample_playback.

Lemma sample_world_ok : exists cs, pl_ok cs sample_world.
Proof.
  destruct (session_ok sample_start sample_playback None) as (w & cs & Hw & Hpl); [by apply start_ok|vm_compute; reflexivity|].
  exists cs. unfold sample_world, play. by rewrite Hw.
Qed.

Lemma sample_world_state : (song_ids sample_world, current (pl sample_world), queued (pl sample_world), playing (pl sample_world)) = ([1; 2; 3; 4], 1, 2, true).
Proof. vm_compute. reflexivity. Qed.


Lemma edits_keep_current_song_witness : exists w' r, run (OpSwap 1 3) sample_world = Some (w', r) /\ current_song w' = current_song sample_world /\
  exists cs', pl_ok cs' w'.
Proof. destruct sample_world_ok as [cs Hpl]. apply (edits_keep_current_song cs); [exact Hpl|reflexivity|reflexivity]. Defined.

Lemma StaleSong_removes_witness : exists w', StaleSong (lit "a") sample_world = Some (w', Ok tt) /\
    tracks (queue (pl w')) = List.filter (fun x => negb (d_uri x.1.2 =b lit "a") ||
      bool_decide ((if playing (pl sample_world) then current_song sample_world else None) = Some (track_id x))) (tracks (queue (pl sample_world))) /\
    playing (pl w') = playing (pl sample_world) /\ (playing (pl sample_world) = true -> current_song w' = current_song sample_world).
Proof. destruct sample_world_ok as [cs Hpl]. apply (StaleSong_removes cs). exact Hpl. Defined.


Lemma next_song_queued_witness : exists cs w', requeue sample_world = Some (w', Ok tt) /\ pl_ok cs w' /\ tracks (queue (pl w')) = tracks (queue (pl sample_world)) /\
    (bulk_edit (pl sample_world) = true /\ queued (pl sample_world) = -1 \/
     queued (pl w') = order_after (queue (pl sample_world)) (current (pl sample_world)) /\
     (queue (pl w') = queue (pl sample_world) /\ current (pl w') = current (pl sample_world) \/
      queued (pl w') = 0 /\ random (queue (pl sample_world)) = true /\ single (queue (pl sample_world)) = SINGLE_OFF)).
Proof. destruct sample_world_ok as [cs Hpl]. exists cs. apply (next_song_queued cs sample_world); [exact Hpl|reflexivity]. Defined.

(** The player has taken the queued song. *)
Definition sample_started : World := @mkWorld sample_random sample_player (pl sample_world) false (events sample_world).

Lemma sample_started_ok : exists cs, pl_ok cs sample_started.
Proof. destruct sample_world_ok as [cs Hpl]. exists cs. by apply pl_ok_player. Qed.

Lemma queued_song_becomes_current_witness : exists w', QueuedSongStarted sample_started = Some (w', Ok tt) /\
    current_song w' = song_id_at (queue (pl sample_started)) (queued (pl sample_started)) /\ playing (pl w') = true /\
    (exists cs', pl_ok cs' w') /\
    song_ids w' = (match consume (queue (pl sample_started)), OrderToPosition (queue (pl sample_started)) (current (pl sample_started)) with
      | CONSUME_OFF, _ | _, None => song_ids sample_started
      | _, Some k => delete (Z.to_nat k) (song_ids sample_started)
      end).
Proof.
  destruct sample_started_ok as [cs Hpl]. apply (queued_song_becomes_current cs); [exact Hpl|reflexivity|vm_compute; discriminate|reflexivity|left; reflexivity].
Defined.

Lemma MoveRange_moves_block_witness : exists w' r, PlayControl.MoveRange (mkRangeArg 2 4) 0 sample_world = Some (w', r) /\ (exists cs', pl_ok cs' w') /\
    (random (queue (pl sample_world)) = true \/ current (pl sample_world) <= Z.max 3 0 \/ 0 + (4 - 2) <= current (pl sample_world) ->
       current_song w' = current_song sample_world) /\
    match r with
    | Ok _ => tracks (queue (pl w')) = move_range 2 4 0 (tracks (queue (pl sample_world)))
    | Throw _ => w' = sample_world /\ (length (tracks (queue (pl sample_world))) < 4 \/ length (tracks (queue (pl sample_world))) < 0 + (4 - 2))%nat
    end.
Proof. destruct sample_world_ok as [cs Hpl]. apply (MoveRange_moves_block cs sample_world 2 4 0); [exact Hpl|lia|lia]. Defined.

(** ** What goes wrong *)

Definition songs (n : nat) : list PlaylistOp := OpAppendSong <$> take n (List.map sample_song ["a"; "b"; "c"; "d"; "e"; "f"; "g"; "h"]%string).

(** [MoveRange] with a block of two songs: the playing song 4 becomes song 5
    as the current one. *)
Example move_loses_current :
  let w := play sample_start (songs 6 ++ [OpPlayPosition 3]) in
  let w' := play w [OpMove (mkRangeArg 0 2) 2] in
  (current_song w, song_ids w', current_song w') = (Some 4, [3; 4; 1; 2; 5; 6], Some 2).
Proof. vm_compute. reflexivity. Qed.

(** [QueuedSongStarted] when the only song is repeated and consume mode was
    switched on after it was queued: it is removed, and order[-1] is read. *)
Example queued_song_consumed :
  let w := play sample_start (songs 1 ++ [OpSetRepeat true; OpPlayPosition 0; OpSync; OpSetConsume CONSUME_ON]) in
  (current (pl w), queued (pl w)) = (0, 0) /\ SyncWithPlayer w = None.
Proof. vm_compute. split; reflexivity. Qed.

(** [AppendSong] in random mode after the order was shuffled to start over:
    the current song may change places with the new one, which then passes
    for the current song. *)
Definition rotating_random : Random := {|
  Engine := unit;
  seeded := tt;
  std_shuffle := fun r l => (match l with [] => [] | x :: l => l ++ [x] end, r);
  std_uniform := fun r a b => (a, r)
|}.

Example append_loses_current :
  let start := @start_world rotating_random sample_player 10 false in
  let w := default start (session start (songs 3 ++ [OpSetRandom true; OpSetRepeat true; OpPlayPosition 0; OpPlayNext; OpPlayNext; OpSync])) in
  let w' := default w (session w [OpAppendSong (sample_song "new")]) in
  (current (pl w), queued (pl w), current_song w, current_song w') = (1, 0, Some 3, Some 4).
Proof. vm_compute. reflexivity. Qed.

(** [PlayNext] at the end of a repeated list in random and consume mode: the
    order is shuffled before the played song is removed by its old order
    number.  Song 2 was played, song 1 is removed. *)
Example consume_removes_other_song :
  let w := play sample_start (songs 4 ++ [OpSetRandom true; OpSetRepeat true; OpPlayPosition 0; OpPlayNext; OpPlayNext; OpPlayNext; OpSetConsume CONSUME_ON]) in
  let w' := play w [OpPlayNext] in
  (current (pl w), current_song w, song_ids w, song_ids w') = (3, Some 2, [1; 2; 3; 4], [2; 3; 4]).
Proof. vm_compute. reflexivity. Qed.

(** Ids start at 1, and the element of the table for the id 0 is never
    written. *)
Example id_zero_uninitialised : DeleteId 0 (play sample_start (songs 2)) = None /\ PlayId 0 (play sample_start (songs 2)) = None.
Proof. vm_compute. split; reflexivity. Qed.

(** [SetSongIdRange] in random mode compares the position with order
    numbers: it refuses to edit a song that is not the current one, and edits
    the current one. *)
Example range_of_current_song :
  let w := play sample_start (songs 3 ++ [OpSetRandom true; OpPlayPosition 0; OpPlayNext]) in
  (current (pl w), current_song w,
   (fun r => match r with Some (_, Ok _) => true | _ => false end) <$> [SetSongIdRange 1 0 0 w; SetSongIdRange 2 0 0 w; SetSongIdRange 3 0 0 w])
  = (1, Some 3, [true; false; true]).
Proof. vm_compute. reflexivity. Qed.
