(* ===== verification/SongPrint.v ===== *)
(** What is sent to a client about songs and the queue: [SongPrint.cxx],
    [TagPrint.cxx], [TimePrint.cxx], [queue/Print.cxx],
    [queue/Selection.cxx].

    The text is a list of chunks, one for each call of [Response::Fmt].  [None]
    stands for an access outside the queue.  The format "{:1.3f}" of the fmt
    library is a parameter. *)
From S2P Require Import Arrays Text Chrono Calendar Tags Audio Uri Songs SongFilter SortList StableSort RangeArg DbVisit VisitOrder Queue QueueSpec PlayControl.
Open Scope Z_scope.

(** [RoundS] *)
Definition RoundS_u (t : Z) : Z := u32 (t + 500) / 1000.
Definition RoundS_s (t : Z) : Z := Z.quot (t + 500) 1000.

Definition song_print_uri (song : DetachedSong) : bytes :=
  let allocated := uri_remove_auth (d_uri song) in
  lit "file: " ++ (if bool_decide (allocated = []) then d_uri song else allocated) ++ [LF].

Definition PrintRange (start_ms end_ms : Z) : list bytes :=
  if 0 <? end_ms then
    [lit "Range: " ++ print_nat (start_ms / 1000) ++ lit "." ++ print_pad 3 (start_ms mod 1000) ++ lit "-" ++
     print_nat (end_ms / 1000) ++ lit "." ++ print_pad 3 (end_ms mod 1000) ++ [LF]]
  else if 0 <? start_ms then [lit "Range: " ++ print_nat (start_ms / 1000) ++ lit "." ++ print_pad 3 (start_ms mod 1000) ++ lit "-" ++ [LF]]
  else [].

Definition time_print (name : bytes) (t : Z) : bytes := name ++ lit ": " ++ FormatISO8601 t ++ [LF].

Definition tag_print (type : TagType) (value : bytes) : bytes := tag_item_names type ++ lit ": " ++ value ++ [LF].
Definition tag_print_values (tag_mask : Z) (tag : Tag) : list bytes :=
  (fun i => tag_print (ti_type i) (ti_value i)) <$> List.filter (fun i => TagMask_Test tag_mask (ti_type i)) (Tags.items tag).

Section Print.
Context `{FilterLibraries} `{Random} (format_seconds : double -> bytes) (tag_mask : Z).

Definition song_print_info (song : DetachedSong) : list bytes :=
  [song_print_uri song] ++
  PrintRange (d_start_time song) (d_end_time song) ++
  (if IsNegative (d_mtime song) then [] else [time_print (lit "Last-Modified") (d_mtime song)]) ++
  (if IsNegative (d_GetAdded song) then [] else [time_print (lit "Added") (d_GetAdded song)]) ++
  (if AudioFormat_IsDefined (d_audio_format song) then [lit "Format: " ++ ToString (d_audio_format song) ++ [LF]] else []) ++
  tag_print_values tag_mask (d_tag song) ++
  (let duration := d_GetDuration song in
   if IsNegative_ms duration then []
   else [lit "Time: " ++ print_int (RoundS_s duration) ++ [LF] ++ lit "duration: " ++ format_seconds (ToDoubleS duration) ++ [LF]]).

Definition queue_print_song_info (queue : Queue) (position : Z) : option (list bytes) :=
  song ← Get queue position;
  id ← PositionToId queue position;
  priority ← GetPriorityAtPosition queue position;
  Some (song_print_info song ++ [lit "Pos: " ++ print_nat position ++ [LF] ++ lit "Id: " ++ print_nat id ++ [LF]] ++
        (if priority =? 0 then [] else [lit "Prio: " ++ print_nat priority ++ [LF]])).

(** ** Selections *)

(** [DontSort], "Last-Modified", "Added" and tags are those of [SortTag]; the
    priority is for queues only. *)
Inductive QueueSort := QSort (s : SortTag) | SORT_TAG_PRIO.
Record QueueSelection := mkQueueSelection { q_filter : option SongFilter; q_window : RangeArg; q_sort : QueueSort; q_descending : bool }.

Definition MatchPosition (sel : QueueSelection) (queue : Queue) (position : Z) : option bool :=
  match q_filter sel with
  | Some f => song ← GetLight queue position; Some (SongFilter_Match f song)
  | None => Some true
  end.

(** [for (i = start; ...; i++)], [n] rounds. *)
Fixpoint CollectQueue_loop (queue : Queue) (sel : QueueSelection) (n : nat) (i : Z) : option (list Z) :=
  match n with
  | O => Some []
  | S n => b ← MatchPosition sel queue i; v ← CollectQueue_loop queue sel n (i + 1); Some (if (b : bool) then i :: v else v)
  end.
Definition CollectQueue (queue : Queue) (sel : QueueSelection) : option (list Z) := CollectQueue_loop queue sel (length (items queue)) 0.

(** The comparison of two positions; they are within the queue. *)
Definition compare_positions (queue : Queue) (sel : QueueSelection) (a_pos b_pos : Z) : bool :=
  let '(a', b') := if q_descending sel then (b_pos, a_pos) else (a_pos, b_pos) in
  let key {A} (f : DetachedSong -> A) (less : A -> A -> bool) (a b : Z) :=
    match Get queue a, Get queue b with Some a, Some b => less (f a) (f b) | _, _ => false end in
  match q_sort sel with
  | QSort SORT_TAG_LAST_MODIFIED => key d_mtime Z.ltb a' b'
  | QSort SORT_TAG_ADDED => key d_GetAdded Z.ltb a' b'
  | SORT_TAG_PRIO => match GetPriorityAtPosition queue a', GetPriorityAtPosition queue b' with Some a, Some b => a <? b | _, _ => false end
  | QSort (SortBy type) => key d_tag (CompareTags type (q_descending sel)) a_pos b_pos
  | QSort DontSort => false
  end.

(** The positions that [PrintSortedQueue] prints. *)
Definition PrintSortedQueue (queue : Queue) (sel : QueueSelection) : option (result (list Z)) :=
  v ← CollectQueue queue sel;
  match CheckClip (q_window sel) (Z.of_nat (length v)) with
  | (false, _) => Some (Throw BadRange)
  | (true, window) =>
      let v := stable_sort (compare_positions queue sel) v in
      Some (Ok (take (Z.to_nat (r_end window - r_start window)) (drop (Z.to_nat (r_start window)) v)))
  end.

(** The loop of [PrintQueue], with [skip] and [n] as unsigned numbers. *)
Fixpoint PrintQueue_loop (queue : Queue) (sel : QueueSelection) (rounds : nat) (i skip n : Z) : option (list Z) :=
  match rounds with
  | O => Some []
  | S rounds =>
      b ← MatchPosition sel queue i;
      if negb b then PrintQueue_loop queue sel rounds (i + 1) skip n
      else if 0 <? skip then PrintQueue_loop queue sel rounds (i + 1) (skip - 1) n
      else if u32 (n - 1) =? 0 then Some [i]
      else v ← PrintQueue_loop queue sel rounds (i + 1) skip (u32 (n - 1)); Some (i :: v)
  end.

Definition PrintQueue_positions (queue : Queue) (sel : QueueSelection) : option (result (list Z)) :=
  match q_sort sel with
  | QSort DontSort =>
      match CheckClip (q_window sel) (GetLength queue) with
      | (false, _) => Some (Throw BadRange)
      | (true, window) =>
          if RangeArg_IsEmpty (q_window sel) then Some (Ok [])
          else v ← PrintQueue_loop queue sel (length (items queue)) 0 (r_start window) (RangeArg_Count window); Some (Ok v)
      end
  | _ => PrintSortedQueue queue sel
  end.

Fixpoint print_positions (queue : Queue) (l : list Z) : option (list bytes) :=
  match l with
  | [] => Some []
  | i :: l => a ← queue_print_song_info queue i; b ← print_positions queue l; Some (a ++ b)
  end.
Definition PrintQueue (queue : Queue) (sel : QueueSelection) : option (result (list bytes)) :=
  r ← PrintQueue_positions queue sel;
  match r with Throw e => Some (Throw e) | Ok l => text ← print_positions queue l; Some (Ok text) end.
End Print.

(** ** What is printed *)

Section Spec.
Context `{FilterLibraries} `{Random}.
Implicit Types (queue : Queue) (sel : QueueSelection).

Definition positions queue : list Z := Z.of_nat <$> seq 0 (length (items queue)).
Definition selected queue sel (i : Z) : bool := default false (MatchPosition sel queue i).
Definition matches queue sel : list Z := List.filter (selected queue sel) (positions queue).

Definition item_at queue (i : Z) : Item := default (mkItem (DetachedSong_new []) 0 0 0) (arr_get (items queue) i).

Lemma arr_get_item queue (i : nat) : (i < length (items queue))%nat -> arr_get (items queue) (Z.of_nat i) = Some (item_at queue (Z.of_nat i)).
Proof.
  intros Hi. unfold item_at. rewrite arr_get_nat. destruct (lookup_lt_is_Some_2 (items queue) i Hi) as [it ->]. done.
Qed.

Lemma MatchPosition_selected queue sel (i : nat) : (i < length (items queue))%nat ->
  MatchPosition sel queue (Z.of_nat i) = Some (selected queue sel (Z.of_nat i)).
Proof.
  intros Hi. unfold selected, MatchPosition, GetLight, Get, GetPriorityAtPosition. destruct (q_filter sel); [|done].
  by rewrite arr_get_item.
Qed.

Definition selected_from queue sel (i n : nat) : list Z := List.filter (selected queue sel) (Z.of_nat <$> seq i n).

Lemma CollectQueue_loop_eq queue sel (n i : nat) : (i + n <= length (items queue))%nat ->
  CollectQueue_loop queue sel n (Z.of_nat i) = Some (selected_from queue sel i n).
Proof.
  revert i. induction n as [|n IH]; intros i Hi; [done|]. cbn [CollectQueue_loop]. rewrite MatchPosition_selected by lia.
  replace (Z.of_nat i + 1) with (Z.of_nat (S i)) by lia. cbn [mbind option_bind]. rewrite IH by lia. done.
Qed.

Lemma CollectQueue_eq queue sel : CollectQueue queue sel = Some (matches queue sel).
Proof. apply (CollectQueue_loop_eq queue sel _ 0). lia. Qed.

Lemma PrintQueue_loop_eq queue sel (rounds i skip n : nat) : (i + rounds <= length (items queue))%nat -> Z.of_nat n < 2 ^ 32 ->
  (1 <= n \/ length (selected_from queue sel i rounds) <= skip)%nat ->
  PrintQueue_loop queue sel rounds (Z.of_nat i) (Z.of_nat skip) (Z.of_nat n) = Some (take n (drop skip (selected_from queue sel i rounds))).
Proof.
  revert i skip n. induction rounds as [|rounds IH]; intros i skip n Hi Hn Hend.
  { change (selected_from queue sel i 0) with (@nil Z). by rewrite drop_nil, take_nil. }
  cbn [PrintQueue_loop]. rewrite MatchPosition_selected by lia. cbn [mbind option_bind]. replace (Z.of_nat i + 1) with (Z.of_nat (S i)) by lia.
  unfold selected_from in *. cbn [seq fmap list_fmap List.filter] in *. destruct (selected queue sel (Z.of_nat i)); cbn [negb]; [|by apply IH; [lia|..]].
  destruct skip as [|skip].
  - destruct n as [|n]; [cbn in Hend; lia|]. cbn [drop take]. destruct (Z.ltb_spec 0 (Z.of_nat 0)); [lia|].
    replace (Z.of_nat (S n) - 1) with (Z.of_nat n) by lia. rewrite u32_id by lia. destruct (Z.eqb_spec (Z.of_nat n) 0) as [En|En].
    + by replace n with 0%nat by lia.
    + rewrite (IH (S i) 0%nat n) by lia. done.
  - destruct (Z.ltb_spec 0 (Z.of_nat (S skip))); [|lia]. replace (Z.of_nat (S skip) - 1) with (Z.of_nat skip) by lia.
    cbn [drop]. apply IH; [lia|done|]. cbn in Hend. lia.
Qed.

Lemma length_matches queue sel : Z.of_nat (length (matches queue sel)) <= GetLength queue.
Proof.
  unfold matches, GetLength. etransitivity; [apply inj_le, List.filter_length_le|]. unfold positions. rewrite length_fmap, length_seq. lia.
Qed.

(** What is checked, and what is shown. *)
Definition checked_length queue sel : Z :=
  match q_sort sel with QSort DontSort => GetLength queue | _ => Z.of_nat (length (matches queue sel)) end.
Definition ordered queue sel : list Z :=
  match q_sort sel with QSort DontSort => matches queue sel | _ => stable_sort (compare_positions queue sel) (matches queue sel) end.
Definition shown queue sel : list Z :=
  let w := q_window sel in take (Z.to_nat (r_end w - r_start w)) (drop (Z.to_nat (r_start w)) (ordered queue sel)).

Lemma length_ordered queue sel : length (ordered queue sel) = length (matches queue sel).
Proof. unfold ordered. destruct (q_sort sel) as [[]|]; try done; by rewrite stable_sort_perm. Qed.

Definition window_ok sel : Prop := 0 <= r_start (q_window sel) < 2 ^ 32 /\ 0 <= r_end (q_window sel) < 2 ^ 32.

(** Clipping a window to a number that is no less than the number of elements. *)
Lemma clipped_window {A} (l : list A) w (count : Z) : Z.of_nat (length l) <= count -> 0 <= r_start w <= count ->
  let w' := if count <? r_end w then mkRangeArg (r_start w) count else w in
  take (Z.to_nat (r_end w' - r_start w')) (drop (Z.to_nat (r_start w')) l) = take (Z.to_nat (r_end w - r_start w)) (drop (Z.to_nat (r_start w)) l).
Proof.
  intros Hl Hs. cbn. destruct (Z.ltb_spec count (r_end w)) as [Hc|]; [|done]. cbn. rewrite !take_ge by (rewrite length_drop; lia). done.
Qed.

Lemma PrintQueue_positions_eq queue sel : window_ok sel -> GetLength queue < 2 ^ 32 ->
  PrintQueue_positions queue sel = Some (if checked_length queue sel <? r_start (q_window sel) then Throw BadRange else Ok (shown queue sel)).
Proof.
  intros [Hs He] Hlen. pose proof (length_matches queue sel) as Hm.
  assert (PrintSortedQueue queue sel = Some (if Z.of_nat (length (matches queue sel)) <? r_start (q_window sel) then Throw BadRange else
    Ok (let w := q_window sel in take (Z.to_nat (r_end w - r_start w)) (drop (Z.to_nat (r_start w)) (stable_sort (compare_positions queue sel) (matches queue sel)))))) as Hsorted.
  { unfold PrintSortedQueue. rewrite CollectQueue_eq. cbn [mbind option_bind]. unfold CheckClip. destruct (Z.ltb_spec (Z.of_nat (length (matches queue sel))) (r_start (q_window sel))); [done|].
    do 2 f_equal. apply (clipped_window _ (q_window sel) (Z.of_nat (length (matches queue sel)))); [by rewrite stable_sort_perm|lia]. }
  unfold PrintQueue_positions, checked_length, shown, ordered. destruct (q_sort sel) as [[]|]; try exact Hsorted. cbv zeta.
  unfold CheckClip. destruct (Z.ltb_spec (GetLength queue) (r_start (q_window sel))) as [|Hstart]; [done|].
  unfold RangeArg_IsEmpty. destruct (Z.leb_spec (r_end (q_window sel)) (r_start (q_window sel))) as [Hempty|Hwide].
  { replace (Z.to_nat (r_end (q_window sel) - r_start (q_window sel))) with 0%nat by lia. done. }
  set (w' := if GetLength queue <? r_end (q_window sel) then _ else _).
  assert (r_start w' = r_start (q_window sel)) as Es by (subst w'; destruct (GetLength queue <? _); reflexivity).
  assert (r_start (q_window sel) <= r_end w' <= GetLength queue) as Ee.
  { unfold w'. destruct (Z.ltb_spec (GetLength queue) (r_end (q_window sel))); cbn; lia. }
  assert (RangeArg_Count w' = r_end w' - r_start w') as Ec by (unfold RangeArg_Count; apply u32_id; lia).
  pose proof (PrintQueue_loop_eq queue sel (length (items queue)) 0 (Z.to_nat (r_start w')) (Z.to_nat (r_end w' - r_start w')) ltac:(lia) ltac:(lia)) as Hloop.
  rewrite !Z2Nat.id in Hloop by lia. change (Z.of_nat 0) with 0 in Hloop. rewrite Ec, Hloop.
  - cbn [mbind option_bind]. do 2 f_equal. apply (clipped_window (matches queue sel) (q_window sel) (GetLength queue)); lia.
  - change (selected_from queue sel 0 (length (items queue))) with (matches queue sel). unfold w' in *. destruct (Z.ltb_spec (GetLength queue) (r_end (q_window sel))); cbn in *; lia.
Qed.

Lemma matches_positions queue sel i : i ∈ matches queue sel -> i ∈ positions queue.
Proof. intros Hm. apply list_elem_of_In, List.filter_In in Hm as [Hm _]. by apply list_elem_of_In. Qed.

(** The positions shown are positions of the queue. *)
Lemma shown_positions queue sel i : i ∈ shown queue sel -> i ∈ positions queue.
Proof.
  intros Hi. assert (i ∈ ordered queue sel) as Ho by (by apply subseteq_take, subseteq_drop in Hi).
  apply (matches_positions queue sel).
  unfold ordered in Ho. destruct (q_sort sel) as [[]|]; try done; by rewrite stable_sort_perm in Ho.
Qed.

(** *** The order of the positions *)

Definition compare_items sel (a b : Item) : bool :=
  let '(a', b') := if q_descending sel then (b, a) else (a, b) in
  match q_sort sel with
  | QSort SORT_TAG_LAST_MODIFIED => d_mtime (i_song a') <? d_mtime (i_song b')
  | QSort SORT_TAG_ADDED => d_GetAdded (i_song a') <? d_GetAdded (i_song b')
  | SORT_TAG_PRIO => i_priority a' <? i_priority b'
  | QSort (SortBy type) => CompareTags type (q_descending sel) (d_tag (i_song a)) (d_tag (i_song b))
  | QSort DontSort => false
  end.
Definition compare_at queue sel (i j : Z) : bool := compare_items sel (item_at queue i) (item_at queue j).

Lemma compare_positions_at queue sel i j : i ∈ positions queue -> j ∈ positions queue -> compare_positions queue sel i j = compare_at queue sel i j.
Proof.
  intros Hi Hj. unfold positions in *. apply list_elem_of_fmap in Hi as (a & -> & Ha). apply list_elem_of_fmap in Hj as (b & -> & Hb).
  apply elem_of_seq in Ha, Hb. unfold compare_positions, compare_at, compare_items, Get, GetPriorityAtPosition.
  destruct (q_descending sel), (q_sort sel) as [[]|]; rewrite ?arr_get_item by lia; done.
Qed.

Lemma key_strict {A} (f : A -> Z) (rev : bool) : StrictWeakOn (fun a b => if rev then f b <? f a else f a <? f b) (fun _ => True).
Proof.
  split; intros *; destruct rev; rewrite ?Z.ltb_lt, ?Z.ltb_ge; lia.
Qed.

Lemma compare_items_strict sel : StrictWeakOn (compare_items sel) (fun _ => True).
Proof.
  destruct (q_sort sel) as [[| | |type]|] eqn:Es.
  - split; unfold compare_items; rewrite Es; by destruct (q_descending sel).
  - destruct (key_strict (fun i => d_mtime (i_song i)) (q_descending sel)) as [H1 H2].
    split; unfold compare_items; rewrite Es; destruct (q_descending sel); [exact H1|exact H1|exact H2|exact H2].
  - destruct (key_strict (fun i => d_GetAdded (i_song i)) (q_descending sel)) as [H1 H2].
    split; unfold compare_items; rewrite Es; destruct (q_descending sel); [exact H1|exact H1|exact H2|exact H2].
  - destruct (compare_songs_strict (mkSelection [] None RangeArg_All (SortBy type) (q_descending sel) false)) as [H1 H2].
    split; unfold compare_items; rewrite Es; cbn in *.
    + intros x y _ _. by destruct (q_descending sel); apply (H1 (i_song x) (i_song y)).
    + intros x y z _ _ _. by destruct (q_descending sel); apply (H2 (i_song x) (i_song y) (i_song z)).
  - destruct (key_strict i_priority (q_descending sel)) as [H1 H2].
    split; unfold compare_items; rewrite Es; destruct (q_descending sel); [exact H1|exact H1|exact H2|exact H2].
Qed.

#[local] Instance compare_at_strict queue sel : StrictWeakOn (compare_at queue sel) (fun _ => True).
Proof.
  destruct (compare_items_strict sel) as [H1 H2]. split; unfold compare_at.
  - intros x y _ _. by apply H1.
  - intros x y z _ _ _. by apply H2.
Qed.

Lemma ordered_spec queue sel :
  ordered queue sel ≡ₚ matches queue sel /\
  match q_sort sel with
  | QSort DontSort => ordered queue sel = matches queue sel
  | _ => sorted (compare_at queue sel) (ordered queue sel) /\
      forall f, equal_class (compare_at queue sel) f -> List.filter f (ordered queue sel) = List.filter f (matches queue sel)
  end.
Proof.
  assert (stable_sort (compare_positions queue sel) (matches queue sel) = stable_sort (compare_at queue sel) (matches queue sel)) as E.
  { apply stable_sort_ext. intros x y Hx Hy. apply compare_positions_at; by eapply matches_positions. }
  unfold ordered. rewrite E. destruct (q_sort sel) as [[]|]; (split; [by rewrite ?stable_sort_perm|]); try done;
    (split; [apply stable_sort_sorted, _|intros f; apply stable_sort_filter]).
Qed.
End Spec.

Lemma print_positions_defined `{FilterLibraries} `{Random} format_seconds mask queue l : (forall i, i ∈ l -> i ∈ positions queue) ->
  is_Some (print_positions format_seconds mask queue l).
Proof.
  induction l as [|i l IH]; intros Hl; [by eexists|]. cbn [print_positions].
  destruct IH as [b Hb]; [intros j Hj; apply Hl; by apply list_elem_of_further|].
  specialize (Hl i (list_elem_of_here _ _)). unfold positions in Hl. apply list_elem_of_fmap in Hl as (k & -> & Hk). apply elem_of_seq in Hk.
  unfold queue_print_song_info, Get, PositionToId, GetPriorityAtPosition. rewrite arr_get_item by lia. cbn. rewrite Hb. by eexists.
Qed.

Lemma PrintQueue_defined `{FilterLibraries} `{Random} format_seconds mask queue sel : window_ok sel -> GetLength queue < 2 ^ 32 ->
  is_Some (PrintQueue format_seconds mask queue sel).
Proof.
  intros Hw Hlen. unfold PrintQueue. rewrite PrintQueue_positions_eq by done. cbn [mbind option_bind]. destruct (_ <? _); [by eexists|].
  destruct (print_positions_defined format_seconds mask queue (shown queue sel) (shown_positions queue sel)) as [b ->]. by eexists.
Qed.

(** C33: "playlistfind" and "playlistsearch" show the window of the songs that
    match: in the order of the queue, or stably sorted; without a sort order
    only a window behind the end of the queue is refused, with one a window
    behind the last match. *)
Theorem PrintQueue_window `{FilterLibraries} `{Random} (queue : Queue) (sel : QueueSelection)
  (Hwindow : window_ok sel) (Hlength : GetLength queue < 2 ^ 32) :
  exists v, v ≡ₚ matches queue sel /\
    match q_sort sel with
    | QSort DontSort => v = matches queue sel
    | _ => sorted (compare_at queue sel) v /\
        forall f, equal_class (compare_at queue sel) f -> List.filter f v = List.filter f (matches queue sel)
    end /\
    let '(s, e) := (r_start (q_window sel), r_end (q_window sel)) in
    PrintQueue_positions queue sel =
      Some (if (match q_sort sel with QSort DontSort => GetLength queue | _ => Z.of_nat (length (matches queue sel)) end) <? s then Throw BadRange
            else Ok (take (Z.to_nat (e - s)) (drop (Z.to_nat s) v))).
Proof.
  destruct (ordered_spec queue sel) as [Hp Ho]. exists (ordered queue sel). split; [exact Hp|]. split; [exact Ho|].
  exact (PrintQueue_positions_eq queue sel Hwindow Hlength).
Qed.

(** The songs by descending priority, the first two of them. *)
Definition sample_selection : QueueSelection := mkQueueSelection None (mkRangeArg 0 2) SORT_TAG_PRIO true.

Lemma PrintQueue_window_witness : @PrintQueue_positions plain_libraries sample_random sample_queue sample_selection = Some (Ok [1; 0]) /\
  exists v, v ≡ₚ @matches plain_libraries sample_random sample_queue sample_selection /\
    (sorted (@compare_at sample_random sample_queue sample_selection) v /\
     forall f, equal_class (@compare_at sample_random sample_queue sample_selection) f ->
       List.filter f v = List.filter f (@matches plain_libraries sample_random sample_queue sample_selection)) /\
    @PrintQueue_positions plain_libraries sample_random sample_queue sample_selection =
      Some (if Z.of_nat (length (@matches plain_libraries sample_random sample_queue sample_selection)) <? 0 then Throw BadRange
            else Ok (take (Z.to_nat (2 - 0)) (drop (Z.to_nat 0) v))).
Proof.
  split; [vm_compute; reflexivity|].
  apply (@PrintQueue_window plain_libraries sample_random sample_queue sample_selection); [split; vm_compute; split; congruence|vm_compute; reflexivity].
Defined.
