(* ===== verification/Permission.v ===== *)
(** The permissions of clients: [Permission.hxx] and [Permission.cxx].  The
    parameters of the configuration file are a record; resolving the name of
    a host is a parameter.  In messages the format "{:?}" only adds quotes. *)
From stdpp Require Import gmap.
From S2P Require Import Prelude Text.
Open Scope Z_scope.

Definition PERMISSION_NONE : Z := 0.
Definition PERMISSION_READ : Z := 1.
Definition PERMISSION_ADD : Z := 2.
Definition PERMISSION_CONTROL : Z := 4.
Definition PERMISSION_ADMIN : Z := 8.
Definition PERMISSION_PLAYER : Z := 16.

Definition PERMISSION_PASSWORD_CHAR : byte := "@".
Definition PERMISSION_SEPARATOR : byte := ",".

Definition permission_names : list (bytes * Z) :=
  [(lit "read", PERMISSION_READ); (lit "add", PERMISSION_ADD); (lit "player", PERMISSION_PLAYER);
   (lit "control", PERMISSION_CONTROL); (lit "admin", PERMISSION_ADMIN)].

Fixpoint ParsePermission_from (names : list (bytes * Z)) (s : bytes) : result Z :=
  match names with
  | [] => Throw (lit "unknown permission " ++ [DQUOTE] ++ s ++ [DQUOTE])
  | (name, value) :: names => if s =b name then Ok value else ParsePermission_from names s
  end.
Definition ParsePermission : bytes -> result Z := ParsePermission_from permission_names.

Fixpoint parsePermissions_loop (l : list bytes) (permission : Z) : result Z :=
  match l with
  | [] => Ok permission
  | i :: l =>
      if bool_decide (i = []) then parsePermissions_loop l permission
      else let* value := ParsePermission i in parsePermissions_loop l (Z.lor permission value)
  end.
Definition parsePermissions (string : bytes) : result Z :=
  let* permission := parsePermissions_loop (IterableSplitString string PERMISSION_SEPARATOR) 0 in
  Ok (if Z.land permission PERMISSION_CONTROL =? 0 then permission else Z.lor permission PERMISSION_PLAYER).

(** The settings "password", "default_permissions", "local_permissions" and
    "host_permissions". *)
Record PermissionConfig := mkPermissionConfig {
  param_password : list bytes;
  param_default : option bytes;
  param_local : option bytes;
  param_host : list bytes
}.

(** The static variables. *)
Record Permissions := mkPermissions {
  permission_passwords : gmap bytes Z;
  permission_default : Z;
  local_permissions : Z;
  host_passwords : gmap bytes Z
}.

(** [std::map::emplace] keeps an entry that is there. *)
Definition emplace (key : bytes) (value : Z) (m : gmap bytes Z) : gmap bytes Z :=
  match m !! key with Some _ => m | None => <[key := value]> m end.

Section Init.
(** [Resolve] and [HostToString] *)
Context (Resolve : bytes -> result (list bytes)).

Fixpoint init_passwords (params : list bytes) (m : gmap bytes Z) : result (gmap bytes Z) :=
  match params with
  | [] => Ok m
  | value :: params =>
      match Split value PERMISSION_PASSWORD_CHAR with
      | (_, None) => Throw (lit "'@' not found in password string")
      | (password, Some permissions) => let* p := parsePermissions permissions in init_passwords params (emplace password p m)
      end
  end.

Fixpoint init_hosts (params : list bytes) (m : gmap bytes Z) : result (gmap bytes Z) :=
  match params with
  | [] => Ok m
  | value :: params =>
      let '(host, permissions) := Split value " " in
      let* p := parsePermissions (default [] permissions) in
      let* addresses := Resolve host in
      init_hosts params (fold_left (fun m i => emplace i p m) addresses m)
  end.

(** An option that may be absent. *)
Definition parse_or (o : option bytes) (absent : Z) : result Z :=
  match o with Some value => parsePermissions value | None => Ok absent end.

Definition initPermissions (config : PermissionConfig) : result Permissions :=
  let all := Z.lor PERMISSION_READ (Z.lor PERMISSION_ADD (Z.lor PERMISSION_PLAYER (Z.lor PERMISSION_CONTROL PERMISSION_ADMIN))) in
  let* passwords := init_passwords (param_password config) ∅ in
  let* def := parse_or (param_default config) (if bool_decide (param_password config = []) then all else 0) in
  let* local := parse_or (param_local config) def in
  let* hosts := init_hosts (param_host config) ∅ in
  Ok (mkPermissions passwords (if bool_decide (param_host config = []) then def else 0) local hosts).
End Init.

(** -1 if there is none *)
Definition GetPermissionsFromAddress (ps : Permissions) (address : bytes) : Z := default (-1) (host_passwords ps !! address).
Definition GetPermissionFromPassword (ps : Permissions) (password : bytes) : option Z := permission_passwords ps !! password.
Definition getDefaultPermissions : Permissions -> Z := permission_default.
Definition GetLocalPermissions : Permissions -> Z := local_permissions.

(** ** What the settings give *)

Definition permission_ok (p : Z) : Prop :=
  Z.land p 31 = p /\ (Z.testbit p 2 = true -> Z.testbit p 4 = true).

Lemma ParsePermission_bits s p : ParsePermission s = Ok p -> exists i, 0 <= i < 5 /\ p = 2 ^ i.
Proof.
  unfold ParsePermission, permission_names. cbn [ParsePermission_from].
  repeat (destruct (s =b _); [intros [= <-]; first [exists 0; by vm_compute|exists 1; by vm_compute|exists 2; by vm_compute|exists 3; by vm_compute|exists 4; by vm_compute]|]).
  done.
Qed.

Lemma land_31 p : 0 <= p < 32 -> Z.land p 31 = p.
Proof. intros Hp. change 31 with (Z.ones 5). rewrite Z.land_ones by lia. apply Z.mod_small. lia. Qed.

Lemma lor_small a b : 0 <= a < 32 -> 0 <= b < 32 -> 0 <= Z.lor a b < 32.
Proof.
  intros Ha Hb. split; [apply Z.lor_nonneg; lia|]. change 32 with (2 ^ 5). destruct (Z.eq_dec (Z.lor a b) 0) as [->|Hne]; [lia|].
  assert (0 < Z.lor a b) by (pose proof (proj2 (Z.lor_nonneg a b) ltac:(lia)); lia). apply Z.log2_lt_pow2; [done|].
  rewrite Z.log2_lor by lia. apply Z.max_lub_lt.
  - destruct (Z.eq_dec a 0) as [->|]; [by vm_compute|]. apply Z.log2_lt_pow2; lia.
  - destruct (Z.eq_dec b 0) as [->|]; [by vm_compute|]. apply Z.log2_lt_pow2; lia.
Qed.

Lemma parsePermissions_small l acc p : 0 <= acc < 32 -> parsePermissions_loop l acc = Ok p -> 0 <= p < 32.
Proof.
  revert acc. induction l as [|i l IH]; intros acc Hacc; cbn [parsePermissions_loop]; [by intros [= <-]|].
  destruct (bool_decide (i = [])); [by apply IH|]. destruct (ParsePermission i) as [v|e] eqn:E; [|done]. cbn.
  apply ParsePermission_bits in E as (k & Hk & ->). apply IH, lor_small; [done|]. split; [lia|]. change 32 with (2 ^ 5). apply Z.pow_lt_mono_r; lia.
Qed.

Lemma parsePermissions_ok s p : parsePermissions s = Ok p -> permission_ok p.
Proof.
  unfold parsePermissions. destruct (parsePermissions_loop _ 0) as [q|e] eqn:E; [|done]. cbn. apply parsePermissions_small in E; [|lia].
  destruct (Z.eqb_spec (Z.land q PERMISSION_CONTROL) 0) as [Hc|Hc]; intros [= <-].
  - split; [by apply land_31|]. intros Hb. exfalso. apply (f_equal (fun z => Z.testbit z 2)) in Hc. rewrite Z.land_spec, Hb in Hc. discriminate Hc.
  - split; [apply land_31, lor_small; [done|]; by vm_compute|]. intros _. rewrite Z.lor_spec. apply orb_true_r.
Qed.

Lemma emplace_lookup key value m k : emplace key value m !! k = match m !! k with Some v => Some v | None => if k =b key then Some value else None end.
Proof.
  unfold emplace. destruct (bytes_eqb_spec k key) as [->|Hne].
  - destruct (m !! key) eqn:E; [by rewrite E|]. by rewrite lookup_insert_eq.
  - destruct (m !! key) eqn:E; [by destruct (m !! k)|]. rewrite lookup_insert_ne by done. by destruct (m !! k).
Qed.

(** The first entry with a password is the one that counts. *)
Definition password_entry (password : bytes) (params : list bytes) : option bytes :=
  List.find (fun value => password =b fst (Split value PERMISSION_PASSWORD_CHAR)) params.

Lemma init_passwords_lookup params m m' password : init_passwords params m = Ok m' ->
  match m !! password, password_entry password params with
  | Some p, _ => m' !! password = Some p
  | None, Some value => exists permissions p, snd (Split value PERMISSION_PASSWORD_CHAR) = Some permissions /\
      parsePermissions permissions = Ok p /\ m' !! password = Some p
  | None, None => m' !! password = None
  end.
Proof.
  revert m. induction params as [|value params IH]; intros m; cbn [init_passwords].
  { intros [= <-]. by destruct (m !! password). }
  unfold password_entry. cbn [List.find]. destruct (Split value PERMISSION_PASSWORD_CHAR) as [pw [permissions|]] eqn:Es; [|done].
  destruct (parsePermissions permissions) as [p|e] eqn:Ep; [|done]. cbn [fst]. intros Hm. apply IH in Hm. rewrite emplace_lookup in Hm.
  destruct (m !! password); [done|]. destruct (password =b pw); [|done]. exists permissions, p. by rewrite Es.
Qed.

(** C34: A password gives the permissions of the first entry that has it; no
    other password gives any.  Every set of permissions has only the five
    permissions, and "control" implies "player". *)
Theorem initPermissions_spec (Resolve : bytes -> result (list bytes)) (config : PermissionConfig) (ps : Permissions)
  (Hinit : initPermissions Resolve config = Ok ps) :
  (forall password,
     match password_entry password (param_password config) with
     | Some value => exists permissions p, snd (Split value PERMISSION_PASSWORD_CHAR) = Some permissions /\
         parsePermissions permissions = Ok p /\ GetPermissionFromPassword ps password = Some p
     | None => GetPermissionFromPassword ps password = None
     end) /\
  (forall password p, GetPermissionFromPassword ps password = Some p -> permission_ok p) /\
  permission_ok (getDefaultPermissions ps) /\ permission_ok (GetLocalPermissions ps).
Proof.
  unfold initPermissions in Hinit. destruct (init_passwords _ ∅) as [m|e] eqn:Em; [|done]. cbn in Hinit.
  assert (forall o a p, permission_ok a -> parse_or o a = Ok p -> permission_ok p) as Hor.
  { intros [s|] a p Ha; cbn; [by apply parsePermissions_ok|by intros [= <-]]. }
  assert (permission_ok 31 /\ permission_ok 0) as [H31 H0].
  { split; (split; [reflexivity|]); [intros _; reflexivity|intros E; discriminate E]. }
  destruct (parse_or (param_default config) _) as [def|e] eqn:Ed; [|done]. cbn in Hinit. apply Hor in Ed; [|by destruct (bool_decide _)].
  destruct (parse_or (param_local config) def) as [local|e] eqn:El; [|done]. cbn in Hinit. apply Hor in El; [|done].
  destruct (init_hosts _ _ _) as [hosts|e]; [|done]. injection Hinit as <-. cbn.
  assert (forall password, match password_entry password (param_password config) with
     | Some value => exists permissions p, snd (Split value PERMISSION_PASSWORD_CHAR) = Some permissions /\ parsePermissions permissions = Ok p /\ m !! password = Some p
     | None => m !! password = None end) as Hpw.
  { intros password. exact (init_passwords_lookup _ _ _ password Em). }
  split; [exact Hpw|]. split; [|split; [by destruct (bool_decide _)|done]].
  intros password p Hp. unfold GetPermissionFromPassword in Hp. cbn in Hp. specialize (Hpw password). destruct (password_entry _ _) as [value|]; [|congruence].
  destruct Hpw as (permissions & p' & _ & Hpp & Hm). replace p with p' by congruence. by apply (parsePermissions_ok permissions).
Qed.

Definition sample_config : PermissionConfig :=
  mkPermissionConfig [lit "secret@read,add,control"; lit "guest@read"; lit "secret@admin"] (Some (lit "read")) None [].

Lemma initPermissions_spec_witness : exists ps, initPermissions (fun _ => Ok []) sample_config = Ok ps /\
  (forall password,
     match password_entry password (param_password sample_config) with
     | Some value => exists permissions p, snd (Split value PERMISSION_PASSWORD_CHAR) = Some permissions /\
         parsePermissions permissions = Ok p /\ GetPermissionFromPassword ps password = Some p
     | None => GetPermissionFromPassword ps password = None
     end) /\
  GetPermissionFromPassword ps (lit "secret") = Some 23 /\ getDefaultPermissions ps = 1 /\ GetLocalPermissions ps = 1.
Proof.
  destruct (initPermissions (fun _ => Ok []) sample_config) as [ps|e] eqn:E; [|vm_compute in E; discriminate E].
  destruct (initPermissions_spec (fun _ => Ok []) sample_config ps E) as [Hpw _].
  exists ps. split; [reflexivity|]. split; [exact Hpw|]. vm_compute in E. injection E as <-. split_and!; vm_compute; reflexivity.
Defined.

Definition sample_permissions : Permissions :=
  match initPermissions (fun _ => Ok []) sample_config with Ok ps => ps | Throw _ => mkPermissions ∅ 0 0 ∅ end.
