(* ===== verification/Tokenizer.v ===== *)
(** The words of a client's line: [util/Tokenizer.cxx].

    The class writes terminators into its buffer; the words it returns are
    parts of the buffer that it does not touch again, so they are values
    here.  A function takes the rest of the input (a C string) and returns
    the word, [None] at the end of the line, with the rest after it. *)
From S2P Require Import Prelude Text.
Open Scope Z_scope.

Module Tokenizer.

Definition valid_word_first_char (ch : byte) : bool := IsAlphaASCII ch.
Definition valid_word_char (ch : byte) : bool := IsAlphaNumericASCII ch || bool_decide (ch = "_"%char).
Definition valid_unquoted_char (ch : byte) : bool := (32 <? code ch) && negb (bool_decide (ch = DQUOTE)) && negb (bool_decide (ch = "'"%char)).

(** The loop of [NextWord] and [NextUnquoted] after the first character. *)
Fixpoint word_rest (valid : byte -> bool) (error : bytes) (input : bytes) : result (bytes * bytes) :=
  match input with
  | [] => Ok ([], [])
  | c :: input =>
      if IsWhitespaceOrNull c then Ok ([], StripLeft_c input)
      else if negb (valid c) then Throw error
      else let* (w, rest) := word_rest valid error input in Ok (c :: w, rest)
  end.

Definition NextWord (input : bytes) : result (option bytes * bytes) :=
  match input with
  | [] => Ok (None, [])
  | c :: input =>
      if negb (valid_word_first_char c) then Throw (lit "Letter expected")
      else let* (w, rest) := word_rest valid_word_char (lit "Invalid word character") input in Ok (Some (c :: w), rest)
  end.

Definition NextUnquoted (input : bytes) : result (option bytes * bytes) :=
  match input with
  | [] => Ok (None, [])
  | c :: input =>
      if negb (valid_unquoted_char c) then Throw (lit "Invalid unquoted character")
      else let* (w, rest) := word_rest valid_unquoted_char (lit "Invalid unquoted character") input in Ok (Some (c :: w), rest)
  end.

Definition BACKSLASH : byte := chr 92.
Definition MissingQuote : bytes := lit "Missing closing '" ++ [DQUOTE] ++ lit "'".

(** The characters up to the closing quote, and what follows it. *)
Fixpoint quoted_rest (input : bytes) : result (bytes * bytes) :=
  match input with
  | [] => Throw MissingQuote
  | c :: input =>
      if bool_decide (c = DQUOTE) then Ok ([], input)
      else if bool_decide (c = BACKSLASH) then
        match input with
        | [] => Throw MissingQuote
        | c :: input => let* (w, rest) := quoted_rest input in Ok (c :: w, rest)
        end
      else let* (w, rest) := quoted_rest input in Ok (c :: w, rest)
  end.

Definition NextString (input : bytes) : result (option bytes * bytes) :=
  match input with
  | [] => Ok (None, [])
  | c :: input =>
      if negb (bool_decide (c = DQUOTE)) then Throw (lit "'" ++ [DQUOTE] ++ lit "' expected")
      else
        let* (w, rest) := quoted_rest input in
        match rest with
        | [] => Ok (Some w, [])
        | c :: _ => if IsWhitespaceOrNull c then Ok (Some w, StripLeft_c rest)
                    else Throw (lit "Space expected after closing '" ++ [DQUOTE] ++ lit "'")
        end
  end.

Definition NextParam (input : bytes) : result (option bytes * bytes) :=
  match input with
  | c :: _ => if bool_decide (c = DQUOTE) then NextString input else NextUnquoted input
  | [] => NextUnquoted input
  end.

(** ** The rest gets shorter *)

Lemma StripLeft_c_le s : (length (StripLeft_c s) <= length s)%nat.
Proof. induction s as [|c s IH]; cbn; [lia|]. destruct (IsWhitespaceNotNull c); cbn; [|lia]. unfold StripLeft_c in IH. lia. Qed.

Lemma word_rest_shorter valid e input w rest : word_rest valid e input = Ok (w, rest) -> (length rest <= length input)%nat.
Proof.
  revert w rest. induction input as [|c input IH]; intros w rest; cbn; [by intros [= <- <-]|].
  destruct (IsWhitespaceOrNull c); [intros [= <- <-]; pose proof (StripLeft_c_le input); cbn; lia|].
  destruct (valid c); [|done]. cbn. destruct (word_rest valid e input) as [[w' r']|]; [|done]. intros [= <- <-]. specialize (IH _ _ eq_refl). lia.
Qed.

Lemma quoted_rest_shorter n input w rest : (length input <= n)%nat -> quoted_rest input = Ok (w, rest) -> (length rest <= length input)%nat.
Proof.
  revert input w rest. induction n as [|n IH]; intros input w rest Hn; destruct input as [|c input]; cbn [quoted_rest length] in *; try done; [lia|].
  destruct (bool_decide (c = DQUOTE)); [intros [= <- <-]; lia|]. destruct (bool_decide (c = BACKSLASH)).
  - destruct input as [|d input]; [done|]. cbn [length] in *. destruct (quoted_rest input) as [[w' r']|] eqn:E; [|done]. intros [= <- <-].
    pose proof (IH input _ _ ltac:(lia) E). lia.
  - destruct (quoted_rest input) as [[w' r']|] eqn:E; [|done]. intros [= <- <-]. pose proof (IH input _ _ ltac:(lia) E). lia.
Qed.

Lemma NextParam_shorter input w rest : NextParam input = Ok (Some w, rest) -> (length rest < length input)%nat.
Proof.
  destruct input as [|c input]; [done|]. cbn [NextParam]. destruct (bool_decide (c = DQUOTE)) eqn:Hq; cbn [NextString NextUnquoted].
  - rewrite Hq. cbn [negb]. destruct (quoted_rest input) as [wr|] eqn:E; [|done]. destruct wr as [w' r']. pose proof (quoted_rest_shorter _ _ _ _ (le_n _) E).
    cbn [rbind]. destruct r' as [|d r'']; [intros [= <- <-]; cbn; lia|]. destruct (IsWhitespaceOrNull d); [|done].
    intros [= <- <-]. pose proof (StripLeft_c_le (d :: r'')). cbn in *. lia.
  - destruct (valid_unquoted_char c); [|done]. cbn. destruct (word_rest _ _ input) as [[w' r']|] eqn:E; [|done]. intros [= <- <-].
    apply word_rest_shorter in E. lia.
Qed.

Lemma NextParam_end input rest : NextParam input = Ok (None, rest) -> input = [].
Proof.
  destruct input as [|c input]; [done|]. cbn [NextParam]. destruct (bool_decide (c = DQUOTE)) eqn:Hq; cbn [NextString NextUnquoted].
  - rewrite Hq. cbn [negb]. destruct (quoted_rest input) as [[w' r']|]; [|done]. cbn [rbind]. destruct r' as [|d r']; [done|]. by destruct (IsWhitespaceOrNull d).
  - destruct (valid_unquoted_char c); [|done]. cbn. by destruct (word_rest _ _ input) as [[w' r']|].
Qed.

(** ** Writing words: what a client has to send *)

Definition escape (c : byte) : bytes := if bool_decide (c = DQUOTE) || bool_decide (c = BACKSLASH) then [BACKSLASH; c] else [c].
Definition quote (w : bytes) : bytes := DQUOTE :: flat_map escape w ++ [DQUOTE].

(** Words that need no quotes. *)
Definition unquoted (w : bytes) : bool := match w with [] => false | _ => forallb valid_unquoted_char w end.

Lemma quoted_rest_escape w s : quoted_rest (flat_map escape w ++ DQUOTE :: s) = Ok (w, s).
Proof.
  assert (bool_decide (BACKSLASH = DQUOTE) = false) as E1 by done. assert (bool_decide (BACKSLASH = BACKSLASH) = true) as E2 by done.
  assert (bool_decide (DQUOTE = DQUOTE) = true) as E3 by done.
  induction w as [|c w IH]; cbn [flat_map app quoted_rest]; [by rewrite E3|]. unfold escape at 1.
  destruct (bool_decide (c = DQUOTE)) eqn:Hq; [|destruct (bool_decide (c = BACKSLASH)) eqn:Hb]; cbn [orb app quoted_rest].
  - rewrite E1, E2, IH. done.
  - rewrite E1, E2, IH. done.
  - rewrite Hq, Hb, IH. done.
Qed.

(** The rest of a line: nothing, or white space and the next words. *)
Definition separated (s : bytes) : bool := match s with [] => true | c :: _ => IsWhitespaceNotNull c end.

Lemma whitespace_fast c : IsWhitespaceNotNull c = true -> IsWhitespaceOrNull c = true.
Proof. destruct c as [[] [] [] [] [] [] [] []]; vm_compute; done. Qed.
Lemma unquoted_not_space c : valid_unquoted_char c = true -> IsWhitespaceOrNull c = false.
Proof. destruct c as [[] [] [] [] [] [] [] []]; vm_compute; done. Qed.
Lemma word_not_space c : valid_word_char c = true -> IsWhitespaceOrNull c = false.
Proof. destruct c as [[] [] [] [] [] [] [] []]; vm_compute; done. Qed.

Lemma NextParam_quote w s : separated s = true -> NextParam (quote w ++ s) = Ok (Some w, StripLeft_c s).
Proof.
  intros Hs. unfold quote. cbn [app NextParam NextString]. rewrite bool_decide_eq_true_2 by done. cbn [negb].
  rewrite <- app_assoc. cbn [app]. rewrite quoted_rest_escape. cbn. destruct s as [|c s]; [done|]. cbn in Hs. by rewrite (whitespace_fast c Hs).
Qed.

Lemma word_rest_valid valid e w s : (forall c, valid c = true -> IsWhitespaceOrNull c = false) -> forallb valid w = true -> separated s = true ->
  word_rest valid e (w ++ s) = Ok (w, StripLeft_c s).
Proof.
  intros Hv Hw Hs. induction w as [|c w IH]; cbn [app].
  - destruct s as [|c s]; [done|]. cbn in Hs |- *. rewrite (whitespace_fast c Hs). unfold StripLeft_c. cbn. by rewrite Hs.
  - cbn in Hw |- *. apply andb_true_iff in Hw as [Hc Hw]. by rewrite (Hv c Hc), Hc, IH.
Qed.

Lemma NextParam_unquoted w s : unquoted w = true -> separated s = true -> NextParam (w ++ s) = Ok (Some w, StripLeft_c s).
Proof.
  destruct w as [|c w]; [done|]. intros Hw Hs. cbn [unquoted forallb app NextParam NextUnquoted] in *. apply andb_true_iff in Hw as [Hc Hw].
  destruct (bool_decide (c = DQUOTE)) eqn:Hq; [apply bool_decide_eq_true in Hq as ->; done|].
  rewrite Hc. cbn. by rewrite (word_rest_valid _ _ w s unquoted_not_space Hw Hs).
Qed.

Lemma NextWord_valid c w s : valid_word_first_char c = true -> forallb valid_word_char w = true -> separated s = true ->
  NextWord ((c :: w) ++ s) = Ok (Some (c :: w), StripLeft_c s).
Proof. intros Hc Hw Hs. cbn. rewrite Hc. cbn. by rewrite (word_rest_valid _ _ w s word_not_space Hw Hs). Qed.

End Tokenizer.
