(* ===== verification/ArgParser.v ===== *)
(** The arguments of commands: [protocol/ArgParser.cxx], and the times of
    [Chrono.hxx] that come from a [float].

    A [float] is a [spec_float] rounded to binary32 (24 bits, emax 128). *)
From S2P Require Import Prelude Text Chrono RangeArg.
From Stdlib Require Import SpecFloat.
Open Scope Z_scope.

(** ** float *)

Notation float := spec_float (only parsing).

Definition f_of_Z (n : Z) : float := binary_normalize 24 128 n 0 false.
Definition f_mul (a b : float) : float := SFmul 24 128 a b.
(** [a < 0] *)
Definition f_negative (a : float) : bool := SFltb a (f_of_Z 0).

Definition f_decimal (s : bool) (m : Z) (e : Z) : float :=
  match m with
  | Z.pos p =>
      if 0 <=? e then binary_normalize 24 128 (if s then - (m * 10 ^ e) else m * 10 ^ e) 0 s
      else match 10 ^ (- e) with
           | Z.pos q => SFdiv 24 128 (S754_finite s p 0) (S754_finite false q 0)
           | _ => S754_nan
           end
  | _ => S754_zero s
  end.

(** What follows an exponent; a mark without digits is not read. *)
Definition exponent_end (mark : byte) (s : bytes) : bytes :=
  match s with
  | c :: s' =>
      if bool_decide (ToLowerASCII c = mark) then
        let s2 :=
          match s' with
          | d :: s'' => if bool_decide (d = "-"%char) || bool_decide (d = "+"%char) then s'' else s'
          | [] => []
          end in
        if starts_digit s2 then snd (scan_digits 0 s2) else s
      else s
  | [] => []
  end.

(** What follows "nan": a parenthesised sequence of letters and digits. *)
Definition nan_end (s : bytes) : bytes :=
  match s with
  | c :: s' =>
      if bool_decide (c = "("%char) then
        match drop_while (fun c => IsAlphaNumericASCII c || bool_decide (c = "_"%char)) s' with
        | c :: s'' => if bool_decide (c = ")"%char) then s'' else s
        | [] => s
        end
      else s
  | [] => []
  end.

(** [strtof(s, &end)]: the value and the rest, which is [s] when there is no
    number. *)
Definition strtof (s : bytes) : float * bytes :=
  let s1 := drop_while isspace s in
  let '(neg, s2) :=
    match s1 with
    | c :: s' => if bool_decide (c = "-"%char) then (true, s')
                 else if bool_decide (c = "+"%char) then (false, s') else (false, s1)
    | [] => (false, [])
    end in
  let low := map ToLowerASCII s2 in
  if starts_with low (lit "infinity") then (S754_infinity neg, drop 8 s2)
  else if starts_with low (lit "inf") then (S754_infinity neg, drop 3 s2)
  else if starts_with low (lit "nan") then (S754_nan, nan_end (drop 3 s2))
  else
    let '(hm, hk, hany, hr) := scan_mantissa hex_digit 16 (drop 2 s2) in
    if starts_with low (lit "0x") && hany then
      (binary_normalize 24 128 (if neg then - hm else hm) (scan_exponent "p" hr - 4 * Z.of_nat hk) neg, exponent_end "p" hr)
    else
      let '(m, k, any, r) := scan_mantissa dec_digit 10 s2 in
      if any then (f_decimal neg m (scan_exponent "e" r - Z.of_nat k), exponent_end "e" r) else (S754_zero false, s).

Definition ParseFloat (p : bytes) : float * bytes := strtof p.

(** [uint32_t(f)]: where it is undefined in C++ the value is the low half
    of what the x86-64 [cvttss2si] instruction returns. *)
Definition f_to_u32 (f : float) : Z :=
  match d_trunc f with
  | Some v => if (- 2 ^ 63 <=? v) && (v <? 2 ^ 63) then u32 v else 0
  | None => 0
  end.

(** [float] to [double] *)
Definition f_to_d (f : spec_float) : spec_float :=
  match f with S754_finite s m e => binary_normalize 53 1024 (if s then Z.neg m else Z.pos m) e s | _ => f end.

(** [SongTime::FromS(float)] and [SignedSongTime::FromS(float)] *)
Definition SongTime_FromS (s : float) : Z := f_to_u32 (f_mul s (f_of_Z 1000)).
Definition SignedSongTime_FromS_float (s : float) : Z := d_to_s32 (f_mul s (f_of_Z 1000)).

(** ** ArgParser.cxx *)

(** [FmtBuffer<256>] *)
Definition MakeArgError (msg value : bytes) : bytes := take 255 (msg ++ lit ": " ++ value).

Definition INT_MAX : Z := 2 ^ 31 - 1.
Definition UINT_MAX : Z := 2 ^ 32 - 1.

(** The checks [test == s] and [*test != 0] after [strto*]. *)
Definition number_end (s test : bytes) : bool := negb (bool_decide (test = s)) && bool_decide (test = []).

Definition ParseCommandArgU32 (s : bytes) : result Z :=
  let '(value, test) := strtoull s in
  if negb (number_end s test) then Throw (MakeArgError (lit "Integer expected") s) else Ok (u32 value).

Definition ParseCommandArgInt (s : bytes) (min_value max_value : Z) : result Z :=
  let '(value, test) := strtol s in
  if negb (number_end s test) then Throw (MakeArgError (lit "Integer expected") s)
  else if (value <? min_value) || (max_value <? value) then Throw (MakeArgError (lit "Number too large") s)
  else Ok value.

Definition ParseCommandArgRange (s : bytes) : result RangeArg :=
  let '(value, test) := strtol s in
  let colon := match test with c :: _ => bool_decide (c = ":"%char) | [] => false end in
  if bool_decide (test = s) || (negb (bool_decide (test = [])) && negb colon) then Throw (MakeArgError (lit "Integer or range expected") s)
  else if (value =? -1) && bool_decide (test = []) then Ok RangeArg_All
  else if value <? 0 then Throw (MakeArgError (lit "Number is negative") s)
  else if INT_MAX <? value then Throw (MakeArgError (lit "Number too large") s)
  else if colon then
    let test := drop 1 test in
    let '(end_, test2) := strtol test in
    if negb (bool_decide (test2 = [])) then Throw (MakeArgError (lit "Integer or range expected") s)
    else if bool_decide (test = test2) then Ok (OpenEnded value)
    else if end_ <? 0 then Throw (MakeArgError (lit "Number is negative") s)
    else if INT_MAX <? end_ then Throw (MakeArgError (lit "Number too large") s)
    else if negb (IsWellFormed (mkRangeArg value end_)) then Throw (MakeArgError (lit "Malformed range") s)
    else Ok (mkRangeArg value end_)
  else Ok (RangeArg_Single value).

Definition ParseCommandArgUnsigned (s : bytes) (max_value : Z) : result Z :=
  let '(value, endptr) := strtoull s in
  if negb (number_end s endptr) then Throw (MakeArgError (lit "Integer expected") s)
  else if max_value <? value then Throw (MakeArgError (lit "Number too large") s)
  else Ok value.

Definition ParseCommandArgBool (s : bytes) : result bool :=
  let '(value, endptr) := strtol s in
  if negb (number_end s endptr) || (negb (value =? 0) && negb (value =? 1)) then Throw (MakeArgError (lit "Boolean (0/1) expected") s)
  else Ok (negb (value =? 0)).

Definition ParseCommandArgFloat (s : bytes) : result float :=
  let '(value, endptr) := ParseFloat s in
  if negb (number_end s endptr) then Throw (MakeArgError (lit "Float expected") s) else Ok value.

Definition ParseCommandArgSongTime (s : bytes) : result Z :=
  let* value := ParseCommandArgFloat s in
  if f_negative value then Throw (MakeArgError (lit "Negative value not allowed") s) else Ok (SongTime_FromS value).

Definition ParseCommandArgSignedSongTime (s : bytes) : result Z :=
  let* value := ParseCommandArgFloat s in Ok (SignedSongTime_FromS_float value).

(** [parse_time_range] (command/QueueCommands.cxx): the two times, unless the
    text is malformed. *)
Definition parse_time_range (p : bytes) : option (Z * Z) :=
  let '(start, endptr) := ParseFloat p in
  match endptr with
  | c :: p' =>
      if negb (bool_decide (c = ":"%char)) || f_negative start then None
      else
        let start_r := if bool_decide (endptr = p) then 0 else SongTime_FromS start in
        let '(end_, endptr) := ParseFloat p' in
        if negb (bool_decide (endptr = [])) || f_negative end_ then None
        else
          let end_r := if bool_decide (endptr = p') then 0 else SongTime_FromS end_ in
          if (end_r =? 0) || (start_r <? end_r) then Some (start_r, end_r) else None
  | [] => None
  end.

(** ** Lemmas *)

Lemma parse_time_range_ok p start end_ : parse_time_range p = Some (start, end_) -> (end_ =? 0) || (start <? end_) = true.
Proof.
  unfold parse_time_range. destruct (ParseFloat p) as [v1 [|c p']]; [done|]. destruct (_ || f_negative v1); [done|].
  destruct (ParseFloat p') as [v2 rest]. destruct (_ || f_negative v2); [done|]. cbv zeta. intros Hr.
  match type of Hr with (if ?b then _ else _) = _ => destruct b eqn:E; [|done] end. injection Hr as <- <-. exact E.
Qed.

Lemma scan_digits_nonneg s acc : 0 <= acc -> 0 <= fst (scan_digits acc s).
Proof.
  revert acc. induction s as [|c s IH]; intros acc Ha; cbn; [done|]. destruct (IsDigitASCII c) eqn:Hc; [|done]. apply IH.
  unfold IsDigitASCII, in_range in Hc. apply andb_true_iff in Hc as [Hc _]. apply Z.leb_le in Hc. unfold digit_value. lia.
Qed.

Lemma scan_integer_nonneg s n v r : scan_integer s = Some (n, v, r) -> 0 <= v.
Proof.
  unfold scan_integer. destruct (match drop_while isspace s with [] => _ | _ :: _ => _ end) as [neg s2].
  destruct (starts_digit s2); [|done]. pose proof (scan_digits_nonneg s2 0 ltac:(lia)). destruct (scan_digits 0 s2). by intros [= _ <- _].
Qed.

Lemma strtoull_bounds s : 0 <= fst (strtoull s) < 2 ^ 64.
Proof.
  unfold strtoull. destruct (scan_integer s) as [[[neg v] r]|] eqn:E; [|cbn; lia]. pose proof (scan_integer_nonneg _ _ _ _ E).
  cbn [fst]. destruct (Z.leb_spec (2 ^ 64) v); [lia|]. destruct neg; [|lia]. unfold u64, wrap_u. apply Z.mod_pos_bound. lia.
Qed.

Lemma ParseCommandArgUnsigned_bounds s max n : ParseCommandArgUnsigned s max = Ok n -> 0 <= n <= max.
Proof.
  unfold ParseCommandArgUnsigned. pose proof (strtoull_bounds s). destruct (strtoull s) as [v e]. destruct (negb _); [done|].
  destruct (Z.ltb_spec max v); [done|]. intros [= <-]. cbn in *. lia.
Qed.

(** A range that a client may give: it has a start, and an end that is not
    before it. *)
Definition client_range (r : RangeArg) : bool := (0 <=? r_start r) && (r_start r <=? INT_MAX) && (r_start r <=? r_end r) && (IsOpenEnded r || (r_end r <=? 2 ^ 31)).

Lemma ParseCommandArgRange_ok s r : ParseCommandArgRange s = Ok r -> client_range r = true.
Proof.
  unfold ParseCommandArgRange, client_range, IsOpenEnded, RangeArg_All, OpenEnded, RangeArg_Single, IsWellFormed, INT_MAX.
  destruct (strtol s) as [v test]. destruct (_ || _); [done|]. destruct (_ && bool_decide (test = [])); [by intros [= <-]|].
  destruct (Z.ltb_spec v 0); [done|]. destruct (Z.ltb_spec (2 ^ 31 - 1) v); [done|].
  destruct (match test with [] => _ | _ :: _ => _ end).
  - destruct (strtol (drop 1 test)) as [e test2]. destruct (negb _); [done|]. destruct (bool_decide _); cbn.
    { intros [= <-]. cbn. rewrite !andb_true_iff, orb_true_iff, !Z.leb_le, Z.eqb_eq. lia. }
    destruct (Z.ltb_spec e 0); [done|]. destruct (Z.ltb_spec (2 ^ 31 - 1) e); [done|]. cbn. destruct (Z.leb_spec v e); [|done].
    intros [= <-]. cbn. rewrite !andb_true_iff, orb_true_iff, !Z.leb_le, Z.eqb_eq. lia.
  - intros [= <-]. cbn. unfold u32, wrap_u. rewrite Z.mod_small by lia. rewrite !andb_true_iff, orb_true_iff, !Z.leb_le, Z.eqb_eq. lia.
Qed.

Lemma print_nat_ne n s : 0 <= n -> bool_decide (s = print_nat n ++ s) = false.
Proof.
  intros Hn. apply bool_decide_eq_false_2. intros E. apply (f_equal length) in E. rewrite length_app in E.
  destruct (print_nat_digits n Hn) as [Hne _]. destruct (print_nat n); [done|]. cbn in E. lia.
Qed.

(** What the range argument reads: a position, "START:", "START:END". *)
Lemma ParseCommandArgRange_single n : 0 <= n < 2 ^ 63 ->
  ParseCommandArgRange (print_nat n) = if INT_MAX <? n then Throw (MakeArgError (lit "Number too large") (print_nat n)) else Ok (RangeArg_Single n).
Proof.
  intros Hn. pose proof (strtol_print n [] Hn eq_refl) as E. rewrite app_nil_r in E. pose proof (print_nat_ne n [] ltac:(lia)) as Hne. rewrite app_nil_r in Hne.
  unfold ParseCommandArgRange. rewrite E, Hne. rewrite (bool_decide_eq_true_2 ([] = [])) by done. cbn [orb andb negb].
  destruct (Z.eqb_spec n (-1)); [lia|]. destruct (Z.ltb_spec n 0); [lia|]. done.
Qed.

Lemma ParseCommandArgRange_open n : 0 <= n < 2 ^ 63 ->
  ParseCommandArgRange (print_nat n ++ lit ":") = if INT_MAX <? n then Throw (MakeArgError (lit "Number too large") (print_nat n ++ lit ":")) else Ok (OpenEnded n).
Proof.
  intros Hn. pose proof (strtol_print n (lit ":") Hn eq_refl) as E. pose proof (print_nat_ne n (lit ":") ltac:(lia)) as Hne.
  unfold ParseCommandArgRange. rewrite E, Hne. cbn [lit String.list_ascii_of_string orb]. rewrite (bool_decide_eq_false_2 ([":"%char] = [])), (bool_decide_eq_true_2 (":"%char = ":"%char)) by done.
  rewrite !andb_false_r. cbn [negb andb]. destruct (Z.ltb_spec n 0); [lia|]. by destruct (Z.ltb_spec INT_MAX n).
Qed.

Lemma ParseCommandArgRange_range n m : 0 <= n < 2 ^ 63 -> 0 <= m < 2 ^ 63 ->
  match ParseCommandArgRange (print_nat n ++ lit ":" ++ print_nat m) with
  | Ok r => n <= m <= INT_MAX /\ r = mkRangeArg n m
  | Throw _ => INT_MAX < n \/ INT_MAX < m \/ m < n
  end.
Proof.
  intros Hn Hm. pose proof (strtol_print n (lit ":" ++ print_nat m) Hn eq_refl) as E. pose proof (print_nat_ne n (lit ":" ++ print_nat m) ltac:(lia)) as Hne.
  pose proof (strtol_print m [] Hm eq_refl) as E2. rewrite app_nil_r in E2. pose proof (print_nat_ne m [] ltac:(lia)) as Hne2. rewrite app_nil_r in Hne2.
  unfold ParseCommandArgRange. rewrite E, Hne. cbn [lit String.list_ascii_of_string orb app].
  rewrite (bool_decide_eq_false_2 ((":"%char :: print_nat m) = [])), (bool_decide_eq_true_2 (":"%char = ":"%char)) by done. rewrite !andb_false_r. cbn [negb andb drop].
  destruct (Z.ltb_spec n 0); [lia|]. destruct (Z.ltb_spec INT_MAX n); [lia|]. rewrite !drop_0. rewrite E2. rewrite (bool_decide_eq_true_2 ([] = [])) by done. cbn [negb].
  rewrite (bool_decide_eq_false_2 (print_nat m = [])) by (intros Hnil; destruct (print_nat_digits m ltac:(lia)); congruence).
  destruct (Z.ltb_spec m 0); [lia|]. destruct (Z.ltb_spec INT_MAX m); [lia|]. unfold IsWellFormed. cbn. destruct (Z.leb_spec n m); [split; [lia|done]|cbn; lia].
Qed.
