(* ===== verification/Client.v ===== *)
(** The clients of a partition: [src/client] ([Client.hxx], [Idle.cxx],
    [Message.cxx], [Subscribe.cxx], [Write.cxx], [Expire.cxx], [Response.cxx],
    [Event.cxx]), [command/CommandListBuilder] and [protocol/IdleFlags.cxx].

    A computation runs for one client ([self]) of a partition, takes the
    partition and gives the new one with a value or an exception, or [None]
    where an assertion of the code fails.  A client that was deleted stays in
    the list, marked [deleted]. *)
From S2P Require Import Arrays Text Tags Uri SongSort RangeArg Queue PlayControl.
Open Scope Z_scope.

(** ** Idle flags (protocol/IdleFlags) *)

Definition IDLE_PLAYLIST : Z := 0x4.
Definition IDLE_PLAYER : Z := 0x8.
Definition IDLE_MIXER : Z := 0x10.
Definition IDLE_OUTPUT : Z := 0x20.
Definition IDLE_OPTIONS : Z := 0x40.
Definition IDLE_SUBSCRIPTION : Z := 0x200.
Definition IDLE_MESSAGE : Z := 0x400.

Definition idle_names : list bytes := List.map lit
  ["database"; "stored_playlist"; "playlist"; "player"; "mixer"; "output"; "options"; "sticker"; "update"; "subscription";
   "message"; "neighbor"; "mount"; "partition"]%string.

Fixpoint idle_parse_from (names : list bytes) (i : Z) (name : bytes) : Z :=
  match names with
  | [] => 0
  | n :: names => if StringIsEqualIgnoreCase name n then Z.shiftl 1 i else idle_parse_from names (i + 1) name
  end.
Definition idle_parse_name (name : bytes) : Z := idle_parse_from idle_names 0 name.

(** ** The state of a client (Client.hxx, CommandListBuilder.hxx) *)

(** [cmd_mode] is [None] where no list is being built, otherwise the "list_OK"
    mode; [timeout] says that the timer is running; [output] is everything
    that was written to the socket. *)
Record Client := mkClient {
  permission : Z;
  uid : Z;
  cmd_mode : option bool;
  cmd_list : list bytes;
  cmd_size : Z;
  idle_waiting : bool;
  idle_flags : Z;
  idle_subscriptions : Z;
  tag_mask : Z;
  binary_limit : Z;
  subscriptions : list bytes;
  num_subscriptions : Z;
  messages : list (bytes * bytes);
  timeout : bool;
  expired : bool;
  deleted : bool;
  output : bytes;
  protocol_feature : Z
}.

Definition Client_new (_uid _permission : Z) : Client :=
  mkClient _permission _uid None [] 0 false 0 0 TagMask_All 8192 [] 0 [] true false false [] 0.

Definition set_permission (x : Z) (c : Client) : Client :=
  mkClient x (uid c) (cmd_mode c) (cmd_list c) (cmd_size c) (idle_waiting c) (idle_flags c) (idle_subscriptions c) (tag_mask c) (binary_limit c)
    (subscriptions c) (num_subscriptions c) (messages c) (timeout c) (expired c) (deleted c) (output c) (protocol_feature c).
Definition set_cmd (m : option bool) (l : list bytes) (n : Z) (c : Client) : Client :=
  mkClient (permission c) (uid c) m l n (idle_waiting c) (idle_flags c) (idle_subscriptions c) (tag_mask c) (binary_limit c)
    (subscriptions c) (num_subscriptions c) (messages c) (timeout c) (expired c) (deleted c) (output c) (protocol_feature c).
Definition set_idle (waiting : bool) (flags subs : Z) (c : Client) : Client :=
  mkClient (permission c) (uid c) (cmd_mode c) (cmd_list c) (cmd_size c) waiting flags subs (tag_mask c) (binary_limit c)
    (subscriptions c) (num_subscriptions c) (messages c) (timeout c) (expired c) (deleted c) (output c) (protocol_feature c).
Definition set_tag_mask (x : Z) (c : Client) : Client :=
  mkClient (permission c) (uid c) (cmd_mode c) (cmd_list c) (cmd_size c) (idle_waiting c) (idle_flags c) (idle_subscriptions c) x (binary_limit c)
    (subscriptions c) (num_subscriptions c) (messages c) (timeout c) (expired c) (deleted c) (output c) (protocol_feature c).
Definition set_binary_limit (x : Z) (c : Client) : Client :=
  mkClient (permission c) (uid c) (cmd_mode c) (cmd_list c) (cmd_size c) (idle_waiting c) (idle_flags c) (idle_subscriptions c) (tag_mask c) x
    (subscriptions c) (num_subscriptions c) (messages c) (timeout c) (expired c) (deleted c) (output c) (protocol_feature c).
Definition set_subscriptions (l : list bytes) (n : Z) (c : Client) : Client :=
  mkClient (permission c) (uid c) (cmd_mode c) (cmd_list c) (cmd_size c) (idle_waiting c) (idle_flags c) (idle_subscriptions c) (tag_mask c) (binary_limit c)
    l n (messages c) (timeout c) (expired c) (deleted c) (output c) (protocol_feature c).
Definition set_messages (x : list (bytes * bytes)) (c : Client) : Client :=
  mkClient (permission c) (uid c) (cmd_mode c) (cmd_list c) (cmd_size c) (idle_waiting c) (idle_flags c) (idle_subscriptions c) (tag_mask c) (binary_limit c)
    (subscriptions c) (num_subscriptions c) x (timeout c) (expired c) (deleted c) (output c) (protocol_feature c).
Definition set_timeout (x : bool) (c : Client) : Client :=
  mkClient (permission c) (uid c) (cmd_mode c) (cmd_list c) (cmd_size c) (idle_waiting c) (idle_flags c) (idle_subscriptions c) (tag_mask c) (binary_limit c)
    (subscriptions c) (num_subscriptions c) (messages c) x (expired c) (deleted c) (output c) (protocol_feature c).
(** The socket: [expired], [deleted], [output]. *)
Definition set_socket (e d : bool) (o : bytes) (c : Client) : Client :=
  mkClient (permission c) (uid c) (cmd_mode c) (cmd_list c) (cmd_size c) (idle_waiting c) (idle_flags c) (idle_subscriptions c) (tag_mask c) (binary_limit c)
    (subscriptions c) (num_subscriptions c) (messages c) (timeout c) e d o (protocol_feature c).
Definition set_protocol_feature (x : Z) (c : Client) : Client :=
  mkClient (permission c) (uid c) (cmd_mode c) (cmd_list c) (cmd_size c) (idle_waiting c) (idle_flags c) (idle_subscriptions c) (tag_mask c) (binary_limit c)
    (subscriptions c) (num_subscriptions c) (messages c) (timeout c) (expired c) (deleted c) (output c) x.

Definition IsExpired (c : Client) : bool := expired c.
Definition IsLocal (c : Client) : bool := 0 <=? uid c.

(** *** Expire.cxx, Event.cxx, New.cxx *)

Definition SetExpired (c : Client) : Client := if IsExpired c then c else set_timeout true (set_socket true (deleted c) (output c) c).
(** [delete this] *)
Definition Close (c : Client) : Client := set_socket true true (output c) c.
(** It asserts that the client is not waiting for events. *)
Definition OnTimeout (c : Client) : option Client := if negb (IsExpired c) && idle_waiting c then None else Some (Close c).

(** *** CommandListBuilder *)

Definition IsActive (c : Client) : bool := match cmd_mode c with None => false | Some _ => true end.
Definition cmd_Begin (ok : bool) (c : Client) : option Client :=
  if IsActive c || negb (bool_decide (cmd_list c = [])) then None else Some (set_cmd (Some ok) (cmd_list c) 0 c).
Definition cmd_Reset (c : Client) : Client := set_cmd None [] (cmd_size c) c.
(** The new state, and whether the list was not full. *)
Definition cmd_Add (client_max_command_list_size : Z) (cmd : bytes) (c : Client) : bool * Client :=
  let size := cmd_size c + Z.of_nat (length cmd) + 1 in
  if client_max_command_list_size <? size then (false, set_cmd (cmd_mode c) (cmd_list c) size c)
  else (true, set_cmd (cmd_mode c) (cmd_list c ++ [cmd]) size c).

(** *** Message.cxx, Subscribe.cxx *)

Definition valid_channel_char (ch : byte) : bool :=
  IsAlphaNumericASCII ch || bool_decide (ch = "_"%char) || bool_decide (ch = "-"%char) || bool_decide (ch = "."%char) || bool_decide (ch = ":"%char).
(** [do ... while]: the first character is looked at even if it is the
    terminator. *)
Definition client_message_valid_channel_name (name : bytes) : bool :=
  match name with [] => valid_channel_char NUL | _ => forallb valid_channel_char name end.

(** [std::set<std::string>] *)
Fixpoint set_insert (x : bytes) (l : list bytes) : list bytes :=
  match l with
  | [] => [x]
  | y :: l' => if strcmp x y <? 0 then x :: l else if x =b y then l else y :: set_insert x l'
  end.
Definition set_mem (x : bytes) (l : list bytes) : bool := existsb (fun y => x =b y) l.
Definition set_erase (x : bytes) (l : list bytes) : list bytes := List.filter (fun y => negb (x =b y)) l.

Definition MAX_SUBSCRIPTIONS : Z := 16.
Definition MAX_MESSAGES : Z := 64.
Definition IsSubscribed (channel : bytes) (c : Client) : bool := set_mem channel (subscriptions c).

Inductive SubscribeResult := SUBSCRIBE_OK | SUBSCRIBE_INVALID | SUBSCRIBE_ALREADY | SUBSCRIBE_FULL.

(** *** Responses and the "idle" mode (Idle.cxx, Write.cxx)

    The socket buffers what is written, and may refuse data because the buffer
    is full or the peer is gone: [refuses sent data]. *)

Section Output.
Context (refuses : bytes -> bytes -> bool).

Definition Write (s : bytes) (c : Client) : Client :=
  if IsExpired c || bool_decide (s = []) then c
  else if refuses (output c) s then SetExpired c
  else set_socket (expired c) (deleted c) (output c ++ s) c.

Fixpoint idle_lines (names : list bytes) (i : Z) (flags : Z) : list bytes :=
  match names with
  | [] => []
  | n :: names => (if Z.testbit flags i then [lit "changed: " ++ n ++ [LF]] else []) ++ idle_lines names (i + 1) flags
  end.
Definition WriteIdleResponse (flags : Z) (c : Client) : Client :=
  Write (lit "OK" ++ [LF]) (fold_left (fun c l => Write l c) (idle_lines idle_names 0 flags) c).

Definition IdleNotify (c : Client) : option Client :=
  let flags := Z.land (idle_flags c) (idle_subscriptions c) in
  if negb (idle_waiting c) || (flags =? 0) then None
  else Some (set_timeout true (WriteIdleResponse flags (set_idle false (Z.ldiff (idle_flags c) (idle_subscriptions c)) (idle_subscriptions c) c))).

Definition IdleAdd (flags : Z) (c : Client) : option Client :=
  if IsExpired c then Some c
  else
    let c := set_idle (idle_waiting c) (Z.lor (idle_flags c) flags) (idle_subscriptions c) c in
    if idle_waiting c && negb (Z.land (idle_flags c) (idle_subscriptions c) =? 0) then IdleNotify c else Some c.

Definition IdleWait (flags : Z) (c : Client) : option Client :=
  if idle_waiting c then None
  else
    let c := set_idle true (idle_flags c) flags c in
    if negb (Z.land (idle_flags c) (idle_subscriptions c) =? 0) then IdleNotify c else Some (set_timeout false c).

Definition PushMessage (msg : bytes * bytes) (c : Client) : option (bool * Client) :=
  if (MAX_MESSAGES <=? Z.of_nat (length (messages c))) || negb (IsSubscribed (fst msg) c) then Some (false, c)
  else
    c ← (match messages c with [] => IdleAdd IDLE_MESSAGE c | _ => Some c end);
    Some (true, set_messages (messages c ++ [msg]) c).

(** ** The partition, as far as its clients see it *)

(** [ProtocolError], [std::invalid_argument], and all others. *)
Inductive Exn := ProtocolError (ack : Z) (msg : bytes) | InvalidArgument (msg : bytes) | OtherError (msg : bytes).
Inductive outcome (A : Type) := Done (a : A) | Exc (e : Exn).
#[global] Arguments Done {A} _.
#[global] Arguments Exc {A} _.

Section Partition.
Context `{Random} `{PlayerControl}.

(** [idle_monitor] has the flags of [EmitIdle] that were not yet passed to
    the clients. *)
Record Partition := mkPartition {
  clients : list Client;
  self : nat;
  p_playlist : playlist;
  p_player : Player;
  replay_gain_mode : ReplayGainMode;
  idle_monitor : Z
}.

Definition CM (A : Type) : Type := Partition -> option (Partition * outcome A).
#[export] Instance CM_ret : MRet CM := fun A a p => Some (p, Done a).
#[export] Instance CM_bind : MBind CM := fun A B f m p =>
  match m p with
  | None => None
  | Some (p', Done a) => f a p'
  | Some (p', Exc e) => Some (p', Exc e)
  end.

Definition raise {A} (e : Exn) : CM A := fun p => Some (p, Exc e).
Definition client {A} (f : Client -> A) : CM A := fun p => c ← clients p !! self p; Some (p, Done (f c)).
Definition update (f : Client -> Client) : CM unit := fun p =>
  Some (mkPartition (alter f (self p) (clients p)) (self p) (p_playlist p) (p_player p) (replay_gain_mode p) (idle_monitor p), Done tt).
(** A method of the client that may fail an assertion. *)
Definition method {A} (f : Client -> option (A * Client)) : CM A := fun p =>
  c ← clients p !! self p; '(a, c) ← f c;
  Some (mkPartition (<[self p := c]> (clients p)) (self p) (p_playlist p) (p_player p) (replay_gain_mode p) (idle_monitor p), Done a).
Definition method_ (f : Client -> option Client) : CM unit := method (fun c => c ← f c; Some (tt, c)).
Definition EmitIdle (mask : Z) : CM unit := fun p =>
  Some (mkPartition (clients p) (self p) (p_playlist p) (p_player p) (replay_gain_mode p) (Z.lor (idle_monitor p) mask), Done tt).
Definition the_playlist {A} (f : playlist -> A) : CM A := fun p => Some (p, Done (f (p_playlist p))).
Definition set_replay_gain_mode (m : ReplayGainMode) : CM unit := fun p =>
  Some (mkPartition (clients p) (self p) (p_playlist p) (p_player p) m (idle_monitor p), Done tt).

(** [Partition::OnQueueModified] and its relatives *)
Definition event_flags (e : QueueEvent) : Z :=
  match e with OnQueueModified => IDLE_PLAYLIST | OnQueueOptionsChanged => IDLE_OPTIONS | OnQueueSongStarted => IDLE_PLAYER end.

(** A computation of the playlist. *)
Definition on_playlist {A} (m : M A) : CM A := fun p =>
  match m (mkWorld (p_playlist p) (p_player p) []) with
  | None => None
  | Some (w, r) =>
      Some (mkPartition (clients p) (self p) (pl w) (pc w) (replay_gain_mode p) (fold_left (fun f e => Z.lor f (event_flags e)) (events w) (idle_monitor p)),
            match r with Ok a => Done a | Throw e => Exc (OtherError e) end)
  end.

(** [for (auto &client : clients)]: the deleted ones are not in the list. *)
Fixpoint for_clients (f : Client -> option Client) (l : list Client) : option (list Client) :=
  match l with
  | [] => Some []
  | c :: l => c ← (if deleted c then Some c else f c); l ← for_clients f l; Some (c :: l)
  end.

(** [Partition::OnIdleMonitor]: the event loop passes the flags on. *)
Definition OnIdleMonitor (p : Partition) : option Partition :=
  l ← for_clients (IdleAdd (idle_monitor p)) (clients p);
  Some (mkPartition l (self p) (p_playlist p) (p_player p) (replay_gain_mode p) 0).

(** *** Client::Subscribe, Unsubscribe, and messages *)

Definition Subscribe (channel : bytes) : CM SubscribeResult :=
  c ← client id;
  if negb (client_message_valid_channel_name channel) then mret SUBSCRIBE_INVALID
  else if MAX_SUBSCRIPTIONS <=? num_subscriptions c then mret SUBSCRIBE_FULL
  else if IsSubscribed channel c then mret SUBSCRIBE_ALREADY
  else
    update (set_subscriptions (set_insert channel (subscriptions c)) (num_subscriptions c + 1));;
    EmitIdle IDLE_SUBSCRIPTION;;
    mret SUBSCRIBE_OK.

(** The assertions about the counter follow from the invariant
    [client_core] (ClientWf). *)
Definition Unsubscribe (channel : bytes) : CM bool :=
  c ← client id;
  if negb (IsSubscribed channel c) then mret false
  else
    update (set_subscriptions (set_erase channel (subscriptions c)) (num_subscriptions c - 1));;
    EmitIdle IDLE_SUBSCRIPTION;;
    mret true.

(** To all clients: whether one of them took the message. *)
Fixpoint push_messages (msg : bytes * bytes) (l : list Client) : option (bool * list Client) :=
  match l with
  | [] => Some (false, [])
  | c :: l =>
      '(s, c) ← (if deleted c then Some (false, c) else PushMessage msg c);
      '(s', l) ← push_messages msg l;
      Some (s || s', c :: l)
  end.
Definition send_message (msg : bytes * bytes) : CM bool := fun p =>
  '(sent, l) ← push_messages msg (clients p);
  Some (mkPartition l (self p) (p_playlist p) (p_player p) (replay_gain_mode p) (idle_monitor p), Done sent).

(** *** Response.cxx *)

(** The number of the command in its list, and its name. *)
Record Response := mkResponse { list_index : Z; command : bytes }.

Definition write (s : bytes) : CM unit := update (Write s).
Definition Error (r : Response) (ack : Z) (msg : bytes) : CM unit :=
  write (lit "ACK [" ++ print_nat ack ++ lit "@" ++ print_nat (list_index r) ++ lit "] {" ++ command r ++ lit "} ");;
  write msg;;
  write [LF].
End Partition.
End Output.
