(* ===== verification/ClientWf.v ===== *)
(** Invariants of the clients of a partition, rules for the computations of
    [Client], and what the "idle" mode promises. *)
From S2P Require Import Arrays Text Tags SongSort Queue QueueWf QueueRandom PlayControl PlayRules PlayWf PlayPlayback Client.
Open Scope Z_scope.

(** ** One client *)

Record client_core (c : Client) : Prop := {
  k_list : cmd_mode c = None -> cmd_list c = [];
  k_subscriptions : num_subscriptions c = Z.of_nat (length (subscriptions c)) /\ num_subscriptions c <= MAX_SUBSCRIPTIONS /\
    Sorted.StronglySorted (fun a b => strcmp a b < 0) (subscriptions c);
  k_messages : Z.of_nat (length (messages c)) <= MAX_MESSAGES
}.

(** A client that waits has no event to be notified of, and no timeout. *)
Definition waits_ok (c : Client) : Prop :=
  idle_waiting c = true -> expired c = true \/ Z.land (idle_flags c) (idle_subscriptions c) = 0 /\ timeout c = false.
Definition client_ok (c : Client) : Prop := client_core c /\ waits_ok c.

Lemma Client_new_ok u p : client_ok (Client_new u p).
Proof. split; [|done]. split; cbn; try done. split_and!; [done|done|constructor]. Qed.

(** Changes of the other members. *)
Lemma client_core_same c c' : client_core c -> cmd_mode c' = cmd_mode c -> cmd_list c' = cmd_list c ->
  subscriptions c' = subscriptions c -> num_subscriptions c' = num_subscriptions c -> messages c' = messages c -> client_core c'.
Proof. intros [H1 H2 H3] E1 E2 E3 E4 E5. split; rewrite ?E1, ?E2, ?E3, ?E4, ?E5; done. Qed.

Lemma SetExpired_ok c : client_ok c -> client_ok (SetExpired c).
Proof.
  intros Hc. unfold SetExpired, IsExpired. destruct (expired c); [done|]. destruct Hc as [Hcore Hw].
  split; [by apply (client_core_same c)|]. intros _. by left.
Qed.

Section Output.
Context (refuses : bytes -> bytes -> bool).

(** What writing may do to a client. *)
Record wrote (c c' : Client) : Prop := {
  w_wait : idle_waiting c' = idle_waiting c;
  w_flags : idle_flags c' = idle_flags c;
  w_idle : idle_subscriptions c' = idle_subscriptions c;
  w_mode : cmd_mode c' = cmd_mode c;
  w_list : cmd_list c' = cmd_list c;
  w_subs : subscriptions c' = subscriptions c;
  w_num : num_subscriptions c' = num_subscriptions c;
  w_msgs : messages c' = messages c;
  w_deleted : deleted c' = deleted c;
  w_expired : expired c' = true \/ expired c' = expired c /\ timeout c' = timeout c
}.

Lemma wrote_refl c : wrote c c.
Proof. by split; try done; right. Qed.

Lemma wrote_trans c1 c2 c3 : wrote c1 c2 -> wrote c2 c3 -> wrote c1 c3.
Proof.
  intros [A1 A2 A3 A4 A5 A6 A7 A8 A9 A10] [B1 B2 B3 B4 B5 B6 B7 B8 B9 B10]. split; try congruence.
  destruct B10 as [?|[Hb ?]]; [by left|]. destruct A10 as [?|[Ha ?]]; [left; congruence|right; split; congruence].
Qed.

Lemma Write_wrote s c : wrote c (Write refuses s c).
Proof.
  unfold Write. destruct (IsExpired c || bool_decide (s = [])) eqn:E; [apply wrote_refl|]. apply orb_false_iff in E as [E _]. unfold IsExpired in E.
  destruct (refuses (output c) s); [|by split; try done; right]. unfold SetExpired, IsExpired. rewrite E. by split; try done; left.
Qed.

Lemma wrote_core c c' : wrote c c' -> client_core c -> client_core c'.
Proof. intros [A1 A2 A3 A4 A5 A6 A7 A8 A9 A10] Hc. by apply (client_core_same c). Qed.

Lemma wrote_ok c c' : wrote c c' -> client_ok c -> client_ok c'.
Proof.
  intros Hw [Hc Hi]. split; [by apply (wrote_core c)|]. destruct Hw as [A1 A2 A3 A4 A5 A6 A7 A8 A9 A10].
  unfold waits_ok. rewrite A1, A2, A3. intros E. destruct A10 as [?|[-> ->]]; [by left|auto].
Qed.

Lemma WriteIdleResponse_wrote flags c : wrote c (WriteIdleResponse refuses flags c).
Proof.
  unfold WriteIdleResponse. eapply wrote_trans; [|apply Write_wrote].
  generalize (idle_lines idle_names 0 flags) as l. intros l. revert c. induction l as [|x l IH]; intros c; [apply wrote_refl|].
  cbn [fold_left]. eapply wrote_trans; [apply Write_wrote|apply IH].
Qed.

(** *** The "idle" mode *)

Lemma IdleNotify_ok c : idle_waiting c = true -> Z.land (idle_flags c) (idle_subscriptions c) <> 0 -> client_core c ->
  exists c', IdleNotify refuses c = Some c' /\ client_ok c' /\ idle_waiting c' = false /\ deleted c' = deleted c /\ messages c' = messages c.
Proof.
  intros Hw Hf Hok. unfold IdleNotify. rewrite Hw, (proj2 (Z.eqb_neq _ _) Hf). cbn [negb orb].
  set (c0 := set_idle false _ _ c). set (flags := Z.land _ _). pose proof (WriteIdleResponse_wrote flags c0) as Hwr.
  eexists. split; [done|]. pose proof (wrote_core _ _ Hwr ltac:(by apply (client_core_same c))) as Hc. destruct Hwr.
  assert (idle_waiting (set_timeout true (WriteIdleResponse refuses flags c0)) = false) as Hw' by done.
  split; [|done]. split; [by apply (client_core_same _ _ Hc)|]. unfold waits_ok. by rewrite Hw'.
Qed.

Lemma IdleAdd_ok flags c : client_ok c ->
  exists c', IdleAdd refuses flags c = Some c' /\ client_ok c' /\ (idle_waiting c = false -> idle_waiting c' = false) /\ deleted c' = deleted c /\
    messages c' = messages c.
Proof.
  intros [Hc Hi]. unfold IdleAdd, IsExpired. destruct (expired c) eqn:He; [by exists c|]. set (c0 := set_idle _ _ _ c).
  assert (client_core c0) as Hc0 by (by apply (client_core_same c)).
  assert (idle_waiting c0 = idle_waiting c) as E0 by done. rewrite E0. destruct (idle_waiting c) eqn:Hw; cbn [andb].
  - destruct (Z.eqb_spec (Z.land (idle_flags c0) (idle_subscriptions c0)) 0) as [Hf|Hf]; cbn [negb].
    + exists c0. split; [done|]. split; [split; [done|]|done]. intros _. right. split; [done|]. destruct (Hi Hw) as [?|[_ ?]]; [congruence|done].
    + destruct (IdleNotify_ok c0 E0 Hf Hc0) as (c' & ? & ? & ? & ? & ?). by exists c'.
  - exists c0. split; [done|]. split; [split; [done|]|done]. unfold waits_ok. by rewrite E0.
Qed.

Lemma IdleWait_ok flags c : client_ok c -> idle_waiting c = false ->
  exists c', IdleWait refuses flags c = Some c' /\ client_ok c' /\ deleted c' = deleted c.
Proof.
  intros [Hc Hi] Hw. unfold IdleWait. rewrite Hw. set (c0 := set_idle true _ _ c).
  assert (client_core c0) as Hc0 by (by apply (client_core_same c)).
  destruct (Z.eqb_spec (Z.land (idle_flags c0) (idle_subscriptions c0)) 0) as [Hf|Hf]; cbn [negb].
  - eexists. split; [done|]. split; [|done]. split; [by apply (client_core_same c0)|]. intros _. by right.
  - destruct (IdleNotify_ok c0 eq_refl Hf Hc0) as (c' & ? & ? & _ & ? & _). by exists c'.
Qed.

Lemma PushMessage_ok msg c : client_ok c ->
  exists b c', PushMessage refuses msg c = Some (b, c') /\ client_ok c' /\ (idle_waiting c = false -> idle_waiting c' = false) /\ deleted c' = deleted c.
Proof.
  intros Hok. unfold PushMessage. destruct (Z.leb_spec MAX_MESSAGES (Z.of_nat (length (messages c)))) as [|Hlen]; cbn [orb]; [by exists false, c|].
  destruct (IsSubscribed (fst msg) c); cbn [negb]; [|by exists false, c].
  assert (exists c1, (match messages c with [] => IdleAdd refuses IDLE_MESSAGE c | _ => Some c end) = Some c1 /\ client_ok c1 /\
    (idle_waiting c = false -> idle_waiting c1 = false) /\ deleted c1 = deleted c /\ messages c1 = messages c) as (c1 & E & [[H1 H2 H3] Hi1] & Hw1 & Hd1 & Hm1).
  { pose proof (IdleAdd_ok IDLE_MESSAGE c Hok) as Hadd. destruct (messages c) eqn:E; [exact Hadd|by exists c]. }
  exists true, (set_messages (messages c1 ++ [msg]) c1). rewrite E. split; [reflexivity|]. split; [split; [|done]|done]. split; try done.
  cbn. rewrite Hm1, length_app. cbn. lia.
Qed.

(** ** Partitions *)

Section Partitions.
Context `{RandomLaws} `{PlayerLaws}.
Implicit Types (p : Partition).

(** [m] is defined at [p], and its outcome and the partition after it satisfy
    [Q]. *)
Definition cwp {A} (m : CM A) (Q : outcome A -> Partition -> Prop) p : Prop :=
  match m p with None => False | Some (p', r) => Q r p' end.

Record partition_ok p : Prop := {
  q_playlist : exists cs, pl_ok cs (mkWorld (p_playlist p) (p_player p) []);
  q_self : exists c, clients p !! self p = Some c /\ deleted c = false;
  q_clients : Forall (fun c => deleted c = false -> client_ok c) (clients p)
}.

Definition self_idle p : bool := match clients p !! self p with Some c => idle_waiting c | None => false end.

(** While a command runs, its client does not wait for events. *)
Definition ready p : Prop := partition_ok p /\ self_idle p = false.
Definition steady {A} (m : CM A) p : Prop := cwp m (fun _ p' => ready p') p.

Lemma cwp_conseq {A} (m : CM A) (Q Q' : outcome A -> Partition -> Prop) p :
  cwp m Q p -> (forall r p', Q r p' -> Q' r p') -> cwp m Q' p.
Proof. unfold cwp. destruct (m p) as [[p' r]|]; auto. Qed.

Lemma cwp_bind {A B} (m : CM A) (f : A -> CM B) Q p :
  cwp m (fun r p' => match r with Done a => cwp (f a) Q p' | Exc e => Q (Exc e) p' end) p -> cwp (m ≫= f) Q p.
Proof. unfold cwp, mbind, CM_bind. by destruct (m p) as [[p' [a|e]]|]. Qed.

Lemma cwp_any {A} (m : CM A) p (Q : outcome A -> Partition -> Prop) : cwp m Q p -> exists p' r, m p = Some (p', r) /\ Q r p'.
Proof. unfold cwp. destruct (m p) as [[p' r]|]; [|done]. by exists p', r. Qed.

Lemma steady_bind {A B} (m : CM A) (f : A -> CM B) p : steady m p -> (forall a p', ready p' -> steady (f a) p') -> steady (m ≫= f) p.
Proof. intros Hm Hf. apply cwp_bind. eapply cwp_conseq; [exact Hm|]. intros [a|e] p' Hp'; [by apply Hf|done]. Qed.

Lemma steady_ret {A} (a : A) p : ready p -> steady (mret a) p.
Proof. done. Qed.
Lemma steady_raise {A} e p : ready p -> steady (raise e : CM A) p.
Proof. done. Qed.

Lemma self_lookup p : partition_ok p -> exists c, clients p !! self p = Some c /\ deleted c = false /\ client_ok c.
Proof.
  intros [_ (c & Hc & Hd) Hf]. exists c. split_and!; try done; by apply (proj1 (Forall_lookup _ _) Hf _ _ Hc Hd).
Qed.

Lemma cwp_client {A} (f : Client -> A) Q p c : clients p !! self p = Some c -> Q (Done (f c)) p -> cwp (client f) Q p.
Proof. intros Hc HQ. unfold cwp, client. by rewrite Hc. Qed.

Lemma steady_client {A} (f : Client -> A) p : ready p -> steady (client f) p.
Proof. intros Hp. destruct (self_lookup p (proj1 Hp)) as (c & Hc & _). by apply (cwp_client f _ p c). Qed.

(** The partition with another state of the client itself. *)
Definition set_self c p : Partition :=
  mkPartition (<[self p := c]> (clients p)) (self p) (p_playlist p) (p_player p) (replay_gain_mode p) (idle_monitor p).

Lemma set_self_lookup c p : partition_ok p -> clients (set_self c p) !! self (set_self c p) = Some c.
Proof. intros [_ (c0 & Hc & _) _]. cbn. apply list_lookup_insert_eq. by apply lookup_lt_Some in Hc. Qed.

Lemma set_self_ok c p : partition_ok p -> client_ok c -> deleted c = false -> partition_ok (set_self c p).
Proof.
  intros Hp Hc Hd. pose proof (set_self_lookup c p Hp) as Hl. destruct Hp as [Hq1 (c0 & Hc0 & _) Hq3]. split; [done|by exists c|].
  cbn. by apply Forall_insert.
Qed.

Lemma set_self_idle c p : partition_ok p -> self_idle (set_self c p) = idle_waiting c.
Proof. intros Hp. unfold self_idle. by rewrite (set_self_lookup c p Hp). Qed.

Lemma update_eq f p c : clients p !! self p = Some c -> update f p = Some (set_self (f c) p, Done tt).
Proof.
  intros Hc. unfold update, set_self. do 4 f_equal. apply list_eq. intros i. destruct (decide (i = self p)) as [->|Hi].
  - rewrite list_lookup_insert_eq by (by apply lookup_lt_Some in Hc). by rewrite list_lookup_alter_eq, Hc.
  - by rewrite list_lookup_insert_ne, list_lookup_alter_ne.
Qed.

Lemma cwp_update f Q p c : clients p !! self p = Some c -> Q (Done tt) (set_self (f c) p) -> cwp (update f) Q p.
Proof. intros Hc HQ. unfold cwp. by rewrite (update_eq f p c Hc). Qed.

Lemma set_self_self c d p c0 : clients p !! self p = Some c0 ->
  clients (set_self c p) !! self (set_self c p) = Some c /\ set_self d (set_self c p) = set_self d p.
Proof.
  intros Hc. cbn. split; [apply list_lookup_insert_eq; by apply lookup_lt_Some in Hc|]. unfold set_self. cbn. by rewrite list_insert_insert_eq.
Qed.

(** What an error message does to the partition. *)
Lemma Error_eq r ack msg p c : clients p !! self p = Some c ->
  Error refuses r ack msg p = Some (set_self (Write refuses [LF] (Write refuses msg (Write refuses
    (lit "ACK [" ++ print_nat ack ++ lit "@" ++ print_nat (list_index r) ++ lit "] {" ++ command r ++ lit "} ") c))) p, Done tt).
Proof.
  intros Hc. unfold Error, write, mbind, CM_bind. rewrite (update_eq _ p c Hc).
  set (c1 := Write refuses (_ ++ _) c). destruct (set_self_self c1 (Write refuses msg c1) p c Hc) as [H1c E1]. rewrite (update_eq _ _ _ H1c), E1.
  destruct (set_self_self (Write refuses msg c1) (Write refuses [LF] (Write refuses msg c1)) p c Hc) as [H2c E2]. by rewrite (update_eq _ _ _ H2c), E2.
Qed.

(** Changes that keep the client well-formed and do not let it wait. *)
Definition harmless (f : Client -> Client) : Prop :=
  forall c, client_ok c -> idle_waiting c = false -> client_ok (f c) /\ idle_waiting (f c) = false /\ deleted (f c) = deleted c.

Lemma steady_update f p : harmless f -> ready p -> steady (update f) p.
Proof.
  intros Hf [Hp Hi]. destruct (self_lookup p Hp) as (c & Hc & Hd & Hok). unfold self_idle in Hi. rewrite Hc in Hi.
  destruct (Hf c Hok Hi) as (Hq1 & Hq2 & Hq3). apply (cwp_update f _ p c Hc). split; [apply set_self_ok; [done..|congruence]|by rewrite set_self_idle].
Qed.

Lemma steady_EmitIdle mask p : ready p -> steady (EmitIdle mask) p.
Proof. intros [[Hq1 Hq2 Hq3] Hi]. split; [by split|done]. Qed.

Lemma steady_the_playlist {A} (f : playlist -> A) p : ready p -> steady (the_playlist f) p.
Proof. done. Qed.

Lemma Write_harmless s : harmless (Write refuses s).
Proof. intros c Hok Hi. pose proof (Write_wrote s c) as Hw. split; [by apply (wrote_ok c)|]. destruct Hw. split; congruence. Qed.

Lemma steady_write s p : ready p -> steady (write refuses s) p.
Proof. apply steady_update, Write_harmless. Qed.

Lemma steady_Error r ack msg p : ready p -> steady (Error refuses r ack msg) p.
Proof. intros Hp. unfold Error. do 2 (apply steady_bind; [by apply steady_write|clear p Hp; intros _ p Hp]). by apply steady_write. Qed.

(** A computation of the playlist, with what is known of its result. *)
Lemma cwp_playlist {A} (m : M A) (Q : outcome A -> Partition -> Prop) p :
  wp m (fun r w => Q (match r with Ok a => Done a | Throw e => Exc (OtherError e) end)
    (mkPartition (clients p) (self p) (pl w) (pc w) (replay_gain_mode p) (fold_left (fun f e => Z.lor f (event_flags e)) (events w) (idle_monitor p))))
    (mkWorld (p_playlist p) (p_player p) []) -> cwp (on_playlist m) Q p.
Proof. unfold cwp, on_playlist, wp. by destruct (m _) as [[w r]|]. Qed.

Lemma ready_playlist p l c g i : ready p -> (exists cs, pl_ok cs (mkWorld l c [])) -> ready (mkPartition (clients p) (self p) l c g i).
Proof. intros [[Hq1 Hq2 Hq3] Hi] Hl. split; [by split|done]. Qed.

Lemma pl_ok_events cs w evs : pl_ok cs w -> pl_ok cs (mkWorld (pl w) (pc w) evs).
Proof. intros Hpl. by apply (pl_ok_player cs w (pc w)). Qed.

Lemma steady_playlist {A} (m : M A) p :
  (forall cs, pl_ok cs (mkWorld (p_playlist p) (p_player p) []) -> safe m (mkWorld (p_playlist p) (p_player p) [])) -> ready p -> steady (on_playlist m) p.
Proof.
  intros Hm Hp. apply cwp_playlist. destruct (q_playlist p (proj1 Hp)) as [cs Hpl]. eapply wp_conseq; [by apply (Hm cs)|].
  intros r w [cs' Hpl']. apply ready_playlist; [done|]. exists cs'. by apply (pl_ok_events cs' w).
Qed.

Lemma for_clients_ok f l : (forall c, client_ok c -> exists c', f c = Some c' /\ client_ok c' /\ deleted c' = deleted c) ->
  Forall (fun c => deleted c = false -> client_ok c) l ->
  exists l', for_clients f l = Some l' /\ Forall (fun c => deleted c = false -> client_ok c) l' /\ deleted <$> l' = deleted <$> l.
Proof.
  intros Hf Hl. induction Hl as [|c l Hc Hl IH]; [by exists []|]. destruct IH as (l' & E & Hl' & Hd). cbn.
  assert (exists c', (if deleted c then Some c else f c) = Some c' /\ (deleted c' = false -> client_ok c') /\ deleted c' = deleted c) as (c' & Ec & Hc' & Hd').
  { destruct (deleted c) eqn:Hdel; [exists c; split_and!; [done|congruence|done]|]. destruct (Hf c (Hc eq_refl)) as (c' & ? & ? & ?). exists c'. split_and!; [done|done|congruence]. }
  exists (c' :: l'). rewrite Ec, E. cbn. split_and!; [done|by constructor|congruence].
Qed.
End Partitions.
End Output.
