(* ===== verification/Commands.v ===== *)
(** The handlers of the commands for the play queue, the player and the
    client itself: [command/PlayerCommands.cxx], [QueueCommands.cxx],
    [TagCommands.cxx], [ClientCommands.cxx], [MessageCommands.cxx], parts of
    [OtherCommands.cxx], with [PositionArg.cxx], [Request.hxx],
    [CommandError.cxx], [PlaylistPrint.cxx] and [client/ProtocolFeature.cxx]. *)
From S2P Require Import Arrays Text Chrono Tags Audio Uri Songs SongFilter RangeArg DbVisit SongSort Queue PlayControl SongPrint Permission ArgParser Client.
From Stdlib Require Import SpecFloat.
Open Scope Z_scope.

Definition ACK_ERROR_ARG : Z := 2.
Definition ACK_ERROR_PASSWORD : Z := 3.
Definition ACK_ERROR_PERMISSION : Z := 4.
Definition ACK_ERROR_UNKNOWN : Z := 5.
Definition ACK_ERROR_NO_EXIST : Z := 50.
Definition ACK_ERROR_PLAYLIST_MAX : Z := 51.
Definition ACK_ERROR_PLAYER_SYNC : Z := 55.
Definition ACK_ERROR_EXIST : Z := 56.

Inductive CommandResult := RESULT_OK | RESULT_IDLE | RESULT_BACKGROUND | RESULT_ERROR | RESULT_FINISH | RESULT_CLOSE | RESULT_KILL.
#[export] Instance CommandResult_eq_dec : EqDecision CommandResult.
Proof. solve_decision. Defined.

(** ReplayGainMode.cxx *)
Definition ReplayGainMode_ToString (mode : ReplayGainMode) : bytes :=
  match mode with RG_AUTO => lit "auto" | RG_OFF => lit "off" | RG_TRACK => lit "track" | RG_ALBUM => lit "album" end.
Definition ReplayGainMode_FromString (s : bytes) : result ReplayGainMode :=
  if s =b lit "off" then Ok RG_OFF
  else if s =b lit "track" then Ok RG_TRACK
  else if s =b lit "album" then Ok RG_ALBUM
  else if s =b lit "auto" then Ok RG_AUTO
  else Throw (lit "Unrecognized replay gain mode").

(** CommandError.cxx: the exceptions of the playlist are told apart by their
    messages; the exceptions of the player are [std::runtime_error]. *)
Definition PlaylistError_ToAck (msg : bytes) : Z :=
  if msg =b NoSuchSong then ACK_ERROR_NO_EXIST
  else if msg =b BadRange then ACK_ERROR_ARG
  else if msg =b NotPlaying then ACK_ERROR_PLAYER_SYNC
  else if msg =b lit "Playlist is too large" then ACK_ERROR_PLAYLIST_MAX
  else if (msg =b DENIED) || (msg =b lit "Cannot edit the current song") then ACK_ERROR_PERMISSION
  else if msg =b lit "Invalid start offset" then ACK_ERROR_ARG
  else ACK_ERROR_UNKNOWN.
Definition ToAck (e : Exn) : Z * bytes :=
  match e with
  | ProtocolError ack msg => (ack, msg)
  | InvalidArgument msg => (ACK_ERROR_ARG, msg)
  | OtherError msg => (PlaylistError_ToAck msg, msg)
  end.

Section Commands.
Context `{Random} `{PlayerControl}.

(** What the commands use of the rest of the program: the socket, the
    loader of songs, the configured passwords and tags, the size of the
    output buffer, and which optional parts there are. *)
Record Environment := mkEnvironment {
  refuses : bytes -> bytes -> bool;
  LoadSong : bytes -> result DetachedSong;
  permissions : Permissions;
  enabled_tags : Z;
  GetOutputMaxSize : Z;
  client_max_command_list_size : Z;
  HasStickerDatabase : bool;
  neighbor_commands_available : bool;
  mount_commands_available : bool;
  playlist_commands_available : bool;
  libraries : FilterLibraries;
  format_seconds : double -> bytes;
  format_float : double -> bytes;
  partition_name : bytes;
  GetVolume : Z;
  update_job : Z
}.
Context (env : Environment).
#[local] Instance filter_libraries : FilterLibraries := libraries env.

(** The arguments (Request.hxx), the response. *)
Definition Handler : Type := list bytes -> Response -> CM CommandResult.

Definition arg (args : list bytes) (i : nat) : CM bytes := fun p => a ← args !! i; Some (p, Done a).
(** A [ParseCommandArg*] throws a [ProtocolError]. *)
Definition parsed {A} (r : result A) : CM A := match r with Ok a => mret a | Throw msg => raise (ProtocolError ACK_ERROR_ARG msg) end.
Definition ParseInt (args : list bytes) (i : nat) (min_value max_value : Z) : CM Z := s ← arg args i; parsed (ParseCommandArgInt s min_value max_value).
Definition ParseUnsigned (args : list bytes) (i : nat) : CM Z := s ← arg args i; parsed (ParseCommandArgUnsigned s UINT_MAX).
Definition ParseUnsigned_max (args : list bytes) (i : nat) (max_value : Z) : CM Z := s ← arg args i; parsed (ParseCommandArgUnsigned s max_value).
Definition ParseBool (args : list bytes) (i : nat) : CM bool := s ← arg args i; parsed (ParseCommandArgBool s).
Definition ParseRange (args : list bytes) (i : nat) : CM RangeArg := s ← arg args i; parsed (ParseCommandArgRange s).
Definition ParseOptional (args : list bytes) (i : nat) (default_value : RangeArg) : CM RangeArg :=
  if (i <? length args)%nat then ParseRange args i else mret default_value.

Definition out (s : bytes) : CM unit := write (refuses env) s.
Definition fail (r : Response) (ack : Z) (msg : bytes) : CM CommandResult := Error (refuses env) r ack msg;; mret RESULT_ERROR.
Definition ok (m : CM unit) : CM CommandResult := m;; mret RESULT_OK.
Definition PrintError (r : Response) (e : Exn) : CM unit := Error (refuses env) r (fst (ToAck e)) (snd (ToAck e)).

Fixpoint each {A} (f : A -> CM unit) (l : list A) : CM unit := match l with [] => mret tt | a :: l => f a;; each f l end.

(** ** PositionArg.cxx *)

Definition RequireCurrentPosition : CM Z :=
  position ← on_playlist GetCurrentPosition;
  if position <? 0 then raise (ProtocolError ACK_ERROR_PLAYER_SYNC (lit "No current song")) else mret position.

Definition ParseInsertPosition (s : bytes) : CM Z :=
  queue_length ← the_playlist (fun p => GetLength (queue p));
  match s with
  | c :: s' =>
      if bool_decide (c = "+"%char) then
        current ← RequireCurrentPosition;
        n ← parsed (ParseCommandArgUnsigned s' (u32 (queue_length - current - 1)));
        mret (u32 (current + 1 + n))
      else if bool_decide (c = "-"%char) then
        current ← RequireCurrentPosition;
        n ← parsed (ParseCommandArgUnsigned s' current);
        mret (u32 (current - n))
      else parsed (ParseCommandArgUnsigned s queue_length)
  | [] => parsed (ParseCommandArgUnsigned s queue_length)
  end.

(** The current position as if the range was not there. *)
Definition current_without (range : RangeArg) : CM Z :=
  current ← RequireCurrentPosition;
  if Contains range current then raise (ProtocolError ACK_ERROR_ARG (lit "Cannot move current song relative to itself"))
  else mret (if r_end range <=? current then u32 (current - RangeArg_Count range) else current).

Definition ParseMoveDestination (s : bytes) (range : RangeArg) : CM Z := fun p =>
  if RangeArg_IsEmpty range || IsOpenEnded range then None
  else
    (queue_length ← the_playlist (fun p => GetLength (queue p));
     match s with
     | c :: s' =>
         if bool_decide (c = "+"%char) then
           current ← current_without range;
           n ← parsed (ParseCommandArgUnsigned s' (u32 (queue_length - current - RangeArg_Count range)));
           mret (u32 (current + 1 + n))
         else if bool_decide (c = "-"%char) then
           current ← current_without range;
           n ← parsed (ParseCommandArgUnsigned s' (u32 (queue_length - current - RangeArg_Count range)));
           mret (u32 (current - n))
         else parsed (ParseCommandArgUnsigned s (u32 (queue_length - RangeArg_Count range)))
     | [] => parsed (ParseCommandArgUnsigned s (u32 (queue_length - RangeArg_Count range)))
     end) p.

(** ** PlayerCommands.cxx *)

Definition handle_play : Handler := fun args r => ok (
  match args with [] => on_playlist PlayAny | _ => n ← ParseUnsigned args 0; on_playlist (PlayPosition n) end).
Definition handle_playid : Handler := fun args r => ok (
  match args with [] => on_playlist PlayAny | _ => n ← ParseUnsigned args 0; on_playlist (PlayId n) end).
Definition handle_stop : Handler := fun args r => ok (on_playlist Stop).
Definition handle_pause : Handler := fun args r => ok (
  match args with
  | [] => on_playlist (PlayControl.player LockPause)
  | _ => pause_flag ← ParseBool args 0; on_playlist (PlayControl.player (LockSetPause pause_flag))
  end).

(** *** "status" *)

(** [lround] *)
Definition lround (d : double) : Z :=
  match d with
  | S754_finite sign m e =>
      let v := if 0 <=? e then Z.pos m * 2 ^ e else (2 * Z.pos m + 2 ^ (- e)) / (2 * 2 ^ (- e)) in
      if sign then - v else v
  | _ => 0
  end.
Definition positive (d : double) : bool := SFltb (S754_zero false) d.
Definition print_bool (b : bool) : bytes := if b then lit "1" else lit "0".
Definition status_line (name : string) (value : bytes) : bytes := lit name ++ lit ": " ++ value ++ [LF].
Definition state_text (state : PlayerState) : bytes :=
  match state with PLAYER_STOP => lit "stop" | PLAYER_PAUSE => lit "pause" | PLAYER_PLAY => lit "play" end.

Definition options_text (q : Queue) (status : PlayerStatus) (c : Player) : bytes :=
  status_line "repeat" (print_bool (repeat q)) ++
  status_line "random" (print_bool (random q)) ++
  status_line "single" (SingleToString (single q)) ++
  status_line "consume" (ConsumeToString (consume q)) ++
  status_line "partition" (partition_name env) ++
  status_line "playlist" (print_nat (version q)) ++
  status_line "playlistlength" (print_nat (GetLength q)) ++
  status_line "mixrampdb" (format_float env (GetMixRampDb c)) ++
  status_line "state" (state_text (status_state status)) ++
  status_line "lastloadedplaylist" (last_loaded_playlist q).

(** The chunks while the player does not stop. *)
Definition playing_text (status : PlayerStatus) : list bytes :=
  match status_state status with
  | PLAYER_STOP => []
  | _ =>
      [status_line "time" (print_nat (RoundS_u (elapsed_time status)) ++ lit ":" ++
         print_nat (if IsNegative_ms (total_time status) then 0 else u32 (RoundS_s (total_time status)))) ++
       status_line "elapsed" (format_seconds env (ToDoubleS (elapsed_time status))) ++
       status_line "bitrate" (print_nat (bit_rate status))] ++
      (if IsNegative_ms (total_time status) then [] else [status_line "duration" (format_seconds env (ToDoubleS (total_time status)))]) ++
      (if AudioFormat_IsDefined (status_audio_format status) then [status_line "audio" (ToString (status_audio_format status))] else [])
  end.

(** The lines of a song, if there is one at [position]. *)
Definition position_text (name id_name : string) (position : Z) : M (list bytes) :=
  if position <? 0 then mret []
  else id ← ask (fun q => PositionToId q position); mret [status_line name (print_nat position) ++ status_line id_name (print_nat id)].

Definition status_text : M (list bytes) :=
  status ← player_ask LockGetStatus;
  q ← get queue;
  c ← player_get;
  song ← GetCurrentPosition;
  song_lines ← position_text "song" "songid" song;
  next ← GetNextPosition;
  next_lines ← position_text "nextsong" "nextsongid" next;
  mret (
    (if GetVolume env <? 0 then [] else [status_line "volume" (print_nat (GetVolume env))]) ++
    [options_text q status c] ++
    (if positive (GetCrossFade c) then [status_line "xfade" (print_int (lround (GetCrossFade c)))] else []) ++
    (if positive (GetMixRampDelay c) then [status_line "mixrampdelay" (format_float env (GetMixRampDelay c))] else []) ++
    song_lines ++
    playing_text status ++
    (if update_job env =? 0 then [] else [status_line "updating_db" (print_nat (update_job env))]) ++
    (match LockCheckRethrowError c with Some e => [status_line "error" e] | None => [] end) ++
    next_lines).
Definition handle_status : Handler := fun args r => ok (l ← on_playlist status_text; each out l).

(** [AtScopeExit] *)
Definition at_exit {A} (f : playlist -> playlist) (m : M A) : M A := fun w =>
  match m w with Some (w', r) => Some (mkWorld (f (pl w')) (pc w') (events w'), r) | None => None end.
Definition set_single (mode : SingleMode) (p : playlist) : playlist := set_queue (with_single mode (queue p)) p.
Definition handle_next : Handler := fun args r => ok (on_playlist (
  single ← get (fun p => single (queue p));
  modify (set_single SINGLE_OFF);;
  at_exit (set_single single) PlayNext)).

Definition handle_previous : Handler := fun args r => ok (on_playlist PlayPrevious).
Definition handle_repeat : Handler := fun args r => ok (status ← ParseBool args 0; on_playlist (SetRepeat status)).
(** They throw [std::invalid_argument]. *)
Definition mode_arg {A} (r : result A) : CM A := match r with Ok a => mret a | Throw msg => raise (InvalidArgument msg) end.
Definition handle_single : Handler := fun args r => ok (s ← arg args 0; new_mode ← mode_arg (SingleFromString s); on_playlist (SetSingle new_mode)).
Definition handle_consume : Handler := fun args r => ok (s ← arg args 0; new_mode ← mode_arg (ConsumeFromString s); on_playlist (SetConsume new_mode)).

(** [Partition::UpdateEffectiveReplayGainMode], for the player. *)
Definition UpdateEffectiveReplayGainMode : CM unit := fun p =>
  let mode := if bool_decide (replay_gain_mode p = RG_AUTO) then (if random (queue (p_playlist p)) then RG_TRACK else RG_ALBUM) else replay_gain_mode p in
  on_playlist (PlayControl.player (LockSetReplayGainMode mode)) p.
Definition SetReplayGainMode (mode : ReplayGainMode) : CM unit := set_replay_gain_mode mode;; UpdateEffectiveReplayGainMode.

Definition handle_random : Handler := fun args r => ok (
  status ← ParseBool args 0; on_playlist (SetRandom status);; UpdateEffectiveReplayGainMode).
Definition handle_clearerror : Handler := fun args r => ok (on_playlist (PlayControl.player LockClearError)).
Definition handle_seek : Handler := fun args r => ok (
  song ← ParseUnsigned args 0; t ← arg args 1; seek_time ← parsed (ParseCommandArgSongTime t); on_playlist (SeekSongPosition song seek_time)).
Definition handle_seekid : Handler := fun args r => ok (
  id ← ParseUnsigned args 0; t ← arg args 1; seek_time ← parsed (ParseCommandArgSongTime t); on_playlist (SeekSongId id seek_time)).
Definition handle_seekcur : Handler := fun args r => ok (
  p ← arg args 0;
  let relative := match p with c :: _ => bool_decide (c = "+"%char) || bool_decide (c = "-"%char) | [] => false end in
  seek_time ← parsed (ParseCommandArgSignedSongTime p); on_playlist (SeekCurrent seek_time relative)).
Definition handle_crossfade : Handler := fun args r => ok (
  n ← ParseUnsigned args 0; on_playlist (PlayControl.player (SetCrossFade (d_of_Z n)))).
Definition handle_mixrampdb : Handler := fun args r => ok (
  s ← arg args 0; db ← parsed (ParseCommandArgFloat s); on_playlist (PlayControl.player (SetMixRampDb db))).
Definition handle_mixrampdelay : Handler := fun args r => ok (
  s ← arg args 0; delay ← parsed (ParseCommandArgFloat s); on_playlist (PlayControl.player (SetMixRampDelay (f_to_d delay)))).
Definition handle_replay_gain_mode : Handler := fun args r => ok (
  s ← arg args 0; new_mode ← mode_arg (ReplayGainMode_FromString s); SetReplayGainMode new_mode;; EmitIdle IDLE_OPTIONS).
Definition handle_replay_gain_status : Handler := fun args r => ok (fun p =>
  out (lit "replay_gain_mode: " ++ ReplayGainMode_ToString (replay_gain_mode p) ++ [LF]) p).

(** ** QueueCommands.cxx *)

(** A failure to move the new song removes it again.  The look-up of the
    tags of a remote song is not part of the partition. *)
Definition handle_addid : Handler := fun args r => ok (
  uri ← arg args 0;
  added_position ← the_playlist (fun p => GetLength (queue p));
  to ← match args !! 1%nat with Some s => to ← ParseInsertPosition s; mret (Some to) | None => mret None end;
  added_id ← on_playlist (AppendURI (LoadSong env) uri);
  (match to with
   | Some to =>
       on_playlist (catch (PlayControl.MoveRange (RangeArg_Single added_position) to) (fun e => DeleteId added_id;; throw e))
   | None => mret tt
   end);;
  out (lit "Id: " ++ print_nat added_id ++ [LF])).

Definition handle_rangeid : Handler := fun args r =>
  id ← ParseUnsigned args 0;
  s ← arg args 1;
  match parse_time_range s with
  | None => fail r ACK_ERROR_ARG (lit "Bad range")
  | Some (start, end_) => ok (on_playlist (SetSongIdRange id start end_))
  end.

Definition handle_delete : Handler := fun args r => ok (range ← ParseRange args 0; on_playlist (DeleteRange range)).
Definition handle_deleteid : Handler := fun args r => ok (id ← ParseUnsigned args 0; on_playlist (DeleteId id)).
Definition handle_shuffle : Handler := fun args r => ok (range ← ParseOptional args 0 RangeArg_All; on_playlist (Shuffle range)).
Definition handle_clear : Handler := fun args r => ok (on_playlist PlayControl.Clear).

(** [song_print_uri] (SongPrint.cxx) of a queue's song *)
(** [for (i = start; ...; ++i)], [n] rounds from [i]; [text] gives the chunks that
    a round writes. *)
Fixpoint queue_print (text : Queue -> Z -> option (list bytes)) (n : nat) (i : Z) : CM unit :=
  match n with
  | O => mret tt
  | S n => l ← on_playlist (ask (fun q => text q i)); each out l;; queue_print text n (i + 1)
  end.

Definition uri_text (q : Queue) (i : Z) : option (list bytes) := song ← Get q i; Some [print_nat i ++ lit ":"; song_print_uri song].
Definition playlist_print_uris : CM unit := n ← the_playlist (fun p => length (items (queue p))); queue_print uri_text n 0.
Definition handle_playlist : Handler := fun args r => ok playlist_print_uris.

Definition song_text (tag_mask : Z) : Queue -> Z -> option (list bytes) := queue_print_song_info (format_seconds env) tag_mask.
(** Only what is newer than [version]. *)
Definition if_newer (version : Z) (text : Queue -> Z -> option (list bytes)) (q : Queue) (i : Z) : option (list bytes) :=
  newer ← IsNewerAtPosition q i version; if (newer : bool) then text q i else Some [].
Definition cpos_text (q : Queue) (i : Z) : option (list bytes) :=
  id ← PositionToId q i; Some [lit "cpos: " ++ print_nat i ++ [LF] ++ lit "Id: " ++ print_nat id ++ [LF]].

Definition print_range (text : Queue -> Z -> option (list bytes)) (range : RangeArg) : CM unit :=
  queue_print text (Z.to_nat (r_end range - r_start range)) (r_start range).

Definition playlist_print_info (range : RangeArg) : CM unit :=
  mask ← client tag_mask;
  queue_length ← the_playlist (fun p => GetLength (queue p));
  match CheckClip range queue_length with
  | (false, _) => raise (OtherError BadRange)
  | (true, range) => if RangeArg_IsEmpty range then mret tt else print_range (song_text mask) range
  end.
Definition playlist_print_id (id : Z) : CM unit :=
  position ← on_playlist (ask (fun q => IdToPosition q id));
  if position <? 0 then raise (OtherError NoSuchSong) else playlist_print_info (mkRangeArg position (u32 (position + 1))).
Definition playlist_print_current : CM unit :=
  mask ← client tag_mask;
  current_position ← on_playlist GetCurrentPosition;
  if current_position <? 0 then mret tt else queue_print (song_text mask) 1 current_position.
Definition playlist_print_changes (text : Queue -> Z -> option (list bytes)) (version : Z) (range : RangeArg) : CM unit :=
  queue_length ← the_playlist (fun p => GetLength (queue p));
  print_range (if_newer version text) (ClipRelaxed range queue_length).

Definition handle_currentsong : Handler := fun args r => ok playlist_print_current.
Definition handle_playlistinfo : Handler := fun args r => ok (range ← ParseOptional args 0 RangeArg_All; playlist_print_info range).
Definition handle_playlistid : Handler := fun args r => ok (
  match args with [] => playlist_print_info RangeArg_All | _ => id ← ParseUnsigned args 0; playlist_print_id id end).
Definition handle_plchanges : Handler := fun args r => ok (
  s ← arg args 0; version ← parsed (ParseCommandArgU32 s);
  range ← ParseOptional args 1 RangeArg_All;
  mask ← client tag_mask;
  playlist_print_changes (song_text mask) version range).
Definition handle_plchangesposid : Handler := fun args r => ok (
  s ← arg args 0; version ← parsed (ParseCommandArgU32 s);
  range ← ParseOptional args 1 RangeArg_All;
  playlist_print_changes cpos_text version range).

(** *** "playlistfind", "playlistsearch" *)

(** The arguments but the last two, and these. *)
Definition last_two (args : list bytes) : option (list bytes * bytes * bytes) :=
  match List.rev args with b :: a :: rest => Some (List.rev rest, a, b) | _ => None end.
(** [option VALUE] at the end of the arguments. *)
Definition final_option (name : bytes) (args : list bytes) : option (list bytes * bytes) :=
  match last_two args with Some (rest, a, b) => if a =b name then Some (rest, b) else None | None => None end.

Definition ParseSortTag (s : bytes) : CM QueueSort :=
  if StringIsEqualIgnoreCase s (lit "Last-Modified") then mret (QSort SORT_TAG_LAST_MODIFIED)
  else if StringIsEqualIgnoreCase s (lit "Added") then mret (QSort SORT_TAG_ADDED)
  else if StringIsEqualIgnoreCase s (lit "prio") then mret SORT_TAG_PRIO
  else match tag_name_parse_i s with
  | None => raise (ProtocolError ACK_ERROR_ARG (lit "Unknown sort tag"))
  | Some tag => mret (QSort (SortBy tag))
  end.

Definition handle_playlist_match (fold_case : bool) : Handler := fun args r =>
  '(args, window) ← (match final_option (lit "window") args with
    | Some (rest, s) => window ← parsed (ParseCommandArgRange s); mret (rest, window)
    | None => mret (args, RangeArg_All)
    end);
  '(args, sort, descending) ← (match final_option (lit "sort") args with
    | Some (rest, s) =>
        let '(descending, s) := match s with c :: s' => if bool_decide (c = "-"%char) then (true, s') else (false, s) | [] => (false, s) end in
        sort ← ParseSortTag s; mret (rest, sort, descending)
    | None => mret (args, QSort DontSort, false)
    end);
  match Parse args fold_case [] with
  | Throw e => fail r ACK_ERROR_ARG e
  | Ok filter =>
      mask ← client tag_mask;
      ok (l ← on_playlist (text ← ask (fun q => PrintQueue (format_seconds env) mask q (mkQueueSelection (Some (OptimizeSongFilter_items filter)) window sort descending));
                           match text with Ok l => mret l | Throw e => throw e end);
          each out l)
  end.
Definition handle_playlistfind : Handler := handle_playlist_match false.
Definition handle_playlistsearch : Handler := handle_playlist_match true.

Definition handle_prio : Handler := fun args r => ok (
  priority ← ParseUnsigned_max args 0 0xff;
  each (fun i => range ← parsed (ParseCommandArgRange i); on_playlist (PlayControl.SetPriorityRange range priority)) (drop 1 args)).
Definition handle_prioid : Handler := fun args r => ok (
  priority ← ParseUnsigned_max args 0 0xff;
  each (fun i => song_id ← parsed (ParseCommandArgUnsigned i UINT_MAX); on_playlist (SetPriorityId song_id priority)) (drop 1 args)).

Definition move_to (range : RangeArg) (to : bytes) : CM CommandResult := ok (
  destination ← ParseMoveDestination to range; on_playlist (PlayControl.MoveRange range destination)).
Definition handle_move : Handler := fun args r =>
  range ← ParseRange args 0;
  if IsOpenEnded range then fail r ACK_ERROR_ARG (lit "Open-ended range not supported")
  else to ← arg args 1; move_to range to.
Definition handle_moveid : Handler := fun args r =>
  id ← ParseUnsigned args 0;
  position ← on_playlist (ask (fun q => IdToPosition q id));
  if position <? 0 then fail r ACK_ERROR_NO_EXIST (lit "No such song")
  else to ← arg args 1; move_to (RangeArg_Single position) to.

Definition handle_swap : Handler := fun args r => ok (
  song1 ← ParseUnsigned args 0; song2 ← ParseUnsigned args 1; on_playlist (PlayControl.SwapPositions song1 song2)).
Definition handle_swapid : Handler := fun args r => ok (
  id1 ← ParseUnsigned args 0; id2 ← ParseUnsigned args 1; on_playlist (SwapIds id1 id2)).

(** ** TagCommands.cxx *)

Definition UnknownTag (tag_name : bytes) : bytes := lit "Unknown tag type: " ++ tag_name.
Definition handle_addtagid : Handler := fun args r =>
  song_id ← ParseUnsigned args 0;
  tag_name ← arg args 1;
  match tag_name_parse_i tag_name with
  | None => fail r ACK_ERROR_ARG (UnknownTag tag_name)
  | Some tag_type => value ← arg args 2; ok (on_playlist (AddSongIdTag (enabled_tags env) song_id tag_type value))
  end.
Definition handle_cleartagid : Handler := fun args r =>
  song_id ← ParseUnsigned args 0;
  match args !! 1%nat with
  | None => ok (on_playlist (ClearSongIdTag song_id None))
  | Some tag_name =>
      match tag_name_parse_i tag_name with
      | None => fail r ACK_ERROR_ARG (UnknownTag tag_name)
      | Some tag_type => ok (on_playlist (ClearSongIdTag song_id (Some tag_type)))
      end
  end.

(** ** ClientCommands.cxx *)

Definition handle_close : Handler := fun args r => mret RESULT_FINISH.
Definition handle_ping : Handler := fun args r => mret RESULT_OK.
Definition handle_binary_limit : Handler := fun args r =>
  value ← ParseUnsigned_max args 0 (u32 (GetOutputMaxSize env - 4096));
  if value <? 64 then fail r ACK_ERROR_ARG (lit "Value too small")
  else ok (update (set_binary_limit value)).
Definition handle_password : Handler := fun args r =>
  s ← arg args 0;
  match GetPermissionFromPassword (permissions env) s with
  | None => fail r ACK_ERROR_PASSWORD (lit "incorrect password")
  | Some permission => ok (update (set_permission permission))
  end.

Fixpoint ParseTagMask_names (request : list bytes) (result : Z) : CM Z :=
  match request with
  | [] => mret result
  | name :: request =>
      match tag_name_parse_i name with
      | None => raise (ProtocolError ACK_ERROR_ARG (lit "Unknown tag type"))
      | Some type => ParseTagMask_names request (Z.lor result (TagMask_of type))
      end
  end.
Definition ParseTagMask (request : list bytes) : CM Z :=
  match request with
  | [] => raise (ProtocolError ACK_ERROR_ARG (lit "Not enough arguments"))
  | _ => ParseTagMask_names request TagMask_None
  end.

(** TagPrint.cxx *)
Definition tag_type_lines (mask : Z) : CM unit :=
  each (fun i => if TagMask_Test mask i then out (lit "tagtype: " ++ tag_item_names i ++ [LF]) else mret tt) all_tag_types.
Definition tag_print_types : CM unit := m ← client tag_mask; tag_type_lines (Z.land (enabled_tags env) m).
Definition tag_print_types_available : CM unit := tag_type_lines (enabled_tags env).

Definition handle_tagtypes : Handler := fun args r =>
  match args with
  | [] => ok tag_print_types
  | cmd :: request =>
      if cmd =b lit "all" then
        if negb (bool_decide (request = [])) then fail r ACK_ERROR_ARG (lit "Too many arguments") else ok (update (set_tag_mask TagMask_All))
      else if cmd =b lit "clear" then
        if negb (bool_decide (request = [])) then fail r ACK_ERROR_ARG (lit "Too many arguments") else ok (update (set_tag_mask TagMask_None))
      else if cmd =b lit "enable" then ok (m ← ParseTagMask request; update (fun c => set_tag_mask (Z.lor (tag_mask c) m) c))
      else if cmd =b lit "disable" then ok (m ← ParseTagMask request; update (fun c => set_tag_mask (Z.land (tag_mask c) (TagMask_not m)) c))
      else if cmd =b lit "available" then ok tag_print_types_available
      else if cmd =b lit "reset" then
        update (set_tag_mask TagMask_None);; ok (m ← ParseTagMask request; update (fun c => set_tag_mask (Z.lor (tag_mask c) m) c))
      else fail r ACK_ERROR_ARG (lit "Unknown sub command")
  end.

(** *** "protocol": the only feature is "hide_playlists_in_root" *)

Definition PF_HIDE_PLAYLISTS_IN_ROOT : Z := 0.
Definition protocol_feature_names : list (bytes * Z) := [(lit "hide_playlists_in_root", PF_HIDE_PLAYLISTS_IN_ROOT)].
Definition ProtocolFeature_All : Z := 255.

Definition protocol_feature_parse_i (name : bytes) : option Z :=
  snd <$> List.find (fun f => StringIsEqualIgnoreCase name (fst f)) protocol_feature_names.
Definition print_features (f : bytes * Z -> bool) : CM unit :=
  each (fun i => if f i then out (lit "feature: " ++ fst i ++ [LF]) else mret tt) protocol_feature_names.

Fixpoint ParseProtocolFeature_names (names : list bytes) (features : Z) : CM Z :=
  match names with
  | [] => mret features
  | name :: names =>
      match protocol_feature_parse_i name with
      | None => raise (ProtocolError ACK_ERROR_ARG (lit "Unknown protcol feature"))
      | Some type => ParseProtocolFeature_names names (Z.lor features (Z.shiftl 1 type))
      end
  end.
Definition ParseProtocolFeature (request : list bytes) : CM Z :=
  match request with
  | [] => raise (ProtocolError ACK_ERROR_ARG (lit "Not enough arguments"))
  | _ => ParseProtocolFeature_names request 0
  end.

Definition handle_protocol : Handler := fun args r =>
  match args with
  | [] => ok (value ← client protocol_feature; print_features (fun f => Z.testbit value (snd f)))
  | cmd :: request =>
      let alone (m : CM CommandResult) := if negb (bool_decide (request = [])) then fail r ACK_ERROR_ARG (lit "Too many arguments") else m in
      if cmd =b lit "all" then alone (ok (update (set_protocol_feature ProtocolFeature_All)))
      else if cmd =b lit "clear" then alone (ok (update (set_protocol_feature 0)))
      else if cmd =b lit "enable" then ok (m ← ParseProtocolFeature request; update (fun c => set_protocol_feature (Z.lor (protocol_feature c) m) c))
      else if cmd =b lit "disable" then ok (m ← ParseProtocolFeature request; update (fun c => set_protocol_feature (Z.ldiff (protocol_feature c) m) c))
      else if cmd =b lit "available" then alone (ok (print_features (fun _ => true)))
      else fail r ACK_ERROR_ARG (lit "Unknown sub command")
  end.

(** ** MessageCommands.cxx *)

Definition handle_subscribe : Handler := fun args r =>
  channel_name ← arg args 0;
  s ← Subscribe channel_name;
  match s with
  | SUBSCRIBE_OK => mret RESULT_OK
  | SUBSCRIBE_INVALID => fail r ACK_ERROR_ARG (lit "invalid channel name")
  | SUBSCRIBE_ALREADY => fail r ACK_ERROR_EXIST (lit "already subscribed to this channel")
  | SUBSCRIBE_FULL => fail r ACK_ERROR_EXIST (lit "subscription list is full")
  end.
Definition handle_unsubscribe : Handler := fun args r =>
  channel_name ← arg args 0;
  b ← Unsubscribe channel_name;
  if (b : bool) then mret RESULT_OK else fail r ACK_ERROR_NO_EXIST (lit "not subscribed to this channel").
Definition all_channels : CM (list bytes) := fun p =>
  Some (p, Done (fold_left (fun s c => if deleted c then s else fold_left (fun s x => set_insert x s) (subscriptions c) s) (clients p) [])).
Definition handle_channels : Handler := fun args r => ok (
  l ← all_channels; each (fun channel => out (lit "channel: " ++ channel ++ [LF])) l).
(** [Client::ConsumeMessages] *)
Definition handle_read_messages : Handler := fun args r => ok (
  l ← client messages;
  each (fun m => out (lit "channel: " ++ fst m ++ [LF] ++ lit "message: " ++ snd m ++ [LF])) l;;
  update (set_messages [])).
Definition handle_send_message : Handler := fun args r =>
  channel_name ← arg args 0;
  message_text ← arg args 1;
  if negb (client_message_valid_channel_name channel_name) then fail r ACK_ERROR_ARG (lit "invalid channel name")
  else
    sent ← send_message (refuses env) (channel_name, message_text);
    if (sent : bool) then mret RESULT_OK else fail r ACK_ERROR_NO_EXIST (lit "nobody is subscribed to this channel").

(** ** OtherCommands.cxx *)

Definition handle_kill : Handler := fun args r => mret RESULT_KILL.
(** The flags, or the name that is not known. *)
Fixpoint idle_parse_names (args : list bytes) (flags : Z) : Z + bytes :=
  match args with
  | [] => inl flags
  | i :: args => let event := idle_parse_name i in if event =? 0 then inr i else idle_parse_names args (Z.lor flags event)
  end.
Definition handle_idle : Handler := fun args r =>
  match idle_parse_names args 0 with
  | inr i => fail r ACK_ERROR_ARG (lit "Unrecognized idle event: " ++ i)
  | inl flags =>
      method_ (IdleWait (refuses env) (if flags =? 0 then 2 ^ 32 - 1 else flags));;
      mret RESULT_IDLE
  end.
End Commands.
