(* ===== verification/CommandSafe.v ===== *)
(** Every handler is defined and keeps the partition well-formed, whatever
    its arguments say, unless [hazard] holds. *)
From S2P Require Import Arrays Text Chrono Tags Songs SongFilter RangeArg SongSort Queue QueueWf QueueOps QueueRandom PlayControl PlayRules PlayWf PlayOps PlayPlayback PlayEdits PlayMoves PlayTags PlaySpec SongPrint Permission ArgParser Client ClientWf Commands.
Open Scope Z_scope.

(** ** std::set<std::string> *)

Notation sorted_set := (Sorted.StronglySorted (fun a b : bytes => strcmp a b < 0)) (only parsing).

Lemma set_mem_iff x l : set_mem x l = true <-> x ∈ l.
Proof.
  unfold set_mem. rewrite existsb_exists. split; [intros (y & Hy & E); apply bytes_eqb_eq in E as ->; by apply list_elem_of_In|].
  intros Hx. exists x. split; [by apply list_elem_of_In|apply bytes_eqb_refl].
Qed.

Lemma set_insert_elem x l y : y ∈ set_insert x l -> y = x \/ y ∈ l.
Proof.
  induction l as [|z l IH]; cbn; [rewrite list_elem_of_singleton; auto|]. destruct (strcmp x z <? 0); [rewrite elem_of_cons; auto|].
  destruct (x =b z); [auto|]. rewrite !elem_of_cons. intros [->|Hy]; [auto|]. destruct (IH Hy); auto.
Qed.

Lemma set_insert_sorted x l : sorted_set l -> sorted_set (set_insert x l).
Proof.
  induction 1 as [|z l Hl IH Hf]; cbn; [by repeat constructor|]. destruct (Z.ltb_spec (strcmp x z) 0) as [Hlt|Hge].
  - constructor; [by constructor|]. constructor; [done|]. eapply Forall_impl; [exact Hf|]. intros y Hy. by apply (strcmp_lt_trans x z y).
  - destruct (bytes_eqb_spec x z) as [->|Hne]; [by constructor|]. constructor; [done|].
    apply Forall_forall. intros y Hy. destruct (set_insert_elem _ _ _ Hy) as [->|Hin]; [|by apply (proj1 (Forall_forall _ _) Hf)].
    pose proof (strcmp_sgn x z). destruct (Z.eq_dec (strcmp x z) 0) as [E|E]; [by apply strcmp_eq in E|]. lia.
Qed.

Lemma set_insert_length x l : set_mem x l = false -> length (set_insert x l) = S (length l).
Proof.
  induction l as [|z l IH]; cbn; [done|]. intros [E Hm]%orb_false_iff. destruct (strcmp x z <? 0); [done|]. rewrite E. cbn. by rewrite IH.
Qed.

Lemma set_erase_sorted x l : sorted_set l -> sorted_set (set_erase x l).
Proof.
  unfold set_erase. induction 1 as [|z l Hl IH Hf]; cbn; [constructor|]. destruct (negb (x =b z)); [|done]. constructor; [done|].
  apply Forall_forall. intros y Hy%list_elem_of_In. apply filter_In in Hy as [Hy _]. by apply (proj1 (Forall_forall _ _) Hf), list_elem_of_In.
Qed.

Lemma set_erase_length x l : sorted_set l -> set_mem x l = true -> S (length (set_erase x l)) = length l.
Proof.
  unfold set_erase. induction 1 as [|z l Hl IH Hf]; cbn; [done|]. destruct (bytes_eqb_spec x z) as [->|Hne]; cbn; [|intros; by rewrite IH].
  intros _. f_equal. f_equal. clear IH Hl. induction l as [|y l IH]; [done|]. apply Forall_cons in Hf as [Hy Hf]. cbn.
  destruct (bytes_eqb_spec z y) as [->|_]; [rewrite strcmp_refl in Hy; lia|]. cbn. by rewrite IH.
Qed.

Section Safe.
Context `{RandomLaws} `{PlayerLaws} (env : Environment).
Implicit Types (p : Partition).

(** The end of a handler: only "idle" leaves the client waiting. *)
Definition handled (m : CM CommandResult) p : Prop :=
  cwp m (fun r p' => partition_ok p' /\ (self_idle p' = true -> r = Done RESULT_IDLE)) p.

Lemma steady_handled m p : steady m p -> handled m p.
Proof. intros Hm. eapply cwp_conseq; [exact Hm|]. intros r p' [Hp Hi]. split; [done|]. by rewrite Hi. Qed.

(** ** Rules for arguments *)

Lemma cwp_arg args i s Q p : args !! i = Some s -> Q (Done s) p -> cwp (arg args i) Q p.
Proof. intros E HQ. unfold cwp, arg. by rewrite E. Qed.

Lemma cwp_parsed {A} (r : result A) (Q : outcome A -> Partition -> Prop) p : (forall a, r = Ok a -> Q (Done a) p) -> (forall e, Q (Exc e) p) -> cwp (parsed r) Q p.
Proof. destruct r; cbn; auto. Qed.

Lemma cwp_mode_arg {A} (r : result A) (Q : outcome A -> Partition -> Prop) p : (forall a, Q (Done a) p) -> (forall e, Q (Exc e) p) -> cwp (mode_arg r) Q p.
Proof. destruct r; cbn; auto. Qed.

Lemma cwp_ParseUnsigned args i s Q p : args !! i = Some s ->
  (forall n, 0 <= n <= UINT_MAX -> ParseCommandArgUnsigned s UINT_MAX = Ok n -> Q (Done n) p) -> (forall e, Q (Exc e) p) -> cwp (ParseUnsigned args i) Q p.
Proof.
  intros E HQ He. unfold ParseUnsigned. apply cwp_bind, (cwp_arg args i s); [done|]. apply cwp_parsed; [|done].
  intros n Hn. apply HQ; [|done]. by apply (ParseCommandArgUnsigned_bounds s).
Qed.

Lemma cwp_ParseUnsigned_max args i s max Q p : args !! i = Some s ->
  (forall n, 0 <= n <= max -> Q (Done n) p) -> (forall e, Q (Exc e) p) -> cwp (ParseUnsigned_max args i max) Q p.
Proof.
  intros E HQ He. unfold ParseUnsigned_max. apply cwp_bind, (cwp_arg args i s); [done|]. apply cwp_parsed; [|done].
  intros n Hn. apply HQ. by apply (ParseCommandArgUnsigned_bounds s).
Qed.

Lemma cwp_ParseRange args i s Q p : args !! i = Some s ->
  (forall r, client_range r = true -> ParseCommandArgRange s = Ok r -> Q (Done r) p) -> (forall e, Q (Exc e) p) -> cwp (ParseRange args i) Q p.
Proof.
  intros E HQ He. unfold ParseRange. apply cwp_bind, (cwp_arg args i s); [done|]. apply cwp_parsed; [|done].
  intros r Hr. apply HQ; [|done]. by apply (ParseCommandArgRange_ok s).
Qed.

Lemma cwp_ParseOptional args i d Q p : client_range d = true ->
  (forall r, client_range r = true -> Q (Done r) p) -> (forall e, Q (Exc e) p) -> cwp (ParseOptional args i d) Q p.
Proof.
  intros Hd HQ He. unfold ParseOptional. destruct (i <? length args)%nat eqn:Hi; [|by apply HQ].
  apply Nat.ltb_lt in Hi. destruct (lookup_lt_is_Some_2 args i Hi) as [s Hs]. apply (cwp_ParseRange args i s); auto.
Qed.

Lemma cwp_ParseBool args i s (Q : outcome bool -> Partition -> Prop) p : args !! i = Some s ->
  (forall b, Q (Done b) p) -> (forall e, Q (Exc e) p) -> cwp (ParseBool args i) Q p.
Proof. intros E HQ He. unfold ParseBool. apply cwp_bind, (cwp_arg args i s); [done|]. apply cwp_parsed; auto. Qed.

Lemma steady_fail r ack msg p : ready p -> steady (fail env r ack msg) p.
Proof. intros Hp. apply steady_bind; [by apply steady_Error|]. intros _ p' Hp'. by apply steady_ret. Qed.

Lemma steady_ok (m : CM unit) p : steady m p -> steady (ok m) p.
Proof. intros Hm. apply steady_bind; [done|]. intros _ p' Hp'. by apply steady_ret. Qed.

Lemma steady_out s p : ready p -> steady (out env s) p.
Proof. apply steady_write. Qed.

Lemma steady_each {A} (f : A -> CM unit) l p : (forall a p, ready p -> steady (f a) p) -> ready p -> steady (each f l) p.
Proof. intros Hf. revert p. induction l as [|a l IH]; intros p Hp; [done|]. apply steady_bind; [by apply Hf|]. intros _ p' Hp'. by apply IH. Qed.

Lemma steady_run op p : (forall q, permitted q op = true) -> ready p -> steady (on_playlist (run op)) p.
Proof. intros Hop. apply steady_playlist. intros cs Hpl. apply (run_safe cs); [done|apply Hop]. Qed.

(** A command to the player. *)
Lemma steady_player f p : (forall c, has_next c = false -> has_next (f c) = false) -> ready p -> steady (on_playlist (PlayControl.player f)) p.
Proof. intros Hf. apply steady_playlist. intros cs Hpl. unfold safe. wstep. exists cs.
  by apply (pl_ok_player cs (mkWorld (p_playlist p) (p_player p) []) (f (p_player p)) []); [|apply Hf].
Qed.

(** ** What a client must not send *)

(** The id 0. *)
Definition zero_id (s : bytes) : bool := match ParseCommandArgUnsigned s UINT_MAX with Ok n => n =? 0 | Throw _ => false end.
Definition zero_at (args : list bytes) (i : nat) : bool := match args !! i with Some s => zero_id s | None => false end.

(** "-N" with more than there is before the current song. *)
Definition before_start (to : bytes) (range : RangeArg) p : bool :=
  match to with
  | c :: s =>
      bool_decide (c = "-"%char) &&
      match current_without range p, ParseCommandArgUnsigned s UINT_MAX with
      | Some (_, Done current), Ok n => current <? n
      | _, _ => false
      end
  | [] => false
  end.

Lemma zero_id_spec s n : zero_id s = false -> 0 <= n -> ParseCommandArgUnsigned s UINT_MAX = Ok n -> 1 <= n.
Proof. unfold zero_id. intros Hz Hn E. rewrite E in Hz. apply Z.eqb_neq in Hz. lia. Qed.

Lemma cwp_ParseId args i s Q p : args !! i = Some s -> zero_id s = false ->
  (forall n, 1 <= n -> Q (Done n) p) -> (forall e, Q (Exc e) p) -> cwp (ParseUnsigned args i) Q p.
Proof. intros E Hz HQ He. apply (cwp_ParseUnsigned args i s); [done| |done]. intros n Hn En. apply HQ. by apply (zero_id_spec s); [|lia|]. Qed.

(** Numbers, ids, times and flags from the arguments, and then an operation
    of the playlist. *)
Ltac arguments args Hn :=
  repeat (destruct args as [|?s args]; cbn [length] in Hn; try (exfalso; lia)).
Ltac an_arg :=
  lazymatch goal with
  | |- cwp (ParseUnsigned _ _) _ _ =>
      first [eapply cwp_ParseId; [reflexivity|assumption|intros ??|by intros] | eapply cwp_ParseUnsigned; [reflexivity|intros ???|by intros]]
  | |- cwp (ParseUnsigned_max _ _ _) _ _ => eapply cwp_ParseUnsigned_max; [reflexivity|intros ??|by intros]
  | |- cwp (ParseRange _ _) _ _ => eapply cwp_ParseRange; [reflexivity|intros ???|by intros]
  | |- cwp (ParseBool _ _) _ _ => eapply cwp_ParseBool; [reflexivity|intros ?|by intros]
  | |- cwp (ParseOptional _ _ _) _ _ => apply cwp_ParseOptional; [done|intros ??|by intros]
  | |- cwp (arg _ _) _ _ => eapply cwp_arg; [reflexivity|]
  | |- cwp (parsed _) _ _ => apply cwp_parsed; [intros ??|by intros]
  | |- cwp (mode_arg _) _ _ => apply cwp_mode_arg; [intros ?|by intros]
  end.
Ltac next_arg := apply cwp_bind; an_arg; cbv beta iota.
Ltac operation op := apply (steady_run op); [intros; cbn [permitted]; rewrite ?andb_true_iff, ?Z.leb_le, ?Z.ltb_lt; repeat split; first [done|lia|auto]|assumption].

Lemma client_range_start r : client_range r = true -> 0 <= r_start r.
Proof. unfold client_range. rewrite !andb_true_iff, Z.leb_le. tauto. Qed.
Hint Resolve client_range_start : core.

(** ** PlayerCommands.cxx *)

Lemma handle_play_ok args r p : (length args <= 1)%nat -> ready p -> steady (handle_play args r) p.
Proof.
  intros Hn Hp. apply steady_ok. destruct args as [|s args]; [operation OpPlayAny|]. next_arg. operation (OpPlayPosition n).
Qed.

Lemma handle_playid_ok args r p : zero_at args 0 = false -> ready p -> steady (handle_playid args r) p.
Proof.
  intros Hz Hp. apply steady_ok. destruct args as [|s args]; [operation OpPlayAny|]. next_arg. operation (OpPlayId n).
Qed.

Lemma handle_stop_ok args r p : ready p -> steady (handle_stop args r) p.
Proof. intros Hp. apply steady_ok. operation OpStop. Qed.

Lemma handle_pause_ok args r p : ready p -> steady (handle_pause args r) p.
Proof.
  intros Hp. apply steady_ok. destruct args as [|s args]; [apply steady_player; [apply pause_toggle_law|done]|].
  next_arg. apply steady_player; [apply pause_law|done].
Qed.

Lemma handle_next_ok args r p : ready p -> steady (handle_next args r) p.
Proof.
  intros Hp. apply steady_ok, steady_playlist; [|done]. intros cs Hpl. unfold safe. do 4 wstep.
  set (w1 := mkWorld _ _ _). assert (pl_ok cs w1) as Hpl1 by (apply (pl_ok_options cs (mkWorld (p_playlist p) (p_player p) []) (with_single SINGLE_OFF (queue (p_playlist p)))); try done; by left).
  pose proof (run_safe cs w1 OpPlayNext Hpl1 eq_refl) as Hs. unfold safe, wp in Hs. unfold wp, at_exit. cbn [run] in Hs.
  destruct (PlayNext w1) as [[w' r']|]; [|done]. destruct Hs as [cs' Hpl']. exists cs'. apply (pl_ok_options cs' w'); try done; by left.
Qed.

Lemma handle_previous_ok args r p : ready p -> steady (handle_previous args r) p.
Proof. intros Hp. apply steady_ok. operation OpPlayPrevious. Qed.

Lemma handle_repeat_ok args r p : (length args = 1)%nat -> ready p -> steady (handle_repeat args r) p.
Proof. intros Hn Hp. apply steady_ok. arguments args Hn. next_arg. operation (OpSetRepeat b). Qed.

Lemma handle_single_ok args r p : (length args = 1)%nat -> ready p -> steady (handle_single args r) p.
Proof. intros Hn Hp. apply steady_ok. arguments args Hn. do 2 next_arg. operation (OpSetSingle a). Qed.

Lemma handle_consume_ok args r p : (length args = 1)%nat -> ready p -> steady (handle_consume args r) p.
Proof. intros Hn Hp. apply steady_ok. arguments args Hn. do 2 next_arg. operation (OpSetConsume a). Qed.

Lemma UpdateEffectiveReplayGainMode_steady p : ready p -> steady UpdateEffectiveReplayGainMode p.
Proof. intros Hp. unfold steady, cwp, UpdateEffectiveReplayGainMode. cbv zeta. apply steady_player; [apply replay_gain_law|done]. Qed.

Lemma handle_random_ok args r p : (length args = 1)%nat -> ready p -> steady (handle_random args r) p.
Proof.
  intros Hn Hp. apply steady_ok. arguments args Hn. next_arg. apply steady_bind; [operation (OpSetRandom b)|].
  intros _ p' Hp'. by apply UpdateEffectiveReplayGainMode_steady.
Qed.

Lemma handle_clearerror_ok args r p : ready p -> steady (handle_clearerror args r) p.
Proof. intros Hp. apply steady_ok, steady_player; [apply error_law|done]. Qed.

Lemma handle_seek_ok args r p : (length args = 2)%nat -> ready p -> steady (handle_seek args r) p.
Proof. intros Hn Hp. apply steady_ok. arguments args Hn. do 3 next_arg. operation (OpSeekPosition n a). Qed.

Lemma handle_seekid_ok args r p : (length args = 2)%nat -> zero_at args 0 = false -> ready p -> steady (handle_seekid args r) p.
Proof. intros Hn Hz Hp. apply steady_ok. arguments args Hn. do 3 next_arg. operation (OpSeekId n a). Qed.

Lemma handle_seekcur_ok args r p : (length args = 1)%nat -> ready p -> steady (handle_seekcur args r) p.
Proof. intros Hn Hp. apply steady_ok. arguments args Hn. do 2 next_arg. 
  match goal with |- cwp (on_playlist (SeekCurrent ?t ?b)) _ _ => operation (OpSeekCurrent t b) end. Qed.

Lemma handle_crossfade_ok args r p : (length args = 1)%nat -> ready p -> steady (handle_crossfade args r) p.
Proof. intros Hn Hp. apply steady_ok. arguments args Hn. next_arg. apply steady_player; [apply cross_fade_law|done]. Qed.

Lemma handle_mixrampdb_ok args r p : (length args = 1)%nat -> ready p -> steady (handle_mixrampdb args r) p.
Proof. intros Hn Hp. apply steady_ok. arguments args Hn. do 2 next_arg. apply steady_player; [apply mix_ramp_db_law|done]. Qed.

Lemma handle_mixrampdelay_ok args r p : (length args = 1)%nat -> ready p -> steady (handle_mixrampdelay args r) p.
Proof. intros Hn Hp. apply steady_ok. arguments args Hn. do 2 next_arg. apply steady_player; [apply mix_ramp_delay_law|done]. Qed.

Lemma handle_replay_gain_mode_ok args r p : (length args = 1)%nat -> ready p -> steady (handle_replay_gain_mode args r) p.
Proof.
  intros Hn Hp. apply steady_ok. arguments args Hn. do 2 next_arg. unfold SetReplayGainMode.
  apply steady_bind; [|intros _ p' Hp'; by apply steady_EmitIdle]. apply steady_bind; [by apply ready_playlist; [|apply Hp]|].
  intros _ p' Hp'. by apply UpdateEffectiveReplayGainMode_steady.
Qed.

Lemma handle_replay_gain_status_ok args r p : ready p -> steady (handle_replay_gain_status env args r) p.
Proof. intros Hp. apply steady_ok. unfold steady, cwp. by apply steady_out. Qed.

Lemma cwp_out s Q p : ready p -> (forall p', ready p' -> p_playlist p' = p_playlist p -> Q (Done tt) p') -> cwp (out env s) Q p.
Proof.
  intros Hp HQ. destruct (self_lookup p (proj1 Hp)) as (c & Hc & _). pose proof (steady_out s p Hp) as Hs.
  unfold steady, cwp in *. unfold out, write, update in *. by apply HQ.
Qed.

Lemma cwp_outs l Q p : ready p -> (forall p', ready p' -> p_playlist p' = p_playlist p -> Q (Done tt) p') -> cwp (each (out env) l) Q p.
Proof.
  revert p. induction l as [|x l IH]; intros p Hp HQ; [by apply HQ|]. apply cwp_bind, cwp_out; [done|]. intros p' Hp' E.
  apply IH; [done|]. intros p2 Hp2 E2. apply HQ; [done|congruence].
Qed.

Lemma steady_outs l p : ready p -> steady (each (out env) l) p.
Proof. intros Hp. by apply cwp_outs. Qed.

(** ** Positions *)

Lemma wp_GetCurrentPosition cs w (Q : result Z -> World -> Prop) : pl_ok cs w ->
  (forall c, -1 <= c < GetLength (queue (pl w)) -> Q (Ok c) w) -> wp GetCurrentPosition Q w.
Proof.
  intros Hpl HQ. destruct (p_core _ _ Hpl) as [Hok Hc _ _ _]. unfold GetCurrentPosition. do 2 wstep.
  destruct (Z.leb_spec 0 (current (pl w))) as [Hc0|]; [|wstep; apply HQ; lia].
  destruct (turn_exists (queue (pl w)) (current (pl w)) Hok ltac:(lia)) as (n & k & it & Ht).
  eapply wp_ask; [exact (turn_OrderToPosition Ht)|]. apply HQ. pose proof (turn_range Hok Ht). unfold GetLength. lia.
Qed.

Lemma wp_OrderToPosition cs w o (Q : result Z -> World -> Prop) : pl_ok cs w -> 0 <= o < GetLength (queue (pl w)) ->
  (forall i, 0 <= i < GetLength (queue (pl w)) -> Q (Ok i) w) -> wp (ask (fun q => OrderToPosition q o)) Q w.
Proof.
  intros Hpl Ho HQ. destruct (turn_exists (queue (pl w)) o (c_queue _ _ (p_core _ _ Hpl)) Ho) as (n & k & it & Ht).
  eapply wp_ask; [exact (turn_OrderToPosition Ht)|]. apply HQ. pose proof (turn_range (c_queue _ _ (p_core _ _ Hpl)) Ht). unfold GetLength. lia.
Qed.

Lemma wp_GetNextPosition cs w (Q : result Z -> World -> Prop) : pl_ok cs w ->
  (forall c, -1 <= c < GetLength (queue (pl w)) -> Q (Ok c) w) -> wp GetNextPosition Q w.
Proof.
  intros Hpl HQ. pose proof (p_core _ _ Hpl) as [_ Hc _ _ _]. pose proof (Nat2Z.is_nonneg (length (items (queue (pl w))))) as Hlen.
  assert (forall o, 0 <= o < GetLength (queue (pl w)) -> wp (ask (fun q => OrderToPosition q o)) Q w) as Hask.
  { intros o Ho. apply (wp_OrderToPosition cs); [done|done|]. intros i Hi. apply HQ. lia. }
  unfold GetNextPosition. do 4 wstep. destruct (Z.ltb_spec (current (pl w)) 0) as [|Hc0]; [wstep; apply HQ; unfold GetLength; lia|].
  destruct (_ && _); [apply Hask; lia|]. unfold IsValidOrder. destruct (Z.ltb_spec (current (pl w) + 1) (GetLength (queue (pl w)))); [apply Hask; lia|].
  destruct (repeat _); [apply Hask; lia|]. wstep. apply HQ. lia.
Qed.

Lemma wp_position_text name id_name c w (Q : result (list bytes) -> World -> Prop) : c < GetLength (queue (pl w)) -> (forall l, Q (Ok l) w) ->
  wp (position_text name id_name c) Q w.
Proof.
  intros Hc HQ. unfold position_text. destruct (Z.ltb_spec c 0); [wstep; apply HQ|]. destruct (Z_of_nat_complete c) as [k ->]; [done|].
  unfold GetLength in Hc. destruct (lookup_lt_is_Some_2 (items (queue (pl w))) k ltac:(lia)) as [it Hit].
  wstep. eapply wp_ask; [unfold PositionToId; by rewrite arr_get_nat, Hit|]. wstep. apply HQ.
Qed.

Lemma handle_status_ok args r p : ready p -> steady (handle_status env args r) p.
Proof.
  intros Hp. apply steady_ok, steady_bind; [|intros l q Hq]; [|by apply steady_outs].
  apply steady_playlist; [|done]. intros cs Hpl. unfold safe, status_text. do 2 wstep. set (w1 := mkWorld _ _ _).
  assert (pl_ok cs w1) as Hpl1 by (apply (pl_ok_player cs (mkWorld (p_playlist p) (p_player p) [])); [done|apply status_law]). clearbody w1.
  do 2 wstep. apply wp_bind. eapply (wp_conseq _ (fun r w => r = Ok (pc w1) /\ w = w1)); [done|]. intros rr w' [-> ->].
  wstep. apply (wp_GetCurrentPosition cs); [done|]. intros c Hc. wstep. apply wp_position_text; [lia|]. intros lines.
  wstep. apply (wp_GetNextPosition cs); [done|]. intros n Hn. wstep. apply wp_position_text; [lia|]. intros lines'. wstep. by exists cs.
Qed.

Lemma partition_eta p : mkPartition (clients p) (self p) (p_playlist p) (p_player p) (replay_gain_mode p) (idle_monitor p) = p.
Proof. by destruct p. Qed.

Lemma partition_length p : partition_ok p -> 0 <= GetLength (queue (p_playlist p)) < 2 ^ 30.
Proof. intros [[cs Hpl] _ _]. apply (GetLength_small _ (c_queue _ _ (p_core _ _ Hpl))). Qed.

Lemma cwp_RequireCurrentPosition Q p : partition_ok p ->
  (forall c, 0 <= c < GetLength (queue (p_playlist p)) -> Q (Done c) p) -> (forall e, Q (Exc e) p) -> cwp RequireCurrentPosition Q p.
Proof.
  intros Hp HQ He. destruct (q_playlist p Hp) as [cs Hpl]. apply cwp_bind, cwp_playlist, (wp_GetCurrentPosition cs); [done|].
  intros c Hc. cbn. rewrite partition_eta. destruct (Z.ltb_spec c 0); [apply He|]. apply HQ. cbn in Hc. lia.
Qed.

Lemma cwp_ParseInsertPosition s Q p : partition_ok p ->
  (forall to, 0 <= to <= GetLength (queue (p_playlist p)) -> Q (Done to) p) -> (forall e, Q (Exc e) p) -> cwp (ParseInsertPosition s) Q p.
Proof.
  intros Hp HQ He. pose proof (partition_length p Hp) as Hl.
  assert (forall s, cwp (parsed (ParseCommandArgUnsigned s (GetLength (queue (p_playlist p))))) Q p) as Habs.
  { intros s'. apply cwp_parsed; [|done]. intros n Hn. apply HQ. by apply (ParseCommandArgUnsigned_bounds s'). }
  unfold ParseInsertPosition. apply cwp_bind. cbn. destruct s as [|c s]; [apply Habs|].
  destruct (bool_decide (c = "+"%char)); [|destruct (bool_decide (c = "-"%char)); [|apply Habs]];
    (apply cwp_bind, cwp_RequireCurrentPosition; [done| |done]); intros cur Hcur; apply cwp_bind, cwp_parsed; try done; intros n Hn%ParseCommandArgUnsigned_bounds.
  - rewrite u32_id in Hn by lia. apply HQ. rewrite u32_id; lia.
  - apply HQ. rewrite u32_id; lia.
Qed.

(** ** QueueCommands.cxx *)

Lemma song_ids_positive cs w id : pl_ok cs w -> id ∈ song_ids w -> 1 <= id.
Proof.
  intros Hpl Hin. pose proof (table_ids _ _ (ok_table _ (c_queue _ _ (p_core _ _ Hpl)))) as Hf.
  unfold song_ids, tracks in Hin. rewrite <- list_fmap_compose in Hin. apply list_elem_of_fmap in Hin as (it & -> & Hit).
  by apply (proj1 (Forall_forall _ _) Hf it Hit).
Qed.

Lemma song_ids_length w : GetLength (queue (pl w)) = Z.of_nat (length (song_ids w)).
Proof. unfold song_ids, tracks, GetLength. by rewrite !length_fmap. Qed.

(** The new song is at the end, and has an id. *)
Lemma wp_AppendURI cs w uri : pl_ok cs w ->
  wp (AppendURI (LoadSong env) uri) (fun r w' => (exists cs', pl_ok cs' w') /\
    match r with Ok id => 1 <= id /\ GetLength (queue (pl w')) = GetLength (queue (pl w)) + 1 | Throw _ => True end) w.
Proof.
  intros Hpl. unfold AppendURI. destruct (LoadSong env uri) as [song|e]; [|wstep; by split; [exists cs|]].
  eapply wp_conseq; [by apply (AppendSong_ok cs)|]. intros [id|e] w' (cs' & Hpl' & _ & Hr); (split; [by exists cs'|]); [|done].
  split; [apply (song_ids_positive cs' w'); [done|]; rewrite Hr; apply elem_of_app; right; by apply list_elem_of_singleton|].
  rewrite !song_ids_length, Hr, length_app. cbn. lia.
Qed.

Lemma AppendURI_steady uri (k : Z -> CM unit) p : ready p ->
  (forall id p', 1 <= id -> GetLength (queue (p_playlist p')) = GetLength (queue (p_playlist p)) + 1 -> ready p' -> steady (k id) p') ->
  steady (id ← on_playlist (AppendURI (LoadSong env) uri); k id) p.
Proof.
  intros Hp Hk. apply cwp_bind, cwp_playlist. destruct (q_playlist p (proj1 Hp)) as [cs Hpl].
  eapply wp_conseq; [by apply (wp_AppendURI cs)|]. intros r w [[cs' Hpl'] Hr].
  assert (ready (mkPartition (clients p) (self p) (pl w) (pc w) (replay_gain_mode p) (fold_left (fun f e => Z.lor f (event_flags e)) (events w) (idle_monitor p)))) as Hp'.
  { apply ready_playlist; [done|]. exists cs'. by apply (pl_ok_events cs' w). }
  destruct r as [id|e]; [|done]. destruct Hr as [Hid Hl]. by apply Hk.
Qed.

Lemma handle_addid_ok args r p : (1 <= length args <= 2)%nat -> ready p -> steady (handle_addid env args r) p.
Proof.
  intros Hn Hp. apply steady_ok. destruct args as [|uri args]; [cbn in Hn; lia|]. next_arg.
  set (len := GetLength (queue (p_playlist p))). apply cwp_bind. cbn [cwp the_playlist].
  assert (forall to : option Z, match to with Some to => 0 <= to <= len | None => True end -> steady
    (added_id ← on_playlist (AppendURI (LoadSong env) uri);
     (match to with Some to => on_playlist (catch (MoveRange (RangeArg_Single len) to) (fun e => DeleteId added_id;; throw e)) | None => mret tt end);;
     out env (lit "Id: " ++ print_nat added_id ++ [LF])) p) as Hadd.
  { intros to Hto. apply AppendURI_steady; [done|]. intros id p' Hid Hl Hp'. apply steady_bind; [|intros _ p'' Hp''; by apply steady_out].
    destruct to as [to|]; [|done]. pose proof (partition_length p (proj1 Hp)). pose proof (partition_length p' (proj1 Hp')).
    apply steady_playlist; [|done]. intros cs Hpl. apply wp_catch. eapply wp_conseq; [apply (run_safe cs _ (OpMove (RangeArg_Single len) to) Hpl)|].
    - unfold len in *. cbn [permitted RangeArg_Single r_start r_end]. rewrite u32_id by lia. rewrite !andb_true_iff, !Z.leb_le, !Z.ltb_lt. lia.
    - intros [[]|e] w' [cs' Hpl']; [by exists cs'|]. wstep. eapply wp_conseq; [by apply (DeleteId_safe cs')|]. intros [[]|e'] w2 Hpl2; [wstep|]; done. }
  change (cwp (to ← (match (uri :: args) !! 1%nat with Some s => to ← ParseInsertPosition s; mret (Some to) | None => mret None end);
    added_id ← on_playlist (AppendURI (LoadSong env) uri);
    (match to with Some to => on_playlist (catch (MoveRange (RangeArg_Single len) to) (fun e => DeleteId added_id;; throw e)) | None => mret tt end);;
    out env (lit "Id: " ++ print_nat added_id ++ [LF])) (fun _ => ready) p).
  apply cwp_bind. destruct args as [|s args]; cbn [lookup list_lookup]; [by apply (Hadd None)|].
  apply cwp_bind, cwp_ParseInsertPosition; [apply Hp| |done]. intros to Hto. by apply (Hadd (Some to)).
Qed.

Lemma handle_rangeid_ok args r p : (length args = 2)%nat -> zero_at args 0 = false -> ready p -> steady (handle_rangeid env args r) p.
Proof.
  intros Hn Hz Hp. arguments args Hn. do 2 next_arg. destruct (parse_time_range _) as [[start end_]|] eqn:Hse; [|by apply steady_fail].
  apply parse_time_range_ok in Hse. apply steady_ok. operation (OpSetRange n start end_).
Qed.

Lemma handle_delete_ok args r p : (length args = 1)%nat -> ready p -> steady (handle_delete args r) p.
Proof. intros Hn Hp. apply steady_ok. arguments args Hn. next_arg. operation (OpDeleteRange r0). Qed.

Lemma handle_deleteid_ok args r p : (length args = 1)%nat -> zero_at args 0 = false -> ready p -> steady (handle_deleteid args r) p.
Proof. intros Hn Hz Hp. apply steady_ok. arguments args Hn. next_arg. operation (OpDeleteId n). Qed.

Lemma handle_shuffle_ok args r p : ready p -> steady (handle_shuffle args r) p.
Proof. intros Hp. apply steady_ok. next_arg. operation (OpShuffle r0). Qed.

Lemma handle_clear_ok args r p : ready p -> steady (handle_clear args r) p.
Proof. intros Hp. apply steady_ok. operation OpClearPlaylist. Qed.

(** Output leaves the playlist alone. *)
(** What can be written about every song of a queue. *)
Definition defined (text : Queue -> Z -> option (list bytes)) : Prop :=
  forall q (k : nat) it, items q !! k = Some it -> is_Some (text q (Z.of_nat k)).

Lemma queue_print_steady text n i p : defined text ->
  0 <= i -> i + Z.of_nat n <= GetLength (queue (p_playlist p)) -> ready p -> steady (queue_print env text n i) p.
Proof.
  intros Htext. revert i p. induction n as [|n IH]; intros i p Hi Hl Hp; [done|]. cbn [queue_print].
  unfold GetLength in Hl. destruct (Z_of_nat_complete i Hi) as [k ->].
  destruct (lookup_lt_is_Some_2 (items (queue (p_playlist p))) k ltac:(lia)) as [it Hit].
  destruct (Htext _ k it Hit) as [l El]. apply cwp_bind, cwp_playlist. eapply wp_ask; [exact El|]. cbn. rewrite partition_eta.
  apply cwp_bind, cwp_outs; [done|]. intros p' Hp' E. apply (IH (Z.of_nat k + 1)); [lia| |done]. unfold GetLength. rewrite E. lia.
Qed.

Lemma uri_text_defined : defined uri_text.
Proof. intros q k it Hit. unfold uri_text, Get. rewrite arr_get_nat, Hit. by eexists. Qed.
Lemma song_text_defined mask : defined (song_text env mask).
Proof. intros q k it Hit. unfold song_text, queue_print_song_info, Get, PositionToId, GetPriorityAtPosition. rewrite arr_get_nat, Hit. by eexists. Qed.
Lemma cpos_text_defined : defined cpos_text.
Proof. intros q k it Hit. unfold cpos_text, PositionToId. rewrite arr_get_nat, Hit. by eexists. Qed.
Lemma if_newer_defined version text : defined text -> defined (if_newer version text).
Proof.
  intros Ht q k it Hit. unfold if_newer, IsNewerAtPosition. rewrite arr_get_nat, Hit. cbn. destruct (_ || _); [by apply (Ht q k it)|by eexists].
Qed.

Lemma handle_playlist_ok args r p : ready p -> steady (handle_playlist env args r) p.
Proof.
  intros Hp. apply steady_ok. unfold playlist_print_uris. apply cwp_bind. cbn. apply (queue_print_steady _ _ 0); [apply uri_text_defined|lia|unfold GetLength; lia|done].
Qed.

Lemma ClipRelaxed_bounds r n : client_range r = true -> 0 <= n ->
  0 <= r_start (ClipRelaxed r n) /\ r_start (ClipRelaxed r n) + Z.of_nat (Z.to_nat (r_end (ClipRelaxed r n) - r_start (ClipRelaxed r n))) <= n.
Proof.
  unfold client_range, ClipRelaxed. rewrite !andb_true_iff, !Z.leb_le. intros [[[Hs _] Hse] _] Hn. destruct (Z.ltb_spec n (r_end r)); cbn.
  - destruct (Z.ltb_spec n (r_start r)); cbn; lia.
  - destruct (Z.ltb_spec (r_end r) (r_start r)); cbn; lia.
Qed.

Lemma playlist_print_changes_steady text version range p : defined text -> client_range range = true -> ready p ->
  steady (playlist_print_changes env text version range) p.
Proof.
  intros Ht Hr Hp. apply cwp_bind. cbn. pose proof (partition_length p (proj1 Hp)) as Hl.
  destruct (ClipRelaxed_bounds range (GetLength (queue (p_playlist p)))) as [Hs He]; [done|lia|].
  apply queue_print_steady; [by apply if_newer_defined|exact Hs|exact He|done].
Qed.

Lemma handle_plchangesposid_ok args r p : (1 <= length args)%nat -> ready p -> steady (handle_plchangesposid env args r) p.
Proof.
  intros Hn Hp. apply steady_ok. destruct args as [|s args]; [cbn in Hn; lia|]. do 3 next_arg.
  by apply playlist_print_changes_steady; [apply cpos_text_defined|..].
Qed.

Lemma handle_plchanges_ok args r p : (1 <= length args)%nat -> ready p -> steady (handle_plchanges env args r) p.
Proof.
  intros Hn Hp. apply steady_ok. destruct args as [|s args]; [cbn in Hn; lia|]. do 3 next_arg.
  apply steady_bind; [by apply steady_client|]. intros mask q Hq. by apply playlist_print_changes_steady; [apply song_text_defined|..].
Qed.

Lemma playlist_print_info_steady range p : 0 <= r_start range -> ready p -> steady (playlist_print_info env range) p.
Proof.
  intros Hs Hp. apply steady_bind; [by apply steady_client|]. clear p Hp. intros mask p Hp. apply cwp_bind. cbn. unfold CheckClip.
  pose proof (partition_length p (proj1 Hp)) as Hl. set (len := GetLength _) in *. destruct (Z.ltb_spec len (r_start range)) as [|Hle]; [done|].
  set (range' := if len <? r_end range then _ else range).
  assert (r_start range' = r_start range /\ r_end range' <= len) as [Es Ee] by (subst range'; destruct (Z.ltb_spec len (r_end range)); done).
  unfold RangeArg_IsEmpty. destruct (Z.leb_spec (r_end range') (r_start range')) as [|Hlt]; [done|].
  apply queue_print_steady; [apply song_text_defined|lia| |done]. fold len. lia.
Qed.

Lemma handle_playlistinfo_ok args r p : ready p -> steady (handle_playlistinfo env args r) p.
Proof. intros Hp. apply steady_ok. next_arg. apply playlist_print_info_steady; [by apply client_range_start|done]. Qed.

Lemma handle_playlistid_ok args r p : zero_at args 0 = false -> ready p -> steady (handle_playlistid env args r) p.
Proof.
  intros Hz Hp. apply steady_ok. destruct args as [|s args]; [by apply playlist_print_info_steady|]. next_arg.
  apply cwp_bind, cwp_playlist. destruct (q_playlist p (proj1 Hp)) as [cs Hpl]. apply (wp_IdToPosition cs); [done|done|]. intros i _. cbn. rewrite partition_eta.
  destruct (Z.ltb_spec i 0); [done|]. by apply playlist_print_info_steady.
Qed.

Lemma handle_currentsong_ok args r p : ready p -> steady (handle_currentsong env args r) p.
Proof.
  intros Hp. apply steady_ok, steady_bind; [by apply steady_client|]. clear p Hp. intros mask p Hp. destruct (q_playlist p (proj1 Hp)) as [cs Hpl].
  apply cwp_bind, cwp_playlist, (wp_GetCurrentPosition cs); [done|]. intros c Hc. cbn. rewrite partition_eta. destruct (Z.ltb_spec c 0); [done|].
  change (steady (queue_print env (song_text env mask) 1 c) p). apply queue_print_steady; [apply song_text_defined|lia| |done]. cbn in Hc. lia.
Qed.

(** *** "playlistfind", "playlistsearch" *)

Lemma client_range_window r : client_range r = true -> 0 <= r_start r < 2 ^ 32 /\ 0 <= r_end r < 2 ^ 32.
Proof.
  unfold client_range, IsOpenEnded, INT_MAX. rewrite !andb_true_iff, orb_true_iff, !Z.leb_le, Z.eqb_eq. intros [[[? ?] ?] [->|?]]; cbn; lia.
Qed.

Lemma ParseSortTag_steady s p : ready p -> steady (ParseSortTag s) p.
Proof. intros Hp. unfold ParseSortTag. repeat (destruct (StringIsEqualIgnoreCase _ _); [done|]). by destruct (tag_name_parse_i s). Qed.

Lemma handle_playlist_match_ok fold_case args r p : ready p -> steady (handle_playlist_match env fold_case args r) p.
Proof.
  intros Hp. unfold handle_playlist_match. apply cwp_bind.
  assert (cwp (match final_option (lit "window") args with
    | Some (rest, s) => window ← parsed (ParseCommandArgRange s); mret (rest, window)
    | None => mret (args, RangeArg_All) end) (fun r p' => ready p' /\ match r with Done (_, w) => client_range w = true | Exc _ => True end) p) as Hwindow.
  { destruct (final_option _ _) as [[rest s]|]; [|done]. apply cwp_bind, cwp_parsed; [|done]. intros w Hw. split; [done|]. by apply (ParseCommandArgRange_ok s). }
  eapply cwp_conseq; [exact Hwindow|]. clear p Hp Hwindow args. intros [[args window]|e] p [Hp Hw]; [|done].
  apply steady_bind.
  { destruct (final_option _ _) as [[rest s]|]; [|done]. destruct (match s with [] => _ | _ => _ end) as [descending s'].
    apply steady_bind; [by apply ParseSortTag_steady|done]. }
  clear p Hp. intros [[args' sort] descending] p Hp. destruct (Parse _ _ _) as [filter|e]; [|by apply steady_fail].
  apply steady_bind; [by apply steady_client|]. clear p Hp. intros mask p Hp. apply steady_ok, steady_bind; [|intros l q Hq; by apply steady_outs].
  apply steady_playlist; [|done]. intros cs Hpl. set (sel := mkQueueSelection _ _ _ _).
  destruct (@PrintQueue_defined (libraries env) _ (format_seconds env) mask (queue (p_playlist p)) sel) as [text Et].
  - split; apply client_range_window, Hw.
  - pose proof (partition_length p (proj1 Hp)). lia.
  - unfold safe. wstep. eapply wp_ask; [exact Et|]. destruct text; wstep; by exists cs.
Qed.

Lemma handle_prio_ok args r p : (1 <= length args)%nat -> ready p -> steady (handle_prio args r) p.
Proof.
  intros Hn Hp. apply steady_ok. destruct args as [|s args]; [cbn in Hn; lia|]. next_arg. apply steady_each; [|done].
  clear p Hp. intros i p Hp. apply cwp_bind, cwp_parsed; [|done]. intros range Hr%ParseCommandArgRange_ok%client_range_start. operation (OpSetPriority range n).
Qed.

Lemma steady_each_in {A} (f : A -> CM unit) l p : (forall a p, a ∈ l -> ready p -> steady (f a) p) -> ready p -> steady (each f l) p.
Proof.
  revert p. induction l as [|a l IH]; intros p Hf Hp; [done|]. apply steady_bind; [apply Hf; [by left|done]|]. intros _ p' Hp'. apply IH; [|done].
  intros b q Hb. apply Hf. by right.
Qed.

Lemma handle_prioid_ok args r p : (1 <= length args)%nat -> existsb zero_id (drop 1 args) = false -> ready p -> steady (handle_prioid args r) p.
Proof.
  intros Hn Hz Hp. apply steady_ok. destruct args as [|s args]; [cbn in Hn; lia|]. next_arg. change (drop 1 (s :: args)) with args in *. apply steady_each_in; [|done].
  clear p Hp. intros i p Hi Hp. apply cwp_bind, cwp_parsed; [|done]. intros id Hid. pose proof (ParseCommandArgUnsigned_bounds _ _ _ Hid).
  assert (1 <= id) as H1id.
  { apply (zero_id_spec i); [|lia|done]. destruct (zero_id i) eqn:E; [|done]. exfalso. rewrite (proj2 (existsb_exists zero_id args)) in Hz; [done|].
    exists i. split; [by apply list_elem_of_In|done]. }
  operation (OpSetPriorityId id n).
Qed.

(** *** "move" *)

(** A range that "move" takes: not empty, not open-ended. *)
Definition movable (range : RangeArg) : Prop := 0 <= r_start range < r_end range /\ r_end range <= 2 ^ 31.

Lemma cwp_current_without range Q p (len := GetLength (queue (p_playlist p))) : partition_ok p -> movable range ->
  (forall c, current_without range p = Some (p, Done c) -> 0 <= c < len -> (r_end range <= len -> c + RangeArg_Count range < len) -> Q (Done c) p) ->
  (forall e, Q (Exc e) p) -> cwp (current_without range) Q p.
Proof.
  intros Hp [Hs He] HQ Hexc. pose proof (partition_length p Hp) as Hl. fold len in Hl.
  assert (RangeArg_Count range = r_end range - r_start range) as Ec by (unfold RangeArg_Count; rewrite u32_id; lia).
  assert (cwp (current_without range) (fun r p' => p' = p /\ match r with Done c => 0 <= c < len /\ (r_end range <= len -> c + RangeArg_Count range < len) | Exc _ => True end) p) as Hcw.
  { unfold current_without. apply cwp_bind, cwp_RequireCurrentPosition; [done| |done]. intros c Hc. cbn. unfold Contains.
    destruct (Z.leb_spec (r_start range) c), (Z.ltb_spec c (r_end range)); cbn [andb]; try done;
      (destruct (Z.leb_spec (r_end range) c); [rewrite u32_id by lia|]); (split; [done|]); fold len in Hc; lia. }
  unfold cwp in *. destruct (current_without range p) as [[p' [c|e]]|]; [|destruct Hcw as [-> _]; apply Hexc|done].
  destruct Hcw as (-> & H1c & H2c). by apply HQ.
Qed.

Lemma cwp_ParseMoveDestination s range Q p (len := GetLength (queue (p_playlist p))) : partition_ok p -> movable range -> before_start s range p = false ->
  (forall to, 0 <= to -> (r_end range <= len -> to + RangeArg_Count range <= 2 ^ 32) -> Q (Done to) p) -> (forall e, Q (Exc e) p) ->
  cwp (ParseMoveDestination s range) Q p.
Proof.
  intros Hp Hm Hb HQ Hexc. pose proof (partition_length p Hp) as Hl. fold len in Hl. destruct Hm as [Hs He].
  assert (RangeArg_Count range = r_end range - r_start range) as Ec by (unfold RangeArg_Count; rewrite u32_id; lia).
  assert (forall s, cwp (parsed (ParseCommandArgUnsigned s (u32 (len - RangeArg_Count range)))) Q p) as Habs.
  { intros s'. apply cwp_parsed; [|done]. intros n Hn%ParseCommandArgUnsigned_bounds. apply HQ; [lia|]. intros Hle. rewrite u32_id in Hn by lia. lia. }
  unfold cwp, ParseMoveDestination. unfold RangeArg_IsEmpty, IsOpenEnded, RangeArg_All, OpenEnded. cbn [r_end].
  destruct (Z.leb_spec (r_end range) (r_start range)); [lia|]. destruct (Z.eqb_spec (r_end range) (2 ^ 32 - 1)) as [|_]; [lia|]. cbn [orb].
  apply cwp_bind. cbn [cwp the_playlist]. fold len. destruct s as [|c s]; [apply Habs|].
  destruct (bool_decide (c = "+"%char)) eqn:Hplus; [|destruct (bool_decide (c = "-"%char)) eqn:Hminus; [|apply Habs]];
    (apply cwp_bind, cwp_current_without; [done|by split| |done]); intros cur Hcur Hc Hcount; fold len in Hc, Hcount;
    apply cwp_bind, cwp_parsed; try done; intros n Hn; pose proof (ParseCommandArgUnsigned_bounds _ _ _ Hn) as Hb'.
  - apply HQ; [unfold u32; apply wrap_u_range; lia|]. intros Hle. specialize (Hcount Hle). rewrite u32_id in Hb' by lia. rewrite u32_id by lia. lia.
  - assert (n <= cur) as Hnc.
    { cbn [before_start] in Hb. rewrite Hminus, Hcur in Hb. cbn [andb] in Hb.
      replace (ParseCommandArgUnsigned s UINT_MAX) with (Ok n) in Hb; [by apply Z.ltb_ge in Hb|]. revert Hn. unfold ParseCommandArgUnsigned.
      destruct (strtoull s) as [v e]. destruct (negb _); [done|]. destruct (Z.ltb_spec (u32 (len - cur - RangeArg_Count range)) v); [done|].
      intros [= ->]. pose proof (wrap_u_range 32 (len - cur - RangeArg_Count range) ltac:(lia)). fold (u32 (len - cur - RangeArg_Count range)) in *.
      unfold UINT_MAX. destruct (Z.ltb_spec (2 ^ 32 - 1) n); [lia|done]. }
    rewrite u32_id by lia. apply HQ; lia.
Qed.

Lemma MoveRange_invalid w range to : movable range -> GetLength (queue (pl w)) < r_end range -> MoveRange range to w = Some (w, Throw BadRange).
Proof.
  intros [Hs He] Hl. unfold MoveRange, get, throw, mbind, M_bind. unfold IsValidPosition at 1 2. rewrite (u32_id (r_end range - 1)) by lia.
  destruct (Z.ltb_spec (r_end range - 1) (GetLength (queue (pl w)))); [lia|]. by rewrite orb_true_r.
Qed.

Lemma move_to_steady range to p : partition_ok p -> self_idle p = false -> movable range -> before_start to range p = false -> steady (move_to range to) p.
Proof.
  intros Hp Hi Hm Hb. apply steady_ok. apply cwp_bind, cwp_ParseMoveDestination; [done..| |done]. intros t Ht Hle.
  apply steady_playlist; [|done]. intros cs Hpl. destruct (Z.leb_spec (r_end range) (GetLength (queue (p_playlist p)))) as [Hin|Hout].
  - specialize (Hle Hin). destruct Hm as [Hs He]. assert (RangeArg_Count range = r_end range - r_start range) as Ec by (unfold RangeArg_Count; rewrite u32_id; lia).
    apply (run_safe cs _ (OpMove range t)); [done|]. cbn [permitted]. rewrite !andb_true_iff, !Z.leb_le, !Z.ltb_lt. lia.
  - unfold safe, wp. rewrite MoveRange_invalid by done. by exists cs.
Qed.

Definition move_hazard (args : list bytes) p : bool :=
  match args with
  | s :: to :: _ => match ParseCommandArgRange s with Ok range => RangeArg_IsEmpty range || before_start to range p | Throw _ => false end
  | _ => false
  end.

Lemma handle_move_ok args r p : (length args = 2)%nat -> move_hazard args p = false -> ready p -> steady (handle_move env args r) p.
Proof.
  intros Hn Hz Hp. arguments args Hn. next_arg. unfold move_hazard in Hz. rewrite H4 in Hz. apply orb_false_iff in Hz as [He Hb].
  unfold RangeArg_IsEmpty in He. apply Z.leb_gt in He. unfold client_range in H3. rewrite !andb_true_iff, orb_true_iff, !Z.leb_le in H3.
  destruct (IsOpenEnded r0); [by apply steady_fail|]. next_arg. apply move_to_steady; [apply Hp|apply Hp| |done]. split; [lia|]. destruct H3 as [_ [?|?]]; [done|lia].
Qed.

Definition moveid_hazard (args : list bytes) p : bool :=
  zero_at args 0 ||
  match args with
  | s :: to :: _ =>
      match ParseCommandArgUnsigned s UINT_MAX with
      | Ok id => match IdToPosition (queue (p_playlist p)) id with Some position => before_start to (RangeArg_Single position) p | None => false end
      | Throw _ => false
      end
  | _ => false
  end.

Lemma handle_moveid_ok args r p : (length args = 2)%nat -> moveid_hazard args p = false -> ready p -> steady (handle_moveid env args r) p.
Proof.
  intros Hn Hz Hp. arguments args Hn. apply orb_false_iff in Hz as [Hz Hb]. cbn in Hz. apply cwp_bind.
  eapply cwp_ParseUnsigned; [reflexivity|intros id Hid Eid|by intros]. rewrite Eid in Hb. pose proof (zero_id_spec s id Hz ltac:(lia) Eid) as H1id.
  destruct (q_playlist p (proj1 Hp)) as [cs Hpl]. pose proof (partition_length p (proj1 Hp)) as Hl.
  destruct (IdToPosition_ok (queue (p_playlist p)) id (c_queue _ _ (p_core _ _ Hpl)) H1id) as (k & Ek & Hk). rewrite Ek in Hb.
  apply cwp_bind, cwp_playlist. eapply wp_ask; [exact Ek|]. cbn. rewrite partition_eta. destruct (Z.ltb_spec k 0); [by apply steady_fail|].
  next_arg. apply move_to_steady; [apply Hp|apply Hp| |done]. split; cbn; rewrite u32_id; lia.
Qed.

Lemma handle_swap_ok args r p : (length args = 2)%nat -> ready p -> steady (handle_swap args r) p.
Proof. intros Hn Hp. apply steady_ok. arguments args Hn. do 2 next_arg. operation (OpSwap n n0). Qed.

Lemma handle_swapid_ok args r p : (length args = 2)%nat -> zero_at args 0 = false -> zero_at args 1 = false -> ready p -> steady (handle_swapid args r) p.
Proof. intros Hn Hz1 Hz2 Hp. apply steady_ok. arguments args Hn. do 2 next_arg. operation (OpSwapIds n n0). Qed.

(** ** TagCommands.cxx, ClientCommands.cxx *)

Lemma handle_addtagid_ok args r p : (length args = 3)%nat -> zero_at args 0 = false -> ready p -> steady (handle_addtagid env args r) p.
Proof.
  intros Hn Hz Hp. arguments args Hn. do 2 next_arg. destruct (tag_name_parse_i _) as [t|]; [|by apply steady_fail]. next_arg.
  apply steady_ok. match goal with |- steady (on_playlist (AddSongIdTag ?m ?i ?t ?v)) _ => operation (OpAddTag m i t v) end.
Qed.

Lemma handle_cleartagid_ok args r p : (1 <= length args)%nat -> zero_at args 0 = false -> ready p -> steady (handle_cleartagid env args r) p.
Proof.
  intros Hn Hz Hp. destruct args as [|s args]; [cbn in Hn; lia|]. next_arg. destruct (_ !! 1%nat) as [t|].
  - destruct (tag_name_parse_i t) as [t'|]; [|by apply steady_fail]. apply steady_ok. operation (OpClearTag n (Some t')).
  - apply steady_ok. operation (OpClearTag n None).
Qed.

(** Changes of what the invariant does not speak of. *)
Lemma settings_harmless (f : Client -> Client) : (forall c, cmd_mode (f c) = cmd_mode c /\ cmd_list (f c) = cmd_list c /\ idle_waiting (f c) = idle_waiting c /\
    subscriptions (f c) = subscriptions c /\ num_subscriptions (f c) = num_subscriptions c /\ messages (f c) = messages c /\ deleted (f c) = deleted c) -> harmless f.
Proof.
  intros Hf c [Hc Hw] Hi. destruct (Hf c) as (E1 & E2 & E3 & E4 & E5 & E6 & E7). split; [|split; congruence]. split; [by apply (client_core_same c)|].
  unfold waits_ok. rewrite E3, Hi. done.
Qed.

Lemma handle_binary_limit_ok args r p : (length args = 1)%nat -> ready p -> steady (handle_binary_limit env args r) p.
Proof.
  intros Hn Hp. arguments args Hn. next_arg. destruct (_ <? 64); [by apply steady_fail|]. apply steady_ok, steady_update; [|done].
  by apply settings_harmless.
Qed.

Lemma handle_password_ok args r p : (length args = 1)%nat -> ready p -> steady (handle_password env args r) p.
Proof.
  intros Hn Hp. arguments args Hn. next_arg. destruct (GetPermissionFromPassword (permissions env) s) as [perm|]; [|by apply steady_fail].
  apply steady_ok, steady_update; [|done]. by apply settings_harmless.
Qed.

Lemma ParseTagMask_steady request p : ready p -> steady (ParseTagMask request) p.
Proof.
  intros Hp. unfold ParseTagMask. destruct request as [|name request]; [done|]. generalize (name :: request), TagMask_None.
  intros l. induction l as [|x l IH]; intros m; cbn [ParseTagMask_names]; [done|]. destruct (tag_name_parse_i x); [apply IH|done].
Qed.

Lemma tag_type_lines_steady mask p : ready p -> steady (tag_type_lines env mask) p.
Proof. apply steady_each. intros t q Hq. destruct (TagMask_Test mask t); [by apply steady_out|done]. Qed.

Lemma print_features_steady f p : ready p -> steady (print_features env f) p.
Proof. apply steady_each. intros i q Hq. destruct (f i); [by apply steady_out|done]. Qed.

Lemma ParseProtocolFeature_steady request p : ready p -> steady (ParseProtocolFeature request) p.
Proof.
  intros Hp. unfold ParseProtocolFeature. destruct request as [|name request]; [done|]. generalize (name :: request), 0.
  intros l. induction l as [|x l IH]; intros m; cbn [ParseProtocolFeature_names]; [done|]. destruct (protocol_feature_parse_i x); [apply IH|done].
Qed.

Lemma handle_protocol_ok args r p : ready p -> steady (handle_protocol env args r) p.
Proof.
  intros Hp. assert (forall (f : Client -> Z) q, ready q -> steady (update (fun c => set_protocol_feature (f c) c)) q) as Hset.
  { intros f q Hq. apply steady_update; [by apply settings_harmless|done]. }
  destruct args as [|c request]; cbn [handle_protocol].
  { apply steady_ok, steady_bind; [by apply steady_client|]. intros m q Hq. by apply print_features_steady. }
  assert (forall m, steady m p -> steady (if negb (bool_decide (request = [])) then fail env r ACK_ERROR_ARG (lit "Too many arguments") else m) p) as Halone.
  { intros m Hm. destruct (negb _); [by apply steady_fail|done]. }
  assert (forall f : Z -> Client -> Z, steady (ok (m ← ParseProtocolFeature request; update (fun c => set_protocol_feature (f m c) c))) p) as Hparse.
  { intros f. apply steady_ok, steady_bind; [by apply ParseProtocolFeature_steady|]. intros m q Hq. by apply (Hset (f m)). }
  destruct (c =b lit "all"); [by apply Halone, steady_ok, (Hset (fun _ => ProtocolFeature_All))|].
  destruct (c =b lit "clear"); [by apply Halone, steady_ok, (Hset (fun _ => 0))|].
  destruct (c =b lit "enable"); [apply (Hparse (fun m c => Z.lor (protocol_feature c) m))|].
  destruct (c =b lit "disable"); [apply (Hparse (fun m c => Z.ldiff (protocol_feature c) m))|].
  destruct (c =b lit "available"); [by apply Halone, steady_ok, print_features_steady|by apply steady_fail].
Qed.

Lemma steady_tag_mask (f : Z -> Client -> Client) request p : (forall m, harmless (f m)) -> ready p ->
  steady (ok (m ← ParseTagMask request; update (f m))) p.
Proof. intros Hf Hp. apply steady_ok, steady_bind; [by apply ParseTagMask_steady|]. intros m q Hq. by apply steady_update. Qed.

Lemma handle_tagtypes_ok args r p : ready p -> steady (handle_tagtypes env args r) p.
Proof.
  intros Hp. assert (forall f : Client -> Z, harmless (fun c => set_tag_mask (f c) c)) as Hf by (intros f; by apply settings_harmless).
  destruct args as [|c request]; cbn [handle_tagtypes].
  { apply steady_ok, steady_bind; [by apply steady_client|]. intros m q Hq. by apply tag_type_lines_steady. }
  assert (forall m q, ready q -> steady (update (set_tag_mask m)) q) as Hset by (intros m q Hq; apply steady_update; [apply (Hf (fun _ => m))|done]).
  destruct (c =b lit "all"); [destruct (negb _); [by apply steady_fail|by apply steady_ok, Hset]|].
  destruct (c =b lit "clear"); [destruct (negb _); [by apply steady_fail|by apply steady_ok, Hset]|].
  destruct (c =b lit "enable"); [by apply (steady_tag_mask (fun m c => set_tag_mask (Z.lor (tag_mask c) m) c))|].
  destruct (c =b lit "disable"); [by apply (steady_tag_mask (fun m c => set_tag_mask (Z.land (tag_mask c) (TagMask_not m)) c))|].
  destruct (c =b lit "available"); [by apply steady_ok, tag_type_lines_steady|].
  destruct (c =b lit "reset"); [|by apply steady_fail].
  apply steady_bind; [by apply Hset|]. intros _ q Hq. by apply (steady_tag_mask (fun m c => set_tag_mask (Z.lor (tag_mask c) m) c)).
Qed.

(** ** MessageCommands.cxx, OtherCommands.cxx *)

Lemma subscriptions_harmless (f : Client -> list bytes) (g : Client -> Z) c : client_ok c -> idle_waiting c = false ->
  g c = Z.of_nat (length (f c)) -> g c <= MAX_SUBSCRIPTIONS -> sorted_set (f c) -> client_ok (set_subscriptions (f c) (g c) c).
Proof. intros [[Hl Hs Hm] Hw] Hi E Hle Hsort. split; [split; done|]. unfold waits_ok. cbn. by rewrite Hi. Qed.

Lemma handle_subscribe_ok args r p : (length args = 1)%nat -> ready p -> steady (handle_subscribe env args r) p.
Proof.
  intros Hn Hp. arguments args Hn. next_arg. apply steady_bind; [|intros [] q Hq; by first [done|apply steady_fail]].
  destruct (self_lookup p (proj1 Hp)) as (c & Hc & Hd & Hok). pose proof (proj2 Hp) as Hi. unfold self_idle in Hi. rewrite Hc in Hi.
  apply cwp_bind, (cwp_client _ _ _ c Hc). destruct (negb _); [done|]. destruct (Z.leb_spec MAX_SUBSCRIPTIONS (num_subscriptions (id c))) as [|Hlt]; [done|].
  destruct (IsSubscribed s (id c)) eqn:Hs; [done|]. apply cwp_bind, (cwp_update _ _ _ c Hc). pose proof (k_subscriptions c (proj1 Hok)) as (Hnum & Hmax & Hsort).
  cbn [id] in *. apply steady_bind; [|done]. apply steady_EmitIdle. split.
  - apply set_self_ok; [apply Hp| |done]. apply (subscriptions_harmless (fun c => set_insert s (subscriptions c)) (fun c => num_subscriptions c + 1)); try done.
    + rewrite set_insert_length by done. lia.
    + lia.
    + by apply set_insert_sorted.
  - rewrite set_self_idle by apply Hp. done.
Qed.

Lemma handle_unsubscribe_ok args r p : (length args = 1)%nat -> ready p -> steady (handle_unsubscribe env args r) p.
Proof.
  intros Hn Hp. arguments args Hn. next_arg. apply steady_bind; [|intros [] q Hq; by first [done|apply steady_fail]].
  destruct (self_lookup p (proj1 Hp)) as (c & Hc & Hd & Hok). pose proof (proj2 Hp) as Hi. unfold self_idle in Hi. rewrite Hc in Hi.
  apply cwp_bind, (cwp_client _ _ _ c Hc). destruct (IsSubscribed s (id c)) eqn:Hs; cbn [negb]; [|done].
  apply cwp_bind, (cwp_update _ _ _ c Hc). pose proof (k_subscriptions c (proj1 Hok)) as (Hnum & Hmax & Hsort).
  cbn [id] in *. pose proof (set_erase_length s _ Hsort Hs). apply steady_bind; [|done]. apply steady_EmitIdle. split.
  - apply set_self_ok; [apply Hp| |done]. apply (subscriptions_harmless (fun c => set_erase s (subscriptions c)) (fun c => num_subscriptions c - 1)); try done.
    + lia.
    + lia.
    + by apply set_erase_sorted.
  - rewrite set_self_idle by apply Hp. done.
Qed.

Lemma handle_channels_ok args r p : ready p -> steady (handle_channels env args r) p.
Proof.
  intros Hp. apply steady_ok, steady_bind; [done|]. intros l q Hq. apply steady_each; [|done]. intros x q' Hq'. by apply steady_out.
Qed.

Lemma handle_read_messages_ok args r p : ready p -> steady (handle_read_messages env args r) p.
Proof.
  intros Hp. apply steady_ok, steady_bind; [by apply steady_client|]. intros l q Hq. apply steady_bind; [apply steady_each; [|done]; intros; by apply steady_out|].
  intros _ q' Hq'. apply steady_update; [|done]. intros c [[Hl Hs Hm] Hw] Hi. split; [|done]. split; [by split|]. unfold waits_ok. cbn. by rewrite Hi.
Qed.

Lemma push_messages_ok msg l : Forall (fun c => deleted c = false -> client_ok c) l ->
  exists b l', push_messages (refuses env) msg l = Some (b, l') /\ Forall (fun c => deleted c = false -> client_ok c) l' /\
    deleted <$> l' = deleted <$> l /\ Forall2 (fun c c' => idle_waiting c = false -> idle_waiting c' = false) l l'.
Proof.
  induction 1 as [|c l Hc Hl IH]; [by exists false, []|]. destruct IH as (b & l' & E & Hl' & Hd & Hw). cbn.
  assert (exists s c', (if deleted c then Some (false, c) else PushMessage (refuses env) msg c) = Some (s, c') /\ (deleted c' = false -> client_ok c') /\
    deleted c' = deleted c /\ (idle_waiting c = false -> idle_waiting c' = false)) as (s & c' & Ec & Hc' & Hd' & Hw').
  { destruct (deleted c) eqn:Hdel; [exists false, c; split_and!; [done|congruence|done|done]|].
    destruct (PushMessage_ok (refuses env) msg c (Hc eq_refl)) as (s & c' & ? & ? & ? & ?). exists s, c'. split_and!; [done|done|congruence|done]. }
  exists (s || b), (c' :: l'). rewrite Ec. cbn. rewrite E. cbn. split_and!; [done|by constructor|congruence|by constructor].
Qed.

Lemma send_message_steady msg p : ready p -> steady (send_message (refuses env) msg) p.
Proof.
  intros [[Hl (c & Hc & Hd) Hf] Hi]. destruct (push_messages_ok msg _ Hf) as (b & l' & E & Hf' & Hd' & Hw').
  unfold steady, cwp, send_message. rewrite E. cbn.
  destruct (Forall2_lookup_l _ _ _ _ _ Hw' Hc) as (c' & Hc' & Hw). assert (deleted c' = deleted c) as Edel.
  { pose proof (f_equal (fun l => l !! self p) Hd') as El. cbn in El. rewrite !list_lookup_fmap, Hc, Hc' in El. by injection El. }
  split.
  - split; [done| |done]. exists c'. cbn. split; [done|congruence].
  - unfold self_idle in *. cbn. rewrite Hc in Hi. rewrite Hc'. auto.
Qed.

Lemma handle_send_message_ok args r p : (length args = 2)%nat -> ready p -> steady (handle_send_message env args r) p.
Proof.
  intros Hn Hp. arguments args Hn. do 2 next_arg. destruct (negb _); [by apply steady_fail|]. apply steady_bind; [by apply send_message_steady|].
  intros [] q Hq; [done|by apply steady_fail].
Qed.

Lemma handle_idle_ok args r p : ready p -> handled (handle_idle env args r) p.
Proof.
  intros Hp. unfold handle_idle. destruct (idle_parse_names args 0) as [flags|i]; [|by apply steady_handled, steady_fail].
  destruct (self_lookup p (proj1 Hp)) as (c & Hc & Hd & Hok). pose proof (proj2 Hp) as Hi. unfold self_idle in Hi. rewrite Hc in Hi.
  destruct (IdleWait_ok (refuses env) (if flags =? 0 then 2 ^ 32 - 1 else flags) c Hok Hi) as (c' & E & Hok' & Hd').
  apply cwp_bind. unfold cwp, method_, method. rewrite Hc. cbn. rewrite E. cbn. split; [|done].
  apply (set_self_ok c' p); [apply Hp|done|congruence].
Qed.
End Safe.
