(* ===== verification/CommandTable.v ===== *)
(** From a client's line to the handler: [command/AllCommands.cxx],
    [client/Process.cxx] and [client/Read.cxx].

    The optional parts of the program are all there.  The handlers of
    [Commands] are used by their names; those of the commands that are not
    modelled are taken from [extern], which gives the function of a name. *)
From S2P Require Import Arrays Text Tokenizer Tags Songs RangeArg SongSort Queue PlayControl Permission ArgParser Client Commands.
Open Scope Z_scope.

Definition COMMAND_ARGV_MAX : Z := 2 + Z.of_nat (length all_tag_types) * 2.

(** Permission.hxx *)

Section CommandTable.
Context `{Random} `{PlayerControl} (env : Environment) (extern : bytes -> Handler).

Record Command := mk_Command { cmd : bytes; cmd_permission : Z; cmd_min : Z; cmd_max : Z; handler : Handler }.

(** The registry; the two handlers that print it are arguments. *)
Definition commands_with (handle_commands handle_not_commands : Handler) : list Command :=
  let mkCommand (name : string) permission min max h := mk_Command (lit name) permission min max h in
  let extern (name : string) := extern (lit name) in
  [
  mkCommand "add"%string PERMISSION_ADD 1 2 (extern "handle_add"%string);
  mkCommand "addid"%string PERMISSION_ADD 1 2 (handle_addid env);
  mkCommand "addtagid"%string PERMISSION_ADD 3 3 (handle_addtagid env);
  mkCommand "albumart"%string PERMISSION_READ 2 2 (extern "handle_album_art"%string);
  mkCommand "binarylimit"%string PERMISSION_NONE 1 1 (handle_binary_limit env);
  mkCommand "channels"%string PERMISSION_READ 0 0 (handle_channels env);
  mkCommand "clear"%string PERMISSION_PLAYER 0 0 handle_clear;
  mkCommand "clearerror"%string PERMISSION_PLAYER 0 0 handle_clearerror;
  mkCommand "cleartagid"%string PERMISSION_ADD 1 2 (handle_cleartagid env);
  mkCommand "close"%string PERMISSION_NONE (-1) (-1) handle_close;
  mkCommand "commands"%string PERMISSION_NONE 0 0 handle_commands;
  mkCommand "config"%string PERMISSION_ADMIN 0 0 (extern "handle_config"%string);
  mkCommand "consume"%string PERMISSION_PLAYER 1 1 handle_consume;
  mkCommand "count"%string PERMISSION_READ 1 (-1) (extern "handle_count"%string);
  mkCommand "crossfade"%string PERMISSION_PLAYER 1 1 handle_crossfade;
  mkCommand "currentsong"%string PERMISSION_READ 0 0 (handle_currentsong env);
  mkCommand "decoders"%string PERMISSION_READ 0 0 (extern "handle_decoders"%string);
  mkCommand "delete"%string PERMISSION_PLAYER 1 1 handle_delete;
  mkCommand "deleteid"%string PERMISSION_PLAYER 1 1 handle_deleteid;
  mkCommand "delpartition"%string PERMISSION_ADMIN 1 1 (extern "handle_delpartition"%string);
  mkCommand "disableoutput"%string PERMISSION_ADMIN 1 1 (extern "handle_disableoutput"%string);
  mkCommand "enableoutput"%string PERMISSION_ADMIN 1 1 (extern "handle_enableoutput"%string);
  mkCommand "find"%string PERMISSION_READ 1 (-1) (extern "handle_find"%string);
  mkCommand "findadd"%string PERMISSION_ADD 1 (-1) (extern "handle_findadd"%string);
  mkCommand "getfingerprint"%string PERMISSION_READ 1 1 (extern "handle_getfingerprint"%string);
  mkCommand "getvol"%string PERMISSION_READ 0 0 (extern "handle_getvol"%string);
  mkCommand "idle"%string PERMISSION_READ 0 (-1) (handle_idle env);
  mkCommand "kill"%string PERMISSION_ADMIN (-1) (-1) handle_kill;
  mkCommand "list"%string PERMISSION_READ 1 (-1) (extern "handle_list"%string);
  mkCommand "listall"%string PERMISSION_READ 0 1 (extern "handle_listall"%string);
  mkCommand "listallinfo"%string PERMISSION_READ 0 1 (extern "handle_listallinfo"%string);
  mkCommand "listfiles"%string PERMISSION_READ 0 1 (extern "handle_listfiles"%string);
  mkCommand "listmounts"%string PERMISSION_READ 0 0 (extern "handle_listmounts"%string);
  mkCommand "listneighbors"%string PERMISSION_READ 0 0 (extern "handle_listneighbors"%string);
  mkCommand "listpartitions"%string PERMISSION_READ 0 0 (extern "handle_listpartitions"%string);
  mkCommand "listplaylist"%string PERMISSION_READ 1 2 (extern "handle_listplaylist"%string);
  mkCommand "listplaylistinfo"%string PERMISSION_READ 1 2 (extern "handle_listplaylistinfo"%string);
  mkCommand "listplaylists"%string PERMISSION_READ 0 0 (extern "handle_listplaylists"%string);
  mkCommand "load"%string PERMISSION_ADD 1 3 (extern "handle_load"%string);
  mkCommand "lsinfo"%string PERMISSION_READ 0 1 (extern "handle_lsinfo"%string);
  mkCommand "mixrampdb"%string PERMISSION_PLAYER 1 1 handle_mixrampdb;
  mkCommand "mixrampdelay"%string PERMISSION_PLAYER 1 1 handle_mixrampdelay;
  mkCommand "mount"%string PERMISSION_ADMIN 2 2 (extern "handle_mount"%string);
  mkCommand "move"%string PERMISSION_PLAYER 2 2 (handle_move env);
  mkCommand "moveid"%string PERMISSION_PLAYER 2 2 (handle_moveid env);
  mkCommand "moveoutput"%string PERMISSION_ADMIN 1 1 (extern "handle_moveoutput"%string);
  mkCommand "newpartition"%string PERMISSION_ADMIN 1 1 (extern "handle_newpartition"%string);
  mkCommand "next"%string PERMISSION_PLAYER 0 0 handle_next;
  mkCommand "notcommands"%string PERMISSION_NONE 0 0 handle_not_commands;
  mkCommand "outputs"%string PERMISSION_READ 0 0 (extern "handle_devices"%string);
  mkCommand "outputset"%string PERMISSION_ADMIN 3 3 (extern "handle_outputset"%string);
  mkCommand "partition"%string PERMISSION_READ 1 1 (extern "handle_partition"%string);
  mkCommand "password"%string PERMISSION_NONE 1 1 (handle_password env);
  mkCommand "pause"%string PERMISSION_PLAYER 0 1 handle_pause;
  mkCommand "ping"%string PERMISSION_NONE 0 0 handle_ping;
  mkCommand "play"%string PERMISSION_PLAYER 0 1 handle_play;
  mkCommand "playid"%string PERMISSION_PLAYER 0 1 handle_playid;
  mkCommand "playlist"%string PERMISSION_READ 0 0 (handle_playlist env);
  mkCommand "playlistadd"%string PERMISSION_CONTROL 2 3 (extern "handle_playlistadd"%string);
  mkCommand "playlistclear"%string PERMISSION_CONTROL 1 1 (extern "handle_playlistclear"%string);
  mkCommand "playlistdelete"%string PERMISSION_CONTROL 2 2 (extern "handle_playlistdelete"%string);
  mkCommand "playlistfind"%string PERMISSION_READ 1 (-1) (handle_playlistfind env);
  mkCommand "playlistid"%string PERMISSION_READ 0 1 (handle_playlistid env);
  mkCommand "playlistinfo"%string PERMISSION_READ 0 1 (handle_playlistinfo env);
  mkCommand "playlistlength"%string PERMISSION_READ 1 1 (extern "handle_playlistlength"%string);
  mkCommand "playlistmove"%string PERMISSION_CONTROL 3 3 (extern "handle_playlistmove"%string);
  mkCommand "playlistsearch"%string PERMISSION_READ 1 (-1) (handle_playlistsearch env);
  mkCommand "plchanges"%string PERMISSION_READ 1 2 (handle_plchanges env);
  mkCommand "plchangesposid"%string PERMISSION_READ 1 2 (handle_plchangesposid env);
  mkCommand "previous"%string PERMISSION_PLAYER 0 0 handle_previous;
  mkCommand "prio"%string PERMISSION_PLAYER 2 (-1) handle_prio;
  mkCommand "prioid"%string PERMISSION_PLAYER 2 (-1) handle_prioid;
  mkCommand "protocol"%string PERMISSION_NONE 0 (-1) (handle_protocol env);
  mkCommand "random"%string PERMISSION_PLAYER 1 1 handle_random;
  mkCommand "rangeid"%string PERMISSION_ADD 2 2 (handle_rangeid env);
  mkCommand "readcomments"%string PERMISSION_READ 1 1 (extern "handle_read_comments"%string);
  mkCommand "readmessages"%string PERMISSION_READ 0 0 (handle_read_messages env);
  mkCommand "readpicture"%string PERMISSION_READ 2 2 (extern "handle_read_picture"%string);
  mkCommand "rename"%string PERMISSION_CONTROL 2 2 (extern "handle_rename"%string);
  mkCommand "repeat"%string PERMISSION_PLAYER 1 1 handle_repeat;
  mkCommand "replay_gain_mode"%string PERMISSION_PLAYER 1 1 handle_replay_gain_mode;
  mkCommand "replay_gain_status"%string PERMISSION_READ 0 0 (handle_replay_gain_status env);
  mkCommand "rescan"%string PERMISSION_CONTROL 0 1 (extern "handle_rescan"%string);
  mkCommand "rm"%string PERMISSION_CONTROL 1 1 (extern "handle_rm"%string);
  mkCommand "save"%string PERMISSION_CONTROL 1 2 (extern "handle_save"%string);
  mkCommand "search"%string PERMISSION_READ 1 (-1) (extern "handle_search"%string);
  mkCommand "searchadd"%string PERMISSION_ADD 1 (-1) (extern "handle_searchadd"%string);
  mkCommand "searchaddpl"%string PERMISSION_CONTROL 2 (-1) (extern "handle_searchaddpl"%string);
  mkCommand "searchcount"%string PERMISSION_READ 1 (-1) (extern "handle_searchcount"%string);
  mkCommand "searchplaylist"%string PERMISSION_READ 2 4 (extern "handle_searchplaylist"%string);
  mkCommand "seek"%string PERMISSION_PLAYER 2 2 handle_seek;
  mkCommand "seekcur"%string PERMISSION_PLAYER 1 1 handle_seekcur;
  mkCommand "seekid"%string PERMISSION_PLAYER 2 2 handle_seekid;
  mkCommand "sendmessage"%string PERMISSION_CONTROL 2 2 (handle_send_message env);
  mkCommand "setvol"%string PERMISSION_PLAYER 1 1 (extern "handle_setvol"%string);
  mkCommand "shuffle"%string PERMISSION_PLAYER 0 1 handle_shuffle;
  mkCommand "single"%string PERMISSION_PLAYER 1 1 handle_single;
  mkCommand "stats"%string PERMISSION_READ 0 0 (extern "handle_stats"%string);
  mkCommand "status"%string PERMISSION_READ 0 0 (handle_status env);
  mkCommand "sticker"%string PERMISSION_ADMIN 3 (-1) (extern "handle_sticker"%string);
  mkCommand "stickernames"%string PERMISSION_ADMIN 0 0 (extern "handle_sticker_names"%string);
  mkCommand "stickernamestypes"%string PERMISSION_ADMIN 0 1 (extern "handle_sticker_names_types"%string);
  mkCommand "stickertypes"%string PERMISSION_ADMIN 0 0 (extern "handle_sticker_types"%string);
  mkCommand "stop"%string PERMISSION_PLAYER 0 0 handle_stop;
  mkCommand "subscribe"%string PERMISSION_READ 1 1 (handle_subscribe env);
  mkCommand "swap"%string PERMISSION_PLAYER 2 2 handle_swap;
  mkCommand "swapid"%string PERMISSION_PLAYER 2 2 handle_swapid;
  mkCommand "tagtypes"%string PERMISSION_NONE 0 (-1) (handle_tagtypes env);
  mkCommand "toggleoutput"%string PERMISSION_ADMIN 1 1 (extern "handle_toggleoutput"%string);
  mkCommand "unmount"%string PERMISSION_ADMIN 1 1 (extern "handle_unmount"%string);
  mkCommand "unsubscribe"%string PERMISSION_READ 1 1 (handle_unsubscribe env);
  mkCommand "update"%string PERMISSION_CONTROL 0 1 (extern "handle_update"%string);
  mkCommand "urlhandlers"%string PERMISSION_READ 0 0 (extern "handle_urlhandlers"%string);
  mkCommand "volume"%string PERMISSION_PLAYER 1 1 (extern "handle_volume"%string)
  ].

(** ** "commands" and "notcommands" *)

(** The names and permissions. *)
Definition registry : list (bytes * Z) :=
  (fun c => (cmd c, cmd_permission c)) <$> commands_with (fun _ _ => mret RESULT_OK) (fun _ _ => mret RESULT_OK).

Definition allowed (permission needed : Z) : bool := needed =? Z.land permission needed.

Definition command_available (name : bytes) : bool :=
  if existsb (fun n => name =b lit n) ["sticker"; "stickernames"]%string then HasStickerDatabase env
  else if name =b lit "listneighbors" then neighbor_commands_available env
  else if existsb (fun n => name =b lit n) ["mount"; "unmount"]%string then mount_commands_available env
  else if existsb (fun n => name =b lit n) ["save"; "rm"; "rename"; "playlistdelete"; "playlistmove"; "playlistclear"; "playlistadd"; "listplaylists"]%string
  then playlist_commands_available env
  else true.

Definition print_command (name : bytes) : CM unit := out env (lit "command: " ++ name ++ [LF]).
Definition handle_commands : Handler := fun args r => ok (
  permission ← client permission;
  each (fun c => if allowed permission (snd c) && command_available (fst c) then print_command (fst c) else mret tt) registry).
Definition handle_not_commands : Handler := fun args r => ok (
  permission ← client permission;
  each (fun c => if negb (allowed permission (snd c)) then print_command (fst c) else mret tt) registry).

Definition commands : list Command := commands_with handle_commands handle_not_commands.

(** ** Looking up a command *)

(** [do ... while (a < b)]; [n] is the fuel. *)
Fixpoint command_lookup_loop (n : nat) (name : bytes) (a b : Z) : option (option Command) :=
  match n with
  | O => None
  | S n =>
      let i := (a + b) / 2 in
      c ← arr_get commands i;
      let cmp := strcmp name (cmd c) in
      if cmp =? 0 then Some (Some c)
      else
        let '(a, b) := if cmp <? 0 then (a, i) else (i + 1, b) in
        if a <? b then command_lookup_loop n name a b else Some None
  end.
Definition command_lookup (name : bytes) : option (option Command) :=
  command_lookup_loop (length commands) name 0 (Z.of_nat (length commands)).

(** [{:?}] of a command's name *)
Definition quoted (name : bytes) : bytes := [DQUOTE] ++ name ++ [DQUOTE].

(** The error, if the command may not be run. *)
Definition command_check_request (c : Command) (permission : Z) (args : list bytes) : option (Z * bytes) :=
  let n := Z.of_nat (length args) in
  if negb (allowed permission (cmd_permission c)) then Some (ACK_ERROR_PERMISSION, lit "you don't have permission for " ++ quoted (cmd c))
  else if cmd_min c <? 0 then None
  else if (cmd_min c =? cmd_max c) && negb (cmd_max c =? n) then Some (ACK_ERROR_ARG, lit "wrong number of arguments for " ++ quoted (cmd c))
  else if n <? cmd_min c then Some (ACK_ERROR_ARG, lit "too few arguments for " ++ quoted (cmd c))
  else if (0 <=? cmd_max c) && (cmd_max c <? n) then Some (ACK_ERROR_ARG, lit "too many arguments for " ++ quoted (cmd c))
  else None.

(** [try { m } catch (...) { h }] *)
Definition handling {A} (m : CM A) (h : Exn -> CM A) : CM A := fun p =>
  match m p with
  | Some (p', Exc e) => h e p'
  | x => x
  end.

(** [command_checked_lookup] and the call of the handler. *)
Definition run_command (num : Z) (cmd_name : bytes) (args : list bytes) : CM CommandResult := fun p =>
  match command_lookup cmd_name with
  | None => None
  | Some None => fail env (mkResponse num []) ACK_ERROR_UNKNOWN (lit "unknown command " ++ quoted cmd_name) p
  | Some (Some c) =>
      let r := mkResponse num (cmd c) in
      (permission ← client permission;
       match command_check_request c permission args with
       | Some (ack, msg) => fail env r ack msg
       | None => handling (handler c args r) (fun e => PrintError env r e;; mret RESULT_ERROR)
       end) p
  end.

(** The arguments: [Ok None] if there are too many; [n] is the fuel. *)
Fixpoint NextParams (n : nat) (input : bytes) (argv : list bytes) : option (result (option (list bytes))) :=
  match n with
  | O => None
  | S n =>
      match Tokenizer.NextParam input with
      | Throw e => Some (Throw e)
      | Ok (None, _) => Some (Ok (Some argv))
      | Ok (Some a, input) => if COMMAND_ARGV_MAX <=? Z.of_nat (length argv) then Some (Ok None) else NextParams n input (argv ++ [a])
      end
  end.

Definition command_process (num : Z) (line : bytes) : CM CommandResult :=
  let r := mkResponse num [] in
  match Tokenizer.NextWord line with
  | Throw e => Error (refuses env) r ACK_ERROR_UNKNOWN e;; mret RESULT_FINISH
  | Ok (None, _) => Error (refuses env) r ACK_ERROR_UNKNOWN (lit "No command given");; mret RESULT_FINISH
  | Ok (Some cmd_name, input) =>
      match NextParams (S (length input)) input [] with
      | None => fun _ => None
      | Some (Throw e) => PrintError env r (OtherError e);; mret RESULT_ERROR
      | Some (Ok None) => fail env r ACK_ERROR_ARG (lit "Too many arguments")
      | Some (Ok (Some args)) => run_command num cmd_name args
      end
  end.

(** ** client/Process.cxx *)

Definition WriteOK : CM unit := out env (lit "OK" ++ [LF]).

Fixpoint ProcessCommandList (list_ok : bool) (n : Z) (list : list bytes) : CM CommandResult :=
  match list with
  | [] => mret RESULT_OK
  | cmd :: list =>
      ret ← command_process n cmd;
      gone ← client IsExpired;
      if (gone : bool) then mret RESULT_CLOSE
      else if negb (bool_decide (ret = RESULT_OK)) then mret ret
      else (if list_ok then out env (lit "list_OK" ++ [LF]) else mret tt);; ProcessCommandList list_ok (n + 1) list
  end.

Definition IsAsyncCommmand (line : bytes) : bool := (line =b lit "idle") || (line =b lit "noidle").

Definition ProcessLine (line : bytes) : CM CommandResult :=
  c ← client id;
  if negb (match line with ch :: _ => IsLowerAlphaASCII ch | [] => false end) then mret RESULT_CLOSE
  else if IsActive c && IsAsyncCommmand line then mret RESULT_CLOSE
  else if line =b lit "noidle" then
    (if idle_waiting c then update (set_idle false (idle_flags c) (idle_subscriptions c));; WriteOK else mret tt);; mret RESULT_OK
  else if idle_waiting c then mret RESULT_CLOSE
  else match cmd_mode c with
  | Some ok_mode =>
      if line =b lit "command_list_end" then
        update cmd_Reset;;
        ret ← ProcessCommandList ok_mode 0 (cmd_list c);
        (if bool_decide (ret = RESULT_OK) then WriteOK else mret tt);;
        mret ret
      else
        added ← method (fun c => Some (cmd_Add (client_max_command_list_size env) line c));
        mret (if (added : bool) then RESULT_OK else RESULT_CLOSE)
  | None =>
      if line =b lit "command_list_begin" then method_ (cmd_Begin false);; mret RESULT_OK
      else if line =b lit "command_list_ok_begin" then method_ (cmd_Begin true);; mret RESULT_OK
      else
        ret ← command_process 0 line;
        gone ← client IsExpired;
        if (gone : bool) then mret RESULT_CLOSE
        else (if bool_decide (ret = RESULT_OK) then WriteOK else mret tt);; mret ret
  end.

(** ** client/Read.cxx *)

Inductive InputResult := INPUT_MORE | INPUT_CLOSED | INPUT_AGAIN.

(** [Flush] asserts that the socket is open; it fails if the peer is gone. *)
Definition flush_and_close (c : Client) : option Client :=
  if IsExpired c then None else Some (if refuses env (output c) [] then SetExpired c else Close c).

(** The result, and the input that is left. *)
Definition OnSocketInput (src : bytes) : CM (InputResult * bytes) :=
  match Split src LF with
  | (_, None) => mret (INPUT_MORE, src)
  | (p, Some rest) =>
      update (set_timeout true);;
      result ← ProcessLine (c_str (StripRight p));
      match result with
      | RESULT_KILL | RESULT_CLOSE => update Close;; mret (INPUT_CLOSED, rest)
      | RESULT_FINISH => method_ flush_and_close;; mret (INPUT_CLOSED, rest)
      | _ =>
          gone ← client IsExpired;
          if (gone : bool) then update Close;; mret (INPUT_CLOSED, rest) else mret (INPUT_AGAIN, rest)
      end
  end.
End CommandTable.
