(* ===== verification/CommandSpec.v ===== *)
(** From the line of a client to the command: the look-up, the arguments, the
    permissions, and the invariant of a partition under every command. *)
From S2P Require Import Arrays Text Tokenizer Tags Songs RangeArg SongSort Queue QueueWf QueueRandom QueueSpec PlayControl PlayRules PlayWf PlayOps PlayPlayback PlayEdits PlaySpec SongPrint Permission ArgParser Client ClientWf Commands CommandSafe CommandTable.
Open Scope Z_scope.

(** ** The look-up *)

Section Lookup.
Context `{Random} `{PlayerControl} (env : Environment) (extern : bytes -> Handler).
Notation commands := (commands env extern).

(** Before [k] the names are less than [name], from there on greater. *)
Lemma commands_sorted (i j : nat) c d : (i < j)%nat -> commands !! i = Some c -> commands !! j = Some d -> strcmp (cmd c) (cmd d) < 0.
Proof.
  assert (Sorted.StronglySorted (fun a b => strcmp a b < 0) (cmd <$> commands)) as Hs.
  { apply Sorted.Sorted_StronglySorted; [intros a b d'; apply strcmp_lt_trans|]. repeat constructor; vm_compute; reflexivity. }
  intros Hij Hc Hd. assert (forall (l : list bytes) (i j : nat) a b, (i < j)%nat -> Sorted.StronglySorted (fun a b => strcmp a b < 0) l -> l !! i = Some a -> l !! j = Some b -> strcmp a b < 0) as Hgen.
  { clear. intros l i j a b Hij Hs. revert i j Hij. induction Hs as [|x l Hl IH Hf]; intros [|i] [|j] Hij Ha Hb; try done; try lia.
    - injection Ha as ->. by apply (proj1 (Forall_lookup _ _) Hf j).
    - apply (IH i j); [lia|done|done]. }
  apply (Hgen (cmd <$> commands) i j); [done|done| |]; rewrite list_lookup_fmap; [by rewrite Hc|by rewrite Hd].
Qed.

Lemma command_lookup_loop_spec n name (a b : nat) :
  (a < b <= length commands)%nat -> (b - a <= n)%nat ->
  (forall (j : nat) c, (j < a)%nat -> commands !! j = Some c -> strcmp (cmd c) name < 0) ->
  (forall (j : nat) c, (b <= j)%nat -> commands !! j = Some c -> strcmp name (cmd c) < 0) ->
  exists o, command_lookup_loop env extern n name (Z.of_nat a) (Z.of_nat b) = Some o /\
    match o with Some c => c ∈ commands /\ cmd c = name | None => forall c, c ∈ commands -> cmd c <> name end.
Proof.
  revert a b. induction n as [|n IH]; intros a b Hab Hn Hlo Hhi; [lia|]. cbn [command_lookup_loop].
  replace ((Z.of_nat a + Z.of_nat b) / 2) with (Z.of_nat ((a + b) / 2)) by (rewrite Nat2Z.inj_div; f_equal; lia).
  pose proof (Nat.div_mod (a + b) 2 ltac:(lia)). pose proof (Nat.mod_upper_bound (a + b) 2 ltac:(lia)). set (i := ((a + b) / 2)%nat) in *. clearbody i.
  destruct (lookup_lt_is_Some_2 commands i ltac:(lia)) as [c Hc]. rewrite arr_get_nat, Hc. cbn.
  pose proof (strcmp_sgn name (cmd c)) as Hsgn. destruct (Z.eqb_spec (strcmp name (cmd c)) 0) as [E|Hne].
  { exists (Some c). split; [done|]. split; [by apply list_elem_of_lookup_2 in Hc|]. apply strcmp_eq in E. congruence. }
  assert (forall (a' b' : nat), (a <= a')%nat -> (a' <= b' <= b)%nat -> (b' - a' < b - a)%nat ->
    (forall (j : nat) c, (j < a')%nat -> commands !! j = Some c -> strcmp (cmd c) name < 0) ->
    (forall (j : nat) c, (b' <= j)%nat -> commands !! j = Some c -> strcmp name (cmd c) < 0) ->
    exists o, (if Z.of_nat a' <? Z.of_nat b' then command_lookup_loop env extern n name (Z.of_nat a') (Z.of_nat b') else Some None) = Some o /\
      match o with Some c => c ∈ commands /\ cmd c = name | None => forall c, c ∈ commands -> cmd c <> name end) as Hnext.
  { intros a' b' Ha Hb Hlt Hlo' Hhi'. destruct (Z.ltb_spec (Z.of_nat a') (Z.of_nat b')); [apply IH; [lia|lia|done|done]|].
    exists None. split; [done|]. intros d Hd Ed. apply list_elem_of_lookup in Hd as [j Hj].
    destruct (decide (j < a')%nat) as [Hja|Hja].
    - specialize (Hlo' j d Hja Hj). rewrite Ed, strcmp_refl in Hlo'. lia.
    - specialize (Hhi' j d ltac:(lia) Hj). rewrite Ed, strcmp_refl in Hhi'. lia. }
  destruct (Z.ltb_spec (strcmp name (cmd c)) 0) as [Hlt|Hge].
  - apply (Hnext a i); [lia|lia|lia|done|]. intros j d Hj Hd. destruct (decide (j = i)) as [->|Hji]; [congruence|].
    apply (strcmp_lt_trans _ (cmd c)); [done|]. apply (commands_sorted i j); [lia|done|done].
  - replace (Z.of_nat i + 1) with (Z.of_nat (S i)) by lia. apply (Hnext (S i) b); [lia|lia|lia| |done].
    intros j d Hj Hd. destruct (decide (j = i)) as [->|Hji]; [replace d with c by congruence; lia|].
    apply (strcmp_lt_trans _ (cmd c)); [apply (commands_sorted j i); [lia|done|done]|lia].
Qed.

Lemma find_spec name (o : option Command) :
  match o with Some c => c ∈ commands /\ cmd c = name | None => forall c, c ∈ commands -> cmd c <> name end ->
  o = List.find (fun c => cmd c =b name) commands.
Proof.
  intros Ho. destruct (List.find (fun c => cmd c =b name) commands) as [d|] eqn:Ed.
  - apply List.find_some in Ed as [Hd Ed]. apply list_elem_of_In in Hd. apply bytes_eqb_eq in Ed.
    destruct o as [c|]; [|by destruct (Ho d Hd)]. destruct Ho as [Hc Ec]. f_equal.
    apply list_elem_of_lookup in Hc as [i Hi]. apply list_elem_of_lookup in Hd as [j Hj].
    destruct (decide (i = j)) as [->|Hne]; [congruence|]. exfalso. destruct (decide (i < j)%nat) as [Hij|Hij].
    + pose proof (commands_sorted i j c d Hij Hi Hj) as Hlt. rewrite Ec, Ed, strcmp_refl in Hlt. lia.
    + pose proof (commands_sorted j i d c ltac:(lia) Hj Hi) as Hlt. rewrite Ec, Ed, strcmp_refl in Hlt. lia.
  - destruct o as [c|]; [|done]. destruct Ho as [Hc Ec]. apply list_elem_of_In in Hc. pose proof (List.find_none _ _ Ed c Hc) as Hf. cbn in Hf.
    apply bytes_eqb_neq in Hf. congruence.
Qed.

Lemma command_lookup_find name : command_lookup env extern name = Some (List.find (fun c => cmd c =b name) commands).
Proof.
  unfold command_lookup. destruct (command_lookup_loop_spec (length commands) name 0 (length commands)) as (o & E & Ho).
  - change (length commands) with 114%nat. lia.
  - lia.
  - intros j c Hj. lia.
  - intros j c Hj Hc. apply lookup_lt_Some in Hc. lia.
  - change (Z.of_nat 0) with 0 in E. rewrite E. by rewrite (find_spec name o Ho).
Qed.
End Lookup.

(** ** Every command keeps the partition well-formed *)

(** The commands whose handlers are not modelled. *)
Definition not_modelled : list string :=
  ["add"; "albumart"; "config"; "count"; "decoders"; "delpartition"; "disableoutput"; "enableoutput"; "find"; "findadd"; "getfingerprint";
   "getvol"; "list"; "listall"; "listallinfo"; "listfiles"; "listmounts"; "listneighbors"; "listpartitions"; "listplaylist"; "listplaylistinfo";
   "listplaylists"; "load"; "lsinfo"; "mount"; "moveoutput"; "newpartition"; "outputs"; "outputset"; "partition"; "playlistadd";
   "playlistclear"; "playlistdelete"; "playlistlength"; "playlistmove"; "readcomments"; "readpicture"; "rename"; "rescan"; "rm"; "save";
   "search"; "searchadd"; "searchaddpl"; "searchcount"; "searchplaylist"; "setvol"; "stats"; "sticker"; "stickernames"; "stickernamestypes";
   "stickertypes"; "toggleoutput"; "unmount"; "update"; "urlhandlers"; "volume"]%string.

(** What breaks the modelled commands: the id 0, an empty range to be moved, a
    position before the start of the queue. *)
Definition argument_hazard `{Random} `{PlayerControl} (name : bytes) (args : list bytes) (p : Partition) : bool :=
  if existsb (fun n => name =b lit n) ["playid"; "seekid"; "deleteid"; "rangeid"; "addtagid"; "cleartagid"; "playlistid"]%string then zero_at args 0
  else if name =b lit "swapid" then zero_at args 0 || zero_at args 1
  else if name =b lit "prioid" then existsb zero_id (drop 1 args)
  else if name =b lit "move" then move_hazard args p
  else if name =b lit "moveid" then moveid_hazard args p
  else false.

(** What a client must not send. *)
Definition hazard `{Random} `{PlayerControl} (name : bytes) (args : list bytes) (p : Partition) : bool :=
  existsb (fun n => name =b lit n) not_modelled || argument_hazard name args p.

Section Process.
Context `{RandomLaws} `{PlayerLaws} (env : Environment) (extern : bytes -> Handler).
Implicit Types (p : Partition).
Notation commands := (commands env extern).

Definition handler_ok (c : Command) : Prop :=
  forall permission args r p, command_check_request c permission args = None -> hazard (cmd c) args p = false -> ready p -> handled (handler c args r) p.

Lemma check_arity c permission args : command_check_request c permission args = None ->
  allowed permission (cmd_permission c) = true /\
  (0 <= cmd_min c -> cmd_min c <= Z.of_nat (length args) /\ (0 <= cmd_max c -> Z.of_nat (length args) <= cmd_max c)).
Proof.
  unfold command_check_request. destruct (allowed _ _); [|done]. cbn [negb]. intros E. split; [done|]. revert E.
  destruct (Z.ltb_spec (cmd_min c) 0); [lia|].
  destruct ((cmd_min c =? cmd_max c) && negb (cmd_max c =? Z.of_nat (length args))) eqn:E1; [done|].
  destruct (Z.ltb_spec (Z.of_nat (length args)) (cmd_min c)); [done|].
  destruct (Z.leb_spec 0 (cmd_max c)), (Z.ltb_spec (cmd_max c) (Z.of_nat (length args))); cbn [andb]; done || lia.
Qed.

Lemma print_registry_steady (f : bytes * Z -> bool) p : ready p ->
  steady (each (fun c => if f c then print_command env (fst c) else mret tt) (registry env extern)) p.
Proof. apply steady_each. intros c q Hq. destruct (f c); [by apply steady_out|done]. Qed.

Lemma handle_commands_ok args r p : ready p -> steady (handle_commands env extern args r) p.
Proof. intros Hp. apply steady_ok, steady_bind; [by apply steady_client|]. intros perm q Hq. by apply (print_registry_steady (fun c => _)). Qed.

Lemma handle_not_commands_ok args r p : ready p -> steady (handle_not_commands env extern args r) p.
Proof. intros Hp. apply steady_ok, steady_bind; [by apply steady_client|]. intros perm q Hq. by apply (print_registry_steady (fun c => _)). Qed.

Ltac a_handler Hn Hz Hp :=
  first
    [ by apply handle_idle_ok
    | apply steady_handled;
      first [ apply handle_play_ok | apply handle_playid_ok | apply handle_stop_ok | apply handle_pause_ok | apply handle_next_ok | apply handle_previous_ok
            | apply handle_repeat_ok | apply handle_single_ok | apply handle_consume_ok | apply handle_random_ok | apply handle_clearerror_ok
            | apply handle_seek_ok | apply handle_seekid_ok | apply handle_seekcur_ok | apply handle_crossfade_ok | apply handle_mixrampdb_ok
            | apply handle_mixrampdelay_ok | apply handle_replay_gain_mode_ok | apply handle_replay_gain_status_ok | apply handle_addid_ok
            | apply handle_rangeid_ok | apply handle_delete_ok | apply handle_deleteid_ok | apply handle_shuffle_ok | apply handle_clear_ok
            | apply handle_playlist_ok | apply handle_plchangesposid_ok | apply handle_prio_ok | apply handle_prioid_ok | apply handle_move_ok
            | apply handle_moveid_ok | apply handle_swap_ok | apply handle_swapid_ok | apply handle_addtagid_ok | apply handle_cleartagid_ok
            | apply handle_binary_limit_ok | apply handle_password_ok | apply handle_tagtypes_ok | apply handle_subscribe_ok
            | apply handle_unsubscribe_ok | apply handle_channels_ok | apply handle_read_messages_ok | apply handle_send_message_ok
            | apply handle_currentsong_ok | apply handle_status_ok | apply handle_playlistinfo_ok | apply handle_playlistid_ok | apply handle_plchanges_ok
            | apply handle_playlist_match_ok | apply handle_protocol_ok | apply handle_commands_ok | apply handle_not_commands_ok | by apply steady_ret ];
      first [ exact Hp | lia | exact Hz | apply orb_false_iff in Hz; apply Hz ] ].

(** The handlers are only looked at through their lemmas. *)
#[local] Opaque handle_play handle_playid handle_stop handle_pause handle_status handle_next handle_previous handle_repeat handle_single
  handle_consume handle_random handle_clearerror handle_seek handle_seekid handle_seekcur handle_crossfade handle_mixrampdb
  handle_mixrampdelay handle_replay_gain_mode handle_replay_gain_status handle_addid handle_rangeid handle_delete handle_deleteid
  handle_shuffle handle_clear handle_playlist handle_currentsong handle_playlistinfo handle_playlistid handle_plchanges handle_plchangesposid
  handle_playlist_match handle_prio handle_prioid handle_move handle_moveid handle_swap handle_swapid handle_addtagid handle_cleartagid
  handle_binary_limit handle_password handle_tagtypes handle_protocol handle_subscribe handle_unsubscribe
  handle_channels handle_read_messages handle_send_message handle_idle.

Lemma handlers_ok : Forall handler_ok commands.
Proof.
  unfold commands, commands_with. repeat (apply Forall_cons; split); try apply Forall_nil_2;
    intros permission args r p Hc [Hm Hz]%orb_false_iff Hp; try (vm_compute in Hm; discriminate Hm); clear Hm; apply check_arity in Hc as [_ Hn]; cbn [handler cmd cmd_min cmd_max] in *; specialize (Hn ltac:(lia)) || clear Hn;
    try destruct Hn as [Hlo Hhi]; try specialize (Hhi ltac:(lia)); a_handler Hn Hz Hp.
Qed.

(** *** The arguments of a line *)

Lemma NextParams_enough n input argv : (length input < n)%nat -> exists r, NextParams n input argv = Some r.
Proof.
  revert input argv. induction n as [|n IH]; intros input argv Hn; [lia|]. cbn [NextParams].
  destruct (Tokenizer.NextParam input) as [[[a|] rest]|e] eqn:E; [|by eexists..].
  destruct (_ <=? _); [by eexists|]. apply IH. apply Tokenizer.NextParam_shorter in E. lia.
Qed.

(** The command and the arguments of a line that is well-formed. *)
Definition line_command (line : bytes) : option (bytes * list bytes) :=
  match Tokenizer.NextWord line with
  | Ok (Some name, input) => match NextParams (S (length input)) input [] with Some (Ok (Some args)) => Some (name, args) | _ => None end
  | _ => None
  end.
Definition line_hazard (line : bytes) p : bool :=
  match line_command line with Some (name, args) => hazard name args p | None => false end.

(** A command was processed: there is a result, and only "idle" leaves the
    client waiting. *)
Definition processed (m : CM CommandResult) p : Prop :=
  cwp m (fun r p' => exists res, r = Done res /\ partition_ok p' /\ (self_idle p' = true -> res = RESULT_IDLE)) p.

Lemma cwp_Error r ack msg Q p : ready p -> (forall p', ready p' -> p_playlist p' = p_playlist p -> Q (Done tt) p') -> cwp (Error (refuses env) r ack msg) Q p.
Proof.
  intros Hp HQ. apply cwp_bind, (cwp_out env); [done|]. intros p1 Hp1 E1. apply cwp_bind, (cwp_out env); [done|]. intros p2 Hp2 E2.
  apply (cwp_out env); [done|]. intros p3 Hp3 E3. apply HQ; [done|congruence].
Qed.

Lemma processed_error r ack msg res p : ready p -> processed (Error (refuses env) r ack msg;; mret res) p.
Proof. intros Hp. apply cwp_bind, cwp_Error; [done|]. intros p' [Hp' Hi] _. exists res. by rewrite Hi. Qed.

Lemma handled_processed m r p : handled m p -> processed (handling m (fun e => PrintError env r e;; mret RESULT_ERROR)) p.
Proof.
  unfold handled, processed, cwp, handling. destruct (m p) as [[p' [res|e]]|]; [| |done].
  - intros [Hp Hi]. exists res. split_and!; [done|done|]. intros Hw. specialize (Hi Hw). congruence.
  - intros [Hp Hi]. apply (processed_error r). split; [done|]. destruct (self_idle p'); [by specialize (Hi eq_refl)|done].
Qed.

Lemma run_command_processed num name args p : ready p -> hazard name args p = false -> processed (run_command env extern num name args) p.
Proof.
  intros Hp Hz. unfold processed, cwp, run_command. rewrite command_lookup_find.
  destruct (List.find (fun c => cmd c =b name) commands) as [c|] eqn:Hc; [|by apply processed_error].
  apply List.find_some in Hc as [Hin Hname]. apply bytes_eqb_eq in Hname. subst name.
  destruct (self_lookup p (proj1 Hp)) as (cl & Hcl & _). apply cwp_bind, (cwp_client _ _ _ cl Hcl).
  destruct (command_check_request c (permission cl) args) as [[ack msg]|] eqn:Hcheck; [by apply processed_error|].
  apply handled_processed. pose proof (proj1 (Forall_forall _ _) handlers_ok c) as Hok. by apply (Hok ltac:(by apply list_elem_of_In) (permission cl)).
Qed.

Lemma command_process_processed num line p : ready p -> line_hazard line p = false -> processed (command_process env extern num line) p.
Proof.
  intros Hp Hz. unfold command_process. unfold line_hazard, line_command in Hz.
  destruct (Tokenizer.NextWord line) as [[[name|] input]|e]; [|by apply processed_error..].
  destruct (NextParams_enough (S (length input)) input []) as [r Er]; [lia|]. rewrite Er in *.
  destruct r as [[args|]|e]; [by apply run_command_processed|by apply processed_error..].
Qed.

(** ** Lines *)

(** A command list, one command after the other. *)
Fixpoint list_hazard (list_ok : bool) (n : Z) (list : list bytes) p : bool :=
  match list with
  | [] => false
  | cmd :: list =>
      line_hazard cmd p ||
      match command_process env extern n cmd p with
      | Some (p', Done RESULT_OK) =>
          match (if list_ok then out env (lit "list_OK" ++ [LF]) else mret tt) p' with
          | Some (p'', _) => list_hazard list_ok (n + 1) list p''
          | None => false
          end
      | _ => false
      end
  end.

Definition input_line (src : bytes) : bytes := c_str (StripRight (fst (Split src LF))).

(** The hazard of the next line of the input; the timer is running by then. *)
Definition input_hazard (src : bytes) p : bool :=
  match clients p !! self p with
  | Some c =>
      let c := set_timeout true c in
      match cmd_mode c with
      | Some ok_mode => (input_line src =b lit "command_list_end") && list_hazard ok_mode 0 (cmd_list c) (set_self (cmd_Reset c) p)
      | None => line_hazard (input_line src) (set_self c p)
      end
  | None => false
  end.

Definition self_gone p : bool := match clients p !! self p with Some c => expired c | None => true end.

(** All is well but for the client itself, which may be closed. *)
Record closable p : Prop := {
  z_playlist : exists cs, pl_ok cs (mkWorld (p_playlist p) (p_player p) []);
  z_self : exists c, clients p !! self p = Some c;
  z_clients : forall i c, i <> self p -> clients p !! i = Some c -> deleted c = false -> client_ok c
}.

Lemma partition_closable p : partition_ok p -> closable p.
Proof. intros [Hl (c & Hc & _) Hf]. split; [done|by exists c|]. intros i d _ Hd. by apply (proj1 (Forall_lookup _ _) Hf i). Qed.

(** After a line: the client will be closed, or all is well. *)
Definition line_done (r : outcome CommandResult) p : Prop :=
  exists res, r = Done res /\ closable p /\ (res = RESULT_CLOSE \/ partition_ok p) /\ (res = RESULT_FINISH -> self_gone p = false).

Lemma line_done_ok res p : partition_ok p -> (res = RESULT_FINISH -> self_gone p = false) -> line_done (Done res) p.
Proof. intros Hp Hf. exists res. split_and!; [done|by apply partition_closable|by right|done]. Qed.

Lemma cwp_expired Q p : partition_ok p -> Q (Done (self_gone p)) p -> cwp (client IsExpired) Q p.
Proof.
  intros Hp HQ. destruct (q_self p Hp) as (c & Hc & _). apply (cwp_client _ _ _ c Hc). unfold self_gone in HQ. by rewrite Hc in HQ.
Qed.

Lemma ProcessCommandList_done list_ok n list p : ready p -> list_hazard list_ok n list p = false ->
  cwp (ProcessCommandList env extern list_ok n list) (fun r p' => exists res, r = Done res /\ partition_ok p' /\
    (res = RESULT_OK -> self_idle p' = false) /\ (res = RESULT_FINISH -> self_gone p' = false)) p.
Proof.
  revert n p. induction list as [|cmd list IH]; intros n p Hp Hz.
  { exists RESULT_OK. split_and!; [done|apply Hp|by intros; apply Hp|done]. }
  cbn [ProcessCommandList list_hazard] in *. apply orb_false_iff in Hz as [Hz1 Hz2].
  pose proof (command_process_processed n cmd p Hp Hz1) as Hc. apply cwp_bind. unfold processed, cwp in *.
  destruct (command_process env extern n cmd p) as [[p1 r]|]; [|done]. destruct Hc as (res & -> & Hp1 & Hi).
  apply cwp_bind, cwp_expired; [done|]. destruct (self_gone p1) eqn:Hg; [by exists RESULT_CLOSE|].
  destruct (decide (res = RESULT_OK)) as [->|Hne].
  - rewrite bool_decide_eq_true_2 by done. cbn [negb]. assert (ready p1) as Hr1 by (split; [done|]; destruct (self_idle p1); [by specialize (Hi eq_refl)|done]).
    apply cwp_bind. destruct list_ok; [|by apply IH].
    pose proof (cwp_out env (lit "list_OK" ++ [LF]) (fun r p' => r = Done tt /\ ready p') p1 Hr1 (fun p' Hp' _ => conj eq_refl Hp')) as Ho.
    unfold cwp in Ho |- *. destruct (out env (lit "list_OK" ++ [LF]) p1) as [[p2 r2]|]; [|done]. destruct Ho as [-> Hr2]. by apply IH.
  - rewrite bool_decide_eq_false_2 by done. exists res. by split_and!.
Qed.

Lemma WriteOK_done res p : partition_ok p -> (res = RESULT_OK -> self_idle p = false) -> (res = RESULT_FINISH -> self_gone p = false) ->
  cwp ((if bool_decide (res = RESULT_OK) then WriteOK env else mret tt);; mret res) line_done p.
Proof.
  intros Hp Hi Hg. apply cwp_bind. destruct (decide (res = RESULT_OK)) as [->|Hne].
  - rewrite bool_decide_eq_true_2 by done. apply cwp_out; [by split; auto|]. intros p' Hp' _. by apply line_done_ok; [apply Hp'|].
  - rewrite bool_decide_eq_false_2 by done. by apply line_done_ok.
Qed.

Lemma ProcessLine_done line p c : clients p !! self p = Some c -> deleted c = false -> closable p -> client_core c -> (idle_waiting c = false -> client_ok c) ->
  match cmd_mode c with
  | Some ok_mode => (line =b lit "command_list_end") && list_hazard ok_mode 0 (cmd_list c) (set_self (cmd_Reset c) p)
  | None => line_hazard line p
  end = false ->
  cwp (ProcessLine env extern line) line_done p.
Proof.
  intros Hc Hd Hz Hcore Hok Hhaz. unfold ProcessLine. apply cwp_bind, (cwp_client _ _ _ c Hc). cbn [id].
  assert (line_done (Done RESULT_CLOSE) p) as Hclose by (exists RESULT_CLOSE; split_and!; [done|done|by left|done]).
  destruct (negb _); [done|]. destruct (IsActive c && _); [done|].
  assert (forall c', client_ok c' -> deleted c' = false -> partition_ok (set_self c' p)) as Hset.
  { intros c' Hc' Hd'. destruct Hz as [Hl _ Hcl]. split; [done| |].
    - exists c'. cbn. split; [|done]. apply list_lookup_insert_eq. by apply lookup_lt_Some in Hc.
    - cbn. apply Forall_lookup. intros i x Hx Hdx. destruct (decide (i = self p)) as [->|Hi].
      + rewrite list_lookup_insert_eq in Hx by (by apply lookup_lt_Some in Hc). congruence.
      + rewrite list_lookup_insert_ne in Hx by done. by apply (Hcl i). }
  assert (forall c', clients (set_self c' p) !! self (set_self c' p) = Some c') as Hself.
  { intros c'. cbn. apply list_lookup_insert_eq. by apply lookup_lt_Some in Hc. }
  assert (forall c', client_ok c' -> deleted c' = false -> idle_waiting c' = false -> ready (set_self c' p)) as Hready.
  { intros c' Hc' Hd' Hi'. split; [by apply Hset|]. unfold self_idle. by rewrite Hself. }
  destruct (idle_waiting c) eqn:Hi.
  { destruct (line =b lit "noidle"); [|done]. apply cwp_bind, cwp_bind, (cwp_update _ _ _ c Hc).
    apply cwp_out; [|intros p' Hp' _; by apply line_done_ok; [apply Hp'|]]. apply Hready; [|done|done]. by split; [apply (client_core_same c)|]. }
  specialize (Hok eq_refl).
  assert (p = set_self c p) as Ep.
  { unfold set_self. rewrite list_insert_id by done. by destruct p. }
  assert (ready p) as Hp by (rewrite Ep; by apply Hready).
  destruct (line =b lit "noidle"); [apply cwp_bind; by apply line_done_ok; [apply Hp|]|].
  destruct (cmd_mode c) as [ok_mode|] eqn:Hmode.
  - destruct (line =b lit "command_list_end"); cbn [andb] in Hhaz.
    + apply cwp_bind, (cwp_update _ _ _ c Hc). apply cwp_bind. eapply cwp_conseq.
      { apply ProcessCommandList_done; [|exact Hhaz]. apply Hready; [|done|done]. destruct Hok as [[Hl Hs Hm] Hw]. split; [split; done|]. unfold waits_ok. cbn. by rewrite Hi. }
      intros r p' (res & -> & Hp' & Hri & Hrg). by apply WriteOK_done.
    + apply cwp_bind. unfold cwp, method. rewrite Hc. cbn. unfold cmd_Add.
      destruct (_ <? _); cbn; (apply line_done_ok; [|done]); apply (Hset (set_cmd _ _ _ c)); try done; (split; [|unfold waits_ok; cbn; by rewrite Hi]);
        destruct Hok as [[Hl Hs Hm] Hw]; split; try done; cbn; rewrite Hmode; done.
  - assert (forall b, cwp (method_ (cmd_Begin b);; mret RESULT_OK) line_done p) as Hbegin.
    { intros b. apply cwp_bind. unfold cwp, method_, method. rewrite Hc. cbn. unfold cmd_Begin, IsActive. rewrite Hmode.
      rewrite bool_decide_eq_true_2 by (by apply (k_list c)). cbn. apply line_done_ok; [|done]. apply (Hset (set_cmd _ _ _ c)); [|done].
      destruct Hok as [[Hl Hs Hm] Hw]. split; [split; done|]. unfold waits_ok. cbn. by rewrite Hi. }
    destruct (line =b lit "command_list_begin");
      [|destruct (line =b lit "command_list_ok_begin")].
    + by apply (Hbegin false).
    + by apply (Hbegin true).
    + apply cwp_bind. eapply cwp_conseq; [by apply command_process_processed|]. intros r p' (res & -> & Hp' & Hri).
      apply cwp_bind, cwp_expired; [done|]. destruct (self_gone p') eqn:Hg; [by apply line_done_ok|].
      apply WriteOK_done; [done| |done]. intros ->. destruct (self_idle p'); [by specialize (Hri eq_refl)|done].
Qed.

(** ** The event loop *)

(** Between two events. *)
Definition clients_ok p : Prop :=
  (exists cs, pl_ok cs (mkWorld (p_playlist p) (p_player p) [])) /\ Forall (fun c => deleted c = false -> client_ok c) (clients p).

Lemma close_ok p (f : Client -> Client) : closable p -> (forall c, deleted (f c) = true) -> cwp (update f) (fun r p' => r = Done tt /\ clients_ok p') p.
Proof.
  intros [Hl (c & Hc) Hf] Hdel. apply (cwp_update _ _ _ c Hc). split; [done|]. split; [done|]. cbn. apply Forall_lookup. intros i x Hx Hdx.
  destruct (decide (i = self p)) as [->|Hi].
  - rewrite list_lookup_insert_eq in Hx by (by apply lookup_lt_Some in Hc). injection Hx as <-. by rewrite Hdel in Hdx.
  - rewrite list_lookup_insert_ne in Hx by done. by apply (Hf i).
Qed.

Lemma close_input_ok p (rest : bytes) : closable p -> cwp (update Close;; mret (INPUT_CLOSED, rest)) (fun _ => clients_ok) p.
Proof. intros Hz. apply cwp_bind. eapply cwp_conseq; [by apply (close_ok p Close)|]. by intros r p' [-> Hp']. Qed.

Lemma partition_clients_ok p : partition_ok p -> clients_ok p.
Proof. by intros [Hl _ Hf]. Qed.

Lemma OnSocketInput_ok src p : partition_ok p -> self_gone p = false -> input_hazard src p = false ->
  cwp (OnSocketInput env extern src) (fun _ => clients_ok) p.
Proof.
  intros Hp Hgone Hz. unfold OnSocketInput, input_hazard, input_line in *. destruct (Split src LF) as [line [rest|]]; [|by apply partition_clients_ok].
  cbn [fst] in Hz. destruct (self_lookup p Hp) as (c & Hc & Hd & Hok). rewrite Hc in Hz. apply cwp_bind, (cwp_update _ _ _ c Hc).
  assert (closable (set_self (set_timeout true c) p)) as Hclose.
  { destruct (partition_closable p Hp) as [Hl _ Hf]. split; [done| |].
    - exists (set_timeout true c). cbn. apply list_lookup_insert_eq. by apply lookup_lt_Some in Hc.
    - cbn. intros i x Hi Hx. rewrite list_lookup_insert_ne in Hx by done. by apply (Hf i). }
  assert (clients (set_self (set_timeout true c) p) !! self (set_self (set_timeout true c) p) = Some (set_timeout true c)) as Hself by (by apply set_self_lookup).
  apply cwp_bind. eapply cwp_conseq; [apply (ProcessLine_done _ _ _ Hself Hd Hclose)|].
  - by apply (client_core_same c); [apply Hok|..].
  - intros Hi. split; [by apply (client_core_same c); [apply Hok|..]|]. unfold waits_ok. by rewrite Hi.
  - destruct (cmd_mode c) eqn:Hm; cbn in *; rewrite Hm in *; [|done]. unfold set_self in *. cbn in *. by rewrite list_insert_insert_eq.
  - intros r p' (res & -> & Hz' & Hdone & Hfin). assert (partition_ok p' -> cwp (gone ← client IsExpired; if (gone : bool) then update Close;; mret (INPUT_CLOSED, rest) else mret (INPUT_AGAIN, rest)) (fun _ => clients_ok) p') as Hagain.
    { intros Hp'. apply cwp_bind, cwp_expired; [done|]. destruct (self_gone p'); [by apply close_input_ok|by apply partition_clients_ok]. }
    destruct res; try (by destruct Hdone as [|Hp']; [done|apply Hagain]); try by apply close_input_ok.
    destruct Hdone as [|Hp']; [done|]. specialize (Hfin eq_refl). destruct (self_lookup p' Hp') as (d & Hd' & Hdd & Hokd).
    unfold self_gone in Hfin. rewrite Hd' in Hfin. apply cwp_bind. unfold cwp, method_, method. rewrite Hd'. cbn. unfold flush_and_close, IsExpired. rewrite Hfin. cbn.
    destruct (refuses env (output d) []).
    + apply (partition_clients_ok (set_self (SetExpired d) p')), set_self_ok; [done|by apply SetExpired_ok|unfold SetExpired, IsExpired; by rewrite Hfin].
    + split; [apply Hp'|]. cbn. apply Forall_insert; [apply Hp'|done].
Qed.
End Process.
