(* ===== verification/ClientSpec.v ===== *)
(** A partition with its clients as a whole: the events that reach it, and
    the properties of the protocol. *)
From S2P Require Import Arrays Text Tokenizer Tags Songs RangeArg SongSort Queue QueueWf QueueOps QueueRandom QueueSpec PlayControl PlayRules PlayWf PlayOps PlayPlayback PlayEdits PlayMoves PlaySpec SongFilter SongPrint Permission ArgParser Client ClientWf Commands CommandSafe CommandTable CommandSpec.
Open Scope Z_scope.

(** ** Events *)

(** A client connects, sends data, goes away, runs into its timeout; the player,
    the mixer and the rest of the program report events, which are passed on
    to the clients; the player and the database call the playlist. *)
Inductive Event :=
| EvConnect (_uid _permission : Z) | EvInput (i : nat) (src : bytes) | EvSocketClosed (i : nat) | EvEmitIdle (mask : Z) | EvIdleMonitor
| EvTimeout (i : nat) | EvPlaylist (op : PlaylistOp).

Section Events.
Context `{Random} `{PlayerControl} (extern : bytes -> Handler).

Definition with_clients (l : list Client) (p : Partition) : Partition :=
  mkPartition l (self p) (p_playlist p) (p_player p) (replay_gain_mode p) (idle_monitor p).
Definition focus (i : nat) (p : Partition) : Partition :=
  mkPartition (clients p) i (p_playlist p) (p_player p) (replay_gain_mode p) (idle_monitor p).

Definition handle_event (env : Environment) (ev : Event) (p : Partition) : option Partition :=
  match ev with
  | EvConnect u perm => Some (with_clients (clients p ++ [Client_new u perm]) p)
  | EvInput i src => fst <$> OnSocketInput env extern src (focus i p)
  | EvSocketClosed i => c ← clients p !! i; Some (with_clients (<[i := SetExpired c]> (clients p)) p)
  | EvEmitIdle mask => fst <$> EmitIdle mask p
  | EvIdleMonitor => OnIdleMonitor (refuses env) p
  | EvTimeout i => c ← clients p !! i; c ← OnTimeout c; Some (with_clients (<[i := c]> (clients p)) p)
  | EvPlaylist op => fst <$> on_playlist (run op) p
  end.

(** Events come for clients that are there, data only from an open socket; a
    client does not send a [hazard]. *)
Definition event_permitted (env : Environment) (ev : Event) (p : Partition) : bool :=
  match ev with
  | EvInput i src =>
      match clients p !! i with
      | Some c => negb (deleted c) && negb (expired c) && negb (input_hazard env extern src (focus i p))
      | None => false
      end
  | EvSocketClosed i => match clients p !! i with Some c => negb (deleted c) | None => false end
  | EvTimeout i => match clients p !! i with Some c => negb (deleted c) && timeout c | None => false end
  | EvPlaylist op => permitted (p_playlist p) op
  | _ => true
  end.

(** The environment may change between two events. *)
Fixpoint handle_events (evs : list (Environment * Event)) (p : Partition) : option Partition :=
  match evs with
  | [] => Some p
  | (env, ev) :: evs => p ← handle_event env ev p; handle_events evs p
  end.

(** Every event is permitted where it happens; after one that is not defined
    nothing is asked. *)
Fixpoint events_permitted (evs : list (Environment * Event)) (p : Partition) : bool :=
  match evs with
  | [] => true
  | (env, ev) :: evs => event_permitted env ev p && match handle_event env ev p with None => true | Some p => events_permitted evs p end
  end.

Definition Partition_new (max_length : Z) (c : Player) : Partition := mkPartition [] 0 (playlist_new max_length) c RG_OFF 0.
End Events.

Section Safe.
Context `{RandomLaws} `{PlayerLaws} (extern : bytes -> Handler).
Implicit Types (p : Partition).

Lemma clients_ok_lookup p i c : clients_ok p -> clients p !! i = Some c -> deleted c = false -> client_ok c.
Proof. intros [_ Hf] Hc. by apply (proj1 (Forall_lookup _ _) Hf i). Qed.

Lemma handle_event_ok env ev p : clients_ok p -> event_permitted extern env ev p = true ->
  exists p', handle_event extern env ev p = Some p' /\ clients_ok p'.
Proof.
  intros Hp He. pose proof Hp as [Hl Hf]. destruct ev as [u perm|i src|i|mask| |i|op]; cbn [handle_event event_permitted] in *.
  - eexists. split; [done|]. split; [done|]. cbn. apply Forall_app. split; [done|]. constructor; [|constructor]. intros _. apply Client_new_ok.
  - destruct (clients p !! i) as [c|] eqn:Hc; [|done]. rewrite !andb_true_iff, !negb_true_iff in He. destruct He as [[Hd Hexp] Hz].
    destruct (cwp_any _ _ _ (OnSocketInput_ok env extern src (focus i p) ltac:(by split; [|exists c|]) ltac:(unfold self_gone; cbn; by rewrite Hc) Hz)) as (p' & r & Hr & Hp').
    rewrite Hr. by exists p'.
  - destruct (clients p !! i) as [c|] eqn:Hc; [|done]. rewrite negb_true_iff in He. destruct (clients_ok_lookup p i c Hp Hc He) as [Hcore Hw].
    eexists. split; [done|]. split; [done|]. cbn. apply Forall_insert; [done|]. intros _. by apply SetExpired_ok.
  - eexists. split; [done|]. by split.
  - destruct (for_clients_ok (IdleAdd (refuses env) (idle_monitor p)) (clients p)) as (l & El & Hl' & _); [|done|].
    + intros c Hc. destruct (IdleAdd_ok (refuses env) (idle_monitor p) c Hc) as (c' & ? & ? & _ & ? & _). by exists c'.
    + unfold OnIdleMonitor. rewrite El. eexists. split; [done|]. by split.
  - destruct (clients p !! i) as [c|] eqn:Hc; [|done]. rewrite andb_true_iff, negb_true_iff in He. destruct He as [Hd Ht].
    destruct (clients_ok_lookup p i c Hp Hc Hd) as [Hcore Hw]. cbn. unfold OnTimeout, IsExpired.
    assert (negb (expired c) && idle_waiting c = false) as ->.
    { destruct (expired c) eqn:E; [done|]. destruct (idle_waiting c) eqn:Ew; [|done]. destruct (Hw Ew) as [?|[_ ?]]; congruence. }
    eexists. split; [done|]. split; [done|]. cbn. by apply Forall_insert.
  - destruct Hl as [cs Hpl]. pose proof (run_safe cs _ op Hpl He) as Hs. unfold safe, wp in Hs. unfold on_playlist.
    destruct (run op _) as [[w r]|]; [|done]. destruct Hs as [cs' Hpl']. eexists. split; [done|]. split; [|done]. exists cs'. cbn.
    by apply (pl_ok_player cs' w (pc w)).
Qed.

Lemma handle_events_ok evs p : clients_ok p -> events_permitted extern evs p = true ->
  exists p', handle_events extern evs p = Some p' /\ clients_ok p'.
Proof.
  revert p. induction evs as [|[env ev] evs IH]; intros p Hp; [by exists p|]. cbn [handle_events events_permitted].
  intros [He Hevs]%andb_true_iff. destruct (handle_event_ok env ev p Hp He) as (p' & E & Hp'). rewrite E in *. by apply IH.
Qed.

Lemma Partition_new_ok n c : 1 <= n < 2 ^ 30 -> has_next c = false -> clients_ok (Partition_new n c).
Proof. intros Hn Hc. split; [|constructor]. exists None. by apply start_ok. Qed.
End Safe.

(** ** Properties *)

(** C28: Clients send what they like of the commands that are modelled, in
    whatever chunks and order, with the player's and the event loop's calls
    in between, as long as no line is a [hazard] (the id 0, an empty range
    to be moved, a position before the start of the queue) and the calls of
    the playlist are [permitted]: no assertion fails, nothing is
    read or written outside the queue, and a timeout never hits a client in
    "idle" mode.  A client that waits has no event pending that it waits for;
    subscriptions and messages keep to their limits. *)
Theorem partition_events `{RandomLaws} `{PlayerLaws} (extern : bytes -> Handler)
  (n : Z) (c : Player) (evs : list (Environment * Event)) (Hn : 1 <= n < 2 ^ 30) (Hc : has_next c = false)
  (Hpermitted : events_permitted extern evs (Partition_new n c) = true) :
  exists p, handle_events extern evs (Partition_new n c) = Some p /\ queue_ok (queue (p_playlist p)) /\
    forall i d, clients p !! i = Some d -> deleted d = false ->
      Z.of_nat (length (messages d)) <= MAX_MESSAGES /\ Z.of_nat (length (subscriptions d)) <= MAX_SUBSCRIPTIONS /\
      (idle_waiting d = true -> expired d = false -> Z.land (idle_flags d) (idle_subscriptions d) = 0 /\ timeout d = false).
Proof.
  destruct (handle_events_ok extern evs (Partition_new n c)) as (p & E & Hp); [by apply Partition_new_ok|done|]. exists p. split; [done|].
  split; [destruct Hp as [[cs Hpl] _]; apply (p_core _ _ Hpl)|]. intros i d Hd Hdel. destruct (clients_ok_lookup p i d Hp Hd Hdel) as [[_ [Hnum [Hmax _]] Hm] Hw].
  split_and!; [done|lia|]. intros Hi Hexp. destruct (Hw Hi) as [?|?]; [congruence|done].
Qed.

(** ** Words *)

(** A word as a client may send it: in quotes, or without if it needs none. *)
Definition sent_word (a : bool * bytes) : bytes := if fst a || negb (Tokenizer.unquoted (snd a)) then Tokenizer.quote (snd a) else snd a.
Definition sent_words (args : list (bool * bytes)) : bytes := flat_map (fun a => " "%char :: sent_word a) args.

Lemma sent_words_separated args : Tokenizer.separated (sent_words args) = true.
Proof. by destruct args. Qed.

Lemma StripLeft_sent a args : StripLeft_c (sent_words (a :: args)) = sent_word a ++ sent_words args.
Proof.
  cbn [sent_words flat_map app]. unfold StripLeft_c. cbn [drop_while]. change (IsWhitespaceNotNull " ") with true. cbv iota.
  apply drop_while_id. unfold sent_word. destruct (fst a || negb _) eqn:E; [done|].
  apply orb_false_iff in E as [_ E%negb_false_iff]. destruct (snd a) as [|c w]; [done|]. cbn in E |- *. apply andb_true_iff in E as [E _].
  destruct (IsWhitespaceNotNull c) eqn:Ew; [|done]. apply Tokenizer.whitespace_fast in Ew. apply Tokenizer.unquoted_not_space in E. congruence.
Qed.

Lemma NextParam_sent a s : Tokenizer.separated s = true -> Tokenizer.NextParam (sent_word a ++ s) = Ok (Some (snd a), StripLeft_c s).
Proof.
  intros Hs. unfold sent_word. destruct (fst a || negb (Tokenizer.unquoted (snd a))) eqn:E; [by apply Tokenizer.NextParam_quote|].
  apply orb_false_iff in E as [_ E%negb_false_iff]. by apply Tokenizer.NextParam_unquoted.
Qed.

Lemma NextParams_sent n args argv : (length (StripLeft_c (sent_words args)) < n)%nat -> Z.of_nat (length argv + length args) <= COMMAND_ARGV_MAX ->
  NextParams n (StripLeft_c (sent_words args)) argv = Some (Ok (Some (argv ++ (snd <$> args)))).
Proof.
  revert n argv. induction args as [|a args IH]; intros n argv Hn Hmax; (destruct n as [|n]; [lia|]).
  { cbn. by rewrite app_nil_r. }
  rewrite StripLeft_sent in *. cbn [NextParams]. pose proof (NextParam_sent a (sent_words args) (sent_words_separated args)) as E. rewrite E.
  cbn [length] in Hmax. destruct (Z.leb_spec COMMAND_ARGV_MAX (Z.of_nat (length argv))); [lia|].
  apply Tokenizer.NextParam_shorter in E. rewrite IH; [by rewrite <- app_assoc|lia|]. rewrite length_app. cbn. lia.
Qed.

(** C30: What a client sends is what the command gets: a command's name and any
    arguments, quoted or not, empty or with any characters, are read back
    from the line unchanged, up to the largest number of arguments. *)
Theorem line_command_sent (c : byte) (name : bytes) (args : list (bool * bytes)) (Hc : Tokenizer.valid_word_first_char c = true)
  (Hname : forallb Tokenizer.valid_word_char name = true) (Hmax : Z.of_nat (length args) <= COMMAND_ARGV_MAX) :
  line_command ((c :: name) ++ sent_words args) = Some (c :: name, snd <$> args).
Proof.
  unfold line_command. rewrite Tokenizer.NextWord_valid by (done || apply sent_words_separated).
  by rewrite NextParams_sent by (cbn; lia).
Qed.

(** C31: The binary search in the table of commands finds what a search through
    the table finds, for every name; it does not leave the table. *)
Theorem command_lookup_linear `{Random} `{PlayerControl} (env : Environment) (extern : bytes -> Handler) (name : bytes) :
  command_lookup env extern name = Some (List.find (fun c => cmd c =b name) (commands env extern)).
Proof. apply command_lookup_find. Qed.

(** C32: A client without the permission a command needs gets an error, and
    nothing else happens: the handler does not run, the queue, the player and
    the other clients are as before. *)
Theorem command_denied `{Random} `{PlayerControl} (env : Environment) (extern : bytes -> Handler) (num : Z) (line name : bytes) (args : list bytes)
  (c : Command) (p : Partition) (client : Client) (Hclient : clients p !! self p = Some client) (Hline : line_command line = Some (name, args))
  (Hcommand : List.find (fun c => cmd c =b name) (commands env extern) = Some c) (Hdenied : allowed (permission client) (cmd_permission c) = false) :
  exists text, command_process env extern num line p =
    Some (with_clients (<[self p := Write (refuses env) [LF] (Write (refuses env) text (Write (refuses env)
      (lit "ACK [4@" ++ print_nat num ++ lit "] {" ++ cmd c ++ lit "} ") client))]> (clients p)) p, Done RESULT_ERROR).
Proof.
  exists (lit "you don't have permission for " ++ quoted (cmd c)).
  unfold line_command in Hline. unfold command_process. destruct (Tokenizer.NextWord line) as [[[w|] input]|]; try done.
  destruct (NextParams (S (length input)) input []) as [[[a|]|]|]; try done. injection Hline as -> ->.
  unfold run_command. rewrite command_lookup_find, Hcommand. unfold mbind, CM_bind, Client.client at 1. rewrite Hclient. cbn [mbind option_bind].
  unfold command_check_request. rewrite Hdenied. cbn [negb]. unfold fail, mbind, CM_bind. by rewrite (Error_eq _ _ _ _ p client Hclient).
Qed.

(** ** "idle" *)

(** Events happen; the client sends "idle" or "noidle". *)
Inductive IdleOp := IdleEvents (flags : Z) | IdleCommand (flags : Z) | IdleLeave.

Definition idle_op (refuses : bytes -> bytes -> bool) (op : IdleOp) (c : Client) : option Client :=
  match op with
  | IdleEvents flags => IdleAdd refuses flags c
  | IdleCommand flags => if idle_waiting c then Some c else IdleWait refuses flags c
  | IdleLeave =>
      Some (if idle_waiting c then Write refuses (lit "OK" ++ [LF]) (set_idle false (idle_flags c) (idle_subscriptions c) c) else c)
  end.

Fixpoint idle_ops (refuses : bytes -> bytes -> bool) (ops : list IdleOp) (c : Client) : option Client :=
  match ops with [] => Some c | op :: ops => c ← idle_op refuses op c; idle_ops refuses ops c end.

(** The replies: the events of an "idle" response, or a bare "OK". *)
Definition idle_text (flags : Z) : bytes := concat (idle_lines idle_names 0 flags) ++ lit "OK" ++ [LF].
Definition replies_text (replies : list (option Z)) : bytes :=
  flat_map (fun r => match r with Some flags => idle_text flags | None => lit "OK" ++ [LF] end) replies.
Definition reported (i : Z) (replies : list (option Z)) : bool :=
  existsb (fun r => match r with Some flags => Z.testbit flags i | None => false end) replies.
Definition happened (i : Z) (ops : list IdleOp) : bool :=
  existsb (fun op => match op with IdleEvents flags => Z.testbit flags i | _ => false end) ops.

Lemma reported_app i r1 r2 : reported i (r1 ++ r2) = reported i r1 || reported i r2.
Proof. apply existsb_app. Qed.
Lemma happened_cons i op ops : happened i (op :: ops) = happened i [op] || happened i ops.
Proof. unfold happened. cbn [existsb]. by rewrite orb_false_r. Qed.

(** A socket that takes everything. *)
Definition takes_all (_ _ : bytes) : bool := false.

Lemma Write_open s c : expired c = false -> Write takes_all s c = set_socket (expired c) (deleted c) (output c ++ s) c.
Proof.
  intros He. unfold Write, IsExpired. rewrite He. cbn [orb]. destruct (bool_decide (s = [])) eqn:Es; cbn [takes_all]; [|by rewrite <- He].
  apply bool_decide_eq_true in Es as ->. rewrite app_nil_r, <- He. by destruct c.
Qed.

Lemma WriteIdleResponse_open flags c : expired c = false ->
  WriteIdleResponse takes_all flags c = set_socket false (deleted c) (output c ++ idle_text flags) c.
Proof.
  intros He. unfold WriteIdleResponse, idle_text. generalize (idle_lines idle_names 0 flags) as l. intros l. revert c He.
  induction l as [|x l IH]; intros c He; cbn [fold_left concat].
  - rewrite Write_open by done. by rewrite He.
  - rewrite (Write_open x c He). rewrite IH by exact He. cbn. by rewrite <- !app_assoc.
Qed.

(** One step: what is written, and where the events go. *)
Definition idle_step_ok (op : IdleOp) (c : Client) (c' : Client) (replies : list (option Z)) : Prop :=
  client_ok c' /\ expired c' = false /\ output c' = output c ++ replies_text replies /\
  Forall (fun r => r <> Some 0) replies /\
  forall i, 0 <= i -> Z.testbit (idle_flags c') i || reported i replies = Z.testbit (idle_flags c) i || happened i [op].

Lemma IdleNotify_reports op c c0 : client_core c0 -> idle_waiting c0 = true -> expired c0 = false -> output c0 = output c ->
  Z.land (idle_flags c0) (idle_subscriptions c0) <> 0 -> (forall i, 0 <= i -> Z.testbit (idle_flags c0) i = Z.testbit (idle_flags c) i || happened i [op]) ->
  exists c', IdleNotify takes_all c0 = Some c' /\ idle_step_ok op c c' [Some (Z.land (idle_flags c0) (idle_subscriptions c0))].
Proof.
  intros Hcore Hw He Ho Hf Hbits. destruct (IdleNotify_ok takes_all c0 Hw Hf Hcore) as (c' & E & Hok & _). exists c'. split; [done|].
  unfold IdleNotify in E. rewrite Hw, (proj2 (Z.eqb_neq _ _) Hf) in E. cbn [negb orb] in E. rewrite WriteIdleResponse_open in E by done. injection E as <-.
  split; [done|]. split; [done|]. split; [cbn [set_timeout set_socket output replies_text flat_map]; rewrite app_nil_r; cbn [output]; by rewrite <- Ho|]. split; [constructor; [|constructor]; intros [= E]; lia|].
  intros i Hi. rewrite <- Hbits by done. cbn [set_timeout set_socket set_idle idle_flags reported existsb orb]. rewrite orb_false_r, Z.ldiff_spec, Z.land_spec by done.
  by destruct (Z.testbit (idle_flags c0) i), (Z.testbit (idle_subscriptions c0) i).
Qed.

Lemma idle_op_step op c : client_ok c -> expired c = false -> exists c' replies, idle_op takes_all op c = Some c' /\ idle_step_ok op c c' replies.
Proof.
  intros [Hcore Hwait] He. assert (forall f, idle_step_ok op c (f c) [] <-> client_ok (f c) /\ expired (f c) = false /\ output (f c) = output c /\
    (forall i, 0 <= i -> Z.testbit (idle_flags (f c)) i = Z.testbit (idle_flags c) i || happened i [op])) as Hquiet.
  { intros f. unfold idle_step_ok. cbn [replies_text flat_map reported existsb]. setoid_rewrite orb_false_r. rewrite app_nil_r. naive_solver constructor. }
  destruct op as [flags|flags|]; cbn [idle_op].
  - unfold IdleAdd, IsExpired. rewrite He. set (c0 := set_idle (idle_waiting c) _ _ c).
    assert (forall i, 0 <= i -> Z.testbit (idle_flags c0) i = Z.testbit (idle_flags c) i || happened i [IdleEvents flags]) as Hbits.
    { intros i Hi. cbn. by rewrite Z.lor_spec, orb_false_r. }
    assert (client_core c0) as Hc0 by (by apply (client_core_same c)).
    destruct (idle_waiting c0) eqn:Hw; cbn [andb].
    + destruct (Z.eqb_spec (Z.land (idle_flags c0) (idle_subscriptions c0)) 0) as [Hf|Hf]; cbn [negb].
      * exists c0, []. split; [done|]. apply (Hquiet (fun _ => c0)). split_and!; try done. split; [done|]. intros _. right. split; [done|].
        destruct (Hwait Hw) as [?|[_ ?]]; [congruence|done].
      * destruct (IdleNotify_reports (IdleEvents flags) c c0) as (c' & E & Hs); try done. by eexists _, _.
    + exists c0, []. split; [done|]. apply (Hquiet (fun _ => c0)). split; [|done]. split; [done|]. unfold waits_ok. by rewrite Hw.
  - destruct (idle_waiting c) eqn:Hi.
    { exists c, []. split; [done|]. apply (Hquiet id). split; [by split|]. split_and!; try done. intros i _. cbn. by rewrite orb_false_r. }
    unfold IdleWait. rewrite Hi. set (c0 := set_idle true _ _ c). assert (client_core c0) as Hc0 by (by apply (client_core_same c)).
    assert (forall i, 0 <= i -> Z.testbit (idle_flags c0) i = Z.testbit (idle_flags c) i || happened i [IdleCommand flags]) as Hbits.
    { intros i _. cbn. by rewrite orb_false_r. }
    destruct (Z.eqb_spec (Z.land (idle_flags c0) (idle_subscriptions c0)) 0) as [Hf|Hf]; cbn [negb].
    + exists (set_timeout false c0), []. split; [done|]. apply (Hquiet (fun _ => set_timeout false c0)). split; [|done].
      split; [by apply (client_core_same c0)|]. intros _. by right.
    + destruct (IdleNotify_reports (IdleCommand flags) c c0) as (c' & E & Hs); try done. by eexists _, _.
  - destruct (idle_waiting c) eqn:Hi.
    + rewrite Write_open by done. eexists _, [None]. split; [done|]. split; [split; [by apply (client_core_same c)|done]|]. split; [done|].
      split; [done|]. split; [by repeat constructor|]. intros i _. by cbn.
    + exists c, []. split; [done|]. apply (Hquiet id). split_and!; try done. intros i _. cbn. by rewrite orb_false_r.
Qed.

(** C29: No event is lost between a client's "idle" commands, whatever the
    order: at any time, the events that have happened are those that the
    replies reported and those that are pending; a report is never empty. *)
Theorem idle_loses_nothing (c : Client) (ops : list IdleOp) (Hc : client_ok c) (Hopen : expired c = false) :
  exists c' replies, idle_ops takes_all ops c = Some c' /\ client_ok c' /\
    output c' = output c ++ replies_text replies /\ Forall (fun r => r <> Some 0) replies /\
    forall i, 0 <= i -> Z.testbit (idle_flags c') i || reported i replies = Z.testbit (idle_flags c) i || happened i ops.
Proof.
  revert c Hc Hopen. induction ops as [|op ops IH]; intros c Hc Hopen.
  { exists c, []. split; [done|]. split; [exact Hc|]. split; [by rewrite app_nil_r|]. split; [constructor|]. intros i _. by cbn. }
  destruct (idle_op_step op c Hc Hopen) as (c1 & r1 & E1 & Hc1 & He1 & Ho1 & Hf1 & Hb1).
  destruct (IH c1 Hc1 He1) as (c2 & r2 & E2 & Hc2 & Ho2 & Hf2 & Hb2). exists c2, (r1 ++ r2). cbn [idle_ops]. rewrite E1.
  split; [done|]. split; [done|]. split; [rewrite Ho2, Ho1; unfold replies_text; by rewrite flat_map_app, <- app_assoc|]. split; [by apply Forall_app|].
  intros i Hi. rewrite (reported_app i r1 r2), (happened_cons i op ops). specialize (Hb1 i Hi). specialize (Hb2 i Hi).
  destruct (reported i r1), (reported i r2), (happened i [op]), (happened i ops), (Z.testbit (idle_flags c2) i), (Z.testbit (idle_flags c1) i),
    (Z.testbit (idle_flags c) i); done.
Qed.

(** ** Lists of commands *)

(** A list of commands is run one by one: where the first part of a list
    ends with an error or closes the client, the rest is not run; otherwise
    the rest runs as if it were a list of its own that counts on. *)
Theorem command_list_parts `{Random} `{PlayerControl} (env : Environment) (extern : bytes -> Handler) (list_ok : bool) (n : Z) (l1 l2 : list bytes) (p : Partition) :
  ProcessCommandList env extern list_ok n (l1 ++ l2) p =
  match ProcessCommandList env extern list_ok n l1 p with
  | Some (p', Done RESULT_OK) => ProcessCommandList env extern list_ok (n + Z.of_nat (length l1)) l2 p'
  | x => x
  end.
Proof.
  revert n p. induction l1 as [|line l1 IH]; intros n p; [cbn; by rewrite Z.add_0_r|].
  cbn [app ProcessCommandList]. unfold mbind, CM_bind. destruct (command_process env extern n line p) as [[p1 [ret|e]]|]; [|done..].
  destruct (client IsExpired p1) as [[p2 [[|]|e]]|]; [done| |done..].
  destruct ret; try done. cbn [negb bool_decide decide_rel]. change (bool_decide (RESULT_OK = RESULT_OK)) with true. cbn [negb].
  destruct ((if list_ok then out env (lit "list_OK" ++ [LF]) else mret tt) p2) as [[p3 [[]|e]]|]; [|done..].
  rewrite IH. cbn [length]. by replace (n + Z.of_nat (S (length l1))) with (n + 1 + Z.of_nat (length l1)) by lia.
Qed.

(** ** "addid" at a position *)

Lemma move_range_last {A} n (l : list A) x : (n <= length l)%nat -> move_range (length l) (S (length l)) n (l ++ [x]) = take n l ++ x :: drop n l.
Proof.
  intros Hn. unfold move_range. rewrite drop_app_length, take_app_length, (drop_ge (l ++ [x])) by (rewrite length_app; cbn; lia).
  replace (S (length l) - length l)%nat with 1%nat by lia. by rewrite app_nil_r.
Qed.

Definition queue_ids `{Random} `{PlayerControl} (p : Partition) : list Z := track_id <$> tracks (queue (p_playlist p)).

Section AddId.
Context `{RandomLaws} `{PlayerLaws} (env : Environment).
Implicit Types (p : Partition).

Lemma AppendURI_appends cs w uri : pl_ok cs w ->
  wp (AppendURI (LoadSong env) uri) (fun r w' => (exists cs', pl_ok cs' w') /\
    match r with Ok id => song_ids w' = song_ids w ++ [id] | Throw _ => song_ids w' = song_ids w end) w.
Proof.
  intros Hpl. unfold AppendURI. destruct (LoadSong env uri) as [song|e]; [|wstep; by split; [exists cs|]].
  eapply wp_conseq; [by apply (AppendSong_ok cs)|]. intros [id|e] w' (cs' & Hpl' & _ & Hr); (split; [by exists cs'|done || by destruct Hr as [-> _]]).
Qed.

(** Moving the last song. *)
Lemma MoveRange_last cs w l x n : pl_ok cs w -> song_ids w = l ++ [x] -> (n <= length l)%nat ->
  wp (MoveRange (RangeArg_Single (Z.of_nat (length l))) (Z.of_nat n))
    (fun r w' => (exists cs', pl_ok cs' w') /\ r = Ok tt /\ song_ids w' = take n l ++ x :: drop n l) w.
Proof.
  intros Hpl Hl Hn. pose proof (GetLength_small _ (c_queue _ _ (p_core _ _ Hpl))) as Hsm.
  assert (length (tracks (queue (pl w))) = S (length l)) as Hlen.
  { transitivity (length (song_ids w)); [unfold song_ids; by rewrite length_fmap|]. rewrite Hl, length_app. cbn. lia. }
  assert (Z.of_nat (S (length l)) < 2 ^ 30) as Hsmall by (rewrite <- Hlen, length_tracks; unfold GetLength in Hsm; lia).
  replace (RangeArg_Single (Z.of_nat (length l))) with (mkRangeArg (Z.of_nat (length l)) (Z.of_nat (S (length l))))
    by (unfold RangeArg_Single; f_equal; rewrite u32_id; lia).
  eapply wp_conseq; [apply (MoveRange_moves cs w (length l) (S (length l)) n); [done|lia|lia|lia]|].
  intros [[]|e] w' (cs' & Hpl' & _ & Hr); (split; [by exists cs'|]); [|lia]. split; [done|].
  unfold song_ids in *. by rewrite Hr, move_range_fmap, Hl, move_range_last.
Qed.

Lemma addid_argument n len : (n <= len)%nat -> Z.of_nat len < 2 ^ 30 -> ParseCommandArgUnsigned (print_nat (Z.of_nat n)) (Z.of_nat len) = Ok (Z.of_nat n).
Proof.
  intros Hn Hlen. unfold ParseCommandArgUnsigned. pose proof (strtoull_print (Z.of_nat n) [] ltac:(lia) eq_refl) as E. rewrite app_nil_r in E. rewrite E.
  destruct (print_nat_digits (Z.of_nat n) ltac:(lia)) as [Hne _]. unfold number_end. rewrite bool_decide_eq_false_2 by done. rewrite bool_decide_eq_true_2 by done. cbn [negb andb].
  destruct (Z.ltb_spec (Z.of_nat len) (Z.of_nat n)); [lia|done].
Qed.

Lemma ParseInsertPosition_absolute n p : partition_ok p -> (n <= length (queue_ids p))%nat ->
  ParseInsertPosition (print_nat (Z.of_nat n)) p = Some (p, Done (Z.of_nat n)).
Proof.
  intros Hp Hn. pose proof (partition_length p Hp) as Hl. assert (GetLength (queue (p_playlist p)) = Z.of_nat (length (queue_ids p))) as El.
  { unfold queue_ids, GetLength. by rewrite length_fmap, length_tracks. }
  pose proof (addid_argument n _ Hn ltac:(lia)) as Ha. destruct (print_nat_digits (Z.of_nat n) ltac:(lia)) as [Hne Hd].
  set (digits := print_nat (Z.of_nat n)) in *. clearbody digits. destruct digits as [|c s]; [done|].
  unfold ParseInsertPosition, mbind, CM_bind, the_playlist. cbn. rewrite El.
  apply Forall_cons_1 in Hd as [Hd _]. rewrite !bool_decide_eq_false_2 by (intros ->; discriminate Hd). unfold parsed. by rewrite Ha.
Qed.
End AddId.

Lemma focus_ready `{RandomLaws} `{PlayerLaws} i p : clients_ok p -> (fun c => (deleted c, idle_waiting c)) <$> clients (focus i p) !! i = Some (false, false) -> ready (focus i p).
Proof.
  intros [Hl Hf] Hc. cbn [clients focus] in Hc. destruct (clients p !! i) as [c|] eqn:E; [|discriminate Hc]. injection Hc as Hd Hi.
  split; [split; [done|by exists c|done]|]. unfold self_idle. cbn. by rewrite E.
Qed.

(** "addid URI N" puts the song in front of the song that was at position
    [N], or at the end, and answers with its id; the other songs keep their
    order.  When it fails the songs of the queue are the same as before. *)
Theorem addid_inserts `{RandomLaws} `{PlayerLaws} (env : Environment) (uri : bytes) (n : nat) (r : Response) (p : Partition)
  (Hp : ready p) (Hn : (n <= length (queue_ids p))%nat) :
  exists p' res, handle_addid env [uri; print_nat (Z.of_nat n)] r p = Some (p', res) /\
    match res with
    | Done res => res = RESULT_OK /\ exists id client, queue_ids p' = take n (queue_ids p) ++ id :: drop n (queue_ids p) /\
        clients p !! self p = Some client /\
        clients p' = <[self p := Write (refuses env) (lit "Id: " ++ print_nat id ++ [LF]) client]> (clients p)
    | Exc _ => queue_ids p' = queue_ids p
    end.
Proof.
  apply (cwp_any _ _ (fun res p' => _)). pose proof (ParseInsertPosition_absolute n p (proj1 Hp) Hn) as Hto. set (pos := print_nat (Z.of_nat n)) in *. clearbody pos.
  destruct (q_playlist p (proj1 Hp)) as [cs Hpl]. destruct (self_lookup p (proj1 Hp)) as (client & Hclient & _).
  assert (GetLength (queue (p_playlist p)) = Z.of_nat (length (queue_ids p))) as El by (unfold queue_ids, GetLength; by rewrite length_fmap, length_tracks).
  unfold handle_addid. apply cwp_bind, cwp_bind, (cwp_arg _ _ uri); [done|]. apply cwp_bind. unfold cwp at 1, the_playlist at 1. rewrite El.
  apply cwp_bind. unfold cwp at 1, mbind at 1, CM_bind at 1. cbn [lookup list_lookup]. unfold mbind at 1, CM_bind at 1. rewrite Hto. cbn [mret CM_ret].
  apply cwp_bind, cwp_playlist. eapply wp_conseq; [by apply (AppendURI_appends env cs)|]. intros [id|e] w [[cs1 Hpl1] Hids]; [|exact Hids].
  apply cwp_bind, cwp_playlist, wp_catch. eapply wp_conseq; [apply (MoveRange_last cs1 (mkWorld (pl w) (pc w) []) (queue_ids p) id n)|].
  - by apply (pl_ok_player cs1 w (pc w)).
  - exact Hids.
  - exact Hn.
  - intros [[]|e] w' (_ & Hr & Hids'); [|discriminate Hr]. eapply (cwp_update _ _ _ client); [exact Hclient|].
    split; [done|]. exists id, client. split; [exact Hids'|]. by split.
Qed.

(** ** A sample session *)

#[local] Existing Instance sample_random.
#[local] Existing Instance sample_player.
#[local] Existing Instance sample_random_laws.
#[local] Existing Instance sample_player_laws.

Definition sample_env : Environment :=
  mkEnvironment takes_all (fun u => if u =b lit "none" then Throw (lit "No such song") else Ok (DetachedSong_new u)) sample_permissions
    global_tag_mask 100000 1000 true true true true plain_libraries (fun _ => lit "180.500") (fun _ => lit "0") (lit "default") 50 0.
(** The other commands answer "OK" here. *)
Definition sample_extern : bytes -> Handler := fun _ _ _ => mret RESULT_OK.

Definition sent (s : string) : bytes := lit s ++ [LF].

(** Two clients: one fills the queue and plays, the other waits for it. *)
Definition sample_events : list (Environment * Event) := pair sample_env <$>
  [EvConnect 0 31; EvConnect 0 1; EvInput 1 (sent "idle playlist player"); EvInput 0 (sent "addid a"); EvInput 0 (sent "addid b 0"); EvIdleMonitor;
   EvInput 1 (sent "clear"); EvInput 1 (sent "subscribe x"); EvInput 0 (sent "command_list_ok_begin"); EvInput 0 (sent "play 1"); EvInput 0 (sent "addid none");
   EvInput 0 (sent "stop"); EvInput 0 (sent "command_list_end"); EvInput 1 (sent "idle message"); EvInput 0 (sent "sendmessage x hello");
   EvEmitIdle 8; EvSocketClosed 0; EvTimeout 0].

Definition sample_new : Partition := Partition_new 10 false.
Definition sample_partition : Partition := default sample_new (handle_events sample_extern sample_events sample_new).

Lemma sample_partition_ok : clients_ok sample_partition.
Proof.
  unfold sample_partition. destruct (handle_events_ok sample_extern sample_events sample_new) as (p & E & Hp);
    [by apply Partition_new_ok|vm_compute; reflexivity|]. by rewrite E.
Qed.

Lemma sample_partition_output : string_of_list_ascii <$> (output <$> clients sample_partition) =
  [String.concat (String "010" EmptyString) ["Id: 1"; "OK"; "Id: 2"; "OK"; "list_OK"; "ACK [50@1] {addid} No such song"; "OK"; EmptyString];
   String.concat (String "010" EmptyString) ["changed: playlist"; "OK";
     ("ACK [4@0] {clear} you don't have permission for " ++ String DQUOTE "clear" ++ String DQUOTE EmptyString)%string; "OK"; "changed: message"; "OK"; EmptyString]]%string.
Proof. vm_compute. reflexivity. Qed.

Lemma partition_events_witness : exists p, handle_events sample_extern sample_events sample_new = Some p /\ queue_ok (queue (p_playlist p)) /\
    forall i d, clients p !! i = Some d -> deleted d = false ->
      Z.of_nat (length (messages d)) <= MAX_MESSAGES /\ Z.of_nat (length (subscriptions d)) <= MAX_SUBSCRIPTIONS /\
      (idle_waiting d = true -> expired d = false -> Z.land (idle_flags d) (idle_subscriptions d) = 0 /\ timeout d = false).
Proof. apply (@partition_events sample_random sample_random_laws sample_player sample_player_laws sample_extern 10 false sample_events); [lia|reflexivity|vm_compute; reflexivity]. Defined.

Definition sample_words : list (bool * bytes) := [(false, lit "a"); (true, lit "two words"); (false, []); (false, lit "x" ++ [DQUOTE; "\"%char]); (false, lit "-1")].

Lemma line_command_sent_witness :
  string_of_list_ascii (lit "find" ++ sent_words sample_words) =
    ("find a " ++ String DQUOTE "two words" ++ String DQUOTE " " ++ String DQUOTE (String DQUOTE " ") ++ String DQUOTE "x\" ++ String DQUOTE "\\" ++ String DQUOTE " -1")%string /\
  line_command (lit "find" ++ sent_words sample_words) = Some (lit "find", snd <$> sample_words).
Proof. split; [vm_compute; reflexivity|]. apply (line_command_sent "f"%char (lit "ind") sample_words); [reflexivity|reflexivity|vm_compute; discriminate]. Defined.

(** The second client may only read. *)
Definition sample_reader : Partition := focus 1 sample_partition.

Lemma command_denied_witness : exists c client text, clients sample_reader !! 1%nat = Some client /\
  command_process sample_env sample_extern 0 (lit "addid a") sample_reader =
    Some (with_clients (<[1%nat := Write takes_all [LF] (Write takes_all text (Write takes_all
      (lit "ACK [4@" ++ print_nat 0 ++ lit "] {" ++ cmd c ++ lit "} ") client))]> (clients sample_reader)) sample_reader, Done RESULT_ERROR).
Proof.
  assert (cmd_permission <$> List.find (fun c => cmd c =b lit "addid") (commands sample_env sample_extern) = Some PERMISSION_ADD) as Ec by (vm_compute; reflexivity).
  assert (permission <$> clients sample_reader !! 1%nat = Some PERMISSION_READ) as El by (vm_compute; reflexivity).
  destruct (List.find _ _) as [c|] eqn:Hcommand; [|discriminate Ec]. injection Ec as Ec.
  destruct (clients sample_reader !! 1%nat) as [client|] eqn:Hclient; [|discriminate El]. injection El as El.
  destruct (command_denied sample_env sample_extern 0 (lit "addid a") (lit "addid") [lit "a"] c sample_reader client) as [text Ht].
  - exact Hclient.
  - vm_compute. reflexivity.
  - exact Hcommand.
  - rewrite Ec, El. reflexivity.
  - exists c, client, text. split; [reflexivity|exact Ht].
Defined.

Definition sample_idle : list IdleOp := [IdleEvents 4; IdleCommand 12; IdleCommand 8; IdleEvents 5; IdleEvents 8; IdleCommand 2; IdleLeave].

Lemma idle_loses_nothing_witness :
  (string_of_list_ascii ∘ output) <$> idle_ops takes_all sample_idle (Client_new 0 31) =
    Some (String.concat (String "010" EmptyString) ["changed: playlist"; "OK"; "changed: player"; "OK"; "OK"; EmptyString]%string) /\
  exists c' replies, idle_ops takes_all sample_idle (Client_new 0 31) = Some c' /\ client_ok c' /\
    output c' = output (Client_new 0 31) ++ replies_text replies /\ Forall (fun r => r <> Some 0) replies /\
    forall i, 0 <= i -> Z.testbit (idle_flags c') i || reported i replies = Z.testbit (idle_flags (Client_new 0 31)) i || happened i sample_idle.
Proof. split; [vm_compute; reflexivity|]. apply idle_loses_nothing; [apply Client_new_ok|reflexivity]. Defined.

(** The first client, while the queue is being filled. *)
Definition sample_open : Partition := focus 0 (default sample_new (handle_events sample_extern (take 5 sample_events) sample_new)).

Lemma sample_open_ready : ready sample_open.
Proof.
  assert (clients_ok (default sample_new (handle_events sample_extern (take 5 sample_events) sample_new))) as Hp.
  { destruct (handle_events_ok sample_extern (take 5 sample_events) sample_new) as (p & E & Hp); [by apply Partition_new_ok|vm_compute; reflexivity|]. by rewrite E. }
  assert ((fun c => (deleted c, idle_waiting c)) <$> clients sample_open !! 0%nat = Some (false, false)) as Ec by (vm_compute; reflexivity).
  unfold sample_open in *. apply (focus_ready 0); [exact Hp|exact Ec].
Qed.

Lemma addid_inserts_witness : exists p' res, handle_addid sample_env [lit "c"; print_nat 1] (mkResponse 0 (lit "addid")) sample_open = Some (p', res) /\
    match res with
    | Done res => res = RESULT_OK /\ exists id client, queue_ids p' = take 1 (queue_ids sample_open) ++ id :: drop 1 (queue_ids sample_open) /\
        clients sample_open !! self sample_open = Some client /\
        clients p' = <[self sample_open := Write (refuses sample_env) (lit "Id: " ++ print_nat id ++ [LF]) client]> (clients sample_open)
    | Exc _ => queue_ids p' = queue_ids sample_open
    end /\ queue_ids sample_open = [2; 1] /\ (queue_ids ∘ fst <$> handle_addid sample_env [lit "c"; print_nat 1] (mkResponse 0 (lit "addid")) sample_open) = Some [2; 3; 1].
Proof.
  destruct (addid_inserts sample_env (lit "c") 1 (mkResponse 0 (lit "addid")) sample_open) as (p' & res & E & Hres).
  - exact sample_open_ready.
  - vm_compute. lia.
  - exists p', res. split; [exact E|]. split; [exact Hres|]. split; vm_compute; reflexivity.
Defined.
