(* ===== verification/PlayFrame.v ===== *)
(** What playing, seeking and random mode leave alone: the songs of the queue,
    their ids, and the options. *)
From S2P Require Import Arrays Text Tags Audio Songs SortList StableSort Queue QueueWf QueueOps PlayControl PlayRules.
Open Scope Z_scope.

Section Frame.
Context `{Random}.
Implicit Types (q : Queue).

Definition options q : bool * SingleMode * ConsumeMode * bytes := (repeat q, single q, consume q, last_loaded_playlist q).
Definition settings q : Z * bool * (bool * SingleMode * ConsumeMode * bytes) := (max_length q, random q, options q).
(** The ids and the songs, without the priorities. *)
Definition id_songs q : list (Z * DetachedSong) := fst <$> tracks q.

Definition same_tracks q q' : Prop := settings q' = settings q /\ tracks q' = tracks q.
Definition same_list q q' : Prop := settings q' = settings q /\ id_songs q' = id_songs q.

#[export] Instance same_tracks_preorder : PreOrder same_tracks.
Proof. split; [by split|]. intros x y z [? ?] [? ?]. split; congruence. Qed.
#[export] Instance same_list_preorder : PreOrder same_list.
Proof. split; [by split|]. intros x y z [? ?] [? ?]. split; congruence. Qed.

Lemma same_tracks_list q q' : same_tracks q q' -> same_list q q'.
Proof. intros [? E]. split; [done|]. unfold id_songs. by rewrite E. Qed.

Lemma for_count_inv {S} (P : S -> Prop) n i d (body : Z -> S -> option S) s s' :
  (forall i s s', body i s = Some s' -> P s -> P s') -> for_count n i d body s = Some s' -> P s -> P s'.
Proof.
  intros Hb. revert i s. induction n as [|n IH]; intros i s; cbn; [by intros [= <-]|].
  destruct (body i s) as [s1|] eqn:E; cbn; [|done]. intros Hr Hs. eapply IH; [exact Hr|]. by eapply Hb.
Qed.

Lemma ShuffleOrderRange_tracks q q' a b : ShuffleOrderRange q a b = Some q' -> same_tracks q q'.
Proof.
  unfold ShuffleOrderRange. destruct (AutoCreate (rand q)); cbn; [|done]. destruct (range_ok _ _ _); [|done].
  destruct (std_shuffle _ _). by intros [= <-].
Qed.

Lemma ShuffleOrder_tracks q q' : ShuffleOrder q = Some q' -> same_tracks q q'.
Proof.
  unfold ShuffleOrder, ShuffleOrderRangeWithPriority. case_match; [by intros [= <-]|].
  destruct (queue_sort_order_by_priority _ _ _) as [q1|] eqn:E1; cbn [mbind option_bind]; [|done].
  destruct (GetOrderPriority q1 0) as [g|]; cbn [mbind option_bind]; [|done].
  destruct (for_up _ _ _ _) as [[[gs gp] q2]|] eqn:E2; cbn [mbind option_bind]; [|done]. intros E3%ShuffleOrderRange_tracks.
  assert (same_tracks q q1) as H1.
  { unfold queue_sort_order_by_priority in E1. case_match; [|done]. by injection E1 as <-. }
  unfold for_up in E2. eapply (for_count_inv (fun st => same_tracks q (snd st))) in E2; [|intros i [[gs1 gp1] s1] s2 Hb Hs|exact H1].
  { cbn in E2. by transitivity q2. }
  unfold shuffle_group in Hb. destruct (GetOrderPriority s1 i); cbn [mbind option_bind] in Hb; [|done].
  case_match; [by injection Hb as <-|]. destruct (ShuffleOrderRange _ _ _) as [q3|] eqn:E; cbn [mbind option_bind] in Hb; [|done]. injection Hb as <-.
  apply ShuffleOrderRange_tracks in E. cbn in *. by transitivity s1.
Qed.

Lemma MoveOrder_tracks q q' a b o : MoveOrder q a b = Some (o, q') -> same_tracks q q'.
Proof.
  unfold MoveOrder. destruct (OrderToPosition q a); cbn [mbind option_bind]; [|done]. destruct (if a <? b then _ else _); cbn; [|done].
  destruct (arr_set _ _ _); cbn [mbind option_bind]; [|done]. by intros [= _ <-].
Qed.

Lemma SetPriority_list q q' p pr after m : SetPriority q p pr after false = Some (m, q') -> same_list q q'.
Proof.
  unfold SetPriority. destruct (arr_get (items q) p) as [it|] eqn:E; cbn; [|done]. case_match; [by intros [= _ <-]|].
  destruct (arr_set (items q) p _) as [l|] eqn:El; cbn; [|done]. rewrite orb_true_r. intros [= _ <-].
  apply arr_get_Some in E as (k & -> & Hk). rewrite arr_set_nat in El by (by eapply lookup_lt_Some). injection El as <-.
  split; [done|]. unfold id_songs, tracks. cbn. rewrite <- !list_fmap_compose. apply list_eq. intros j. rewrite !list_lookup_fmap.
  destruct (decide (j = k)) as [->|]; [|by rewrite list_lookup_insert_ne]. rewrite list_lookup_insert_eq by (by eapply lookup_lt_Some).
  by rewrite Hk.
Qed.

Lemma IncrementVersion_tracks q : same_tracks q (IncrementVersion q).
Proof.
  unfold IncrementVersion. case_match; [|done]. split; [done|]. unfold tracks. cbn. by rewrite <- list_fmap_compose.
Qed.
End Frame.

(** ** Computations that keep a relation between the queues *)

Section Preserves.
Context `{Random} `{PlayerControl} (R : Queue -> Queue -> Prop) `{!PreOrder R}.

Definition preserves {A} (m : M A) : Prop := forall w w' r, m w = Some (w', r) -> R (queue (pl w)) (queue (pl w')).

Lemma preserves_bind {A B} (m : M A) (f : A -> M B) : preserves m -> (forall a, preserves (f a)) -> preserves (m ≫= f).
Proof.
  intros Hm Hf w w' r. unfold mbind, M_bind. destruct (m w) as [[w1 [a|e]]|] eqn:E; [| |done]; apply Hm in E.
  - intros E'%Hf. by etransitivity.
  - by intros [= <- <-].
Qed.
Lemma preserves_ret {A} (a : A) : preserves (mret a).
Proof. by intros w w' r [= <- <-]. Qed.
Lemma preserves_throw {A} e : preserves (A := A) (throw e).
Proof. by intros w w' r [= <- <-]. Qed.
Lemma preserves_catch {A} (m : M A) h : preserves m -> (forall e, preserves (h e)) -> preserves (catch m h).
Proof.
  intros Hm Hh w w' r. unfold catch. destruct (m w) as [[w1 [a|e]]|] eqn:E; [| |done]; apply Hm in E.
  - by intros [= <- <-].
  - intros E'%Hh. by etransitivity.
Qed.
Lemma preserves_when b m : preserves m -> preserves (when b m).
Proof. destruct b; [done|]. intros _. apply preserves_ret. Qed.
Lemma preserves_if {A} (b : bool) (m m' : M A) : preserves m -> preserves m' -> preserves (if b then m else m').
Proof. by destruct b. Qed.
Lemma preserves_get {A} (f : playlist -> A) : preserves (get f).
Proof. by intros w w' r [= <- <-]. Qed.
Lemma preserves_modify f : (forall p, R (queue p) (queue (f p))) -> preserves (modify f).
Proof. intros Hf w w' r [= <- <-]. apply Hf. Qed.
Lemma preserves_notify e : preserves (notify e).
Proof. by intros w w' r [= <- <-]. Qed.
Lemma preserves_massert b : preserves (massert b).
Proof. intros w w' r. unfold massert. destruct b; [|done]. by intros [= <- <-]. Qed.
Lemma preserves_player_assert b : preserves (player_assert b).
Proof. intros w w' r. apply preserves_massert. Qed.
Lemma preserves_player f : preserves (player f).
Proof. by intros w w' r [= <- <-]. Qed.
Lemma preserves_player_ask {A} (f : Player -> A * Player) : preserves (player_ask f).
Proof. by intros w w' r [= <- <-]. Qed.
Lemma preserves_player_try f : preserves (player_try f).
Proof. by intros w w' r [= <- <-]. Qed.
Lemma preserves_enqueue s : preserves (enqueue_song s).
Proof. intros w w' r. unfold enqueue_song. destruct (has_next _); [done|]. by intros [= <- <-]. Qed.
Lemma preserves_ask {A} (f : Queue -> option A) : preserves (ask f).
Proof. intros w w' r. unfold ask. case_match; [|done]. by intros [= <- <-]. Qed.
Lemma preserves_call {A} (f : Queue -> option (A * Queue)) : (forall q a q', f q = Some (a, q') -> R q q') -> preserves (call f).
Proof. intros Hf w w' r. unfold call. destruct (f _) as [[a q]|] eqn:E; [|done]. intros [= <- <-]. by apply Hf in E. Qed.
Lemma preserves_call_ (f : Queue -> option Queue) : (forall q q', f q = Some q' -> R q q') -> preserves (call_ f).
Proof.
  intros Hf. apply preserves_call. intros q a q'. destruct (f q) as [q1|] eqn:E; cbn; [|done]. intros [= _ <-]. by apply Hf.
Qed.
Lemma preserves_fmap {A B} (f : A -> B) (m : M A) : preserves m -> preserves (f <$> m).
Proof. intros Hm. apply preserves_bind; [done|]. intros a. apply preserves_ret. Qed.
End Preserves.

Ltac preserves_step :=
  lazymatch goal with
  | |- preserves _ (mbind _ _) => apply preserves_bind; [typeclasses eauto| |intros ?]
  | |- preserves _ (fmap _ _) => apply preserves_fmap; [typeclasses eauto|]
  | |- preserves _ (mret _) => apply preserves_ret; typeclasses eauto
  | |- preserves _ (throw _) => apply preserves_throw; typeclasses eauto
  | |- preserves _ (catch _ _) => apply preserves_catch; [typeclasses eauto| |intros ?]
  | |- preserves _ (when _ _) => apply preserves_when; [typeclasses eauto|]
  | |- preserves _ (if _ then _ else _) => apply preserves_if
  | |- preserves _ (get _) => apply preserves_get; typeclasses eauto
  | |- preserves _ (modify _) => apply preserves_modify; intros ?
  | |- preserves _ (notify _) => apply preserves_notify; typeclasses eauto
  | |- preserves _ (massert _) => apply preserves_massert; typeclasses eauto
  | |- preserves _ (player_assert _) => apply preserves_player_assert; typeclasses eauto
  | |- preserves _ (player _) => apply preserves_player; typeclasses eauto
  | |- preserves _ (player_ask _) => apply preserves_player_ask; typeclasses eauto
  | |- preserves _ (player_try _) => apply preserves_player_try; typeclasses eauto
  | |- preserves _ (enqueue_song _) => apply preserves_enqueue; typeclasses eauto
  | |- preserves _ (ask _) => apply preserves_ask; typeclasses eauto
  end; cbv beta zeta.
Ltac preserves_steps := repeat preserves_step.

Section Playing.
Context `{Random} `{PlayerControl}.

Lemma preserves_weaken {A} (m : M A) : preserves same_tracks m -> preserves same_list m.
Proof. intros Hm w w' r E%Hm. by apply same_tracks_list. Qed.

Lemma GetQueuedSong_tracks : preserves same_tracks GetQueuedSong.
Proof. unfold GetQueuedSong, song_at. by preserves_steps. Qed.

Lemma OnModified_tracks : preserves same_tracks OnModified.
Proof. unfold OnModified. preserves_steps; [done|apply IncrementVersion_tracks]. Qed.

Lemma shuffle_keep_current_tracks : preserves same_tracks shuffle_keep_current.
Proof. unfold shuffle_keep_current. preserves_steps; [|done]. apply preserves_call_. intros q q'. apply ShuffleOrder_tracks. Qed.

Lemma UpdateQueuedSong_tracks prev : preserves same_tracks (UpdateQueuedSong prev).
Proof. unfold UpdateQueuedSong, QueueSongOrder, song_at. preserves_steps; try done. apply shuffle_keep_current_tracks. Qed.

Lemma MoveOrder_call_tracks f : (forall q, exists a b, f q = MoveOrder q a b) -> preserves same_tracks (call f).
Proof. intros Hf. apply preserves_call. intros q o q'. destruct (Hf q) as (a & b & ->). apply MoveOrder_tracks. Qed.

Lemma MoveOrderToCurrent_tracks o : preserves same_tracks (MoveOrderToCurrent o).
Proof. unfold MoveOrderToCurrent. preserves_steps; apply MoveOrder_call_tracks; intros q; by eexists _, _. Qed.

Lemma PlayOrder_list o : preserves same_list (PlayOrder o).
Proof.
  unfold PlayOrder, SongStarted. preserves_steps; try done; [|apply preserves_weaken, OnModified_tracks].
  apply preserves_call. intros q m q'. apply SetPriority_list.
Qed.

Lemma PlayPosition_list position : preserves same_list (PlayPosition position).
Proof. unfold PlayPosition. preserves_steps; try done; [apply preserves_weaken, MoveOrderToCurrent_tracks|apply PlayOrder_list]. Qed.

Lemma SeekSongPosition_list position t : preserves same_list (SeekSongPosition position t).
Proof.
  unfold SeekSongPosition, SeekSongOrder. preserves_steps; try done; apply preserves_weaken;
    first [apply MoveOrderToCurrent_tracks|apply UpdateQueuedSong_tracks].
Qed.

Lemma GetQueuedSong_get w w' r : GetQueuedSong w = Some (w', r) -> w' = w /\ exists s, r = Ok s.
Proof.
  unfold GetQueuedSong, song_at, mbind, M_bind, get, ask, fmap, M_fmap, mbind, M_bind, mret, M_ret.
  repeat case_match; intros [= <- <-]; simplify_eq; by eauto.
Qed.

(** [SetRandom] changes only the order. *)
Lemma SetRandom_tracks status w w' r : SetRandom status w = Some (w', r) -> same_tracks (with_random status (queue (pl w))) (queue (pl w')).
Proof.
  unfold SetRandom. unfold mbind at 1, M_bind at 1, get at 1. destruct (eqb_spec status (random (queue (pl w)))) as [->|Hs].
  { intros [= <- <-]. by destruct w as [[[] ? ? ? ? ? ? ?] ? ?]. }
  unfold mbind at 1, M_bind at 1. destruct (GetQueuedSong w) as [[w1 r1]|] eqn:E1; [|done].
  apply GetQueuedSong_get in E1 as (-> & s & ->). unfold mbind at 1, M_bind at 1, modify at 1. set (w2 := mkWorld _ _ _). intros E2.
  change (with_random status (queue (pl w))) with (queue (pl w2)). revert E2. generalize w2.
  match goal with |- forall w3, ?m w3 = _ -> _ => assert (preserves same_tracks m) as Hm end; [|intros w3; apply Hm].
  unfold playlist_order, GetCurrentPosition. preserves_steps; try done; try apply UpdateQueuedSong_tracks.
  - apply preserves_call_. intros q q'. apply ShuffleOrder_tracks.
  - apply MoveOrder_call_tracks. intros q; by eexists _, _.
  - apply preserves_call_. intros q q'. unfold RestoreOrder. destruct (for_up _ _ _ _); cbn; [|done]. by intros [= <-].
Qed.
End Playing.
