(* ===== verification/PlayState.v ===== *)
(** The state file of the playlist: [queue/Save.cxx], [queue/PlaylistState.cxx]
    and [playlist/PlaylistSong.cxx].

    Output is the text written, input the list of lines left to read.
    Numbers are rendered by the fmt library ([fmt_double], [fmt_float]);
    the songs come from a loader, which may not find them. *)
From S2P Require Import Arrays Text Chrono Uri Tags Audio Songs SongSave RangeArg SortList StableSort Queue PlayControl ArgParser.
From Stdlib Require Import SpecFloat.
Open Scope Z_scope.

(** [SongTime::FromS(double)]; the conversion to [uint32_t] is the one of
    [f_to_u32]. *)
Definition SongTime_FromS_double (s : double) : Z := f_to_u32 (d_mul s (d_of_Z 1000)).

(** ** PlaylistSong.cxx *)

Definition merge_song_metadata (add base : DetachedSong) : DetachedSong :=
  let add := if Tag_IsDefined (d_tag base)
             then d_SetTag add (Commit (Complement (TagBuilder_of (d_tag add)) (d_tag base))) else add in
  let add := d_SetAdded (d_SetLastModified add (d_mtime base)) (d_GetAdded base) in
  let add := if d_start_time add =? 0 then d_SetStartTime add (d_start_time base) else add in
  let add := if d_end_time add =? 0 then d_SetEndTime add (d_end_time base) else add in
  if negb (AudioFormat_IsDefined (d_audio_format add)) then d_SetAudioFormat add (d_audio_format base) else add.

Section Loader.
(** [SongLoader::LoadSong] *)
Context (loader : bytes -> result DetachedSong).

(** [None]: the song was not found. *)
Definition playlist_check_load_song (song : DetachedSong) : option DetachedSong :=
  match loader (d_uri song) with
  | Ok tmp =>
      let song := d_SetURI song (d_uri tmp) in
      let song := if negb (HasRealURI song) && HasRealURI tmp then d_SetRealURI song (GetRealURI tmp) else song in
      Some (merge_song_metadata song tmp)
  | Throw _ => None
  end.

(** A null [base_uri] is [None]. *)
Definition playlist_check_translate_song (song : DetachedSong) (base_uri : option bytes) : option DetachedSong :=
  let base_uri := match base_uri with Some b => if b =b lit "." then None else Some b | None => None end in
  let song := match base_uri with
              | Some b => if negb (IsAbsoluteOrHasScheme (d_uri song)) then d_SetURI song (Build b (d_uri song)) else song
              | None => song
              end in
  playlist_check_load_song (d_SetURI song (uri_squash_dot_segments (d_uri song))).

(** ** Save.cxx: loading *)

Definition PRIO_LABEL : bytes := lit "Prio: ".
Definition Malformed : bytes := lit "Malformed playlist line in state file".

(** The song and the rest of the file. *)
Definition LoadQueueSong (file : LineReader) (line : bytes) : result (DetachedSong * LineReader) :=
  match StringAfterPrefix line SONG_BEGIN with
  | Some uri => let* r := song_load file uri in let '(song, _, _, file) := r in Ok (song, file)
  | None =>
      let '(ret, endptr) := strtol line in
      match endptr with
      | c :: uri =>
          if (ret <? 0) || negb (bool_decide (c = ":"%char)) || (uri =b []) then Throw Malformed
          else Ok (DetachedSong_new uri, file)
      | [] => Throw Malformed
      end
  end.

(** The "Prio" line: the priority, and the line of the song with the rest
    of the file, unless the file ends. *)
Definition read_priority (file : LineReader) (line : bytes) : Z * option (bytes * LineReader) :=
  match StringAfterPrefix line PRIO_LABEL with
  | Some p => (fst (strtoull p) mod 2 ^ 8, ReadLine file)
  | None => (0, Some (line, file))
  end.

Section Restore.
Context `{Random} `{PlayerControl}.

Definition lift {A} (r : result A) : M A := match r with Ok a => mret a | Throw e => throw e end.
Definition undefined {A} : M A := fun _ => None.

(** The rest of the file. *)
Definition queue_load_song (file : LineReader) (line : bytes) : M LineReader :=
  q ← get queue;
  if IsFull q then mret file
  else
    let '(priority, r) := read_priority file line in
    match r with
    | None => mret []
    | Some (line, file) =>
        r ← lift (LoadQueueSong file line);
        let '(song, file) := r in
        match playlist_check_translate_song song None with
        | None => mret file
        | Some song => _ ← call (fun q => Append q song priority); mret file
        end
    end.

(** ** PlaylistState.cxx: loading *)

Definition STATE : bytes := lit "state: ".
Definition RANDOM : bytes := lit "random: ".
Definition REPEAT : bytes := lit "repeat: ".
Definition SINGLE : bytes := lit "single: ".
Definition CONSUME : bytes := lit "consume: ".
Definition CURRENT : bytes := lit "current: ".
Definition TIME : bytes := lit "time: ".
Definition CROSSFADE : bytes := lit "crossfade: ".
Definition MIXRAMPDB : bytes := lit "mixrampdb: ".
Definition MIXRAMPDELAY : bytes := lit "mixrampdelay: ".
Definition LOADED_PLAYLIST : bytes := lit "lastloadedplaylist: ".
Definition PLAYLIST_BEGIN : bytes := lit "playlist_begin".
Definition PLAYLIST_END : bytes := lit "playlist_end".

Definition set_queue_option (f : Queue -> Queue) : M unit := modify (fun p => set_queue (f (queue p)) p).

(** The loop of [playlist_state_load], with the line that was read.  Every
    round takes a line of the file; the fuel is its length. *)
Fixpoint load_songs (fuel : nat) (line : bytes) (file : LineReader) : M LineReader :=
  match fuel with
  | O => undefined
  | S fuel =>
      if StringStartsWith line PLAYLIST_END then mret file
      else
        file ← queue_load_song file line;
        match file with
        | [] => mret []
        | line :: file => load_songs fuel line file
        end
  end.

Definition playlist_state_load (file : LineReader) : M LineReader :=
  match file with
  | [] => mret []
  | line :: file =>
      file ← load_songs (S (length file)) line file;
      set_queue_option IncrementVersion;;
      mret file
  end.

(** The local variables of [playlist_state_restore]. *)
Record restored := mkRestored { r_current : Z; r_seek_time : Z; r_random : bool }.
Definition with_current (c : Z) (st : restored) : restored := mkRestored c (r_seek_time st) (r_random st).
Definition with_seek_time (t : Z) (st : restored) : restored := mkRestored (r_current st) t (r_random st).
Definition with_random_mode (b : bool) (st : restored) : restored := mkRestored (r_current st) (r_seek_time st) b.

(** One line of the loop: the variables, and the rest of the file. *)
Definition restore_line (line : bytes) (file : LineReader) (st : restored) : M (restored * LineReader) :=
  let next (m : M unit) : M (restored * LineReader) := m;; mret (st, file) in
  match StringAfterPrefix line TIME with
  | Some p => mret (with_seek_time (SongTime_FromS_double (ParseDouble p)) st, file)
  | None =>
  match StringAfterPrefix line REPEAT with
  | Some p => next (SetRepeat (p =b lit "1"))
  | None =>
  match StringAfterPrefix line SINGLE with
  | Some p => next (mode ← lift (SingleFromString p); SetSingle mode)
  | None =>
  match StringAfterPrefix line CONSUME with
  | Some p => next (mode ← lift (ConsumeFromString p); SetConsume mode)
  | None =>
  match StringAfterPrefix line CROSSFADE with
  | Some p => next (player (SetCrossFade (d_of_Z (atoi p))))
  | None =>
  match StringAfterPrefix line MIXRAMPDB with
  | Some p => next (player (SetMixRampDb (fst (ParseFloat p))))
  | None =>
  match StringAfterPrefix line MIXRAMPDELAY with
  | Some p => next (when (starts_digit p) (player (SetMixRampDelay (f_to_d (fst (ParseFloat p))))))
  | None =>
  match StringAfterPrefix line LOADED_PLAYLIST with
  | Some p => next (set_queue_option (with_last_loaded_playlist p))
  | None =>
  match StringAfterPrefix line RANDOM with
  | Some p => mret (with_random_mode (p =b lit "1") st, file)
  | None =>
  match StringAfterPrefix line CURRENT with
  | Some p => mret (with_current (atoi p) st, file)
  | None =>
  if StringStartsWith line PLAYLIST_BEGIN then file ← playlist_state_load file; mret (st, file)
  else mret (st, file)
  end end end end end end end end end end.

(** The loop; as many rounds as the file has lines are enough. *)
Fixpoint restore_lines (fuel : nat) (file : LineReader) (st : restored) : M restored :=
  match fuel with
  | O => undefined
  | S fuel =>
      match file with
      | [] => mret st
      | line :: file =>
          r ← restore_line line file st;
          restore_lines fuel (snd r) (fst r)
      end
  end.

Definition restore_state (line : bytes) : PlayerState :=
  if line =b lit "play" then PLAYER_PLAY else if line =b lit "pause" then PLAYER_PAUSE else PLAYER_STOP.

(** Starts or selects the song. *)
Definition restore_song (state : PlayerState) (current seek_time : Z) : M unit :=
  if bool_decide (state = PLAYER_STOP) then modify (set_current current)
  else if seek_time =? 0 then catch (PlayPosition current) (fun _ => mret tt)
  else catch (SeekSongPosition current seek_time) (fun _ => mret tt).

(** After the loop. *)
Definition restore_playback (restore_paused : bool) (state : PlayerState) (st : restored) : M unit :=
  q ← get queue;
  if IsEmpty q then mret tt
  else
    let current := if negb (IsValidPosition q (u32 (r_current st))) then 0 else r_current st in
    let state := if bool_decide (state = PLAYER_PLAY) && restore_paused then PLAYER_PAUSE else state in
    when (negb (bool_decide (state = PLAYER_STOP))) (player LockUpdateAudio);;
    restore_song state current (r_seek_time st);;
    when (bool_decide (state = PLAYER_PAUSE)) (player LockPause).

(** [restore_paused] is from the configuration. *)
Definition playlist_state_restore (restore_paused : bool) (line : bytes) (file : LineReader) : M bool :=
  match StringAfterPrefix line STATE with
  | None => mret false
  | Some line =>
      let state := restore_state line in
      st ← restore_lines (S (length file)) file (mkRestored (-1) 0 false);
      SetRandom (r_random st);;
      restore_playback restore_paused state st;;
      mret true
  end.
End Restore.
End Loader.

(** ** Saving *)

Section Save.
Context `{Random} `{PlayerControl}.
(** "{}" of a [double] and of a [float] *)
Context (fmt_double fmt_float : spec_float -> bytes).

Definition queue_save_database_song (idx : Z) (song : DetachedSong) : bytes :=
  line (print_int idx ++ lit ":" ++ d_uri song).
Definition queue_save_full_song (song : DetachedSong) : bytes := song_save_detached fmt_double song.

Definition is_brief (song : DetachedSong) : bool :=
  IsInDatabase song && (d_start_time song =? 0) && (d_end_time song =? 0).
Definition queue_save_song (idx : Z) (song : DetachedSong) : bytes :=
  if is_brief song then queue_save_database_song idx song else queue_save_full_song song.

Definition queue_save (q : Queue) : option bytes :=
  for_up 0 (GetLength q) (fun i text =>
    prio ← GetPriorityAtPosition q i;
    song ← Get q i;
    Some (text ++ (if negb (prio =? 0) then line (PRIO_LABEL ++ print_nat prio) else []) ++ queue_save_song i song)) [].

(** [os.Fmt(LABEL "{}\n", ...)] *)
Definition field (label value : bytes) : bytes := line (label ++ value).

Definition playlist_state_save : M bytes :=
  player_status ← player_ask LockGetStatus;
  p ← get (fun p => p);
  position ← (if playing p || (0 <=? current p) then ask (fun q => OrderToPosition q (current p)) else mret (-1));
  c ← player_get;
  songs ← ask queue_save;
  let q := queue p in
  mret ((if playing p then
           field STATE (if bool_decide (status_state player_status = PLAYER_PAUSE) then lit "pause" else lit "play") ++
           field CURRENT (print_nat position) ++
           field TIME (fmt_double (ToDoubleS (elapsed_time player_status)))
         else
           field STATE (lit "stop") ++
           (if 0 <=? current p then field CURRENT (print_nat position) else [])) ++
        field RANDOM (print_nat (Z.b2z (random q))) ++
        field REPEAT (print_nat (Z.b2z (repeat q))) ++
        field SINGLE (SingleToString (single q)) ++
        field CONSUME (ConsumeToString (consume q)) ++
        field CROSSFADE (fmt_double (GetCrossFade c)) ++
        field MIXRAMPDB (fmt_float (GetMixRampDb c)) ++
        field MIXRAMPDELAY (fmt_double (GetMixRampDelay c)) ++
        field LOADED_PLAYLIST (last_loaded_playlist q) ++
        line PLAYLIST_BEGIN ++ songs ++ line PLAYLIST_END).

(** The numbers of an enumeration. *)
Definition PlayerState_number (s : PlayerState) : Z := match s with PLAYER_STOP => 0 | PLAYER_PAUSE => 1 | PLAYER_PLAY => 2 end.
Definition SingleMode_number (s : SingleMode) : Z := match s with SINGLE_OFF => 0 | SINGLE_ON => 1 | SINGLE_ONE_SHOT => 2 end.
Definition ConsumeMode_number (s : ConsumeMode) : Z := match s with CONSUME_OFF => 0 | CONSUME_ON => 1 | CONSUME_ONE_SHOT => 2 end.

Definition playlist_state_get_hash : M Z :=
  player_status ← player_ask LockGetStatus;
  p ← get (fun p => p);
  position ← (if 0 <=? current p then (fun p => u32 (Z.shiftl p 16)) <$> ask (fun q => OrderToPosition q (current p)) else mret 0);
  c ← player_get;
  let q := queue p in
  let bits n x := u32 (Z.shiftl x n) in
  mret (fold_left Z.lxor [
    if bool_decide (status_state player_status = PLAYER_STOP) then 0 else bits 8 (Z.quot (elapsed_time player_status) 1000);
    position;
    bits 20 (d_to_s32 (GetCrossFade c));
    bits 24 (PlayerState_number (status_state player_status));
    bits 25 (SingleMode_number (single q));
    bits 27 (Z.b2z (random q));
    bits 28 (Z.b2z (repeat q));
    bits 29 (ConsumeMode_number (consume q));
    bits 31 (Z.b2z (random q))] (version q)).
End Save.
