(* ===== verification/PlayStateSpec.v ===== *)
(** Properties of the state file of the playlist ([PlayState]): whatever is in
    the file, restoring it is defined and leaves a well-formed playlist; what
    was saved is restored. *)
From S2P Require Import Arrays Text Chrono Uri Tags Audio Songs SongSave RangeArg SortList StableSort Queue QueueWf QueueOps QueueRandom QueueSpec PlayControl PlayRules PlayWf PlayOps PlayPlayback PlayEdits PlayMoves PlayTags PlaySpec PlayFrame ArgParser PlayState.
From Stdlib Require Import SpecFloat.
Open Scope Z_scope.

(** ** Any text *)

Lemma song_load_loop_shorter file st st' rest : song_load_loop file st = Ok (st', rest) -> (length rest <= length file)%nat.
Proof.
  revert st. induction file as [|l file IH]; intros st; cbn; [by intros [= <- <-]|].
  destruct (l =b _); [intros [= <- <-]; lia|]. destruct (song_load_line l st) as [st1|]; cbn; [|done].
  intros E%IH. lia.
Qed.

Lemma LoadQueueSong_shorter file l song rest : LoadQueueSong file l = Ok (song, rest) -> (length rest <= length file)%nat.
Proof.
  unfold LoadQueueSong, song_load. destruct (StringAfterPrefix l SONG_BEGIN) as [uri|].
  - destruct (song_load_loop _ _) as [[st file']|] eqn:E; cbn; [|done]. intros [= <- <-]. by apply song_load_loop_shorter in E.
  - destruct (strtol l) as [ret [|c uri]]; [done|]. case_match; [done|]. by intros [= <- <-].
Qed.

Section Safe.
Context `{RandomLaws} `{PlayerLaws} (loader : bytes -> result DetachedSong).
Implicit Types (w : World) (cs : option Z).

Lemma wp_lift {A} (r : result A) (Q : result A -> World -> Prop) w : Q r w -> wp (lift r) Q w.
Proof. by destruct r. Qed.

(** A song at the end of the queue does not change the current one. *)
Lemma pl_ok_append cs w song priority : pl_ok cs w -> IsFull (queue (pl w)) = false -> 0 <= priority < 256 ->
  exists id q, Append (queue (pl w)) song priority = Some (id, q) /\
    tracks q = tracks (queue (pl w)) ++ [(id, song, priority)] /\ max_length q = max_length (queue (pl w)) /\
    pl_ok cs (mkWorld (set_queue q (pl w)) (pc w) (events w)).
Proof.
  intros [[Hok Hc Hp Hn Hs] Hq Hx] Hfull Hpr.
  destruct (Append_ok _ song priority Hok Hfull Hpr) as (id & q & E & Hok' & _ & _ & Ht & Hi & _ & _ & Hm & _ & Hit).
  exists id, q. split; [done|]. split; [done|]. split; [done|].
  assert (GetLength q = GetLength (queue (pl w)) + 1) as Hl by (unfold GetLength; rewrite Hit, length_app; cbn; lia).
  split; cbn [pl pc queue set_queue playing queued current]; [split; cbn [pl pc queue set_queue playing queued current]; rewrite ?Hl; [done|lia|done|done|]|intros E1; specialize (Hq E1); lia|done].
  rewrite <- Hs. unfold song_id_at. destruct (Z.leb_spec 0 (current (pl w))); [|done]. rewrite Hi, lookup_app_l; [done|].
  rewrite (Permutation_length (in_order_perm _ Hok)), length_tracks. unfold GetLength in *. lia.
Qed.

Lemma read_priority_range file l : 0 <= fst (read_priority file l) < 256.
Proof. unfold read_priority. case_match; cbn; [|lia]. apply Z.mod_pos_bound. lia. Qed.

Lemma read_priority_shorter file l l' file' : snd (read_priority file l) = Some (l', file') -> (length file' <= length file)%nat.
Proof. unfold read_priority. case_match; cbn; [destruct file; cbn; [done|]|]; intros [= <- <-]; cbn; lia. Qed.

Lemma wp_queue_load_song cs w file l : pl_ok cs w ->
  wp (queue_load_song loader file l) (fun r w' => pl_ok cs w' /\ match r with Ok rest => (length rest <= length file)%nat | Throw _ => True end) w.
Proof.
  intros Hpl. unfold queue_load_song. do 2 wstep. apply wp_if; intros Hf; [by wstep|].
  pose proof (read_priority_range file l) as Hp. pose proof (read_priority_shorter file l) as Hs.
  destruct (read_priority file l) as [priority [[l' file']|]]; cbn [fst snd] in *; [|wstep; split; [done|cbn; lia]].
  specialize (Hs _ _ eq_refl). apply wp_bind, wp_lift. destruct (LoadQueueSong file' l') as [[song rest]|] eqn:E; [|done].
  apply LoadQueueSong_shorter in E. destruct (playlist_check_translate_song _ _ _) as [song'|]; [|wstep; split; [done|lia]].
  destruct (pl_ok_append cs w song' priority Hpl Hf Hp) as (id & q & Ha & _ & _ & Hpl'). wstep.
  eapply wp_call; [exact Ha|]. cbv beta iota. wstep. split; [done|lia].
Qed.

Lemma wp_load_songs cs w fuel file l : pl_ok cs w -> (length file < fuel)%nat ->
  wp (load_songs loader fuel l file) (fun r w' => pl_ok cs w' /\ match r with Ok rest => (length rest <= length file)%nat | Throw _ => True end) w.
Proof.
  revert w l file. induction fuel as [|fuel IH]; intros w l file Hpl Hl; [lia|]. cbn [load_songs].
  destruct (StringStartsWith l PLAYLIST_END); [by wstep|]. wstep. eapply wp_conseq; [by apply (wp_queue_load_song cs)|].
  intros r w' [Hpl' Hr]. destruct r as [rest|]; [|done]. destruct rest as [|l' rest]; [wstep; split; [done|cbn; lia]|]. cbn in Hr.
  eapply wp_conseq; [apply IH; [done|lia]|]. intros [rest'|] w'' [? ?]; split; done || lia.
Qed.

Lemma pl_ok_version cs w : pl_ok cs w -> pl_ok cs (mkWorld (set_queue (IncrementVersion (queue (pl w))) (pl w)) (pc w) (events w)).
Proof.
  intros Hpl. destruct (IncrementVersion_ok (queue (pl w)) (c_queue _ _ (p_core _ _ Hpl))) as (Hq & Ht & Ho & Hi & Hr). by apply pl_ok_queue.
Qed.

Lemma wp_playlist_state_load cs w file : pl_ok cs w ->
  wp (playlist_state_load loader file) (fun r w' => pl_ok cs w' /\ match r with Ok rest => (length rest <= length file)%nat | Throw _ => True end) w.
Proof.
  intros Hpl. unfold playlist_state_load. destruct file as [|l file]; [by wstep|]. wstep.
  eapply wp_conseq; [apply (wp_load_songs cs); [done|lia]|]. intros [rest|] w' [Hpl' Hl]; [|done]. unfold set_queue_option. wsteps.
  split; [by apply pl_ok_version|cbn; lia].
Qed.

Definition in_int (z : Z) : Prop := - 2 ^ 31 <= z < 2 ^ 31.

(** After one line. *)
Definition line_read cs (file : LineReader) (r : result (restored * LineReader)) w : Prop :=
  pl_ok cs w /\ match r with Ok x => (length (snd x) <= length file)%nat /\ in_int (r_current (fst x)) | Throw _ => True end.

(** Options and settings keep the invariant. *)
Lemma wp_setting (m : M unit) cs w (st : restored) (file : LineReader) : in_int (r_current st) -> wp m (fun _ w' => pl_ok cs w') w ->
  wp (m;; mret (st, file)) (line_read cs file) w.
Proof. intros Hst Hm. wstep. eapply wp_conseq; [exact Hm|]. intros [[]|] w' Hw'; [by wstep|done]. Qed.

Lemma restore_line_safe cs w l file st : pl_ok cs w -> in_int (r_current st) -> wp (restore_line loader l file st) (line_read cs file) w.
Proof.
  intros Hpl Hst. unfold restore_line. cbv zeta.
  repeat (case_match; [first [by wstep | apply wp_setting; [done|] | wstep; split; [done|]; split; [done|apply wrap_s32_range]]|]); [..|case_match; [|by wstep]].
  - by apply SetRepeat_keeps.
  - wstep. apply wp_lift. case_match; [by apply SetSingle_keeps|done].
  - wstep. apply wp_lift. case_match; [by apply SetConsume_keeps|done].
  - wstep. apply pl_ok_player; [done|apply cross_fade_law].
  - wstep. apply pl_ok_player; [done|apply mix_ramp_db_law].
  - apply wp_when; intros _; [|done]. wstep. apply pl_ok_player; [done|apply mix_ramp_delay_law].
  - unfold set_queue_option. wstep. apply pl_ok_options; try done. by left.
  - wstep. eapply wp_conseq; [by apply (wp_playlist_state_load cs)|]. intros [rest|] w' [Hpl' Hl]; [by wstep|done].
Qed.

Lemma restore_lines_safe cs w fuel file st : pl_ok cs w -> in_int (r_current st) -> (length file < fuel)%nat ->
  wp (restore_lines loader fuel file st) (fun r w' => pl_ok cs w' /\ match r with Ok st' => in_int (r_current st') | Throw _ => True end) w.
Proof.
  revert w file st. induction fuel as [|fuel IH]; intros w file st Hpl Hst Hl; [lia|]. cbn [restore_lines].
  destruct file as [|l file]; [by wstep|]. cbn in Hl. wstep. eapply wp_conseq; [by apply (restore_line_safe cs)|].
  intros [[st' rest]|] w' [Hpl' Hr]; [|done]. destruct Hr. cbn in *. apply IH; [done|done|lia].
Qed.

(** The song at the position becomes the current one, and is played unless
    the state is "stop"; without random mode its order number is its
    position. *)
Lemma wp_restore_song cs w state position t : pl_ok cs w -> 0 <= position < GetLength (queue (pl w)) ->
  wp (restore_song state position t) (fun r w' => r = Ok tt /\
    (exists cs', pl_ok cs' w' /\ (state <> PLAYER_STOP \/ random (queue (pl w)) = false -> cs' = song_ids w !! Z.to_nat position)) /\
    playing (pl w') = playing (pl w) || negb (bool_decide (state = PLAYER_STOP))) w.
Proof.
  intros Hpl Hpos. pose proof (c_queue _ _ (p_core _ _ Hpl)) as Hok. unfold restore_song.
  assert (forall m : M unit, state <> PLAYER_STOP -> wp m (fun _ w' => pl_ok (song_ids w !! Z.to_nat position) w' /\ playing (pl w') = true) w ->
    wp (catch m (fun _ => mret tt)) (fun r w' => r = Ok tt /\
      (exists cs', pl_ok cs' w' /\ (state <> PLAYER_STOP \/ random (queue (pl w)) = false -> cs' = song_ids w !! Z.to_nat position)) /\
      playing (pl w') = playing (pl w) || negb (bool_decide (state = PLAYER_STOP))) w) as Hstart.
  { intros m Hst Hm. apply wp_catch. eapply wp_conseq; [exact Hm|]. intros r w' [Hpl' Hp'].
    assert (playing (pl w') = playing (pl w) || negb (bool_decide (state = PLAYER_STOP))) as E
      by (rewrite bool_decide_false by done; cbn; by rewrite orb_true_r).
    destruct r as [[]|]; [|wstep]; (split; [done|]); (split; [by eexists|done]). }
  apply wp_if; intros Hst; [apply bool_decide_eq_true in Hst|apply bool_decide_eq_false in Hst; apply wp_if; intros _].
  - wstep. split; [done|]. split; [|by rewrite Hst, orb_false_r]. exists (song_id_at (queue (pl w)) position). split.
    + destruct Hpl as [[] Hq Hn]. split; cbn; [split; cbn|..]; try done; lia.
    + intros [?|Hr]; [done|]. by apply plain_position.
  - apply Hstart; [done|]. by apply (wp_PlayPosition cs).
  - apply Hstart; [done|]. by apply (wp_SeekSongPosition cs).
Qed.

(** The position that is restored: the one of the file, or the first. *)
Definition restore_position (q : Queue) (st : restored) : Z := if negb (IsValidPosition q (u32 (r_current st))) then 0 else r_current st.

Lemma restore_position_range q st : queue_ok q -> IsEmpty q = false -> - 2 ^ 31 <= r_current st < 2 ^ 31 ->
  0 <= restore_position q st < GetLength q.
Proof.
  intros Hok He Hr. pose proof (GetLength_small _ Hok) as Hsm. unfold IsEmpty in He. apply Z.eqb_neq in He.
  unfold restore_position, IsValidPosition, u32, wrap_u.
  destruct (Z.ltb_spec (r_current st mod 2 ^ 32) (GetLength q)) as [Hlt|]; cbn [negb]; [|lia].
  destruct (Z.ltb_spec (r_current st) 0).
  - rewrite <- (Z.mod_add _ 1), Z.mod_small in Hlt by lia. lia.
  - rewrite Z.mod_small in Hlt by lia. lia.
Qed.

Lemma wp_restore_playback cs w paused state st : pl_ok cs w -> - 2 ^ 31 <= r_current st < 2 ^ 31 ->
  wp (restore_playback paused state st) (fun r w' => r = Ok tt /\
    (exists cs', pl_ok cs' w' /\
      (IsEmpty (queue (pl w)) = false -> state <> PLAYER_STOP \/ random (queue (pl w)) = false ->
       cs' = song_ids w !! Z.to_nat (restore_position (queue (pl w)) st))) /\
    playing (pl w') = playing (pl w) || (negb (IsEmpty (queue (pl w))) && negb (bool_decide (state = PLAYER_STOP)))) w.
Proof.
  intros Hpl Hr. unfold restore_playback. do 2 wstep. apply wp_if; intros He.
  { wstep. split; [done|]. rewrite He. cbn. split; [by exists cs|by rewrite orb_false_r]. }
  pose proof (restore_position_range _ _ (c_queue _ _ (p_core _ _ Hpl)) He Hr) as Hpos. cbv zeta. fold (restore_position (queue (pl w)) st).
  set (state' := if _ && paused then _ else _).
  assert (state' = PLAYER_STOP <-> state = PLAYER_STOP) as Hstate.
  { unfold state'. destruct (bool_decide (state = PLAYER_PLAY) && paused) eqn:E; [|done].
    apply andb_true_iff in E as [E%bool_decide_eq_true _]. subst state. done. }
  rewrite (bool_decide_ext _ _ Hstate), He. cbn [negb andb].
  assert (forall w1, pl_ok cs w1 -> pl w1 = pl w ->
    wp (restore_song state' (restore_position (queue (pl w)) st) (r_seek_time st);; when (bool_decide (state' = PLAYER_PAUSE)) (player LockPause))
      (fun r w' => r = Ok tt /\
        (exists cs', pl_ok cs' w' /\ (false = false -> state <> PLAYER_STOP \/ random (queue (pl w)) = false ->
           cs' = song_ids w !! Z.to_nat (restore_position (queue (pl w)) st))) /\
        playing (pl w') = playing (pl w) || negb (bool_decide (state = PLAYER_STOP))) w1) as Hrest.
  { intros w1 Hpl1 E1. wstep. eapply wp_conseq; [apply (wp_restore_song cs); [done|by rewrite E1]|].
    intros r w' (-> & (cs' & Hpl' & Hcs) & Hp'). unfold song_ids in Hcs. rewrite E1 in Hcs, Hp'. fold (song_ids w) in Hcs.
    rewrite (bool_decide_ext _ _ Hstate) in Hp'.
    assert (false = false -> state <> PLAYER_STOP \/ random (queue (pl w)) = false ->
           cs' = song_ids w !! Z.to_nat (restore_position (queue (pl w)) st)) as Hcs' by (intros _ Hd; apply Hcs; by rewrite Hstate).
    apply wp_when; intros _; [wstep|]; (split; [done|]); (split; [|done]); exists cs'; (split; [|done]).
    - apply pl_ok_player; [done|apply pause_toggle_law].
    - done. }
  wstep. apply wp_when; intros _; [wstep|]; apply Hrest; try done. apply pl_ok_player; [done|apply update_audio_law].
Qed.
End Safe.

(** ** One saved song *)

(** What is read back of a song before the loader sees it. *)
Definition reload_saved (s : DetachedSong) : DetachedSong :=
  if is_brief s then DetachedSong_new (d_uri s)
  else mkDetachedSong (d_uri s) [] (reload_tag (d_tag s)) (reload_time (d_mtime s)) (reload_time (d_GetAdded s))
         (d_start_time s) (d_end_time s) AudioFormat_Undefined.

Definition reload_song (loader : bytes -> result DetachedSong) (s : DetachedSong) : option DetachedSong :=
  playlist_check_translate_song loader (reload_saved s) None.

(** What the long form relies on: see [song_ok]. *)
Record detached_ok (fmt_double : double -> bytes) (s : DetachedSong) : Prop := {
  dk_values : Forall (fun i => plain (ti_value i)) (Tags.items (d_tag s));
  dk_items : fits (Tags.items (d_tag s));
  dk_start : 0 <= d_start_time s < 2 ^ 32;
  dk_end : 0 <= d_end_time s < 2 ^ 32;
  dk_mtime : d_mtime s < 2 ^ 63;
  dk_added : d_GetAdded s < 2 ^ 63;
  dk_duration : IsNegative_ms (duration (d_tag s)) = false ->
    let text := fmt_double (ToDoubleS (duration (d_tag s))) in
    plain text /\ strtod text = ToDoubleS (duration (d_tag s)) /\ StripLeft_c text = text }.

Record saveable (fmt_double : double -> bytes) (s : DetachedSong) : Prop := {
  sv_uri : plain (d_uri s);
  sv_nonempty : d_uri s <> [];
  sv_long : is_brief s = false -> detached_ok fmt_double s }.

(** The long form, whatever follows the song in the file. *)
Lemma song_load_detached fmt_double s rest : plain (d_uri s) -> detached_ok fmt_double s -> is_brief s = false ->
  exists file, file_lines (song_save_detached fmt_double s ++ rest) = (SONG_BEGIN ++ d_uri s) :: file /\
    song_load file (d_uri s) = Ok (reload_saved s, [], false, file_lines rest).
Proof.
  intros Hu [Hvals Hitems Hst Hen Hmt Had Hdur] Hb. unfold song_save_detached. rewrite <- !app_assoc.
  rewrite file_lines_line by (by plain_tac). eexists. split; [done|]. unfold song_load.
  rewrite load_range by done. rewrite load_tag by done.
  rewrite (load_time SONG_MTIME d_SetLastModified);
    [|by plain_tac|by (apply (bool_decide_unpack _); vm_compute)|done|done|done].
  rewrite (load_time SONG_ADDED d_SetAdded);
    [|by plain_tac|by (apply (bool_decide_unpack _); vm_compute)|done|done|done].
  rewrite file_lines_line by plain_tac. cbn [song_load_loop]. rewrite bytes_eqb_refl. cbn [rbind].
  pose proof (Commit_reload (d_tag s) Hitems) as Htag. unfold reload_saved. rewrite Hb.
  cbn -[Commit TagBuilder_of reload_tag reload_time file_lines]. by rewrite Htag.
Qed.

Lemma digit_no_label l c p : starts_digit l = true -> IsDigitASCII c = false -> StringAfterPrefix l (c :: p) = None.
Proof.
  destruct l as [|d l]; [done|]. cbn. intros Hd Hc. rewrite bool_decide_false; [done|]. intros ->. congruence.
Qed.

(** The line of a song that is in the database. *)
Definition brief_line (i : nat) (uri : bytes) : bytes := print_int (Z.of_nat i) ++ lit ":" ++ uri.

Lemma brief_line_digit i uri : starts_digit (brief_line i uri) = true.
Proof. unfold brief_line. rewrite print_int_nonneg by lia. apply print_nat_starts_digit. lia. Qed.

Lemma LoadQueueSong_brief file i uri : uri <> [] -> Z.of_nat i < 2 ^ 30 ->
  LoadQueueSong file (brief_line i uri) = Ok (DetachedSong_new uri, file).
Proof.
  intros Hu Hi. unfold LoadQueueSong. change SONG_BEGIN with ("s"%char :: lit "ong_begin: "). rewrite digit_no_label by (done || apply brief_line_digit).
  unfold brief_line. rewrite print_int_nonneg by lia. change (lit ":" ++ uri) with (":"%char :: uri). rewrite strtol_print by (done || lia).
  destruct (Z.ltb_spec (Z.of_nat i) 0); [lia|]. rewrite bool_decide_true by done. by rewrite (proj2 (bytes_eqb_neq uri []) Hu).
Qed.

Lemma plain_brief i uri : plain uri -> plain (brief_line i uri).
Proof. intros Hu. unfold brief_line. apply plain_app; [apply plain_print_int|]. by plain_tac. Qed.

(** A saved song is read back, in either form: its first line is no label
    of the file. *)
Definition song_line (l : bytes) : Prop :=
  StringAfterPrefix l PRIO_LABEL = None /\ StringStartsWith l PLAYLIST_END = false.

Lemma saved_song fmt_double (i : nat) s rest : saveable fmt_double s -> Z.of_nat i < 2 ^ 30 ->
  exists l file, file_lines (queue_save_song fmt_double (Z.of_nat i) s ++ rest) = l :: file /\ song_line l /\
    LoadQueueSong file l = Ok (reload_saved s, file_lines rest).
Proof.
  intros [Hu Hne Hlong] Hi. unfold queue_save_song, queue_save_database_song, queue_save_full_song. destruct (is_brief s) eqn:Hb.
  - fold (brief_line i (d_uri s)). rewrite file_lines_line by (by apply plain_brief). do 2 eexists. split; [done|]. split.
    + pose proof (brief_line_digit i (d_uri s)) as Hd. split; [by apply digit_no_label|].
      change PLAYLIST_END with ("p"%char :: lit "laylist_end"). pose proof (digit_no_label _ "p" (lit "laylist_end") Hd eq_refl) as E.
      unfold StringStartsWith, starts_with. unfold StringAfterPrefix in E. by rewrite E.
    + rewrite LoadQueueSong_brief by done. unfold reload_saved. by rewrite Hb.
  - destruct (song_load_detached fmt_double s rest Hu (Hlong eq_refl) Hb) as (file & E & Hload). rewrite E. do 2 eexists. split; [done|].
    split; [done|]. unfold LoadQueueSong, StringAfterPrefix. rewrite after_prefix_app, Hload. done.
Qed.

Lemma saved_priority p : 0 <= p < 256 -> fst (strtoull (print_nat p)) mod 2 ^ 8 = p.
Proof.
  intros Hp. pose proof (strtoull_print p [] ltac:(lia) eq_refl) as E. rewrite app_nil_r in E. rewrite E. cbn. by rewrite Z.mod_small by lia.
Qed.

(** With its priority. *)
Definition item_text fmt_double (i : nat) (it : Item) : bytes :=
  (if negb (i_priority it =? 0) then line (PRIO_LABEL ++ print_nat (i_priority it)) else []) ++
  queue_save_song fmt_double (Z.of_nat i) (i_song it).

Lemma saved_item fmt_double (i : nat) it rest : saveable fmt_double (i_song it) -> Z.of_nat i < 2 ^ 30 -> 0 <= i_priority it < 256 ->
  exists l file, file_lines (item_text fmt_double i it ++ rest) = l :: file /\ StringStartsWith l PLAYLIST_END = false /\
    exists l' file', read_priority file l = (i_priority it, Some (l', file')) /\
      LoadQueueSong file' l' = Ok (reload_saved (i_song it), file_lines rest).
Proof.
  intros Hs Hi Hp. unfold item_text. rewrite <- app_assoc.
  destruct (saved_song fmt_double i (i_song it) rest Hs Hi) as (l & file & E & [H1 H2] & Hl).
  destruct (Z.eqb_spec (i_priority it) 0) as [Ep|Ep]; cbn [negb app].
  - rewrite E. exists l, file. split; [done|]. split; [done|]. exists l, file. split; [|done]. unfold read_priority. by rewrite H1, Ep.
  - rewrite file_lines_line by (by plain_tac). rewrite E. do 2 eexists. split; [done|]. split; [done|]. exists l, file. split; [|done].
    unfold read_priority, StringAfterPrefix. rewrite after_prefix_app, saved_priority by done. done.
Qed.

(** ** All songs *)

Fixpoint items_text fmt_double (i : nat) (its : list Item) : bytes :=
  match its with
  | [] => []
  | it :: its => item_text fmt_double i it ++ items_text fmt_double (S i) its
  end.

Lemma queue_save_text `{Random} fmt_double (q : Queue) : queue_save fmt_double q = Some (items_text fmt_double 0 (items q)).
Proof.
  unfold queue_save, for_up, GetLength. rewrite Z.sub_0_r, Nat2Z.id.
  assert (forall suffix prefix acc, items q = prefix ++ suffix ->
    for_count (length suffix) (Z.of_nat (length prefix)) 1 (fun i text =>
      prio ← GetPriorityAtPosition q i;
      song ← Get q i;
      Some (text ++ (if negb (prio =? 0) then line (PRIO_LABEL ++ print_nat prio) else []) ++ queue_save_song fmt_double i song)) acc =
    Some (acc ++ items_text fmt_double (length prefix) suffix)) as Hloop; [|exact (Hloop (items q) [] [] eq_refl)].
  intros suffix. induction suffix as [|it suffix IH]; intros prefix acc E; cbn [length for_count items_text]; [by rewrite app_nil_r|].
  assert (arr_get (items q) (Z.of_nat (length prefix)) = Some it) as Hit
    by (rewrite arr_get_nat, E, lookup_app_r, Nat.sub_diag by lia; done).
  assert (GetPriorityAtPosition q (Z.of_nat (length prefix)) = Some (i_priority it)) as -> by (unfold GetPriorityAtPosition; by rewrite Hit).
  assert (Get q (Z.of_nat (length prefix)) = Some (i_song it)) as -> by (unfold Get; by rewrite Hit). cbn [mbind option_bind].
  fold (item_text fmt_double (length prefix) it). pose proof (IH (prefix ++ [it]) (acc ++ item_text fmt_double (length prefix) it)) as E'.
  rewrite length_app in E'. cbn [length] in E'.
  replace (Z.of_nat (length prefix + 1)) with (Z.of_nat (length prefix) + 1) in E' by lia.
  replace (length prefix + 1)%nat with (S (length prefix)) in E' by lia.
  rewrite E' by (by rewrite <- app_assoc). by rewrite <- app_assoc.
Qed.

Section Reload.
Context `{RandomLaws} `{PlayerLaws} (loader : bytes -> result DetachedSong) (fmt_double : double -> bytes).
Implicit Types (w : World) (q : Queue).

(** The songs with their priorities. *)
Definition saved_list q : list (DetachedSong * Z) := (fun x => (x.1.2, x.2)) <$> tracks q.
Definition reload_item (it : Item) : list (DetachedSong * Z) :=
  match reload_song loader (i_song it) with Some s => [(s, i_priority it)] | None => [] end.

(** A stopped playlist with the queue [q], without a current song. *)
Definition ready q w : Prop := pl_ok None w /\ playing (pl w) = false /\ queue (pl w) = q.

Lemma wp_queue_load_saved q w (i : nat) it rest : ready q w -> GetLength q < max_length q -> saveable fmt_double (i_song it) ->
  Z.of_nat i < 2 ^ 30 -> 0 <= i_priority it < 256 ->
  exists l file, file_lines (item_text fmt_double i it ++ rest) = l :: file /\ StringStartsWith l PLAYLIST_END = false /\
    (length (file_lines rest) <= length file)%nat /\
    wp (queue_load_song loader file l) (fun r w' => r = Ok (file_lines rest) /\ exists q', ready q' w' /\
      settings q' = settings q /\ saved_list q' = saved_list q ++ reload_item it) w.
Proof.
  intros (Hpl & Hp & <-) Hlen Hs Hi Hpr.
  destruct (saved_item fmt_double i it rest Hs Hi Hpr) as (l & file & E & Hend & l' & file' & Hprio & Hload).
  exists l, file. split; [done|]. split; [done|]. pose proof (read_priority_shorter file l) as Hsh. rewrite Hprio in Hsh. specialize (Hsh _ _ eq_refl).
  pose proof (LoadQueueSong_shorter _ _ _ _ Hload). split; [lia|]. unfold queue_load_song. do 2 wstep.
  assert (IsFull (queue (pl w)) = false) as Hfull by (by apply Z.leb_gt). rewrite Hfull, Hprio. apply wp_bind, wp_lift. rewrite Hload.
  unfold reload_item. fold (reload_song loader (i_song it)). destruct (reload_song loader (i_song it)) as [s|].
  - destruct (pl_ok_append None w s (i_priority it) Hpl Hfull Hpr) as (id & q & Ha & Ht & Hm & Hpl'). wstep.
    eapply wp_call; [exact Ha|]. cbv beta iota. wstep. split; [done|]. exists q. split; [done|]. split.
    + unfold Append in Ha. case_match; [done|]. destruct (IdTable_Insert _ _) as [[id' t]|]; [|done]. cbn in Ha. by injection Ha as _ <-.
    + unfold saved_list. by rewrite Ht, fmap_app.
  - wstep. split; [done|]. exists (queue (pl w)). split; [done|]. by rewrite app_nil_r.
Qed.

Lemma settings_max q q' : settings q' = settings q -> max_length q' = max_length q.
Proof. by intros [= ?]. Qed.

Lemma length_saved_list q : GetLength q = Z.of_nat (length (saved_list q)).
Proof. unfold saved_list, GetLength. by rewrite length_fmap, length_tracks. Qed.

Lemma wp_load_saved its : forall i q w rest fuel l file, ready q w -> GetLength q + Z.of_nat (length its) <= max_length q ->
  Z.of_nat i + Z.of_nat (length its) <= 2 ^ 30 ->
  Forall (fun it => saveable fmt_double (i_song it) /\ 0 <= i_priority it < 256) its ->
  file_lines (items_text fmt_double i its ++ line PLAYLIST_END ++ rest) = l :: file -> (length file < fuel)%nat ->
  wp (load_songs loader fuel l file) (fun r w' => r = Ok (file_lines rest) /\ exists q', ready q' w' /\
    settings q' = settings q /\ saved_list q' = saved_list q ++ concat (reload_item <$> its)) w.
Proof.
  induction its as [|it its IH]; intros i q w rest fuel l file Hw Hlen Hi Hall El Hfuel; (destruct fuel as [|fuel]; [lia|]);
    cbn [items_text app] in El; cbn [load_songs].
  - rewrite file_lines_line in El by plain_tac. injection El as <- <-. change (StringStartsWith PLAYLIST_END PLAYLIST_END) with true. cbv iota.
    wstep. split; [done|]. exists q. by rewrite app_nil_r.
  - apply Forall_cons in Hall as [[Hs Hpr] Hall]. cbn [length] in *. rewrite <- app_assoc in El.
    destruct (wp_queue_load_saved q w i it (items_text fmt_double (S i) its ++ line PLAYLIST_END ++ rest) Hw ltac:(lia) Hs ltac:(lia) Hpr)
      as (l1 & file1 & E1 & Hend & Hsh & Hload). rewrite E1 in El. injection El as <- <-. rewrite Hend. wstep.
    eapply wp_conseq; [exact Hload|]. intros r w1 (-> & q1 & Hw1 & Hset & Hlist). cbv beta iota.
    assert (GetLength q1 <= GetLength q + 1) as Hl1.
    { rewrite !length_saved_list, Hlist, length_app. unfold reload_item. destruct (reload_song _ _); cbn; lia. }
    destruct (file_lines (items_text fmt_double (S i) its ++ line PLAYLIST_END ++ rest)) as [|l2 file2] eqn:E2.
    { exfalso. destruct its as [|it2 its]; cbn [items_text app] in E2; [by rewrite file_lines_line in E2 by plain_tac|].
      apply Forall_cons in Hall as [[Hs2 Hpr2] _]. rewrite <- app_assoc in E2.
      destruct (saved_item fmt_double (S i) it2 (items_text fmt_double (S (S i)) its ++ line PLAYLIST_END ++ rest) Hs2 ltac:(cbn [length] in *; lia) Hpr2)
        as (? & ? & E3 & _). congruence. }
    cbn [length] in Hsh. eapply wp_conseq; [apply (IH (S i) q1 w1 rest fuel l2 file2); try done; rewrite ?(settings_max q q1) by done; lia|].
    intros r w' (-> & q' & Hw' & Hset' & Hlist'). split; [done|]. exists q'. split; [done|]. split; [congruence|].
    rewrite Hlist', Hlist. cbn. by rewrite <- app_assoc.
Qed.
End Reload.
