(* ===== verification/PlayStateTrip.v ===== *)
(** Saving the state of the playlist and restoring it ([PlayState]). *)
From S2P Require Import Arrays Text Chrono Uri Tags Audio Songs SongSave RangeArg SortList StableSort Queue QueueWf QueueOps QueueRandom QueueSpec PlayControl PlayRules PlayWf PlayOps PlayPlayback PlayEdits PlayMoves PlayTags PlaySpec PlayFrame ArgParser PlayState PlayStateSpec.
From Stdlib Require Import SpecFloat.
Open Scope Z_scope.

(** ** Options while nothing is played *)

Section Options.
Context `{RandomLaws} `{PlayerLaws}.
Implicit Types (w : World) (q : Queue).

Lemma wp_and {A} (m : M A) (P Q : result A -> World -> Prop) w : wp m P w -> wp m Q w -> wp m (fun r w' => P r w' /\ Q r w') w.
Proof. unfold wp. by destruct (m w) as [[w' r]|]. Qed.

Lemma wp_ready {A} (m : M A) q q' w (P : result A -> Prop) (Q : result A -> World -> Prop) : ready q w -> keeps m w ->
  wp m (fun r w' => P r /\ playing (pl w') = false /\ queue (pl w') = q') w ->
  (forall r w', P r -> ready q' w' -> Q r w') -> wp m Q w.
Proof.
  intros (Hpl & Hp & Hq) Hk Hm HQ. eapply wp_conseq; [apply (wp_and _ _ _ _ (Hk None Hpl) Hm)|].
  intros r w' (Hpl' & HP & Hp' & Hq'). by apply HQ.
Qed.

Lemma wp_requeue_stopped w (Q : result unit -> World -> Prop) : playing (pl w) = false -> Q (Ok tt) w -> wp requeue Q w.
Proof.
  intros Hp HQ. unfold requeue, GetQueuedSong, UpdateQueuedSong. wsteps. rewrite Hp. cbn [andb]. wsteps. rewrite Hp. cbn [negb]. by wstep.
Qed.

Lemma wp_option q w (f : Queue -> Queue) : playing (pl w) = false -> queue (pl w) = q ->
  wp (modify (fun p => set_queue (f (queue p)) p);; set_border_pause;; requeue;; notify OnQueueOptionsChanged)
    (fun r w' => r = Ok tt /\ playing (pl w') = false /\ queue (pl w') = f q) w.
Proof.
  intros Hp Hq. unfold set_border_pause. do 6 wstep. wstep. apply wp_requeue_stopped; [done|]. wsteps. rewrite Hq. done.
Qed.

Lemma wp_SetRepeat q w b (Q : result unit -> World -> Prop) : ready q w -> (forall w', ready (with_repeat b q) w' -> Q (Ok tt) w') ->
  wp (SetRepeat b) Q w.
Proof.
  intros Hw HQ. eapply (wp_ready _ q _ _ (fun r => r = Ok tt)); [done|by apply SetRepeat_keeps| |by intros r w' -> Hw'; apply HQ].
  destruct Hw as (_ & Hp & Hq). unfold SetRepeat. do 2 wstep. destruct (eqb_spec b (repeat (queue (pl w)))) as [->|]; [|by apply wp_option].
  wstep. subst q. by destruct (queue (pl w)).
Qed.

Lemma wp_SetSingle q w m (Q : result unit -> World -> Prop) : ready q w -> (forall w', ready (with_single m q) w' -> Q (Ok tt) w') ->
  wp (SetSingle m) Q w.
Proof.
  intros Hw HQ. eapply (wp_ready _ q _ _ (fun r => r = Ok tt)); [done|by apply SetSingle_keeps| |by intros r w' -> Hw'; apply HQ].
  destruct Hw as (_ & Hp & Hq). unfold SetSingle. do 2 wstep. apply wp_if; intros E; [|by apply wp_option].
  apply bool_decide_eq_true in E. subst q m. wstep. by destruct (queue (pl w)).
Qed.

Lemma wp_SetConsume q w m (Q : result unit -> World -> Prop) : ready q w -> (forall w', ready (with_consume m q) w' -> Q (Ok tt) w') ->
  wp (SetConsume m) Q w.
Proof.
  intros Hw HQ. eapply (wp_ready _ q _ _ (fun r => r = Ok tt)); [done|by apply SetConsume_keeps| |by intros r w' -> Hw'; apply HQ].
  destruct Hw as (_ & Hp & Hq). unfold SetConsume. do 2 wstep. apply wp_if; intros E.
  - apply bool_decide_eq_true in E. subst q m. wstep. by destruct (queue (pl w)).
  - wsteps. by rewrite Hq.
Qed.

Lemma ready_player q w pc' : ready q w -> (has_next (pc w) = false -> has_next pc' = false) -> ready q (mkWorld (pl w) pc' (events w)).
Proof. intros (Hpl & Hp & Hq) Hn. split; [by apply pl_ok_player|done]. Qed.

Lemma ready_loaded q w name : ready q w -> ready (with_last_loaded_playlist name q) (mkWorld (set_queue (with_last_loaded_playlist name (queue (pl w))) (pl w)) (pc w) (events w)).
Proof. intros (Hpl & Hp & <-). split; [|done]. apply pl_ok_options; try done. by left. Qed.

Lemma ready_version q w : ready q w -> ready (IncrementVersion q) (mkWorld (set_queue (IncrementVersion (queue (pl w))) (pl w)) (pc w) (events w)).
Proof. intros (Hpl & Hp & <-). split; [by apply pl_ok_version|done]. Qed.
End Options.

(** ** The fields of the file *)

(** Looks for the label of a line. *)
Ltac at_label :=
  unfold restore_line, StringAfterPrefix; cbv zeta;
  repeat match goal with
  | |- context [after_prefix (?a ++ ?v) ?b] =>
      first [change (after_prefix (a ++ v) b) with (@None bytes) | change (after_prefix (a ++ v) b) with (Some v)]; cbv iota
  end.

Section Fields.
Context `{RandomLaws} `{PlayerLaws} (loader : bytes -> result DetachedSong) (fmt_double : double -> bytes).
Implicit Types (w : World) (q : Queue).

(** The loop on the rest of a text, with any fuel that is enough. *)
Definition reads (text : bytes) (st : restored) (Q : result restored -> World -> Prop) w : Prop :=
  forall fuel, (length (file_lines text) < fuel)%nat -> wp (restore_lines loader fuel (file_lines text) st) Q w.

Lemma reads_field label value text st Q w : plain (label ++ value) ->
  wp (restore_line loader (label ++ value) (file_lines text) st)
    (fun r w' => exists st', r = Ok (st', file_lines text) /\ reads text st' Q w') w ->
  reads (field label value ++ text) st Q w.
Proof.
  intros Hp Hl fuel Hf. unfold field in *. rewrite file_lines_line in * by done. destruct fuel as [|fuel]; [lia|]. cbn [length restore_lines] in *.
  wstep. eapply wp_conseq; [exact Hl|]. intros r w' (st' & -> & Hr). cbn. apply Hr. lia.
Qed.

Lemma read_current pos text st Q w : 0 <= pos < 2 ^ 31 -> reads text (with_current pos st) Q w -> reads (field CURRENT (print_nat pos) ++ text) st Q w.
Proof.
  intros Hp HQ. apply reads_field; [by plain_tac|]. at_label. wstep. eexists. split; [done|].
  rewrite atoi_print, s32_id by lia. done.
Qed.

Lemma read_time v text st Q w : plain v -> reads text (with_seek_time (SongTime_FromS_double (ParseDouble v)) st) Q w -> reads (field TIME v ++ text) st Q w.
Proof. intros Hp HQ. apply reads_field; [by plain_tac|]. at_label. wstep. by eexists. Qed.

Lemma read_random b text st Q w : reads text (with_random_mode b st) Q w -> reads (field RANDOM (print_nat (Z.b2z b)) ++ text) st Q w.
Proof. intros HQ. apply reads_field; [by destruct b; plain_tac|]. at_label. wstep. eexists. split; [done|]. by destruct b. Qed.

(** A line that calls something. *)
Lemma reads_call (m : M unit) text st Q w : wp m (fun r w' => r = Ok tt /\ reads text st Q w') w ->
  wp (m;; mret (st, file_lines text)) (fun r w' => exists st', r = Ok (st', file_lines text) /\ reads text st' Q w') w.
Proof. intros Hm. wstep. eapply wp_conseq; [exact Hm|]. intros r w' [-> Hr]. wstep. by eexists. Qed.

Lemma read_repeat b q text st Q w : ready q w -> (forall w', ready (with_repeat b q) w' -> reads text st Q w') ->
  reads (field REPEAT (print_nat (Z.b2z b)) ++ text) st Q w.
Proof.
  intros Hw HQ. apply reads_field; [by destruct b; plain_tac|]. at_label. apply reads_call.
  assert ((print_nat (Z.b2z b) =b lit "1") = b) as -> by (by destruct b).
  apply (wp_SetRepeat q); [done|]. intros w' Hw'. split; [done|by apply HQ].
Qed.

Lemma read_single m q text st Q w : ready q w -> (forall w', ready (with_single m q) w' -> reads text st Q w') ->
  reads (field SINGLE (SingleToString m) ++ text) st Q w.
Proof.
  intros Hw HQ. apply reads_field; [by destruct m; plain_tac|]. at_label. apply reads_call.
  assert (SingleFromString (SingleToString m) = Ok m) as -> by (by destruct m). cbn [lift]. wsteps.
  apply (wp_SetSingle q); [done|]. intros w' Hw'. split; [done|by apply HQ].
Qed.

Lemma read_consume m q text st Q w : ready q w -> (forall w', ready (with_consume m q) w' -> reads text st Q w') ->
  reads (field CONSUME (ConsumeToString m) ++ text) st Q w.
Proof.
  intros Hw HQ. apply reads_field; [by destruct m; plain_tac|]. at_label. apply reads_call.
  assert (ConsumeFromString (ConsumeToString m) = Ok m) as -> by (by destruct m). cbn [lift]. wsteps.
  apply (wp_SetConsume q); [done|]. intros w' Hw'. split; [done|by apply HQ].
Qed.

(** The settings of the player. *)
Lemma read_crossfade v q text st Q w : plain v -> ready q w -> (forall w', ready q w' -> reads text st Q w') -> reads (field CROSSFADE v ++ text) st Q w.
Proof.
  intros Hp Hw HQ. apply reads_field; [by plain_tac|]. at_label. apply reads_call. wstep. split; [done|].
  apply HQ, ready_player; [done|apply cross_fade_law].
Qed.

Lemma read_mixrampdb v q text st Q w : plain v -> ready q w -> (forall w', ready q w' -> reads text st Q w') -> reads (field MIXRAMPDB v ++ text) st Q w.
Proof.
  intros Hp Hw HQ. apply reads_field; [by plain_tac|]. at_label. apply reads_call. wstep. split; [done|].
  apply HQ, ready_player; [done|apply mix_ramp_db_law].
Qed.

Lemma read_mixrampdelay v q text st Q w : plain v -> ready q w -> (forall w', ready q w' -> reads text st Q w') -> reads (field MIXRAMPDELAY v ++ text) st Q w.
Proof.
  intros Hp Hw HQ. apply reads_field; [by plain_tac|]. at_label. apply reads_call. apply wp_when; intros _; [wstep|]; (split; [done|]); apply HQ; [|done].
  apply ready_player; [done|apply mix_ramp_delay_law].
Qed.

Lemma read_loaded v q text st Q w : plain v -> ready q w -> (forall w', ready (with_last_loaded_playlist v q) w' -> reads text st Q w') ->
  reads (field LOADED_PLAYLIST v ++ text) st Q w.
Proof.
  intros Hp Hw HQ. apply reads_field; [by plain_tac|]. at_label. apply reads_call. unfold set_queue_option. wstep. split; [done|].
  by apply HQ, ready_loaded.
Qed.

(** The songs, at the end of the file. *)
Lemma read_songs its q st (Q : result restored -> World -> Prop) w : ready q w -> items q = [] -> Z.of_nat (length its) <= max_length q -> max_length q <= 2 ^ 30 ->
  Forall (fun it => saveable fmt_double (i_song it) /\ 0 <= i_priority it < 256) its ->
  (forall q' w', ready q' w' -> settings q' = settings q -> saved_list q' = concat (reload_item loader <$> its) -> Q (Ok st) w') ->
  reads (line PLAYLIST_BEGIN ++ items_text fmt_double 0 its ++ line PLAYLIST_END) st Q w.
Proof.
  intros Hw Hemp Hlen Hmax Hall HQ fuel Hf. rewrite file_lines_line in * by plain_tac. destruct fuel as [|fuel]; [lia|]. cbn [length restore_lines] in *.
  destruct (file_lines (items_text fmt_double 0 its ++ line PLAYLIST_END)) as [|l file] eqn:E.
  { exfalso. destruct its as [|it its]; cbn [items_text app] in E.
    - by rewrite <- (app_nil_r (line _)), file_lines_line in E by plain_tac.
    - apply Forall_cons in Hall as [[Hs Hp] _]. rewrite <- app_assoc in E.
      destruct (saved_item fmt_double 0 it (items_text fmt_double 1 its ++ line PLAYLIST_END) Hs ltac:(lia) Hp) as (? & ? & E1 & _). congruence. }
  wstep. change (restore_line loader PLAYLIST_BEGIN (l :: file) st) with (file ← playlist_state_load loader (l :: file); mret (st, file)).
  wstep. unfold playlist_state_load. wstep.
  eapply wp_conseq; [apply (wp_load_saved loader fmt_double its 0 q w [] _ l file Hw)|].
  - unfold GetLength. rewrite Hemp. cbn. lia.
  - lia.
  - done.
  - by rewrite app_nil_r.
  - lia.
  - intros r w1 (-> & q1 & Hw1 & Hset & Hlist). cbv beta iota. unfold set_queue_option. do 4 wstep. cbn [snd fst].
    destruct fuel as [|fuel]; [cbn in Hf; lia|]. cbn [restore_lines]. change (file_lines []) with (@nil bytes). cbv iota. wstep.
    destruct (IncrementVersion_tracks q1) as [Hs1 Ht1]. apply (HQ (IncrementVersion q1)); [by apply ready_version|congruence|].
    unfold saved_list in *. rewrite Ht1, Hlist. unfold tracks. by rewrite Hemp.
Qed.
End Fields.

(** ** After the file was read *)

Section Restart.
Context `{RandomLaws} `{PlayerLaws}.
Implicit Types (w : World) (q : Queue).

Lemma wp_preserves {A} (R : Queue -> Queue -> Prop) (m : M A) (P : result A -> World -> Prop) w : preserves R m -> wp m P w ->
  wp m (fun r w' => P r w' /\ R (queue (pl w)) (queue (pl w'))) w.
Proof. intros Hm. unfold wp. destruct (m w) as [[w' r]|] eqn:E; [|done]. split; [done|]. by apply Hm in E. Qed.

Lemma wp_SetRandom_stopped q w b (Q : result unit -> World -> Prop) : ready q w -> random q = false ->
  (forall q' w', ready q' w' -> same_tracks (with_random b q) q' -> Q (Ok tt) w') -> wp (SetRandom b) Q w.
Proof.
  intros (Hpl & Hp & Hq) Hr HQ. subst q. pose proof (p_core _ _ Hpl) as [Hok Hc _ Hn _]. pose proof (p_next _ _ Hpl) as Hnx.
  unfold SetRandom. do 2 wstep. rewrite Hr. destruct b; cbn [eqb].
  2: { wstep. apply (HQ (queue (pl w))); [done|]. rewrite <- Hr. by destruct (queue (pl w)). }
  assert (queue_ok (with_random true (queue (pl w)))) as Hok1 by (destruct Hok; by split).
  destruct (ShuffleOrder_ok _ Hok1 eq_refl) as (q' & Hq' & [Hok' Hit _ _ _] & _).
  unfold GetQueuedSong, UpdateQueuedSong. wsteps. rewrite Hp. cbn [andb]. wsteps. rewrite Hp. wsteps.
  eapply wp_call_; [exact Hq'|]. cbv beta iota. cbn [Z.leb Z.compare]. wsteps. rewrite Hp. cbn [negb]. wsteps.
  apply (HQ q'); [|by apply ShuffleOrder_tracks]. split; [|done]. split; cbn.
  - split; cbn; try done; [unfold GetLength; lia|congruence].
  - congruence.
  - intros E. destruct (Hnx E). congruence.
Qed.

Lemma restore_song_list state position t : preserves same_list (restore_song state position t).
Proof. unfold restore_song. preserves_steps; [done|apply PlayPosition_list|apply SeekSongPosition_list]. Qed.

Lemma restore_playback_list paused state st : preserves same_list (restore_playback paused state st).
Proof. unfold restore_playback. preserves_steps. apply restore_song_list. Qed.

Lemma restore_playback_stop_tracks paused st : preserves same_tracks (restore_playback paused PLAYER_STOP st).
Proof.
  unfold restore_playback, restore_song. change (bool_decide (PLAYER_STOP = PLAYER_PLAY)) with false. cbn [andb]. cbv iota.
  change (bool_decide (PLAYER_STOP = PLAYER_STOP)) with true. cbv zeta iota. preserves_steps; done.
Qed.
End Restart.

(** ** The whole file *)

Section Trip.
Context `{RandomLaws} `{PlayerLaws} (loader : bytes -> result DetachedSong) (fmt_double fmt_float : spec_float -> bytes).
Context (fmt_double_plain : forall d, plain (fmt_double d)) (fmt_float_plain : forall d, plain (fmt_float d)).
Implicit Types (w : World) (q : Queue).

(** What is written after the state, the current song and the time. *)
Definition saved_queue (c : Player) q : bytes :=
  field RANDOM (print_nat (Z.b2z (random q))) ++
  field REPEAT (print_nat (Z.b2z (repeat q))) ++
  field SINGLE (SingleToString (single q)) ++
  field CONSUME (ConsumeToString (consume q)) ++
  field CROSSFADE (fmt_double (GetCrossFade c)) ++
  field MIXRAMPDB (fmt_float (GetMixRampDb c)) ++
  field MIXRAMPDELAY (fmt_double (GetMixRampDelay c)) ++
  field LOADED_PLAYLIST (last_loaded_playlist q) ++
  line PLAYLIST_BEGIN ++ items_text fmt_double 0 (items q) ++ line PLAYLIST_END.

(** The position that is written. *)
Definition saved_position w : option Z := OrderToPosition (queue (pl w)) (current (pl w)).

Definition saved_current w (status : PlayerStatus) : bytes :=
  match saved_position w with
  | Some pos => field CURRENT (print_nat pos) ++ (if playing (pl w) then field TIME (fmt_double (ToDoubleS (elapsed_time status))) else [])
  | None => []
  end.

Definition saved_state w (status : PlayerStatus) : bytes :=
  if playing (pl w) then if bool_decide (status_state status = PLAYER_PAUSE) then lit "pause" else lit "play" else lit "stop".

Lemma saved_position_Some cs w : pl_ok cs w -> match saved_position w with
  | Some pos => 0 <= current (pl w) /\ 0 <= pos < GetLength (queue (pl w))
  | None => current (pl w) < 0 /\ playing (pl w) = false
  end.
Proof.
  intros Hpl. pose proof (p_core _ _ Hpl) as [Hok Hc Hp _ _]. unfold saved_position. destruct (Z.ltb_spec (current (pl w)) 0).
  - unfold OrderToPosition, arr_get. rewrite (proj2 (Z.ltb_lt _ _)) by done. split; [done|]. destruct (playing (pl w)); [|done]. specialize (Hp eq_refl). lia.
  - destruct (turn_exists (queue (pl w)) (current (pl w)) Hok ltac:(lia)) as (n & k & it & Ht). rewrite (turn_OrderToPosition Ht). pose proof (turn_range Hok Ht). unfold GetLength in *. lia.
Qed.

Lemma playlist_state_save_text cs w : pl_ok cs w ->
  playlist_state_save fmt_double fmt_float w = Some (mkWorld (pl w) (snd (LockGetStatus (pc w))) (events w),
    Ok (field STATE (saved_state w (fst (LockGetStatus (pc w)))) ++ saved_current w (fst (LockGetStatus (pc w))) ++
        saved_queue (snd (LockGetStatus (pc w))) (queue (pl w)))).
Proof.
  intros Hpl. pose proof (saved_position_Some cs w Hpl) as Hpos. unfold playlist_state_save.
  unfold mbind, M_bind, player_ask, get, player_get, ask. cbn [pl pc events]. unfold saved_current, saved_state, saved_position in *.
  destruct (OrderToPosition (queue (pl w)) (current (pl w))) as [pos|] eqn:E.
  - destruct Hpos as [Hge _]. rewrite (proj2 (Z.leb_le _ _) Hge), orb_true_r. cbn [pl pc]. rewrite E. cbn [pl pc].
    rewrite queue_save_text. unfold mret, M_ret. destruct (playing (pl w)); rewrite <- ?app_assoc; done.
  - destruct Hpos as [Hlt Hp]. rewrite (proj2 (Z.leb_gt _ _) Hlt), Hp. cbn [orb]. unfold mret at 1, M_ret at 1. cbn [pl pc].
    rewrite queue_save_text. unfold mret, M_ret. done.
Qed.

(** The fresh queue after the file was read. *)
Definition read_back (q0 q : Queue) (st st' : restored) : Prop :=
  st' = with_random_mode (random q0) st /\ options q = options q0 /\ random q = false /\ saved_list q = concat (reload_item loader <$> items q0).

Lemma reads_queue c q0 q w st (Q : result restored -> World -> Prop) : queue_ok q0 -> Forall (saveable fmt_double) (i_song <$> items q0) ->
  plain (last_loaded_playlist q0) -> ready q w -> items q = [] -> random q = false -> GetLength q0 <= max_length q -> max_length q <= 2 ^ 30 ->
  (forall q' w' st', ready q' w' -> read_back q0 q' st st' -> Q (Ok st') w') -> reads loader (saved_queue c q0) st Q w.
Proof.
  intros Hok0 Hs Hl Hw Hemp Hr Hlen Hmax HQ. unfold saved_queue. apply read_random.
  apply (read_repeat loader _ q); [done|]. intros w1 Hw1. apply (read_single loader _ _ _ _ _ _ Hw1). intros w2 Hw2.
  apply (read_consume loader _ _ _ _ _ _ Hw2). intros w3 Hw3. eapply read_crossfade; [apply fmt_double_plain|done|]. intros w4 Hw4.
  eapply read_mixrampdb; [apply fmt_float_plain|done|]. intros w5 Hw5. eapply read_mixrampdelay; [apply fmt_double_plain|done|]. intros w6 Hw6.
  apply (read_loaded loader _ _ _ _ _ _ Hl Hw6). intros w7 Hw7.
  eapply read_songs; [exact Hw7|done|unfold GetLength in *; cbn; lia|done| |].
  - rewrite Forall_fmap in Hs. apply Forall_and. split; [done|]. apply (ok_priority _ Hok0).
  - intros q' w' Hw' Hset Hlist. apply (HQ q' w'); [done|]. injection Hset as E1 E2 E3 E4 E5 E6. cbn in *.
    split; [done|]. split; [|split; [congruence|done]]. unfold options. by rewrite E3, E4, E5, E6.
Qed.

Lemma reload_songs its : fst <$> concat (reload_item loader <$> its) = omap (reload_song loader) (i_song <$> its).
Proof.
  induction its as [|it its IH]; [done|]. cbn. rewrite fmap_app, IH. unfold reload_item. by destruct (reload_song loader (i_song it)).
Qed.

Lemma fst_saved_list q : fst <$> saved_list q = i_song <$> items q.
Proof. unfold saved_list, tracks. rewrite <- !list_fmap_compose. done. Qed.

Lemma same_list_songs q q' : same_list q q' -> i_song <$> items q' = i_song <$> items q.
Proof.
  intros [_ E]. unfold id_songs, tracks in E. apply (f_equal (fmap snd)) in E. rewrite <- !list_fmap_compose in E. exact E.
Qed.

(** The current song and the time. *)
Lemma reads_current cs w status text Q w0 : pl_ok cs w ->
  (forall t, reads loader text (mkRestored (default (-1) (saved_position w)) t false) Q w0) ->
  reads loader (saved_current w status ++ text) (mkRestored (-1) 0 false) Q w0.
Proof.
  intros Hpl HQ. pose proof (saved_position_Some cs w Hpl) as Hpos. pose proof (GetLength_small _ (c_queue _ _ (p_core _ _ Hpl))).
  unfold saved_current. destruct (saved_position w) as [pos|]; [|apply HQ].
  rewrite <- app_assoc. apply read_current; [lia|]. destruct (playing (pl w)); [|apply (HQ 0)].
  apply read_time; [apply fmt_double_plain|]. apply HQ.
Qed.

Lemma restore_saved_state w status : restore_state (saved_state w status) <> PLAYER_STOP <-> playing (pl w) = true.
Proof. unfold saved_state. destruct (playing (pl w)); [|done]. by destruct (bool_decide _). Qed.

(** The restored position, where every song was found. *)
Lemma restore_position_saved cs w q pos st : pl_ok cs w -> saved_position w = Some pos -> r_current st = pos -> GetLength q = GetLength (queue (pl w)) ->
  restore_position q st = pos.
Proof.
  intros Hpl Hpos <- Hl. pose proof (saved_position_Some cs w Hpl) as Hr. rewrite Hpos in Hr.
  pose proof (GetLength_small _ (c_queue _ _ (p_core _ _ Hpl))). unfold restore_position, IsValidPosition. rewrite u32_id, Hl by lia.
  by rewrite (proj2 (Z.ltb_lt _ _)) by lia.
Qed.

Definition all_found w : Prop := Forall (fun s => is_Some (reload_song loader s)) (i_song <$> items (queue (pl w))).

Lemma all_found_length w q : all_found w -> i_song <$> items q = omap (reload_song loader) (i_song <$> items (queue (pl w))) ->
  GetLength q = GetLength (queue (pl w)).
Proof.
  unfold all_found, GetLength. intros Hall E%(f_equal length). rewrite length_fmap in E. rewrite E, <- (length_fmap i_song (items (queue (pl w)))).
  f_equal. clear E. induction Hall as [|s l [s' Hs] _ IH]; [done|]. cbn. rewrite Hs. cbn. by rewrite IH.
Qed.

(** What is restored. *)
Record restored_ok w w' : Prop := {
  restored_wf : exists cs, pl_ok cs w';
  restored_songs : i_song <$> items (queue (pl w')) = omap (reload_song loader) (i_song <$> items (queue (pl w)));
  restored_options : options (queue (pl w')) = options (queue (pl w)) /\ random (queue (pl w')) = random (queue (pl w));
  restored_priorities : playing (pl w) = false -> saved_list (queue (pl w')) = concat (reload_item loader <$> items (queue (pl w)));
  restored_playing : playing (pl w') = playing (pl w) && negb (IsEmpty (queue (pl w')));
  restored_current : forall pos, saved_position w = Some pos -> all_found w -> playing (pl w) = true \/ random (queue (pl w)) = false ->
    current_song w' = song_ids w' !! Z.to_nat pos
}.

Lemma same_list_empty q q' : same_list q q' -> IsEmpty q' = IsEmpty q.
Proof. intros E%same_list_songs%(f_equal length). rewrite !length_fmap in E. unfold IsEmpty, GetLength. by rewrite E. Qed.

(** Random mode and playback, after the file was read. *)
Lemma wp_restart cs w w0 q paused status st t : pl_ok cs w -> ready q w0 -> st = with_random_mode (random (queue (pl w))) (mkRestored (default (-1) (saved_position w)) t false) ->
  read_back (queue (pl w)) q (mkRestored (default (-1) (saved_position w)) t false) st ->
  wp (SetRandom (r_random st);; restore_playback paused (restore_state (saved_state w status)) st;; mret true)
    (fun r w' => r = Ok true /\ restored_ok w w') w0.
Proof.
  intros Hpl Hw0 -> (_ & Hopt & Hr & Hlist). wstep. apply (wp_SetRandom_stopped q); [done|done|]. intros q1 w1 (Hpl1 & Hp1 & Hq1) [Hs1 Ht1]. cbv beta iota.
  pose proof (saved_position_Some cs w Hpl) as Hpos. pose proof (GetLength_small _ (c_queue _ _ (p_core _ _ Hpl))) as Hsm.
  injection Hs1 as _ Hr1 Ho1 Ho2 Ho3 Ho4. cbn in Hr1, Ho1, Ho2, Ho3, Ho4.
  assert (saved_list q1 = concat (reload_item loader <$> items (queue (pl w)))) as Hl1 by (rewrite <- Hlist; unfold saved_list; by rewrite Ht1).
  assert (i_song <$> items q1 = omap (reload_song loader) (i_song <$> items (queue (pl w)))) as Hsongs1.
  { by rewrite <- fst_saved_list, Hl1, reload_songs. }
  assert (options q1 = options (queue (pl w))) as Hopt1 by (rewrite <- Hopt; unfold options; congruence).
  set (st := with_random_mode _ _). wstep.
  assert (wp (restore_playback paused (restore_state (saved_state w status)) st) (fun r w' => playing (pl w) = false -> same_tracks (queue (pl w1)) (queue (pl w'))) w1) as Hstop.
  { destruct (playing (pl w)) eqn:Hp.
    - eapply wp_conseq; [apply (wp_restore_playback None w1); [done|unfold st; cbn; destruct (saved_position w); cbn; lia]|]. by intros.
    - assert (restore_state (saved_state w status) = PLAYER_STOP) as -> by (unfold saved_state; by rewrite Hp).
      eapply wp_conseq; [apply (wp_preserves same_tracks); [apply restore_playback_stop_tracks|apply (wp_restore_playback None w1); [done|unfold st; cbn; destruct (saved_position w); cbn; lia]]|].
      by intros r w' [_ ?]. }
  eapply wp_conseq; [apply wp_and; [exact Hstop|apply (wp_preserves same_list); [apply restore_playback_list|apply (wp_restore_playback None w1); [done|unfold st; cbn; destruct (saved_position w); cbn; lia]]]|].
  intros r w' [Htr [(-> & (cs' & Hpl' & Hcs) & Hp') Hsame]]. cbv beta iota. wstep. split; [done|].
  rewrite Hq1 in *. pose proof (same_list_songs _ _ Hsame) as Hsongs'. pose proof (same_list_empty _ _ Hsame) as He'. destruct Hsame as [Hset Hids].
  injection Hset as _ Hr' Ho1' Ho2' Ho3' Ho4'.
  split.
  - by exists cs'.
  - congruence.
  - split; [rewrite <- Hopt1; unfold options; congruence|congruence].
  - intros Hp. destruct (Htr Hp) as [_ Ht']. rewrite <- Hl1. unfold saved_list. by rewrite Ht'.
  - rewrite Hp', Hp1, He'. cbn [orb]. rewrite andb_comm. f_equal. pose proof (restore_saved_state w status) as Hst.
    destruct (playing (pl w)).
    + by rewrite bool_decide_false by (by apply Hst).
    + rewrite bool_decide_true; [done|]. destruct (restore_state _); [done|exfalso; by discriminate (proj1 Hst ltac:(done))..].
  - intros pos Epos Hall Hmode. pose proof (all_found_length w q1 Hall Hsongs1) as Hlen. rewrite Epos in Hpos.
    assert (song_ids w' = song_ids w1) as Hids'.
    { unfold id_songs in Hids. apply (f_equal (fmap fst)) in Hids. rewrite <- !list_fmap_compose in Hids. unfold song_ids. rewrite Hq1. exact Hids. }
    unfold current_song. rewrite (c_song _ _ (p_core _ _ Hpl')), Hids'. rewrite Hcs.
    + do 2 f_equal. apply (restore_position_saved cs w); try done. unfold st. cbn. by rewrite Epos.
    + unfold IsEmpty. apply Z.eqb_neq. lia.
    + rewrite restore_saved_state. destruct Hmode; [by left|right; congruence].
Qed.

Lemma saved_state_plain w status : plain (saved_state w status).
Proof. unfold saved_state. destruct (playing (pl w)); [|by plain_tac]. destruct (bool_decide _); by plain_tac. Qed.

Lemma restore_saved cs w n p paused status c : pl_ok cs w -> Forall (saveable fmt_double) (i_song <$> items (queue (pl w))) ->
  plain (last_loaded_playlist (queue (pl w))) -> 1 <= n < 2 ^ 30 -> GetLength (queue (pl w)) <= n -> has_next p = false ->
  wp (playlist_state_restore loader paused (STATE ++ saved_state w status) (file_lines (saved_current w status ++ saved_queue c (queue (pl w)))))
    (fun r w' => r = Ok true /\ restored_ok w w') (start_world n p).
Proof.
  intros Hpl Hs Hl Hn Hlen Hp. unfold playlist_state_restore, StringAfterPrefix. rewrite after_prefix_app. cbv zeta. wstep.
  assert (ready (Queue_new n) (start_world n p)) as Hready by (split; [by apply start_ok|done]).
  match goal with |- wp _ ?Q' _ => enough (reads loader (saved_current w status ++ saved_queue c (queue (pl w))) (mkRestored (-1) 0 false) Q' (start_world n p)) as Hreads by (apply Hreads; lia) end.
  apply (reads_current cs); [done|]. intros t. eapply reads_queue; [apply Hpl|done|done|exact Hready|done|done|cbn; lia|cbn; lia|].
  intros q' w' st' Hw' Hback. cbv beta iota. apply (wp_restart cs w w' q' paused status st' t); [done|done|apply Hback|done].
Qed.
End Trip.

(** Nothing is known of the song yet. *)
Lemma merge_fresh u r tmp :
  merge_song_metadata (mkDetachedSong u r Tag_empty time_point_min time_point_min 0 0 AudioFormat_Undefined) tmp =
  mkDetachedSong u r (if Tag_IsDefined (d_tag tmp) then Commit (Complement (TagBuilder_of Tag_empty) (d_tag tmp)) else Tag_empty)
    (d_mtime tmp) (d_GetAdded tmp) (d_start_time tmp) (d_end_time tmp) (d_audio_format tmp).
Proof. unfold merge_song_metadata. destruct (Tag_IsDefined (d_tag tmp)); reflexivity. Qed.

Lemma Complement_empty t : fits (Tags.items t) -> Commit (Complement (TagBuilder_of Tag_empty) t) = t.
Proof.
  intros Hfit. unfold Complement. cbn [TagBuilder_of b_duration b_has_playlist b_items Tag_empty duration has_playlist Tags.items app].
  assert (List.filter (fun item => negb (TagBuilder_HasType (TagBuilder_of Tag_empty) (ti_type item))) (Tags.items t) = Tags.items t) as E.
  { change (List.filter (fun _ : TagItem => true) (Tags.items t) = Tags.items t). clear Hfit. induction (Tags.items t) as [|i l IH]; [done|]. cbn. by rewrite IH. }
  change (Commit (mkTagBuilder (duration t) (has_playlist t)
    (List.filter (fun item => negb (TagBuilder_HasType (TagBuilder_of Tag_empty) (ti_type item))) (Tags.items t))) = t).
  rewrite E. change (Commit (TagBuilder_of t) = t). pose proof (Commit_items (TagBuilder_of t) Hfit) as Hc.
  unfold Commit in *. cbn [TagBuilder_of b_items b_duration b_has_playlist Tags.items] in *. rewrite Hc. by destruct t.
Qed.

(** A song of the database is restored as the database has it now. *)
Lemma reload_brief loader s tmp : is_brief s = true -> uri_squash_dot_segments (d_uri s) = d_uri s -> loader (d_uri s) = Ok tmp ->
  fits (Tags.items (d_tag tmp)) -> Tag_IsDefined (d_tag tmp) = true \/ d_tag tmp = Tag_empty ->
  reload_song loader s = Some (d_SetAdded tmp (d_GetAdded tmp)).
Proof.
  intros Hb Hu Hl Hfit Htag. unfold reload_song, reload_saved, playlist_check_translate_song, playlist_check_load_song. rewrite Hb.
  cbn [d_uri d_SetURI DetachedSong_new]. rewrite Hu, Hl. f_equal.
  assert ((if negb (HasRealURI (d_SetURI (d_SetURI (DetachedSong_new (d_uri s)) (d_uri s)) (d_uri tmp))) && HasRealURI tmp
    then d_SetRealURI (d_SetURI (d_SetURI (DetachedSong_new (d_uri s)) (d_uri s)) (d_uri tmp)) (GetRealURI tmp)
    else d_SetURI (d_SetURI (DetachedSong_new (d_uri s)) (d_uri s)) (d_uri tmp)) =
    mkDetachedSong (d_uri tmp) (d_real_uri tmp) Tag_empty time_point_min time_point_min 0 0 AudioFormat_Undefined) as E.
  { change (HasRealURI (d_SetURI _ _)) with false. unfold GetRealURI. destruct (HasRealURI tmp) eqn:Hr; [done|].
    unfold HasRealURI in Hr. apply negb_false_iff, bytes_eqb_eq in Hr. cbn. by rewrite Hr. }
  cbv zeta. etransitivity; [apply (f_equal (fun x => merge_song_metadata x tmp)), E|]. rewrite merge_fresh.
  assert ((if Tag_IsDefined (d_tag tmp) then Commit (Complement (TagBuilder_of Tag_empty) (d_tag tmp)) else Tag_empty) = d_tag tmp) as ->
    by (destruct Htag as [->|Et]; [by apply Complement_empty|by rewrite Et]).
  by destruct tmp.
Qed.

(** ** Properties *)

(** C22: Whatever is in the state file, restoring it is defined: it ends, with a
    result or an exception, no song is read that is not there, and the
    playlist is well-formed after it. *)
Theorem playlist_state_restore_safe `{RandomLaws} `{PlayerLaws} (loader : bytes -> result DetachedSong) (cs : option Z) (w : World)
  (restore_paused : bool) (l : bytes) (file : list bytes) (Hpl : pl_ok cs w) :
  exists w' r, playlist_state_restore loader restore_paused l file w = Some (w', r) /\ exists cs', pl_ok cs' w'.
Proof.
  assert (safe (playlist_state_restore loader restore_paused l file) w) as Hsafe.
  { unfold safe, playlist_state_restore. destruct (StringAfterPrefix l STATE) as [s|]; [|wstep; by exists cs]. cbv zeta. wstep.
    eapply wp_conseq; [apply (restore_lines_safe loader cs); [done|done|lia]|]. intros [st|] w1 [Hpl1 Hst]; [|by exists cs]. wstep.
    eapply wp_conseq; [by apply (SetRandom_ok cs)|]. intros [[]|] w2 Hpl2; [|by eexists]. wstep.
    eapply wp_conseq; [by eapply wp_restore_playback|]. intros r w3 (-> & (cs' & Hpl3 & _) & _). wstep. by exists cs'. }
  destruct (wp_any _ _ _ Hsafe) as (w' & r & Hr & Hw'). by exists w', r.
Qed.


(** ** A sample restart *)

#[local] Existing Instance sample_random.
#[local] Existing Instance sample_player.
#[local] Existing Instance sample_random_laws.
#[local] Existing Instance sample_player_laws.

Definition sample_number (_ : spec_float) : bytes := lit "1.5".

(** The database has lost the song "c". *)
Definition sample_loader (uri : bytes) : result DetachedSong := if uri =b lit "c" then Throw (lit "No such song") else Ok (DetachedSong_new uri).

Lemma playlist_state_restore_safe_witness : exists w' r,
  playlist_state_restore sample_loader false (lit "state: play")
    (lit <$> ["random: 1"; "current: -7"; "playlist_begin"; "Prio: 999"; "0:a"; "song_begin: b"; "Title: x"; "mtime: 12"; "song_end"; "3:a"]%string)
    sample_start = Some (w', r) /\ exists cs', pl_ok cs' w'.
Proof. apply (playlist_state_restore_safe sample_loader None). apply start_ok; [lia|reflexivity]. Defined.


(** ** What goes wrong *)

(** A stopped playlist in random mode: the position of the current song is
    taken for its number in the order of play, which was shuffled just
    before.  The engine of [rotating_random] puts the first song last. *)
Definition restart (w : @World rotating_random sample_player) : option (@World rotating_random sample_player) :=
  match @playlist_state_save rotating_random sample_player sample_number sample_number w with
  | Some (_, Ok text) =>
      match read_lines text with
      | l :: file => fst <$> @playlist_state_restore (fun uri => Ok (DetachedSong_new uri)) rotating_random sample_player false l file
          (@start_world rotating_random sample_player 10 false)
      | [] => None
      end
  | _ => None
  end.
Definition current_uri (w : @World rotating_random sample_player) : option bytes :=
  d_uri <$> @GetOrder rotating_random (queue (pl w)) (current (pl w)).

Example random_current_not_restored :
  let w := default (@start_world rotating_random sample_player 10 false)
    (@session rotating_random sample_player (@start_world rotating_random sample_player 10 false) (songs 3 ++ [OpSetRandom true; OpPlayPosition 0; OpStop])) in
  (current_uri w, w' ← restart w; current_uri w') = (Some (lit "a"), Some (lit "b")).
Proof. vm_compute. reflexivity. Qed.

(** A stopped playlist without a current song gets one by the restart. *)
Example stopped_gets_current :
  let w := default (@start_world rotating_random sample_player 10 false)
    (@session rotating_random sample_player (@start_world rotating_random sample_player 10 false) (songs 2)) in
  (current (pl w), (fun w' => current (pl w')) <$> restart w) = (-1, Some 0).
Proof. vm_compute. reflexivity. Qed.

(** Two fields of the hash overlap: whether a song is played and single
    mode change the same bit. *)
Example hash_overlap : Z.shiftl (PlayerState_number PLAYER_PLAY) 24 = Z.shiftl (SingleMode_number SINGLE_ON) 25.
Proof. reflexivity. Qed.
