(* ===== verification/PcmSamples.v ===== *)
(** Arithmetic on integer samples: [pcm/Traits.hxx], [pcm/Clamp.hxx],
    [pcm/Prng.hxx], [pcm/Dither.cxx], the sample functions of
    [pcm/Volume.cxx] and [pcm/Mix.cxx], and the shifts of
    [pcm/ShiftConvert.hxx].

    A signed operation that leaves its type is undefined in C++: [sck] is
    [None] there, and so is every function that performs one.  Conversions
    to a narrower type wrap. *)
From S2P Require Import Prelude Audio.
Open Scope Z_scope.

(** ** Checked signed arithmetic *)

Definition fits_s (w x : Z) : bool := (- 2 ^ (w - 1) <=? x) && (x <? 2 ^ (w - 1)).

(** The result of a signed operation of width [w]. *)
Definition sck (w x : Z) : option Z := if fits_s w x then Some x else None.

(** ** Traits.hxx *)

(** The integer specialisations; the fields are the widths of the types. *)
Record SampleTraits := mkTraits { value_type : Z; sum_type : Z; long_type : Z; BITS : Z }.

Definition Traits_S8 : SampleTraits := mkTraits 8 32 32 8.
Definition Traits_S16 : SampleTraits := mkTraits 16 32 32 16.
Definition Traits_S24 : SampleTraits := mkTraits 32 32 64 24.
Definition Traits_S32 : SampleTraits := mkTraits 32 64 64 32.

Definition IntegerSampleTraits (F : SampleFormat) : option SampleTraits :=
  match F with
  | S8 => Some Traits_S8
  | S16 => Some Traits_S16
  | S24_P32 => Some Traits_S24
  | S32 => Some Traits_S32
  | UNDEFINED | FLOAT | DSD => None
  end.

Definition MIN (t : SampleTraits) : Z := - Z.shiftl 1 (BITS t - 1).
Definition MAX (t : SampleTraits) : Z := Z.shiftl 1 (BITS t - 1) - 1.

(** A value of the format: within [MIN] and [MAX]. *)
Definition sample_ok (t : SampleTraits) (x : Z) : Prop := MIN t <= x <= MAX t.

(** ** Clamp.hxx *)

Definition PcmClamp (t : SampleTraits) (x : Z) : Z :=
  if x <? MIN t then MIN t else if MAX t <? x then MAX t else wrap_s (value_type t) x.

(** ** Prng.hxx *)

(** [unsigned long] has 64 bits. *)
Definition pcm_prng (state : Z) : Z :=
  Z.land (u64 (u64 (state * 0x0019660d) + 0x3c6ef35f)) 0xffffffff.

(** ** Dither.hxx, Dither.cxx *)

Record PcmDither := mkDither { error0 : Z; error1 : Z; error2 : Z; random : Z }.
Definition PcmDither_init : PcmDither := mkDither 0 0 0 0.

(** [Dither<T, MIN, MAX, scale_bits>], where [T] has [tw] bits. *)
Definition Dither (tw min max scale_bits : Z) (d : PcmDither) (sample : Z) : option (Z * PcmDither) :=
  let round := Z.shiftl 1 (scale_bits - 1) in
  let mask := Z.shiftl 1 scale_bits - 1 in
  e ← sck 32 (error0 d - error1 d);
  e ← sck 32 (e + error2 d);
  sample ← sck tw (sample + e);
  let error2' := error1 d in
  let error1' := Z.quot (error0 d) 2 in
  (* round *)
  output ← sck tw (sample + round);
  let rnd := wrap_s tw (pcm_prng (u64 (random d))) in
  r ← sck tw (Z.land rnd mask - Z.land (random d) mask);
  output ← sck tw (output + r);
  let random' := s32 rnd in
  (* clip *)
  let '(output, sample) :=
    if max <? output then (max, if max <? sample then max else sample)
    else if output <? min then (min, if sample <? min then min else sample)
    else (output, sample) in
  let output := Z.land output (Z.lnot mask) in
  err ← sck tw (sample - output);
  Some (Z.shiftr output scale_bits, mkDither (s32 err) error1' error2' random').

Definition DitherShift (st SBITS DBITS : Z) (d : PcmDither) (sample : Z) : option (Z * PcmDither) :=
  Dither st (- Z.shiftl 1 (SBITS - 1)) (Z.shiftl 1 (SBITS - 1) - 1) (SBITS - DBITS) d sample.

Definition DitherConvert1 (ST DT : SampleTraits) (d : PcmDither) (sample : Z) : option (Z * PcmDither) :=
  '(v, d') ← Dither (sum_type ST) (MIN ST) (MAX ST) (BITS ST - BITS DT) d sample;
  Some (wrap_s (value_type DT) v, d').

(** [transform_n] with a function that changes the state [S]. *)
Fixpoint transform_n {S A B} (f : S -> A -> option (B * S)) (s : S) (src : list A) : option (list B * S) :=
  match src with
  | [] => Some ([], s)
  | x :: src' =>
      '(y, s1) ← f s x;
      '(ys, s2) ← transform_n f s1 src';
      Some (y :: ys, s2)
  end.

Definition DitherConvert (ST DT : SampleTraits) : PcmDither -> list Z -> option (list Z * PcmDither) :=
  transform_n (DitherConvert1 ST DT).
Definition Dither24To16 := DitherConvert Traits_S24 Traits_S16.
Definition Dither32To16 := DitherConvert Traits_S32 Traits_S16.

(** ** Volume.hxx, Volume.cxx: samples *)

Definition PCM_VOLUME_BITS : Z := 10.
Definition PCM_VOLUME_1 : Z := Z.shiftl 1 PCM_VOLUME_BITS.

Definition PcmVolumeConvert (ST DT : SampleTraits) (sample volume : Z) : option Z :=
  sample ← sck (long_type ST) (sample * volume);
  let bits := BITS ST + PCM_VOLUME_BITS in
  let result :=
    if BITS DT <? bits then Z.shiftr sample (bits - BITS DT)
    else if bits <? BITS DT then Z.shiftl sample (BITS DT - bits)
    else sample in
  Some (wrap_s (value_type DT) result).

Definition pcm_volume_sample (t : SampleTraits) (volume : Z) (d : PcmDither) (sample : Z)
  : option (Z * PcmDither) :=
  p ← sck (long_type t) (sample * volume);
  '(v, d') ← DitherShift (long_type t) (BITS t + PCM_VOLUME_BITS) (BITS t) d p;
  Some (wrap_s (value_type t) v, d').

Definition pcm_volume_change (t : SampleTraits) (volume : Z) : PcmDither -> list Z -> option (list Z * PcmDither) :=
  transform_n (pcm_volume_sample t volume).

Definition PcmVolumeChange16to32 (volume : Z) (src : list Z) : option (list Z) :=
  mapM (fun x => PcmVolumeConvert Traits_S16 Traits_S24 x volume) src.

(** ** Mix.cxx: samples *)

Definition PcmAddVolume1 (t : SampleTraits) (volume1 volume2 : Z) (d : PcmDither) (ab : Z * Z)
  : option (Z * PcmDither) :=
  x ← sck (long_type t) (fst ab * volume1);
  y ← sck (long_type t) (snd ab * volume2);
  c ← sck (long_type t) (x + y);
  '(v, d') ← DitherShift (long_type t) (BITS t + PCM_VOLUME_BITS) (BITS t) d c;
  Some (wrap_s (value_type t) v, d').

(** The loop runs over the [n] samples of the two buffers of equal size. *)
Definition PcmAddVolume (t : SampleTraits) (volume1 volume2 : Z) (d : PcmDither) (a b : list Z)
  : option (list Z * PcmDither) :=
  transform_n (PcmAddVolume1 t volume1 volume2) d (zip a b).

Definition PcmAdd1 (t : SampleTraits) (a b : Z) : option Z :=
  c ← sck (sum_type t) (a + b);
  Some (PcmClamp t c).

Definition PcmAdd (t : SampleTraits) (a b : list Z) : option (list Z) :=
  mapM (fun ab => PcmAdd1 t (fst ab) (snd ab)) (zip a b).

(** ** ShiftConvert.hxx *)

Definition LeftShiftSampleConvert (ST DT : SampleTraits) (src : Z) : Z :=
  wrap_s (value_type DT) (Z.shiftl src (BITS DT - BITS ST)).
Definition RightShiftSampleConvert (ST DT : SampleTraits) (src : Z) : Z :=
  wrap_s (value_type DT) (Z.shiftr src (BITS ST - BITS DT)).
