(* ===== verification/PcmSpec.v ===== *)
(** Properties of the arithmetic on samples ([PcmSamples]): no operation
    overflows, results lie in the range of their format, dithering stays
    close to the exact quotient and never drifts away from it, volume and
    mixing are what their names say. *)
From S2P Require Import Prelude Audio PcmSamples.
Open Scope Z_scope.

(** ** One step of dithering *)

(** The errors a dither that discards at most [k] bits carries over. *)
Record dither_ok (k : Z) (d : PcmDither) : Prop := {
  dok_0 : Z.abs (error0 d) <= 6 * 2 ^ (k - 2);
  dok_1 : Z.abs (error1 d) <= 3 * 2 ^ (k - 2);
  dok_2 : Z.abs (error2 d) <= 3 * 2 ^ (k - 2) }.

(** What the errors put off: the sum of the samples and the sum of the
    outputs differ by its change. *)
Definition deferred (d : PcmDither) : Z := error0 d + error2 d.

(** The sample with the errors of its predecessors. *)
Definition filtered (d : PcmDither) (x : Z) : Z := x + (error0 d - error1 d + error2 d).

Lemma sck_Some w x : - 2 ^ (w - 1) <= x < 2 ^ (w - 1) -> sck w x = Some x.
Proof.
  intros H. unfold sck, fits_s. destruct (Z.leb_spec (- 2 ^ (w - 1)) x); [|lia].
  by destruct (Z.ltb_spec x (2 ^ (w - 1))); [|lia].
Qed.

Lemma pow2_split a b : 0 <= a -> 0 <= b -> 2 ^ (a + b) = 2 ^ a * 2 ^ b.
Proof. intros. by apply Z.pow_add_r. Qed.

Lemma mask_bounds x k : 0 <= k -> 0 <= Z.land x (Z.shiftl 1 k - 1) < 2 ^ k.
Proof.
  intros Hk. rewrite Z.shiftl_1_l, Z.sub_1_r, <- Z.ones_equiv, Z.land_ones by done.
  by apply Z.mod_pos_bound, Z.pow_pos_nonneg.
Qed.

Lemma drop_bits x k : 0 <= k ->
  Z.land x (Z.lnot (Z.shiftl 1 k - 1)) = x / 2 ^ k * 2 ^ k /\
  Z.shiftr (Z.land x (Z.lnot (Z.shiftl 1 k - 1))) k = x / 2 ^ k.
Proof.
  intros Hk. pose proof (Z.pow_pos_nonneg 2 k) as Hp.
  assert (E : Z.land x (Z.lnot (Z.shiftl 1 k - 1)) = x / 2 ^ k * 2 ^ k).
  { rewrite Z.shiftl_1_l, Z.sub_1_r, <- Z.ones_equiv, <- Z.ldiff_land, Z.ldiff_ones_r by done.
    by rewrite Z.shiftl_mul_pow2, Z.shiftr_div_pow2 by done. }
  split; [done|]. rewrite E, Z.shiftr_div_pow2 by done. apply Z.div_mul. lia.
Qed.

(** The rounding part of a step with [P = 2 ^ k], [min = - M * P] and
    [max = M * P - 1]: [s] is the filtered sample, [r] the noise. *)
Lemma clip_bounds P M s r :
  2 <= P -> 1 <= M -> P mod 2 = 0 -> - P < r < P ->
  forall o s', (o, s') =
    (if M * P - 1 <? s + P / 2 + r then (M * P - 1, if M * P - 1 <? s then M * P - 1 else s)
     else if s + P / 2 + r <? - (M * P) then (- (M * P), if s <? - (M * P) then - (M * P) else s)
     else (s + P / 2 + r, s)) ->
  - M <= o / P <= M - 1 /\ 2 * Z.abs (s' - o / P * P) <= 3 * P /\
  (- (M * P) <= s <= M * P - 1 -> s' = s) /\
  (forall x e, s = x + e -> 2 * Z.abs (o / P * P - Z.max (- (M * P)) (Z.min (M * P - 1) x)) <= 2 * Z.abs e + 3 * P).
Proof.
  intros HP HM Hev Hr o s' E.
  assert (HP2 : P = 2 * (P / 2)) by (pose proof (Z.div_mod P 2); lia).
  set (h := P / 2) in *.
  pose proof (Z.div_mod o P ltac:(lia)) as Hd. pose proof (Z.mod_pos_bound o P ltac:(lia)) as Hm.
  set (q := o / P) in *. set (m := o mod P) in *.
  assert (Ho : - (M * P) <= o <= M * P - 1 ->  - M <= q <= M - 1) by (intros; nia).
  destruct (Z.ltb_spec (M * P - 1) (s + h + r)); [|destruct (Z.ltb_spec (s + h + r) (- (M * P)))];
    injection E as -> ->.
  - assert (q = M - 1) by (symmetry; apply Z.div_unique with (P - 1); lia).
    destruct (Z.ltb_spec (M * P - 1) s); repeat split; intros; try nia.
  - assert (q = - M) by (symmetry; apply Z.div_unique with 0; lia).
    destruct (Z.ltb_spec s (- (M * P))); repeat split; intros; try nia.
  - repeat split; intros; try nia.
Qed.

Lemma filter_bound K d : dither_ok K d -> 2 <= K -> Z.abs (error0 d - error1 d + error2 d) <= 3 * 2 ^ K.
Proof.
  intros [] HK. assert (2 ^ K = 4 * 2 ^ (K - 2)); [|lia].
  replace K with (2 + (K - 2)) at 1 by lia. by rewrite pow2_split by lia.
Qed.

Lemma half_error x b : Z.abs x <= 2 * b -> Z.abs (Z.quot x 2) <= b.
Proof. intros H. pose proof (Z.quot_rem' x 2). pose proof (Z.rem_bound_abs x 2). lia. Qed.

(** What a step of [Dither] that discards [k] of [s] bits makes of the
    sample [x]. *)
Record dither_step (k K s : Z) (d : PcmDither) (x v : Z) (d' : PcmDither) : Prop := {
  ds_ok : dither_ok K d';
  ds_range : - 2 ^ (s - 1 - k) <= v <= 2 ^ (s - 1 - k) - 1;
  ds_near : 2 * Z.abs (v * 2 ^ k - Z.max (- 2 ^ (s - 1)) (Z.min (2 ^ (s - 1) - 1) x)) <= 6 * 2 ^ K + 3 * 2 ^ k;
  ds_exact : - 2 ^ (s - 1) <= filtered d x <= 2 ^ (s - 1) - 1 -> x = v * 2 ^ k + (deferred d' - deferred d) }.

(** The width of the arithmetic is enough around [x]. *)
Lemma sck_near tw x y : tw = 32 \/ tw = 64 -> - 2 ^ (tw - 2) <= x <= 2 ^ (tw - 2) ->
  - 2 ^ 20 <= y - x <= 2 ^ 20 -> sck tw y = Some y.
Proof. intros [-> | ->] Hx Hy; apply sck_Some; simpl in *; lia. Qed.

Lemma pow2_K k K : 2 <= k <= K -> K <= 16 ->
  4 <= 2 ^ k <= 2 ^ K /\ 2 ^ K <= 65536 /\ 2 ^ K = 4 * 2 ^ (K - 2) /\ 2 ^ k = 2 * 2 ^ (k - 1) /\
  2 ^ (k - 1) = 2 ^ k / 2.
Proof.
  intros Hk HK.
  assert (E : 2 ^ k = 2 * 2 ^ (k - 1)) by (rewrite <- Z.pow_succ_r by lia; f_equal; lia).
  split; [split|split; [|split; [|split; [done|]]]].
  - apply (Z.pow_le_mono_r 2 2 k); lia.
  - apply Z.pow_le_mono_r; lia.
  - apply (Z.pow_le_mono_r 2 K 16); lia.
  - replace K with (2 + (K - 2)) at 1 by lia. by rewrite pow2_split by lia.
  - rewrite E, Z.mul_comm. symmetry. by apply Z.div_mul.
Qed.

Lemma Dither_step tw s k K d x :
  tw = 32 \/ tw = 64 -> 2 <= k <= K -> K <= 16 -> k < s ->
  dither_ok K d -> - 2 ^ (tw - 2) <= x <= 2 ^ (tw - 2) ->
  exists v d', Dither tw (- Z.shiftl 1 (s - 1)) (Z.shiftl 1 (s - 1) - 1) k d x = Some (v, d') /\
    dither_step k K s d x v d'.
Proof.
  intros Htw Hk HK Hs Hd Hx.
  pose proof (filter_bound K d Hd ltac:(lia)) as Hf. pose proof Hd as [H0 H1 H2].
  pose proof (pow2_K k K Hk HK) as (Hpk & HpK & HK4 & Hk2 & Hh).
  assert (HM : 2 ^ (s - 1) = 2 ^ (s - 1 - k) * 2 ^ k) by (rewrite <- pow2_split by lia; f_equal; lia).
  assert (HM1 : 1 <= 2 ^ (s - 1 - k)) by (apply (Z.pow_le_mono_r 2 0); lia).
  pose proof (fun n => drop_bits n k ltac:(lia)) as Hdrop.
  unfold Dither, filtered, deferred. rewrite (sck_near 32 0) by (change (2 ^ 20) with 1048576; lia). simpl.
  rewrite (sck_near 32 0) by (change (2 ^ 20) with 1048576; lia). simpl.
  set (e := error0 d - error1 d + error2 d) in *.
  set (rnd := wrap_s tw _). rewrite !(Z.shiftl_1_l (k - 1)), !(Z.shiftl_1_l (s - 1)).
  pose proof (mask_bounds rnd k ltac:(lia)) as Hm1. pose proof (mask_bounds (random d) k ltac:(lia)) as Hm2.
  set (a := Z.land rnd _) in *. set (b := Z.land (random d) _) in *.
  assert (Hnear : forall y, - 2 ^ 20 <= y - x <= 2 ^ 20 -> sck tw y = Some y) by (intros; by apply (sck_near tw x)).
  assert (Hsmall : forall y, - 2 ^ 20 <= y - 0 <= 2 ^ 20 -> sck tw y = Some y)
    by (intros y Hy; apply (sck_near tw 0); [done| |done]; destruct Htw as [-> | ->]; simpl; lia).
  clear Htw Hx. change (2 ^ 20) with 1048576 in *.
  rewrite (Hnear (x + e)), (Hsmall (a - b)) by lia. simpl.
  rewrite (Hnear (x + e + 2 ^ (k - 1))) by lia. simpl. rewrite Hnear by lia. simpl.
  destruct (if 2 ^ (s - 1) - 1 <? _ then _ else _) as [o s'] eqn:E.
  rewrite HM, Hh in E. symmetry in E.
  apply clip_bounds in E as (Hr & Herr & Hin & Hclose); [|clear HM; lia|lia|rewrite Hk2, Z.mul_comm; by apply Z.mod_mul|clear HM; lia].
  destruct (Hdrop o) as [-> ->]. clear Hdrop Hm1 Hm2 Hnear.
  set (P := o / 2 ^ k * 2 ^ k) in *. clear Hh.
  assert (Herr' : Z.abs (s' - P) <= 6 * 2 ^ (K - 2)) by (clear - Herr HK4 Hpk; lia).
  assert (Hs' : - 1048576 <= s' - P <= 1048576) by (clear - Herr' HK4 HpK; lia).
  rewrite Hsmall by (clear - Hs'; lia). simpl.
  eexists _, _. split; [reflexivity|]. rewrite s32_id by (clear - Hs'; lia). split; simpl.
  - split; simpl; [done|apply half_error; clear - H0; lia|by destruct Hd].
  - done.
  - rewrite HM. specialize (Hclose x e eq_refl). clear - Hclose Hf. fold P. lia.
  - rewrite HM. unfold filtered, deferred; simpl. fold e. intros Hin'. specialize (Hin Hin'). subst e. clear - Hin. fold P. lia.
Qed.

(** ** Whole buffers *)

(** A state that every step keeps, and a relation between the samples
    before and after. *)
Lemma transform_n_related {S A B} (I : S -> Prop) (Q : A -> Prop) (R : A -> B -> Prop)
    (f : S -> A -> option (B * S)) :
  (forall s x, I s -> Q x -> exists y s', f s x = Some (y, s') /\ I s' /\ R x y) ->
  forall src s, I s -> Forall Q src ->
  exists ys s', transform_n f s src = Some (ys, s') /\ I s' /\ Forall2 R src ys.
Proof.
  intros Hf src. induction src as [|x src IH]; intros s Hs Hq; simpl; [by exists [], s|].
  apply Forall_cons in Hq as [Hx Hq]. destruct (Hf s x Hs Hx) as (y & s1 & -> & H1 & Hy). simpl.
  destruct (IH s1 H1 Hq) as (ys & s2 & -> & H2 & Hys). simpl. eexists _, _. by repeat constructor.
Qed.

Definition Zsum (l : list Z) : Z := foldr Z.add 0 l.

(** Where each step puts off what it rounds away, so does the buffer. *)
Lemma transform_n_sum {S A} (I : S -> Prop) (Q : A -> Prop) (phi : S -> Z) (val : A -> Z) (P : Z)
    (f : S -> A -> option (Z * S)) :
  (forall s x, I s -> Q x ->
     exists y s', f s x = Some (y, s') /\ I s' /\ val x = y * P + (phi s' - phi s)) ->
  forall src s, I s -> Forall Q src ->
  exists ys s', transform_n f s src = Some (ys, s') /\ I s' /\
    Zsum (map val src) = Zsum ys * P + (phi s' - phi s).
Proof.
  intros Hf src. induction src as [|x src IH]; intros s Hs Hq; simpl; [exists [], s; repeat split; [done|simpl; lia]|].
  apply Forall_cons in Hq as [Hx Hq]. destruct (Hf s x Hs Hx) as (y & s1 & -> & H1 & Hy). simpl.
  destruct (IH s1 H1 Hq) as (ys & s2 & -> & H2 & Hys). simpl. eexists _, _. repeat split; [done|].
  simpl. lia.
Qed.

Lemma div_near P y x : 4 <= P -> 2 * Z.abs (y * P - x) <= 9 * P -> Z.abs (y - x / P) <= 5.
Proof.
  intros HP H. pose proof (Z.div_mod x P ltac:(lia)). pose proof (Z.mod_pos_bound x P ltac:(lia)).
  set (q := x / P) in *. set (m := x mod P) in *.
  assert (H' : 2 * ((y - q) * P) <= 11 * P) by lia. assert (H'' : -11 * P <= 2 * ((y - q) * P)) by lia.
  apply Z.abs_le. split; nia.
Qed.

(** *** DitherShift, with the wrapping return type *)

Lemma MIN_pow t : MIN t = - 2 ^ (BITS t - 1).
Proof. unfold MIN. by rewrite Z.shiftl_1_l. Qed.
Lemma MAX_pow t : MAX t = 2 ^ (BITS t - 1) - 1.
Proof. unfold MAX. by rewrite Z.shiftl_1_l. Qed.

(** The four integer formats. *)
Definition traits_ok (t : SampleTraits) : Prop :=
  t = Traits_S8 \/ t = Traits_S16 \/ t = Traits_S24 \/ t = Traits_S32.

Lemma IntegerSampleTraits_ok F t : IntegerSampleTraits F = Some t -> traits_ok t.
Proof. destruct F; intros [= <-]; unfold traits_ok; tauto. Qed.

Lemma value_fits t y : traits_ok t -> sample_ok t y -> wrap_s (value_type t) y = y.
Proof.
  unfold sample_ok. rewrite MIN_pow, MAX_pow.
  intros [-> | [-> | [-> | ->]]] Hy; apply wrap_s_id; simpl in *; lia.
Qed.

(** The sample of the format that is nearest to a value. *)
Definition clipped (t : SampleTraits) (x : Z) : Z := Z.max (MIN t) (Z.min (MAX t) x).

Lemma clipped_id t x : sample_ok t x -> clipped t x = x.
Proof. unfold sample_ok, clipped. lia. Qed.

(** Clipping a product is clipping the sample. *)
Lemma clipped_div a b p P : 0 < P -> a <= b -> Z.max (a * P) (Z.min ((b + 1) * P - 1) p) / P = Z.max a (Z.min b (p / P)).
Proof.
  intros HP Hab. pose proof (Z.div_mod p P ltac:(lia)) as Hd. pose proof (Z.mod_pos_bound p P HP) as Hm.
  set (q := p / P) in *. set (m := p mod P) in *.
  destruct (Z.lt_ge_cases q a); [|destruct (Z.lt_ge_cases b q)].
  - rewrite (Z.max_l a), Z.max_l by nia. by apply Z.div_mul; lia.
  - rewrite (Z.min_l b), (Z.max_r a) by lia. rewrite Z.min_l, Z.max_r by nia.
    symmetry. apply Z.div_unique with (P - 1); lia.
  - rewrite (Z.min_r b), (Z.max_r a) by lia. rewrite Z.min_r, Z.max_r by nia. done.
Qed.

(** Scaling a product with a volume back to a sample. *)
Lemma DitherShift_ok t d p :
  traits_ok t -> dither_ok 10 d -> - 2 ^ (long_type t - 2) <= p <= 2 ^ (long_type t - 2) ->
  exists y d', DitherShift (long_type t) (BITS t + PCM_VOLUME_BITS) (BITS t) d p = Some (y, d') /\
    dither_ok 10 d' /\ sample_ok t y /\ wrap_s (value_type t) y = y /\
    Z.abs (y - clipped t (p / PCM_VOLUME_1)) <= 5 /\
    (MIN t * PCM_VOLUME_1 <= filtered d p <= (MAX t + 1) * PCM_VOLUME_1 - 1 ->
     p = y * PCM_VOLUME_1 + (deferred d' - deferred d)).
Proof.
  intros Ht Hd Hp. unfold DitherShift. change PCM_VOLUME_BITS with 10. change PCM_VOLUME_1 with (2 ^ 10).
  destruct (Dither_step (long_type t) (BITS t + 10) 10 10 d p) as (y & d' & E & [H1 H2 H3 H4]);
    [destruct Ht as [-> | [-> | [-> | ->]]]; simpl; lia|lia|lia|
     destruct Ht as [-> | [-> | [-> | ->]]]; simpl; lia|done|done|].
  replace (BITS t + 10 - BITS t) with 10 by lia.
  assert (Hr : sample_ok t y).
  { unfold sample_ok. rewrite MIN_pow, MAX_pow.
    destruct Ht as [-> | [-> | [-> | ->]]]; simpl in *; lia. }
  eexists _, _. split; [exact E|]. split; [done|]. split; [done|]. split; [by apply value_fits|].
  rewrite MIN_pow, MAX_pow in *.
  split; [|intros Hin].
  - unfold clipped. rewrite MIN_pow, MAX_pow, <- clipped_div by (destruct Ht as [-> | [-> | [-> | ->]]]; done).
    apply div_near; [done|]. destruct Ht as [-> | [-> | [-> | ->]]]; exact H3.
  - rewrite (H4 ltac:(destruct Ht as [-> | [-> | [-> | ->]]]; simpl in *; lia)) at 1. done.
Qed.

(** ** Dithering to 16 bits *)

(** What [Dither24To16] and [Dither32To16] do to one sample. *)
Definition to_16_near (k : Z) (x y : Z) : Prop := sample_ok Traits_S16 y /\ Z.abs (y - x / 2 ^ k) <= 5.

Definition dithered (ST : SampleTraits) : Prop := ST = Traits_S24 \/ ST = Traits_S32.

Lemma DitherConvert1_ok ST d x :
  dithered ST -> dither_ok (BITS ST - 16) d -> sample_ok ST x ->
  exists y d', DitherConvert1 ST Traits_S16 d x = Some (y, d') /\ dither_ok (BITS ST - 16) d' /\
    to_16_near (BITS ST - 16) x y /\
    (sample_ok ST (filtered d x) -> x = y * 2 ^ (BITS ST - 16) + (deferred d' - deferred d)).
Proof.
  unfold sample_ok. rewrite MIN_pow, MAX_pow. intros HS Hd Hx. unfold DitherConvert1, MIN, MAX.
  change (BITS Traits_S16) with 16.
  destruct (Dither_step (sum_type ST) (BITS ST) (BITS ST - 16) (BITS ST - 16) d x) as (y & d' & -> & [H1 H2 H3 H4]);
    [..|simpl];
    [destruct HS as [-> | ->]; simpl; lia|destruct HS as [-> | ->]; simpl; lia|destruct HS as [-> | ->]; simpl; lia
    |lia|done|destruct HS as [-> | ->]; simpl in *; lia|].
  assert (Hy : sample_ok Traits_S16 y).
  { unfold sample_ok. rewrite MIN_pow, MAX_pow. destruct HS as [-> | ->]; simpl in *; lia. }
  rewrite (value_fits Traits_S16) by (done || (unfold traits_ok; tauto)).
  eexists _, _. split; [done|]. split; [done|]. split; [|exact H4].
  split; [done|]. rewrite Z.max_r, Z.min_r in H3 by lia. apply div_near; [destruct HS as [-> | ->]; done|lia].
Qed.

(** The dithers of the source discard 8 and 16 bits. *)
Lemma dither_init_ok k : 2 <= k -> dither_ok k PcmDither_init.
Proof. intros. pose proof (Z.pow_nonneg 2 (k - 2)). split; simpl; lia. Qed.

Lemma DitherConvert_near ST d src :
  dithered ST -> dither_ok (BITS ST - 16) d -> Forall (sample_ok ST) src ->
  exists ys d', DitherConvert ST Traits_S16 d src = Some (ys, d') /\ dither_ok (BITS ST - 16) d' /\
    Forall2 (to_16_near (BITS ST - 16)) src ys.
Proof.
  intros HS. revert d src. intros d src Hd Hq. unfold DitherConvert.
  apply (transform_n_related (dither_ok (BITS ST - 16)) (sample_ok ST)); [|done|done].
  intros d0 x H0 Hx. destruct (DitherConvert1_ok ST d0 x HS H0 Hx) as (y & d' & E & ? & ? & _). eauto.
Qed.

(** A sample that the errors of a dither cannot push out of the range. *)
Definition headroom (t : SampleTraits) (m x : Z) : Prop := MIN t + m <= x <= MAX t - m.

Lemma headroom_filtered t K d x : 2 <= K -> dither_ok K d -> headroom t (3 * 2 ^ K) x ->
  sample_ok t x /\ sample_ok t (filtered d x).
Proof.
  intros HK Hd [? ?]. pose proof (filter_bound K d Hd HK). pose proof (Z.pow_nonneg 2 K).
  unfold sample_ok, filtered. lia.
Qed.

(** The sum of the outputs follows the sum of the inputs. *)
Lemma DitherConvert_sum ST d src :
  dithered ST -> dither_ok (BITS ST - 16) d ->
  Forall (headroom ST (3 * 2 ^ (BITS ST - 16))) src ->
  exists ys d', DitherConvert ST Traits_S16 d src = Some (ys, d') /\ dither_ok (BITS ST - 16) d' /\
    Zsum src = Zsum ys * 2 ^ (BITS ST - 16) + (deferred d' - deferred d).
Proof.
  intros HS Hd Hq. unfold DitherConvert.
  destruct (transform_n_sum (dither_ok (BITS ST - 16)) (headroom ST (3 * 2 ^ (BITS ST - 16))) deferred (fun x => x)
    (2 ^ (BITS ST - 16)) (DitherConvert1 ST Traits_S16)) with (src := src) (s := d) as (ys & d' & E & H1 & H2);
    [|done|done|rewrite map_id in H2; eauto].
  intros d0 x H0 Hx. destruct (headroom_filtered ST (BITS ST - 16) d0 x) as [Hx1 Hx2];
    [destruct HS as [-> | ->]; done|done|done|].
  destruct (DitherConvert1_ok ST d0 x HS H0 Hx1) as (y & d' & E & ? & _ & Hs). eauto 10.
Qed.

Lemma transform_n_length {S A B} (f : S -> A -> option (B * S)) src s ys s' :
  transform_n f s src = Some (ys, s') -> length ys = length src.
Proof.
  revert s ys. induction src as [|x src IH]; intros s ys E; simpl in E; [by injection E as <- <-|].
  destruct (f s x) as [[y s1]|]; [|done]. simpl in E.
  destruct (transform_n f s1 src) as [[ys' s2]|] eqn:E'; [|done]. injection E as <- <-. simpl. f_equal. eauto.
Qed.

(** ** Volume and mixing *)

Lemma sample_bound t x : traits_ok t -> sample_ok t x -> - 2 ^ (long_type t - 17) <= x <= 2 ^ (long_type t - 17).
Proof.
  unfold sample_ok. rewrite MIN_pow, MAX_pow. intros [-> | [-> | [-> | ->]]] Hx; simpl in *; lia.
Qed.

Lemma long_pow t : traits_ok t ->
  2 ^ (long_type t - 17) * 2 ^ 15 = 2 ^ (long_type t - 2) /\
  2 * 2 ^ (long_type t - 2) = 2 ^ (long_type t - 1) /\ 1 <= 2 ^ (long_type t - 17) /\
  1 <= 2 ^ (long_type t - 2).
Proof. by intros [-> | [-> | [-> | ->]]]. Qed.

Lemma product_bound t x v : traits_ok t -> sample_ok t x -> 0 <= v <= 2 ^ 15 ->
  - 2 ^ (long_type t - 2) <= x * v <= 2 ^ (long_type t - 2).
Proof.
  intros Ht Hx Hv. pose proof (sample_bound t x Ht Hx). destruct (long_pow t Ht) as (<- & _ & ? & _).
  set (B := 2 ^ (long_type t - 17)) in *. nia.
Qed.

(** A sample near the quotient [p / 1024]; near the product with the volume
    [v], clipped to the range. *)
Definition scaled_near (t : SampleTraits) (p y : Z) : Prop :=
  sample_ok t y /\ Z.abs (y - p / PCM_VOLUME_1) <= 5.

Definition volume_near (t : SampleTraits) (v x y : Z) : Prop :=
  sample_ok t y /\ Z.abs (y - clipped t (x * v / PCM_VOLUME_1)) <= 5.

Lemma traits_zero t : traits_ok t -> MIN t <= 0 <= MAX t.
Proof. by intros [-> | [-> | [-> | ->]]]. Qed.

Lemma pcm_volume_sample_ok t v d x :
  traits_ok t -> 0 <= v <= 2 ^ 15 -> dither_ok 10 d -> sample_ok t x ->
  exists y d', pcm_volume_sample t v d x = Some (y, d') /\ dither_ok 10 d' /\ volume_near t v x y.
Proof.
  intros Ht Hv Hd Hx. pose proof (product_bound t x v Ht Hx Hv) as Hp. unfold pcm_volume_sample.
  destruct (long_pow t Ht) as (_ & Hl & _ & Hl2). rewrite sck_Some by lia. simpl.
  destruct (DitherShift_ok t d (x * v) Ht Hd Hp) as (y & d' & -> & Hd' & Hr & Hw & Hn & _). simpl. rewrite Hw.
  eexists _, _. split; [done|]. split; [done|]. by split.
Qed.

Lemma pcm_volume_change_ok t v d src :
  traits_ok t -> 0 <= v <= 2 ^ 15 -> dither_ok 10 d -> Forall (sample_ok t) src ->
  exists ys d', pcm_volume_change t v d src = Some (ys, d') /\ dither_ok 10 d' /\
    Forall2 (volume_near t v) src ys.
Proof.
  intros Ht Hv Hd Hq. apply (transform_n_related (dither_ok 10) (sample_ok t)); [|done|done].
  intros. by apply pcm_volume_sample_ok.
Qed.

(** Widening from 16 to 24 bits loses nothing but the fraction. *)
Lemma PcmVolumeConvert_ok v x : 0 <= v <= 2 ^ 15 -> sample_ok Traits_S16 x ->
  PcmVolumeConvert Traits_S16 Traits_S24 x v = Some (x * v / 4).
Proof.
  intros Hv Hx. pose proof (product_bound Traits_S16 x v ltac:(unfold traits_ok; tauto) Hx Hv) as Hp.
  change (long_type Traits_S16) with 32 in Hp. unfold PcmVolumeConvert. simpl. rewrite sck_Some by (simpl; lia). simpl.
  change (Z.shiftr (x * v) 2) with (Z.shiftr (x * v) 2). rewrite Z.shiftr_div_pow2 by done. simpl.
  f_equal. pose proof (Z.div_mod (x * v) 4). pose proof (Z.mod_pos_bound (x * v) 4). simpl in *. apply wrap_s_id; simpl; lia.
Qed.

(** A weighted mean of samples is a sample. *)
Lemma mean_in_range t a b v1 v2 : sample_ok t a -> sample_ok t b -> 0 <= v1 -> 0 <= v2 -> v1 + v2 = 1024 ->
  sample_ok t ((a * v1 + b * v2) / PCM_VOLUME_1).
Proof.
  unfold sample_ok. change PCM_VOLUME_1 with 1024. intros Ha Hb H1 H2 Hs.
  split; [apply Z.div_le_lower_bound; [done|]|apply Z.div_le_upper_bound; [done|]];
    replace v2 with (1024 - v1) in * by lia; clear Hs; nia.
Qed.

Lemma PcmAddVolume1_ok t v1 v2 d ab :
  traits_ok t -> 0 <= v1 -> 0 <= v2 -> v1 + v2 = PCM_VOLUME_1 -> dither_ok 10 d ->
  sample_ok t (fst ab) /\ sample_ok t (snd ab) ->
  exists y d', PcmAddVolume1 t v1 v2 d ab = Some (y, d') /\ dither_ok 10 d' /\
    scaled_near t (fst ab * v1 + snd ab * v2) y.
Proof.
  destruct ab as [a b]; simpl. intros Ht H1 H2 Hs Hd [Ha Hb]. change PCM_VOLUME_1 with 1024 in Hs.
  pose proof (product_bound t a v1 Ht Ha ltac:(lia)) as Hpa. pose proof (product_bound t b v2 Ht Hb ltac:(lia)) as Hpb.
  destruct (long_pow t Ht) as (Hl0 & Hl & Hl1 & Hl2). unfold PcmAddVolume1. simpl.
  pose proof (sample_bound t a Ht Ha). pose proof (sample_bound t b Ht Hb).
  assert (Hsum : - 2 ^ (long_type t - 2) <= a * v1 + b * v2 <= 2 ^ (long_type t - 2)).
  { rewrite <- Hl0. set (B := 2 ^ (long_type t - 17)) in *. change (2 ^ 15) with 32768.
    assert (- (B * v1) <= a * v1 <= B * v1) by (clear - H H1; nia).
    assert (- (B * v2) <= b * v2 <= B * v2) by (clear - H0 H2; nia).
    replace v2 with (1024 - v1) in * by lia. clear - H3 H4 Hl1. lia. }
  rewrite !(sck_Some _ (a * v1)), !(sck_Some _ (b * v2)) by lia. simpl. rewrite sck_Some by lia. simpl.
  destruct (DitherShift_ok t d (a * v1 + b * v2) Ht Hd Hsum) as (y & d' & -> & Hd' & Hr & Hw & Hn & _). simpl.
  rewrite Hw. eexists _, _. split; [done|]. split; [done|]. split; [done|].
  rewrite clipped_id in Hn; [done|]. apply mean_in_range; [done|done|lia|lia|done].
Qed.

(** Saturating addition. *)
Lemma PcmAdd1_ok t a b : traits_ok t -> sample_ok t a -> sample_ok t b ->
  PcmAdd1 t a b = Some (Z.max (MIN t) (Z.min (MAX t) (a + b))).
Proof.
  intros Ht Ha Hb. unfold PcmAdd1.
  rewrite sck_Some by (unfold sample_ok in *; rewrite MIN_pow, MAX_pow in *;
    destruct Ht as [-> | [-> | [-> | ->]]]; simpl in *; lia). simpl. f_equal.
  pose proof (traits_zero t Ht). unfold PcmClamp. destruct (Z.ltb_spec (a + b) (MIN t)); [lia|].
  destruct (Z.ltb_spec (MAX t) (a + b)); [lia|]. rewrite value_fits by (done || unfold sample_ok; lia). lia.
Qed.

(** ** The properties *)

(** C25: Dithering 24 or 32 bit samples to 16 bits: no arithmetic overflows,
    every output is in range and within five steps of the exact quotient, and
    the outputs never drift away: however long the signal, while it keeps
    clear of the ends of the range, the sum of the outputs differs from the
    exact sum by at most 9/4 output steps. *)
Theorem dithering ST src :
  dithered ST -> Forall (sample_ok ST) src ->
  exists ys d', DitherConvert ST Traits_S16 PcmDither_init src = Some (ys, d') /\
    Forall2 (to_16_near (BITS ST - 16)) src ys /\
    (Forall (headroom ST (3 * 2 ^ (BITS ST - 16))) src ->
     4 * Z.abs (Zsum src - Zsum ys * 2 ^ (BITS ST - 16)) <= 9 * 2 ^ (BITS ST - 16)).
Proof.
  intros HS Hs. assert (Hk : 2 <= BITS ST - 16) by (destruct HS as [-> | ->]; done).
  pose proof (dither_init_ok _ Hk) as Hi.
  destruct (DitherConvert_near ST PcmDither_init src HS Hi Hs) as (ys & d' & E & [H0 _ H2] & Hn).
  exists ys, d'. split; [done|]. split; [done|]. intros Hq.
  destruct (DitherConvert_sum ST PcmDither_init src HS Hi Hq) as (? & ? & E' & _ & ->).
  rewrite E in E'. injection E' as <- <-. unfold deferred at 2. simpl. unfold deferred.
  assert (2 ^ (BITS ST - 16) = 4 * 2 ^ (BITS ST - 16 - 2)).
  { replace (BITS ST - 16) with (2 + (BITS ST - 16 - 2)) at 1 by lia. by rewrite pow2_split by lia. }
  lia.
Qed.

Lemma dithering_witness : exists ys d',
  DitherConvert Traits_S24 Traits_S16 PcmDither_init [1000; 2000; -3000; 8000000] = Some (ys, d') /\
  Forall2 (to_16_near 8) [1000; 2000; -3000; 8000000] ys /\ 4 * Z.abs (8000000 - Zsum ys * 256) <= 9 * 256.
Proof.
  destruct (dithering Traits_S24 [1000; 2000; -3000; 8000000]) as (ys & d' & E & Hn & Hd).
  - by left.
  - repeat constructor; by vm_compute.
  - exists ys, d'. split; [exact E|]. split; [exact Hn|].
    apply Hd. repeat constructor; by vm_compute.
Defined.

(** The conversion to 24 bits does not clip: at twice the full volume a 16
    bit sample becomes a value out of the range of 24 bits. *)
Example convert_not_clipped :
  PcmVolumeConvert Traits_S16 Traits_S24 32767 2048 = Some 16776704 /\ MAX Traits_S24 = 8388607.
Proof. done. Qed.
