(* ===== verification/PcmBytes.v ===== *)
(** Samples in memory: the byte order ([util/ByteOrder.hxx]), the casts
    between bytes and samples ([util/SpanCast.hxx]), the binary32 values in
    them, [pcm/Silence.cxx], [pcm/Pack.cxx] and [util/ByteReverse.cxx].

    A buffer is a list of bytes; the copies of the source into a buffer of
    the right size are the lists they leave there. *)
From S2P Require Import Prelude Audio Chrono ArgParser PcmSamples.
From Stdlib Require Import SpecFloat.
From stdpp Require Import list_misc list_numbers.
Open Scope Z_scope.

(** ** Blocks of a list *)

(** The whole blocks of [n] elements; a rest is left out. *)
Definition chunks {A} (n : nat) (l : list A) : list (list A) :=
  reshape (replicate (length l / n) n) l.

(** ** Bytes and words *)

(** The value of bytes, the least significant one first. *)
Definition le_value (s : bytes) : Z := foldr (fun c v => code c + 256 * v) 0 s.

(** The [n] bytes of a value, the least significant one first. *)
Fixpoint le_bytes (n : nat) (v : Z) : bytes :=
  match n with
  | O => []
  | S n' => chr (v mod 256) :: le_bytes n' (v / 256)
  end.

(** The order of the bytes of a word in memory. *)
Class ByteOrder := { IsBigEndian : bool }.

Section Memory.
Context {BO : ByteOrder}.

Definition native (s : bytes) : bytes := if IsBigEndian then reverse s else s.

(** Reading an unsigned or a signed word, and storing a word. *)
Definition word_u (s : bytes) : Z := le_value (native s).
Definition word_s (s : bytes) : Z := wrap_s (8 * Z.of_nat (length s)) (word_u s).
Definition store (n : nat) (v : Z) : bytes := native (le_bytes n v).

(** [FromBytesStrict<T>] for an unsigned and for a signed type of [n]
    bytes, and [std::as_bytes]. *)
Definition FromBytes_u (n : nat) (s : bytes) : list Z := map word_u (chunks n s).
Definition FromBytes (n : nat) (s : bytes) : list Z := map word_s (chunks n s).
Definition as_bytes (n : nat) (l : list Z) : bytes := concat (map (store n) l).

(** ** Pack.cxx *)

Definition pack_sample (src : bytes) : bytes :=
  let src := if IsBigEndian then drop 1 src else src in take 3 src.

(** The samples of [src] are read through their bytes. *)
Definition pcm_pack_24 (src : bytes) : bytes := concat (map pack_sample (chunks 4 src)).

(** The expression has the type [int32_t]: the high byte stays below its
    sign bit. *)
Definition ConstructS24 (low mid high : Z) : Z :=
  Z.lor (Z.lor (Z.lor low (Z.shiftl mid 8)) (Z.shiftl high 16))
    (if Z.land high 0x80 =? 0 then 0 else Z.lnot 0xffffff).

Definition at_byte (s : bytes) (i : nat) : Z := code (nth i s NUL).
Definition ReadS24LE (src : bytes) : Z := ConstructS24 (at_byte src 0) (at_byte src 1) (at_byte src 2).
Definition ReadS24BE (src : bytes) : Z := ConstructS24 (at_byte src 2) (at_byte src 1) (at_byte src 0).
Definition ReadS24 (src : bytes) : Z := if IsBigEndian then ReadS24BE src else ReadS24LE src.
Definition pcm_unpack_24 (src : bytes) : list Z := map ReadS24 (chunks 3 src).
Definition pcm_unpack_24be (src : bytes) : list Z := map ReadS24BE (chunks 3 src).

(** ** ByteReverse.cxx *)

Definition ByteSwap16 (v : Z) : Z := u16 (Z.lor (Z.shiftr v 8) (Z.shiftl v 8)).
Definition ByteSwap32 (v : Z) : Z :=
  Z.lor (Z.lor (Z.lor (Z.shiftr v 24) (Z.land (Z.shiftr v 8) 0x0000ff00))
    (Z.land (u32 (Z.shiftl v 8)) 0x00ff0000)) (u32 (Z.shiftl v 24)).
Definition ByteSwap64 (v : Z) : Z :=
  Z.lor (ByteSwap32 (u32 (Z.shiftr v 32))) (u64 (Z.shiftl (ByteSwap32 (u32 v)) 32)).

Definition reverse_bytes_16 (src : bytes) : bytes := as_bytes 2 (map ByteSwap16 (FromBytes_u 2 src)).
Definition reverse_bytes_32 (src : bytes) : bytes := as_bytes 4 (map ByteSwap32 (FromBytes_u 4 src)).
Definition reverse_bytes_64 (src : bytes) : bytes := as_bytes 8 (map ByteSwap64 (FromBytes_u 8 src)).

(** Copies from the end of [src] backwards. *)
Fixpoint reverse_bytes_linear (src : bytes) (n : nat) : bytes :=
  match n with
  | O => []
  | S n' => nth n' src NUL :: reverse_bytes_linear src n'
  end.

Definition reverse_bytes_generic (src : bytes) (frame_size : nat) : bytes :=
  concat (map (fun s => reverse_bytes_linear s frame_size) (chunks frame_size src)).

Definition reverse_bytes (src : bytes) (frame_size : nat) : bytes :=
  match frame_size with
  | 2%nat => reverse_bytes_16 src
  | 4%nat => reverse_bytes_32 src
  | 8%nat => reverse_bytes_64 src
  | _ => reverse_bytes_generic src frame_size
  end.
End Memory.

(** ** Silence.cxx *)

Definition SILENCE_DSD : byte := chr 0x69.

Definition PcmSilence (size : nat) (format : SampleFormat) : bytes :=
  let pattern := if bool_decide (format = DSD) then SILENCE_DSD else NUL in
  replicate size pattern.

(** ** binary32 *)

(** The value of 32 bits, and the bits of a value; a result that is not a
    number is the quiet one. *)
Definition float_of_bits (n : Z) : float :=
  let s := Z.testbit n 31 in
  let e := Z.land (Z.shiftr n 23) 255 in
  let m := Z.land n (2 ^ 23 - 1) in
  if e =? 0 then match m with Z.pos p => S754_finite s p (-149) | _ => S754_zero s end
  else if e =? 255 then if m =? 0 then S754_infinity s else S754_nan
  else match m + 2 ^ 23 with Z.pos p => S754_finite s p (e - 150) | _ => S754_nan end.

Definition bits_of_float (f : float) : Z :=
  let sign (s : bool) := if s then 2 ^ 31 else 0 in
  match f with
  | S754_zero s => sign s
  | S754_infinity s => sign s + 0x7f800000
  | S754_nan => 0x7fc00000
  | S754_finite s m e =>
      if Z.pos m <? 2 ^ 23 then sign s + Z.pos m
      else sign s + (e + 150) * 2 ^ 23 + (Z.pos m - 2 ^ 23)
  end.

Definition f_add (a b : float) : float := SFadd 24 128 a b.
Definition f_div (a b : float) : float := SFdiv 24 128 a b.

(** ** Blocks *)

(** A list made of whole blocks of [n]. *)
Inductive whole {A} (n : nat) : list A -> Prop :=
| whole_nil : whole n []
| whole_app x l : length x = n -> whole n l -> whole n (x ++ l).

Section Chunks.
Context {A : Type}.
Implicit Types l x : list A.

Lemma chunks_nil n : chunks n (@nil A) = [].
Proof. unfold chunks. simpl. by rewrite Nat.Div0.div_0_l. Qed.

Lemma chunks_short n l : (length l < n)%nat -> chunks n l = [].
Proof. intros H. unfold chunks. by rewrite Nat.div_small. Qed.

Lemma chunks_app n x l : (0 < n)%nat -> length x = n -> chunks n (x ++ l) = x :: chunks n l.
Proof.
  intros Hn Hx. unfold chunks. rewrite length_app, Hx.
  replace (n + length l)%nat with (1 * n + length l)%nat by lia. rewrite Nat.div_add_l by lia. simpl.
  rewrite take_app_length', drop_app_length' by done. done.
Qed.

Lemma whole_of_length n k l : length l = (k * n)%nat -> whole n l.
Proof.
  revert l. induction k as [|k IH]; intros l Hl; simpl in Hl; [destruct l; [constructor|done]|].
  rewrite <- (take_drop n l). constructor; [rewrite length_take; lia|]. apply IH. rewrite length_drop. lia.
Qed.

Lemma whole_length n l : whole n l -> length l = (length (chunks n l) * n)%nat.
Proof.
  destruct (decide (n = 0)%nat) as [->|Hn].
  - intros H. assert (l = []) as ->; [|by rewrite chunks_nil].
    induction H as [|x l Hx _ ->]; [done|]. by destruct x.
  - induction 1 as [|x l Hx H IH]; [by rewrite chunks_nil|].
    rewrite chunks_app, length_app, IH by lia. simpl. lia.
Qed.

Lemma whole_Forall (P : list A -> Prop) n l :
  (0 < n)%nat -> (forall x, length x = n -> P x) -> whole n l -> Forall P (chunks n l).
Proof.
  intros Hn HP. induction 1 as [|x l Hx H IH]; [by rewrite chunks_nil|]. rewrite chunks_app by done. auto.
Qed.

Lemma concat_chunks n l : (0 < n)%nat -> whole n l -> concat (chunks n l) = l.
Proof.
  intros Hn. induction 1 as [|x l Hx H IH]; [by rewrite chunks_nil|]. rewrite chunks_app by done. simpl. by rewrite IH.
Qed.

Lemma chunks_app_whole n l1 l2 : (0 < n)%nat -> whole n l1 -> chunks n (l1 ++ l2) = chunks n l1 ++ chunks n l2.
Proof.
  intros Hn. induction 1 as [|x l Hx H IH]; [by rewrite chunks_nil|].
  by rewrite <- (assoc_L (++)), !(chunks_app n x), IH by done.
Qed.

Lemma whole_app_whole n l1 l2 : whole n l1 -> whole n l2 -> whole n (l1 ++ l2).
Proof. intros H H2. induction H as [|x l Hx H IH]; [done|]. rewrite <- (assoc_L (++)). by constructor. Qed.

Lemma whole_mul n k l : whole (k * n) l -> whole n l.
Proof.
  induction 1 as [|x l Hx H IH]; [constructor|]. apply whole_app_whole; [|done]. by apply (whole_of_length n k).
Qed.

(** The blocks of blocks of equal size. *)
Lemma chunks_concat n (ls : list (list A)) : (0 < n)%nat -> Forall (fun x => length x = n) ls -> chunks n (concat ls) = ls.
Proof.
  intros Hn. induction 1 as [|x ls Hx H IH]; [by rewrite chunks_nil|]. simpl. by rewrite chunks_app, IH.
Qed.

Lemma whole_concat n (ls : list (list A)) : Forall (fun x => length x = n) ls -> whole n (concat ls).
Proof. induction 1; simpl; by constructor. Qed.
End Chunks.

(** ** Words *)

Lemma le_value_range s : 0 <= le_value s < 256 ^ Z.of_nat (length s).
Proof.
  induction s as [|c s IH]; cbn [le_value foldr length]; [lia|]. fold (le_value s).
  rewrite Nat2Z.inj_succ, Z.pow_succ_r by lia. pose proof (code_range c). lia.
Qed.

Lemma length_le_bytes n v : length (le_bytes n v) = n.
Proof. revert v. induction n; intros; simpl; auto. Qed.

Lemma le_value_bytes n v : le_value (le_bytes n v) = v mod 256 ^ Z.of_nat n.
Proof.
  revert v. induction n as [|n IH]; intros v; [by rewrite Z.mod_1_r|]. cbn [le_value le_bytes foldr].
  fold (le_value (le_bytes n (v / 256))). rewrite IH, code_chr by (apply Z.mod_pos_bound; lia).
  rewrite Nat2Z.inj_succ, Z.pow_succ_r, Z.rem_mul_r by lia. done.
Qed.

Lemma le_bytes_value s : le_bytes (length s) (le_value s) = s.
Proof.
  induction s as [|c s IH]; [done|]. cbn [le_value le_bytes foldr length]. fold (le_value s).
  pose proof (code_range c) as Hc. rewrite (Z.add_comm (code c)), Z.mul_comm, Z.div_add_l by lia.
  rewrite (Z.div_small (code c)), Z.add_0_r, IH by lia. f_equal.
  rewrite Z.add_comm, Z.mod_add, Z.mod_small by lia. by rewrite chr_code.
Qed.

Lemma le_bytes_mod n v : le_bytes n (v mod 256 ^ Z.of_nat n) = le_bytes n v.
Proof. rewrite <- le_value_bytes. rewrite <- (length_le_bytes n v) at 1. apply le_bytes_value. Qed.

Lemma pow_256 n : 256 ^ Z.of_nat n = 2 ^ (8 * Z.of_nat n).
Proof. by rewrite Z.pow_mul_r by lia. Qed.

Section MemoryLemmas.
Context {BO : ByteOrder}.

Lemma native_native s : native (native s) = s.
Proof. unfold native. destruct IsBigEndian; [apply reverse_involutive|done]. Qed.

Lemma length_native s : length (native s) = length s.
Proof. unfold native. destruct IsBigEndian; [apply length_reverse|done]. Qed.

Lemma length_store n v : length (store n v) = n.
Proof. unfold store. by rewrite length_native, length_le_bytes. Qed.

Lemma store_word_u s : store (length s) (word_u s) = s.
Proof. unfold store, word_u. rewrite <- (length_native s), le_bytes_value. apply native_native. Qed.

Lemma word_u_store n v : 0 <= v < 256 ^ Z.of_nat n -> word_u (store n v) = v.
Proof. intros. unfold store, word_u. rewrite native_native, le_value_bytes. by apply Z.mod_small. Qed.

Lemma store_wrap_s n v : (0 < n)%nat -> store n (wrap_s (8 * Z.of_nat n) v) = store n v.
Proof.
  intros Hn. unfold store. rewrite <- (le_bytes_mod n (wrap_s _ _)), <- (le_bytes_mod n v). do 2 f_equal.
  rewrite pow_256. unfold wrap_s. rewrite Zminus_mod_idemp_l. f_equal. lia.
Qed.

Lemma store_word_s s : (0 < length s)%nat -> store (length s) (word_s s) = s.
Proof. intros. unfold word_s. rewrite store_wrap_s by done. apply store_word_u. Qed.

Lemma word_s_store n v : (0 < n)%nat -> fits_s (8 * Z.of_nat n) v = true -> word_s (store n v) = v.
Proof.
  unfold fits_s. intros Hn [H1 H2]%andb_true_iff. apply Z.leb_le in H1. apply Z.ltb_lt in H2.
  unfold word_s, word_u, store. rewrite native_native, length_native, length_le_bytes, le_value_bytes, pow_256.
  unfold wrap_s. rewrite Zplus_mod_idemp_l.
  assert (2 ^ (8 * Z.of_nat n) = 2 * 2 ^ (8 * Z.of_nat n - 1)).
  { rewrite <- Z.pow_succ_r by lia. f_equal. lia. }
  rewrite Z.mod_small; lia.
Qed.

Lemma length_as_bytes n l : length (as_bytes n l) = (n * length l)%nat.
Proof. induction l; unfold as_bytes; simpl; [lia|]. rewrite length_app, length_store. unfold as_bytes in IHl. rewrite IHl. lia. Qed.

Lemma as_bytes_app n l1 l2 : as_bytes n (l1 ++ l2) = as_bytes n l1 ++ as_bytes n l2.
Proof. unfold as_bytes. by rewrite map_app, concat_app. Qed.

Lemma whole_as_bytes n l : whole n (as_bytes n l).
Proof. apply whole_concat. induction l; constructor; [apply length_store|done]. Qed.

Lemma chunks_as_bytes n l : (0 < n)%nat -> chunks n (as_bytes n l) = map (store n) l.
Proof. intros. apply chunks_concat; [done|]. induction l; constructor; [apply length_store|done]. Qed.

Lemma FromBytes_as_bytes n l : (0 < n)%nat -> Forall (fun v => fits_s (8 * Z.of_nat n) v = true) l ->
  FromBytes n (as_bytes n l) = l.
Proof.
  intros Hn Hl. unfold FromBytes. rewrite chunks_as_bytes, map_map by done.
  induction Hl as [|v l Hv H IH]; [done|]. simpl. by rewrite word_s_store, IH.
Qed.

Lemma as_bytes_FromBytes n s : (0 < n)%nat -> whole n s -> as_bytes n (FromBytes n s) = s.
Proof.
  intros Hn. unfold as_bytes, FromBytes. induction 1 as [|x l Hx H IH]; [by rewrite chunks_nil|].
  rewrite chunks_app by done. simpl. rewrite IH. f_equal. subst n. by apply store_word_s.
Qed.

Lemma length_FromBytes n s : length (FromBytes n s) = length (chunks n s).
Proof. apply length_map. Qed.

Lemma FromBytes_app n s1 s2 : (0 < n)%nat -> whole n s1 -> FromBytes n (s1 ++ s2) = FromBytes n s1 ++ FromBytes n s2.
Proof. intros. unfold FromBytes. by rewrite chunks_app_whole, map_app. Qed.
End MemoryLemmas.
