(* ===== verification/PcmEffects.v ===== *)
(** Software volume and mixing of whole buffers: the class [PcmVolume]
    ([pcm/Volume.hxx], [pcm/Volume.cxx]) and [pcm_mix] ([pcm/Mix.cxx]).

    [None] is undefined behaviour: a signed overflow or the statement
    [std::unreachable]. *)
From S2P Require Import Prelude Text Audio Chrono ArgParser PcmSamples PcmSpec PcmBytes.
From Stdlib Require Import SpecFloat.
Open Scope Z_scope.

(** ** Volume.hxx *)

Definition pcm_volume_to_float (volume : Z) : float := f_div (f_of_Z volume) (f_of_Z PCM_VOLUME_1).

(** [int(f)], as the x86-64 instruction converts. *)
Definition pcm_float_to_volume (volume : float) : Z :=
  d_to_s32 (f_add (f_mul volume (f_of_Z PCM_VOLUME_1)) (S754_finite false 8388608 (-24))).

Record PcmVolume := mkPcmVolume { pv_format : SampleFormat; pv_convert : bool; pv_volume : Z; pv_dither : PcmDither }.

Definition PcmVolume_init : PcmVolume := mkPcmVolume UNDEFINED false PCM_VOLUME_1 PcmDither_init.
Definition SetVolume (volume : Z) (p : PcmVolume) : PcmVolume :=
  mkPcmVolume (pv_format p) (pv_convert p) volume (pv_dither p).
Definition set_dither (d : PcmDither) (p : PcmVolume) : PcmVolume :=
  mkPcmVolume (pv_format p) (pv_convert p) (pv_volume p) d.

(** [Open]: the format of the output, or the exception, and the object. *)
Definition PcmVolume_Open (f : SampleFormat) (allow_convert : bool) (p : PcmVolume) : result SampleFormat * PcmVolume :=
  let opened convert := mkPcmVolume f convert (pv_volume p) (pv_dither p) in
  match f with
  | UNDEFINED =>
      (Throw (lit "Software volume for ? is not implemented"),
       mkPcmVolume (pv_format p) false (pv_volume p) (pv_dither p))
  | S16 => if allow_convert then (Ok S24_P32, opened true) else (Ok f, opened false)
  | S8 | S24_P32 | S32 | FLOAT | DSD => (Ok f, opened false)
  end.

Section Effects.
Context {BO : ByteOrder}.

(** ** Volume.cxx *)

(** The size of a sample in memory. *)
Definition sample_bytes (t : SampleTraits) : nat := Z.to_nat (value_type t / 8).

(** [pcm_volume_change_8], [_16], [_24] and [_32] on the buffers. *)
Definition volume_change_bytes (t : SampleTraits) (volume : Z) (p : PcmVolume) (src : bytes) : option (bytes * PcmVolume) :=
  '(dest, d) ← pcm_volume_change t volume (pv_dither p) (FromBytes (sample_bytes t) src);
  Some (as_bytes (sample_bytes t) dest, set_dither d p).

Definition pcm_volume_change_float (src : bytes) (volume : float) : bytes :=
  as_bytes 4 (map (fun x => bits_of_float (f_mul (float_of_bits x) volume)) (FromBytes_u 4 src)).

(** The argument [int volume] of the sample functions is converted from
    [unsigned]. *)
Definition PcmVolume_Apply (src : bytes) (p : PcmVolume) : option (bytes * PcmVolume) :=
  if (pv_volume p =? PCM_VOLUME_1) && negb (pv_convert p) then Some (src, p)
  else
    let dest_size := if pv_convert p then (2 * length src)%nat else length src in
    if pv_volume p =? 0 then Some (PcmSilence dest_size (pv_format p), p)
    else
      let volume := s32 (pv_volume p) in
      match pv_format p with
      | UNDEFINED => None
      | S8 => volume_change_bytes Traits_S8 volume p src
      | S16 =>
          if pv_convert p then
            dest ← PcmVolumeChange16to32 volume (FromBytes 2 src);
            Some (as_bytes 4 dest, p)
          else volume_change_bytes Traits_S16 volume p src
      | S24_P32 => volume_change_bytes Traits_S24 volume p src
      | S32 => volume_change_bytes Traits_S32 volume p src
      | FLOAT => Some (pcm_volume_change_float src (pcm_volume_to_float volume), p)
      | DSD => Some (src, p)
      end.

(** *** A life of the object *)

Inductive VolumeCall := CallSetVolume (volume : Z) | CallApply (src : bytes).

(** The buffers that the calls return. *)
Fixpoint volume_calls (cs : list VolumeCall) (p : PcmVolume) : option (list bytes) :=
  match cs with
  | [] => Some []
  | CallSetVolume v :: cs => volume_calls cs (SetVolume v p)
  | CallApply src :: cs =>
      '(dest, p') ← PcmVolume_Apply src p;
      dests ← volume_calls cs p';
      Some (dest :: dests)
  end.

(** ** Mix.cxx *)

Definition PcmAddVolumeVoid (t : SampleTraits) (d : PcmDither) (a b : bytes) (volume1 volume2 : Z)
  : option (bytes * PcmDither) :=
  '(dest, d') ← PcmAddVolume t volume1 volume2 d (FromBytes (sample_bytes t) a) (FromBytes (sample_bytes t) b);
  Some (as_bytes (sample_bytes t) dest, d').

Definition zip_float (f : float -> float -> float) (a b : bytes) : bytes :=
  as_bytes 4 (map (fun ab => bits_of_float (f (float_of_bits (fst ab)) (float_of_bits (snd ab))))
                (zip (FromBytes_u 4 a) (FromBytes_u 4 b))).

Definition pcm_add_vol_float (buffer1 buffer2 : bytes) (volume1 volume2 : float) : bytes :=
  zip_float (fun x y => f_add (f_mul x volume1) (f_mul y volume2)) buffer1 buffer2.

(** The boolean result, what is left in [buffer1], and the dither. *)
Definition pcm_add_vol (d : PcmDither) (buffer1 buffer2 : bytes) (vol1 vol2 : Z) (f : SampleFormat)
  : option (bool * bytes * PcmDither) :=
  let integer t := '(dest, d') ← PcmAddVolumeVoid t d buffer1 buffer2 vol1 vol2; Some (true, dest, d') in
  match f with
  | UNDEFINED | DSD => Some (false, buffer1, d)
  | S8 => integer Traits_S8
  | S16 => integer Traits_S16
  | S24_P32 => integer Traits_S24
  | S32 => integer Traits_S32
  | FLOAT => Some (true, pcm_add_vol_float buffer1 buffer2 (pcm_volume_to_float vol1) (pcm_volume_to_float vol2), d)
  end.

Definition PcmAddVoid (t : SampleTraits) (a b : bytes) : option bytes :=
  dest ← PcmAdd t (FromBytes (sample_bytes t) a) (FromBytes (sample_bytes t) b);
  Some (as_bytes (sample_bytes t) dest).

Definition pcm_add_float (buffer1 buffer2 : bytes) : bytes := zip_float f_add buffer1 buffer2.

Definition pcm_add (buffer1 buffer2 : bytes) (f : SampleFormat) : option (bool * bytes) :=
  let integer t := dest ← PcmAddVoid t buffer1 buffer2; Some (true, dest) in
  match f with
  | UNDEFINED | DSD => Some (false, buffer1)
  | S8 => integer Traits_S8
  | S16 => integer Traits_S16
  | S24_P32 => integer Traits_S24
  | S32 => integer Traits_S32
  | FLOAT => Some (true, pcm_add_float buffer1 buffer2)
  end.

(** [std::sin] of the C++ library, for [float]. *)
Context (sinf : float -> float).

(** [(float)M_PI_2] *)
Definition M_PI_2 : float := S754_finite false 13176795 (-23).

(** [lround]: to nearest, halfway away from zero.  Where the value does not
    fit a [long] the result is the one of the x86-64 instruction. *)
Definition lround (f : float) : Z :=
  let v := match f with
    | S754_zero _ => Some 0
    | S754_finite s m e =>
        let v := if 0 <=? e then Z.pos m * 2 ^ e else (Z.pos m + 2 ^ (- e - 1)) / 2 ^ (- e) in
        Some (if s then - v else v)
    | S754_infinity _ | S754_nan => None
    end in
  match v with
  | Some v => if fits_s 64 v then v else - 2 ^ 63
  | None => - 2 ^ 63
  end.

(** [util/Clamp.hxx] *)
Definition Clamp (value min max : Z) : Z := if value <? min then min else if max <? value then max else value.

(** The share of the first buffer. *)
Definition mix_volume (portion1 : float) : Z :=
  let s := sinf (f_mul M_PI_2 portion1) in
  let s := f_mul s s in
  Clamp (s32 (lround (f_mul s (f_of_Z PCM_VOLUME_1)))) 0 PCM_VOLUME_1.

Definition pcm_mix (d : PcmDither) (buffer1 buffer2 : bytes) (f : SampleFormat) (portion1 : float)
  : option (bool * bytes * PcmDither) :=
  if f_negative portion1 then
    '(r, dest) ← pcm_add buffer1 buffer2 f; Some (r, dest, d)
  else
    let vol1 := mix_volume portion1 in
    pcm_add_vol d buffer1 buffer2 vol1 (PCM_VOLUME_1 - vol1) f.
End Effects.

(** ** Buffers of samples *)

Section EffectLemmas.
Context {BO : ByteOrder}.

(** A buffer of whole samples within the range of their format. *)
Definition buffer_ok (t : SampleTraits) (s : bytes) : Prop :=
  whole (sample_bytes t) s /\ Forall (sample_ok t) (FromBytes (sample_bytes t) s).

Lemma sample_bytes_pos t : traits_ok t -> (0 < sample_bytes t)%nat.
Proof. intros [-> | [-> | [-> | ->]]]; vm_compute; lia. Qed.

Lemma sample_width t : traits_ok t -> 8 * Z.of_nat (sample_bytes t) = value_type t.
Proof. by intros [-> | [-> | [-> | ->]]]. Qed.

Lemma sample_fits t x : traits_ok t -> sample_ok t x -> fits_s (8 * Z.of_nat (sample_bytes t)) x = true.
Proof.
  intros Ht. rewrite (sample_width t Ht). unfold sample_ok, fits_s. rewrite MIN_pow, MAX_pow.
  intros Hx. apply andb_true_iff. rewrite Z.leb_le, Z.ltb_lt.
  destruct Ht as [-> | [-> | [-> | ->]]]; simpl in *; lia.
Qed.

(** Samples of the format survive being stored. *)
Lemma stored_samples t l : traits_ok t -> Forall (sample_ok t) l ->
  FromBytes (sample_bytes t) (as_bytes (sample_bytes t) l) = l.
Proof.
  intros Ht Hl. apply FromBytes_as_bytes; [by apply sample_bytes_pos|].
  eapply Forall_impl; [exact Hl|]. intros x. by apply sample_fits.
Qed.

Lemma whole_size t s : traits_ok t -> whole (sample_bytes t) s ->
  length s = (sample_bytes t * length (FromBytes (sample_bytes t) s))%nat.
Proof. intros Ht Hw. rewrite length_FromBytes, (whole_length _ _ Hw) at 1. lia. Qed.

Lemma Forall2_right {A B} (P : B -> Prop) (R : A -> B -> Prop) l k :
  (forall x y, R x y -> P y) -> Forall2 R l k -> Forall P k.
Proof. intros HP. induction 1; constructor; eauto. Qed.

(** Silence is the zero of every integer format. *)
Lemma word_s_zero n : (0 < n)%nat -> word_s (replicate n NUL) = 0.
Proof.
  intros Hn. assert (E : le_value (replicate n NUL) = 0).
  { clear Hn. induction n as [|n IH]; [done|]. cbn [replicate le_value foldr]. fold (le_value (replicate n NUL)). by rewrite IH. }
  pose proof (Z.pow_pos_nonneg 2 (8 * Z.of_nat n - 1) ltac:(lia) ltac:(lia)). unfold word_s, word_u, native.
  destruct IsBigEndian; rewrite ?reverse_replicate, E, length_replicate; apply wrap_s_id; lia.
Qed.

Lemma chunks_replicate {A} n k (x : A) : (0 < n)%nat -> chunks n (replicate (k * n) x) = replicate k (replicate n x).
Proof.
  intros Hn. induction k as [|k IH]; simpl; [apply chunks_nil|].
  rewrite replicate_add, chunks_app, IH by (done || apply length_replicate); done.
Qed.

Lemma silent_samples n k F : (0 < n)%nat -> F <> DSD -> FromBytes n (PcmSilence (k * n) F) = replicate k 0.
Proof.
  intros Hn HF. unfold PcmSilence. rewrite bool_decide_false by done. unfold FromBytes.
  rewrite chunks_replicate by done. induction k as [|k IH]; [done|]. simpl. rewrite word_s_zero, IH by done. done.
Qed.

(** *** PcmVolume *)

(** What the object keeps: the errors of the dither, and a volume that the
    arithmetic can take. *)
Record pv_ok (p : PcmVolume) : Prop := {
  pvo_dither : dither_ok 10 (pv_dither p);
  pvo_volume : 0 <= pv_volume p <= 2 ^ 15 }.

Lemma volume_change_bytes_ok t p src :
  traits_ok t -> pv_ok p -> buffer_ok t src ->
  exists dest p', volume_change_bytes t (pv_volume p) p src = Some (dest, p') /\ pv_ok p' /\
    (exists d, p' = set_dither d p) /\ length dest = length src /\ buffer_ok t dest /\
    Forall2 (volume_near t (pv_volume p)) (FromBytes (sample_bytes t) src) (FromBytes (sample_bytes t) dest).
Proof.
  intros Ht [Hd Hv] [Hw Hs]. unfold volume_change_bytes.
  destruct (pcm_volume_change_ok t (pv_volume p) (pv_dither p) _ Ht Hv Hd Hs) as (ys & d' & -> & Hd' & Hys). simpl.
  assert (Hr : Forall (sample_ok t) ys) by (eapply Forall2_right; [|exact Hys]; by intros ?? []).
  eexists _, _. split; [done|]. split; [by split|]. split; [eauto|]. unfold buffer_ok.
  rewrite (stored_samples t ys Ht Hr). split; [|split; [split; [apply whole_as_bytes|done]|done]].
  rewrite length_as_bytes, (whole_size t src Ht Hw). by rewrite (Forall2_length _ _ _ Hys).
Qed.

(** Full volume and silence are near as well. *)
Lemma full_volume_near t x : traits_ok t -> sample_ok t x -> volume_near t PCM_VOLUME_1 x x.
Proof. intros Ht Hx. split; [done|]. rewrite Z.div_mul, clipped_id by done. lia. Qed.

Lemma zero_volume_near t x : traits_ok t -> volume_near t 0 x 0.
Proof. intros Ht. split; [by apply traits_zero|]. rewrite Z.mul_0_r, clipped_id by (by apply traits_zero). done. Qed.

Lemma Forall2_diag {A} (P : A -> Prop) (R : A -> A -> Prop) l : (forall x, P x -> R x x) -> Forall P l -> Forall2 R l l.
Proof. intros HP. induction 1; constructor; auto. Qed.

(** [Apply] without a conversion: the dither is the only change of the
    object, and every sample of the output is near. *)
Lemma Apply_same F t p src :
  IntegerSampleTraits F = Some t -> pv_format p = F -> pv_convert p = false -> pv_ok p -> buffer_ok t src ->
  exists dest p', PcmVolume_Apply src p = Some (dest, p') /\ pv_ok p' /\ (exists d, p' = set_dither d p) /\
    length dest = length src /\ buffer_ok t dest /\
    Forall2 (volume_near t (pv_volume p)) (FromBytes (sample_bytes t) src) (FromBytes (sample_bytes t) dest).
Proof.
  intros HF Hf Hc Hp Hb. pose proof (IntegerSampleTraits_ok F t HF) as Ht. unfold PcmVolume_Apply. rewrite Hc.
  assert (Hsame : exists d, p = set_dither d p) by (exists (pv_dither p); by destruct p).
  destruct (Z.eqb_spec (pv_volume p) PCM_VOLUME_1) as [E|_]; simpl.
  { exists src, p. split; [done|]. split; [done|]. split; [done|]. split; [done|]. split; [done|].
    rewrite E. eapply Forall2_diag; [|apply Hb]. intros x. by apply full_volume_near. }
  destruct (Z.eqb_spec (pv_volume p) 0) as [E|_].
  { rewrite Hf. exists (PcmSilence (length src) F), p. split; [done|]. split; [done|]. split; [done|].
    assert (HD : F <> DSD) by (by intros ->).
    assert (Hl : length src = (length (FromBytes (sample_bytes t) src) * sample_bytes t)%nat)
      by (rewrite (whole_size t src Ht) by apply Hb; lia).
    split; [unfold PcmSilence; apply length_replicate|]. unfold buffer_ok.
    rewrite Hl, silent_samples by (done || by apply sample_bytes_pos). split; [split|].
    - eapply whole_of_length. unfold PcmSilence. by rewrite length_replicate.
    - apply Forall_replicate. by apply traits_zero.
    - rewrite E. clear - Ht. induction (FromBytes (sample_bytes t) src); simpl; constructor; [by apply zero_volume_near|done]. }
  pose proof (volume_change_bytes_ok t p src Ht Hp Hb) as H.
  assert (E32 : s32 (pv_volume p) = pv_volume p) by (destruct Hp; apply s32_id; lia).
  rewrite E32, Hf. by destruct F; try done; injection HF as <-.
Qed.

(** The conversion to 24 bits is exact. *)
Lemma Apply_convert p src :
  pv_format p = S16 -> pv_convert p = true -> pv_ok p -> buffer_ok Traits_S16 src ->
  exists dest, PcmVolume_Apply src p = Some (dest, p) /\
    FromBytes 4 dest = map (fun x => x * pv_volume p / 4) (FromBytes 2 src) /\
    (pv_volume p <= PCM_VOLUME_1 -> buffer_ok Traits_S24 dest).
Proof.
  intros Hf Hc Hp [Hw Hs]. change (sample_bytes Traits_S16) with 2%nat in *. pose proof (pvo_volume p Hp) as Hv.
  assert (Hr : pv_volume p <= PCM_VOLUME_1 -> Forall (sample_ok Traits_S24) (map (fun x => x * pv_volume p / 4) (FromBytes 2 src))).
  { intros Hv1. apply Forall_map. eapply Forall_impl; [exact Hs|]. intros x Hx. unfold sample_ok in *. simpl.
    change PCM_VOLUME_1 with 1024 in Hv1. change (MIN Traits_S16) with (-32768) in Hx. change (MAX Traits_S16) with 32767 in Hx.
    change (MIN Traits_S24) with (-8388608). change (MAX Traits_S24) with 8388607.
    pose proof (Z.div_mod (x * pv_volume p) 4). pose proof (Z.mod_pos_bound (x * pv_volume p) 4). nia. }
  assert (Hst : Forall (fun v => fits_s 32 v = true) (map (fun x => x * pv_volume p / 4) (FromBytes 2 src))).
  { apply Forall_map. eapply Forall_impl; [exact Hs|]. intros x Hx. unfold sample_ok in Hx.
    change (MIN Traits_S16) with (-32768) in Hx. change (MAX Traits_S16) with 32767 in Hx. simpl.
    apply andb_true_iff. rewrite Z.leb_le, Z.ltb_lt. change (2 ^ (32 - 1)) with 2147483648. change (2 ^ 15) with 32768 in Hv.
    pose proof (Z.div_mod (x * pv_volume p) 4). pose proof (Z.mod_pos_bound (x * pv_volume p) 4). nia. }
  unfold PcmVolume_Apply. rewrite Hc, andb_false_r, Hf.
  destruct (Z.eqb_spec (pv_volume p) 0) as [E|_].
  - assert (Hl : length src = (length (FromBytes 2 src) * 2)%nat)
      by (rewrite (whole_size Traits_S16 src) by (done || (unfold traits_ok; tauto)); change (sample_bytes Traits_S16) with 2%nat; lia).
    assert (HE : FromBytes 4 (PcmSilence (2 * length src) S16) = map (fun x => x * pv_volume p / 4) (FromBytes 2 src)).
    { rewrite Hl. replace (2 * (length (FromBytes 2 src) * 2))%nat with (length (FromBytes 2 src) * 4)%nat by lia.
      rewrite silent_samples, E by (done || lia). clear. induction (FromBytes 2 src) as [|x l IH]; [done|]. simpl.
      rewrite IH. by rewrite Z.mul_0_r. }
    eexists. split; [done|]. split; [done|]. intros Hv1. split; change (sample_bytes Traits_S24) with 4%nat; [|rewrite HE; auto].
    apply (whole_of_length 4 (length (FromBytes 2 src))). unfold PcmSilence. rewrite length_replicate. lia.
  - rewrite s32_id by lia. unfold PcmVolumeChange16to32.
    assert (E : mapM (fun x => PcmVolumeConvert Traits_S16 Traits_S24 x (pv_volume p)) (FromBytes 2 src) =
      Some (map (fun x => x * pv_volume p / 4) (FromBytes 2 src))).
    { apply mapM_Some. clear - Hs Hv. induction Hs; simpl; constructor; [by apply PcmVolumeConvert_ok|done]. }
    rewrite E. simpl. eexists. split; [done|]. rewrite FromBytes_as_bytes by (done || lia). split; [done|].
    intros Hv1. split; change (sample_bytes Traits_S24) with 4%nat; [apply whole_as_bytes|].
    rewrite FromBytes_as_bytes by (done || lia). auto.
Qed.

(** What a buffer becomes at a volume. *)
Definition applied (t : SampleTraits) (convert : bool) (v : Z) (src dest : bytes) : Prop :=
  if convert then
    FromBytes 4 dest = map (fun x => x * v / 4) (FromBytes 2 src) /\ buffer_ok Traits_S24 dest
  else
    length dest = length src /\ buffer_ok t dest /\
    Forall2 (volume_near t v) (FromBytes (sample_bytes t) src) (FromBytes (sample_bytes t) dest).

(** The outputs of the calls, each at the volume that was set last. *)
Inductive outputs (t : SampleTraits) (convert : bool) : Z -> list VolumeCall -> list bytes -> Prop :=
| outputs_nil v : outputs t convert v [] []
| outputs_set v v' cs ds : outputs t convert v' cs ds -> outputs t convert v (CallSetVolume v' :: cs) ds
| outputs_apply v src dest cs ds :
    applied t convert v src dest -> outputs t convert v cs ds ->
    outputs t convert v (CallApply src :: cs) (dest :: ds).

(** The volumes that the arithmetic can take: 32 times the full one, or the
    full one if the samples are converted to 24 bits, which does not clip. *)
Definition volume_ok (convert : bool) (v : Z) : Prop := 0 <= v <= if convert then PCM_VOLUME_1 else 2 ^ 15.

Definition call_ok (t : SampleTraits) (convert : bool) (c : VolumeCall) : Prop :=
  match c with CallSetVolume v => volume_ok convert v | CallApply src => buffer_ok t src end.

Lemma volume_ok_any convert v : volume_ok convert v -> 0 <= v <= 2 ^ 15.
Proof. unfold volume_ok. change PCM_VOLUME_1 with 1024. change (2 ^ 15) with 32768. destruct convert; lia. Qed.

Lemma volume_calls_ok F t cs p :
  IntegerSampleTraits F = Some t -> pv_format p = F -> (pv_convert p = true -> F = S16) ->
  dither_ok 10 (pv_dither p) -> volume_ok (pv_convert p) (pv_volume p) -> Forall (call_ok t (pv_convert p)) cs ->
  exists ds, volume_calls cs p = Some ds /\ outputs t (pv_convert p) (pv_volume p) cs ds.
Proof.
  intros HF Hf Hc Hd Hv Hcs. remember (pv_convert p) as c eqn:Ec. revert p Ec Hf Hd Hv.
  induction Hcs as [|[v|src] cs Hcall Hcs IH]; intros p -> Hf Hd Hv; simpl; [eexists; split; [done|constructor]| |].
  - destruct (IH (SetVolume v p)) as (ds & -> & Ho); [done..|].
    eexists. split; [done|]. by constructor.
  - assert (Hp : pv_ok p) by (split; [done|by apply volume_ok_any in Hv]).
    destruct (pv_convert p) eqn:E.
    + assert (F = S16) as -> by auto. injection HF as <-.
      destruct (Apply_convert p src Hf E Hp Hcall) as (dest & -> & H1 & H2). simpl.
      destruct (IH p) as (ds & -> & Ho); [done..|]. simpl.
      eexists. split; [done|]. constructor; [|done]. split; [done|]. apply H2, Hv.
    + destruct (Apply_same F t p src HF Hf E Hp Hcall) as (dest & p' & -> & [Hd' _] & [d ->] & H1 & H2 & H3). simpl.
      destruct (IH (set_dither d p)) as (ds & -> & Ho); [done..|].
      simpl in *. eexists. split; [done|]. by constructor.
Qed.

(** *** pcm_mix *)

Lemma Clamp_max_min v lo hi : lo <= hi -> Clamp v lo hi = Z.max lo (Z.min hi v).
Proof. intros. unfold Clamp. destruct (Z.ltb_spec v lo); [lia|]. destruct (Z.ltb_spec hi v); lia. Qed.

Lemma Forall_zip {A B} (P : A -> Prop) (Q : B -> Prop) l k :
  Forall P l -> Forall Q k -> Forall (fun ab => P (fst ab) /\ Q (snd ab)) (zip l k).
Proof. intros Hl. revert k. induction Hl; intros k Hk; destruct Hk; constructor; auto. Qed.

Lemma same_count t a b : traits_ok t -> whole (sample_bytes t) a -> whole (sample_bytes t) b -> length a = length b ->
  length (FromBytes (sample_bytes t) a) = length (FromBytes (sample_bytes t) b).
Proof.
  intros Ht Ha Hb Hl. pose proof (whole_size t a Ht Ha). pose proof (whole_size t b Ht Hb).
  pose proof (sample_bytes_pos t Ht). nia.
Qed.

Definition saturated (t : SampleTraits) (ab : Z * Z) : Z := Z.max (MIN t) (Z.min (MAX t) (fst ab + snd ab)).

Section MixBuffers.
Context (t : SampleTraits) (a b : bytes).
Context (Ht : traits_ok t) (Ha : buffer_ok t a) (Hb : buffer_ok t b) (Hl : length a = length b).
Let samples := zip (FromBytes (sample_bytes t) a) (FromBytes (sample_bytes t) b).

Lemma mixed_buffer ys : length ys = length samples -> Forall (sample_ok t) ys ->
  length (as_bytes (sample_bytes t) ys) = length a /\ buffer_ok t (as_bytes (sample_bytes t) ys).
Proof.
  intros Hy Hr. unfold samples in Hy. rewrite length_zip in Hy. destruct Ha as [Hwa _], Hb as [Hwb _].
  pose proof (same_count t a b Ht Hwa Hwb Hl). split.
  - rewrite length_as_bytes, Hy, (whole_size t a Ht Hwa). lia.
  - split; [apply whole_as_bytes|]. by rewrite stored_samples.
Qed.

Lemma samples_range : Forall (fun ab => sample_ok t (fst ab) /\ sample_ok t (snd ab)) samples.
Proof. apply Forall_zip; [apply Ha|apply Hb]. Qed.

Lemma PcmAddVoid_ok : exists dest, PcmAddVoid t a b = Some dest /\ length dest = length a /\ buffer_ok t dest /\
  FromBytes (sample_bytes t) dest = map (saturated t) samples.
Proof.
  assert (Hr : Forall (sample_ok t) (map (saturated t) samples)).
  { apply Forall_map. eapply Forall_impl; [exact samples_range|]. intros [x y] [Hx Hy]. pose proof (traits_zero t Ht).
    unfold sample_ok, saturated in *. simpl in *. lia. }
  unfold PcmAddVoid, PcmAdd. fold samples.
  assert (E : mapM (fun ab => PcmAdd1 t (fst ab) (snd ab)) samples = Some (map (saturated t) samples)).
  { apply mapM_Some. generalize samples_range. clear - Ht.
    induction 1 as [|ab l [Hx Hy] Hs IH]; simpl; constructor; [by apply PcmAdd1_ok|done]. }
  rewrite E. simpl. eexists. split; [done|].
  destruct (mixed_buffer (map (saturated t) samples)) as [H1 H2]; [apply length_map|done|].
  split; [done|]. split; [done|]. by apply stored_samples.
Qed.

Lemma PcmAddVolumeVoid_ok d v1 v2 : dither_ok 10 d -> 0 <= v1 -> 0 <= v2 -> v1 + v2 = PCM_VOLUME_1 ->
  exists dest d', PcmAddVolumeVoid t d a b v1 v2 = Some (dest, d') /\ dither_ok 10 d' /\
    length dest = length a /\ buffer_ok t dest /\
    Forall2 (fun ab => scaled_near t (fst ab * v1 + snd ab * v2)) samples (FromBytes (sample_bytes t) dest).
Proof.
  intros Hd H1 H2 Hs. unfold PcmAddVolumeVoid, PcmAddVolume. fold samples.
  destruct (transform_n_related (dither_ok 10) (fun ab => sample_ok t (fst ab) /\ sample_ok t (snd ab))
    (fun ab => scaled_near t (fst ab * v1 + snd ab * v2)) (PcmAddVolume1 t v1 v2)) with (src := samples) (s := d)
    as (ys & d' & -> & Hd' & Hys); [intros; by apply PcmAddVolume1_ok|done|exact samples_range|]. simpl.
  assert (Hr : Forall (sample_ok t) ys) by (eapply Forall2_right; [|exact Hys]; by intros ?? []).
  destruct (mixed_buffer ys) as [H3 H4]; [by apply Forall2_length in Hys|done|].
  eexists _, _. split; [done|]. split; [done|]. split; [done|]. split; [done|]. by rewrite stored_samples.
Qed.
End MixBuffers.
End EffectLemmas.


(** C27: Mixing two buffers of equal size and of an integer format never
    overflows and gives samples in range: the saturated sums if the portion
    is negative; otherwise, for a cross-fade, samples within five of the mean
    weighted with the square of the sine, rounded and clamped to 0 .. 1024,
    for the first buffer and the rest for the second, whatever the library's
    sine returns. *)
Theorem pcm_mix_spec {BO : ByteOrder} (sinf : float -> float) F t d a b portion1 :
  IntegerSampleTraits F = Some t -> dither_ok 10 d -> buffer_ok t a -> buffer_ok t b -> length a = length b ->
  exists dest d', pcm_mix sinf d a b F portion1 = Some (true, dest, d') /\ dither_ok 10 d' /\
    length dest = length a /\ buffer_ok t dest /\
    (if f_negative portion1 then
       d' = d /\ FromBytes (sample_bytes t) dest =
         map (saturated t) (zip (FromBytes (sample_bytes t) a) (FromBytes (sample_bytes t) b))
     else
       let s := sinf (f_mul M_PI_2 portion1) in
       let v := Z.max 0 (Z.min 1024 (s32 (lround (f_mul (f_mul s s) (f_of_Z 1024))))) in
       Forall2 (fun ab => scaled_near t (fst ab * v + snd ab * (1024 - v)))
         (zip (FromBytes (sample_bytes t) a) (FromBytes (sample_bytes t) b)) (FromBytes (sample_bytes t) dest)).
Proof.
  intros HF Hd Ha Hb Hl. pose proof (IntegerSampleTraits_ok F t HF) as Ht. unfold pcm_mix.
  destruct (f_negative portion1).
  - destruct (PcmAddVoid_ok t a b Ht Ha Hb Hl) as (dest & E & H1 & H2 & H3). exists dest, d.
    split; [|eauto 10]. destruct F; try done; injection HF as <-; unfold pcm_add; by rewrite E.
  - unfold mix_volume. cbv zeta. rewrite Clamp_max_min by done. set (v := Z.max 0 _).
    assert (Hv : 0 <= v <= 1024) by (unfold v; change PCM_VOLUME_1 with 1024; lia).
    destruct (PcmAddVolumeVoid_ok t a b Ht Ha Hb Hl d v (PCM_VOLUME_1 - v))
      as (dest & d' & E & H1 & H2 & H3 & H4); [done|lia|change PCM_VOLUME_1 with 1024; lia|lia|]. exists dest, d'. split; [|eauto 10].
    destruct F; try done; injection HF as <-; unfold pcm_add_vol; by rewrite E.
Qed.


Lemma pcm_mix_spec_witness :
  let le := {| IsBigEndian := false |} in
  let a := map chr [255; 127; 0; 128] in
  let b := map chr [232; 3; 24; 252] in
  exists dest d', @pcm_mix le (fun x => x) PcmDither_init a b S16 (f_of_Z (-1)) = Some (true, dest, d') /\
    dither_ok 10 d' /\ length dest = 4%nat /\ @buffer_ok le Traits_S16 dest /\
    (d' = PcmDither_init /\ @FromBytes le 2 dest = [32767; -32768]).
Proof.
  intros le a b.
  destruct (@pcm_mix_spec le (fun x => x) S16 Traits_S16 PcmDither_init a b (f_of_Z (-1))) as (dest & d' & H1 & H2 & H3 & H4 & H5).
  - reflexivity.
  - apply dither_init_ok. lia.
  - split; [apply (whole_of_length 2 2); reflexivity|]. repeat apply Forall_cons_2; try apply Forall_nil_2; by vm_compute.
  - split; [apply (whole_of_length 2 2); reflexivity|]. repeat apply Forall_cons_2; try apply Forall_nil_2; by vm_compute.
  - reflexivity.
  - exists dest, d'. split; [exact H1|]. split; [exact H2|]. split; [exact H3|]. split; [exact H4|]. exact H5.
Defined.
