(* ===== verification/PcmExport.v ===== *)
(** From the samples of MPD to those of a device: the channel order of ALSA
    ([pcm/Order.cxx]), the packing of DSD bits into words
    ([pcm/RestBuffer.hxx], [pcm/Dsd16.cxx], [pcm/Dsd32.cxx],
    [pcm/Dop.cxx]) and the class [PcmExport] ([pcm/Export.hxx],
    [pcm/Export.cxx]), which composes them with packing, shifting and byte
    reversal.

    Built with [ENABLE_DSD].  A pointer into a buffer is the rest of the
    buffer from there. *)
From S2P Require Import Prelude Audio PcmSamples PcmBytes.
Open Scope Z_scope.

(** ** RestBuffer.hxx *)

(** [PcmRestBuffer<std::byte, n_frames>]: the [size] bytes that are valid in
    [data], and the capacity. *)
Record PcmRestBuffer := mkRest { rb_data : bytes; rb_capacity : nat }.

Definition rb_Open (n_frames channels : nat) : PcmRestBuffer := mkRest [] (n_frames * channels).
Definition rb_Reset (rb : PcmRestBuffer) : PcmRestBuffer := mkRest [] (rb_capacity rb).

(** The completed block or nothing, and what is left of [src]. *)
Definition rb_Complete (rb : PcmRestBuffer) (src : bytes) : bytes * bytes * PcmRestBuffer :=
  match rb_data rb with
  | [] => ([], src, rb)
  | _ =>
      let missing := (rb_capacity rb - length (rb_data rb))%nat in
      let n := Nat.min missing (length src) in
      let data := rb_data rb ++ take n src in
      let src := drop n src in
      if (length data <? rb_capacity rb)%nat then ([], src, mkRest data (rb_capacity rb))
      else (data, src, mkRest [] (rb_capacity rb))
  end.

Definition rb_Append (rb : PcmRestBuffer) (src : bytes) : PcmRestBuffer :=
  mkRest (rb_data rb ++ src) (rb_capacity rb).

(** [Process]: [f src n] is what the function writes for [n] blocks. *)
Definition rb_Process {U} (f : bytes -> nat -> list U) (rb : PcmRestBuffer) (src : bytes) : list U * PcmRestBuffer :=
  let '(previous_rest, src, rb) := rb_Complete rb src in
  let src_blocks := (length src / rb_capacity rb)%nat in
  let next_rest_samples := (length src mod rb_capacity rb)%nat in
  let dest0 := match previous_rest with [] => [] | _ => f previous_rest 1%nat end in
  let dest := dest0 ++ f src src_blocks in
  let rb := if (0 <? next_rest_samples)%nat
            then rb_Append rb (take next_rest_samples (drop (src_blocks * rb_capacity rb) src)) else rb in
  (dest, rb).

(** ** Dsd16.cxx, Dsd32.cxx, Dop.cxx *)

(** The loop over the channels, which moves [src] on by one each time. *)
Fixpoint each_channel {U} (sample : bytes -> U) (c : nat) (src : bytes) : list U * bytes :=
  match c with
  | O => ([], src)
  | S c' => let '(l, rest) := each_channel sample c' (drop 1 src) in (sample src :: l, rest)
  end.

Definition Construct16 (a b : Z) : Z := Z.lor b (Z.shiftl a 8).

Definition Dsd8To16Sample (channels : nat) (src : bytes) : Z :=
  Construct16 (at_byte src 0) (at_byte src channels).

Fixpoint Dsd8To16 (channels : nat) (src : bytes) (out_frames : nat) : list Z :=
  match out_frames with
  | O => []
  | S n => let '(l, src) := each_channel (Dsd8To16Sample channels) channels src in
           l ++ Dsd8To16 channels (drop channels src) n
  end.

Definition Construct32 (a b c d : Z) : Z :=
  Z.lor (Z.lor (Z.lor d (Z.shiftl c 8)) (Z.shiftl b 16)) (Z.shiftl a 24).

Definition Dsd8To32Sample (channels : nat) (src : bytes) : Z :=
  Construct32 (at_byte src 0) (at_byte src channels) (at_byte src (2 * channels)) (at_byte src (3 * channels)).

Fixpoint Dsd8To32 (channels : nat) (src : bytes) (out_frames : nat) : list Z :=
  match out_frames with
  | O => []
  | S n => let '(l, src) := each_channel (Dsd8To32Sample channels) channels src in
           l ++ Dsd8To32 channels (drop (3 * channels) src) n
  end.

Definition pcm_two_dsd_to_dop_marker1 (a b : Z) : Z := Z.lor (Z.lor 0xff050000 (Z.shiftl a 8)) b.
Definition pcm_two_dsd_to_dop_marker2 (a b : Z) : Z := Z.lor (Z.lor 0xfffa0000 (Z.shiftl a 8)) b.

Fixpoint DsdToDop (channels : nat) (src : bytes) (num_dop_quads : nat) : list Z :=
  match num_dop_quads with
  | O => []
  | S n =>
      let '(l1, src) := each_channel (fun s => pcm_two_dsd_to_dop_marker1 (at_byte s 0) (at_byte s channels)) channels src in
      let src := drop channels src in
      let '(l2, src) := each_channel (fun s => pcm_two_dsd_to_dop_marker2 (at_byte s 0) (at_byte s channels)) channels src in
      let src := drop channels src in
      l1 ++ l2 ++ DsdToDop channels src n
  end.

(** The three converters differ in the size of a block and the function. *)
Record DsdConverter := mkDsd { dsd_channels : nat; rest_buffer : PcmRestBuffer }.

Definition Dsd16Converter_Open (channels : nat) : DsdConverter := mkDsd channels (rb_Open 2 channels).
Definition Dsd32Converter_Open (channels : nat) : DsdConverter := mkDsd channels (rb_Open 4 channels).
Definition DsdToDopConverter_Open (channels : nat) : DsdConverter := mkDsd channels (rb_Open 4 channels).
Definition Dsd_Reset (c : DsdConverter) : DsdConverter := mkDsd (dsd_channels c) (rb_Reset (rest_buffer c)).
Definition Dsd_GetInputBlockSize (c : DsdConverter) : nat := rb_capacity (rest_buffer c).
Definition Dop_GetOutputBlockSize (c : DsdConverter) : nat := 2 * Dsd_GetInputBlockSize c.

Definition Dsd_Convert (f : nat -> bytes -> nat -> list Z) (c : DsdConverter) (src : bytes) : list Z * DsdConverter :=
  let '(dest, rb) := rb_Process (f (dsd_channels c)) (rest_buffer c) src in (dest, mkDsd (dsd_channels c) rb).
Definition Dsd16Converter_Convert := Dsd_Convert Dsd8To16.
Definition Dsd32Converter_Convert := Dsd_Convert Dsd8To32.
Definition DsdToDopConverter_Convert := Dsd_Convert DsdToDop.

(** ** Order.cxx *)

(** The samples written so far, and those ahead. *)
Record TwoPointers := mkTwo { tp_dest : list Z; tp_src : list Z }.

Definition put (l : list Z) (n : nat) (p : TwoPointers) : TwoPointers := mkTwo (tp_dest p ++ l) (drop n (tp_src p)).
Definition src_at (p : TwoPointers) (i : nat) : Z := nth i (tp_src p) 0.

Definition CopyOne (p : TwoPointers) : TwoPointers := put [src_at p 0] 1 p.
Definition CopyTwo (p : TwoPointers) : TwoPointers := CopyOne (CopyOne p).
Definition SwapTwoPairs (p : TwoPointers) : TwoPointers :=
  put [src_at p 2; src_at p 3; src_at p 0; src_at p 1] 4 p.
Definition ToAlsa50 (p : TwoPointers) : TwoPointers :=
  put [src_at p 0; src_at p 1; src_at p 3; src_at p 4; src_at p 2] 5 p.
Definition ToAlsa51 (p : TwoPointers) : TwoPointers := SwapTwoPairs (CopyTwo p).
Definition ToAlsa70 (p : TwoPointers) : TwoPointers :=
  put [src_at p 0; src_at p 1; src_at p 5; src_at p 6; src_at p 2; src_at p 3; src_at p 4] 7 p.
Definition ToAlsa71 (p : TwoPointers) : TwoPointers := CopyTwo (ToAlsa51 p).

(** The loop over [n] frames and the buffer it fills. *)
Definition frames_loop (step : TwoPointers -> TwoPointers) (n : nat) (src : list Z) : list Z :=
  tp_dest (Nat.iter n step (mkTwo [] src)).

Definition ToAlsaChannelOrder50 (src : list Z) : list Z := frames_loop ToAlsa50 (length src / 5) src.
Definition ToAlsaChannelOrder51 (src : list Z) : list Z := frames_loop ToAlsa51 (length src / 6) src.
Definition ToAlsaChannelOrder70 (src : list Z) : list Z := frames_loop ToAlsa70 (length src / 7) src.
Definition ToAlsaChannelOrder71 (src : list Z) : list Z := frames_loop ToAlsa71 (length src / 8) src.

Definition ToAlsaChannelOrderT (src : list Z) (channels : Z) : list Z :=
  if channels =? 5 then ToAlsaChannelOrder50 src
  else if channels =? 6 then ToAlsaChannelOrder51 src
  else if channels =? 7 then ToAlsaChannelOrder70 src
  else if channels =? 8 then ToAlsaChannelOrder71 src
  else src.

(** ** Export.hxx *)

Inductive DsdMode := NONE | U16 | U32 | DOP.

#[export] Instance DsdMode_eq_dec : EqDecision DsdMode.
Proof. solve_decision. Defined.

Record Params := mkParams {
  par_alsa_channel_order : bool; par_dsd_mode : DsdMode; par_shift8 : bool; par_pack24 : bool; par_reverse_endian : bool }.

Record PcmExport := mkExport {
  dsd16_converter : DsdConverter; dsd32_converter : DsdConverter; dop_converter : DsdConverter;
  silence_buffer : bytes; src_sample_format : SampleFormat; ex_channels : Z;
  alsa_channel_order : bool; dsd_mode : DsdMode; shift8 : bool; pack24 : bool; reverse_endian : nat }.

(** [uint8_t channels] *)
Definition channel_count (e : PcmExport) : nat := Z.to_nat (ex_channels e).

Definition CalcOutputSampleRate (p : Params) (sample_rate : Z) : Z :=
  match par_dsd_mode p with
  | NONE => sample_rate
  | U16 => sample_rate / 2
  | U32 => sample_rate / 4
  | DOP => sample_rate / 2
  end.

Definition CalcInputSampleRate (p : Params) (sample_rate : Z) : Z :=
  match par_dsd_mode p with
  | NONE => sample_rate
  | U16 => u32 (sample_rate * 2)
  | U32 => u32 (sample_rate * 4)
  | DOP => u32 (sample_rate * 2)
  end.

Definition GetInputFrameSize (e : PcmExport) : nat :=
  (channel_count e * Z.to_nat (sample_format_size (src_sample_format e)))%nat.

Definition GetOutputFrameSize (e : PcmExport) : nat :=
  (if pack24 e then channel_count e * 3
   else match dsd_mode e with
        | NONE => GetInputFrameSize e
        | U16 => channel_count e * 2
        | U32 => channel_count e * 4
        | DOP => channel_count e * 4
        end)%nat.

Definition GetInputBlockSize (e : PcmExport) : nat :=
  match dsd_mode e with
  | NONE => GetInputFrameSize e
  | U16 => Dsd_GetInputBlockSize (dsd16_converter e)
  | U32 => Dsd_GetInputBlockSize (dsd32_converter e)
  | DOP => Dsd_GetInputBlockSize (dop_converter e)
  end.

Definition GetOutputBlockSize (e : PcmExport) : nat :=
  match dsd_mode e with
  | NONE => GetOutputFrameSize e
  | U16 => Dsd_GetInputBlockSize (dsd16_converter e)
  | U32 => Dsd_GetInputBlockSize (dsd32_converter e)
  | DOP => Dop_GetOutputBlockSize (dop_converter e)
  end.

Definition IsDopEnabled (e : PcmExport) : bool := negb (bool_decide (dsd_mode e = NONE)).
Definition GetSilence (e : PcmExport) : bytes := silence_buffer e.

Definition CalcInputSize (e : PcmExport) (size : nat) : nat :=
  let size := (if pack24 e then size / 3 * 4 else size)%nat in
  match dsd_mode e with NONE | U16 | U32 => size | DOP => (size / 2)%nat end.

Definition set_converters (d16 d32 dop : DsdConverter) (e : PcmExport) : PcmExport :=
  mkExport d16 d32 dop (silence_buffer e) (src_sample_format e) (ex_channels e) (alsa_channel_order e)
    (dsd_mode e) (shift8 e) (pack24 e) (reverse_endian e).
Definition set_silence (s : bytes) (e : PcmExport) : PcmExport :=
  mkExport (dsd16_converter e) (dsd32_converter e) (dop_converter e) s (src_sample_format e) (ex_channels e)
    (alsa_channel_order e) (dsd_mode e) (shift8 e) (pack24 e) (reverse_endian e).

(** ** Export.cxx *)

Definition PcmExport_Reset (e : PcmExport) : PcmExport :=
  let '(d16, d32, dop) := (dsd16_converter e, dsd32_converter e, dop_converter e) in
  match dsd_mode e with
  | NONE => e
  | U16 => set_converters (Dsd_Reset d16) d32 dop e
  | U32 => set_converters d16 (Dsd_Reset d32) dop e
  | DOP => set_converters d16 d32 (Dsd_Reset dop) e
  end.

Section Exporting.
Context {BO : ByteOrder}.

Definition ToAlsaChannelOrder (src : bytes) (f : SampleFormat) (channels : Z) : bytes :=
  match f with
  | UNDEFINED | S8 | DSD => src
  | S16 => as_bytes 2 (ToAlsaChannelOrderT (FromBytes 2 src) channels)
  | S24_P32 | S32 | FLOAT => as_bytes 4 (ToAlsaChannelOrderT (FromBytes 4 src) channels)
  end.

(** The steps of [Export]. *)
Definition export_order (e : PcmExport) (data : bytes) : bytes :=
  if alsa_channel_order e then ToAlsaChannelOrder data (src_sample_format e) (ex_channels e) else data.

Definition export_dsd (e : PcmExport) (data : bytes) : bytes * PcmExport :=
  let '(d16, d32, dop) := (dsd16_converter e, dsd32_converter e, dop_converter e) in
  match dsd_mode e with
  | NONE => (data, e)
  | U16 => let '(l, c) := Dsd16Converter_Convert d16 data in (as_bytes 2 l, set_converters c d32 dop e)
  | U32 => let '(l, c) := Dsd32Converter_Convert d32 data in (as_bytes 4 l, set_converters d16 c dop e)
  | DOP => let '(l, c) := DsdToDopConverter_Convert dop data in (as_bytes 4 l, set_converters d16 d32 c e)
  end.

Definition export_pack (e : PcmExport) (data : bytes) : bytes :=
  if pack24 e then pcm_pack_24 data
  else if shift8 e then as_bytes 4 (map (fun i => u32 (Z.shiftl i 8)) (FromBytes 4 data))
  else data.

Definition export_reverse (e : PcmExport) (data : bytes) : bytes :=
  if (0 <? reverse_endian e)%nat then reverse_bytes data (reverse_endian e) else data.

Definition Export (e : PcmExport) (data : bytes) : bytes * PcmExport :=
  let data := export_order e data in
  let '(data, e) := export_dsd e data in
  (export_reverse e (export_pack e data), e).

(** The first part of [Open]: the options.  The object before it gives only
    the converters that the mode does not open. *)
Definition Open_options (sample_format : SampleFormat) (channels : Z) (params : Params) (e : PcmExport) : PcmExport :=
  let mode := if bool_decide (sample_format = DSD) then par_dsd_mode params else NONE in
  let n := Z.to_nat channels in
  let '(d16, d32, dop) := (dsd16_converter e, dsd32_converter e, dop_converter e) in
  let '(d16, d32, dop, fake_format) :=
    match mode with
    | NONE => (d16, d32, dop, sample_format)
    | U16 => (Dsd16Converter_Open n, d32, dop, S16)
    | U32 => (d16, Dsd32Converter_Open n, dop, S32)
    | DOP => (d16, d32, DsdToDopConverter_Open n, S24_P32)
    end in
  let is24 := bool_decide (fake_format = S24_P32) in
  let shift8 := par_shift8 params && is24 in
  let pack24 := par_pack24 params && is24 in
  let reverse_endian :=
    if par_reverse_endian params then
      let sample_size := if pack24 then 3%nat else Z.to_nat (sample_format_size fake_format) in
      if (1 <? sample_size)%nat then sample_size else 0%nat
    else 0%nat in
  mkExport d16 d32 dop (silence_buffer e) sample_format (u8 channels) (par_alsa_channel_order params)
    mode shift8 pack24 reverse_endian.

(** The second part of [Open]: a moment of silence, in a buffer of the size
    of [silence_buffer]. *)
Definition Open_silence (e : PcmExport) : option PcmExport :=
  if negb (GetInputBlockSize e <? 64)%nat then None
  else
    let '(s, e) := Export e (PcmSilence (GetInputBlockSize e) (src_sample_format e)) in
    if negb (length s <? 64)%nat then None else Some (set_silence s e).

(** [Open]; [None] if one of its assertions fails. *)
Definition PcmExport_Open (sample_format : SampleFormat) (channels : Z) (params : Params) (e : PcmExport)
  : option PcmExport :=
  if negb (audio_valid_sample_format sample_format) then None
  else if bool_decide (par_dsd_mode params = DOP) && negb (audio_valid_channel_count channels) then None
  else
    let e := Open_options sample_format channels params e in
    if shift8 e && pack24 e then None else Open_silence e.
End Exporting.
