(* ===== verification/PcmWords.v ===== *)
(** The words a device gets, as arithmetic: what the bit operations of
    [pcm/Pack.cxx], [util/ByteReverse.cxx], [util/ByteOrder.hxx] and of the
    DSD converters do to the value and to the bytes of a word. *)
From S2P Require Import Prelude Audio PcmSamples PcmSpec PcmBytes PcmExport PcmExportSpec.
Open Scope Z_scope.

(** ** Bit fields *)

(** Disjoint fields add up. *)
Lemma lor_add x y k : 0 <= k -> 0 <= x < 2 ^ k -> Z.lor x (y * 2 ^ k) = x + y * 2 ^ k.
Proof.
  intros Hk Hx. rewrite Z.add_nocarry_lxor, Z.lxor_lor; [done| |]; apply Z.bits_inj'; intros i Hi;
    rewrite Z.land_spec, Z.bits_0, Z.mul_pow2_bits by done; destruct (Z.ltb_spec i k) as [H|H];
    try (rewrite (Z.testbit_neg_r y) by lia; by rewrite andb_false_r).
  all: rewrite <- (Z.mod_small x (2 ^ k)) by done; by rewrite Z.mod_pow2_bits_high by lia.
Qed.

Lemma shiftl_mul x k : 0 <= k -> Z.shiftl x k = x * 2 ^ k.
Proof. apply Z.shiftl_mul_pow2. Qed.

(** A mask of one byte. *)
Lemma land_byte x k : 0 <= k -> Z.land x (255 * 2 ^ k) = (x / 2 ^ k) mod 256 * 2 ^ k.
Proof.
  intros Hk. change 256 with (2 ^ 8). rewrite <- (Z.land_ones _ 8) by done. change (Z.ones 8) with 255.
  apply Z.bits_inj'. intros i Hi. rewrite Z.land_spec, !Z.mul_pow2_bits by done.
  destruct (Z.ltb_spec i k); [rewrite !(Z.testbit_neg_r _ (i - k)) by lia; by rewrite andb_false_r|].
  rewrite Z.land_spec, Z.div_pow2_bits by lia. by replace (i - k + k) with i by lia.
Qed.

Lemma ByteSwap16_value a b : 0 <= a < 256 -> 0 <= b < 256 -> ByteSwap16 (a + 256 * b) = b + 256 * a.
Proof.
  intros Ha Hb. unfold ByteSwap16, u16, wrap_u. rewrite shiftl_mul, Z.shiftr_div_pow2 by done.
  replace ((a + 256 * b) / 2 ^ 8) with b by (change (2 ^ 8) with 256; Z.div_mod_to_equations; lia).
  rewrite lor_add by lia. change (2 ^ 8) with 256. change (2 ^ 16) with 65536. Z.div_mod_to_equations. lia.
Qed.

Lemma ByteSwap32_value a b c d : 0 <= a < 256 -> 0 <= b < 256 -> 0 <= c < 256 -> 0 <= d < 256 ->
  ByteSwap32 (a + 256 * (b + 256 * (c + 256 * d))) = d + 256 * (c + 256 * (b + 256 * a)).
Proof.
  intros Ha Hb Hc Hd. unfold ByteSwap32, u32, wrap_u. rewrite !shiftl_mul, !Z.shiftr_div_pow2 by done.
  change 0x0000ff00 with (255 * 2 ^ 8). change 0x00ff0000 with (255 * 2 ^ 16). rewrite !land_byte by done.
  set (v := a + 256 * (b + 256 * (c + 256 * d))).
  assert (E1 : v / 2 ^ 24 = d) by (unfold v; change (2 ^ 24) with 16777216; Z.div_mod_to_equations; lia).
  assert (E2 : (v / 2 ^ 8 / 2 ^ 8) mod 256 = c)
    by (rewrite Z.div_div by done; unfold v; change (2 ^ 8 * 2 ^ 8) with 65536; Z.div_mod_to_equations; lia).
  assert (E3 : ((v * 2 ^ 8) mod 2 ^ 32 / 2 ^ 16) mod 256 = b).
  { replace ((v * 2 ^ 8) mod 2 ^ 32) with (256 * (a + 256 * (b + 256 * c))); [change (2 ^ 16) with 65536; Z.div_mod_to_equations; lia|].
    unfold v. change (2 ^ 8) with 256. change (2 ^ 32) with 4294967296. Z.div_mod_to_equations. lia. }
  assert (E4 : (v * 2 ^ 24) mod 2 ^ 32 = a * 2 ^ 24)
    by (unfold v; change (2 ^ 24) with 16777216; change (2 ^ 32) with 4294967296; Z.div_mod_to_equations; lia).
  rewrite E1, E2, E3, E4. rewrite (lor_add d c 8), (lor_add _ b 16), (lor_add _ a 24); change (2 ^ 8) with 256; change (2 ^ 16) with 65536; change (2 ^ 24) with 16777216; lia.
Qed.

Lemma le_value_cons c s : le_value (c :: s) = code c + 256 * le_value s.
Proof. done. Qed.

Lemma ByteSwap16_bytes s : length s = 2%nat -> ByteSwap16 (le_value s) = le_value (reverse s).
Proof.
  destruct s as [|a [|b [|]]]; try done. intros _. rewrite !le_value_cons. change (le_value []) with 0.
  change (reverse [a; b]) with [b; a]. rewrite !le_value_cons. change (le_value []) with 0.
  rewrite !Z.mul_0_r, !Z.add_0_r. apply ByteSwap16_value; apply code_range.
Qed.

Lemma ByteSwap32_bytes s : length s = 4%nat -> ByteSwap32 (le_value s) = le_value (reverse s).
Proof.
  destruct s as [|a [|b [|c [|d [|]]]]]; try done. intros _. change (reverse [a; b; c; d]) with [d; c; b; a].
  rewrite !le_value_cons. change (le_value []) with 0. rewrite !Z.mul_0_r, !Z.add_0_r.
  apply ByteSwap32_value; apply code_range.
Qed.

Lemma le_value_app s t : le_value (s ++ t) = le_value s + 256 ^ Z.of_nat (length s) * le_value t.
Proof.
  induction s as [|c s IH]; [simpl; change (le_value []) with 0; lia|]. change ((c :: s) ++ t) with (c :: s ++ t).
  rewrite !le_value_cons, IH. cbn [length]. rewrite Nat2Z.inj_succ, Z.pow_succ_r by lia. lia.
Qed.

Lemma ByteSwap64_bytes s : length s = 8%nat -> ByteSwap64 (le_value s) = le_value (reverse s).
Proof.
  intros Hs. rewrite <- (take_drop 4 s). set (x := take 4 s). set (y := drop 4 s).
  assert (Hx : length x = 4%nat) by (unfold x; rewrite length_take; lia).
  assert (Hy : length y = 4%nat) by (unfold y; rewrite length_drop; lia).
  pose proof (le_value_range x) as Rx. pose proof (le_value_range y) as Ry. rewrite Hx in Rx. rewrite Hy in Ry.
  change (256 ^ Z.of_nat 4) with (2 ^ 32) in *.
  rewrite reverse_app, !le_value_app, length_reverse, Hx, Hy. change (256 ^ Z.of_nat 4) with (2 ^ 32).
  pose proof (le_value_range (reverse x)) as Rx'. pose proof (le_value_range (reverse y)) as Ry'.
  rewrite length_reverse, Hx in Rx'. rewrite length_reverse, Hy in Ry'. change (256 ^ Z.of_nat 4) with (2 ^ 32) in *.
  unfold ByteSwap64, u64, wrap_u. rewrite !shiftl_mul, Z.shiftr_div_pow2 by done.
  assert (E1 : (le_value x + 2 ^ 32 * le_value y) / 2 ^ 32 = le_value y).
  { rewrite Z.mul_comm, Z.div_add, Z.div_small by lia. lia. }
  assert (E2 : u32 (le_value x + 2 ^ 32 * le_value y) = le_value x).
  { unfold u32, wrap_u. rewrite Z.mul_comm, Z.mod_add, Z.mod_small by lia. done. }
  rewrite E1, E2, u32_id, !ByteSwap32_bytes by (done || lia).
  rewrite Z.mod_small, lor_add by lia. lia.
Qed.

(** ** Words in memory *)

Section Memory.
Context {BO : ByteOrder}.

Lemma native_reverse s : native (reverse s) = reverse (native s).
Proof. unfold native. by destruct IsBigEndian. Qed.

(** Swapping the value reverses the bytes. *)
Lemma store_swapped n (swap : Z -> Z) x :
  (forall s, length s = n -> swap (le_value s) = le_value (reverse s)) ->
  length x = n -> store n (swap (word_u x)) = reverse x.
Proof.
  intros Hs Hx. unfold store, word_u. rewrite Hs by (by rewrite length_native).
  replace n with (length (reverse (native x))) by (by rewrite length_reverse, length_native).
  by rewrite le_bytes_value, native_reverse, native_native.
Qed.

Lemma reverse_linear s : reverse_bytes_linear s (length s) = reverse s.
Proof.
  assert (H : forall n, (n <= length s)%nat -> reverse_bytes_linear s n = reverse (take n s)); [|rewrite H, firstn_all; done].
  induction n as [|n IH]; intros Hn; [done|]. cbn [reverse_bytes_linear]. rewrite IH by lia.
  destruct (lookup_lt_is_Some_2 s n) as [c Hc]; [lia|].
  by rewrite (take_S_r _ _ c), reverse_app, (nth_lookup_Some s n NUL c).
Qed.

(** [reverse_bytes], whose cases swap words or copy bytes, reverses every
    frame. *)
Lemma reverse_bytes_frames s n : (0 < n)%nat -> whole n s -> reverse_bytes s n = concat (map reverse (chunks n s)).
Proof.
  intros Hn Hw.
  assert (G : reverse_bytes_generic s n = concat (map reverse (chunks n s))).
  { unfold reverse_bytes_generic. f_equal. apply map_ext_Forall. apply whole_Forall; [done| |done].
    intros x <-. apply reverse_linear. }
  assert (S : forall swap, (forall t, length t = n -> swap (le_value t) = le_value (reverse t)) ->
    as_bytes n (map swap (FromBytes_u n s)) = concat (map reverse (chunks n s))).
  { intros swap Hs. rewrite as_bytes_map_u. f_equal. apply map_ext_Forall. apply whole_Forall; [done| |done].
    intros x Hx. by apply store_swapped. }
  do 9 (destruct n as [|n]; [first [lia|exact G|apply (S ByteSwap16), ByteSwap16_bytes|apply (S ByteSwap32), ByteSwap32_bytes|
    apply (S ByteSwap64), ByteSwap64_bytes]|]). exact G.
Qed.

(** *** Packing *)

Lemma le_bytes_take k n v : (k <= n)%nat -> take k (le_bytes n v) = le_bytes k v.
Proof.
  revert n v. induction k as [|k IH]; intros n v Hk; [done|]. destruct n as [|n]; [lia|]. simpl. by rewrite IH by lia.
Qed.

Lemma reverse_drop {A} (l : list A) k : reverse (take k (reverse l)) = drop (length l - k) l.
Proof.
  destruct (decide (k <= length l)%nat) as [H|H].
  - rewrite <- (take_drop (length l - k) l) at 1. rewrite reverse_app, take_app_length'.
    + apply reverse_involutive.
    + rewrite length_reverse, length_drop. lia.
  - rewrite take_ge by (rewrite length_reverse; lia). replace (length l - k)%nat with 0%nat by lia. apply reverse_involutive.
Qed.

Lemma pack_store v : pack_sample (store 4 v) = store 3 v.
Proof.
  unfold pack_sample, store, native. destruct IsBigEndian; [|by rewrite le_bytes_take by lia].
  rewrite <- (le_bytes_take 3 4) by lia. pose proof (reverse_drop (reverse (le_bytes 4 v)) 3) as H.
  rewrite reverse_involutive, length_reverse, length_le_bytes in H. rewrite H.
  rewrite take_ge; [done|]. rewrite length_drop, length_reverse, length_le_bytes. lia.
Qed.

Lemma store_congr n a b : a mod 256 ^ Z.of_nat n = b mod 256 ^ Z.of_nat n -> store n a = store n b.
Proof. intros H. unfold store. by rewrite <- (le_bytes_mod n a), H, le_bytes_mod. Qed.

Lemma word_s_mod s : word_s s mod 256 ^ Z.of_nat (length s) = word_u s mod 256 ^ Z.of_nat (length s).
Proof.
  rewrite pow_256. unfold word_s, wrap_s. rewrite Zminus_mod_idemp_l. f_equal. lia.
Qed.

Lemma word_u_store_mod n v : word_u (store n v) = v mod 256 ^ Z.of_nat n.
Proof. unfold word_u, store. by rewrite native_native, le_value_bytes. Qed.

Lemma shift_store v : store 4 (u32 (Z.shiftl (word_s (store 4 v)) 8)) = store 4 (v * 256).
Proof.
  rewrite shiftl_mul by done. apply store_congr. change (256 ^ Z.of_nat 4) with (2 ^ 32). unfold u32, wrap_u.
  rewrite Z.mod_mod by done. change (2 ^ 8) with 256. rewrite Z.mul_mod, (Z.mul_mod v) by done. f_equal. f_equal.
  pose proof (word_s_mod (store 4 v)) as H. rewrite length_store, word_u_store_mod in H.
  change (256 ^ Z.of_nat 4) with (2 ^ 32) in H. by rewrite H, Z.mod_mod.
Qed.

(** Unpacking gives the samples back. *)
Lemma sign_byte c : (Z.land (code c) 0x80 =? 0) = (code c <? 128).
Proof. all_bytes c. Qed.

Lemma ConstructS24_value a b c : ConstructS24 (code a) (code b) (code c) = wrap_s 24 (le_value [a; b; c]).
Proof.
  pose proof (code_range a). pose proof (code_range b). pose proof (code_range c).
  unfold ConstructS24. rewrite sign_byte, !shiftl_mul by done.
  rewrite (lor_add (code a) (code b) 8), (lor_add _ (code c) 16) by (change (2 ^ 8) with 256; change (2 ^ 16) with 65536; lia).
  rewrite !le_value_cons. change (le_value []) with 0. change (2 ^ 8) with 256. change (2 ^ 16) with 65536.
  unfold wrap_s. change (2 ^ (24 - 1)) with 8388608. change (2 ^ 24) with 16777216.
  destruct (Z.ltb_spec (code c) 128).
  - rewrite Z.lor_0_r. rewrite Z.mod_small; lia.
  - change (Z.lnot 0xffffff) with (-1 * 2 ^ 24). rewrite lor_add by (change (2 ^ 24) with 16777216; lia).
    change (2 ^ 24) with 16777216. Z.div_mod_to_equations. lia.
Qed.

Lemma ReadS24_value x : length x = 3%nat -> ReadS24 x = wrap_s 24 (word_u x).
Proof.
  destruct x as [|a [|b [|c [|]]]]; try done. intros _. unfold ReadS24, ReadS24LE, ReadS24BE, word_u, native.
  destruct IsBigEndian; [change (reverse [a; b; c]) with [c; b; a]|]; apply ConstructS24_value.
Qed.

Lemma pack_24_words l : pcm_pack_24 (as_bytes 4 l) = as_bytes 3 l.
Proof.
  unfold pcm_pack_24. rewrite chunks_as_bytes, map_map by lia. unfold as_bytes. f_equal. apply map_ext. apply pack_store.
Qed.

Lemma unpack_pack_24 l : Forall (sample_ok Traits_S24) l -> pcm_unpack_24 (pcm_pack_24 (as_bytes 4 l)) = l.
Proof.
  intros Hl. rewrite pack_24_words. unfold pcm_unpack_24. rewrite chunks_as_bytes, map_map by lia.
  induction Hl as [|v l Hv Hl IH]; [done|]. simpl. rewrite IH. f_equal.
  rewrite ReadS24_value by apply length_store. rewrite word_u_store_mod. change (256 ^ Z.of_nat 3) with (2 ^ 24).
  unfold wrap_s. rewrite Zplus_mod_idemp_l. unfold sample_ok in Hv.
  change (MIN Traits_S24) with (-8388608) in Hv. change (MAX Traits_S24) with 8388607 in Hv.
  change (2 ^ (24 - 1)) with 8388608. change (2 ^ 24) with 16777216. rewrite Z.mod_small; lia.
Qed.

(** Reversing twice. *)
Lemma reverse_twice s n : (0 < n)%nat -> whole n s -> reverse_bytes (reverse_bytes s n) n = s.
Proof.
  intros Hn Hw. assert (Hl : Forall (fun x => length x = n) (map reverse (chunks n s))).
  { apply Forall_map. apply whole_Forall; [done| |done]. intros x <-. apply length_reverse. }
  rewrite (reverse_bytes_frames s n Hn Hw), reverse_bytes_frames by (done || by apply whole_concat).
  rewrite chunks_concat, map_map by done. rewrite <- (concat_chunks n s) at 2 by done. f_equal.
  rewrite <- (map_id (chunks n s)) at 2. apply map_ext. apply reverse_involutive.
Qed.
End Memory.

(** *** DSD *)

Lemma Construct16_value a b : Construct16 (code a) (code b) = code a * 256 + code b.
Proof.
  pose proof (code_range b). unfold Construct16. rewrite shiftl_mul, lor_add by (done || (change (2 ^ 8) with 256; lia)).
  change (2 ^ 8) with 256. lia.
Qed.

Lemma Construct32_value a b c d :
  Construct32 (code a) (code b) (code c) (code d) = ((code a * 256 + code b) * 256 + code c) * 256 + code d.
Proof.
  pose proof (code_range b). pose proof (code_range c). pose proof (code_range d).
  unfold Construct32. rewrite !shiftl_mul by done.
  rewrite (lor_add (code d) (code c) 8), (lor_add _ (code b) 16), (lor_add _ (code a) 24);
    change (2 ^ 8) with 256; change (2 ^ 16) with 65536; change (2 ^ 24) with 16777216; lia.
Qed.

Lemma marker_value m a b : Z.lor (Z.lor (m * 2 ^ 16) (Z.shiftl (code a) 8)) (code b) = m * 65536 + code a * 256 + code b.
Proof.
  pose proof (code_range a). pose proof (code_range b). rewrite shiftl_mul by done.
  rewrite (Z.lor_comm (m * 2 ^ 16)), lor_add by (change (2 ^ 8) with 256; change (2 ^ 16) with 65536; lia).
  replace (code a * 2 ^ 8 + m * 2 ^ 16) with ((code a + m * 2 ^ 8) * 2 ^ 8) by (change (2 ^ 16) with (2 ^ 8 * 2 ^ 8); lia).
  rewrite Z.lor_comm, lor_add by (change (2 ^ 8) with 256; lia). change (2 ^ 8) with 256. lia.
Qed.

(** ** Packed samples are read back *)

Lemma ReadS24BE_value x : length x = 3%nat -> ReadS24BE x = wrap_s 24 (le_value (reverse x)).
Proof. destruct x as [|a [|b [|c [|]]]]; try done. intros _. unfold ReadS24BE. apply ConstructS24_value. Qed.

(** C26: Packing 24 bit samples and unpacking them gives them back, in the
    byte order of the machine and, with the bytes reversed where the machine
    is little-endian, in big-endian order. *)
Theorem packed_24_roundtrip {BO : ByteOrder} l :
  Forall (sample_ok Traits_S24) l ->
  let packed := pcm_pack_24 (as_bytes 4 l) in
  length packed = (3 * length l)%nat /\ pcm_unpack_24 packed = l /\
  pcm_unpack_24be (if IsBigEndian then packed else reverse_bytes packed 3) = l.
Proof.
  intros Hl packed. assert (Ep : packed = as_bytes 3 l) by apply pack_24_words.
  split; [by rewrite Ep, length_as_bytes|]. split; [by apply unpack_pack_24|].
  assert (Eb : (if IsBigEndian then packed else reverse_bytes packed 3) = concat (map (fun v => reverse (le_bytes 3 v)) l)).
  { rewrite Ep. unfold as_bytes, store. destruct IsBigEndian eqn:E; [by unfold native; rewrite E|].
    rewrite reverse_bytes_frames; [|lia|].
    - rewrite chunks_concat; [|lia|].
      + rewrite map_map. f_equal. apply map_ext. intros v. unfold native. by rewrite E.
      + apply Forall_map, Forall_forall. intros v _. by rewrite length_native, length_le_bytes.
    - apply whole_concat. apply Forall_map, Forall_forall. intros v _. by rewrite length_native, length_le_bytes. }
  rewrite Eb. unfold pcm_unpack_24be. rewrite chunks_concat; [|lia|].
  - rewrite map_map. clear - Hl. induction Hl as [|v l Hv Hl IH]; [done|]. cbn [map]. rewrite IH. f_equal.
    rewrite ReadS24BE_value by (by rewrite length_reverse, length_le_bytes). rewrite reverse_involutive, le_value_bytes.
    change (256 ^ Z.of_nat 3) with (2 ^ 24). unfold wrap_s. rewrite Zplus_mod_idemp_l. unfold sample_ok in Hv.
    change (MIN Traits_S24) with (-8388608) in Hv. change (MAX Traits_S24) with 8388607 in Hv.
    change (2 ^ (24 - 1)) with 8388608. change (2 ^ 24) with 16777216. rewrite Z.mod_small; lia.
  - apply Forall_map, Forall_forall. intros v _. by rewrite length_reverse, length_le_bytes.
Qed.

Lemma packed_24_roundtrip_witness :
  let le := {| IsBigEndian := false |} in
  let packed := @pcm_pack_24 le (@as_bytes le 4 [-5; 8388607; -8388608]) in
  length packed = 9%nat /\ @pcm_unpack_24 le packed = [-5; 8388607; -8388608] /\
  pcm_unpack_24be (@reverse_bytes le packed 3) = [-5; 8388607; -8388608].
Proof.
  intros le packed. apply (@packed_24_roundtrip le [-5; 8388607; -8388608]).
  repeat apply Forall_cons_2; try apply Forall_nil_2; by vm_compute.
Defined.
