(* ===== verification/PcmDevice.v ===== *)
(** What a device gets: the output of [PcmExport] against a reference that
    looks at one block of the stream at a time, whatever the buffers in which
    the stream comes; silence, block sizes, and the states in which
    [pcm/Export.cxx] contradicts itself. *)
From S2P Require Import Prelude Audio PcmSamples PcmBytes PcmExport PcmExportSpec PcmWords.
Open Scope Z_scope.

(** ** The reference *)

(** The formats whose channels [ToAlsaChannelOrder] reorders. *)
Definition reordered_format (f : SampleFormat) : bool :=
  match f with S16 | S24_P32 | S32 | FLOAT => true | UNDEFINED | S8 | DSD => false end.

Section Device.
Context {BO : ByteOrder}.

(** The words of a block: its samples in the order of the device, or the
    bytes of a channel, the oldest first, gathered in words. *)
Definition block_words (e : PcmExport) (x : bytes) : list Z :=
  let n := channel_count e in
  match dsd_mode e with
  | NONE =>
      let w := FromBytes (word_width e) x in
      if alsa_channel_order e && reordered_format (src_sample_format e)
      then reorder (alsa_order (ex_channels e)) w else w
  | U16 => map (fun c => at_byte x c * 256 + at_byte x (c + n)) (seq 0 n)
  | U32 =>
      map (fun c => ((at_byte x c * 256 + at_byte x (c + n)) * 256 + at_byte x (c + 2 * n)) * 256 + at_byte x (c + 3 * n))
        (seq 0 n)
  | DOP =>
      map (fun c => 0xff05 * 65536 + at_byte x c * 256 + at_byte x (c + n)) (seq 0 n) ++
      map (fun c => 0xfffa * 65536 + at_byte x (c + 2 * n) * 256 + at_byte x (c + 3 * n)) (seq 0 n)
  end.

(** The bytes of a word: the low three of them, the word times 256 or the
    word itself, in the byte order of the machine or the other one. *)
Definition device_word (e : PcmExport) (v : Z) : bytes :=
  let s := if pack24 e then store 3 v else if shift8 e then store 4 (v * 256) else store (word_width e) v in
  if (0 <? reverse_endian e)%nat then reverse s else s.

Definition device_block (e : PcmExport) (x : bytes) : bytes := concat (map (device_word e) (block_words e x)).

(** No rest of a block is waiting. *)
Definition fresh (e : PcmExport) : Prop :=
  match dsd_mode e with
  | NONE => True
  | U16 => rb_data (rest_buffer (dsd16_converter e)) = []
  | U32 => rb_data (rest_buffer (dsd32_converter e)) = []
  | DOP => rb_data (rest_buffer (dop_converter e)) = []
  end.

(** Exporting the buffers of a stream. *)
Fixpoint exports (e : PcmExport) (srcs : list bytes) : list bytes * PcmExport :=
  match srcs with
  | [] => ([], e)
  | src :: srcs => let '(dest, e) := Export e src in let '(dests, e) := exports e srcs in (dest :: dests, e)
  end.

(** ** Words *)

Lemma reverse_words n l : (0 < n)%nat -> reverse_bytes (as_bytes n l) n = concat (map (fun v => reverse (store n v)) l).
Proof.
  intros Hn. rewrite reverse_bytes_frames, chunks_as_bytes, map_map by (done || apply whole_as_bytes). done.
Qed.

Lemma shift_words l : as_bytes 4 (map (fun i => u32 (Z.shiftl i 8)) (FromBytes 4 (as_bytes 4 l))) = as_bytes 4 (map (fun v => v * 256) l).
Proof.
  rewrite as_bytes_map, chunks_as_bytes, map_map by lia. unfold as_bytes. rewrite map_map. f_equal. apply map_ext. apply shift_store.
Qed.

Lemma export_words_spec e l : export_ok e ->
  export_words e (as_bytes (word_width e) l) = concat (map (device_word e) l).
Proof.
  intros He. pose proof (word_width_pos e He) as Hp. destruct He as [_ _ _ _ _ _ H7 _ H8].
  assert (R : forall (n : nat) k (f : Z -> Z), (0 < n)%nat -> n = out_width e ->
    export_reverse e (as_bytes n (map f k)) =
    concat (map (fun v => if (0 <? reverse_endian e)%nat then reverse (store n (f v)) else store n (f v)) k)).
  { intros n k f Hn E. unfold export_reverse. destruct (Nat.ltb_spec 0 (reverse_endian e)) as [H|_].
    - destruct H8 as [H8|H8]; [lia|]. rewrite H8, <- E, reverse_words, map_map by done. done.
    - unfold as_bytes. by rewrite map_map. }
  unfold export_words, export_pack, device_word, out_width in *. destruct (pack24 e).
  - rewrite H7, pack_24_words by done. rewrite <- (map_id l) at 1. apply R; [lia|done].
  - destruct (shift8 e).
    + rewrite H7 by done. rewrite shift_words. apply R; [lia|by rewrite H7].
    + rewrite <- (map_id l) at 1. by apply R.
Qed.

(** ** Blocks *)

Lemma block_channels {n} (sample : bytes -> Z) (word : nat -> Z) x :
  (forall c, (c < n)%nat -> sample (drop c x) = word c) -> channel_samples sample n x = map word (seq 0 n).
Proof. intros H. apply map_ext_in. intros c Hc. apply in_seq in Hc. apply H. lia. Qed.

Lemma at_byte_drop x i j : at_byte (drop i x) j = at_byte x (i + j).
Proof.
  unfold at_byte. f_equal. revert i. induction x as [|c x IH]; intros [|i]; simpl; try done; first [by destruct j|by apply IH].
Qed.

Lemma dsd16_words n x : dsd16_block n x = map (fun c => at_byte x c * 256 + at_byte x (c + n)) (seq 0 n).
Proof.
  apply block_channels. intros c _. unfold Dsd8To16Sample. rewrite !at_byte_drop, Nat.add_0_r. apply Construct16_value.
Qed.

Lemma dsd32_words n x : dsd32_block n x =
  map (fun c => ((at_byte x c * 256 + at_byte x (c + n)) * 256 + at_byte x (c + 2 * n)) * 256 + at_byte x (c + 3 * n)) (seq 0 n).
Proof.
  apply block_channels. intros c _. unfold Dsd8To32Sample. rewrite !at_byte_drop, Nat.add_0_r. apply Construct32_value.
Qed.

Lemma dop_words n x : dop_block n x =
  map (fun c => 0xff05 * 65536 + at_byte x c * 256 + at_byte x (c + n)) (seq 0 n) ++
  map (fun c => 0xfffa * 65536 + at_byte x (c + 2 * n) * 256 + at_byte x (c + 3 * n)) (seq 0 n).
Proof.
  unfold dop_block. f_equal; apply block_channels; intros c _; rewrite !at_byte_drop, ?Nat.add_0_r.
  - apply (marker_value 0xff05).
  - replace (2 * n + c)%nat with (c + 2 * n)%nat by lia. replace (2 * n + (c + n))%nat with (c + 3 * n)%nat by lia.
    apply (marker_value 0xfffa).
Qed.

Lemma as_bytes_concat n (ls : list (list Z)) : as_bytes n (concat ls) = concat (map (as_bytes n) ls).
Proof. induction ls as [|l ls IH]; [done|]. simpl. by rewrite as_bytes_app, IH. Qed.

(** Frames of samples in the order of the device. *)
Lemma export_order_spec e s : export_ok e -> dsd_mode e = NONE -> whole (GetInputFrameSize e) s ->
  export_order e s = as_bytes (word_width e) (concat (map (block_words e) (chunks (GetInputFrameSize e) s))).
Proof.
  intros He E Hs. pose proof (word_width_pos e He) as Hp. pose proof (eo_channels e He) as Hc.
  assert (Ew : word_width e = Z.to_nat (sample_format_size (src_sample_format e))) by (unfold word_width; by rewrite E).
  assert (HF : (0 < GetInputFrameSize e)%nat).
  { unfold GetInputFrameSize, channel_count. rewrite <- Ew. destruct (Z.to_nat (ex_channels e)) eqn:En; [lia|]. destruct (word_width e); lia. }
  unfold export_order, block_words. rewrite E.
  destruct (alsa_channel_order e && reordered_format (src_sample_format e)) eqn:Eo.
  - apply andb_true_iff in Eo as [-> Er].
    assert (Hstep : ToAlsaChannelOrder s (src_sample_format e) (ex_channels e) =
      as_bytes (word_width e) (ToAlsaChannelOrderT (FromBytes (word_width e) s) (ex_channels e))).
    { rewrite Ew. by destruct (src_sample_format e). }
    rewrite Hstep. f_equal.
    assert (HsF : GetInputFrameSize e = (Z.to_nat (ex_channels e) * word_width e)%nat) by (unfold GetInputFrameSize, channel_count; by rewrite Ew).
    rewrite HsF in *. rewrite ToAlsaChannelOrderT_eq by (done || by apply whole_FromBytes). f_equal.
    clear -Hs Hp Hc HF. induction Hs as [|x l Hx Hl IH]; [unfold FromBytes; rewrite !chunks_nil; simpl; by rewrite chunks_nil|].
    assert (Hwx : whole (word_width e) x) by (by apply (whole_of_length _ (Z.to_nat (ex_channels e)))).
    rewrite FromBytes_app, (chunks_app _ x) by done. rewrite chunks_app; [|lia|].
    + simpl. by rewrite IH.
    + rewrite length_FromBytes. pose proof (whole_length _ x Hwx). nia.
  - transitivity s.
    + destruct (alsa_channel_order e); [|done]. simpl in Eo. by destruct (src_sample_format e).
    + rewrite as_bytes_concat, map_map. rewrite <- (concat_chunks (GetInputFrameSize e) s) at 1 by done. f_equal.
      rewrite <- (map_id (chunks _ s)) at 1. apply map_ext_Forall. apply whole_Forall; [done| |done].
      intros x Hx. symmetry. apply as_bytes_FromBytes; [done|]. apply (whole_of_length _ (Z.to_nat (ex_channels e))).
      rewrite Hx, Ew. done.
Qed.

Lemma concat_words e (ls : list bytes) :
  concat (map (device_word e) (concat (map (block_words e) ls))) = concat (map (device_block e) ls).
Proof. induction ls as [|x ls IH]; [done|]. simpl. by rewrite map_app, concat_app, IH. Qed.

(** The order leaves DSD alone. *)
Lemma export_order_dsd e s : export_ok e -> dsd_mode e <> NONE -> export_order e s = s.
Proof. intros He H. unfold export_order. rewrite (eo_dsd e He H). by destruct (alsa_channel_order e). Qed.

(** The words of a converter without a rest. *)
Lemma Dsd_Convert_fresh {k ch} (f : nat -> bytes -> nat -> list Z) (g : bytes -> list Z) c
    `{!Blockwise (k * ch) (f ch) g} s :
  conv_ok k ch c -> rb_data (rest_buffer c) = [] ->
  Dsd_Convert f c s = (concat (map g (chunks (k * ch) s)), mkDsd ch (mkRest (tail (k * ch) s) (k * ch))).
Proof.
  intros [H1 H2 H3] Hr. unfold Dsd_Convert. rewrite H1, (rb_Process_spec (g := g)) by done. by rewrite Hr.
Qed.

Lemma export_dsd_fresh e s : export_ok e -> fresh e -> dsd_mode e <> NONE ->
  fst (export_dsd e s) = as_bytes (word_width e) (concat (map (block_words e) (chunks (GetInputBlockSize e) s))).
Proof.
  intros [_ _ _ H4 H5 H6 _ _ _] Hf Hm. unfold export_dsd, fresh, word_width, GetInputBlockSize, block_words, Dsd_GetInputBlockSize in *.
  destruct (dsd_mode e) eqn:E; [done| | |].
  - specialize (H4 eq_refl). unfold Dsd16Converter_Convert. rewrite (Dsd_Convert_fresh Dsd8To16 _ _ s H4 Hf). simpl.
    rewrite (co_capacity _ _ _ H4). do 2 f_equal. apply map_ext. apply dsd16_words.
  - specialize (H5 eq_refl). unfold Dsd32Converter_Convert. rewrite (Dsd_Convert_fresh Dsd8To32 _ _ s H5 Hf). simpl.
    rewrite (co_capacity _ _ _ H5). do 2 f_equal. apply map_ext. apply dsd32_words.
  - specialize (H6 eq_refl). unfold DsdToDopConverter_Convert. rewrite (Dsd_Convert_fresh DsdToDop _ _ s H6 Hf). simpl.
    rewrite (co_capacity _ _ _ H6). do 2 f_equal. apply map_ext. apply dop_words.
Qed.

Lemma Export_fresh e s : export_ok e -> fresh e -> whole (GetInputFrameSize e) s ->
  fst (Export e s) = concat (map (device_block e) (chunks (GetInputBlockSize e) s)).
Proof.
  intros He Hf Hs. rewrite Export_eq. simpl.
  destruct (export_dsd_ok e (export_order e s) He) as (_ & Ho & _); [intros; by apply export_order_word|].
  rewrite (export_words_options e _ Ho), <- concat_words, <- (export_words_spec e _ He). f_equal.
  destruct (decide (dsd_mode e = NONE)) as [E|E].
  - assert (Ei : GetInputBlockSize e = GetInputFrameSize e) by (unfold GetInputBlockSize; by rewrite E).
    rewrite Ei, <- export_order_spec by done. unfold export_dsd. by rewrite E.
  - rewrite export_order_dsd by done. by apply export_dsd_fresh.
Qed.

(** Whole blocks leave no rest. *)
Lemma Export_fresh_state e s : export_ok e -> fresh e -> whole (GetInputBlockSize e) s -> fresh (snd (Export e s)).
Proof.
  intros He Hf Hs. rewrite Export_eq. simpl. destruct (decide (dsd_mode e = NONE)) as [E|E].
  { unfold export_dsd, fresh in *. rewrite E. simpl. by rewrite E. }
  rewrite export_order_dsd by done. pose proof He as [H1 _ _ H4 H5 H6 _ _ _].
  unfold export_dsd, fresh, GetInputBlockSize, Dsd_GetInputBlockSize, channel_count in *.
  destruct (dsd_mode e) eqn:Em; [done| | |].
  - specialize (H4 eq_refl). unfold Dsd16Converter_Convert. rewrite (Dsd_Convert_fresh Dsd8To16 _ _ s H4 Hf). simpl. rewrite Em. simpl.
    rewrite (co_capacity _ _ _ H4) in Hs. apply tail_whole; [lia|done].
  - specialize (H5 eq_refl). unfold Dsd32Converter_Convert. rewrite (Dsd_Convert_fresh Dsd8To32 _ _ s H5 Hf). simpl. rewrite Em. simpl.
    rewrite (co_capacity _ _ _ H5) in Hs. apply tail_whole; [lia|done].
  - specialize (H6 eq_refl). unfold DsdToDopConverter_Convert. rewrite (Dsd_Convert_fresh DsdToDop _ _ s H6 Hf). simpl. rewrite Em. simpl.
    rewrite (co_capacity _ _ _ H6) in Hs. apply tail_whole; [lia|done].
Qed.

(** ** Streams *)

Lemma exports_concat e srcs : export_ok e -> Forall (whole (GetInputFrameSize e)) srcs ->
  Export e (concat srcs) = (concat (fst (exports e srcs)), snd (exports e srcs)) \/ srcs = [].
Proof.
  intros He Hs. destruct Hs as [|s srcs Hw Hs]; [by right|]. left. revert e s He Hw Hs.
  induction srcs as [|s' srcs IH]; intros e s He Hw Hs.
  - simpl. rewrite app_nil_r. destruct (Export e s) as [d e']. simpl. by rewrite app_nil_r.
  - apply Forall_cons in Hs as [Hw' Hs]. destruct (Export_ok e s He Hw) as [He' Ho].
    assert (Ef : GetInputFrameSize (snd (Export e s)) = GetInputFrameSize e) by (by destruct Ho as (? & ? & ? & ->)).
    specialize (IH (snd (Export e s)) s' He'). rewrite Ef in IH. specialize (IH Hw' Hs).
    change (concat (s :: s' :: srcs)) with (s ++ concat (s' :: srcs)).
    rewrite Export_app; [|done|done|].
    2:{ assert (H : Forall (whole (GetInputFrameSize e)) (s' :: srcs)) by (by constructor). clear - H.
        induction H; simpl; [constructor|by apply whole_app_whole]. }
    rewrite IH. cbn [fst snd]. cbn [exports]. destruct (Export e s) as [d e']. simpl.
    destruct (Export e' s') as [d2 e2]. destruct (exports e2 srcs) as [ds e3]. done.
Qed.

Lemma exports_reference e srcs : export_ok e -> fresh e -> Forall (whole (GetInputFrameSize e)) srcs ->
  concat (fst (exports e srcs)) = concat (map (device_block e) (chunks (GetInputBlockSize e) (concat srcs))).
Proof.
  intros He Hf Hs. destruct (exports_concat e srcs He Hs) as [E| ->]; [|simpl; by rewrite chunks_nil].
  rewrite <- Export_fresh; [by rewrite E|done|done|].
  clear - Hs. induction Hs; simpl; [constructor|by apply whole_app_whole].
Qed.

(** ** Open *)

(** The options [Open] gives the object, before the moment of silence. *)
Lemma Open_options_ok sample_format channels params e0 :
  audio_valid_sample_format sample_format = true -> 1 <= channels <= 8 ->
  let e1 := Open_options sample_format channels params e0 in
  export_ok e1 /\ fresh e1 /\ src_sample_format e1 = sample_format /\ ex_channels e1 = channels /\
  (shift8 e1 = true -> par_shift8 params = true) /\ (pack24 e1 = true -> par_pack24 params = true) /\
  (dsd_mode e1 = DOP -> sample_format = DSD /\ par_dsd_mode params = DOP /\ pack24 e1 = par_pack24 params).
Proof.
  intros Hf Hc.
  assert (Hu : u8 channels = channels) by (unfold u8; apply wrap_u_id; change (2 ^ 8) with 256; lia).
  assert (Hcap : forall k, conv_ok (S k) (Z.to_nat channels) (mkDsd (Z.to_nat channels) (rb_Open (S k) (Z.to_nat channels))))
    by (intros k; split; [done|done|unfold rb_ok; simpl; lia]).
  destruct (par_dsd_mode params) eqn:Em; unfold Open_options; rewrite ?Em, Hu;
    destruct (bool_decide (sample_format = DSD)) eqn:Ed;
    [apply bool_decide_eq_true in Ed; subst sample_format|apply bool_decide_eq_false in Ed| 
     apply bool_decide_eq_true in Ed; subst sample_format|apply bool_decide_eq_false in Ed|
     apply bool_decide_eq_true in Ed; subst sample_format|apply bool_decide_eq_false in Ed|
     apply bool_decide_eq_true in Ed; subst sample_format|apply bool_decide_eq_false in Ed];
    cbv zeta;
    (split; [|split; [|split; [done|split; [done|simpl; rewrite ?andb_true_iff, ?andb_true_r; naive_solver]]]]);
    try done; split; simpl; try done; try (by destruct (par_shift8 params), (par_pack24 params), sample_format);
    try (by destruct (par_shift8 params), (par_pack24 params)); try apply Hcap; try (by intros; left); try (by intros; right).
  all: unfold out_width, word_width; simpl; destruct (par_reverse_endian params); [|by left].
  all: try destruct sample_format; try done; destruct (par_pack24 params); simpl; tauto.
Qed.

Lemma set_silence_ok s e : export_ok e -> export_ok (set_silence s e).
Proof. by intros []. Qed.

Lemma block_frames e (x : bytes) : export_ok e -> length x = GetInputBlockSize e ->
  (0 < GetInputBlockSize e)%nat /\ whole (GetInputFrameSize e) x.
Proof.
  intros He Hx. pose proof (word_width_pos e He) as Hp. pose proof He as [H1 _ H3 H4 H5 H6 _ _ _].
  unfold GetInputBlockSize, GetInputFrameSize, word_width, Dsd_GetInputBlockSize, channel_count in *.
  destruct (dsd_mode e); [split; [nia|by apply (whole_of_length _ 1); rewrite Hx; lia]| | |];
    rewrite (H3 ltac:(done)); simpl;
    [rewrite (co_capacity _ _ _ (H4 eq_refl)) in *|rewrite (co_capacity _ _ _ (H5 eq_refl)) in *|rewrite (co_capacity _ _ _ (H6 eq_refl)) in *].
  - split; [lia|]. apply (whole_of_length _ 2). lia.
  - split; [lia|]. apply (whole_of_length _ 4). lia.
  - split; [lia|]. apply (whole_of_length _ 4). lia.
Qed.

(** One block is exported as one block. *)
Lemma Export_block e x : export_ok e -> fresh e -> length x = GetInputBlockSize e -> fst (Export e x) = device_block e x.
Proof.
  intros He Hfr Hx. destruct (block_frames e x He Hx) as [Hpos Hw]. rewrite Export_fresh by done.
  rewrite <- (app_nil_r x) at 1. rewrite chunks_app, chunks_nil by done. simpl. apply app_nil_r.
Qed.

(** The number of words in a block. *)
Definition block_count (e : PcmExport) : nat :=
  (match dsd_mode e with DOP => 2 * channel_count e | NONE | U16 | U32 => channel_count e end)%nat.

Lemma length_block_words e x : export_ok e -> length x = GetInputBlockSize e -> length (block_words e x) = block_count e.
Proof.
  intros He Hx. pose proof (word_width_pos e He) as Hp. pose proof (eo_channels e He) as Hc.
  unfold block_words, block_count, GetInputBlockSize, GetInputFrameSize, word_width in *. destruct (dsd_mode e);
    [|by rewrite length_map, length_seq|by rewrite length_map, length_seq|rewrite length_app, !length_map, length_seq; lia].
  set (n := Z.to_nat (sample_format_size (src_sample_format e))) in *.
  assert (Hl : length (FromBytes n x) = channel_count e).
  { assert (Hw : whole n x) by (by apply (whole_of_length _ (channel_count e))).
    rewrite length_FromBytes. pose proof (whole_length n x Hw). nia. }
  destruct (_ && _); [|done]. unfold reorder. rewrite length_map.
  unfold channel_count. pose proof (Permutation_length (alsa_order_permutation (ex_channels e) Hc)) as H.
  by rewrite length_seq in H.
Qed.

Lemma length_device_word e v : export_ok e -> length (device_word e v) = out_width e.
Proof.
  intros He. unfold device_word, out_width. pose proof (eo_24 e He) as H.
  destruct (pack24 e); [|destruct (shift8 e); [rewrite H by done|]]; destruct (0 <? reverse_endian e)%nat;
    rewrite ?length_reverse; apply length_store.
Qed.

Lemma length_device_block e x : export_ok e -> length x = GetInputBlockSize e ->
  length (device_block e x) = (block_count e * out_width e)%nat.
Proof.
  intros He Hx. rewrite <- (length_block_words e x He Hx). unfold device_block.
  induction (block_words e x) as [|v l IH]; [done|]. simpl. by rewrite length_app, length_device_word, IH.
Qed.

(** [GetOutputBlockSize] forgets that packed DoP takes three bytes a word. *)
Lemma block_size_of_words e : export_ok e -> dsd_mode e <> DOP \/ pack24 e = false ->
  (block_count e * out_width e)%nat = GetOutputBlockSize e.
Proof.
  intros [_ _ _ H4 H5 H6 _ H8 _] Hd. unfold block_count, out_width, GetOutputBlockSize, GetOutputFrameSize, GetInputFrameSize,
    Dop_GetOutputBlockSize, Dsd_GetInputBlockSize, word_width in *.
  destruct (dsd_mode e); [destruct (pack24 e); lia| | |destruct Hd as [Hd| ->]; [done|]];
    rewrite ?(co_capacity _ _ _ (H4 eq_refl)), ?(co_capacity _ _ _ (H5 eq_refl)), ?(co_capacity _ _ _ (H6 eq_refl)); [| |lia];
    (destruct (pack24 e); [by destruct (H8 eq_refl)|lia]).
Qed.
(** The options with which [Open] can do its work: not both shifting and
    packing, and not unpacked DoP with eight channels, of which a block of
    silence fills the buffer. *)
Definition params_fit (sample_format : SampleFormat) (channels : Z) (params : Params) : bool :=
  negb (par_shift8 params && par_pack24 params) &&
  negb (bool_decide (sample_format = DSD) && bool_decide (par_dsd_mode params = DOP) && negb (par_pack24 params) &&
        (channels =? 8)).

Lemma block_sizes_fit e : export_ok e -> (dsd_mode e = DOP -> pack24 e = true \/ ex_channels e <= 7) ->
  (GetInputBlockSize e < 64)%nat /\ (block_count e * out_width e < 64)%nat.
Proof.
  intros [H1 H2 H3 H4 H5 H6 _ H8 _] Hd.
  assert (Hw : (Z.to_nat (sample_format_size (src_sample_format e)) <= 4)%nat) by (by destruct (src_sample_format e); vm_compute; lia).
  unfold GetInputBlockSize, GetInputFrameSize, block_count, out_width, word_width, Dsd_GetInputBlockSize, channel_count in *.
  destruct (dsd_mode e).
  - destruct (pack24 e); nia.
  - rewrite (co_capacity _ _ _ (H4 eq_refl)). destruct (pack24 e); [by destruct (H8 eq_refl)|]. lia.
  - rewrite (co_capacity _ _ _ (H5 eq_refl)). destruct (pack24 e); [by destruct (H8 eq_refl)|]. lia.
  - rewrite (co_capacity _ _ _ (H6 eq_refl)). destruct (pack24 e); [lia|]. destruct (Hd eq_refl); [done|]. lia.
Qed.

(** [Open] succeeds, the object is ready, and its silence is a silent
    block. *)
Lemma Open_ready sample_format channels params e0 :
  audio_valid_sample_format sample_format = true -> 1 <= channels <= 8 -> params_fit sample_format channels params = true ->
  exists e, PcmExport_Open sample_format channels params e0 = Some e /\
    export_ok e /\ fresh e /\ src_sample_format e = sample_format /\ ex_channels e = channels /\
    GetSilence e = device_block e (PcmSilence (GetInputBlockSize e) sample_format).
Proof.
  intros Hf Hc Hfit. destruct (Open_options_ok sample_format channels params e0 Hf Hc) as (He & Hfr & Hs & Hch & H8 & H24 & Hdop).
  unfold PcmExport_Open. rewrite Hf. simpl. cbv zeta.
  assert (audio_valid_channel_count channels = true) as -> by (unfold audio_valid_channel_count, MAX_CHANNELS; lia).
  rewrite andb_false_r. set (e1 := Open_options _ _ _ _) in *. apply andb_true_iff in Hfit as [Hfit1 Hfit2].
  assert (shift8 e1 && pack24 e1 = false) as ->.
  { destruct (shift8 e1), (pack24 e1); try done. by rewrite H8, H24 in Hfit1. }
  destruct (block_sizes_fit e1 He) as [Hin Hout].
  { intros Hd. destruct (Hdop Hd) as (-> & Hm & ->). rewrite Hch. rewrite Hm in Hfit2. destruct (par_pack24 params); [by left|].
    right. simpl in Hfit2. destruct (Z.eqb_spec channels 8); [done|lia]. }
  unfold Open_silence. rewrite (proj2 (Nat.ltb_lt _ _) Hin), Hs. simpl.
  set (x := PcmSilence (GetInputBlockSize e1) sample_format).
  assert (Hx : length x = GetInputBlockSize e1) by apply length_replicate.
  pose proof (Export_block e1 x He Hfr Hx) as Ex. pose proof (length_device_block e1 x He Hx) as Hlen.
  destruct (block_frames e1 x He Hx) as [Hpos Hw].
  assert (Hblock : whole (GetInputBlockSize e1) x) by (apply (whole_of_length _ 1); lia).
  pose proof (Export_fresh_state e1 x He Hfr Hblock) as Hfr'.
  destruct (Export_ok e1 x He Hw) as [He' Ho]. destruct (Export e1 x) as [y e2]. cbn [fst snd] in *. subst y.
  rewrite Hlen, (proj2 (Nat.ltb_lt _ _) Hout). simpl.
  assert (Ei : GetInputBlockSize e2 = GetInputBlockSize e1).
  { pose proof He as [_ _ _ H4 H5 H6 _ _ _]. pose proof He' as [_ _ _ H4' H5' H6' _ _ _].
    destruct Ho as (d16 & d32 & dop & E). rewrite E in *. unfold GetInputBlockSize, Dsd_GetInputBlockSize. simpl in *.
    destruct (dsd_mode e1); [done| | |].
    - by rewrite (co_capacity _ _ _ (H4 eq_refl)), (co_capacity _ _ _ (H4' eq_refl)).
    - by rewrite (co_capacity _ _ _ (H5 eq_refl)), (co_capacity _ _ _ (H5' eq_refl)).
    - by rewrite (co_capacity _ _ _ (H6 eq_refl)), (co_capacity _ _ _ (H6' eq_refl)). }
  eexists. split; [done|]. split; [by apply set_silence_ok|]. split; [done|].
  split; [by destruct Ho as (? & ? & ? & ->)|]. split; [by destruct Ho as (? & ? & ? & ->)|].
  change (GetSilence (set_silence ?y e2)) with y. change (GetInputBlockSize (set_silence ?y e2)) with (GetInputBlockSize e2).
  rewrite Ei. fold x. destruct Ho as (? & ? & ? & ->). done.
Qed.
End Device.

(** C24: Opening an exporter with options that fit succeeds, and then a
    device gets the same bytes in whatever buffers of whole frames the
    stream comes: those of the reference, which takes the stream block by
    block. *)
Theorem export_stream {BO : ByteOrder} sample_format channels params e0 srcs :
  audio_valid_sample_format sample_format = true -> 1 <= channels <= 8 -> params_fit sample_format channels params = true ->
  exists e, PcmExport_Open sample_format channels params e0 = Some e /\
    (Forall (whole (GetInputFrameSize e)) srcs ->
     concat (fst (exports e srcs)) = concat (map (device_block e) (chunks (GetInputBlockSize e) (concat srcs)))).
Proof.
  intros Hf Hc Hfit. destruct (Open_ready sample_format channels params e0 Hf Hc Hfit) as (e & Ho & He & Hfr & _).
  exists e. split; [done|]. intros Hs. by apply exports_reference.
Qed.

(** The silence of an opened exporter is one exported block of silence,
    and an exported block has the size that [GetOutputBlockSize] says, except
    for packed DoP. *)
Theorem export_silence {BO : ByteOrder} sample_format channels params e0 :
  audio_valid_sample_format sample_format = true -> 1 <= channels <= 8 -> params_fit sample_format channels params = true ->
  exists e, PcmExport_Open sample_format channels params e0 = Some e /\
    let silent := PcmSilence (GetInputBlockSize e) sample_format in
    GetSilence e = device_block e silent /\ fst (Export e silent) = GetSilence e /\
    (dsd_mode e <> DOP \/ pack24 e = false ->
     length (GetSilence e) = GetOutputBlockSize e /\
     forall x, length x = GetInputBlockSize e -> length (device_block e x) = GetOutputBlockSize e).
Proof.
  intros Hf Hc Hfit. destruct (Open_ready sample_format channels params e0 Hf Hc Hfit) as (e & Ho & He & Hfr & Hsf & Hch & Hsil).
  exists e. split; [done|]. intros silent. fold silent in Hsil.
  assert (Hl : length silent = GetInputBlockSize e) by apply length_replicate.
  split; [done|]. split.
  - rewrite Hsil. by apply Export_block.
  - intros Hd. assert (Hx : forall x, length x = GetInputBlockSize e -> length (device_block e x) = GetOutputBlockSize e)
      by (intros x Hx; by rewrite length_device_block, block_size_of_words).
    split; [by rewrite Hsil, Hx|done].
Qed.

(** ** Concrete exporters *)

Definition no_converter : DsdConverter := mkDsd 0 (mkRest [] 0).

(** An object that was never opened. *)
Definition PcmExport_init : PcmExport :=
  mkExport no_converter no_converter no_converter [] UNDEFINED 0 false NONE false false 0.

Lemma export_stream_witness :
  let le := {| IsBigEndian := false |} in
  let srcs := [map chr [1; 2; 3; 4; 5; 6]; map chr [7; 8; 9; 10; 11; 12; 13; 14; 15; 16]; map chr [17; 18]] in
  exists e, @PcmExport_Open le DSD 2 (mkParams false DOP false true true) PcmExport_init = Some e /\
    concat (fst (@exports le e srcs)) = concat (map (@device_block le e) (chunks (GetInputBlockSize e) (concat srcs))).
Proof.
  intros le srcs.
  destruct (@export_stream le DSD 2 (mkParams false DOP false true true) PcmExport_init srcs) as (e & Ho & H);
    [reflexivity|lia|reflexivity|].
  exists e. split; [exact Ho|]. apply H. assert (Some (GetInputFrameSize e) = Some 2%nat) as E.
  { change (Some (GetInputFrameSize e)) with (GetInputFrameSize <$> Some e). rewrite <- Ho. by vm_compute. }
  injection E as E. rewrite E.
  repeat apply Forall_cons_2; try apply Forall_nil_2;
    [apply (whole_of_length 2 3)|apply (whole_of_length 2 5)|apply (whole_of_length 2 1)]; reflexivity.
Defined.

Lemma export_silence_witness :
  let le := {| IsBigEndian := false |} in
  exists e, @PcmExport_Open le S16 6 (mkParams true NONE false false true) PcmExport_init = Some e /\
    let silent := PcmSilence (GetInputBlockSize e) S16 in
    GetSilence e = @device_block le e silent /\ fst (@Export le e silent) = GetSilence e /\
    (dsd_mode e <> DOP \/ pack24 e = false ->
     length (GetSilence e) = GetOutputBlockSize e /\
     forall x, length x = GetInputBlockSize e -> length (@device_block le e x) = GetOutputBlockSize e).
Proof.
  apply (@export_silence {| IsBigEndian := false |} S16 6 (mkParams true NONE false false true) PcmExport_init);
    [reflexivity|lia|reflexivity].
Defined.

(** Packed DoP: a block of stereo is 12 bytes, but [GetOutputBlockSize] says
    16. *)
Example packed_dop_block_size :
  (fun e => (GetOutputBlockSize e, length (GetSilence e))) <$>
    @PcmExport_Open {| IsBigEndian := false |} DSD 2 (mkParams false DOP false true false) PcmExport_init = Some (16%nat, 12%nat).
Proof. by vm_compute. Qed.

(** DoP with eight channels: a block of silence fills the buffer of 64 bytes,
    which the assertion of [Open] takes for an overflow. *)
Example dop_silence_assertion :
  @PcmExport_Open {| IsBigEndian := false |} DSD 8 (mkParams false DOP false false false) PcmExport_init = None /\
  let e := @Open_options DSD 8 (mkParams false DOP false false false) PcmExport_init in
  length (fst (@Export {| IsBigEndian := false |} e (PcmSilence (GetInputBlockSize e) DSD))) = 64%nat.
Proof. by vm_compute. Qed.
